(* ===== verification/_CoqProject ===== *)
-Q . S2P
Prelude.v
Text.v
Secret.v
SecretFacts.v
Config.v
Errors.v
External.v
OrderedMap.v
Amm.v
Domain.v
WireEvents.v
Extractor.v
Translator.v
Extraction.v
WireRoundTrip.v
Reference.v
ExtractionFacts.v
FeeParameters.v
PoolAccount.v
GrpcAdapter.v
RpcAdapter.v
SlotBuffer.v
SlotBufferFacts.v
Session.v
SessionFacts.v
Recorder.v
RecorderFacts.v
Listener.v
ListenerFacts.v
RpcPipeline.v
RpcPipelineFacts.v
RpcSource.v
RpcSourceFacts.v
Store.v
Rows.v
Persist.v
PersistFacts.v
RowsFacts.v
ProjectionFacts.v
Signals.v
SignalsFacts.v
Worker.v
Analytic.v
AnalyticFacts.v
AnalyticRuns.v
Cursor.v
CursorFacts.v
Price.v
PriceFacts.v
PriceRuns.v
PriceTurns.v
Jupiter.v
PoolResolver.v
PoolResolverFacts.v
PoolResolverRuns.v
PriceWitness.v
Keyset.v
KeysetFacts.v
EventLists.v
EventApi.v
EventListsFacts.v
MergedListsFacts.v
Period.v
SwapMeasures.v
SwapMeasuresFacts.v
SwapMeasuresRuns.v
EventWalk.v
Metadata.v
MetadataRuns.v
Catalogue.v
CatalogueFacts.v
EventWitness.v
Live.v
LiveFeeds.v
LiveFeedsFacts.v
SignalFeed.v
SignalFeedFacts.v
LiveStream.v
LiveStreamFacts.v
LiveWitness.v
