(* ===== verification/Prelude.v ===== *)
(** * Yog-Sothoth, verified

    Yog-Sothoth watches the Meteora programs of Solana (DAMM v2, and DLMM for
    its pool accounts): an indexer reads the confirmed stream of the chain,
    extracts the programs' events and stores them; other processes price the
    mints, freeze an hourly analytic of the tables, raise signals, and an api
    serves pages of what is stored. This library models the code of those
    processes as pure functions, small error computations and transition
    systems, translated from the Rust sources, and proves what they guarantee.

    ** How the parts interact

    Bytes come from a Yellowstone stream. A [Session] feeds each message to the
    [SlotBuffer], which holds a transaction until its slot is finalized in a
    known bank; what it releases goes through the [GrpcAdapter] to the channel of
    the [Worker]. The [Listener] opens one session after another, under a budget
    of retries, and the [Recorder] saves the span each of them received. The
    [Worker] runs a bounded number of tasks; a task ([Persist]) gives its
    transaction to the dispatcher of [Extraction] ([Extractor] finds the event
    payloads, [WireEvents] reads them, [Translator] makes domain events) and
    stores each event by the statements of [Store]. Pool accounts are read by
    [PoolAccount], fee blobs by [FeeParameters], and the fees themselves computed
    by [Amm]. The same transactions can come from a second source: the
    [RpcSource] subscribes to logs, each watched program or pool in a worker of
    its own, and hands signatures to the [RpcPipeline], whose dispatcher
    (in [RpcAdapter]) filters them and whose fetch stage asks a node for each
    transaction and reads it through the [RpcAdapter]. The settings of every
    process, its endpoints and its stop are [Config]; what it prints of an
    endpoint is [Secret]. Beside it, over the same database, run the [Price] worker with its
    source [Jupiter], the [PoolResolver], which reads the accounts of the pools
    the indexer discovers or flags, the [Metadata] worker, which names the mints of
    those pools, the [Analytic] writers, and the [Signals] engine. [Keyset]
    and [EventLists] serve what is stored, page after page, each page followed by
    the [Cursor] it was cut at; [SignalFeed] serves the signals the same way, and [Catalogue] the pools, the
    tokens and their prices. The
    [Live] pollers read the event tables ([LiveFeeds]) and the signals past the
    last id they delivered, and broadcast what they find to the connections of
    [LiveStream]. The totals and the series of [SwapMeasures] are read over a
    [Period] of the tables the [Analytic] writers keep, through the last hour
    frozen or the last tranche written.

    ** The files, and the code each one models (under src/crates/)

    - Prelude, OrderedMap, Text: results, panics, machine-width integers and
      lists; the ends of a [BTreeMap] and stable sorting; [str]'s methods.
    - Secret, SecretFacts: bootstrap/src/secret.rs. Config: bootstrap/src/
      (env.rs, endpoint.rs, error.rs, shutdown.rs), with its theorems.
    - Errors: core/src/error/. Domain: core/src/domain/ (protocols, positions
      and the nineteen DAMM v2 events, a Module each).
    - External: the interfaces of third-party crates, with their laws;
      Reference: concrete instances of them and the mainnet
      transaction of core/src/application/extraction/conformance.rs, for witnesses.
    - Amm: core/src/amm/ ([Common], [DammV2], [Dlmm]), with its theorems.
    - WireEvents, Extractor, Translator, Extraction; WireRoundTrip,
      ExtractionFacts: core/src/application/extraction/, a Module per mirrored
      struct, the payload loop, the translators, the dispatcher.
    - FeeParameters: the fee blobs (meteora/damm_v2/fee_parameters.rs).
      PoolAccount: core/src/application/decoder/. Each with its theorems.
    - GrpcAdapter, SlotBuffer, Session, Recorder, Listener, with their theorems
      or the files of their Facts: indexer/src/infra/grpc/ and
      indexer/src/infra/refusal.rs. RpcAdapter, RpcPipeline, RpcSource, the same:
      indexer/src/infra/rpc/, scheme.rs and credential.rs of infra/endpoint/.
    - Store: the writes of persistence/src/repositories/ the indexer sends.
      Persist, PersistFacts, ProjectionFacts: indexer/src/application/services/.
      Worker: indexer/src/application/workers/indexer.rs.
    - Signals, SignalsFacts: signals/src/application/ and the table of
      persistence/src/repositories/signal.rs.
    - Analytic, AnalyticFacts, AnalyticRuns: core/src/domain/analytic/,
      persistence/src/repositories/analytic.rs and analytic/src/application/.
    - Price, PriceFacts, PriceRuns, PriceTurns, PriceWitness: context/src/
      application/workers/price.rs with its submodules, the domain types it uses
      and persistence/src/repositories/token_price.rs. Jupiter:
      context/src/infra/jupiter_price.rs, with its theorems.
    - PoolResolver: context/src/application/workers/pool_account.rs with its
      source infra/solana_account.rs and its repositories (pool_properties.rs of
      both protocols, the registry write of pool.rs). PoolResolverFacts: what its
      statements keep; PoolResolverRuns: its runs beside the indexer.
    - Metadata: context/src/application/workers/metadata.rs with its scope and the
      endings of a tick, source/metadata.rs, infra/helius_das.rs and the writes of
      persistence/src/repositories/token_metadata.rs. MetadataRuns: its runs
      beside the indexer and the resolver.
    - Cursor, CursorFacts: api/src/http/cursor.rs.
    - Rows, RowsFacts: the rows of the nineteen event tables and their
      conversions, persistence/src/repositories/ (helper/parser.rs, rows.rs of
      each list).
    - Keyset, KeysetFacts: core/src/tools/pagination.rs, helper/pagination.rs,
      helper/query_mod.rs; what ORDER BY and LIMIT give.
    - EventLists, EventListsFacts, MergedListsFacts: helper/event_page.rs and the
      nine lists of events. EventApi: the twenty-six routes of
      those lists, from the request (api/src/http/dto/request/) to the page
      (api/src/application/pool_pairs.rs, the event services, the handlers).
    - Catalogue: the reads of persistence/src/repositories/ (token_metadata.rs,
      token_price.rs, pool.rs and their rows), token_service.rs, pool_service.rs,
      the requests and responses of the pools and tokens and their handlers
      (token.rs, pools.rs). CatalogueFacts: its lists walked while the workers
      write, and the lookups of the pairs.
    - EventWalk: a client that follows the next cursors of any list (Section
      Follow), what the routes of the events promise, and their walk. EventWitness: the tables [Persist] leaves, read while it goes on.
    - Live: watermark.rs, live.rs and poller.rs of api/src/application/live/, with
      their theorems. LiveFeeds, LiveFeedsFacts: core/src/domain/event_table.rs
      and live_event_feed.rs, the tables of each collection and their live reads
      (live.rs of eight repositories), event_source.rs and pollers.rs.
    - SignalFeed, SignalFeedFacts: the reads of persistence/src/repositories/
      signal.rs, api/src/application/services/signal_service.rs and
      api/src/http/handlers/signals.rs with its request.
    - Period: api/src/application/services/ (period.rs, windows_service.rs),
      persistence/src/repositories/protocol_activity.rs, the window of a request
      and of a response. SwapMeasures: core/src/domain/swap_activity/,
      persistence/src/repositories/swap_activity.rs with its rows,
      swap_activity_service.rs and the handlers of the totals and the series.
      SwapMeasuresFacts: what the groups and the sums of its SQL keep.
      SwapMeasuresRuns: the answers while cycles are written.
    - LiveStream, LiveStreamFacts: api/src/http/handlers/live.rs with its
      request, channels.rs and [LiveCursor]. LiveWitness: rows read live.

    In every component a struct is a [Record], an enum an [Inductive] with the
    source's constructors, a method a [Definition] of the same name that takes
    and returns the state. Integers keep their width: an addition that wraps,
    saturates or panics is written so. Metrics are a log of the state, so a
    theorem can say that nothing is dropped without being counted. Shared or
    concurrent state is a step relation or a list of actions ([Worker.step],
    [Recorder], [AnalyticRuns], [PriceRuns]).

    ** What the theorems show

    - Extraction: every event the program emits comes back whole at its index
      and every payload is accounted for; translation keeps pool, position and
      orientation; fee blobs and wire events round trip; the decoders of accounts
      never panic and name the reason of every refusal.
    - Ingestion: the buffer conserves, bounds and orders its payloads and
      releases only transactions finalized in an admitted bank; a session refines
      the buffer; over a whole run with reconnections only finalized transactions
      are handed over; a received span is never lost. Both sources read one
      transaction alike, index for index; the stages of the second account for
      every notification, what they lose without counting it included (a full
      first channel, what is queued when a stage returns), and its verdict names
      each failure of a stage.
    - Storage: an event is stored, found stored, or counted as failed; a replay
      stores nothing; the projection shows stored events and converges to the
      latest one delivered; the worker, under any interleaving, accounts for every
      transaction, those sent after its last drain being lost uncounted, and stops.
    - Derived data: a frozen hour is final and the analytic tables stay in order
      under interleaved writers once the first cycle is committed, retention
      included; they catch up after an outage ([AnalyticRuns] shows two first
      plans losing tranches); the prices left
      out of the series are invisible to its readers, an answered price is current,
      mints are asked in turn, and the client keeps under its key's rate limit;
      a total is the sum of its series at every step and is made of the very
      five-minute facts written of its period, and neither changes when asked
      again, the number of pools of a frozen period apart;
      the signals engine keeps its cooldowns and loses no candidate silently;
      a pool leaves the resolver's queue showing one account of the node (but for
      a fee kind its COALESCE may keep of an earlier one), and the
      queues drain; a row of the metadata is one asset of its mint, written once
      unless Helius answers what it was not asked,
      and a mint the node knows gets its row, unless a text of it holds a NUL
      ([MetadataRuns.nul_keeps_a_mint_missing]); a flag raised while an account is on its way is lost
      ([PoolResolverRuns.Watched]), and a hundred unreadable pools starve a queue.
    - The api: a cursor is read back by its own list and refused by any other.
      Every row the indexer stores reads back as it was extracted. A list,
      however many statements it sends while rows are being written, answers one
      page of its tables as they were at one moment; following the cursors of a
      route meets each event once, newest first, and reaches the last page;
      a page of the signals turned forth and back is the same page.
    - The catalogue: the lists of the pools, the tokens and the prices of a token,
      followed by their cursors while the workers write, meet every row once and
      reach the last page; the lookups keep what the pairs of the events rely on.
    - Live: a poller sends a row at most once, none at or below the tip it read
      when it was anchored, and drains a burst in order when the ids have no hole; a
      connection meets a row once, only of its topics and protocol. An id above a
      hole is read again at each tick and its age starts over, so the settling the
      source describes never comes ([LiveFeedsFacts.a_hole_stops_the_stream]).
    - Processes: a URL is printed as its identifying pieces, and no text scrubbed
      of a URL repeats a secret of it, within the bounds [SecretFacts] states (the
      shapes where the redaction shows too little or cuts wrong are named there);
      a refused setting is named without its value.
    - Fees: the schedulers compute the published formula, exactly or within a
      bound that is stated.

    ** Interfaces

    Code that is not in the repository is a class, and its documented laws
    another: [DecimalOps], [DecimalRounding], [DecimalText], [DecimalFloat]
    (rust_decimal), [Borsh], [Sha256], [Base58], [SignatureDisplay], [Chrono],
    [ChronoDelta], [DurationTrunc], [Rfc3339] (chrono), [SerdeJson], [Base64],
    [Numeric], [ProtocolPeriods], [BigDecimal], [DistinctOn], [Collation], [Tables], [RowIds],
    [PgClock], [ScanOrder], [AnalyticSql] (PostgreSQL), [Base64Standard],
    [MintOrder], [CatalogueTables], [NumericDecimal] (PostgreSQL and sqlx), [UrlParse] (url),
    [AccountNode] (getMultipleAccounts), [DasNode] (getAssetBatch), [Channels] (tokio), [Network] (the http
    client), [Bs58] and [HttpHeaders] (of the node's client). [Postgres] decides which statements fail, by
    an arbitrary fault at an arbitrary statement; a statement is atomic. The
    classes between components are [EventExtractor], [SignalDetector],
    [ObservedSlotsRepository], [PriceSource], [resolver_laws] (of a protocol's
    resolver), [Rely] (what a resolver relies on of the indexer), [MetadataSource]
    (the metadata worker's source), [CatalogueLaws] (what the lists rely on of the
    writers), [PoolCatalog] and [TokenMetadataLookup], [EventLookup], [LiveEventFeed] (with
    [EventTable]), [OnPool], [PeriodBounds], [Snapshots] (the tables each statement
    of a read sees, [served] by the writers' run) and [Wire]: a client
    is proved against the class, and the implementation discharges its laws (the
    client of [Jupiter], the detectors of [SignalsFacts], the nine lists of
    [MergedListsFacts], the eight [LiveFeedLaws] of [LiveFeedsFacts], the instances
    of [WireLaws]). A route in turn keeps
    [RouteLaws], against which the walk is proved; [EventTables] states what a
    list relies on while it is read, and [EventWitness] that the indexer's
    tables keep it. Each property with such hypotheses is
    followed by a witness on concrete instances.

    ** Bounds and fuel

    Loops of the source that are not structural take a fuel, and a lemma shows
    the fuel is enough: the eviction loops of [SlotBuffer] (one step per
    payload or per slot), the repeated squaring of [Amm] (the 128 bits of the
    exponent), the tranches of [Analytic] (their number in the window), base58
    (the length of the input), the chunks of [Jupiter] (the length of the list)
    and its retries (three attempts, the constant of the source), the loops over
    a string (its length), the settling of [Live] (the ids delivered, and one).
    Streams,
    histories and runs are lists of any length.

    ** Not modelled

    - Transport and processes: the dialling and TLS of the Yellowstone
      connection and of the websocket, the assembly of each process, heartbeats,
      log lines, alarms. They are I/O around the modelled parts.
    - The SQL of the other windowed reads (the activity of tokens, the liquidity,
      the rotations, the claims), which computes over tables the cycles write
      beside those of the plan: [AnalyticSql] holds what the analytic writers rely
      on.
    - Migrations and the retention policies of TimescaleDB, one apart, the
      router, OpenAPI and serialization of the api, and the web front end
      (TypeScript). The policy of the five-minute facts (seven days) is a step of
      [AnalyticRuns.life], which is taken to drop facts of frozen hours only: with
      writers a week late it would drop facts no hour sums yet. The theorems of
      [AnalyticRuns] and [SwapMeasuresRuns] speak of the facts ever written and
      tell which of them the table still holds; the statements of one request see
      no policy run between them ([SwapMeasuresRuns.served]). The lists of events
      are read over tables that only grow while a client follows its cursors.
    - A connection's [select_all] takes its streams in any interleaving; the JSON
      of an item is left out.
    - Timers are data: an instant is part of an action or a tick. The capacity
      of channels, which only delays a sender, is left out, and so are the binary
      format of a [Decimal] and the calendar of chrono.
    - The detail of one pool with its protocol's properties, the counts of pools
      by protocol, the lists of announcements and the api keys.
    - The archive's steps, the verdicts of the alarms and the settings of each
      daemon: loops and timers around calls of the parts above or of other
      services. *)

From Stdlib Require Export ZArith Lia Bool.
From stdpp Require Export base numbers list option strings gmap.

#[global] Open Scope Z_scope.
#[global] Set Default Goal Selector "!".

(** ** Fallible computations

    [result A E] is Rust's [Result<A, E>]; [exec A] is a computation that may
    panic (a division by zero, an [expect] on [None]): nothing observes it
    afterwards. *)

Inductive result (A E : Type) : Type :=
| Ok (a : A)
| Err (e : E).
Arguments Ok {A E} a.
Arguments Err {A E} e.

Inductive exec (A : Type) : Type :=
| Done (a : A)
| Panic.
Arguments Done {A} a.
Arguments Panic {A}.

Definition result_bind {A B E} (r : result A E) (k : A -> result B E) : result B E :=
  match r with
  | Ok a => k a
  | Err e => Err e
  end.

Definition opt_bind {A B} (o : option A) (k : A -> option B) : option B :=
  match o with
  | Some a => k a
  | None => None
  end.

Definition exec_bind {A B} (e : exec A) (k : A -> exec B) : exec B :=
  match e with
  | Done a => k a
  | Panic => Panic
  end.

Definition result_map {A B E} (f : A -> B) (r : result A E) : result B E :=
  match r with
  | Ok a => Ok (f a)
  | Err e => Err e
  end.

Definition map_err {A E F} (f : E -> F) (r : result A E) : result A F :=
  match r with
  | Ok a => Ok a
  | Err e => Err (f e)
  end.

(** [Option::ok_or]. *)
Definition ok_or {A E} (o : option A) (e : E) : result A E :=
  match o with
  | Some a => Ok a
  | None => Err e
  end.

(** [Result::ok]. *)
Definition result_ok {A E} (r : result A E) : option A :=
  match r with
  | Ok a => Some a
  | Err _ => None
  end.

Declare Scope rust_scope.
Delimit Scope rust_scope with rust.

(** The [?] operator, on [Result] and on [Option]. *)
Notation "'let?' x := r 'in' k" := (result_bind r (fun x => k))
  (at level 10, x pattern, r at level 100, k at level 200) : rust_scope.
Notation "'let!' x := o 'in' k" := (opt_bind o (fun x => k))
  (at level 10, x pattern, o at level 100, k at level 200) : rust_scope.
Notation "'let*' x := e 'in' k" := (exec_bind e (fun x => k))
  (at level 10, x pattern, e at level 100, k at level 200) : rust_scope.
#[global] Open Scope rust_scope.

#[global] Instance result_eq_dec {A E} `{EqDecision A} `{EqDecision E} :
  EqDecision (result A E).
Proof. solve_decision. Defined.

#[global] Instance exec_eq_dec {A} `{EqDecision A} : EqDecision (exec A).
Proof. solve_decision. Defined.

Lemma result_bind_Ok {A B E} (r : result A E) (k : A -> result B E) b :
  result_bind r k = Ok b <-> exists a, r = Ok a /\ k a = Ok b.
Proof. destruct r as [a|e]; naive_solver. Qed.

Lemma result_bind_Err {A B E} (r : result A E) (k : A -> result B E) e :
  result_bind r k = Err e <-> r = Err e \/ exists a, r = Ok a /\ k a = Err e.
Proof. destruct r as [a|e']; naive_solver. Qed.

Lemma opt_bind_Some {A B} (o : option A) (k : A -> option B) b :
  opt_bind o k = Some b <-> exists a, o = Some a /\ k a = Some b.
Proof. destruct o as [a|]; naive_solver. Qed.

Lemma opt_bind_None {A B} (o : option A) (k : A -> option B) :
  opt_bind o k = None <-> o = None \/ exists a, o = Some a /\ k a = None.
Proof. destruct o as [a|]; naive_solver. Qed.

Lemma exec_bind_Done {A B} (e : exec A) (k : A -> exec B) b :
  exec_bind e k = Done b <-> exists a, e = Done a /\ k a = Done b.
Proof. destruct e as [a|]; naive_solver. Qed.

Lemma ok_or_Ok {A E} (o : option A) (e : E) a : ok_or o e = Ok a <-> o = Some a.
Proof. destruct o; naive_solver. Qed.

Lemma ok_or_Err {A E} (o : option A) (e e' : E) :
  ok_or o e = Err e' <-> o = None /\ e = e'.
Proof. destruct o; naive_solver. Qed.

(** Walks through the binds of a hypothesis [... = Ok _] or [... = Some _]. *)
Ltac inv_binds :=
  repeat match goal with
  | H : result_bind _ _ = Ok _ |- _ =>
      let x := fresh "x" in let Hx := fresh "Hx" in
      apply result_bind_Ok in H as (x & Hx & H)
  | H : opt_bind _ _ = Some _ |- _ =>
      let x := fresh "x" in let Hx := fresh "Hx" in
      apply opt_bind_Some in H as (x & Hx & H)
  | H : exec_bind _ _ = Done _ |- _ =>
      let x := fresh "x" in let Hx := fresh "Hx" in
      apply exec_bind_Done in H as (x & Hx & H)
  | H : ok_or _ _ = Ok _ |- _ => apply ok_or_Ok in H
  | H : Ok _ = Ok _ |- _ => injection H as H; subst
  | H : Err _ = Err _ |- _ => injection H as H; subst
  | H : Ok _ = Err _ |- _ => discriminate H
  | H : Err _ = Ok _ |- _ => discriminate H
  end.

(** ** Machine-width integers

    A [w]-bit unsigned integer is a [Z] in [0, 2^w). The operations below are
    the standard library's: [checked_*] is [None] out of range, [saturating_*]
    clamps, [wrapping] reduces modulo [2^w]. *)

Definition is_uint (w z : Z) : Prop := 0 <= z < 2 ^ w.
Definition uint_max (w : Z) : Z := 2 ^ w - 1.
Definition in_uint (w z : Z) : bool := (0 <=? z) && (z <? 2 ^ w).
Definition in_int (w z : Z) : bool := (- 2 ^ (w - 1) <=? z) && (z <? 2 ^ (w - 1)).
Definition wrapping (w z : Z) : Z := z mod 2 ^ w.

(** [uN::try_from]. *)
Definition try_uint (w z : Z) : option Z := if in_uint w z then Some z else None.
Definition try_int (w z : Z) : option Z := if in_int w z then Some z else None.

Definition checked_add (w a b : Z) : option Z := try_uint w (a + b).
Definition checked_sub (w a b : Z) : option Z := try_uint w (a - b).
Definition checked_mul (w a b : Z) : option Z := try_uint w (a * b).
Definition checked_div (a b : Z) : option Z := if b =? 0 then None else Some (a / b).
(** [uN::checked_shl] only fails when the shift reaches the width; the bits
    shifted past the width are lost. *)
Definition checked_shl (w a n : Z) : option Z :=
  if n <? w then Some (wrapping w (Z.shiftl a n)) else None.
Definition saturating_sub (a b : Z) : Z := Z.max 0 (a - b).
Definition saturating_add (w a b : Z) : Z := Z.min (uint_max w) (a + b).
Definition div_ceil (a b : Z) : Z := (a + b - 1) / b.

(** [a / b] on integers: panics on a zero divisor. *)
Definition div_exec (a b : Z) : exec Z := if b =? 0 then Panic else Done (a / b).

#[global] Instance is_uint_dec w z : Decision (is_uint w z).
Proof. unfold is_uint. apply _. Defined.

Create HintDb ints.
Create Rewrite HintDb ints.

Lemma in_uint_spec w z : in_uint w z = true <-> is_uint w z.
Proof. unfold in_uint, is_uint. rewrite andb_true_iff, Z.leb_le, Z.ltb_lt. done. Qed.

Lemma try_uint_Some w z v : try_uint w z = Some v <-> v = z /\ is_uint w z.
Proof.
  unfold try_uint. destruct (in_uint w z) eqn:Hw.
  - apply in_uint_spec in Hw. naive_solver.
  - split; [done|]. intros [_ H%in_uint_spec]. congruence.
Qed.

Lemma try_uint_in w z : is_uint w z -> try_uint w z = Some z.
Proof. intros H. by apply try_uint_Some. Qed.

Lemma try_uint_None w z : try_uint w z = None <-> ~ is_uint w z.
Proof.
  unfold try_uint. destruct (in_uint w z) eqn:Hw.
  - apply in_uint_spec in Hw. naive_solver.
  - split; [|done]. intros _ H%in_uint_spec. congruence.
Qed.

Lemma try_uint_is_uint w z v : try_uint w z = Some v -> is_uint w v.
Proof. intros [-> H]%try_uint_Some. done. Qed.

Lemma checked_add_in w a b : is_uint w (a + b) -> checked_add w a b = Some (a + b).
Proof. apply try_uint_in. Qed.

Lemma checked_sub_in w a b : is_uint w (a - b) -> checked_sub w a b = Some (a - b).
Proof. apply try_uint_in. Qed.

Lemma checked_mul_in w a b : is_uint w (a * b) -> checked_mul w a b = Some (a * b).
Proof. apply try_uint_in. Qed.

Lemma checked_div_pos a b : 0 < b -> checked_div a b = Some (a / b).
Proof. intros H. unfold checked_div. destruct (Z.eqb_spec b 0); [lia|done]. Qed.

Lemma checked_shl_wraps w a n :
  0 <= n < w -> checked_shl w a n = Some (wrapping w (a * 2 ^ n)).
Proof.
  intros H. unfold checked_shl. destruct (Z.ltb_spec n w); [|lia].
  by rewrite Z.shiftl_mul_pow2 by lia.
Qed.

Lemma wrapping_in w z : is_uint w z -> wrapping w z = z.
Proof. unfold is_uint, wrapping. intros. by apply Z.mod_small. Qed.

Lemma wrapping_is_uint w z : 0 <= w -> is_uint w (wrapping w z).
Proof. intros. unfold is_uint, wrapping. apply Z.mod_pos_bound. by apply Z.pow_pos_nonneg. Qed.

Lemma is_uint_weaken w w' z : 0 <= w <= w' -> is_uint w z -> is_uint w' z.
Proof.
  unfold is_uint. intros Hw Hz.
  pose proof (Z.pow_le_mono_r 2 w w' ltac:(lia) ltac:(lia)). lia.
Qed.

Lemma is_uint_div w a b : 0 < b -> is_uint w a -> is_uint w (a / b).
Proof.
  unfold is_uint. intros Hb [Ha Ha']. split; [apply Z.div_pos; lia|].
  apply Z.le_lt_trans with a; [|done].
  apply Z.div_le_upper_bound; nia.
Qed.

Lemma div_le_self a b : 0 <= a -> 0 < b -> a / b <= a.
Proof. intros. apply Z.div_le_upper_bound; nia. Qed.

Lemma saturating_sub_le a b : 0 <= a -> 0 <= b -> 0 <= saturating_sub a b <= a.
Proof. unfold saturating_sub. lia. Qed.

#[export] Hint Resolve try_uint_is_uint wrapping_is_uint is_uint_div : ints.
#[export] Hint Rewrite try_uint_in checked_add_in checked_sub_in checked_mul_in
  checked_div_pos wrapping_in using (unfold is_uint in *; lia) : ints.

(** The widths of the code, with their ranges spelled out for [lia]. *)
Lemma pow2_8 : 2 ^ 8 = 256. Proof. done. Qed.
Lemma pow2_16 : 2 ^ 16 = 65536. Proof. done. Qed.
Lemma pow2_32 : 2 ^ 32 = 4294967296. Proof. done. Qed.
Lemma pow2_64 : 2 ^ 64 = 18446744073709551616. Proof. done. Qed.
Lemma pow2_128 : 2 ^ 128 = 340282366920938463463374607431768211456. Proof. done. Qed.

Ltac uint_lia :=
  unfold is_uint, uint_max in *;
  rewrite ?pow2_8, ?pow2_16, ?pow2_32, ?pow2_64, ?pow2_128 in *; lia.

Ltac uint_nia :=
  unfold is_uint, uint_max in *;
  rewrite ?pow2_8, ?pow2_16, ?pow2_32, ?pow2_64, ?pow2_128 in *; nia.

(** Splits every boolean integer test of the goal into its two cases. *)
Ltac case_tests :=
  repeat match goal with
  | |- context [Z.ltb ?a ?b] => destruct (Z.ltb_spec a b)
  | |- context [Z.leb ?a ?b] => destruct (Z.leb_spec a b)
  | |- context [Z.eqb ?a ?b] => destruct (Z.eqb_spec a b)
  end.

(** ** Sublists *)

Lemma map_sublist {A B} (f : A -> B) (l1 l2 : list A) :
  l1 `sublist_of` l2 -> map f l1 `sublist_of` map f l2.
Proof. induction 1; simpl; by constructor. Qed.

Lemma filter_sublist {A} (f : A -> bool) l : List.filter f l `sublist_of` l.
Proof. induction l as [|x l IH]; simpl; [constructor|]. destruct (f x); by constructor. Qed.

Lemma sublist_In {A} (l1 l2 : list A) x : l1 `sublist_of` l2 -> In x l1 -> In x l2.
Proof. induction 1; simpl; naive_solver. Qed.

(** Discharges the closed, decidable hypotheses of a property at a concrete
    input by evaluation. *)
Ltac by_eval :=
  repeat split;
  first [ vm_compute; reflexivity
        | apply (bool_decide_unpack _); vm_compute; exact I
        | vm_compute; discriminate
        | vm_compute; lia ].

(** ** Bytes

    A byte string is a [list Z] of values in [0, 256); [le_decode] and
    [le_encode] are Rust's [from_le_bytes] and [to_le_bytes]. *)

Definition is_bytes (n : nat) (bs : list Z) : Prop :=
  length bs = n /\ Forall (is_uint 8) bs.

Fixpoint le_decode (bs : list Z) : Z :=
  match bs with
  | [] => 0
  | b :: bs => b + 256 * le_decode bs
  end.

Fixpoint le_encode (n : nat) (z : Z) : list Z :=
  match n with
  | O => []
  | S n => z mod 256 :: le_encode n (z / 256)
  end.

Create HintDb bytes.
Create Rewrite HintDb bytes.

Lemma length_le_encode n z : length (le_encode n z) = n.
Proof. revert z. induction n as [|n IH]; intros z; simpl; [done|by rewrite IH]. Qed.

Lemma le_encode_bytes n z : is_bytes n (le_encode n z).
Proof.
  split; [apply length_le_encode|]. revert z.
  induction n as [|n IH]; intros z; simpl; constructor; [|apply IH].
  unfold is_uint. rewrite pow2_8. apply Z.mod_pos_bound. lia.
Qed.

Lemma le_decode_encode n z :
  is_uint (8 * Z.of_nat n) z -> le_decode (le_encode n z) = z.
Proof.
  revert z. unfold is_uint. induction n as [|n IH]; intros z Hz; simpl.
  { change (2 ^ (8 * Z.of_nat 0)) with 1 in Hz. lia. }
  rewrite IH; [pose proof (Z.div_mod z 256); lia|].
  rewrite Nat2Z.inj_succ in Hz.
  replace (8 * Z.succ (Z.of_nat n)) with (8 * Z.of_nat n + 8) in Hz by lia.
  rewrite Z.pow_add_r, pow2_8 in Hz by lia. split; [apply Z.div_pos; lia|].
  apply Z.div_lt_upper_bound; lia.
Qed.

Lemma le_decode_bound bs :
  Forall (is_uint 8) bs -> is_uint (8 * Z.of_nat (length bs)) (le_decode bs).
Proof.
  unfold is_uint. rewrite pow2_8. induction 1 as [|b bs Hb _ IH]; simpl; [done|].
  replace (8 * Z.of_nat (S (length bs))) with (8 + 8 * Z.of_nat (length bs)) by lia.
  rewrite Z.pow_add_r, pow2_8 by lia. lia.
Qed.

Lemma le_encode_decode bs :
  Forall (is_uint 8) bs -> le_encode (length bs) (le_decode bs) = bs.
Proof.
  induction 1 as [|b bs Hb _ IH]; simpl; [done|].
  unfold is_uint in Hb. rewrite pow2_8 in Hb. f_equal.
  - rewrite (Z.mul_comm 256), Z_mod_plus_full. by apply Z.mod_small.
  - rewrite (Z.mul_comm 256), Z.div_add by lia. rewrite Z.div_small by lia. done.
Qed.

Lemma is_bytes_app n m a b : is_bytes n a -> is_bytes m b -> is_bytes (n + m) (a ++ b).
Proof. intros [? ?] [? ?]. split; [rewrite length_app; lia|by apply Forall_app_2]. Qed.

#[global] Arguments le_encode : simpl never.
#[global] Arguments le_decode : simpl never.
#[export] Hint Resolve le_encode_bytes is_bytes_app : bytes.
#[export] Hint Rewrite length_le_encode : bytes.

(** The little-endian integer of [n] bytes at an offset. *)
Definition uint_at (n at_ : nat) (bytes : list Z) : Z := le_decode (firstn n (skipn at_ bytes)).

Lemma uint_at_bound n at_ bytes :
  Forall (is_uint 8) bytes -> is_uint (8 * Z.of_nat n) (uint_at n at_ bytes).
Proof.
  intros Hb. unfold uint_at.
  assert (Forall (is_uint 8) (firstn n (skipn at_ bytes))) as Hf by (by apply Forall_take, Forall_drop).
  apply le_decode_bound in Hf. eapply is_uint_weaken; [|exact Hf].
  rewrite length_take. lia.
Qed.
