(* ===== verification/Text.v ===== *)
(** * Searching and replacing in strings

    The methods of [str] the code uses, on strings of bytes: [strip_prefix],
    [split_once], [rsplit_once], [contains], [replace], [split] and [trim]. An
    index the code finds and slices at is the pair of the two slices. *)

From Stdlib Require Import Ascii.
From S2P Require Import Prelude.
#[local] Open Scope string_scope.
#[local] Arguments String.append !_ _ /.

(** ** Concatenation *)

Lemma sapp_assoc (a b c : string) : (a ++ b) ++ c = a ++ (b ++ c).
Proof. induction a as [|x a IH]; simpl; [done|by rewrite IH]. Qed.
Lemma sapp_nil_r (a : string) : a ++ "" = a.
Proof. induction a as [|x a IH]; simpl; [done|by rewrite IH]. Qed.
Lemma sapp_length (a b : string) : String.length (a ++ b) = (String.length a + String.length b)%nat.
Proof. induction a as [|x a IH]; simpl; [done|by rewrite IH]. Qed.
Lemma sapp_inj_l (a b c : string) : a ++ b = a ++ c -> b = c.
Proof. induction a as [|x a IH]; simpl; [done|]. intros [= H]. by apply IH. Qed.

(** ** Characters *)

Fixpoint all_chars (p : ascii -> bool) (s : string) : bool :=
  match s with
  | EmptyString => true
  | String c s => p c && all_chars p s
  end.
Definition char_in (s : string) (c : ascii) : bool := negb (all_chars (fun d => negb (Ascii.eqb c d)) s).
(** No character of [set] in [s]. *)
Definition without (set s : string) : bool := all_chars (fun c => negb (char_in set c)) s.

Lemma all_chars_app p a b : all_chars p (a ++ b) = all_chars p a && all_chars p b.
Proof. induction a as [|c a IH]; simpl; [done|]. by rewrite IH, andb_assoc. Qed.

Lemma without_app set a b : without set (a ++ b) = without set a && without set b.
Proof. apply all_chars_app. Qed.

Lemma all_chars_impl (p q : ascii -> bool) s :
  (forall c, p c = true -> q c = true) -> all_chars p s = true -> all_chars q s = true.
Proof.
  intros Hpq. induction s as [|c s IH]; simpl; [done|]. rewrite !andb_true_iff. naive_solver.
Qed.

(** [s[..i]] and [s[i..]] for the first [i] whose character satisfies [p]. *)
Fixpoint span_until (p : ascii -> bool) (s : string) : string * string :=
  match s with
  | EmptyString => ("", "")
  | String c s' =>
    if p c then ("", s) else let (a, b) := span_until p s' in (String c a, b)
  end.

Definition starts_char (p : ascii -> bool) (s : string) : bool :=
  match s with EmptyString => true | String c _ => p c end.

Lemma span_until_app p a b :
  all_chars (fun c => negb (p c)) a = true -> starts_char p b = true -> span_until p (a ++ b) = (a, b).
Proof.
  intros Ha Hb. induction a as [|c a IH]; simpl in *.
  - destruct b as [|c b]; simpl in *; [done|by rewrite Hb].
  - apply andb_true_iff in Ha as [Hc%negb_true_iff Ha]. by rewrite Hc, IH.
Qed.

(** ** [strip_prefix], [split_once], [contains] *)

Fixpoint strip_prefix (p s : string) : option string :=
  match p, s with
  | EmptyString, _ => Some s
  | String c p, String d s => if Ascii.eqb c d then strip_prefix p s else None
  | String _ _, EmptyString => None
  end.

Fixpoint split_once (p s : string) : option (string * string) :=
  match strip_prefix p s with
  | Some after => Some ("", after)
  | None =>
    match s with
    | EmptyString => None
    | String c s =>
      match split_once p s with
      | Some (before, after) => Some (String c before, after)
      | None => None
      end
    end
  end.

Definition starts_with_str (p s : string) : bool := bool_decide (is_Some (strip_prefix p s)).
Definition contains (p s : string) : bool := bool_decide (is_Some (split_once p s)).

Lemma strip_prefix_Some p s t : strip_prefix p s = Some t <-> s = p ++ t.
Proof.
  revert s. induction p as [|c p IH]; intros s; simpl; [naive_solver|].
  destruct s as [|d s]; [naive_solver|].
  destruct (Ascii.eqb_spec c d) as [->|Hne]; [rewrite IH|]; naive_solver.
Qed.

Lemma split_once_app p s before after :
  split_once p s = Some (before, after) -> s = before ++ p ++ after.
Proof.
  revert before. induction s as [|c s IH]; intros before; simpl.
  - destruct (strip_prefix p "") as [t|] eqn:Hp; [|done].
    intros [= <- <-]. by apply strip_prefix_Some in Hp.
  - destruct (strip_prefix p (String c s)) as [t|] eqn:Hp.
    { intros [= <- <-]. by apply strip_prefix_Some in Hp. }
    destruct (split_once p s) as [[b a]|]; [|done]. intros [= <- <-].
    by rewrite (IH b).
Qed.

Lemma split_once_None p s a b : split_once p s = None -> s <> a ++ p ++ b.
Proof.
  revert a. induction s as [|c s IH]; intros a; simpl.
  - destruct (strip_prefix p "") eqn:Hp; [done|]. intros _ E.
    destruct a; [|done]. simpl in E. apply strip_prefix_Some in E. congruence.
  - destruct (strip_prefix p (String c s)) eqn:Hp; [done|].
    destruct (split_once p s) as [[]|]; [done|]. intros _ E.
    destruct a as [|d a]; simpl in E; [apply strip_prefix_Some in E; congruence|].
    injection E as _ E. by apply (IH a).
Qed.

(** The first occurrence: what comes before it holds none. *)
Lemma split_once_first p s before after a b :
  split_once p s = Some (before, after) -> s = a ++ p ++ b ->
  (String.length before <= String.length a)%nat.
Proof.
  revert before a. induction s as [|c s IH]; intros before a; simpl.
  - destruct (strip_prefix p "") as [t|] eqn:Hp; [|done]. intros [= <- <-] _. simpl. lia.
  - destruct (strip_prefix p (String c s)) as [t|] eqn:Hp; [intros [= <- <-] _; simpl; lia|].
    destruct (split_once p s) as [[b' a']|] eqn:Hs; [|done]. intros [= <- <-] E.
    destruct a as [|d a]; simpl in E; [apply strip_prefix_Some in E; congruence|].
    injection E as _ E. simpl. specialize (IH b' a eq_refl E). lia.
Qed.

Lemma contains_spec p s : contains p s = true <-> exists a b, s = a ++ p ++ b.
Proof.
  unfold contains. rewrite bool_decide_eq_true. split.
  - intros [[a b] H]. exists a, b. by apply split_once_app.
  - intros (a & b & ->). destruct (split_once p (a ++ p ++ b)) eqn:E; [by eexists|].
    by apply split_once_None with (a := a) (b := b) in E.
Qed.

Lemma contains_false p s : contains p s = false <-> forall a b, s <> a ++ p ++ b.
Proof.
  rewrite <- not_true_iff_false, contains_spec. naive_solver.
Qed.

Lemma contains_middle p a b c : contains p b = true -> contains p (a ++ b ++ c) = true.
Proof.
  rewrite !contains_spec. intros (x & y & ->). exists (a ++ x), (y ++ c).
  by rewrite !sapp_assoc.
Qed.

Lemma contains_app_l p a b : contains p a = true -> contains p (a ++ b) = true.
Proof. apply (contains_middle p "" a b). Qed.
Lemma contains_app_r p a b : contains p b = true -> contains p (a ++ b) = true.
Proof. rewrite <- (sapp_nil_r b) at 2. apply contains_middle. Qed.

(** A match beginning with a character the text before it lacks. *)
Lemma split_once_sep c p a b :
  without (String c "") a = true -> split_once (String c p) (a ++ String c p ++ b) = Some (a, b).
Proof.
  intros Ha. assert (strip_prefix (String c p) (String c p ++ b) = Some b) as Hp.
  { by apply strip_prefix_Some. }
  induction a as [|d a IH].
  - change ("" ++ String c p ++ b) with (String c p ++ b). destruct (String c p ++ b) eqn:E.
    { done. } unfold split_once. fold split_once. by rewrite Hp.
  - unfold without in *. simpl in Ha. apply andb_true_iff in Ha as [Hd Ha].
    change (String d a ++ String c p ++ b) with (String d (a ++ String c p ++ b)).
    cbn [split_once]. rewrite (IH Ha). cbn [strip_prefix].
    destruct (Ascii.eqb_spec c d) as [->|Hne]; [|done].
    unfold char_in in Hd. simpl in Hd. by rewrite Ascii.eqb_refl in Hd.
Qed.

(** No match straddles a character the pattern lacks. *)
Lemma prefix_sep c p a b :
  without (String c "") p = true -> is_Some (strip_prefix p (a ++ String c b)) ->
  is_Some (strip_prefix p a).
Proof.
  revert a. induction p as [|d p IH]; intros a Hp [t Ht]; simpl in *; [by eexists|].
  unfold without in *. simpl in Hp. apply andb_true_iff in Hp as [Hd Hp].
  destruct a as [|e a]; simpl in *.
  - destruct (Ascii.eqb_spec d c) as [->|]; [|done]. unfold char_in in Hd. simpl in Hd.
    by rewrite Ascii.eqb_refl in Hd.
  - destruct (Ascii.eqb d e); [|done]. apply IH; [done|by eexists].
Qed.

Lemma contains_cons p c s :
  contains p (String c s) = true -> is_Some (strip_prefix p (String c s)) \/ contains p s = true.
Proof.
  rewrite !contains_spec. intros (a & b & E). destruct a as [|d a]; simpl in E.
  - left. eexists. by apply strip_prefix_Some.
  - right. injection E as _ E. eauto.
Qed.

Lemma prefix_contains p s : is_Some (strip_prefix p s) -> contains p s = true.
Proof. intros [t ->%strip_prefix_Some]. apply contains_spec. by exists "", t. Qed.

Lemma contains_sep c p a b :
  without (String c "") p = true -> contains p (a ++ String c b) = true ->
  contains p a = true \/ contains p b = true.
Proof.
  intros Hp. induction a as [|d a IH]; cbn [String.append].
  - intros [Hs|Hb]%contains_cons; [|by right]. left. apply prefix_contains.
    by apply (prefix_sep c p "" b).
  - intros [Hs|Hb]%contains_cons.
    + left. apply prefix_contains. by apply (prefix_sep c p (String d a) b).
    + destruct (IH Hb) as [Ha|]; [|by right]. left. by apply (contains_app_r p (String d "") a).
Qed.

(** ** [replace], [split] *)

Fixpoint replace_loop (fuel : nat) (from to s : string) : string :=
  match fuel with
  | O => s
  | S fuel =>
    match split_once from s with
    | Some (before, after) => before ++ to ++ replace_loop fuel from to after
    | None => s
    end
  end.

(** An empty pattern matches at every boundary. *)
Fixpoint insert_between (to s : string) : string :=
  match s with
  | EmptyString => to
  | String c s => to ++ String c (insert_between to s)
  end.

Definition replace (from to s : string) : string :=
  match from with
  | EmptyString => insert_between to s
  | _ => replace_loop (S (String.length s)) from to s
  end.

Fixpoint split_loop (fuel : nat) (p s : string) : list string :=
  match fuel with
  | O => [s]
  | S fuel =>
    match split_once p s with
    | Some (before, after) => before :: split_loop fuel p after
    | None => [s]
    end
  end.
(** On a pattern that is not empty. *)
Definition split_str (p s : string) : list string := split_loop (S (String.length s)) p s.

Lemma replace_loop_absent fuel from to s :
  contains from s = false -> replace_loop fuel from to s = s.
Proof.
  intros H. destruct fuel as [|fuel]; [done|]. simpl.
  destruct (split_once from s) as [[a b]|] eqn:E; [|done].
  apply split_once_app in E. rewrite contains_false in H. by apply H in E.
Qed.

(** [s] without its leading characters that satisfy [p]. *)
Fixpoint trim_start_matches (p : ascii -> bool) (s : string) : string :=
  match s with
  | String c s' => if p c then trim_start_matches p s' else s
  | EmptyString => ""
  end.
Fixpoint trim_end_matches (p : ascii -> bool) (s : string) : string :=
  match s with
  | EmptyString => ""
  | String c s =>
    match trim_end_matches p s with
    | EmptyString => if p c then "" else String c ""
    | t => String c t
    end
  end.
Definition trim_matches (p : ascii -> bool) (s : string) : string :=
  trim_end_matches p (trim_start_matches p s).

(** The last occurrence of a character: the slices around it. *)
Fixpoint rsplit_char (c : ascii) (s : string) : option (string * string) :=
  match s with
  | EmptyString => None
  | String d s =>
    match rsplit_char c s with
    | Some (before, after) => Some (String d before, after)
    | None => if Ascii.eqb c d then Some ("", s) else None
    end
  end.

Lemma rsplit_char_None c s : without (String c "") s = true -> rsplit_char c s = None.
Proof.
  unfold without. induction s as [|d s IH]; simpl; [done|].
  intros [Hd Hs]%andb_true_iff. rewrite (IH Hs). unfold char_in in Hd. simpl in Hd.
  rewrite Ascii.eqb_sym. by destruct (Ascii.eqb d c).
Qed.

Lemma rsplit_char_app c a b : without (String c "") b = true -> rsplit_char c (a ++ String c b) = Some (a, b).
Proof.
  intros Hb. induction a as [|d a IH]; simpl; [|by rewrite IH].
  by rewrite rsplit_char_None, Ascii.eqb_refl.
Qed.

Definition to_ascii_lowercase_char (c : ascii) : ascii :=
  let n := Ascii.nat_of_ascii c in
  if (65 <=? n)%nat && (n <=? 90)%nat then Ascii.ascii_of_nat (n + 32) else c.
Fixpoint to_ascii_lowercase (s : string) : string :=
  match s with
  | EmptyString => ""
  | String c s => String (to_ascii_lowercase_char c) (to_ascii_lowercase s)
  end.
