(* ===== verification/Config.v ===== *)
(** * Configuration from the environment, and the stop

    [src/crates/bootstrap/src/]: env.rs, endpoint.rs, error.rs and shutdown.rs.
    The environment is a function from names to values ([std::env::var(_).ok()]);
    its values are ASCII, the white space [trim] drops being ASCII's. *)

From Stdlib Require Import Ascii.
From S2P Require Import Prelude Text Secret SecretFacts.

#[local] Open Scope string_scope.

(** ** [error.rs] *)

Inductive ConfigError : Type :=
| MissingVariable (key : string)
| InvalidValue (key value expected : string)
| UnsupportedCombination (detail : string).

(** ** [endpoint.rs] *)

Definition KEY_PLACEHOLDER : string := "{key}".

Module Endpoint.
Record t : Type := new {
  template : string;
  header_ : option (string * string);
  key : option SecretKey.t;
}.

Definition substituted (e : t) (text : string) : string :=
  match key e with
  | Some key => replace KEY_PLACEHOLDER (SecretKey.expose key) text
  | None => text
  end.

Definition url (e : t) : SecretUrl.t := SecretUrl.new (substituted e (template e)).

Definition header (e : t) : option (string * SecretKey.t) :=
  option_map (fun h => (fst h, SecretKey.new (substituted e (snd h)))) (header_ e).

Definition displayed (e : t) : string :=
  if contains KEY_PLACEHOLDER (template e) then redact_fragment (redact_password (template e))
  else redact (template e).

Definition displayed_header (e : t) : option string :=
  option_map (fun h =>
    if contains KEY_PLACEHOLDER (snd h) then fst h ++ ": " ++ snd h
    else fst h ++ ": " ++ MASKED) (header_ e).

Definition to_string (e : t) : string :=
  displayed e ++
  match displayed_header e with
  | Some header => " [" ++ header ++ "]"
  | None => ""
  end.

Definition debug (e : t) : string :=
  "Endpoint(" ++ displayed e ++ ", header: " ++
  match displayed_header e with Some h => h | None => "none" end ++ ", key: " ++
  (if key e then REDACTED else "none") ++ ")".
End Endpoint.

(** ** [env.rs] *)

Definition is_whitespace (c : ascii) : bool :=
  let n := Ascii.nat_of_ascii c in ((9 <=? n)%nat && (n <=? 13)%nat) || (n =? 32)%nat.
Definition trim (s : string) : string := trim_matches is_whitespace s.

(** [str::parse] of an unsigned integer of [w] bits: an optional [+], then
    digits. *)
Definition digit_value (c : ascii) : option Z :=
  let n := Z.of_nat (Ascii.nat_of_ascii c) in
  if ((48 <=? n) && (n <=? 57))%Z then Some (n - 48)%Z else None.
Fixpoint parse_digits (w acc : Z) (s : string) : option Z :=
  match s with
  | EmptyString => Some acc
  | String c s =>
    let! d := digit_value c in
    let! acc := try_uint w (acc * 10 + d)%Z in parse_digits w acc s
  end.
Definition parse_uint (w : Z) (s : string) : option Z :=
  match s with
  | EmptyString => None
  | String c s' =>
    if Ascii.eqb c "+" then match s' with EmptyString => None | _ => parse_digits w 0 s' end
    else parse_digits w 0 s
  end.

Section Env.
Context (env : string -> option string).

Definition optional (key : string) : option string :=
  let! v := option_map trim (env key) in
  match v with EmptyString => None | _ => Some v end.

Definition required (key : string) : result string ConfigError :=
  ok_or (optional key) (MissingVariable key).

Definition required_secret_url (key : string) : result SecretUrl.t ConfigError :=
  result_map SecretUrl.new (required key).
Definition required_secret_key (key : string) : result SecretKey.t ConfigError :=
  result_map SecretKey.new (required key).
Definition optional_secret_url (key : string) : option SecretUrl.t :=
  option_map SecretUrl.new (optional key).

Definition quoted (name : string) : string := "`" ++ name ++ "`".

Definition unread_header (name_var value_var url_var : string) : ConfigError :=
  UnsupportedCombination
    (quoted name_var ++ " / " ++ quoted value_var ++ " is set, but the code that calls " ++
     quoted url_var ++ " sends only the URL — it would connect with no credential at all, " ++
     "and succeed anonymously against an endpoint that allows it. Unset them, or put the " ++
     "credential in " ++ quoted url_var ++ " with a " ++ quoted KEY_PLACEHOLDER).
Definition not_a_name (name_var value_var : string) : ConfigError :=
  UnsupportedCombination
    (quoted name_var ++ " is not a header name — it carries a space or a `:`. Write the name " ++
     "alone, and its value in " ++ quoted value_var).
Definition key_in_name (name_var value_var : string) : ConfigError :=
  UnsupportedCombination
    (quoted name_var ++ " carries " ++ quoted KEY_PLACEHOLDER ++ ", which is only substituted in " ++
     quoted value_var ++ " — the header name would be sent verbatim. Write the placeholder in " ++
     quoted value_var ++ " instead").
Definition name_alone (name_var value_var : string) : ConfigError :=
  UnsupportedCombination
    (quoted name_var ++ " is set without " ++ quoted value_var ++
     " — the header would be sent empty. Set both, or unset both").
Definition value_alone (name_var value_var : string) : ConfigError :=
  UnsupportedCombination
    (quoted value_var ++ " is set without " ++ quoted name_var ++
     " — the value has no header to travel in. Set both, or unset both").
Definition key_unused (key_var url_var value_var : string) (header_is_read : bool) : ConfigError :=
  UnsupportedCombination
    (if header_is_read then
       quoted key_var ++ " is set, but neither " ++ quoted url_var ++ " nor " ++ quoted value_var ++
       " has a " ++ quoted KEY_PLACEHOLDER ++ " to substitute it into — write " ++
       quoted KEY_PLACEHOLDER ++ " where the provider expects the credential, in the URL or in " ++
       "the header value, or unset " ++ quoted key_var ++ " if the endpoint is public"
     else
       quoted key_var ++ " is set, but " ++ quoted url_var ++ " has no " ++ quoted KEY_PLACEHOLDER ++
       " to substitute it into — write " ++ quoted KEY_PLACEHOLDER ++
       " where the provider expects the credential, or unset " ++ quoted key_var ++
       " if the endpoint is public").

Definition is_some {A} (o : option A) : bool := match o with Some _ => true | None => false end.
Definition contains_char (p : ascii -> bool) (s : string) : bool :=
  negb (all_chars (fun c => negb (p c)) s).

(** The shape of a header's name, checked whenever there is one. *)
Definition check_name (name_var value_var : string) (name : option string) :
    result unit ConfigError :=
  match name with
  | None => Ok tt
  | Some name =>
    if contains_char is_whitespace name || contains ":" name then Err (not_a_name name_var value_var)
    else if contains KEY_PLACEHOLDER name then Err (key_in_name name_var value_var)
    else Ok tt
  end.

Definition read_header (name_var value_var url_var : string) (header_is_read : bool) :
    result (option (string * string)) ConfigError :=
  let name := optional name_var in
  let value := optional value_var in
  if (is_some name || is_some value) && negb header_is_read
  then Err (unread_header name_var value_var url_var)
  else
    let? _ := check_name name_var value_var name in
    match name, value with
    | None, None => Ok None
    | Some name, Some value => Ok (Some (name, value))
    | Some _, None => Err (name_alone name_var value_var)
    | None, Some _ => Err (value_alone name_var value_var)
    end.

Definition read_endpoint (prefix : string) (header_is_read : bool) : result Endpoint.t ConfigError :=
  let url_var := prefix ++ "_URL" in
  let name_var := prefix ++ "_HEADER_NAME" in
  let value_var := prefix ++ "_HEADER_VALUE" in
  let key_var := prefix ++ "_KEY" in
  let? template := required url_var in
  let? header := read_header name_var value_var url_var header_is_read in
  let key := optional key_var in
  let has_placeholder := contains KEY_PLACEHOLDER template ||
    match header with Some (_, value) => contains KEY_PLACEHOLDER value | None => false end in
  match has_placeholder, key with
  | true, Some raw => Ok (Endpoint.new template header (Some (SecretKey.new raw)))
  | true, None => Err (MissingVariable key_var)
  | false, None => Ok (Endpoint.new template header None)
  | false, Some _ => Err (key_unused key_var url_var value_var header_is_read)
  end.

Definition required_endpoint (prefix : string) : result Endpoint.t ConfigError :=
  read_endpoint prefix false.
Definition required_endpoint_allowing_header (prefix : string) : result Endpoint.t ConfigError :=
  read_endpoint prefix true.

Definition parse_required_u32 (key : string) : result Z ConfigError :=
  let? raw := required key in
  ok_or (parse_uint 32 raw) (InvalidValue key raw "a non-negative integer (u32)").

Definition parse_optional {T} (from_str : string -> option T) (key : string) (default : T)
    (expected : string) : result T ConfigError :=
  match optional key with
  | None => Ok default
  | Some raw => ok_or (from_str raw) (InvalidValue key raw expected)
  end.

Definition parse_required_bool (key : string) : result bool ConfigError :=
  let? raw := required key in
  let lower := to_ascii_lowercase raw in
  if bool_decide (lower = "true") then Ok true
  else if bool_decide (lower = "false") then Ok false
  else Err (InvalidValue key raw "true or false").

(** A blank value is refused here, not read as absent. *)
Definition duration_var (key : string) (default : Z) : result Z ConfigError :=
  match option_map trim (env key) with
  | None => Ok default
  | Some raw => ok_or (parse_uint 64 raw) (InvalidValue key raw "a integer (u64)")
  end.

Class EnvEnum (T : Type) : Type := {
  EXPECTED : string;
  from_env_value : string -> option T;
}.

Definition parse_required_enum {T} `{EnvEnum T} (key : string) : result T ConfigError :=
  let? raw := required key in
  ok_or (from_env_value (to_ascii_lowercase raw)) (InvalidValue key raw EXPECTED).
End Env.

(** ** Reading an endpoint

    Which endpoints [read_endpoint] accepts, and that no refusal of it repeats
    a value of the environment. *)

#[local] Open Scope string_scope.

Section Facts.
Context (env : string -> option string).

(** Every refusal of an endpoint: what it says depends on the prefix alone. *)
Definition refusals (prefix : string) (header_is_read : bool) : list ConfigError :=
  let url_var := prefix ++ "_URL" in
  let name_var := prefix ++ "_HEADER_NAME" in
  let value_var := prefix ++ "_HEADER_VALUE" in
  let key_var := prefix ++ "_KEY" in
  [MissingVariable url_var; unread_header name_var value_var url_var;
   not_a_name name_var value_var; key_in_name name_var value_var;
   name_alone name_var value_var; value_alone name_var value_var;
   MissingVariable key_var; key_unused key_var url_var value_var header_is_read].

(** A header's name has no white space, no colon and no placeholder. *)
Definition name_shaped (name : string) : Prop :=
  contains_char is_whitespace name = false /\ contains ":" name = false /\
  contains KEY_PLACEHOLDER name = false.

Definition has_placeholder (template : string) (header : option (string * string)) : bool :=
  contains KEY_PLACEHOLDER template ||
  match header with Some (_, value) => contains KEY_PLACEHOLDER value | None => false end.

(** The endpoints the environment describes. *)
Record described (prefix : string) (header_is_read : bool) (e : Endpoint.t) : Prop := {
  ds_template : optional env (prefix ++ "_URL") = Some (Endpoint.template e);
  ds_header : match Endpoint.header_ e with
    | None => optional env (prefix ++ "_HEADER_NAME") = None /\
        optional env (prefix ++ "_HEADER_VALUE") = None
    | Some (name, value) => header_is_read = true /\ name_shaped name /\
        optional env (prefix ++ "_HEADER_NAME") = Some name /\
        optional env (prefix ++ "_HEADER_VALUE") = Some value
    end;
  ds_key : optional env (prefix ++ "_KEY") = option_map SecretKey.expose (Endpoint.key e);
  ds_placeholder : has_placeholder (Endpoint.template e) (Endpoint.header_ e) = is_some (Endpoint.key e);
}.

Lemma check_name_Ok name_var value_var name :
  check_name name_var value_var name = Ok tt <->
  match name with Some n => name_shaped n | None => True end.
Proof.
  unfold check_name, name_shaped. destruct name as [n|]; [|naive_solver].
  destruct (contains_char is_whitespace n), (contains ":" n), (contains KEY_PLACEHOLDER n);
    simpl; naive_solver.
Qed.

Lemma check_name_Err name_var value_var name e :
  check_name name_var value_var name = Err e ->
  e = not_a_name name_var value_var \/ e = key_in_name name_var value_var.
Proof.
  unfold check_name. destruct name as [n|]; [|done].
  destruct (_ || _); [intros [= <-]; by left|].
  destruct (contains KEY_PLACEHOLDER n); [intros [= <-]; by right|done].
Qed.

Lemma read_header_Ok name_var value_var url_var h header :
  read_header env name_var value_var url_var h = Ok header <->
  match header with
  | None => optional env name_var = None /\ optional env value_var = None
  | Some (name, value) => h = true /\ name_shaped name /\
      optional env name_var = Some name /\ optional env value_var = Some value
  end.
Proof.
  unfold read_header.
  destruct (optional env name_var) as [n|] eqn:En, (optional env value_var) as [v|] eqn:Ev, h;
    cbn [is_some orb andb negb]; try (split; [done|by destruct header as [[? ?]|]; intros; destruct_and?]).
  - rewrite result_bind_Ok. split.
    + intros ([] & Hc%check_name_Ok & [= <-]). done.
    + destruct header as [[n' v']|]; [|by intros [? ?]]. intros (_ & Hn & [= <-] & [= <-]).
      exists tt. split; [by apply check_name_Ok|done].
  - rewrite result_bind_Ok. split; [by intros ([] & _ & ?)|].
    by destruct header as [[? ?]|]; intros; destruct_and?.
  - split; [by intros [= <-]|]. by destruct header as [[? ?]|]; intros; destruct_and?.
  - split; [by intros [= <-]|]. by destruct header as [[? ?]|]; intros; destruct_and?.
Qed.

Lemma read_header_Err name_var value_var url_var h e :
  read_header env name_var value_var url_var h = Err e ->
  In e [unread_header name_var value_var url_var; not_a_name name_var value_var;
        key_in_name name_var value_var; name_alone name_var value_var; value_alone name_var value_var].
Proof.
  unfold read_header. destruct (_ && _); [intros [= <-]; by left|].
  intros [[-> | ->]%check_name_Err|([] & _ & H)]%result_bind_Err; simpl; auto.
  destruct (optional env name_var), (optional env value_var); naive_solver.
Qed.

(** An endpoint is read exactly when the environment describes one: a URL,
    a header only where the caller sends it, with both halves and a name shaped
    like one, and a key exactly when a placeholder waits for it. Otherwise the
    refusal is one of the fixed texts of the prefix, so it repeats no URL, no
    key and no header, whatever the environment holds. *)
Theorem read_endpoint_spec prefix h :
  (forall e, read_endpoint env prefix h = Ok e <-> described prefix h e) /\
  (forall refusal, read_endpoint env prefix h = Err refusal -> In refusal (refusals prefix h)).
Proof.
  split.
  - intros e. unfold read_endpoint. split.
    + intros H. apply result_bind_Ok in H as (template & Ht%ok_or_Ok & H).
      apply result_bind_Ok in H as (header & Hh%read_header_Ok & H).
      fold (has_placeholder template header) in H.
      destruct (has_placeholder template header) eqn:Hp,
        (optional env (prefix ++ "_KEY")) as [raw|] eqn:Hk; try done;
        injection H as <-; by constructor.
    + destruct e as [template header key]. intros [Ht Hh Hk Hp]. cbn in *.
      apply result_bind_Ok. exists template. split; [by apply ok_or_Ok|].
      apply result_bind_Ok. exists header. split; [by apply read_header_Ok|].
      fold (has_placeholder template header). rewrite Hp, Hk. by destruct key as [[raw]|].
  - intros refusal. unfold read_endpoint, refusals.
    intros [[_ <-]%ok_or_Err|(template & _ & H)]%result_bind_Err; [by left|].
    apply result_bind_Err in H as [H%read_header_Err|(header & _ & H)].
    + simpl in H |- *. naive_solver.
    + destruct (_ || _), (optional env (prefix ++ "_KEY")); try done; injection H as <-; simpl; auto 10.
Qed.
End Facts.

(** ** A key beside its placeholder is shown nowhere *)

(** The printed endpoint does not depend on the key. *)
Lemma displayed_without_key template header k1 k2 :
  Endpoint.to_string (Endpoint.new template header (Some k1)) =
    Endpoint.to_string (Endpoint.new template header (Some k2)) /\
  Endpoint.debug (Endpoint.new template header (Some k1)) =
    Endpoint.debug (Endpoint.new template header (Some k2)).
Proof. done. Qed.

(** A blank duration is refused where a blank count is absent. *)
Example blank_duration :
  duration_var (fun _ => Some " ") "ANALYTIC_CYCLE_SECS" 300 =
    Err (InvalidValue "ANALYTIC_CYCLE_SECS" "" "a integer (u64)") /\
  parse_optional (fun _ => Some " ") (parse_uint 32) "JUPITER_RATE_LIMIT_PER_MINUTE" 60 "" = Ok 60.
Proof. split; reflexivity. Qed.

(** ** What a stop is worth

    [src/crates/bootstrap/src/shutdown.rs]: what the end of a task says, and
    the verdict of a daemon's stop. Whether a task answers within the grace is
    data. *)

#[local] Open Scope list_scope.

(** tokio's [JoinError], and its text. *)
Module JoinError.
Record t : Type := mk { is_cancelled : bool; text : string }.
End JoinError.

Inductive TaskEnd : Type :=
| Panicked
| Cancelled.

Definition TaskEnd_from (e : JoinError.t) : TaskEnd :=
  if JoinError.is_cancelled e then Cancelled else Panicked.

(** What awaiting a [JoinHandle<Result<(), E>>] gives. *)
Definition Joined (E : Type) : Type := result (result unit E) JoinError.t.

(** [anyhow::Error]: an error carried along, or a message. *)
Inductive AnyError (E : Type) : Type :=
| Wrapped (e : E)
| Message (text : string).
Arguments Wrapped {E} e.
Arguments Message {E} text.

Section Stop.
Context {E : Type}.

Definition handle_task_result (r : Joined E) (task_name : string) : result unit (AnyError E) :=
  match r with
  | Ok (Ok _) => Ok tt
  | Ok (Err e) => Err (Wrapped e)
  | Err e =>
    match TaskEnd_from e with
    | Panicked => Err (Message (task_name ++ " panicked: " ++ JoinError.text e))
    | Cancelled => Ok tt
    end
  end.
End Stop.

Definition SHUTDOWN_GRACE_SECS : Z := 5.

Module Stop.
Record t (E : Type) : Type := mk {
  outcome : result unit (AnyError E);
  still_running : list string;
  collected : option string;
}.
Arguments mk {E}.
Arguments outcome {E}.
Arguments still_running {E}.
Arguments collected {E}.

Section Operations.
Context {E : Type}.

Definition new (first : result unit (AnyError E)) (collected : option string) : t E :=
  mk first [] collected.

(** The task's answer, [None] when the grace ran out first. *)
Definition settle (s : t E) (name : string) (answer : option (Joined E)) : t E :=
  if bool_decide (collected s = Some name) then s
  else
    match answer with
    | Some r =>
      match outcome s with
      | Ok _ => mk (handle_task_result r name) (still_running s) (collected s)
      | Err _ => s
      end
    | None => mk (outcome s) (still_running s ++ [name]) (collected s)
    end.

Definition finish (s : t E) : result unit (AnyError E) := outcome s.
End Operations.
End Stop.

(** ** The first error wins, and no answer is lost *)

Section Facts.
Context {E : Type}.

(** What the tasks say in the order they are settled, the collected one left
    out. *)
Definition reports (collected : option string) (stages : list (string * option (Joined E))) :
    list (result unit (AnyError E)) :=
  omap (fun st =>
    if bool_decide (collected = Some (fst st)) then None
    else option_map (fun r => handle_task_result r (fst st)) (snd st)) stages.

Definition first_error (l : list (result unit (AnyError E))) : result unit (AnyError E) :=
  foldr (fun r acc => match r with Ok _ => acc | Err e => Err e end) (Ok tt) l.

Definition settle_all (s : Stop.t E) (stages : list (string * option (Joined E))) : Stop.t E :=
  foldl (fun s st => Stop.settle s (fst st) (snd st)) s stages.

Lemma settle_all_spec s stages :
  Stop.finish (settle_all s stages) =
    first_error (Stop.outcome s :: reports (Stop.collected s) stages) /\
  Stop.still_running (settle_all s stages) =
    Stop.still_running s ++ omap (fun st =>
      if bool_decide (Stop.collected s = Some (fst st)) then None
      else match snd st with None => Some (fst st) | Some _ => None end) stages.
Proof.
  unfold settle_all, Stop.finish. revert s. induction stages as [|[name answer] stages IH]; intros s.
  - simpl. rewrite app_nil_r. by destruct (Stop.outcome s) as [[]|].
  - cbn [foldl fst snd]. destruct (IH (Stop.settle s name answer)) as [IH1 IH2].
    rewrite IH1, IH2. clear IH IH1 IH2. unfold Stop.settle, reports. cbn [omap list_omap fst snd].
    destruct (bool_decide (Stop.collected s = Some name)) eqn:Hb; [done|].
    destruct answer as [r|]; simpl.
    + destruct (Stop.outcome s) as [[]|e] eqn:Ho; simpl; rewrite ?Ho; [|done].
      split; [|done]. done.
    + by rewrite <- (assoc_L (++)).
Qed.
End Facts.
