(* ===== verification/Errors.v ===== *)
(** * Error types

    The error enums of [src/crates/core/src/error/]. *)

From S2P Require Import Prelude.

(** [error/core_error.rs]. *)
Inductive CoreError : Type :=
| UnknownProgram (program : string)
| ParseError (signature reason : string)
| InvalidAccountData (address reason : string)
| MissingField (signature field : string)
| ArithmeticOverflow (context : string)
| FeeDecode (reason : string)
| UnsupportedInstruction (signature : string).

Definition CoreResult (A : Type) : Type := result A CoreError.

(** [error/anchor_decode_error.rs]. *)
Inductive AnchorDecodeError : Type :=
| InvalidBase58 (reason : string)
| PayloadTooShort (min got : Z)
| NotAnAnchorEvent.

(** [error/translation_error.rs]. *)
Inductive TranslationError : Type :=
| InvalidEnum (field : string) (value : Z).

(** [error/repository_error.rs]. *)
Inductive RepositoryError : Type :=
| Backend (reason : string)
| Integrity (reason : string)
| NotFound (reason : string)
| Conflict (reason : string)
| Timeout (reason : string)
| Conversion (reason : string)
| Decode (reason : string).

(** The [Display] its [#[error]] attributes give. *)
Definition RepositoryError_to_string (e : RepositoryError) : string :=
  match e with
  | Backend reason => "repository backend failure: " ++ reason
  | Integrity reason => "repository data integrity issue: " ++ reason
  | NotFound reason => "not found: " ++ reason
  | Conflict reason => "conflict: " ++ reason
  | Timeout reason => "timeout: " ++ reason
  | Conversion reason | Decode reason => "Conversion: " ++ reason
  end.

Definition RepositoryResult (A : Type) : Type := result A RepositoryError.

#[global] Instance CoreError_eq_dec : EqDecision CoreError.
Proof. solve_decision. Defined.
#[global] Instance AnchorDecodeError_eq_dec : EqDecision AnchorDecodeError.
Proof. solve_decision. Defined.
#[global] Instance TranslationError_eq_dec : EqDecision TranslationError.
Proof. solve_decision. Defined.
#[global] Instance RepositoryError_eq_dec : EqDecision RepositoryError.
Proof. solve_decision. Defined.
