(* ===== verification/External.v ===== *)
(** * Third-party code the program calls

    The crates under no [src/] directory are interfaces here: a class of
    operations and a class of the documented laws the code relies on. The
    components are developed against the interfaces; [Reference.v] gives
    concrete instances, on which the witnesses evaluate. *)

From Stdlib Require Import QArith Qminmax.
From S2P Require Import Prelude.
#[local] Open Scope Z_scope.

(** ** rust_decimal

    A [Decimal] is a 96-bit mantissa with a decimal scale of at most 28. Its
    operators panic when the result does not fit (and on a zero divisor). *)

Class DecimalOps (D : Type) := {
  dec_of_Z : Z -> D;                        (** [Decimal::from(integer)] *)
  dec_add : D -> D -> exec D;
  dec_sub : D -> D -> exec D;
  dec_mul : D -> D -> exec D;
  dec_div : D -> D -> exec D;
  dec_cmp : D -> D -> comparison;           (** [Ord] *)
}.

Section DecimalHelpers.
Context {D : Type} `{!DecimalOps D}.

(** [a >= b], [a < b], ... and [Ord::min]. *)
Definition dec_geb (a b : D) : bool :=
  match dec_cmp a b with Lt => false | _ => true end.
Definition dec_leb (a b : D) : bool :=
  match dec_cmp a b with Gt => false | _ => true end.
Definition dec_ltb (a b : D) : bool :=
  match dec_cmp a b with Lt => true | _ => false end.
Definition dec_gtb (a b : D) : bool :=
  match dec_cmp a b with Gt => true | _ => false end.
Definition dec_min (a b : D) : D :=
  match dec_cmp a b with Gt => b | _ => a end.
Definition dec_zero : D := dec_of_Z 0.
End DecimalHelpers.

(** The rationals a [Decimal] holds. *)
Definition representable (q : Q) : Prop :=
  exists m s : Z, 0 <= s <= 28 /\ Z.abs m < 2 ^ 96 /\ (q * inject_Z (10 ^ s) == inject_Z m)%Q.

(** The operators are exact whenever the exact result is representable, and
    comparison is by value. *)
Class DecimalLaws (D : Type) `{!DecimalOps D} := {
  dec_val : D -> Q;
  dec_of_Z_exact : forall n, Z.abs n < 2 ^ 96 -> (dec_val (dec_of_Z n) == inject_Z n)%Q;
  dec_add_exact : forall a b, representable (dec_val a + dec_val b) ->
    exists c, dec_add a b = Done c /\ (dec_val c == dec_val a + dec_val b)%Q;
  dec_sub_exact : forall a b, representable (dec_val a - dec_val b) ->
    exists c, dec_sub a b = Done c /\ (dec_val c == dec_val a - dec_val b)%Q;
  dec_mul_exact : forall a b, representable (dec_val a * dec_val b) ->
    exists c, dec_mul a b = Done c /\ (dec_val c == dec_val a * dec_val b)%Q;
  dec_div_exact : forall a b, ~ (dec_val b == 0)%Q -> representable (dec_val a / dec_val b) ->
    exists c, dec_div a b = Done c /\ (dec_val c == dec_val a / dec_val b)%Q;
  dec_cmp_val : forall a b, dec_cmp a b = (dec_val a ?= dec_val b)%Q;
}.

Lemma representable_Z (n : Z) : Z.abs n < 2 ^ 96 -> representable (inject_Z n).
Proof.
  intros Hn. exists n, 0. split_and!; [lia|lia|done|].
  change (10 ^ 0) with 1. ring.
Qed.

Lemma representable_Qeq (p q : Q) : (p == q)%Q -> representable p -> representable q.
Proof.
  intros E (m & s & Hs & Hm & H). exists m, s. split_and!; [lia|lia|done|].
  by rewrite <- E.
Qed.

Lemma representable_scaled (n s : Z) :
  0 <= s <= 28 -> Z.abs n < 2 ^ 96 -> representable (inject_Z n / inject_Z (10 ^ s)).
Proof.
  intros Hs Hn. exists n, s. split_and!; [lia|lia|done|].
  field. intros H. assert (10 ^ s > 0) by (apply Z.lt_gt, Z.pow_pos_nonneg; lia).
  change 0%Q with (inject_Z 0) in H. apply (proj1 (inject_Z_injective _ _)) in H. lia.
Qed.

(** The rationals themselves satisfy the laws: the reference instance. *)
#[global] Instance Q_DecimalOps : DecimalOps Q := {
  dec_of_Z := inject_Z;
  dec_add a b := Done (Qred (a + b));
  dec_sub a b := Done (Qred (a - b));
  dec_mul a b := Done (Qred (a * b));
  dec_div a b := if Qeq_bool b 0 then Panic else Done (Qred (a / b));
  dec_cmp a b := Qcompare a b;
}.

#[global, refine] Instance Q_DecimalLaws : DecimalLaws Q := { dec_val q := q }.
Proof.
  - done.
  - intros a b _. eexists. split; [done|]. apply Qred_correct.
  - intros a b _. eexists. split; [done|]. apply Qred_correct.
  - intros a b _. eexists. split; [done|]. apply Qred_correct.
  - intros a b Hb _. simpl. destruct (Qeq_bool b 0) eqn:E.
    { apply Qeq_bool_iff in E. done. }
    eexists. split; [done|]. apply Qred_correct.
  - done.
Defined.

(** ** borsh

    A reader consumes a prefix of the bytes; a derived [BorshDeserialize] reads
    its fields in declaration order. *)

Definition reader (A : Type) : Type := list Z -> result (A * list Z) string.

Class Borsh : Type := {
  read_uint : nat -> reader Z;              (** an unsigned integer of [n] bytes *)
  read_bool : reader bool;
  read_array : nat -> reader (list Z);      (** [[u8; n]] *)
  read_option_tag : reader bool;            (** whether a value follows *)
  write_uint : nat -> Z -> list Z;
  write_option_tag : bool -> list Z;
  not_all_bytes_read : string;              (** the error of [try_from_slice] *)
}.

(** The borsh specification: little-endian integers, one byte for a boolean or
    an [Option] tag, any shortage of bytes an error. *)
Class BorshLaws `{Borsh} : Prop := {
  read_uint_ok : forall n bs, (n <= length bs)%nat ->
    read_uint n bs = Ok (le_decode (take n bs), drop n bs);
  read_uint_short : forall n bs, (length bs < n)%nat -> exists e, read_uint n bs = Err e;
  read_array_ok : forall n bs, (n <= length bs)%nat ->
    read_array n bs = Ok (take n bs, drop n bs);
  read_array_short : forall n bs, (length bs < n)%nat -> exists e, read_array n bs = Err e;
  read_bool_ok : forall b bs, read_bool ((if b : bool then 1 else 0) :: bs) = Ok (b, bs);
  read_bool_err : forall b bs, b <> 0 -> b <> 1 -> exists e, read_bool (b :: bs) = Err e;
  read_bool_short : exists e, read_bool [] = Err e;
  read_option_tag_ok : forall b bs,
    read_option_tag ((if b : bool then 1 else 0) :: bs) = Ok (b, bs);
  read_option_tag_err : forall b bs, b <> 0 -> b <> 1 -> exists e, read_option_tag (b :: bs) = Err e;
  read_option_tag_short : exists e, read_option_tag [] = Err e;
  write_uint_le : forall n z, is_uint (8 * Z.of_nat n) z -> write_uint n z = le_encode n z;
  write_option_tag_byte : forall b, write_option_tag b = [if b : bool then 1 else 0];
}.

Section BorshCombinators.
Context `{Borsh}.

(** [solana_pubkey::Pubkey] is its 32 bytes. *)
Definition read_pubkey : reader (list Z) := read_array 32.

Definition read_option {A} (r : reader A) : reader (option A) := fun bs =>
  let? (some, bs) := read_option_tag bs in
  if some : bool then
    let? (a, bs) := r bs in Ok (Some a, bs)
  else Ok (None, bs).

(** [BorshDeserialize::try_from_slice]: every byte must be consumed. *)
Definition try_from_slice {A} (r : reader A) (bs : list Z) : result A string :=
  let? (a, rest) := r bs in
  match rest with
  | [] => Ok a
  | _ => Err not_all_bytes_read
  end.
End BorshCombinators.

(** ** sha2 and solana_pubkey *)

Class Sha256 : Type := { sha256 : list Z -> list Z }.
Class Sha256Laws `{Sha256} : Prop := { sha256_bytes : forall m, is_bytes 32 (sha256 m) }.

Definition Pubkey : Type := list Z.
Definition Signature : Type := list Z.
(** chrono's [DateTime<Utc>] and [TimeDelta], in nanoseconds since the epoch. *)
Definition DateTime : Type := Z.
Definition TimeDelta : Type := Z.

(** The base58 of addresses and signatures: [pubkey!], [Display], [FromStr]. *)
Class Base58 : Type := {
  pubkey_of_string : string -> option Pubkey;
  pubkey_to_string : Pubkey -> string;
}.
Class Base58Laws `{Base58} : Prop := {
  pubkey_of_to_string : forall k, is_bytes 32 k -> pubkey_of_string (pubkey_to_string k) = Some k;
  pubkey_of_string_bytes : forall s k, pubkey_of_string s = Some k -> is_bytes 32 k;
}.

(** [Display] and [FromStr] of a [solana_signature::Signature]. *)
Class SignatureDisplay : Type := { signature_to_string : Signature -> string }.
Class SignatureFromStr : Type := { signature_of_string : string -> option Signature }.
Class SignatureFromStrLaws `{SignatureDisplay} `{SignatureFromStr} : Prop := {
  signature_of_to_string : forall s, is_bytes 64 s -> signature_of_string (signature_to_string s) = Some s;
}.

(** [bs58::decode(_).into_vec()], and the text of a signature's parse error. *)
Class Bs58 : Type := {
  bs58_decode : string -> option (list Z);
  signature_parse_error : string -> string;
}.

(** chrono's [DateTime::from_timestamp(secs, 0)], [None] out of its range. *)
Class Chrono : Type := { from_timestamp : Z -> option DateTime }.

(** *** Readers give back what was written *)

Section BorshRoundTrip.
Context `{BorshLaws}.

Definition write_bool (b : bool) : list Z := [if b then 1 else 0].
Definition write_option {A} (w : A -> list Z) (o : option A) : list Z :=
  match o with
  | None => [0]
  | Some a => 1 :: w a
  end.

Lemma read_uint_write n z rest :
  is_uint (8 * Z.of_nat n) z -> read_uint n (le_encode n z ++ rest) = Ok (z, rest).
Proof.
  intros Hz. rewrite read_uint_ok by (rewrite length_app, length_le_encode; lia).
  rewrite take_app_length', drop_app_length' by (rewrite length_le_encode; done).
  by rewrite le_decode_encode.
Qed.

Lemma read_array_write n bs rest : is_bytes n bs -> read_array n (bs ++ rest) = Ok (bs, rest).
Proof.
  intros [Hl _]. rewrite read_array_ok by (rewrite length_app; lia).
  by rewrite take_app_length', drop_app_length' by done.
Qed.

Lemma read_pubkey_write k rest : is_bytes 32 k -> read_pubkey (k ++ rest) = Ok (k, rest).
Proof. apply read_array_write. Qed.

Lemma read_bool_write b rest : read_bool (write_bool b ++ rest) = Ok (b, rest).
Proof. apply read_bool_ok. Qed.

Lemma read_option_write {A} (r : reader A) (w : A -> list Z) (o : option A) rest :
  (forall a rest, o = Some a -> r (w a ++ rest) = Ok (a, rest)) ->
  read_option r (write_option w o ++ rest) = Ok (o, rest).
Proof.
  intros Hr. unfold read_option, write_option. destruct o as [a|].
  - change ((1 :: w a) ++ rest) with ((if true then 1 else 0) :: (w a ++ rest)).
    rewrite read_option_tag_ok. cbn [result_bind]. by rewrite Hr.
  - change ([0] ++ rest) with ((if false then 1 else 0) :: rest).
    by rewrite read_option_tag_ok.
Qed.

Lemma try_from_slice_write {A} (r : reader A) a bs :
  r bs = Ok (a, []) -> try_from_slice r bs = Ok a.
Proof. intros Hr. unfold try_from_slice. by rewrite Hr. Qed.

Lemma read_uint_Ok n bs z rest :
  read_uint n bs = Ok (z, rest) -> (n <= length bs)%nat /\ z = le_decode (take n bs) /\ rest = drop n bs.
Proof.
  intros Hr. destruct (decide (n <= length bs)%nat) as [Hn|Hn].
  - rewrite read_uint_ok in Hr by done. by injection Hr as <- <-.
  - destruct (read_uint_short n bs) as [e He]; [lia|]. congruence.
Qed.

Lemma read_array_Ok n bs a rest :
  read_array n bs = Ok (a, rest) -> (n <= length bs)%nat /\ a = take n bs /\ rest = drop n bs.
Proof.
  intros Hr. destruct (decide (n <= length bs)%nat) as [Hn|Hn].
  - rewrite read_array_ok in Hr by done. by injection Hr as <- <-.
  - destruct (read_array_short n bs) as [e He]; [lia|]. congruence.
Qed.
End BorshRoundTrip.

Create Rewrite HintDb borsh.
#[export] Hint Rewrite @read_uint_write @read_pubkey_write @read_array_write
  @read_bool_write using (typeclasses eauto || done) : borsh.
