(* ===== verification/OrderedMap.v ===== *)
(** * Ordered maps and stable sorting

    A [BTreeMap] keyed by integers is a [gmap Z]; its ends are the least and
    the greatest key. [sort_by_key] is an insertion sort. *)

From stdpp Require Import sorting.
From Stdlib Require Import Sorted.
From S2P Require Import Prelude.

Section OrderedMap.
Context {V : Type}.
Implicit Types m : gmap Z V.

Definition keys m : list Z := map fst (map_to_list m).

(** [first_key_value] and [last_key_value], their key. *)
Definition first_key m : option Z :=
  foldr (fun k acc => Some (match acc with Some a => Z.min k a | None => k end)) None (keys m).
Definition last_key m : option Z :=
  foldr (fun k acc => Some (match acc with Some a => Z.max k a | None => k end)) None (keys m).

(** [pop_first], the map left. *)
Definition pop_first m : gmap Z V :=
  match first_key m with
  | Some k => delete k m
  | None => m
  end.

Lemma keys_lookup m k : In k (keys m) <-> is_Some (m !! k).
Proof.
  unfold keys. rewrite in_map_iff. split.
  - intros ([k' v] & <- & Hin). apply list_elem_of_In, elem_of_map_to_list in Hin. eauto.
  - intros [v Hv]. exists (k, v). split; [done|].
    by apply list_elem_of_In, elem_of_map_to_list.
Qed.

Lemma foldr_min_Some (l : list Z) k :
  foldr (fun k acc => Some (match acc with Some a => Z.min k a | None => k end)) None l = Some k ->
  In k l /\ Forall (fun k' => k <= k') l.
Proof.
  revert k. induction l as [|x l IH]; intros k; simpl; [done|].
  destruct (foldr _ None l) as [a|] eqn:Hl; intros [= <-].
  - destruct (IH a eq_refl) as [Hin Hall]. split.
    + destruct (Z.min_spec x a) as [[_ ->]|[_ ->]]; auto.
    + constructor; [lia|]. eapply Forall_impl; [exact Hall|]. simpl. lia.
  - destruct l; [|done]. split; [by left|]. by repeat constructor.
Qed.

Lemma foldr_max_Some (l : list Z) k :
  foldr (fun k acc => Some (match acc with Some a => Z.max k a | None => k end)) None l = Some k ->
  In k l /\ Forall (fun k' => k' <= k) l.
Proof.
  revert k. induction l as [|x l IH]; intros k; simpl; [done|].
  destruct (foldr _ None l) as [a|] eqn:Hl; intros [= <-].
  - destruct (IH a eq_refl) as [Hin Hall]. split.
    + destruct (Z.max_spec x a) as [[_ ->]|[_ ->]]; auto.
    + constructor; [lia|]. eapply Forall_impl; [exact Hall|]. simpl. lia.
  - destruct l; [|done]. split; [by left|]. by repeat constructor.
Qed.

Lemma first_key_Some m k :
  first_key m = Some k -> is_Some (m !! k) /\ forall k', is_Some (m !! k') -> k <= k'.
Proof.
  intros [Hin Hall]%foldr_min_Some. split; [by apply keys_lookup|].
  intros k' Hk'%keys_lookup. rewrite Forall_forall in Hall. by apply Hall, list_elem_of_In.
Qed.

Lemma last_key_Some m k :
  last_key m = Some k -> is_Some (m !! k) /\ forall k', is_Some (m !! k') -> k' <= k.
Proof.
  intros [Hin Hall]%foldr_max_Some. split; [by apply keys_lookup|].
  intros k' Hk'%keys_lookup. rewrite Forall_forall in Hall. by apply Hall, list_elem_of_In.
Qed.

Lemma keys_nil m : keys m = [] -> m = ∅.
Proof. unfold keys. intros H%map_eq_nil. by apply map_to_list_empty_iff. Qed.

Lemma first_key_None m : first_key m = None -> m = ∅.
Proof. unfold first_key. intros H. apply keys_nil. by destruct (keys m). Qed.

Lemma last_key_None m : last_key m = None -> m = ∅.
Proof. unfold last_key. intros H. apply keys_nil. by destruct (keys m). Qed.

Lemma first_key_empty : first_key ∅ = None.
Proof. unfold first_key, keys. by rewrite map_to_list_empty. Qed.

Lemma size_delete_Some m k : is_Some (m !! k) -> size m = S (size (delete k m)).
Proof.
  intros [v Hv]. rewrite <- (insert_delete_id m k v) at 1 by done.
  by rewrite map_size_insert_None by apply lookup_delete_eq.
Qed.

Lemma size_insert_le m k v : (size (<[k:=v]> m) <= S (size m))%nat.
Proof. rewrite map_size_insert. destruct (m !! k); simpl; lia. Qed.
End OrderedMap.

(** How many values a map of lists holds. *)
Definition total {T} (m : gmap Z (list T)) : Z :=
  foldr (fun kv acc => Z.of_nat (length (snd kv)) + acc) 0 (map_to_list m).

Lemma total_empty {T} : total (∅ : gmap Z (list T)) = 0.
Proof. unfold total. by rewrite map_to_list_empty. Qed.

Lemma total_permutation {T} (l1 l2 : list (Z * list T)) :
  l1 ≡ₚ l2 ->
  foldr (fun kv acc => Z.of_nat (length (snd kv)) + acc) 0 l1 =
  foldr (fun kv acc => Z.of_nat (length (snd kv)) + acc) 0 l2.
Proof. induction 1; simpl; lia. Qed.

Lemma total_insert_None {T} (m : gmap Z (list T)) k l :
  m !! k = None -> total (<[k:=l]> m) = Z.of_nat (length l) + total m.
Proof. intros H. unfold total. by rewrite (total_permutation _ _ (map_to_list_insert m k l H)). Qed.

Lemma total_delete {T} (m : gmap Z (list T)) k l :
  m !! k = Some l -> total m = Z.of_nat (length l) + total (delete k m).
Proof.
  intros H. rewrite <- (insert_delete_id m k l) at 1 by done.
  by rewrite total_insert_None by apply lookup_delete_eq.
Qed.

Lemma total_insert {T} (m : gmap Z (list T)) k l :
  total (<[k:=l]> m) =
    total m + Z.of_nat (length l) - Z.of_nat (length (default [] (m !! k))).
Proof.
  destruct (m !! k) as [l'|] eqn:Hk; simpl.
  - rewrite <- insert_delete_eq, total_insert_None by apply lookup_delete_eq.
    rewrite (total_delete m k l') by done. lia.
  - rewrite total_insert_None by done. lia.
Qed.

Lemma total_delete_default {T} (m : gmap Z (list T)) k :
  total (delete k m) = total m - Z.of_nat (length (default [] (m !! k))).
Proof.
  destruct (m !! k) as [l|] eqn:Hk; simpl.
  - rewrite (total_delete m k l) by done. lia.
  - rewrite delete_id by done. lia.
Qed.

Lemma total_nonneg {T} (m : gmap Z (list T)) : 0 <= total m.
Proof. unfold total. induction (map_to_list m) as [|[k l] ms IH]; simpl; lia. Qed.

(** ** Entries in key order *)

Section Entries.
Context {V : Type}.
Implicit Types m : gmap Z V.

Definition key_le (a b : Z * V) : Prop := fst a <= fst b.

#[global] Instance key_le_dec (a b : Z * V) : Decision (key_le a b).
Proof. unfold key_le. apply _. Defined.

(** [into_iter] of a [BTreeMap]. *)
Definition entries m : list (Z * V) := merge_sort key_le (map_to_list m).

(** [split_off]: the entries below the key, and the map of the others. *)
Definition split_off m (k : Z) : list (Z * V) * gmap Z V :=
  (List.filter (fun kv => fst kv <? k) (entries m), filter (fun kv => k <= fst kv) m).

Lemma entries_In m k v : In (k, v) (entries m) <-> m !! k = Some v.
Proof.
  unfold entries. rewrite <- elem_of_map_to_list, <- list_elem_of_In.
  by rewrite (merge_sort_Permutation key_le).
Qed.
End Entries.

(** ** Stable sorting by an integer key

    [sort_by_key] of the standard library, as an insertion sort: the result is
    the only list that is sorted by the key and keeps the elements of each key
    in their order. *)

Section Sort.
Context {A : Type} (key : A -> Z).

Fixpoint insert_by_key (a : A) (l : list A) : list A :=
  match l with
  | [] => [a]
  | b :: l' => if key a <=? key b then a :: l else b :: insert_by_key a l'
  end.
Definition sort_by_key (l : list A) : list A := foldr insert_by_key [] l.

(** The elements of one key, in the order they come. *)
Definition of_key (i : Z) (l : list A) : list A := List.filter (fun a => key a =? i) l.

Definition by_key (a b : A) : Prop := key a <= key b.

Lemma insert_perm a l : insert_by_key a l ≡ₚ a :: l.
Proof.
  induction l as [|b l IH]; simpl; [done|]. case_tests; [done|].
  rewrite IH. apply Permutation_swap.
Qed.

Lemma sort_perm l : sort_by_key l ≡ₚ l.
Proof. induction l as [|a l IH]; simpl; [done|]. by rewrite insert_perm, IH. Qed.

Lemma insert_sorted a l : StronglySorted by_key l -> StronglySorted by_key (insert_by_key a l).
Proof.
  induction 1 as [|b l Hl IH Hb]; simpl; [by repeat constructor|].
  destruct (Z.leb_spec (key a) (key b)) as [Hle|Hgt].
  - constructor; [by constructor|]. constructor; [done|].
    eapply Forall_impl; [exact Hb|]. unfold by_key. lia.
  - constructor; [done|]. rewrite insert_perm. constructor; [unfold by_key; lia|done].
Qed.

Lemma sort_sorted l : StronglySorted by_key (sort_by_key l).
Proof. induction l as [|a l IH]; simpl; [constructor|by apply insert_sorted]. Qed.

Lemma insert_stable i a l : of_key i (insert_by_key a l) = of_key i (a :: l).
Proof.
  unfold of_key. induction l as [|b l IH]; [done|]. cbn [insert_by_key].
  destruct (Z.leb_spec (key a) (key b)) as [Hle|Hgt]; [done|].
  cbn [List.filter] in *. rewrite IH.
  destruct (Z.eqb_spec (key a) i), (Z.eqb_spec (key b) i); try done. lia.
Qed.

Lemma sort_stable i l : of_key i (sort_by_key l) = of_key i l.
Proof.
  induction l as [|a l IH]; [done|]. cbn [sort_by_key foldr].
  fold (sort_by_key l). rewrite insert_stable. unfold of_key in *. cbn [List.filter].
  by rewrite IH.
Qed.

Lemma of_key_head i a l l' : of_key i l = a :: l' -> In a l /\ key a = i.
Proof.
  intros H. assert (In a (of_key i l)) as Hin by (rewrite H; by left).
  apply filter_In in Hin as [Hin Hi%Z.eqb_eq]. done.
Qed.

(** The stable sort is unique. *)
Lemma stable_unique l1 l2 :
  StronglySorted by_key l1 -> StronglySorted by_key l2 ->
  (forall i, of_key i l1 = of_key i l2) -> l1 = l2.
Proof.
  intros H1. revert l2. induction H1 as [|a l1 Hl1 IH Ha]; intros l2 H2 Heq.
  - destruct l2 as [|b l2]; [done|]. specialize (Heq (key b)). unfold of_key in Heq. simpl in Heq.
    by rewrite Z.eqb_refl in Heq.
  - pose proof (Heq (key a)) as Hhead. unfold of_key at 1 in Hhead. cbn [List.filter] in Hhead.
    rewrite Z.eqb_refl in Hhead. destruct H2 as [|b l2 Hl2 Hb]; [done|].
    symmetry in Hhead. destruct (of_key_head _ _ _ _ Hhead) as [Hin _].
    pose proof (Heq (key b)) as Hhead2. unfold of_key at 2 in Hhead2. cbn [List.filter] in Hhead2.
    rewrite Z.eqb_refl in Hhead2. destruct (of_key_head _ _ _ _ Hhead2) as [Hin2 _].
    rewrite Forall_forall in Ha, Hb. unfold by_key in *.
    assert (key a <= key b) by (destruct Hin2 as [->|Hin2]; [lia|by apply Ha, list_elem_of_In]).
    assert (key b <= key a) by (destruct Hin as [->|Hin]; [lia|by apply Hb, list_elem_of_In]).
    assert (key b = key a) as Hba by lia.
    assert (b = a) as ->.
    { unfold of_key in Hhead. cbn [List.filter] in Hhead. rewrite Hba, Z.eqb_refl in Hhead. congruence. }
    f_equal. apply IH; [done|]. intros i. specialize (Heq i). unfold of_key in *.
    cbn [List.filter] in Heq. destruct (key a =? i); congruence.
Qed.
End Sort.

(** Lists related element by element, with the same keys, are so when sorted. *)
Lemma sort_related {A B} (ka : A -> Z) (kb : B -> Z) (R : A -> B -> Prop) l l' :
  (forall a b, R a b -> ka a = kb b) ->
  Forall2 R l l' -> Forall2 R (sort_by_key ka l) (sort_by_key kb l').
Proof.
  intros Hkey. induction 1 as [|a b l l' Hab _ IH]; [constructor|]. cbn [sort_by_key foldr].
  fold (sort_by_key ka l) (sort_by_key kb l').
  induction IH as [|c d l1 l1' Hcd Hl IHl]; cbn [insert_by_key]; [by repeat constructor|].
  rewrite <- (Hkey a b), <- (Hkey c d) by done.
  destruct (ka a <=? ka c); repeat (constructor; try done).
Qed.
