(* ===== verification/Amm.v ===== *)
(** * Fee and price arithmetic of the AMM programs

    [src/crates/core/src/amm/]: [Common] is common.rs, [DammV2] is damm_v2.rs
    (cp-amm fee schedulers), [Dlmm] is dlmm.rs (base and variable fee bounds). *)

From Stdlib Require Import QArith Qminmax.
From S2P Require Import Prelude Errors External.

#[local] Open Scope Z_scope.

Module Common.

Definition spot_price (reserve_a reserve_b : Z) : CoreResult Z :=
  if reserve_a =? 0 then Err (ArithmeticOverflow "spot_price: reserve_a is zero")
  else
    let? numerator :=
      ok_or (checked_shl 128 reserve_b 64)
        (ArithmeticOverflow "spot_price: reserve_b << 64 overflows u128") in
    Ok (numerator / reserve_a).

(** The final division panics when [price_before] is zero; [as u32] wraps. *)
Definition price_impact (reserve_a reserve_b amount_in : Z) : exec (CoreResult Z) :=
  match spot_price reserve_a reserve_b with
  | Err e => Done (Err e)
  | Ok price_before =>
    match checked_add 128 reserve_a amount_in with
    | None => Done (Err (ArithmeticOverflow "price_impact: reserve_a + amount_in overflows"))
    | Some reserve_a_after =>
      match checked_mul 128 reserve_a reserve_b with
      | None => Done (Err (ArithmeticOverflow "price_impact: reserve_a * reserve_b overflows"))
      | Some k =>
        let* reserve_b_after := div_exec k reserve_a_after in
        match spot_price reserve_a_after reserve_b_after with
        | Err e => Done (Err e)
        | Ok price_after =>
          let delta := saturating_sub price_before price_after in
          match checked_mul 128 delta 10000 with
          | None => Done (Err (ArithmeticOverflow "price_impact: delta * 10_000 overflows"))
          | Some scaled =>
            let* impact_bps := div_exec scaled price_before in
            Done (Ok (wrapping 32 impact_bps))
          end
        end
      end
    end
  end.

Definition imbalance (reserve_a reserve_b : Z) : CoreResult Z :=
  let? total := ok_or (checked_add 128 reserve_a reserve_b)
    (ArithmeticOverflow "imbalance: reserve_a + reserve_b overflows") in
  if total =? 0 then Err (ArithmeticOverflow "imbalance: total reserves are zero")
  else
    let diff := Z.abs (reserve_a - reserve_b) in
    let? scaled := ok_or (checked_mul 128 diff 10000)
      (ArithmeticOverflow "imbalance: diff * 10_000 overflows") in
    Ok (wrapping 32 (scaled / total)).

End Common.

Module DammV2.

Definition FEE_DENOMINATOR : Z := 1000000000.

Inductive BaseFeeKind : Type :=
| Constant
| SchedulerLinear
| SchedulerExponential
| RateLimiter
| MarketCapSchedulerLinear
| MarketCapSchedulerExponential.

#[global] Instance BaseFeeKind_eq_dec : EqDecision BaseFeeKind.
Proof. solve_decision. Defined.

Definition BaseFeeKind_as_str (k : BaseFeeKind) : string :=
  match k with
  | Constant => "constant"
  | SchedulerLinear => "scheduler_linear"
  | SchedulerExponential => "scheduler_exponential"
  | RateLimiter => "rate_limiter"
  | MarketCapSchedulerLinear => "market_cap_scheduler_linear"
  | MarketCapSchedulerExponential => "market_cap_scheduler_exponential"
  end.

Definition base_fee_kind_from (mode number_of_period : Z) : CoreResult BaseFeeKind :=
  if ((mode =? 0) || (mode =? 1) || (mode =? 3) || (mode =? 4)) && (number_of_period =? 0)
  then Ok Constant
  else if mode =? 0 then Ok SchedulerLinear
  else if mode =? 1 then Ok SchedulerExponential
  else if mode =? 2 then Ok RateLimiter
  else if mode =? 3 then Ok MarketCapSchedulerLinear
  else if mode =? 4 then Ok MarketCapSchedulerExponential
  else Err (FeeDecode (String.append "unknown BaseFeeMode discriminant: " (pretty.pretty mode))).

Definition fee_numerator_to_bps {D} `{!DecimalOps D} (numerator : Z) : exec D :=
  dec_div (dec_of_Z numerator) (dec_of_Z (FEE_DENOMINATOR / 10000)).

Definition fee_adjusted_amount (amount_in fee_bps : Z) : CoreResult Z :=
  let? scaled := ok_or (checked_mul 128 amount_in fee_bps)
    (ArithmeticOverflow "fee_adjusted_amount: amount_in * fee_bps overflows") in
  let fee := scaled / 10000 in
  Ok (saturating_sub amount_in fee).

Definition net_price_impact (reserve_a reserve_b amount_in fee_bps : Z) : exec (CoreResult Z) :=
  match fee_adjusted_amount amount_in fee_bps with
  | Err e => Done (Err e)
  | Ok amount_in_net => Common.price_impact reserve_a reserve_b amount_in_net
  end.

Definition MAX_BASIS_POINT : Z := 10000.
Definition ONE_Q64 : Z := 2 ^ 64.
Definition SCALE_OFFSET : Z := 64.
Definition MAX_EXPONENTIAL : Z := 524288.
Definition ZERO_FREQUENCY_STAYS_AT_CLIFF : Z := 0.

Record FeeSchedulerParams : Type := mkFeeSchedulerParams {
  cliff_fee_numerator : Z;
  number_of_period : Z;
  period_frequency : Z;
  reduction_factor : Z;
  activation_point : Z;
  activation_type : Z;
  kind : BaseFeeKind;
}.

Definition expiry_point (p : FeeSchedulerParams) : option Z :=
  let! span := checked_mul 64 (number_of_period p) (period_frequency p) in
  checked_add 64 (activation_point p) span.

Definition is_expired_at (p : FeeSchedulerParams) (current_point : Z) : bool :=
  match expiry_point p with
  | Some expiry => expiry <? current_point
  | None => false
  end.

Definition elapsed_periods (p : FeeSchedulerParams) (current_point : Z) : Z :=
  if period_frequency p =? ZERO_FREQUENCY_STAYS_AT_CLIFF then 0
  else if current_point <? activation_point p then number_of_period p
  else
    let elapsed := (current_point - activation_point p) / period_frequency p in
    Z.min (default (uint_max 16) (try_uint 16 elapsed)) (number_of_period p).

(** One turn of the squaring loop per unit of fuel; the outer [None] is fuel
    exhaustion, which [pow_loop_fuel] rules out for the fuel [pow] gives. *)
Fixpoint pow_loop (fuel : nat) (exp bit squared_base result : Z) : option (option Z) :=
  match fuel with
  | O => None
  | S fuel =>
    let after :=
      if 0 <? Z.land exp bit
      then let! product := checked_mul 128 result squared_base in
           Some (Z.shiftr product SCALE_OFFSET)
      else Some result in
    match after with
    | None => Some None
    | Some result =>
      let bit := wrapping 32 (Z.shiftl bit 1) in
      if MAX_EXPONENTIAL <=? bit then Some (Some result)
      else
        match checked_mul 128 squared_base squared_base with
        | None => Some None
        | Some square => pow_loop fuel exp bit (Z.shiftr square SCALE_OFFSET) result
        end
    end
  end.

Definition POW_FUEL : nat := 19.

Definition pow (base exp : Z) : option Z :=
  if exp =? - 2 ^ 31 then None
  else if exp =? 0 then Some ONE_Q64
  else
    let invert := exp <? 0 in
    let exp := Z.abs exp in
    if MAX_EXPONENTIAL <=? exp then None
    else
      let! (squared_base, invert) :=
        if ONE_Q64 <=? base
        then let! inverse := checked_div (uint_max 128) base in Some (inverse, negb invert)
        else Some (base, invert) in
      let! result := mjoin (pow_loop POW_FUEL exp 1 squared_base ONE_Q64) in
      if result =? 0 then None
      else if invert then checked_div (uint_max 128) result
      else Some result.

Definition fee_in_period (cliff reduction passed_period : Z) : option Z :=
  if reduction =? 0 then Some cliff
  else
    let! shifted := checked_shl 128 reduction SCALE_OFFSET in
    let! bps := checked_div shifted MAX_BASIS_POINT in
    let! base := checked_sub 128 ONE_Q64 bps in
    let! result := pow base passed_period in
    let! product := checked_mul 128 result cliff in
    try_uint 64 (Z.shiftr product SCALE_OFFSET).

Definition base_fee_numerator_at (params : FeeSchedulerParams) (current_point : Z) : option Z :=
  if period_frequency params =? ZERO_FREQUENCY_STAYS_AT_CLIFF
  then Some (cliff_fee_numerator params)
  else
    let period := elapsed_periods params current_point in
    match kind params with
    | SchedulerLinear =>
        let! drop := checked_mul 64 period (reduction_factor params) in
        checked_sub 64 (cliff_fee_numerator params) drop
    | SchedulerExponential =>
        fee_in_period (cliff_fee_numerator params) (reduction_factor params) period
    | _ => None
    end.

(** The widths of the fields. *)
Record FeeSchedulerParams_wf (p : FeeSchedulerParams) : Prop := {
  cliff_u64 : is_uint 64 (cliff_fee_numerator p);
  periods_u16 : is_uint 16 (number_of_period p);
  frequency_u64 : is_uint 64 (period_frequency p);
  reduction_u64 : is_uint 64 (reduction_factor p);
  activation_u64 : is_uint 64 (activation_point p);
}.

End DammV2.

Module Dlmm.
Section Dlmm.
Context {D : Type} `{!DecimalOps D}.

Definition MAX_FEE_BPS : D := dec_of_Z 1000.
Definition VARIABLE_FEE_SCALE : Z := 100000000000.
Definition VARIABLE_FEE_SATURATION_NUMERATOR : Z := 100000000 * VARIABLE_FEE_SCALE.

(** The [for] loop; [None] is its early [return MAX_FEE_BPS]. *)
Fixpoint base_fee_loop (turns : nat) (ceiling fee : D) : exec (option D) :=
  match turns with
  | O => Done (Some fee)
  | S turns =>
    if dec_geb fee ceiling then Done None
    else let* fee := dec_mul fee (dec_of_Z 10) in base_fee_loop turns ceiling fee
  end.

Definition base_fee_bps (base_factor bin_step base_fee_power_factor : Z) : exec D :=
  let fee := dec_of_Z (base_factor * bin_step) in
  let* ceiling := dec_mul MAX_FEE_BPS (dec_of_Z 10000) in
  let* looped := base_fee_loop (Z.to_nat base_fee_power_factor) ceiling fee in
  match looped with
  | None => Done MAX_FEE_BPS
  | Some fee =>
      let* bps := dec_div fee (dec_of_Z 10000) in
      Done (dec_min bps MAX_FEE_BPS)
  end.

Definition max_variable_fee_bps
    (variable_fee_control max_volatility_accumulator bin_step : Z) : exec D :=
  match checked_mul 128 max_volatility_accumulator bin_step with
  | None => Panic
  | Some accumulated =>
    match checked_mul 128 accumulated accumulated with
    | None => Done MAX_FEE_BPS
    | Some squared =>
      match checked_mul 128 squared variable_fee_control with
      | None => Done MAX_FEE_BPS
      | Some numerator =>
        if VARIABLE_FEE_SATURATION_NUMERATOR <? numerator then Done MAX_FEE_BPS
        else
          let rate_1e9 := div_ceil numerator VARIABLE_FEE_SCALE in
          match try_uint 64 rate_1e9 with
          | None => Panic
          | Some rate => dec_div (dec_of_Z rate) (dec_of_Z 100000)
          end
      end
    end
  end.
End Dlmm.
End Dlmm.

(** ** The fee arithmetic is right

    Theorems about [Amm.v]: the linear and the exponential fee schedulers,
    the DLMM bounds, and where [common.rs] departs from its own errors. *)

#[local] Open Scope Z_scope.
Import Amm.Common Amm.DammV2.

(** ** Constant product *)

Lemma spot_price_value (reserve_a reserve_b : Z) :
  is_uint 128 reserve_a -> reserve_a <> 0 ->
  spot_price reserve_a reserve_b = Ok (wrapping 128 (reserve_b * 2 ^ 64) / reserve_a).
Proof.
  intros Ha Hnz. unfold spot_price. destruct (Z.eqb_spec reserve_a 0); [lia|].
  by rewrite checked_shl_wraps by lia.
Qed.

(** The price of [common.rs] is total on its domain except at [reserve_a =
    0]: the overflow error it announces for [reserve_b << 64] never comes back,
    and from [2^64] on the high bits of [reserve_b] are lost instead. *)
Theorem spot_price_overflow_is_silent (a b : Z) :
  is_uint 128 a -> is_uint 128 b ->
  (spot_price a b = Err (ArithmeticOverflow "spot_price: reserve_a is zero") <-> a = 0) /\
  (a <> 0 -> spot_price a b = Ok ((b mod 2 ^ 64) * 2 ^ 64 / a)) /\
  (a <> 0 -> b < 2 ^ 64 -> spot_price a b = Ok (b * 2 ^ 64 / a)).
Proof.
  intros Ha Hb.
  assert (forall x, wrapping 128 (x * 2 ^ 64) = (x mod 2 ^ 64) * 2 ^ 64) as Hw.
  { intros x. unfold wrapping. change (2 ^ 128) with (2 ^ 64 * 2 ^ 64).
    by rewrite Z.mul_mod_distr_r by lia. }
  split_and!.
  - split.
    + intros H. destruct (decide (a = 0)) as [|Hnz]; [done|].
      by rewrite spot_price_value in H.
    + intros ->. done.
  - intros Hnz. by rewrite spot_price_value, Hw.
  - intros Hnz Hlt. rewrite spot_price_value, Hw by done.
    rewrite Z.mod_small by (unfold is_uint in Hb; lia). done.
Qed.

Lemma spot_price_overflow_is_silent_witness :
  (spot_price 1 (2 ^ 64) = Err (ArithmeticOverflow "spot_price: reserve_a is zero") <-> 1 = 0) /\
  (1 <> 0 -> spot_price 1 (2 ^ 64) = Ok 0) /\
  (1 <> 0 -> 2 ^ 64 < 2 ^ 64 -> spot_price 1 (2 ^ 64) = Ok (2 ^ 64 * 2 ^ 64 / 1)).
Proof. apply (spot_price_overflow_is_silent 1 (2 ^ 64)); by_eval. Defined.

(** [price_impact] panics, dividing by the price before the swap, exactly
    when both overflow checks pass and that price rounds to zero: an empty or a
    relatively tiny [reserve_b] is enough. *)
Theorem price_impact_panics (a b amount_in : Z) :
  is_uint 128 a -> is_uint 128 b -> is_uint 128 amount_in ->
  price_impact a b amount_in = Panic <->
  a <> 0 /\ a + amount_in < 2 ^ 128 /\ a * b < 2 ^ 128 /\ wrapping 128 (b * 2 ^ 64) / a = 0.
Proof.
  intros Ha Hb Hx. unfold price_impact.
  destruct (decide (a = 0)) as [->|Hnz].
  { simpl. split; [done|lia]. }
  rewrite spot_price_value by done.
  destruct (checked_add 128 a amount_in) as [a'|] eqn:Hadd.
  2: { apply try_uint_None in Hadd. split; [done|]. unfold is_uint in *. lia. }
  apply try_uint_Some in Hadd as [-> Ha'].
  destruct (checked_mul 128 a b) as [k|] eqn:Hmul.
  2: { apply try_uint_None in Hmul. split; [done|]. unfold is_uint in *. nia. }
  apply try_uint_Some in Hmul as [-> Hk].
  unfold div_exec at 1. destruct (Z.eqb_spec (a + amount_in) 0); [unfold is_uint in *; lia|].
  cbn [exec_bind]. rewrite spot_price_value by done.
  set (before := wrapping 128 (b * 2 ^ 64) / a).
  set (after := wrapping 128 _ / (a + amount_in)).
  assert (0 <= after) by (apply Z.div_pos; [apply wrapping_is_uint; lia|unfold is_uint in *; lia]).
  unfold is_uint in Ha, Hx, Ha', Hk.
  destruct (decide (before = 0)) as [E|E].
  - rewrite E. unfold saturating_sub. rewrite Z.max_l by lia.
    rewrite checked_mul_in by uint_lia. tauto.
  - split; [|naive_solver]. destruct (checked_mul _ _ _); [|done].
    unfold div_exec. by destruct (Z.eqb_spec before 0).
Qed.

Lemma price_impact_panics_witness :
  price_impact 5 0 1 = Panic <->
  5 <> 0 /\ 5 + 1 < 2 ^ 128 /\ 5 * 0 < 2 ^ 128 /\ wrapping 128 (0 * 2 ^ 64) / 5 = 0.
Proof. apply (price_impact_panics 5 0 1); by_eval. Defined.

Lemma imbalance_spec (a b : Z) :
  is_uint 128 a -> is_uint 128 b -> 0 < a + b -> (a + b) * 10000 < 2 ^ 128 ->
  imbalance a b = Ok (Z.abs (a - b) * 10000 / (a + b)) /\
  0 <= Z.abs (a - b) * 10000 / (a + b) <= 10000.
Proof.
  intros Ha Hb Hpos Hsmall.
  assert (0 <= Z.abs (a - b) * 10000 / (a + b) <= 10000) as Hbound.
  { unfold is_uint in *. split; [apply Z.div_pos; lia|].
    apply Z.div_le_upper_bound; lia. }
  split; [|done]. unfold imbalance.
  rewrite checked_add_in by (unfold is_uint in *; lia). simpl.
  destruct (Z.eqb_spec (a + b) 0); [lia|].
  rewrite checked_mul_in by (unfold is_uint in *; lia). simpl.
  by rewrite wrapping_in by uint_lia.
Qed.

(** ** Time on the scheduler's curve *)

Section Scheduler.
Context (p : FeeSchedulerParams) (Hp : FeeSchedulerParams_wf p).

Lemma elapsed_periods_bounds now : 0 <= now -> 0 <= elapsed_periods p now <= number_of_period p.
Proof.
  destruct Hp. intros Hnow. unfold elapsed_periods, is_uint in *.
  case_tests; [lia..|]. split; [|lia].
  apply Z.min_glb; [|lia].
  destruct (try_uint 16 _) eqn:E; simpl; [|done].
  apply try_uint_is_uint in E. unfold is_uint in E. lia.
Qed.

(** The saturation to [u16] never shows: the clamp is the plain minimum. *)
Lemma elapsed_periods_active now :
  is_uint 64 now -> 0 < period_frequency p -> activation_point p <= now ->
  elapsed_periods p now =
    Z.min ((now - activation_point p) / period_frequency p) (number_of_period p).
Proof.
  destruct Hp. intros Hnow Hf Ha. unfold elapsed_periods, ZERO_FREQUENCY_STAYS_AT_CLIFF.
  case_tests; [lia..|].
  destruct (try_uint 16 _) eqn:E; simpl.
  - apply try_uint_Some in E as [-> _]. done.
  - apply try_uint_None in E. unfold is_uint, uint_max in *.
    assert (0 <= (now - activation_point p) / period_frequency p) by (apply Z.div_pos; lia).
    lia.
Qed.

Lemma elapsed_periods_monotone now now' :
  is_uint 64 now -> is_uint 64 now' -> activation_point p <= now <= now' ->
  elapsed_periods p now <= elapsed_periods p now'.
Proof.
  intros Hn Hn' Hle. destruct (Z.eq_dec (period_frequency p) 0) as [E|E].
  { unfold elapsed_periods. by rewrite E. }
  assert (0 < period_frequency p) by (destruct Hp; unfold is_uint in *; lia).
  rewrite !elapsed_periods_active by (lia || done).
  apply Z.min_le_compat_r, Z.div_le_mono; lia.
Qed.

Lemma elapsed_periods_expired now :
  is_uint 64 now -> 0 < period_frequency p -> is_expired_at p now = true ->
  elapsed_periods p now = number_of_period p.
Proof.
  intros Hn Hf Hexp. unfold is_expired_at in Hexp.
  destruct (expiry_point p) as [e|] eqn:He; [|done].
  unfold expiry_point in He. inv_binds. apply try_uint_Some in Hx as [-> _].
  apply try_uint_Some in He as [-> _]. apply Z.ltb_lt in Hexp.
  assert (0 <= number_of_period p) by (destruct Hp; unfold is_uint in *; lia).
  rewrite elapsed_periods_active; [|done..|nia].
  apply Z.min_r, Z.div_le_lower_bound; nia.
Qed.
End Scheduler.

(** ** The linear scheduler *)

(** The number of periods the chain charges for at [now]. *)
Definition periods_charged (p : FeeSchedulerParams) (now : Z) : Z :=
  if now <? activation_point p then number_of_period p
  else Z.min ((now - activation_point p) / period_frequency p) (number_of_period p).

Lemma elapsed_periods_charged p now :
  FeeSchedulerParams_wf p -> is_uint 64 now -> 0 < period_frequency p ->
  elapsed_periods p now = periods_charged p now.
Proof.
  intros Hp Hn Hf. unfold periods_charged. destruct (Z.ltb_spec now (activation_point p)).
  - unfold elapsed_periods, ZERO_FREQUENCY_STAYS_AT_CLIFF.
    destruct (Z.eqb_spec (period_frequency p) 0); [lia|].
    by destruct (Z.ltb_spec now (activation_point p)); [|lia].
  - by apply elapsed_periods_active.
Qed.

(** With a linear scheduler whose total decay does not exceed the cliff,
    the base fee in force is exactly [cliff - reduction * periods], where the
    periods are those elapsed since activation, clamped to the schedule's
    length (the whole length before activation); it lies between the floor
    and the cliff, and the code never answers [None]. *)
Theorem linear_schedule (p : FeeSchedulerParams) (now : Z) :
  FeeSchedulerParams_wf p -> kind p = SchedulerLinear -> 0 < period_frequency p ->
  number_of_period p * reduction_factor p <= cliff_fee_numerator p -> is_uint 64 now ->
  base_fee_numerator_at p now =
    Some (cliff_fee_numerator p - reduction_factor p * periods_charged p now) /\
  cliff_fee_numerator p - number_of_period p * reduction_factor p <=
    cliff_fee_numerator p - reduction_factor p * periods_charged p now <= cliff_fee_numerator p /\
  (is_expired_at p now = true -> periods_charged p now = number_of_period p).
Proof.
  intros Hp Hk Hf Hfloor Hn. rewrite <- (elapsed_periods_charged p now Hp Hn Hf).
  pose proof (elapsed_periods_bounds p Hp now ltac:(unfold is_uint in *; lia)) as He.
  pose proof (cliff_u64 _ Hp). pose proof (reduction_u64 _ Hp). unfold is_uint in *.
  split_and!; [|nia..|by apply elapsed_periods_expired].
  unfold base_fee_numerator_at, ZERO_FREQUENCY_STAYS_AT_CLIFF. rewrite Hk.
  destruct (Z.eqb_spec (period_frequency p) 0); [lia|].
  rewrite checked_mul_in by (unfold is_uint; nia). simpl.
  rewrite checked_sub_in by (unfold is_uint; nia). f_equal. lia.
Qed.

Definition launch_params : FeeSchedulerParams :=
  mkFeeSchedulerParams 500000000 100 60 4750000 1700000000 1 SchedulerLinear.

Lemma linear_schedule_witness :
  base_fee_numerator_at launch_params 1700000600 =
    Some (500000000 - 4750000 * periods_charged launch_params 1700000600) /\
  cliff_fee_numerator launch_params - 100 * 4750000 <=
    cliff_fee_numerator launch_params - 4750000 * periods_charged launch_params 1700000600 <=
    cliff_fee_numerator launch_params /\
  (is_expired_at launch_params 1700000600 = true ->
   periods_charged launch_params 1700000600 = 100).
Proof.
  apply (linear_schedule launch_params 1700000600); by_eval.
Defined.

(** The fee never rises with time once the pool is active. *)
Lemma linear_schedule_decays (p : FeeSchedulerParams) (now now' : Z) fee fee' :
  FeeSchedulerParams_wf p -> kind p = SchedulerLinear ->
  is_uint 64 now -> is_uint 64 now' -> activation_point p <= now <= now' ->
  base_fee_numerator_at p now = Some fee -> base_fee_numerator_at p now' = Some fee' ->
  fee' <= fee.
Proof.
  intros Hp Hk Hn Hn' Hle. pose proof (elapsed_periods_monotone p Hp now now' Hn Hn' Hle).
  unfold base_fee_numerator_at, ZERO_FREQUENCY_STAYS_AT_CLIFF.
  rewrite Hk. destruct (Z.eqb_spec (period_frequency p) 0); [intros [= <-] [= <-]; lia|]. intros H1 H2.
  inv_binds. apply try_uint_Some in Hx, Hx0, H1, H2. destruct_and!. subst.
  pose proof (reduction_u64 _ Hp). unfold is_uint in *. nia.
Qed.

(** ** Q64.64 exponentiation *)

(** [v] is [base^n] in Q64.64, under by less than [err + 1] units. *)
Definition approx (base n v err : Z) : Prop :=
  0 <= v <= ONE_Q64 /\ 0 <= n /\ 0 <= err /\
  v * ONE_Q64 ^ n <= base ^ n * ONE_Q64 <= (v + err) * ONE_Q64 ^ n.

Lemma approx_mul base n m v w a c :
  0 <= base <= ONE_Q64 -> approx base n v a -> approx base m w c ->
  approx base (n + m) (v * w / ONE_Q64) (a + c + 1).
Proof.
  intros Hb (Hv & Hn & Ha & Hvl & Hvu) (Hw & Hm & Hc & Hwl & Hwu).
  assert (0 < ONE_Q64) as HO by done. unfold approx.
  rewrite !Z.pow_add_r by lia.
  assert (0 < ONE_Q64 ^ n) as HN by (apply Z.pow_pos_nonneg; lia).
  assert (0 < ONE_Q64 ^ m) as HM by (apply Z.pow_pos_nonneg; lia).
  assert (0 <= base ^ n <= ONE_Q64 ^ n) as HB by (split; [lia|apply Z.pow_le_mono_l; lia]).
  assert (0 <= base ^ m <= ONE_Q64 ^ m) as HB' by (split; [lia|apply Z.pow_le_mono_l; lia]).
  set (O := ONE_Q64) in *. set (N := O ^ n) in *. set (M := O ^ m) in *.
  set (B := base ^ n) in *. set (B' := base ^ m) in *.
  pose proof (Z.div_mod (v * w) O ltac:(lia)) as Hdm.
  pose proof (Z.mod_pos_bound (v * w) O HO) as Hmod.
  set (q := v * w / O) in *. set (r := (v * w) mod O) in *.
  assert (0 <= q) by (apply Z.div_pos; nia).
  split_and!; [done| | lia | lia | | ].
  - apply Z.div_le_upper_bound; nia.
  - (* lower bound *)
    apply Z.mul_le_mono_pos_r with O; [done|].
    assert (v * N * (w * M) <= B * O * (B' * O)) by (apply Z.mul_le_mono_nonneg; nia).
    assert (q * O * (N * M) <= v * w * (N * M)) by (apply Z.mul_le_mono_nonneg_r; nia).
    nia.
  - (* upper bound *)
    apply Z.mul_le_mono_pos_r with O; [done|].
    (* B O B' O - v N w M = (B O - v N) B' O + v N (B' O - w M) *)
    assert ((B * O - v * N) * (B' * O) <= a * N * (M * O)).
    { apply Z.mul_le_mono_nonneg; nia. }
    assert (v * N * (B' * O - w * M) <= (O * N) * (c * M)).
    { apply Z.mul_le_mono_nonneg; nia. }
    assert (v * w * (N * M) <= (q + 1) * O * (N * M)).
    { apply Z.mul_le_mono_nonneg_r; nia. }
    nia.
Qed.

Lemma land_pow2_testbit e k : 0 <= k -> (0 <? Z.land e (2 ^ k)) = Z.testbit e k.
Proof.
  intros Hk. destruct (Z.testbit e k) eqn:Hb.
  - apply Z.ltb_lt. assert (Z.land e (2 ^ k) = 2 ^ k) as ->; [|lia].
    apply Z.bits_inj'. intros n Hn. rewrite Z.land_spec, Z.pow2_bits_eqb by lia.
    destruct (Z.eqb_spec k n); [subst; by rewrite Hb|by rewrite andb_false_r].
  - apply Z.ltb_ge. assert (Z.land e (2 ^ k) = 0) as ->; [|lia].
    apply Z.bits_inj'. intros n Hn. rewrite Z.land_spec, Z.pow2_bits_eqb, Z.bits_0 by lia.
    destruct (Z.eqb_spec k n); [subst; by rewrite Hb|by rewrite andb_false_r].
Qed.

Lemma mod_pow2_succ e k :
  0 <= k -> e mod 2 ^ (k + 1) = e mod 2 ^ k + (if Z.testbit e k then 2 ^ k else 0).
Proof.
  intros Hk. rewrite Z.pow_add_r, Z.rem_mul_r by lia.
  change (2 ^ 1) with 2. rewrite <- (Z.testbit_spec' e k) by lia.
  destruct (Z.testbit e k); simpl; lia.
Qed.

Lemma approx_one base : 0 <= base -> approx base 0 ONE_Q64 0.
Proof. intros. split_and!; rewrite ?Z.pow_0_r; unfold ONE_Q64; lia. Qed.

Lemma approx_step base n m v w a c :
  0 <= base <= ONE_Q64 -> approx base n v a -> approx base m w c -> w < ONE_Q64 ->
  exists p, checked_mul 128 v w = Some p /\
    approx base (n + m) (Z.shiftr p SCALE_OFFSET) (a + c + 1) /\
    Z.shiftr p SCALE_OFFSET <= w.
Proof.
  intros Hb Hv Hw Hlt. exists (v * w). pose proof (proj1 Hv). pose proof (proj1 Hw).
  split_and!.
  - apply checked_mul_in. unfold is_uint, ONE_Q64 in *.
    change (2 ^ 128) with (2 ^ 64 * 2 ^ 64). nia.
  - rewrite Z.shiftr_div_pow2 by done. by apply approx_mul.
  - rewrite Z.shiftr_div_pow2 by done. apply Z.div_le_upper_bound; [done|].
    change (2 ^ SCALE_OFFSET) with ONE_Q64. nia.
Qed.

(** Enough fuel: after bit [k], [18 - k] more turns end the loop, and the
    accumulated result is the power, truncated at each product. *)
Lemma pow_loop_approx (base e : Z) (turns : nat) (k s r : Z) :
  0 <= base < ONE_Q64 -> 0 <= k -> k + Z.of_nat turns = 18 ->
  approx base (2 ^ k) s (2 ^ k - 1) -> s < ONE_Q64 -> approx base (e mod 2 ^ k) r (e mod 2 ^ k) ->
  exists r', pow_loop (S turns) e (2 ^ k) s r = Some (Some r') /\
    approx base (e mod 2 ^ 19) r' (e mod 2 ^ 19).
Proof.
  intros Hb. revert k s r. induction turns as [|turns IH]; intros k s r Hk Hsum Hs Hlt Hr;
    cbn [pow_loop]; rewrite land_pow2_testbit by done;
    assert (0 < 2 ^ k) by (apply Z.pow_pos_nonneg; lia).
  all: assert (exists r1, (if Z.testbit e k then let! product := checked_mul 128 r s in
            Some (Z.shiftr product SCALE_OFFSET) else Some r) = Some r1 /\
          approx base (e mod 2 ^ (k + 1)) r1 (e mod 2 ^ (k + 1))) as (r1 & -> & Hr1).
  1, 3: rewrite mod_pow2_succ by done; destruct (Z.testbit e k);
    [ destruct (approx_step base _ _ _ _ _ _ ltac:(lia) Hr Hs Hlt) as (q & -> & Hq & _);
      eexists; split; [done|];
      replace (e mod 2 ^ k + (2 ^ k - 1) + 1) with (e mod 2 ^ k + 2 ^ k) in Hq by ring; done
    | rewrite Z.add_0_r; eauto ].
  all: rewrite Z.shiftl_mul_pow2 by done; change (2 ^ 1) with 2.
  - assert (k = 18) as -> by lia. simpl. eexists. split; [done|]. done.
  - assert (2 ^ k <= 2 ^ 17) by (apply Z.pow_le_mono_r; lia).
    change (2 ^ 17) with 131072 in *.
    rewrite wrapping_in by (unfold is_uint; rewrite pow2_32; lia).
    unfold MAX_EXPONENTIAL. destruct (Z.leb_spec 524288 (2 ^ k * 2)); [lia|].
    destruct (approx_step base _ _ _ _ _ _ ltac:(lia) Hs Hs Hlt) as (q & -> & Hq & Hle).
    replace (2 ^ k * 2) with (2 ^ (k + 1)) by (rewrite Z.pow_add_r by lia; lia).
    apply IH; [lia|lia| |lia|done].
    replace (2 ^ (k + 1)) with (2 ^ k + 2 ^ k) by (rewrite Z.pow_add_r by lia; lia).
    replace (2 ^ k + 2 ^ k - 1) with (2 ^ k - 1 + (2 ^ k - 1) + 1) by lia. done.
Qed.

(** For a fraction [base < 1] and an exponent below the ceiling, [pow] fails
    only by underflow to zero; otherwise it is the true power, truncated, and
    at most [exp] units of [2^-64] below it. The inversion branch and every
    overflow test are dead. *)
Lemma pow_spec (base e : Z) :
  0 <= base < ONE_Q64 -> 0 <= e < MAX_EXPONENTIAL ->
  exists r, approx base e r e /\ pow base e = if r =? 0 then None else Some r.
Proof.
  intros Hb He. unfold pow, MAX_EXPONENTIAL in *.
  destruct (Z.eqb_spec e (- 2 ^ 31)); [lia|].
  destruct (Z.eqb_spec e 0) as [->|Hne].
  { exists ONE_Q64. split; [apply approx_one; lia|done]. }
  rewrite Z.abs_eq by lia.
  destruct (Z.leb_spec 524288 e); [lia|].
  destruct (Z.ltb_spec e 0); [lia|].
  destruct (Z.leb_spec ONE_Q64 base); [lia|]. cbn [opt_bind].
  destruct (pow_loop_approx base e 18 0 base ONE_Q64) as (r & Hr & Hap);
    [done|done|done| |lia| |].
  - split_and!; rewrite ?Z.pow_1_r; change (2 ^ 0) with 1; rewrite ?Z.pow_1_r;
      unfold ONE_Q64 in *; lia.
  - change (2 ^ 0) with 1. rewrite Z.mod_1_r. apply approx_one. lia.
  - exists r. rewrite Z.mod_small in Hap by (change (2 ^ 19) with 524288; lia).
    split; [done|]. unfold POW_FUEL. change (2 ^ 0) with 1 in Hr. rewrite Hr. done.
Qed.

(** ** The exponential scheduler *)

(** [1 - reduction / 10_000] in Q64.64, rounded up. *)
Definition decay_base (reduction : Z) : Z := ONE_Q64 - reduction * ONE_Q64 / 10000.

Lemma decay_base_bounds reduction :
  0 < reduction <= 10000 ->
  0 <= decay_base reduction < ONE_Q64 /\
  (10000 - reduction) * ONE_Q64 <= decay_base reduction * 10000 <
    (10000 - reduction) * ONE_Q64 + 10000.
Proof.
  intros H. unfold decay_base.
  pose proof (Z.div_mod (reduction * ONE_Q64) 10000 ltac:(lia)).
  pose proof (Z.mod_pos_bound (reduction * ONE_Q64) 10000 ltac:(lia)).
  assert (1 <= reduction * ONE_Q64 / 10000) by
    (apply Z.div_le_lower_bound; unfold ONE_Q64; lia).
  assert (reduction * ONE_Q64 / 10000 <= ONE_Q64) by
    (apply Z.div_le_upper_bound; unfold ONE_Q64; lia).
  lia.
Qed.

Lemma fee_in_period_pow cliff reduction n :
  is_uint 64 cliff -> 0 < reduction <= 10000 ->
  fee_in_period cliff reduction n =
    let! r := pow (decay_base reduction) n in
    let! product := checked_mul 128 r cliff in
    try_uint 64 (Z.shiftr product SCALE_OFFSET).
Proof.
  intros Hc Hr. unfold fee_in_period, SCALE_OFFSET, MAX_BASIS_POINT.
  destruct (Z.eqb_spec reduction 0); [lia|].
  rewrite checked_shl_wraps by lia. cbn [opt_bind].
  rewrite wrapping_in by (unfold is_uint; change (2 ^ 128) with (2 ^ 64 * 2 ^ 64); nia).
  rewrite checked_div_pos by lia. cbn [opt_bind]. change (2 ^ 64) with ONE_Q64.
  pose proof (decay_base_bounds reduction Hr) as [Hb _]. unfold decay_base in *.
  rewrite checked_sub_in by (unfold is_uint, ONE_Q64 in *; uint_lia). done.
Qed.

(** With an exponential scheduler (a cliff of at most the fee
    denominator, a reduction of at most 100%), the base fee in force is
    [cliff * (1 - reduction)^periods] computed by repeated squaring in Q64.64
    and is less than two units below that exact power; it is [None] only when
    the Q64.64 power underflows to zero, i.e. the exact decay factor is at
    most [periods / 2^64]. *)
Theorem exponential_schedule (p : FeeSchedulerParams) (now : Z) :
  FeeSchedulerParams_wf p -> kind p = SchedulerExponential -> 0 < period_frequency p ->
  cliff_fee_numerator p <= FEE_DENOMINATOR -> 0 < reduction_factor p <= 10000 ->
  is_uint 64 now ->
  let n := periods_charged p now in
  let b := decay_base (reduction_factor p) in
  match base_fee_numerator_at p now with
  | Some fee =>
      fee * ONE_Q64 ^ n <= cliff_fee_numerator p * b ^ n < (fee + 2) * ONE_Q64 ^ n
  | None => b ^ n * ONE_Q64 <= n * ONE_Q64 ^ n
  end.
Proof.
  intros Hp Hk Hf Hc Hr Hn n b.
  pose proof (elapsed_periods_bounds p Hp now ltac:(unfold is_uint in *; lia)) as He.
  rewrite (elapsed_periods_charged p now Hp Hn Hf) in He. fold n in He.
  pose proof (cliff_u64 _ Hp) as Hcliff. pose proof (periods_u16 _ Hp) as Hper.
  unfold base_fee_numerator_at, ZERO_FREQUENCY_STAYS_AT_CLIFF. rewrite Hk.
  destruct (Z.eqb_spec (period_frequency p) 0); [lia|].
  rewrite (elapsed_periods_charged p now Hp Hn Hf). fold n.
  rewrite fee_in_period_pow by done. fold b.
  pose proof (decay_base_bounds _ Hr) as [Hb _]. fold b in Hb.
  destruct (pow_spec b n Hb) as (r & (Hr1 & _ & _ & Hlo & Hhi) & ->);
    [unfold MAX_EXPONENTIAL, is_uint in *; lia|].
  destruct (Z.eqb_spec r 0) as [->|Hr0]; [cbn [opt_bind]; lia|].
  cbn [opt_bind]. set (cliff := cliff_fee_numerator p) in *. unfold FEE_DENOMINATOR, is_uint in *.
  assert (0 <= r * cliff < 2 ^ 128) by (unfold ONE_Q64 in *; uint_nia).
  rewrite checked_mul_in by done. cbn [opt_bind].
  rewrite Z.shiftr_div_pow2 by done. change (2 ^ SCALE_OFFSET) with ONE_Q64.
  pose proof (Z.div_mod (r * cliff) ONE_Q64 ltac:(done)) as Hdm.
  pose proof (Z.mod_pos_bound (r * cliff) ONE_Q64 ltac:(done)) as Hmod.
  assert (0 <= r * cliff / ONE_Q64) by (apply Z.div_pos; lia || done).
  assert (r * cliff / ONE_Q64 <= cliff) by (apply Z.div_le_upper_bound; nia || done).
  rewrite try_uint_in by (unfold is_uint; uint_lia).
  set (fee := r * cliff / ONE_Q64) in *.
  assert (0 < ONE_Q64 ^ n) by (apply Z.pow_pos_nonneg; [done|lia]).
  assert (cliff * n < ONE_Q64) by (unfold ONE_Q64; uint_nia).
  assert (0 < ONE_Q64) by done.
  set (N := ONE_Q64 ^ n) in *. set (B := b ^ n) in *. set (O := ONE_Q64) in *.
  split.
  - apply Z.mul_le_mono_pos_r with O; [done|].
    assert (cliff * (r * N) <= cliff * (B * O)) by (apply Z.mul_le_mono_nonneg_l; lia). nia.
  - apply Z.mul_lt_mono_pos_r with O; [done|].
    assert (cliff * (B * O) <= cliff * ((r + n) * N)) by (apply Z.mul_le_mono_nonneg_l; lia).
    assert ((cliff * r + cliff * n) * N < ((fee + 2) * O) * N)
      by (apply Z.mul_lt_mono_pos_r; nia). nia.
Qed.

Definition exponential_params : FeeSchedulerParams :=
  mkFeeSchedulerParams 500000000 100 60 200 1700000000 1 SchedulerExponential.

Lemma exponential_schedule_witness :
  match base_fee_numerator_at exponential_params 1700000600 with
  | Some fee =>
      fee * ONE_Q64 ^ 10 <= 500000000 * decay_base 200 ^ 10 < (fee + 2) * ONE_Q64 ^ 10
  | None => decay_base 200 ^ 10 * ONE_Q64 <= 10 * ONE_Q64 ^ 10
  end.
Proof. apply (exponential_schedule exponential_params 1700000600); by_eval. Defined.

(** ** DLMM bounds *)

Section DlmmFacts.
Context {D : Type} `{DecimalLaws D}.

Lemma dec_val_min a b : (dec_val (dec_min a b) == Qmin (dec_val a) (dec_val b))%Q.
Proof.
  unfold dec_min. rewrite dec_cmp_val. destruct (_ ?= _)%Q eqn:E.
  - apply Qeq_alt in E. rewrite Q.min_l; [done|]. rewrite E. apply Qle_refl.
  - apply Qlt_alt in E. rewrite Q.min_l; [done|]. by apply Qlt_le_weak.
  - apply Qgt_alt in E. rewrite Q.min_r; [done|]. by apply Qlt_le_weak.
Qed.

Lemma dec_geb_Z a b m n :
  (dec_val a == inject_Z m)%Q -> (dec_val b == inject_Z n)%Q -> dec_geb a b = (n <=? m).
Proof.
  intros Ha Hb. unfold dec_geb. rewrite dec_cmp_val, Ha, Hb. unfold Qcompare. simpl.
  rewrite !Z.mul_1_r. destruct (Z.compare_spec m n); destruct (Z.leb_spec n m); lia || done.
Qed.

Lemma dec_mul_Z a b m n :
  (dec_val a == inject_Z m)%Q -> (dec_val b == inject_Z n)%Q -> Z.abs (m * n) < 2 ^ 96 ->
  exists c, dec_mul a b = Done c /\ (dec_val c == inject_Z (m * n))%Q.
Proof.
  intros Ha Hb Hmn. destruct (dec_mul_exact a b) as (c & Hc & Hv).
  { apply (representable_Qeq (inject_Z (m * n))); [|by apply representable_Z].
    by rewrite inject_Z_mult, Ha, Hb. }
  exists c. split; [done|]. by rewrite Hv, Ha, Hb, inject_Z_mult.
Qed.

(** Division by a power of ten never rounds a value of the fee range. *)
Lemma dec_div_pow10 a m s :
  (dec_val a == inject_Z m)%Q -> Z.abs m < 2 ^ 96 -> 0 <= s <= 28 -> 10 ^ s < 2 ^ 96 ->
  exists c, dec_div a (dec_of_Z (10 ^ s)) = Done c /\
    (dec_val c == inject_Z m / inject_Z (10 ^ s))%Q.
Proof.
  intros Ha Hm Hs Hten. assert (0 < 10 ^ s) by (apply Z.pow_pos_nonneg; lia).
  assert (dec_val (dec_of_Z (10 ^ s)) == inject_Z (10 ^ s))%Q as Hv
    by (apply dec_of_Z_exact; lia).
  destruct (dec_div_exact a (dec_of_Z (10 ^ s))) as (c & Hc & Hcv).
  { rewrite Hv. intros E. change 0%Q with (inject_Z 0) in E.
    apply (proj1 (inject_Z_injective _ _)) in E. lia. }
  { apply (representable_Qeq (inject_Z m / inject_Z (10 ^ s))); [by rewrite Ha, Hv|].
    by apply representable_scaled. }
  exists c. split; [done|]. by rewrite Hcv, Ha, Hv.
Qed.

Lemma base_fee_loop_spec (n : nat) (ceiling fee : D) (m : Z) :
  (dec_val ceiling == inject_Z 10000000)%Q -> (dec_val fee == inject_Z m)%Q ->
  0 <= m < 2 ^ 32 ->
  exists r, Dlmm.base_fee_loop n ceiling fee = Done r /\
    match r with
    | None => 10000000 <= m * 10 ^ Z.of_nat n
    | Some fee' => (dec_val fee' == inject_Z (m * 10 ^ Z.of_nat n))%Q /\
        m * 10 ^ Z.of_nat n < 2 ^ 32
    end.
Proof.
  intros Hc. revert fee m. induction n as [|n IH]; intros fee m Hf Hm; cbn [Dlmm.base_fee_loop].
  { eexists. split; [done|]. change (10 ^ Z.of_nat 0) with 1. rewrite Z.mul_1_r. split; [done|lia]. }
  rewrite (dec_geb_Z fee ceiling m 10000000) by done.
  rewrite Nat2Z.inj_succ, Z.pow_succ_r by lia.
  assert (0 < 10 ^ Z.of_nat n) by (apply Z.pow_pos_nonneg; lia).
  destruct (Z.leb_spec 10000000 m).
  { eexists. split; [done|]. apply Z.le_trans with (m * 10); [lia|]. apply Z.mul_le_mono_nonneg_l; lia. }
  destruct (dec_mul_Z fee (dec_of_Z 10) m 10) as (c & -> & Hcv);
    [done|by apply dec_of_Z_exact|lia|]. cbn [exec_bind].
  destruct (IH c (m * 10)) as (r & -> & Hr); [done|lia|].
  exists r. split; [done|].
  replace (m * (10 * 10 ^ Z.of_nat n)) with (m * 10 * 10 ^ Z.of_nat n) by lia. done.
Qed.

Lemma base_fee_bps_value (base_factor bin_step power : Z) :
  is_uint 16 base_factor -> is_uint 16 bin_step -> is_uint 8 power ->
  exists bps, Dlmm.base_fee_bps (D := D) base_factor bin_step power = Done bps /\
    (dec_val bps ==
      Qmin (inject_Z (base_factor * bin_step * 10 ^ power) / inject_Z 10000) (inject_Z 1000))%Q.
Proof.
  intros Hf Hb Hp. unfold Dlmm.base_fee_bps, Dlmm.MAX_FEE_BPS.
  assert (0 <= base_factor * bin_step < 2 ^ 32) as Hm by uint_nia.
  destruct (dec_mul_Z (dec_of_Z 1000) (dec_of_Z 10000) 1000 10000) as (ceil & -> & Hceil);
    [by apply dec_of_Z_exact..|done|]. cbn [exec_bind].
  destruct (base_fee_loop_spec (Z.to_nat power) ceil (dec_of_Z (base_factor * bin_step))
    (base_factor * bin_step)) as (r & -> & Hr); [done|apply dec_of_Z_exact; lia|done|].
  rewrite Z2Nat.id in Hr by uint_lia. cbn [exec_bind].
  destruct r as [fee|].
  - destruct Hr as [Hfee Hlt]. assert (0 <= 10 ^ power) by (apply Z.pow_nonneg; lia).
    destruct (dec_div_pow10 fee _ 4 Hfee) as (c & Hc & Hcv); [nia|lia|lia|].
    change (10 ^ 4) with 10000 in *. rewrite Hc. cbn [exec_bind].
    eexists. split; [done|]. rewrite dec_val_min, Hcv.
    by rewrite (dec_of_Z_exact 1000) by done.
  - eexists. split; [done|]. rewrite dec_of_Z_exact by done. rewrite Q.min_r; [done|].
    unfold Qdiv. apply Qle_shift_div_l; [done|]. rewrite <- inject_Z_mult, <- Zle_Qle. lia.
Qed.

(** The base fee of a DLMM pool is [base_factor * bin_step * 10^power /
    10_000] bps, exactly, and never above the chain's cap of 1000 bps, which it
    reaches exactly when the product reaches 10^7: no width of the three inputs
    makes the computation overflow or panic. *)
Theorem base_fee_bps_spec (base_factor bin_step power : Z) :
  is_uint 16 base_factor -> is_uint 16 bin_step -> is_uint 8 power ->
  exists bps, Dlmm.base_fee_bps (D := D) base_factor bin_step power = Done bps /\
    (base_factor * bin_step * 10 ^ power < 10 ^ 7 ->
      (dec_val bps == inject_Z (base_factor * bin_step * 10 ^ power) / inject_Z 10000)%Q) /\
    (10 ^ 7 <= base_factor * bin_step * 10 ^ power <-> (dec_val bps == inject_Z 1000)%Q) /\
    (0 <= dec_val bps <= inject_Z 1000)%Q.
Proof.
  intros Hf Hb Hp. destruct (base_fee_bps_value _ _ _ Hf Hb Hp) as (bps & Hbps & Hval).
  exists bps. split; [done|].
  assert (0 <= 10 ^ power) by (apply Z.pow_nonneg; lia).
  set (m := base_factor * bin_step * 10 ^ power) in *.
  assert (0 <= m) by (unfold m, is_uint in *; nia). rewrite Hval. clear Hval.
  assert (forall n, (inject_Z m / inject_Z 10000 <= inject_Z n)%Q <-> m <= n * 10000) as Hle.
  { intros n. rewrite Zle_Qle, inject_Z_mult. split; intros E.
    - apply (Qmult_le_r _ _ (inject_Z 10000)) in E; [|done].
      by rewrite Qmult_comm, Qmult_div_r in E.
    - apply Qle_shift_div_r; [done|]. done. }
  assert (0 <= inject_Z m / inject_Z 10000)%Q as Hnn
    by (apply Qle_shift_div_l; [done|]; rewrite Qmult_0_l; change 0%Q with (inject_Z 0); by rewrite <- Zle_Qle).
  destruct (Z.lt_ge_cases m (10 ^ 7)) as [Hlt|Hge].
  - rewrite Q.min_l by (apply Hle; lia). split_and!; [done| |done|apply Hle; lia].
    split; [lia|]. intros E. exfalso.
    assert (inject_Z 1000 <= inject_Z m / inject_Z 10000)%Q as E' by (rewrite E; apply Qle_refl).
    apply (Qmult_le_r _ _ (inject_Z 10000)) in E'; [|done].
    rewrite (Qmult_comm (_ / _)), Qmult_div_r, <- inject_Z_mult, <- Zle_Qle in E' by done. lia.
  - assert (inject_Z 1000 <= inject_Z m / inject_Z 10000)%Q as Hmin.
    { apply Qle_shift_div_l; [done|]. rewrite <- inject_Z_mult, <- Zle_Qle. lia. }
    rewrite Q.min_r by done. split_and!; [lia|done|done|apply Qle_refl].
Qed.

(** The variable part of a DLMM fee is at most the smaller of 1000 bps and
    [ceil(control * (accumulator * bin_step)^2 / 1e11) / 1e5] bps, exactly: the
    saturation test never changes a value below the cap, and neither the
    [expect] nor an overflow is reached. *)
Theorem max_variable_fee_bps_spec (control accumulator bin_step : Z) :
  is_uint 32 control -> is_uint 32 accumulator -> is_uint 16 bin_step ->
  exists bps, Dlmm.max_variable_fee_bps (D := D) control accumulator bin_step = Done bps /\
    (dec_val bps ==
      Qmin (inject_Z (div_ceil (control * (accumulator * bin_step) ^ 2) (10 ^ 11))
              / inject_Z (10 ^ 5)) (inject_Z 1000))%Q.
Proof.
  intros Hc Ha Hb. unfold Dlmm.max_variable_fee_bps, Dlmm.MAX_FEE_BPS,
    Dlmm.VARIABLE_FEE_SATURATION_NUMERATOR, Dlmm.VARIABLE_FEE_SCALE.
  assert (0 <= accumulator * bin_step < 2 ^ 48) as Hacc
    by (change (2 ^ 48) with (2 ^ 32 * 2 ^ 16); unfold is_uint in *; nia).
  set (acc := accumulator * bin_step) in *.
  assert (0 <= acc * acc < 2 ^ 96) as Hsq
    by (change (2 ^ 96) with (2 ^ 48 * 2 ^ 48); nia).
  assert (0 <= acc * acc * control < 2 ^ 128) as Hnum
    by (change (2 ^ 128) with (2 ^ 96 * 2 ^ 32); unfold is_uint in *; nia).
  rewrite !checked_mul_in by (unfold is_uint; fold acc; lia). fold acc.
  replace (control * acc ^ 2) with (acc * acc * control) by (rewrite Z.pow_2_r; lia).
  set (num := acc * acc * control) in *. change (10 ^ 11) with 100000000000.
  destruct (Z.ltb_spec (100000000 * 100000000000) num) as [Hbig|Hsmall].
  - eexists. split; [done|]. rewrite dec_of_Z_exact by done. rewrite Q.min_r; [done|].
    apply Qle_shift_div_l; [done|]. rewrite <- inject_Z_mult, <- Zle_Qle.
    unfold div_ceil. apply Z.div_le_lower_bound; lia.
  - assert (0 <= div_ceil num 100000000000 <= 100000000) as Hr.
    { unfold div_ceil. split; [apply Z.div_pos; lia|].
      apply Z.lt_succ_r, Z.div_lt_upper_bound; lia. }
    rewrite try_uint_in by uint_lia.
    destruct (dec_div_pow10 (dec_of_Z (div_ceil num 100000000000))
      (div_ceil num 100000000000) 5) as (c & Hd & Hcv); [apply dec_of_Z_exact; lia|lia|lia|lia|].
    exists c. split; [done|]. rewrite Hcv, Q.min_l; [done|].
    apply Qle_shift_div_r; [done|]. rewrite <- inject_Z_mult, <- Zle_Qle. lia.
Qed.
End DlmmFacts.

Lemma base_fee_bps_spec_witness :
  exists bps, Dlmm.base_fee_bps (D := Q) 10000 80 0 = Done bps /\
    (10000 * 80 * 10 ^ 0 < 10 ^ 7 ->
      (dec_val bps == inject_Z (10000 * 80 * 10 ^ 0) / inject_Z 10000)%Q) /\
    (10 ^ 7 <= 10000 * 80 * 10 ^ 0 <-> (dec_val bps == inject_Z 1000)%Q) /\
    (0 <= dec_val bps <= inject_Z 1000)%Q.
Proof. apply (base_fee_bps_spec (D := Q) 10000 80 0); by_eval. Defined.

Lemma max_variable_fee_bps_spec_witness :
  exists bps, Dlmm.max_variable_fee_bps (D := Q) 40000 350000 80 = Done bps /\
    (dec_val bps == Qmin (inject_Z (div_ceil (40000 * (350000 * 80) ^ 2) (10 ^ 11)) / inject_Z (10 ^ 5))
              (inject_Z 1000))%Q.
Proof. apply (max_variable_fee_bps_spec (D := Q) 40000 350000 80); by_eval. Defined.
