(* ===== verification/Domain.v ===== *)
(** * The domain model

    [src/crates/core/src/domain/]: protocols, positions in the chain, and the
    domain events of DAMM v2, a Module per event struct. *)

From S2P Require Import Prelude Errors External.

(** ** Protocols ([domain/protocol/model.rs]) *)

Inductive Protocol : Type :=
| MeteoraDammV2
| MeteoraDlmm.

#[global] Instance Protocol_eq_dec : EqDecision Protocol.
Proof. solve_decision. Defined.

(** [pubkey!] decodes its literal at compile time: the literal parses. *)
Definition pubkey `{Base58} (s : string) : Pubkey := default [] (pubkey_of_string s).

Definition METEORA_DAMM_V2_PROGRAM_ID `{Base58} : Pubkey :=
  pubkey "cpamdpZCGKUy5JxQXB4dcpGPiikHawvSWAd6mEn1sGG".
Definition METEORA_DLMM_PROGRAM_ID `{Base58} : Pubkey :=
  pubkey "LBUZKhRxPF3XUpBCjp4YzTKgLccjZhTSDM9YuVaPwxo".

Definition program_id `{Base58} (p : Protocol) : Pubkey :=
  match p with
  | MeteoraDammV2 => METEORA_DAMM_V2_PROGRAM_ID
  | MeteoraDlmm => METEORA_DLMM_PROGRAM_ID
  end.

Definition damm_v2 : Protocol := MeteoraDammV2.

(** [Protocol::all]. *)
Definition all_protocols : list Protocol := [MeteoraDammV2; MeteoraDlmm].

Definition from_program_id `{Base58} (k : Pubkey) : option Protocol :=
  List.find (fun p => bool_decide (program_id p = k)) all_protocols.

Definition Protocol_as_str (p : Protocol) : string :=
  match p with
  | MeteoraDammV2 => "meteora_damm_v2"
  | MeteoraDlmm => "meteora_dlmm"
  end.

Definition Protocol_from_str (s : string) : CoreResult Protocol :=
  if bool_decide (s = "meteora_damm_v2"%string) then Ok MeteoraDammV2
  else if bool_decide (s = "meteora_dlmm"%string) then Ok MeteoraDlmm
  else Err (UnknownProgram s).

(** ** Trade directions ([domain/trade_direction.rs]) *)

Inductive TradeDirection : Type :=
| AtoB
| BtoA.

#[global] Instance TradeDirection_eq_dec : EqDecision TradeDirection.
Proof. solve_decision. Defined.

Definition TradeDirection_as_str (d : TradeDirection) : string :=
  match d with
  | AtoB => "a_to_b"
  | BtoA => "b_to_a"
  end.

Definition TradeDirection_from_u8 (v : Z) : result TradeDirection Z :=
  if v =? 0 then Ok AtoB else if v =? 1 then Ok BtoA else Err v.

Definition TradeDirection_from_str (s : string) : result TradeDirection unit :=
  if bool_decide (s = "a_to_b"%string) then Ok AtoB
  else if bool_decide (s = "b_to_a"%string) then Ok BtoA
  else Err ().

(** ** Liquidity event kinds ([liquidity_event/model.rs]) *)

Inductive MeteoraDammV2LiquidityEventKind : Type :=
| Add
| Remove.

#[global] Instance MeteoraDammV2LiquidityEventKind_eq_dec :
  EqDecision MeteoraDammV2LiquidityEventKind.
Proof. solve_decision. Defined.

Definition LiquidityEventKind_as_str (k : MeteoraDammV2LiquidityEventKind) : string :=
  match k with
  | Add => "add"
  | Remove => "remove"
  end.

Definition LiquidityEventKind_from_u8 (v : Z) : result MeteoraDammV2LiquidityEventKind Z :=
  if v =? 0 then Ok Add else if v =? 1 then Ok Remove else Err v.

Definition LiquidityEventKind_from_str (s : string) :
    result MeteoraDammV2LiquidityEventKind unit :=
  if bool_decide (s = "add"%string) then Ok Add
  else if bool_decide (s = "remove"%string) then Ok Remove
  else Err ().

(** ** Positions in the chain ([domain/event_position.rs]) *)

Module EventPosition.
Record t : Type := mk {
  signature : Signature;
  timestamp : DateTime;
  slot : Z;
  transaction_index : option Z;
  event_index : Z;
}.
End EventPosition.

Module TransactionPosition.
Record t : Type := mk {
  signature : Signature;
  timestamp : DateTime;
  slot : Z;
  transaction_index : option Z;
}.

Definition at_index (p : t) (event_index : Z) : EventPosition.t := {|
  EventPosition.signature := signature p;
  EventPosition.timestamp := timestamp p;
  EventPosition.slot := slot p;
  EventPosition.transaction_index := transaction_index p;
  EventPosition.event_index := event_index;
|}.
End TransactionPosition.

(** ** What an idempotent insert did ([domain/insert_outcome.rs]) *)

Inductive InsertOutcome : Type :=
| Inserted
| Skipped.

Definition InsertOutcome_from_rows_affected (rows : Z) : InsertOutcome :=
  if rows =? 0 then Skipped else Inserted.

Definition is_skipped (o : InsertOutcome) : bool :=
  match o with Skipped => true | Inserted => false end.

(** ** Domain events of DAMM v2 ([domain/meteora/damm_v2/]) *)

Module MeteoraDammV2ClaimPositionFeeEvent.
Record t : Type := mk {
  pool_address : Pubkey;
  signature : Signature;
  timestamp : DateTime;
  slot : Z;
  transaction_index : option Z;
  event_index : Z;
  position : Pubkey;
  owner : Pubkey;
  fee_a_claimed : Z;
  fee_b_claimed : Z;
}.
End MeteoraDammV2ClaimPositionFeeEvent.

Module MeteoraDammV2ClaimProtocolFeeEvent.
Record t : Type := mk {
  pool_address : Pubkey;
  signature : Signature;
  timestamp : DateTime;
  slot : Z;
  transaction_index : option Z;
  event_index : Z;
  token_a_amount : Z;
  token_b_amount : Z;
}.
End MeteoraDammV2ClaimProtocolFeeEvent.

Module MeteoraDammV2ClaimRewardEvent.
Record t : Type := mk {
  pool_address : Pubkey;
  signature : Signature;
  timestamp : DateTime;
  slot : Z;
  transaction_index : option Z;
  event_index : Z;
  position : Pubkey;
  owner : Pubkey;
  mint_reward : Pubkey;
  reward_index : Z;
  total_reward : Z;
}.
End MeteoraDammV2ClaimRewardEvent.

Module MeteoraDammV2ClosePositionEvent.
Record t : Type := mk {
  pool_address : Pubkey;
  signature : Signature;
  timestamp : DateTime;
  slot : Z;
  transaction_index : option Z;
  event_index : Z;
  owner : Pubkey;
  position : Pubkey;
  position_nft_mint : Pubkey;
}.
End MeteoraDammV2ClosePositionEvent.

Module MeteoraDammV2CreatePositionEvent.
Record t : Type := mk {
  pool_address : Pubkey;
  signature : Signature;
  timestamp : DateTime;
  slot : Z;
  transaction_index : option Z;
  event_index : Z;
  owner : Pubkey;
  position : Pubkey;
  position_nft_mint : Pubkey;
}.
End MeteoraDammV2CreatePositionEvent.

Module MeteoraDammV2FundRewardEvent.
Record t : Type := mk {
  pool_address : Pubkey;
  signature : Signature;
  timestamp : DateTime;
  slot : Z;
  transaction_index : option Z;
  event_index : Z;
  funder : Pubkey;
  mint_reward : Pubkey;
  reward_index : Z;
  amount : Z;
  transfer_fee_excluded_amount_in : Z;
  reward_duration_end : Z;
  pre_reward_rate : Z;
  post_reward_rate : Z;
}.
End MeteoraDammV2FundRewardEvent.

Module MeteoraDammV2InitializePoolEvent.
Record t : Type := mk {
  pool_address : Pubkey;
  signature : Signature;
  timestamp : DateTime;
  slot : Z;
  transaction_index : option Z;
  event_index : Z;
  token_a_mint : Pubkey;
  token_b_mint : Pubkey;
  creator : Pubkey;
  payer : Pubkey;
  alpha_vault : Pubkey;
  sqrt_min_price : Z;
  sqrt_max_price : Z;
  sqrt_price : Z;
  liquidity : Z;
  activation_type : Z;
  activation_point : Z;
  collect_fee_mode : Z;
  pool_type : Z;
  token_a_flag : Z;
  token_b_flag : Z;
  token_a_amount : Z;
  token_b_amount : Z;
  total_amount_a : Z;
  total_amount_b : Z;
  pool_fees_raw : list Z;
}.
End MeteoraDammV2InitializePoolEvent.

Module MeteoraDammV2InitializeRewardEvent.
Record t : Type := mk {
  pool_address : Pubkey;
  signature : Signature;
  timestamp : DateTime;
  slot : Z;
  transaction_index : option Z;
  event_index : Z;
  reward_mint : Pubkey;
  funder : Pubkey;
  creator : Pubkey;
  reward_index : Z;
  reward_duration : Z;
}.
End MeteoraDammV2InitializeRewardEvent.

Module MeteoraDammV2LiquidityEvent.
Record t : Type := mk {
  pool_address : Pubkey;
  signature : Signature;
  timestamp : DateTime;
  slot : Z;
  transaction_index : option Z;
  event_index : Z;
  liquidity_event_kind : MeteoraDammV2LiquidityEventKind;
  amount_a : Z;
  amount_b : Z;
  liquidity_delta : Z;
  reserve_a_after : Z;
  reserve_b_after : Z;
  position : Pubkey;
  owner : Pubkey;
}.
End MeteoraDammV2LiquidityEvent.

Module MeteoraDammV2LockPositionEvent.
Record t : Type := mk {
  pool_address : Pubkey;
  signature : Signature;
  timestamp : DateTime;
  slot : Z;
  transaction_index : option Z;
  event_index : Z;
  position : Pubkey;
  owner : Pubkey;
  vesting : Pubkey;
  cliff_point : Z;
  period_frequency : Z;
  cliff_unlock_liquidity : Z;
  liquidity_per_period : Z;
  number_of_period : Z;
}.
End MeteoraDammV2LockPositionEvent.

Module MeteoraDammV2PermanentLockPositionEvent.
Record t : Type := mk {
  pool_address : Pubkey;
  signature : Signature;
  timestamp : DateTime;
  slot : Z;
  transaction_index : option Z;
  event_index : Z;
  position : Pubkey;
  lock_liquidity_amount : Z;
  total_permanent_locked_liquidity : Z;
}.
End MeteoraDammV2PermanentLockPositionEvent.

Module MeteoraDammV2SetPoolStatusEvent.
Record t : Type := mk {
  pool_address : Pubkey;
  signature : Signature;
  timestamp : DateTime;
  slot : Z;
  transaction_index : option Z;
  event_index : Z;
  status : Z;
}.
End MeteoraDammV2SetPoolStatusEvent.

Module MeteoraDammV2SplitAmounts.
Record t : Type := mk {
  permanent_locked_liquidity : Z;
  unlocked_liquidity : Z;
  vested_liquidity : Z;
  fee_a : Z;
  fee_b : Z;
  reward_0 : Z;
  reward_1 : Z;
}.
End MeteoraDammV2SplitAmounts.

Module MeteoraDammV2SplitPositionState.
Record t : Type := mk {
  unlocked_liquidity : Z;
  permanent_locked_liquidity : Z;
  vested_liquidity : Z;
  fee_a : Z;
  fee_b : Z;
  reward_0 : Z;
  reward_1 : Z;
}.
End MeteoraDammV2SplitPositionState.

Module MeteoraDammV2SplitNumerators.
Record t : Type := mk {
  unlocked_liquidity : Z;
  permanent_locked_liquidity : Z;
  fee_a : Z;
  fee_b : Z;
  reward_0 : Z;
  reward_1 : Z;
  inner_vesting_liquidity : Z;
}.
End MeteoraDammV2SplitNumerators.

Module MeteoraDammV2SplitPositionEvent.
Record t : Type := mk {
  pool_address : Pubkey;
  signature : Signature;
  timestamp : DateTime;
  slot : Z;
  transaction_index : option Z;
  event_index : Z;
  first_owner : Pubkey;
  second_owner : Pubkey;
  first_position : Pubkey;
  second_position : Pubkey;
  current_sqrt_price : Z;
  amounts : MeteoraDammV2SplitAmounts.t;
  first_position_after : MeteoraDammV2SplitPositionState.t;
  second_position_after : MeteoraDammV2SplitPositionState.t;
  numerators : MeteoraDammV2SplitNumerators.t;
}.
End MeteoraDammV2SplitPositionEvent.

Module MeteoraDammV2SwapEvent.
Record t : Type := mk {
  pool_address : Pubkey;
  signature : Signature;
  timestamp : DateTime;
  slot : Z;
  transaction_index : option Z;
  event_index : Z;
  trade_direction : TradeDirection;
  amount_a : Z;
  amount_b : Z;
  reserve_a_after : Z;
  reserve_b_after : Z;
  next_sqrt_price : Z;
  claiming_fee : Z;
  protocol_fee : Z;
  compounding_fee : Z;
  referral_fee : Z;
  fee_token_is_a : bool;
}.

Definition fee_total (e : t) : Z :=
  saturating_add 64 (saturating_add 64 (saturating_add 64 (claiming_fee e) (protocol_fee e))
    (compounding_fee e)) (referral_fee e).
End MeteoraDammV2SwapEvent.

Module MeteoraDammV2UpdatePoolFeesEvent.
Record t : Type := mk {
  pool_address : Pubkey;
  signature : Signature;
  timestamp : DateTime;
  slot : Z;
  transaction_index : option Z;
  event_index : Z;
  operator : Pubkey;
  params_raw : list Z;
}.
End MeteoraDammV2UpdatePoolFeesEvent.

Module MeteoraDammV2UpdateRewardDurationEvent.
Record t : Type := mk {
  pool_address : Pubkey;
  signature : Signature;
  timestamp : DateTime;
  slot : Z;
  transaction_index : option Z;
  event_index : Z;
  reward_index : Z;
  old_reward_duration : Z;
  new_reward_duration : Z;
}.
End MeteoraDammV2UpdateRewardDurationEvent.

Module MeteoraDammV2UpdateRewardFunderEvent.
Record t : Type := mk {
  pool_address : Pubkey;
  signature : Signature;
  timestamp : DateTime;
  slot : Z;
  transaction_index : option Z;
  event_index : Z;
  reward_index : Z;
  old_funder : Pubkey;
  new_funder : Pubkey;
}.
End MeteoraDammV2UpdateRewardFunderEvent.

Module MeteoraDammV2WithdrawDeadLiquidityRewardEvent.
Record t : Type := mk {
  pool_address : Pubkey;
  signature : Signature;
  timestamp : DateTime;
  slot : Z;
  transaction_index : option Z;
  event_index : Z;
  reward_mint : Pubkey;
  amount : Z;
}.
End MeteoraDammV2WithdrawDeadLiquidityRewardEvent.

Module MeteoraDammV2WithdrawIneligibleRewardEvent.
Record t : Type := mk {
  pool_address : Pubkey;
  signature : Signature;
  timestamp : DateTime;
  slot : Z;
  transaction_index : option Z;
  event_index : Z;
  reward_mint : Pubkey;
  amount : Z;
}.
End MeteoraDammV2WithdrawIneligibleRewardEvent.

Module MeteoraDammV2Event.
Inductive t : Type :=
| Swap (e : MeteoraDammV2SwapEvent.t)
| Liquidity (e : MeteoraDammV2LiquidityEvent.t)
| ClaimPositionFee (e : MeteoraDammV2ClaimPositionFeeEvent.t)
| ClaimReward (e : MeteoraDammV2ClaimRewardEvent.t)
| ClaimProtocolFee (e : MeteoraDammV2ClaimProtocolFeeEvent.t)
| InitializeReward (e : MeteoraDammV2InitializeRewardEvent.t)
| FundReward (e : MeteoraDammV2FundRewardEvent.t)
| WithdrawIneligibleReward (e : MeteoraDammV2WithdrawIneligibleRewardEvent.t)
| UpdateRewardDuration (e : MeteoraDammV2UpdateRewardDurationEvent.t)
| UpdateRewardFunder (e : MeteoraDammV2UpdateRewardFunderEvent.t)
| WithdrawDeadLiquidityReward (e : MeteoraDammV2WithdrawDeadLiquidityRewardEvent.t)
| SplitPosition (e : MeteoraDammV2SplitPositionEvent.t)
| CreatePosition (e : MeteoraDammV2CreatePositionEvent.t)
| ClosePosition (e : MeteoraDammV2ClosePositionEvent.t)
| LockPosition (e : MeteoraDammV2LockPositionEvent.t)
| PermanentLockPosition (e : MeteoraDammV2PermanentLockPositionEvent.t)
| InitializePool (e : MeteoraDammV2InitializePoolEvent.t)
| SetPoolStatus (e : MeteoraDammV2SetPoolStatusEvent.t)
| UpdatePoolFees (e : MeteoraDammV2UpdatePoolFeesEvent.t).

Definition pool_address (w : t) : Pubkey :=
  match w with
  | Swap e => MeteoraDammV2SwapEvent.pool_address e
  | Liquidity e => MeteoraDammV2LiquidityEvent.pool_address e
  | ClaimPositionFee e => MeteoraDammV2ClaimPositionFeeEvent.pool_address e
  | ClaimReward e => MeteoraDammV2ClaimRewardEvent.pool_address e
  | ClaimProtocolFee e => MeteoraDammV2ClaimProtocolFeeEvent.pool_address e
  | InitializeReward e => MeteoraDammV2InitializeRewardEvent.pool_address e
  | FundReward e => MeteoraDammV2FundRewardEvent.pool_address e
  | WithdrawIneligibleReward e => MeteoraDammV2WithdrawIneligibleRewardEvent.pool_address e
  | UpdateRewardDuration e => MeteoraDammV2UpdateRewardDurationEvent.pool_address e
  | UpdateRewardFunder e => MeteoraDammV2UpdateRewardFunderEvent.pool_address e
  | WithdrawDeadLiquidityReward e => MeteoraDammV2WithdrawDeadLiquidityRewardEvent.pool_address e
  | SplitPosition e => MeteoraDammV2SplitPositionEvent.pool_address e
  | CreatePosition e => MeteoraDammV2CreatePositionEvent.pool_address e
  | ClosePosition e => MeteoraDammV2ClosePositionEvent.pool_address e
  | LockPosition e => MeteoraDammV2LockPositionEvent.pool_address e
  | PermanentLockPosition e => MeteoraDammV2PermanentLockPositionEvent.pool_address e
  | InitializePool e => MeteoraDammV2InitializePoolEvent.pool_address e
  | SetPoolStatus e => MeteoraDammV2SetPoolStatusEvent.pool_address e
  | UpdatePoolFees e => MeteoraDammV2UpdatePoolFeesEvent.pool_address e
  end.

Definition signature (w : t) : Signature :=
  match w with
  | Swap e => MeteoraDammV2SwapEvent.signature e
  | Liquidity e => MeteoraDammV2LiquidityEvent.signature e
  | ClaimPositionFee e => MeteoraDammV2ClaimPositionFeeEvent.signature e
  | ClaimReward e => MeteoraDammV2ClaimRewardEvent.signature e
  | ClaimProtocolFee e => MeteoraDammV2ClaimProtocolFeeEvent.signature e
  | InitializeReward e => MeteoraDammV2InitializeRewardEvent.signature e
  | FundReward e => MeteoraDammV2FundRewardEvent.signature e
  | WithdrawIneligibleReward e => MeteoraDammV2WithdrawIneligibleRewardEvent.signature e
  | UpdateRewardDuration e => MeteoraDammV2UpdateRewardDurationEvent.signature e
  | UpdateRewardFunder e => MeteoraDammV2UpdateRewardFunderEvent.signature e
  | WithdrawDeadLiquidityReward e => MeteoraDammV2WithdrawDeadLiquidityRewardEvent.signature e
  | SplitPosition e => MeteoraDammV2SplitPositionEvent.signature e
  | CreatePosition e => MeteoraDammV2CreatePositionEvent.signature e
  | ClosePosition e => MeteoraDammV2ClosePositionEvent.signature e
  | LockPosition e => MeteoraDammV2LockPositionEvent.signature e
  | PermanentLockPosition e => MeteoraDammV2PermanentLockPositionEvent.signature e
  | InitializePool e => MeteoraDammV2InitializePoolEvent.signature e
  | SetPoolStatus e => MeteoraDammV2SetPoolStatusEvent.signature e
  | UpdatePoolFees e => MeteoraDammV2UpdatePoolFeesEvent.signature e
  end.

Definition timestamp (w : t) : DateTime :=
  match w with
  | Swap e => MeteoraDammV2SwapEvent.timestamp e
  | Liquidity e => MeteoraDammV2LiquidityEvent.timestamp e
  | ClaimPositionFee e => MeteoraDammV2ClaimPositionFeeEvent.timestamp e
  | ClaimReward e => MeteoraDammV2ClaimRewardEvent.timestamp e
  | ClaimProtocolFee e => MeteoraDammV2ClaimProtocolFeeEvent.timestamp e
  | InitializeReward e => MeteoraDammV2InitializeRewardEvent.timestamp e
  | FundReward e => MeteoraDammV2FundRewardEvent.timestamp e
  | WithdrawIneligibleReward e => MeteoraDammV2WithdrawIneligibleRewardEvent.timestamp e
  | UpdateRewardDuration e => MeteoraDammV2UpdateRewardDurationEvent.timestamp e
  | UpdateRewardFunder e => MeteoraDammV2UpdateRewardFunderEvent.timestamp e
  | WithdrawDeadLiquidityReward e => MeteoraDammV2WithdrawDeadLiquidityRewardEvent.timestamp e
  | SplitPosition e => MeteoraDammV2SplitPositionEvent.timestamp e
  | CreatePosition e => MeteoraDammV2CreatePositionEvent.timestamp e
  | ClosePosition e => MeteoraDammV2ClosePositionEvent.timestamp e
  | LockPosition e => MeteoraDammV2LockPositionEvent.timestamp e
  | PermanentLockPosition e => MeteoraDammV2PermanentLockPositionEvent.timestamp e
  | InitializePool e => MeteoraDammV2InitializePoolEvent.timestamp e
  | SetPoolStatus e => MeteoraDammV2SetPoolStatusEvent.timestamp e
  | UpdatePoolFees e => MeteoraDammV2UpdatePoolFeesEvent.timestamp e
  end.

Definition kind (w : t) : string :=
  match w with
  | Swap _ => "swap"
  | Liquidity _ => "liquidity"
  | ClaimPositionFee _ => "claim_position_fee"
  | ClaimReward _ => "claim_reward"
  | ClaimProtocolFee _ => "claim_protocol_fee"
  | InitializeReward _ => "initialize_reward"
  | FundReward _ => "fund_reward"
  | WithdrawIneligibleReward _ => "withdraw_ineligible_reward"
  | UpdateRewardDuration _ => "update_reward_duration"
  | UpdateRewardFunder _ => "update_reward_funder"
  | WithdrawDeadLiquidityReward _ => "withdraw_dead_liquidity_reward"
  | SplitPosition _ => "split_position"
  | CreatePosition _ => "create_position"
  | ClosePosition _ => "close_position"
  | LockPosition _ => "lock_position"
  | PermanentLockPosition _ => "permanent_lock_position"
  | InitializePool _ => "initialize_pool"
  | SetPoolStatus _ => "set_pool_status"
  | UpdatePoolFees _ => "update_pool_fees"
  end.

(** The chain position every event carries, whatever its kind. *)
Definition position_of (w : t) : EventPosition.t :=
  match w with
  | Swap e => EventPosition.mk (MeteoraDammV2SwapEvent.signature e) (MeteoraDammV2SwapEvent.timestamp e) (MeteoraDammV2SwapEvent.slot e)
      (MeteoraDammV2SwapEvent.transaction_index e) (MeteoraDammV2SwapEvent.event_index e)
  | Liquidity e => EventPosition.mk (MeteoraDammV2LiquidityEvent.signature e) (MeteoraDammV2LiquidityEvent.timestamp e) (MeteoraDammV2LiquidityEvent.slot e)
      (MeteoraDammV2LiquidityEvent.transaction_index e) (MeteoraDammV2LiquidityEvent.event_index e)
  | ClaimPositionFee e => EventPosition.mk (MeteoraDammV2ClaimPositionFeeEvent.signature e) (MeteoraDammV2ClaimPositionFeeEvent.timestamp e) (MeteoraDammV2ClaimPositionFeeEvent.slot e)
      (MeteoraDammV2ClaimPositionFeeEvent.transaction_index e) (MeteoraDammV2ClaimPositionFeeEvent.event_index e)
  | ClaimReward e => EventPosition.mk (MeteoraDammV2ClaimRewardEvent.signature e) (MeteoraDammV2ClaimRewardEvent.timestamp e) (MeteoraDammV2ClaimRewardEvent.slot e)
      (MeteoraDammV2ClaimRewardEvent.transaction_index e) (MeteoraDammV2ClaimRewardEvent.event_index e)
  | ClaimProtocolFee e => EventPosition.mk (MeteoraDammV2ClaimProtocolFeeEvent.signature e) (MeteoraDammV2ClaimProtocolFeeEvent.timestamp e) (MeteoraDammV2ClaimProtocolFeeEvent.slot e)
      (MeteoraDammV2ClaimProtocolFeeEvent.transaction_index e) (MeteoraDammV2ClaimProtocolFeeEvent.event_index e)
  | InitializeReward e => EventPosition.mk (MeteoraDammV2InitializeRewardEvent.signature e) (MeteoraDammV2InitializeRewardEvent.timestamp e) (MeteoraDammV2InitializeRewardEvent.slot e)
      (MeteoraDammV2InitializeRewardEvent.transaction_index e) (MeteoraDammV2InitializeRewardEvent.event_index e)
  | FundReward e => EventPosition.mk (MeteoraDammV2FundRewardEvent.signature e) (MeteoraDammV2FundRewardEvent.timestamp e) (MeteoraDammV2FundRewardEvent.slot e)
      (MeteoraDammV2FundRewardEvent.transaction_index e) (MeteoraDammV2FundRewardEvent.event_index e)
  | WithdrawIneligibleReward e => EventPosition.mk (MeteoraDammV2WithdrawIneligibleRewardEvent.signature e) (MeteoraDammV2WithdrawIneligibleRewardEvent.timestamp e) (MeteoraDammV2WithdrawIneligibleRewardEvent.slot e)
      (MeteoraDammV2WithdrawIneligibleRewardEvent.transaction_index e) (MeteoraDammV2WithdrawIneligibleRewardEvent.event_index e)
  | UpdateRewardDuration e => EventPosition.mk (MeteoraDammV2UpdateRewardDurationEvent.signature e) (MeteoraDammV2UpdateRewardDurationEvent.timestamp e) (MeteoraDammV2UpdateRewardDurationEvent.slot e)
      (MeteoraDammV2UpdateRewardDurationEvent.transaction_index e) (MeteoraDammV2UpdateRewardDurationEvent.event_index e)
  | UpdateRewardFunder e => EventPosition.mk (MeteoraDammV2UpdateRewardFunderEvent.signature e) (MeteoraDammV2UpdateRewardFunderEvent.timestamp e) (MeteoraDammV2UpdateRewardFunderEvent.slot e)
      (MeteoraDammV2UpdateRewardFunderEvent.transaction_index e) (MeteoraDammV2UpdateRewardFunderEvent.event_index e)
  | WithdrawDeadLiquidityReward e => EventPosition.mk (MeteoraDammV2WithdrawDeadLiquidityRewardEvent.signature e) (MeteoraDammV2WithdrawDeadLiquidityRewardEvent.timestamp e) (MeteoraDammV2WithdrawDeadLiquidityRewardEvent.slot e)
      (MeteoraDammV2WithdrawDeadLiquidityRewardEvent.transaction_index e) (MeteoraDammV2WithdrawDeadLiquidityRewardEvent.event_index e)
  | SplitPosition e => EventPosition.mk (MeteoraDammV2SplitPositionEvent.signature e) (MeteoraDammV2SplitPositionEvent.timestamp e) (MeteoraDammV2SplitPositionEvent.slot e)
      (MeteoraDammV2SplitPositionEvent.transaction_index e) (MeteoraDammV2SplitPositionEvent.event_index e)
  | CreatePosition e => EventPosition.mk (MeteoraDammV2CreatePositionEvent.signature e) (MeteoraDammV2CreatePositionEvent.timestamp e) (MeteoraDammV2CreatePositionEvent.slot e)
      (MeteoraDammV2CreatePositionEvent.transaction_index e) (MeteoraDammV2CreatePositionEvent.event_index e)
  | ClosePosition e => EventPosition.mk (MeteoraDammV2ClosePositionEvent.signature e) (MeteoraDammV2ClosePositionEvent.timestamp e) (MeteoraDammV2ClosePositionEvent.slot e)
      (MeteoraDammV2ClosePositionEvent.transaction_index e) (MeteoraDammV2ClosePositionEvent.event_index e)
  | LockPosition e => EventPosition.mk (MeteoraDammV2LockPositionEvent.signature e) (MeteoraDammV2LockPositionEvent.timestamp e) (MeteoraDammV2LockPositionEvent.slot e)
      (MeteoraDammV2LockPositionEvent.transaction_index e) (MeteoraDammV2LockPositionEvent.event_index e)
  | PermanentLockPosition e => EventPosition.mk (MeteoraDammV2PermanentLockPositionEvent.signature e) (MeteoraDammV2PermanentLockPositionEvent.timestamp e) (MeteoraDammV2PermanentLockPositionEvent.slot e)
      (MeteoraDammV2PermanentLockPositionEvent.transaction_index e) (MeteoraDammV2PermanentLockPositionEvent.event_index e)
  | InitializePool e => EventPosition.mk (MeteoraDammV2InitializePoolEvent.signature e) (MeteoraDammV2InitializePoolEvent.timestamp e) (MeteoraDammV2InitializePoolEvent.slot e)
      (MeteoraDammV2InitializePoolEvent.transaction_index e) (MeteoraDammV2InitializePoolEvent.event_index e)
  | SetPoolStatus e => EventPosition.mk (MeteoraDammV2SetPoolStatusEvent.signature e) (MeteoraDammV2SetPoolStatusEvent.timestamp e) (MeteoraDammV2SetPoolStatusEvent.slot e)
      (MeteoraDammV2SetPoolStatusEvent.transaction_index e) (MeteoraDammV2SetPoolStatusEvent.event_index e)
  | UpdatePoolFees e => EventPosition.mk (MeteoraDammV2UpdatePoolFeesEvent.signature e) (MeteoraDammV2UpdatePoolFeesEvent.timestamp e) (MeteoraDammV2UpdatePoolFeesEvent.slot e)
      (MeteoraDammV2UpdatePoolFeesEvent.transaction_index e) (MeteoraDammV2UpdatePoolFeesEvent.event_index e)
  end.
End MeteoraDammV2Event.

(** ** [domain/domain_event.rs] *)

Module DomainEvent.
Inductive t : Type :=
| MeteoraDammV2 (e : MeteoraDammV2Event.t).

Definition pool_address (d : t) : Pubkey :=
  match d with MeteoraDammV2 e => MeteoraDammV2Event.pool_address e end.
Definition signature (d : t) : Signature :=
  match d with MeteoraDammV2 e => MeteoraDammV2Event.signature e end.
Definition timestamp (d : t) : DateTime :=
  match d with MeteoraDammV2 e => MeteoraDammV2Event.timestamp e end.
Definition protocol (d : t) : Protocol :=
  match d with MeteoraDammV2 _ => damm_v2 end.
Definition kind (d : t) : string :=
  match d with MeteoraDammV2 e => MeteoraDammV2Event.kind e end.
Definition position_of (d : t) : EventPosition.t :=
  match d with MeteoraDammV2 e => MeteoraDammV2Event.position_of e end.
End DomainEvent.

(** ** [domain/token_metadata/model.rs] *)

Inductive MetadataProvider : Type :=
| HeliusDas.

Definition MetadataProvider_as_str (p : MetadataProvider) : string :=
  match p with HeliusDas => "helius_das" end.
Definition MetadataProvider_from_str (s : string) : result MetadataProvider CoreError :=
  if bool_decide (s = "helius_das") then Ok HeliusDas else Err (UnknownProgram s).

Module TokenMetadata.
Record t : Type := mk {
  mint : Pubkey;
  symbol : option string;
  name : option string;
  decimals : Z;                             (** u8 *)
  logo_uri : option string;
  metadata_provider : MetadataProvider;
  fetched_at : DateTime;
  last_refresh_at : DateTime;
}.
End TokenMetadata.
