(* ===== verification/WireEvents.v ===== *)
(** * Wire mirrors of the DAMM v2 Anchor events

    [src/crates/core/src/application/extraction/meteora/damm_v2/events.rs] and
    [events/]: a Module per mirrored struct, its fields in declaration order,
    and [read], the borsh reader its derive gives (hand-written in the source
    for [EvtUpdatePoolFees]). [write] and [wf] are the borsh image of a value
    and the widths of its fields, the specification of the reader. *)

From S2P Require Import Prelude External.

Module EvtClaimPositionFee.
Record t : Type := mk {
  pool : Pubkey;
  position : Pubkey;
  owner : Pubkey;
  fee_a_claimed : Z;
  fee_b_claimed : Z;
}.

Definition read `{Borsh} : reader t := fun bs =>
  let? (pool, bs) := read_pubkey bs in
  let? (position, bs) := read_pubkey bs in
  let? (owner, bs) := read_pubkey bs in
  let? (fee_a_claimed, bs) := read_uint 8 bs in
  let? (fee_b_claimed, bs) := read_uint 8 bs in
  Ok (mk pool position owner fee_a_claimed fee_b_claimed, bs).

Definition wf (e : t) : Prop :=
  is_bytes 32 (pool e) /\
  is_bytes 32 (position e) /\
  is_bytes 32 (owner e) /\
  is_uint 64 (fee_a_claimed e) /\
  is_uint 64 (fee_b_claimed e).
Definition write (e : t) : list Z :=
  (pool e) ++
  (position e) ++
  (owner e) ++
  le_encode 8 (fee_a_claimed e) ++
  le_encode 8 (fee_b_claimed e).
End EvtClaimPositionFee.

Module EvtClaimProtocolFee.
Record t : Type := mk {
  pool : Pubkey;
  token_a_amount : Z;
  token_b_amount : Z;
}.

Definition read `{Borsh} : reader t := fun bs =>
  let? (pool, bs) := read_pubkey bs in
  let? (token_a_amount, bs) := read_uint 8 bs in
  let? (token_b_amount, bs) := read_uint 8 bs in
  Ok (mk pool token_a_amount token_b_amount, bs).

Definition wf (e : t) : Prop :=
  is_bytes 32 (pool e) /\
  is_uint 64 (token_a_amount e) /\
  is_uint 64 (token_b_amount e).
Definition write (e : t) : list Z :=
  (pool e) ++
  le_encode 8 (token_a_amount e) ++
  le_encode 8 (token_b_amount e).
End EvtClaimProtocolFee.

Module EvtClaimReward.
Record t : Type := mk {
  pool : Pubkey;
  position : Pubkey;
  owner : Pubkey;
  mint_reward : Pubkey;
  reward_index : Z;
  total_reward : Z;
}.

Definition read `{Borsh} : reader t := fun bs =>
  let? (pool, bs) := read_pubkey bs in
  let? (position, bs) := read_pubkey bs in
  let? (owner, bs) := read_pubkey bs in
  let? (mint_reward, bs) := read_pubkey bs in
  let? (reward_index, bs) := read_uint 1 bs in
  let? (total_reward, bs) := read_uint 8 bs in
  Ok (mk pool position owner mint_reward reward_index total_reward, bs).

Definition wf (e : t) : Prop :=
  is_bytes 32 (pool e) /\
  is_bytes 32 (position e) /\
  is_bytes 32 (owner e) /\
  is_bytes 32 (mint_reward e) /\
  is_uint 8 (reward_index e) /\
  is_uint 64 (total_reward e).
Definition write (e : t) : list Z :=
  (pool e) ++
  (position e) ++
  (owner e) ++
  (mint_reward e) ++
  le_encode 1 (reward_index e) ++
  le_encode 8 (total_reward e).
End EvtClaimReward.

Module EvtClosePosition.
Record t : Type := mk {
  pool : Pubkey;
  owner : Pubkey;
  position : Pubkey;
  position_nft_mint : Pubkey;
}.

Definition read `{Borsh} : reader t := fun bs =>
  let? (pool, bs) := read_pubkey bs in
  let? (owner, bs) := read_pubkey bs in
  let? (position, bs) := read_pubkey bs in
  let? (position_nft_mint, bs) := read_pubkey bs in
  Ok (mk pool owner position position_nft_mint, bs).

Definition wf (e : t) : Prop :=
  is_bytes 32 (pool e) /\
  is_bytes 32 (owner e) /\
  is_bytes 32 (position e) /\
  is_bytes 32 (position_nft_mint e).
Definition write (e : t) : list Z :=
  (pool e) ++
  (owner e) ++
  (position e) ++
  (position_nft_mint e).
End EvtClosePosition.

Module EvtCreatePosition.
Record t : Type := mk {
  pool : Pubkey;
  owner : Pubkey;
  position : Pubkey;
  position_nft_mint : Pubkey;
}.

Definition read `{Borsh} : reader t := fun bs =>
  let? (pool, bs) := read_pubkey bs in
  let? (owner, bs) := read_pubkey bs in
  let? (position, bs) := read_pubkey bs in
  let? (position_nft_mint, bs) := read_pubkey bs in
  Ok (mk pool owner position position_nft_mint, bs).

Definition wf (e : t) : Prop :=
  is_bytes 32 (pool e) /\
  is_bytes 32 (owner e) /\
  is_bytes 32 (position e) /\
  is_bytes 32 (position_nft_mint e).
Definition write (e : t) : list Z :=
  (pool e) ++
  (owner e) ++
  (position e) ++
  (position_nft_mint e).
End EvtCreatePosition.

Module EvtFundReward.
Record t : Type := mk {
  pool : Pubkey;
  funder : Pubkey;
  mint_reward : Pubkey;
  reward_index : Z;
  amount : Z;
  transfer_fee_excluded_amount_in : Z;
  reward_duration_end : Z;
  pre_reward_rate : Z;
  post_reward_rate : Z;
}.

Definition read `{Borsh} : reader t := fun bs =>
  let? (pool, bs) := read_pubkey bs in
  let? (funder, bs) := read_pubkey bs in
  let? (mint_reward, bs) := read_pubkey bs in
  let? (reward_index, bs) := read_uint 1 bs in
  let? (amount, bs) := read_uint 8 bs in
  let? (transfer_fee_excluded_amount_in, bs) := read_uint 8 bs in
  let? (reward_duration_end, bs) := read_uint 8 bs in
  let? (pre_reward_rate, bs) := read_uint 16 bs in
  let? (post_reward_rate, bs) := read_uint 16 bs in
  Ok (mk pool funder mint_reward reward_index amount transfer_fee_excluded_amount_in reward_duration_end pre_reward_rate post_reward_rate, bs).

Definition wf (e : t) : Prop :=
  is_bytes 32 (pool e) /\
  is_bytes 32 (funder e) /\
  is_bytes 32 (mint_reward e) /\
  is_uint 8 (reward_index e) /\
  is_uint 64 (amount e) /\
  is_uint 64 (transfer_fee_excluded_amount_in e) /\
  is_uint 64 (reward_duration_end e) /\
  is_uint 128 (pre_reward_rate e) /\
  is_uint 128 (post_reward_rate e).
Definition write (e : t) : list Z :=
  (pool e) ++
  (funder e) ++
  (mint_reward e) ++
  le_encode 1 (reward_index e) ++
  le_encode 8 (amount e) ++
  le_encode 8 (transfer_fee_excluded_amount_in e) ++
  le_encode 8 (reward_duration_end e) ++
  le_encode 16 (pre_reward_rate e) ++
  le_encode 16 (post_reward_rate e).
End EvtFundReward.

Module BaseFeeParameters.
Record t : Type := mk {
  data : list Z;
}.

Definition read `{Borsh} : reader t := fun bs =>
  let? (data, bs) := read_array 27 bs in
  Ok (mk data, bs).

Definition wf (e : t) : Prop :=
  is_bytes 27 (data e).
Definition write (e : t) : list Z :=
  (data e).
End BaseFeeParameters.

Module DynamicFeeParameters.
Record t : Type := mk {
  bin_step : Z;
  bin_step_u128 : Z;
  filter_period : Z;
  decay_period : Z;
  reduction_factor : Z;
  max_volatility_accumulator : Z;
  variable_fee_control : Z;
}.

Definition read `{Borsh} : reader t := fun bs =>
  let? (bin_step, bs) := read_uint 2 bs in
  let? (bin_step_u128, bs) := read_uint 16 bs in
  let? (filter_period, bs) := read_uint 2 bs in
  let? (decay_period, bs) := read_uint 2 bs in
  let? (reduction_factor, bs) := read_uint 2 bs in
  let? (max_volatility_accumulator, bs) := read_uint 4 bs in
  let? (variable_fee_control, bs) := read_uint 4 bs in
  Ok (mk bin_step bin_step_u128 filter_period decay_period reduction_factor max_volatility_accumulator variable_fee_control, bs).

Definition wf (e : t) : Prop :=
  is_uint 16 (bin_step e) /\
  is_uint 128 (bin_step_u128 e) /\
  is_uint 16 (filter_period e) /\
  is_uint 16 (decay_period e) /\
  is_uint 16 (reduction_factor e) /\
  is_uint 32 (max_volatility_accumulator e) /\
  is_uint 32 (variable_fee_control e).
Definition write (e : t) : list Z :=
  le_encode 2 (bin_step e) ++
  le_encode 16 (bin_step_u128 e) ++
  le_encode 2 (filter_period e) ++
  le_encode 2 (decay_period e) ++
  le_encode 2 (reduction_factor e) ++
  le_encode 4 (max_volatility_accumulator e) ++
  le_encode 4 (variable_fee_control e).

(** [BorshSerialize], derived. *)
Definition to_vec `{Borsh} (e : t) : list Z :=
  write_uint 2 (bin_step e) ++ write_uint 16 (bin_step_u128 e) ++
  write_uint 2 (filter_period e) ++ write_uint 2 (decay_period e) ++
  write_uint 2 (reduction_factor e) ++ write_uint 4 (max_volatility_accumulator e) ++
  write_uint 4 (variable_fee_control e).
End DynamicFeeParameters.

Module PoolFeeParameters.
Record t : Type := mk {
  base_fee : BaseFeeParameters.t;
  compounding_fee_bps : Z;
  padding : Z;
  dynamic_fee : (option DynamicFeeParameters.t);
}.

Definition read `{Borsh} : reader t := fun bs =>
  let? (base_fee, bs) := BaseFeeParameters.read bs in
  let? (compounding_fee_bps, bs) := read_uint 2 bs in
  let? (padding, bs) := read_uint 1 bs in
  let? (dynamic_fee, bs) := read_option DynamicFeeParameters.read bs in
  Ok (mk base_fee compounding_fee_bps padding dynamic_fee, bs).

Definition wf (e : t) : Prop :=
  BaseFeeParameters.wf (base_fee e) /\
  is_uint 16 (compounding_fee_bps e) /\
  is_uint 8 (padding e) /\
  match (dynamic_fee e) with Some d => DynamicFeeParameters.wf d | None => True end.
Definition write (e : t) : list Z :=
  BaseFeeParameters.write (base_fee e) ++
  le_encode 2 (compounding_fee_bps e) ++
  le_encode 1 (padding e) ++
  write_option DynamicFeeParameters.write (dynamic_fee e).

(** [BorshSerialize], derived. *)
Definition to_vec `{Borsh} (e : t) : list Z :=
  BaseFeeParameters.data (base_fee e) ++ write_uint 2 (compounding_fee_bps e) ++
  write_uint 1 (padding e) ++
  match dynamic_fee e with
  | None => write_option_tag false
  | Some d => write_option_tag true ++ DynamicFeeParameters.to_vec d
  end.
End PoolFeeParameters.

Module EvtInitializePool.
Record t : Type := mk {
  pool : Pubkey;
  token_a_mint : Pubkey;
  token_b_mint : Pubkey;
  creator : Pubkey;
  payer : Pubkey;
  alpha_vault : Pubkey;
  pool_fees : PoolFeeParameters.t;
  sqrt_min_price : Z;
  sqrt_max_price : Z;
  activation_type : Z;
  collect_fee_mode : Z;
  liquidity : Z;
  sqrt_price : Z;
  activation_point : Z;
  token_a_flag : Z;
  token_b_flag : Z;
  token_a_amount : Z;
  token_b_amount : Z;
  total_amount_a : Z;
  total_amount_b : Z;
  pool_type : Z;
}.

Definition read `{Borsh} : reader t := fun bs =>
  let? (pool, bs) := read_pubkey bs in
  let? (token_a_mint, bs) := read_pubkey bs in
  let? (token_b_mint, bs) := read_pubkey bs in
  let? (creator, bs) := read_pubkey bs in
  let? (payer, bs) := read_pubkey bs in
  let? (alpha_vault, bs) := read_pubkey bs in
  let? (pool_fees, bs) := PoolFeeParameters.read bs in
  let? (sqrt_min_price, bs) := read_uint 16 bs in
  let? (sqrt_max_price, bs) := read_uint 16 bs in
  let? (activation_type, bs) := read_uint 1 bs in
  let? (collect_fee_mode, bs) := read_uint 1 bs in
  let? (liquidity, bs) := read_uint 16 bs in
  let? (sqrt_price, bs) := read_uint 16 bs in
  let? (activation_point, bs) := read_uint 8 bs in
  let? (token_a_flag, bs) := read_uint 1 bs in
  let? (token_b_flag, bs) := read_uint 1 bs in
  let? (token_a_amount, bs) := read_uint 8 bs in
  let? (token_b_amount, bs) := read_uint 8 bs in
  let? (total_amount_a, bs) := read_uint 8 bs in
  let? (total_amount_b, bs) := read_uint 8 bs in
  let? (pool_type, bs) := read_uint 1 bs in
  Ok (mk pool token_a_mint token_b_mint creator payer alpha_vault pool_fees sqrt_min_price sqrt_max_price activation_type collect_fee_mode liquidity sqrt_price activation_point token_a_flag token_b_flag token_a_amount token_b_amount total_amount_a total_amount_b pool_type, bs).

Definition wf (e : t) : Prop :=
  is_bytes 32 (pool e) /\
  is_bytes 32 (token_a_mint e) /\
  is_bytes 32 (token_b_mint e) /\
  is_bytes 32 (creator e) /\
  is_bytes 32 (payer e) /\
  is_bytes 32 (alpha_vault e) /\
  PoolFeeParameters.wf (pool_fees e) /\
  is_uint 128 (sqrt_min_price e) /\
  is_uint 128 (sqrt_max_price e) /\
  is_uint 8 (activation_type e) /\
  is_uint 8 (collect_fee_mode e) /\
  is_uint 128 (liquidity e) /\
  is_uint 128 (sqrt_price e) /\
  is_uint 64 (activation_point e) /\
  is_uint 8 (token_a_flag e) /\
  is_uint 8 (token_b_flag e) /\
  is_uint 64 (token_a_amount e) /\
  is_uint 64 (token_b_amount e) /\
  is_uint 64 (total_amount_a e) /\
  is_uint 64 (total_amount_b e) /\
  is_uint 8 (pool_type e).
Definition write (e : t) : list Z :=
  (pool e) ++
  (token_a_mint e) ++
  (token_b_mint e) ++
  (creator e) ++
  (payer e) ++
  (alpha_vault e) ++
  PoolFeeParameters.write (pool_fees e) ++
  le_encode 16 (sqrt_min_price e) ++
  le_encode 16 (sqrt_max_price e) ++
  le_encode 1 (activation_type e) ++
  le_encode 1 (collect_fee_mode e) ++
  le_encode 16 (liquidity e) ++
  le_encode 16 (sqrt_price e) ++
  le_encode 8 (activation_point e) ++
  le_encode 1 (token_a_flag e) ++
  le_encode 1 (token_b_flag e) ++
  le_encode 8 (token_a_amount e) ++
  le_encode 8 (token_b_amount e) ++
  le_encode 8 (total_amount_a e) ++
  le_encode 8 (total_amount_b e) ++
  le_encode 1 (pool_type e).
End EvtInitializePool.

Module EvtInitializeReward.
Record t : Type := mk {
  pool : Pubkey;
  reward_mint : Pubkey;
  funder : Pubkey;
  creator : Pubkey;
  reward_index : Z;
  reward_duration : Z;
}.

Definition read `{Borsh} : reader t := fun bs =>
  let? (pool, bs) := read_pubkey bs in
  let? (reward_mint, bs) := read_pubkey bs in
  let? (funder, bs) := read_pubkey bs in
  let? (creator, bs) := read_pubkey bs in
  let? (reward_index, bs) := read_uint 1 bs in
  let? (reward_duration, bs) := read_uint 8 bs in
  Ok (mk pool reward_mint funder creator reward_index reward_duration, bs).

Definition wf (e : t) : Prop :=
  is_bytes 32 (pool e) /\
  is_bytes 32 (reward_mint e) /\
  is_bytes 32 (funder e) /\
  is_bytes 32 (creator e) /\
  is_uint 8 (reward_index e) /\
  is_uint 64 (reward_duration e).
Definition write (e : t) : list Z :=
  (pool e) ++
  (reward_mint e) ++
  (funder e) ++
  (creator e) ++
  le_encode 1 (reward_index e) ++
  le_encode 8 (reward_duration e).
End EvtInitializeReward.

Module EvtLiquidityChange.
Record t : Type := mk {
  pool : Pubkey;
  position : Pubkey;
  owner : Pubkey;
  token_a_amount : Z;
  token_b_amount : Z;
  transfer_fee_included_token_a_amount : Z;
  transfer_fee_included_token_b_amount : Z;
  reserve_a_amount : Z;
  reserve_b_amount : Z;
  liquidity_delta : Z;
  token_a_amount_threshold : Z;
  token_b_amount_threshold : Z;
  change_type : Z;
}.

Definition read `{Borsh} : reader t := fun bs =>
  let? (pool, bs) := read_pubkey bs in
  let? (position, bs) := read_pubkey bs in
  let? (owner, bs) := read_pubkey bs in
  let? (token_a_amount, bs) := read_uint 8 bs in
  let? (token_b_amount, bs) := read_uint 8 bs in
  let? (transfer_fee_included_token_a_amount, bs) := read_uint 8 bs in
  let? (transfer_fee_included_token_b_amount, bs) := read_uint 8 bs in
  let? (reserve_a_amount, bs) := read_uint 8 bs in
  let? (reserve_b_amount, bs) := read_uint 8 bs in
  let? (liquidity_delta, bs) := read_uint 16 bs in
  let? (token_a_amount_threshold, bs) := read_uint 8 bs in
  let? (token_b_amount_threshold, bs) := read_uint 8 bs in
  let? (change_type, bs) := read_uint 1 bs in
  Ok (mk pool position owner token_a_amount token_b_amount transfer_fee_included_token_a_amount transfer_fee_included_token_b_amount reserve_a_amount reserve_b_amount liquidity_delta token_a_amount_threshold token_b_amount_threshold change_type, bs).

Definition wf (e : t) : Prop :=
  is_bytes 32 (pool e) /\
  is_bytes 32 (position e) /\
  is_bytes 32 (owner e) /\
  is_uint 64 (token_a_amount e) /\
  is_uint 64 (token_b_amount e) /\
  is_uint 64 (transfer_fee_included_token_a_amount e) /\
  is_uint 64 (transfer_fee_included_token_b_amount e) /\
  is_uint 64 (reserve_a_amount e) /\
  is_uint 64 (reserve_b_amount e) /\
  is_uint 128 (liquidity_delta e) /\
  is_uint 64 (token_a_amount_threshold e) /\
  is_uint 64 (token_b_amount_threshold e) /\
  is_uint 8 (change_type e).
Definition write (e : t) : list Z :=
  (pool e) ++
  (position e) ++
  (owner e) ++
  le_encode 8 (token_a_amount e) ++
  le_encode 8 (token_b_amount e) ++
  le_encode 8 (transfer_fee_included_token_a_amount e) ++
  le_encode 8 (transfer_fee_included_token_b_amount e) ++
  le_encode 8 (reserve_a_amount e) ++
  le_encode 8 (reserve_b_amount e) ++
  le_encode 16 (liquidity_delta e) ++
  le_encode 8 (token_a_amount_threshold e) ++
  le_encode 8 (token_b_amount_threshold e) ++
  le_encode 1 (change_type e).
End EvtLiquidityChange.

Module EvtLockPosition.
Record t : Type := mk {
  pool : Pubkey;
  position : Pubkey;
  owner : Pubkey;
  vesting : Pubkey;
  cliff_point : Z;
  period_frequency : Z;
  cliff_unlock_liquidity : Z;
  liquidity_per_period : Z;
  number_of_period : Z;
}.

Definition read `{Borsh} : reader t := fun bs =>
  let? (pool, bs) := read_pubkey bs in
  let? (position, bs) := read_pubkey bs in
  let? (owner, bs) := read_pubkey bs in
  let? (vesting, bs) := read_pubkey bs in
  let? (cliff_point, bs) := read_uint 8 bs in
  let? (period_frequency, bs) := read_uint 8 bs in
  let? (cliff_unlock_liquidity, bs) := read_uint 16 bs in
  let? (liquidity_per_period, bs) := read_uint 16 bs in
  let? (number_of_period, bs) := read_uint 2 bs in
  Ok (mk pool position owner vesting cliff_point period_frequency cliff_unlock_liquidity liquidity_per_period number_of_period, bs).

Definition wf (e : t) : Prop :=
  is_bytes 32 (pool e) /\
  is_bytes 32 (position e) /\
  is_bytes 32 (owner e) /\
  is_bytes 32 (vesting e) /\
  is_uint 64 (cliff_point e) /\
  is_uint 64 (period_frequency e) /\
  is_uint 128 (cliff_unlock_liquidity e) /\
  is_uint 128 (liquidity_per_period e) /\
  is_uint 16 (number_of_period e).
Definition write (e : t) : list Z :=
  (pool e) ++
  (position e) ++
  (owner e) ++
  (vesting e) ++
  le_encode 8 (cliff_point e) ++
  le_encode 8 (period_frequency e) ++
  le_encode 16 (cliff_unlock_liquidity e) ++
  le_encode 16 (liquidity_per_period e) ++
  le_encode 2 (number_of_period e).
End EvtLockPosition.

Module EvtPermanentLockPosition.
Record t : Type := mk {
  pool : Pubkey;
  position : Pubkey;
  lock_liquidity_amount : Z;
  total_permanent_locked_liquidity : Z;
}.

Definition read `{Borsh} : reader t := fun bs =>
  let? (pool, bs) := read_pubkey bs in
  let? (position, bs) := read_pubkey bs in
  let? (lock_liquidity_amount, bs) := read_uint 16 bs in
  let? (total_permanent_locked_liquidity, bs) := read_uint 16 bs in
  Ok (mk pool position lock_liquidity_amount total_permanent_locked_liquidity, bs).

Definition wf (e : t) : Prop :=
  is_bytes 32 (pool e) /\
  is_bytes 32 (position e) /\
  is_uint 128 (lock_liquidity_amount e) /\
  is_uint 128 (total_permanent_locked_liquidity e).
Definition write (e : t) : list Z :=
  (pool e) ++
  (position e) ++
  le_encode 16 (lock_liquidity_amount e) ++
  le_encode 16 (total_permanent_locked_liquidity e).
End EvtPermanentLockPosition.

Module EvtSetPoolStatus.
Record t : Type := mk {
  pool : Pubkey;
  status : Z;
}.

Definition read `{Borsh} : reader t := fun bs =>
  let? (pool, bs) := read_pubkey bs in
  let? (status, bs) := read_uint 1 bs in
  Ok (mk pool status, bs).

Definition wf (e : t) : Prop :=
  is_bytes 32 (pool e) /\
  is_uint 8 (status e).
Definition write (e : t) : list Z :=
  (pool e) ++
  le_encode 1 (status e).
End EvtSetPoolStatus.

Module SplitAmountInfo2.
Record t : Type := mk {
  permanent_locked_liquidity : Z;
  unlocked_liquidity : Z;
  vested_liquidity : Z;
  fee_a : Z;
  fee_b : Z;
  reward_0 : Z;
  reward_1 : Z;
}.

Definition read `{Borsh} : reader t := fun bs =>
  let? (permanent_locked_liquidity, bs) := read_uint 16 bs in
  let? (unlocked_liquidity, bs) := read_uint 16 bs in
  let? (vested_liquidity, bs) := read_uint 16 bs in
  let? (fee_a, bs) := read_uint 8 bs in
  let? (fee_b, bs) := read_uint 8 bs in
  let? (reward_0, bs) := read_uint 8 bs in
  let? (reward_1, bs) := read_uint 8 bs in
  Ok (mk permanent_locked_liquidity unlocked_liquidity vested_liquidity fee_a fee_b reward_0 reward_1, bs).

Definition wf (e : t) : Prop :=
  is_uint 128 (permanent_locked_liquidity e) /\
  is_uint 128 (unlocked_liquidity e) /\
  is_uint 128 (vested_liquidity e) /\
  is_uint 64 (fee_a e) /\
  is_uint 64 (fee_b e) /\
  is_uint 64 (reward_0 e) /\
  is_uint 64 (reward_1 e).
Definition write (e : t) : list Z :=
  le_encode 16 (permanent_locked_liquidity e) ++
  le_encode 16 (unlocked_liquidity e) ++
  le_encode 16 (vested_liquidity e) ++
  le_encode 8 (fee_a e) ++
  le_encode 8 (fee_b e) ++
  le_encode 8 (reward_0 e) ++
  le_encode 8 (reward_1 e).
End SplitAmountInfo2.

Module SplitPositionInfo2.
Record t : Type := mk {
  unlocked_liquidity : Z;
  permanent_locked_liquidity : Z;
  vested_liquidity : Z;
  fee_a : Z;
  fee_b : Z;
  reward_0 : Z;
  reward_1 : Z;
}.

Definition read `{Borsh} : reader t := fun bs =>
  let? (unlocked_liquidity, bs) := read_uint 16 bs in
  let? (permanent_locked_liquidity, bs) := read_uint 16 bs in
  let? (vested_liquidity, bs) := read_uint 16 bs in
  let? (fee_a, bs) := read_uint 8 bs in
  let? (fee_b, bs) := read_uint 8 bs in
  let? (reward_0, bs) := read_uint 8 bs in
  let? (reward_1, bs) := read_uint 8 bs in
  Ok (mk unlocked_liquidity permanent_locked_liquidity vested_liquidity fee_a fee_b reward_0 reward_1, bs).

Definition wf (e : t) : Prop :=
  is_uint 128 (unlocked_liquidity e) /\
  is_uint 128 (permanent_locked_liquidity e) /\
  is_uint 128 (vested_liquidity e) /\
  is_uint 64 (fee_a e) /\
  is_uint 64 (fee_b e) /\
  is_uint 64 (reward_0 e) /\
  is_uint 64 (reward_1 e).
Definition write (e : t) : list Z :=
  le_encode 16 (unlocked_liquidity e) ++
  le_encode 16 (permanent_locked_liquidity e) ++
  le_encode 16 (vested_liquidity e) ++
  le_encode 8 (fee_a e) ++
  le_encode 8 (fee_b e) ++
  le_encode 8 (reward_0 e) ++
  le_encode 8 (reward_1 e).
End SplitPositionInfo2.

Module SplitPositionParameters3.
Record t : Type := mk {
  unlocked_liquidity_numerator : Z;
  permanent_locked_liquidity_numerator : Z;
  fee_a_numerator : Z;
  fee_b_numerator : Z;
  reward_0_numerator : Z;
  reward_1_numerator : Z;
  inner_vesting_liquidity_numerator : Z;
}.

Definition read `{Borsh} : reader t := fun bs =>
  let? (unlocked_liquidity_numerator, bs) := read_uint 4 bs in
  let? (permanent_locked_liquidity_numerator, bs) := read_uint 4 bs in
  let? (fee_a_numerator, bs) := read_uint 4 bs in
  let? (fee_b_numerator, bs) := read_uint 4 bs in
  let? (reward_0_numerator, bs) := read_uint 4 bs in
  let? (reward_1_numerator, bs) := read_uint 4 bs in
  let? (inner_vesting_liquidity_numerator, bs) := read_uint 4 bs in
  Ok (mk unlocked_liquidity_numerator permanent_locked_liquidity_numerator fee_a_numerator fee_b_numerator reward_0_numerator reward_1_numerator inner_vesting_liquidity_numerator, bs).

Definition wf (e : t) : Prop :=
  is_uint 32 (unlocked_liquidity_numerator e) /\
  is_uint 32 (permanent_locked_liquidity_numerator e) /\
  is_uint 32 (fee_a_numerator e) /\
  is_uint 32 (fee_b_numerator e) /\
  is_uint 32 (reward_0_numerator e) /\
  is_uint 32 (reward_1_numerator e) /\
  is_uint 32 (inner_vesting_liquidity_numerator e).
Definition write (e : t) : list Z :=
  le_encode 4 (unlocked_liquidity_numerator e) ++
  le_encode 4 (permanent_locked_liquidity_numerator e) ++
  le_encode 4 (fee_a_numerator e) ++
  le_encode 4 (fee_b_numerator e) ++
  le_encode 4 (reward_0_numerator e) ++
  le_encode 4 (reward_1_numerator e) ++
  le_encode 4 (inner_vesting_liquidity_numerator e).
End SplitPositionParameters3.

Module EvtSplitPosition3.
Record t : Type := mk {
  pool : Pubkey;
  first_owner : Pubkey;
  second_owner : Pubkey;
  first_position : Pubkey;
  second_position : Pubkey;
  current_sqrt_price : Z;
  amount_splits : SplitAmountInfo2.t;
  first_position_info : SplitPositionInfo2.t;
  second_position_info : SplitPositionInfo2.t;
  split_position_parameters : SplitPositionParameters3.t;
}.

Definition read `{Borsh} : reader t := fun bs =>
  let? (pool, bs) := read_pubkey bs in
  let? (first_owner, bs) := read_pubkey bs in
  let? (second_owner, bs) := read_pubkey bs in
  let? (first_position, bs) := read_pubkey bs in
  let? (second_position, bs) := read_pubkey bs in
  let? (current_sqrt_price, bs) := read_uint 16 bs in
  let? (amount_splits, bs) := SplitAmountInfo2.read bs in
  let? (first_position_info, bs) := SplitPositionInfo2.read bs in
  let? (second_position_info, bs) := SplitPositionInfo2.read bs in
  let? (split_position_parameters, bs) := SplitPositionParameters3.read bs in
  Ok (mk pool first_owner second_owner first_position second_position current_sqrt_price amount_splits first_position_info second_position_info split_position_parameters, bs).

Definition wf (e : t) : Prop :=
  is_bytes 32 (pool e) /\
  is_bytes 32 (first_owner e) /\
  is_bytes 32 (second_owner e) /\
  is_bytes 32 (first_position e) /\
  is_bytes 32 (second_position e) /\
  is_uint 128 (current_sqrt_price e) /\
  SplitAmountInfo2.wf (amount_splits e) /\
  SplitPositionInfo2.wf (first_position_info e) /\
  SplitPositionInfo2.wf (second_position_info e) /\
  SplitPositionParameters3.wf (split_position_parameters e).
Definition write (e : t) : list Z :=
  (pool e) ++
  (first_owner e) ++
  (second_owner e) ++
  (first_position e) ++
  (second_position e) ++
  le_encode 16 (current_sqrt_price e) ++
  SplitAmountInfo2.write (amount_splits e) ++
  SplitPositionInfo2.write (first_position_info e) ++
  SplitPositionInfo2.write (second_position_info e) ++
  SplitPositionParameters3.write (split_position_parameters e).
End EvtSplitPosition3.

Module SwapParameters2.
Record t : Type := mk {
  amount_0 : Z;
  amount_1 : Z;
  swap_mode : Z;
}.

Definition read `{Borsh} : reader t := fun bs =>
  let? (amount_0, bs) := read_uint 8 bs in
  let? (amount_1, bs) := read_uint 8 bs in
  let? (swap_mode, bs) := read_uint 1 bs in
  Ok (mk amount_0 amount_1 swap_mode, bs).

Definition wf (e : t) : Prop :=
  is_uint 64 (amount_0 e) /\
  is_uint 64 (amount_1 e) /\
  is_uint 8 (swap_mode e).
Definition write (e : t) : list Z :=
  le_encode 8 (amount_0 e) ++
  le_encode 8 (amount_1 e) ++
  le_encode 1 (swap_mode e).
End SwapParameters2.

Module SwapResult2.
Record t : Type := mk {
  included_fee_input_amount : Z;
  excluded_fee_input_amount : Z;
  amount_left : Z;
  output_amount : Z;
  next_sqrt_price : Z;
  claiming_fee : Z;
  protocol_fee : Z;
  compounding_fee : Z;
  referral_fee : Z;
}.

Definition read `{Borsh} : reader t := fun bs =>
  let? (included_fee_input_amount, bs) := read_uint 8 bs in
  let? (excluded_fee_input_amount, bs) := read_uint 8 bs in
  let? (amount_left, bs) := read_uint 8 bs in
  let? (output_amount, bs) := read_uint 8 bs in
  let? (next_sqrt_price, bs) := read_uint 16 bs in
  let? (claiming_fee, bs) := read_uint 8 bs in
  let? (protocol_fee, bs) := read_uint 8 bs in
  let? (compounding_fee, bs) := read_uint 8 bs in
  let? (referral_fee, bs) := read_uint 8 bs in
  Ok (mk included_fee_input_amount excluded_fee_input_amount amount_left output_amount next_sqrt_price claiming_fee protocol_fee compounding_fee referral_fee, bs).

Definition wf (e : t) : Prop :=
  is_uint 64 (included_fee_input_amount e) /\
  is_uint 64 (excluded_fee_input_amount e) /\
  is_uint 64 (amount_left e) /\
  is_uint 64 (output_amount e) /\
  is_uint 128 (next_sqrt_price e) /\
  is_uint 64 (claiming_fee e) /\
  is_uint 64 (protocol_fee e) /\
  is_uint 64 (compounding_fee e) /\
  is_uint 64 (referral_fee e).
Definition write (e : t) : list Z :=
  le_encode 8 (included_fee_input_amount e) ++
  le_encode 8 (excluded_fee_input_amount e) ++
  le_encode 8 (amount_left e) ++
  le_encode 8 (output_amount e) ++
  le_encode 16 (next_sqrt_price e) ++
  le_encode 8 (claiming_fee e) ++
  le_encode 8 (protocol_fee e) ++
  le_encode 8 (compounding_fee e) ++
  le_encode 8 (referral_fee e).
End SwapResult2.

Module EvtSwap2.
Record t : Type := mk {
  pool : Pubkey;
  trade_direction : Z;
  collect_fee_mode : Z;
  has_referral : bool;
  params : SwapParameters2.t;
  swap_result : SwapResult2.t;
  included_transfer_fee_amount_in : Z;
  included_transfer_fee_amount_out : Z;
  excluded_transfer_fee_amount_out : Z;
  current_timestamp : Z;
  reserve_a_amount : Z;
  reserve_b_amount : Z;
}.

Definition read `{Borsh} : reader t := fun bs =>
  let? (pool, bs) := read_pubkey bs in
  let? (trade_direction, bs) := read_uint 1 bs in
  let? (collect_fee_mode, bs) := read_uint 1 bs in
  let? (has_referral, bs) := read_bool bs in
  let? (params, bs) := SwapParameters2.read bs in
  let? (swap_result, bs) := SwapResult2.read bs in
  let? (included_transfer_fee_amount_in, bs) := read_uint 8 bs in
  let? (included_transfer_fee_amount_out, bs) := read_uint 8 bs in
  let? (excluded_transfer_fee_amount_out, bs) := read_uint 8 bs in
  let? (current_timestamp, bs) := read_uint 8 bs in
  let? (reserve_a_amount, bs) := read_uint 8 bs in
  let? (reserve_b_amount, bs) := read_uint 8 bs in
  Ok (mk pool trade_direction collect_fee_mode has_referral params swap_result included_transfer_fee_amount_in included_transfer_fee_amount_out excluded_transfer_fee_amount_out current_timestamp reserve_a_amount reserve_b_amount, bs).

Definition wf (e : t) : Prop :=
  is_bytes 32 (pool e) /\
  is_uint 8 (trade_direction e) /\
  is_uint 8 (collect_fee_mode e) /\
  SwapParameters2.wf (params e) /\
  SwapResult2.wf (swap_result e) /\
  is_uint 64 (included_transfer_fee_amount_in e) /\
  is_uint 64 (included_transfer_fee_amount_out e) /\
  is_uint 64 (excluded_transfer_fee_amount_out e) /\
  is_uint 64 (current_timestamp e) /\
  is_uint 64 (reserve_a_amount e) /\
  is_uint 64 (reserve_b_amount e).
Definition write (e : t) : list Z :=
  (pool e) ++
  le_encode 1 (trade_direction e) ++
  le_encode 1 (collect_fee_mode e) ++
  write_bool (has_referral e) ++
  SwapParameters2.write (params e) ++
  SwapResult2.write (swap_result e) ++
  le_encode 8 (included_transfer_fee_amount_in e) ++
  le_encode 8 (included_transfer_fee_amount_out e) ++
  le_encode 8 (excluded_transfer_fee_amount_out e) ++
  le_encode 8 (current_timestamp e) ++
  le_encode 8 (reserve_a_amount e) ++
  le_encode 8 (reserve_b_amount e).
End EvtSwap2.

Module EvtUpdatePoolFees.
Record t : Type := mk {
  pool : Pubkey;
  operator : Pubkey;
  params_raw : list Z;
}.

(** The trailing bytes are kept verbatim ([read_to_end]). *)
Definition read `{Borsh} : reader t := fun bs =>
  let? (pool, bs) := read_pubkey bs in
  let? (operator, bs) := read_pubkey bs in
  Ok (mk pool operator bs, []).

Definition wf (e : t) : Prop :=
  is_bytes 32 (pool e) /\ is_bytes 32 (operator e) /\ Forall (is_uint 8) (params_raw e).
Definition write (e : t) : list Z := pool e ++ operator e ++ params_raw e.
End EvtUpdatePoolFees.

Module EvtUpdateRewardDuration.
Record t : Type := mk {
  pool : Pubkey;
  reward_index : Z;
  old_reward_duration : Z;
  new_reward_duration : Z;
}.

Definition read `{Borsh} : reader t := fun bs =>
  let? (pool, bs) := read_pubkey bs in
  let? (reward_index, bs) := read_uint 1 bs in
  let? (old_reward_duration, bs) := read_uint 8 bs in
  let? (new_reward_duration, bs) := read_uint 8 bs in
  Ok (mk pool reward_index old_reward_duration new_reward_duration, bs).

Definition wf (e : t) : Prop :=
  is_bytes 32 (pool e) /\
  is_uint 8 (reward_index e) /\
  is_uint 64 (old_reward_duration e) /\
  is_uint 64 (new_reward_duration e).
Definition write (e : t) : list Z :=
  (pool e) ++
  le_encode 1 (reward_index e) ++
  le_encode 8 (old_reward_duration e) ++
  le_encode 8 (new_reward_duration e).
End EvtUpdateRewardDuration.

Module EvtUpdateRewardFunder.
Record t : Type := mk {
  pool : Pubkey;
  reward_index : Z;
  old_funder : Pubkey;
  new_funder : Pubkey;
}.

Definition read `{Borsh} : reader t := fun bs =>
  let? (pool, bs) := read_pubkey bs in
  let? (reward_index, bs) := read_uint 1 bs in
  let? (old_funder, bs) := read_pubkey bs in
  let? (new_funder, bs) := read_pubkey bs in
  Ok (mk pool reward_index old_funder new_funder, bs).

Definition wf (e : t) : Prop :=
  is_bytes 32 (pool e) /\
  is_uint 8 (reward_index e) /\
  is_bytes 32 (old_funder e) /\
  is_bytes 32 (new_funder e).
Definition write (e : t) : list Z :=
  (pool e) ++
  le_encode 1 (reward_index e) ++
  (old_funder e) ++
  (new_funder e).
End EvtUpdateRewardFunder.

Module EvtWithdrawDeadLiquidityReward.
Record t : Type := mk {
  pool : Pubkey;
  reward_mint : Pubkey;
  amount : Z;
}.

Definition read `{Borsh} : reader t := fun bs =>
  let? (pool, bs) := read_pubkey bs in
  let? (reward_mint, bs) := read_pubkey bs in
  let? (amount, bs) := read_uint 8 bs in
  Ok (mk pool reward_mint amount, bs).

Definition wf (e : t) : Prop :=
  is_bytes 32 (pool e) /\
  is_bytes 32 (reward_mint e) /\
  is_uint 64 (amount e).
Definition write (e : t) : list Z :=
  (pool e) ++
  (reward_mint e) ++
  le_encode 8 (amount e).
End EvtWithdrawDeadLiquidityReward.

Module EvtWithdrawIneligibleReward.
Record t : Type := mk {
  pool : Pubkey;
  reward_mint : Pubkey;
  amount : Z;
}.

Definition read `{Borsh} : reader t := fun bs =>
  let? (pool, bs) := read_pubkey bs in
  let? (reward_mint, bs) := read_pubkey bs in
  let? (amount, bs) := read_uint 8 bs in
  Ok (mk pool reward_mint amount, bs).

Definition wf (e : t) : Prop :=
  is_bytes 32 (pool e) /\
  is_bytes 32 (reward_mint e) /\
  is_uint 64 (amount e).
Definition write (e : t) : list Z :=
  (pool e) ++
  (reward_mint e) ++
  le_encode 8 (amount e).
End EvtWithdrawIneligibleReward.

(** ** Discriminators *)

Definition DISCRIMINATOR_LEN : nat := 8.

(** A Rust [&str] as the bytes [as_bytes] gives. *)
Definition string_bytes (s : string) : list Z :=
  map (fun a => Z.of_N (Ascii.N_of_ascii a)) (String.list_ascii_of_string s).

Definition compute_discriminator `{Sha256} (name : string) : list Z :=
  take DISCRIMINATOR_LEN (sha256 (string_bytes (String.append "event:" name))).

Definition discriminator_claim_position_fee `{Sha256} : list Z := compute_discriminator "EvtClaimPositionFee".
Definition discriminator_claim_protocol_fee `{Sha256} : list Z := compute_discriminator "EvtClaimProtocolFee".
Definition discriminator_claim_reward `{Sha256} : list Z := compute_discriminator "EvtClaimReward".
Definition discriminator_close_position `{Sha256} : list Z := compute_discriminator "EvtClosePosition".
Definition discriminator_create_position `{Sha256} : list Z := compute_discriminator "EvtCreatePosition".
Definition discriminator_fund_reward `{Sha256} : list Z := compute_discriminator "EvtFundReward".
Definition discriminator_initialize_pool `{Sha256} : list Z := compute_discriminator "EvtInitializePool".
Definition discriminator_initialize_reward `{Sha256} : list Z := compute_discriminator "EvtInitializeReward".
Definition discriminator_liquidity_change `{Sha256} : list Z := compute_discriminator "EvtLiquidityChange".
Definition discriminator_lock_position `{Sha256} : list Z := compute_discriminator "EvtLockPosition".
Definition discriminator_permanent_lock_position `{Sha256} : list Z := compute_discriminator "EvtPermanentLockPosition".
Definition discriminator_set_pool_status `{Sha256} : list Z := compute_discriminator "EvtSetPoolStatus".
Definition discriminator_split_position3 `{Sha256} : list Z := compute_discriminator "EvtSplitPosition3".
Definition discriminator_split_position2 `{Sha256} : list Z := compute_discriminator "EvtSplitPosition2".
Definition discriminator_swap2 `{Sha256} : list Z := compute_discriminator "EvtSwap2".
Definition discriminator_update_pool_fees `{Sha256} : list Z := compute_discriminator "EvtUpdatePoolFees".
Definition discriminator_update_reward_duration `{Sha256} : list Z := compute_discriminator "EvtUpdateRewardDuration".
Definition discriminator_update_reward_funder `{Sha256} : list Z := compute_discriminator "EvtUpdateRewardFunder".
Definition discriminator_withdraw_dead_liquidity_reward `{Sha256} : list Z := compute_discriminator "EvtWithdrawDeadLiquidityReward".
Definition discriminator_withdraw_ineligible_reward `{Sha256} : list Z := compute_discriminator "EvtWithdrawIneligibleReward".

(** ** The sum of the mirrored events *)

Inductive DammV2WireEvent : Type :=
| Swap2 (e : EvtSwap2.t)
| LiquidityChange (e : EvtLiquidityChange.t)
| ClaimPositionFee (e : EvtClaimPositionFee.t)
| ClaimReward (e : EvtClaimReward.t)
| ClaimProtocolFee (e : EvtClaimProtocolFee.t)
| InitializeReward (e : EvtInitializeReward.t)
| FundReward (e : EvtFundReward.t)
| WithdrawIneligibleReward (e : EvtWithdrawIneligibleReward.t)
| UpdateRewardDuration (e : EvtUpdateRewardDuration.t)
| UpdateRewardFunder (e : EvtUpdateRewardFunder.t)
| WithdrawDeadLiquidityReward (e : EvtWithdrawDeadLiquidityReward.t)
| SplitPosition3 (e : EvtSplitPosition3.t)
| CreatePosition (e : EvtCreatePosition.t)
| ClosePosition (e : EvtClosePosition.t)
| LockPosition (e : EvtLockPosition.t)
| PermanentLockPosition (e : EvtPermanentLockPosition.t)
| InitializePool (e : EvtInitializePool.t)
| SetPoolStatus (e : EvtSetPoolStatus.t)
| UpdatePoolFees (e : EvtUpdatePoolFees.t).

Definition pool (w : DammV2WireEvent) : Pubkey :=
  match w with
  | Swap2 e => EvtSwap2.pool e
  | LiquidityChange e => EvtLiquidityChange.pool e
  | ClaimPositionFee e => EvtClaimPositionFee.pool e
  | ClaimReward e => EvtClaimReward.pool e
  | ClaimProtocolFee e => EvtClaimProtocolFee.pool e
  | InitializeReward e => EvtInitializeReward.pool e
  | FundReward e => EvtFundReward.pool e
  | WithdrawIneligibleReward e => EvtWithdrawIneligibleReward.pool e
  | UpdateRewardDuration e => EvtUpdateRewardDuration.pool e
  | UpdateRewardFunder e => EvtUpdateRewardFunder.pool e
  | WithdrawDeadLiquidityReward e => EvtWithdrawDeadLiquidityReward.pool e
  | SplitPosition3 e => EvtSplitPosition3.pool e
  | CreatePosition e => EvtCreatePosition.pool e
  | ClosePosition e => EvtClosePosition.pool e
  | LockPosition e => EvtLockPosition.pool e
  | PermanentLockPosition e => EvtPermanentLockPosition.pool e
  | InitializePool e => EvtInitializePool.pool e
  | SetPoolStatus e => EvtSetPoolStatus.pool e
  | UpdatePoolFees e => EvtUpdatePoolFees.pool e
  end.
