(* ===== verification/Extractor.v ===== *)
(** * Extraction of DAMM v2 wire events

    [src/crates/core/src/application/extraction/]: anchor_event.rs,
    on_chain_transaction.rs and meteora/damm_v2/extractor.rs. *)

From S2P Require Import Prelude Errors External Domain WireEvents.

(** ** The neutral transaction ([on_chain_transaction.rs]) *)

Module InnerInstructionPayload.
Record t : Type := mk {
  program_id : Pubkey;
  data : list Z;
}.
End InnerInstructionPayload.

Module OnChainTransaction.
Record t : Type := mk {
  position : TransactionPosition.t;
  inner_instructions : list InnerInstructionPayload.t;
}.
End OnChainTransaction.

(** ** Anchor [event_cpi] payloads ([anchor_event.rs]) *)

Definition EVENT_IX_TAG_LEN : nat := 8.
Definition EVENT_IX_TAG : list Z := [0xe4; 0x45; 0xa5; 0x2e; 0x51; 0xcb; 0x9a; 0x1d].

Definition starts_with (data prefix : list Z) : bool :=
  bool_decide (take (length prefix) data = prefix).

Definition decode_anchor_event_cpi (data : list Z) :
    result (list Z * list Z) AnchorDecodeError :=
  let len := Z.of_nat (length data) in
  if len <? Z.of_nat DISCRIMINATOR_LEN
  then Err (PayloadTooShort (Z.of_nat DISCRIMINATOR_LEN) len)
  else if negb (starts_with data EVENT_IX_TAG) then Err NotAnAnchorEvent
  else
    let min_len := (EVENT_IX_TAG_LEN + DISCRIMINATOR_LEN)%nat in
    if len <? Z.of_nat min_len then Err (PayloadTooShort (Z.of_nat min_len) len)
    else
      let disc := take DISCRIMINATOR_LEN (drop EVENT_IX_TAG_LEN data) in
      let payload := drop (EVENT_IX_TAG_LEN + DISCRIMINATOR_LEN) data in
      Ok (disc, payload).

Definition extract_anchor_event_cpis (tx : OnChainTransaction.t) (target_program_id : Pubkey) :
    list (list Z) :=
  map InnerInstructionPayload.data
    (List.filter
      (fun ix => bool_decide (InnerInstructionPayload.program_id ix = target_program_id))
      (OnChainTransaction.inner_instructions tx)).

(** ** Outcomes ([extractor.rs]) *)

Module IndexedWireEvent.
Record t : Type := mk {
  event_index : Z;
  event : DammV2WireEvent;
}.
End IndexedWireEvent.

(** [UnknownEvent] is its discriminator. *)
Definition UnknownEvent : Type := list Z.

Inductive ExtractFailure : Type :=
| AnchorDecode (source : AnchorDecodeError)
| Borsh_ (event_name : string) (discriminator : list Z) (reason : string)
| EventIndexOverflow (index : Z).

Module ExtractedEvents.
Record t : Type := mk {
  events : list IndexedWireEvent.t;
  unknown : list UnknownEvent;
  failures : list ExtractFailure;
}.

Definition default : t := mk [] [] [].
Definition push_event (out : t) (e : IndexedWireEvent.t) : t :=
  mk (events out ++ [e]) (unknown out) (failures out).
Definition push_unknown (out : t) (u : UnknownEvent) : t :=
  mk (events out) (unknown out ++ [u]) (failures out).
Definition push_failure (out : t) (f : ExtractFailure) : t :=
  mk (events out) (unknown out) (failures out ++ [f]).
End ExtractedEvents.

(** ** Dispatch by discriminator *)

Module KnownDiscriminators.
Record t : Type := mk {
  swap2 : list Z;
  liquidity : list Z;
  claim_pos_fee : list Z;
  claim_reward : list Z;
  claim_protocol_fee : list Z;
  initialize_reward : list Z;
  fund_reward : list Z;
  withdraw_ineligible_reward : list Z;
  update_reward_duration : list Z;
  update_reward_funder : list Z;
  withdraw_dead_liquidity_reward : list Z;
  split_position3 : list Z;
  split_position2_deprecated : list Z;
  create_position : list Z;
  close_position : list Z;
  lock_position : list Z;
  permanent_lock_position : list Z;
  initialize_pool : list Z;
  set_pool_status : list Z;
  update_pool_fees : list Z;
}.

(** Computed once per transaction. *)
Definition compute `{Sha256} : t := {|
  swap2 := discriminator_swap2;
  liquidity := discriminator_liquidity_change;
  claim_pos_fee := discriminator_claim_position_fee;
  claim_reward := discriminator_claim_reward;
  claim_protocol_fee := discriminator_claim_protocol_fee;
  initialize_reward := discriminator_initialize_reward;
  fund_reward := discriminator_fund_reward;
  withdraw_ineligible_reward := discriminator_withdraw_ineligible_reward;
  update_reward_duration := discriminator_update_reward_duration;
  update_reward_funder := discriminator_update_reward_funder;
  withdraw_dead_liquidity_reward := discriminator_withdraw_dead_liquidity_reward;
  split_position3 := discriminator_split_position3;
  split_position2_deprecated := discriminator_split_position2;
  create_position := discriminator_create_position;
  close_position := discriminator_close_position;
  lock_position := discriminator_lock_position;
  permanent_lock_position := discriminator_permanent_lock_position;
  initialize_pool := discriminator_initialize_pool;
  set_pool_status := discriminator_set_pool_status;
  update_pool_fees := discriminator_update_pool_fees;
|}.
End KnownDiscriminators.

Inductive Dispatch : Type :=
| Recognized (e : DammV2WireEvent)
| Ignored
| Unknown
| BorshFailed (event_name reason : string).

Section Extractor.
Context `{Borsh} `{Sha256}.

Definition deserialize {T} (read : reader T) (body : list Z) (_event_name : string) :
    result T string :=
  try_from_slice read body.

(** One branch of [dispatch]: deserialize, wrap, or report. *)
Definition dispatch_as {T} (read : reader T) (wrap : T -> DammV2WireEvent) (event_name : string)
    (body : list Z) : Dispatch :=
  match deserialize read body event_name with
  | Ok e => Recognized (wrap e)
  | Err reason => BorshFailed event_name reason
  end.

Definition dispatch (disc body : list Z) (known : KnownDiscriminators.t) : Dispatch :=
  if bool_decide (disc = KnownDiscriminators.swap2 known)
  then dispatch_as EvtSwap2.read Swap2 "EvtSwap2" body
  else if bool_decide (disc = KnownDiscriminators.liquidity known)
  then dispatch_as EvtLiquidityChange.read LiquidityChange "EvtLiquidityChange" body
  else if bool_decide (disc = KnownDiscriminators.claim_pos_fee known)
  then dispatch_as EvtClaimPositionFee.read ClaimPositionFee "EvtClaimPositionFee" body
  else if bool_decide (disc = KnownDiscriminators.claim_reward known)
  then dispatch_as EvtClaimReward.read ClaimReward "EvtClaimReward" body
  else if bool_decide (disc = KnownDiscriminators.claim_protocol_fee known)
  then dispatch_as EvtClaimProtocolFee.read ClaimProtocolFee "EvtClaimProtocolFee" body
  else if bool_decide (disc = KnownDiscriminators.initialize_reward known)
  then dispatch_as EvtInitializeReward.read InitializeReward "EvtInitializeReward" body
  else if bool_decide (disc = KnownDiscriminators.fund_reward known)
  then dispatch_as EvtFundReward.read FundReward "EvtFundReward" body
  else if bool_decide (disc = KnownDiscriminators.withdraw_ineligible_reward known)
  then dispatch_as EvtWithdrawIneligibleReward.read WithdrawIneligibleReward "EvtWithdrawIneligibleReward" body
  else if bool_decide (disc = KnownDiscriminators.update_reward_duration known)
  then dispatch_as EvtUpdateRewardDuration.read UpdateRewardDuration "EvtUpdateRewardDuration" body
  else if bool_decide (disc = KnownDiscriminators.update_reward_funder known)
  then dispatch_as EvtUpdateRewardFunder.read UpdateRewardFunder "EvtUpdateRewardFunder" body
  else if bool_decide (disc = KnownDiscriminators.withdraw_dead_liquidity_reward known)
  then dispatch_as EvtWithdrawDeadLiquidityReward.read WithdrawDeadLiquidityReward "EvtWithdrawDeadLiquidityReward" body
  else if bool_decide (disc = KnownDiscriminators.split_position3 known)
  then dispatch_as EvtSplitPosition3.read SplitPosition3 "EvtSplitPosition3" body
  else if bool_decide (disc = KnownDiscriminators.split_position2_deprecated known)
  then Ignored
  else if bool_decide (disc = KnownDiscriminators.create_position known)
  then dispatch_as EvtCreatePosition.read CreatePosition "EvtCreatePosition" body
  else if bool_decide (disc = KnownDiscriminators.close_position known)
  then dispatch_as EvtClosePosition.read ClosePosition "EvtClosePosition" body
  else if bool_decide (disc = KnownDiscriminators.lock_position known)
  then dispatch_as EvtLockPosition.read LockPosition "EvtLockPosition" body
  else if bool_decide (disc = KnownDiscriminators.permanent_lock_position known)
  then dispatch_as EvtPermanentLockPosition.read PermanentLockPosition "EvtPermanentLockPosition" body
  else if bool_decide (disc = KnownDiscriminators.initialize_pool known)
  then dispatch_as EvtInitializePool.read InitializePool "EvtInitializePool" body
  else if bool_decide (disc = KnownDiscriminators.set_pool_status known)
  then dispatch_as EvtSetPoolStatus.read SetPoolStatus "EvtSetPoolStatus" body
  else if bool_decide (disc = KnownDiscriminators.update_pool_fees known)
  then dispatch_as EvtUpdatePoolFees.read UpdatePoolFees "EvtUpdatePoolFees" body
  else Unknown.

(** One turn of the loop over the payloads. *)
Definition extract_step (known : KnownDiscriminators.t) (out : ExtractedEvents.t)
    (indexed : nat * list Z) : ExtractedEvents.t :=
  let (index, raw) := indexed in
  match try_uint 16 (Z.of_nat index) with
  | None => ExtractedEvents.push_failure out (EventIndexOverflow (Z.of_nat index))
  | Some event_index =>
    match decode_anchor_event_cpi raw with
    | Ok (disc, body) =>
      match dispatch disc body known with
      | Recognized event =>
          ExtractedEvents.push_event out (IndexedWireEvent.mk event_index event)
      | Ignored => out
      | Unknown => ExtractedEvents.push_unknown out disc
      | BorshFailed event_name reason =>
          ExtractedEvents.push_failure out (Borsh_ event_name disc reason)
      end
    | Err NotAnAnchorEvent => out
    | Err e => ExtractedEvents.push_failure out (AnchorDecode e)
    end
  end.

Definition extract_wire_events (tx : OnChainTransaction.t) (program_id : Pubkey) :
    ExtractedEvents.t :=
  let raw_payloads := extract_anchor_event_cpis tx program_id in
  let known := KnownDiscriminators.compute in
  foldl (extract_step known) ExtractedEvents.default (imap pair raw_payloads).
End Extractor.
