(* ===== verification/Translator.v ===== *)
(** * Translation of wire events into domain events

    [src/crates/core/src/application/extraction/meteora/damm_v2/translator.rs]
    and [translator/]. *)

From S2P Require Import Prelude Errors External Domain WireEvents.

Definition translate_claim_position_fee (wire : EvtClaimPositionFee.t) (event_position : EventPosition.t) :
    MeteoraDammV2ClaimPositionFeeEvent.t :=
  {|
    MeteoraDammV2ClaimPositionFeeEvent.pool_address := EvtClaimPositionFee.pool wire;
    MeteoraDammV2ClaimPositionFeeEvent.signature := EventPosition.signature event_position;
    MeteoraDammV2ClaimPositionFeeEvent.timestamp := EventPosition.timestamp event_position;
    MeteoraDammV2ClaimPositionFeeEvent.slot := EventPosition.slot event_position;
    MeteoraDammV2ClaimPositionFeeEvent.transaction_index := EventPosition.transaction_index event_position;
    MeteoraDammV2ClaimPositionFeeEvent.event_index := EventPosition.event_index event_position;
    MeteoraDammV2ClaimPositionFeeEvent.position := EvtClaimPositionFee.position wire;
    MeteoraDammV2ClaimPositionFeeEvent.owner := EvtClaimPositionFee.owner wire;
    MeteoraDammV2ClaimPositionFeeEvent.fee_a_claimed := EvtClaimPositionFee.fee_a_claimed wire;
    MeteoraDammV2ClaimPositionFeeEvent.fee_b_claimed := EvtClaimPositionFee.fee_b_claimed wire;
  |}.

Definition translate_claim_protocol_fee (wire : EvtClaimProtocolFee.t) (event_position : EventPosition.t) :
    MeteoraDammV2ClaimProtocolFeeEvent.t :=
  {|
    MeteoraDammV2ClaimProtocolFeeEvent.pool_address := EvtClaimProtocolFee.pool wire;
    MeteoraDammV2ClaimProtocolFeeEvent.signature := EventPosition.signature event_position;
    MeteoraDammV2ClaimProtocolFeeEvent.timestamp := EventPosition.timestamp event_position;
    MeteoraDammV2ClaimProtocolFeeEvent.slot := EventPosition.slot event_position;
    MeteoraDammV2ClaimProtocolFeeEvent.transaction_index := EventPosition.transaction_index event_position;
    MeteoraDammV2ClaimProtocolFeeEvent.event_index := EventPosition.event_index event_position;
    MeteoraDammV2ClaimProtocolFeeEvent.token_a_amount := EvtClaimProtocolFee.token_a_amount wire;
    MeteoraDammV2ClaimProtocolFeeEvent.token_b_amount := EvtClaimProtocolFee.token_b_amount wire;
  |}.

Definition translate_claim_reward (wire : EvtClaimReward.t) (event_position : EventPosition.t) :
    MeteoraDammV2ClaimRewardEvent.t :=
  {|
    MeteoraDammV2ClaimRewardEvent.pool_address := EvtClaimReward.pool wire;
    MeteoraDammV2ClaimRewardEvent.signature := EventPosition.signature event_position;
    MeteoraDammV2ClaimRewardEvent.timestamp := EventPosition.timestamp event_position;
    MeteoraDammV2ClaimRewardEvent.slot := EventPosition.slot event_position;
    MeteoraDammV2ClaimRewardEvent.transaction_index := EventPosition.transaction_index event_position;
    MeteoraDammV2ClaimRewardEvent.event_index := EventPosition.event_index event_position;
    MeteoraDammV2ClaimRewardEvent.position := EvtClaimReward.position wire;
    MeteoraDammV2ClaimRewardEvent.owner := EvtClaimReward.owner wire;
    MeteoraDammV2ClaimRewardEvent.mint_reward := EvtClaimReward.mint_reward wire;
    MeteoraDammV2ClaimRewardEvent.reward_index := EvtClaimReward.reward_index wire;
    MeteoraDammV2ClaimRewardEvent.total_reward := EvtClaimReward.total_reward wire;
  |}.

Definition translate_close_position (wire : EvtClosePosition.t) (event_position : EventPosition.t) :
    MeteoraDammV2ClosePositionEvent.t :=
  {|
    MeteoraDammV2ClosePositionEvent.pool_address := EvtClosePosition.pool wire;
    MeteoraDammV2ClosePositionEvent.signature := EventPosition.signature event_position;
    MeteoraDammV2ClosePositionEvent.timestamp := EventPosition.timestamp event_position;
    MeteoraDammV2ClosePositionEvent.slot := EventPosition.slot event_position;
    MeteoraDammV2ClosePositionEvent.transaction_index := EventPosition.transaction_index event_position;
    MeteoraDammV2ClosePositionEvent.event_index := EventPosition.event_index event_position;
    MeteoraDammV2ClosePositionEvent.owner := EvtClosePosition.owner wire;
    MeteoraDammV2ClosePositionEvent.position := EvtClosePosition.position wire;
    MeteoraDammV2ClosePositionEvent.position_nft_mint := EvtClosePosition.position_nft_mint wire;
  |}.

Definition translate_create_position (wire : EvtCreatePosition.t) (event_position : EventPosition.t) :
    MeteoraDammV2CreatePositionEvent.t :=
  {|
    MeteoraDammV2CreatePositionEvent.pool_address := EvtCreatePosition.pool wire;
    MeteoraDammV2CreatePositionEvent.signature := EventPosition.signature event_position;
    MeteoraDammV2CreatePositionEvent.timestamp := EventPosition.timestamp event_position;
    MeteoraDammV2CreatePositionEvent.slot := EventPosition.slot event_position;
    MeteoraDammV2CreatePositionEvent.transaction_index := EventPosition.transaction_index event_position;
    MeteoraDammV2CreatePositionEvent.event_index := EventPosition.event_index event_position;
    MeteoraDammV2CreatePositionEvent.owner := EvtCreatePosition.owner wire;
    MeteoraDammV2CreatePositionEvent.position := EvtCreatePosition.position wire;
    MeteoraDammV2CreatePositionEvent.position_nft_mint := EvtCreatePosition.position_nft_mint wire;
  |}.

Definition translate_fund_reward (wire : EvtFundReward.t) (event_position : EventPosition.t) :
    MeteoraDammV2FundRewardEvent.t :=
  {|
    MeteoraDammV2FundRewardEvent.pool_address := EvtFundReward.pool wire;
    MeteoraDammV2FundRewardEvent.signature := EventPosition.signature event_position;
    MeteoraDammV2FundRewardEvent.timestamp := EventPosition.timestamp event_position;
    MeteoraDammV2FundRewardEvent.slot := EventPosition.slot event_position;
    MeteoraDammV2FundRewardEvent.transaction_index := EventPosition.transaction_index event_position;
    MeteoraDammV2FundRewardEvent.event_index := EventPosition.event_index event_position;
    MeteoraDammV2FundRewardEvent.funder := EvtFundReward.funder wire;
    MeteoraDammV2FundRewardEvent.mint_reward := EvtFundReward.mint_reward wire;
    MeteoraDammV2FundRewardEvent.reward_index := EvtFundReward.reward_index wire;
    MeteoraDammV2FundRewardEvent.amount := EvtFundReward.amount wire;
    MeteoraDammV2FundRewardEvent.transfer_fee_excluded_amount_in := EvtFundReward.transfer_fee_excluded_amount_in wire;
    MeteoraDammV2FundRewardEvent.reward_duration_end := EvtFundReward.reward_duration_end wire;
    MeteoraDammV2FundRewardEvent.pre_reward_rate := EvtFundReward.pre_reward_rate wire;
    MeteoraDammV2FundRewardEvent.post_reward_rate := EvtFundReward.post_reward_rate wire;
  |}.

Definition translate_initialize_pool `{Borsh} (wire : EvtInitializePool.t) (event_position : EventPosition.t) :
    MeteoraDammV2InitializePoolEvent.t :=
  let pool_fees_raw := PoolFeeParameters.to_vec (EvtInitializePool.pool_fees wire) in
  {|
    MeteoraDammV2InitializePoolEvent.pool_address := EvtInitializePool.pool wire;
    MeteoraDammV2InitializePoolEvent.signature := EventPosition.signature event_position;
    MeteoraDammV2InitializePoolEvent.timestamp := EventPosition.timestamp event_position;
    MeteoraDammV2InitializePoolEvent.slot := EventPosition.slot event_position;
    MeteoraDammV2InitializePoolEvent.transaction_index := EventPosition.transaction_index event_position;
    MeteoraDammV2InitializePoolEvent.event_index := EventPosition.event_index event_position;
    MeteoraDammV2InitializePoolEvent.token_a_mint := EvtInitializePool.token_a_mint wire;
    MeteoraDammV2InitializePoolEvent.token_b_mint := EvtInitializePool.token_b_mint wire;
    MeteoraDammV2InitializePoolEvent.creator := EvtInitializePool.creator wire;
    MeteoraDammV2InitializePoolEvent.payer := EvtInitializePool.payer wire;
    MeteoraDammV2InitializePoolEvent.alpha_vault := EvtInitializePool.alpha_vault wire;
    MeteoraDammV2InitializePoolEvent.sqrt_min_price := EvtInitializePool.sqrt_min_price wire;
    MeteoraDammV2InitializePoolEvent.sqrt_max_price := EvtInitializePool.sqrt_max_price wire;
    MeteoraDammV2InitializePoolEvent.sqrt_price := EvtInitializePool.sqrt_price wire;
    MeteoraDammV2InitializePoolEvent.liquidity := EvtInitializePool.liquidity wire;
    MeteoraDammV2InitializePoolEvent.activation_type := EvtInitializePool.activation_type wire;
    MeteoraDammV2InitializePoolEvent.activation_point := EvtInitializePool.activation_point wire;
    MeteoraDammV2InitializePoolEvent.collect_fee_mode := EvtInitializePool.collect_fee_mode wire;
    MeteoraDammV2InitializePoolEvent.pool_type := EvtInitializePool.pool_type wire;
    MeteoraDammV2InitializePoolEvent.token_a_flag := EvtInitializePool.token_a_flag wire;
    MeteoraDammV2InitializePoolEvent.token_b_flag := EvtInitializePool.token_b_flag wire;
    MeteoraDammV2InitializePoolEvent.token_a_amount := EvtInitializePool.token_a_amount wire;
    MeteoraDammV2InitializePoolEvent.token_b_amount := EvtInitializePool.token_b_amount wire;
    MeteoraDammV2InitializePoolEvent.total_amount_a := EvtInitializePool.total_amount_a wire;
    MeteoraDammV2InitializePoolEvent.total_amount_b := EvtInitializePool.total_amount_b wire;
    MeteoraDammV2InitializePoolEvent.pool_fees_raw := pool_fees_raw;
  |}.

Definition translate_initialize_reward (wire : EvtInitializeReward.t) (event_position : EventPosition.t) :
    MeteoraDammV2InitializeRewardEvent.t :=
  {|
    MeteoraDammV2InitializeRewardEvent.pool_address := EvtInitializeReward.pool wire;
    MeteoraDammV2InitializeRewardEvent.signature := EventPosition.signature event_position;
    MeteoraDammV2InitializeRewardEvent.timestamp := EventPosition.timestamp event_position;
    MeteoraDammV2InitializeRewardEvent.slot := EventPosition.slot event_position;
    MeteoraDammV2InitializeRewardEvent.transaction_index := EventPosition.transaction_index event_position;
    MeteoraDammV2InitializeRewardEvent.event_index := EventPosition.event_index event_position;
    MeteoraDammV2InitializeRewardEvent.reward_mint := EvtInitializeReward.reward_mint wire;
    MeteoraDammV2InitializeRewardEvent.funder := EvtInitializeReward.funder wire;
    MeteoraDammV2InitializeRewardEvent.creator := EvtInitializeReward.creator wire;
    MeteoraDammV2InitializeRewardEvent.reward_index := EvtInitializeReward.reward_index wire;
    MeteoraDammV2InitializeRewardEvent.reward_duration := EvtInitializeReward.reward_duration wire;
  |}.

Definition translate_lock_position (wire : EvtLockPosition.t) (event_position : EventPosition.t) :
    MeteoraDammV2LockPositionEvent.t :=
  {|
    MeteoraDammV2LockPositionEvent.pool_address := EvtLockPosition.pool wire;
    MeteoraDammV2LockPositionEvent.signature := EventPosition.signature event_position;
    MeteoraDammV2LockPositionEvent.timestamp := EventPosition.timestamp event_position;
    MeteoraDammV2LockPositionEvent.slot := EventPosition.slot event_position;
    MeteoraDammV2LockPositionEvent.transaction_index := EventPosition.transaction_index event_position;
    MeteoraDammV2LockPositionEvent.event_index := EventPosition.event_index event_position;
    MeteoraDammV2LockPositionEvent.position := EvtLockPosition.position wire;
    MeteoraDammV2LockPositionEvent.owner := EvtLockPosition.owner wire;
    MeteoraDammV2LockPositionEvent.vesting := EvtLockPosition.vesting wire;
    MeteoraDammV2LockPositionEvent.cliff_point := EvtLockPosition.cliff_point wire;
    MeteoraDammV2LockPositionEvent.period_frequency := EvtLockPosition.period_frequency wire;
    MeteoraDammV2LockPositionEvent.cliff_unlock_liquidity := EvtLockPosition.cliff_unlock_liquidity wire;
    MeteoraDammV2LockPositionEvent.liquidity_per_period := EvtLockPosition.liquidity_per_period wire;
    MeteoraDammV2LockPositionEvent.number_of_period := EvtLockPosition.number_of_period wire;
  |}.

Definition translate_permanent_lock_position (wire : EvtPermanentLockPosition.t) (event_position : EventPosition.t) :
    MeteoraDammV2PermanentLockPositionEvent.t :=
  {|
    MeteoraDammV2PermanentLockPositionEvent.pool_address := EvtPermanentLockPosition.pool wire;
    MeteoraDammV2PermanentLockPositionEvent.signature := EventPosition.signature event_position;
    MeteoraDammV2PermanentLockPositionEvent.timestamp := EventPosition.timestamp event_position;
    MeteoraDammV2PermanentLockPositionEvent.slot := EventPosition.slot event_position;
    MeteoraDammV2PermanentLockPositionEvent.transaction_index := EventPosition.transaction_index event_position;
    MeteoraDammV2PermanentLockPositionEvent.event_index := EventPosition.event_index event_position;
    MeteoraDammV2PermanentLockPositionEvent.position := EvtPermanentLockPosition.position wire;
    MeteoraDammV2PermanentLockPositionEvent.lock_liquidity_amount := EvtPermanentLockPosition.lock_liquidity_amount wire;
    MeteoraDammV2PermanentLockPositionEvent.total_permanent_locked_liquidity := EvtPermanentLockPosition.total_permanent_locked_liquidity wire;
  |}.

Definition translate_set_pool_status (wire : EvtSetPoolStatus.t) (event_position : EventPosition.t) :
    MeteoraDammV2SetPoolStatusEvent.t :=
  {|
    MeteoraDammV2SetPoolStatusEvent.pool_address := EvtSetPoolStatus.pool wire;
    MeteoraDammV2SetPoolStatusEvent.signature := EventPosition.signature event_position;
    MeteoraDammV2SetPoolStatusEvent.timestamp := EventPosition.timestamp event_position;
    MeteoraDammV2SetPoolStatusEvent.slot := EventPosition.slot event_position;
    MeteoraDammV2SetPoolStatusEvent.transaction_index := EventPosition.transaction_index event_position;
    MeteoraDammV2SetPoolStatusEvent.event_index := EventPosition.event_index event_position;
    MeteoraDammV2SetPoolStatusEvent.status := EvtSetPoolStatus.status wire;
  |}.

Definition translate_update_pool_fees (wire : EvtUpdatePoolFees.t) (event_position : EventPosition.t) :
    MeteoraDammV2UpdatePoolFeesEvent.t :=
  {|
    MeteoraDammV2UpdatePoolFeesEvent.pool_address := EvtUpdatePoolFees.pool wire;
    MeteoraDammV2UpdatePoolFeesEvent.signature := EventPosition.signature event_position;
    MeteoraDammV2UpdatePoolFeesEvent.timestamp := EventPosition.timestamp event_position;
    MeteoraDammV2UpdatePoolFeesEvent.slot := EventPosition.slot event_position;
    MeteoraDammV2UpdatePoolFeesEvent.transaction_index := EventPosition.transaction_index event_position;
    MeteoraDammV2UpdatePoolFeesEvent.event_index := EventPosition.event_index event_position;
    MeteoraDammV2UpdatePoolFeesEvent.operator := EvtUpdatePoolFees.operator wire;
    MeteoraDammV2UpdatePoolFeesEvent.params_raw := EvtUpdatePoolFees.params_raw wire;
  |}.

Definition translate_update_reward_duration (wire : EvtUpdateRewardDuration.t) (event_position : EventPosition.t) :
    MeteoraDammV2UpdateRewardDurationEvent.t :=
  {|
    MeteoraDammV2UpdateRewardDurationEvent.pool_address := EvtUpdateRewardDuration.pool wire;
    MeteoraDammV2UpdateRewardDurationEvent.signature := EventPosition.signature event_position;
    MeteoraDammV2UpdateRewardDurationEvent.timestamp := EventPosition.timestamp event_position;
    MeteoraDammV2UpdateRewardDurationEvent.slot := EventPosition.slot event_position;
    MeteoraDammV2UpdateRewardDurationEvent.transaction_index := EventPosition.transaction_index event_position;
    MeteoraDammV2UpdateRewardDurationEvent.event_index := EventPosition.event_index event_position;
    MeteoraDammV2UpdateRewardDurationEvent.reward_index := EvtUpdateRewardDuration.reward_index wire;
    MeteoraDammV2UpdateRewardDurationEvent.old_reward_duration := EvtUpdateRewardDuration.old_reward_duration wire;
    MeteoraDammV2UpdateRewardDurationEvent.new_reward_duration := EvtUpdateRewardDuration.new_reward_duration wire;
  |}.

Definition translate_update_reward_funder (wire : EvtUpdateRewardFunder.t) (event_position : EventPosition.t) :
    MeteoraDammV2UpdateRewardFunderEvent.t :=
  {|
    MeteoraDammV2UpdateRewardFunderEvent.pool_address := EvtUpdateRewardFunder.pool wire;
    MeteoraDammV2UpdateRewardFunderEvent.signature := EventPosition.signature event_position;
    MeteoraDammV2UpdateRewardFunderEvent.timestamp := EventPosition.timestamp event_position;
    MeteoraDammV2UpdateRewardFunderEvent.slot := EventPosition.slot event_position;
    MeteoraDammV2UpdateRewardFunderEvent.transaction_index := EventPosition.transaction_index event_position;
    MeteoraDammV2UpdateRewardFunderEvent.event_index := EventPosition.event_index event_position;
    MeteoraDammV2UpdateRewardFunderEvent.reward_index := EvtUpdateRewardFunder.reward_index wire;
    MeteoraDammV2UpdateRewardFunderEvent.old_funder := EvtUpdateRewardFunder.old_funder wire;
    MeteoraDammV2UpdateRewardFunderEvent.new_funder := EvtUpdateRewardFunder.new_funder wire;
  |}.

Definition translate_withdraw_dead_liquidity_reward (wire : EvtWithdrawDeadLiquidityReward.t) (event_position : EventPosition.t) :
    MeteoraDammV2WithdrawDeadLiquidityRewardEvent.t :=
  {|
    MeteoraDammV2WithdrawDeadLiquidityRewardEvent.pool_address := EvtWithdrawDeadLiquidityReward.pool wire;
    MeteoraDammV2WithdrawDeadLiquidityRewardEvent.signature := EventPosition.signature event_position;
    MeteoraDammV2WithdrawDeadLiquidityRewardEvent.timestamp := EventPosition.timestamp event_position;
    MeteoraDammV2WithdrawDeadLiquidityRewardEvent.slot := EventPosition.slot event_position;
    MeteoraDammV2WithdrawDeadLiquidityRewardEvent.transaction_index := EventPosition.transaction_index event_position;
    MeteoraDammV2WithdrawDeadLiquidityRewardEvent.event_index := EventPosition.event_index event_position;
    MeteoraDammV2WithdrawDeadLiquidityRewardEvent.reward_mint := EvtWithdrawDeadLiquidityReward.reward_mint wire;
    MeteoraDammV2WithdrawDeadLiquidityRewardEvent.amount := EvtWithdrawDeadLiquidityReward.amount wire;
  |}.

Definition translate_withdraw_ineligible_reward (wire : EvtWithdrawIneligibleReward.t) (event_position : EventPosition.t) :
    MeteoraDammV2WithdrawIneligibleRewardEvent.t :=
  {|
    MeteoraDammV2WithdrawIneligibleRewardEvent.pool_address := EvtWithdrawIneligibleReward.pool wire;
    MeteoraDammV2WithdrawIneligibleRewardEvent.signature := EventPosition.signature event_position;
    MeteoraDammV2WithdrawIneligibleRewardEvent.timestamp := EventPosition.timestamp event_position;
    MeteoraDammV2WithdrawIneligibleRewardEvent.slot := EventPosition.slot event_position;
    MeteoraDammV2WithdrawIneligibleRewardEvent.transaction_index := EventPosition.transaction_index event_position;
    MeteoraDammV2WithdrawIneligibleRewardEvent.event_index := EventPosition.event_index event_position;
    MeteoraDammV2WithdrawIneligibleRewardEvent.reward_mint := EvtWithdrawIneligibleReward.reward_mint wire;
    MeteoraDammV2WithdrawIneligibleRewardEvent.amount := EvtWithdrawIneligibleReward.amount wire;
  |}.

Definition translate_liquidity (wire : EvtLiquidityChange.t) (event_position : EventPosition.t) :
    result MeteoraDammV2LiquidityEvent.t TranslationError :=
  let? liquidity_event_kind :=
    map_err (fun raw => InvalidEnum "change_type" raw)
      (LiquidityEventKind_from_u8 (EvtLiquidityChange.change_type wire)) in
  Ok {|
    MeteoraDammV2LiquidityEvent.pool_address := EvtLiquidityChange.pool wire;
    MeteoraDammV2LiquidityEvent.signature := EventPosition.signature event_position;
    MeteoraDammV2LiquidityEvent.timestamp := EventPosition.timestamp event_position;
    MeteoraDammV2LiquidityEvent.slot := EventPosition.slot event_position;
    MeteoraDammV2LiquidityEvent.transaction_index := EventPosition.transaction_index event_position;
    MeteoraDammV2LiquidityEvent.event_index := EventPosition.event_index event_position;
    MeteoraDammV2LiquidityEvent.liquidity_event_kind := liquidity_event_kind;
    MeteoraDammV2LiquidityEvent.amount_a := EvtLiquidityChange.token_a_amount wire;
    MeteoraDammV2LiquidityEvent.amount_b := EvtLiquidityChange.token_b_amount wire;
    MeteoraDammV2LiquidityEvent.liquidity_delta := EvtLiquidityChange.liquidity_delta wire;
    MeteoraDammV2LiquidityEvent.reserve_a_after := EvtLiquidityChange.reserve_a_amount wire;
    MeteoraDammV2LiquidityEvent.reserve_b_after := EvtLiquidityChange.reserve_b_amount wire;
    MeteoraDammV2LiquidityEvent.position := EvtLiquidityChange.position wire;
    MeteoraDammV2LiquidityEvent.owner := EvtLiquidityChange.owner wire;
  |}.

Definition translate_split_position (wire : EvtSplitPosition3.t) (event_position : EventPosition.t) :
    MeteoraDammV2SplitPositionEvent.t :=
  let state (i : SplitPositionInfo2.t) := {|
    MeteoraDammV2SplitPositionState.unlocked_liquidity := SplitPositionInfo2.unlocked_liquidity i;
    MeteoraDammV2SplitPositionState.permanent_locked_liquidity := SplitPositionInfo2.permanent_locked_liquidity i;
    MeteoraDammV2SplitPositionState.vested_liquidity := SplitPositionInfo2.vested_liquidity i;
    MeteoraDammV2SplitPositionState.fee_a := SplitPositionInfo2.fee_a i;
    MeteoraDammV2SplitPositionState.fee_b := SplitPositionInfo2.fee_b i;
    MeteoraDammV2SplitPositionState.reward_0 := SplitPositionInfo2.reward_0 i;
    MeteoraDammV2SplitPositionState.reward_1 := SplitPositionInfo2.reward_1 i;
  |} in
  let a := EvtSplitPosition3.amount_splits wire in
  let p := EvtSplitPosition3.split_position_parameters wire in
  {|
    MeteoraDammV2SplitPositionEvent.pool_address := EvtSplitPosition3.pool wire;
    MeteoraDammV2SplitPositionEvent.signature := EventPosition.signature event_position;
    MeteoraDammV2SplitPositionEvent.timestamp := EventPosition.timestamp event_position;
    MeteoraDammV2SplitPositionEvent.slot := EventPosition.slot event_position;
    MeteoraDammV2SplitPositionEvent.transaction_index := EventPosition.transaction_index event_position;
    MeteoraDammV2SplitPositionEvent.event_index := EventPosition.event_index event_position;
    MeteoraDammV2SplitPositionEvent.first_owner := EvtSplitPosition3.first_owner wire;
    MeteoraDammV2SplitPositionEvent.second_owner := EvtSplitPosition3.second_owner wire;
    MeteoraDammV2SplitPositionEvent.first_position := EvtSplitPosition3.first_position wire;
    MeteoraDammV2SplitPositionEvent.second_position := EvtSplitPosition3.second_position wire;
    MeteoraDammV2SplitPositionEvent.current_sqrt_price := EvtSplitPosition3.current_sqrt_price wire;
    MeteoraDammV2SplitPositionEvent.amounts := {|
      MeteoraDammV2SplitAmounts.permanent_locked_liquidity := SplitAmountInfo2.permanent_locked_liquidity a;
      MeteoraDammV2SplitAmounts.unlocked_liquidity := SplitAmountInfo2.unlocked_liquidity a;
      MeteoraDammV2SplitAmounts.vested_liquidity := SplitAmountInfo2.vested_liquidity a;
      MeteoraDammV2SplitAmounts.fee_a := SplitAmountInfo2.fee_a a;
      MeteoraDammV2SplitAmounts.fee_b := SplitAmountInfo2.fee_b a;
      MeteoraDammV2SplitAmounts.reward_0 := SplitAmountInfo2.reward_0 a;
      MeteoraDammV2SplitAmounts.reward_1 := SplitAmountInfo2.reward_1 a;
    |};
    MeteoraDammV2SplitPositionEvent.first_position_after := state (EvtSplitPosition3.first_position_info wire);
    MeteoraDammV2SplitPositionEvent.second_position_after := state (EvtSplitPosition3.second_position_info wire);
    MeteoraDammV2SplitPositionEvent.numerators := {|
      MeteoraDammV2SplitNumerators.unlocked_liquidity := SplitPositionParameters3.unlocked_liquidity_numerator p;
      MeteoraDammV2SplitNumerators.permanent_locked_liquidity := SplitPositionParameters3.permanent_locked_liquidity_numerator p;
      MeteoraDammV2SplitNumerators.fee_a := SplitPositionParameters3.fee_a_numerator p;
      MeteoraDammV2SplitNumerators.fee_b := SplitPositionParameters3.fee_b_numerator p;
      MeteoraDammV2SplitNumerators.reward_0 := SplitPositionParameters3.reward_0_numerator p;
      MeteoraDammV2SplitNumerators.reward_1 := SplitPositionParameters3.reward_1_numerator p;
      MeteoraDammV2SplitNumerators.inner_vesting_liquidity := SplitPositionParameters3.inner_vesting_liquidity_numerator p;
    |};
  |}.

(** 0 [BothToken]: the fee is on the output token; 1 [OnlyB] and 2
    [Compounding]: always on B. *)
Definition compute_fee_token_is_a (collect_fee_mode : Z) (trade_direction : TradeDirection) :
    result bool Z :=
  if collect_fee_mode =? 0 then
    match trade_direction with
    | AtoB => Ok false
    | BtoA => Ok true
    end
  else if collect_fee_mode =? 1 then Ok false
  else if collect_fee_mode =? 2 then Ok false
  else Err collect_fee_mode.

Definition translate_swap (wire : EvtSwap2.t) (event_position : EventPosition.t) :
    result MeteoraDammV2SwapEvent.t TranslationError :=
  let? trade_direction :=
    map_err (fun raw => InvalidEnum "trade_direction" raw)
      (TradeDirection_from_u8 (EvtSwap2.trade_direction wire)) in
  let? fee_token_is_a :=
    map_err (fun raw => InvalidEnum "collect_fee_mode" raw)
      (compute_fee_token_is_a (EvtSwap2.collect_fee_mode wire) trade_direction) in
  let (amount_a, amount_b) :=
    match trade_direction with
    | AtoB => (EvtSwap2.included_transfer_fee_amount_in wire,
               EvtSwap2.included_transfer_fee_amount_out wire)
    | BtoA => (EvtSwap2.included_transfer_fee_amount_out wire,
               EvtSwap2.included_transfer_fee_amount_in wire)
    end in
  Ok {|
    MeteoraDammV2SwapEvent.pool_address := EvtSwap2.pool wire;
    MeteoraDammV2SwapEvent.signature := EventPosition.signature event_position;
    MeteoraDammV2SwapEvent.timestamp := EventPosition.timestamp event_position;
    MeteoraDammV2SwapEvent.slot := EventPosition.slot event_position;
    MeteoraDammV2SwapEvent.transaction_index := EventPosition.transaction_index event_position;
    MeteoraDammV2SwapEvent.event_index := EventPosition.event_index event_position;
    MeteoraDammV2SwapEvent.trade_direction := trade_direction;
    MeteoraDammV2SwapEvent.amount_a := amount_a;
    MeteoraDammV2SwapEvent.amount_b := amount_b;
    MeteoraDammV2SwapEvent.reserve_a_after := EvtSwap2.reserve_a_amount wire;
    MeteoraDammV2SwapEvent.reserve_b_after := EvtSwap2.reserve_b_amount wire;
    MeteoraDammV2SwapEvent.next_sqrt_price := SwapResult2.next_sqrt_price (EvtSwap2.swap_result wire);
    MeteoraDammV2SwapEvent.claiming_fee := SwapResult2.claiming_fee (EvtSwap2.swap_result wire);
    MeteoraDammV2SwapEvent.protocol_fee := SwapResult2.protocol_fee (EvtSwap2.swap_result wire);
    MeteoraDammV2SwapEvent.compounding_fee := SwapResult2.compounding_fee (EvtSwap2.swap_result wire);
    MeteoraDammV2SwapEvent.referral_fee := SwapResult2.referral_fee (EvtSwap2.swap_result wire);
    MeteoraDammV2SwapEvent.fee_token_is_a := fee_token_is_a;
  |}.

(** ** [translator.rs] *)

Definition translate_wire_event `{Borsh} (wire : DammV2WireEvent)
    (event_position : EventPosition.t) : result DomainEvent.t TranslationError :=
  let? damm_v2_event :=
    match wire with
    | Swap2 e => result_map MeteoraDammV2Event.Swap (translate_swap e event_position)
    | LiquidityChange e => result_map MeteoraDammV2Event.Liquidity (translate_liquidity e event_position)
    | ClaimPositionFee e => Ok (MeteoraDammV2Event.ClaimPositionFee (translate_claim_position_fee e event_position))
    | ClaimReward e => Ok (MeteoraDammV2Event.ClaimReward (translate_claim_reward e event_position))
    | ClaimProtocolFee e => Ok (MeteoraDammV2Event.ClaimProtocolFee (translate_claim_protocol_fee e event_position))
    | InitializeReward e => Ok (MeteoraDammV2Event.InitializeReward (translate_initialize_reward e event_position))
    | FundReward e => Ok (MeteoraDammV2Event.FundReward (translate_fund_reward e event_position))
    | WithdrawIneligibleReward e => Ok (MeteoraDammV2Event.WithdrawIneligibleReward (translate_withdraw_ineligible_reward e event_position))
    | UpdateRewardDuration e => Ok (MeteoraDammV2Event.UpdateRewardDuration (translate_update_reward_duration e event_position))
    | UpdateRewardFunder e => Ok (MeteoraDammV2Event.UpdateRewardFunder (translate_update_reward_funder e event_position))
    | WithdrawDeadLiquidityReward e => Ok (MeteoraDammV2Event.WithdrawDeadLiquidityReward (translate_withdraw_dead_liquidity_reward e event_position))
    | SplitPosition3 e => Ok (MeteoraDammV2Event.SplitPosition (translate_split_position e event_position))
    | CreatePosition e => Ok (MeteoraDammV2Event.CreatePosition (translate_create_position e event_position))
    | ClosePosition e => Ok (MeteoraDammV2Event.ClosePosition (translate_close_position e event_position))
    | LockPosition e => Ok (MeteoraDammV2Event.LockPosition (translate_lock_position e event_position))
    | PermanentLockPosition e => Ok (MeteoraDammV2Event.PermanentLockPosition (translate_permanent_lock_position e event_position))
    | InitializePool e => Ok (MeteoraDammV2Event.InitializePool (translate_initialize_pool e event_position))
    | SetPoolStatus e => Ok (MeteoraDammV2Event.SetPoolStatus (translate_set_pool_status e event_position))
    | UpdatePoolFees e => Ok (MeteoraDammV2Event.UpdatePoolFees (translate_update_pool_fees e event_position))
    end in
  Ok (DomainEvent.MeteoraDammV2 damm_v2_event).
