(* ===== verification/Extraction.v ===== *)
(** * The extractors and their dispatcher

    [src/crates/core/src/application/extraction/]: outcome.rs, meteora/damm_v2.rs,
    meteora/dlmm.rs, event_extractor.rs (the class [EventExtractor]) and
    extraction_dispatcher.rs. *)

From S2P Require Import Prelude Errors External Domain WireEvents Extractor Translator.

(** ** [outcome.rs] *)

Module UnknownEventInfo.
Record t : Type := mk {
  protocol : Protocol;
  discriminator : list Z;
}.

Definition program_id `{Base58} (u : t) : Pubkey := Domain.program_id (protocol u).
End UnknownEventInfo.

Inductive ExtractionFailure : Type :=
| FailedAnchorDecode (reason : string)
| FailedBorsh (event_name reason : string)
| FailedTranslation (event_name reason : string)
| FailedEventIndexOverflow (index : Z).

Module ExtractionOutcome.
Record t : Type := mk {
  events : list DomainEvent.t;
  unknown : list UnknownEventInfo.t;
  failures : list ExtractionFailure;
}.

Definition default : t := mk [] [] [].
Definition push_event (out : t) (e : DomainEvent.t) : t :=
  mk (events out ++ [e]) (unknown out) (failures out).
Definition push_unknown (out : t) (u : UnknownEventInfo.t) : t :=
  mk (events out) (unknown out ++ [u]) (failures out).
Definition push_failure (out : t) (f : ExtractionFailure) : t :=
  mk (events out) (unknown out) (failures out ++ [f]).
End ExtractionOutcome.

Definition hex_digit (n : Z) : string :=
  String.substring (Z.to_nat n) 1 "0123456789abcdef".

(** [{:02x}] of every byte. *)
Definition discriminator_hex (disc : list Z) : string :=
  foldl (fun s b => String.append s (String.append (hex_digit (b / 16)) (hex_digit (b mod 16))))
    ""%string disc.

(** ** [event_extractor.rs] *)

Class EventExtractor : Type := {
  extractor_program_id : Pubkey;
  extractor_events : OnChainTransaction.t -> CoreResult ExtractionOutcome.t;
  is_implemented : bool;
}.

(** ** [meteora/damm_v2.rs] *)

Definition nat_string (n : Z) : string := pretty.pretty n.

(** The [Display] of the errors, from their [#[error]] attributes. *)
Definition AnchorDecodeError_to_string (e : AnchorDecodeError) : string :=
  match e with
  | InvalidBase58 reason => String.append "invalid base58 in instruction data: " reason
  | PayloadTooShort min got =>
      String.append "payload too short: expected at least "
        (String.append (nat_string min) (String.append " bytes, got " (nat_string got)))
  | NotAnAnchorEvent => "not an Anchor event_cpi instruction: tag mismatch"
  end.

Definition TranslationError_to_string (e : TranslationError) : string :=
  match e with
  | InvalidEnum field value =>
      String.append "invalid " (String.append field (String.append " value: " (nat_string value)))
  end.

Definition wire_event_name (wire : DammV2WireEvent) : string :=
  match wire with
  | Swap2 _ => "EvtSwap2"
  | LiquidityChange _ => "EvtLiquidityChange"
  | ClaimPositionFee _ => "EvtClaimPositionFee"
  | ClaimReward _ => "EvtClaimReward"
  | ClaimProtocolFee _ => "EvtClaimProtocolFee"
  | InitializeReward _ => "EvtInitializeReward"
  | FundReward _ => "EvtFundReward"
  | WithdrawIneligibleReward _ => "EvtWithdrawIneligibleReward"
  | UpdateRewardDuration _ => "EvtUpdateRewardDuration"
  | UpdateRewardFunder _ => "EvtUpdateRewardFunder"
  | WithdrawDeadLiquidityReward _ => "EvtWithdrawDeadLiquidityReward"
  | SplitPosition3 _ => "EvtSplitPosition3"
  | CreatePosition _ => "EvtCreatePosition"
  | ClosePosition _ => "EvtClosePosition"
  | LockPosition _ => "EvtLockPosition"
  | PermanentLockPosition _ => "EvtPermanentLockPosition"
  | InitializePool _ => "EvtInitializePool"
  | SetPoolStatus _ => "EvtSetPoolStatus"
  | UpdatePoolFees _ => "EvtUpdatePoolFees"
  end.

Definition map_extractor_failure (failure : ExtractFailure) : ExtractionFailure :=
  match failure with
  | AnchorDecode source => FailedAnchorDecode (AnchorDecodeError_to_string source)
  | Borsh_ event_name _ reason => FailedBorsh event_name reason
  | EventIndexOverflow index => FailedEventIndexOverflow index
  end.

Section DammV2.
Context `{Borsh} `{Sha256} `{Base58}.

(** One turn of the loop over the wire events. *)
Definition translate_step (transaction_position : TransactionPosition.t)
    (outcome : ExtractionOutcome.t) (indexed : IndexedWireEvent.t) : ExtractionOutcome.t :=
  let event_position :=
    TransactionPosition.at_index transaction_position (IndexedWireEvent.event_index indexed) in
  match translate_wire_event (IndexedWireEvent.event indexed) event_position with
  | Ok domain => ExtractionOutcome.push_event outcome domain
  | Err e =>
      ExtractionOutcome.push_failure outcome
        (FailedTranslation (wire_event_name (IndexedWireEvent.event indexed))
          (TranslationError_to_string e))
  end.

Definition translate_extracted_events (wire_outcome : ExtractedEvents.t) (protocol : Protocol)
    (transaction_position : TransactionPosition.t) : CoreResult ExtractionOutcome.t :=
  let outcome := ExtractionOutcome.default in
  let outcome := foldl (fun out discriminator =>
      ExtractionOutcome.push_unknown out (UnknownEventInfo.mk protocol discriminator))
    outcome (ExtractedEvents.unknown wire_outcome) in
  let outcome := foldl (fun out failure =>
      ExtractionOutcome.push_failure out (map_extractor_failure failure))
    outcome (ExtractedEvents.failures wire_outcome) in
  Ok (foldl (translate_step transaction_position) outcome (ExtractedEvents.events wire_outcome)).

Definition damm_v2_extract_events (tx : OnChainTransaction.t) : CoreResult ExtractionOutcome.t :=
  let wire_outcome := extract_wire_events tx (program_id MeteoraDammV2) in
  translate_extracted_events wire_outcome MeteoraDammV2 (OnChainTransaction.position tx).

#[global] Instance damm_v2_extractor : EventExtractor | 10 := {
  extractor_program_id := program_id MeteoraDammV2;
  extractor_events := damm_v2_extract_events;
  is_implemented := true;
}.

(** ** [meteora/dlmm.rs]: a stub *)

Definition dlmm_extract_events (_tx : OnChainTransaction.t) : CoreResult ExtractionOutcome.t :=
  Ok ExtractionOutcome.default.

#[global] Instance dlmm_extractor : EventExtractor | 20 := {
  extractor_program_id := program_id MeteoraDlmm;
  extractor_events := dlmm_extract_events;
  is_implemented := false;
}.

(** ** [extraction_dispatcher.rs] *)

(** The extractor of a protocol, the [match] of [extract]. *)
Definition extractor_of (p : Protocol) : EventExtractor :=
  match p with
  | MeteoraDammV2 => damm_v2_extractor
  | MeteoraDlmm => dlmm_extractor
  end.

Definition extract (protocol : Protocol) (tx : OnChainTransaction.t) :
    CoreResult ExtractionOutcome.t :=
  @extractor_events (extractor_of protocol) tx.

Definition implemented_protocols : list Protocol :=
  List.filter (fun p => @is_implemented (extractor_of p)) all_protocols.
End DammV2.
