(* ===== verification/WireRoundTrip.v ===== *)
(** * Wire events round trip

    The readers of [WireEvents.v] invert the borsh image of every event, and the
    dispatch of [Extractor.v] finds each event by its discriminator. *)


From S2P Require Import Prelude Errors External Domain WireEvents Extractor Translator Extraction.

(** ** Readers invert writers, struct by struct *)

Ltac width :=
  match goal with H : is_uint _ ?z |- is_uint _ ?z => exact H end.

(** Reads back the fields of a struct one after the other. *)
Ltac solve_read_write :=
  intros; rewrite <- ?app_assoc; cbn [result_bind];
  repeat (first
    [ rewrite read_uint_write by width
    | rewrite read_pubkey_write by assumption
    | rewrite read_array_write by assumption
    | rewrite read_bool_write ]; cbn [result_bind]).

Section ReadWrite.
Context `{BorshLaws}.

Lemma EvtClaimPositionFee_read_write (e : EvtClaimPositionFee.t) rest :
  EvtClaimPositionFee.wf e -> EvtClaimPositionFee.read (EvtClaimPositionFee.write e ++ rest) = Ok (e, rest).
Proof.
  unfold EvtClaimPositionFee.wf, EvtClaimPositionFee.write, EvtClaimPositionFee.read. intros (? & ? & ? & ? & ?).
  solve_read_write.
  by destruct e.
Qed.

Lemma EvtClaimProtocolFee_read_write (e : EvtClaimProtocolFee.t) rest :
  EvtClaimProtocolFee.wf e -> EvtClaimProtocolFee.read (EvtClaimProtocolFee.write e ++ rest) = Ok (e, rest).
Proof.
  unfold EvtClaimProtocolFee.wf, EvtClaimProtocolFee.write, EvtClaimProtocolFee.read. intros (? & ? & ?).
  solve_read_write.
  by destruct e.
Qed.

Lemma EvtClaimReward_read_write (e : EvtClaimReward.t) rest :
  EvtClaimReward.wf e -> EvtClaimReward.read (EvtClaimReward.write e ++ rest) = Ok (e, rest).
Proof.
  unfold EvtClaimReward.wf, EvtClaimReward.write, EvtClaimReward.read. intros (? & ? & ? & ? & ? & ?).
  solve_read_write.
  by destruct e.
Qed.

Lemma EvtClosePosition_read_write (e : EvtClosePosition.t) rest :
  EvtClosePosition.wf e -> EvtClosePosition.read (EvtClosePosition.write e ++ rest) = Ok (e, rest).
Proof.
  unfold EvtClosePosition.wf, EvtClosePosition.write, EvtClosePosition.read. intros (? & ? & ? & ?).
  solve_read_write.
  by destruct e.
Qed.

Lemma EvtCreatePosition_read_write (e : EvtCreatePosition.t) rest :
  EvtCreatePosition.wf e -> EvtCreatePosition.read (EvtCreatePosition.write e ++ rest) = Ok (e, rest).
Proof.
  unfold EvtCreatePosition.wf, EvtCreatePosition.write, EvtCreatePosition.read. intros (? & ? & ? & ?).
  solve_read_write.
  by destruct e.
Qed.

Lemma EvtFundReward_read_write (e : EvtFundReward.t) rest :
  EvtFundReward.wf e -> EvtFundReward.read (EvtFundReward.write e ++ rest) = Ok (e, rest).
Proof.
  unfold EvtFundReward.wf, EvtFundReward.write, EvtFundReward.read. intros (? & ? & ? & ? & ? & ? & ? & ? & ?).
  solve_read_write.
  by destruct e.
Qed.

Lemma BaseFeeParameters_read_write (e : BaseFeeParameters.t) rest :
  BaseFeeParameters.wf e -> BaseFeeParameters.read (BaseFeeParameters.write e ++ rest) = Ok (e, rest).
Proof.
  unfold BaseFeeParameters.wf, BaseFeeParameters.write, BaseFeeParameters.read. intros ?.
  solve_read_write.
  by destruct e.
Qed.

Lemma DynamicFeeParameters_read_write (e : DynamicFeeParameters.t) rest :
  DynamicFeeParameters.wf e -> DynamicFeeParameters.read (DynamicFeeParameters.write e ++ rest) = Ok (e, rest).
Proof.
  unfold DynamicFeeParameters.wf, DynamicFeeParameters.write, DynamicFeeParameters.read. intros (? & ? & ? & ? & ? & ? & ?).
  solve_read_write.
  by destruct e.
Qed.

Lemma PoolFeeParameters_read_write (e : PoolFeeParameters.t) rest :
  PoolFeeParameters.wf e -> PoolFeeParameters.read (PoolFeeParameters.write e ++ rest) = Ok (e, rest).
Proof.
  unfold PoolFeeParameters.wf, PoolFeeParameters.write, PoolFeeParameters.read. intros (? & ? & ? & ?).
  rewrite <- !app_assoc, BaseFeeParameters_read_write by done. cbn [result_bind].
  solve_read_write.
  rewrite read_option_write; [cbn [result_bind]; by destruct e|].
  intros d rest' Hd. apply DynamicFeeParameters_read_write. by rewrite Hd in *.
Qed.

Lemma EvtInitializePool_read_write (e : EvtInitializePool.t) rest :
  EvtInitializePool.wf e -> EvtInitializePool.read (EvtInitializePool.write e ++ rest) = Ok (e, rest).
Proof.
  unfold EvtInitializePool.wf, EvtInitializePool.write, EvtInitializePool.read. intros (? & ? & ? & ? & ? & ? & ? & ? & ? & ? & ? & ? & ? & ? & ? & ? & ? & ? & ? & ? & ?).
  solve_read_write.
  rewrite PoolFeeParameters_read_write by done. cbn [result_bind]. solve_read_write.
  by destruct e.
Qed.

Lemma EvtInitializeReward_read_write (e : EvtInitializeReward.t) rest :
  EvtInitializeReward.wf e -> EvtInitializeReward.read (EvtInitializeReward.write e ++ rest) = Ok (e, rest).
Proof.
  unfold EvtInitializeReward.wf, EvtInitializeReward.write, EvtInitializeReward.read. intros (? & ? & ? & ? & ? & ?).
  solve_read_write.
  by destruct e.
Qed.

Lemma EvtLiquidityChange_read_write (e : EvtLiquidityChange.t) rest :
  EvtLiquidityChange.wf e -> EvtLiquidityChange.read (EvtLiquidityChange.write e ++ rest) = Ok (e, rest).
Proof.
  unfold EvtLiquidityChange.wf, EvtLiquidityChange.write, EvtLiquidityChange.read. intros (? & ? & ? & ? & ? & ? & ? & ? & ? & ? & ? & ? & ?).
  solve_read_write.
  by destruct e.
Qed.

Lemma EvtLockPosition_read_write (e : EvtLockPosition.t) rest :
  EvtLockPosition.wf e -> EvtLockPosition.read (EvtLockPosition.write e ++ rest) = Ok (e, rest).
Proof.
  unfold EvtLockPosition.wf, EvtLockPosition.write, EvtLockPosition.read. intros (? & ? & ? & ? & ? & ? & ? & ? & ?).
  solve_read_write.
  by destruct e.
Qed.

Lemma EvtPermanentLockPosition_read_write (e : EvtPermanentLockPosition.t) rest :
  EvtPermanentLockPosition.wf e -> EvtPermanentLockPosition.read (EvtPermanentLockPosition.write e ++ rest) = Ok (e, rest).
Proof.
  unfold EvtPermanentLockPosition.wf, EvtPermanentLockPosition.write, EvtPermanentLockPosition.read. intros (? & ? & ? & ?).
  solve_read_write.
  by destruct e.
Qed.

Lemma EvtSetPoolStatus_read_write (e : EvtSetPoolStatus.t) rest :
  EvtSetPoolStatus.wf e -> EvtSetPoolStatus.read (EvtSetPoolStatus.write e ++ rest) = Ok (e, rest).
Proof.
  unfold EvtSetPoolStatus.wf, EvtSetPoolStatus.write, EvtSetPoolStatus.read. intros (? & ?).
  solve_read_write.
  by destruct e.
Qed.

Lemma SplitAmountInfo2_read_write (e : SplitAmountInfo2.t) rest :
  SplitAmountInfo2.wf e -> SplitAmountInfo2.read (SplitAmountInfo2.write e ++ rest) = Ok (e, rest).
Proof.
  unfold SplitAmountInfo2.wf, SplitAmountInfo2.write, SplitAmountInfo2.read. intros (? & ? & ? & ? & ? & ? & ?).
  solve_read_write.
  by destruct e.
Qed.

Lemma SplitPositionInfo2_read_write (e : SplitPositionInfo2.t) rest :
  SplitPositionInfo2.wf e -> SplitPositionInfo2.read (SplitPositionInfo2.write e ++ rest) = Ok (e, rest).
Proof.
  unfold SplitPositionInfo2.wf, SplitPositionInfo2.write, SplitPositionInfo2.read. intros (? & ? & ? & ? & ? & ? & ?).
  solve_read_write.
  by destruct e.
Qed.

Lemma SplitPositionParameters3_read_write (e : SplitPositionParameters3.t) rest :
  SplitPositionParameters3.wf e -> SplitPositionParameters3.read (SplitPositionParameters3.write e ++ rest) = Ok (e, rest).
Proof.
  unfold SplitPositionParameters3.wf, SplitPositionParameters3.write, SplitPositionParameters3.read. intros (? & ? & ? & ? & ? & ? & ?).
  solve_read_write.
  by destruct e.
Qed.

Lemma EvtSplitPosition3_read_write (e : EvtSplitPosition3.t) rest :
  EvtSplitPosition3.wf e -> EvtSplitPosition3.read (EvtSplitPosition3.write e ++ rest) = Ok (e, rest).
Proof.
  unfold EvtSplitPosition3.wf, EvtSplitPosition3.write, EvtSplitPosition3.read. intros (? & ? & ? & ? & ? & ? & ? & ? & ? & ?).
  solve_read_write.
  rewrite SplitAmountInfo2_read_write by done. cbn [result_bind]. solve_read_write.
  rewrite SplitPositionInfo2_read_write by done. cbn [result_bind]. solve_read_write.
  rewrite SplitPositionInfo2_read_write by done. cbn [result_bind]. solve_read_write.
  rewrite SplitPositionParameters3_read_write by done. cbn [result_bind]. solve_read_write.
  by destruct e.
Qed.

Lemma SwapParameters2_read_write (e : SwapParameters2.t) rest :
  SwapParameters2.wf e -> SwapParameters2.read (SwapParameters2.write e ++ rest) = Ok (e, rest).
Proof.
  unfold SwapParameters2.wf, SwapParameters2.write, SwapParameters2.read. intros (? & ? & ?).
  solve_read_write.
  by destruct e.
Qed.

Lemma SwapResult2_read_write (e : SwapResult2.t) rest :
  SwapResult2.wf e -> SwapResult2.read (SwapResult2.write e ++ rest) = Ok (e, rest).
Proof.
  unfold SwapResult2.wf, SwapResult2.write, SwapResult2.read. intros (? & ? & ? & ? & ? & ? & ? & ? & ?).
  solve_read_write.
  by destruct e.
Qed.

Lemma EvtSwap2_read_write (e : EvtSwap2.t) rest :
  EvtSwap2.wf e -> EvtSwap2.read (EvtSwap2.write e ++ rest) = Ok (e, rest).
Proof.
  unfold EvtSwap2.wf, EvtSwap2.write, EvtSwap2.read. intros (? & ? & ? & ? & ? & ? & ? & ? & ? & ? & ?).
  solve_read_write.
  rewrite SwapParameters2_read_write by done. cbn [result_bind]. solve_read_write.
  rewrite SwapResult2_read_write by done. cbn [result_bind]. solve_read_write.
  by destruct e.
Qed.

Lemma EvtUpdatePoolFees_read_write (e : EvtUpdatePoolFees.t) :
  EvtUpdatePoolFees.wf e -> EvtUpdatePoolFees.read (EvtUpdatePoolFees.write e) = Ok (e, []).
Proof.
  unfold EvtUpdatePoolFees.wf, EvtUpdatePoolFees.write, EvtUpdatePoolFees.read. intros (? & ? & ?).
  rewrite read_pubkey_write by done. cbn [result_bind]. rewrite read_pubkey_write by done. by destruct e.
Qed.

Lemma EvtUpdateRewardDuration_read_write (e : EvtUpdateRewardDuration.t) rest :
  EvtUpdateRewardDuration.wf e -> EvtUpdateRewardDuration.read (EvtUpdateRewardDuration.write e ++ rest) = Ok (e, rest).
Proof.
  unfold EvtUpdateRewardDuration.wf, EvtUpdateRewardDuration.write, EvtUpdateRewardDuration.read. intros (? & ? & ? & ?).
  solve_read_write.
  by destruct e.
Qed.

Lemma EvtUpdateRewardFunder_read_write (e : EvtUpdateRewardFunder.t) rest :
  EvtUpdateRewardFunder.wf e -> EvtUpdateRewardFunder.read (EvtUpdateRewardFunder.write e ++ rest) = Ok (e, rest).
Proof.
  unfold EvtUpdateRewardFunder.wf, EvtUpdateRewardFunder.write, EvtUpdateRewardFunder.read. intros (? & ? & ? & ?).
  solve_read_write.
  by destruct e.
Qed.

Lemma EvtWithdrawDeadLiquidityReward_read_write (e : EvtWithdrawDeadLiquidityReward.t) rest :
  EvtWithdrawDeadLiquidityReward.wf e -> EvtWithdrawDeadLiquidityReward.read (EvtWithdrawDeadLiquidityReward.write e ++ rest) = Ok (e, rest).
Proof.
  unfold EvtWithdrawDeadLiquidityReward.wf, EvtWithdrawDeadLiquidityReward.write, EvtWithdrawDeadLiquidityReward.read. intros (? & ? & ?).
  solve_read_write.
  by destruct e.
Qed.

Lemma EvtWithdrawIneligibleReward_read_write (e : EvtWithdrawIneligibleReward.t) rest :
  EvtWithdrawIneligibleReward.wf e -> EvtWithdrawIneligibleReward.read (EvtWithdrawIneligibleReward.write e ++ rest) = Ok (e, rest).
Proof.
  unfold EvtWithdrawIneligibleReward.wf, EvtWithdrawIneligibleReward.write, EvtWithdrawIneligibleReward.read. intros (? & ? & ?).
  solve_read_write.
  by destruct e.
Qed.

End ReadWrite.

(** ** Dispatch *)

(** The bytes cp-amm emits for an event: its tag, its discriminator, its fields. *)
Definition discriminator_of `{Sha256} (w : DammV2WireEvent) : list Z :=
  match w with
  | Swap2 _ => discriminator_swap2
  | LiquidityChange _ => discriminator_liquidity_change
  | ClaimPositionFee _ => discriminator_claim_position_fee
  | ClaimReward _ => discriminator_claim_reward
  | ClaimProtocolFee _ => discriminator_claim_protocol_fee
  | InitializeReward _ => discriminator_initialize_reward
  | FundReward _ => discriminator_fund_reward
  | WithdrawIneligibleReward _ => discriminator_withdraw_ineligible_reward
  | UpdateRewardDuration _ => discriminator_update_reward_duration
  | UpdateRewardFunder _ => discriminator_update_reward_funder
  | WithdrawDeadLiquidityReward _ => discriminator_withdraw_dead_liquidity_reward
  | SplitPosition3 _ => discriminator_split_position3
  | CreatePosition _ => discriminator_create_position
  | ClosePosition _ => discriminator_close_position
  | LockPosition _ => discriminator_lock_position
  | PermanentLockPosition _ => discriminator_permanent_lock_position
  | InitializePool _ => discriminator_initialize_pool
  | SetPoolStatus _ => discriminator_set_pool_status
  | UpdatePoolFees _ => discriminator_update_pool_fees
  end.

Definition write_event (w : DammV2WireEvent) : list Z :=
  match w with
  | Swap2 e => EvtSwap2.write e
  | LiquidityChange e => EvtLiquidityChange.write e
  | ClaimPositionFee e => EvtClaimPositionFee.write e
  | ClaimReward e => EvtClaimReward.write e
  | ClaimProtocolFee e => EvtClaimProtocolFee.write e
  | InitializeReward e => EvtInitializeReward.write e
  | FundReward e => EvtFundReward.write e
  | WithdrawIneligibleReward e => EvtWithdrawIneligibleReward.write e
  | UpdateRewardDuration e => EvtUpdateRewardDuration.write e
  | UpdateRewardFunder e => EvtUpdateRewardFunder.write e
  | WithdrawDeadLiquidityReward e => EvtWithdrawDeadLiquidityReward.write e
  | SplitPosition3 e => EvtSplitPosition3.write e
  | CreatePosition e => EvtCreatePosition.write e
  | ClosePosition e => EvtClosePosition.write e
  | LockPosition e => EvtLockPosition.write e
  | PermanentLockPosition e => EvtPermanentLockPosition.write e
  | InitializePool e => EvtInitializePool.write e
  | SetPoolStatus e => EvtSetPoolStatus.write e
  | UpdatePoolFees e => EvtUpdatePoolFees.write e
  end.

Definition wf_event (w : DammV2WireEvent) : Prop :=
  match w with
  | Swap2 e => EvtSwap2.wf e
  | LiquidityChange e => EvtLiquidityChange.wf e
  | ClaimPositionFee e => EvtClaimPositionFee.wf e
  | ClaimReward e => EvtClaimReward.wf e
  | ClaimProtocolFee e => EvtClaimProtocolFee.wf e
  | InitializeReward e => EvtInitializeReward.wf e
  | FundReward e => EvtFundReward.wf e
  | WithdrawIneligibleReward e => EvtWithdrawIneligibleReward.wf e
  | UpdateRewardDuration e => EvtUpdateRewardDuration.wf e
  | UpdateRewardFunder e => EvtUpdateRewardFunder.wf e
  | WithdrawDeadLiquidityReward e => EvtWithdrawDeadLiquidityReward.wf e
  | SplitPosition3 e => EvtSplitPosition3.wf e
  | CreatePosition e => EvtCreatePosition.wf e
  | ClosePosition e => EvtClosePosition.wf e
  | LockPosition e => EvtLockPosition.wf e
  | PermanentLockPosition e => EvtPermanentLockPosition.wf e
  | InitializePool e => EvtInitializePool.wf e
  | SetPoolStatus e => EvtSetPoolStatus.wf e
  | UpdatePoolFees e => EvtUpdatePoolFees.wf e
  end.

Definition emitted `{Sha256} (w : DammV2WireEvent) : list Z :=
  EVENT_IX_TAG ++ discriminator_of w ++ write_event w.

Definition known_list (k : KnownDiscriminators.t) : list (list Z) := [
  KnownDiscriminators.swap2 k;
  KnownDiscriminators.liquidity k;
  KnownDiscriminators.claim_pos_fee k;
  KnownDiscriminators.claim_reward k;
  KnownDiscriminators.claim_protocol_fee k;
  KnownDiscriminators.initialize_reward k;
  KnownDiscriminators.fund_reward k;
  KnownDiscriminators.withdraw_ineligible_reward k;
  KnownDiscriminators.update_reward_duration k;
  KnownDiscriminators.update_reward_funder k;
  KnownDiscriminators.withdraw_dead_liquidity_reward k;
  KnownDiscriminators.split_position3 k;
  KnownDiscriminators.split_position2_deprecated k;
  KnownDiscriminators.create_position k;
  KnownDiscriminators.close_position k;
  KnownDiscriminators.lock_position k;
  KnownDiscriminators.permanent_lock_position k;
  KnownDiscriminators.initialize_pool k;
  KnownDiscriminators.set_pool_status k;
  KnownDiscriminators.update_pool_fees k
].

(** The hypothesis under which dispatch is unambiguous; the discriminators the
    code computes satisfy it ([Reference.v]). *)
Definition discriminators_distinct `{Sha256} : Prop :=
  NoDup (known_list KnownDiscriminators.compute).

(** Every inequality a [NoDup] list states, as one conjunction. *)
Fixpoint pairwise_ne (l : list (list Z)) : Prop :=
  match l with
  | [] => True
  | x :: l => foldr (fun y P => x <> y /\ P) True l /\ pairwise_ne l
  end.

Lemma pairwise_ne_NoDup l : NoDup l -> pairwise_ne l.
Proof.
  induction 1 as [|x l Hx _ IH]; simpl; [done|]. split; [|done].
  induction l as [|y l IHl]; simpl; [done|]. apply not_elem_of_cons in Hx as [Hy Hx].
  split; [done|]. apply IHl; [done|]. by destruct IH.
Qed.

Section Dispatching.
Context `{BorshLaws} `{Sha256Laws}.

Lemma length_compute_discriminator name :
  length (compute_discriminator name) = DISCRIMINATOR_LEN.
Proof.
  unfold compute_discriminator. rewrite length_take.
  destruct (sha256_bytes (string_bytes (String.append "event:" name))) as [-> _]. done.
Qed.

Lemma length_discriminator_of w : length (discriminator_of w) = DISCRIMINATOR_LEN.
Proof. destruct w; apply length_compute_discriminator. Qed.

Lemma dispatch_as_write {T} (read : reader T) wrap name (w : T -> list Z) (e : T) :
  read (w e) = Ok (e, []) -> dispatch_as read wrap name (w e) = Recognized (wrap e).
Proof. intros Hr. unfold dispatch_as, deserialize. by rewrite (try_from_slice_write _ e). Qed.

Lemma read_write_nil {T} (read : reader T) (bs : list Z) (e : T) :
  (forall rest, read (bs ++ rest) = Ok (e, rest)) -> read bs = Ok (e, []).
Proof. intros Hr. by rewrite <- (app_nil_r bs), Hr. Qed.

Lemma dispatch_emitted (w : DammV2WireEvent) :
  discriminators_distinct -> wf_event w ->
  dispatch (discriminator_of w) (write_event w) KnownDiscriminators.compute = Recognized w.
Proof.
  intros Hd%pairwise_ne_NoDup Hw. cbn in Hd. destruct_and! Hd.
  unfold dispatch. simpl.
  destruct w as [e|e|e|e|e|e|e|e|e|e|e|e|e|e|e|e|e|e|e]; simpl in Hw |- *;
    repeat (rewrite bool_decide_eq_false_2 by (apply not_eq_sym; assumption));
    rewrite bool_decide_eq_true_2 by done;
    (apply dispatch_as_write; first [apply EvtUpdatePoolFees_read_write; done|apply read_write_nil; intros rest]).
  - by apply EvtSwap2_read_write.
  - by apply EvtLiquidityChange_read_write.
  - by apply EvtClaimPositionFee_read_write.
  - by apply EvtClaimReward_read_write.
  - by apply EvtClaimProtocolFee_read_write.
  - by apply EvtInitializeReward_read_write.
  - by apply EvtFundReward_read_write.
  - by apply EvtWithdrawIneligibleReward_read_write.
  - by apply EvtUpdateRewardDuration_read_write.
  - by apply EvtUpdateRewardFunder_read_write.
  - by apply EvtWithdrawDeadLiquidityReward_read_write.
  - by apply EvtSplitPosition3_read_write.
  - by apply EvtCreatePosition_read_write.
  - by apply EvtClosePosition_read_write.
  - by apply EvtLockPosition_read_write.
  - by apply EvtPermanentLockPosition_read_write.
  - by apply EvtInitializePool_read_write.
  - by apply EvtSetPoolStatus_read_write.
Qed.

Lemma dispatch_split_position2 body :
  discriminators_distinct ->
  dispatch discriminator_split_position2 body KnownDiscriminators.compute = Ignored.
Proof.
  intros Hd%pairwise_ne_NoDup. cbn in Hd. destruct_and! Hd.
  unfold dispatch. simpl.
  repeat (rewrite bool_decide_eq_false_2 by (apply not_eq_sym; assumption)).
  by rewrite bool_decide_eq_true_2 by done.
Qed.

Lemma decode_emitted (w : DammV2WireEvent) :
  decode_anchor_event_cpi (emitted w) = Ok (discriminator_of w, write_event w).
Proof.
  unfold decode_anchor_event_cpi, emitted.
  rewrite !length_app, length_discriminator_of.
  change (length EVENT_IX_TAG) with 8%nat. change DISCRIMINATOR_LEN with 8%nat.
  change EVENT_IX_TAG_LEN with 8%nat.
  destruct (Z.ltb_spec (Z.of_nat (8 + (8 + length (write_event w)))) (Z.of_nat 8)); [lia|].
  unfold starts_with. rewrite take_app_length. rewrite bool_decide_eq_true_2 by done. simpl negb.
  destruct (Z.ltb_spec (Z.of_nat (8 + (8 + length (write_event w)))) (Z.of_nat (8 + 8))); [lia|].
  rewrite drop_app_length' by done.
  rewrite take_app_length' by (rewrite length_discriminator_of; done).
  rewrite app_assoc, drop_app_length'; [done|].
  rewrite length_app, length_discriminator_of. done.
Qed.
End Dispatching.
