(* ===== verification/Reference.v ===== *)
(** * Reference instances of the external interfaces

    Concrete functions for the interfaces of [External.v]: SHA-256 (FIPS 180-4),
    the base58 alphabet of addresses, and borsh's byte formats. The witnesses
    evaluate on them; no theorem depends on them. Then the mainnet transaction
    of the conformance tests. *)

From S2P Require Import Prelude External Domain WireEvents Extractor WireRoundTrip.

(** ** SHA-256 *)

Definition word_mask : Z := 2 ^ 32 - 1.
Definition rotr (n x : Z) : Z :=
  Z.lor (Z.shiftr x n) (Z.land (Z.shiftl x (32 - n)) word_mask).
Definition add32 (a b : Z) : Z := Z.land (a + b) word_mask.

(** The [n] big-endian words packed in an integer. *)
Definition unpack_words (n : nat) (z : Z) : list Z :=
  map (fun i => Z.land (Z.shiftr z (32 * Z.of_nat i)) word_mask) (rev (seq 0 n)).

(** The round constants, packed: the fractional parts of the cube roots of the
    first 64 primes, and of the square roots of the first 8. *)
Definition sha_k : list Z := unpack_words 64
  0x428a2f9871374491b5c0fbcfe9b5dba53956c25b59f111f1923f82a4ab1c5ed5d807aa9812835b01243185be550c7dc372be5d7480deb1fe9bdc06a7c19bf174e49b69c1efbe47860fc19dc6240ca1cc2de92c6f4a7484aa5cb0a9dc76f988da983e5152a831c66db00327c8bf597fc7c6e00bf3d5a7914706ca63511429296727b70a852e1b21384d2c6dfc53380d13650a7354766a0abb81c2c92e92722c85a2bfe8a1a81a664bc24b8b70c76c51a3d192e819d6990624f40e3585106aa07019a4c1161e376c082748774c34b0bcb5391c0cb34ed8aa4a5b9cca4f682e6ff3748f82ee78a5636f84c878148cc7020890befffaa4506cebbef9a3f7c67178f2.


Definition sha_h0 : list Z := unpack_words 8
  0x6a09e667bb67ae853c6ef372a54ff53a510e527f9b05688c1f83d9ab5be0cd19.

Definition be_decode (bs : list Z) : Z := foldl (fun acc b => acc * 256 + b) 0 bs.
Definition be_encode (n : nat) (z : Z) : list Z := rev (le_encode n z).

(** The message, a one bit, zeros, and the bit length on 64 bits. *)
Definition sha_pad (m : list Z) : list Z :=
  let len := Z.of_nat (length m) in
  m ++ [128] ++ repeat 0 (Z.to_nat ((55 - len) mod 64)) ++ be_encode 8 (8 * len).

Fixpoint chunks (fuel n : nat) (l : list Z) : list (list Z) :=
  match fuel, l with
  | S fuel, _ :: _ => take n l :: chunks fuel n (drop n l)
  | _, _ => []
  end.

(** The schedule, most recent word first. *)
Fixpoint sha_schedule (turns : nat) (ws : list Z) : list Z :=
  match turns with
  | O => ws
  | S turns =>
    let w i := nth i ws 0 in
    let s0 := let x := w 14%nat in Z.lxor (Z.lxor (rotr 7 x) (rotr 18 x)) (Z.shiftr x 3) in
    let s1 := let x := w 1%nat in Z.lxor (Z.lxor (rotr 17 x) (rotr 19 x)) (Z.shiftr x 10) in
    sha_schedule turns (add32 (add32 (w 15%nat) s0) (add32 (w 6%nat) s1) :: ws)
  end.

Definition sha_round (st : list Z) (kw : Z * Z) : list Z :=
  match st with
  | [a; b; c; d; e; f; g; h] =>
    let s1 := Z.lxor (Z.lxor (rotr 6 e) (rotr 11 e)) (rotr 25 e) in
    let ch := Z.lxor (Z.land e f) (Z.land (Z.lxor e word_mask) g) in
    let t1 := add32 (add32 h s1) (add32 ch (add32 (fst kw) (snd kw))) in
    let s0 := Z.lxor (Z.lxor (rotr 2 a) (rotr 13 a)) (rotr 22 a) in
    let maj := Z.lxor (Z.lxor (Z.land a b) (Z.land a c)) (Z.land b c) in
    [add32 t1 (add32 s0 maj); a; b; c; add32 d t1; e; f; g]
  | _ => st
  end.

Definition sha_block (h : list Z) (block : list Z) : list Z :=
  let ws := rev (sha_schedule 48 (rev (map be_decode (chunks 16 4 block)))) in
  zip_with add32 h (foldl sha_round h (zip sha_k ws)).

Definition sha256_reference (m : list Z) : list Z :=
  let padded := sha_pad m in
  let h := foldl sha_block sha_h0 (chunks (length padded) 64 padded) in
  concat (map (fun i => be_encode 4 (nth i h 0)) (seq 0 8)).

#[global] Instance reference_sha256 : Sha256 := { sha256 := sha256_reference }.

Lemma be_encode_bytes n z : is_bytes n (be_encode n z).
Proof.
  destruct (le_encode_bytes n z) as [Hl Hf]. unfold be_encode. split.
  - by rewrite length_rev.
  - by apply Forall_rev.
Qed.

#[global] Instance reference_sha256_laws : Sha256Laws.
Proof.
  constructor. intros m. unfold sha256; simpl. unfold sha256_reference. simpl map.
  change 32%nat with (4 + (4 + (4 + (4 + (4 + (4 + (4 + (4 + 0))))))))%nat.
  cbn [concat]. repeat (apply is_bytes_app; [apply be_encode_bytes|]). by split.
Qed.

(** ** base58 *)

Definition base58_alphabet : list Z :=
  map (fun a => Z.of_N (Ascii.N_of_ascii a))
    (String.list_ascii_of_string "123456789ABCDEFGHJKLMNPQRSTUVWXYZabcdefghijkmnopqrstuvwxyz").

Fixpoint index_of_byte (l : list Z) (b : Z) (at_ : Z) : option Z :=
  match l with
  | [] => None
  | c :: l => if c =? b then Some at_ else index_of_byte l b (at_ + 1)
  end.

Fixpoint base58_value (l : list Z) (acc : Z) : option Z :=
  match l with
  | [] => Some acc
  | c :: l =>
    match index_of_byte base58_alphabet c 0 with
    | Some d => base58_value l (acc * 58 + d)
    | None => None
    end
  end.

(** The value of the digits on [n] big-endian bytes, when it fits. *)
Definition base58_bytes (n : nat) (s : string) : option (list Z) :=
  match base58_value (map (fun a => Z.of_N (Ascii.N_of_ascii a)) (String.list_ascii_of_string s)) 0 with
  | Some v => if in_uint (8 * Z.of_nat n) v then Some (be_encode n v) else None
  | None => None
  end.

Fixpoint base58_digits (fuel : nat) (v : Z) (acc : string) : string :=
  match fuel with
  | O => acc
  | S fuel =>
    if v =? 0 then acc
    else base58_digits fuel (v / 58)
      (String (Ascii.ascii_of_N (Z.to_N (nth (Z.to_nat (v mod 58)) base58_alphabet 0))) acc)
  end.

Definition base58_string (k : list Z) : string := base58_digits 64 (be_decode k) "".

#[global] Instance reference_base58 : Base58 := {
  pubkey_of_string := base58_bytes 32;
  pubkey_to_string := base58_string;
}.

#[global] Instance reference_signature_display : SignatureDisplay :=
  { signature_to_string s := base58_digits 96 (be_decode s) "" }.

(** *** Base58 is read back *)

Definition codes (s : string) : list Z :=
  map (fun a => Z.of_N (Ascii.N_of_ascii a)) (String.list_ascii_of_string s).

Definition digit_char (d : Z) : Ascii.ascii :=
  Ascii.ascii_of_N (Z.to_N (nth (Z.to_nat d) base58_alphabet 0)).

Lemma digit_read d :
  0 <= d < 58 -> index_of_byte base58_alphabet (Z.of_N (Ascii.N_of_ascii (digit_char d))) 0 = Some d.
Proof.
  intros Hd.
  assert (Hall : forall n, (n < 58)%nat ->
    index_of_byte base58_alphabet (Z.of_N (Ascii.N_of_ascii (digit_char (Z.of_nat n)))) 0 =
      Some (Z.of_nat n)).
  { intros n Hn. do 58 (destruct n as [|n]; [reflexivity|]). lia. }
  specialize (Hall (Z.to_nat d)). rewrite Z2Nat.id in Hall by lia. apply Hall. lia.
Qed.

Lemma base58_value_digits fuel : forall v acc,
  0 <= v < 58 ^ Z.of_nat fuel ->
  base58_value (codes (base58_digits fuel v acc)) 0 = base58_value (codes acc) v.
Proof.
  induction fuel as [|fuel IH]; intros v acc Hv; cbn [base58_digits].
  - f_equal. change (58 ^ Z.of_nat 0) with 1 in Hv. lia.
  - destruct (Z.eqb_spec v 0) as [->|Hne]; [done|].
    rewrite Nat2Z.inj_succ, Z.pow_succ_r in Hv by lia.
    rewrite IH by (split; [apply Z.div_pos | apply Z.div_lt_upper_bound]; lia).
    unfold codes. cbn [String.list_ascii_of_string map base58_value].
    fold (digit_char (v mod 58)). rewrite digit_read by (apply Z.mod_pos_bound; lia).
    f_equal. pose proof (Z.div_mod v 58). lia.
Qed.

Lemma be_decode_le bs : be_decode bs = le_decode (rev bs).
Proof.
  induction bs as [|b bs IH] using rev_ind; [done|].
  rewrite rev_app_distr. unfold be_decode in *. rewrite foldl_app, IH.
  change (le_decode (rev [b] ++ rev bs)) with (b + 256 * le_decode (rev bs)). cbn [foldl]. lia.
Qed.

Lemma be_decode_bound n bs : is_bytes n bs -> is_uint (8 * Z.of_nat n) (be_decode bs).
Proof.
  intros [Hl Hf]. rewrite be_decode_le, <-Hl, <-length_rev. apply le_decode_bound. by apply Forall_rev.
Qed.

Lemma be_encode_decode n bs : is_bytes n bs -> be_encode n (be_decode bs) = bs.
Proof.
  intros [Hl Hf]. unfold be_encode. rewrite be_decode_le, <-Hl, <-length_rev, le_encode_decode.
  - apply rev_involutive.
  - by apply Forall_rev.
Qed.

Lemma base58_round n fuel bs :
  is_bytes n bs -> 2 ^ (8 * Z.of_nat n) <= 58 ^ Z.of_nat fuel ->
  base58_bytes n (base58_digits fuel (be_decode bs) "") = Some bs.
Proof.
  intros Hb Hf. pose proof (be_decode_bound n bs Hb) as Hv.
  unfold base58_bytes. fold (codes (base58_digits fuel (be_decode bs) "")).
  rewrite base58_value_digits by (unfold is_uint in Hv; lia). cbn [codes map base58_value String.list_ascii_of_string].
  assert (in_uint (8 * Z.of_nat n) (be_decode bs) = true) as -> by (by apply in_uint_spec).
  by rewrite be_encode_decode.
Qed.

#[global] Instance reference_base58_laws : Base58Laws.
Proof.
  split.
  - intros k Hk. apply base58_round; [done|]. vm_compute. discriminate.
  - intros s k Hk. unfold pubkey_of_string in Hk. simpl in Hk. unfold base58_bytes in Hk.
    repeat case_match; simplify_eq. apply be_encode_bytes.
Qed.

#[global] Instance reference_signature_from_str : SignatureFromStr :=
  { signature_of_string := base58_bytes 64 }.
#[global] Instance reference_signature_laws : SignatureFromStrLaws.
Proof. split. intros s Hs. apply base58_round; [done|]. vm_compute. discriminate. Qed.

(** Any bytes: a leading [1] is a zero byte, the rest the minimal digits. *)
Fixpoint minimal_bytes (fuel : nat) (v : Z) (acc : list Z) : list Z :=
  match fuel with
  | O => acc
  | S fuel => if v =? 0 then acc else minimal_bytes fuel (v / 256) (v mod 256 :: acc)
  end.
Fixpoint leading_ones (l : list Z) : nat :=
  match l with
  | c :: l => if c =? 49 then S (leading_ones l) else O
  | [] => O
  end.
Definition bs58_reference (s : string) : option (list Z) :=
  let! v := base58_value (codes s) 0 in
  Some (repeat 0 (leading_ones (codes s)) ++ minimal_bytes (String.length s) v []).

#[global] Instance reference_bs58 : Bs58 := {
  bs58_decode := bs58_reference;
  signature_parse_error s :=
    if (String.length s <? 64)%nat then "string decoded to wrong size for signature"
    else "invalid base58";
}.

(** ** chrono *)

Definition last_timestamp : Z := 8210266876799.

#[global] Instance reference_chrono : Chrono := {
  from_timestamp secs :=
    if (- last_timestamp <=? secs) && (secs <=? last_timestamp)
    then Some (secs * 10 ^ 9) else None
}.

(** ** borsh *)

Definition unexpected_length : string := "Unexpected length of input".

Definition read_exact (n : nat) : reader (list Z) := fun bs =>
  if (length bs <? n)%nat then Err unexpected_length else Ok (take n bs, drop n bs).

Definition read_tag (invalid : string) : reader bool := fun bs =>
  match bs with
  | [] => Err unexpected_length
  | b :: bs => if b =? 0 then Ok (false, bs) else if b =? 1 then Ok (true, bs) else Err invalid
  end.

#[global] Instance reference_borsh : Borsh := {
  read_uint n bs := let? (l, bs) := read_exact n bs in Ok (le_decode l, bs);
  read_bool := read_tag "Invalid bool representation";
  read_array := read_exact;
  read_option_tag := read_tag "Invalid Option representation";
  write_uint := le_encode;
  write_option_tag b := [if b then 1 else 0];
  not_all_bytes_read := "Not all bytes read";
}.

#[global] Arguments read_tag : simpl never.

Lemma read_exact_ok n bs : (n <= length bs)%nat -> read_exact n bs = Ok (take n bs, drop n bs).
Proof. intros H. unfold read_exact. destruct (Nat.ltb_spec (length bs) n); [lia|done]. Qed.

Lemma read_exact_short n bs : (length bs < n)%nat -> read_exact n bs = Err unexpected_length.
Proof. intros H. unfold read_exact. destruct (Nat.ltb_spec (length bs) n); [done|lia]. Qed.

Lemma read_tag_ok invalid b bs : read_tag invalid ((if b : bool then 1 else 0) :: bs) = Ok (b, bs).
Proof. by destruct b. Qed.

Lemma read_tag_err invalid b bs :
  b <> 0 -> b <> 1 -> read_tag invalid (b :: bs) = Err invalid.
Proof. intros. unfold read_tag. case_tests; done. Qed.

#[global] Instance reference_borsh_laws : BorshLaws.
Proof.
  constructor; simpl; intros.
  - by rewrite read_exact_ok.
  - rewrite read_exact_short by done. by eexists.
  - by apply read_exact_ok.
  - rewrite read_exact_short by done. by eexists.
  - apply read_tag_ok.
  - rewrite read_tag_err by done. by eexists.
  - by eexists.
  - apply read_tag_ok.
  - rewrite read_tag_err by done. by eexists.
  - by eexists.
  - done.
  - done.
Qed.

(** The digest of the empty message, the standard's test vector. *)
Example sha256_empty :
  take 8 (sha256 []) = [0xe3; 0xb0; 0xc4; 0x42; 0x98; 0xfc; 0x1c; 0x14].
Proof. vm_compute. reflexivity. Qed.

(** ** The reference transaction

    The mainnet transaction every source adapter is checked against
    ([src/crates/core/src/application/extraction/conformance.rs]), as the
    concrete input of the witnesses. *)

Definition hex_value (c : Ascii.ascii) : Z :=
  let n := Z.of_N (Ascii.N_of_ascii c) in if n <? 58 then n - 48 else n - 87.

Fixpoint decode_hex (l : list Ascii.ascii) : list Z :=
  match l with
  | a :: b :: l => Z.lor (Z.shiftl (hex_value a) 4) (hex_value b) :: decode_hex l
  | _ => []
  end.

Definition leg_a_bytes : list Z := decode_hex (String.list_ascii_of_string
  "e445a52e51cb9a1dbd4233a826507599cb422f17f0e7100ec0a157eb01fb720f557b0027b7416c913255aec50a533489000100450b2730020000002d9b7dbea412000000450b273002000000450b273002000000000000000000000024e9b378d412000029af5ead1288a9582e0000000000000061aebb620000000098ebae180000000000000000000000000000000000000000450b27300200000024e9b378d412000024e9b378d4120000b614eb6900000000b3391535570000004b14b4e9b7db0200").
Definition leg_b_bytes : list Z := decode_hex (String.list_ascii_of_string
  "e445a52e51cb9a1dbd4233a826507599cb422f17f0e7100ec0a157eb01fb720f557b0027b7416c913255aec50a5334890101009ce4bb310c140000ffffac2901000000009ce4bb310c1400006b8b59ae0b1400000000000000000000bb2a4b5302000000a8ab817ce3acb29d2f000000000000008e7a1b6900000000a3de461a00000000000000000000000000000000000000009ce4bb310c140000bb2a4b5302000000bb2a4b5302000000b614eb6900000000f80ecae154000000b69f0d98c3ef0200").

Definition reference_pool : Pubkey := [
  203; 66; 47; 23; 240; 231; 16; 14; 192; 161; 87; 235; 1; 251; 114; 15; 85; 123; 0; 39; 183; 65;
  108; 145; 50; 85; 174; 197; 10; 83; 52; 137].

(** What the two payloads say, field by field. *)
Definition leg_a : EvtSwap2.t := {|
  EvtSwap2.pool := reference_pool;
  EvtSwap2.trade_direction := 0;
  EvtSwap2.collect_fee_mode := 1;
  EvtSwap2.has_referral := false;
  EvtSwap2.params := SwapParameters2.mk 9397799749 20498779839277 0;
  EvtSwap2.swap_result := SwapResult2.mk 9397799749 9397799749 0 20703767423268
    854939014550840586025 1656467041 414116760 0 0;
  EvtSwap2.included_transfer_fee_amount_in := 9397799749;
  EvtSwap2.included_transfer_fee_amount_out := 20703767423268;
  EvtSwap2.excluded_transfer_fee_amount_out := 20703767423268;
  EvtSwap2.current_timestamp := 1777013942;
  EvtSwap2.reserve_a_amount := 374552738227;
  EvtSwap2.reserve_b_amount := 804532899812427;
|}.

Definition leg_b : EvtSwap2.t := {|
  EvtSwap2.pool := reference_pool;
  EvtSwap2.trade_direction := 1;
  EvtSwap2.collect_fee_mode := 1;
  EvtSwap2.has_referral := false;
  EvtSwap2.params := SwapParameters2.mk 22042606560412 4994170879 0;
  EvtSwap2.swap_result := SwapResult2.mk 22042606560412 22040402299755 0 9987369659
    878360306367204535208 1763408526 440852131 0 0;
  EvtSwap2.included_transfer_fee_amount_in := 22042606560412;
  EvtSwap2.included_transfer_fee_amount_out := 9987369659;
  EvtSwap2.excluded_transfer_fee_amount_out := 9987369659;
  EvtSwap2.current_timestamp := 1777013942;
  EvtSwap2.reserve_a_amount := 364565368568;
  EvtSwap2.reserve_b_amount := 826573302112182;
|}.

Definition reference_legs : list DammV2WireEvent := [Swap2 leg_a; Swap2 leg_b].

Definition reference_position : TransactionPosition.t := {|
  TransactionPosition.signature := be_encode 64 (2 ^ 511 + 415296180);
  TransactionPosition.timestamp := 1777013942 * 10 ^ 9;
  TransactionPosition.slot := 415296180;
  TransactionPosition.transaction_index := None;
|}.

(** The two payloads, and one instruction to another program between them. *)
Definition reference_transaction : OnChainTransaction.t := {|
  OnChainTransaction.position := reference_position;
  OnChainTransaction.inner_instructions := [
    InnerInstructionPayload.mk (program_id MeteoraDammV2) leg_a_bytes;
    InnerInstructionPayload.mk (program_id MeteoraDlmm) [1; 2; 3];
    InnerInstructionPayload.mk (program_id MeteoraDammV2) leg_b_bytes];
|}.

(** The emitted bytes of the model are the bytes of the chain. *)
Example reference_payloads_emitted :
  extract_anchor_event_cpis reference_transaction (program_id MeteoraDammV2) =
    map emitted reference_legs.
Proof. vm_compute. reflexivity. Qed.

Example reference_discriminators_distinct : discriminators_distinct.
Proof. apply (bool_decide_unpack _). vm_compute. exact I. Qed.

Example reference_legs_wf : Forall wf_event reference_legs.
Proof.
  repeat apply List.Forall_cons; try apply List.Forall_nil;
    cbn [wf_event]; unfold EvtSwap2.wf, SwapParameters2.wf, SwapResult2.wf, is_bytes;
    split_and!; by_eval.
Qed.
