(* ===== verification/ExtractionFacts.v ===== *)
(** * Extraction recovers exactly what the program emitted

    Theorems about [Extractor.v], [Translator.v] and [Extraction.v]: every
    payload is accounted for, emitted events come back at their index, and
    translation keeps pool and position. *)

From Stdlib Require Import Sorting.Sorted.
From S2P Require Import Prelude Errors External Domain WireEvents Extractor Translator Extraction.
From S2P Require Import WireRoundTrip Reference.

(** ** Every payload is accounted for *)

(** What becomes of one payload. *)
Inductive fate : Type :=
| FEvent (e : IndexedWireEvent.t)
| FUnknown (u : UnknownEvent)
| FFailure (f : ExtractFailure)
| FOrdinary
| FIgnored.

Definition fate_event (f : fate) : option IndexedWireEvent.t :=
  match f with FEvent e => Some e | _ => None end.
Definition fate_unknown (f : fate) : option UnknownEvent :=
  match f with FUnknown u => Some u | _ => None end.
Definition fate_failure (f : fate) : option ExtractFailure :=
  match f with FFailure x => Some x | _ => None end.
Definition fate_silent (f : fate) : option unit :=
  match f with FOrdinary | FIgnored => Some () | _ => None end.

Lemma foldl_snoc_map {A B} (f : A -> B) (l : list A) (acc : list B) :
  foldl (fun acc a => acc ++ [f a]) acc l = acc ++ map f l.
Proof.
  revert acc. induction l as [|a l IH]; intros acc; simpl; [by rewrite app_nil_r|].
  by rewrite IH, <- app_assoc.
Qed.

Lemma omap_partition {A B C D E} (f : A -> option B) (g : A -> option C) (h : A -> option D)
    (k : A -> option E) (l : list A) :
  (forall a, (if f a then 1 else 0) + (if g a then 1 else 0) + (if h a then 1 else 0) +
     (if k a then 1 else 0) = 1) ->
  Z.of_nat (length l) = Z.of_nat (length (omap f l)) + Z.of_nat (length (omap g l)) +
    Z.of_nat (length (omap h l)) + Z.of_nat (length (omap k l)).
Proof.
  intros Hp. induction l as [|a l IH]; [done|]. cbn [omap list_omap length].
  specialize (Hp a). destruct (f a), (g a), (h a), (k a); simpl; simpl in Hp; lia.
Qed.

Section Accounting.
Context `{Borsh} `{Sha256}.

Definition fate_of (known : KnownDiscriminators.t) (indexed : nat * list Z) : fate :=
  let (index, raw) := indexed in
  match try_uint 16 (Z.of_nat index) with
  | None => FFailure (EventIndexOverflow (Z.of_nat index))
  | Some event_index =>
    match decode_anchor_event_cpi raw with
    | Ok (disc, body) =>
      match dispatch disc body known with
      | Recognized event => FEvent (IndexedWireEvent.mk event_index event)
      | Ignored => FIgnored
      | Unknown => FUnknown disc
      | BorshFailed name reason => FFailure (Borsh_ name disc reason)
      end
    | Err NotAnAnchorEvent => FOrdinary
    | Err e => FFailure (AnchorDecode e)
    end
  end.

(** The loop is three filters of one classification. *)
Lemma extract_step_fate known out l :
  foldl (extract_step known) out l =
  ExtractedEvents.mk
    (ExtractedEvents.events out ++ omap fate_event (map (fate_of known) l))
    (ExtractedEvents.unknown out ++ omap fate_unknown (map (fate_of known) l))
    (ExtractedEvents.failures out ++ omap fate_failure (map (fate_of known) l)).
Proof.
  revert out. induction l as [|[i raw] l IH]; intros out.
  { simpl. rewrite !app_nil_r. by destruct out. }
  cbn [foldl map omap list_omap]. rewrite IH. clear IH.
  unfold extract_step, fate_of. destruct (try_uint 16 _) as [idx|]; [|by simpl; rewrite <- app_assoc].
  destruct (decode_anchor_event_cpi raw) as [[disc body]|[| |]];
    [|by simpl; rewrite <- ?app_assoc..].
  destruct (dispatch disc body known); simpl; by rewrite <- ?app_assoc.
Qed.

Definition fates (tx : OnChainTransaction.t) (pid : Pubkey) : list fate :=
  map (fate_of KnownDiscriminators.compute) (imap pair (extract_anchor_event_cpis tx pid)).

Lemma extract_wire_events_fates tx pid :
  extract_wire_events tx pid =
  ExtractedEvents.mk (omap fate_event (fates tx pid)) (omap fate_unknown (fates tx pid))
    (omap fate_failure (fates tx pid)).
Proof. apply extract_step_fate. Qed.

Lemma fates_lookup tx pid i f :
  fates tx pid !! i = Some f <->
  exists raw, extract_anchor_event_cpis tx pid !! i = Some raw /\
    f = fate_of KnownDiscriminators.compute (i, raw).
Proof.
  unfold fates. rewrite list_lookup_fmap, fmap_Some. setoid_rewrite list_lookup_imap.
  setoid_rewrite fmap_Some. naive_solver.
Qed.

Lemma fate_of_event known i raw e :
  fate_of known (i, raw) = FEvent e <->
  Z.of_nat i < 65536 /\ IndexedWireEvent.event_index e = Z.of_nat i /\
  exists disc body, decode_anchor_event_cpi raw = Ok (disc, body) /\
    dispatch disc body known = Recognized (IndexedWireEvent.event e).
Proof.
  unfold fate_of. destruct (try_uint 16 _) as [idx|] eqn:Hidx.
  - apply try_uint_Some in Hidx as [-> Hi]. unfold is_uint in Hi. rewrite pow2_16 in Hi.
    destruct e as [k ev]; simpl.
    split.
    + destruct (decode_anchor_event_cpi raw) as [[disc body]|[| |]]; try discriminate.
      destruct (dispatch disc body known) as [ev'| | |] eqn:Hdis; try discriminate.
      intros [= <- <-]. split_and!; [lia|done|]. eauto.
    + intros (_ & -> & disc & body & -> & ->). done.
  - apply try_uint_None in Hidx. unfold is_uint in Hidx. rewrite pow2_16 in Hidx.
    split; [done|]. lia.
Qed.

Lemma fate_of_overflow known i raw n :
  fate_of known (i, raw) = FFailure (EventIndexOverflow n) <-> n = Z.of_nat i /\ 65536 <= Z.of_nat i.
Proof.
  unfold fate_of. destruct (try_uint 16 _) as [idx|] eqn:Hidx.
  - apply try_uint_Some in Hidx as [-> Hi]. unfold is_uint in Hi. rewrite pow2_16 in Hi.
    split; [|lia]. destruct (decode_anchor_event_cpi raw) as [[disc body]|[| |]]; try done.
    by destruct (dispatch disc body known).
  - apply try_uint_None in Hidx. unfold is_uint in Hidx. rewrite pow2_16 in Hidx.
    split; [intros [= <-]; lia|]. intros [-> _]. done.
Qed.

Lemma fates_event_index tx pid i e :
  fates tx pid !! i = Some (FEvent e) -> IndexedWireEvent.event_index e = Z.of_nat i.
Proof. intros (raw & _ & Hf)%fates_lookup. symmetry in Hf. by apply fate_of_event in Hf as (_ & ? & _). Qed.
End Accounting.

Lemma omap_events_sorted (l : list fate) (start : Z) :
  (forall i e, l !! i = Some (FEvent e) -> IndexedWireEvent.event_index e = start + Z.of_nat i) ->
  StronglySorted (fun a b => IndexedWireEvent.event_index a < IndexedWireEvent.event_index b)
    (omap fate_event l) /\
  Forall (fun e => start <= IndexedWireEvent.event_index e) (omap fate_event l).
Proof.
  revert start. induction l as [|f l IH]; intros start Hl; [split; constructor|].
  destruct (IH (start + 1)) as [Hs Hf].
  { intros i e Hi. rewrite (Hl (S i) e) by done. lia. }
  cbn [omap list_omap]. destruct (fate_event f) as [e|] eqn:Hfe.
  - assert (IndexedWireEvent.event_index e = start) as He.
    { rewrite (Hl O e); [lia|]. destruct f; simpl in *; congruence. }
    split; constructor; try done; try lia.
    + eapply Forall_impl; [exact Hf|]. simpl. intros. lia.
    + eapply Forall_impl; [exact Hf|]. simpl. intros. lia.
  - split; [done|]. eapply Forall_impl; [exact Hf|]. simpl. intros. lia.
Qed.

(** C1: extraction accounts for every payload the transaction addresses to the
    program, at its place. An event comes out under index [i] exactly when the
    [i]-th payload decodes to it and [i] fits a [u16]; indices strictly
    increase; a payload past the [u16] range is reported as an overflow, never
    stored under a truncated index; and events, unknown payloads, failures and
    the payloads dropped on purpose (ordinary instructions, the deprecated
    split) add up to the number of payloads. *)
Theorem extract_wire_events_accounts `{Borsh} `{Sha256} (tx : OnChainTransaction.t) (pid : Pubkey) :
  let payloads := extract_anchor_event_cpis tx pid in
  let out := extract_wire_events tx pid in
  let known := KnownDiscriminators.compute in
  (forall e, In e (ExtractedEvents.events out) <->
    exists i raw disc body, payloads !! i = Some raw /\ Z.of_nat i < 65536 /\
      IndexedWireEvent.event_index e = Z.of_nat i /\
      decode_anchor_event_cpi raw = Ok (disc, body) /\
      dispatch disc body known = Recognized (IndexedWireEvent.event e)) /\
  StronglySorted (fun a b => IndexedWireEvent.event_index a < IndexedWireEvent.event_index b)
    (ExtractedEvents.events out) /\
  (forall n, In (EventIndexOverflow n) (ExtractedEvents.failures out) <->
    65536 <= n < Z.of_nat (length payloads)) /\
  Z.of_nat (length payloads) =
    Z.of_nat (length (ExtractedEvents.events out)) +
    Z.of_nat (length (ExtractedEvents.unknown out)) +
    Z.of_nat (length (ExtractedEvents.failures out)) +
    Z.of_nat (length (omap fate_silent (fates tx pid))).
Proof.
  intros payloads out known. subst out. rewrite extract_wire_events_fates. simpl. split_and!.
  - intros e. rewrite <- list_elem_of_In, list_elem_of_omap.
    setoid_rewrite list_elem_of_lookup. split.
    + intros (f & [i Hi] & Hf). destruct f; try discriminate Hf; injection Hf as ->.
      apply fates_lookup in Hi as (raw & Hraw & Hfate). symmetry in Hfate.
      apply fate_of_event in Hfate. naive_solver.
    + intros (i & raw & disc & body & Hraw & Hi & Hix & Hdec & Hdis).
      exists (FEvent e). split; [|done]. exists i. apply fates_lookup. exists raw.
      split; [done|]. symmetry. apply fate_of_event. naive_solver.
  - eapply (omap_events_sorted _ 0). intros i e Hi. by apply fates_event_index in Hi.
  - intros n. rewrite <- list_elem_of_In, list_elem_of_omap.
    setoid_rewrite list_elem_of_lookup. split.
    + intros (f & [i Hi] & Hf). destruct f; try discriminate Hf; injection Hf as ->.
      apply fates_lookup in Hi as (raw & Hraw & Hfate). symmetry in Hfate.
      apply fate_of_overflow in Hfate as [-> Hle]. apply lookup_lt_Some in Hraw. fold payloads in Hraw. lia.
    + intros [Hle Hlt]. destruct (lookup_lt_is_Some_2 payloads (Z.to_nat n)) as [raw Hraw]; [lia|].
      exists (FFailure (EventIndexOverflow n)). split; [|done]. exists (Z.to_nat n).
      apply fates_lookup. exists raw. split; [done|]. symmetry. apply fate_of_overflow. lia.
  - assert (length payloads = length (fates tx pid)) as ->.
    { unfold fates. by rewrite length_map, length_imap. }
    apply omap_partition. intros [| | | |]; done.
Qed.

(** ** Emitted events come back *)

Lemma omap_imap_events (ws : list DammV2WireEvent) (start : nat) :
  let l := imap (fun i w => FEvent (IndexedWireEvent.mk (Z.of_nat (start + i)) w)) ws in
  omap fate_event l = imap (fun i w => IndexedWireEvent.mk (Z.of_nat (start + i)) w) ws /\
  omap fate_unknown l = [] /\ omap fate_failure l = [].
Proof.
  revert start. induction ws as [|w ws IH]; intros start; [done|].
  rewrite !imap_cons. cbn [omap list_omap fate_event fate_unknown fate_failure].
  specialize (IH (S start)).
  assert (forall A (g : nat -> DammV2WireEvent -> A), imap (fun i => g (S start + i)%nat) ws =
    imap ((fun i => g (start + i)%nat) ∘ S) ws) as He
    by (intros A g; apply imap_ext; intros i x _; simpl; f_equal; lia).
  cbn zeta in IH. rewrite (He _ (fun i w => FEvent (IndexedWireEvent.mk (Z.of_nat i) w))) in IH.
  rewrite (He _ (fun i w => IndexedWireEvent.mk (Z.of_nat i) w)) in IH.
  destruct IH as (-> & -> & ->). done.
Qed.

Section RoundTrip.
Context `{BorshLaws} `{Sha256Laws}.

Lemma fate_of_emitted i w :
  discriminators_distinct -> wf_event w -> Z.of_nat i < 65536 ->
  fate_of KnownDiscriminators.compute (i, emitted w) =
    FEvent (IndexedWireEvent.mk (Z.of_nat i) w).
Proof.
  intros Hd Hw Hi. apply fate_of_event. split_and!; [done|done|].
  exists (discriminator_of w), (write_event w). split; [apply decode_emitted|].
  by apply dispatch_emitted.
Qed.

Lemma fates_emitted tx pid (ws : list DammV2WireEvent) :
  discriminators_distinct -> Forall wf_event ws -> Z.of_nat (length ws) <= 65536 ->
  extract_anchor_event_cpis tx pid = map emitted ws ->
  fates tx pid = imap (fun i w => FEvent (IndexedWireEvent.mk (Z.of_nat i) w)) ws.
Proof.
  intros Hd Hws Hlen Hp. unfold fates. rewrite Hp.
  apply list_eq. intros i. rewrite list_lookup_imap, list_lookup_fmap, list_lookup_imap,
    list_lookup_fmap. destruct (ws !! i) as [w|] eqn:Hi; [|done]. simpl. f_equal.
  apply fate_of_emitted; [done| |].
  - by apply (Forall_lookup_1 _ _ _ _ Hws Hi).
  - apply lookup_lt_Some in Hi. lia.
Qed.
End RoundTrip.

(** C2: whatever sequence of DAMM v2 events a transaction emits (interleaved
    with any instructions to other programs), extraction gives back exactly
    these events, field for field and in order, each under its position, with
    nothing unknown and nothing failed. All nineteen event kinds are covered. *)
Theorem extract_wire_events_roundtrip `{BorshLaws} `{Sha256Laws}
    (tx : OnChainTransaction.t) (pid : Pubkey) (ws : list DammV2WireEvent) :
  discriminators_distinct -> Forall wf_event ws -> Z.of_nat (length ws) <= 65536 ->
  extract_anchor_event_cpis tx pid = map emitted ws ->
  extract_wire_events tx pid =
    ExtractedEvents.mk (imap (fun i w => IndexedWireEvent.mk (Z.of_nat i) w) ws) [] [].
Proof.
  intros Hd Hws Hlen Hp. rewrite extract_wire_events_fates, (fates_emitted tx pid ws) by done.
  destruct (omap_imap_events ws O) as (E1 & E2 & E3). simpl in *. by rewrite E1, E2, E3.
Qed.

Lemma extract_wire_events_roundtrip_witness :
  extract_wire_events reference_transaction (program_id MeteoraDammV2) =
    ExtractedEvents.mk [IndexedWireEvent.mk 0 (Swap2 leg_a); IndexedWireEvent.mk 1 (Swap2 leg_b)]
      [] [].
Proof.
  apply (extract_wire_events_roundtrip reference_transaction (program_id MeteoraDammV2)
    reference_legs).
  - apply reference_discriminators_distinct.
  - apply reference_legs_wf.
  - by_eval.
  - apply reference_payloads_emitted.
Defined.

(** ** Translation *)

(** The enum byte the translation refuses, if any. *)
Definition invalid_field (w : DammV2WireEvent) : option (string * Z) :=
  match w with
  | Swap2 e =>
      if negb ((EvtSwap2.trade_direction e =? 0) || (EvtSwap2.trade_direction e =? 1))
      then Some ("trade_direction"%string, EvtSwap2.trade_direction e)
      else if negb ((EvtSwap2.collect_fee_mode e =? 0) || (EvtSwap2.collect_fee_mode e =? 1) ||
                    (EvtSwap2.collect_fee_mode e =? 2))
      then Some ("collect_fee_mode"%string, EvtSwap2.collect_fee_mode e)
      else None
  | LiquidityChange e =>
      if negb ((EvtLiquidityChange.change_type e =? 0) || (EvtLiquidityChange.change_type e =? 1))
      then Some ("change_type"%string, EvtLiquidityChange.change_type e)
      else None
  | _ => None
  end.

Lemma translate_wire_event_Ok `{Borsh} (w : DammV2WireEvent) (pos : EventPosition.t) d :
  translate_wire_event w pos = Ok d ->
  DomainEvent.pool_address d = pool w /\ DomainEvent.position_of d = pos.
Proof.
  destruct pos. unfold translate_wire_event, translate_swap, translate_liquidity.
  destruct w; try (intros [= <-]; done); intros Hd; inv_binds;
    match goal with H : result_map _ ?r = Ok _ |- _ => destruct r as [v|] eqn:Hr end;
    simplify_eq/=; inv_binds; repeat case_match; by simplify_eq/=.
Qed.

(** C4: translation is total but for three enum bytes. Every event kind comes
    out under its pool and at its exact chain position (signature, timestamp,
    slot, transaction index, event index); a swap fails exactly on a trade
    direction above 1 or a fee mode above 2, a liquidity change exactly on a
    change type above 1, and no other event fails. *)
Theorem translate_wire_event_spec `{Borsh} (w : DammV2WireEvent) (pos : EventPosition.t) :
  match invalid_field w with
  | Some (field, value) => translate_wire_event w pos = Err (InvalidEnum field value)
  | None => exists d, translate_wire_event w pos = Ok d /\
      DomainEvent.pool_address d = pool w /\ DomainEvent.position_of d = pos /\
      DomainEvent.signature d = EventPosition.signature pos /\
      DomainEvent.timestamp d = EventPosition.timestamp pos
  end.
Proof.
  destruct pos. destruct w as [e|e|e|e|e|e|e|e|e|e|e|e|e|e|e|e|e|e|e];
    try (eexists; split; [reflexivity|]; done).
  - cbn [invalid_field]. unfold translate_wire_event, translate_swap, TradeDirection_from_u8,
      compute_fee_token_is_a.
    destruct (Z.eqb_spec (EvtSwap2.trade_direction e) 0) as [E|E];
      destruct (Z.eqb_spec (EvtSwap2.trade_direction e) 1); [lia|..]; try done;
      destruct (Z.eqb_spec (EvtSwap2.collect_fee_mode e) 0);
      destruct (Z.eqb_spec (EvtSwap2.collect_fee_mode e) 1);
      destruct (Z.eqb_spec (EvtSwap2.collect_fee_mode e) 2); try lia; try done;
      (eexists; split; [reflexivity|]; done).
  - cbn [invalid_field]. unfold translate_wire_event, translate_liquidity, LiquidityEventKind_from_u8.
    destruct (Z.eqb_spec (EvtLiquidityChange.change_type e) 0);
      destruct (Z.eqb_spec (EvtLiquidityChange.change_type e) 1); [lia|..]; try done;
      (eexists; split; [reflexivity|]; done).
Qed.

(** A translated swap puts the traded amounts in the pool's own A/B order
    and names the fee's token as the program does: the input is on A exactly
    when A was sold, and the fee is on A exactly when the fee is taken on the
    output ([collect_fee_mode] 0) and A was bought. *)
Theorem translate_swap_orientation (e : EvtSwap2.t) (pos : EventPosition.t)
    (d : MeteoraDammV2SwapEvent.t) :
  translate_swap e pos = Ok d ->
  (EvtSwap2.trade_direction e = 0 \/ EvtSwap2.trade_direction e = 1) /\
  MeteoraDammV2SwapEvent.trade_direction d =
    (if EvtSwap2.trade_direction e =? 0 then AtoB else BtoA) /\
  (let (sold, bought) :=
     if EvtSwap2.trade_direction e =? 0
     then (MeteoraDammV2SwapEvent.amount_a d, MeteoraDammV2SwapEvent.amount_b d)
     else (MeteoraDammV2SwapEvent.amount_b d, MeteoraDammV2SwapEvent.amount_a d) in
   sold = EvtSwap2.included_transfer_fee_amount_in e /\
   bought = EvtSwap2.included_transfer_fee_amount_out e) /\
  (MeteoraDammV2SwapEvent.fee_token_is_a d = true <->
   EvtSwap2.trade_direction e = 1 /\ EvtSwap2.collect_fee_mode e = 0) /\
  MeteoraDammV2SwapEvent.next_sqrt_price d = SwapResult2.next_sqrt_price (EvtSwap2.swap_result e) /\
  MeteoraDammV2SwapEvent.reserve_a_after d = EvtSwap2.reserve_a_amount e /\
  MeteoraDammV2SwapEvent.reserve_b_after d = EvtSwap2.reserve_b_amount e.
Proof.
  unfold translate_swap, TradeDirection_from_u8, compute_fee_token_is_a.
  destruct (Z.eqb_spec (EvtSwap2.trade_direction e) 0) as [E|E];
    [|destruct (Z.eqb_spec (EvtSwap2.trade_direction e) 1) as [E'|E']; [|done]];
  cbn [map_err result_bind];
  (destruct (Z.eqb_spec (EvtSwap2.collect_fee_mode e) 0);
    [|destruct (Z.eqb_spec (EvtSwap2.collect_fee_mode e) 1);
      [|destruct (Z.eqb_spec (EvtSwap2.collect_fee_mode e) 2); [|done]]]);
  cbn [map_err result_bind]; intros [= <-]; simpl; intuition (congruence || lia).
Qed.

Lemma translate_swap_orientation_witness :
  exists d, translate_swap leg_b (TransactionPosition.at_index reference_position 1) = Ok d /\
    (MeteoraDammV2SwapEvent.fee_token_is_a d = true <->
     EvtSwap2.trade_direction leg_b = 1 /\ EvtSwap2.collect_fee_mode leg_b = 0).
Proof.
  eexists. split; [reflexivity|].
  eapply (translate_swap_orientation leg_b (TransactionPosition.at_index reference_position 1)).
  reflexivity.
Defined.

(** ** The whole transaction *)

Section Transaction.
Context `{Borsh} `{Sha256} `{Base58}.

Definition translated (pos : TransactionPosition.t) (ie : IndexedWireEvent.t) :
    result DomainEvent.t TranslationError :=
  translate_wire_event (IndexedWireEvent.event ie)
    (TransactionPosition.at_index pos (IndexedWireEvent.event_index ie)).

Definition translation_failure (pos : TransactionPosition.t) (ie : IndexedWireEvent.t) :
    option ExtractionFailure :=
  match translated pos ie with
  | Ok _ => None
  | Err e => Some (FailedTranslation (wire_event_name (IndexedWireEvent.event ie))
      (TranslationError_to_string e))
  end.

Lemma foldl_push_unknown {A} (f : A -> UnknownEventInfo.t) out (l : list A) :
  foldl (fun out a => ExtractionOutcome.push_unknown out (f a)) out l =
  ExtractionOutcome.mk (ExtractionOutcome.events out)
    (ExtractionOutcome.unknown out ++ map f l) (ExtractionOutcome.failures out).
Proof.
  revert out. induction l as [|a l IH]; intros out; simpl.
  - rewrite app_nil_r. by destruct out.
  - rewrite IH. simpl. by rewrite <- app_assoc.
Qed.

Lemma foldl_push_failure {A} (f : A -> ExtractionFailure) out (l : list A) :
  foldl (fun out a => ExtractionOutcome.push_failure out (f a)) out l =
  ExtractionOutcome.mk (ExtractionOutcome.events out) (ExtractionOutcome.unknown out)
    (ExtractionOutcome.failures out ++ map f l).
Proof.
  revert out. induction l as [|a l IH]; intros out; simpl.
  - rewrite app_nil_r. by destruct out.
  - rewrite IH. simpl. by rewrite <- app_assoc.
Qed.

Lemma foldl_translate_step pos out l :
  foldl (translate_step pos) out l =
  ExtractionOutcome.mk
    (ExtractionOutcome.events out ++ omap (fun ie => result_ok (translated pos ie)) l)
    (ExtractionOutcome.unknown out)
    (ExtractionOutcome.failures out ++ omap (translation_failure pos) l).
Proof.
  revert out. induction l as [|ie l IH]; intros out.
  { simpl. rewrite !app_nil_r. by destruct out. }
  cbn [foldl omap list_omap]. rewrite IH. unfold translate_step, translation_failure, translated.
  destruct (translate_wire_event _ _); simpl; by rewrite <- app_assoc.
Qed.

Lemma translate_extracted_events_eq wire protocol pos :
  translate_extracted_events wire protocol pos =
  Ok (ExtractionOutcome.mk
    (omap (fun ie => result_ok (translated pos ie)) (ExtractedEvents.events wire))
    (map (UnknownEventInfo.mk protocol) (ExtractedEvents.unknown wire))
    (map map_extractor_failure (ExtractedEvents.failures wire) ++
      omap (translation_failure pos) (ExtractedEvents.events wire))).
Proof.
  unfold translate_extracted_events.
  by rewrite foldl_push_unknown, foldl_push_failure, foldl_translate_step.
Qed.

Lemma translated_position pos ie d :
  translated pos ie = Ok d ->
  DomainEvent.pool_address d = pool (IndexedWireEvent.event ie) /\
  DomainEvent.position_of d = TransactionPosition.at_index pos (IndexedWireEvent.event_index ie).
Proof.
  apply translate_wire_event_Ok.
Qed.

Lemma omap_result_length pos l :
  length l = (length (omap (fun ie => result_ok (translated pos ie)) l) +
    length (omap (translation_failure pos) l))%nat.
Proof.
  induction l as [|ie l IH]; [done|]. cbn [omap list_omap]. unfold translation_failure at 1.
  destruct (translated pos ie); simpl; lia.
Qed.

Definition index_of (d : DomainEvent.t) : Z := EventPosition.event_index (DomainEvent.position_of d).

Lemma translated_sorted pos l :
  StronglySorted (fun a b => IndexedWireEvent.event_index a < IndexedWireEvent.event_index b) l ->
  StronglySorted (fun a b => index_of a < index_of b)
    (omap (fun ie => result_ok (translated pos ie)) l).
Proof.
  induction 1 as [|ie l _ IH Hall]; cbn [omap list_omap]; [constructor|].
  destruct (translated pos ie) as [d|e] eqn:Hd; simpl; [|done]. constructor; [done|].
  apply Forall_forall. intros d' (ie' & Hie' & Hd')%list_elem_of_omap.
  destruct (translated pos ie') as [d''|] eqn:Htr; [injection Hd' as ->|discriminate Hd'].
  apply translated_position in Hd as [_ Hd], Htr as [_ Htr].
  unfold index_of. rewrite Hd, Htr. simpl.
  rewrite Forall_forall in Hall. by apply Hall.
Qed.
End Transaction.

(** C3: extracting a transaction never fails as a whole and drops nothing
    silently: every payload addressed to the DAMM v2 program ends as exactly one
    domain event, unknown entry or failure, unless it is an ordinary instruction
    or the deprecated split. Each event sits at the transaction's own position
    with its payload's index, so the keys (signature, event index) the rows are
    stored under are pairwise distinct; extraction for DLMM yields nothing. *)
Theorem extract_accounts `{Borsh} `{Sha256} `{Base58} (tx : OnChainTransaction.t) :
  extract MeteoraDlmm tx = Ok ExtractionOutcome.default /\
  exists out, extract MeteoraDammV2 tx = Ok out /\
    StronglySorted (fun a b => index_of a < index_of b) (ExtractionOutcome.events out) /\
    (forall d, In d (ExtractionOutcome.events out) -> exists i raw disc body w,
      extract_anchor_event_cpis tx (program_id MeteoraDammV2) !! i = Some raw /\
      decode_anchor_event_cpi raw = Ok (disc, body) /\
      dispatch disc body KnownDiscriminators.compute = Recognized w /\
      DomainEvent.pool_address d = pool w /\
      DomainEvent.position_of d =
        TransactionPosition.at_index (OnChainTransaction.position tx) (Z.of_nat i)) /\
    Z.of_nat (length (extract_anchor_event_cpis tx (program_id MeteoraDammV2))) =
      Z.of_nat (length (ExtractionOutcome.events out)) +
      Z.of_nat (length (ExtractionOutcome.unknown out)) +
      Z.of_nat (length (ExtractionOutcome.failures out)) +
      Z.of_nat (length (omap fate_silent (fates tx (program_id MeteoraDammV2)))).
Proof.
  split; [done|]. eexists. split.
  { cbn [extract extractor_of extractor_events damm_v2_extractor]. unfold damm_v2_extract_events.
    apply translate_extracted_events_eq. }
  set (pid := program_id MeteoraDammV2). set (pos := OnChainTransaction.position tx).
  rewrite extract_wire_events_fates. cbn [ExtractedEvents.events ExtractedEvents.unknown
    ExtractedEvents.failures ExtractionOutcome.events ExtractionOutcome.unknown
    ExtractionOutcome.failures]. split_and!.
  - apply translated_sorted. eapply (omap_events_sorted _ 0). intros i e Hi.
    by apply fates_event_index in Hi.
  - intros d Hd. apply list_elem_of_In, list_elem_of_omap in Hd as (ie & Hie & Hd).
    apply list_elem_of_omap in Hie as (f & [i Hi]%list_elem_of_lookup & Hf).
    destruct f; try discriminate Hf. injection Hf as ->.
    apply fates_lookup in Hi as (raw & Hraw & Hfate). symmetry in Hfate.
    apply fate_of_event in Hfate as (_ & Hix & disc & body & Hdec & Hdis).
    destruct (translated pos ie) as [d'|] eqn:Htr; [injection Hd as ->|discriminate Hd].
    apply translated_position in Htr as [Hpool Hpos]. rewrite Hix in Hpos.
    exists i, raw, disc, body, (IndexedWireEvent.event ie). done.
  - rewrite length_app, !length_map, !Nat2Z.inj_add.
    pose proof (omap_result_length pos (omap fate_event (fates tx pid))) as Hl.
    assert (length (extract_anchor_event_cpis tx pid) = length (fates tx pid)) as ->.
    { unfold fates. by rewrite length_map, length_imap. }
    pose proof (omap_partition fate_event fate_unknown fate_failure fate_silent (fates tx pid)
      ltac:(by intros [| | | |])). subst pid pos. unfold UnknownEvent in *. lia.
Qed.
