(* ===== verification/FeeParameters.v ===== *)
(** * Fee parameters carried by DAMM v2 events

    [src/crates/core/src/application/extraction/meteora/damm_v2/fee_parameters.rs]
    and the types of [domain/meteora/damm_v2/pool_fees/model.rs]. *)

From S2P Require Import Prelude External Domain WireEvents Translator WireRoundTrip Reference.

(** ** The decoded fees ([pool_fees/model.rs]) *)

Inductive MeteoraDammV2FeeDecay : Type :=
| Linear
| Exponential.

Inductive MeteoraDammV2BaseFee : Type :=
| TimeScheduler (decay : MeteoraDammV2FeeDecay)
    (cliff_fee_numerator number_of_period period_frequency reduction_factor : Z)
| RateLimiter
    (cliff_fee_numerator fee_increment_bps max_limiter_duration max_fee_bps reference_amount : Z)
| MarketCapScheduler (decay : MeteoraDammV2FeeDecay)
    (cliff_fee_numerator number_of_period sqrt_price_step_bps scheduler_expiration_duration
     reduction_factor : Z).

Module MeteoraDammV2DynamicFee.
Record t : Type := mk {
  bin_step : Z;
  bin_step_u128 : Z;
  filter_period : Z;
  decay_period : Z;
  reduction_factor : Z;
  max_volatility_accumulator : Z;
  variable_fee_control : Z;
}.
End MeteoraDammV2DynamicFee.

Module MeteoraDammV2PoolFees.
Record t : Type := mk {
  base_fee : MeteoraDammV2BaseFee;
  compounding_fee_bps : Z;
  dynamic_fee : option MeteoraDammV2DynamicFee.t;
}.
End MeteoraDammV2PoolFees.

Inductive MeteoraDammV2DynamicFeeUpdate : Type :=
| Unchanged
| Disabled
| Set_ (fee : MeteoraDammV2DynamicFee.t).

Module MeteoraDammV2PoolFeesUpdate.
Record t : Type := mk {
  cliff_fee_numerator : option Z;
  dynamic_fee : MeteoraDammV2DynamicFeeUpdate;
  compounding_fee_bps : option Z;
}.
End MeteoraDammV2PoolFeesUpdate.

(** ** Rejections *)

Definition BASE_FEE_LEN : nat := 27.
Definition BASE_FEE_MODE_OFFSET : nat := 26.
Definition DYNAMIC_FEE_LEN : nat := 32.

Inductive MeteoraDammV2FeeParametersRejection : Type :=
| UnknownBaseFeeMode (mode : Z)
| InvalidOptionTag (field : string) (tag : Z)
| Truncated (field : string) (len need : Z)
| TrailingBytes (len : Z)
| NonZeroPadding (value : Z).

Definition Rejection : Type := MeteoraDammV2FeeParametersRejection.

Definition Rejection_as_str (r : Rejection) : string :=
  match r with
  | UnknownBaseFeeMode _ => "unknown_base_fee_mode"
  | InvalidOptionTag _ _ => "invalid_option_tag"
  | Truncated _ _ _ => "truncated"
  | TrailingBytes _ => "trailing_bytes"
  | NonZeroPadding _ => "non_zero_padding"
  end.

(** ** The reader: the bytes left *)

Module Reader.
Definition take (n : nat) (field : string) (rest : list Z) : result (list Z * list Z) Rejection :=
  if (length rest <? n)%nat
  then Err (Truncated field (Z.of_nat (length rest)) (Z.of_nat n))
  else Ok (firstn n rest, skipn n rest).

(** A borsh [Option] tag: whether a value follows. *)
Definition option_tag (field : string) (rest : list Z) : result (bool * list Z) Rejection :=
  let? (head, rest) := take 1 field rest in
  match head with
  | [tag] =>
      if tag =? 0 then Ok (false, rest)
      else if tag =? 1 then Ok (true, rest)
      else Err (InvalidOptionTag field tag)
  | _ => Ok (false, rest)
  end.

Definition is_empty (rest : list Z) : bool := match rest with [] => true | _ => false end.

Definition finish (rest : list Z) : result unit Rejection :=
  match length rest with
  | O => Ok ()
  | len => Err (TrailingBytes (Z.of_nat len))
  end.
End Reader.

Definition decode_base_fee (bytes : list Z) : result MeteoraDammV2BaseFee Rejection :=
  let u16_at at_ := uint_at 2 at_ bytes in
  let u32_at at_ := uint_at 4 at_ bytes in
  let u64_at at_ := uint_at 8 at_ bytes in
  let cliff_fee_numerator := u64_at 0%nat in
  let decay linear mode := if mode =? linear then Linear else Exponential in
  let mode := uint_at 1 BASE_FEE_MODE_OFFSET bytes in
  if (mode =? 0) || (mode =? 1) then
    Ok (TimeScheduler (decay 0 mode) cliff_fee_numerator (u16_at 8%nat) (u64_at 10%nat)
      (u64_at 18%nat))
  else if mode =? 2 then
    Ok (RateLimiter cliff_fee_numerator (u16_at 8%nat) (u32_at 10%nat) (u32_at 14%nat)
      (u64_at 18%nat))
  else if (mode =? 3) || (mode =? 4) then
    Ok (MarketCapScheduler (decay 3 mode) cliff_fee_numerator (u16_at 8%nat) (u32_at 10%nat)
      (u32_at 14%nat) (u64_at 18%nat))
  else Err (UnknownBaseFeeMode mode).

Definition decode_dynamic_fee (bytes : list Z) : MeteoraDammV2DynamicFee.t := {|
  MeteoraDammV2DynamicFee.bin_step := uint_at 2 0 bytes;
  MeteoraDammV2DynamicFee.bin_step_u128 := uint_at 16 2 bytes;
  MeteoraDammV2DynamicFee.filter_period := uint_at 2 18 bytes;
  MeteoraDammV2DynamicFee.decay_period := uint_at 2 20 bytes;
  MeteoraDammV2DynamicFee.reduction_factor := uint_at 2 22 bytes;
  MeteoraDammV2DynamicFee.max_volatility_accumulator := uint_at 4 24 bytes;
  MeteoraDammV2DynamicFee.variable_fee_control := uint_at 4 28 bytes;
|}.

Definition decode_meteora_damm_v2_pool_fees (raw : list Z) :
    result MeteoraDammV2PoolFees.t Rejection :=
  let? (base_bytes, reader) := Reader.take BASE_FEE_LEN "base_fee" raw in
  let? base_fee := decode_base_fee base_bytes in
  let? (compounding, reader) := Reader.take 2 "compounding_fee_bps" reader in
  let compounding_fee_bps := le_decode compounding in
  let? (padding_bytes, reader) := Reader.take 1 "padding" reader in
  let padding := le_decode padding_bytes in
  if negb (padding =? 0) then Err (NonZeroPadding padding)
  else
    let? (tag, reader) := Reader.option_tag "dynamic_fee" reader in
    let? (dynamic_fee, reader) :=
      if tag : bool then
        let? (bytes, reader) := Reader.take DYNAMIC_FEE_LEN "dynamic_fee" reader in
        Ok (Some (decode_dynamic_fee bytes), reader)
      else Ok (None, reader) in
    let? _ := Reader.finish reader in
    Ok (MeteoraDammV2PoolFees.mk base_fee compounding_fee_bps dynamic_fee).

Definition decode_meteora_damm_v2_pool_fees_update (raw : list Z) :
    result MeteoraDammV2PoolFeesUpdate.t Rejection :=
  let? (tag, reader) := Reader.option_tag "cliff_fee_numerator" raw in
  let? (cliff_fee_numerator, reader) :=
    if tag : bool then
      let? (bytes, reader) := Reader.take 8 "cliff_fee_numerator" reader in
      Ok (Some (le_decode bytes), reader)
    else Ok (None, reader) in
  let? (tag, reader) := Reader.option_tag "dynamic_fee" reader in
  let? (dynamic_fee, reader) :=
    if negb tag then Ok (Unchanged, reader)
    else
      let? (bytes, reader) := Reader.take DYNAMIC_FEE_LEN "dynamic_fee" reader in
      if forallb (fun b => b =? 0) bytes then Ok (Disabled, reader)
      else Ok (Set_ (decode_dynamic_fee bytes), reader) in
  let? (tag, reader) :=
    if negb (Reader.is_empty reader) then Reader.option_tag "compounding_fee_bps" reader
    else Ok (false, reader) in
  let? (compounding_fee_bps, reader) :=
    if tag : bool then
      let? (bytes, reader) := Reader.take 2 "compounding_fee_bps" reader in
      Ok (Some (le_decode bytes), reader)
    else Ok (None, reader) in
  let? _ := Reader.finish reader in
  Ok (MeteoraDammV2PoolFeesUpdate.mk cliff_fee_numerator dynamic_fee compounding_fee_bps).

(** ** The bytes cp-amm writes for a value: the specification of the decoders *)

Definition encode_decay (linear exponential : Z) (d : MeteoraDammV2FeeDecay) : Z :=
  match d with Linear => linear | Exponential => exponential end.

Definition encode_base_fee (b : MeteoraDammV2BaseFee) : list Z :=
  match b with
  | TimeScheduler decay cliff periods frequency reduction =>
      le_encode 8 cliff ++ le_encode 2 periods ++ le_encode 8 frequency ++
      le_encode 8 reduction ++ [encode_decay 0 1 decay]
  | RateLimiter cliff increment duration max reference =>
      le_encode 8 cliff ++ le_encode 2 increment ++ le_encode 4 duration ++ le_encode 4 max ++
      le_encode 8 reference ++ [2]
  | MarketCapScheduler decay cliff periods step expiration reduction =>
      le_encode 8 cliff ++ le_encode 2 periods ++ le_encode 4 step ++ le_encode 4 expiration ++
      le_encode 8 reduction ++ [encode_decay 3 4 decay]
  end.

Definition base_fee_wf (b : MeteoraDammV2BaseFee) : Prop :=
  match b with
  | TimeScheduler _ cliff periods frequency reduction =>
      is_uint 64 cliff /\ is_uint 16 periods /\ is_uint 64 frequency /\ is_uint 64 reduction
  | RateLimiter cliff increment duration max reference =>
      is_uint 64 cliff /\ is_uint 16 increment /\ is_uint 32 duration /\ is_uint 32 max /\
      is_uint 64 reference
  | MarketCapScheduler _ cliff periods step expiration reduction =>
      is_uint 64 cliff /\ is_uint 16 periods /\ is_uint 32 step /\ is_uint 32 expiration /\
      is_uint 64 reduction
  end.

Definition wire_dynamic_fee (d : MeteoraDammV2DynamicFee.t) : DynamicFeeParameters.t :=
  DynamicFeeParameters.mk (MeteoraDammV2DynamicFee.bin_step d)
    (MeteoraDammV2DynamicFee.bin_step_u128 d) (MeteoraDammV2DynamicFee.filter_period d)
    (MeteoraDammV2DynamicFee.decay_period d) (MeteoraDammV2DynamicFee.reduction_factor d)
    (MeteoraDammV2DynamicFee.max_volatility_accumulator d)
    (MeteoraDammV2DynamicFee.variable_fee_control d).

Definition encode_dynamic_fee (d : MeteoraDammV2DynamicFee.t) : list Z :=
  DynamicFeeParameters.write (wire_dynamic_fee d).

(** The wire value of a pool's fees. *)
Definition wire_pool_fees (f : MeteoraDammV2PoolFees.t) (padding : Z) : PoolFeeParameters.t :=
  PoolFeeParameters.mk
    (BaseFeeParameters.mk (encode_base_fee (MeteoraDammV2PoolFees.base_fee f)))
    (MeteoraDammV2PoolFees.compounding_fee_bps f) padding
    (option_map wire_dynamic_fee (MeteoraDammV2PoolFees.dynamic_fee f)).

(** An update on the wire; [compounding_fee_bps] may be left out altogether, as
    the program's earlier layout does. *)
Definition encode_update (two_fields : bool) (u : MeteoraDammV2PoolFeesUpdate.t) : list Z :=
  write_option (le_encode 8) (MeteoraDammV2PoolFeesUpdate.cliff_fee_numerator u) ++
  match MeteoraDammV2PoolFeesUpdate.dynamic_fee u with
  | Unchanged => [0]
  | Disabled => 1 :: repeat 0 32
  | Set_ d => 1 :: encode_dynamic_fee d
  end ++
  (if two_fields then []
   else write_option (le_encode 2) (MeteoraDammV2PoolFeesUpdate.compounding_fee_bps u)).

(** ** Fee blobs decode to the fees the program wrote

    Theorems about [FeeParameters.v]: what a creation event stores and what an
    operator's update carries decode back, and which bytes are refused. *)

(** ** Fields at fixed offsets *)

Lemma uint_at_here n z rest :
  is_uint (8 * Z.of_nat n) z -> uint_at n 0 (le_encode n z ++ rest) = z.
Proof.
  intros Hz. unfold uint_at. rewrite skipn_O. rewrite take_app_length' by (by rewrite length_le_encode).
  by apply le_decode_encode.
Qed.

Lemma uint_at_skip n m k z rest :
  (m <= k)%nat -> uint_at n k (le_encode m z ++ rest) = uint_at n (k - m) rest.
Proof.
  intros Hk. unfold uint_at. rewrite skipn_app, length_le_encode.
  rewrite skipn_all2 by (rewrite length_le_encode; lia). done.
Qed.

Lemma uint_at_byte b : uint_at 1 0 [b] = b.
Proof. unfold uint_at, le_decode. simpl. lia. Qed.

(** Reads every field of an encoded layout at its offset. *)
Ltac read_fields :=
  repeat (first [ rewrite uint_at_here by width | rewrite uint_at_skip by lia ]; simpl Nat.sub);
  rewrite ?uint_at_byte.

Lemma decode_encode_base_fee (b : MeteoraDammV2BaseFee) :
  base_fee_wf b -> decode_base_fee (encode_base_fee b) = Ok b.
Proof.
  unfold decode_base_fee, BASE_FEE_MODE_OFFSET.
  destruct b as [d c n f r|c i du m r|d c n s e r]; cbn [encode_base_fee base_fee_wf]; intros Hb;
    destruct_and! Hb; try destruct d;
    match goal with |- context [uint_at 1 26 ?l] =>
      eassert (uint_at 1 26 l = _) as -> by (read_fields; reflexivity) end;
    cbn -[uint_at le_encode]; read_fields; done.
Qed.

Lemma decode_encode_dynamic_fee (d : MeteoraDammV2DynamicFee.t) :
  DynamicFeeParameters.wf (wire_dynamic_fee d) ->
  decode_dynamic_fee (encode_dynamic_fee d) = d.
Proof.
  unfold decode_dynamic_fee, encode_dynamic_fee, DynamicFeeParameters.write,
    DynamicFeeParameters.wf. cbn [wire_dynamic_fee DynamicFeeParameters.bin_step
    DynamicFeeParameters.bin_step_u128 DynamicFeeParameters.filter_period
    DynamicFeeParameters.decay_period DynamicFeeParameters.reduction_factor
    DynamicFeeParameters.max_volatility_accumulator DynamicFeeParameters.variable_fee_control].
  intros Hd. destruct_and! Hd.
  rewrite <- (app_nil_r (le_encode 4 (MeteoraDammV2DynamicFee.variable_fee_control d))).
  read_fields. by destruct d.
Qed.

Lemma length_encode_base_fee b : length (encode_base_fee b) = BASE_FEE_LEN.
Proof. destruct b; cbn [encode_base_fee]; rewrite !length_app, !length_le_encode; done. Qed.

Lemma length_encode_dynamic_fee d : length (encode_dynamic_fee d) = DYNAMIC_FEE_LEN.
Proof.
  unfold encode_dynamic_fee, DynamicFeeParameters.write.
  rewrite !length_app, !length_le_encode. done.
Qed.

Lemma reader_take n field bs rest :
  length bs = n -> Reader.take n field (bs ++ rest) = Ok (bs, rest).
Proof.
  intros Hl. unfold Reader.take. rewrite length_app.
  destruct (Nat.ltb_spec (length bs + length rest) n); [lia|].
  by rewrite take_app_length', drop_app_length'.
Qed.

Lemma reader_option_tag field (b : bool) rest :
  Reader.option_tag field ((if b then 1 else 0) :: rest) = Ok (b, rest).
Proof. by destruct b. Qed.

(** ** Creations *)

Section Creation.
Context `{BorshLaws}.

Lemma dynamic_to_vec d :
  DynamicFeeParameters.wf d -> DynamicFeeParameters.to_vec d = DynamicFeeParameters.write d.
Proof.
  unfold DynamicFeeParameters.wf, DynamicFeeParameters.to_vec, DynamicFeeParameters.write.
  intros Hd. destruct_and! Hd. by rewrite !write_uint_le by width.
Qed.

(** The serialization stored is the wire image. *)
Lemma pool_fees_to_vec p :
  PoolFeeParameters.wf p -> PoolFeeParameters.to_vec p = PoolFeeParameters.write p.
Proof.
  unfold PoolFeeParameters.wf, PoolFeeParameters.to_vec, PoolFeeParameters.write.
  intros (_ & Hc & Hp & Hd). rewrite !write_uint_le by width.
  destruct (PoolFeeParameters.dynamic_fee p) as [d|]; simpl.
  - by rewrite write_option_tag_byte, dynamic_to_vec.
  - by rewrite write_option_tag_byte.
Qed.
End Creation.

(** The padding and the dynamic part, once the base fee is read. *)
Lemma decode_written_fees (p : PoolFeeParameters.t) :
  PoolFeeParameters.wf p ->
  decode_meteora_damm_v2_pool_fees (PoolFeeParameters.write p) =
    let? base_fee := decode_base_fee (BaseFeeParameters.data (PoolFeeParameters.base_fee p)) in
    if negb (PoolFeeParameters.padding p =? 0) then Err (NonZeroPadding (PoolFeeParameters.padding p))
    else Ok (MeteoraDammV2PoolFees.mk base_fee (PoolFeeParameters.compounding_fee_bps p)
      (option_map (fun d => decode_dynamic_fee (DynamicFeeParameters.write d))
        (PoolFeeParameters.dynamic_fee p))).
Proof.
  unfold PoolFeeParameters.wf, decode_meteora_damm_v2_pool_fees, PoolFeeParameters.write,
    BaseFeeParameters.write, BaseFeeParameters.wf.
  intros ([Hlen _] & Hc & Hp & Hd).
  rewrite reader_take by done. cbn [result_bind].
  destruct (decode_base_fee _) as [base|]; [|done]. cbn [result_bind].
  rewrite reader_take by apply length_le_encode. cbn [result_bind].
  rewrite reader_take by apply length_le_encode. cbn [result_bind].
  rewrite !le_decode_encode by width.
  destruct (negb _); [done|].
  destruct (PoolFeeParameters.dynamic_fee p) as [d|]; simpl write_option.
  - change (1 :: DynamicFeeParameters.write d)
      with ((if true then 1 else 0) :: DynamicFeeParameters.write d).
    rewrite reader_option_tag. cbn [result_bind].
    rewrite <- (app_nil_r (DynamicFeeParameters.write d)), reader_take.
    + cbn [result_bind option_map]. done.
    + unfold DynamicFeeParameters.write. rewrite !length_app, !length_le_encode. done.
  - done.
Qed.

(** The fee blob an indexed pool creation stores decodes back to the fees
    the program wrote, base fee, compounding and dynamic part, for the three
    base-fee layouts. Any other blob the translator can store, whatever its
    base-fee bytes, is refused for one of two reasons only, an unknown mode byte
    or a nonzero padding byte: never as truncated, mis-tagged or too long. *)
Theorem creation_fees_roundtrip `{BorshLaws} (wire : EvtInitializePool.t)
    (pos : EventPosition.t) :
  EvtInitializePool.wf wire ->
  let raw := MeteoraDammV2InitializePoolEvent.pool_fees_raw (translate_initialize_pool wire pos) in
  (forall fees padding,
    EvtInitializePool.pool_fees wire = wire_pool_fees fees padding ->
    base_fee_wf (MeteoraDammV2PoolFees.base_fee fees) ->
    decode_meteora_damm_v2_pool_fees raw =
      if padding =? 0 then Ok fees else Err (NonZeroPadding padding)) /\
  (forall r, decode_meteora_damm_v2_pool_fees raw = Err r ->
    (exists mode, r = UnknownBaseFeeMode mode /\ 4 < mode < 256) \/
    (exists value, r = NonZeroPadding value /\ 0 < value < 256)).
Proof.
  intros Hwf raw. assert (PoolFeeParameters.wf (EvtInitializePool.pool_fees wire)) as Hp
    by (unfold EvtInitializePool.wf in Hwf; tauto).
  subst raw. cbn [translate_initialize_pool MeteoraDammV2InitializePoolEvent.pool_fees_raw].
  rewrite pool_fees_to_vec, decode_written_fees by done. split.
  - intros fees padding Hfees Hb. rewrite Hfees in Hp |- *. destruct fees as [base comp dyn].
    simpl in *. rewrite decode_encode_base_fee by done. cbn [result_bind].
    destruct (Z.eqb_spec padding 0); simpl; [|done]. do 2 f_equal.
    destruct dyn as [d|]; [|done]. simpl. f_equal.
    apply decode_encode_dynamic_fee. by destruct Hp as (_ & _ & _ & Hd).
  - intros r. destruct Hp as ([_ Hbytes] & _ & Hpad & _).
    destruct (decode_base_fee _) as [base|e] eqn:Hbase; cbn [result_bind].
    + destruct (Z.eqb_spec (PoolFeeParameters.padding (EvtInitializePool.pool_fees wire)) 0);
        [done|]. intros [= <-]. right. eexists. split; [done|]. uint_lia.
    + intros [= <-]. left. unfold decode_base_fee in Hbase.
      set (data := BaseFeeParameters.data _) in *.
      assert (is_uint 8 (uint_at 1 BASE_FEE_MODE_OFFSET data)) as Hm.
      { unfold uint_at. set (l := firstn 1 _).
        assert (Forall (is_uint 8) l) as Hl by (by apply Forall_take, Forall_drop).
        assert (length l <= 1)%nat by (unfold l; rewrite length_take; lia).
        destruct l as [|b [|]]; [done| |simpl in *; lia]. unfold le_decode.
        rewrite Z.mul_0_r, Z.add_0_r. by inversion Hl. }
      revert Hbase. case_tests; simpl; try done. intros [= <-]. eexists. split; [done|]. uint_lia.
Qed.

Definition launch_fees : MeteoraDammV2PoolFees.t :=
  MeteoraDammV2PoolFees.mk (TimeScheduler Linear 500000000 100 60 4750000) 0
    (Some (MeteoraDammV2DynamicFee.mk 1 1844674407370955 10 120 5000 14460000 956)).

Definition launch_event : EvtInitializePool.t := {|
  EvtInitializePool.pool := reference_pool;
  EvtInitializePool.token_a_mint := reference_pool;
  EvtInitializePool.token_b_mint := reference_pool;
  EvtInitializePool.creator := reference_pool;
  EvtInitializePool.payer := reference_pool;
  EvtInitializePool.alpha_vault := reference_pool;
  EvtInitializePool.pool_fees := wire_pool_fees launch_fees 0;
  EvtInitializePool.sqrt_min_price := 4295048016;
  EvtInitializePool.sqrt_max_price := 79226673521066979257578248091;
  EvtInitializePool.activation_type := 1;
  EvtInitializePool.collect_fee_mode := 1;
  EvtInitializePool.liquidity := 1000000;
  EvtInitializePool.sqrt_price := 2 ^ 64;
  EvtInitializePool.activation_point := 1777013942;
  EvtInitializePool.token_a_flag := 0;
  EvtInitializePool.token_b_flag := 0;
  EvtInitializePool.token_a_amount := 1;
  EvtInitializePool.token_b_amount := 2;
  EvtInitializePool.total_amount_a := 1;
  EvtInitializePool.total_amount_b := 2;
  EvtInitializePool.pool_type := 0;
|}.

Lemma creation_fees_roundtrip_witness :
  decode_meteora_damm_v2_pool_fees (MeteoraDammV2InitializePoolEvent.pool_fees_raw
    (translate_initialize_pool launch_event (TransactionPosition.at_index reference_position 0))) =
    Ok launch_fees.
Proof.
  refine (proj1 (creation_fees_roundtrip launch_event
    (TransactionPosition.at_index reference_position 0) _) launch_fees 0 eq_refl _); by_eval.
Defined.

(** ** Updates *)

Lemma forallb_zero_repeat (bs : list Z) :
  forallb (fun b => b =? 0) bs = true -> bs = repeat 0 (length bs).
Proof.
  induction bs as [|b bs IH]; simpl; [done|]. intros [Hb Hbs]%andb_true_iff.
  apply Z.eqb_eq in Hb as ->. by rewrite <- IH.
Qed.

Definition update_wf (two_fields : bool) (u : MeteoraDammV2PoolFeesUpdate.t) : Prop :=
  (forall c, MeteoraDammV2PoolFeesUpdate.cliff_fee_numerator u = Some c -> is_uint 64 c) /\
  (forall d, MeteoraDammV2PoolFeesUpdate.dynamic_fee u = Set_ d ->
    DynamicFeeParameters.wf (wire_dynamic_fee d) /\ encode_dynamic_fee d <> repeat 0 32) /\
  (forall c, MeteoraDammV2PoolFeesUpdate.compounding_fee_bps u = Some c ->
    is_uint 16 c /\ two_fields = false).

Lemma reader_tag_true field rest : Reader.option_tag field (1 :: rest) = Ok (true, rest).
Proof. done. Qed.

Lemma reader_tag_false field rest : Reader.option_tag field (0 :: rest) = Ok (false, rest).
Proof. done. Qed.

(** Reads one field of an update, its tag then its value. *)
Ltac read_update :=
  rewrite ?app_nil_r; cbn [app write_option];
  repeat (first
    [ rewrite reader_tag_true | rewrite reader_tag_false
    | rewrite reader_take by (first [ apply length_le_encode | apply length_encode_dynamic_fee
                                    | apply repeat_length ])
    | rewrite <- (app_nil_r (le_encode _ _)), reader_take by apply length_le_encode
    | rewrite le_decode_encode by (assumption || auto) ]; cbn [result_bind negb]).

Lemma set_not_disabled d :
  DynamicFeeParameters.wf (wire_dynamic_fee d) -> encode_dynamic_fee d <> repeat 0 32 ->
  forallb (fun b => b =? 0) (encode_dynamic_fee d) = false /\
  decode_dynamic_fee (encode_dynamic_fee d) = d.
Proof.
  intros Hwf Hnz. split; [|by apply decode_encode_dynamic_fee].
  destruct (forallb _ _) eqn:Hz; [|done]. apply forallb_zero_repeat in Hz.
  by rewrite length_encode_dynamic_fee in Hz.
Qed.

Lemma is_empty_app bs rest : bs <> [] -> Reader.is_empty (bs ++ rest) = false.
Proof. by destruct bs. Qed.

(** The third field, present or not, ends the update. *)
Lemma read_compounding (two_fields : bool) (comp : option Z) {A} (k : option Z -> A) :
  (forall c, comp = Some c -> is_uint 16 c /\ two_fields = false) ->
  (let reader := if two_fields then [] else write_option (le_encode 2) comp in
   let? (tag, reader) :=
     if negb (Reader.is_empty reader) then Reader.option_tag "compounding_fee_bps" reader
     else Ok (false, reader) in
   let? (compounding, reader) :=
     if tag : bool then
       let? (bytes, reader) := Reader.take 2 "compounding_fee_bps" reader in
       Ok (Some (le_decode bytes), reader)
     else Ok (None, reader) in
   let? _ := Reader.finish reader in Ok (k compounding)) = Ok (k comp).
Proof.
  intros Hc. destruct comp as [c|].
  - destruct (Hc c eq_refl) as [Hu ->]. cbn [write_option Reader.is_empty negb].
    rewrite reader_tag_true. cbn [result_bind].
    rewrite <- (app_nil_r (le_encode 2 c)), reader_take by apply length_le_encode.
    cbn [result_bind]. by rewrite le_decode_encode.
  - by destruct two_fields.
Qed.

(** An operator's fee update decodes to exactly what it changes, in both
    layouts of the program: the three fields, or the earlier two. Dynamic
    parameters that are all zero read as turning the dynamic fee off, and a
    field left out reads as left alone. *)
Theorem update_fees_roundtrip (two_fields : bool) (u : MeteoraDammV2PoolFeesUpdate.t) :
  update_wf two_fields u ->
  decode_meteora_damm_v2_pool_fees_update (encode_update two_fields u) = Ok u.
Proof.
  destruct u as [cliff dyn comp]. intros (Hc & Hd & Hcomp).
  unfold decode_meteora_damm_v2_pool_fees_update, encode_update.
  cbn [MeteoraDammV2PoolFeesUpdate.cliff_fee_numerator MeteoraDammV2PoolFeesUpdate.dynamic_fee
    MeteoraDammV2PoolFeesUpdate.compounding_fee_bps] in *.
  assert (forall d, dyn = Set_ d -> forallb (fun b => b =? 0) (encode_dynamic_fee d) = false /\
    decode_dynamic_fee (encode_dynamic_fee d) = d) as Hset
    by (intros d ->; apply set_not_disabled; by apply Hd).
  destruct cliff as [c|]; read_update; destruct dyn as [| |d]; read_update;
    try change (forallb (fun b => b =? 0) (repeat 0 32)) with true;
    try (destruct (Hset d eq_refl) as [-> ->]); cbn [result_bind];
    match goal with |- _ = Ok (MeteoraDammV2PoolFeesUpdate.mk ?c ?d _) =>
      apply (read_compounding two_fields comp (MeteoraDammV2PoolFeesUpdate.mk c d) Hcomp) end.
Qed.

Definition cliff_update : MeteoraDammV2PoolFeesUpdate.t :=
  MeteoraDammV2PoolFeesUpdate.mk (Some 10000000)
    (Set_ (MeteoraDammV2DynamicFee.mk 1 1844674407370955 10 120 5000 14460000 956)) None.

Lemma update_fees_roundtrip_witness :
  decode_meteora_damm_v2_pool_fees_update (encode_update true cliff_update) = Ok cliff_update.
Proof.
  apply (update_fees_roundtrip true cliff_update).
  split; [intros c [= <-]; by_eval|split; [intros d [= <-]; by_eval|done]].
Defined.
