(* ===== verification/PoolAccount.v ===== *)
(** * Decoding of on-chain pool accounts

    [src/crates/core/src/application/decoder.rs] and [decoder/meteora/]: the
    Module [DammV2] is damm_v2.rs, [Dlmm] is dlmm.rs. A slice past the end of
    the account panics, as the [expect]s do: [decode_pool_account] is an [exec]. *)

From Stdlib Require Import QArith Qminmax.
From S2P Require Import Prelude Errors External Amm Domain Reference.

Import Amm.DammV2.

(** ** The decoded account ([pool_account/model.rs], [pool_properties/model.rs]) *)

Module MeteoraDammV2PoolAccountProperties.
Record t : Type := mk {
  protocol_fee_percent : Z;
  referral_fee_percent : Z;
  base_fee_kind : option BaseFeeKind;
  has_dynamic_fee : bool;
  fee_scheduler : option FeeSchedulerParams;
}.
End MeteoraDammV2PoolAccountProperties.

Module MeteoraDlmmPoolAccountProperties.
Record t : Type := mk {
  bin_step : Z;
  base_factor : Z;
  base_fee_power_factor : Z;
  variable_fee_control : Z;
  max_volatility_accumulator : Z;
  protocol_share : Z;
}.
End MeteoraDlmmPoolAccountProperties.

Module PoolAccountProperties.
Inductive t : Type :=
| MeteoraDammV2 (p : MeteoraDammV2PoolAccountProperties.t)
| MeteoraDlmm (p : MeteoraDlmmPoolAccountProperties.t).

Definition protocol (p : t) : Protocol :=
  match p with
  | MeteoraDammV2 _ => Domain.damm_v2
  | MeteoraDlmm _ => Domain.MeteoraDlmm
  end.
End PoolAccountProperties.

Module PoolRegistryProperties.
Record t (D : Type) : Type := mk {
  token_a_mint : Pubkey;
  token_b_mint : Pubkey;
  fee_bps : D;
}.
Arguments mk {D}.
Arguments token_a_mint {D}.
Arguments token_b_mint {D}.
Arguments fee_bps {D}.
End PoolRegistryProperties.

Module DecodedPoolAccount.
Record t (D : Type) : Type := mk {
  registry : PoolRegistryProperties.t D;
  properties : PoolAccountProperties.t;
}.
Arguments mk {D}.
Arguments registry {D}.
Arguments properties {D}.

Definition protocol {D} (a : t D) : Protocol := PoolAccountProperties.protocol (properties a).
End DecodedPoolAccount.

Inductive PoolAccountRejection : Type :=
| UnknownProgram (program_id : Pubkey)
| NotAPoolAccount (protocol : Protocol)
| Truncated (protocol : Protocol) (len min : Z).

(** [data[at..at + n]]: panics past the end. *)
Definition slice (data : list Z) (at_ n : nat) : exec (list Z) :=
  if (at_ + n <=? length data)%nat then Done (firstn n (skipn at_ data)) else Panic.

(** [uN::from_le_bytes(data[at..at + n])] and [data[at]]. *)
Definition le_at (n : nat) (data : list Z) (at_ : nat) : exec Z :=
  let* bs := slice data at_ n in Done (le_decode bs).

Module DammV2.
Section DammV2.
Context {D : Type} `{!DecimalOps D}.

Definition POOL_DISCRIMINATOR : list Z := [0xf1; 0x9a; 0x6d; 0x04; 0x11; 0xb1; 0x6d; 0xbc].
Definition CLIFF_FEE_NUMERATOR_OFFSET : nat := 8.
Definition BASE_FEE_MODE_OFFSET : nat := 16.
Definition NUMBER_OF_PERIOD_OFFSET : nat := 22.
Definition PERIOD_FREQUENCY_OFFSET : nat := 24.
Definition REDUCTION_FACTOR_OFFSET : nat := 32.
Definition PROTOCOL_FEE_PERCENT_OFFSET : nat := 48.
Definition REFERRAL_FEE_PERCENT_OFFSET : nat := 50.
Definition DYNAMIC_FEE_INITIALIZED_OFFSET : nat := 56.
Definition TOKEN_A_MINT_OFFSET : nat := 168.
Definition TOKEN_B_MINT_OFFSET : nat := 200.
Definition ACTIVATION_POINT_OFFSET : nat := 472.
Definition ACTIVATION_TYPE_OFFSET : nat := 480.
Definition MIN_LEN : nat := TOKEN_B_MINT_OFFSET + 32.
Definition SCHEDULER_MIN_LEN : nat := ACTIVATION_TYPE_OFFSET + 1.

Definition decode_fee_scheduler (data : list Z) (base_fee_kind : option BaseFeeKind)
    (number_of_period : Z) : exec (option FeeSchedulerParams) :=
  match base_fee_kind with
  | None => Done None
  | Some kind =>
    if negb (match kind with SchedulerLinear | SchedulerExponential => true | _ => false end)
    then Done None
    else if (length data <? SCHEDULER_MIN_LEN)%nat then Done None
    else
      let* cliff_fee_numerator := le_at 8 data CLIFF_FEE_NUMERATOR_OFFSET in
      let* period_frequency := le_at 8 data PERIOD_FREQUENCY_OFFSET in
      let* reduction_factor := le_at 8 data REDUCTION_FACTOR_OFFSET in
      let* activation_point := le_at 8 data ACTIVATION_POINT_OFFSET in
      let* activation_type := le_at 1 data ACTIVATION_TYPE_OFFSET in
      Done (Some (mkFeeSchedulerParams cliff_fee_numerator number_of_period period_frequency
        reduction_factor activation_point activation_type kind))
  end.

Definition decode_pool_account (data : list Z) :
    exec (result (DecodedPoolAccount.t D) PoolAccountRejection) :=
  if (length data <? MIN_LEN)%nat
  then Done (Err (Truncated MeteoraDammV2 (Z.of_nat (length data)) (Z.of_nat MIN_LEN)))
  else
    let* head := slice data 0 8 in
    if negb (bool_decide (head = POOL_DISCRIMINATOR)) then Done (Err (NotAPoolAccount MeteoraDammV2))
    else
      let* number_of_period := le_at 2 data NUMBER_OF_PERIOD_OFFSET in
      let* mode := le_at 1 data BASE_FEE_MODE_OFFSET in
      let base_fee_kind := result_ok (base_fee_kind_from mode number_of_period) in
      let* cliff_fee_numerator := le_at 8 data CLIFF_FEE_NUMERATOR_OFFSET in
      let* token_a_mint := slice data TOKEN_A_MINT_OFFSET 32 in
      let* token_b_mint := slice data TOKEN_B_MINT_OFFSET 32 in
      let* fee_bps := fee_numerator_to_bps cliff_fee_numerator in
      let* protocol_fee_percent := le_at 1 data PROTOCOL_FEE_PERCENT_OFFSET in
      let* referral_fee_percent := le_at 1 data REFERRAL_FEE_PERCENT_OFFSET in
      let* dynamic_fee_initialized := le_at 1 data DYNAMIC_FEE_INITIALIZED_OFFSET in
      let* fee_scheduler := decode_fee_scheduler data base_fee_kind number_of_period in
      Done (Ok (DecodedPoolAccount.mk
        (PoolRegistryProperties.mk token_a_mint token_b_mint fee_bps)
        (PoolAccountProperties.MeteoraDammV2 (MeteoraDammV2PoolAccountProperties.mk
          protocol_fee_percent referral_fee_percent base_fee_kind
          (negb (dynamic_fee_initialized =? 0)) fee_scheduler)))).
End DammV2.
End DammV2.

Module Dlmm.
Section Dlmm.
Context {D : Type} `{!DecimalOps D}.

Definition LB_PAIR_DISCRIMINATOR : list Z := [0x21; 0x0b; 0x31; 0x62; 0xb5; 0x65; 0xb1; 0x0d].
Definition BASE_FACTOR_OFFSET : nat := 8.
Definition VARIABLE_FEE_CONTROL_OFFSET : nat := 16.
Definition MAX_VOLATILITY_ACCUMULATOR_OFFSET : nat := 20.
Definition PROTOCOL_SHARE_OFFSET : nat := 32.
Definition BASE_FEE_POWER_FACTOR_OFFSET : nat := 34.
Definition BIN_STEP_OFFSET : nat := 80.
Definition TOKEN_X_MINT_OFFSET : nat := 88.
Definition TOKEN_Y_MINT_OFFSET : nat := 120.
Definition MIN_LEN : nat := TOKEN_Y_MINT_OFFSET + 32.

Definition u16_at (data : list Z) (offset : nat) : exec Z := le_at 2 data offset.
Definition u32_at (data : list Z) (offset : nat) : exec Z := le_at 4 data offset.

Definition decode_pool_account (data : list Z) :
    exec (result (DecodedPoolAccount.t D) PoolAccountRejection) :=
  if (length data <? MIN_LEN)%nat
  then Done (Err (Truncated MeteoraDlmm (Z.of_nat (length data)) (Z.of_nat MIN_LEN)))
  else
    let* head := slice data 0 8 in
    if negb (bool_decide (head = LB_PAIR_DISCRIMINATOR)) then Done (Err (NotAPoolAccount MeteoraDlmm))
    else
      let* bin_step := u16_at data BIN_STEP_OFFSET in
      let* base_factor := u16_at data BASE_FACTOR_OFFSET in
      let* base_fee_power_factor := le_at 1 data BASE_FEE_POWER_FACTOR_OFFSET in
      let* token_a_mint := slice data TOKEN_X_MINT_OFFSET 32 in
      let* token_b_mint := slice data TOKEN_Y_MINT_OFFSET 32 in
      let* fee_bps := Amm.Dlmm.base_fee_bps base_factor bin_step base_fee_power_factor in
      let* variable_fee_control := u32_at data VARIABLE_FEE_CONTROL_OFFSET in
      let* max_volatility_accumulator := u32_at data MAX_VOLATILITY_ACCUMULATOR_OFFSET in
      let* protocol_share := u16_at data PROTOCOL_SHARE_OFFSET in
      Done (Ok (DecodedPoolAccount.mk
        (PoolRegistryProperties.mk token_a_mint token_b_mint fee_bps)
        (PoolAccountProperties.MeteoraDlmm (MeteoraDlmmPoolAccountProperties.mk
          bin_step base_factor base_fee_power_factor variable_fee_control
          max_volatility_accumulator protocol_share)))).
End Dlmm.
End Dlmm.

(** ** [decoder.rs] *)

Definition decode_pool_account {D} `{!DecimalOps D} `{Base58} (program_id : Pubkey)
    (data : list Z) : exec (result (DecodedPoolAccount.t D) PoolAccountRejection) :=
  match from_program_id program_id with
  | None => Done (Err (UnknownProgram program_id))
  | Some MeteoraDammV2 => DammV2.decode_pool_account data
  | Some MeteoraDlmm => Dlmm.decode_pool_account data
  end.

(** ** Pool accounts decode safely

    The decoders of [PoolAccount.v] never read out of bounds, name the reason of
    every refusal, and build a fee scheduler only from bytes that are one. *)

#[local] Open Scope Z_scope.
Import Amm.DammV2.

Lemma slice_ok data at_ n :
  (at_ + n <= length data)%nat -> slice data at_ n = Done (firstn n (skipn at_ data)).
Proof. intros H. unfold slice. destruct (Nat.leb_spec (at_ + n) (length data)); [done|lia]. Qed.

Lemma le_at_ok n data at_ :
  (at_ + n <= length data)%nat -> le_at n data at_ = Done (uint_at n at_ data).
Proof. intros H. unfold le_at. by rewrite slice_ok. Qed.

(** The offsets and lengths of the layouts, as numbers. *)
Ltac offsets := cbv [PoolAccount.DammV2.MIN_LEN PoolAccount.Dlmm.MIN_LEN
  PoolAccount.DammV2.CLIFF_FEE_NUMERATOR_OFFSET
  PoolAccount.DammV2.BASE_FEE_MODE_OFFSET
  PoolAccount.DammV2.NUMBER_OF_PERIOD_OFFSET
  PoolAccount.DammV2.PERIOD_FREQUENCY_OFFSET
  PoolAccount.DammV2.REDUCTION_FACTOR_OFFSET
  PoolAccount.DammV2.PROTOCOL_FEE_PERCENT_OFFSET
  PoolAccount.DammV2.REFERRAL_FEE_PERCENT_OFFSET
  PoolAccount.DammV2.DYNAMIC_FEE_INITIALIZED_OFFSET
  PoolAccount.DammV2.TOKEN_A_MINT_OFFSET
  PoolAccount.DammV2.TOKEN_B_MINT_OFFSET
  PoolAccount.DammV2.ACTIVATION_POINT_OFFSET
  PoolAccount.DammV2.ACTIVATION_TYPE_OFFSET
  PoolAccount.DammV2.SCHEDULER_MIN_LEN
  PoolAccount.Dlmm.BASE_FACTOR_OFFSET
  PoolAccount.Dlmm.VARIABLE_FEE_CONTROL_OFFSET
  PoolAccount.Dlmm.MAX_VOLATILITY_ACCUMULATOR_OFFSET
  PoolAccount.Dlmm.PROTOCOL_SHARE_OFFSET
  PoolAccount.Dlmm.BASE_FEE_POWER_FACTOR_OFFSET
  PoolAccount.Dlmm.BIN_STEP_OFFSET
  PoolAccount.Dlmm.TOKEN_X_MINT_OFFSET
  PoolAccount.Dlmm.TOKEN_Y_MINT_OFFSET] in *; simpl Nat.add in *.

(** Reads every field of an account whose length was checked. *)
Ltac read_account :=
  repeat (first [ rewrite slice_ok by (offsets; lia) | rewrite le_at_ok by (offsets; lia) ];
          cbn [exec_bind]).

Section PoolAccounts.
Context {D : Type} `{DecimalLaws D} `{Base58}.

Lemma fee_numerator_to_bps_spec n :
  is_uint 64 n -> exists bps, fee_numerator_to_bps n = Done bps /\
    (dec_val bps == inject_Z n / inject_Z (10 ^ 5))%Q.
Proof.
  intros Hn. unfold fee_numerator_to_bps. change (FEE_DENOMINATOR / 10000) with (10 ^ 5).
  apply dec_div_pow10; [apply dec_of_Z_exact|..]; uint_lia.
Qed.

(** What a decoded scheduler says of the account it came from. *)
Definition scheduler_ok (data : list Z) (kind : option BaseFeeKind)
    (scheduler : option FeeSchedulerParams) : Prop :=
  match scheduler with
  | Some p => FeeSchedulerParams_wf p /\ Some (Amm.DammV2.kind p) = kind /\
      (Amm.DammV2.kind p = SchedulerLinear \/ Amm.DammV2.kind p = SchedulerExponential) /\
      0 < number_of_period p /\ Z.of_nat (length data) >= 481 /\
      cliff_fee_numerator p = uint_at 8 8 data /\ activation_point p = uint_at 8 472 data
  | None => (kind <> Some SchedulerLinear /\ kind <> Some SchedulerExponential) \/
      Z.of_nat (length data) < 481
  end.

Lemma base_fee_kind_scheduler mode periods k :
  is_uint 16 periods -> base_fee_kind_from mode periods = Ok k ->
  k = SchedulerLinear \/ k = SchedulerExponential -> 0 < periods.
Proof.
  intros Hp Hk Hs. destruct (Z.eq_dec periods 0) as [->|]; [|unfold is_uint in Hp; lia].
  revert Hk. unfold base_fee_kind_from. case_tests; simpl; naive_solver.
Qed.

Lemma decode_fee_scheduler_spec data mode :
  Forall (is_uint 8) data ->
  let periods := uint_at 2 22 data in
  let kind := result_ok (base_fee_kind_from mode periods) in
  exists s, PoolAccount.DammV2.decode_fee_scheduler data kind periods = Done s /\
    scheduler_ok data kind s.
Proof.
  intros Hb periods kind. assert (is_uint 16 periods) as Hp by by apply (uint_at_bound 2).
  unfold PoolAccount.DammV2.decode_fee_scheduler.
  destruct kind as [k|] eqn:Hkind; [|eexists; split; [done|]; simpl; naive_solver].
  assert (base_fee_kind_from mode periods = Ok k) as Hk
    by (subst kind; destruct (base_fee_kind_from _ _); naive_solver).
  destruct (decide (k = SchedulerLinear \/ k = SchedulerExponential)) as [Hs|Hs].
  - replace (negb _) with false by (by destruct Hs as [->| ->]).
    destruct (Nat.ltb_spec (length data) PoolAccount.DammV2.SCHEDULER_MIN_LEN) as [Hl|Hl].
    { eexists. split; [done|]. right. offsets. lia. }
    read_account. eexists. split; [done|]. cbn [scheduler_ok].
    apply (base_fee_kind_scheduler mode periods k) in Hs as Hpos; [|done..].
    split_and!; try done; [|offsets; lia].
    split; simpl; [by apply (uint_at_bound 8)|done|by apply (uint_at_bound 8)..].
  - replace (negb _) with true by (destruct k; naive_solver).
    eexists. split; [done|]. left. naive_solver.
Qed.

(** The two layouts, byte by byte. *)
Definition kind_shown (mode periods : Z) : option BaseFeeKind :=
  match mode, periods with
  | 2, _ => Some RateLimiter
  | 0, 0 | 1, 0 | 3, 0 | 4, 0 => Some Constant
  | 0, _ => Some SchedulerLinear
  | 1, _ => Some SchedulerExponential
  | 3, _ => Some MarketCapSchedulerLinear
  | 4, _ => Some MarketCapSchedulerExponential
  | _, _ => None
  end.

Definition scheduler_shown (data : list Z) : option FeeSchedulerParams :=
  let scheduler kind :=
    if Z.of_nat (length data) <? 481 then None
    else Some (mkFeeSchedulerParams (uint_at 8 8 data) (uint_at 2 22 data) (uint_at 8 24 data)
      (uint_at 8 32 data) (uint_at 8 472 data) (uint_at 1 480 data) kind) in
  match kind_shown (uint_at 1 16 data) (uint_at 2 22 data) with
  | Some SchedulerLinear => scheduler SchedulerLinear
  | Some SchedulerExponential => scheduler SchedulerExponential
  | _ => None
  end.

Definition damm_v2_shown (data : list Z) : MeteoraDammV2PoolAccountProperties.t :=
  MeteoraDammV2PoolAccountProperties.mk (uint_at 1 48 data) (uint_at 1 50 data)
    (kind_shown (uint_at 1 16 data) (uint_at 2 22 data)) (negb (uint_at 1 56 data =? 0))
    (scheduler_shown data).

Definition dlmm_shown (data : list Z) : MeteoraDlmmPoolAccountProperties.t :=
  MeteoraDlmmPoolAccountProperties.mk (uint_at 2 80 data) (uint_at 2 8 data) (uint_at 1 34 data)
    (uint_at 4 16 data) (uint_at 4 20 data) (uint_at 2 32 data).

Lemma base_fee_kind_shown mode periods :
  result_ok (base_fee_kind_from mode periods) = kind_shown mode periods.
Proof.
  unfold base_fee_kind_from, kind_shown.
  destruct (Z.eqb_spec mode 0) as [->|]; [by destruct periods|].
  destruct (Z.eqb_spec mode 1) as [->|]; [by destruct periods|].
  destruct (Z.eqb_spec mode 3) as [->|]; [by destruct periods|].
  destruct (Z.eqb_spec mode 4) as [->|]; [by destruct periods|].
  destruct (Z.eqb_spec mode 2) as [->|]; [by destruct periods|].
  destruct mode as [|[[p|p|]|[p|[p|p|]|]|]|p]; try lia; by destruct periods.
Qed.

Lemma decode_fee_scheduler_shown data :
  DammV2.decode_fee_scheduler data (kind_shown (uint_at 1 16 data) (uint_at 2 22 data)) (uint_at 2 22 data) =
    Done (scheduler_shown data).
Proof.
  unfold DammV2.decode_fee_scheduler, scheduler_shown.
  destruct (kind_shown _ _) as [[]|]; try done; simpl negb; cbv iota;
    (destruct (Nat.ltb_spec (length data) DammV2.SCHEDULER_MIN_LEN), (Z.ltb_spec (Z.of_nat (length data)) 481);
     [done|offsets; lia|offsets; lia|]); by read_account.
Qed.

Lemma damm_v2_decodes (data : list Z) :
  Forall (is_uint 8) data ->
  exists r, DammV2.decode_pool_account (D := D) data = Done r /\
  if Z.of_nat (length data) <? 232
  then r = Err (Truncated MeteoraDammV2 (Z.of_nat (length data)) 232)
  else if negb (bool_decide (firstn 8 data = [0xf1; 0x9a; 0x6d; 0x04; 0x11; 0xb1; 0x6d; 0xbc]))
  then r = Err (NotAPoolAccount MeteoraDammV2)
  else exists fee,
    r = Ok (DecodedPoolAccount.mk
      (PoolRegistryProperties.mk (firstn 32 (skipn 168 data)) (firstn 32 (skipn 200 data)) fee)
      (PoolAccountProperties.MeteoraDammV2 (damm_v2_shown data))) /\
    (dec_val fee == inject_Z (uint_at 8 8 data) / inject_Z (10 ^ 5))%Q /\
    scheduler_ok data (kind_shown (uint_at 1 16 data) (uint_at 2 22 data)) (scheduler_shown data).
Proof.
  intros Hb. unfold DammV2.decode_pool_account.
  destruct (Nat.ltb_spec (length data) PoolAccount.DammV2.MIN_LEN) as [Hl|Hl].
  { eexists. split; [done|]. destruct (Z.ltb_spec (Z.of_nat (length data)) 232);
      [done|offsets; lia]. }
  destruct (Z.ltb_spec (Z.of_nat (length data)) 232); [offsets; lia|].
  rewrite slice_ok by (offsets; lia). cbn [exec_bind]. rewrite skipn_O.
  destruct (negb _); [by eexists|]. read_account.
  destruct (fee_numerator_to_bps_spec (uint_at 8 PoolAccount.DammV2.CLIFF_FEE_NUMERATOR_OFFSET data))
    as (fee & -> & Hfee); [by apply (uint_at_bound 8)|]. cbn [exec_bind]. read_account.
  destruct (decode_fee_scheduler_spec data (uint_at 1 16 data) Hb) as (s & Hs & Hok).
  rewrite base_fee_kind_shown in Hs, Hok |- *. rewrite decode_fee_scheduler_shown in Hs. injection Hs as <-.
  unfold PoolAccount.DammV2.NUMBER_OF_PERIOD_OFFSET, PoolAccount.DammV2.BASE_FEE_MODE_OFFSET.
  rewrite decode_fee_scheduler_shown. cbn [exec_bind]. eexists. split; [done|]. by eexists.
Qed.

Lemma dlmm_decodes (data : list Z) :
  Forall (is_uint 8) data ->
  exists r, Dlmm.decode_pool_account (D := D) data = Done r /\
  if Z.of_nat (length data) <? 152
  then r = Err (Truncated MeteoraDlmm (Z.of_nat (length data)) 152)
  else if negb (bool_decide (firstn 8 data = [0x21; 0x0b; 0x31; 0x62; 0xb5; 0x65; 0xb1; 0x0d]))
  then r = Err (NotAPoolAccount MeteoraDlmm)
  else exists fee,
    r = Ok (DecodedPoolAccount.mk
      (PoolRegistryProperties.mk (firstn 32 (skipn 88 data)) (firstn 32 (skipn 120 data)) fee)
      (PoolAccountProperties.MeteoraDlmm (dlmm_shown data))) /\
    (dec_val fee == Qmin
      (inject_Z (uint_at 2 8 data * uint_at 2 80 data * 10 ^ uint_at 1 34 data)
        / inject_Z 10000) (inject_Z 1000))%Q.
Proof.
  intros Hb. unfold Dlmm.decode_pool_account.
  destruct (Nat.ltb_spec (length data) PoolAccount.Dlmm.MIN_LEN) as [Hl|Hl].
  { eexists. split; [done|]. destruct (Z.ltb_spec (Z.of_nat (length data)) 152);
      [done|offsets; lia]. }
  destruct (Z.ltb_spec (Z.of_nat (length data)) 152); [offsets; lia|].
  rewrite slice_ok by (offsets; lia). cbn [exec_bind]. rewrite skipn_O.
  destruct (negb _); [by eexists|]. unfold PoolAccount.Dlmm.u16_at, PoolAccount.Dlmm.u32_at.
  read_account.
  destruct (base_fee_bps_value (uint_at 2 8 data) (uint_at 2 80 data) (uint_at 1 34 data))
    as (fee & Hfee & Hval); [by apply (uint_at_bound 2)..|by apply (uint_at_bound 1)|].
  unfold PoolAccount.Dlmm.BASE_FACTOR_OFFSET, PoolAccount.Dlmm.BIN_STEP_OFFSET,
    PoolAccount.Dlmm.BASE_FEE_POWER_FACTOR_OFFSET. rewrite Hfee. cbn [exec_bind]. read_account.
  eexists. split; [done|]. by eexists.
Qed.

Lemma decode_pool_account_done (owner : Pubkey) (data : list Z) :
  Forall (is_uint 8) data -> exists r, decode_pool_account (D := D) owner data = Done r.
Proof.
  intros Hb. unfold decode_pool_account. destruct (from_program_id owner) as [[|]|]; [| |by eexists].
  - destruct (damm_v2_decodes data Hb) as (r & -> & _). by eexists.
  - destruct (dlmm_decodes data Hb) as (r & -> & _). by eexists.
Qed.

(** C33: decoding a pool account never panics, whatever bytes and owner come in.
    An unindexed owner, a foreign account of the program and a short account
    each give their own refusal; otherwise every field is the bytes of its place
    in the layout: the mints, the base fee (for DAMM v2 the cliff over 1e5, for
    DLMM the capped base fee, exactly), the shape of the fee by the bytes of its
    mode and of its periods, the shares and the flags. A DAMM v2 scheduler is
    decoded only from an account long enough, of a time scheduler mode and with
    at least one period: every other account keeps its registry half. *)
Theorem decode_pool_account_spec (owner : Pubkey) (data : list Z) :
  Forall (is_uint 8) data ->
  exists r, decode_pool_account (D := D) owner data = Done r /\
  match from_program_id owner with
  | None => r = Err (UnknownProgram owner)
  | Some MeteoraDammV2 =>
      if Z.of_nat (length data) <? 232
      then r = Err (Truncated MeteoraDammV2 (Z.of_nat (length data)) 232)
      else if negb (bool_decide (firstn 8 data = [0xf1; 0x9a; 0x6d; 0x04; 0x11; 0xb1; 0x6d; 0xbc]))
      then r = Err (NotAPoolAccount MeteoraDammV2)
      else exists fee,
        r = Ok (DecodedPoolAccount.mk
          (PoolRegistryProperties.mk (firstn 32 (skipn 168 data)) (firstn 32 (skipn 200 data)) fee)
          (PoolAccountProperties.MeteoraDammV2 (damm_v2_shown data))) /\
        (dec_val fee == inject_Z (uint_at 8 8 data) / inject_Z (10 ^ 5))%Q /\
        scheduler_ok data (kind_shown (uint_at 1 16 data) (uint_at 2 22 data)) (scheduler_shown data)
  | Some MeteoraDlmm =>
      if Z.of_nat (length data) <? 152
      then r = Err (Truncated MeteoraDlmm (Z.of_nat (length data)) 152)
      else if negb (bool_decide (firstn 8 data = [0x21; 0x0b; 0x31; 0x62; 0xb5; 0x65; 0xb1; 0x0d]))
      then r = Err (NotAPoolAccount MeteoraDlmm)
      else exists fee,
        r = Ok (DecodedPoolAccount.mk
          (PoolRegistryProperties.mk (firstn 32 (skipn 88 data)) (firstn 32 (skipn 120 data)) fee)
          (PoolAccountProperties.MeteoraDlmm (dlmm_shown data))) /\
        (dec_val fee == Qmin
          (inject_Z (uint_at 2 8 data * uint_at 2 80 data * 10 ^ uint_at 1 34 data)
            / inject_Z 10000) (inject_Z 1000))%Q
  end.
Proof.
  intros Hb. unfold decode_pool_account. destruct (from_program_id owner) as [[|]|].
  - by apply damm_v2_decodes.
  - by apply dlmm_decodes.
  - by eexists.
Qed.
End PoolAccounts.

(** A linear-scheduler account of 600 bytes. *)
Definition sample_account : list Z :=
  PoolAccount.DammV2.POOL_DISCRIMINATOR ++ le_encode 8 500000000 ++ repeat 0 6 ++ le_encode 2 100 ++
  le_encode 8 60 ++ le_encode 8 4750000 ++ repeat 0 8 ++ [20; 0; 20] ++ repeat 0 5 ++ [1] ++
  repeat 0 111 ++ repeat 7 32 ++ repeat 9 32 ++ repeat 0 240 ++ le_encode 8 1700000000 ++ [1] ++
  repeat 0 119.

Lemma decode_pool_account_spec_witness :
  exists fee,
    decode_pool_account (D := Q) (program_id MeteoraDammV2) sample_account =
      Done (Ok (DecodedPoolAccount.mk
        (PoolRegistryProperties.mk (repeat 7 32) (repeat 9 32) fee)
        (PoolAccountProperties.MeteoraDammV2 (MeteoraDammV2PoolAccountProperties.mk
          20 20 (Some SchedulerLinear) true
          (Some (mkFeeSchedulerParams 500000000 100 60 4750000 1700000000 1 SchedulerLinear)))))) /\
    (dec_val fee == inject_Z 5000)%Q.
Proof.
  destruct (decode_pool_account_spec (D := Q) (program_id MeteoraDammV2) sample_account)
    as (r & Hr & Hm); [by_eval|].
  replace (from_program_id (program_id MeteoraDammV2)) with (Some MeteoraDammV2) in Hm
    by (vm_compute; reflexivity).
  replace (Z.of_nat (length sample_account) <? 232) with false in Hm by (vm_compute; reflexivity).
  replace (negb (bool_decide (firstn 8 sample_account = [0xf1; 0x9a; 0x6d; 0x04; 0x11; 0xb1; 0x6d; 0xbc])))
    with false in Hm by (vm_compute; reflexivity).
  destruct Hm as (fee & -> & Hfee & _). exists fee. split; [|by rewrite Hfee].
  rewrite Hr. vm_compute. reflexivity.
Defined.

(** The scheduler decoded from it is the launch schedule of [Amm.v]. *)
Example sample_account_scheduler :
  match decode_pool_account (D := Q) (program_id MeteoraDammV2) sample_account with
  | Done (Ok a) =>
      match DecodedPoolAccount.properties a with
      | PoolAccountProperties.MeteoraDammV2 p =>
          MeteoraDammV2PoolAccountProperties.fee_scheduler p = Some launch_params
      | _ => False
      end
  | _ => False
  end.
Proof. vm_compute. reflexivity. Qed.
