(* ===== verification/GrpcAdapter.v ===== *)
(** * The Yellowstone transaction adapter

    [src/crates/indexer/src/infra/]: grpc/transaction_adapter.rs, refusal.rs
    and the protocol lookup of grpc/subscription.rs. The protobuf messages are
    records of the fields the adapter reads. *)

From Stdlib Require Import Sorted.
From S2P Require Import Prelude OrderedMap Errors External Domain Extractor.

(** ** The protobuf messages *)

Module InnerInstruction.
Record t : Type := mk {
  program_id_index : Z;   (** u32 *)
  data : list Z;
}.
End InnerInstruction.

Module InnerInstructions.
Record t : Type := mk {
  index : Z;              (** u32 *)
  instructions : list InnerInstruction.t;
}.
End InnerInstructions.

Module TransactionStatusMeta.
Record t : Type := mk {
  inner_instructions : list InnerInstructions.t;
  inner_instructions_none : bool;
  loaded_writable_addresses : list (list Z);
  loaded_readonly_addresses : list (list Z);
}.
End TransactionStatusMeta.

Module Message.
Record t : Type := mk { account_keys : list (list Z) }.
End Message.

Module Transaction.
Record t : Type := mk { message : option Message.t }.
End Transaction.

Module SubscribeUpdateTransactionInfo.
Record t : Type := mk {
  signature : list Z;
  transaction : option Transaction.t;
  meta : option TransactionStatusMeta.t;
  index : Z;              (** u64 *)
}.
End SubscribeUpdateTransactionInfo.

Module SubscribeUpdateTransaction.
Record t : Type := mk {
  transaction : option SubscribeUpdateTransactionInfo.t;
  slot : Z;               (** u64 *)
  bank_id : Z;            (** u64 *)
}.
End SubscribeUpdateTransaction.

(** ** [refusal.rs] *)

Inductive Gap : Type :=
| Meta
| GapInnerInstructions.

Definition field (g : Gap) : string :=
  match g with
  | Meta => "meta (not captured by the source)"
  | GapInnerInstructions => "meta.inner_instructions (not captured by the source)"
  end.

Section Adapter.
Context `{SignatureDisplay}.

Definition refuse (gap : Gap) (signature : Signature) : CoreError :=
  MissingField (signature_to_string signature) (field gap).

(** ** [transaction_adapter.rs] *)

Definition SIGNATURE_BYTES : Z := 64.

(** [{}] of an integer. *)
Definition int_string (n : Z) : string := pretty.pretty n.

(** [Signature::try_from(&[u8])] and [Pubkey::try_from(&[u8])]: arrays of 64
    and of 32 bytes. *)
Definition signature_try_from (bytes : list Z) : option Signature :=
  if Z.of_nat (length bytes) =? SIGNATURE_BYTES then Some bytes else None.
Definition pubkey_try_from (bytes : list Z) : option Pubkey :=
  if Z.of_nat (length bytes) =? 32 then Some bytes else None.

Definition extract_signature (info : SubscribeUpdateTransactionInfo.t) : CoreResult Signature :=
  let bytes := SubscribeUpdateTransactionInfo.signature info in
  ok_or (signature_try_from bytes)
    (ParseError ""
      ("signature is " ++ int_string (Z.of_nat (length bytes)) ++ " bytes, expected " ++
       int_string SIGNATURE_BYTES)).

Definition extract_index (info : SubscribeUpdateTransactionInfo.t) (signature : Signature) :
    CoreResult Z :=
  let index := SubscribeUpdateTransactionInfo.index info in
  ok_or (try_uint 32 index)
    (ParseError (signature_to_string signature)
      ("transaction index " ++ int_string index ++ " does not fit in u32")).

(** [sort_by_key]. *)
Definition sort_by_index (l : list InnerInstructions.t) : list InnerInstructions.t :=
  sort_by_key InnerInstructions.index l.

(** The static keys, the loaded writable ones, the loaded readonly ones. *)
Definition account_key_segments (info : SubscribeUpdateTransactionInfo.t)
    (meta : TransactionStatusMeta.t) (signature : Signature) :
    CoreResult (list (list (list Z))) :=
  let message :=
    let! tx := SubscribeUpdateTransactionInfo.transaction info in Transaction.message tx in
  let? static_keys := ok_or (option_map Message.account_keys message)
    (MissingField (signature_to_string signature) "transaction.message") in
  Ok [static_keys; TransactionStatusMeta.loaded_writable_addresses meta;
      TransactionStatusMeta.loaded_readonly_addresses meta].

Definition key_error (signature : Signature) (index : Z) (key : list Z) : CoreError :=
  ParseError (signature_to_string signature)
    ("account key at index " ++ int_string index ++ " is " ++
     int_string (Z.of_nat (length key)) ++ " bytes, not a public key").

(** The walk over the segments: [None] past the last one. *)
Fixpoint resolve_in (remaining : nat) (segments : list (list (list Z))) : option (list Z) :=
  match segments with
  | [] => None
  | segment :: segments =>
      if (remaining <? length segment)%nat then segment !! remaining
      else resolve_in (remaining - length segment) segments
  end.

Definition resolve_program_id (index : Z) (segments : list (list (list Z)))
    (signature : Signature) : CoreResult Pubkey :=
  match resolve_in (Z.to_nat index) segments with
  | Some key => ok_or (pubkey_try_from key) (key_error signature index key)
  | None =>
      let total := foldr (fun s acc => Z.of_nat (length s) + acc) 0 segments in
      Err (ParseError (signature_to_string signature)
        ("program_id_index " ++ int_string index ++ " is outside the " ++ int_string total ++
         " account keys"))
  end.

Definition to_payload (ix : InnerInstruction.t) (segments : list (list (list Z)))
    (signature : Signature) : CoreResult InnerInstructionPayload.t :=
  let? program_id :=
    resolve_program_id (InnerInstruction.program_id_index ix) segments signature in
  Ok (InnerInstructionPayload.mk program_id (InnerInstruction.data ix)).

(** [collect::<Result<Vec<_>, _>>]: the first error wins. *)
Fixpoint collect {A B} (f : A -> CoreResult B) (l : list A) : CoreResult (list B) :=
  match l with
  | [] => Ok []
  | a :: l => let? b := f a in let? bs := collect f l in Ok (b :: bs)
  end.

Definition extract_inner_instructions (info : SubscribeUpdateTransactionInfo.t)
    (signature : Signature) : CoreResult (list InnerInstructionPayload.t) :=
  match SubscribeUpdateTransactionInfo.meta info with
  | None => Err (refuse Meta signature)
  | Some meta =>
    if TransactionStatusMeta.inner_instructions_none meta
    then Err (refuse GapInnerInstructions signature)
    else
      let? account_keys := account_key_segments info meta signature in
      let groups := sort_by_index (TransactionStatusMeta.inner_instructions meta) in
      collect (fun ix => to_payload ix account_keys signature)
        (concat (map InnerInstructions.instructions groups))
  end.

Definition from_grpc (update : SubscribeUpdateTransaction.t) (timestamp : DateTime) :
    CoreResult OnChainTransaction.t :=
  let? info := ok_or (SubscribeUpdateTransaction.transaction update)
    (MissingField "" "transaction") in
  let? signature := extract_signature info in
  let? index := extract_index info signature in
  let? inner := extract_inner_instructions info signature in
  Ok (OnChainTransaction.mk
    (TransactionPosition.mk signature timestamp (SubscribeUpdateTransaction.slot update) (Some index))
    inner).
End Adapter.

(** ** The filters an update matched ([subscription.rs]) *)

Definition BLOCK_META_FILTER : string := "block_meta".
Definition SLOT_FILTER : string := "slots".

(** [find_map] with [parse().ok()]. *)
Fixpoint protocol_of (filters : list string) : option Protocol :=
  match filters with
  | [] => None
  | name :: filters =>
    match result_ok (Protocol_from_str name) with
    | Some p => Some p
    | None => protocol_of filters
    end
  end.

(** ** The adapter is faithful to the message

    [from_grpc] accepts a message exactly when every part it needs is there,
    numbers nothing away, and keeps the emission order; every refusal is one
    of the two kinds the drop metric names. *)

Notation idx := InnerInstructions.index.

(** ** Indices resolve in the concatenated keys *)

Lemma resolve_in_concat n segments : resolve_in n segments = concat segments !! n.
Proof.
  revert n. induction segments as [|s segments IH]; intros n; simpl; [done|].
  destruct (Nat.ltb_spec n (length s)) as [Hlt|Hge].
  - by rewrite lookup_app_l.
  - by rewrite lookup_app_r, IH.
Qed.

Section Spec.
Context `{SignatureDisplay}.

Lemma collect_Ok {A B} (f : A -> CoreResult B) l bs :
  collect f l = Ok bs <-> Forall2 (fun a b => f a = Ok b) l bs.
Proof.
  revert bs. induction l as [|a l IH]; intros bs; simpl.
  - split; [intros [= <-]; constructor|]. by inversion 1.
  - split.
    + intros (b & Hb & (bs' & Hbs & [= <-])%result_bind_Ok)%result_bind_Ok.
      constructor; [done|by apply IH].
    + inversion 1 as [|? b ? bs' Hb Hbs]; subst. apply result_bind_Ok. exists b. split; [done|].
      apply result_bind_Ok. exists bs'. split; [by apply IH|done].
Qed.

Lemma collect_Err {A B} (f : A -> CoreResult B) l e :
  collect f l = Err e -> exists a, In a l /\ f a = Err e.
Proof.
  induction l as [|a l IH]; simpl; [done|].
  intros [Ha|(b & Hb & [Hl|(? & ? & [=])]%result_bind_Err)]%result_bind_Err; [by eauto|].
  destruct (IH Hl) as (a' & ? & ?). eauto.
Qed.

(** What an instruction resolves to: its key, of 32 bytes, and its data. *)
Definition resolves (keys : list (list Z)) (ix : InnerInstruction.t)
    (p : InnerInstructionPayload.t) : Prop :=
  keys !! Z.to_nat (InnerInstruction.program_id_index ix) =
    Some (InnerInstructionPayload.program_id p) /\
  length (InnerInstructionPayload.program_id p) = 32%nat /\
  InnerInstructionPayload.data p = InnerInstruction.data ix.

Lemma to_payload_Ok ix segments sig p :
  to_payload ix segments sig = Ok p <-> resolves (concat segments) ix p.
Proof.
  unfold to_payload, resolve_program_id, resolves, pubkey_try_from.
  rewrite resolve_in_concat. destruct (concat segments !! _) as [key|]; simpl; [|naive_solver].
  destruct (Z.eqb_spec (Z.of_nat (length key)) 32) as [Hk|Hk]; simpl.
  - split; [intros [= <-]; simpl; split_and!; [done|lia|done]|].
    destruct p as [pid data]; simpl. intros ([= <-] & _ & ->). done.
  - split; [done|]. destruct p; simpl. intros ([= <-] & ? & _). lia.
Qed.

(** The keys an index runs through: static, loaded writable, loaded readonly. *)
Definition all_keys (message : Message.t) (meta : TransactionStatusMeta.t) : list (list Z) :=
  Message.account_keys message ++ TransactionStatusMeta.loaded_writable_addresses meta ++
  TransactionStatusMeta.loaded_readonly_addresses meta.

Lemma segments_Ok info meta sig segments :
  account_key_segments info meta sig = Ok segments <->
  exists tx message, SubscribeUpdateTransactionInfo.transaction info = Some tx /\
    Transaction.message tx = Some message /\
    segments = [Message.account_keys message; TransactionStatusMeta.loaded_writable_addresses meta;
                TransactionStatusMeta.loaded_readonly_addresses meta].
Proof.
  unfold account_key_segments. destruct (SubscribeUpdateTransactionInfo.transaction info) as [tx|]; simpl;
    [|naive_solver]. destruct (Transaction.message tx) as [m|] eqn:Hm; simpl; [|naive_solver].
  split; [intros [= <-]; eauto|]. intros (? & ? & [= <-] & Hm' & ->).
  rewrite Hm in Hm'. by injection Hm' as <-.
Qed.

(** The parts of a message the adapter can translate. *)
Record translatable (update : SubscribeUpdateTransaction.t) (info : SubscribeUpdateTransactionInfo.t)
    (meta : TransactionStatusMeta.t) (tx : Transaction.t) (message : Message.t) : Prop := {
  tr_info : SubscribeUpdateTransaction.transaction update = Some info;
  tr_meta : SubscribeUpdateTransactionInfo.meta info = Some meta;
  tr_tx : SubscribeUpdateTransactionInfo.transaction info = Some tx;
  tr_message : Transaction.message tx = Some message;
  tr_signature : length (SubscribeUpdateTransactionInfo.signature info) = 64%nat;
  tr_index : is_uint 32 (SubscribeUpdateTransactionInfo.index info);
  tr_captured : TransactionStatusMeta.inner_instructions_none meta = false;
}.

Lemma extract_signature_Ok info sig :
  extract_signature info = Ok sig <->
  sig = SubscribeUpdateTransactionInfo.signature info /\
  length (SubscribeUpdateTransactionInfo.signature info) = 64%nat.
Proof.
  unfold extract_signature, signature_try_from, SIGNATURE_BYTES. case_tests; simpl.
  - split; [intros [= <-]; split; [done|lia]|]. by intros [-> _].
  - split; [done|]. intros [_ Hl]. lia.
Qed.

Lemma extract_index_Ok info sig i :
  extract_index info sig = Ok i <->
  i = SubscribeUpdateTransactionInfo.index info /\ is_uint 32 (SubscribeUpdateTransactionInfo.index info).
Proof.
  unfold extract_index. split.
  - by intros [-> ?]%ok_or_Ok%try_uint_Some.
  - intros [-> ?]. by apply ok_or_Ok, try_uint_Some.
Qed.

Lemma extract_inner_Ok info sig ps :
  extract_inner_instructions info sig = Ok ps <->
  exists meta tx message, SubscribeUpdateTransactionInfo.meta info = Some meta /\
    TransactionStatusMeta.inner_instructions_none meta = false /\
    SubscribeUpdateTransactionInfo.transaction info = Some tx /\ Transaction.message tx = Some message /\
    Forall2 (resolves (all_keys message meta))
      (concat (map InnerInstructions.instructions
        (sort_by_index (TransactionStatusMeta.inner_instructions meta)))) ps.
Proof.
  unfold extract_inner_instructions. destruct (SubscribeUpdateTransactionInfo.meta info) as [meta|].
  2: { split; [done|]. by intros (? & ? & ? & [=] & _). }
  destruct (TransactionStatusMeta.inner_instructions_none meta) eqn:Hn.
  { split; [done|]. intros (? & ? & ? & [= <-] & ? & _). congruence. }
  split.
  - intros (segments & (tx & message & Htx & Hm & ->)%segments_Ok & Hc%collect_Ok)%result_bind_Ok.
    exists meta, tx, message. split_and!; try done.
    eapply Forall2_impl; [exact Hc|]. intros ix p Hp%to_payload_Ok.
    simpl in Hp. by rewrite app_nil_r in Hp.
  - intros (? & tx & message & [= <-] & _ & Htx & Hm & Hf). apply result_bind_Ok. eexists. split.
    { apply segments_Ok. exists tx, message. done. }
    apply collect_Ok. eapply Forall2_impl; [exact Hf|]. intros ix p Hp.
    apply to_payload_Ok. simpl. by rewrite app_nil_r.
Qed.

(** The adapter accepts a message exactly when its parts are all there
    (transaction, message, captured meta, a 64-byte signature, a u32 index)
    and every program index falls on a 32-byte key of the static, loaded
    writable and loaded readonly keys in that order. The transaction it builds
    then carries the slot, index and given time, and one payload per inner
    instruction, none skipped, groups in stable order of their outer
    instruction. *)
Theorem from_grpc_spec update timestamp out :
  from_grpc update timestamp = Ok out <->
  exists info meta tx message groups,
    translatable update info meta tx message /\
    groups ≡ₚ TransactionStatusMeta.inner_instructions meta /\
    StronglySorted (by_key idx) groups /\
    (forall i, of_key idx i groups = of_key idx i (TransactionStatusMeta.inner_instructions meta)) /\
    OnChainTransaction.position out =
      TransactionPosition.mk (SubscribeUpdateTransactionInfo.signature info) timestamp
        (SubscribeUpdateTransaction.slot update) (Some (SubscribeUpdateTransactionInfo.index info)) /\
    Forall2 (resolves (all_keys message meta))
      (concat (map InnerInstructions.instructions groups)) (OnChainTransaction.inner_instructions out).
Proof.
  unfold from_grpc. split.
  - intros (info & Hinfo & H')%result_bind_Ok. apply ok_or_Ok in Hinfo.
    apply result_bind_Ok in H' as (sig & [-> Hsig]%extract_signature_Ok & H').
    apply result_bind_Ok in H' as (i & [-> Hi]%extract_index_Ok & H').
    apply result_bind_Ok in H' as (ps & (meta & tx & message & ? & ? & ? & ? & Hps)%extract_inner_Ok & [= <-]).
    exists info, meta, tx, message, (sort_by_index (TransactionStatusMeta.inner_instructions meta)).
    split_and!; [done|apply sort_perm|apply sort_sorted| |done|done].
    intros i. apply sort_stable.
  - intros (info & meta & tx & message & groups & [] & _ & Hsorted & Hstable & Hpos & Hps).
    apply result_bind_Ok. exists info. split; [by apply ok_or_Ok|].
    apply result_bind_Ok. eexists. split; [by apply extract_signature_Ok|].
    apply result_bind_Ok. eexists. split; [by apply extract_index_Ok|].
    rewrite (stable_unique idx groups (sort_by_index (TransactionStatusMeta.inner_instructions meta))) in Hps;
      [|done|apply sort_sorted|intros i; by rewrite (Hstable i), <- (sort_stable idx i)].
    apply result_bind_Ok. exists (OnChainTransaction.inner_instructions out). split.
    { apply extract_inner_Ok. exists meta, tx, message. done. }
    destruct out; simpl in *. by rewrite Hpos.
Qed.

(** Every refusal is a missing field or a parse error. *)
Lemma from_grpc_Err update timestamp e :
  from_grpc update timestamp = Err e ->
  (exists sig field, e = MissingField sig field) \/ (exists sig reason, e = ParseError sig reason).
Proof.
  unfold from_grpc, extract_signature, extract_index, extract_inner_instructions, refuse,
    account_key_segments.
  intros [[_ <-]%ok_or_Err|(info & _ & H')]%result_bind_Err; [by eauto|].
  apply result_bind_Err in H' as [[_ <-]%ok_or_Err|(sig & _ & H')]; [by eauto|].
  apply result_bind_Err in H' as [[_ <-]%ok_or_Err|(i & _ & H')]; [by eauto|].
  apply result_bind_Err in H' as [H'|(ps & _ & H')]; [|done].
  destruct (SubscribeUpdateTransactionInfo.meta info) as [meta|]; [|injection H' as <-; by eauto].
  destruct (TransactionStatusMeta.inner_instructions_none meta); [injection H' as <-; by eauto|].
  apply result_bind_Err in H' as [H'|(segments & _ & H')].
  { apply result_bind_Err in H' as [[_ <-]%ok_or_Err|(? & _ & [=])]. by eauto. }
  apply collect_Err in H' as (ix & _ & H'). unfold to_payload, resolve_program_id in H'.
  apply result_bind_Err in H' as [H'|(? & _ & [=])].
  destruct (resolve_in _ segments); [apply ok_or_Err in H' as [_ <-]|injection H' as <-]; by eauto.
Qed.
End Spec.
