(* ===== verification/RpcAdapter.v ===== *)
(** * The JSON-RPC source: the transaction adapter, the dispatcher, the fetch

    [src/crates/indexer/src/infra/rpc/]: transaction_adapter.rs, which reads a
    [getTransaction] response into the transaction the extractors take (the
    response types are the crate's, with the fields the adapter reads); types/,
    dispatcher.rs with its filters and metrics, and transaction_fetcher.rs. *)

From S2P Require Import Prelude Text Secret Errors External OrderedMap Domain WireEvents Extractor Translator.
From S2P Require Import Extraction Reference GrpcAdapter.

(** ** The response ([solana_transaction_status_client_types]) *)

Module UiPartiallyDecodedInstruction.
Record t : Type := mk {
  program_id : string;
  data : string;          (** base58 *)
}.
End UiPartiallyDecodedInstruction.

Inductive UiInstruction : Type :=
| Compiled                (** an index and data, the [Json] encoding *)
| Parsed                  (** a program the node decodes itself *)
| PartiallyDecoded (p : UiPartiallyDecodedInstruction.t).

Module UiInnerInstructions.
Record t : Type := mk {
  index : Z;              (** u8 *)
  instructions : list UiInstruction;
}.
End UiInnerInstructions.

Inductive OptionSerializer (A : Type) : Type :=
| OSome (a : A)
| ONone
| OSkip.
Arguments OSome {A} a.
Arguments ONone {A}.
Arguments OSkip {A}.

Module UiTransactionStatusMeta.
Record t : Type := mk { inner_instructions : OptionSerializer (list UiInnerInstructions.t) }.
End UiTransactionStatusMeta.

Inductive EncodedTransaction : Type :=
| LegacyBinary
| Binary
| Json (signatures : list string)
| Accounts.

Module EncodedConfirmedTransactionWithStatusMeta.
Record t : Type := mk {
  slot : Z;
  transaction : EncodedTransaction;               (** [transaction.transaction] *)
  meta : option UiTransactionStatusMeta.t;        (** [transaction.meta] *)
  block_time : option Z;                          (** i64, seconds *)
  transaction_index : option Z;                   (** u32 *)
}.
End EncodedConfirmedTransactionWithStatusMeta.
Notation RpcTransaction := EncodedConfirmedTransactionWithStatusMeta.t.
Module Response := EncodedConfirmedTransactionWithStatusMeta.

(** ** [transaction_adapter.rs] *)

Module RpcAdapter.
Section RpcAdapter.
Context `{Base58} `{SignatureDisplay} `{SignatureFromStr} `{Chrono} `{Bs58}.

(** [signatures[0]], the transaction's id. *)
Definition extract_signature (tx : RpcTransaction) : CoreResult Signature :=
  match Response.transaction tx with
  | Json signatures =>
    let? sig_str := ok_or (head signatures) (MissingField "" "signatures") in
    ok_or (signature_of_string sig_str)
      (ParseError "" ("invalid signature " ++ sig_str ++ ": " ++ signature_parse_error sig_str))
  | LegacyBinary | Binary | Accounts => Err (ParseError "" "unexpected transaction encoding")
  end.

Definition extract_timestamp (tx : RpcTransaction) : CoreResult DateTime :=
  let? block_time := ok_or (Response.block_time tx) (MissingField "" "blockTime") in
  ok_or (from_timestamp block_time) (ParseError "" ("invalid timestamp: " ++ int_string block_time)).

(** [None] for what the adapter cannot represent. *)
Definition to_payload (ix : UiInstruction) : option InnerInstructionPayload.t :=
  match ix with
  | PartiallyDecoded p =>
    let! program_id := pubkey_of_string (UiPartiallyDecodedInstruction.program_id p) in
    let! data := bs58_decode (UiPartiallyDecodedInstruction.data p) in
    Some (InnerInstructionPayload.mk program_id data)
  | Compiled | Parsed => None
  end.

Definition extract_inner_instructions (tx : RpcTransaction) (signature : Signature) :
    CoreResult (list InnerInstructionPayload.t) :=
  match Response.meta tx with
  | None => Err (refuse Meta signature)
  | Some meta =>
    match UiTransactionStatusMeta.inner_instructions meta with
    | OSome inner_groups =>
      let groups := sort_by_key UiInnerInstructions.index inner_groups in
      Ok (omap to_payload (concat (map UiInnerInstructions.instructions groups)))
    | ONone | OSkip => Err (refuse GapInnerInstructions signature)
    end
  end.

Definition from_rpc (tx : RpcTransaction) : CoreResult OnChainTransaction.t :=
  let? signature := extract_signature tx in
  let? timestamp := extract_timestamp tx in
  let? inner := extract_inner_instructions tx signature in
  Ok (OnChainTransaction.mk
    (TransactionPosition.mk signature timestamp (Response.slot tx) (Response.transaction_index tx))
    inner).
End RpcAdapter.
End RpcAdapter.

(** ** From a log notification to a qualified signature

    The counters are a log, in the order they are recorded. *)

(** ** [types/] *)

(** [solana_rpc_client_api]'s error, which nothing inspects, as its text. *)
Definition TransactionError : Type := string.

Module RawLogEvent.
Record t : Type := mk {
  protocol : Protocol;
  signature : string;
  logs : list string;
  err : option TransactionError;
}.
End RawLogEvent.

Module QualifiedSignature.
Record t : Type := mk {
  protocol : Protocol;
  signature : Signature;
}.
End QualifiedSignature.

(** ** [dispatcher/filters.rs] *)

Inductive FilterDecision : Type :=
| Accept
| Reject (reason : string).

(** The trait [LogFilter]. *)
Record LogFilter : Type := {
  filter_name : string;
  accept : RawLogEvent.t -> FilterDecision;
}.

Section Filters.
Context `{Base58}.

Definition InvocationFilter : LogFilter := {|
  filter_name := "invocation";
  accept event :=
    let program_id := pubkey_to_string (program_id (RawLogEvent.protocol event)) in
    let marker := ("Program " ++ program_id ++ " invoke")%string in
    if existsb (starts_with_str marker) (RawLogEvent.logs event) then Accept
    else Reject "program not invoked (ALT-only reference)"
|}.
End Filters.

Definition FailedTransactionFilter : LogFilter := {|
  filter_name := "failed_tx";
  accept event :=
    match RawLogEvent.err event with
    | Some _ => Reject "transaction failed on-chain"
    | None => Accept
    end
|}.

(** ** [dispatcher.rs] *)

Inductive DispatcherError : Type := NoFilters.

Inductive DispatcherMetric : Type :=
| Received (p : Protocol)
| Rejected (p : Protocol) (filter reason : string)
| Malformed (p : Protocol)
| Emitted (p : Protocol)
| DownstreamSaturated (p : Protocol).

(** What a bounded channel answers [try_send]. *)
Inductive SendOutcome : Type := Sent | Full | Closed.

(** The fate of an event: the first filter that rejects it, the signature that
    does not parse, or the outcome of the send. *)
Inductive Verdict : Type :=
| VRejected (filter reason : string)
| VMalformed
| VOffered (qualified : QualifiedSignature.t) (outcome : SendOutcome).

Module SignatureDispatcher.
Record t : Type := mk { filters : list LogFilter }.

Definition new_with_filters (filters : list LogFilter) : result t DispatcherError :=
  match filters with
  | [] => Err NoFilters
  | _ => Ok (mk filters)
  end.

Definition new_default `{Base58} : result t DispatcherError :=
  new_with_filters [InvocationFilter; FailedTransactionFilter].

(** The chain: the first rejection. *)
Fixpoint rejection (filters : list LogFilter) (event : RawLogEvent.t) : option (string * string) :=
  match filters with
  | [] => None
  | filter :: filters =>
    match accept filter event with
    | Accept => rejection filters event
    | Reject reason => Some (filter_name filter, reason)
    end
  end.

(** [handle]: the verdict, and what it counts. [try_send] is the channel's
    answer at that moment. *)
Definition handle `{SignatureFromStr} (d : t) (event : RawLogEvent.t)
    (try_send : QualifiedSignature.t -> SendOutcome) : Verdict :=
  match rejection (filters d) event with
  | Some (filter, reason) => VRejected filter reason
  | None =>
    match signature_of_string (RawLogEvent.signature event) with
    | None => VMalformed
    | Some signature =>
      let qualified := QualifiedSignature.mk (RawLogEvent.protocol event) signature in
      VOffered qualified (try_send qualified)
    end
  end.

Definition counted (event : RawLogEvent.t) (v : Verdict) : list DispatcherMetric :=
  let p := RawLogEvent.protocol event in
  Received p ::
  match v with
  | VRejected filter reason => [Rejected p filter reason]
  | VMalformed => [Malformed p]
  | VOffered _ Sent => [Emitted p]
  | VOffered qualified Full => [DownstreamSaturated (QualifiedSignature.protocol qualified)]
  | VOffered _ Closed => []
  end.
End SignatureDispatcher.

(** ** [transaction_fetcher.rs] *)

Inductive FetchError : Type :=
| NotFound
| RateLimited
| Timeout
| Connection (reason : string)
| UnsupportedVersion (reason : string)
| OtherFetch (reason : string).

Definition metric_label (e : FetchError) : string :=
  match e with
  | NotFound => "not_found"
  | RateLimited => "rate_limited"
  | Timeout => "timeout"
  | Connection _ => "connection_error"
  | UnsupportedVersion _ => "unsupported_version"
  | OtherFetch _ => "other"
  end.

Definition is_retryable (e : FetchError) : bool :=
  match e with UnsupportedVersion _ => false | _ => true end.

(** The patterns hold no character that [to_lowercase] makes of a non-ASCII
    one, so lowering the ASCII letters decides them. *)
Definition from_rpc_string (msg : string) : FetchError :=
  let lower := to_ascii_lowercase msg in
  if contains "-32015" lower then UnsupportedVersion msg
  else if contains "null" lower then NotFound
  else if contains "429" lower || contains "rate limit" lower || contains "too many requests" lower
  then RateLimited
  else if contains "timeout" lower || contains "timed out" lower then Timeout
  else if contains "connection" lower || contains "connect" lower then Connection msg
  else OtherFetch msg.

(** [FixedInterval::from_millis(500).take(5)]: the waits between attempts. *)
Definition RETRY_INTERVAL_MILLIS : Z := 500.
Definition RETRIES : nat := 5.
Definition strategy : list Z := repeat RETRY_INTERVAL_MILLIS RETRIES.

(** What one [getTransaction] call answers: a response, or the error's text. *)
Definition Reply : Type := result RpcTransaction string.

(** [RetryIf::start]: the first attempt, then one more per wait while the
    error is retryable. The count is of the calls made. *)
Fixpoint retry_if {A E} (waits : list Z) (action : nat -> result A E) (condition : E -> bool)
    (attempt : nat) : result A E * nat :=
  match action attempt with
  | Ok a => (Ok a, S attempt)
  | Err e =>
    if condition e then
      match waits with
      | _ :: waits => retry_if waits action condition (S attempt)
      | [] => (Err e, S attempt)
      end
    else (Err e, S attempt)
  end.

Definition fetch (rpc_url : SecretUrl.t) (replies : nat -> Reply) : result RpcTransaction FetchError * nat :=
  retry_if strategy
    (fun n => map_err (fun e => from_rpc_string (SecretUrl.scrub rpc_url e)) (replies n))
    is_retryable 0.

(** ** The two sources describe one transaction alike

    A [getTransaction] response is accepted exactly when its parts are there,
    and a transaction the two sources describe gives the same events through
    either adapter. *)

Section Facts.
Context `{Base58} `{SignatureDisplay} `{SignatureFromStr} `{Chrono} `{Bs58}.

(** ** What [from_rpc] accepts *)

(** The parts of a response. *)
Record readable (tx : RpcTransaction) (sig : Signature) (timestamp : DateTime)
    (groups : list UiInnerInstructions.t) : Prop := {
  rd_signature : exists text others, Response.transaction tx = Json (text :: others) /\
    signature_of_string text = Some sig;
  rd_timestamp : exists secs, Response.block_time tx = Some secs /\
    from_timestamp secs = Some timestamp;
  rd_groups : exists meta, Response.meta tx = Some meta /\
    UiTransactionStatusMeta.inner_instructions meta = OSome groups;
}.

Lemma rpc_signature_Ok tx sig :
  RpcAdapter.extract_signature tx = Ok sig <->
  exists text others, Response.transaction tx = Json (text :: others) /\
    signature_of_string text = Some sig.
Proof.
  unfold RpcAdapter.extract_signature.
  destruct (Response.transaction tx) as [| |[|text others]|]; simpl; try naive_solver.
  destruct (signature_of_string text) eqn:Hs; simpl; naive_solver.
Qed.

Lemma rpc_timestamp_Ok tx timestamp :
  RpcAdapter.extract_timestamp tx = Ok timestamp <->
  exists secs, Response.block_time tx = Some secs /\ from_timestamp secs = Some timestamp.
Proof.
  unfold RpcAdapter.extract_timestamp. destruct (Response.block_time tx) as [secs|]; simpl; [|naive_solver].
  destruct (from_timestamp secs) eqn:Ht; simpl; naive_solver.
Qed.

Definition payloads (groups : list UiInnerInstructions.t) : list InnerInstructionPayload.t :=
  omap RpcAdapter.to_payload
    (concat (map UiInnerInstructions.instructions (sort_by_key UiInnerInstructions.index groups))).

Lemma rpc_inner_Ok tx sig ps :
  RpcAdapter.extract_inner_instructions tx sig = Ok ps <->
  exists meta groups, Response.meta tx = Some meta /\
    UiTransactionStatusMeta.inner_instructions meta = OSome groups /\ ps = payloads groups.
Proof.
  unfold RpcAdapter.extract_inner_instructions.
  destruct (Response.meta tx) as [meta|]; [|by split; [|intros (? & ? & ? & _)]].
  destruct (UiTransactionStatusMeta.inner_instructions meta) as [groups| |] eqn:Hg;
    (split; [intros [= <-]|intros (m & gs & [= <-] & Hgs & ->); rewrite Hg in Hgs]); try done.
  - by exists meta, groups.
  - by injection Hgs as <-.
Qed.

Lemma from_rpc_Ok tx out :
  RpcAdapter.from_rpc tx = Ok out <->
  exists sig timestamp groups, readable tx sig timestamp groups /\
    out = OnChainTransaction.mk
      (TransactionPosition.mk sig timestamp (Response.slot tx) (Response.transaction_index tx))
      (payloads groups).
Proof.
  unfold RpcAdapter.from_rpc. split.
  - intros H'. apply result_bind_Ok in H' as (sig & Hsig%rpc_signature_Ok & H').
    apply result_bind_Ok in H' as (timestamp & Ht%rpc_timestamp_Ok & H').
    apply result_bind_Ok in H' as (ps & (meta & groups & Hm & Hg & ->)%rpc_inner_Ok & [= <-]).
    exists sig, timestamp, groups. split; [|done]. constructor; eauto.
  - intros (sig & timestamp & groups & [Hsig Ht (meta & Hm & Hg)] & ->).
    apply result_bind_Ok. exists sig. split; [by apply rpc_signature_Ok|].
    apply result_bind_Ok. exists timestamp. split; [by apply rpc_timestamp_Ok|].
    apply result_bind_Ok. eexists. split; [apply rpc_inner_Ok; eauto|done].
Qed.

(** ** One transaction, described twice *)

(** The node leaves an instruction undecoded, its program and data in base58,
    or parses it, which it never does for the program [program]. *)
Inductive renders (program : Pubkey) (keys : list (list Z)) (ix : InnerInstruction.t) :
    UiInstruction -> Prop :=
| renders_raw key text data :
    resolves keys ix (InnerInstructionPayload.mk key (InnerInstruction.data ix)) ->
    pubkey_of_string text = Some key -> bs58_decode data = Some (InnerInstruction.data ix) ->
    renders program keys ix (PartiallyDecoded (UiPartiallyDecodedInstruction.mk text data))
| renders_parsed key :
    resolves keys ix (InnerInstructionPayload.mk key (InnerInstruction.data ix)) ->
    key <> program -> renders program keys ix Parsed.

Record same_group (program : Pubkey) (keys : list (list Z)) (g : InnerInstructions.t)
    (u : UiInnerInstructions.t) : Prop := {
  sg_index : InnerInstructions.index g = UiInnerInstructions.index u;
  sg_instructions : Forall2 (renders program keys) (InnerInstructions.instructions g)
    (UiInnerInstructions.instructions u);
}.

(** The update and the response describe one transaction. *)
Record same_transaction (program : Pubkey) (update : SubscribeUpdateTransaction.t)
    (timestamp : DateTime) (tx : RpcTransaction) : Prop := {
  st_grpc : exists info meta message groups inner,
    translatable update info meta inner message /\
    readable tx (SubscribeUpdateTransactionInfo.signature info) timestamp groups /\
    Forall2 (same_group program (all_keys message meta))
      (TransactionStatusMeta.inner_instructions meta) groups;
  st_slot : Response.slot tx = SubscribeUpdateTransaction.slot update;
}.

Definition with_transaction_index (tx : OnChainTransaction.t) (index : option Z) : OnChainTransaction.t :=
  let p := OnChainTransaction.position tx in
  OnChainTransaction.mk
    (TransactionPosition.mk (TransactionPosition.signature p) (TransactionPosition.timestamp p)
      (TransactionPosition.slot p) index)
    (OnChainTransaction.inner_instructions tx).

Definition of_program (program : Pubkey) (ps : list InnerInstructionPayload.t) : list (list Z) :=
  map InnerInstructionPayload.data
    (List.filter (fun ix => bool_decide (InnerInstructionPayload.program_id ix = program)) ps).

Lemma omap_cons {A B} (f : A -> option B) a l :
  omap f (a :: l) = match f a with Some b => b :: omap f l | None => omap f l end.
Proof. done. Qed.

Lemma of_program_cons program p ps :
  of_program program (p :: ps) =
  if bool_decide (InnerInstructionPayload.program_id p = program)
  then InnerInstructionPayload.data p :: of_program program ps else of_program program ps.
Proof. unfold of_program. cbn [List.filter]. by destruct (bool_decide _). Qed.

Lemma resolves_det keys ix p q : resolves keys ix p -> resolves keys ix q -> p = q.
Proof. unfold resolves. destruct p, q; simpl. naive_solver congruence. Qed.

(** The payloads of the watched program, through either adapter. *)
Lemma rendered_payloads program keys ixs uis ps :
  Forall2 (renders program keys) ixs uis -> Forall2 (resolves keys) ixs ps ->
  of_program program (omap RpcAdapter.to_payload uis) = of_program program ps.
Proof.
  intros Hr. revert ps. induction Hr as [|ix ui ixs uis Hix _ IH]; intros ps Hps.
  - by inversion Hps.
  - inversion Hps as [|? p ? ps' Hp Hps']; subst. specialize (IH ps' Hps').
    destruct Hix as [key text data Hk Htext Hdata|key Hk Hne];
      rewrite (resolves_det _ _ _ _ Hp Hk), of_program_cons, <- IH; rewrite omap_cons; simpl.
    + rewrite Htext. simpl. rewrite Hdata. simpl. by rewrite of_program_cons.
    + by rewrite bool_decide_eq_false_2.
Qed.

Lemma same_groups_instructions program keys gs us :
  Forall2 (same_group program keys) gs us ->
  Forall2 (renders program keys)
    (concat (map InnerInstructions.instructions (sort_by_index gs)))
    (concat (map UiInnerInstructions.instructions (sort_by_key UiInnerInstructions.index us))).
Proof.
  intros Hs. pose proof (sort_related InnerInstructions.index UiInnerInstructions.index _ gs us
    (fun g u Hgu => sg_index _ _ g u Hgu) Hs) as Hsorted.
  unfold sort_by_index. induction Hsorted as [|g u gs' us' [_ Hgu] _ IH]; simpl; [constructor|].
  by apply Forall2_app.
Qed.

Context `{Borsh} `{Sha256}.

Lemma extract_ext protocol (a b : OnChainTransaction.t) :
  OnChainTransaction.position a = OnChainTransaction.position b ->
  of_program (program_id protocol) (OnChainTransaction.inner_instructions a) =
    of_program (program_id protocol) (OnChainTransaction.inner_instructions b) ->
  extract protocol a = extract protocol b.
Proof.
  intros Hp Hi. destruct protocol; [|done].
  unfold extract, extractor_of, extractor_events. cbn [damm_v2_extractor].
  unfold damm_v2_extract_events, extract_wire_events, extract_anchor_event_cpis.
  rewrite Hp. unfold of_program in Hi. by rewrite Hi.
Qed.

(** A rendered instruction resolves. *)
Lemma rendered_resolve program keys ixs uis :
  Forall2 (renders program keys) ixs uis -> exists ps, Forall2 (resolves keys) ixs ps.
Proof.
  induction 1 as [|ix ui ixs uis Hix _ [ps IH]]; [by exists []|].
  destruct Hix as [key text data Hk _ _|key Hk _]; eexists; by constructor.
Qed.

(** C6: A transaction that the stream and [getTransaction] both describe, the
    node parsing any program it knows but the watched one, is accepted by both
    adapters; they give it one signature, slot and timestamp, and the
    extraction of the one is the extraction of the other, event indices
    included, up to the transaction index the response may omit. *)
Theorem sources_agree protocol update timestamp tx :
  same_transaction (program_id protocol) update timestamp tx ->
  exists streamed fetched,
    from_grpc update timestamp = Ok streamed /\ RpcAdapter.from_rpc tx = Ok fetched /\
    OnChainTransaction.position fetched =
      OnChainTransaction.position (with_transaction_index streamed (Response.transaction_index tx)) /\
    extract protocol fetched =
      extract protocol (with_transaction_index streamed (Response.transaction_index tx)).
Proof.
  intros [(info & meta & message & groups & inner & [] & Hr & Hgs) Hslot].
  pose proof (same_groups_instructions _ _ _ _ Hgs) as Hix.
  destruct (rendered_resolve _ _ _ _ Hix) as [ps Hps].
  pose proof (rendered_payloads _ _ _ _ _ Hix Hps) as Hpay.
  set (sig := SubscribeUpdateTransactionInfo.signature info) in *.
  exists (OnChainTransaction.mk (TransactionPosition.mk sig timestamp
    (SubscribeUpdateTransaction.slot update) (Some (SubscribeUpdateTransactionInfo.index info))) ps).
  eexists. split_and!.
  - unfold from_grpc. apply result_bind_Ok. exists info. split; [by apply ok_or_Ok|].
    apply result_bind_Ok. exists sig. split; [by apply extract_signature_Ok|].
    apply result_bind_Ok. eexists. split; [by apply extract_index_Ok|].
    apply result_bind_Ok. exists ps. split; [|done]. apply extract_inner_Ok. eauto 9.
  - apply from_rpc_Ok. eauto.
  - unfold with_transaction_index. simpl. by rewrite Hslot.
  - apply extract_ext; simpl; [by rewrite Hslot|done].
Qed.
End Facts.

(** ** The mainnet transaction, from either source *)

Definition token_program : Pubkey := repeat 6 32.
Definition text_of (bs : list Z) : string := base58_digits 512 (be_decode bs) "".

Definition streamed_update : SubscribeUpdateTransaction.t :=
  SubscribeUpdateTransaction.mk
    (Some (SubscribeUpdateTransactionInfo.mk
      (TransactionPosition.signature reference_position)
      (Some (Transaction.mk (Some (Message.mk [token_program]))))
      (Some (TransactionStatusMeta.mk
        [InnerInstructions.mk 4 [InnerInstruction.mk 1 leg_b_bytes];
         InnerInstructions.mk 2 [InnerInstruction.mk 0 [3; 1]; InnerInstruction.mk 1 leg_a_bytes]]
        false [program_id MeteoraDammV2] []))
      7))
    415296180 1.

Definition fetched_response : RpcTransaction :=
  Response.mk 415296180
    (Json [signature_to_string (TransactionPosition.signature reference_position)])
    (Some (UiTransactionStatusMeta.mk (OSome [
      UiInnerInstructions.mk 4 [PartiallyDecoded (UiPartiallyDecodedInstruction.mk
        (pubkey_to_string (program_id MeteoraDammV2)) (text_of leg_b_bytes))];
      UiInnerInstructions.mk 2 [Parsed; PartiallyDecoded (UiPartiallyDecodedInstruction.mk
        (pubkey_to_string (program_id MeteoraDammV2)) (text_of leg_a_bytes))]])))
    (Some 1777013942) None.

Lemma sources_agree_witness :
  exists streamed fetched,
    from_grpc streamed_update (TransactionPosition.timestamp reference_position) = Ok streamed /\
    RpcAdapter.from_rpc fetched_response = Ok fetched /\
    OnChainTransaction.position fetched =
      OnChainTransaction.position (with_transaction_index streamed None) /\
    extract MeteoraDammV2 fetched = extract MeteoraDammV2 (with_transaction_index streamed None).
Proof.
  apply (sources_agree MeteoraDammV2 streamed_update (TransactionPosition.timestamp reference_position)
    fetched_response).
  split; [|reflexivity]. eexists _, _, _, _, _. split_and!.
  - split; try reflexivity. unfold is_uint. simpl. lia.
  - split; [|by eexists|by eexists].
    eexists _, _. split; [reflexivity|]. vm_compute. reflexivity.
  - repeat constructor.
    + eapply (renders_raw _ _ _ (program_id MeteoraDammV2)); [|vm_compute; reflexivity..].
      split_and!; vm_compute; reflexivity.
    + apply (renders_parsed _ _ _ token_program); [split_and!; vm_compute; reflexivity|].
      vm_compute. discriminate.
    + eapply (renders_raw _ _ _ (program_id MeteoraDammV2)); [|vm_compute; reflexivity..].
      split_and!; vm_compute; reflexivity.
Defined.
