(* ===== verification/SlotBuffer.v ===== *)
(** * The slot timestamp buffer

    [src/crates/indexer/src/infra/grpc/slot_timestamp_buffer.rs] and its
    submodules: [Bank] is bank.rs, [KnownSlots] known_slots.rs, [WaitingSlots]
    waiting_slots.rs. The metrics the code emits are a log of the state, in
    order: nothing is dropped without an entry. *)

From S2P Require Import Prelude External OrderedMap.

Definition MAX_PENDING_SLOTS : Z := 256.
Definition MAX_PENDING_PAYLOADS : Z := 8192.
Definition MAX_KNOWN_SLOTS : Z := MAX_PENDING_SLOTS + 1.

(** ** [bank.rs] *)

Inductive Bank : Type :=
| Id (id : Z)
| Unknown.

#[global] Instance Bank_eq_dec : EqDecision Bank.
Proof. solve_decision. Defined.

Definition from_wire (id : Z) : Bank := if id =? 0 then Unknown else Id id.

Definition from_status (id : option Z) : Bank :=
  match id with
  | Some id => from_wire id
  | None => Unknown
  end.

Definition admits (self bank : Bank) : bool :=
  match self, bank with
  | Id kept, Id bank => kept =? bank
  | _, _ => true
  end.

(** ** [metrics.rs], what the buffer reports *)

Inductive EvictionReason : Type :=
| SlotBound
| PayloadBound
| Unresolvable.

Inductive Metric : Type :=
| Evicted (count : Z) (reason : EvictionReason)
| LosingBank (count : Z)
| Peaks (payloads slot_lag : Z).

(** ** [known_slots.rs] *)

Inductive SlotOutcome : Type :=
| At (at_ : DateTime)
| GivenUp.

Inductive Settlement : Type :=
| Pending
| Losing
| Settled (o : SlotOutcome).

Module Facts.
Record t : Type := mk {
  times : list (Bank * SlotOutcome);
  kept : option Bank;
}.

Definition default : t := mk [] None.

Definition admitted (f : t) (kept : Bank) : list SlotOutcome :=
  map snd (List.filter (fun bo => admits kept (fst bo)) (times f)).

Definition is_at (o : SlotOutcome) : bool := match o with At _ => true | GivenUp => false end.

(** The kept bank's instant: a found one before a given-up one. *)
Definition time (f : t) (kept : Bank) : option SlotOutcome :=
  match List.find is_at (admitted f kept) with
  | Some o => Some o
  | None => head (admitted f kept)
  end.
End Facts.

Module KnownSlots.
Record t : Type := mk {
  facts : gmap Z Facts.t;
  max_known_slots : Z;
}.

Definition new (max_known_slots : Z) : t := mk ∅ max_known_slots.

Definition settlement (k : t) (slot : Z) (bank : Bank) : Settlement :=
  match facts k !! slot with
  | None => Pending
  | Some f =>
    match Facts.kept f with
    | None => Pending
    | Some kept =>
      if negb (admits kept bank) then Losing
      else match Facts.time f kept with
           | Some o => Settled o
           | None => Pending
           end
    end
  end.

Definition kept (k : t) (slot : Z) : option Bank :=
  let! f := facts k !! slot in Facts.kept f.

Definition time (k : t) (slot : Z) : option SlotOutcome :=
  let! f := facts k !! slot in
  let! kept := Facts.kept f in
  Facts.time f kept.

(** [while len > max: pop_first]; the fuel is the number of slots. *)
Fixpoint trim_loop (fuel : nat) (max : Z) (m : gmap Z Facts.t) : gmap Z Facts.t :=
  match fuel with
  | O => m
  | S fuel => if max <? Z.of_nat (size m) then trim_loop fuel max (pop_first m) else m
  end.

Definition trim (k : t) : t :=
  mk (trim_loop (size (facts k)) (max_known_slots k) (facts k)) (max_known_slots k).

Definition entry (k : t) (slot : Z) : Facts.t := default Facts.default (facts k !! slot).

Definition set_facts (k : t) (slot : Z) (f : Facts.t) : t :=
  mk (<[slot := f]> (facts k)) (max_known_slots k).

(** Replaces the first entry of [bank], or appends one. *)
Fixpoint set_time (times : list (Bank * SlotOutcome)) (bank : Bank) (o : SlotOutcome) :
    list (Bank * SlotOutcome) :=
  match times with
  | [] => [(bank, o)]
  | (known, outcome) :: times =>
      if bool_decide (known = bank) then (known, o) :: times
      else (known, outcome) :: set_time times bank o
  end.

Definition resolve (k : t) (slot : Z) (bank : Bank) (at_ : DateTime) : t :=
  let f := entry k slot in
  trim (set_facts k slot (Facts.mk (set_time (Facts.times f) bank (At at_)) (Facts.kept f))).

Definition give_up_ (k : t) (slot : Z) (bank : Bank) : t :=
  let f := entry k slot in
  let times := Facts.times f in
  let times' :=
    if negb (existsb (fun bo => bool_decide (fst bo = bank)) times)
    then times ++ [(bank, GivenUp)] else times in
  trim (set_facts k slot (Facts.mk times' (Facts.kept f))).

Definition keep (k : t) (slot : Z) (bank : Bank) : t :=
  let f := entry k slot in
  let kept := match Facts.kept f with Some b => b | None => bank end in
  trim (set_facts k slot (Facts.mk (Facts.times f) (Some kept))).
End KnownSlots.

(** ** [waiting_slots.rs] *)

Inductive Bound : Type :=
| Slots
| Payloads.

Definition reason (b : Bound) : EvictionReason :=
  match b with
  | Slots => SlotBound
  | Payloads => PayloadBound
  end.

Module WaitingSlots.
Record t (T : Type) : Type := mk {
  pending : gmap Z (list T);
  count : Z;
  head_slot : option Z;
  max_pending_slots : Z;
  max_pending_payloads : Z;
  metrics : list Metric;
}.
Arguments mk {T}.
Arguments pending {T}.
Arguments count {T}.
Arguments head_slot {T}.
Arguments max_pending_slots {T}.
Arguments max_pending_payloads {T}.
Arguments metrics {T}.

Section WaitingSlots.
Context {T : Type}.
Implicit Types w : t T.

Definition new (max_pending_slots max_pending_payloads : Z) : t T :=
  mk ∅ 0 None max_pending_slots max_pending_payloads [].

Definition set_pending w (p : gmap Z (list T)) (c : Z) : t T :=
  mk p c (head_slot w) (max_pending_slots w) (max_pending_payloads w) (metrics w).
Definition emit w (m : Metric) : t T :=
  mk (pending w) (count w) (head_slot w) (max_pending_slots w) (max_pending_payloads w)
    (metrics w ++ [m]).

Definition oldest w : option Z := first_key (pending w).

Definition see w (slot : Z) : t T :=
  mk (pending w) (count w)
    (Some (match head_slot w with Some head => Z.max head slot | None => slot end))
    (max_pending_slots w) (max_pending_payloads w) (metrics w).

Definition take w (slot : Z) : t T * list T :=
  let released := default [] (pending w !! slot) in
  (set_pending w (delete slot (pending w)) (count w - Z.of_nat (length released)), released).

Definition evict w (slot : Z) (why : EvictionReason) : t T :=
  let (w, dropped) := take w slot in
  match dropped with
  | [] => w
  | _ => emit w (Evicted (Z.of_nat (length dropped)) why)
  end.

Definition oldest_lag w : Z :=
  match oldest w, head_slot w with
  | Some oldest, Some head => saturating_sub head oldest
  | _, _ => 0
  end.

Definition oldest_is_out_of_window w : bool := max_pending_slots w <? oldest_lag w.

Definition exceeded_bound w : option Bound :=
  if oldest_is_out_of_window w then Some Slots
  else if max_pending_payloads w <? count w then Some Payloads
  else None.

Definition victim w (b : Bound) : option Z :=
  match b with
  | Slots => first_key (pending w)
  | Payloads => last_key (pending w)
  end.

(** One eviction per unit of fuel; [enforce_bounds_within] shows the number of
    waiting slots is enough. *)
Fixpoint enforce_loop (fuel : nat) w : t T :=
  match fuel with
  | O => w
  | S fuel =>
    match exceeded_bound w with
    | None => w
    | Some bound =>
      match victim w bound with
      | None => w
      | Some slot => enforce_loop fuel (evict w slot (reason bound))
      end
    end
  end.

Definition enforce_bounds w : t T :=
  let w := emit w (Peaks (count w) (oldest_lag w)) in
  enforce_loop (S (size (pending w))) w.

Definition push w (slot : Z) (payload : T) : t T :=
  let w := see w slot in
  let w := set_pending w
    (<[slot := default [] (pending w !! slot) ++ [payload]]> (pending w)) (count w + 1) in
  enforce_bounds w.

Definition release w (slot : Z) : t T * list T :=
  let w := see w slot in
  let (w, released) := take w slot in
  (enforce_bounds w, released).

Definition observe w (slot : Z) : t T := enforce_bounds (see w slot).

Definition drop_losing w (slot : Z) (is_losing : T -> bool) : t T :=
  match pending w !! slot with
  | None => w
  | Some waiting =>
    let retained := List.filter (fun p => negb (is_losing p)) waiting in
    let dropped := Z.of_nat (length waiting) - Z.of_nat (length retained) in
    let w := set_pending w
      (match retained with
       | [] => delete slot (pending w)
       | _ => <[slot := retained]> (pending w)
       end) (count w) in
    if dropped =? 0 then w
    else emit (set_pending w (pending w) (count w - dropped)) (LosingBank dropped)
  end.

Definition give_up_ w (slot : Z) : t T :=
  let w := see w slot in
  let w := evict w slot Unresolvable in
  enforce_bounds w.
End WaitingSlots.
End WaitingSlots.

(** ** [slot_timestamp_buffer.rs] *)

Module Resolved.
Record t (T : Type) : Type := mk {
  payload : T;
  at_ : DateTime;
}.
Arguments mk {T}.
Arguments payload {T}.
Arguments at_ {T}.
End Resolved.

Module Held.
Record t (T : Type) : Type := mk {
  bank : Bank;
  payload : T;
}.
Arguments mk {T}.
Arguments bank {T}.
Arguments payload {T}.
End Held.

Module SlotTimestampBuffer.
Record t (T : Type) : Type := mk {
  waiting : WaitingSlots.t (Held.t T);
  known : KnownSlots.t;
}.
Arguments mk {T}.
Arguments waiting {T}.
Arguments known {T}.

Section Buffer.
Context {T : Type}.
Implicit Types b : t T.

Definition with_bounds (max_pending_slots max_pending_payloads max_known_slots : Z) : t T :=
  mk (WaitingSlots.new max_pending_slots max_pending_payloads) (KnownSlots.new max_known_slots).

Definition new : t T := with_bounds MAX_PENDING_SLOTS MAX_PENDING_PAYLOADS MAX_KNOWN_SLOTS.

Definition set_waiting b (w : WaitingSlots.t (Held.t T)) : t T := mk w (known b).

Definition settle b (slot : Z) : t T * list (Resolved.t T) :=
  match KnownSlots.kept (known b) slot with
  | None => (set_waiting b (WaitingSlots.observe (waiting b) slot), [])
  | Some kept =>
    let b := set_waiting b (WaitingSlots.drop_losing (waiting b) slot
      (fun held => negb (admits kept (Held.bank held)))) in
    match KnownSlots.time (known b) slot with
    | Some (At at_) =>
        let (w, released) := WaitingSlots.release (waiting b) slot in
        (set_waiting b w, map (fun held => Resolved.mk (Held.payload held) at_) released)
    | Some GivenUp => (set_waiting b (WaitingSlots.give_up_ (waiting b) slot), [])
    | None => (set_waiting b (WaitingSlots.observe (waiting b) slot), [])
    end
  end.

Definition on_payload b (slot : Z) (bank : Bank) (payload : T) : t T * option (Resolved.t T) :=
  match KnownSlots.settlement (known b) slot bank with
  | Settled (At at_) => (b, Some (Resolved.mk payload at_))
  | Settled GivenUp =>
      (set_waiting b (WaitingSlots.emit (waiting b) (Evicted 1 Unresolvable)), None)
  | Losing => (set_waiting b (WaitingSlots.emit (waiting b) (LosingBank 1)), None)
  | Pending => (set_waiting b (WaitingSlots.push (waiting b) slot (Held.mk bank payload)), None)
  end.

Definition on_block_time b (slot : Z) (bank : Bank) (at_ : DateTime) : t T * list (Resolved.t T) :=
  settle (mk (waiting b) (KnownSlots.resolve (known b) slot bank at_)) slot.

Definition on_slot_unresolvable b (slot : Z) (bank : Bank) : t T * list (Resolved.t T) :=
  settle (mk (waiting b) (KnownSlots.give_up_ (known b) slot bank)) slot.

Definition on_finalized b (slot : Z) (bank : Bank) : t T * list (Resolved.t T) :=
  settle (mk (waiting b) (KnownSlots.keep (known b) slot bank)) slot.

Definition oldest_pending_slot b : option Z := WaitingSlots.oldest (waiting b).
End Buffer.
End SlotTimestampBuffer.

(** ** The stream: the four calls, in the order the session makes them *)

Inductive Message (T : Type) : Type :=
| MPayload (slot : Z) (bank : Bank) (payload : T)
| MBlockTime (slot : Z) (bank : Bank) (at_ : DateTime)
| MUnresolvable (slot : Z) (bank : Bank)
| MFinalized (slot : Z) (bank : Bank).
Arguments MPayload {T}.
Arguments MBlockTime {T}.
Arguments MUnresolvable {T}.
Arguments MFinalized {T}.

Definition handle_message {T} (b : SlotTimestampBuffer.t T) (m : Message T) :
    SlotTimestampBuffer.t T * list (Resolved.t T) :=
  match m with
  | MPayload slot bank p =>
      let (b, r) := SlotTimestampBuffer.on_payload b slot bank p in
      (b, match r with Some r => [r] | None => [] end)
  | MBlockTime slot bank at_ => SlotTimestampBuffer.on_block_time b slot bank at_
  | MUnresolvable slot bank => SlotTimestampBuffer.on_slot_unresolvable b slot bank
  | MFinalized slot bank => SlotTimestampBuffer.on_finalized b slot bank
  end.

Definition message_slot {T} (m : Message T) : Z :=
  match m with
  | MPayload slot _ _ | MBlockTime slot _ _ | MUnresolvable slot _ | MFinalized slot _ => slot
  end.

(** Everything released while a stream is read, in order, each with the slot
    whose message released it. *)
Fixpoint run {T} (b : SlotTimestampBuffer.t T) (ms : list (Message T)) :
    SlotTimestampBuffer.t T * list (Z * Resolved.t T) :=
  match ms with
  | [] => (b, [])
  | m :: ms =>
    let (b, out) := handle_message b m in
    let (b, outs) := run b ms in
    (b, map (pair (message_slot m)) out ++ outs)
  end.
