(* ===== verification/SlotBufferFacts.v ===== *)
(** * The slot timestamp buffer loses nothing silently

    Invariants of [SlotBuffer.v] over whole streams: both bounds and the
    running count hold after every message, every payload is released once,
    still waiting or counted as dropped, and what is released carries the
    instant of a bank the cluster kept, in arrival order. *)

From S2P Require Import Prelude External OrderedMap SlotBuffer.

(** ** The bounded table of waiting payloads *)

Definition metric_lost (m : Metric) : Z :=
  match m with
  | Evicted n _ | LosingBank n => n
  | Peaks _ _ => 0
  end.

(** How many payloads the metrics count as dropped. *)
Definition lost (ms : list Metric) : Z := foldr (fun m acc => metric_lost m + acc) 0 ms.

Lemma lost_app a b : lost (a ++ b) = lost a + lost b.
Proof. induction a as [|m a IH]; simpl; [done|]. unfold lost in *. rewrite IH. lia. Qed.

Section Waiting.
Context {T : Type}.
Implicit Types w : WaitingSlots.t T.

Record waiting_wf w : Prop := {
  wf_count : WaitingSlots.count w = total (WaitingSlots.pending w);
  wf_head : forall s, is_Some (WaitingSlots.pending w !! s) ->
    exists h, WaitingSlots.head_slot w = Some h /\ s <= h;
  wf_payloads_nonneg : 0 <= WaitingSlots.max_pending_payloads w;
  wf_slots_nonneg : 0 <= WaitingSlots.max_pending_slots w;
}.

(** Payloads waiting or already counted as dropped. *)
Definition held w : Z := WaitingSlots.count w + lost (WaitingSlots.metrics w).

(** [w'] has the bounds of [w] and only some of its slots. *)
Record shrinks w w' : Prop := {
  shrinks_slots : WaitingSlots.max_pending_slots w' = WaitingSlots.max_pending_slots w;
  shrinks_payloads : WaitingSlots.max_pending_payloads w' = WaitingSlots.max_pending_payloads w;
  shrinks_pending : WaitingSlots.pending w' ⊆ WaitingSlots.pending w;
}.

Lemma shrinks_refl w : shrinks w w.
Proof. by constructor. Qed.

Lemma shrinks_trans w1 w2 w3 : shrinks w1 w2 -> shrinks w2 w3 -> shrinks w1 w3.
Proof. intros [E1 E2 H1] [E3 E4 H2]. split; [congruence..|]. by etrans. Qed.

Lemma emit_wf w m : waiting_wf w -> waiting_wf (WaitingSlots.emit w m).
Proof. intros []. by constructor. Qed.

Lemma emit_held w m : held (WaitingSlots.emit w m) = held w + metric_lost m.
Proof. unfold held. simpl. rewrite lost_app. simpl. lia. Qed.

Lemma see_wf w s : waiting_wf w -> waiting_wf (WaitingSlots.see w s).
Proof.
  intros [Hc Hh Hp Hs]. constructor; simpl; try done. intros s' Hs'.
  destruct (Hh s' Hs') as (h & -> & Hle). eexists. split; [done|]. lia.
Qed.

Lemma see_held w s : held (WaitingSlots.see w s) = held w.
Proof. done. Qed.

Lemma see_shrinks w s : shrinks w (WaitingSlots.see w s).
Proof. by constructor. Qed.

Lemma take_wf w s : waiting_wf w -> waiting_wf (WaitingSlots.take w s).1.
Proof.
  intros [Hc Hh Hp Hs]. constructor; simpl; try done.
  - rewrite total_delete_default. lia.
  - intros s' [l [_ Hl]%lookup_delete_Some]. by apply Hh.
Qed.

Lemma take_held w s :
  held (WaitingSlots.take w s).1 + Z.of_nat (length (WaitingSlots.take w s).2) = held w.
Proof. unfold held. simpl. lia. Qed.

Lemma take_shrinks w s : shrinks w (WaitingSlots.take w s).1.
Proof. constructor; simpl; [done..|]. apply delete_subseteq. Qed.

Lemma evict_pending w s why : WaitingSlots.pending (WaitingSlots.evict w s why) = delete s (WaitingSlots.pending w).
Proof. unfold WaitingSlots.evict. simpl. by destruct (default _ _). Qed.

Lemma evict_wf w s why : waiting_wf w -> waiting_wf (WaitingSlots.evict w s why).
Proof.
  intros Hw. pose proof (take_wf w s Hw) as Ht. unfold WaitingSlots.evict.
  destruct (WaitingSlots.take w s) as [w' [|x l]]; simpl in *; [done|by apply emit_wf].
Qed.

Lemma evict_held w s why : held (WaitingSlots.evict w s why) = held w.
Proof.
  pose proof (take_held w s) as Ht. unfold WaitingSlots.evict.
  destruct (WaitingSlots.take w s) as [w' [|x l]]; simpl in *; [lia|].
  rewrite emit_held. simpl metric_lost. lia.
Qed.

Lemma evict_shrinks w s why : shrinks w (WaitingSlots.evict w s why).
Proof.
  pose proof (take_shrinks w s) as Ht. unfold WaitingSlots.evict.
  destruct (WaitingSlots.take w s) as [w' [|x l]]; simpl in *; [done|].
  eapply shrinks_trans; [exact Ht|]. by constructor.
Qed.

(** A bound is exceeded only when something waits, so a victim exists. *)
Lemma exceeded_has_victim w bound :
  waiting_wf w -> WaitingSlots.exceeded_bound w = Some bound ->
  exists s, WaitingSlots.victim w bound = Some s /\ is_Some (WaitingSlots.pending w !! s).
Proof.
  intros [Hc Hh Hp Hs] Hb.
  assert (WaitingSlots.pending w <> ∅) as Hne.
  { intros He. revert Hb. unfold WaitingSlots.exceeded_bound, WaitingSlots.oldest_is_out_of_window,
      WaitingSlots.oldest_lag, WaitingSlots.oldest.
    rewrite Hc, He, (total_empty (T := T)), first_key_empty. case_tests; (lia || done). }
  destruct bound; simpl.
  - destruct (first_key _) as [s|] eqn:Hk; [|by apply first_key_None in Hk].
    exists s. split; [done|]. by apply first_key_Some in Hk as [? _].
  - destruct (last_key _) as [s|] eqn:Hk; [|by apply last_key_None in Hk].
    exists s. split; [done|]. by apply last_key_Some in Hk as [? _].
Qed.

(** The eviction loop ends, within its fuel, with both bounds holding. *)
Lemma enforce_loop_spec fuel w :
  (size (WaitingSlots.pending w) < fuel)%nat -> waiting_wf w ->
  let w' := WaitingSlots.enforce_loop fuel w in
  waiting_wf w' /\ WaitingSlots.exceeded_bound w' = None /\ held w' = held w /\ shrinks w w'.
Proof.
  revert w. induction fuel as [|fuel IH]; intros w Hsize Hw; [lia|]. simpl.
  destruct (WaitingSlots.exceeded_bound w) as [bound|] eqn:Hb.
  2: { split_and!; [done..|apply shrinks_refl]. }
  destruct (exceeded_has_victim w bound Hw Hb) as (s & -> & Hs).
  destruct (IH (WaitingSlots.evict w s (reason bound))) as (Hw' & Hb' & Hh & Hsh).
  - rewrite evict_pending. rewrite (size_delete_Some _ s Hs) in Hsize. lia.
  - by apply evict_wf.
  - split_and!; [done..| |].
    + by rewrite Hh, evict_held.
    + eapply shrinks_trans; [apply evict_shrinks|done].
Qed.

Definition bounded w : Prop := waiting_wf w /\ WaitingSlots.exceeded_bound w = None.

Lemma enforce_bounds_spec w :
  waiting_wf w ->
  let w' := WaitingSlots.enforce_bounds w in
  bounded w' /\ held w' = held w /\ shrinks w w'.
Proof.
  intros Hw. unfold WaitingSlots.enforce_bounds.
  destruct (enforce_loop_spec (S (size (WaitingSlots.pending w)))
    (WaitingSlots.emit w (Peaks (WaitingSlots.count w) (WaitingSlots.oldest_lag w))))
    as (Hw' & Hb & Hh & Hsh); [simpl; lia|by apply emit_wf|].
  split_and!; [done| |].
  - etrans; [exact Hh|]. rewrite emit_held. simpl. lia.
  - eapply shrinks_trans; [|exact Hsh]. by constructor.
Qed.

Lemma bounded_limits w :
  bounded w ->
  WaitingSlots.count w <= WaitingSlots.max_pending_payloads w /\
  WaitingSlots.oldest_lag w <= WaitingSlots.max_pending_slots w.
Proof.
  intros [_ Hb]. revert Hb. unfold WaitingSlots.exceeded_bound, WaitingSlots.oldest_is_out_of_window.
  by case_tests.
Qed.
End Waiting.

(** ** The operations on what waits *)

Section Operations.
Context {T : Type}.
Implicit Types w : WaitingSlots.t T.

Definition pending_of w (s : Z) : list T := default [] (WaitingSlots.pending w !! s).

Lemma shrinks_pending_of w w' s :
  shrinks w w' -> pending_of w' s = pending_of w s \/ pending_of w' s = [].
Proof.
  intros [_ _ Hsub]. unfold pending_of.
  destruct (WaitingSlots.pending w' !! s) as [l|] eqn:Hs; [|by right].
  left. by rewrite (lookup_weaken _ _ _ _ Hs Hsub).
Qed.

Lemma push_wf w s p :
  waiting_wf w ->
  let w0 := WaitingSlots.see w s in
  waiting_wf (WaitingSlots.set_pending w0
    (<[s := default [] (WaitingSlots.pending w0 !! s) ++ [p]]> (WaitingSlots.pending w0))
    (WaitingSlots.count w0 + 1)).
Proof.
  intros [Hc Hh Hp Hs]. constructor; simpl; try done.
  - rewrite total_insert, length_app. simpl. lia.
  - intros s' Hs'. destruct (decide (s' = s)) as [->|Hne].
    + eexists. split; [done|]. destruct (WaitingSlots.head_slot w); lia.
    + rewrite lookup_insert_ne in Hs' by done. destruct (Hh s' Hs') as (h & -> & Hle).
      eexists. split; [done|]. lia.
Qed.

Lemma push_spec w s p :
  waiting_wf w ->
  let w' := WaitingSlots.push w s p in
  bounded w' /\ held w' = held w + 1 /\
  WaitingSlots.max_pending_slots w' = WaitingSlots.max_pending_slots w /\
  WaitingSlots.max_pending_payloads w' = WaitingSlots.max_pending_payloads w /\
  (pending_of w' s = pending_of w s ++ [p] \/ pending_of w' s = []) /\
  (forall s', s' <> s -> pending_of w' s' = pending_of w s' \/ pending_of w' s' = []).
Proof.
  intros Hw. pose proof (push_wf w s p Hw) as Hwf. cbv zeta in Hwf.
  unfold WaitingSlots.push. cbv zeta. set (w1 := WaitingSlots.set_pending _ _ _) in *.
  destruct (enforce_bounds_spec w1 Hwf) as (Hb & Hh & Hsh). split_and!.
  - done.
  - rewrite Hh. unfold held. simpl. lia.
  - by rewrite (shrinks_slots _ _ Hsh).
  - by rewrite (shrinks_payloads _ _ Hsh).
  - destruct (shrinks_pending_of _ _ s Hsh) as [->| ->]; [left|by right].
    unfold pending_of. simpl. by rewrite lookup_insert_eq.
  - intros s' Hne. destruct (shrinks_pending_of _ _ s' Hsh) as [->| ->]; [left|by right].
    unfold pending_of. simpl. by rewrite lookup_insert_ne.
Qed.

Lemma observe_spec w s :
  waiting_wf w ->
  let w' := WaitingSlots.observe w s in
  bounded w' /\ held w' = held w /\ shrinks w w'.
Proof.
  intros Hw. destruct (enforce_bounds_spec (WaitingSlots.see w s)) as (Hb & Hh & Hsh);
    [by apply see_wf|]. split_and!; [done..|]. eapply shrinks_trans; [apply see_shrinks|done].
Qed.

Lemma release_spec w s :
  waiting_wf w ->
  let '(w', released) := WaitingSlots.release w s in
  bounded w' /\ held w' + Z.of_nat (length released) = held w /\ shrinks w w' /\
  released = pending_of w s /\ pending_of w' s = [].
Proof.
  intros Hw. unfold WaitingSlots.release. cbv zeta.
  pose proof (take_wf (WaitingSlots.see w s) s (see_wf w s Hw)) as Ht.
  pose proof (take_held (WaitingSlots.see w s) s) as Hth.
  pose proof (take_shrinks (WaitingSlots.see w s) s) as Hts.
  unfold WaitingSlots.take in *. simpl fst in *. simpl snd in *.
  set (w1 := WaitingSlots.set_pending _ _ _) in *.
  destruct (enforce_bounds_spec w1 Ht) as (Hb & Hh & Hsh). split_and!.
  - done.
  - rewrite Hh. rewrite see_held in Hth. done.
  - eapply shrinks_trans; [apply see_shrinks|]. by eapply shrinks_trans.
  - done.
  - destruct (shrinks_pending_of _ _ s Hsh) as [->| ->]; [|done].
    unfold pending_of, w1. simpl. by rewrite lookup_delete_eq.
Qed.

Lemma give_up_spec w s :
  waiting_wf w ->
  let w' := WaitingSlots.give_up_ w s in
  bounded w' /\ held w' = held w /\ shrinks w w' /\ pending_of w' s = [].
Proof.
  intros Hw. unfold WaitingSlots.give_up_. cbv zeta.
  pose proof (evict_wf (WaitingSlots.see w s) s Unresolvable (see_wf w s Hw)) as Hwf.
  destruct (enforce_bounds_spec _ Hwf) as (Hb & Hh & Hsh). split_and!.
  - done.
  - by rewrite Hh, evict_held, see_held.
  - eapply shrinks_trans; [apply see_shrinks|]. eapply shrinks_trans; [apply evict_shrinks|done].
  - destruct (shrinks_pending_of _ _ s Hsh) as [->| ->]; [|done].
    unfold pending_of. rewrite evict_pending. by rewrite lookup_delete_eq.
Qed.

Lemma filter_length_le (f : T -> bool) l : (length (List.filter f l) <= length l)%nat.
Proof. induction l as [|x l IH]; simpl; [done|]. destruct (f x); simpl; lia. Qed.

Lemma drop_losing_spec w s is_losing :
  waiting_wf w ->
  let w' := WaitingSlots.drop_losing w s is_losing in
  waiting_wf w' /\ held w' = held w /\
  WaitingSlots.max_pending_slots w' = WaitingSlots.max_pending_slots w /\
  WaitingSlots.max_pending_payloads w' = WaitingSlots.max_pending_payloads w /\
  pending_of w' s = List.filter (fun p => negb (is_losing p)) (pending_of w s) /\
  (forall s', s' <> s -> pending_of w' s' = pending_of w s').
Proof.
  intros [Hc Hh Hp Hs]. unfold WaitingSlots.drop_losing, pending_of.
  destruct (WaitingSlots.pending w !! s) as [l|] eqn:Hl.
  2: { cbv zeta. rewrite Hl. split_and!; [by constructor|done..]. }
  set (retained := List.filter _ l). simpl default.
  pose proof (filter_length_le (fun p => negb (is_losing p)) l) as Hlen. fold retained in Hlen.
  set (p' := match retained with [] => _ | _ => _ end).
  assert (total p' = total (WaitingSlots.pending w) - (Z.of_nat (length l) - Z.of_nat (length retained))) as Ht.
  { unfold p'. destruct retained as [|x r].
    - rewrite total_delete_default, Hl. simpl. lia.
    - rewrite total_insert, Hl. simpl. lia. }
  assert (forall s', default [] (p' !! s') =
    if decide (s' = s) then retained else default [] (WaitingSlots.pending w !! s')) as Hlook.
  { intros s'. unfold p'. destruct (decide (s' = s)) as [->|Hne]; destruct retained.
    - by rewrite lookup_delete_eq.
    - by rewrite lookup_insert_eq.
    - by rewrite lookup_delete_ne.
    - by rewrite lookup_insert_ne. }
  assert (forall s', is_Some (p' !! s') -> is_Some (WaitingSlots.pending w !! s')) as Hsub.
  { intros s'. unfold p'. destruct (decide (s' = s)) as [->|Hne]; [rewrite Hl; eauto|].
    destruct retained; [by rewrite lookup_delete_ne|by rewrite lookup_insert_ne]. }
  clearbody p'.
  destruct (Z.eqb_spec (Z.of_nat (length l) - Z.of_nat (length retained)) 0) as [E|E]; cbv zeta;
    (split_and!; [constructor; simpl; try done; [lia|naive_solver]| | | | | ]);
    simpl; try done; try (rewrite Hlook; by rewrite decide_True);
    try (intros s' Hne; rewrite Hlook; by rewrite decide_False).
  unfold held. simpl. rewrite lost_app. simpl. lia.
Qed.
End Operations.

(** From here on the operations are known by their specifications only. *)
#[local] Opaque WaitingSlots.release WaitingSlots.observe WaitingSlots.give_up_ WaitingSlots.push
  WaitingSlots.drop_losing.

(** ** The table of known slots *)

Lemma size_pop_first {V} (m : gmap Z V) : (size m <> 0)%nat -> size m = S (size (pop_first m)).
Proof.
  intros Hs. unfold pop_first. destruct (first_key m) as [k|] eqn:Hk.
  - apply first_key_Some in Hk as [Hin _]. by apply size_delete_Some.
  - apply first_key_None in Hk as ->. by rewrite map_size_empty in Hs.
Qed.

Lemma pop_first_subseteq {V} (m : gmap Z V) : pop_first m ⊆ m.
Proof. unfold pop_first. destruct (first_key m); [apply delete_subseteq|done]. Qed.

Lemma trim_loop_spec fuel max m :
  0 <= max -> (size m <= fuel)%nat ->
  Z.of_nat (size (KnownSlots.trim_loop fuel max m)) <= max /\ KnownSlots.trim_loop fuel max m ⊆ m.
Proof.
  intros Hmax. revert m. induction fuel as [|fuel IH]; intros m Hm; simpl; [split; [lia|done]|].
  destruct (Z.ltb_spec max (Z.of_nat (size m))); [|split; [lia|done]].
  pose proof (size_pop_first m ltac:(lia)) as Hp. destruct (IH (pop_first m)) as [Hs Hsub]; [lia|].
  split; [done|]. etrans; [exact Hsub|]. apply pop_first_subseteq.
Qed.

Section Known.
Implicit Types k : KnownSlots.t.

Definition known_ok k : Prop :=
  0 <= KnownSlots.max_known_slots k /\
  Z.of_nat (size (KnownSlots.facts k)) <= KnownSlots.max_known_slots k.

(** What an update of one slot does: its facts, and other slots only forgotten. *)
Definition updates k k' (slot : Z) (f : Facts.t) : Prop :=
  KnownSlots.max_known_slots k' = KnownSlots.max_known_slots k /\
  KnownSlots.facts k' ⊆ <[slot := f]> (KnownSlots.facts k).

Lemma trim_set_spec k slot f :
  known_ok k ->
  let k' := KnownSlots.trim (KnownSlots.set_facts k slot f) in
  known_ok k' /\ updates k k' slot f.
Proof.
  intros [Hmax _]. unfold KnownSlots.trim, KnownSlots.set_facts. simpl.
  destruct (trim_loop_spec (size (<[slot := f]> (KnownSlots.facts k))) (KnownSlots.max_known_slots k)
    (<[slot := f]> (KnownSlots.facts k))) as [Hs Hsub]; [done|lia|]. done.
Qed.

Lemma updates_other k k' slot f s f' :
  updates k k' slot f -> s <> slot -> KnownSlots.facts k' !! s = Some f' ->
  KnownSlots.facts k !! s = Some f'.
Proof.
  intros [_ Hsub] Hne Hs. apply (lookup_weaken _ _ _ _ Hs) in Hsub.
  by rewrite lookup_insert_ne in Hsub.
Qed.

Lemma updates_same k k' slot f f' :
  updates k k' slot f -> KnownSlots.facts k' !! slot = Some f' -> f' = f.
Proof.
  intros [_ Hsub] Hs. apply (lookup_weaken _ _ _ _ Hs) in Hsub.
  rewrite lookup_insert_eq in Hsub. congruence.
Qed.

Lemma time_Some k slot o :
  KnownSlots.time k slot = Some o <->
  exists f kept, KnownSlots.facts k !! slot = Some f /\ Facts.kept f = Some kept /\
    Facts.time f kept = Some o.
Proof.
  unfold KnownSlots.time. destruct (KnownSlots.facts k !! slot) as [f|]; simpl; [|naive_solver].
  destruct (Facts.kept f) as [b|] eqn:Hb; simpl; naive_solver.
Qed.

Lemma kept_Some k slot b :
  KnownSlots.kept k slot = Some b <->
  exists f, KnownSlots.facts k !! slot = Some f /\ Facts.kept f = Some b.
Proof. unfold KnownSlots.kept. destruct (KnownSlots.facts k !! slot); simpl; naive_solver. Qed.

Lemma updates_time_other k k' slot f s o :
  updates k k' slot f -> s <> slot -> KnownSlots.time k' s = Some o -> KnownSlots.time k s = Some o.
Proof.
  intros Hu Hne (f' & b & Hf & Hb & Ht)%time_Some. apply time_Some.
  exists f', b. split_and!; [|done..]. by eapply updates_other.
Qed.

(** The instant of a slot is one its kept bank's block-meta named. *)
Lemma facts_time_At f kept at_ :
  Facts.time f kept = Some (At at_) ->
  exists bank, In (bank, At at_) (Facts.times f) /\ admits kept bank = true.
Proof.
  unfold Facts.time, Facts.admitted. intros Ht.
  assert (In (At at_) (map snd (List.filter (fun bo => admits kept bo.1) (Facts.times f)))) as Hin.
  { destruct (List.find _ _) as [o|] eqn:Hf.
    - injection Ht as ->. by apply find_some in Hf as [? _].
    - destruct (map snd _); simpl in *; [done|]. injection Ht as ->. by left. }
  apply in_map_iff in Hin as ([bank o] & Ho & [Hin Ha]%filter_In). simpl in *. subst. eauto.
Qed.

Lemma settlement_Settled k slot bank o :
  KnownSlots.settlement k slot bank = Settled o ->
  KnownSlots.time k slot = Some o /\
  exists kept, KnownSlots.kept k slot = Some kept /\ admits kept bank = true.
Proof.
  unfold KnownSlots.settlement, KnownSlots.time, KnownSlots.kept.
  destruct (KnownSlots.facts k !! slot) as [f|]; [|done]. simpl.
  destruct (Facts.kept f) as [kept|]; [|done]. simpl.
  destruct (admits kept bank) eqn:Ha; simpl; [|done].
  destruct (Facts.time f kept); [|done]. intros [= ->]. eauto.
Qed.

Lemma settlement_Pending k slot bank :
  KnownSlots.settlement k slot bank = Pending -> KnownSlots.time k slot = None.
Proof.
  unfold KnownSlots.settlement, KnownSlots.time.
  destruct (KnownSlots.facts k !! slot) as [f|]; [|done]. simpl.
  destruct (Facts.kept f) as [kept|]; [|done]. simpl.
  destruct (admits kept bank); simpl; [|done]. by destruct (Facts.time f kept).
Qed.

Lemma set_time_In times bank o b' o' :
  In (b', o') (KnownSlots.set_time times bank o) -> (b' = bank /\ o' = o) \/ In (b', o') times.
Proof.
  induction times as [|[b1 o1] times IH]; simpl; [intros [[= <- <-]|[]]; auto|].
  case_bool_decide; simpl; [intros [[= <- <-]|Hin]; auto|]. intros [Heq|Hin]; [auto|].
  destruct (IH Hin); auto.
Qed.
End Known.

(** ** The buffer *)

Section Buffer.
Context {T : Type}.
Implicit Types b : SlotTimestampBuffer.t T.

Notation pend b s := (pending_of (SlotTimestampBuffer.waiting b) s).

Record buffer_ok b : Prop := {
  ok_bounded : bounded (SlotTimestampBuffer.waiting b);
  ok_known : known_ok (SlotTimestampBuffer.known b);
  (** a settled slot has nothing left waiting *)
  ok_settled : forall s o, KnownSlots.time (SlotTimestampBuffer.known b) s = Some o -> pend b s = [];
}.

Definition bheld b : Z := held (SlotTimestampBuffer.waiting b).

(** The bounds a buffer was built with. *)
Definition bounds b : Z * Z * Z :=
  (WaitingSlots.max_pending_slots (SlotTimestampBuffer.waiting b),
   WaitingSlots.max_pending_payloads (SlotTimestampBuffer.waiting b),
   KnownSlots.max_known_slots (SlotTimestampBuffer.known b)).

(** What one message does to the payloads of its slot. *)
Definition slot_effect (pend pend' : list (Held.t T)) (out : list (Resolved.t T))
    (k : KnownSlots.t) (slot : Z) : Prop :=
  (out = [] /\ pend' `sublist_of` pend) \/
  (exists kept at_, KnownSlots.kept k slot = Some kept /\ KnownSlots.time k slot = Some (At at_) /\
    pend' = [] /\
    out = map (fun h => Resolved.mk (Held.payload h) at_)
      (List.filter (fun h => admits kept (Held.bank h)) pend)).

Lemma shrink_sublist (w w' : WaitingSlots.t (Held.t T)) s :
  shrinks w w' -> pending_of w' s `sublist_of` pending_of w s.
Proof. intros H. destruct (shrinks_pending_of _ _ s H) as [->| ->]; [done|apply sublist_nil_l]. Qed.

Lemma settle_spec b slot :
  bounded (SlotTimestampBuffer.waiting b) -> known_ok (SlotTimestampBuffer.known b) ->
  (forall s o, s <> slot -> KnownSlots.time (SlotTimestampBuffer.known b) s = Some o -> pend b s = []) ->
  let '(b', out) := SlotTimestampBuffer.settle b slot in
  buffer_ok b' /\ SlotTimestampBuffer.known b' = SlotTimestampBuffer.known b /\ bounds b' = bounds b /\
  bheld b' + Z.of_nat (length out) = bheld b /\
  (forall s, s <> slot -> pend b' s `sublist_of` pend b s) /\
  slot_effect (pend b slot) (pend b' slot) out (SlotTimestampBuffer.known b) slot.
Proof.
  intros [Hwf _] Hk Hother. destruct b as [w k]. simpl in *.
  unfold SlotTimestampBuffer.settle. simpl.
  destruct (KnownSlots.kept k slot) as [kept|] eqn:Hkept.
  2: { destruct (observe_spec w slot Hwf) as (Hb & Hh & Hsh). unfold bounds, bheld. simpl.
    assert (KnownSlots.time k slot = None) as Hnone.
    { destruct (KnownSlots.time k slot) eqn:Ht; [|done]. apply time_Some in Ht as (f & b & Hf & Hb' & _).
      assert (KnownSlots.kept k slot = Some b) by (apply kept_Some; eauto). congruence. }
    split_and!; [|done| |lia| |left; split; [done|by apply shrink_sublist]].
    - constructor; simpl; [done|done|]. intros s o Ht.
      destruct (decide (s = slot)) as [->|Hne]; [congruence|].
      specialize (Hother s o Hne Ht). destruct (shrinks_pending_of _ _ s Hsh); congruence.
    - by rewrite (shrinks_slots _ _ Hsh), (shrinks_payloads _ _ Hsh).
    - intros s _. by apply shrink_sublist. }
  destruct (drop_losing_spec w slot (fun h => negb (admits kept (Held.bank h))) Hwf)
    as (Hwf1 & Hh1 & Hs1 & Hp1 & Hpend1 & Hoth1).
  set (w1 := WaitingSlots.drop_losing _ _ _) in *.
  assert (List.filter (fun p => negb (negb (admits kept (Held.bank p)))) (pending_of w slot) =
    List.filter (fun h => admits kept (Held.bank h)) (pending_of w slot)) as Hneg.
  { apply filter_ext. intros h. by rewrite negb_involutive. }
  rewrite Hneg in Hpend1.
  assert (forall w', shrinks w1 w' -> forall s, s <> slot -> pending_of w' s `sublist_of` pending_of w s)
    as Hsub by (intros w' Hw' s Hne; rewrite <- (Hoth1 s Hne); by apply shrink_sublist).
  assert (forall w', shrinks w1 w' -> pending_of w' slot = [] -> forall s o,
    KnownSlots.time k s = Some o -> pending_of w' s = []) as Hsettled.
  { intros w' Hw' Hnil s o Ht. destruct (decide (s = slot)) as [->|Hne]; [done|].
    specialize (Hother s o Hne Ht). rewrite <- (Hoth1 s Hne) in Hother.
    destruct (shrinks_pending_of _ _ s Hw'); congruence. }
  unfold bounds, bheld. simpl.
  destruct (KnownSlots.time k slot) as [[at_|]|] eqn:Ht.
  - pose proof (release_spec w1 slot Hwf1) as Hr.
    destruct (WaitingSlots.release w1 slot) as [w' released].
    destruct Hr as (Hb & Hh & Hsh & -> & Hnil). simpl. split_and!.
    + constructor; simpl; [done|done|]. by apply Hsettled.
    + done.
    + simpl. rewrite (shrinks_slots _ _ Hsh), (shrinks_payloads _ _ Hsh). congruence.
    + rewrite length_map. lia.
    + intros s Hne. by apply Hsub.
    + right. exists kept, at_. by rewrite Hpend1, Hnil.
  - destruct (give_up_spec w1 slot Hwf1) as (Hb & Hh & Hsh & Hnil). split_and!.
    + constructor; simpl; [done|done|]. by apply Hsettled.
    + done.
    + simpl. rewrite (shrinks_slots _ _ Hsh), (shrinks_payloads _ _ Hsh). congruence.
    + simpl. lia.
    + intros s Hne. by apply Hsub.
    + left. simpl. rewrite Hnil. split; [done|apply sublist_nil_l].
  - destruct (observe_spec w1 slot Hwf1) as (Hb & Hh & Hsh). split_and!.
    + constructor; simpl; [done|done|]. intros s o Hs.
      destruct (decide (s = slot)) as [->|Hne]; [congruence|].
      specialize (Hother s o Hne Hs). rewrite <- (Hoth1 s Hne) in Hother.
      destruct (shrinks_pending_of _ _ s Hsh); congruence.
    + done.
    + simpl. rewrite (shrinks_slots _ _ Hsh), (shrinks_payloads _ _ Hsh). congruence.
    + simpl. lia.
    + intros s Hne. by apply Hsub.
    + left. split; [done|]. etrans; [by apply shrink_sublist|]. rewrite Hpend1. apply filter_sublist.
Qed.
End Buffer.

(** ** Whole streams *)

Section Streams.
Context {T : Type}.
Implicit Types (b : SlotTimestampBuffer.t T) (ms : list (Message T)) (outs : list (Z * Resolved.t T)).

Notation pend b s := (pending_of (SlotTimestampBuffer.waiting b) s).

(** The payloads of a slot, in the order they arrived. *)
Definition arrivals (s : Z) ms : list T :=
  omap (fun m => match m with MPayload slot _ p => if slot =? s then Some p else None | _ => None end) ms.

Definition is_payload (m : Message T) : bool :=
  match m with MPayload _ _ _ => true | _ => false end.

Definition payload_count ms : Z := Z.of_nat (length (List.filter is_payload ms)).

(** What was released for a slot, in order. *)
Definition outputs_of (s : Z) outs : list T :=
  omap (fun o => if o.1 =? s then Some (Resolved.payload o.2) else None) outs.

(** Why a payload was released: it arrived in a bank the kept bank admits, and
    its instant is one a block-meta gave for such a bank. *)
Definition justified ms (s : Z) (r : Resolved.t T) : Prop :=
  exists bank kept bank', In (MPayload s bank (Resolved.payload r)) ms /\
    In (MFinalized s kept) ms /\ admits kept bank = true /\
    In (MBlockTime s bank' (Resolved.at_ r)) ms /\ admits kept bank' = true.

(** The facts of a slot come from its messages. *)
Definition facts_from ms (s : Z) (f : Facts.t) : Prop :=
  (forall kept, Facts.kept f = Some kept -> In (MFinalized s kept) ms) /\
  (forall bank at_, In (bank, At at_) (Facts.times f) -> In (MBlockTime s bank at_) ms).

Record inv ms b outs : Prop := {
  inv_ok : buffer_ok b;
  inv_count : payload_count ms = Z.of_nat (length outs) + bheld b;
  inv_order : forall s,
    (outputs_of s outs ++ map Held.payload (pend b s)) `sublist_of` arrivals s ms;
  inv_arrived : forall s h, In h (pend b s) -> In (MPayload s (Held.bank h) (Held.payload h)) ms;
  inv_facts : forall s f, KnownSlots.facts (SlotTimestampBuffer.known b) !! s = Some f ->
    facts_from ms s f;
  inv_outs : forall s r, In (s, r) outs -> justified ms s r;
}.

Lemma facts_from_mono ms m s f : facts_from ms s f -> facts_from (ms ++ [m]) s f.
Proof. intros [Hk Ht]. split; intros; apply in_or_app; left; eauto. Qed.

Lemma justified_mono ms m s r : justified ms s r -> justified (ms ++ [m]) s r.
Proof.
  intros (bank & kept & bank' & H1 & H2 & H3 & H4 & H5). exists bank, kept, bank'.
  split_and!; try done; apply in_or_app; by left.
Qed.

Lemma arrivals_app s ms ms' : arrivals s (ms ++ ms') = arrivals s ms ++ arrivals s ms'.
Proof. apply omap_app. Qed.

Lemma outputs_of_app s o o' : outputs_of s (o ++ o') = outputs_of s o ++ outputs_of s o'.
Proof. apply omap_app. Qed.

Lemma outputs_of_tagged s slot (out : list (Resolved.t T)) :
  outputs_of s (map (pair slot) out) = if slot =? s then map Resolved.payload out else [].
Proof.
  unfold outputs_of. induction out as [|r out IH]; cbn [map omap list_omap]; [by destruct (slot =? s)|].
  rewrite IH. simpl. by destruct (slot =? s).
Qed.

Lemma payload_count_snoc ms m :
  payload_count (ms ++ [m]) = payload_count ms + (if is_payload m then 1 else 0).
Proof.
  unfold payload_count. rewrite List.filter_app, length_app. simpl.
  destruct (is_payload m); simpl; lia.
Qed.

(** The facts after an update of one slot. *)
Lemma facts_update ms m b k' slot f :
  (forall s f, KnownSlots.facts (SlotTimestampBuffer.known b) !! s = Some f -> facts_from ms s f) ->
  updates (SlotTimestampBuffer.known b) k' slot f -> facts_from (ms ++ [m]) slot f ->
  forall s f', KnownSlots.facts k' !! s = Some f' -> facts_from (ms ++ [m]) s f'.
Proof.
  intros Hold Hu Hf s f' Hs.
  destruct (decide (s = slot)) as [->|Hne].
  - by rewrite (updates_same _ _ _ _ _ Hu Hs).
  - apply facts_from_mono, Hold. by eapply updates_other.
Qed.

Lemma entry_from ms b slot :
  (forall s f, KnownSlots.facts (SlotTimestampBuffer.known b) !! s = Some f -> facts_from ms s f) ->
  facts_from ms slot (KnownSlots.entry (SlotTimestampBuffer.known b) slot).
Proof.
  intros Hb. unfold KnownSlots.entry.
  destruct (KnownSlots.facts _ !! slot) as [f|] eqn:Hf; [by apply Hb|]. by split.
Qed.

(** A message other than a payload updates the facts of its slot, then settles it. *)
Lemma inv_settle ms m b outs k' f slot :
  inv ms b outs -> is_payload m = false -> message_slot m = slot ->
  known_ok k' -> updates (SlotTimestampBuffer.known b) k' slot f -> facts_from (ms ++ [m]) slot f ->
  let '(b', out) := SlotTimestampBuffer.settle
    (SlotTimestampBuffer.mk (SlotTimestampBuffer.waiting b) k') slot in
  inv (ms ++ [m]) b' (outs ++ map (pair slot) out) /\ bounds b' = bounds b.
Proof.
  intros [Hok Hcount Horder Harr Hfacts Houts] Hm Hslot Hk Hu Hf.
  pose proof (facts_update ms m b k' slot f Hfacts Hu Hf) as Hfacts'.
  pose proof (settle_spec (SlotTimestampBuffer.mk (SlotTimestampBuffer.waiting b) k') slot
    (ok_bounded _ Hok) Hk) as Hs. simpl in Hs.
  destruct (SlotTimestampBuffer.settle _ slot) as [b' out].
  destruct Hs as (Hok' & Hk' & Hbounds & Hheld & Hother & Heff).
  { intros s o Hne Ht. apply (ok_settled _ Hok s o). by eapply updates_time_other. }
  assert (arrivals slot (ms ++ [m]) = arrivals slot ms) as Harr_m
    by (rewrite arrivals_app; by destruct m; simpl in *; rewrite ?app_nil_r).
  assert (forall s, arrivals s (ms ++ [m]) = arrivals s ms) as Harr_s
    by (intros s; rewrite arrivals_app; by destruct m; simpl in *; rewrite ?app_nil_r).
  assert (bounds b' = bounds b) as Hbs.
  { rewrite Hbounds. unfold bounds. simpl. by destruct Hu as [-> _]. }
  assert (forall s, pend b' s `sublist_of` pend b s) as Hsub.
  { intros s. destruct (decide (s = slot)) as [->|Hne]; [|by apply Hother].
    destruct Heff as [[_ Hsl]|(kept & at_ & _ & _ & -> & _)]; [done|apply sublist_nil_l]. }
  split; [|done]. constructor; simpl.
  - done.
  - rewrite payload_count_snoc, Hm, Hcount, length_app, length_map. unfold bheld in *. simpl in Hheld. lia.
  - intros s. rewrite Harr_s, outputs_of_app, outputs_of_tagged.
    destruct (Z.eqb_spec slot s) as [<-|Hne].
    + etrans; [|apply (Horder slot)].
      destruct Heff as [[-> Hsl]|(kept & at_ & _ & _ & -> & ->)].
      * simpl. rewrite app_nil_r. apply sublist_app; [done|by apply map_sublist].
      * simpl. rewrite app_nil_r. apply sublist_app; [done|]. rewrite map_map. simpl.
        apply map_sublist, filter_sublist.
    + rewrite app_nil_r. etrans; [|apply (Horder s)]. apply sublist_app; [done|].
      by apply map_sublist.
  - intros s h Hin. apply in_or_app. left. apply Harr.
    by eapply sublist_In; [apply Hsub|].
  - rewrite Hk'. simpl. apply Hfacts'.
  - intros s r Hin. apply in_app_or in Hin as [Hin|Hin]; [by apply justified_mono, Houts|].
    apply in_map_iff in Hin as (r' & [= <- <-] & Hin).
    destruct Heff as [[-> _]|(kept & at_ & Hkept & Ht & _ & ->)]; [done|].
    apply in_map_iff in Hin as (h & <- & [Hh Ha]%filter_In). simpl.
    apply kept_Some in Hkept as (f1 & Hf1 & Hkept). apply time_Some in Ht as (f2 & kept' & Hf2 & Hk2 & Ht).
    assert (f2 = f1) as -> by congruence. assert (kept' = kept) as -> by congruence.
    apply facts_time_At in Ht as (bank' & Hbank' & Ha').
    destruct (Hfacts' _ _ Hf1) as [HF HT].
    exists (Held.bank h), kept, bank'. split_and!; try done.
    + apply in_or_app. left. by apply Harr.
    + by apply HF.
    + by apply HT.
Qed.

Lemma arrivals_payload s ms slot bank p :
  arrivals s (ms ++ [MPayload slot bank p]) = arrivals s ms ++ (if slot =? s then [p] else []).
Proof. rewrite arrivals_app. simpl. by destruct (slot =? s). Qed.

Lemma arrivals_grow s ms slot bank p l :
  l `sublist_of` arrivals s ms -> l `sublist_of` arrivals s (ms ++ [MPayload slot bank p]).
Proof. intros H. rewrite arrivals_payload. by apply sublist_inserts_r. Qed.

Lemma facts_grow ms m k :
  (forall s f, KnownSlots.facts k !! s = Some f -> facts_from ms s f) ->
  forall s f, KnownSlots.facts k !! s = Some f -> facts_from (ms ++ [m]) s f.
Proof. intros H s f Hf. by apply facts_from_mono, H. Qed.

(** A payload counted as dropped on arrival. *)
Lemma inv_dropped ms b outs slot bank p m :
  inv ms b outs -> metric_lost m = 1 ->
  let b' := SlotTimestampBuffer.set_waiting b (WaitingSlots.emit (SlotTimestampBuffer.waiting b) m) in
  inv (ms ++ [MPayload slot bank p]) b' outs /\ bounds b' = bounds b.
Proof.
  intros [[[Hwf Hbd] Hk Hset] Hcount Horder Harr Hfacts Houts] Hm. split; [|done].
  constructor; simpl.
  - constructor; simpl; [|done|exact Hset]. split; [by apply emit_wf|exact Hbd].
  - rewrite payload_count_snoc, Hcount. unfold bheld. simpl. rewrite emit_held. lia.
  - intros s. apply arrivals_grow, Horder.
  - intros s h Hh. apply in_or_app. left. by apply Harr.
  - by apply facts_grow.
  - intros s r Hr. by apply justified_mono, Houts.
Qed.

(** A payload of a settled slot is released at once, behind everything released
    before it: nothing of that slot waits. *)
Lemma inv_released ms b outs slot bank p at_ :
  inv ms b outs -> KnownSlots.settlement (SlotTimestampBuffer.known b) slot bank = Settled (At at_) ->
  inv (ms ++ [MPayload slot bank p]) b (outs ++ [(slot, Resolved.mk p at_)]).
Proof.
  intros [Hok Hcount Horder Harr Hfacts Houts] (Ht & kept & Hkept & Ha)%settlement_Settled.
  constructor.
  - done.
  - rewrite payload_count_snoc, Hcount, length_app. simpl. lia.
  - intros s. rewrite outputs_of_app, arrivals_payload. simpl.
    destruct (Z.eqb_spec slot s) as [<-|Hne].
    + rewrite (ok_settled _ Hok _ _ Ht). simpl. rewrite app_nil_r.
      apply sublist_app; [|done]. etrans; [|apply (Horder slot)]. by apply sublist_inserts_r.
    + rewrite !app_nil_r. apply Horder.
  - intros s h Hh. apply in_or_app. left. by apply Harr.
  - by apply facts_grow.
  - intros s r Hin. apply in_app_or in Hin as [Hin|[[= <- <-]|[]]]; [by apply justified_mono, Houts|].
    apply kept_Some in Hkept as (f & Hf & Hkept). apply time_Some in Ht as (f' & kept' & Hf' & Hk' & Ht).
    assert (f' = f) as -> by congruence. assert (kept' = kept) as -> by congruence.
    apply facts_time_At in Ht as (bank' & Hbank' & Ha').
    destruct (facts_grow _ (MPayload slot bank p) _ Hfacts _ _ Hf) as [HF HT].
    exists bank, kept, bank'. split_and!; auto. apply in_or_app. right. by left.
Qed.

(** A payload whose slot is not settled waits behind the earlier ones. *)
Lemma inv_pushed ms b outs slot bank p :
  inv ms b outs -> KnownSlots.settlement (SlotTimestampBuffer.known b) slot bank = Pending ->
  let b' := SlotTimestampBuffer.set_waiting b
    (WaitingSlots.push (SlotTimestampBuffer.waiting b) slot (Held.mk bank p)) in
  inv (ms ++ [MPayload slot bank p]) b' outs /\ bounds b' = bounds b.
Proof.
  intros [Hok Hcount Horder Harr Hfacts Houts] Hnone%settlement_Pending.
  destruct (push_spec (SlotTimestampBuffer.waiting b) slot (Held.mk bank p) (proj1 (ok_bounded _ Hok)))
    as (Hb & Hh & Hs & Hp & Hslot & Hother). split.
  2: { unfold bounds. simpl. by rewrite Hs, Hp. }
  constructor; simpl.
  - constructor; simpl; [done|apply Hok|]. intros s o Ht.
    destruct (decide (s = slot)) as [->|Hne]; [congruence|].
    pose proof (ok_settled _ Hok s o Ht). destruct (Hother s Hne); congruence.
  - rewrite payload_count_snoc, Hcount. unfold bheld. simpl. lia.
  - intros s. rewrite arrivals_payload. destruct (Z.eqb_spec slot s) as [<-|Hne].
    + destruct Hslot as [->| ->]; simpl.
      * rewrite map_app, app_assoc. by apply sublist_app.
      * rewrite app_nil_r. apply sublist_inserts_r. etrans; [|apply (Horder slot)].
        by apply sublist_inserts_r.
    + rewrite app_nil_r. destruct (Hother s) as [->| ->]; [done|apply Horder|]. simpl.
      rewrite app_nil_r. etrans; [|apply (Horder s)]. by apply sublist_inserts_r.
  - intros s h Hin. apply in_or_app. destruct (decide (s = slot)) as [->|Hne].
    + destruct Hslot as [E|E]; rewrite E in Hin; [|done].
      apply in_app_or in Hin as [Hin|[<-|[]]]; [left; by apply Harr|right; by left].
    + destruct (Hother s Hne) as [E|E]; rewrite E in Hin; [|done]. left. by apply Harr.
  - by apply facts_grow.
  - intros s r Hr. by apply justified_mono, Houts.
Qed.

(** Every message preserves the invariant and the bounds. *)
Lemma inv_step ms b outs m :
  inv ms b outs ->
  let '(b', out) := handle_message b m in
  inv (ms ++ [m]) b' (outs ++ map (pair (message_slot m)) out) /\ bounds b' = bounds b.
Proof.
  intros Hinv. pose proof (inv_facts _ _ _ Hinv) as Hfacts.
  pose proof (ok_known _ (inv_ok _ _ _ Hinv)) as Hk.
  destruct m as [slot bank p|slot bank at_|slot bank|slot bank]; simpl.
  - unfold SlotTimestampBuffer.on_payload.
    destruct (KnownSlots.settlement _ slot bank) as [| |[at_|]] eqn:Hs; simpl; rewrite ?app_nil_r.
    + by apply inv_pushed.
    + by apply inv_dropped.
    + split; [by apply inv_released|done].
    + by apply inv_dropped.
  - destruct (entry_from ms b slot Hfacts) as [HF HT].
    destruct (trim_set_spec _ slot (Facts.mk
      (KnownSlots.set_time (Facts.times (KnownSlots.entry (SlotTimestampBuffer.known b) slot)) bank (At at_))
      (Facts.kept (KnownSlots.entry (SlotTimestampBuffer.known b) slot))) Hk) as [Hk' Hu].
    eapply inv_settle; [done..|exact Hu|]. split; simpl.
    + intros kept Hkept. apply in_or_app. left. by apply HF.
    + intros b' o Hin. apply in_or_app.
      apply set_time_In in Hin as [[-> [= ->]]|Hin]; [right; by left|left; by apply HT].
  - destruct (entry_from ms b slot Hfacts) as [HF HT].
    eapply inv_settle; [done..|apply trim_set_spec, Hk|apply trim_set_spec, Hk|]. split; simpl.
    + intros kept Hkept. apply in_or_app. left. by apply HF.
    + intros b' o Hin. apply in_or_app. left. apply HT.
      destruct (existsb _ _); simpl in Hin; [done|]. by apply in_app_or in Hin as [?|[|[]]].
  - destruct (entry_from ms b slot Hfacts) as [HF HT].
    eapply inv_settle; [done..|apply trim_set_spec, Hk|apply trim_set_spec, Hk|]. split; simpl.
    + intros kept Hkept. apply in_or_app.
      destruct (Facts.kept _) as [k'|]; injection Hkept as <-; [left; by apply HF|right; by left].
    + intros b' o Hin. apply in_or_app. left. by apply HT.
Qed.

Lemma inv_run ms0 b outs ms :
  inv ms0 b outs ->
  let '(b', outs') := run b ms in
  inv (ms0 ++ ms) b' (outs ++ outs') /\ bounds b' = bounds b.
Proof.
  revert ms0 b outs. induction ms as [|m ms IH]; intros ms0 b outs Hinv; simpl.
  { by rewrite !app_nil_r. }
  pose proof (inv_step ms0 b outs m Hinv) as Hs. destruct (handle_message b m) as [b1 out].
  destruct Hs as [Hinv1 Hb1]. specialize (IH _ _ _ Hinv1).
  destruct (run b1 ms) as [b2 outs2]. destruct IH as [Hinv2 Hb2].
  rewrite <- !app_assoc in Hinv2. split; [done|congruence].
Qed.

Lemma inv_init slots payloads known :
  0 <= slots -> 0 <= payloads -> 0 <= known ->
  inv [] (SlotTimestampBuffer.with_bounds slots payloads known) [].
Proof.
  intros ? ? H1. constructor; simpl; try done.
  constructor; simpl; [|split; [done|exact H1]|done].
  split.
  - constructor; simpl; try done. intros s [? H']. by rewrite lookup_empty in H'.
  - unfold WaitingSlots.exceeded_bound, WaitingSlots.oldest_is_out_of_window, WaitingSlots.oldest_lag,
      WaitingSlots.oldest. simpl. rewrite first_key_empty. by case_tests; try lia.
Qed.

Lemma inv_run_init slots payloads known ms :
  0 <= slots -> 0 <= payloads -> 0 <= known ->
  let '(b, outs) := run (SlotTimestampBuffer.with_bounds slots payloads known) ms in
  inv ms b outs /\ bounds b = (slots, payloads, known).
Proof.
  intros Hs Hp Hk. pose proof (inv_run [] _ [] ms (inv_init slots payloads known Hs Hp Hk)) as H.
  by destruct (run _ ms).
Qed.

(** C12: Whatever the stream, the buffer accounts for every payload: each one
    received has been released, still waits, or was counted in a metric as
    dropped; the waiting table holds at most its payload bound and no slot
    older than its slot window, the running count is the number of waiting
    payloads, and no more slots are known than the bound. *)
Theorem buffer_conserves slots payloads known ms :
  0 <= slots -> 0 <= payloads -> 0 <= known ->
  let '(b, outs) := run (SlotTimestampBuffer.with_bounds slots payloads known : SlotTimestampBuffer.t T) ms in
  let w := SlotTimestampBuffer.waiting b in
  payload_count ms =
    Z.of_nat (length outs) + WaitingSlots.count w + lost (WaitingSlots.metrics w) /\
  WaitingSlots.count w = total (WaitingSlots.pending w) /\
  WaitingSlots.count w <= payloads /\
  WaitingSlots.oldest_lag w <= slots /\
  Z.of_nat (size (KnownSlots.facts (SlotTimestampBuffer.known b))) <= known.
Proof.
  intros H1 H2 H3. pose proof (inv_run_init slots payloads known ms H1 H2 H3) as H.
  destruct (run _ ms) as [b outs]. destruct H as [Hinv [= <- <- <-]].
  destruct (inv_ok _ _ _ Hinv) as [Hb [_ Hk] _].
  destruct (bounded_limits _ Hb) as [Hp Hl]. split_and!; try done; [|by apply wf_count, Hb].
  rewrite (inv_count _ _ _ Hinv). unfold bheld, held. lia.
Qed.

(** C20: A payload is released only once its slot is finalized in a bank that
    admits the payload's, and carries the instant a block-meta gave for a bank
    the finalized one admits: never the instant of a losing fork. *)
Theorem buffer_releases_kept_bank slots payloads known ms :
  0 <= slots -> 0 <= payloads -> 0 <= known ->
  let '(_, outs) := run (SlotTimestampBuffer.with_bounds slots payloads known : SlotTimestampBuffer.t T) ms in
  forall s r, In (s, r) outs -> justified ms s r.
Proof.
  intros H1 H2 H3. pose proof (inv_run_init slots payloads known ms H1 H2 H3) as H.
  destruct (run _ ms) as [b outs]. by destruct H as [[] _].
Qed.

(** Within a slot payloads leave in the order they came: what was
    released followed by what still waits is a subsequence of the arrivals,
    so the buffer neither reorders nor duplicates; a slot whose instant is
    settled has nothing left waiting. *)
Theorem buffer_keeps_order slots payloads known ms :
  0 <= slots -> 0 <= payloads -> 0 <= known ->
  let '(b, outs) := run (SlotTimestampBuffer.with_bounds slots payloads known : SlotTimestampBuffer.t T) ms in
  forall s,
    (outputs_of s outs ++ map Held.payload (pend b s)) `sublist_of` arrivals s ms /\
    (forall o, KnownSlots.time (SlotTimestampBuffer.known b) s = Some o -> pend b s = []).
Proof.
  intros H1 H2 H3. pose proof (inv_run_init slots payloads known ms H1 H2 H3) as H.
  destruct (run _ ms) as [b outs]. destruct H as [[Hok _ Horder _ _ _] _].
  intros s. split; [done|]. intros o. by apply ok_settled.
Qed.
End Streams.

(** A stream with a fork, an eviction and a release. *)
Definition sample_stream : list (Message Z) :=
  [MPayload 10 (Id 1) 100; MPayload 10 (Id 2) 101; MBlockTime 10 (Id 1) 5000;
   MPayload 11 (Id 3) 110; MFinalized 10 (Id 1); MPayload 10 (Id 1) 102;
   MUnresolvable 11 (Id 3); MFinalized 11 (Id 3); MPayload 14 (Id 4) 140].

Example sample_released :
  map (fun o => (o.1, Resolved.payload o.2, Resolved.at_ o.2))
    (run (SlotTimestampBuffer.with_bounds 2 3 3) sample_stream).2 =
  [(10, 100, 5000); (10, 102, 5000)].
Proof. reflexivity. Qed.

Lemma buffer_conserves_witness :
  let '(b, outs) := run (SlotTimestampBuffer.with_bounds 2 3 3) sample_stream in
  let w := SlotTimestampBuffer.waiting b in
  payload_count sample_stream =
    Z.of_nat (length outs) + WaitingSlots.count w + lost (WaitingSlots.metrics w) /\
  WaitingSlots.count w = total (WaitingSlots.pending w) /\
  WaitingSlots.count w <= 3 /\
  WaitingSlots.oldest_lag w <= 2 /\
  Z.of_nat (size (KnownSlots.facts (SlotTimestampBuffer.known b))) <= 3.
Proof. apply (buffer_conserves 2 3 3 sample_stream); lia. Defined.

Lemma buffer_releases_kept_bank_witness :
  let '(_, outs) := run (SlotTimestampBuffer.with_bounds 2 3 3) sample_stream in
  forall s r, In (s, r) outs -> justified sample_stream s r.
Proof. apply (buffer_releases_kept_bank 2 3 3 sample_stream); lia. Defined.

Lemma buffer_keeps_order_witness :
  let '(b, outs) := run (SlotTimestampBuffer.with_bounds 2 3 3) sample_stream in
  forall s,
    (outputs_of s outs ++ map Held.payload (pending_of (SlotTimestampBuffer.waiting b) s))
      `sublist_of` arrivals s sample_stream /\
    (forall o, KnownSlots.time (SlotTimestampBuffer.known b) s = Some o ->
      pending_of (SlotTimestampBuffer.waiting b) s = []).
Proof. apply (buffer_keeps_order 2 3 3 sample_stream); lia. Defined.
