(* ===== verification/Session.v ===== *)
(** * One Yellowstone session

    [src/crates/indexer/src/infra/grpc/]: session.rs and its submodules
    slot_progress.rs, received_span.rs, received_slots.rs, delivery.rs and
    ping_answer.rs, over the buffer of [SlotBuffer.v]; ranges_to_record.rs is
    the store the sessions share with the recorder. The channels to the
    pipeline and to the server are the class [Channels]. Counters are a log,
    in the order they are recorded. *)

From S2P Require Import Prelude Errors External OrderedMap Domain Extractor GrpcAdapter SlotBuffer.

(** ** What the session hands over ([application/source.rs]) *)

Module IngestedTransaction.
Record t : Type := mk {
  protocol : Protocol;
  transaction : OnChainTransaction.t;
}.
End IngestedTransaction.

(** ** The other messages of the stream *)

Module SubscribeUpdateBlockMeta.
Record t : Type := mk {
  slot : Z;
  block_time : option Z;   (** seconds since the epoch *)
  bank_id : Z;
}.
End SubscribeUpdateBlockMeta.

Module SubscribeUpdateSlot.
Record t : Type := mk {
  slot : Z;
  finalized : bool;        (** [status() == SlotFinalized] *)
  bank_id : option Z;
}.
End SubscribeUpdateSlot.

Inductive UpdateOneof : Type :=
| UTransaction (u : SubscribeUpdateTransaction.t)
| UBlockMeta (m : SubscribeUpdateBlockMeta.t)
| USlot (s : SubscribeUpdateSlot.t)
| UPing
| UPong
| UOther.

Module SubscribeUpdate.
Record t : Type := mk {
  filters : list string;
  update_oneof : option UpdateOneof;
}.
End SubscribeUpdate.

(** ** What the session counts ([metrics.rs]) *)

Inductive UpdateKind : Type :=
| KTransaction | KBlockMeta | KSlot | KPing | KPong | KOther.

Inductive DropReason : Type :=
| DropMissingField
| DropParseError
| OtherMalformation
| Unroutable.

Inductive PingReplyFailure : Type :=
| OutboundFull
| OutboundClosed.

Inductive SessionMetric : Type :=
| Update (k : UpdateKind)
| Dropped (r : DropReason)
| Emitted
| DownstreamFull
| PingReplyUnsent (f : PingReplyFailure).

(** ** [ranges_to_record.rs] *)

Module ReceivedSpan.
Record t : Type := mk {
  first : Z;
  first_at : DateTime;
  last : Z;
  last_at : DateTime;
}.

#[global] Instance eq_dec : EqDecision t.
Proof. solve_decision. Defined.

Definition starting (slot : Z) (at_ : DateTime) : t := mk slot at_ slot at_.

Definition include (s : t) (slot : Z) (at_ : DateTime) : t :=
  if (first s <=? slot) && (slot <=? last s) then s
  else if slot <? first s then mk slot at_ (last s) (last_at s)
  else mk (first s) (first_at s) slot at_.
End ReceivedSpan.

Module RangeToRecord.
Record t : Type := mk {
  protocols : list Protocol;
  span : ReceivedSpan.t;
  ended : bool;
}.

#[global] Instance eq_dec : EqDecision t.
Proof. solve_decision. Defined.
End RangeToRecord.

(** Every session's latest span, under its start. *)
Notation RangesToRecord := (gmap Z RangeToRecord.t).

Definition publish (r : RangesToRecord) (session : DateTime) (range : RangeToRecord.t) :
    RangesToRecord := <[session := range]> r.

Definition end_ (r : RangesToRecord) (session : DateTime) : RangesToRecord :=
  match r !! session with
  | Some range =>
      <[session := RangeToRecord.mk (RangeToRecord.protocols range) (RangeToRecord.span range) true]> r
  | None => r
  end.

Definition forget (r : RangesToRecord) (session : DateTime) : RangesToRecord := delete session r.

(** ** [slot_progress.rs] *)

Definition HELD_BACK_SLOTS : Z := 2.

Module PendingTransaction.
Record t : Type := mk {
  protocol : Protocol;
  update : SubscribeUpdateTransaction.t;
}.
End PendingTransaction.

Inductive BankIds : Type :=
| Named
| Missing.

#[global] Instance BankIds_eq_dec : EqDecision BankIds.
Proof. solve_decision. Defined.

Definition block_time `{Chrono} (meta : SubscribeUpdateBlockMeta.t) : option DateTime :=
  let! time := SubscribeUpdateBlockMeta.block_time meta in from_timestamp time.

Module SlotProgress.
Record t : Type := mk {
  buffer : SlotTimestampBuffer.t PendingTransaction.t;
  highest_meta_slot : option Z;
  bank_ids : option BankIds;
  bank_id_missing : option bool;   (** the gauge last set *)
}.

Definition new : t := mk SlotTimestampBuffer.new None None None.

Definition set_buffer (p : t) (b : SlotTimestampBuffer.t PendingTransaction.t) : t :=
  mk b (highest_meta_slot p) (bank_ids p) (bank_id_missing p).

Definition report_bank_naming (p : t) (bank : Bank) : t :=
  let seen := match bank with Id _ => Named | Unknown => Missing end in
  let changed :=
    match bank_ids p with
    | None => true
    | Some Named => bool_decide (seen = Missing)
    | Some Missing => false
    end in
  if changed
  then mk (buffer p) (highest_meta_slot p) (Some seen) (Some (bool_decide (seen = Missing)))
  else p.

Definition on_transaction (p : t) (pending : PendingTransaction.t) :
    t * option (Resolved.t PendingTransaction.t) :=
  let update := PendingTransaction.update pending in
  let bank := from_wire (SubscribeUpdateTransaction.bank_id update) in
  let p := report_bank_naming p bank in
  let (b, r) := SlotTimestampBuffer.on_payload (buffer p)
    (SubscribeUpdateTransaction.slot update) bank pending in
  (set_buffer p b, r).

Definition on_block_meta `{Chrono} (p : t) (meta : SubscribeUpdateBlockMeta.t) :
    t * list (Resolved.t PendingTransaction.t) :=
  let slot := SubscribeUpdateBlockMeta.slot meta in
  let bank := from_wire (SubscribeUpdateBlockMeta.bank_id meta) in
  let p := report_bank_naming p bank in
  let p := mk (buffer p)
    (Some (match highest_meta_slot p with Some seen => Z.max seen slot | None => slot end))
    (bank_ids p) (bank_id_missing p) in
  match block_time meta with
  | None =>
      let (b, r) := SlotTimestampBuffer.on_slot_unresolvable (buffer p) slot bank in
      (set_buffer p b, r)
  | Some at_ =>
      let (b, r) := SlotTimestampBuffer.on_block_time (buffer p) slot bank at_ in
      (set_buffer p b, r)
  end.

Definition on_slot_status (p : t) (status : SubscribeUpdateSlot.t) :
    t * list (Resolved.t PendingTransaction.t) :=
  if negb (SubscribeUpdateSlot.finalized status) then (p, [])
  else
    let bank := from_status (SubscribeUpdateSlot.bank_id status) in
    let p := report_bank_naming p bank in
    let (b, r) := SlotTimestampBuffer.on_finalized (buffer p) (SubscribeUpdateSlot.slot status) bank in
    (set_buffer p b, r).

Definition settled_below (p : t) : option Z :=
  let! unfinished :=
    match SlotTimestampBuffer.oldest_pending_slot (buffer p) with
    | Some oldest => Some oldest
    | None => highest_meta_slot p
    end in
  Some (saturating_sub unfinished HELD_BACK_SLOTS).
End SlotProgress.

(** ** [received_slots.rs] *)

Module ReceivedSlots.
Record t : Type := mk {
  started_at : DateTime;
  protocols : list Protocol;
  span : option ReceivedSpan.t;
  counted_from : option Z;
  not_yet : gmap Z DateTime;
}.

Definition new (started_at : DateTime) (protocols : list Protocol) : t :=
  mk started_at protocols None None ∅.

Definition include_all (span : option ReceivedSpan.t) (received : list (Z * DateTime)) :
    option ReceivedSpan.t :=
  foldl (fun span sa =>
    match span with
    | Some span => Some (ReceivedSpan.include span (fst sa) (snd sa))
    | None => Some (ReceivedSpan.starting (fst sa) (snd sa))
    end) span received.

Definition on_block_meta (r : t) (ranges : RangesToRecord) (slot : Z) (at_ : DateTime)
    (settled_below : option Z) : t * RangesToRecord :=
  match protocols r with
  | [] => (r, ranges)
  | _ =>
    let counted_from :=
      match counted_from r with Some c => c | None => saturating_add 64 slot HELD_BACK_SLOTS end in
    let not_yet := if counted_from <=? slot then <[slot := at_]> (not_yet r) else not_yet r in
    match settled_below with
    | None => (mk (started_at r) (protocols r) (span r) (Some counted_from) not_yet, ranges)
    | Some settled_below =>
      let (received, still_not_yet) := split_off not_yet settled_below in
      match received with
      | [] => (mk (started_at r) (protocols r) (span r) (Some counted_from) still_not_yet, ranges)
      | _ =>
        let span := include_all (span r) received in
        let r := mk (started_at r) (protocols r) span (Some counted_from) still_not_yet in
        match span with
        | Some span =>
            (r, publish ranges (started_at r) (RangeToRecord.mk (protocols r) span false))
        | None => (r, ranges)
        end
      end
    end
  end.

(** [Drop]. *)
Definition drop (r : t) (ranges : RangesToRecord) : RangesToRecord := end_ ranges (started_at r).
End ReceivedSlots.

(** ** [delivery.rs] and [ping_answer.rs] *)

Inductive SessionState : Type :=
| Open
| DownstreamClosed
| ShutdownRequested.

#[global] Instance SessionState_eq_dec : EqDecision SessionState.
Proof. solve_decision. Defined.

Inductive TrySend : Type := TrySent | TryFull | TryClosed.
Inductive Wait : Type := WaitSent | WaitClosed | WaitShutdown.

(** What the channels answer: to the pipeline, after what it has accepted; to
    the server, after the answers it has been sent. *)
Class Channels : Type := {
  try_send : list IngestedTransaction.t -> IngestedTransaction.t -> TrySend;
  send_or_shutdown : list IngestedTransaction.t -> IngestedTransaction.t -> Wait;
  try_answer : nat -> option PingReplyFailure;
}.

Definition drop_reason (error : CoreError) : DropReason :=
  match error with
  | MissingField _ _ => DropMissingField
  | ParseError _ _ => DropParseError
  | _ => OtherMalformation
  end.

Module StreamSession.
Record t : Type := mk {
  slots : SlotProgress.t;
  received_slots : ReceivedSlots.t;
  emitted : list IngestedTransaction.t;   (** what the pipeline accepted *)
  pings : nat;                            (** the pings answered *)
  received_data : bool;
  block_metas : Z;
  metrics : list SessionMetric;
}.

Section StreamSession.
Context `{Chrono} `{SignatureDisplay} `{Channels}.

Definition new (received_slots : ReceivedSlots.t) (emitted : list IngestedTransaction.t) : t :=
  mk SlotProgress.new received_slots emitted 0 false 0 [].

Definition record (s : t) (m : SessionMetric) : t :=
  mk (slots s) (received_slots s) (emitted s) (pings s) (received_data s) (block_metas s)
    (metrics s ++ [m]).
Definition set_slots (s : t) (p : SlotProgress.t) : t :=
  mk p (received_slots s) (emitted s) (pings s) (received_data s) (block_metas s) (metrics s).
Definition set_received_slots (s : t) (r : ReceivedSlots.t) : t :=
  mk (slots s) r (emitted s) (pings s) (received_data s) (block_metas s) (metrics s).
Definition set_received_data (s : t) : t :=
  mk (slots s) (received_slots s) (emitted s) (pings s) true (block_metas s) (metrics s).
Definition count_block_meta (s : t) : t :=
  mk (slots s) (received_slots s) (emitted s) (pings s) (received_data s) (block_metas s + 1)
    (metrics s).
Definition emit (s : t) (i : IngestedTransaction.t) : t :=
  record (mk (slots s) (received_slots s) (emitted s ++ [i]) (pings s) (received_data s)
    (block_metas s) (metrics s)) Emitted.

Definition wait_for_room (s : t) (i : IngestedTransaction.t) : t * SessionState :=
  match send_or_shutdown (emitted s) i with
  | WaitSent => (emit s i, Open)
  | WaitClosed => (s, DownstreamClosed)
  | WaitShutdown => (s, ShutdownRequested)
  end.

Definition deliver (s : t) (pending : PendingTransaction.t) (at_ : DateTime) : t * SessionState :=
  match from_grpc (PendingTransaction.update pending) at_ with
  | Err error => (record s (Dropped (drop_reason error)), Open)
  | Ok transaction =>
    let ingested := IngestedTransaction.mk (PendingTransaction.protocol pending) transaction in
    match try_send (emitted s) ingested with
    | TrySent => (emit s ingested, Open)
    | TryClosed => (s, DownstreamClosed)
    | TryFull => wait_for_room (record s DownstreamFull) ingested
    end
  end.

Fixpoint deliver_all (s : t) (released : list (Resolved.t PendingTransaction.t)) :
    t * SessionState :=
  match released with
  | [] => (s, Open)
  | resolved :: released =>
    let (s, state) := deliver s (Resolved.payload resolved) (Resolved.at_ resolved) in
    match state with
    | Open => deliver_all s released
    | _ => (s, state)
    end
  end.

Definition answer (s : t) : t :=
  match try_answer (pings s) with
  | None => mk (slots s) (received_slots s) (emitted s) (S (pings s)) (received_data s)
              (block_metas s) (metrics s)
  | Some failure => record s (PingReplyUnsent failure)
  end.

Definition on_transaction (s : t) (protocol : option Protocol)
    (update : SubscribeUpdateTransaction.t) : t * SessionState :=
  match protocol with
  | None => (record s (Dropped Unroutable), Open)
  | Some protocol =>
    let (p, resolved) := SlotProgress.on_transaction (slots s) (PendingTransaction.mk protocol update) in
    let s := set_slots s p in
    match resolved with
    | Some resolved => deliver s (Resolved.payload resolved) (Resolved.at_ resolved)
    | None => (s, Open)
    end
  end.

Definition on_block_meta (s : t) (ranges : RangesToRecord) (meta : SubscribeUpdateBlockMeta.t) :
    t * RangesToRecord * list (Resolved.t PendingTransaction.t) :=
  let timed := block_time meta in
  let (p, released) := SlotProgress.on_block_meta (slots s) meta in
  let s := set_slots s p in
  match timed with
  | None => (s, ranges, released)
  | Some at_ =>
    let (r, ranges) := ReceivedSlots.on_block_meta (received_slots s) ranges
      (SubscribeUpdateBlockMeta.slot meta) at_ (SlotProgress.settled_below p) in
    (set_received_slots s r, ranges, released)
  end.

Definition handle (s : t) (ranges : RangesToRecord) (update : SubscribeUpdate.t) :
    t * RangesToRecord * SessionState :=
  let protocol := protocol_of (SubscribeUpdate.filters update) in
  match SubscribeUpdate.update_oneof update with
  | Some (UTransaction transaction) =>
      let s := set_received_data (record s (Update KTransaction)) in
      let (s, state) := on_transaction s protocol transaction in
      (s, ranges, state)
  | Some (UBlockMeta meta) =>
      let s := count_block_meta (set_received_data (record s (Update KBlockMeta))) in
      let '(s, ranges, released) := on_block_meta s ranges meta in
      let (s, state) := deliver_all s released in
      (s, ranges, state)
  | Some (USlot status) =>
      let s := set_received_data (record s (Update KSlot)) in
      let (p, released) := SlotProgress.on_slot_status (slots s) status in
      let (s, state) := deliver_all (set_slots s p) released in
      (s, ranges, state)
  | Some UPing => (answer (record s (Update KPing)), ranges, Open)
  | Some UPong => (record s (Update KPong), ranges, Open)
  | _ => (record s (Update KOther), ranges, Open)
  end.
End StreamSession.
End StreamSession.
