(* ===== verification/SessionFacts.v ===== *)
(** * What a session guarantees

    A session refines the buffer of [SlotBuffer.v]: it hands the pipeline what
    the buffer releases, in order, each transaction through the adapter. Its
    published span is settled when it is published. *)

From S2P Require Import Prelude Errors External OrderedMap Domain Extractor SlotBuffer.
From S2P Require Import SlotBufferFacts GrpcAdapter Session.

(** ** Deliveries *)

Section Facts.
Context `{Chrono} `{SignatureDisplay} `{Channels}.
Implicit Types s : StreamSession.t.

(** What the pipeline gets for a release: [None] when it does not translate. *)
Definition ingest (r : Resolved.t PendingTransaction.t) : option IngestedTransaction.t :=
  let! tx := result_ok (from_grpc (PendingTransaction.update (Resolved.payload r)) (Resolved.at_ r)) in
  Some (IngestedTransaction.mk (PendingTransaction.protocol (Resolved.payload r)) tx).

(** What is counted of a release: sent, or refused for a reason. *)
Definition fate (r : Resolved.t PendingTransaction.t) : option DropReason :=
  match from_grpc (PendingTransaction.update (Resolved.payload r)) (Resolved.at_ r) with
  | Ok _ => None
  | Err e => Some (drop_reason e)
  end.

(** The counts of releases in the log; a transaction of no watched protocol is
    counted as unroutable before the buffer. *)
Definition fate_of (m : SessionMetric) : option (option DropReason) :=
  match m with
  | Emitted => Some None
  | Dropped Unroutable => None
  | Dropped reason => Some (Some reason)
  | _ => None
  end.
Definition fates s : list (option DropReason) := omap fate_of (StreamSession.metrics s).

Lemma fates_record s m : fates (StreamSession.record s m) = fates s ++ option_list (fate_of m).
Proof. unfold fates. simpl. rewrite omap_app. simpl. by destruct (fate_of m). Qed.

Lemma fate_of_drop e : fate_of (Dropped (drop_reason e)) = Some (Some (drop_reason e)).
Proof. by destruct e. Qed.

(** All of the session but what it emitted and counted. *)
Record same_core s s' : Prop := {
  core_slots : StreamSession.slots s' = StreamSession.slots s;
  core_received : StreamSession.received_slots s' = StreamSession.received_slots s;
  core_data : StreamSession.received_data s' = StreamSession.received_data s;
  core_metas : StreamSession.block_metas s' = StreamSession.block_metas s;
}.

Lemma same_core_trans s1 s2 s3 : same_core s1 s2 -> same_core s2 s3 -> same_core s1 s3.
Proof. intros [] []. split; congruence. Qed.

Lemma deliver_spec s r :
  let '(s', state) := StreamSession.deliver s (Resolved.payload r) (Resolved.at_ r) in
  same_core s s' /\
  match state with
  | Open => StreamSession.emitted s' = StreamSession.emitted s ++ option_list (ingest r) /\
      fates s' = fates s ++ [fate r]
  | _ => StreamSession.emitted s' = StreamSession.emitted s /\ fates s' = fates s
  end.
Proof.
  unfold StreamSession.deliver, ingest, fate, StreamSession.wait_for_room.
  destruct (from_grpc _ _) as [tx|e]; cbn [result_ok opt_bind option_list].
  2:{ rewrite fates_record, fate_of_drop, app_nil_r. by split. }
  destruct (try_send _ _); [|destruct (send_or_shutdown _ _)|]; try done;
    unfold StreamSession.emit; rewrite ?fates_record; unfold fates; simpl;
    rewrite ?omap_app; simpl; rewrite ?app_nil_r; by split_and!.
Qed.

(** Of a list of releases, those handed to the pipeline or refused, in order. *)
Definition handed s s' (state : SessionState) (released : list (Resolved.t PendingTransaction.t)) : Prop :=
  exists handed left, released = handed ++ left /\ (state = Open -> left = []) /\
    StreamSession.emitted s' = StreamSession.emitted s ++ omap ingest handed /\
    fates s' = fates s ++ map fate handed.

Lemma deliver_all_spec s released :
  let '(s', state) := StreamSession.deliver_all s released in
  same_core s s' /\ handed s s' state released.
Proof.
  revert s. induction released as [|r released IH]; intros s.
  { simpl. split; [done|]. exists [], []. by rewrite !app_nil_r. }
  cbn [StreamSession.deliver_all]. pose proof (deliver_spec s r) as Hd.
  destruct (StreamSession.deliver s _ _) as [s1 state]. destruct Hd as [Hc Hd].
  destruct state.
  - specialize (IH s1). destruct (StreamSession.deliver_all s1 released) as [s2 state2].
    destruct Hd as [He Hf], IH as [Hc2 (done & left & -> & Ho & He2 & Hf2)]. split; [by eapply same_core_trans|].
    exists (r :: done), left. split_and!; [done|done| |].
    + rewrite He2, He, <- app_assoc. simpl. by destruct (ingest r).
    + by rewrite Hf2, Hf, <- app_assoc.
  - destruct Hd as [He Hf]. split; [done|]. exists [], (r :: released). by rewrite He, Hf, !app_nil_r.
  - destruct Hd as [He Hf]. split; [done|]. exists [], (r :: released). by rewrite He, Hf, !app_nil_r.
Qed.

(** ** The messages of the buffer *)

(** The buffer's view of an update, [None] when it never reaches it. *)
Definition message_of (u : SubscribeUpdate.t) : option (Message PendingTransaction.t) :=
  match SubscribeUpdate.update_oneof u with
  | Some (UTransaction t) =>
      let! p := protocol_of (SubscribeUpdate.filters u) in
      Some (MPayload (SubscribeUpdateTransaction.slot t)
        (from_wire (SubscribeUpdateTransaction.bank_id t)) (PendingTransaction.mk p t))
  | Some (UBlockMeta m) =>
      let slot := SubscribeUpdateBlockMeta.slot m in
      let bank := from_wire (SubscribeUpdateBlockMeta.bank_id m) in
      Some (match block_time m with
            | Some at_ => MBlockTime slot bank at_
            | None => MUnresolvable slot bank
            end)
  | Some (USlot status) =>
      if SubscribeUpdateSlot.finalized status
      then Some (MFinalized (SubscribeUpdateSlot.slot status)
             (from_status (SubscribeUpdateSlot.bank_id status)))
      else None
  | _ => None
  end.

Notation buffer_of s := (SlotProgress.buffer (StreamSession.slots s)).

(** What an update does to the buffer, with what it releases. *)
Definition buffer_step (b : SlotTimestampBuffer.t PendingTransaction.t) (u : SubscribeUpdate.t) :
    SlotTimestampBuffer.t PendingTransaction.t * list (Resolved.t PendingTransaction.t) :=
  match message_of u with
  | Some m => handle_message b m
  | None => (b, [])
  end.

Lemma report_buffer p bank : SlotProgress.buffer (SlotProgress.report_bank_naming p bank) = SlotProgress.buffer p.
Proof. unfold SlotProgress.report_bank_naming. by case_match. Qed.

Lemma progress_on_transaction p pending :
  let bank := from_wire (SubscribeUpdateTransaction.bank_id (PendingTransaction.update pending)) in
  let slot := SubscribeUpdateTransaction.slot (PendingTransaction.update pending) in
  let '(p', r) := SlotProgress.on_transaction p pending in
  (SlotProgress.buffer p', option_list r) =
    handle_message (SlotProgress.buffer p) (MPayload slot bank pending).
Proof.
  cbv zeta. unfold SlotProgress.on_transaction. rewrite report_buffer. cbn [handle_message].
  by destruct (SlotTimestampBuffer.on_payload _ _ _ _) as [b [r|]].
Qed.

Lemma progress_on_block_meta p meta :
  let slot := SubscribeUpdateBlockMeta.slot meta in
  let bank := from_wire (SubscribeUpdateBlockMeta.bank_id meta) in
  let '(p', released) := SlotProgress.on_block_meta p meta in
  (SlotProgress.buffer p', released) =
    handle_message (SlotProgress.buffer p)
      (match block_time meta with
       | Some at_ => MBlockTime slot bank at_
       | None => MUnresolvable slot bank
       end) /\
  SlotProgress.highest_meta_slot p' =
    Some (match SlotProgress.highest_meta_slot p with Some seen => Z.max seen slot | None => slot end).
Proof.
  cbv zeta. unfold SlotProgress.on_block_meta. simpl. rewrite report_buffer.
  assert (SlotProgress.highest_meta_slot (SlotProgress.report_bank_naming p
    (from_wire (SubscribeUpdateBlockMeta.bank_id meta))) = SlotProgress.highest_meta_slot p) as ->
    by (unfold SlotProgress.report_bank_naming; by case_match).
  destruct (block_time meta); simpl.
  - by destruct (SlotTimestampBuffer.on_block_time _ _ _ _).
  - by destruct (SlotTimestampBuffer.on_slot_unresolvable _ _ _).
Qed.

Lemma progress_on_slot_status p status :
  let '(p', released) := SlotProgress.on_slot_status p status in
  (SlotProgress.buffer p', released) =
    if SubscribeUpdateSlot.finalized status
    then handle_message (SlotProgress.buffer p) (MFinalized (SubscribeUpdateSlot.slot status)
      (from_status (SubscribeUpdateSlot.bank_id status)))
    else (SlotProgress.buffer p, []).
Proof.
  unfold SlotProgress.on_slot_status. destruct (SubscribeUpdateSlot.finalized status); simpl; [|done].
  rewrite report_buffer. by destruct (SlotTimestampBuffer.on_finalized _ _ _).
Qed.

(** Delivering [released] from a session whose buffer is [b]. *)
Definition delivered s s' (state : SessionState) (b : SlotTimestampBuffer.t PendingTransaction.t)
    (released : list (Resolved.t PendingTransaction.t)) : Prop :=
  buffer_of s' = b /\ handed s s' state released.

Lemma delivered_nothing s s' b :
  buffer_of s' = b -> StreamSession.emitted s' = StreamSession.emitted s -> fates s' = fates s ->
  delivered s s' Open b [].
Proof. intros Hb He Hf. split; [done|]. exists [], []. by rewrite He, Hf, !app_nil_r. Qed.

(** A log line of the updates or of the answers counts no release. *)
Lemma fates_uncounted s m : fate_of m = None -> fates (StreamSession.record s m) = fates s.
Proof. intros Hm. by rewrite fates_record, Hm, app_nil_r. Qed.

Lemma delivered_all s s0 released :
  StreamSession.emitted s0 = StreamSession.emitted s -> fates s0 = fates s ->
  let '(s', state) := StreamSession.deliver_all s0 released in
  delivered s s' state (buffer_of s0) released.
Proof.
  intros He Hf. pose proof (deliver_all_spec s0 released) as Hd.
  destruct (StreamSession.deliver_all s0 released) as [s' state].
  destruct Hd as [[Hs _ _ _] (done & left & Hl & Ho & Hem & Hfa)]. split; [by rewrite Hs|].
  exists done, left. by rewrite Hem, He, Hfa, Hf.
Qed.

(** A single release is a list of one. *)
Lemma deliver_all_one s r :
  StreamSession.deliver_all s [r] = StreamSession.deliver s (Resolved.payload r) (Resolved.at_ r).
Proof. simpl. by destruct (StreamSession.deliver _ _ _) as [s' []]. Qed.

Lemma on_block_meta_buffer s ranges meta :
  let '(s1, ranges', released) := StreamSession.on_block_meta s ranges meta in
  let '(p, released') := SlotProgress.on_block_meta (StreamSession.slots s) meta in
  StreamSession.slots s1 = p /\ released = released' /\
  StreamSession.emitted s1 = StreamSession.emitted s /\ StreamSession.metrics s1 = StreamSession.metrics s.
Proof.
  unfold StreamSession.on_block_meta.
  destruct (SlotProgress.on_block_meta (StreamSession.slots s) meta) as [p released].
  destruct (block_time meta) as [at_|]; [|done].
  by destruct (ReceivedSlots.on_block_meta _ _ _ _ _).
Qed.

(** A handled update: the buffer's step, and its releases delivered. *)
Lemma handle_spec s ranges u :
  let '(s', _, state) := StreamSession.handle s ranges u in
  let '(b', released) := buffer_step (buffer_of s) u in
  delivered s s' state b' released.
Proof.
  unfold StreamSession.handle, buffer_step, message_of.
  assert (forall k, fates (StreamSession.record s (Update k)) = fates s) as Hup by (intros k; by apply fates_uncounted).
  destruct (SubscribeUpdate.update_oneof u) as [[t|m|status| | |]|].
  - unfold StreamSession.on_transaction. destruct (protocol_of _) as [pr|].
    2:{ apply delivered_nothing; [done|done|]. rewrite fates_uncounted by done. apply (Hup KTransaction). }
    cbn [opt_bind]. pose proof (progress_on_transaction (StreamSession.slots s) (PendingTransaction.mk pr t)) as Hp.
    simpl StreamSession.slots. simpl PendingTransaction.update in Hp. cbv zeta in Hp.
    destruct (SlotProgress.on_transaction _ _) as [p' r]. rewrite <- Hp.
    set (s0 := StreamSession.set_slots _ p'). change (SlotProgress.buffer p') with (buffer_of s0).
    destruct r as [r|]; [|apply delivered_nothing; [done|done|apply (Hup KTransaction)]]. simpl option_list.
    pose proof (delivered_all s s0 [r] eq_refl (Hup KTransaction)) as Hd. rewrite deliver_all_one in Hd.
    by destruct (StreamSession.deliver s0 _ _).
  - set (s0 := StreamSession.count_block_meta _).
    pose proof (on_block_meta_buffer s0 ranges m) as Hb.
    destruct (StreamSession.on_block_meta s0 ranges m) as [[s1 ranges'] released].
    pose proof (progress_on_block_meta (StreamSession.slots s0) m) as Hp. cbv zeta in Hp.
    destruct (SlotProgress.on_block_meta _ m) as [p released'].
    destruct Hb as (Hs & -> & He & Hm), Hp as [Hp _]. change (buffer_of s) with (buffer_of s0).
    assert (fates s1 = fates s) as Hf by (unfold fates at 1; rewrite Hm; apply (Hup KBlockMeta)).
    rewrite <- Hp, <- Hs. pose proof (delivered_all s s1 released' He Hf) as Hd.
    by destruct (StreamSession.deliver_all s1 released').
  - pose proof (progress_on_slot_status (StreamSession.slots s) status) as Hp.
    simpl StreamSession.slots. destruct (SlotProgress.on_slot_status _ status) as [p released].
    set (s0 := StreamSession.set_slots _ p).
    pose proof (delivered_all s s0 released eq_refl (Hup KSlot)) as Hd.
    destruct (StreamSession.deliver_all s0 released) as [s' state].
    destruct (SubscribeUpdateSlot.finalized status).
    + by rewrite <- Hp.
    + injection Hp as Hp ->. by rewrite <- Hp.
  - unfold StreamSession.answer. destruct (try_answer _); apply delivered_nothing; try done.
    + rewrite fates_uncounted by done. apply (Hup KPing).
    + apply (Hup KPing).
  - apply delivered_nothing; [done|done|apply (Hup KPong)].
  - apply delivered_nothing; [done|done|apply (Hup KOther)].
  - apply delivered_nothing; [done|done|apply (Hup KOther)].
Qed.

(** ** A whole session *)

(** The read loop on the updates of a stream, to the first ending. *)
Fixpoint run_updates s (ranges : RangesToRecord) (us : list SubscribeUpdate.t) :
    StreamSession.t * RangesToRecord * SessionState :=
  match us with
  | [] => (s, ranges, Open)
  | u :: us =>
    let '(s, ranges, state) := StreamSession.handle s ranges u in
    match state with
    | Open => run_updates s ranges us
    | _ => (s, ranges, state)
    end
  end.

(** The releases of a list of updates, the buffer running on its messages. *)
Lemma run_updates_spec s ranges us :
  let '(s', _, state) := run_updates s ranges us in
  exists processed rest, us = processed ++ rest /\ (state = Open -> rest = []) /\
    let '(b, outs) := run (buffer_of s) (omap message_of processed) in
    delivered s s' state b (map snd outs).
Proof.
  revert s ranges. induction us as [|u us IH]; intros s ranges; simpl.
  { exists [], []. split_and!; [done..|]. by apply delivered_nothing. }
  pose proof (handle_spec s ranges u) as Hh.
  destruct (StreamSession.handle s ranges u) as [[s1 ranges1] state1].
  assert (forall processed, let '(b1, released) := buffer_step (buffer_of s) u in
    let '(b, outs) := run b1 (omap message_of processed) in
    exists outs', run (buffer_of s) (omap message_of (u :: processed)) = (b, outs') /\
      map snd outs' = released ++ map snd outs) as Hrun.
  { intros processed. unfold buffer_step. cbn [omap list_omap].
    destruct (message_of u) as [m|] eqn:Hm.
    - cbn [run]. destruct (handle_message (buffer_of s) m) as [b1 released].
      destruct (run b1 _) as [b outs]. eexists. split; [done|].
      rewrite map_app, map_map. f_equal. simpl. by rewrite map_id.
    - destruct (run _ _) as [b outs]. by exists outs. }
  destruct (buffer_step (buffer_of s) u) as [b1 released].
  destruct Hh as [Hb1 (handed1 & left1 & Hl1 & Ho1 & He1 & Hf1)].
  destruct state1.
  - specialize (IH s1 ranges1). destruct (run_updates s1 ranges1 us) as [[s' ranges'] state].
    destruct IH as (processed & rest & -> & Hrest & IH). rewrite Hb1 in IH.
    exists (u :: processed), rest. split_and!; [done..|]. specialize (Hrun processed).
    destruct (run b1 _) as [b outs]. destruct Hrun as (outs' & -> & Houts).
    destruct IH as [Hb (handed & left & Hl & Ho & He & Hf)]. split; [done|]. exists (handed1 ++ handed), left.
    rewrite Houts, Hl1, (Ho1 eq_refl), app_nil_r, Hl. split_and!.
    + by rewrite app_assoc.
    + done.
    + by rewrite He, He1, omap_app, app_assoc.
    + by rewrite Hf, Hf1, map_app, app_assoc.
  - exists [u], us. split_and!; [done..|]. specialize (Hrun []). cbn [run omap list_omap] in Hrun.
    destruct Hrun as (outs' & Hr & Houts). cbn [omap list_omap] in *. rewrite Hr. split; [done|].
    exists handed1, left1. rewrite Houts. cbn [map]. by rewrite app_nil_r.
  - exists [u], us. split_and!; [done..|]. specialize (Hrun []). cbn [run omap list_omap] in Hrun.
    destruct Hrun as (outs' & Hr & Houts). cbn [omap list_omap] in *. rewrite Hr. split; [done|].
    exists handed1, left1. rewrite Houts. cbn [map]. by rewrite app_nil_r.
Qed.

(** C40: A session hands the pipeline exactly what the buffer releases for
    the messages it handled, in the order of release, each through the adapter.
    Every release it has dealt with is counted once, in that order: sent, or
    refused by the adapter for its reason, and then not sent. While the session
    is open it has handled every update and dealt with everything released; once
    ended, by a closed pipeline or a shutdown, with a prefix. *)
Theorem session_refines_buffer received emitted ranges us :
  let '(s, _, state) := run_updates (StreamSession.new received emitted) ranges us in
  exists processed rest, us = processed ++ rest /\ (state = Open -> rest = []) /\
    let '(b, outs) := run SlotTimestampBuffer.new (omap message_of processed) in
    buffer_of s = b /\
    exists handed left, map snd outs = handed ++ left /\ (state = Open -> left = []) /\
      StreamSession.emitted s = emitted ++ omap ingest handed /\
      omap fate_of (StreamSession.metrics s) = map fate handed.
Proof. apply run_updates_spec. Qed.

(** Why a transaction was handed over, in terms of the stream. *)
Definition accounted (us : list SubscribeUpdate.t) (i : IngestedTransaction.t) : Prop :=
  exists filters update at_ kept fs fm status meta,
    In (SubscribeUpdate.mk filters (Some (UTransaction update))) us /\
    protocol_of filters = Some (IngestedTransaction.protocol i) /\
    from_grpc update at_ = Ok (IngestedTransaction.transaction i) /\
    In (SubscribeUpdate.mk fs (Some (USlot status))) us /\
    SubscribeUpdateSlot.finalized status = true /\
    SubscribeUpdateSlot.slot status = SubscribeUpdateTransaction.slot update /\
    from_status (SubscribeUpdateSlot.bank_id status) = kept /\
    admits kept (from_wire (SubscribeUpdateTransaction.bank_id update)) = true /\
    In (SubscribeUpdate.mk fm (Some (UBlockMeta meta))) us /\
    SubscribeUpdateBlockMeta.slot meta = SubscribeUpdateTransaction.slot update /\
    block_time meta = Some at_ /\
    admits kept (from_wire (SubscribeUpdateBlockMeta.bank_id meta)) = true.

Lemma message_of_In us m :
  In m (omap message_of us) -> exists u, In u us /\ message_of u = Some m.
Proof. intros Hin%list_elem_of_In%list_elem_of_omap. destruct Hin as (u & ?%list_elem_of_In & ?). eauto. Qed.

Lemma message_payload_inv u slot bank p :
  message_of u = Some (MPayload slot bank p) ->
  exists filters, u = SubscribeUpdate.mk filters (Some (UTransaction (PendingTransaction.update p))) /\
    protocol_of filters = Some (PendingTransaction.protocol p) /\
    SubscribeUpdateTransaction.slot (PendingTransaction.update p) = slot /\
    from_wire (SubscribeUpdateTransaction.bank_id (PendingTransaction.update p)) = bank.
Proof.
  unfold message_of. destruct u as [filters [[t|m|st| | |]|]]; simpl; try done.
  - intros (pr & Hpr & [= <- <- <-])%opt_bind_Some. by exists filters.
  - by destruct (block_time m).
  - by case_match.
Qed.

Lemma message_finalized_inv u slot bank :
  message_of u = Some (MFinalized slot bank) ->
  exists filters status, u = SubscribeUpdate.mk filters (Some (USlot status)) /\
    SubscribeUpdateSlot.finalized status = true /\ SubscribeUpdateSlot.slot status = slot /\
    from_status (SubscribeUpdateSlot.bank_id status) = bank.
Proof.
  unfold message_of. destruct u as [filters [[t|m|st| | |]|]]; simpl; try done.
  - by destruct (protocol_of filters).
  - by destruct (block_time m).
  - case_match; [|done]. intros [= <- <-]. by exists filters, st.
Qed.

Lemma message_time_inv u slot bank at_ :
  message_of u = Some (MBlockTime slot bank at_) ->
  exists filters meta, u = SubscribeUpdate.mk filters (Some (UBlockMeta meta)) /\
    block_time meta = Some at_ /\ SubscribeUpdateBlockMeta.slot meta = slot /\
    from_wire (SubscribeUpdateBlockMeta.bank_id meta) = bank.
Proof.
  unfold message_of. destruct u as [filters [[t|m|st| | |]|]]; simpl; try done.
  - by destruct (protocol_of filters).
  - destruct (block_time m) eqn:Hm; [|done]. intros [= <- <- <-]. by exists filters, m.
  - by case_match.
Qed.

Lemma run_updates_accounted received emitted ranges us :
  let '(s, _, _) := run_updates (StreamSession.new received emitted) ranges us in
  exists sent, StreamSession.emitted s = emitted ++ sent /\ Forall (accounted us) sent.
Proof.
  pose proof (run_updates_spec (StreamSession.new received emitted) ranges us) as Hr.
  destruct (run_updates _ ranges us) as [[s ranges'] state].
  destruct Hr as (processed & rest & -> & _ & Hr). simpl in Hr.
  pose proof (inv_run_init MAX_PENDING_SLOTS MAX_PENDING_PAYLOADS MAX_KNOWN_SLOTS
    (omap message_of processed)) as Hinv. unfold SlotTimestampBuffer.new in Hr.
  destruct (run _ _) as [b outs]. destruct Hr as [_ (handed & left & Hp & _ & He & _)].
  destruct Hinv as [Hinv _]; [done..|]. exists (omap ingest handed). split; [done|].
  apply Forall_forall. intros i Hi.
  assert (i ∈ omap ingest (map snd outs)) as Hin by (rewrite Hp, omap_app; apply elem_of_app; by left).
  apply list_elem_of_omap in Hin as (r & Hr & Hing). apply list_elem_of_In, in_map_iff in Hr as ([slot r'] & <- & Hr).
  destruct (inv_outs _ _ _ Hinv slot r' Hr) as (bank & kept & bank' & Hp1 & Hp2 & Hp3 & Hp4 & Hp5).
  apply message_of_In in Hp1 as (u1 & Hu1 & (f1 & -> & Hpr & Hs1 & <-)%message_payload_inv).
  apply message_of_In in Hp2 as (u2 & Hu2 & (f2 & status & -> & Hf & Hs2 & Hk)%message_finalized_inv).
  apply message_of_In in Hp4 as (u3 & Hu3 & (f3 & meta & -> & Ht & Hs3 & <-)%message_time_inv).
  unfold ingest in Hing. apply opt_bind_Some in Hing as (tx & Htx & [= <-]). simpl.
  exists f1, (PendingTransaction.update (Resolved.payload r')), (Resolved.at_ r'), kept, f2, f3, status, meta.
  simpl in *. destruct (from_grpc _ _) as [tx'|]; [|done]. injection Htx as ->.
  split_and!; try done; try congruence; apply in_or_app; by left.
Qed.

(** C21: End to end, every transaction a session hands the pipeline came in a
    transaction update of a watched protocol, its slot was finalized in a bank
    its own bank is admitted by, and its timestamp is the block time a
    block-meta gave for that slot and an admitted bank. *)
Theorem session_emits_finalized received emitted ranges us :
  let '(s, _, _) := run_updates (StreamSession.new received emitted) ranges us in
  exists sent, StreamSession.emitted s = emitted ++ sent /\ Forall (accounted us) sent.
Proof. apply run_updates_accounted. Qed.
End Facts.
