(* ===== verification/Recorder.v ===== *)
(** * The recorder of received slots

    [src/crates/indexer/src/infra/grpc/]: ranges_to_record.rs ([rows]) and
    listener/slots_recorder.rs. The repository is the class
    [ObservedSlotsRepository]; what it accepted is a log. The sessions and the
    recorder share the store of ranges: a history is a list of their actions. *)

From S2P Require Import Prelude Errors External OrderedMap Domain Session.

Module ObservedSlots.
Record t : Type := mk {
  protocol : Protocol;
  session_started_at : DateTime;
  first_slot : Z;
  first_slot_at : DateTime;
  last_slot : Z;
  last_slot_at : DateTime;
}.

#[global] Instance eq_dec : EqDecision t.
Proof. solve_decision. Defined.
End ObservedSlots.

(** The answer to a row, after the rows already submitted. *)
Class ObservedSlotsRepository : Type := {
  submit : list ObservedSlots.t -> ObservedSlots.t -> RepositoryResult unit;
}.

(** [RangeToRecord::rows]. *)
Definition rows (range : RangeToRecord.t) (session_started_at : DateTime) : list ObservedSlots.t :=
  let span := RangeToRecord.span range in
  map (fun protocol =>
    ObservedSlots.mk protocol session_started_at (ReceivedSpan.first span) (ReceivedSpan.first_at span)
      (ReceivedSpan.last span) (ReceivedSpan.last_at span)) (RangeToRecord.protocols range).

Module SlotsRecorder.
Record t : Type := mk {
  ranges : RangesToRecord;                       (** shared with the sessions *)
  due : RangesToRecord;
  written : gmap DateTime ReceivedSpan.t;
  submitted : list ObservedSlots.t;
  recorded : list ObservedSlots.t;               (** what the repository accepted *)
}.

Definition new : t := mk ∅ ∅ ∅ [] [].

Definition set_ranges (r : t) (ranges : RangesToRecord) : t :=
  mk ranges (due r) (written r) (submitted r) (recorded r).

Section Recorder.
Context `{ObservedSlotsRepository}.

(** [record]: every row is submitted, a failure does not stop the others. *)
Fixpoint record (r : t) (rows : list ObservedSlots.t) : t * bool :=
  match rows with
  | [] => (r, true)
  | row :: rows =>
    let submitted := submitted r ++ [row] in
    match submit (SlotsRecorder.submitted r) row with
    | Ok _ => record (mk (ranges r) (due r) (written r) submitted (recorded r ++ [row])) rows
    | Err _ =>
        let (r, _) := record (mk (ranges r) (due r) (written r) submitted (recorded r)) rows in
        (r, false)
    end
  end.

Definition changed (r : t) : list (DateTime * RangeToRecord.t) :=
  List.filter (fun sr => negb (bool_decide (written r !! fst sr = Some (RangeToRecord.span (snd sr)))))
    (entries (due r)).

Definition write_one (r : t) (sr : DateTime * RangeToRecord.t) : t :=
  let (r, ok) := record r (rows (snd sr) (fst sr)) in
  if ok : bool
  then mk (ranges r) (due r) (<[fst sr := RangeToRecord.span (snd sr)]> (written r)) (submitted r)
         (recorded r)
  else r.

Definition finished (r : t) : list DateTime :=
  map fst (List.filter (fun sr => RangeToRecord.ended (snd sr) &&
      bool_decide (written r !! fst sr = Some (RangeToRecord.span (snd sr))))
    (entries (due r))).

Definition forget_one (r : t) (session : DateTime) : t :=
  mk (forget (ranges r) session) (due r) (delete session (written r)) (submitted r) (recorded r).

Definition write (r : t) : t :=
  let r := foldl write_one r (changed r) in
  foldl forget_one r (finished r).

(** A tick of [run]: what was due is written, then the spans are read again. *)
Definition tick (r : t) : t :=
  let r := write r in
  mk (ranges r) (ranges r) (written r) (submitted r) (recorded r).
End Recorder.
End SlotsRecorder.

(** ** The sessions and the recorder, interleaved *)

Inductive RecorderAction : Type :=
| Publish (session : DateTime) (protocols : list Protocol) (span : ReceivedSpan.t)
| End_ (session : DateTime)
| Tick.

Definition recorder_step `{ObservedSlotsRepository} (r : SlotsRecorder.t) (a : RecorderAction) :
    SlotsRecorder.t :=
  match a with
  | Publish session protocols span =>
      SlotsRecorder.set_ranges r
        (publish (SlotsRecorder.ranges r) session (RangeToRecord.mk protocols span false))
  | End_ session => SlotsRecorder.set_ranges r (end_ (SlotsRecorder.ranges r) session)
  | Tick => SlotsRecorder.tick r
  end.

Definition recorder_run `{ObservedSlotsRepository} (actions : list RecorderAction) : SlotsRecorder.t :=
  foldl recorder_step SlotsRecorder.new actions.
