(* ===== verification/RecorderFacts.v ===== *)
(** * The span a session publishes, and its record

    [ReceivedSlots] of [Session.v]: the span starts past the first block-meta,
    its ends are slots the session has a block time for, and each end it moves
    is settled: nothing waits at that slot or in the two that follow. *)

From S2P Require Import Prelude Errors External OrderedMap Domain Extractor Reference GrpcAdapter SlotBuffer.
From S2P Require Import SlotBufferFacts Session SessionFacts Recorder.

(** ** Spans *)

Notation span_first := ReceivedSpan.first.
Notation span_last := ReceivedSpan.last.

(** The ends of a span are entries of [l], in order. *)
Definition within (l : list (Z * DateTime)) (sp : ReceivedSpan.t) : Prop :=
  span_first sp <= span_last sp /\
  In (span_first sp, ReceivedSpan.first_at sp) l /\ In (span_last sp, ReceivedSpan.last_at sp) l.

Definition covers (sp : ReceivedSpan.t) (slot : Z) : Prop := span_first sp <= slot <= span_last sp.

(** [sp'] widens [sp], and each end that moved satisfies [P]. *)
Record widens (P : Z -> Prop) (sp sp' : ReceivedSpan.t) : Prop := {
  widens_first : span_first sp' = span_first sp \/
    (span_first sp' < span_first sp /\ P (span_first sp'));
  widens_last : span_last sp' = span_last sp \/ (span_last sp < span_last sp' /\ P (span_last sp'));
}.

Lemma widens_trans P sp1 sp2 sp3 : widens P sp1 sp2 -> widens P sp2 sp3 -> widens P sp1 sp3.
Proof.
  intros [F1 L1] [F2 L2]. split.
  - destruct F2 as [->|[Hlt HP]]; [done|]. right. split; [destruct F1 as [?|[? _]]; lia|done].
  - destruct L2 as [->|[Hlt HP]]; [done|]. right. split; [destruct L1 as [?|[? _]]; lia|done].
Qed.

Lemma widens_covers P sp sp' slot : widens P sp sp' -> covers sp slot -> covers sp' slot.
Proof. unfold covers. intros [[F|[F _]] [L|[L _]]] ?; lia. Qed.

Lemma include_spec (P : Z -> Prop) l sp slot at_ :
  within l sp -> In (slot, at_) l -> P slot ->
  let sp' := ReceivedSpan.include sp slot at_ in
  within l sp' /\ widens P sp sp' /\ covers sp' slot.
Proof.
  intros (Hle & Hf & Hl) Hin HP. unfold ReceivedSpan.include, within, covers.
  destruct (Z.leb_spec (span_first sp) slot), (Z.leb_spec slot (span_last sp)); simpl.
  - split_and!; try done. split; by left.
  - destruct (Z.ltb_spec slot (span_first sp)); [lia|]. simpl.
    split_and!; try done; try lia. split; simpl; [by left|right; split; [lia|done]].
  - destruct (Z.ltb_spec slot (span_first sp)); [|lia]. simpl.
    split_and!; try done; try lia. split; simpl; [right; split; [lia|done]|by left].
  - lia.
Qed.

Lemma include_all_Some (P : Z -> Prop) l sp received :
  within l sp -> (forall e, In e received -> In e l /\ P e.1) ->
  exists sp', ReceivedSlots.include_all (Some sp) received = Some sp' /\
    within l sp' /\ widens P sp sp' /\ forall e, In e received -> covers sp' e.1.
Proof.
  revert sp. induction received as [|[slot at_] received IH]; intros sp Hsp Hr.
  { exists sp. split_and!; [done..| |done]. split; by left. }
  destruct (Hr (slot, at_)) as [Hin HP]; [by left|].
  destruct (include_spec P l sp slot at_ Hsp Hin HP) as (Hsp1 & Hw1 & Hc1).
  destruct (IH (ReceivedSpan.include sp slot at_)) as (sp' & Hsp' & Hl & Hw & Hc);
    [done|intros e He; apply Hr; by right|].
  exists sp'. split_and!; [done|done|by eapply widens_trans|].
  intros e [<-|He]; [by eapply widens_covers|by apply Hc].
Qed.

(** The span after some slots, whether or not it had started. *)
Lemma include_all_spec (P : Z -> Prop) l span received :
  received <> [] -> (forall sp, span = Some sp -> within l sp) ->
  (forall e, In e received -> In e l /\ P e.1) ->
  exists sp', ReceivedSlots.include_all span received = Some sp' /\ within l sp' /\
    (forall e, In e received -> covers sp' e.1) /\
    match span with
    | Some sp => widens P sp sp'
    | None => P (span_first sp') /\ P (span_last sp')
    end.
Proof.
  intros Hne Hspan Hr. destruct span as [sp|].
  - destruct (include_all_Some P l sp received) as (sp' & ? & ? & ? & ?); [by apply Hspan|done|].
    by exists sp'.
  - destruct received as [|[slot at_] received]; [done|].
    destruct (Hr (slot, at_)) as [Hin HP]; [by left|]. simpl in HP.
    destruct (include_all_Some P l (ReceivedSpan.starting slot at_) received) as (sp' & Hsp' & Hl & Hw & Hc).
    + by split_and!.
    + intros e He. apply Hr. by right.
    + exists sp'. split_and!; [done|done| | |].
      * intros e [<-|He]; [|by apply Hc]. eapply widens_covers; [done|]. unfold covers. simpl. lia.
      * destruct Hw as [[->|[_ ?]] _]; done.
      * destruct Hw as [_ [->|[_ ?]]]; done.
Qed.

(** ** The slots received *)

(** What holds of the slots received for the timed block-metas [l]. *)
Record received_inv (l : list (Z * DateTime)) (r : ReceivedSlots.t) : Prop := {
  ri_counted : ReceivedSlots.counted_from r =
    option_map (fun e => saturating_add 64 e.1 HELD_BACK_SLOTS) (head l);
  ri_not_yet : forall k at_, ReceivedSlots.not_yet r !! k = Some at_ -> In (k, at_) l /\
    exists c, ReceivedSlots.counted_from r = Some c /\ c <= k;
  ri_span : forall sp, ReceivedSlots.span r = Some sp -> within l sp /\
    exists c, ReceivedSlots.counted_from r = Some c /\ c <= span_first sp;
  ri_all : forall k at_ c, In (k, at_) l -> ReceivedSlots.counted_from r = Some c -> c <= k ->
    is_Some (ReceivedSlots.not_yet r !! k) \/
    exists sp, ReceivedSlots.span r = Some sp /\ covers sp k;
}.

Lemma within_mono l l' sp : (forall e, In e l -> In e l') -> within l sp -> within l' sp.
Proof. intros Hl (? & ? & ?). split_and!; auto. Qed.

Lemma split_off_spec {V} (m : gmap Z V) k :
  let '(low, high) := split_off m k in
  (forall i v, In (i, v) low <-> m !! i = Some v /\ i < k) /\
  (forall i v, high !! i = Some v <-> m !! i = Some v /\ k <= i).
Proof.
  unfold split_off. split; intros i v.
  - rewrite filter_In, entries_In. simpl. by rewrite Z.ltb_lt.
  - by rewrite map_lookup_filter_Some.
Qed.

(** The slots once a block-meta is noted: [c] is where counting starts, [ny]
    what is not yet in the span. *)
Record noted (l : list (Z * DateTime)) (r : ReceivedSlots.t) (c : Z) (ny : gmap Z DateTime) : Prop := {
  no_counted : Some c = option_map (fun e => saturating_add 64 e.1 HELD_BACK_SLOTS) (head l);
  no_not_yet : forall k at_, ny !! k = Some at_ -> In (k, at_) l /\ c <= k;
  no_span : forall sp, ReceivedSlots.span r = Some sp -> within l sp /\ c <= span_first sp;
  no_all : forall k at_, In (k, at_) l -> c <= k ->
    is_Some (ny !! k) \/ exists sp, ReceivedSlots.span r = Some sp /\ covers sp k;
}.

Lemma noted_slot l r slot at_ :
  received_inv l r ->
  let c := match ReceivedSlots.counted_from r with
           | Some c => c
           | None => saturating_add 64 slot HELD_BACK_SLOTS
           end in
  noted (l ++ [(slot, at_)]) r c
    (if c <=? slot then <[slot := at_]> (ReceivedSlots.not_yet r) else ReceivedSlots.not_yet r).
Proof.
  intros [Hc Hn Hs Ha]. cbv zeta.
  set (c := match ReceivedSlots.counted_from r with Some c => c | None => _ end).
  assert (forall c', ReceivedSlots.counted_from r = Some c' -> c' = c) as Hcc
    by (intros c' E; unfold c; by rewrite E).
  assert (forall e, In e l -> In e (l ++ [(slot, at_)])) as Hl by (intros e He; apply in_or_app; by left).
  constructor.
  - unfold c. rewrite Hc. by destruct l.
  - intros k at1. destruct (Z.leb_spec c slot) as [Hle|Hlt].
    + intros [[<- <-]|[_ Hk]]%lookup_insert_Some; [split; [apply in_or_app; right; by left|done]|].
      destruct (Hn k at1 Hk) as (? & c' & ->%Hcc & ?). auto.
    + intros Hk. destruct (Hn k at1 Hk) as (? & c' & ->%Hcc & ?). auto.
  - intros sp Hsp. destruct (Hs sp Hsp) as (Hw & c' & ->%Hcc & ?). split; [|done].
    by eapply within_mono.
  - intros k at1 [Hin|[[= <- <-]|[]]]%in_app_or Hk.
    + assert (ReceivedSlots.counted_from r = Some c) as Hcr by (unfold c; rewrite Hc; by destruct l).
      destruct (Ha k at1 c Hin Hcr Hk) as [[v Hv]|?]; [left|by right].
      destruct (c <=? slot); [|by eauto]. by apply lookup_insert_is_Some'; right; eauto.
    + left. destruct (Z.leb_spec c slot); [|lia]. rewrite lookup_insert_eq. by eauto.
Qed.

(** What is noted stays so when the span takes entries in and forgets none. *)
Lemma noted_inv l r c ny span' ny' started protocols :
  noted l r c ny -> (forall k at_, ny' !! k = Some at_ -> ny !! k = Some at_) ->
  (forall sp, span' = Some sp -> within l sp /\ c <= span_first sp) ->
  (forall k, is_Some (ny !! k) \/ (exists sp, ReceivedSlots.span r = Some sp /\ covers sp k) ->
     is_Some (ny' !! k) \/ exists sp, span' = Some sp /\ covers sp k) ->
  received_inv l (ReceivedSlots.mk started protocols span' (Some c) ny').
Proof.
  intros [Hc Hny Hspan Hall] H1 H2 H3. constructor; simpl.
  - done.
  - intros k at1 Hk%H1. destruct (Hny k at1 Hk). eauto.
  - intros sp Hsp. destruct (H2 sp Hsp). eauto.
  - intros k at1 c' Hin [= <-] Hk. apply H3. by eapply Hall.
Qed.

(** Taking in the entries below [sb]. *)
Lemma noted_include l r c ny sb :
  noted l r c ny ->
  let '(received, still) := split_off ny sb in
  received <> [] ->
  exists sp', ReceivedSlots.include_all (ReceivedSlots.span r) received = Some sp' /\
    within l sp' /\ c <= span_first sp' /\
    (forall k, is_Some (ny !! k) -> k < sb -> covers sp' k) /\
    match ReceivedSlots.span r with
    | Some sp => widens (fun k => k < sb) sp sp'
    | None => span_first sp' < sb /\ span_last sp' < sb
    end.
Proof.
  intros [Hc Hny Hspan Hall]. pose proof (split_off_spec ny sb) as Hsplit.
  destruct (split_off ny sb) as [received still]. destruct Hsplit as [Hlow _]. intros Hne.
  assert (forall e, In e received -> In e l /\ e.1 < sb /\ c <= e.1) as Hin.
  { intros [k v] [Hv Hk]%Hlow. destruct (Hny k v Hv). done. }
  assert (forall P : Z -> Prop, (forall k, k < sb /\ c <= k -> P k) ->
    exists sp', ReceivedSlots.include_all (ReceivedSlots.span r) received = Some sp' /\ within l sp' /\
      (forall e, In e received -> covers sp' e.1) /\
      match ReceivedSlots.span r with
      | Some sp => widens P sp sp'
      | None => P (span_first sp') /\ P (span_last sp')
      end) as Hinc.
  { intros P HP. apply include_all_spec; [done|intros sp Hsp; by apply Hspan|].
    intros e He. destruct (Hin e He). auto. }
  destruct (Hinc (fun k => k < sb)) as (sp' & Hsp' & Hw & Hcov & Hends); [by intros k []|].
  exists sp'. split_and!; [done|done| | |done].
  - destruct (Hinc (fun k => c <= k)) as (sp2 & Hsp2 & _ & _ & Hends2); [by intros k []|].
    rewrite Hsp' in Hsp2. injection Hsp2 as <-.
    destruct (ReceivedSlots.span r) as [sp|]; [|by destruct Hends2].
    destruct (Hspan sp eq_refl) as [_ ?]. destruct Hends2 as [[->|[_ ?]] _]; done.
  - intros k [v Hv] Hk. apply (Hcov (k, v)), Hlow. done.
Qed.

(** One block-meta: nothing published, or the span widened by slots settled
    below [sb], none of those left out. *)
Lemma on_block_meta_spec l r ranges slot at_ settled_below :
  ReceivedSlots.protocols r <> [] -> received_inv l r ->
  let '(r', ranges') := ReceivedSlots.on_block_meta r ranges slot at_ settled_below in
  received_inv (l ++ [(slot, at_)]) r' /\
  ReceivedSlots.protocols r' = ReceivedSlots.protocols r /\
  ReceivedSlots.started_at r' = ReceivedSlots.started_at r /\
  (ranges' = ranges \/
   exists sb sp', settled_below = Some sb /\ ReceivedSlots.span r' = Some sp' /\
     ranges' = publish ranges (ReceivedSlots.started_at r)
       (RangeToRecord.mk (ReceivedSlots.protocols r) sp' false) /\
     match ReceivedSlots.span r with
     | Some sp => widens (fun k => k < sb) sp sp'
     | None => span_first sp' < sb /\ span_last sp' < sb
     end /\
     (forall k at1 c, In (k, at1) (l ++ [(slot, at_)]) -> ReceivedSlots.counted_from r' = Some c ->
        c <= k < sb -> covers sp' k)).
Proof.
  intros Hne Hinv. unfold ReceivedSlots.on_block_meta.
  destruct (ReceivedSlots.protocols r) as [|p ps] eqn:Hp; [done|]. clear Hne.
  pose proof (noted_slot l r slot at_ Hinv) as Hno. cbv zeta in *.
  set (c := match ReceivedSlots.counted_from r with Some c => c | None => _ end) in *.
  set (ny := if c <=? slot then _ else _) in *. clearbody ny c. clear Hinv.
  revert Hno. generalize (l ++ [(slot, at_)]) as l'. intros l' Hno.
  destruct settled_below as [sb|].
  2: { split_and!; [|done|done|by left].
    eapply noted_inv; [exact Hno|done|apply (no_span _ _ _ _ Hno)|done]. }
  pose proof (split_off_spec ny sb) as Hsplit. pose proof (noted_include l' r c ny sb Hno) as Hinc.
  destruct (split_off ny sb) as [received still]. destruct Hsplit as [Hlow Hhigh].
  assert (forall k at1, still !! k = Some at1 -> ny !! k = Some at1) as Hstill by (intros; by apply Hhigh).
  assert (forall k v, ny !! k = Some v -> still !! k = Some v \/ k < sb) as Hsplit.
  { intros k v Hv. destruct (Z_lt_le_dec k sb); [by right|]. left. by apply Hhigh. }
  destruct received as [|e0 rest].
  { split_and!; [|done|done|by left].
    eapply noted_inv; [exact Hno|done|apply (no_span _ _ _ _ Hno)|].
    intros k [[v Hv]|?]; [|by right]. left. destruct (Hsplit k v Hv); [by eauto|].
    by destruct (proj2 (Hlow k v)). }
  destruct Hinc as (sp' & -> & Hw & Hfirst & Hcov & Hends); [done|].
  assert (forall k, is_Some (ny !! k) \/ (exists sp, ReceivedSlots.span r = Some sp /\ covers sp k) ->
    is_Some (still !! k) \/ exists sp, Some sp' = Some sp /\ covers sp k) as Hkept.
  { intros k [[v Hv]|(sp & Hsp & Hk)].
    - destruct (Hsplit k v Hv); [by eauto|]. right. exists sp'. split; [done|]. apply Hcov; eauto.
    - right. exists sp'. split; [done|]. rewrite Hsp in Hends. by eapply widens_covers. }
  split_and!; [|done|done|].
  - eapply noted_inv; [exact Hno|done| |done]. by intros sp [= <-].
  - right. exists sb, sp'. split_and!; try done.
    intros k at1 c' Hk [= <-] [Hck Hks]. destruct (Hkept k) as [[v [_ Hv]%Hhigh]|(sp & [= <-] & ?)];
      [exact (no_all _ _ _ _ Hno k at1 Hk Hck)|lia|done].
Qed.

(** ** Over a session *)

Section Sessions.
Context `{Chrono} `{SignatureDisplay} `{Channels}.
Implicit Types s : StreamSession.t.

Notation received s := (StreamSession.received_slots s).

(** The slot and time of a block-meta that has one. *)
Definition timed_meta (u : SubscribeUpdate.t) : option (Z * DateTime) :=
  match SubscribeUpdate.update_oneof u with
  | Some (UBlockMeta m) =>
      let! at_ := block_time m in Some (SubscribeUpdateBlockMeta.slot m, at_)
  | _ => None
  end.

Lemma deliver_core s r :
  same_core s (StreamSession.deliver s (Resolved.payload r) (Resolved.at_ r)).1.
Proof. pose proof (deliver_spec s r) as Hd. destruct (StreamSession.deliver _ _ _). by destruct Hd. Qed.

Lemma deliver_all_core s released : same_core s (StreamSession.deliver_all s released).1.
Proof. pose proof (deliver_all_spec s released) as Hd. destruct (StreamSession.deliver_all _ _). by destruct Hd. Qed.

(** Only a timed block-meta touches what is received. *)
Lemma handle_received s ranges u :
  let '(s', ranges', _) := StreamSession.handle s ranges u in
  match timed_meta u with
  | Some (slot, at_) =>
      (received s', ranges') = ReceivedSlots.on_block_meta (received s) ranges slot at_
        (SlotProgress.settled_below (StreamSession.slots s'))
  | None => received s' = received s /\ ranges' = ranges
  end.
Proof.
  unfold StreamSession.handle, timed_meta.
  destruct (SubscribeUpdate.update_oneof u) as [[t|m|status| | |]|]; try done.
  - unfold StreamSession.on_transaction. destruct (protocol_of _) as [pr|]; [|done].
    destruct (SlotProgress.on_transaction _ _) as [p [r|]]; [|done].
    set (s0 := StreamSession.set_slots _ p). pose proof (deliver_core s0 r) as [_ Hr _ _].
    by destruct (StreamSession.deliver s0 _ _).
  - unfold StreamSession.on_block_meta. simpl StreamSession.slots.
    destruct (SlotProgress.on_block_meta _ m) as [p released].
    destruct (block_time m) as [at_|]; cbn [opt_bind].
    + destruct (ReceivedSlots.on_block_meta _ _ _ _ _) as [r ranges'] eqn:Hr. simpl in Hr.
      set (s1 := StreamSession.set_received_slots _ r).
      pose proof (deliver_all_core s1 released) as [Hsl Hrc _ _].
      destruct (StreamSession.deliver_all s1 released) as [s' state]. simpl in Hsl, Hrc.
      by rewrite Hsl, Hrc, Hr.
    + set (s1 := StreamSession.set_slots _ p).
      pose proof (deliver_all_core s1 released) as [_ Hrc _ _].
      by destruct (StreamSession.deliver_all s1 released).
  - destruct (SlotProgress.on_slot_status _ status) as [p released].
    set (s1 := StreamSession.set_slots _ p). pose proof (deliver_all_core s1 released) as [_ Hrc _ _].
    by destruct (StreamSession.deliver_all s1 released).
  - unfold StreamSession.answer. by destruct (try_answer _).
Qed.

(** A handled update keeps the invariant of the slots received. *)
Lemma handle_received_inv s ranges u l :
  ReceivedSlots.protocols (received s) <> [] -> received_inv l (received s) ->
  let '(s', _, _) := StreamSession.handle s ranges u in
  received_inv (l ++ option_list (timed_meta u)) (received s') /\
  ReceivedSlots.protocols (received s') = ReceivedSlots.protocols (received s) /\
  ReceivedSlots.started_at (received s') = ReceivedSlots.started_at (received s).
Proof.
  intros Hp Hinv. pose proof (handle_received s ranges u) as Hh.
  destruct (StreamSession.handle s ranges u) as [[s' ranges'] state].
  destruct (timed_meta u) as [[slot at_]|]; simpl.
  - pose proof (on_block_meta_spec l (received s) ranges slot at_
      (SlotProgress.settled_below (StreamSession.slots s')) Hp Hinv) as Hs.
    rewrite <- Hh in Hs. by destruct Hs as (? & ? & ? & _).
  - destruct Hh as [-> _]. by rewrite app_nil_r.
Qed.

Lemma run_received_inv s ranges us l :
  ReceivedSlots.protocols (received s) <> [] -> received_inv l (received s) ->
  let '(s', _, state) := run_updates s ranges us in
  state = Open ->
  received_inv (l ++ omap timed_meta us) (received s') /\
  ReceivedSlots.protocols (received s') = ReceivedSlots.protocols (received s) /\
  ReceivedSlots.started_at (received s') = ReceivedSlots.started_at (received s).
Proof.
  revert s ranges l. induction us as [|u us IH]; intros s ranges l Hp Hinv; simpl.
  { intros _. by rewrite app_nil_r. }
  pose proof (handle_received_inv s ranges u l Hp Hinv) as Hh.
  destruct (StreamSession.handle s ranges u) as [[s1 ranges1] state1].
  destruct Hh as (Hinv1 & Hp1 & Ht1). destruct state1; [|done..].
  specialize (IH s1 ranges1 (l ++ option_list (timed_meta u))). rewrite Hp1 in IH. specialize (IH Hp Hinv1).
  destruct (run_updates s1 ranges1 us) as [[s' ranges'] state]. intros Ho.
  destruct (IH Ho) as (Hinv' & Hp' & Ht'). rewrite <- app_assoc in Hinv'.
  split_and!; [|congruence..]. by destruct (timed_meta u).
Qed.

(** A slot is settled: nothing waits there nor in the two slots after it, and
    with nothing waiting the stream is past them. *)
Definition settled s (slot : Z) : Prop :=
  (forall w, is_Some (WaitingSlots.pending
      (SlotTimestampBuffer.waiting (SlotProgress.buffer (StreamSession.slots s))) !! w) ->
    slot + HELD_BACK_SLOTS < w) /\
  (WaitingSlots.pending (SlotTimestampBuffer.waiting (SlotProgress.buffer (StreamSession.slots s))) = ∅ ->
    exists h, SlotProgress.highest_meta_slot (StreamSession.slots s) = Some h /\ slot + HELD_BACK_SLOTS < h).

Lemma settled_below_settled s sb slot :
  SlotProgress.settled_below (StreamSession.slots s) = Some sb -> 0 <= slot < sb -> settled s slot.
Proof.
  unfold SlotProgress.settled_below, SlotTimestampBuffer.oldest_pending_slot, WaitingSlots.oldest, settled.
  set (pending := WaitingSlots.pending _).
  destruct (first_key pending) as [o|] eqn:Ho; intros (u & Hu & [= <-])%opt_bind_Some Hs;
    unfold saturating_sub in Hs.
  - injection Hu as <-. destruct (first_key_Some _ _ Ho) as [Hin Hle]. split.
    + intros w Hw%Hle. lia.
    + intros He. rewrite He, lookup_empty in Hin. by destruct Hin.
  - apply first_key_None in Ho as He. split.
    + intros w Hw. rewrite He, lookup_empty in Hw. by destruct Hw.
    + intros _. exists u. split; [done|]. lia.
Qed.

Lemma received_inv_new started protocols : received_inv [] (ReceivedSlots.new started protocols).
Proof. by constructor. Qed.

Lemma on_block_meta_unwatched r ranges slot at_ sb :
  ReceivedSlots.protocols r = [] -> ReceivedSlots.on_block_meta r ranges slot at_ sb = (r, ranges).
Proof. intros Hp. unfold ReceivedSlots.on_block_meta. by rewrite Hp. Qed.

Lemma handle_unwatched s ranges u :
  ReceivedSlots.protocols (received s) = [] ->
  let '(s', ranges', _) := StreamSession.handle s ranges u in
  received s' = received s /\ ranges' = ranges.
Proof.
  intros Hp. pose proof (handle_received s ranges u) as Hh.
  destruct (StreamSession.handle s ranges u) as [[s' ranges'] state].
  destruct (timed_meta u) as [[slot at_]|]; [|done].
  rewrite on_block_meta_unwatched in Hh by done. by injection Hh.
Qed.

Lemma run_unwatched s ranges us :
  ReceivedSlots.protocols (received s) = [] ->
  let '(s', _, _) := run_updates s ranges us in ReceivedSlots.protocols (received s') = [].
Proof.
  revert s ranges. induction us as [|u us IH]; intros s ranges Hp; simpl; [done|].
  pose proof (handle_unwatched s ranges u Hp) as Hh.
  destruct (StreamSession.handle s ranges u) as [[s1 ranges1] state1].
  destruct Hh as [Hr _]. destruct state1; [|congruence..].
  apply IH. congruence.
Qed.

Lemma within_nonneg l sp :
  Forall (fun e => is_uint 64 e.1) l -> within l sp -> 0 <= span_first sp /\ 0 <= span_last sp.
Proof.
  intros Hl (_ & Hf & Hla). rewrite Forall_forall in Hl.
  apply list_elem_of_In, Hl in Hf as [? _]. by apply list_elem_of_In, Hl in Hla as [? _].
Qed.

(** When a session publishes its span, the entry is its own and the rest
    of the store is untouched; the ends of the span are slots whose block time
    the session received, none before the third slot counted from its first
    block-meta; an end that moved is settled, and every slot received from
    there on that lies below the waiting payloads is in the span. *)
Theorem session_publishes_settled started protocols emitted ranges us u :
  Forall (fun e => is_uint 64 e.1) (omap timed_meta (us ++ [u])) ->
  let '(s, ranges1, state) := run_updates (StreamSession.new (ReceivedSlots.new started protocols) emitted) ranges us in
  let '(s', ranges', _) := StreamSession.handle s ranges1 u in
  let metas := omap timed_meta (us ++ [u]) in
  state = Open -> ranges' <> ranges1 ->
  exists sp first_meta,
    ranges' = publish ranges1 started (RangeToRecord.mk protocols sp false) /\
    head metas = Some first_meta /\
    within metas sp /\ saturating_add 64 first_meta.1 HELD_BACK_SLOTS <= span_first sp /\
    match ReceivedSlots.span (received s) with
    | Some old => widens (settled s') old sp
    | None => settled s' (span_first sp) /\ settled s' (span_last sp)
    end /\
    (forall k at_ sb, In (k, at_) metas -> saturating_add 64 first_meta.1 HELD_BACK_SLOTS <= k ->
       SlotProgress.settled_below (StreamSession.slots s') = Some sb -> k < sb -> covers sp k).
Proof.
  intros Hw. set (s0 := StreamSession.new _ _).
  destruct (decide (protocols = [])) as [Hp|Hp].
  { pose proof (run_unwatched s0 ranges us Hp) as Hr.
    destruct (run_updates s0 ranges us) as [[s ranges1] state].
    pose proof (handle_unwatched s ranges1 u Hr) as Hh.
    destruct (StreamSession.handle s ranges1 u) as [[s' ranges'] ?]. by destruct Hh as [_ ->]. }
  pose proof (run_received_inv s0 ranges us [] Hp (received_inv_new started protocols)) as Hr.
  destruct (run_updates s0 ranges us) as [[s ranges1] state]. simpl in Hr.
  pose proof (handle_received s ranges1 u) as Hh.
  destruct (StreamSession.handle s ranges1 u) as [[s' ranges'] ?]. cbv zeta. intros Ho Hchanged.
  destruct (Hr Ho) as (Hinv & Hps & Hst). clear Hr Ho.
  rewrite omap_app in *. cbn [omap list_omap] in *.
  destruct (timed_meta u) as [[slot at_]|]; [|by destruct Hh].
  pose proof (on_block_meta_spec _ _ ranges1 slot at_ (SlotProgress.settled_below (StreamSession.slots s'))
    ltac:(by rewrite Hps) Hinv) as Hs.
  rewrite <- Hh in Hs. destruct Hs as (Hinv' & _ & _ & [?|(sb & sp & Hsb & Hsp & Hpub & Hends & Hall)]); [done|].
  destruct (ri_span _ _ Hinv' sp Hsp) as (Hwi & c & Hc & Hcf).
  pose proof (within_nonneg _ _ Hw Hwi) as [Hf0 Hl0].
  pose proof (ri_counted _ _ Hinv') as Hci. rewrite Hc in Hci.
  destruct (head _) as [first_meta|] eqn:Hhead; [|done]. injection Hci as ->.
  exists sp, first_meta. split_and!; try done.
  - by rewrite Hpub, Hps, Hst.
  - destruct (ReceivedSlots.span (received s)) as [old|].
    + destruct Hends as [HF HL]. split.
      * destruct HF as [?|[? ?]]; [by left|right; split; [done|]]. by eapply settled_below_settled.
      * destruct HL as [?|[? ?]]; [by left|right; split; [done|]]. by eapply settled_below_settled.
    + destruct Hends. split; by eapply settled_below_settled.
  - intros k at1 sb' Hk Hck Hsb' Hks. rewrite Hsb in Hsb'. injection Hsb' as <-. by eapply Hall.
Qed.
End Sessions.

(** ** A concrete session *)

(** A pipeline with room and a server that takes every answer. *)
Definition open_channels : Channels := {|
  try_send _ _ := TrySent;
  send_or_shutdown _ _ := WaitSent;
  try_answer _ := None;
|}.

Definition meta_update (slot time bank : Z) : SubscribeUpdate.t :=
  SubscribeUpdate.mk [BLOCK_META_FILTER]
    (Some (UBlockMeta (SubscribeUpdateBlockMeta.mk slot (Some time) bank))).

Definition sample_metas : list SubscribeUpdate.t :=
  [meta_update 10 1000 1; meta_update 12 1001 2; meta_update 14 1002 3].

Definition sample_session : StreamSession.t :=
  StreamSession.new (ReceivedSlots.new 7 [MeteoraDammV2]) [].

#[local] Instance sample_channels : Channels := open_channels.

Lemma session_publishes_settled_witness :
  let r := run_updates sample_session ∅ sample_metas in
  let h := StreamSession.handle r.1.1 r.1.2 (meta_update 16 1003 4) in
  let metas := omap timed_meta (sample_metas ++ [meta_update 16 1003 4]) in
  exists sp first_meta,
    h.1.2 = publish r.1.2 7 (RangeToRecord.mk [MeteoraDammV2] sp false) /\
    head metas = Some first_meta /\ within metas sp.
Proof.
  cbv zeta.
  assert (Forall (fun e => is_uint 64 e.1) (omap timed_meta (sample_metas ++ [meta_update 16 1003 4])))
    as Hw by (apply (bool_decide_unpack _); vm_compute; exact I).
  pose proof (session_publishes_settled 7 [MeteoraDammV2] [] ∅ sample_metas (meta_update 16 1003 4) Hw)
    as Ht. fold sample_session in Ht.
  assert ((run_updates sample_session ∅ sample_metas).2 = Open) as Hopen by (vm_compute; reflexivity).
  assert ((StreamSession.handle (run_updates sample_session ∅ sample_metas).1.1
    (run_updates sample_session ∅ sample_metas).1.2 (meta_update 16 1003 4)).1.2 <>
    (run_updates sample_session ∅ sample_metas).1.2) as Hne.
  { intros E. apply (f_equal size) in E. revert E. vm_compute. discriminate. }
  destruct (run_updates sample_session ∅ sample_metas) as [[s ranges1] state]. simpl in Hopen, Hne |- *.
  destruct (StreamSession.handle s ranges1 _) as [[s' ranges'] ?]. simpl in Hne |- *.
  destruct (Ht Hopen Hne) as (sp & first_meta & Hr & Hf & Hin & _). by exists sp, first_meta.
Defined.

(** ** No received span is lost

    Over any interleaving of sessions and ticks, a session's last span stays
    in the shared store until every row of it has been accepted; with a
    repository that accepts them, two ticks after the end are enough. *)

Section Facts.
Context `{ObservedSlotsRepository}.
(** The protocols each session watches. *)
Context (watched : DateTime -> list Protocol).
Implicit Types (r : SlotsRecorder.t) (s : DateTime) (span : ReceivedSpan.t) (range : RangeToRecord.t).

Notation ranges := SlotsRecorder.ranges.
Notation due := SlotsRecorder.due.
Notation written := SlotsRecorder.written.
Notation recorded := SlotsRecorder.recorded.

(** Every row of a span of the session has been accepted. *)
Definition all_recorded r s span : Prop :=
  forall p, In p (watched s) ->
    In (ObservedSlots.mk p s (ReceivedSpan.first span) (ReceivedSpan.first_at span)
      (ReceivedSpan.last span) (ReceivedSpan.last_at span)) (recorded r).

(** The repository accepts every row of the session. *)
Definition accepts s : Prop :=
  forall history row, ObservedSlots.session_started_at row = s -> submit history row = Ok ().

(** [r'] has the ranges and the due spans of [r], and recorded more. *)
Record extends r r' : Prop := {
  ext_ranges : ranges r' = ranges r;
  ext_due : due r' = due r;
  ext_recorded : forall row, In row (recorded r) -> In row (recorded r');
}.

Lemma extends_refl r : extends r r.
Proof. by split. Qed.

Lemma extends_trans r1 r2 r3 : extends r1 r2 -> extends r2 r3 -> extends r1 r3.
Proof. intros [] []. split; [congruence..|auto]. Qed.

Lemma record_spec r rows :
  let '(r', ok) := SlotsRecorder.record r rows in
  extends r r' /\ written r' = written r /\
  (ok = true -> forall row, In row rows -> In row (recorded r')) /\
  ((forall history row, In row rows -> submit history row = Ok ()) -> ok = true).
Proof.
  revert r. induction rows as [|row rows IH]; intros r; [by split_and!|].
  cbn [SlotsRecorder.record]. destruct (submit _ row) as [u|e] eqn:Hs.
  - match goal with |- context [SlotsRecorder.record ?r1 rows] => specialize (IH r1) end.
    destruct (SlotsRecorder.record _ rows) as [r' ok]. destruct IH as ([Hr Hd Hrec] & Hw & Hok & Hacc).
    simpl in *. split_and!; try done.
    + split; [done..|]. intros row' Hin. apply Hrec, in_or_app. by left.
    + intros Ho row' [<-|Hin]; [apply Hrec, in_or_app; right; by left|by apply Hok].
    + intros Ha. apply Hacc. intros history row' Hin. apply Ha. by right.
  - match goal with |- context [SlotsRecorder.record ?r1 rows] => specialize (IH r1) end.
    destruct (SlotsRecorder.record _ rows) as [r' ok]. destruct IH as ([Hr Hd Hrec] & Hw & _).
    simpl in *. split_and!; try done. intros Ha. rewrite Ha in Hs; [done|by left].
Qed.

(** Entries of the due spans, with the protocols of their session. *)
Definition well_watched (m : RangesToRecord) : Prop :=
  forall s range, m !! s = Some range -> RangeToRecord.protocols range = watched s.

Definition written_ok r : Prop := forall s span, written r !! s = Some span -> all_recorded r s span.

Lemma all_recorded_rows r s range :
  RangeToRecord.protocols range = watched s ->
  (forall row, In row (rows range s) -> In row (recorded r)) ->
  all_recorded r s (RangeToRecord.span range).
Proof.
  intros Hp Hrows p Hin. apply Hrows. unfold rows. rewrite Hp.
  by apply (in_map (fun protocol => ObservedSlots.mk protocol s _ _ _ _)).
Qed.

Lemma extends_all_recorded r r' s span : extends r r' -> all_recorded r s span -> all_recorded r' s span.
Proof. intros [_ _ Hrec] Ha p Hp. by apply Hrec, Ha. Qed.

Lemma write_one_spec r s range :
  RangeToRecord.protocols range = watched s -> written_ok r ->
  let r' := SlotsRecorder.write_one r (s, range) in
  extends r r' /\ written_ok r' /\
  (forall s', s' <> s -> written r' !! s' = written r !! s') /\
  (written r' !! s = written r !! s \/ written r' !! s = Some (RangeToRecord.span range)) /\
  (accepts s -> written r' !! s = Some (RangeToRecord.span range)).
Proof.
  intros Hp Hok. unfold SlotsRecorder.write_one. simpl fst. simpl snd.
  pose proof (record_spec r (rows range s)) as Hr.
  destruct (SlotsRecorder.record r (rows range s)) as [r1 ok].
  destruct Hr as (Hext & Hw & Hrec & Hacc). cbv zeta.
  assert (written_ok r1) as Hok1.
  { intros s' span Hs'. rewrite Hw in Hs'. eapply extends_all_recorded; [done|by apply Hok]. }
  destruct ok; simpl; split_and!.
  - destruct Hext. by split.
  - intros s' span. destruct (decide (s' = s)) as [->|Hne]; simpl.
    + rewrite lookup_insert_eq. intros [= <-]. by apply (all_recorded_rows r1), Hrec.
    + rewrite lookup_insert_ne by done. apply Hok1.
  - intros s' Hne. by rewrite lookup_insert_ne, Hw.
  - right. by rewrite lookup_insert_eq.
  - intros _. by rewrite lookup_insert_eq.
  - done.
  - done.
  - intros s' _. by rewrite Hw.
  - left. by rewrite Hw.
  - intros Ha. assert (false = true) as [=]. apply Hacc. intros history row Hin.
    apply Ha. unfold rows in Hin. by apply in_map_iff in Hin as (p & <- & _).
Qed.

Lemma write_changed_spec (l : list (DateTime * RangeToRecord.t)) r :
  (forall s range, In (s, range) l -> RangeToRecord.protocols range = watched s) -> written_ok r ->
  let r' := foldl SlotsRecorder.write_one r l in
  extends r r' /\ written_ok r' /\
  (forall s range, accepts s -> (forall range', In (s, range') l -> range' = range) ->
     In (s, range) l \/ written r !! s = Some (RangeToRecord.span range) ->
     written r' !! s = Some (RangeToRecord.span range)).
Proof.
  revert r. induction l as [|[s0 range0] l IH]; intros r Hp Hok; simpl.
  { split_and!; [apply extends_refl|done|]. by intros s range _ _ [[]|?]. }
  destruct (write_one_spec r s0 range0) as (Hext & Hok1 & Hother & Hsame & Hacc);
    [apply Hp; by left|done|].
  destruct (IH (SlotsRecorder.write_one r (s0, range0))) as (Hext' & Hok' & Hw');
    [intros s range Hin; apply Hp; by right|done|].
  split_and!; [by eapply extends_trans|done|].
  intros s range Ha Hu Hin. apply Hw'; [done|intros range' Hr'; apply Hu; by right|].
  destruct (decide (s0 = s)) as [->|Hne].
  - right. rewrite (Hacc Ha). by rewrite (Hu range0 (or_introl eq_refl)).
  - destruct Hin as [[[= -> ->]|Hin]|Hin]; [done|by left|right]. by rewrite Hother.
Qed.

Lemma foldl_forget l r :
  let r' := foldl SlotsRecorder.forget_one r l in
  due r' = due r /\ recorded r' = recorded r /\
  (forall s, ranges r' !! s = if decide (s ∈ l) then None else ranges r !! s) /\
  (forall s span, written r' !! s = Some span -> written r !! s = Some span).
Proof.
  revert r. induction l as [|s0 l IH]; intros r; simpl.
  { by split_and!. }
  destruct (IH (SlotsRecorder.forget_one r s0)) as (Hd & Hrec & Hr & Hw).
  simpl in *. split_and!; [done|done| |].
  - intros s. rewrite Hr. unfold forget. destruct (decide (s ∈ l)) as [Hin|Hin].
    { by rewrite decide_True by by right. }
    destruct (decide (s = s0)) as [->|Hne].
    + rewrite decide_True by by left. by rewrite lookup_delete_eq.
    + rewrite decide_False by (by rewrite not_elem_of_cons). by rewrite lookup_delete_ne.
  - intros s span Hs%Hw. by apply lookup_delete_Some in Hs as [_ ?].
Qed.

Lemma finished_spec r s :
  s ∈ SlotsRecorder.finished r <->
  exists range, due r !! s = Some range /\ RangeToRecord.ended range = true /\
    written r !! s = Some (RangeToRecord.span range).
Proof.
  unfold SlotsRecorder.finished. rewrite list_elem_of_In, in_map_iff. split.
  - intros ([s' range] & <- & [Hin%entries_In [He Hw%bool_decide_eq_true]%andb_true_iff]%filter_In).
    by exists range.
  - intros (range & Hd & He & Hw). exists (s, range). split; [done|].
    apply filter_In. split; [by apply entries_In|]. simpl. rewrite He. by apply bool_decide_eq_true.
Qed.

Lemma changed_In r s range :
  In (s, range) (SlotsRecorder.changed r) <->
  due r !! s = Some range /\ written r !! s <> Some (RangeToRecord.span range).
Proof.
  unfold SlotsRecorder.changed. rewrite filter_In, entries_In. simpl.
  by rewrite negb_true_iff, bool_decide_eq_false.
Qed.

(** What a write does: a session leaves the store only with every row of its
    due, ended span accepted; and it does leave when its rows are accepted. *)
Lemma write_spec r :
  well_watched (due r) -> written_ok r ->
  let r' := SlotsRecorder.write r in
  due r' = due r /\ written_ok r' /\
  (forall row, In row (recorded r) -> In row (recorded r')) /\
  (forall s, ranges r' !! s = ranges r !! s \/
     ranges r' !! s = None /\ exists range, due r !! s = Some range /\
       RangeToRecord.ended range = true /\ all_recorded r' s (RangeToRecord.span range)) /\
  (forall s range, due r !! s = Some range -> RangeToRecord.ended range = true -> accepts s ->
     ranges r' !! s = None).
Proof.
  intros Hp Hok. unfold SlotsRecorder.write.
  destruct (write_changed_spec (SlotsRecorder.changed r) r) as (Hext & Hok1 & Hw1);
    [by intros s range [Hd _]%changed_In; eapply Hp|done|].
  set (r1 := foldl SlotsRecorder.write_one r _) in *. destruct Hext as [Hr1 Hd1 Hrec1].
  destruct (foldl_forget (SlotsRecorder.finished r1) r1) as (Hd & Hrec & Hr & Hw).
  cbv zeta in *. set (r' := foldl SlotsRecorder.forget_one r1 _) in *.
  assert (forall s span, all_recorded r1 s span -> all_recorded r' s span) as Hall
    by (intros s span Ha p Hin; rewrite Hrec; by apply Ha).
  split_and!.
  - congruence.
  - intros s span Hs%Hw. by apply Hall, Hok1.
  - intros row Hin. rewrite Hrec. by apply Hrec1.
  - intros s. rewrite Hr, Hr1. destruct (decide _) as [(range & Hdue & He & Hwr)%finished_spec|Hn]; [right|by left].
    split; [done|]. exists range. rewrite Hd1 in Hdue. split_and!; [done|done|by apply Hall, Hok1].
  - intros s range Hdue He Ha. rewrite Hr, decide_True; [done|]. apply finished_spec.
    exists range. rewrite Hd1. split_and!; [done|done|]. apply Hw1; [done| |].
    + intros range' [Hdue' _]%changed_In. congruence.
    + destruct (decide (written r !! s = Some (RangeToRecord.span range))); [by right|left].
      by apply changed_In.
Qed.

(** ** Histories *)

(** A session is not published once it has ended, nor under other protocols
    than the ones it watches. *)
Definition valid (actions : list RecorderAction) : Prop :=
  forall before s protocols span after, actions = before ++ Publish s protocols span :: after ->
    ~ In (End_ s) before /\ protocols = watched s.

Lemma valid_app actions actions' : valid (actions ++ actions') -> valid actions.
Proof.
  intros Hv before s protocols span after ->. apply (Hv before s protocols span (after ++ actions')).
  by rewrite <- app_assoc.
Qed.

Lemma valid_nil : valid [].
Proof. by intros [] ? ? ? ?. Qed.

Lemma valid_snoc actions a :
  valid actions ->
  match a with
  | Publish s protocols _ => ~ In (End_ s) actions /\ protocols = watched s
  | _ => True
  end -> valid (actions ++ [a]).
Proof.
  intros Hv Ha before s protocols span after Heq.
  destruct after as [|a' after _] using rev_ind.
  - apply app_inj_tail in Heq as [-> ->]. done.
  - change (Publish s protocols span :: after ++ [a']) with ((Publish s protocols span :: after) ++ [a']) in Heq.
    rewrite app_assoc in Heq. apply app_inj_tail in Heq as [-> _]. by apply (Hv before s protocols span after).
Qed.

(** The last span a session published. *)
Definition published (actions : list RecorderAction) s : option ReceivedSpan.t :=
  foldl (fun acc a =>
    match a with
    | Publish s' _ span => if s' =? s then Some span else acc
    | _ => acc
    end) None actions.

Lemma published_snoc actions a s :
  published (actions ++ [a]) s =
    match a with
    | Publish s' _ span => if s' =? s then Some span else published actions s
    | _ => published actions s
    end.
Proof. unfold published. by rewrite foldl_snoc. Qed.

Definition has_ended (actions : list RecorderAction) s : bool :=
  existsb (fun a => match a with End_ s' => s' =? s | _ => false end) actions.

Lemma has_ended_In actions s : has_ended actions s = true <-> In (End_ s) actions.
Proof.
  unfold has_ended. rewrite existsb_exists. split.
  - intros ([] & Hin & Ht); try done. by apply Z.eqb_eq in Ht as ->.
  - intros Hin. exists (End_ s). split; [done|apply Z.eqb_refl].
Qed.

Lemma has_ended_snoc actions a s :
  has_ended (actions ++ [a]) s =
    match a with End_ s' => (s' =? s) || has_ended actions s | _ => has_ended actions s end.
Proof.
  unfold has_ended. rewrite existsb_app. simpl. rewrite orb_false_r.
  destruct a; rewrite ?orb_false_r; try done. apply orb_comm.
Qed.

(** What the store says of a session: its last span and whether it has ended;
    once gone, its last span is accepted. *)
Record history actions r : Prop := {
  hi_ranges : forall s range, ranges r !! s = Some range ->
    published actions s = Some (RangeToRecord.span range) /\
    RangeToRecord.ended range = has_ended actions s /\ RangeToRecord.protocols range = watched s;
  hi_due : forall s range, due r !! s = Some range ->
    RangeToRecord.protocols range = watched s /\
    (RangeToRecord.ended range = true ->
       has_ended actions s = true /\ published actions s = Some (RangeToRecord.span range));
  hi_written : written_ok r;
  hi_gone : forall s span, published actions s = Some span ->
    is_Some (ranges r !! s) \/ (has_ended actions s = true /\ all_recorded r s span);
}.

Lemma history_new : history [] SlotsRecorder.new.
Proof.
  constructor; simpl; try done; intros s ? Hs; simpl in Hs; by rewrite lookup_empty in Hs.
Qed.

Lemma history_publish actions r s protocols span :
  history actions r -> ~ In (End_ s) actions -> protocols = watched s ->
  history (actions ++ [Publish s protocols span]) (recorder_step r (Publish s protocols span)).
Proof.
  intros [Hr Hd Hw Hg] Hne ->. assert (has_ended actions s = false) as Hend
    by (apply not_true_iff_false; by rewrite has_ended_In).
  constructor; simpl; unfold publish.
  - intros s' range. rewrite published_snoc, has_ended_snoc.
    destruct (Z.eqb_spec s s') as [<-|Hs].
    + rewrite lookup_insert_eq. by intros [= <-].
    + rewrite lookup_insert_ne by done. apply Hr.
  - intros s' range Hdue. destruct (Hd s' range Hdue) as [Hp He]. split; [done|]. intros Ht.
    destruct (He Ht) as [He' Hpub]. rewrite published_snoc, has_ended_snoc. split; [done|].
    destruct (Z.eqb_spec s s') as [<-|Hs]; [congruence|done].
  - exact Hw.
  - intros s' span'. rewrite published_snoc, has_ended_snoc. destruct (Z.eqb_spec s s') as [<-|Hs].
    + intros _. left. rewrite lookup_insert_eq. by eauto.
    + rewrite lookup_insert_ne by done. apply Hg.
Qed.

Lemma history_end actions r s :
  history actions r -> history (actions ++ [End_ s]) (recorder_step r (End_ s)).
Proof.
  intros [Hr Hd Hw Hg]. constructor; simpl; unfold end_.
  - intros s' range. rewrite published_snoc, has_ended_snoc. destruct (Z.eqb_spec s s') as [<-|Hs].
    + destruct (ranges r !! s) as [range0|] eqn:H0; [|congruence]. rewrite lookup_insert_eq.
      intros [= <-]. destruct (Hr s range0 H0) as (? & _ & ?). done.
    + intros Hl. apply Hr. destruct (ranges r !! s); [|done]. by rewrite lookup_insert_ne in Hl.
  - intros s' range Hdue. destruct (Hd s' range Hdue) as [Hp He]. split; [done|]. intros Ht.
    destruct (He Ht) as [He' Hpub]. rewrite published_snoc, has_ended_snoc. split; [|done].
    rewrite He'. apply orb_true_r.
  - exact Hw.
  - intros s' span. rewrite published_snoc, has_ended_snoc. intros Hp.
    destruct (Hg s' span Hp) as [Hs|[He Ha]]; [left|right; split; [rewrite He; apply orb_true_r|done]].
    destruct (ranges r !! s); [|done]. destruct (decide (s' = s)) as [->|Hne].
    + rewrite lookup_insert_eq. by eauto.
    + by rewrite lookup_insert_ne.
Qed.

Lemma history_tick actions r :
  history actions r -> history (actions ++ [Tick]) (recorder_step r Tick).
Proof.
  intros [Hr Hd Hw Hg].
  destruct (write_spec r) as (_ & Hok & Hrec & Hranges & _); [by intros s range [? _]%Hd|done|].
  unfold recorder_step, SlotsRecorder.tick. set (r' := SlotsRecorder.write r) in *.
  assert (forall s range, ranges r' !! s = Some range -> ranges r !! s = Some range) as Hsub.
  { intros s range Hs. destruct (Hranges s) as [<-|[Hn _]]; congruence. }
  constructor; simpl.
  - intros s range ?%Hsub. rewrite published_snoc, has_ended_snoc. by apply Hr.
  - intros s range (Hp & He & Hps)%Hsub%Hr. rewrite published_snoc, has_ended_snoc.
    split; [done|]. intros Ht. split; [congruence|done].
  - exact Hok.
  - intros s span. rewrite published_snoc, has_ended_snoc. intros Hp.
    destruct (Hg s span Hp) as [Hs|[He Ha]].
    + destruct (Hranges s) as [->|(_ & range & Hdue & He & Ha)]; [by left|right].
      destruct (Hd s range Hdue) as [_ Hend]. destruct (Hend He) as [? Hpub].
      assert (span = RangeToRecord.span range) as -> by congruence. done.
    + right. split; [done|]. intros p Hp'. by apply Hrec, Ha.
Qed.

Lemma history_step actions r a :
  history actions r -> valid (actions ++ [a]) -> history (actions ++ [a]) (recorder_step r a).
Proof.
  intros Hh Hv. destruct a as [s protocols span|s|].
  - destruct (Hv actions s protocols span [] eq_refl). by apply history_publish.
  - by apply history_end.
  - by apply history_tick.
Qed.

Lemma history_run actions : valid actions -> history actions (recorder_run actions).
Proof.
  induction actions as [|a actions IH] using rev_ind; intros Hv; [apply history_new|].
  unfold recorder_run. rewrite foldl_snoc. apply history_step; [|done].
  by eapply IH, valid_app.
Qed.

(** A session's last span is never lost: whatever the interleaving and
    the failures, the store still holds it, or the session has ended and every
    row of that last span has been accepted. *)
Theorem recorder_loses_nothing actions s span :
  valid actions -> published actions s = Some span ->
  let r := recorder_run actions in
  (exists range, ranges r !! s = Some range /\ RangeToRecord.span range = span /\
     RangeToRecord.ended range = has_ended actions s) \/
  (has_ended actions s = true /\ all_recorded r s span).
Proof.
  intros Hv Hp. destruct (history_run actions Hv) as [Hr _ _ Hg]. cbv zeta.
  destruct (Hg s span Hp) as [[range Hs]|?]; [left|by right].
  destruct (Hr s range Hs) as (Hpub & He & _). exists range. split_and!; [done|congruence|done].
Qed.

(** An ended session that is gone stays gone; one that is due as it stands
    stays so until it is written. *)
Definition closing r s : Prop :=
  ranges r !! s = None \/
  exists range, RangeToRecord.ended range = true /\ ranges r !! s = Some range /\ due r !! s = Some range.

Lemma closing_step actions r a s :
  history actions r -> valid (actions ++ [a]) -> has_ended actions s = true -> closing r s ->
  closing (recorder_step r a) s.
Proof.
  intros Hh Hv He Hc. destruct a as [s' protocols span|s'|]; unfold closing; simpl.
  - destruct (Hv actions s' protocols span [] eq_refl) as [Hn _].
    assert (s' <> s) by (intros ->; by apply Hn, has_ended_In).
    unfold publish. by rewrite lookup_insert_ne.
  - unfold end_. destruct (ranges r !! s') as [range0|] eqn:H0; [|done].
    destruct (decide (s' = s)) as [->|Hne]; [|by rewrite lookup_insert_ne].
    destruct Hc as [Hc|(range & Ht & Hr & Hd)]; [congruence|]. right. exists range.
    rewrite lookup_insert_eq. split_and!; [done| |done]. rewrite Hr in H0. injection H0 as <-.
    destruct range; simpl in *. by subst.
  - destruct Hh as [_ Hd Hw _].
    destruct (write_spec r) as (_ & _ & _ & Hranges & _); [by intros ? ? [? _]%Hd|done|].
    destruct (Hranges s) as [Hr|[Hn _]]; [rewrite Hr|by left].
    destruct Hc as [Hc|(range & Ht & Hrs & _)]; [by left|right; eauto].
Qed.

Lemma closing_run actions actions' s :
  valid (actions ++ actions') -> has_ended actions s = true -> closing (recorder_run actions) s ->
  closing (recorder_run (actions ++ actions')) s.
Proof.
  intros Hv He Hc. induction actions' as [|a actions' IH] using rev_ind; [by rewrite app_nil_r|].
  rewrite app_assoc in *. pose proof (valid_app _ _ Hv) as Hv'.
  unfold recorder_run. rewrite foldl_snoc. apply (closing_step (actions ++ actions')).
  - by apply history_run.
  - done.
  - apply has_ended_In, in_or_app. left. by apply has_ended_In.
  - by apply IH.
Qed.

(** Nothing is published for a session that has ended. *)
Lemma published_ended actions actions' s :
  valid (actions ++ actions') -> has_ended actions s = true ->
  published (actions ++ actions') s = published actions s.
Proof.
  intros Hv He. induction actions' as [|a actions' IH] using rev_ind; [by rewrite app_nil_r|].
  rewrite app_assoc in *. rewrite published_snoc, <- (IH (valid_app _ _ Hv)).
  destruct a as [s' protocols span| |]; try done.
  destruct (Hv (actions ++ actions') s' protocols span [] eq_refl) as [Hn _].
  destruct (Z.eqb_spec s' s) as [->|]; [|done]. destruct Hn. apply in_or_app. left.
  by apply has_ended_In.
Qed.

(** Once a session has ended, two ticks, with anything in between, empty
    its entry if the repository accepts its rows: its last span is then
    recorded for every protocol it watches. *)
Theorem recorder_two_ticks actions between s span :
  valid (actions ++ Tick :: between ++ [Tick]) -> has_ended actions s = true -> accepts s ->
  published actions s = Some span ->
  let r := recorder_run (actions ++ Tick :: between ++ [Tick]) in
  ranges r !! s = None /\ all_recorded r s span.
Proof.
  intros Hv He Ha Hp. cbv zeta.
  assert (has_ended (actions ++ [Tick]) s = true) as He1 by (rewrite has_ended_snoc; done).
  assert (valid ((actions ++ [Tick]) ++ between ++ [Tick])) as Hv1 by (by rewrite <- app_assoc).
  assert (closing (recorder_run (actions ++ [Tick])) s) as Hc.
  { pose proof (history_run _ (valid_app _ _ Hv1)) as [Hr _ _ _]. unfold closing.
    destruct (ranges (recorder_run (actions ++ [Tick])) !! s) as [range|] eqn:Hs; [right|by left].
    destruct (Hr s range Hs) as (_ & Hend & _). exists range. split_and!; [congruence|done|].
    revert Hs. unfold recorder_run. by rewrite foldl_snoc. }
  assert (valid ((actions ++ [Tick]) ++ between)) as Hv2
    by (rewrite app_assoc in Hv1; by eapply valid_app).
  pose proof (closing_run _ between s Hv2 He1 Hc) as Hc2.
  assert (ranges (recorder_run (actions ++ Tick :: between ++ [Tick])) !! s = None) as Hnone.
  { replace (actions ++ Tick :: between ++ [Tick]) with (((actions ++ [Tick]) ++ between) ++ [Tick])
      by (by rewrite <- !app_assoc).
    unfold recorder_run. rewrite foldl_snoc. fold (recorder_run ((actions ++ [Tick]) ++ between)).
    pose proof (history_run _ Hv2) as [_ Hd Hw _].
    destruct (write_spec (recorder_run ((actions ++ [Tick]) ++ between))) as (_ & _ & _ & Hr & Hf);
      [by intros ? ? [? _]%Hd|done|]. simpl.
    destruct Hc2 as [Hc2|(range & Ht & _ & Hdue)]; [|by eapply Hf].
    destruct (Hr s) as [->|[? _]]; done. }
  split; [done|].
  assert (published (actions ++ Tick :: between ++ [Tick]) s = Some span) as Hpub
    by (by rewrite published_ended).
  destruct (hi_gone _ _ (history_run _ Hv) s span Hpub) as [[? Hs]|[_ ?]]; [congruence|done].
Qed.
End Facts.

(** ** A concrete history *)

(** The first submission fails. *)
#[local] Instance flaky_repository : ObservedSlotsRepository := {
  submit history _ := match history with [] => Err (Timeout "statement timeout") | _ => Ok () end;
}.

Definition sample_watched (s : DateTime) : list Protocol := [MeteoraDammV2; MeteoraDlmm].
Definition sample_span : ReceivedSpan.t := ReceivedSpan.mk 12 1200 20 2000.
Definition sample_history : list RecorderAction :=
  [Publish 7 [MeteoraDammV2; MeteoraDlmm] (ReceivedSpan.mk 12 1200 12 1200); Tick;
   Publish 7 [MeteoraDammV2; MeteoraDlmm] sample_span; Tick; End_ 7; Tick].

Lemma sample_valid : valid sample_watched sample_history.
Proof.
  apply (valid_snoc _ (take 5 sample_history)); [|done].
  apply (valid_snoc _ (take 4 sample_history)); [|done].
  apply (valid_snoc _ (take 3 sample_history)); [|done].
  apply (valid_snoc _ (take 2 sample_history)); [|split; [naive_solver|done]].
  apply (valid_snoc _ (take 1 sample_history)); [|done].
  apply (valid_snoc _ []); [apply valid_nil|split; [naive_solver|done]].
Qed.

(** The failed submission is made again: both spans end up recorded. *)
Example sample_recorded :
  map (fun row => (ObservedSlots.protocol row, ObservedSlots.last_slot row))
    (SlotsRecorder.recorded (recorder_run (sample_history ++ [Tick; Tick]))) =
  [(MeteoraDlmm, 12); (MeteoraDammV2, 20); (MeteoraDlmm, 20)].
Proof. vm_compute. reflexivity. Qed.

Lemma recorder_loses_nothing_witness :
  let r := recorder_run sample_history in
  (exists range, SlotsRecorder.ranges r !! 7 = Some range /\ RangeToRecord.span range = sample_span /\
     RangeToRecord.ended range = true) \/
  (true = true /\ all_recorded sample_watched r 7 sample_span).
Proof.
  exact (recorder_loses_nothing sample_watched sample_history 7 sample_span sample_valid eq_refl).
Defined.

(** A repository that accepts every row. *)
Definition accepting_repository : ObservedSlotsRepository := {| submit _ _ := Ok () |}.

Lemma recorder_two_ticks_witness :
  let r := @recorder_run accepting_repository
    ([Publish 7 [MeteoraDammV2; MeteoraDlmm] sample_span; End_ 7] ++ Tick :: [] ++ [Tick]) in
  SlotsRecorder.ranges r !! 7 = None /\ all_recorded sample_watched r 7 sample_span.
Proof.
  apply (@recorder_two_ticks accepting_repository sample_watched
    [Publish 7 [MeteoraDammV2; MeteoraDlmm] sample_span; End_ 7] [] 7 sample_span); try done.
  apply (valid_snoc _ [_; _; _]); [|done]. apply (valid_snoc _ [_; _]); [|done].
  apply (valid_snoc _ [_]); [|done]. apply (valid_snoc _ []); [apply valid_nil|split; [naive_solver|done]].
Defined.
