(* ===== verification/Listener.v ===== *)
(** * The Yellowstone listener

    [src/crates/indexer/src/infra/grpc/]: subscription.rs, listener.rs and its
    submodules ending.rs, retry_budget.rs, stall_clock.rs and connector.rs.
    Instants and durations are nanoseconds, backoffs seconds. What the network
    does is data: how an attempt opens, and the events of its stream with the
    instants they arrive and are done with. *)

From stdpp Require Import sorting.
From S2P Require Import Prelude Errors External OrderedMap Domain Extractor GrpcAdapter SlotBuffer Session.

(** ** Errors ([error/grpc_listener_error.rs]) *)

Inductive GrpcListenerError : Type :=
| Credential (reason : string)
| NoSubscriptionTargets
| InvalidEndpoint (reason : string)
| RetriesExhausted (attempts : Z) (last_error : string).

(** ** [subscription.rs] *)

Module SubscribeRequestFilterTransactions.
Record t : Type := mk {
  vote : option bool;
  failed : option bool;
  account_include : list string;
}.
End SubscribeRequestFilterTransactions.

Module SubscribeRequestFilterSlots.
Record t : Type := mk {
  filter_by_commitment : option bool;
  interslot_updates : option bool;
}.
End SubscribeRequestFilterSlots.

Inductive CommitmentLevel : Type := Processed | Confirmed | Finalized.

Module SubscribeRequest.
Record t : Type := mk {
  transactions : gmap string SubscribeRequestFilterTransactions.t;
  blocks_meta : list string;                      (** the names of the filters *)
  slots : gmap string SubscribeRequestFilterSlots.t;
  commitment : option CommitmentLevel;
}.
End SubscribeRequest.

#[global] Instance Protocol_countable : Countable Protocol.
Proof.
  apply (inj_countable' (fun p => match p with MeteoraDammV2 => true | MeteoraDlmm => false end)
    (fun b : bool => if b then MeteoraDammV2 else MeteoraDlmm)).
  by intros [].
Defined.

Definition string_le (a b : string) : Prop := String.leb a b = true.
#[global] Instance string_le_dec a b : Decision (string_le a b).
Proof. unfold string_le. apply _. Defined.

Section Subscription.
Context `{Base58}.

(** The addresses of a protocol, sorted. *)
Definition addresses_of (watched : gset (Protocol * Pubkey)) (p : Protocol) : list string :=
  merge_sort string_le
    (map (fun pa => pubkey_to_string (snd pa))
      (List.filter (fun pa => bool_decide (fst pa = p)) (elements watched))).

Definition account_includes (watched : gset (Protocol * Pubkey)) : list (Protocol * list string) :=
  List.filter (fun pa => match snd pa with [] => false | _ => true end)
    (map (fun p => (p, addresses_of watched p)) all_protocols).

Definition build_request (watched : gset (Protocol * Pubkey)) :
    result SubscribeRequest.t GrpcListenerError :=
  match account_includes watched with
  | [] => Err NoSubscriptionTargets
  | includes => Ok {|
      SubscribeRequest.transactions :=
        list_to_map (map (fun pa => (Protocol_as_str (fst pa),
          SubscribeRequestFilterTransactions.mk (Some false) (Some false) (snd pa))) includes);
      SubscribeRequest.blocks_meta := [BLOCK_META_FILTER];
      SubscribeRequest.slots :=
        {[ SLOT_FILTER := SubscribeRequestFilterSlots.mk (Some true) (Some false) ]};
      SubscribeRequest.commitment := Some Finalized;
    |}
  end.

(** [listener.rs]: the protocols watched whole. *)
Definition whole_protocols (watched : gset (Protocol * Pubkey)) : list Protocol :=
  map fst (List.filter (fun pa => bool_decide (snd pa = program_id (fst pa))) (elements watched)).

Definition subscription (watched : gset (Protocol * Pubkey)) :
    result (SubscribeRequest.t * list Protocol) GrpcListenerError :=
  let? request := build_request watched in Ok (request, whole_protocols watched).
End Subscription.

(** ** [ending.rs] *)

Inductive Ending : Type :=
| EndShutdownRequested
| EndDownstreamClosed
| Unreachable (error : string)
| StreamClosed (delivered : bool)
| Failed (error : string) (delivered : bool)
| Stalled (error : string) (delivered : bool).

Inductive Verdict : Type :=
| VShutdownRequested
| ConsumerGone
| Delivered (error : option string)
| ServerFailed (error : string)
| Unanswered (error : string).

Definition verdict (e : Ending) : Verdict :=
  match e with
  | EndShutdownRequested => VShutdownRequested
  | EndDownstreamClosed => ConsumerGone
  | Unreachable error => Unanswered error
  | StreamClosed true => Delivered None
  | StreamClosed false => ServerFailed "stream closed without delivering anything"
  | Failed error true => Delivered (Some error)
  | Failed error false => ServerFailed error
  | Stalled error true => Delivered (Some error)
  | Stalled error false => Unanswered error
  end.

(** ** [retry_budget.rs] *)

Definition INITIAL_BACKOFF_SECS : Z := 1.
Definition MAX_BACKOFF_SECS : Z := 60.

Inductive Next : Type :=
| Retry (after : Z)
| Stop (r : result unit GrpcListenerError).

Module RetryBudget.
Record t : Type := mk {
  attempt : Z;          (** u32 *)
  backoff : Z;          (** u64 *)
  max_attempts : Z;     (** u32 *)
}.

Definition new (max_attempts : Z) : t := mk 0 INITIAL_BACKOFF_SECS max_attempts.

Definition churn (b : t) : t * Next :=
  (mk 0 INITIAL_BACKOFF_SECS (max_attempts b), Retry INITIAL_BACKOFF_SECS).

Definition charge (b : t) (last_error : string) : t * Next :=
  if max_attempts b <=? attempt b
  then (b, Stop (Err (RetriesExhausted (attempt b) last_error)))
  else (mk (attempt b) (Z.min (backoff b * 2) MAX_BACKOFF_SECS) (max_attempts b), Retry (backoff b)).

Definition settle (b : t) (v : Verdict) : t * Next :=
  let b := mk (attempt b + 1) (backoff b) (max_attempts b) in
  match v with
  | VShutdownRequested => (b, Stop (Ok ()))
  | ConsumerGone => (b, Stop (Ok ()))
  | Delivered _ => churn b
  | ServerFailed error | Unanswered error => charge b error
  end.
End RetryBudget.

(** ** [stall_clock.rs] *)

Definition Instant : Type := Z.
Definition STALL_TIMEOUT : TimeDelta := 30 * 10 ^ 9.

Module StallClock.
Record t : Type := mk {
  timeout : TimeDelta;
  silent : TimeDelta;
  waiting_since : option Instant;
}.

Definition new (timeout : TimeDelta) : t := mk timeout 0 None.
Definition on_wait_started (c : t) (at_ : Instant) : t := mk (timeout c) (silent c) (Some at_).
Definition on_wait_ended (c : t) (at_ : Instant) : t :=
  match waiting_since c with
  | Some since => mk (timeout c) (silent c + saturating_sub at_ since) None
  | None => c
  end.
Definition on_block_meta (c : t) : t := mk (timeout c) 0 (waiting_since c).
Definition remaining (c : t) : TimeDelta := saturating_sub (timeout c) (silent c).
End StallClock.

(** ** [connector.rs] *)

Inductive StallSite : Type :=
| Subscribe
| Stream.

Definition describe (s : StallSite) : string :=
  match s with
  | Subscribe => "subscribe never answered"
  | Stream => "no block-meta from the stream"
  end.

Definition ending_of (s : SessionState) : option Ending :=
  match s with
  | Open => None
  | DownstreamClosed => Some EndDownstreamClosed
  | ShutdownRequested => Some EndShutdownRequested
  end.

(** What comes off a stream: a shutdown, or a message, [None] the end of the
    stream; the error is the status as the listener words it. *)
Inductive Arrival : Type :=
| AShutdown
| AMessage (m : result (option SubscribeUpdate.t) string).

Module StreamEvent.
Record t : Type := mk {
  arrives : Instant;
  what : Arrival;
  handled : Instant;      (** when the loop comes back to wait *)
}.
End StreamEvent.

(** How an attempt opens: [connect], [subscribe], and what they answer. *)
Inductive Opening : Type :=
| OpenUnreachable (error : string)
| OpenShutdown
| OpenUnanswered
| OpenRefused (error : string)
| Opened (start : Instant) (events : list StreamEvent.t).

(** What an attempt meets: whether a shutdown was asked before it, the instant
    its session starts, how it opens. *)
Module AttemptEnv.
Record t : Type := mk {
  cancelled : bool;
  started_at : DateTime;
  opening : Opening;
}.
End AttemptEnv.

(** Where the loop stands: what was handed over, the shared store, and what
    each attempt came to, in order. *)
Module Progress.
Record t : Type := mk {
  emitted : list IngestedTransaction.t;
  ranges : RangesToRecord;
  log : list (Verdict * Next);
}.

Definition start : t := mk [] ∅ [].
End Progress.

Section Connector.
Context `{Chrono} `{SignatureDisplay} `{Channels}.
(** [Debug] of a duration. *)
Context (duration_string : TimeDelta -> string) (stall_timeout : TimeDelta).

Definition stalled (site : StallSite) (delivered : bool) : Ending :=
  Stalled ("stalled: " ++ describe site ++ " for " ++ duration_string stall_timeout) delivered.

Definition on_message (m : result (option SubscribeUpdate.t) string) (s : StreamSession.t)
    (ranges : RangesToRecord) (c : StallClock.t) :
    StreamSession.t * RangesToRecord * StallClock.t * option Ending :=
  match m with
  | Ok (Some update) =>
    let block_metas := StreamSession.block_metas s in
    let '(s, ranges, state) := StreamSession.handle s ranges update in
    let c := if negb (StreamSession.block_metas s =? block_metas) then StallClock.on_block_meta c else c in
    (s, ranges, c, ending_of state)
  | Ok None => (s, ranges, c, Some (StreamClosed (StreamSession.received_data s)))
  | Err status => (s, ranges, c, Some (Failed status (StreamSession.received_data s)))
  end.

(** One iteration of [read]: the three-way [select!], shutdown and message
    before the sleep when both are ready. *)
Definition read_step (s : StreamSession.t) (ranges : RangesToRecord) (c : StallClock.t)
    (now : Instant) (e : StreamEvent.t) :
    StreamSession.t * RangesToRecord * StallClock.t * option Ending :=
  let c := StallClock.on_wait_started c now in
  if now + StallClock.remaining c <? StreamEvent.arrives e
  then (s, ranges, c, Some (stalled Stream (StreamSession.received_data s)))
  else
    match StreamEvent.what e with
    | AShutdown => (s, ranges, c, Some EndShutdownRequested)
    | AMessage m =>
        on_message m s ranges (StallClock.on_wait_ended c (Z.max now (StreamEvent.arrives e)))
    end.

(** [read]; past its last event a stream is silent. *)
Fixpoint read (events : list StreamEvent.t) (s : StreamSession.t) (ranges : RangesToRecord)
    (c : StallClock.t) (now : Instant) : StreamSession.t * RangesToRecord * Ending :=
  match events with
  | [] => (s, ranges, stalled Stream (StreamSession.received_data s))
  | e :: events =>
    let '(s, ranges, c, ending) := read_step s ranges c now e in
    match ending with
    | Some ending => (s, ranges, ending)
    | None => read events s ranges c (StreamEvent.handled e)
    end
  end.

(** One attempt; the session, dropped at its end, ends its range. *)
Definition attempt (o : Opening) (received : ReceivedSlots.t) (ranges : RangesToRecord)
    (emitted : list IngestedTransaction.t) :
    list IngestedTransaction.t * RangesToRecord * Ending :=
  match o with
  | OpenUnreachable error => (emitted, ReceivedSlots.drop received ranges, Unreachable error)
  | OpenShutdown => (emitted, ReceivedSlots.drop received ranges, EndShutdownRequested)
  | OpenUnanswered => (emitted, ReceivedSlots.drop received ranges, stalled Subscribe false)
  | OpenRefused error => (emitted, ReceivedSlots.drop received ranges, Failed error false)
  | Opened start events =>
    let s := StreamSession.new received emitted in
    let '(s, ranges, ending) := read events s ranges (StallClock.new stall_timeout) start in
    (StreamSession.emitted s, ReceivedSlots.drop (StreamSession.received_slots s) ranges, ending)
  end.

(** ** [listener.rs] *)

(** [attempts]; [None] while the loop would still go on. *)
Fixpoint attempts `{Base58} (watched : gset (Protocol * Pubkey)) (envs : list AttemptEnv.t)
    (budget : RetryBudget.t) (p : Progress.t) :
    Progress.t * option (result unit GrpcListenerError) :=
  match envs with
  | [] => (p, None)
  | e :: envs =>
    if AttemptEnv.cancelled e then (p, Some (Ok ()))
    else
      match subscription watched with
      | Err error => (p, Some (Err error))
      | Ok (_, protocols) =>
        let received := ReceivedSlots.new (AttemptEnv.started_at e) protocols in
        let '(emitted, ranges, ending) :=
          attempt (AttemptEnv.opening e) received (Progress.ranges p) (Progress.emitted p) in
        let (budget, next) := RetryBudget.settle budget (verdict ending) in
        let p := Progress.mk emitted ranges (Progress.log p ++ [(verdict ending, next)]) in
        match next with
        | Retry _ => attempts watched envs budget p
        | Stop r => (p, Some r)
        end
      end
  end.

Definition run_listener `{Base58} (watched : gset (Protocol * Pubkey)) (max_attempts : Z)
    (envs : list AttemptEnv.t) : Progress.t * option (result unit GrpcListenerError) :=
  attempts watched envs (RetryBudget.new max_attempts) Progress.start.
End Connector.
