(* ===== verification/ListenerFacts.v ===== *)
(** * The listener's patience and its promises

    The retry budget of [Listener.v] over a whole run, the stall clock over a
    stream, what the listener hands over, and what it subscribes to. *)

From S2P Require Import Prelude Errors External OrderedMap Domain Extractor GrpcAdapter SlotBuffer.
From S2P Require Import Session SessionFacts RecorderFacts Listener Reference.

(** ** The retry budget *)

Definition failure_of (v : Verdict) : option string :=
  match v with
  | ServerFailed error | Unanswered error => Some error
  | _ => None
  end.

(** The failing attempts a log ends with. *)
Definition streak (log : list (Verdict * Next)) : Z :=
  foldl (fun n vn => match failure_of (fst vn) with Some _ => n + 1 | None => 0 end) 0 log.

Lemma streak_snoc log vn :
  streak (log ++ [vn]) = match failure_of (fst vn) with Some _ => streak log + 1 | None => 0 end.
Proof. unfold streak. by rewrite foldl_snoc. Qed.

Lemma streak_nonneg log : 0 <= streak log.
Proof.
  induction log as [|vn log IH] using rev_ind; [done|]. rewrite streak_snoc.
  destruct (failure_of _); lia.
Qed.

(** What should follow a verdict, after [n] failing attempts in a row. *)
Definition expected (m n : Z) (v : Verdict) : Next :=
  match v with
  | VShutdownRequested | ConsumerGone => Stop (Ok ())
  | Delivered _ => Retry 1
  | ServerFailed error | Unanswered error =>
      if Z.max 1 m <=? n + 1 then Stop (Err (RetriesExhausted (n + 1) error))
      else Retry (Z.min 60 (2 ^ n))
  end.

(** The budget after [n] failing attempts in a row. *)
Definition budget_after (m n : Z) : RetryBudget.t := RetryBudget.mk n (Z.min 60 (2 ^ n)) m.

Lemma min_double n : 0 <= n -> Z.min (Z.min 60 (2 ^ n) * 2) 60 = Z.min 60 (2 ^ (n + 1)).
Proof. intros Hn. rewrite Z.pow_add_r by lia. pose proof (Z.pow_pos_nonneg 2 n). lia. Qed.

Lemma settle_expected m n v :
  0 <= m -> 0 <= n -> n < Z.max 1 m ->
  let '(b, next) := RetryBudget.settle (budget_after m n) v in
  next = expected m n v /\
  (forall after, next = Retry after ->
     let n' := match failure_of v with Some _ => n + 1 | None => 0 end in
     b = budget_after m n' /\ n' < Z.max 1 m).
Proof.
  intros Hm Hn Hlt. unfold RetryBudget.settle, RetryBudget.charge, RetryBudget.churn.
  unfold budget_after, MAX_BACKOFF_SECS, INITIAL_BACKOFF_SECS. simpl.
  destruct v as [| |error|error|error]; simpl; try done.
  - split; [done|]. intros _ _. split; [done|lia].
  - destruct (Z.leb_spec m (n + 1)), (Z.leb_spec (Z.max 1 m) (n + 1)); try lia; [done|].
    split; [done|]. intros _ _. rewrite min_double by done. split; [done|lia].
  - destruct (Z.leb_spec m (n + 1)), (Z.leb_spec (Z.max 1 m) (n + 1)); try lia; [done|].
    split; [done|]. intros _ _. rewrite min_double by done. split; [done|lia].
Qed.

Section Facts.
Context `{Chrono} `{SignatureDisplay} `{Channels} `{Base58}.
Context (duration_string : TimeDelta -> string) (stall_timeout : TimeDelta).
Implicit Types (s : StreamSession.t) (c : StallClock.t).

Notation run watched m envs := (run_listener duration_string stall_timeout watched m envs).

(** Every entry of a log is what the budget says. *)
Definition log_ok (m : Z) (log : list (Verdict * Next)) : Prop :=
  forall before v next after, log = before ++ (v, next) :: after ->
    next = expected m (streak before) v /\ streak before < Z.max 1 m /\
    (after <> [] -> exists wait, next = Retry wait).

Lemma log_ok_snoc m log v next :
  log_ok m log -> (forall v' next', last log = Some (v', next') -> exists wait, next' = Retry wait) ->
  next = expected m (streak log) v -> streak log < Z.max 1 m -> log_ok m (log ++ [(v, next)]).
Proof.
  intros Hlog Hlast Hn Hs before v' next' after Heq.
  destruct after as [|a after _] using rev_ind.
  - apply app_inj_tail in Heq as [-> [= -> ->]]. done.
  - change ((v', next') :: after ++ [a]) with (((v', next') :: after) ++ [a]) in Heq.
    rewrite app_assoc in Heq. apply app_inj_tail in Heq as [-> _].
    destruct (Hlog before v' next' after eq_refl) as (He & Hlt & Hr). split_and!; [done..|].
    intros _. destruct after as [|a' after _] using rev_ind; [|by apply Hr; destruct after].
    apply (Hlast v'). by rewrite last_snoc.
Qed.

Lemma subscription_Err watched error : subscription watched = Err error -> error = NoSubscriptionTargets.
Proof.
  unfold subscription, build_request. destruct (account_includes watched); simpl; [|done].
  by intros [= <-].
Qed.

(** How the loop ends, in terms of its log. *)
Definition outcome_ok (m : Z) (attempts : nat) (log : list (Verdict * Next))
    (outcome : option (result unit GrpcListenerError)) : Prop :=
  match outcome with
  | None => length log = attempts /\ streak log < Z.max 1 m
  | Some (Err (RetriesExhausted a error)) => a = Z.max 1 m /\ streak log = a /\
      exists v next, last log = Some (v, next) /\ failure_of v = Some error
  | Some _ => True
  end.

(** A stop is a requested one, or the last failure of a full streak. *)
Lemma outcome_stop m k log v r :
  0 <= streak log -> streak log < Z.max 1 m -> expected m (streak log) v = Stop r ->
  outcome_ok m k (log ++ [(v, Stop r)]) (Some r).
Proof.
  intros Hn Hlt He. unfold outcome_ok. rewrite streak_snoc, last_snoc. simpl.
  destruct v as [| |error|error|error]; simpl in *; try done; try (injection He as <-; done).
  - destruct (Z.leb_spec (Z.max 1 m) (streak log + 1)); [|done]. injection He as <-.
    split_and!; [lia|lia|by eauto].
  - destruct (Z.leb_spec (Z.max 1 m) (streak log + 1)); [|done]. injection He as <-.
    split_and!; [lia|lia|by eauto].
Qed.

Lemma attempts_spec watched m envs n p :
  0 <= m -> n = streak (Progress.log p) -> n < Z.max 1 m -> log_ok m (Progress.log p) ->
  (forall v next, last (Progress.log p) = Some (v, next) -> exists wait, next = Retry wait) ->
  let '(p', outcome) := attempts duration_string stall_timeout watched envs (budget_after m n) p in
  log_ok m (Progress.log p') /\
  outcome_ok m (length (Progress.log p) + length envs) (Progress.log p') outcome.
Proof.
  intros Hm. revert n p. induction envs as [|e envs IH]; intros n p -> Hlt Hlog Hlast; simpl.
  { split; [done|]. split; [lia|done]. }
  destruct (AttemptEnv.cancelled e); [by split|].
  destruct (subscription watched) as [[request protocols]|error] eqn:Hsub.
  2: { split; [done|]. by rewrite (subscription_Err _ _ Hsub). }
  destruct (attempt _ _ _ _ _ _) as [[emitted ranges] ending].
  pose proof (streak_nonneg (Progress.log p)) as Hn.
  pose proof (settle_expected m _ (verdict ending) Hm Hn Hlt) as Hs.
  destruct (RetryBudget.settle _ _) as [b next]. destruct Hs as [Hnext Hretry].
  assert (log_ok m (Progress.log p ++ [(verdict ending, next)])) as Hlog' by (by apply log_ok_snoc).
  destruct next as [wait|r].
  - destruct (Hretry wait eq_refl) as [-> Hlt'].
    specialize (IH _ (Progress.mk emitted ranges (Progress.log p ++ [(verdict ending, Retry wait)])) eq_refl).
    simpl in IH. rewrite streak_snoc in IH. simpl in IH.
    specialize (IH Hlt' Hlog'). rewrite last_snoc in IH.
    destruct (attempts _ _ _ _ _ _) as [p' outcome].
    destruct IH as [Hl Ho]; [intros v nx [= <- <-]; by eauto|].
    split; [done|]. rewrite length_app in Ho. simpl in Ho.
    by replace (length (Progress.log p) + S (length envs))%nat
      with (length (Progress.log p) + 1 + length envs)%nat by lia.
  - split; [done|]. apply outcome_stop; [done|done|by symmetry].
Qed.

(** Whatever the attempts come to, the listener waits one second after
    a stream that delivered, and 1, 2, 4, ... seconds, at most 60, within a run
    of failing attempts; it gives up exactly when [max_attempts] of them in a
    row have failed (one, when the setting is 0), naming their number and the
    last error; while it runs every attempt is accounted for and no such run
    has been reached. *)
Theorem listener_follows_budget watched m envs :
  0 <= m ->
  let '(p, outcome) := run watched m envs in
  log_ok m (Progress.log p) /\ outcome_ok m (length envs) (Progress.log p) outcome.
Proof.
  intros Hm. unfold run_listener. change (RetryBudget.new m) with (budget_after m 0).
  apply (attempts_spec watched m envs 0 Progress.start); [done|done|lia| |done].
  by intros [].
Qed.

(** ** The stall clock *)

(** The session, the store and the clock once some events are read, when none
    of them ends the reading. *)
Fixpoint read_on (events : list StreamEvent.t) s (ranges : RangesToRecord) c (now : Instant) :
    option (StreamSession.t * RangesToRecord * StallClock.t * Instant) :=
  match events with
  | [] => Some (s, ranges, c, now)
  | e :: events =>
    let '(s, ranges, c, ending) := read_step duration_string stall_timeout s ranges c now e in
    match ending with
    | Some _ => None
    | None => read_on events s ranges c (StreamEvent.handled e)
    end
  end.

Definition is_block_meta (e : StreamEvent.t) : bool :=
  match StreamEvent.what e with
  | AMessage (Ok (Some u)) =>
      match SubscribeUpdate.update_oneof u with Some (UBlockMeta _) => true | _ => false end
  | _ => false
  end.

(** The time spent waiting on the server since the last block-meta: handling
    what it sent counts for nothing. *)
Fixpoint silence (acc : TimeDelta) (now : Instant) (events : list StreamEvent.t) : TimeDelta :=
  match events with
  | [] => acc
  | e :: events =>
      silence (if is_block_meta e then 0 else acc + Z.max 0 (StreamEvent.arrives e - now))
        (StreamEvent.handled e) events
  end.

Definition clock_at (silent : TimeDelta) c : Prop :=
  StallClock.timeout c = stall_timeout /\ StallClock.silent c = silent.

Lemma deliver_metas s r :
  StreamSession.block_metas (StreamSession.deliver s (Resolved.payload r) (Resolved.at_ r)).1 =
  StreamSession.block_metas s.
Proof. by destruct (deliver_core s r). Qed.

Lemma deliver_all_metas s released :
  StreamSession.block_metas (StreamSession.deliver_all s released).1 = StreamSession.block_metas s.
Proof. by destruct (deliver_all_core s released). Qed.

(** The count of block-metas moves with them only. *)
Lemma handle_metas s ranges u :
  StreamSession.block_metas (StreamSession.handle s ranges u).1.1 =
  StreamSession.block_metas s +
    (match SubscribeUpdate.update_oneof u with Some (UBlockMeta _) => 1 | _ => 0 end).
Proof.
  unfold StreamSession.handle.
  destruct (SubscribeUpdate.update_oneof u) as [[t|meta|status| | |]|]; simpl; try lia.
  - unfold StreamSession.on_transaction. destruct (protocol_of _); [|simpl; lia].
    destruct (SlotProgress.on_transaction _ _) as [pr [r|]]; [|simpl; lia].
    set (s0 := StreamSession.set_slots _ pr). pose proof (deliver_metas s0 r) as Hd.
    destruct (StreamSession.deliver _ _ _). simpl in *. lia.
  - unfold StreamSession.on_block_meta. simpl.
    destruct (SlotProgress.on_block_meta _ meta) as [pr released].
    destruct (block_time meta).
    + destruct (ReceivedSlots.on_block_meta _ _ _ _ _) as [rc ranges'].
      set (s0 := StreamSession.set_received_slots _ rc). pose proof (deliver_all_metas s0 released) as Hd.
      destruct (StreamSession.deliver_all _ _). simpl in *. lia.
    + set (s0 := StreamSession.set_slots _ pr). pose proof (deliver_all_metas s0 released) as Hd.
      destruct (StreamSession.deliver_all _ _). simpl in *. lia.
  - destruct (SlotProgress.on_slot_status _ status) as [pr released].
    set (s0 := StreamSession.set_slots _ pr). pose proof (deliver_all_metas s0 released) as Hd.
    destruct (StreamSession.deliver_all _ _). simpl in *. lia.
  - unfold StreamSession.answer. destruct (try_answer _); simpl; lia.
Qed.

(** One event read without an ending: within the patience left, and the clock
    counts the wait, or starts over on a block-meta. *)
Lemma read_step_clock s ranges c now e silent :
  clock_at silent c -> 0 <= silent ->
  let wait := Z.max 0 (StreamEvent.arrives e - now) in
  let '(_, _, c', ending) := read_step duration_string stall_timeout s ranges c now e in
  match ending with
  | None => clock_at (if is_block_meta e then 0 else silent + wait) c'
  | Some _ => True
  end /\
  (wait <= saturating_sub stall_timeout silent \/
   ending = Some (stalled duration_string stall_timeout Stream (StreamSession.received_data s))).
Proof.
  intros [Ht Hs] Hpos. cbv zeta. unfold read_step, StallClock.remaining. simpl.
  rewrite Ht, Hs. unfold saturating_sub.
  destruct (Z.ltb_spec (now + Z.max 0 (stall_timeout - silent)) (StreamEvent.arrives e)) as [Hlt|Hge];
    [by split; [|right]|].
  unfold is_block_meta. destruct (StreamEvent.what e) as [|[[u|]|status]]; simpl; try (split; [done|left; lia]).
  pose proof (handle_metas s ranges u) as Hm.
  destruct (StreamSession.handle s ranges u) as [[s' ranges'] state]. simpl in Hm.
  split; [|left; lia]. destruct state; simpl; try done.
  unfold clock_at. rewrite Hm.
  destruct (SubscribeUpdate.update_oneof u) as [[]|];
    match goal with |- context [Z.eqb ?a ?b] => destruct (Z.eqb_spec a b); try lia end;
    simpl; split; try done; unfold saturating_sub; lia.
Qed.

(** While events are read, the clock is the silence, within the timeout. *)
Lemma read_on_clock events s ranges c now silent :
  clock_at silent c -> 0 <= silent <= stall_timeout ->
  match read_on events s ranges c now with
  | Some (_, _, c', _) => clock_at (silence silent now events) c' /\
      0 <= silence silent now events <= stall_timeout
  | None => True
  end.
Proof.
  revert s ranges c now silent. induction events as [|e events IH]; intros s ranges c now silent Hc Hp;
    cbn [read_on silence]; [done|].
  pose proof (read_step_clock s ranges c now e silent Hc (proj1 Hp)) as Hs.
  destruct (read_step _ _ s ranges c now e) as [[[s' ranges'] c'] [ending|]]; [done|].
  destruct Hs as [Hc' [Hw|?]]; [|done]. apply IH; [done|].
  unfold saturating_sub in Hw. destruct (is_block_meta e); lia.
Qed.

Lemma on_message_not_stalled m s ranges c error delivered :
  (on_message m s ranges c).2 <> Some (Stalled error delivered).
Proof.
  destruct m as [[u|]|status]; simpl; try done.
  destruct (StreamSession.handle s ranges u) as [[s' ranges'] state]. by destruct state.
Qed.

(** One event, by the clock: past the patience left it is a stall. *)
Lemma read_step_stall s ranges c now e silent :
  clock_at silent c -> 0 <= silent <= stall_timeout ->
  let wait := Z.max 0 (StreamEvent.arrives e - now) in
  let ending := (read_step duration_string stall_timeout s ranges c now e).2 in
  (stall_timeout < silent + wait ->
     ending = Some (stalled duration_string stall_timeout Stream (StreamSession.received_data s))) /\
  (silent + wait <= stall_timeout -> forall error delivered, ending <> Some (Stalled error delivered)).
Proof.
  intros [Ht Hs] Hpos. cbv zeta. unfold read_step, StallClock.remaining. simpl.
  rewrite Ht, Hs. unfold saturating_sub.
  destruct (Z.ltb_spec (now + Z.max 0 (stall_timeout - silent)) (StreamEvent.arrives e)) as [Hlt|Hge].
  - split; [done|lia].
  - split; [lia|]. intros _ error delivered. destruct (StreamEvent.what e); [done|].
    apply on_message_not_stalled.
Qed.

Lemma read_split events s ranges c now :
  let '(_, _, ending) := read duration_string stall_timeout events s ranges c now in
  exists before after sb rb cb nb,
    events = before ++ after /\ read_on before s ranges c now = Some (sb, rb, cb, nb) /\
    match after with
    | [] => ending = stalled duration_string stall_timeout Stream (StreamSession.received_data sb)
    | e :: _ => (read_step duration_string stall_timeout sb rb cb nb e).2 = Some ending
    end.
Proof.
  revert s ranges c now. induction events as [|e events IH]; intros s ranges c now; simpl.
  { exists [], [], s, ranges, c, now. done. }
  destruct (read_step _ _ s ranges c now e) as [[[s1 ranges1] c1] [ending|]] eqn:Hstep.
  - exists [], (e :: events), s, ranges, c, now. split_and!; [done..|]. by rewrite Hstep.
  - specialize (IH s1 ranges1 c1 (StreamEvent.handled e)).
    destruct (read _ _ events s1 ranges1 c1 _) as [[s' ranges'] ending].
    destruct IH as (before & after & sb & rb & cb & nb & -> & Hr & Ha).
    exists (e :: before), after, sb, rb, cb, nb. split_and!; [done| |done].
    simpl. by rewrite Hstep.
Qed.

(** A stream is ended as stalled exactly when the time spent waiting on
    the server since its last block-meta exceeds the timeout: time spent
    handling messages, a full pipeline included, never counts, other messages
    do not reset it, and a message that arrives in time is read first. *)
Theorem read_stalls_on_silence events s ranges now :
  0 <= stall_timeout ->
  let '(_, _, ending) :=
    read duration_string stall_timeout events s ranges (StallClock.new stall_timeout) now in
  exists before after sb rb cb nb,
    events = before ++ after /\
    read_on before s ranges (StallClock.new stall_timeout) now = Some (sb, rb, cb, nb) /\
    match after with
    | [] => ending = stalled duration_string stall_timeout Stream (StreamSession.received_data sb)
    | e :: _ =>
      let quiet := silence 0 now before + Z.max 0 (StreamEvent.arrives e - nb) in
      (stall_timeout < quiet ->
         ending = stalled duration_string stall_timeout Stream (StreamSession.received_data sb)) /\
      (quiet <= stall_timeout -> forall error delivered, ending <> Stalled error delivered)
    end.
Proof.
  intros Hpos. pose proof (read_split events s ranges (StallClock.new stall_timeout) now) as Hr.
  destruct (read _ _ _ _ _ _ _) as [[s' ranges'] ending].
  destruct Hr as (before & after & sb & rb & cb & nb & -> & Hon & Ha).
  exists before, after, sb, rb, cb, nb. split_and!; [done..|].
  destruct after as [|e after]; [done|]. cbv zeta.
  pose proof (read_on_clock before s ranges (StallClock.new stall_timeout) now 0 (conj eq_refl eq_refl)
    ltac:(lia)) as Hc. rewrite Hon in Hc. destruct Hc as [Hc Hb].
  destruct (read_step_stall sb rb cb nb e _ Hc Hb) as [H1' H2']. rewrite Ha in H1', H2'. split.
  - intros Hq. specialize (H1' Hq). congruence.
  - intros Hq error delivered Heq. apply (H2' Hq error delivered). by rewrite Heq.
Qed.

(** ** What the listener hands over *)

Definition updates_of (events : list StreamEvent.t) : list SubscribeUpdate.t :=
  omap (fun e => match StreamEvent.what e with AMessage (Ok (Some u)) => Some u | _ => None end) events.

(** Reading a stream is running its session on some of its updates. *)
Lemma read_updates events s ranges c now :
  let '(s', _, _) := read duration_string stall_timeout events s ranges c now in
  exists us, us `prefix_of` updates_of events /\ (run_updates s ranges us).1.1 = s'.
Proof.
  revert s ranges c now. induction events as [|e events IH]; intros s ranges c now; simpl.
  { exists []. split; [apply prefix_nil|done]. }
  unfold read_step. destruct (_ <? _); [exists []; split; [apply prefix_nil|done]|].
  destruct (StreamEvent.what e) as [|[[u|]|status]]; simpl;
    try (exists []; split; [apply prefix_nil|done]).
  destruct (StreamSession.handle s ranges u) as [[s1 ranges1] state] eqn:Hu.
  destruct state; simpl.
  - match goal with |- context [read _ _ events s1 ranges1 ?c1 ?n] => specialize (IH s1 ranges1 c1 n) end.
    destruct (read _ _ events s1 ranges1 _ _) as [[s' ranges'] ending].
    destruct IH as (us & Hp & Hrun). exists (u :: us). split; [by apply prefix_cons|].
    simpl. by rewrite Hu.
  - exists [u]. split; [apply prefix_cons, prefix_nil|]. simpl. by rewrite Hu.
  - exists [u]. split; [apply prefix_cons, prefix_nil|]. simpl. by rewrite Hu.
Qed.

Lemma accounted_prefix us us' i : us `prefix_of` us' -> accounted us i -> accounted us' i.
Proof.
  intros [tail ->] (f & u & a & k & fs & fm & st & me & Ha). exists f, u, a, k, fs, fm, st, me.
  destruct_and! Ha. split_and!; try done; apply in_or_app; by left.
Qed.

(** What an attempt hands over comes from the updates of its stream. *)
Definition attempt_accounts (o : Opening) (i : IngestedTransaction.t) : Prop :=
  match o with
  | Opened _ events => accounted (updates_of events) i
  | _ => False
  end.

Lemma attempt_emitted o received ranges emitted :
  let '(emitted', _, _) := attempt duration_string stall_timeout o received ranges emitted in
  exists sent, emitted' = emitted ++ sent /\ Forall (attempt_accounts o) sent.
Proof.
  destruct o as [error| | |error|start events]; simpl; try (exists []; by rewrite app_nil_r).
  pose proof (read_updates events (StreamSession.new received emitted) ranges (StallClock.new stall_timeout) start)
    as Hr. destruct (read _ _ _ _ _ _ _) as [[s ranges'] ending].
  destruct Hr as (us & Hp & Hs). pose proof (run_updates_accounted received emitted ranges us) as Ha.
  destruct (run_updates _ ranges us) as [[s1 r1] st]. simpl in Hs. subst s1.
  destruct Ha as (sent & He & Hf). exists sent. split; [done|].
  eapply Forall_impl; [exact Hf|]. intros i. by apply accounted_prefix.
Qed.

(** Every session over, its range is ended: reading only publishes its own. *)
Definition all_ended (ranges : RangesToRecord) : Prop :=
  forall session range, ranges !! session = Some range -> RangeToRecord.ended range = true.

Lemma on_block_meta_other r ranges slot at_ sb :
  let '(r', ranges') := ReceivedSlots.on_block_meta r ranges slot at_ sb in
  ReceivedSlots.started_at r' = ReceivedSlots.started_at r /\
  forall session, session <> ReceivedSlots.started_at r -> ranges' !! session = ranges !! session.
Proof.
  unfold ReceivedSlots.on_block_meta. destruct (ReceivedSlots.protocols r); [done|].
  destruct sb as [sb|]; [|done]. destruct (split_off _ sb) as [[|e0 rest] still]; [done|].
  destruct (ReceivedSlots.include_all _ _); [|done]. simpl. split; [done|]. intros session Hs.
  unfold publish. by rewrite lookup_insert_ne.
Qed.

Lemma handle_other s ranges u :
  let '(s', ranges', _) := StreamSession.handle s ranges u in
  let session := ReceivedSlots.started_at (StreamSession.received_slots s) in
  ReceivedSlots.started_at (StreamSession.received_slots s') = session /\
  forall other, other <> session -> ranges' !! other = ranges !! other.
Proof.
  pose proof (handle_received s ranges u) as Hh.
  destruct (StreamSession.handle s ranges u) as [[s' ranges'] state].
  destruct (timed_meta u) as [[slot at_]|]; [|by destruct Hh as [-> ->]].
  pose proof (on_block_meta_other (StreamSession.received_slots s) ranges slot at_
    (SlotProgress.settled_below (StreamSession.slots s'))) as Ho.
  by rewrite <- Hh in Ho.
Qed.

Lemma read_other events s ranges c now :
  let '(s', ranges', _) := read duration_string stall_timeout events s ranges c now in
  let session := ReceivedSlots.started_at (StreamSession.received_slots s) in
  ReceivedSlots.started_at (StreamSession.received_slots s') = session /\
  forall other, other <> session -> ranges' !! other = ranges !! other.
Proof.
  revert s ranges c now. induction events as [|e events IH]; intros s ranges c now; simpl; [done|].
  unfold read_step. destruct (_ <? _); [done|].
  destruct (StreamEvent.what e) as [|[[u|]|status]]; simpl; try done.
  pose proof (handle_other s ranges u) as Hh.
  destruct (StreamSession.handle s ranges u) as [[s1 ranges1] state]. destruct state; simpl; try done.
  match goal with |- context [read _ _ events s1 ranges1 ?c1 ?n] => specialize (IH s1 ranges1 c1 n) end.
  destruct (read _ _ events s1 ranges1 _ _) as [[s' ranges'] ending].
  destruct IH as [Hst Hoth], Hh as [Hst1 Hoth1]. rewrite Hst1 in *. split; [done|].
  intros other Hne. rewrite Hoth by done. by apply Hoth1.
Qed.

Lemma end_all_ended ranges session :
  (forall other range, other <> session -> ranges !! other = Some range -> RangeToRecord.ended range = true) ->
  all_ended (end_ ranges session).
Proof.
  intros Ho other range. unfold end_. destruct (ranges !! session) as [range0|] eqn:Hs.
  - destruct (decide (other = session)) as [->|Hne]; [rewrite lookup_insert_eq; by intros [= <-]|].
    rewrite lookup_insert_ne by done. by apply Ho.
  - intros Hr. apply (Ho other); [|done]. intros ->. unfold DateTime in *. congruence.
Qed.

Lemma attempt_ends o started protocols ranges emitted :
  all_ended ranges ->
  all_ended (attempt duration_string stall_timeout o (ReceivedSlots.new started protocols) ranges emitted).1.2.
Proof.
  intros Ha. unfold attempt, ReceivedSlots.drop.
  destruct o as [error| | |error|start events]; simpl; try (apply end_all_ended; intros; by eapply Ha).
  pose proof (read_other events (StreamSession.new (ReceivedSlots.new started protocols) emitted) ranges
    (StallClock.new stall_timeout) start) as Hr.
  destruct (read _ _ _ _ _ _ _) as [[s ranges'] ending]. simpl in *. destruct Hr as [-> Hoth].
  apply end_all_ended. intros other range Hne Hl. rewrite Hoth in Hl by done. by eapply Ha.
Qed.

Lemma attempts_keep watched envs0 envs budget p :
  (forall e, In e envs -> In e envs0) -> all_ended (Progress.ranges p) ->
  Forall (fun i => exists e, In e envs0 /\ attempt_accounts (AttemptEnv.opening e) i) (Progress.emitted p) ->
  let '(p', _) := attempts duration_string stall_timeout watched envs budget p in
  all_ended (Progress.ranges p') /\
  Forall (fun i => exists e, In e envs0 /\ attempt_accounts (AttemptEnv.opening e) i) (Progress.emitted p').
Proof.
  revert budget p. induction envs as [|e envs IH]; intros budget p Hin Hend Hacc; simpl; [done|].
  destruct (AttemptEnv.cancelled e); [done|].
  destruct (subscription watched) as [[request protocols]|]; [|done].
  pose proof (attempt_emitted (AttemptEnv.opening e) (ReceivedSlots.new (AttemptEnv.started_at e) protocols)
    (Progress.ranges p) (Progress.emitted p)) as He.
  pose proof (attempt_ends (AttemptEnv.opening e) (AttemptEnv.started_at e) protocols
    (Progress.ranges p) (Progress.emitted p) Hend) as Hends.
  destruct (attempt _ _ _ _ _ _) as [[emitted ranges] ending]. simpl in Hends.
  destruct He as (sent & -> & Hf).
  assert (Forall (fun i => exists e, In e envs0 /\ attempt_accounts (AttemptEnv.opening e) i)
    (Progress.emitted p ++ sent)) as Hacc'.
  { apply Forall_app_2; [done|]. eapply Forall_impl; [exact Hf|]. intros i Hi. exists e.
    split; [apply Hin; by left|done]. }
  destruct (RetryBudget.settle _ _) as [b [wait|r]]; [|done].
  apply IH; [|done|done]. intros e' He'. apply Hin. by right.
Qed.

(** Over a whole run, reconnections included, every transaction handed
    to the pipeline is accounted for by the stream of one attempt (received,
    finalized in an admitted bank, timed by a block-meta), and once the loop is
    between attempts or over, no session's range is left open. *)
Theorem listener_hands_over_finalized watched m envs :
  let '(p, _) := run watched m envs in
  Forall (fun i => exists e, In e envs /\ attempt_accounts (AttemptEnv.opening e) i) (Progress.emitted p) /\
  all_ended (Progress.ranges p).
Proof.
  unfold run_listener.
  pose proof (attempts_keep watched envs envs (RetryBudget.new m) Progress.start (fun e He => He)) as Ha.
  destruct (attempts _ _ _ _ _ _) as [p outcome].
  destruct Ha; [intros session range Hl; unfold DateTime in *; simpl in Hl; by rewrite lookup_empty in Hl|done|done].
Qed.

(** ** The subscription *)

Lemma parse_protocol p : protocol_of [Protocol_as_str p] = Some p.
Proof. by destruct p. Qed.

Lemma protocol_str_inj p q : Protocol_as_str p = Protocol_as_str q -> p = q.
Proof. by destruct p, q. Qed.

Lemma addresses_of_In watched p a :
  In a (addresses_of watched p) <-> exists k, (p, k) ∈ watched /\ a = pubkey_to_string k.
Proof.
  unfold addresses_of. rewrite <- list_elem_of_In, sorting.merge_sort_Permutation, list_elem_of_In, in_map_iff.
  split.
  - intros ([q k] & <- & [Hin Hq%bool_decide_eq_true]%filter_In). simpl in *. subst q. exists k.
    split; [|done]. by apply elem_of_elements, list_elem_of_In.
  - intros (k & Hk & ->). exists (p, k). split; [done|]. apply filter_In.
    split; [by apply list_elem_of_In, elem_of_elements|]. by apply bool_decide_eq_true.
Qed.

Lemma includes_In watched p l :
  In (p, l) (account_includes watched) <-> l = addresses_of watched p /\ l <> [].
Proof.
  unfold account_includes. rewrite filter_In, in_map_iff. simpl. split.
  - intros [(q & [= -> <-] & _) Hl]. split; [done|]. by destruct (addresses_of watched p).
  - intros [-> Hne]. split; [|by destruct (addresses_of watched p)].
    exists p. split; [done|]. destruct p; simpl; auto.
Qed.

Lemma includes_NoDup watched : NoDup (map (fun pa : Protocol * list string => Protocol_as_str pa.1) (account_includes watched)).
Proof.
  unfold account_includes, all_protocols. simpl.
  destruct (addresses_of watched MeteoraDammV2), (addresses_of watched MeteoraDlmm); simpl;
    repeat constructor; rewrite ?list_elem_of_In; simpl; naive_solver.
Qed.

(** The subscription is refused exactly when nothing is watched.
    Otherwise it has one transaction filter per protocol watched, named so
    that an update matching it is routed back to that protocol, listing the
    protocol's watched addresses and no others and leaving votes and failed
    transactions out; the block-meta and slot filters route to no protocol. *)
Theorem subscription_routes watched :
  match build_request watched with
  | Err error => error = NoSubscriptionTargets /\ watched = ∅
  | Ok request =>
      (forall name filter, SubscribeRequest.transactions request !! name = Some filter ->
         exists p, name = Protocol_as_str p /\ protocol_of [name] = Some p /\
           SubscribeRequestFilterTransactions.vote filter = Some false /\
           SubscribeRequestFilterTransactions.failed filter = Some false /\
           forall a, In a (SubscribeRequestFilterTransactions.account_include filter) <->
             exists k, (p, k) ∈ watched /\ a = pubkey_to_string k) /\
      (forall p k, (p, k) ∈ watched ->
         is_Some (SubscribeRequest.transactions request !! Protocol_as_str p)) /\
      protocol_of (SubscribeRequest.blocks_meta request) = None /\
      forall name, is_Some (SubscribeRequest.slots request !! name) -> protocol_of [name] = None
  end.
Proof.
  unfold build_request. destruct (account_includes watched) as [|include includes] eqn:Hin.
  { split; [done|]. apply set_eq. intros [p k]. split; [|done]. intros Hk.
    assert (In (p, addresses_of watched p) (account_includes watched)) as Hi; [|by rewrite Hin in Hi].
    apply includes_In. split; [done|]. intros He.
    assert (In (pubkey_to_string k) (addresses_of watched p)) as Ha by (apply addresses_of_In; eauto).
    by rewrite He in Ha. }
  rewrite <- Hin. clear include includes Hin. simpl. split_and!; [| |done|].
  - intros name filter Hf. apply elem_of_list_to_map_2, list_elem_of_In, in_map_iff in Hf
      as ([p l] & [= <- <-] & [-> Hne]%includes_In).
    exists p. split_and!; [done|apply parse_protocol|done|done|]. apply addresses_of_In.
  - intros p k Hk. assert (In (p, addresses_of watched p) (account_includes watched)) as Hi.
    { apply includes_In. split; [done|]. intros He.
      assert (In (pubkey_to_string k) (addresses_of watched p)) as Ha by (apply addresses_of_In; eauto).
      by rewrite He in Ha. }
    eexists. apply elem_of_list_to_map_1.
    + rewrite <- list_fmap_compose. apply includes_NoDup.
    + apply list_elem_of_In. apply (in_map (fun pa : Protocol * list string => (Protocol_as_str pa.1, _)) _ _ Hi).
  - intros name [filter Hf]. by apply lookup_singleton_Some in Hf as [<- _].
Qed.
End Facts.

(** ** A concrete run *)

#[local] Instance sample_channels : Channels := open_channels.

Definition sample_watched : gset (Protocol * Pubkey) :=
  {[ (MeteoraDammV2, program_id MeteoraDammV2) ]}.
Definition sample_duration (d : TimeDelta) : string := "30s".

(** Two failures, a stream that delivers, three failures. *)
Definition sample_envs : list AttemptEnv.t :=
  [AttemptEnv.mk false 1 (OpenUnreachable "connect: refused");
   AttemptEnv.mk false 2 OpenUnanswered;
   AttemptEnv.mk false 3 (Opened 0
     [StreamEvent.mk 5 (AMessage (Ok (Some (meta_update 10 1000 1)))) 6;
      StreamEvent.mk 7 (AMessage (Ok None)) 8]);
   AttemptEnv.mk false 4 (OpenRefused "subscribe: quota");
   AttemptEnv.mk false 5 (Opened 0 [StreamEvent.mk 1 (AMessage (Err "stream: reset")) 2]);
   AttemptEnv.mk false 6 (OpenRefused "subscribe: quota")].

Example sample_outcome :
  let r := run_listener sample_duration STALL_TIMEOUT sample_watched 3 sample_envs in
  map snd (Progress.log r.1) =
    [Retry 1; Retry 2; Retry 1; Retry 1; Retry 2;
     Stop (Err (RetriesExhausted 3 "subscribe: quota"))] /\
  r.2 = Some (Err (RetriesExhausted 3 "subscribe: quota")).
Proof. vm_compute. split; reflexivity. Qed.

Lemma listener_follows_budget_witness :
  let '(p, outcome) := run_listener sample_duration STALL_TIMEOUT sample_watched 3 sample_envs in
  log_ok 3 (Progress.log p) /\ outcome_ok 3 (length sample_envs) (Progress.log p) outcome.
Proof. apply (listener_follows_budget sample_duration STALL_TIMEOUT sample_watched 3 sample_envs). lia. Defined.

(** A block-meta, then pings only: the stream stalls. *)
Definition sample_events : list StreamEvent.t :=
  [StreamEvent.mk 10 (AMessage (Ok (Some (meta_update 10 1000 1)))) 500;
   StreamEvent.mk 520 (AMessage (Ok (Some (SubscribeUpdate.mk [] (Some UPing))))) 521;
   StreamEvent.mk 552 (AMessage (Ok (Some (SubscribeUpdate.mk [] (Some UPing))))) 553].

Example sample_stall :
  (read sample_duration 50 sample_events (StreamSession.new (ReceivedSlots.new 7 []) []) ∅
    (StallClock.new 50) 0).2 = Stalled "stalled: no block-meta from the stream for 30s" true.
Proof. vm_compute. reflexivity. Qed.

Lemma read_stalls_on_silence_witness :
  let '(_, _, ending) := read sample_duration 50 sample_events
    (StreamSession.new (ReceivedSlots.new 7 []) []) ∅ (StallClock.new 50) 0 in
  exists before after sb rb cb nb,
    sample_events = before ++ after /\
    read_on sample_duration 50 before (StreamSession.new (ReceivedSlots.new 7 []) []) ∅
      (StallClock.new 50) 0 = Some (sb, rb, cb, nb) /\
    match after with
    | [] => ending = stalled sample_duration 50 Stream (StreamSession.received_data sb)
    | e :: _ =>
      let quiet := silence 0 0 before + Z.max 0 (StreamEvent.arrives e - nb) in
      (50 < quiet -> ending = stalled sample_duration 50 Stream (StreamSession.received_data sb)) /\
      (quiet <= 50 -> forall error delivered, ending <> Stalled error delivered)
    end.
Proof.
  apply (read_stalls_on_silence sample_duration 50 sample_events
    (StreamSession.new (ReceivedSlots.new 7 []) []) ∅ 0). lia.
Defined.
