(* ===== verification/RpcPipeline.v ===== *)
(** * The dispatcher and the fetch stage, running

    [src/crates/indexer/src/infra/rpc/]: the loops of dispatcher.rs and
    fetch_worker.rs, the detached fetches and the two bounded channels of
    source.rs, as a transition system. The environment notifies, closes the
    notifications, takes the consumer away and cancels; what the network
    answers a fetch is part of its step. The capacity of the consumer's
    channel, which only delays a fetch, is left out. *)

From S2P Require Import Prelude Secret Errors External Domain Extractor GrpcAdapter.
From S2P Require Import SlotBuffer Session RpcAdapter.

Definition STAGE_CHANNEL_CAPACITY : nat := Z.to_nat 10000.
Definition MAX_CONCURRENT_FETCHES : nat := 15.

(** ** [fetch_metrics.rs] *)

Inductive FetchMetric : Type :=
| FetchFailure (p : Protocol) (reason : string)
| FetchNotFound (p : Protocol)
| FetchDuration (p : Protocol)
| FetchDropped (p : Protocol) (reason : string).

(** ** [fetch_one] *)

(** Where a fetch stands: the call and its retries, or the hand-over. *)
Inductive Fetching : Type :=
| Asking
| HandingOver (ingested : IngestedTransaction.t).

(** How a signature left the stage. *)
Inductive FetchEnd : Type :=
| DroppedBeforeFetch
| EndNotFound
| EndFailed (reason : string)
| Delivered (ingested : IngestedTransaction.t)
| DroppedFetched (ingested : IngestedTransaction.t) (reason : string).

Section FetchOne.
Context `{Base58} `{SignatureDisplay} `{SignatureFromStr} `{Chrono} `{Bs58}.
Context (rpc_url : SecretUrl.t).

(** Up to the hand-over: an end, or the transaction to hand over. *)
Definition fetch_transaction (qs : QualifiedSignature.t) (replies : nat -> Reply) :
    FetchEnd + IngestedTransaction.t :=
  match fst (fetch rpc_url replies) with
  | Err NotFound => inl EndNotFound
  | Err e => inl (EndFailed (metric_label e))
  | Ok fetched =>
    match RpcAdapter.from_rpc fetched with
    | Err _ => inl (EndFailed "adapt")
    | Ok transaction =>
      inr (IngestedTransaction.mk (QualifiedSignature.protocol qs) transaction)
    end
  end.
End FetchOne.

(** What a signature's end counts, its duration apart. *)
Definition end_counted (p : Protocol) (e : FetchEnd) : list FetchMetric :=
  match e with
  | DroppedBeforeFetch => [FetchDropped p "shutdown_before_fetch"]
  | EndNotFound => [FetchNotFound p]
  | EndFailed reason => [FetchFailure p reason]
  | Delivered _ => []
  | DroppedFetched _ reason => [FetchDropped p reason]
  end.

Inductive FetchPhase : Type :=
| Receiving
| Acquiring (qs : QualifiedSignature.t)   (** [dispatch_one], waiting for a permit *)
| Stopped.

Module RpcPipeline.
Record t : Type := mk {
  raw : list RawLogEvent.t;                     (** listener to dispatcher *)
  raw_closed : bool;                            (** every worker dropped its sender *)
  dispatching : bool;                           (** the dispatcher's loop runs *)
  qualified : list QualifiedSignature.t;        (** dispatcher to fetch worker *)
  phase : FetchPhase;
  permits : nat;
  tasks : list (QualifiedSignature.t * Fetching);
  downstream_closed : bool;
  delivered : list IngestedTransaction.t;
  cancelled : bool;
  dispatcher_metrics : list DispatcherMetric;
  fetch_metrics : list FetchMetric;
  notified : list RawLogEvent.t;                (** everything that entered the first channel *)
  handled : list (RawLogEvent.t * Verdict);     (** everything the dispatcher took from it *)
  taken : list QualifiedSignature.t;            (** everything the fetch worker took *)
  ended : list (QualifiedSignature.t * FetchEnd);
  abandoned_raw : list RawLogEvent.t;           (** still in a channel when its receiver went *)
  abandoned : list QualifiedSignature.t;
  received : list RawLogEvent.t;                (** everything a worker had from its stream *)
  unqueued : list (RawLogEvent.t * SendOutcome);  (** what the first channel refused it, and why *)
}.

Definition new : t :=
  mk [] false true [] Receiving MAX_CONCURRENT_FETCHES [] false [] false [] [] [] [] [] [] [] [] [] [].

(** *** The environment *)

(** The first channel's answer: closed once the dispatcher returned. *)
Definition try_notify (p : t) : SendOutcome :=
  if dispatching p then if (length (raw p) <? STAGE_CHANNEL_CAPACITY)%nat then Sent else Full else Closed.

(** [try_send] of a worker's notification; a full channel drops it with a log
    line only, a closed one ends the worker. *)
Definition notify (p : t) (e : RawLogEvent.t) : t :=
  match try_notify p with
  | Sent => mk (raw p ++ [e]) (raw_closed p) (dispatching p) (qualified p) (phase p) (permits p) (tasks p)
      (downstream_closed p) (delivered p) (cancelled p) (dispatcher_metrics p) (fetch_metrics p)
      (notified p ++ [e]) (handled p) (taken p) (ended p) (abandoned_raw p) (abandoned p)
      (received p ++ [e]) (unqueued p)
  | refused => mk (raw p) (raw_closed p) (dispatching p) (qualified p) (phase p) (permits p) (tasks p)
      (downstream_closed p) (delivered p) (cancelled p) (dispatcher_metrics p) (fetch_metrics p)
      (notified p) (handled p) (taken p) (ended p) (abandoned_raw p) (abandoned p)
      (received p ++ [e]) (unqueued p ++ [(e, refused)])
  end.
Definition set_environment (p : t) (raw_closed downstream_closed cancelled : bool) : t :=
  mk (raw p) raw_closed (dispatching p) (qualified p) (phase p) (permits p) (tasks p)
    downstream_closed (delivered p) cancelled (dispatcher_metrics p) (fetch_metrics p) (notified p)
    (handled p) (taken p) (ended p) (abandoned_raw p) (abandoned p) (received p) (unqueued p).
Definition close_raw (p : t) : t := set_environment p true (downstream_closed p) (cancelled p).
Definition close_downstream (p : t) : t := set_environment p (raw_closed p) true (cancelled p).
Definition cancel (p : t) : t := set_environment p (raw_closed p) (downstream_closed p) true.

(** *** The dispatcher *)

Definition is_stopped (ph : FetchPhase) : bool := match ph with Stopped => true | _ => false end.

(** The second channel's answer: closed once the fetch worker returned. *)
Definition try_send (p : t) (_qs : QualifiedSignature.t) : SendOutcome :=
  if is_stopped (phase p) then Closed
  else if (length (qualified p) <? STAGE_CHANNEL_CAPACITY)%nat then Sent else Full.

Definition offered (v : Verdict) : list QualifiedSignature.t :=
  match v with VOffered qs Sent => [qs] | _ => [] end.

Definition dispatch_event `{SignatureFromStr} (d : SignatureDispatcher.t) (p : t) (e : RawLogEvent.t)
    (rest : list RawLogEvent.t) : t :=
  let v := SignatureDispatcher.handle d e (try_send p) in
  mk rest (raw_closed p) (dispatching p) (qualified p ++ offered v) (phase p) (permits p) (tasks p)
    (downstream_closed p) (delivered p) (cancelled p)
    (dispatcher_metrics p ++ SignatureDispatcher.counted e v) (fetch_metrics p) (notified p)
    (handled p ++ [(e, v)]) (taken p) (ended p) (abandoned_raw p) (abandoned p) (received p) (unqueued p).

(** The end of [run]: both its channels' ends are dropped. *)
Definition dispatcher_returns (p : t) : t :=
  mk [] (raw_closed p) false (qualified p) (phase p) (permits p) (tasks p) (downstream_closed p)
    (delivered p) (cancelled p) (dispatcher_metrics p) (fetch_metrics p) (notified p) (handled p)
    (taken p) (ended p) (abandoned_raw p ++ raw p) (abandoned p) (received p) (unqueued p).

(** *** The fetch worker *)

(** [run] returns: what is still queued goes with the receiver. *)
Definition worker_returns (p : t) : t :=
  mk (raw p) (raw_closed p) (dispatching p) [] Stopped (permits p) (tasks p) (downstream_closed p)
    (delivered p) (cancelled p) (dispatcher_metrics p) (fetch_metrics p) (notified p) (handled p)
    (taken p) (ended p) (abandoned_raw p) (abandoned p ++ qualified p) (received p) (unqueued p).

Definition receive (p : t) (qs : QualifiedSignature.t) (rest : list QualifiedSignature.t) : t :=
  mk (raw p) (raw_closed p) (dispatching p) rest (Acquiring qs) (permits p) (tasks p)
    (downstream_closed p) (delivered p) (cancelled p) (dispatcher_metrics p) (fetch_metrics p)
    (notified p) (handled p) (taken p ++ [qs]) (ended p) (abandoned_raw p) (abandoned p) (received p) (unqueued p).

Definition set_fetching (p : t) (phase : FetchPhase) (permits : nat)
    (tasks : list (QualifiedSignature.t * Fetching)) (metrics : list FetchMetric)
    (ends : list (QualifiedSignature.t * FetchEnd)) : t :=
  mk (raw p) (raw_closed p) (dispatching p) (qualified p) phase permits tasks (downstream_closed p)
    (delivered p ++ omap (fun e => match snd e with Delivered i => Some i | _ => None end) ends)
    (cancelled p) (dispatcher_metrics p) (fetch_metrics p ++ metrics) (notified p) (handled p)
    (taken p) (ended p ++ ends) (abandoned_raw p) (abandoned p) (received p) (unqueued p).

Definition drop_waiting (p : t) (qs : QualifiedSignature.t) : t :=
  set_fetching p Receiving (permits p) (tasks p)
    (end_counted (QualifiedSignature.protocol qs) DroppedBeforeFetch) [(qs, DroppedBeforeFetch)].

Definition spawn (p : t) (qs : QualifiedSignature.t) (permits : nat) : t :=
  set_fetching p Receiving permits (tasks p ++ [(qs, Asking)]) [] [].

(** A fetch ends: its end is counted and its permit given back. *)
Definition finish (p : t) (qs : QualifiedSignature.t) (e : FetchEnd) (metrics : list FetchMetric)
    (rest : list (QualifiedSignature.t * Fetching)) : t :=
  set_fetching p (phase p) (S (permits p)) rest
    (metrics ++ end_counted (QualifiedSignature.protocol qs) e) [(qs, e)].

(** The end of the hand-over, the shutdown before the consumer. *)
Definition hand_over (p : t) (ingested : IngestedTransaction.t) : FetchEnd :=
  if cancelled p then DroppedFetched ingested "shutdown"
  else if downstream_closed p then DroppedFetched ingested "downstream_closed"
  else Delivered ingested.

Section Steps.
Context `{Base58} `{SignatureDisplay} `{SignatureFromStr} `{Chrono} `{Bs58}.
Context (d : SignatureDispatcher.t) (rpc_url : SecretUrl.t).

(** The replies of a fetch came: it ended, or it waits to hand over. *)
Definition answered (p : t) (qs : QualifiedSignature.t) (replies : nat -> Reply)
    (before after : list (QualifiedSignature.t * Fetching)) : t :=
  let duration := [FetchDuration (QualifiedSignature.protocol qs)] in
  match fetch_transaction rpc_url qs replies with
  | inl e => finish p qs e duration (before ++ after)
  | inr ingested =>
    set_fetching p (phase p) (permits p) (before ++ (qs, HandingOver ingested) :: after) duration []
  end.

(** The dispatcher's [select!] is not biased; the worker's two are, a stop
    before anything else. *)
Inductive own_step (p : t) : t -> Prop :=
| dispatcher_takes e rest :
    dispatching p = true -> raw p = e :: rest -> own_step p (dispatch_event d p e rest)
| dispatcher_upstream_closed :
    dispatching p = true -> raw p = [] -> raw_closed p = true -> own_step p (dispatcher_returns p)
| dispatcher_shutdown :
    dispatching p = true -> cancelled p = true -> own_step p (dispatcher_returns p)
| worker_stops :
    phase p = Receiving -> cancelled p = true \/ downstream_closed p = true ->
    own_step p (worker_returns p)
| worker_receives qs rest :
    phase p = Receiving -> cancelled p = false -> downstream_closed p = false ->
    qualified p = qs :: rest -> own_step p (receive p qs rest)
| worker_upstream_closed :
    phase p = Receiving -> cancelled p = false -> downstream_closed p = false ->
    qualified p = [] -> dispatching p = false -> own_step p (worker_returns p)
| worker_drops qs :
    phase p = Acquiring qs -> cancelled p = true -> own_step p (drop_waiting p qs)
| worker_spawns qs n :
    phase p = Acquiring qs -> cancelled p = false -> permits p = S n -> own_step p (spawn p qs n)
| fetch_answered qs replies before after :
    tasks p = before ++ (qs, Asking) :: after -> own_step p (answered p qs replies before after)
| fetch_hands_over qs ingested before after :
    tasks p = before ++ (qs, HandingOver ingested) :: after ->
    own_step p (finish p qs (hand_over p ingested) [] (before ++ after)).

Inductive env_step (p : t) : t -> Prop :=
| env_notify e : raw_closed p = false -> env_step p (notify p e)
| env_close_raw : env_step p (close_raw p)
| env_close_downstream : env_step p (close_downstream p)
| env_cancel : env_step p (cancel p).

Definition step (p p' : t) : Prop := env_step p p' \/ own_step p p'.
Definition reachable (p : t) : Prop := rtc step new p.
End Steps.
End RpcPipeline.
