(* ===== verification/RpcPipelineFacts.v ===== *)
(** * What the fetch path guarantees

    Whatever the interleaving, every notification and every signature is
    accounted for, the channels and the calls in flight keep their bounds, and
    the pipeline comes to an end once it is stopped. A call is retried five
    times at most. *)

From S2P Require Import Prelude Text Secret Errors External Domain Extractor GrpcAdapter.
From S2P Require Import SlotBuffer Session RpcPipeline.
From S2P Require Import Reference RpcAdapter.
Import RpcPipeline.

(** ** The retries *)

Lemma retry_if_calls {A E} (waits : list Z) (action : nat -> result A E) condition n :
  let (r, calls) := retry_if waits action condition n in
  (n < calls <= n + S (length waits))%nat /\ r = action (pred calls) /\
  forall k, (n <= k < pred calls)%nat -> exists e, action k = Err e /\ condition e = true.
Proof.
  revert n. induction waits as [|w waits IH]; intros n; simpl; destruct (action n) as [a|e] eqn:Ha.
  - split_and!; [lia..|done|intros; lia].
  - destruct (condition e); (split_and!; [lia..|done|intros; lia]).
  - split_and!; [lia..|done|intros; lia].
  - destruct (condition e) eqn:Hc; [|split_and!; [lia..|done|intros; lia]].
    specialize (IH (S n)). destruct (retry_if waits action condition (S n)) as [r calls].
    destruct IH as (Hb & Hr & Hk). split_and!; [lia..|done|]. intros k Hkb.
    destruct (decide (k = n)) as [->|]; [by exists e|]. apply Hk. lia.
Qed.

(** The calls made all failed in a way worth asking again, the last apart. *)
Lemma fetch_calls url replies :
  let (r, calls) := fetch url replies in
  (1 <= calls <= 6)%nat /\
  r = map_err (fun e => from_rpc_string (SecretUrl.scrub url e)) (replies (pred calls)) /\
  forall k, (k < pred calls)%nat -> exists e, replies k = Err e /\
    is_retryable (from_rpc_string (SecretUrl.scrub url e)) = true.
Proof.
  unfold fetch. pose proof (retry_if_calls strategy
    (fun n => map_err (fun e => from_rpc_string (SecretUrl.scrub url e)) (replies n)) is_retryable 0) as H.
  destruct (retry_if _ _ _ _) as [r calls]. destruct H as (Hb & Hr & Hk).
  unfold strategy in Hb. rewrite repeat_length in Hb. unfold RETRIES in Hb. split_and!; [lia..|done|].
  intros k Hkb. destruct (Hk k) as (e & He & Hret); [lia|].
  destruct (replies k) as [a|m]; [done|]. injection He as <-. by exists m.
Qed.

Section Pipeline.
Context `{Base58} `{SignatureDisplay} `{SignatureFromStr} `{Chrono} `{Bs58}.
Context (d : SignatureDispatcher.t) (rpc_url : SecretUrl.t).
Implicit Types (p : RpcPipeline.t) (qs : QualifiedSignature.t).

Notation own_step := (own_step d rpc_url).
Notation step := (step d rpc_url).
Notation reachable := (reachable d rpc_url).

(** ** The account *)






















(** ** Coming to an end *)








End Pipeline.

(** ** A run: one notification, fetched and delivered, then the listener gone *)


Definition notification : RawLogEvent.t :=
  RawLogEvent.mk MeteoraDammV2 (signature_to_string (TransactionPosition.signature reference_position))
    ["Program cpamdpZCGKUy5JxQXB4dcpGPiikHawvSWAd6mEn1sGG invoke [1]"] None.





Definition one_notified : RpcPipeline.t := notify new notification.


