(* ===== verification/RpcSource.v ===== *)
(** * The logsSubscribe subscriptions and the source they feed

    [src/crates/indexer/src/infra/]: endpoint/scheme.rs, endpoint/credential.rs
    and rpc/'s subscription_worker.rs, listener.rs and source.rs. What the
    network and the channels do is data: how a connection opens, the
    notifications of its stream and how each is received, when the shutdown is
    seen, how each task ends. *)

From S2P Require Import Prelude Text Secret Config Errors External Domain.
From S2P Require Import GrpcAdapter Listener RpcAdapter.

(** ** [endpoint/scheme.rs] *)

Module Transport.
Record t : Type := mk {
  accepted : list string;
  expects : string;
  other : string;
}.
End Transport.

Definition WEBSOCKET : Transport.t := {|
  Transport.accepted := ["ws"; "wss"];
  Transport.expects :=
    "`logsSubscribe` is a WebSocket: write `wss://host`, or `ws://` for a local validator.";
  Transport.other :=
    "An `https://` address is what a Yellowstone gRPC endpoint looks like — `INGEST_SOURCE=grpc` is what reads it.";
|}.
Definition GRPC : Transport.t := {|
  Transport.accepted := ["http"; "https"];
  Transport.expects :=
    "Yellowstone speaks HTTP/2: write `https://host:port`, or `http://` for a self-hosted plaintext endpoint.";
  Transport.other :=
    "A `wss://` address is the WebSocket endpoint of the JSON-RPC path — `INGEST_SOURCE=rpc` is what reads it.";
|}.

Definition check_scheme (url : SecretUrl.t) (transport : Transport.t) : result unit string :=
  match SecretUrl.scheme url with
  | Some scheme =>
    if existsb (String.eqb scheme) (Transport.accepted transport) then Ok tt
    else Err ("it carries the `" ++ scheme ++ "` scheme. " ++ Transport.expects transport ++ " " ++
              Transport.other transport)%string
  | None => Err ("it has no scheme. " ++ Transport.expects transport)%string
  end.

(** ** [endpoint/credential.rs] *)

Inductive CredentialError : Type :=
| InvalidHeaderName (name : string)
| InvalidHeaderValue (name : string).

(** The http crate: a name as it is sent, and whether a value can be. *)
Class HttpHeaders : Type := {
  header_name_try_from : string -> option string;
  header_value_from_str : string -> option string;
}.

Module Credential.
Record t : Type := mk { header : option (string * string) }.

Definition new `{HttpHeaders} (header : option (string * SecretKey.t)) : result t CredentialError :=
  match header with
  | None => Ok (mk None)
  | Some (raw, value) =>
    let? name := ok_or (header_name_try_from raw) (InvalidHeaderName raw) in
    let? value := ok_or (header_value_from_str (SecretKey.expose value)) (InvalidHeaderValue name) in
    Ok (mk (Some (name, value)))
  end.

Definition name (c : t) : option string := option_map fst (header c).
Definition debug (c : t) : string :=
  match name c with
  | Some name => ("Credential(" ++ name ++ ": <redacted>)")%string
  | None => "Credential(no header)"
  end.
End Credential.

(** ** [subscription_worker.rs] *)

Module SubscriptionTarget.
Record t : Type := new {
  protocol : Protocol;
  mention : Pubkey;
}.
End SubscriptionTarget.

Inductive SubscriptionEvent : Type :=
| Subscribed (target : SubscriptionTarget.t)
| EvStreamClosed (target : SubscriptionTarget.t) (attempt : Z)
| RetryFailed (target : SubscriptionTarget.t) (attempt : Z) (error : string)
| GivingUp (target : SubscriptionTarget.t) (last_error : string)
| ShutdownCompleted (target : SubscriptionTarget.t).

Inductive SubscriptionWorkerError : Type :=
| WorkerExhausted (target : SubscriptionTarget.t) (attempts : Z) (last_error : string).

Inductive ConnectOutcome : Type :=
| OutShutdownRequested
| OutDispatcherClosed
| OutStreamClosed
| OutFailed (error : string).

Module RpcLogsResponse.
Record t : Type := mk {
  signature : string;
  logs : list string;
  err : option TransactionError;
}.
End RpcLogsResponse.

(** One attempt, as the network has it: the text of what refused it, or the
    notifications of its stream, each with the channel's answer, and whether
    the stream closed or the shutdown was seen after them. *)
Inductive Attempt : Type :=
| RequestRefused (e : string)
| ConnectRefused (e : string)
| SubscribeRefused (e : string)
| Streamed (items : list (RpcLogsResponse.t * SendOutcome)) (shutdown : bool).

Definition to_raw_event (target : SubscriptionTarget.t) (r : RpcLogsResponse.t) : RawLogEvent.t :=
  RawLogEvent.mk (SubscriptionTarget.protocol target) (RpcLogsResponse.signature r)
    (RpcLogsResponse.logs r) (RpcLogsResponse.err r).

(** The events that entered the channel, and the outcome. *)
Fixpoint forward_stream (target : SubscriptionTarget.t) (items : list (RpcLogsResponse.t * SendOutcome))
    (shutdown : bool) : list RawLogEvent.t * ConnectOutcome :=
  match items with
  | [] => ([], if shutdown then OutShutdownRequested else OutStreamClosed)
  | (response, answer) :: items =>
    match answer with
    | Sent => let (events, out) := forward_stream target items shutdown in
              (to_raw_event target response :: events, out)
    | Full => forward_stream target items shutdown
    | Closed => ([], OutDispatcherClosed)
    end
  end.

Definition connect_and_forward (ws_url : SecretUrl.t) (target : SubscriptionTarget.t) (a : Attempt) :
    list SubscriptionEvent * list RawLogEvent.t * ConnectOutcome :=
  match a with
  | RequestRefused e => ([], [], OutFailed (SecretUrl.scrub ws_url ("websocket request: " ++ e)))
  | ConnectRefused e => ([], [], OutFailed (SecretUrl.scrub ws_url ("pubsub connect: " ++ e)))
  | SubscribeRefused e => ([], [], OutFailed (SecretUrl.scrub ws_url ("logs_subscribe: " ++ e)))
  | Streamed items shutdown =>
    let (events, out) := forward_stream target items shutdown in
    ([Subscribed target], events, out)
  end.

Module SubscriptionWorker.
Record t : Type := mk {
  attempt : Z;      (** u32 *)
  backoff : Z;      (** u64, seconds *)
}.

Definition new : t := mk 0 INITIAL_BACKOFF_SECS.

(** What a turn of the loop ends in: another turn after a sleep, or the end. *)
Inductive Turn : Type :=
| Again (w : t) (sleep_secs : Z)
| Return (r : result unit SubscriptionWorkerError).

Definition after_attempt (target : SubscriptionTarget.t) (max_attempts : Z) (w : t)
    (out : ConnectOutcome) : list SubscriptionEvent * Turn :=
  let attempt := attempt w + 1 in
  match out with
  | OutShutdownRequested | OutDispatcherClosed => ([ShutdownCompleted target], Return (Ok tt))
  | OutStreamClosed => ([EvStreamClosed target attempt], Again (mk 0 INITIAL_BACKOFF_SECS) 1)
  | OutFailed e =>
    if max_attempts <=? attempt
    then ([RetryFailed target attempt e; GivingUp target e],
          Return (Err (WorkerExhausted target attempt e)))
    else ([RetryFailed target attempt e],
          Again (mk attempt (Z.min (backoff w * 2) MAX_BACKOFF_SECS)) (backoff w))
  end.

(** One turn: the shutdown first. *)
Definition turn (ws_url : SecretUrl.t) (target : SubscriptionTarget.t) (max_attempts : Z) (w : t)
    (cancelled : bool) (a : Attempt) : list SubscriptionEvent * list RawLogEvent.t * Turn :=
  if cancelled then ([ShutdownCompleted target], [], Return (Ok tt))
  else
    let '(events, raw, out) := connect_and_forward ws_url target a in
    let (after, t) := after_attempt target max_attempts w out in
    (events ++ after, raw, t).

(** What the worker did over its turns: the events it emitted, the
    notifications it forwarded, the seconds it slept, and its result or where
    it stands. *)
Fixpoint run (ws_url : SecretUrl.t) (target : SubscriptionTarget.t) (max_attempts : Z) (w : t)
    (turns : list (bool * Attempt)) :
    list SubscriptionEvent * list RawLogEvent.t * list Z * (t + result unit SubscriptionWorkerError) :=
  match turns with
  | [] => ([], [], [], inl w)
  | (cancelled, a) :: turns =>
    let '(events, raw, t) := turn ws_url target max_attempts w cancelled a in
    match t with
    | Return r => (events, raw, [], inr r)
    | Again w sleep =>
      let '(events', raw', sleeps, r) := run ws_url target max_attempts w turns in
      (events ++ events', raw ++ raw', sleep :: sleeps, r)
    end
  end.
End SubscriptionWorker.

(** ** [listener.rs] *)

Inductive RpcListenerError : Type :=
| BadCredential (e : CredentialError)
| RpcNoSubscriptionTargets
| RpcInvalidEndpoint (reason : string)
| AllWorkersGaveUp (failures : string).

Module WorkerFailure.
Record t : Type := mk {
  target : SubscriptionTarget.t;
  reason : string;
}.
End WorkerFailure.

Section RpcListener.
Context `{Base58} `{HttpHeaders}.

Definition failure_to_string (f : WorkerFailure.t) : string :=
  (Protocol_as_str (SubscriptionTarget.protocol (WorkerFailure.target f)) ++ "/" ++
   pubkey_to_string (SubscriptionTarget.mention (WorkerFailure.target f)) ++ ": " ++
   WorkerFailure.reason f)%string.

Definition watch (watched : gset (Protocol * Pubkey)) (protocol : Protocol) : gset (Protocol * Pubkey) :=
  {[ (protocol, program_id protocol) ]} ∪ watched.
Definition watch_pool (watched : gset (Protocol * Pubkey)) (protocol : Protocol) (pool : Pubkey) :
    gset (Protocol * Pubkey) :=
  {[ (protocol, pool) ]} ∪ watched.

Definition build_subscription_targets (watched : gset (Protocol * Pubkey)) :
    result (list SubscriptionTarget.t) RpcListenerError :=
  match map (fun pm => SubscriptionTarget.new (fst pm) (snd pm)) (elements watched) with
  | [] => Err RpcNoSubscriptionTargets
  | targets => Ok targets
  end.

Definition push_failure (gave_up : list WorkerFailure.t) (e : SubscriptionWorkerError) :
    list WorkerFailure.t :=
  match e with
  | WorkerExhausted target attempts last_error =>
    gave_up ++ [WorkerFailure.mk target
      ("retries_exhausted after " ++ int_string attempts ++ ": " ++ last_error)%string]
  end.

(** Every worker to its end; a cancelled one did not give up. *)
Fixpoint join_fleet (handles : list (SubscriptionTarget.t * Joined SubscriptionWorkerError))
    (gave_up : list WorkerFailure.t) : list WorkerFailure.t :=
  match handles with
  | [] => gave_up
  | (target, ended) :: handles =>
    join_fleet handles
      match ended with
      | Ok (Ok _) => gave_up
      | Ok (Err e) => push_failure gave_up e
      | Err e =>
        match TaskEnd_from e with
        | Panicked => gave_up ++ [WorkerFailure.mk target ("panic: " ++ JoinError.text e)]
        | Cancelled => gave_up
        end
      end
  end.

Definition fleet_outcome (gave_up : list WorkerFailure.t) (total : nat) : result unit RpcListenerError :=
  if (length gave_up =? total)%nat && (0 <? total)%nat
  then Err (AllWorkersGaveUp (String.concat "; " (map failure_to_string gave_up)))
  else Ok tt.

(** [run]: the refusals before a worker is spawned, then the verdict on how
    the workers ended, unless a shutdown was requested. *)
Definition listener_run (endpoint : Endpoint.t) (watched : gset (Protocol * Pubkey))
    (ends : list (Joined SubscriptionWorkerError)) (shutdown : bool) : result unit RpcListenerError :=
  let? _ := map_err BadCredential (Credential.new (Endpoint.header endpoint)) in
  let? _ := map_err RpcInvalidEndpoint (check_scheme (Endpoint.url endpoint) WEBSOCKET) in
  let? targets := build_subscription_targets watched in
  let gave_up := join_fleet (zip targets ends) [] in
  if shutdown then Ok tt else fleet_outcome gave_up (length targets).
End RpcListener.

(** ** [source.rs] *)

Inductive SourceError : Type :=
| FromRpcListener (e : RpcListenerError)
| FromGrpcListener (e : GrpcListenerError)
| SemaphoreClosed (stage : string)
| TaskPanicked (task reason : string).

Definition LISTENER : string := "listener".
Definition DISPATCHER : string := "dispatcher".
Definition FETCH : string := "fetch worker".
Definition STAGES : list string := [LISTENER; DISPATCHER; FETCH].

Definition join (task : string) (r : Joined SourceError) : result unit SourceError :=
  match r with
  | Ok (Ok _) => Ok tt
  | Ok (Err e) => Err e
  | Err e =>
    match TaskEnd_from e with
    | Panicked => Err (TaskPanicked task (JoinError.text e))
    | Cancelled => Ok tt
    end
  end.

(** The stages that had not ended, in order; the first failure wins. *)
Definition drain_stages (ended : string) (first : result unit SourceError)
    (handles : string -> Joined SourceError) : result unit SourceError :=
  foldl (fun outcome name =>
    if String.eqb ended name then outcome
    else
      let reported := join name (handles name) in
      match outcome with Ok _ => reported | Err _ => outcome end) first STAGES.

(** [run]: the [select!] takes the first stage, in pipeline order, among those
    that have ended ([None] while none has), then waits for the others. *)
Definition source_run (ended : string -> bool) (handles : string -> Joined SourceError) :
    option (result unit SourceError) :=
  let! name := find ended STAGES in
  Some (drain_stages name (join name (handles name)) handles).
