(* ===== verification/RpcSourceFacts.v ===== *)
(** * When the notify-then-ask source stops, and what it says

    A worker gives up after a run of failures, never after a stream that was
    alive; the fleet is dead when every worker gave up; and a dead fleet is
    never reported as a clean stop. *)

From S2P Require Import Prelude Text Secret Config Errors External Domain.
From S2P Require Import GrpcAdapter Listener RpcAdapter RpcSource Reference.

(** ** One worker *)

Section Worker.
Context (ws_url : SecretUrl.t) (target : SubscriptionTarget.t) (max_attempts : Z).

Notation run := (SubscriptionWorker.run ws_url target max_attempts).

Definition outcome_of (a : Attempt) : ConnectOutcome := snd (connect_and_forward ws_url target a).

(** The failures since the start, or since a stream was last alive. *)
Definition streak_step (n : Z) (out : ConnectOutcome) : Z :=
  match out with OutFailed _ => n + 1 | _ => 0 end.
Definition streak (n : Z) (turns : list (bool * Attempt)) : Z :=
  foldl (fun n t => streak_step n (outcome_of (snd t))) n turns.

Definition budget : Z := Z.max 1 max_attempts.

(** A worker that has failed [n] times in a row. *)
Definition failed_times (n : Z) (w : SubscriptionWorker.t) : Prop :=
  SubscriptionWorker.attempt w = n /\
  SubscriptionWorker.backoff w = Z.min (2 ^ n) MAX_BACKOFF_SECS.

Definition disturbed (t : bool * Attempt) : bool :=
  fst t || match outcome_of (snd t) with
           | OutShutdownRequested | OutDispatcherClosed => true
           | _ => false
           end.

Lemma new_failed_times : failed_times 0 SubscriptionWorker.new.
Proof. done. Qed.

Lemma backoff_doubles n : 0 <= n ->
  Z.min (Z.min (2 ^ n) MAX_BACKOFF_SECS * 2) MAX_BACKOFF_SECS = Z.min (2 ^ (n + 1)) MAX_BACKOFF_SECS.
Proof. intros Hn. rewrite Z.pow_add_r by lia. unfold MAX_BACKOFF_SECS. lia. Qed.

(** What stands for a worker's result: its streak, or the reason it stopped. *)
Lemma run_streak turns : forall n w,
  failed_times n w -> 0 <= n < budget -> Forall (fun t => disturbed t = false) turns ->
  let '(_, _, sleeps, r) := run w turns in
  Forall (fun s => 1 <= s <= MAX_BACKOFF_SECS) sleeps /\
  match r with
  | inl w' => failed_times (streak n turns) w' /\ 0 <= streak n turns < budget
  | inr r => exists consumed a rest e, turns = consumed ++ (false, a) :: rest /\
      outcome_of a = OutFailed e /\ streak n consumed = budget - 1 /\
      r = Err (WorkerExhausted target budget e)
  end.
Proof.
  induction turns as [|[cancelled a] turns IH]; intros n w Hw Hn Hd; [split; [constructor|done]|].
  apply Forall_cons in Hd as [Hd Hds]. unfold disturbed in Hd. cbn [fst snd] in Hd.
  apply orb_false_iff in Hd as [-> Ho]. cbn [SubscriptionWorker.run SubscriptionWorker.turn].
  destruct (connect_and_forward ws_url target a) as [[events raw] out] eqn:Hc.
  assert (outcome_of a = out) as Hout by (unfold outcome_of; by rewrite Hc). rewrite Hout in Ho.
  destruct Hw as [Ha Hb]. destruct out as [| | |e]; try done; cbn [SubscriptionWorker.after_attempt].
  - specialize (IH 0 (SubscriptionWorker.mk 0 INITIAL_BACKOFF_SECS) new_failed_times).
    destruct (run _ turns) as [[[ev raw'] sleeps] r]. destruct IH as [Hs Hr]; [unfold budget in *; lia|done|].
    split; [constructor; [unfold MAX_BACKOFF_SECS; lia|done]|].
    unfold streak in *. cbn [foldl snd]. rewrite Hout. cbn [streak_step].
    destruct r as [w'|r]; [done|]. destruct Hr as (consumed & a' & rest & e & -> & ? & ? & ?).
    exists ((false, a) :: consumed), a', rest, e. split_and!; try done. cbn [foldl snd]. by rewrite Hout.
  - rewrite Ha. destruct (Z.leb_spec max_attempts (n + 1)) as [Hmax|Hmax].
    + split; [constructor|]. exists [], a, turns, e. unfold budget in *.
      split; [done|]. split; [exact Hout|]. split; [cbn; lia|].
      repeat f_equal. lia.
    + assert (failed_times (n + 1) (SubscriptionWorker.mk (n + 1)
        (Z.min (SubscriptionWorker.backoff w * 2) MAX_BACKOFF_SECS))) as Hw'.
      { split; [done|]. cbn [SubscriptionWorker.backoff]. rewrite Hb. apply backoff_doubles. lia. }
      specialize (IH (n + 1) _ Hw').
      destruct (run _ turns) as [[[ev raw'] sleeps] r]. destruct IH as [Hs Hr]; [unfold budget in *; lia|done|].
      assert (1 <= 2 ^ n) by (pose proof (Z.pow_pos_nonneg 2 n); lia).
      split; [constructor; [rewrite Hb; unfold MAX_BACKOFF_SECS; lia|done]|].
      unfold streak in *. cbn [foldl snd]. rewrite Hout. cbn [streak_step].
      destruct r as [w'|r]; [done|]. destruct Hr as (consumed & a' & rest & e' & -> & ? & ? & ?).
      exists ((false, a) :: consumed), a', rest, e'. split_and!; try done. cbn [foldl snd].
      by rewrite Hout.
Qed.

(** The count of attempts fits its type. *)
Lemma attempt_fits turns n w events raw sleeps w' :
  is_uint 32 max_attempts -> failed_times n w -> 0 <= n < budget ->
  Forall (fun t => disturbed t = false) turns ->
  run w turns = (events, raw, sleeps, inl w') -> is_uint 32 (SubscriptionWorker.attempt w' + 1).
Proof.
  intros Hm Hw Hn Hd Hr. pose proof (run_streak turns n w Hw Hn Hd) as H. rewrite Hr in H.
  destruct H as (_ & [-> _] & Hb). unfold budget, is_uint in *. lia.
Qed.
End Worker.

(** ** The fleet *)

Definition gave_up (r : Joined SubscriptionWorkerError) : bool :=
  match r with
  | Ok (Ok _) => false
  | Ok (Err _) => true
  | Err e => negb (JoinError.is_cancelled e)
  end.

Lemma join_fleet_length handles acc :
  length (join_fleet handles acc) =
    (length acc + length (List.filter (fun h => gave_up (snd h)) handles))%nat.
Proof.
  revert acc. induction handles as [|[target r] handles IH]; intros acc; cbn [join_fleet]; [simpl; lia|].
  rewrite IH. cbn [List.filter snd]. destruct r as [[[]|[]]|e]; cbn [gave_up length push_failure];
    rewrite ?length_app; simpl; try lia.
  unfold TaskEnd_from. destruct (JoinError.is_cancelled e); simpl; rewrite ?length_app; simpl; lia.
Qed.

Lemma filter_length_all {A} (f : A -> bool) l : length (List.filter f l) = length l <-> forallb f l = true.
Proof.
  induction l as [|a l IH]; simpl; [done|]. pose proof (filter_length_le f l).
  destruct (f a); simpl; [rewrite <- IH; lia|]. split; [lia|done].
Qed.

Section Fleet.
Context `{Base58} `{HttpHeaders}.

Lemma fleet_outcome_spec handles :
  (exists said, fleet_outcome (join_fleet handles []) (length handles) = Err (AllWorkersGaveUp said)) <->
  handles <> [] /\ forallb (fun h => gave_up (snd h)) handles = true.
Proof.
  rewrite <- filter_length_all. unfold fleet_outcome. rewrite join_fleet_length. cbn [length Nat.add].
  destruct (Nat.eqb_spec (length (List.filter (fun h => gave_up (snd h)) handles)) (length handles)) as [E|E];
    destruct handles as [|h handles]; simpl; naive_solver.
Qed.

Lemma fleet_outcome_Ok handles :
  fleet_outcome (join_fleet handles []) (length handles) = Ok tt <->
  ~ (handles <> [] /\ forallb (fun h => gave_up (snd h)) handles = true).
Proof.
  rewrite <- fleet_outcome_spec. unfold fleet_outcome. destruct (_ && _); naive_solver.
Qed.

(** Why a listener ends without a fleet: what the operator wrote. *)
Definition refused (endpoint : Endpoint.t) (watched : gset (Protocol * Pubkey)) : Prop :=
  (exists e, Credential.new (Endpoint.header endpoint) = Err e) \/
  (exists e, check_scheme (Endpoint.url endpoint) WEBSOCKET = Err e) \/ watched = ∅.

Definition targets_of (watched : gset (Protocol * Pubkey)) : list SubscriptionTarget.t :=
  map (fun pm => SubscriptionTarget.new (fst pm) (snd pm)) (elements watched).

Lemma targets_Ok watched targets :
  build_subscription_targets watched = Ok targets <-> targets = targets_of watched /\ watched <> ∅.
Proof.
  unfold build_subscription_targets. fold (targets_of watched).
  assert (targets_of watched = [] <-> watched = ∅) as He.
  { unfold targets_of. split; [|by intros ->; rewrite elements_empty].
    intros Hm. apply leibniz_equiv, elements_empty_inv. by destruct (elements watched). }
  destruct (targets_of watched) as [|t ts]; [naive_solver|].
  split; [intros [= <-]; split; [done|]; intros E; by apply He in E|by intros [-> _]].
Qed.

Lemma listener_run_spec endpoint watched ends shutdown :
  length ends = size watched ->
  listener_run endpoint watched ends shutdown = Ok tt <->
  ~ refused endpoint watched /\ (shutdown = true \/ forallb gave_up ends = false).
Proof.
  intros Hl. unfold listener_run, refused.
  destruct (Credential.new (Endpoint.header endpoint)) as [c|e]; cbn [map_err result_bind]; [|naive_solver].
  destruct (check_scheme (Endpoint.url endpoint) WEBSOCKET) as [[]|e]; cbn [map_err result_bind];
    [|naive_solver].
  destruct (decide (watched = ∅)) as [->|Hne].
  { unfold build_subscription_targets. rewrite elements_empty. cbn. naive_solver. }
  assert (build_subscription_targets watched = Ok (targets_of watched)) as -> by (by apply targets_Ok).
  cbn [result_bind].
  assert (length (targets_of watched) = length ends) as Hlen.
  { unfold targets_of. by rewrite length_map, Hl. }
  assert (length (targets_of watched) = length (zip (targets_of watched) ends)) as Hz.
  { rewrite length_zip_with. lia. }
  assert (forallb (fun h => gave_up (snd h)) (zip (targets_of watched) ends) = forallb gave_up ends) as Hf.
  { clear -Hlen. revert Hlen. generalize (targets_of watched). induction ends as [|e ends IH];
      intros [|t ts] Hlen; try done. simpl in *. rewrite IH; [done|lia]. }
  rewrite Hz. destruct shutdown; [split; [|done]; intros _; split; [naive_solver|by left]|].
  rewrite fleet_outcome_Ok, Hf.
  assert (zip (targets_of watched) ends <> []) as Hzne.
  { intros E. rewrite E in Hz. simpl in Hz. apply Hne. apply leibniz_equiv, size_empty_inv.
    rewrite <- Hl, <- Hlen, Hz. done. }
  destruct (forallb gave_up ends); naive_solver.
Qed.
End Fleet.

(** ** The source *)

Lemma drain_stages_Ok ended first handles :
  drain_stages ended first handles = Ok tt <->
  first = Ok tt /\ Forall (fun name => name <> ended -> join name (handles name) = Ok tt) STAGES.
Proof.
  unfold drain_stages. generalize STAGES as stages. intros stages. revert first.
  induction stages as [|name stages IH]; intros first; cbn [foldl]; [naive_solver|].
  rewrite IH, Forall_cons. destruct (String.eqb_spec ended name) as [->|Hne]; [naive_solver|].
  destruct first as [[]|e]; naive_solver.
Qed.

Lemma drain_stages_Err ended first handles e :
  drain_stages ended first handles = Err e ->
  first = Err e \/ exists name, In name STAGES /\ join name (handles name) = Err e.
Proof.
  unfold drain_stages. generalize STAGES as stages. intros stages. revert first.
  induction stages as [|name stages IH]; intros first; cbn [foldl]; [by left|].
  intros [Hf|(n & Hin & Hn)]%IH; [|right; exists n; split; [by right|done]].
  destruct (String.eqb ended name); [by left|]. destruct first as [[]|e']; [|by left].
  right. exists name. split; [by left|done].
Qed.

Lemma source_run_Ok ended handles :
  source_run ended handles = Some (Ok tt) <->
  (exists name, In name STAGES /\ ended name = true) /\
  Forall (fun name => join name (handles name) = Ok tt) STAGES.
Proof.
  unfold source_run. rewrite opt_bind_Some. split.
  - intros (name & [Hin He]%find_some & [= H]). apply drain_stages_Ok in H as [Hf Hall].
    split; [by exists name|]. eapply Forall_impl; [exact Hall|]. intros n Hn.
    destruct (decide (n = name)) as [->|]; [done|by apply Hn].
  - intros [(name & Hin & He) Hall]. destruct (find ended STAGES) as [n|] eqn:Hf.
    + exists n. split; [done|]. f_equal. apply drain_stages_Ok. apply find_some in Hf as [Hn _].
      split; [|by eapply Forall_impl; [exact Hall|]].
      rewrite Forall_forall in Hall. apply Hall. by apply list_elem_of_In.
    + by rewrite (find_none _ _ Hf name Hin) in He.
Qed.

(** The source stops cleanly exactly when a stage has ended and every
    stage, whichever the [select!] saw first, ended cleanly or was destroyed
    with the runtime; otherwise it reports the error of one of its stages.
    The listener in turn ends cleanly exactly when its configuration is sound
    and a shutdown was requested or some worker did not give up: a fleet of
    which every worker gave up, by exhausting its retries or by a panic, is
    never reported as a clean stop. *)
Theorem rpc_source_verdict `{Base58} `{HttpHeaders} endpoint watched ends shutdown ended handles :
  length ends = size watched ->
  handles LISTENER = Ok (map_err FromRpcListener (listener_run endpoint watched ends shutdown)) ->
  (source_run ended handles = Some (Ok tt) <->
    (exists name, In name STAGES /\ ended name = true) /\
    join DISPATCHER (handles DISPATCHER) = Ok tt /\ join FETCH (handles FETCH) = Ok tt /\
    ~ refused endpoint watched /\ (shutdown = true \/ forallb gave_up ends = false)) /\
  (forall e, source_run ended handles = Some (Err e) ->
    exists name, In name STAGES /\ join name (handles name) = Err e).
Proof.
  intros Hl Hlis. split.
  - rewrite source_run_Ok, <- (listener_run_spec endpoint watched ends shutdown Hl).
    assert (join LISTENER (handles LISTENER) = Ok tt <->
      listener_run endpoint watched ends shutdown = Ok tt) as Hj.
    { rewrite Hlis. destruct (listener_run endpoint watched ends shutdown) as [[]|e]; done. }
    unfold STAGES. rewrite !Forall_cons. rewrite Hj. naive_solver.
  - intros e He. unfold source_run in He. apply opt_bind_Some in He as (name & [Hin _]%find_some & [= He]).
    apply drain_stages_Err in He as [Hf|He]; [by exists name|done].
Qed.

(** *** Two workers that gave up while the consumers ended cleanly *)

#[global] Instance reference_headers : HttpHeaders := {
  header_name_try_from name := if all_chars (char_in "abcdefghijklmnopqrstuvwxyz-") name then Some name else None;
  header_value_from_str value := Some value;
}.

Definition public_endpoint : Endpoint.t := Endpoint.new "wss://api.example.com" None None.
Definition two_watched : gset (Protocol * Pubkey) :=
  watch_pool (watch ∅ MeteoraDammV2) MeteoraDammV2 (repeat 7 32).
Definition exhausted (mention : Pubkey) : Joined SubscriptionWorkerError :=
  Ok (Err (WorkerExhausted (SubscriptionTarget.new MeteoraDammV2 mention) 7 "refused")).
Definition two_ends : list (Joined SubscriptionWorkerError) :=
  [exhausted (repeat 7 32); Err (JoinError.mk false "boom")].
Definition dead_handles (name : string) : Joined SourceError :=
  if String.eqb name LISTENER
  then Ok (map_err FromRpcListener (listener_run public_endpoint two_watched two_ends false))
  else Ok (Ok tt).

Lemma rpc_source_verdict_witness :
  source_run (fun _ => true) dead_handles <> Some (Ok tt).
Proof.
  intros E. destruct (rpc_source_verdict public_endpoint two_watched two_ends false (fun _ => true)
    dead_handles) as [Hok _]; [vm_compute; reflexivity|reflexivity|].
  apply Hok in E as (_ & _ & _ & _ & [E|E]); [discriminate E|]. vm_compute in E. discriminate E.
Defined.
