(* ===== verification/Store.v ===== *)
(** * The tables the indexer writes

    [src/crates/persistence/src/repositories/]: the event tables of
    meteora/damm_v2/, pool.rs and pool_current_state.rs, as the statements the
    repositories send: a statement is atomic, and may fail as the class
    [Postgres] decides. Addresses and signatures are stored as their bytes,
    their text being injective. *)

From S2P Require Import Prelude Errors External Domain.

(** ** Postgres: which statements fail, and [NOW()] at each *)

Class Postgres : Type := {
  fault : nat -> option RepositoryError;
  db_now : nat -> DateTime;
}.

(** ** Rows *)

Inductive LastEventKind : Type :=
| LastSwap
| LiquidityAdd
| LiquidityRemove.

#[global] Instance LastEventKind_eq_dec : EqDecision LastEventKind.
Proof. solve_decision. Defined.

Definition LastEventKind_from (kind : MeteoraDammV2LiquidityEventKind) : LastEventKind :=
  match kind with
  | Add => LiquidityAdd
  | Remove => LiquidityRemove
  end.

Module PoolRow.
Record t : Type := mk {
  protocol : Protocol;
  token_a_mint : option Pubkey;
  token_b_mint : option Pubkey;
  first_seen_at : DateTime;
  last_seen_at : DateTime;
  needs_refresh : bool;
}.
End PoolRow.

Module PoolCurrentStateRow.
Record t : Type := mk {
  protocol : Protocol;
  last_event_at : DateTime;
  last_event_kind : LastEventKind;
  last_signature : Signature;
  reserve_a : Z;
  reserve_b : Z;
  last_sqrt_price : option Z;
  last_swap_at : option DateTime;
  last_slot : Z;
  last_event_index : Z;
  last_transaction_index : option Z;
}.
End PoolCurrentStateRow.

Module Db.
Record t : Type := mk {
  events : list MeteoraDammV2Event.t;            (** the rows of the event tables *)
  pools : gmap Pubkey PoolRow.t;
  pool_current_state : gmap Pubkey PoolCurrentStateRow.t;
  statements : nat;                              (** the statements sent so far *)
}.

Definition empty : t := mk [] ∅ ∅ 0.
Definition set_events (d : t) (e : list MeteoraDammV2Event.t) : t :=
  mk e (pools d) (pool_current_state d) (statements d).
Definition set_pools (d : t) (p : gmap Pubkey PoolRow.t) : t :=
  mk (events d) p (pool_current_state d) (statements d).
Definition set_state (d : t) (s : gmap Pubkey PoolCurrentStateRow.t) : t :=
  mk (events d) (pools d) s (statements d).
Definition sent (d : t) : t := mk (events d) (pools d) (pool_current_state d) (S (statements d)).
End Db.

(** One statement: it fails as a whole, or changes the tables. *)
Definition execute `{Postgres} {A} (d : Db.t) (statement : DateTime -> Db.t -> Db.t * A) :
    Db.t * RepositoryResult A :=
  let n := Db.statements d in
  let d := Db.sent d in
  match fault n with
  | Some e => (d, Err e)
  | None => let (d, a) := statement (db_now n) d in (d, Ok a)
  end.

(** ** [helper/parser.rs] *)

Definition out_of_range : string := "out of range integral type conversion attempted".

Definition convert_u64_to_i64 (v : Z) (field : string) : RepositoryResult Z :=
  ok_or (try_int 64 v) (Integrity ("invalid " ++ field ++ ": " ++ out_of_range)).

(** ** The event tables: the [BIGINT] binds of each, in order *)

Definition swap_event_bigints (e : MeteoraDammV2SwapEvent.t) : list (string * Z) :=
  [("amount_a", MeteoraDammV2SwapEvent.amount_a e); ("amount_b", MeteoraDammV2SwapEvent.amount_b
   e); ("reserve_a_after", MeteoraDammV2SwapEvent.reserve_a_after e); ("reserve_b_after",
   MeteoraDammV2SwapEvent.reserve_b_after e); ("claiming_fee",
   MeteoraDammV2SwapEvent.claiming_fee e); ("protocol_fee", MeteoraDammV2SwapEvent.protocol_fee
   e); ("compounding_fee", MeteoraDammV2SwapEvent.compounding_fee e); ("referral_fee",
   MeteoraDammV2SwapEvent.referral_fee e); ("slot", MeteoraDammV2SwapEvent.slot e)].
Definition liquidity_event_bigints (e : MeteoraDammV2LiquidityEvent.t) : list (string * Z) :=
  [("amount_a", MeteoraDammV2LiquidityEvent.amount_a e); ("amount_b",
   MeteoraDammV2LiquidityEvent.amount_b e); ("reserve_a_after",
   MeteoraDammV2LiquidityEvent.reserve_a_after e); ("reserve_b_after",
   MeteoraDammV2LiquidityEvent.reserve_b_after e); ("slot", MeteoraDammV2LiquidityEvent.slot e)].
Definition claim_position_fee_bigints (e : MeteoraDammV2ClaimPositionFeeEvent.t) : list (string * Z) :=
  [("fee_a_claimed", MeteoraDammV2ClaimPositionFeeEvent.fee_a_claimed e); ("fee_b_claimed",
   MeteoraDammV2ClaimPositionFeeEvent.fee_b_claimed e); ("slot",
   MeteoraDammV2ClaimPositionFeeEvent.slot e)].
Definition claim_reward_bigints (e : MeteoraDammV2ClaimRewardEvent.t) : list (string * Z) :=
  [("total_reward", MeteoraDammV2ClaimRewardEvent.total_reward e); ("slot",
   MeteoraDammV2ClaimRewardEvent.slot e)].
Definition claim_protocol_fee_bigints (e : MeteoraDammV2ClaimProtocolFeeEvent.t) : list (string * Z) :=
  [("token_a_amount", MeteoraDammV2ClaimProtocolFeeEvent.token_a_amount e); ("token_b_amount",
   MeteoraDammV2ClaimProtocolFeeEvent.token_b_amount e); ("slot",
   MeteoraDammV2ClaimProtocolFeeEvent.slot e)].
Definition initialize_reward_bigints (e : MeteoraDammV2InitializeRewardEvent.t) : list (string * Z) :=
  [("reward_duration", MeteoraDammV2InitializeRewardEvent.reward_duration e); ("slot",
   MeteoraDammV2InitializeRewardEvent.slot e)].
Definition fund_reward_bigints (e : MeteoraDammV2FundRewardEvent.t) : list (string * Z) :=
  [("amount", MeteoraDammV2FundRewardEvent.amount e); ("transfer_fee_excluded_amount_in",
   MeteoraDammV2FundRewardEvent.transfer_fee_excluded_amount_in e); ("reward_duration_end",
   MeteoraDammV2FundRewardEvent.reward_duration_end e); ("slot",
   MeteoraDammV2FundRewardEvent.slot e)].
Definition withdraw_ineligible_reward_bigints (e : MeteoraDammV2WithdrawIneligibleRewardEvent.t) : list (string * Z) :=
  [("amount", MeteoraDammV2WithdrawIneligibleRewardEvent.amount e); ("slot",
   MeteoraDammV2WithdrawIneligibleRewardEvent.slot e)].
Definition update_reward_duration_bigints (e : MeteoraDammV2UpdateRewardDurationEvent.t) : list (string * Z) :=
  [("old_reward_duration", MeteoraDammV2UpdateRewardDurationEvent.old_reward_duration e);
   ("new_reward_duration", MeteoraDammV2UpdateRewardDurationEvent.new_reward_duration e);
   ("slot", MeteoraDammV2UpdateRewardDurationEvent.slot e)].
Definition update_reward_funder_bigints (e : MeteoraDammV2UpdateRewardFunderEvent.t) : list (string * Z) :=
  [("slot", MeteoraDammV2UpdateRewardFunderEvent.slot e)].
Definition withdraw_dead_liquidity_reward_bigints (e : MeteoraDammV2WithdrawDeadLiquidityRewardEvent.t) : list (string * Z) :=
  [("amount", MeteoraDammV2WithdrawDeadLiquidityRewardEvent.amount e); ("slot",
   MeteoraDammV2WithdrawDeadLiquidityRewardEvent.slot e)].
Definition split_position_bigints (e : MeteoraDammV2SplitPositionEvent.t) : list (string * Z) :=
  [("split_fee_a", MeteoraDammV2SplitAmounts.fee_a (MeteoraDammV2SplitPositionEvent.amounts e));
   ("split_fee_b", MeteoraDammV2SplitAmounts.fee_b (MeteoraDammV2SplitPositionEvent.amounts e));
   ("split_reward_0", MeteoraDammV2SplitAmounts.reward_0
   (MeteoraDammV2SplitPositionEvent.amounts e)); ("split_reward_1",
   MeteoraDammV2SplitAmounts.reward_1 (MeteoraDammV2SplitPositionEvent.amounts e));
   ("first_fee_a", MeteoraDammV2SplitPositionState.fee_a
   (MeteoraDammV2SplitPositionEvent.first_position_after e)); ("first_fee_b",
   MeteoraDammV2SplitPositionState.fee_b (MeteoraDammV2SplitPositionEvent.first_position_after
   e)); ("first_reward_0", MeteoraDammV2SplitPositionState.reward_0
   (MeteoraDammV2SplitPositionEvent.first_position_after e)); ("first_reward_1",
   MeteoraDammV2SplitPositionState.reward_1
   (MeteoraDammV2SplitPositionEvent.first_position_after e)); ("second_fee_a",
   MeteoraDammV2SplitPositionState.fee_a (MeteoraDammV2SplitPositionEvent.second_position_after
   e)); ("second_fee_b", MeteoraDammV2SplitPositionState.fee_b
   (MeteoraDammV2SplitPositionEvent.second_position_after e)); ("second_reward_0",
   MeteoraDammV2SplitPositionState.reward_0
   (MeteoraDammV2SplitPositionEvent.second_position_after e)); ("second_reward_1",
   MeteoraDammV2SplitPositionState.reward_1
   (MeteoraDammV2SplitPositionEvent.second_position_after e)); ("slot",
   MeteoraDammV2SplitPositionEvent.slot e)].
Definition create_position_bigints (e : MeteoraDammV2CreatePositionEvent.t) : list (string * Z) :=
  [("slot", MeteoraDammV2CreatePositionEvent.slot e)].
Definition close_position_bigints (e : MeteoraDammV2ClosePositionEvent.t) : list (string * Z) :=
  [("slot", MeteoraDammV2ClosePositionEvent.slot e)].
Definition lock_position_bigints (e : MeteoraDammV2LockPositionEvent.t) : list (string * Z) :=
  [("cliff_point", MeteoraDammV2LockPositionEvent.cliff_point e); ("period_frequency",
   MeteoraDammV2LockPositionEvent.period_frequency e); ("slot",
   MeteoraDammV2LockPositionEvent.slot e)].
Definition permanent_lock_position_bigints (e : MeteoraDammV2PermanentLockPositionEvent.t) : list (string * Z) :=
  [("slot", MeteoraDammV2PermanentLockPositionEvent.slot e)].
Definition initialize_pool_bigints (e : MeteoraDammV2InitializePoolEvent.t) : list (string * Z) :=
  [("activation_point", MeteoraDammV2InitializePoolEvent.activation_point e); ("token_a_amount",
   MeteoraDammV2InitializePoolEvent.token_a_amount e); ("token_b_amount",
   MeteoraDammV2InitializePoolEvent.token_b_amount e); ("total_amount_a",
   MeteoraDammV2InitializePoolEvent.total_amount_a e); ("total_amount_b",
   MeteoraDammV2InitializePoolEvent.total_amount_b e); ("slot",
   MeteoraDammV2InitializePoolEvent.slot e)].
Definition set_pool_status_bigints (e : MeteoraDammV2SetPoolStatusEvent.t) : list (string * Z) :=
  [("slot", MeteoraDammV2SetPoolStatusEvent.slot e)].
Definition update_pool_fees_bigints (e : MeteoraDammV2UpdatePoolFeesEvent.t) : list (string * Z) :=
  [("slot", MeteoraDammV2UpdatePoolFeesEvent.slot e)].

Definition bigints (w : MeteoraDammV2Event.t) : list (string * Z) :=
  match w with
  | MeteoraDammV2Event.Swap e => swap_event_bigints e
  | MeteoraDammV2Event.Liquidity e => liquidity_event_bigints e
  | MeteoraDammV2Event.ClaimPositionFee e => claim_position_fee_bigints e
  | MeteoraDammV2Event.ClaimReward e => claim_reward_bigints e
  | MeteoraDammV2Event.ClaimProtocolFee e => claim_protocol_fee_bigints e
  | MeteoraDammV2Event.InitializeReward e => initialize_reward_bigints e
  | MeteoraDammV2Event.FundReward e => fund_reward_bigints e
  | MeteoraDammV2Event.WithdrawIneligibleReward e => withdraw_ineligible_reward_bigints e
  | MeteoraDammV2Event.UpdateRewardDuration e => update_reward_duration_bigints e
  | MeteoraDammV2Event.UpdateRewardFunder e => update_reward_funder_bigints e
  | MeteoraDammV2Event.WithdrawDeadLiquidityReward e => withdraw_dead_liquidity_reward_bigints e
  | MeteoraDammV2Event.SplitPosition e => split_position_bigints e
  | MeteoraDammV2Event.CreatePosition e => create_position_bigints e
  | MeteoraDammV2Event.ClosePosition e => close_position_bigints e
  | MeteoraDammV2Event.LockPosition e => lock_position_bigints e
  | MeteoraDammV2Event.PermanentLockPosition e => permanent_lock_position_bigints e
  | MeteoraDammV2Event.InitializePool e => initialize_pool_bigints e
  | MeteoraDammV2Event.SetPoolStatus e => set_pool_status_bigints e
  | MeteoraDammV2Event.UpdatePoolFees e => update_pool_fees_bigints e
  end.

Definition table (w : MeteoraDammV2Event.t) : string :=
  match w with
  | MeteoraDammV2Event.Swap _ => "meteora_damm_v2_swap_events"
  | MeteoraDammV2Event.Liquidity _ => "meteora_damm_v2_liquidity_events"
  | MeteoraDammV2Event.ClaimPositionFee _ => "meteora_damm_v2_claim_position_fee_events"
  | MeteoraDammV2Event.ClaimReward _ => "meteora_damm_v2_claim_reward_events"
  | MeteoraDammV2Event.ClaimProtocolFee _ => "meteora_damm_v2_claim_protocol_fee_events"
  | MeteoraDammV2Event.InitializeReward _ => "meteora_damm_v2_initialize_reward_events"
  | MeteoraDammV2Event.FundReward _ => "meteora_damm_v2_fund_reward_events"
  | MeteoraDammV2Event.WithdrawIneligibleReward _ => "meteora_damm_v2_withdraw_ineligible_reward_events"
  | MeteoraDammV2Event.UpdateRewardDuration _ => "meteora_damm_v2_update_reward_duration_events"
  | MeteoraDammV2Event.UpdateRewardFunder _ => "meteora_damm_v2_update_reward_funder_events"
  | MeteoraDammV2Event.WithdrawDeadLiquidityReward _ => "meteora_damm_v2_withdraw_dead_liquidity_reward_events"
  | MeteoraDammV2Event.SplitPosition _ => "meteora_damm_v2_split_position_events"
  | MeteoraDammV2Event.CreatePosition _ => "meteora_damm_v2_create_position_events"
  | MeteoraDammV2Event.ClosePosition _ => "meteora_damm_v2_close_position_events"
  | MeteoraDammV2Event.LockPosition _ => "meteora_damm_v2_lock_position_events"
  | MeteoraDammV2Event.PermanentLockPosition _ => "meteora_damm_v2_permanent_lock_position_events"
  | MeteoraDammV2Event.InitializePool _ => "meteora_damm_v2_initialize_pool_events"
  | MeteoraDammV2Event.SetPoolStatus _ => "meteora_damm_v2_set_pool_status_events"
  | MeteoraDammV2Event.UpdatePoolFees _ => "meteora_damm_v2_update_pool_fees_events"
  end.

(** The conversions of an insert, the first error returned. *)
Fixpoint convert_all (binds : list (string * Z)) : RepositoryResult unit :=
  match binds with
  | [] => Ok ()
  | (field, v) :: binds => let? _ := convert_u64_to_i64 v field in convert_all binds
  end.

(** The unique key of every event table. *)
Definition event_key (w : MeteoraDammV2Event.t) : Signature * Z * DateTime :=
  let p := MeteoraDammV2Event.position_of w in
  (EventPosition.signature p, EventPosition.event_index p, EventPosition.timestamp p).

Definition same_row (a b : MeteoraDammV2Event.t) : bool :=
  bool_decide (table a = table b) && bool_decide (event_key a = event_key b).

(** [INSERT ... ON CONFLICT (signature, event_index, timestamp) DO NOTHING]. *)
Definition insert_event `{Postgres} (d : Db.t) (w : MeteoraDammV2Event.t) :
    Db.t * RepositoryResult InsertOutcome :=
  match convert_all (bigints w) with
  | Err e => (d, Err e)
  | Ok _ =>
    let (d, rows) := execute d (fun _ d =>
      if existsb (same_row w) (Db.events d) then (d, 0)
      else (Db.set_events d (Db.events d ++ [w]), 1)) in
    (d, result_map InsertOutcome_from_rows_affected rows)
  end.

(** ** [pool.rs] *)

Module Pool.
Record t : Type := mk {
  pool_address : Pubkey;
  protocol : Protocol;
  token_a_mint : option Pubkey;
  token_b_mint : option Pubkey;
  last_seen_at : DateTime;
}.
End Pool.

(** Two statements: the [UPDATE], then the [INSERT] if it met no row. *)
Definition upsert_pool `{Postgres} (d : Db.t) (pool : Pool.t) : Db.t * RepositoryResult unit :=
  let address := Pool.pool_address pool in
  let (d, updated) := execute d (fun now d =>
    match Db.pools d !! address with
    | None => (d, 0)
    | Some r =>
        let seen := Z.max (Z.min (PoolRow.last_seen_at r) now) (Z.min (Pool.last_seen_at pool) now) in
        (Db.set_pools d (<[address := PoolRow.mk (PoolRow.protocol r) (PoolRow.token_a_mint r)
            (PoolRow.token_b_mint r) (PoolRow.first_seen_at r) seen (PoolRow.needs_refresh r)]>
          (Db.pools d)), 1)
    end) in
  match updated with
  | Err e => (d, Err e)
  | Ok rows =>
    if 0 <? rows then (d, Ok ())
    else
      execute d (fun now d =>
        match Db.pools d !! address with
        | Some _ => (d, ())
        | None =>
            let seen := Z.min (Pool.last_seen_at pool) now in
            (Db.set_pools d (<[address := PoolRow.mk (Pool.protocol pool) (Pool.token_a_mint pool)
                (Pool.token_b_mint pool) seen seen false]> (Db.pools d)), ())
        end)
  end.

Definition touch_last_seen `{Postgres} (d : Db.t) (address : Pubkey) : Db.t * RepositoryResult unit :=
  execute d (fun now d =>
    match Db.pools d !! address with
    | None => (d, ())
    | Some r =>
        (Db.set_pools d (<[address := PoolRow.mk (PoolRow.protocol r) (PoolRow.token_a_mint r)
            (PoolRow.token_b_mint r) (PoolRow.first_seen_at r) now (PoolRow.needs_refresh r)]>
          (Db.pools d)), ())
    end).

Definition mark_needs_refresh `{Postgres} (d : Db.t) (address : Pubkey) : Db.t * RepositoryResult unit :=
  execute d (fun _ d =>
    match Db.pools d !! address with
    | None => (d, ())
    | Some r =>
        (Db.set_pools d (<[address := PoolRow.mk (PoolRow.protocol r) (PoolRow.token_a_mint r)
            (PoolRow.token_b_mint r) (PoolRow.first_seen_at r) (PoolRow.last_seen_at r) true]>
          (Db.pools d)), ())
    end).

(** ** [pool_current_state] *)

Module PoolCurrentStateUpsert.
Record t : Type := mk {
  pool_address : Pubkey;
  protocol : Protocol;
  event_position : EventPosition.t;
  event_kind : LastEventKind;
  reserve_a : Z;
  reserve_b : Z;
  sqrt_price : option Z;
}.

Definition from_swap (pool_address : Pubkey) (protocol : Protocol) (event_position : EventPosition.t)
    (reserve_a reserve_b sqrt_price : Z) : t :=
  mk pool_address protocol event_position LastSwap reserve_a reserve_b (Some sqrt_price).

Definition from_liquidity (pool_address : Pubkey) (protocol : Protocol)
    (event_position : EventPosition.t) (kind : MeteoraDammV2LiquidityEventKind)
    (reserve_a reserve_b : Z) : t :=
  mk pool_address protocol event_position (LastEventKind_from kind) reserve_a reserve_b None.
End PoolCurrentStateUpsert.

Module PoolCurrentStateUpsertOutcome.
Record t : Type := mk {
  applied : bool;
  same_slot_ambiguity : bool;
}.
End PoolCurrentStateUpsertOutcome.

(** [(slot, transaction_index, event_index)], compared in that order; the
    second is 0 when it is not known. *)
Definition order_key : Type := Z * Z * Z.

Definition key_ltb (a b : order_key) : bool :=
  let '(a1, a2, a3) := a in
  let '(b1, b2, b3) := b in
  (a1 <? b1) || ((a1 =? b1) && ((a2 <? b2) || ((a2 =? b2) && (a3 <? b3)))).

Definition position_key (p : EventPosition.t) : order_key :=
  (EventPosition.slot p, default 0 (EventPosition.transaction_index p), EventPosition.event_index p).

Definition row_key (r : PoolCurrentStateRow.t) : order_key :=
  (PoolCurrentStateRow.last_slot r, default 0 (PoolCurrentStateRow.last_transaction_index r),
   PoolCurrentStateRow.last_event_index r).

Definition last_swap_at_of (u : PoolCurrentStateUpsert.t) : option DateTime :=
  match PoolCurrentStateUpsert.event_kind u with
  | LastSwap => Some (EventPosition.timestamp (PoolCurrentStateUpsert.event_position u))
  | _ => None
  end.

(** [COALESCE(excluded, stored)]. *)
Definition coalesce {A} (a b : option A) : option A :=
  match a with Some a => Some a | None => b end.

(** The row an upsert writes, over the stored one when there is one. *)
Definition upserted_row (u : PoolCurrentStateUpsert.t) (stored : option PoolCurrentStateRow.t) :
    PoolCurrentStateRow.t :=
  let p := PoolCurrentStateUpsert.event_position u in
  {|
    PoolCurrentStateRow.protocol := PoolCurrentStateUpsert.protocol u;
    PoolCurrentStateRow.last_event_at := EventPosition.timestamp p;
    PoolCurrentStateRow.last_event_kind := PoolCurrentStateUpsert.event_kind u;
    PoolCurrentStateRow.last_signature := EventPosition.signature p;
    PoolCurrentStateRow.reserve_a := PoolCurrentStateUpsert.reserve_a u;
    PoolCurrentStateRow.reserve_b := PoolCurrentStateUpsert.reserve_b u;
    PoolCurrentStateRow.last_sqrt_price :=
      coalesce (PoolCurrentStateUpsert.sqrt_price u)
        (stored ≫= PoolCurrentStateRow.last_sqrt_price);
    PoolCurrentStateRow.last_swap_at :=
      coalesce (last_swap_at_of u) (stored ≫= PoolCurrentStateRow.last_swap_at);
    PoolCurrentStateRow.last_slot := EventPosition.slot p;
    PoolCurrentStateRow.last_event_index := EventPosition.event_index p;
    PoolCurrentStateRow.last_transaction_index := EventPosition.transaction_index p;
  |}.

(** The guarded upsert on one row, and whether it applied. *)
Definition upsert_row (u : PoolCurrentStateUpsert.t) (stored : option PoolCurrentStateRow.t) :
    option PoolCurrentStateRow.t * bool :=
  match stored with
  | None => (Some (upserted_row u None), true)
  | Some r =>
      if key_ltb (row_key r) (position_key (PoolCurrentStateUpsert.event_position u))
      then (Some (upserted_row u (Some r)), true)
      else (Some r, false)
  end.

Definition upsert_state `{Postgres} (d : Db.t) (u : PoolCurrentStateUpsert.t) :
    Db.t * RepositoryResult PoolCurrentStateUpsertOutcome.t :=
  let p := PoolCurrentStateUpsert.event_position u in
  match convert_all [("reserve_a", PoolCurrentStateUpsert.reserve_a u);
      ("reserve_b", PoolCurrentStateUpsert.reserve_b u); ("slot", EventPosition.slot p)] with
  | Err e => (d, Err e)
  | Ok _ =>
    execute d (fun _ d =>
      let address := PoolCurrentStateUpsert.pool_address u in
      let previous := Db.pool_current_state d !! address in
      let (row, applied) := upsert_row u previous in
      let ambiguity :=
        match previous with
        | Some r => (PoolCurrentStateRow.last_slot r =? EventPosition.slot p) &&
            negb (bool_decide (PoolCurrentStateRow.last_signature r = EventPosition.signature p))
        | None => false
        end in
      (Db.set_state d (partial_alter (fun _ => row) address (Db.pool_current_state d)),
       PoolCurrentStateUpsertOutcome.mk applied ambiguity))
  end.
