(* ===== verification/Rows.v ===== *)
(** * Rows read back

    [src/crates/persistence/src/repositories/]: helper/parser.rs and the
    [TryFrom] of every event row (rows.rs of each list's repository). A row of
    [Store.v] is the event it was written from, its addresses and signature
    being texts in the table: each column is converted as the source does,
    narrowed from the wider integer it is stored in, and refused when it does
    not fit. *)

From S2P Require Import Prelude Errors External Domain Store.

Section Rows.
Context `{Base58} `{SignatureDisplay} `{SignatureFromStr}.

(** ** [helper/parser.rs] *)

Definition convert_string_to_pubkey (key field : string) : RepositoryResult Pubkey :=
  ok_or (pubkey_of_string key) (Integrity ("invalid " ++ field ++ " pubkey")).

Definition convert_string_to_signature (raw field : string) : RepositoryResult Signature :=
  ok_or (signature_of_string raw) (Integrity ("invalid " ++ field ++ " signature")).

(** An integer column, narrowed to [w] bits. *)
Definition narrow (w v : Z) (field : string) : RepositoryResult Z :=
  ok_or (try_uint w v) (Integrity ("invalid " ++ field ++ ": " ++ pretty.pretty v)).

Definition convert_i32_to_u16 (v : Z) (field : string) : RepositoryResult Z := narrow 16 v field.
Definition convert_i64_to_u32 (v : Z) (field : string) : RepositoryResult Z := narrow 32 v field.
Definition convert_i64_to_u64 (v : Z) (field : string) : RepositoryResult Z := narrow 64 v field.
Definition convert_i16_to_u8 (v : Z) (field : string) : RepositoryResult Z := narrow 8 v field.

Definition convert_bigdecimal_to_u128 (v : Z) (field : string) : RepositoryResult Z :=
  ok_or (try_uint 128 v) (Integrity (field ++ " parse error")).

Definition convert_optional {T U} (value : option T) (field : string)
    (convert : T -> string -> RepositoryResult U) : RepositoryResult (option U) :=
  match value with
  | Some v => result_map Some (convert v field)
  | None => Ok None
  end.

Definition convert_trade_direction (raw : string) : RepositoryResult TradeDirection :=
  map_err (fun _ => Integrity ("invalid trade_direction: " ++ raw)) (TradeDirection_from_str raw).

Definition convert_liquidity_event_kind (raw : string) :
    RepositoryResult MeteoraDammV2LiquidityEventKind :=
  map_err (fun _ => Integrity ("invalid liquidity_event_kind: " ++ raw)) (LiquidityEventKind_from_str raw).

(** ** [rows.rs] *)

Definition MeteoraDammV2SwapEvent_try_from (row : MeteoraDammV2SwapEvent.t) :
    RepositoryResult MeteoraDammV2SwapEvent.t :=
  let? pool_address :=
    convert_string_to_pubkey (pubkey_to_string (MeteoraDammV2SwapEvent.pool_address row)) "pool_address" in
  let? signature :=
    convert_string_to_signature (signature_to_string (MeteoraDammV2SwapEvent.signature row)) "signature" in
  let? slot := convert_i64_to_u64 (MeteoraDammV2SwapEvent.slot row) "slot" in
  let? transaction_index :=
    convert_optional (MeteoraDammV2SwapEvent.transaction_index row) "transaction_index" convert_i64_to_u32 in
  let? event_index := convert_i32_to_u16 (MeteoraDammV2SwapEvent.event_index row) "event_index" in
  let? trade_direction :=
    convert_trade_direction (TradeDirection_as_str (MeteoraDammV2SwapEvent.trade_direction row)) in
  let? amount_a := convert_i64_to_u64 (MeteoraDammV2SwapEvent.amount_a row) "amount_a" in
  let? amount_b := convert_i64_to_u64 (MeteoraDammV2SwapEvent.amount_b row) "amount_b" in
  let? reserve_a_after :=
    convert_i64_to_u64 (MeteoraDammV2SwapEvent.reserve_a_after row) "reserve_a_after" in
  let? reserve_b_after :=
    convert_i64_to_u64 (MeteoraDammV2SwapEvent.reserve_b_after row) "reserve_b_after" in
  let? next_sqrt_price :=
    convert_bigdecimal_to_u128 (MeteoraDammV2SwapEvent.next_sqrt_price row) "next_sqrt_price" in
  let? claiming_fee := convert_i64_to_u64 (MeteoraDammV2SwapEvent.claiming_fee row) "claiming_fee" in
  let? protocol_fee := convert_i64_to_u64 (MeteoraDammV2SwapEvent.protocol_fee row) "protocol_fee" in
  let? compounding_fee :=
    convert_i64_to_u64 (MeteoraDammV2SwapEvent.compounding_fee row) "compounding_fee" in
  let? referral_fee := convert_i64_to_u64 (MeteoraDammV2SwapEvent.referral_fee row) "referral_fee" in
  Ok {|
    MeteoraDammV2SwapEvent.pool_address := pool_address;
    MeteoraDammV2SwapEvent.signature := signature;
    MeteoraDammV2SwapEvent.timestamp := MeteoraDammV2SwapEvent.timestamp row;
    MeteoraDammV2SwapEvent.slot := slot;
    MeteoraDammV2SwapEvent.transaction_index := transaction_index;
    MeteoraDammV2SwapEvent.event_index := event_index;
    MeteoraDammV2SwapEvent.trade_direction := trade_direction;
    MeteoraDammV2SwapEvent.amount_a := amount_a;
    MeteoraDammV2SwapEvent.amount_b := amount_b;
    MeteoraDammV2SwapEvent.reserve_a_after := reserve_a_after;
    MeteoraDammV2SwapEvent.reserve_b_after := reserve_b_after;
    MeteoraDammV2SwapEvent.next_sqrt_price := next_sqrt_price;
    MeteoraDammV2SwapEvent.claiming_fee := claiming_fee;
    MeteoraDammV2SwapEvent.protocol_fee := protocol_fee;
    MeteoraDammV2SwapEvent.compounding_fee := compounding_fee;
    MeteoraDammV2SwapEvent.referral_fee := referral_fee;
    MeteoraDammV2SwapEvent.fee_token_is_a := MeteoraDammV2SwapEvent.fee_token_is_a row;
  |}.

Definition MeteoraDammV2LiquidityEvent_try_from (row : MeteoraDammV2LiquidityEvent.t) :
    RepositoryResult MeteoraDammV2LiquidityEvent.t :=
  let? pool_address :=
    convert_string_to_pubkey (pubkey_to_string (MeteoraDammV2LiquidityEvent.pool_address row)) "pool_address" in
  let? signature :=
    convert_string_to_signature (signature_to_string (MeteoraDammV2LiquidityEvent.signature row)) "signature" in
  let? slot := convert_i64_to_u64 (MeteoraDammV2LiquidityEvent.slot row) "slot" in
  let? transaction_index :=
    convert_optional (MeteoraDammV2LiquidityEvent.transaction_index row) "transaction_index" convert_i64_to_u32 in
  let? event_index := convert_i32_to_u16 (MeteoraDammV2LiquidityEvent.event_index row) "event_index" in
  let? liquidity_event_kind :=
    convert_liquidity_event_kind
      (LiquidityEventKind_as_str (MeteoraDammV2LiquidityEvent.liquidity_event_kind row)) in
  let? amount_a := convert_i64_to_u64 (MeteoraDammV2LiquidityEvent.amount_a row) "amount_a" in
  let? amount_b := convert_i64_to_u64 (MeteoraDammV2LiquidityEvent.amount_b row) "amount_b" in
  let? liquidity_delta :=
    convert_bigdecimal_to_u128 (MeteoraDammV2LiquidityEvent.liquidity_delta row) "liquidity_delta" in
  let? reserve_a_after :=
    convert_i64_to_u64 (MeteoraDammV2LiquidityEvent.reserve_a_after row) "reserve_a_after" in
  let? reserve_b_after :=
    convert_i64_to_u64 (MeteoraDammV2LiquidityEvent.reserve_b_after row) "reserve_b_after" in
  let? position :=
    convert_string_to_pubkey (pubkey_to_string (MeteoraDammV2LiquidityEvent.position row)) "position" in
  let? owner :=
    convert_string_to_pubkey (pubkey_to_string (MeteoraDammV2LiquidityEvent.owner row)) "owner" in
  Ok {|
    MeteoraDammV2LiquidityEvent.pool_address := pool_address;
    MeteoraDammV2LiquidityEvent.signature := signature;
    MeteoraDammV2LiquidityEvent.timestamp := MeteoraDammV2LiquidityEvent.timestamp row;
    MeteoraDammV2LiquidityEvent.slot := slot;
    MeteoraDammV2LiquidityEvent.transaction_index := transaction_index;
    MeteoraDammV2LiquidityEvent.event_index := event_index;
    MeteoraDammV2LiquidityEvent.liquidity_event_kind := liquidity_event_kind;
    MeteoraDammV2LiquidityEvent.amount_a := amount_a;
    MeteoraDammV2LiquidityEvent.amount_b := amount_b;
    MeteoraDammV2LiquidityEvent.liquidity_delta := liquidity_delta;
    MeteoraDammV2LiquidityEvent.reserve_a_after := reserve_a_after;
    MeteoraDammV2LiquidityEvent.reserve_b_after := reserve_b_after;
    MeteoraDammV2LiquidityEvent.position := position;
    MeteoraDammV2LiquidityEvent.owner := owner;
  |}.

Definition MeteoraDammV2InitializePoolEvent_try_from (row : MeteoraDammV2InitializePoolEvent.t) :
    RepositoryResult MeteoraDammV2InitializePoolEvent.t :=
  let? pool_address :=
    convert_string_to_pubkey (pubkey_to_string (MeteoraDammV2InitializePoolEvent.pool_address row)) "pool_address" in
  let? signature :=
    convert_string_to_signature (signature_to_string (MeteoraDammV2InitializePoolEvent.signature row)) "signature" in
  let? slot := convert_i64_to_u64 (MeteoraDammV2InitializePoolEvent.slot row) "slot" in
  let? transaction_index :=
    convert_optional (MeteoraDammV2InitializePoolEvent.transaction_index row) "transaction_index" convert_i64_to_u32 in
  let? event_index :=
    convert_i32_to_u16 (MeteoraDammV2InitializePoolEvent.event_index row) "event_index" in
  let? token_a_mint :=
    convert_string_to_pubkey (pubkey_to_string (MeteoraDammV2InitializePoolEvent.token_a_mint row)) "token_a_mint" in
  let? token_b_mint :=
    convert_string_to_pubkey (pubkey_to_string (MeteoraDammV2InitializePoolEvent.token_b_mint row)) "token_b_mint" in
  let? creator :=
    convert_string_to_pubkey (pubkey_to_string (MeteoraDammV2InitializePoolEvent.creator row)) "creator" in
  let? payer :=
    convert_string_to_pubkey (pubkey_to_string (MeteoraDammV2InitializePoolEvent.payer row)) "payer" in
  let? alpha_vault :=
    convert_string_to_pubkey (pubkey_to_string (MeteoraDammV2InitializePoolEvent.alpha_vault row)) "alpha_vault" in
  let? sqrt_min_price :=
    convert_bigdecimal_to_u128 (MeteoraDammV2InitializePoolEvent.sqrt_min_price row) "sqrt_min_price" in
  let? sqrt_max_price :=
    convert_bigdecimal_to_u128 (MeteoraDammV2InitializePoolEvent.sqrt_max_price row) "sqrt_max_price" in
  let? sqrt_price :=
    convert_bigdecimal_to_u128 (MeteoraDammV2InitializePoolEvent.sqrt_price row) "sqrt_price" in
  let? liquidity :=
    convert_bigdecimal_to_u128 (MeteoraDammV2InitializePoolEvent.liquidity row) "liquidity" in
  let? activation_type :=
    convert_i16_to_u8 (MeteoraDammV2InitializePoolEvent.activation_type row) "activation_type" in
  let? activation_point :=
    convert_i64_to_u64 (MeteoraDammV2InitializePoolEvent.activation_point row) "activation_point" in
  let? collect_fee_mode :=
    convert_i16_to_u8 (MeteoraDammV2InitializePoolEvent.collect_fee_mode row) "collect_fee_mode" in
  let? pool_type := convert_i16_to_u8 (MeteoraDammV2InitializePoolEvent.pool_type row) "pool_type" in
  let? token_a_flag :=
    convert_i16_to_u8 (MeteoraDammV2InitializePoolEvent.token_a_flag row) "token_a_flag" in
  let? token_b_flag :=
    convert_i16_to_u8 (MeteoraDammV2InitializePoolEvent.token_b_flag row) "token_b_flag" in
  let? token_a_amount :=
    convert_i64_to_u64 (MeteoraDammV2InitializePoolEvent.token_a_amount row) "token_a_amount" in
  let? token_b_amount :=
    convert_i64_to_u64 (MeteoraDammV2InitializePoolEvent.token_b_amount row) "token_b_amount" in
  let? total_amount_a :=
    convert_i64_to_u64 (MeteoraDammV2InitializePoolEvent.total_amount_a row) "total_amount_a" in
  let? total_amount_b :=
    convert_i64_to_u64 (MeteoraDammV2InitializePoolEvent.total_amount_b row) "total_amount_b" in
  Ok {|
    MeteoraDammV2InitializePoolEvent.pool_address := pool_address;
    MeteoraDammV2InitializePoolEvent.signature := signature;
    MeteoraDammV2InitializePoolEvent.timestamp := MeteoraDammV2InitializePoolEvent.timestamp row;
    MeteoraDammV2InitializePoolEvent.slot := slot;
    MeteoraDammV2InitializePoolEvent.transaction_index := transaction_index;
    MeteoraDammV2InitializePoolEvent.event_index := event_index;
    MeteoraDammV2InitializePoolEvent.token_a_mint := token_a_mint;
    MeteoraDammV2InitializePoolEvent.token_b_mint := token_b_mint;
    MeteoraDammV2InitializePoolEvent.creator := creator;
    MeteoraDammV2InitializePoolEvent.payer := payer;
    MeteoraDammV2InitializePoolEvent.alpha_vault := alpha_vault;
    MeteoraDammV2InitializePoolEvent.sqrt_min_price := sqrt_min_price;
    MeteoraDammV2InitializePoolEvent.sqrt_max_price := sqrt_max_price;
    MeteoraDammV2InitializePoolEvent.sqrt_price := sqrt_price;
    MeteoraDammV2InitializePoolEvent.liquidity := liquidity;
    MeteoraDammV2InitializePoolEvent.activation_type := activation_type;
    MeteoraDammV2InitializePoolEvent.activation_point := activation_point;
    MeteoraDammV2InitializePoolEvent.collect_fee_mode := collect_fee_mode;
    MeteoraDammV2InitializePoolEvent.pool_type := pool_type;
    MeteoraDammV2InitializePoolEvent.token_a_flag := token_a_flag;
    MeteoraDammV2InitializePoolEvent.token_b_flag := token_b_flag;
    MeteoraDammV2InitializePoolEvent.token_a_amount := token_a_amount;
    MeteoraDammV2InitializePoolEvent.token_b_amount := token_b_amount;
    MeteoraDammV2InitializePoolEvent.total_amount_a := total_amount_a;
    MeteoraDammV2InitializePoolEvent.total_amount_b := total_amount_b;
    MeteoraDammV2InitializePoolEvent.pool_fees_raw := MeteoraDammV2InitializePoolEvent.pool_fees_raw row;
  |}.

Definition MeteoraDammV2CreatePositionEvent_try_from (row : MeteoraDammV2CreatePositionEvent.t) :
    RepositoryResult MeteoraDammV2CreatePositionEvent.t :=
  let? pool_address :=
    convert_string_to_pubkey (pubkey_to_string (MeteoraDammV2CreatePositionEvent.pool_address row)) "pool_address" in
  let? signature :=
    convert_string_to_signature (signature_to_string (MeteoraDammV2CreatePositionEvent.signature row)) "signature" in
  let? slot := convert_i64_to_u64 (MeteoraDammV2CreatePositionEvent.slot row) "slot" in
  let? transaction_index :=
    convert_optional (MeteoraDammV2CreatePositionEvent.transaction_index row) "transaction_index" convert_i64_to_u32 in
  let? event_index :=
    convert_i32_to_u16 (MeteoraDammV2CreatePositionEvent.event_index row) "event_index" in
  let? owner :=
    convert_string_to_pubkey (pubkey_to_string (MeteoraDammV2CreatePositionEvent.owner row)) "owner" in
  let? position :=
    convert_string_to_pubkey (pubkey_to_string (MeteoraDammV2CreatePositionEvent.position row)) "position" in
  let? position_nft_mint :=
    convert_string_to_pubkey (pubkey_to_string (MeteoraDammV2CreatePositionEvent.position_nft_mint row)) "position_nft_mint" in
  Ok {|
    MeteoraDammV2CreatePositionEvent.pool_address := pool_address;
    MeteoraDammV2CreatePositionEvent.signature := signature;
    MeteoraDammV2CreatePositionEvent.timestamp := MeteoraDammV2CreatePositionEvent.timestamp row;
    MeteoraDammV2CreatePositionEvent.slot := slot;
    MeteoraDammV2CreatePositionEvent.transaction_index := transaction_index;
    MeteoraDammV2CreatePositionEvent.event_index := event_index;
    MeteoraDammV2CreatePositionEvent.owner := owner;
    MeteoraDammV2CreatePositionEvent.position := position;
    MeteoraDammV2CreatePositionEvent.position_nft_mint := position_nft_mint;
  |}.

Definition MeteoraDammV2ClosePositionEvent_try_from (row : MeteoraDammV2ClosePositionEvent.t) :
    RepositoryResult MeteoraDammV2ClosePositionEvent.t :=
  let? pool_address :=
    convert_string_to_pubkey (pubkey_to_string (MeteoraDammV2ClosePositionEvent.pool_address row)) "pool_address" in
  let? signature :=
    convert_string_to_signature (signature_to_string (MeteoraDammV2ClosePositionEvent.signature row)) "signature" in
  let? slot := convert_i64_to_u64 (MeteoraDammV2ClosePositionEvent.slot row) "slot" in
  let? transaction_index :=
    convert_optional (MeteoraDammV2ClosePositionEvent.transaction_index row) "transaction_index" convert_i64_to_u32 in
  let? event_index :=
    convert_i32_to_u16 (MeteoraDammV2ClosePositionEvent.event_index row) "event_index" in
  let? owner :=
    convert_string_to_pubkey (pubkey_to_string (MeteoraDammV2ClosePositionEvent.owner row)) "owner" in
  let? position :=
    convert_string_to_pubkey (pubkey_to_string (MeteoraDammV2ClosePositionEvent.position row)) "position" in
  let? position_nft_mint :=
    convert_string_to_pubkey (pubkey_to_string (MeteoraDammV2ClosePositionEvent.position_nft_mint row)) "position_nft_mint" in
  Ok {|
    MeteoraDammV2ClosePositionEvent.pool_address := pool_address;
    MeteoraDammV2ClosePositionEvent.signature := signature;
    MeteoraDammV2ClosePositionEvent.timestamp := MeteoraDammV2ClosePositionEvent.timestamp row;
    MeteoraDammV2ClosePositionEvent.slot := slot;
    MeteoraDammV2ClosePositionEvent.transaction_index := transaction_index;
    MeteoraDammV2ClosePositionEvent.event_index := event_index;
    MeteoraDammV2ClosePositionEvent.owner := owner;
    MeteoraDammV2ClosePositionEvent.position := position;
    MeteoraDammV2ClosePositionEvent.position_nft_mint := position_nft_mint;
  |}.

Definition MeteoraDammV2LockPositionEvent_try_from (row : MeteoraDammV2LockPositionEvent.t) :
    RepositoryResult MeteoraDammV2LockPositionEvent.t :=
  let? pool_address :=
    convert_string_to_pubkey (pubkey_to_string (MeteoraDammV2LockPositionEvent.pool_address row)) "pool_address" in
  let? signature :=
    convert_string_to_signature (signature_to_string (MeteoraDammV2LockPositionEvent.signature row)) "signature" in
  let? slot := convert_i64_to_u64 (MeteoraDammV2LockPositionEvent.slot row) "slot" in
  let? transaction_index :=
    convert_optional (MeteoraDammV2LockPositionEvent.transaction_index row) "transaction_index" convert_i64_to_u32 in
  let? event_index :=
    convert_i32_to_u16 (MeteoraDammV2LockPositionEvent.event_index row) "event_index" in
  let? position :=
    convert_string_to_pubkey (pubkey_to_string (MeteoraDammV2LockPositionEvent.position row)) "position" in
  let? owner :=
    convert_string_to_pubkey (pubkey_to_string (MeteoraDammV2LockPositionEvent.owner row)) "owner" in
  let? vesting :=
    convert_string_to_pubkey (pubkey_to_string (MeteoraDammV2LockPositionEvent.vesting row)) "vesting" in
  let? cliff_point :=
    convert_i64_to_u64 (MeteoraDammV2LockPositionEvent.cliff_point row) "cliff_point" in
  let? period_frequency :=
    convert_i64_to_u64 (MeteoraDammV2LockPositionEvent.period_frequency row) "period_frequency" in
  let? cliff_unlock_liquidity :=
    convert_bigdecimal_to_u128 (MeteoraDammV2LockPositionEvent.cliff_unlock_liquidity row) "cliff_unlock_liquidity" in
  let? liquidity_per_period :=
    convert_bigdecimal_to_u128 (MeteoraDammV2LockPositionEvent.liquidity_per_period row) "liquidity_per_period" in
  let? number_of_period :=
    convert_i32_to_u16 (MeteoraDammV2LockPositionEvent.number_of_period row) "number_of_period" in
  Ok {|
    MeteoraDammV2LockPositionEvent.pool_address := pool_address;
    MeteoraDammV2LockPositionEvent.signature := signature;
    MeteoraDammV2LockPositionEvent.timestamp := MeteoraDammV2LockPositionEvent.timestamp row;
    MeteoraDammV2LockPositionEvent.slot := slot;
    MeteoraDammV2LockPositionEvent.transaction_index := transaction_index;
    MeteoraDammV2LockPositionEvent.event_index := event_index;
    MeteoraDammV2LockPositionEvent.position := position;
    MeteoraDammV2LockPositionEvent.owner := owner;
    MeteoraDammV2LockPositionEvent.vesting := vesting;
    MeteoraDammV2LockPositionEvent.cliff_point := cliff_point;
    MeteoraDammV2LockPositionEvent.period_frequency := period_frequency;
    MeteoraDammV2LockPositionEvent.cliff_unlock_liquidity := cliff_unlock_liquidity;
    MeteoraDammV2LockPositionEvent.liquidity_per_period := liquidity_per_period;
    MeteoraDammV2LockPositionEvent.number_of_period := number_of_period;
  |}.

Definition MeteoraDammV2PermanentLockPositionEvent_try_from (row : MeteoraDammV2PermanentLockPositionEvent.t) :
    RepositoryResult MeteoraDammV2PermanentLockPositionEvent.t :=
  let? pool_address :=
    convert_string_to_pubkey (pubkey_to_string (MeteoraDammV2PermanentLockPositionEvent.pool_address row)) "pool_address" in
  let? signature :=
    convert_string_to_signature (signature_to_string (MeteoraDammV2PermanentLockPositionEvent.signature row)) "signature" in
  let? slot := convert_i64_to_u64 (MeteoraDammV2PermanentLockPositionEvent.slot row) "slot" in
  let? transaction_index :=
    convert_optional (MeteoraDammV2PermanentLockPositionEvent.transaction_index row) "transaction_index" convert_i64_to_u32 in
  let? event_index :=
    convert_i32_to_u16 (MeteoraDammV2PermanentLockPositionEvent.event_index row) "event_index" in
  let? position :=
    convert_string_to_pubkey (pubkey_to_string (MeteoraDammV2PermanentLockPositionEvent.position row)) "position" in
  let? lock_liquidity_amount :=
    convert_bigdecimal_to_u128 (MeteoraDammV2PermanentLockPositionEvent.lock_liquidity_amount row) "lock_liquidity_amount" in
  let? total_permanent_locked_liquidity :=
    convert_bigdecimal_to_u128 (MeteoraDammV2PermanentLockPositionEvent.total_permanent_locked_liquidity row) "total_permanent_locked_liquidity" in
  Ok {|
    MeteoraDammV2PermanentLockPositionEvent.pool_address := pool_address;
    MeteoraDammV2PermanentLockPositionEvent.signature := signature;
    MeteoraDammV2PermanentLockPositionEvent.timestamp := MeteoraDammV2PermanentLockPositionEvent.timestamp row;
    MeteoraDammV2PermanentLockPositionEvent.slot := slot;
    MeteoraDammV2PermanentLockPositionEvent.transaction_index := transaction_index;
    MeteoraDammV2PermanentLockPositionEvent.event_index := event_index;
    MeteoraDammV2PermanentLockPositionEvent.position := position;
    MeteoraDammV2PermanentLockPositionEvent.lock_liquidity_amount := lock_liquidity_amount;
    MeteoraDammV2PermanentLockPositionEvent.total_permanent_locked_liquidity := total_permanent_locked_liquidity;
  |}.

Definition MeteoraDammV2SplitPositionEvent_try_from (row : MeteoraDammV2SplitPositionEvent.t) :
    RepositoryResult MeteoraDammV2SplitPositionEvent.t :=
  let? pool_address :=
    convert_string_to_pubkey (pubkey_to_string (MeteoraDammV2SplitPositionEvent.pool_address row)) "pool_address" in
  let? signature :=
    convert_string_to_signature (signature_to_string (MeteoraDammV2SplitPositionEvent.signature row)) "signature" in
  let? slot := convert_i64_to_u64 (MeteoraDammV2SplitPositionEvent.slot row) "slot" in
  let? transaction_index :=
    convert_optional (MeteoraDammV2SplitPositionEvent.transaction_index row) "transaction_index" convert_i64_to_u32 in
  let? event_index :=
    convert_i32_to_u16 (MeteoraDammV2SplitPositionEvent.event_index row) "event_index" in
  let? first_owner :=
    convert_string_to_pubkey (pubkey_to_string (MeteoraDammV2SplitPositionEvent.first_owner row)) "first_owner" in
  let? second_owner :=
    convert_string_to_pubkey (pubkey_to_string (MeteoraDammV2SplitPositionEvent.second_owner row)) "second_owner" in
  let? first_position :=
    convert_string_to_pubkey (pubkey_to_string (MeteoraDammV2SplitPositionEvent.first_position row)) "first_position" in
  let? second_position :=
    convert_string_to_pubkey (pubkey_to_string (MeteoraDammV2SplitPositionEvent.second_position row)) "second_position" in
  let? current_sqrt_price :=
    convert_bigdecimal_to_u128 (MeteoraDammV2SplitPositionEvent.current_sqrt_price row) "current_sqrt_price" in
  let? split_permanent_locked_liquidity :=
    convert_bigdecimal_to_u128 (MeteoraDammV2SplitAmounts.permanent_locked_liquidity (MeteoraDammV2SplitPositionEvent.amounts row)) "split_permanent_locked_liquidity" in
  let? split_unlocked_liquidity :=
    convert_bigdecimal_to_u128 (MeteoraDammV2SplitAmounts.unlocked_liquidity (MeteoraDammV2SplitPositionEvent.amounts row)) "split_unlocked_liquidity" in
  let? split_vested_liquidity :=
    convert_bigdecimal_to_u128 (MeteoraDammV2SplitAmounts.vested_liquidity (MeteoraDammV2SplitPositionEvent.amounts row)) "split_vested_liquidity" in
  let? split_fee_a :=
    convert_i64_to_u64 (MeteoraDammV2SplitAmounts.fee_a (MeteoraDammV2SplitPositionEvent.amounts row)) "split_fee_a" in
  let? split_fee_b :=
    convert_i64_to_u64 (MeteoraDammV2SplitAmounts.fee_b (MeteoraDammV2SplitPositionEvent.amounts row)) "split_fee_b" in
  let? split_reward_0 :=
    convert_i64_to_u64 (MeteoraDammV2SplitAmounts.reward_0 (MeteoraDammV2SplitPositionEvent.amounts row)) "split_reward_0" in
  let? split_reward_1 :=
    convert_i64_to_u64 (MeteoraDammV2SplitAmounts.reward_1 (MeteoraDammV2SplitPositionEvent.amounts row)) "split_reward_1" in
  let? first_permanent_locked_liquidity :=
    convert_bigdecimal_to_u128 (MeteoraDammV2SplitPositionState.permanent_locked_liquidity (MeteoraDammV2SplitPositionEvent.first_position_after row)) "first_permanent_locked_liquidity" in
  let? first_unlocked_liquidity :=
    convert_bigdecimal_to_u128 (MeteoraDammV2SplitPositionState.unlocked_liquidity (MeteoraDammV2SplitPositionEvent.first_position_after row)) "first_unlocked_liquidity" in
  let? first_vested_liquidity :=
    convert_bigdecimal_to_u128 (MeteoraDammV2SplitPositionState.vested_liquidity (MeteoraDammV2SplitPositionEvent.first_position_after row)) "first_vested_liquidity" in
  let? first_fee_a :=
    convert_i64_to_u64 (MeteoraDammV2SplitPositionState.fee_a (MeteoraDammV2SplitPositionEvent.first_position_after row)) "first_fee_a" in
  let? first_fee_b :=
    convert_i64_to_u64 (MeteoraDammV2SplitPositionState.fee_b (MeteoraDammV2SplitPositionEvent.first_position_after row)) "first_fee_b" in
  let? first_reward_0 :=
    convert_i64_to_u64 (MeteoraDammV2SplitPositionState.reward_0 (MeteoraDammV2SplitPositionEvent.first_position_after row)) "first_reward_0" in
  let? first_reward_1 :=
    convert_i64_to_u64 (MeteoraDammV2SplitPositionState.reward_1 (MeteoraDammV2SplitPositionEvent.first_position_after row)) "first_reward_1" in
  let? second_permanent_locked_liquidity :=
    convert_bigdecimal_to_u128 (MeteoraDammV2SplitPositionState.permanent_locked_liquidity (MeteoraDammV2SplitPositionEvent.second_position_after row)) "second_permanent_locked_liquidity" in
  let? second_unlocked_liquidity :=
    convert_bigdecimal_to_u128 (MeteoraDammV2SplitPositionState.unlocked_liquidity (MeteoraDammV2SplitPositionEvent.second_position_after row)) "second_unlocked_liquidity" in
  let? second_vested_liquidity :=
    convert_bigdecimal_to_u128 (MeteoraDammV2SplitPositionState.vested_liquidity (MeteoraDammV2SplitPositionEvent.second_position_after row)) "second_vested_liquidity" in
  let? second_fee_a :=
    convert_i64_to_u64 (MeteoraDammV2SplitPositionState.fee_a (MeteoraDammV2SplitPositionEvent.second_position_after row)) "second_fee_a" in
  let? second_fee_b :=
    convert_i64_to_u64 (MeteoraDammV2SplitPositionState.fee_b (MeteoraDammV2SplitPositionEvent.second_position_after row)) "second_fee_b" in
  let? second_reward_0 :=
    convert_i64_to_u64 (MeteoraDammV2SplitPositionState.reward_0 (MeteoraDammV2SplitPositionEvent.second_position_after row)) "second_reward_0" in
  let? second_reward_1 :=
    convert_i64_to_u64 (MeteoraDammV2SplitPositionState.reward_1 (MeteoraDammV2SplitPositionEvent.second_position_after row)) "second_reward_1" in
  let? num_unlocked_liquidity :=
    convert_i64_to_u32 (MeteoraDammV2SplitNumerators.unlocked_liquidity (MeteoraDammV2SplitPositionEvent.numerators row)) "num_unlocked_liquidity" in
  let? num_permanent_locked_liquidity :=
    convert_i64_to_u32 (MeteoraDammV2SplitNumerators.permanent_locked_liquidity (MeteoraDammV2SplitPositionEvent.numerators row)) "num_permanent_locked_liquidity" in
  let? num_fee_a :=
    convert_i64_to_u32 (MeteoraDammV2SplitNumerators.fee_a (MeteoraDammV2SplitPositionEvent.numerators row)) "num_fee_a" in
  let? num_fee_b :=
    convert_i64_to_u32 (MeteoraDammV2SplitNumerators.fee_b (MeteoraDammV2SplitPositionEvent.numerators row)) "num_fee_b" in
  let? num_reward_0 :=
    convert_i64_to_u32 (MeteoraDammV2SplitNumerators.reward_0 (MeteoraDammV2SplitPositionEvent.numerators row)) "num_reward_0" in
  let? num_reward_1 :=
    convert_i64_to_u32 (MeteoraDammV2SplitNumerators.reward_1 (MeteoraDammV2SplitPositionEvent.numerators row)) "num_reward_1" in
  let? num_inner_vesting_liquidity :=
    convert_i64_to_u32 (MeteoraDammV2SplitNumerators.inner_vesting_liquidity (MeteoraDammV2SplitPositionEvent.numerators row)) "num_inner_vesting_liquidity" in
  Ok {|
    MeteoraDammV2SplitPositionEvent.pool_address := pool_address;
    MeteoraDammV2SplitPositionEvent.signature := signature;
    MeteoraDammV2SplitPositionEvent.timestamp := MeteoraDammV2SplitPositionEvent.timestamp row;
    MeteoraDammV2SplitPositionEvent.slot := slot;
    MeteoraDammV2SplitPositionEvent.transaction_index := transaction_index;
    MeteoraDammV2SplitPositionEvent.event_index := event_index;
    MeteoraDammV2SplitPositionEvent.first_owner := first_owner;
    MeteoraDammV2SplitPositionEvent.second_owner := second_owner;
    MeteoraDammV2SplitPositionEvent.first_position := first_position;
    MeteoraDammV2SplitPositionEvent.second_position := second_position;
    MeteoraDammV2SplitPositionEvent.current_sqrt_price := current_sqrt_price;
    MeteoraDammV2SplitPositionEvent.amounts :=
      {| MeteoraDammV2SplitAmounts.permanent_locked_liquidity := split_permanent_locked_liquidity;
        MeteoraDammV2SplitAmounts.unlocked_liquidity := split_unlocked_liquidity;
        MeteoraDammV2SplitAmounts.vested_liquidity := split_vested_liquidity;
        MeteoraDammV2SplitAmounts.fee_a := split_fee_a; MeteoraDammV2SplitAmounts.fee_b :=
        split_fee_b; MeteoraDammV2SplitAmounts.reward_0 := split_reward_0;
        MeteoraDammV2SplitAmounts.reward_1 := split_reward_1 |};
    MeteoraDammV2SplitPositionEvent.first_position_after :=
      {| MeteoraDammV2SplitPositionState.permanent_locked_liquidity :=
        first_permanent_locked_liquidity; MeteoraDammV2SplitPositionState.unlocked_liquidity :=
        first_unlocked_liquidity; MeteoraDammV2SplitPositionState.vested_liquidity :=
        first_vested_liquidity; MeteoraDammV2SplitPositionState.fee_a := first_fee_a;
        MeteoraDammV2SplitPositionState.fee_b := first_fee_b;
        MeteoraDammV2SplitPositionState.reward_0 := first_reward_0;
        MeteoraDammV2SplitPositionState.reward_1 := first_reward_1 |};
    MeteoraDammV2SplitPositionEvent.second_position_after :=
      {| MeteoraDammV2SplitPositionState.permanent_locked_liquidity :=
        second_permanent_locked_liquidity; MeteoraDammV2SplitPositionState.unlocked_liquidity :=
        second_unlocked_liquidity; MeteoraDammV2SplitPositionState.vested_liquidity :=
        second_vested_liquidity; MeteoraDammV2SplitPositionState.fee_a := second_fee_a;
        MeteoraDammV2SplitPositionState.fee_b := second_fee_b;
        MeteoraDammV2SplitPositionState.reward_0 := second_reward_0;
        MeteoraDammV2SplitPositionState.reward_1 := second_reward_1 |};
    MeteoraDammV2SplitPositionEvent.numerators :=
      {| MeteoraDammV2SplitNumerators.unlocked_liquidity := num_unlocked_liquidity;
        MeteoraDammV2SplitNumerators.permanent_locked_liquidity := num_permanent_locked_liquidity;
        MeteoraDammV2SplitNumerators.fee_a := num_fee_a; MeteoraDammV2SplitNumerators.fee_b :=
        num_fee_b; MeteoraDammV2SplitNumerators.reward_0 := num_reward_0;
        MeteoraDammV2SplitNumerators.reward_1 := num_reward_1;
        MeteoraDammV2SplitNumerators.inner_vesting_liquidity := num_inner_vesting_liquidity |};
  |}.

Definition MeteoraDammV2ClaimPositionFeeEvent_try_from (row : MeteoraDammV2ClaimPositionFeeEvent.t) :
    RepositoryResult MeteoraDammV2ClaimPositionFeeEvent.t :=
  let? pool_address :=
    convert_string_to_pubkey (pubkey_to_string (MeteoraDammV2ClaimPositionFeeEvent.pool_address row)) "pool_address" in
  let? signature :=
    convert_string_to_signature (signature_to_string (MeteoraDammV2ClaimPositionFeeEvent.signature row)) "signature" in
  let? slot := convert_i64_to_u64 (MeteoraDammV2ClaimPositionFeeEvent.slot row) "slot" in
  let? transaction_index :=
    convert_optional (MeteoraDammV2ClaimPositionFeeEvent.transaction_index row) "transaction_index" convert_i64_to_u32 in
  let? event_index :=
    convert_i32_to_u16 (MeteoraDammV2ClaimPositionFeeEvent.event_index row) "event_index" in
  let? position :=
    convert_string_to_pubkey (pubkey_to_string (MeteoraDammV2ClaimPositionFeeEvent.position row)) "position" in
  let? owner :=
    convert_string_to_pubkey (pubkey_to_string (MeteoraDammV2ClaimPositionFeeEvent.owner row)) "owner" in
  let? fee_a_claimed :=
    convert_i64_to_u64 (MeteoraDammV2ClaimPositionFeeEvent.fee_a_claimed row) "fee_a_claimed" in
  let? fee_b_claimed :=
    convert_i64_to_u64 (MeteoraDammV2ClaimPositionFeeEvent.fee_b_claimed row) "fee_b_claimed" in
  Ok {|
    MeteoraDammV2ClaimPositionFeeEvent.pool_address := pool_address;
    MeteoraDammV2ClaimPositionFeeEvent.signature := signature;
    MeteoraDammV2ClaimPositionFeeEvent.timestamp := MeteoraDammV2ClaimPositionFeeEvent.timestamp row;
    MeteoraDammV2ClaimPositionFeeEvent.slot := slot;
    MeteoraDammV2ClaimPositionFeeEvent.transaction_index := transaction_index;
    MeteoraDammV2ClaimPositionFeeEvent.event_index := event_index;
    MeteoraDammV2ClaimPositionFeeEvent.position := position;
    MeteoraDammV2ClaimPositionFeeEvent.owner := owner;
    MeteoraDammV2ClaimPositionFeeEvent.fee_a_claimed := fee_a_claimed;
    MeteoraDammV2ClaimPositionFeeEvent.fee_b_claimed := fee_b_claimed;
  |}.

Definition MeteoraDammV2ClaimProtocolFeeEvent_try_from (row : MeteoraDammV2ClaimProtocolFeeEvent.t) :
    RepositoryResult MeteoraDammV2ClaimProtocolFeeEvent.t :=
  let? pool_address :=
    convert_string_to_pubkey (pubkey_to_string (MeteoraDammV2ClaimProtocolFeeEvent.pool_address row)) "pool_address" in
  let? signature :=
    convert_string_to_signature (signature_to_string (MeteoraDammV2ClaimProtocolFeeEvent.signature row)) "signature" in
  let? slot := convert_i64_to_u64 (MeteoraDammV2ClaimProtocolFeeEvent.slot row) "slot" in
  let? transaction_index :=
    convert_optional (MeteoraDammV2ClaimProtocolFeeEvent.transaction_index row) "transaction_index" convert_i64_to_u32 in
  let? event_index :=
    convert_i32_to_u16 (MeteoraDammV2ClaimProtocolFeeEvent.event_index row) "event_index" in
  let? token_a_amount :=
    convert_i64_to_u64 (MeteoraDammV2ClaimProtocolFeeEvent.token_a_amount row) "token_a_amount" in
  let? token_b_amount :=
    convert_i64_to_u64 (MeteoraDammV2ClaimProtocolFeeEvent.token_b_amount row) "token_b_amount" in
  Ok {|
    MeteoraDammV2ClaimProtocolFeeEvent.pool_address := pool_address;
    MeteoraDammV2ClaimProtocolFeeEvent.signature := signature;
    MeteoraDammV2ClaimProtocolFeeEvent.timestamp := MeteoraDammV2ClaimProtocolFeeEvent.timestamp row;
    MeteoraDammV2ClaimProtocolFeeEvent.slot := slot;
    MeteoraDammV2ClaimProtocolFeeEvent.transaction_index := transaction_index;
    MeteoraDammV2ClaimProtocolFeeEvent.event_index := event_index;
    MeteoraDammV2ClaimProtocolFeeEvent.token_a_amount := token_a_amount;
    MeteoraDammV2ClaimProtocolFeeEvent.token_b_amount := token_b_amount;
  |}.

Definition MeteoraDammV2ClaimRewardEvent_try_from (row : MeteoraDammV2ClaimRewardEvent.t) :
    RepositoryResult MeteoraDammV2ClaimRewardEvent.t :=
  let? pool_address :=
    convert_string_to_pubkey (pubkey_to_string (MeteoraDammV2ClaimRewardEvent.pool_address row)) "pool_address" in
  let? signature :=
    convert_string_to_signature (signature_to_string (MeteoraDammV2ClaimRewardEvent.signature row)) "signature" in
  let? slot := convert_i64_to_u64 (MeteoraDammV2ClaimRewardEvent.slot row) "slot" in
  let? transaction_index :=
    convert_optional (MeteoraDammV2ClaimRewardEvent.transaction_index row) "transaction_index" convert_i64_to_u32 in
  let? event_index := convert_i32_to_u16 (MeteoraDammV2ClaimRewardEvent.event_index row) "event_index" in
  let? position :=
    convert_string_to_pubkey (pubkey_to_string (MeteoraDammV2ClaimRewardEvent.position row)) "position" in
  let? owner :=
    convert_string_to_pubkey (pubkey_to_string (MeteoraDammV2ClaimRewardEvent.owner row)) "owner" in
  let? mint_reward :=
    convert_string_to_pubkey (pubkey_to_string (MeteoraDammV2ClaimRewardEvent.mint_reward row)) "mint_reward" in
  let? reward_index :=
    convert_i16_to_u8 (MeteoraDammV2ClaimRewardEvent.reward_index row) "reward_index" in
  let? total_reward :=
    convert_i64_to_u64 (MeteoraDammV2ClaimRewardEvent.total_reward row) "total_reward" in
  Ok {|
    MeteoraDammV2ClaimRewardEvent.pool_address := pool_address;
    MeteoraDammV2ClaimRewardEvent.signature := signature;
    MeteoraDammV2ClaimRewardEvent.timestamp := MeteoraDammV2ClaimRewardEvent.timestamp row;
    MeteoraDammV2ClaimRewardEvent.slot := slot;
    MeteoraDammV2ClaimRewardEvent.transaction_index := transaction_index;
    MeteoraDammV2ClaimRewardEvent.event_index := event_index;
    MeteoraDammV2ClaimRewardEvent.position := position;
    MeteoraDammV2ClaimRewardEvent.owner := owner;
    MeteoraDammV2ClaimRewardEvent.mint_reward := mint_reward;
    MeteoraDammV2ClaimRewardEvent.reward_index := reward_index;
    MeteoraDammV2ClaimRewardEvent.total_reward := total_reward;
  |}.

Definition MeteoraDammV2InitializeRewardEvent_try_from (row : MeteoraDammV2InitializeRewardEvent.t) :
    RepositoryResult MeteoraDammV2InitializeRewardEvent.t :=
  let? pool_address :=
    convert_string_to_pubkey (pubkey_to_string (MeteoraDammV2InitializeRewardEvent.pool_address row)) "pool_address" in
  let? signature :=
    convert_string_to_signature (signature_to_string (MeteoraDammV2InitializeRewardEvent.signature row)) "signature" in
  let? slot := convert_i64_to_u64 (MeteoraDammV2InitializeRewardEvent.slot row) "slot" in
  let? transaction_index :=
    convert_optional (MeteoraDammV2InitializeRewardEvent.transaction_index row) "transaction_index" convert_i64_to_u32 in
  let? event_index :=
    convert_i32_to_u16 (MeteoraDammV2InitializeRewardEvent.event_index row) "event_index" in
  let? reward_mint :=
    convert_string_to_pubkey (pubkey_to_string (MeteoraDammV2InitializeRewardEvent.reward_mint row)) "reward_mint" in
  let? funder :=
    convert_string_to_pubkey (pubkey_to_string (MeteoraDammV2InitializeRewardEvent.funder row)) "funder" in
  let? creator :=
    convert_string_to_pubkey (pubkey_to_string (MeteoraDammV2InitializeRewardEvent.creator row)) "creator" in
  let? reward_index :=
    convert_i16_to_u8 (MeteoraDammV2InitializeRewardEvent.reward_index row) "reward_index" in
  let? reward_duration :=
    convert_i64_to_u64 (MeteoraDammV2InitializeRewardEvent.reward_duration row) "reward_duration" in
  Ok {|
    MeteoraDammV2InitializeRewardEvent.pool_address := pool_address;
    MeteoraDammV2InitializeRewardEvent.signature := signature;
    MeteoraDammV2InitializeRewardEvent.timestamp := MeteoraDammV2InitializeRewardEvent.timestamp row;
    MeteoraDammV2InitializeRewardEvent.slot := slot;
    MeteoraDammV2InitializeRewardEvent.transaction_index := transaction_index;
    MeteoraDammV2InitializeRewardEvent.event_index := event_index;
    MeteoraDammV2InitializeRewardEvent.reward_mint := reward_mint;
    MeteoraDammV2InitializeRewardEvent.funder := funder;
    MeteoraDammV2InitializeRewardEvent.creator := creator;
    MeteoraDammV2InitializeRewardEvent.reward_index := reward_index;
    MeteoraDammV2InitializeRewardEvent.reward_duration := reward_duration;
  |}.

Definition MeteoraDammV2FundRewardEvent_try_from (row : MeteoraDammV2FundRewardEvent.t) :
    RepositoryResult MeteoraDammV2FundRewardEvent.t :=
  let? pool_address :=
    convert_string_to_pubkey (pubkey_to_string (MeteoraDammV2FundRewardEvent.pool_address row)) "pool_address" in
  let? signature :=
    convert_string_to_signature (signature_to_string (MeteoraDammV2FundRewardEvent.signature row)) "signature" in
  let? slot := convert_i64_to_u64 (MeteoraDammV2FundRewardEvent.slot row) "slot" in
  let? transaction_index :=
    convert_optional (MeteoraDammV2FundRewardEvent.transaction_index row) "transaction_index" convert_i64_to_u32 in
  let? event_index := convert_i32_to_u16 (MeteoraDammV2FundRewardEvent.event_index row) "event_index" in
  let? funder :=
    convert_string_to_pubkey (pubkey_to_string (MeteoraDammV2FundRewardEvent.funder row)) "funder" in
  let? mint_reward :=
    convert_string_to_pubkey (pubkey_to_string (MeteoraDammV2FundRewardEvent.mint_reward row)) "mint_reward" in
  let? reward_index :=
    convert_i16_to_u8 (MeteoraDammV2FundRewardEvent.reward_index row) "reward_index" in
  let? amount := convert_i64_to_u64 (MeteoraDammV2FundRewardEvent.amount row) "amount" in
  let? transfer_fee_excluded_amount_in :=
    convert_i64_to_u64 (MeteoraDammV2FundRewardEvent.transfer_fee_excluded_amount_in row) "transfer_fee_excluded_amount_in" in
  let? reward_duration_end :=
    convert_i64_to_u64 (MeteoraDammV2FundRewardEvent.reward_duration_end row) "reward_duration_end" in
  let? pre_reward_rate :=
    convert_bigdecimal_to_u128 (MeteoraDammV2FundRewardEvent.pre_reward_rate row) "pre_reward_rate" in
  let? post_reward_rate :=
    convert_bigdecimal_to_u128 (MeteoraDammV2FundRewardEvent.post_reward_rate row) "post_reward_rate" in
  Ok {|
    MeteoraDammV2FundRewardEvent.pool_address := pool_address;
    MeteoraDammV2FundRewardEvent.signature := signature;
    MeteoraDammV2FundRewardEvent.timestamp := MeteoraDammV2FundRewardEvent.timestamp row;
    MeteoraDammV2FundRewardEvent.slot := slot;
    MeteoraDammV2FundRewardEvent.transaction_index := transaction_index;
    MeteoraDammV2FundRewardEvent.event_index := event_index;
    MeteoraDammV2FundRewardEvent.funder := funder;
    MeteoraDammV2FundRewardEvent.mint_reward := mint_reward;
    MeteoraDammV2FundRewardEvent.reward_index := reward_index;
    MeteoraDammV2FundRewardEvent.amount := amount;
    MeteoraDammV2FundRewardEvent.transfer_fee_excluded_amount_in := transfer_fee_excluded_amount_in;
    MeteoraDammV2FundRewardEvent.reward_duration_end := reward_duration_end;
    MeteoraDammV2FundRewardEvent.pre_reward_rate := pre_reward_rate;
    MeteoraDammV2FundRewardEvent.post_reward_rate := post_reward_rate;
  |}.

Definition MeteoraDammV2UpdateRewardDurationEvent_try_from (row : MeteoraDammV2UpdateRewardDurationEvent.t) :
    RepositoryResult MeteoraDammV2UpdateRewardDurationEvent.t :=
  let? pool_address :=
    convert_string_to_pubkey (pubkey_to_string (MeteoraDammV2UpdateRewardDurationEvent.pool_address row)) "pool_address" in
  let? signature :=
    convert_string_to_signature (signature_to_string (MeteoraDammV2UpdateRewardDurationEvent.signature row)) "signature" in
  let? slot := convert_i64_to_u64 (MeteoraDammV2UpdateRewardDurationEvent.slot row) "slot" in
  let? transaction_index :=
    convert_optional (MeteoraDammV2UpdateRewardDurationEvent.transaction_index row) "transaction_index" convert_i64_to_u32 in
  let? event_index :=
    convert_i32_to_u16 (MeteoraDammV2UpdateRewardDurationEvent.event_index row) "event_index" in
  let? reward_index :=
    convert_i16_to_u8 (MeteoraDammV2UpdateRewardDurationEvent.reward_index row) "reward_index" in
  let? old_reward_duration :=
    convert_i64_to_u64 (MeteoraDammV2UpdateRewardDurationEvent.old_reward_duration row) "old_reward_duration" in
  let? new_reward_duration :=
    convert_i64_to_u64 (MeteoraDammV2UpdateRewardDurationEvent.new_reward_duration row) "new_reward_duration" in
  Ok {|
    MeteoraDammV2UpdateRewardDurationEvent.pool_address := pool_address;
    MeteoraDammV2UpdateRewardDurationEvent.signature := signature;
    MeteoraDammV2UpdateRewardDurationEvent.timestamp := MeteoraDammV2UpdateRewardDurationEvent.timestamp row;
    MeteoraDammV2UpdateRewardDurationEvent.slot := slot;
    MeteoraDammV2UpdateRewardDurationEvent.transaction_index := transaction_index;
    MeteoraDammV2UpdateRewardDurationEvent.event_index := event_index;
    MeteoraDammV2UpdateRewardDurationEvent.reward_index := reward_index;
    MeteoraDammV2UpdateRewardDurationEvent.old_reward_duration := old_reward_duration;
    MeteoraDammV2UpdateRewardDurationEvent.new_reward_duration := new_reward_duration;
  |}.

Definition MeteoraDammV2UpdateRewardFunderEvent_try_from (row : MeteoraDammV2UpdateRewardFunderEvent.t) :
    RepositoryResult MeteoraDammV2UpdateRewardFunderEvent.t :=
  let? pool_address :=
    convert_string_to_pubkey (pubkey_to_string (MeteoraDammV2UpdateRewardFunderEvent.pool_address row)) "pool_address" in
  let? signature :=
    convert_string_to_signature (signature_to_string (MeteoraDammV2UpdateRewardFunderEvent.signature row)) "signature" in
  let? slot := convert_i64_to_u64 (MeteoraDammV2UpdateRewardFunderEvent.slot row) "slot" in
  let? transaction_index :=
    convert_optional (MeteoraDammV2UpdateRewardFunderEvent.transaction_index row) "transaction_index" convert_i64_to_u32 in
  let? event_index :=
    convert_i32_to_u16 (MeteoraDammV2UpdateRewardFunderEvent.event_index row) "event_index" in
  let? reward_index :=
    convert_i16_to_u8 (MeteoraDammV2UpdateRewardFunderEvent.reward_index row) "reward_index" in
  let? old_funder :=
    convert_string_to_pubkey (pubkey_to_string (MeteoraDammV2UpdateRewardFunderEvent.old_funder row)) "old_funder" in
  let? new_funder :=
    convert_string_to_pubkey (pubkey_to_string (MeteoraDammV2UpdateRewardFunderEvent.new_funder row)) "new_funder" in
  Ok {|
    MeteoraDammV2UpdateRewardFunderEvent.pool_address := pool_address;
    MeteoraDammV2UpdateRewardFunderEvent.signature := signature;
    MeteoraDammV2UpdateRewardFunderEvent.timestamp := MeteoraDammV2UpdateRewardFunderEvent.timestamp row;
    MeteoraDammV2UpdateRewardFunderEvent.slot := slot;
    MeteoraDammV2UpdateRewardFunderEvent.transaction_index := transaction_index;
    MeteoraDammV2UpdateRewardFunderEvent.event_index := event_index;
    MeteoraDammV2UpdateRewardFunderEvent.reward_index := reward_index;
    MeteoraDammV2UpdateRewardFunderEvent.old_funder := old_funder;
    MeteoraDammV2UpdateRewardFunderEvent.new_funder := new_funder;
  |}.

Definition MeteoraDammV2WithdrawIneligibleRewardEvent_try_from (row : MeteoraDammV2WithdrawIneligibleRewardEvent.t) :
    RepositoryResult MeteoraDammV2WithdrawIneligibleRewardEvent.t :=
  let? pool_address :=
    convert_string_to_pubkey (pubkey_to_string (MeteoraDammV2WithdrawIneligibleRewardEvent.pool_address row)) "pool_address" in
  let? signature :=
    convert_string_to_signature (signature_to_string (MeteoraDammV2WithdrawIneligibleRewardEvent.signature row)) "signature" in
  let? slot := convert_i64_to_u64 (MeteoraDammV2WithdrawIneligibleRewardEvent.slot row) "slot" in
  let? transaction_index :=
    convert_optional (MeteoraDammV2WithdrawIneligibleRewardEvent.transaction_index row) "transaction_index" convert_i64_to_u32 in
  let? event_index :=
    convert_i32_to_u16 (MeteoraDammV2WithdrawIneligibleRewardEvent.event_index row) "event_index" in
  let? reward_mint :=
    convert_string_to_pubkey (pubkey_to_string (MeteoraDammV2WithdrawIneligibleRewardEvent.reward_mint row)) "reward_mint" in
  let? amount := convert_i64_to_u64 (MeteoraDammV2WithdrawIneligibleRewardEvent.amount row) "amount" in
  Ok {|
    MeteoraDammV2WithdrawIneligibleRewardEvent.pool_address := pool_address;
    MeteoraDammV2WithdrawIneligibleRewardEvent.signature := signature;
    MeteoraDammV2WithdrawIneligibleRewardEvent.timestamp := MeteoraDammV2WithdrawIneligibleRewardEvent.timestamp row;
    MeteoraDammV2WithdrawIneligibleRewardEvent.slot := slot;
    MeteoraDammV2WithdrawIneligibleRewardEvent.transaction_index := transaction_index;
    MeteoraDammV2WithdrawIneligibleRewardEvent.event_index := event_index;
    MeteoraDammV2WithdrawIneligibleRewardEvent.reward_mint := reward_mint;
    MeteoraDammV2WithdrawIneligibleRewardEvent.amount := amount;
  |}.

Definition MeteoraDammV2WithdrawDeadLiquidityRewardEvent_try_from (row : MeteoraDammV2WithdrawDeadLiquidityRewardEvent.t) :
    RepositoryResult MeteoraDammV2WithdrawDeadLiquidityRewardEvent.t :=
  let? pool_address :=
    convert_string_to_pubkey (pubkey_to_string (MeteoraDammV2WithdrawDeadLiquidityRewardEvent.pool_address row)) "pool_address" in
  let? signature :=
    convert_string_to_signature (signature_to_string (MeteoraDammV2WithdrawDeadLiquidityRewardEvent.signature row)) "signature" in
  let? slot := convert_i64_to_u64 (MeteoraDammV2WithdrawDeadLiquidityRewardEvent.slot row) "slot" in
  let? transaction_index :=
    convert_optional (MeteoraDammV2WithdrawDeadLiquidityRewardEvent.transaction_index row) "transaction_index" convert_i64_to_u32 in
  let? event_index :=
    convert_i32_to_u16 (MeteoraDammV2WithdrawDeadLiquidityRewardEvent.event_index row) "event_index" in
  let? reward_mint :=
    convert_string_to_pubkey (pubkey_to_string (MeteoraDammV2WithdrawDeadLiquidityRewardEvent.reward_mint row)) "reward_mint" in
  let? amount :=
    convert_i64_to_u64 (MeteoraDammV2WithdrawDeadLiquidityRewardEvent.amount row) "amount" in
  Ok {|
    MeteoraDammV2WithdrawDeadLiquidityRewardEvent.pool_address := pool_address;
    MeteoraDammV2WithdrawDeadLiquidityRewardEvent.signature := signature;
    MeteoraDammV2WithdrawDeadLiquidityRewardEvent.timestamp := MeteoraDammV2WithdrawDeadLiquidityRewardEvent.timestamp row;
    MeteoraDammV2WithdrawDeadLiquidityRewardEvent.slot := slot;
    MeteoraDammV2WithdrawDeadLiquidityRewardEvent.transaction_index := transaction_index;
    MeteoraDammV2WithdrawDeadLiquidityRewardEvent.event_index := event_index;
    MeteoraDammV2WithdrawDeadLiquidityRewardEvent.reward_mint := reward_mint;
    MeteoraDammV2WithdrawDeadLiquidityRewardEvent.amount := amount;
  |}.

Definition MeteoraDammV2SetPoolStatusEvent_try_from (row : MeteoraDammV2SetPoolStatusEvent.t) :
    RepositoryResult MeteoraDammV2SetPoolStatusEvent.t :=
  let? pool_address :=
    convert_string_to_pubkey (pubkey_to_string (MeteoraDammV2SetPoolStatusEvent.pool_address row)) "pool_address" in
  let? signature :=
    convert_string_to_signature (signature_to_string (MeteoraDammV2SetPoolStatusEvent.signature row)) "signature" in
  let? slot := convert_i64_to_u64 (MeteoraDammV2SetPoolStatusEvent.slot row) "slot" in
  let? transaction_index :=
    convert_optional (MeteoraDammV2SetPoolStatusEvent.transaction_index row) "transaction_index" convert_i64_to_u32 in
  let? event_index :=
    convert_i32_to_u16 (MeteoraDammV2SetPoolStatusEvent.event_index row) "event_index" in
  let? status := convert_i16_to_u8 (MeteoraDammV2SetPoolStatusEvent.status row) "status" in
  Ok {|
    MeteoraDammV2SetPoolStatusEvent.pool_address := pool_address;
    MeteoraDammV2SetPoolStatusEvent.signature := signature;
    MeteoraDammV2SetPoolStatusEvent.timestamp := MeteoraDammV2SetPoolStatusEvent.timestamp row;
    MeteoraDammV2SetPoolStatusEvent.slot := slot;
    MeteoraDammV2SetPoolStatusEvent.transaction_index := transaction_index;
    MeteoraDammV2SetPoolStatusEvent.event_index := event_index;
    MeteoraDammV2SetPoolStatusEvent.status := status;
  |}.

Definition MeteoraDammV2UpdatePoolFeesEvent_try_from (row : MeteoraDammV2UpdatePoolFeesEvent.t) :
    RepositoryResult MeteoraDammV2UpdatePoolFeesEvent.t :=
  let? pool_address :=
    convert_string_to_pubkey (pubkey_to_string (MeteoraDammV2UpdatePoolFeesEvent.pool_address row)) "pool_address" in
  let? signature :=
    convert_string_to_signature (signature_to_string (MeteoraDammV2UpdatePoolFeesEvent.signature row)) "signature" in
  let? slot := convert_i64_to_u64 (MeteoraDammV2UpdatePoolFeesEvent.slot row) "slot" in
  let? transaction_index :=
    convert_optional (MeteoraDammV2UpdatePoolFeesEvent.transaction_index row) "transaction_index" convert_i64_to_u32 in
  let? event_index :=
    convert_i32_to_u16 (MeteoraDammV2UpdatePoolFeesEvent.event_index row) "event_index" in
  let? operator :=
    convert_string_to_pubkey (pubkey_to_string (MeteoraDammV2UpdatePoolFeesEvent.operator row)) "operator" in
  Ok {|
    MeteoraDammV2UpdatePoolFeesEvent.pool_address := pool_address;
    MeteoraDammV2UpdatePoolFeesEvent.signature := signature;
    MeteoraDammV2UpdatePoolFeesEvent.timestamp := MeteoraDammV2UpdatePoolFeesEvent.timestamp row;
    MeteoraDammV2UpdatePoolFeesEvent.slot := slot;
    MeteoraDammV2UpdatePoolFeesEvent.transaction_index := transaction_index;
    MeteoraDammV2UpdatePoolFeesEvent.event_index := event_index;
    MeteoraDammV2UpdatePoolFeesEvent.operator := operator;
    MeteoraDammV2UpdatePoolFeesEvent.params_raw := MeteoraDammV2UpdatePoolFeesEvent.params_raw row;
  |}.

(** The row of an event, read back by the [TryFrom] of its table. *)
Definition try_from_row (w : MeteoraDammV2Event.t) : RepositoryResult MeteoraDammV2Event.t :=
  match w with
  | MeteoraDammV2Event.Swap e => result_map MeteoraDammV2Event.Swap (MeteoraDammV2SwapEvent_try_from e)
  | MeteoraDammV2Event.Liquidity e => result_map MeteoraDammV2Event.Liquidity (MeteoraDammV2LiquidityEvent_try_from e)
  | MeteoraDammV2Event.ClaimPositionFee e => result_map MeteoraDammV2Event.ClaimPositionFee (MeteoraDammV2ClaimPositionFeeEvent_try_from e)
  | MeteoraDammV2Event.ClaimReward e => result_map MeteoraDammV2Event.ClaimReward (MeteoraDammV2ClaimRewardEvent_try_from e)
  | MeteoraDammV2Event.ClaimProtocolFee e => result_map MeteoraDammV2Event.ClaimProtocolFee (MeteoraDammV2ClaimProtocolFeeEvent_try_from e)
  | MeteoraDammV2Event.InitializeReward e => result_map MeteoraDammV2Event.InitializeReward (MeteoraDammV2InitializeRewardEvent_try_from e)
  | MeteoraDammV2Event.FundReward e => result_map MeteoraDammV2Event.FundReward (MeteoraDammV2FundRewardEvent_try_from e)
  | MeteoraDammV2Event.WithdrawIneligibleReward e => result_map MeteoraDammV2Event.WithdrawIneligibleReward (MeteoraDammV2WithdrawIneligibleRewardEvent_try_from e)
  | MeteoraDammV2Event.UpdateRewardDuration e => result_map MeteoraDammV2Event.UpdateRewardDuration (MeteoraDammV2UpdateRewardDurationEvent_try_from e)
  | MeteoraDammV2Event.UpdateRewardFunder e => result_map MeteoraDammV2Event.UpdateRewardFunder (MeteoraDammV2UpdateRewardFunderEvent_try_from e)
  | MeteoraDammV2Event.WithdrawDeadLiquidityReward e => result_map MeteoraDammV2Event.WithdrawDeadLiquidityReward (MeteoraDammV2WithdrawDeadLiquidityRewardEvent_try_from e)
  | MeteoraDammV2Event.SplitPosition e => result_map MeteoraDammV2Event.SplitPosition (MeteoraDammV2SplitPositionEvent_try_from e)
  | MeteoraDammV2Event.CreatePosition e => result_map MeteoraDammV2Event.CreatePosition (MeteoraDammV2CreatePositionEvent_try_from e)
  | MeteoraDammV2Event.ClosePosition e => result_map MeteoraDammV2Event.ClosePosition (MeteoraDammV2ClosePositionEvent_try_from e)
  | MeteoraDammV2Event.LockPosition e => result_map MeteoraDammV2Event.LockPosition (MeteoraDammV2LockPositionEvent_try_from e)
  | MeteoraDammV2Event.PermanentLockPosition e => result_map MeteoraDammV2Event.PermanentLockPosition (MeteoraDammV2PermanentLockPositionEvent_try_from e)
  | MeteoraDammV2Event.InitializePool e => result_map MeteoraDammV2Event.InitializePool (MeteoraDammV2InitializePoolEvent_try_from e)
  | MeteoraDammV2Event.SetPoolStatus e => result_map MeteoraDammV2Event.SetPoolStatus (MeteoraDammV2SetPoolStatusEvent_try_from e)
  | MeteoraDammV2Event.UpdatePoolFees e => result_map MeteoraDammV2Event.UpdatePoolFees (MeteoraDammV2UpdatePoolFeesEvent_try_from e)
  end.
End Rows.
