(* ===== verification/Persist.v ===== *)
(** * Indexing a transaction

    [src/crates/indexer/src/application/services/]: pool_maintenance.rs,
    meteora/damm_v2/event_persistor.rs, event_persistor.rs and
    transaction_processor.rs, over the tables of [Store.v] and the extraction
    of [Extraction.v]. Counters are a log; durations keep their label only. *)

From S2P Require Import Prelude Errors External Domain WireEvents Extractor Translator Extraction.
From S2P Require Import FeeParameters Store.

(** ** What is counted *)

Inductive IndexMetric : Type :=
| PersistDuration (label : string)
| Indexed (kind : string)
| InsertSkipped (kind : string)
| PersistFailure (kind : string)
| PoolUpsertFailure (kind : string)
| PoolCurrentStateSameSlot
| FeesUndecodable (kind reason : string)
| NoMatch (protocol : Protocol)
| Entered (protocol : Protocol)
| Exited (protocol : Protocol) (outcome : string)
| UnknownEventSeen (protocol : Protocol) (discriminator : string)
| ExtractionFailed (protocol : Protocol) (kind : string).

Module Indexer.
Record t : Type := mk {
  db : Db.t;
  metrics : list IndexMetric;
}.

Definition record (s : t) (m : IndexMetric) : t := mk (db s) (metrics s ++ [m]).
Definition set_db (s : t) (d : Db.t) : t := mk d (metrics s).
End Indexer.

(** [Utc::now()], by the statements sent before it. *)
Class Clock : Type := { utc_now : nat -> DateTime }.

(** ** [pool_maintenance.rs] *)

Section Persistor.
Context `{Postgres} `{Clock}.

Definition discover_pool (s : Indexer.t) (protocol : Protocol) (pool_address : Pubkey)
    (event_kind : string) : Indexer.t :=
  let now := utc_now (Db.statements (Indexer.db s)) in
  let pool := Pool.mk pool_address protocol None None now in
  let (d, r) := upsert_pool (Indexer.db s) pool in
  let s := Indexer.set_db s d in
  match r with
  | Ok _ => Indexer.record s (PersistDuration "pool_upsert")
  | Err _ => Indexer.record s (PoolUpsertFailure event_kind)
  end.

Definition flag_needs_refresh (s : Indexer.t) (pool_address : Pubkey) : Indexer.t * RepositoryResult unit :=
  let (d, r) := mark_needs_refresh (Indexer.db s) pool_address in
  let s := Indexer.set_db s d in
  match r with
  | Ok _ => (Indexer.record s (PersistDuration "pool_mark_needs_refresh"), Ok ())
  | Err e => (s, Err e)
  end.

Definition touch_pool (s : Indexer.t) (pool_address : Pubkey) : Indexer.t :=
  let (d, r) := touch_last_seen (Indexer.db s) pool_address in
  let s := Indexer.set_db s d in
  match r with
  | Ok _ => Indexer.record s (PersistDuration "pool_touch")
  | Err _ => s
  end.

Definition apply_pool_current_state_upsert (s : Indexer.t) (u : PoolCurrentStateUpsert.t) : Indexer.t :=
  let (d, r) := upsert_state (Indexer.db s) u in
  let s := Indexer.set_db s d in
  match r with
  | Ok outcome =>
      let label := if PoolCurrentStateUpsertOutcome.applied outcome
        then "pool_current_state_applied" else "pool_current_state_rejected" in
      let s := Indexer.record s (PersistDuration label) in
      if PoolCurrentStateUpsertOutcome.same_slot_ambiguity outcome
      then Indexer.record s PoolCurrentStateSameSlot else s
  | Err _ => s
  end.

Definition upsert_of_swap (protocol : Protocol) (e : MeteoraDammV2SwapEvent.t) : PoolCurrentStateUpsert.t :=
  PoolCurrentStateUpsert.from_swap (MeteoraDammV2SwapEvent.pool_address e) protocol
    (EventPosition.mk (MeteoraDammV2SwapEvent.signature e) (MeteoraDammV2SwapEvent.timestamp e)
      (MeteoraDammV2SwapEvent.slot e) (MeteoraDammV2SwapEvent.transaction_index e)
      (MeteoraDammV2SwapEvent.event_index e))
    (MeteoraDammV2SwapEvent.reserve_a_after e) (MeteoraDammV2SwapEvent.reserve_b_after e)
    (MeteoraDammV2SwapEvent.next_sqrt_price e).

Definition upsert_of_liquidity (protocol : Protocol) (e : MeteoraDammV2LiquidityEvent.t) :
    PoolCurrentStateUpsert.t :=
  PoolCurrentStateUpsert.from_liquidity (MeteoraDammV2LiquidityEvent.pool_address e) protocol
    (EventPosition.mk (MeteoraDammV2LiquidityEvent.signature e) (MeteoraDammV2LiquidityEvent.timestamp e)
      (MeteoraDammV2LiquidityEvent.slot e) (MeteoraDammV2LiquidityEvent.transaction_index e)
      (MeteoraDammV2LiquidityEvent.event_index e))
    (MeteoraDammV2LiquidityEvent.liquidity_event_kind e)
    (MeteoraDammV2LiquidityEvent.reserve_a_after e) (MeteoraDammV2LiquidityEvent.reserve_b_after e).

Definition update_pool_current_state_from_swap (s : Indexer.t) (protocol : Protocol)
    (e : MeteoraDammV2SwapEvent.t) : Indexer.t :=
  apply_pool_current_state_upsert s (upsert_of_swap protocol e).

Definition update_pool_current_state_from_liquidity (s : Indexer.t) (protocol : Protocol)
    (e : MeteoraDammV2LiquidityEvent.t) : Indexer.t :=
  apply_pool_current_state_upsert s (upsert_of_liquidity protocol e).

(** ** [event_persistor.rs] of DAMM v2 *)

Definition PROTOCOL : Protocol := MeteoraDammV2.

Definition insert (s : Indexer.t) (w : MeteoraDammV2Event.t) : Indexer.t * RepositoryResult InsertOutcome :=
  let (d, r) := insert_event (Indexer.db s) w in (Indexer.set_db s d, r).

Definition fees_undecodable (s : Indexer.t) (kind : string) (reason : MeteoraDammV2FeeParametersRejection) :
    Indexer.t := Indexer.record s (FeesUndecodable kind (Rejection_as_str reason)).

Definition persist_swap (s : Indexer.t) (e : MeteoraDammV2SwapEvent.t) (kind : string) :
    Indexer.t * RepositoryResult InsertOutcome :=
  let s := discover_pool s PROTOCOL (MeteoraDammV2SwapEvent.pool_address e) kind in
  let (s, r) := insert s (MeteoraDammV2Event.Swap e) in
  match r with
  | Ok outcome => (update_pool_current_state_from_swap s PROTOCOL e, Ok outcome)
  | Err err => (s, Err err)
  end.

Definition persist_liquidity (s : Indexer.t) (e : MeteoraDammV2LiquidityEvent.t) (kind : string) :
    Indexer.t * RepositoryResult InsertOutcome :=
  let s := discover_pool s PROTOCOL (MeteoraDammV2LiquidityEvent.pool_address e) kind in
  let (s, r) := insert s (MeteoraDammV2Event.Liquidity e) in
  match r with
  | Ok outcome => (update_pool_current_state_from_liquidity s PROTOCOL e, Ok outcome)
  | Err err => (s, Err err)
  end.

Definition persist_claim_position_fee (s : Indexer.t) (e : MeteoraDammV2ClaimPositionFeeEvent.t) :
    Indexer.t * RepositoryResult InsertOutcome :=
  insert (touch_pool s (MeteoraDammV2ClaimPositionFeeEvent.pool_address e)) (MeteoraDammV2Event.ClaimPositionFee e).

Definition persist_claim_protocol_fee (s : Indexer.t) (e : MeteoraDammV2ClaimProtocolFeeEvent.t) :
    Indexer.t * RepositoryResult InsertOutcome :=
  insert (touch_pool s (MeteoraDammV2ClaimProtocolFeeEvent.pool_address e)) (MeteoraDammV2Event.ClaimProtocolFee e).

Definition persist_claim_reward (s : Indexer.t) (e : MeteoraDammV2ClaimRewardEvent.t) :
    Indexer.t * RepositoryResult InsertOutcome :=
  insert (touch_pool s (MeteoraDammV2ClaimRewardEvent.pool_address e)) (MeteoraDammV2Event.ClaimReward e).

Definition persist_initialize_reward (s : Indexer.t) (e : MeteoraDammV2InitializeRewardEvent.t) :
    Indexer.t * RepositoryResult InsertOutcome :=
  insert (touch_pool s (MeteoraDammV2InitializeRewardEvent.pool_address e)) (MeteoraDammV2Event.InitializeReward e).

Definition persist_fund_reward (s : Indexer.t) (e : MeteoraDammV2FundRewardEvent.t) :
    Indexer.t * RepositoryResult InsertOutcome :=
  insert (touch_pool s (MeteoraDammV2FundRewardEvent.pool_address e)) (MeteoraDammV2Event.FundReward e).

Definition persist_withdraw_ineligible_reward (s : Indexer.t) (e : MeteoraDammV2WithdrawIneligibleRewardEvent.t) :
    Indexer.t * RepositoryResult InsertOutcome :=
  insert (touch_pool s (MeteoraDammV2WithdrawIneligibleRewardEvent.pool_address e)) (MeteoraDammV2Event.WithdrawIneligibleReward e).

Definition persist_update_reward_duration (s : Indexer.t) (e : MeteoraDammV2UpdateRewardDurationEvent.t) :
    Indexer.t * RepositoryResult InsertOutcome :=
  insert (touch_pool s (MeteoraDammV2UpdateRewardDurationEvent.pool_address e)) (MeteoraDammV2Event.UpdateRewardDuration e).

Definition persist_update_reward_funder (s : Indexer.t) (e : MeteoraDammV2UpdateRewardFunderEvent.t) :
    Indexer.t * RepositoryResult InsertOutcome :=
  insert (touch_pool s (MeteoraDammV2UpdateRewardFunderEvent.pool_address e)) (MeteoraDammV2Event.UpdateRewardFunder e).

Definition persist_withdraw_dead_liquidity_reward (s : Indexer.t) (e : MeteoraDammV2WithdrawDeadLiquidityRewardEvent.t) :
    Indexer.t * RepositoryResult InsertOutcome :=
  insert (touch_pool s (MeteoraDammV2WithdrawDeadLiquidityRewardEvent.pool_address e)) (MeteoraDammV2Event.WithdrawDeadLiquidityReward e).

Definition persist_create_position (s : Indexer.t) (e : MeteoraDammV2CreatePositionEvent.t) :
    Indexer.t * RepositoryResult InsertOutcome :=
  insert (touch_pool s (MeteoraDammV2CreatePositionEvent.pool_address e)) (MeteoraDammV2Event.CreatePosition e).

Definition persist_close_position (s : Indexer.t) (e : MeteoraDammV2ClosePositionEvent.t) :
    Indexer.t * RepositoryResult InsertOutcome :=
  insert (touch_pool s (MeteoraDammV2ClosePositionEvent.pool_address e)) (MeteoraDammV2Event.ClosePosition e).

Definition persist_lock_position (s : Indexer.t) (e : MeteoraDammV2LockPositionEvent.t) :
    Indexer.t * RepositoryResult InsertOutcome :=
  insert (touch_pool s (MeteoraDammV2LockPositionEvent.pool_address e)) (MeteoraDammV2Event.LockPosition e).

Definition persist_permanent_lock_position (s : Indexer.t) (e : MeteoraDammV2PermanentLockPositionEvent.t) :
    Indexer.t * RepositoryResult InsertOutcome :=
  insert (touch_pool s (MeteoraDammV2PermanentLockPositionEvent.pool_address e)) (MeteoraDammV2Event.PermanentLockPosition e).

Definition persist_split_position (s : Indexer.t) (e : MeteoraDammV2SplitPositionEvent.t) :
    Indexer.t * RepositoryResult InsertOutcome :=
  insert (touch_pool s (MeteoraDammV2SplitPositionEvent.pool_address e)) (MeteoraDammV2Event.SplitPosition e).

Definition persist_set_pool_status (s : Indexer.t) (e : MeteoraDammV2SetPoolStatusEvent.t) :
    Indexer.t * RepositoryResult InsertOutcome :=
  insert (touch_pool s (MeteoraDammV2SetPoolStatusEvent.pool_address e)) (MeteoraDammV2Event.SetPoolStatus e).

Definition persist_initialize_pool (s : Indexer.t) (e : MeteoraDammV2InitializePoolEvent.t) (kind : string) :
    Indexer.t * RepositoryResult InsertOutcome :=
  let s := discover_pool s PROTOCOL (MeteoraDammV2InitializePoolEvent.pool_address e) kind in
  let (s, r) := insert s (MeteoraDammV2Event.InitializePool e) in
  match r with
  | Err err => (s, Err err)
  | Ok outcome =>
    let s :=
      match outcome, decode_meteora_damm_v2_pool_fees (MeteoraDammV2InitializePoolEvent.pool_fees_raw e) with
      | Inserted, Err reason => fees_undecodable s kind reason
      | _, _ => s
      end in
    (s, Ok outcome)
  end.

Definition persist_update_pool_fees (s : Indexer.t) (e : MeteoraDammV2UpdatePoolFeesEvent.t) (kind : string) :
    Indexer.t * RepositoryResult InsertOutcome :=
  let s := touch_pool s (MeteoraDammV2UpdatePoolFeesEvent.pool_address e) in
  let (s, _) := flag_needs_refresh s (MeteoraDammV2UpdatePoolFeesEvent.pool_address e) in
  let (s, r) := insert s (MeteoraDammV2Event.UpdatePoolFees e) in
  match r with
  | Err err => (s, Err err)
  | Ok outcome =>
    let s :=
      match outcome,
        decode_meteora_damm_v2_pool_fees_update (MeteoraDammV2UpdatePoolFeesEvent.params_raw e) with
      | Inserted, Err reason => fees_undecodable s kind reason
      | _, _ => s
      end in
    (s, Ok outcome)
  end.

(** The recipe of an event, by its kind. *)
Definition persist_event (s : Indexer.t) (event : MeteoraDammV2Event.t) (kind : string) :
    Indexer.t * RepositoryResult InsertOutcome :=
  match event with
  | MeteoraDammV2Event.Swap e => persist_swap s e kind
  | MeteoraDammV2Event.Liquidity e => persist_liquidity s e kind
  | MeteoraDammV2Event.ClaimPositionFee e => persist_claim_position_fee s e
  | MeteoraDammV2Event.ClaimProtocolFee e => persist_claim_protocol_fee s e
  | MeteoraDammV2Event.ClaimReward e => persist_claim_reward s e
  | MeteoraDammV2Event.InitializeReward e => persist_initialize_reward s e
  | MeteoraDammV2Event.FundReward e => persist_fund_reward s e
  | MeteoraDammV2Event.WithdrawIneligibleReward e => persist_withdraw_ineligible_reward s e
  | MeteoraDammV2Event.UpdateRewardDuration e => persist_update_reward_duration s e
  | MeteoraDammV2Event.UpdateRewardFunder e => persist_update_reward_funder s e
  | MeteoraDammV2Event.WithdrawDeadLiquidityReward e => persist_withdraw_dead_liquidity_reward s e
  | MeteoraDammV2Event.CreatePosition e => persist_create_position s e
  | MeteoraDammV2Event.ClosePosition e => persist_close_position s e
  | MeteoraDammV2Event.LockPosition e => persist_lock_position s e
  | MeteoraDammV2Event.PermanentLockPosition e => persist_permanent_lock_position s e
  | MeteoraDammV2Event.InitializePool e => persist_initialize_pool s e kind
  | MeteoraDammV2Event.SetPoolStatus e => persist_set_pool_status s e
  | MeteoraDammV2Event.SplitPosition e => persist_split_position s e
  | MeteoraDammV2Event.UpdatePoolFees e => persist_update_pool_fees s e kind
  end.

Definition persist_damm_v2 (s : Indexer.t) (event : MeteoraDammV2Event.t) : Indexer.t :=
  let kind := MeteoraDammV2Event.kind event in
  let (s, r) := persist_event s event kind in
  let s := Indexer.record s (PersistDuration kind) in
  match r with
  | Ok outcome =>
      let s := Indexer.record s (Indexed kind) in
      if is_skipped outcome then Indexer.record s (InsertSkipped kind) else s
  | Err _ => Indexer.record s (PersistFailure kind)
  end.

(** ** [event_persistor.rs] *)

Definition persist (s : Indexer.t) (event : DomainEvent.t) : Indexer.t :=
  match event with
  | DomainEvent.MeteoraDammV2 e => persist_damm_v2 s e
  end.

(** ** [transaction_processor.rs] *)

Definition failure_kind (f : ExtractionFailure) : string :=
  match f with
  | FailedAnchorDecode _ => "anchor_decode"
  | FailedBorsh _ _ => "borsh"
  | FailedTranslation _ _ => "translation"
  | FailedEventIndexOverflow _ => "event_index_overflow"
  end.

Definition report_diagnostics (s : Indexer.t) (protocol : Protocol) (outcome : ExtractionOutcome.t) :
    Indexer.t :=
  let s := foldl (fun s unknown =>
      Indexer.record s (UnknownEventSeen protocol (discriminator_hex (UnknownEventInfo.discriminator unknown))))
    s (ExtractionOutcome.unknown outcome) in
  foldl (fun s failure => Indexer.record s (ExtractionFailed protocol (failure_kind failure)))
    s (ExtractionOutcome.failures outcome).

Context `{Borsh} `{Sha256} `{Base58}.

(** The exit is recorded last: the guard is dropped on the way out. *)
Definition process_transaction (s : Indexer.t) (protocol : Protocol) (tx : OnChainTransaction.t) :
    Indexer.t * CoreResult unit :=
  let s := Indexer.record s (Entered protocol) in
  match extract protocol tx with
  | Err e => (Indexer.record s (Exited protocol "extract_failure"), Err e)
  | Ok outcome =>
    let s := report_diagnostics s protocol outcome in
    match ExtractionOutcome.events outcome with
    | [] =>
        let s := Indexer.record s (NoMatch protocol) in
        (Indexer.record s (Exited protocol "no_events"), Ok ())
    | events =>
        let s := foldl persist s events in
        (Indexer.record s (Exited protocol "ok"), Ok ())
    end
  end.
End Persistor.
