(* ===== verification/PersistFacts.v ===== *)
(** * What indexing a transaction guarantees

    Every extracted event is stored once, found already stored, or counted as
    failed, whatever statements fail; a replay stores nothing twice; the
    projection of a pool only shows an event of the tables, and converges to
    the last one in chain order. *)

From S2P Require Import Prelude Errors External Domain WireEvents Extractor Translator Extraction.
From S2P Require Import FeeParameters Reference Store Persist.

(** ** Statements *)

Section Facts.
Context `{Postgres} `{Clock}.
Implicit Types (s : Indexer.t) (w e : MeteoraDammV2Event.t).

Notation rows s := (Db.events (Indexer.db s)).

(** The statements that write no event. *)
Definition same_events (d d' : Db.t) : Prop := Db.events d' = Db.events d.

(** The statements that write pools only. *)
Definition pools_only (d d' : Db.t) : Prop :=
  same_events d d' /\ Db.pool_current_state d' = Db.pool_current_state d.

Lemma upsert_pool_only d p : pools_only d (upsert_pool d p).1.
Proof.
  unfold upsert_pool, execute, pools_only, same_events. simpl.
  destruct (fault (Db.statements d)) as [e0|]; simpl; [done|].
  destruct (Db.pools d !! Pool.pool_address p) as [r|] eqn:Hr; simpl; [done|].
  destruct (fault (S (Db.statements d))); simpl; [done|]. by rewrite Hr.
Qed.

Lemma touch_only d a : pools_only d (touch_last_seen d a).1.
Proof.
  unfold touch_last_seen, execute, pools_only, same_events. destruct (fault _); [done|]. simpl.
  by destruct (Db.pools d !! a).
Qed.

Lemma mark_only d a : pools_only d (mark_needs_refresh d a).1.
Proof.
  unfold mark_needs_refresh, execute, pools_only, same_events. destruct (fault _); [done|]. simpl.
  by destruct (Db.pools d !! a).
Qed.

Lemma upsert_state_events d u : same_events d (upsert_state d u).1.
Proof.
  unfold upsert_state, same_events. destruct (convert_all _); [|done]. unfold execute.
  destruct (fault _); [done|]. by destruct (upsert_row _ _).
Qed.

(** What an insert does: stored, already there, or failed with nothing changed. *)
Lemma insert_event_spec d w :
  let '(d', r) := insert_event d w in
  match r with
  | Ok Inserted => Db.events d' = Db.events d ++ [w] /\ existsb (same_row w) (Db.events d) = false
  | Ok Skipped => Db.events d' = Db.events d /\ existsb (same_row w) (Db.events d) = true
  | Err _ => Db.events d' = Db.events d
  end.
Proof.
  unfold insert_event. destruct (convert_all (bigints w)); [|done]. unfold execute.
  destruct (fault (Db.statements d)); simpl; [done|].
  by destruct (existsb (same_row w) (Db.events d)) eqn:He.
Qed.

(** ** Counters *)

Definition is_indexed (m : IndexMetric) : bool := match m with Indexed _ => true | _ => false end.
Definition is_insert_skipped (m : IndexMetric) : bool := match m with InsertSkipped _ => true | _ => false end.
Definition is_persist_failure (m : IndexMetric) : bool := match m with PersistFailure _ => true | _ => false end.
Definition is_entered (m : IndexMetric) : bool := match m with Entered _ => true | _ => false end.
Definition is_exited (m : IndexMetric) : bool := match m with Exited _ _ => true | _ => false end.
Definition is_unknown (m : IndexMetric) : bool := match m with UnknownEventSeen _ _ => true | _ => false end.
Definition is_extraction_failed (m : IndexMetric) : bool := match m with ExtractionFailed _ _ => true | _ => false end.

Definition count (f : IndexMetric -> bool) (ms : list IndexMetric) : nat := length (List.filter f ms).

Lemma count_app f a b : count f (a ++ b) = (count f a + count f b)%nat.
Proof. unfold count. by rewrite List.filter_app, length_app. Qed.

(** [s'] has logged [quiet] metrics more than [s]: none of the ones counted. *)
Definition quiet (m : IndexMetric) : bool :=
  match m with
  | PersistDuration _ | PoolUpsertFailure _ | PoolCurrentStateSameSlot | FeesUndecodable _ _ | NoMatch _ => true
  | _ => false
  end.

Definition quietly s s' : Prop :=
  exists ms, Indexer.metrics s' = Indexer.metrics s ++ ms /\ forallb quiet ms = true.

Lemma quietly_refl s : quietly s s.
Proof. exists []. by rewrite app_nil_r. Qed.

Lemma quietly_trans s1 s2 s3 : quietly s1 s2 -> quietly s2 s3 -> quietly s1 s3.
Proof.
  intros (m1 & E1 & Q1) (m2 & E2 & Q2). exists (m1 ++ m2).
  by rewrite E2, E1, app_assoc, forallb_app, Q1, Q2.
Qed.

Lemma quietly_record s m : quiet m = true -> quietly s (Indexer.record s m).
Proof. intros Hm. exists [m]. simpl. by rewrite Hm. Qed.

Lemma quietly_db s d : quietly s (Indexer.set_db s d).
Proof. exists []. by rewrite app_nil_r. Qed.

Lemma quiet_count f ms :
  (forall m, f m = true -> quiet m = false) -> forallb quiet ms = true -> count f ms = 0%nat.
Proof.
  intros Hf. induction ms as [|m ms IH]; simpl; [done|]. intros [Hm Hms]%andb_true_iff.
  unfold count in *. simpl. destruct (f m) eqn:Hfm; [apply Hf in Hfm; congruence|by apply IH].
Qed.

(** ** The recipes *)

(** Nothing stored and nothing counted between [s] and [s']. *)
Definition kept s s' : Prop := rows s' = rows s /\ quietly s s'.

#[local] Instance kept_preorder : PreOrder kept.
Proof.
  split; [intros s; split; [done|apply quietly_refl]|].
  intros s1 s2 s3 [E1 Q1] [E2 Q2]. split; [congruence|by eapply quietly_trans].
Qed.

Lemma kept_record s m : quiet m = true -> kept s (Indexer.record s m).
Proof. split; [done|by apply quietly_record]. Qed.

Lemma kept_db s d : same_events (Indexer.db s) d -> kept s (Indexer.set_db s d).
Proof. split; [done|apply quietly_db]. Qed.

Lemma kept_db_record s d m :
  same_events (Indexer.db s) d -> quiet m = true -> kept s (Indexer.record (Indexer.set_db s d) m).
Proof. intros Hd Hm. etrans; [by apply kept_db|by apply kept_record]. Qed.

(** [kept], and the projection untouched. *)
Definition pools_kept s s' : Prop :=
  kept s s' /\ Db.pool_current_state (Indexer.db s') = Db.pool_current_state (Indexer.db s).

Lemma discover_kept s p a k : pools_kept s (discover_pool s p a k).
Proof.
  unfold discover_pool. set (pool := Pool.mk _ _ _ _ _).
  pose proof (upsert_pool_only (Indexer.db s) pool) as [Hd Hs].
  destruct (upsert_pool _ pool) as [d []]; (split; [by apply kept_db_record|done]).
Qed.

Lemma touch_kept s a : pools_kept s (touch_pool s a).
Proof.
  unfold touch_pool. pose proof (touch_only (Indexer.db s) a) as [Hd Hs].
  destruct (touch_last_seen _ a) as [d []]; (split; [|done]);
    [by apply kept_db_record|by apply kept_db].
Qed.

Lemma flag_kept s a : pools_kept s (flag_needs_refresh s a).1.
Proof.
  unfold flag_needs_refresh. pose proof (mark_only (Indexer.db s) a) as [Hd Hs].
  destruct (mark_needs_refresh _ a) as [d []]; (split; [|done]);
    [by apply kept_db_record|by apply kept_db].
Qed.

Lemma apply_kept s u : kept s (apply_pool_current_state_upsert s u).
Proof.
  unfold apply_pool_current_state_upsert.
  pose proof (upsert_state_events (Indexer.db s) u) as Hd.
  destruct (upsert_state _ u) as [d [o|]]; [|by apply kept_db].
  destruct (PoolCurrentStateUpsertOutcome.same_slot_ambiguity o).
  - etrans; [apply kept_db_record|by apply kept_record]; [done|].
    by destruct (PoolCurrentStateUpsertOutcome.applied o).
  - apply kept_db_record; [done|]. by destruct (PoolCurrentStateUpsertOutcome.applied o).
Qed.

(** What persisting [w] did to the tables, by its result. *)
Definition persisted s w (s' : Indexer.t) (r : RepositoryResult InsertOutcome) : Prop :=
  quietly s s' /\
  match r with
  | Ok Inserted => rows s' = rows s ++ [w] /\ existsb (same_row w) (rows s) = false
  | Ok Skipped => rows s' = rows s /\ existsb (same_row w) (rows s) = true
  | Err _ => rows s' = rows s
  end.

Lemma persisted_insert s w : persisted s w (insert s w).1 (insert s w).2.
Proof.
  unfold insert. pose proof (insert_event_spec (Indexer.db s) w) as Hi.
  destruct (insert_event _ w) as [d r]. split; [apply quietly_db|done].
Qed.

Lemma persisted_after s0 s w s' r : kept s0 s -> persisted s w s' r -> persisted s0 w s' r.
Proof.
  intros [E Q] [Q' Hr]. split; [by eapply quietly_trans|]. by rewrite E in Hr.
Qed.

Lemma persisted_before s w s1 s' r : persisted s w s1 r -> kept s1 s' -> persisted s w s' r.
Proof.
  intros [Q Hr] [E Q']. split; [by eapply quietly_trans|]. by rewrite E.
Qed.

Lemma persisted_maintained s s0 w :
  kept s0 s -> persisted s0 w (insert s w).1 (insert s w).2.
Proof. intros Hk. eapply persisted_after; [done|apply persisted_insert]. Qed.

(** An insert followed by more work when it succeeds. *)
Lemma persisted_then s0 s w (after : Indexer.t -> InsertOutcome -> Indexer.t) :
  kept s0 s -> (forall s o, kept s (after s o)) ->
  let '(s1, r) := insert s w in
  let s' := match r with Ok o => after s1 o | Err _ => s1 end in
  persisted s0 w s' r.
Proof.
  intros Hk Ha. pose proof (persisted_maintained s s0 w Hk) as Hi.
  destruct (insert s w) as [s1 [o|e]]; [|done]. by eapply persisted_before.
Qed.

Lemma undecodable_kept {A} s k o (r : result A MeteoraDammV2FeeParametersRejection) :
  kept s match o, r with Inserted, Err reason => fees_undecodable s k reason | _, _ => s end.
Proof. destruct o, r; try done. by apply kept_record. Qed.

Lemma persist_event_spec s w k :
  persisted s w (persist_event s w k).1 (persist_event s w k).2.
Proof.
  destruct w as [e|e|e|e|e|e|e|e|e|e|e|e|e|e|e|e|e|e|e]; simpl;
    try (apply persisted_maintained, (proj1 (touch_kept _ _))).
  - unfold persist_swap. set (s0 := discover_pool s _ _ k).
    pose proof (persisted_then s s0 (MeteoraDammV2Event.Swap e)
      (fun s _ => update_pool_current_state_from_swap s PROTOCOL e)
      (proj1 (discover_kept s _ _ k)) (fun s _ => apply_kept s _)) as Hi.
    by destruct (insert s0 _) as [s1 []].
  - unfold persist_liquidity. set (s0 := discover_pool s _ _ k).
    pose proof (persisted_then s s0 (MeteoraDammV2Event.Liquidity e)
      (fun s _ => update_pool_current_state_from_liquidity s PROTOCOL e)
      (proj1 (discover_kept s _ _ k)) (fun s _ => apply_kept s _)) as Hi.
    by destruct (insert s0 _) as [s1 []].
  - unfold persist_initialize_pool. set (s0 := discover_pool s _ _ k).
    pose proof (persisted_then s s0 (MeteoraDammV2Event.InitializePool e) _
      (proj1 (discover_kept s _ _ k)) (fun s o => undecodable_kept s k o
        (decode_meteora_damm_v2_pool_fees (MeteoraDammV2InitializePoolEvent.pool_fees_raw e)))) as Hi.
    by destruct (insert s0 _) as [s1 []].
  - unfold persist_update_pool_fees.
    set (a := MeteoraDammV2UpdatePoolFeesEvent.pool_address e).
    assert (kept s (flag_needs_refresh (touch_pool s a) a).1) as Hk
      by (etrans; [exact (proj1 (touch_kept s a))|exact (proj1 (flag_kept _ a))]).
    destruct (flag_needs_refresh (touch_pool s a) a) as [s0 r0]. simpl in Hk.
    pose proof (persisted_then s s0 (MeteoraDammV2Event.UpdatePoolFees e) _ Hk
      (fun s o => undecodable_kept s k o
        (decode_meteora_damm_v2_pool_fees_update (MeteoraDammV2UpdatePoolFeesEvent.params_raw e)))) as Hi.
    by destruct (insert s0 _) as [s1 []].
Qed.

(** ** A transaction's events *)

Definition row_of (d : DomainEvent.t) : MeteoraDammV2Event.t :=
  match d with DomainEvent.MeteoraDammV2 e => e end.

(** Where a row is: its table and its unique key there. *)
Definition row_id w : string * (Signature * Z * DateTime) := (table w, event_key w).

Definition distinct (r : list MeteoraDammV2Event.t) : Prop := NoDup (map row_id r).

(** The table of the event has its row. *)
Definition present (r : list MeteoraDammV2Event.t) (d : DomainEvent.t) : bool :=
  existsb (same_row (row_of d)) r.

Lemma same_row_id a b : same_row a b = true <-> row_id a = row_id b.
Proof.
  unfold same_row, row_id. rewrite andb_true_iff, !bool_decide_eq_true.
  split; [by intros [-> ->]|]. intros Hp.
  split; [exact (f_equal fst Hp)|exact (f_equal snd Hp)].
Qed.

Lemma present_iff r (d : DomainEvent.t) : present r d = true <-> row_id (row_of d) ∈ map row_id r.
Proof.
  unfold present. rewrite existsb_exists, list_elem_of_In, in_map_iff.
  setoid_rewrite same_row_id. split; intros (w & H1 & H2); by exists w.
Qed.

Lemma present_app r r' (d : DomainEvent.t) : present r d = true -> present (r ++ r') d = true.
Proof. rewrite !present_iff, map_app, elem_of_app. by left. Qed.

Lemma missing_le r r' (es : list DomainEvent.t) :
  (length (List.filter (fun d => negb (present (r ++ r') d)) es) <=
   length (List.filter (fun d => negb (present r d)) es))%nat.
Proof.
  induction es as [|d es IH]; simpl; [done|].
  destruct (present r d) eqn:Hd; simpl; [by rewrite (present_app _ _ _ Hd)|].
  destruct (present (r ++ r') d); simpl; lia.
Qed.

(** The account of the events [es] processed between [s] and [s']: [new] are
    the rows stored, [ms] the metrics logged. *)
Record accounts s (es : list DomainEvent.t) s' (new : list MeteoraDammV2Event.t)
    (ms : list IndexMetric) : Prop := {
  accounts_rows : rows s' = rows s ++ new;
  accounts_metrics : Indexer.metrics s' = Indexer.metrics s ++ ms;
  accounts_sublist : new `sublist_of` map row_of es;
  accounts_fresh : Forall (fun w => row_id w ∉ map row_id (rows s)) new;
  accounts_indexed : count is_indexed ms = (length new + count is_insert_skipped ms)%nat;
  accounts_total : (count is_indexed ms + count is_persist_failure ms)%nat = length es;
  accounts_missing :
    (length (List.filter (fun d => negb (present (rows s') d)) es) <= count is_persist_failure ms)%nat;
  accounts_distinct : distinct (rows s) -> distinct (rows s');
}.

(** The metrics of the event loop. *)
Definition in_loop (m : IndexMetric) : bool :=
  quiet m || is_indexed m || is_insert_skipped m || is_persist_failure m.

Lemma loop_count f ms :
  (forall m, f m = true -> in_loop m = false) -> forallb in_loop ms = true -> count f ms = 0%nat.
Proof.
  intros Hf. induction ms as [|m ms IH]; simpl; [done|]. intros [Hm Hms]%andb_true_iff.
  unfold count in *. simpl. destruct (f m) eqn:Hfm; [apply Hf in Hfm; congruence|by apply IH].
Qed.

Lemma quiet_loop ms : forallb quiet ms = true -> forallb in_loop ms = true.
Proof.
  rewrite !forallb_forall. intros Hm m Hi. unfold in_loop. by rewrite (Hm m Hi).
Qed.

Lemma persist_accounts s (d : DomainEvent.t) :
  exists new ms, accounts s [d] (persist s d) new ms /\ forallb in_loop ms = true.
Proof.
  destruct d as [w]. simpl. unfold persist_damm_v2. set (k := MeteoraDammV2Event.kind w).
  pose proof (persist_event_spec s w k) as [(ms & Hms & Hq) Hr].
  destruct (persist_event s w k) as [s1 r]. simpl in *.
  assert (forall f, (forall m, f m = true -> quiet m = false) -> count f ms = 0%nat) as Hzero
    by (intros f Hf; by apply quiet_count).
  assert (count is_indexed ms = 0%nat /\ count is_insert_skipped ms = 0%nat /\
    count is_persist_failure ms = 0%nat) as (C1 & C2 & C3) by (split_and!; apply Hzero; by intros []).
  apply quiet_loop in Hq.
  destruct r as [[]|e]; simpl.
  - destruct Hr as [Hrows Hfresh]. exists [w], (ms ++ [PersistDuration k; Indexed k]).
    split; [|by rewrite forallb_app, Hq]. split; simpl;
      rewrite ?Hrows, ?Hms, <- ?app_assoc, ?count_app, ?C1, ?C2, ?C3; try done.
    + constructor; [|done]. intros Hin.
      change (row_id w) with (row_id (row_of (DomainEvent.MeteoraDammV2 w))) in Hin.
      apply present_iff in Hin. unfold present in Hin. simpl in Hin. congruence.
    + assert (present (rows s ++ [w]) (DomainEvent.MeteoraDammV2 w) = true) as ->; [|done].
      apply present_iff. rewrite map_app, elem_of_app. right. by left.
    + unfold distinct. intros Hd. rewrite map_app, NoDup_app. split_and!; [done| |apply NoDup_singleton].
      intros x Hx ->%list_elem_of_singleton.
      change (row_id w) with (row_id (row_of (DomainEvent.MeteoraDammV2 w))) in Hx.
      apply present_iff in Hx. unfold present in Hx. simpl in Hx. congruence.
  - destruct Hr as [Hrows Hold]. exists [], (ms ++ [PersistDuration k; Indexed k; InsertSkipped k]).
    split; [|by rewrite forallb_app, Hq]. split; simpl;
      rewrite ?Hrows, ?Hms, ?app_nil_r, <- ?app_assoc, ?count_app, ?C1, ?C2, ?C3; try done.
    + apply sublist_nil_l.
    + by assert (present (rows s) (DomainEvent.MeteoraDammV2 w) = true) as ->.
  - exists [], (ms ++ [PersistDuration k; PersistFailure k]).
    split; [|by rewrite forallb_app, Hq]. split; simpl;
      rewrite ?Hr, ?Hms, ?app_nil_r, <- ?app_assoc, ?count_app, ?C1, ?C2, ?C3; try done.
    + apply sublist_nil_l.
    + destruct (present _ _); unfold count; simpl; lia.
Qed.

Lemma accounts_app s es1 s1 n1 m1 es2 s2 n2 m2 :
  accounts s es1 s1 n1 m1 -> accounts s1 es2 s2 n2 m2 ->
  accounts s (es1 ++ es2) s2 (n1 ++ n2) (m1 ++ m2).
Proof.
  intros A B. destruct A as [A1 A2 A3 Af A4 A5 A6 A7], B as [B1 B2 B3 Bf B4 B5 B6 B7].
  split; rewrite ?count_app, ?length_app, ?map_app; try lia.
  - by rewrite B1, A1, app_assoc.
  - by rewrite B2, A2, app_assoc.
  - by apply sublist_app.
  - apply Forall_app_2; [done|]. eapply Forall_impl; [exact Bf|]. intros w Hw Hin. apply Hw.
    rewrite A1, map_app, elem_of_app. by left.
  - rewrite List.filter_app, length_app. etrans; [|apply Nat.add_le_mono; [exact A6|exact B6]].
    apply Nat.add_le_mono_r. rewrite B1. apply missing_le.
  - auto.
Qed.

Lemma persist_all_accounts es : forall s,
  exists new ms, accounts s es (foldl persist s es) new ms /\ forallb in_loop ms = true.
Proof.
  induction es as [|d es IH]; intros s; simpl.
  - exists [], []. split; [|done]. split; simpl; rewrite ?app_nil_r; done.
  - destruct (persist_accounts s d) as (n1 & m1 & A1 & L1).
    destruct (IH (persist s d)) as (n2 & m2 & A2 & L2).
    exists (n1 ++ n2), (m1 ++ m2). split; [exact (accounts_app _ [d] _ _ _ _ _ _ _ A1 A2)|].
    by rewrite forallb_app, L1, L2.
Qed.
End Facts.

(** ** A transaction *)

Section Transaction.
Context `{Postgres} `{Clock} `{Borsh} `{Sha256} `{Base58}.
Implicit Types (s : Indexer.t).

Notation rows s := (Db.events (Indexer.db s)).

(** A metric that counts no event. *)
Definition uncounted (m : IndexMetric) : bool :=
  negb (is_indexed m || is_insert_skipped m || is_persist_failure m).

Lemma accounts_logged s s' ms :
  Indexer.db s' = Indexer.db s -> Indexer.metrics s' = Indexer.metrics s ++ ms ->
  forallb uncounted ms = true -> accounts s [] s' [] ms.
Proof.
  intros Hdb Hms Hu.
  assert (forall f, (forall m, f m = true -> uncounted m = false) -> count f ms = 0%nat) as Hz.
  { intros f Hf. clear Hms. induction ms as [|m ms IH]; [done|]. unfold count in *. simpl in *.
    apply andb_true_iff in Hu as [Hm Hu].
    destruct (f m) eqn:Hfm; [apply Hf in Hfm; congruence|by apply IH]. }
  assert (count is_indexed ms = 0%nat /\ count is_insert_skipped ms = 0%nat /\
    count is_persist_failure ms = 0%nat) as (C1 & C2 & C3) by (split_and!; apply Hz; by intros []).
  split; rewrite ?C1, ?C2, ?C3, ?Hdb, ?app_nil_r; done.
Qed.

Definition diagnostics (p : Protocol) (out : ExtractionOutcome.t) : list IndexMetric :=
  map (fun u => UnknownEventSeen p (discriminator_hex (UnknownEventInfo.discriminator u)))
    (ExtractionOutcome.unknown out) ++
  map (fun f => ExtractionFailed p (failure_kind f)) (ExtractionOutcome.failures out).

Lemma record_all {A} (f : A -> IndexMetric) xs : forall s,
  foldl (fun s x => Indexer.record s (f x)) s xs =
    Indexer.mk (Indexer.db s) (Indexer.metrics s ++ map f xs).
Proof.
  induction xs as [|x xs IH]; intros s; simpl; [rewrite app_nil_r; by destruct s|].
  rewrite IH. simpl. by rewrite <- app_assoc.
Qed.

Lemma report_diagnostics_eq s p out :
  report_diagnostics s p out = Indexer.mk (Indexer.db s) (Indexer.metrics s ++ diagnostics p out).
Proof.
  unfold report_diagnostics, diagnostics. rewrite !record_all. simpl. by rewrite app_assoc.
Qed.

Lemma extract_total p tx : exists out, extract p tx = Ok out.
Proof. by destruct p; eexists. Qed.

Lemma count_map_all {A} (f : IndexMetric -> bool) (g : A -> IndexMetric) xs b :
  (forall x, f (g x) = b) -> count f (map g xs) = if b then length xs else 0%nat.
Proof.
  intros Hf. unfold count. induction xs as [|x xs IH]; simpl; [by destruct b|].
  rewrite Hf. destruct b; simpl; by rewrite IH.
Qed.

Lemma diagnostics_count f p out bu bf :
  (forall d, f (UnknownEventSeen p d) = bu) -> (forall k, f (ExtractionFailed p k) = bf) ->
  count f (diagnostics p out) =
    ((if bu then length (ExtractionOutcome.unknown out) else 0) +
     (if bf then length (ExtractionOutcome.failures out) else 0))%nat.
Proof.
  intros Hu Hf. unfold diagnostics. rewrite count_app.
  by rewrite (count_map_all f _ _ bu), (count_map_all f _ _ bf).
Qed.

Lemma diagnostics_uncounted p out : forallb uncounted (diagnostics p out) = true.
Proof.
  unfold diagnostics. rewrite forallb_app, andb_true_iff, !forallb_forall. split;
    intros m (x & <- & _)%in_map_iff; done.
Qed.

(** The middle of a transaction: its events, or the absence of any. *)
Definition index_events s (p : Protocol) (es : list DomainEvent.t) : Indexer.t :=
  match es with
  | [] => Indexer.record s (NoMatch p)
  | es => foldl persist s es
  end.

Lemma process_transaction_eq s p tx out :
  extract p tx = Ok out ->
  process_transaction s p tx =
    (Indexer.record
      (index_events (report_diagnostics (Indexer.record s (Entered p)) p out) p
        (ExtractionOutcome.events out))
      (Exited p (match ExtractionOutcome.events out with [] => "no_events" | _ => "ok" end)), Ok ()).
Proof.
  intros Hx. unfold process_transaction. rewrite Hx. by destruct (ExtractionOutcome.events out).
Qed.

Lemma index_events_accounts s p es :
  exists new ms, accounts s es (index_events s p es) new ms /\ forallb in_loop ms = true.
Proof.
  destruct es as [|e es]; [|apply persist_all_accounts].
  exists [], [NoMatch p]. split; [by apply accounts_logged|done].
Qed.

(** The whole account of a transaction. *)
Record settled s (p : Protocol) (out : ExtractionOutcome.t) s' (new : list MeteoraDammV2Event.t)
    (ms : list IndexMetric) : Prop := {
  settled_accounts : accounts s (ExtractionOutcome.events out) s' new ms;
  settled_entered : count is_entered ms = 1%nat;
  settled_exited : count is_exited ms = 1%nat;
  settled_unknown : count is_unknown ms = length (ExtractionOutcome.unknown out);
  settled_failed : count is_extraction_failed ms = length (ExtractionOutcome.failures out);
}.

Lemma process_transaction_settles s p tx out :
  extract p tx = Ok out ->
  exists new ms, settled s p out (process_transaction s p tx).1 new ms /\
    (process_transaction s p tx).2 = Ok ().
Proof.
  intros Hx. rewrite (process_transaction_eq _ _ _ _ Hx), report_diagnostics_eq.
  set (s0 := Indexer.mk _ _). set (x := Exited _ _).
  destruct (index_events_accounts s0 p (ExtractionOutcome.events out)) as (new & ms & Ha & Hl).
  exists new, (([Entered p] ++ diagnostics p out) ++ ms ++ [x]). split; [|done].
  assert (forall f bu bf, (forall m, f m = true -> in_loop m = false) ->
    (forall d, f (UnknownEventSeen p d) = bu) -> (forall k, f (ExtractionFailed p k) = bf) ->
    count f (([Entered p] ++ diagnostics p out) ++ ms ++ [x]) =
      (count f [Entered p; x] + ((if bu then length (ExtractionOutcome.unknown out) else 0) +
        (if bf then length (ExtractionOutcome.failures out) else 0)))%nat) as Hc.
  { intros f bu bf Hf Hu Hb. change [Entered p; x] with ([Entered p] ++ [x]).
    rewrite !count_app, (loop_count f ms), (diagnostics_count f p out bu bf) by done. lia. }
  split.
  - assert (accounts s [] s0 [] ([Entered p] ++ diagnostics p out)) as Hpre.
    { apply accounts_logged; [done|simpl; by rewrite <- app_assoc|apply diagnostics_uncounted]. }
    pose proof (accounts_logged (index_events s0 p (ExtractionOutcome.events out))
      (Indexer.record (index_events s0 p (ExtractionOutcome.events out)) x)
      [x] eq_refl eq_refl eq_refl) as Hpost.
    pose proof (accounts_app _ _ _ _ _ _ _ _ _ Ha Hpost) as Hall. rewrite !app_nil_r in Hall.
    exact (accounts_app _ [] _ _ _ _ _ _ _ Hpre Hall).
  - by rewrite (Hc _ false false) by (by intros []).
  - by rewrite (Hc _ false false) by (by intros []).
  - rewrite (Hc _ true false) by (by intros []). unfold count. simpl. lia.
  - rewrite (Hc _ false true) by (by intros []). unfold count. simpl. lia.
Qed.

(** A sequence of transactions, one after the other. *)
Definition process_all s (txs : list (Protocol * OnChainTransaction.t)) : Indexer.t :=
  foldl (fun s x => (process_transaction s x.1 x.2).1) s txs.

Lemma process_transaction_extends s p tx : exists new, rows (process_transaction s p tx).1 = rows s ++ new.
Proof.
  destruct (extract_total p tx) as [out Hx].
  destruct (process_transaction_settles s p tx out Hx) as (new & ms & [A _ _ _ _] & _).
  exists new. apply A.
Qed.

Lemma process_all_extends txs : forall s, exists new, rows (process_all s txs) = rows s ++ new.
Proof.
  induction txs as [|x txs IH]; intros s; simpl; [exists []; by rewrite app_nil_r|].
  destruct (process_transaction_extends s x.1 x.2) as [n1 E1].
  destruct (IH (process_transaction s x.1 x.2).1) as [n2 E2].
  exists (n1 ++ n2). by rewrite E2, E1, app_assoc.
Qed.

Lemma none_missing r (es : list DomainEvent.t) :
  length (List.filter (fun d => negb (present r d)) es) = 0%nat -> forall d, In d es -> present r d = true.
Proof.
  intros Hl d Hd. destruct (present r d) eqn:Hp; [done|].
  assert (In d (List.filter (fun d => negb (present r d)) es)) as Hin
    by (apply List.filter_In; by rewrite Hp).
  by destruct (List.filter _ _).
Qed.

Lemma accounts_all_present s es s' new ms :
  accounts s es s' new ms -> (forall d, In d es -> present (rows s) d = true) -> new = [].
Proof.
  intros A Hp. destruct new as [|w new]; [done|]. exfalso.
  pose proof (accounts_fresh _ _ _ _ _ A) as Hf. apply Forall_cons_1 in Hf as [Hf _]. apply Hf.
  pose proof (accounts_sublist _ _ _ _ _ A) as Hsub.
  assert (In w (map row_of es)) as (d & <- & Hd)%in_map_iff.
  { apply list_elem_of_In. eapply elem_of_sublist; [|exact Hsub]. by left. }
  by apply present_iff, Hp.
Qed.
End Transaction.

Create HintDb persist.
#[export] Hint Resolve quietly_refl quietly_record quietly_db kept_record kept_db : persist.

(** C7: a transaction always comes to an end, whatever statements fail, and
    nothing of it is lost silently. Each extracted event is stored, found
    already stored, or counted as a failure, so the events the tables do not
    hold at the end are at most the failures counted; the new rows are events
    of the transaction, in its order, appended to the tables; a key
    (signature, event index, timestamp) is never held twice in a table; the
    gauge of transactions in flight is raised once and lowered once, and every
    unknown event and extraction failure is reported once. *)
Theorem process_transaction_accounts `{Postgres} `{Clock} `{Borsh} `{Sha256} `{Base58}
    (s : Indexer.t) (protocol : Protocol) (tx : OnChainTransaction.t) :
  exists out new ms, extract protocol tx = Ok out /\
    (process_transaction s protocol tx).2 = Ok () /\
    settled s protocol out (process_transaction s protocol tx).1 new ms.
Proof.
  destruct (extract_total protocol tx) as [out Hx].
  destruct (process_transaction_settles s protocol tx out Hx) as (new & ms & Hs & Hr).
  by exists out, new, ms.
Qed.

(** C13: delivery at least once is harmless: when a transaction was processed
    without a counted failure, processing it again later, after any others,
    stores no row, whatever statements fail then. *)
Theorem replay_stores_nothing `{Postgres} `{Clock} `{Borsh} `{Sha256} `{Base58}
    (s : Indexer.t) (protocol : Protocol) (tx : OnChainTransaction.t)
    (later : list (Protocol * OnChainTransaction.t)) :
  let s1 := (process_transaction s protocol tx).1 in
  count is_persist_failure (Indexer.metrics s1) = count is_persist_failure (Indexer.metrics s) ->
  let s2 := process_all s1 later in
  Db.events (Indexer.db (process_transaction s2 protocol tx).1) = Db.events (Indexer.db s2).
Proof.
  intros s1 Hfail s2. destruct (extract_total protocol tx) as [out Hx].
  destruct (process_transaction_settles s protocol tx out Hx) as (n1 & m1 & [A _ _ _ _] & _).
  destruct (process_transaction_settles s2 protocol tx out Hx) as (n2 & m2 & [B _ _ _ _] & _).
  fold s1 in A. rewrite (accounts_metrics _ _ _ _ _ A), count_app in Hfail.
  pose proof (accounts_missing _ _ _ _ _ A) as Hm.
  destruct (process_all_extends later s1) as [n Hn]. fold s2 in Hn.
  rewrite (accounts_rows _ _ _ _ _ B).
  rewrite (accounts_all_present _ _ _ _ _ B), app_nil_r; [done|]. rewrite Hn.
  intros d Hd. apply present_app. eapply none_missing; [|exact Hd]. lia.
Qed.

(** A database that is down from its tenth statement on. *)
Definition failing_postgres : Postgres := {|
  fault n := if (n <? 9)%nat then None else Some (Integrity "connection reset");
  db_now n := 1777013950 * 10 ^ 9 + Z.of_nat n;
|}.

Definition ticking_clock : Clock := {| utc_now n := 1777013949 * 10 ^ 9 + Z.of_nat n |}.

(** The reference transaction: two swaps stored, then a replay while the
    database is down. *)
Definition run_reference (s : Indexer.t) : Indexer.t :=
  (@process_transaction failing_postgres ticking_clock _ _ _ s MeteoraDammV2 reference_transaction).1.

Lemma replay_stores_nothing_witness :
  let s1 := run_reference (Indexer.mk Db.empty []) in
  let s2 := @process_all failing_postgres ticking_clock _ _ _ s1
    [(MeteoraDlmm, reference_transaction)] in
  length (Db.events (Indexer.db s1)) = 2%nat /\
  Db.events (Indexer.db (run_reference s2)) = Db.events (Indexer.db s2).
Proof.
  split; [vm_compute; reflexivity|].
  pose proof (@replay_stores_nothing failing_postgres ticking_clock _ _ _ (Indexer.mk Db.empty [])
    MeteoraDammV2 reference_transaction [(MeteoraDlmm, reference_transaction)]) as Hr.
  unfold run_reference. apply Hr. vm_compute. reflexivity.
Defined.
