(* ===== verification/RowsFacts.v ===== *)
(** * Every stored row reads back

    The widths of what the readers of [WireEvents.v] give are those the rows of
    [Rows.v] require: whatever bytes a transaction carries, the events it is
    indexed as are read back from their tables exactly. *)

From S2P Require Import Prelude Errors External Domain WireEvents Extractor Translator Extraction.
From S2P Require Import WireRoundTrip ExtractionFacts Store Rows Persist PersistFacts Reference.

(** ** What a reader gives *)

Notation bytes := (Forall (is_uint 8)).

(** The reader gives values in [P], and leaves bytes. *)
Definition reads {A} (r : reader A) (P : A -> Prop) : Prop :=
  forall bs a rest, bytes bs -> r bs = Ok (a, rest) -> P a /\ bytes rest.

Section Reads.
Context `{BorshLaws}.

Lemma reads_uint n : reads (read_uint n) (is_uint (8 * Z.of_nat n)).
Proof.
  intros bs a rest Hb (Hn & -> & ->)%read_uint_Ok. split; [|by apply Forall_drop].
  assert (bytes (take n bs)) as Ht by (by apply Forall_take).
  apply le_decode_bound in Ht. by rewrite length_take, Nat.min_l in Ht.
Qed.

Lemma reads_array n : reads (read_array n) (is_bytes n).
Proof.
  intros bs a rest Hb (Hn & -> & ->)%read_array_Ok. split; [|by apply Forall_drop].
  split; [rewrite length_take; lia|by apply Forall_take].
Qed.

Lemma reads_pubkey : reads read_pubkey (is_bytes 32).
Proof. apply reads_array. Qed.

Lemma reads_bool_tag (r : reader bool) :
  (forall b bs, r ((if b : bool then 1 else 0) :: bs) = Ok (b, bs)) ->
  (forall b bs, b <> 0 -> b <> 1 -> exists e, r (b :: bs) = Err e) ->
  (exists e, r [] = Err e) -> reads r (fun _ => True).
Proof.
  intros Hok Herr [e He] [|b bs] a rest Hb Hr; [congruence|]. apply Forall_cons_1 in Hb as [_ Hb].
  split; [done|].
  destruct (decide (b = 0)) as [->|Hn0]; [rewrite (Hok false) in Hr; congruence|].
  destruct (decide (b = 1)) as [->|Hn1]; [rewrite (Hok true) in Hr; congruence|].
  destruct (Herr b bs Hn0 Hn1) as [e' He']. congruence.
Qed.

Lemma reads_bool : reads read_bool (fun _ => True).
Proof. apply reads_bool_tag; [apply read_bool_ok|apply read_bool_err|apply read_bool_short]. Qed.

Lemma reads_option {A} (r : reader A) P :
  reads r P -> reads (read_option r) (fun o => match o with Some a => P a | None => True end).
Proof.
  intros Hr bs o rest Hb Ho. unfold read_option in Ho. inv_binds. destruct x as [some bs'].
  assert (bytes bs') as Hb'.
  { revert Hx. apply reads_bool_tag; [apply read_option_tag_ok|apply read_option_tag_err|apply read_option_tag_short|done]. }
  destruct some; [|by injection Ho as <- <-]. inv_binds. destruct x as [a bs''].
  injection Ho as <- <-. by apply (Hr bs').
Qed.

(** *** Readers composed as a derive composes them *)

Lemma reads_bind {A B} (r : reader A) (k : A -> reader B) P Q :
  reads r P -> (forall a, P a -> reads (k a) Q) ->
  reads (fun bs => let? (a, bs) := r bs in k a bs) Q.
Proof.
  intros Hr Hk bs b rest Hb Ho. inv_binds. destruct x as [a bs'].
  destruct (Hr bs a bs') as [Ha Hb']; [done..|]. by apply (Hk a Ha bs').
Qed.

Lemma reads_ret {A} (a : A) (P : A -> Prop) : P a -> reads (fun bs => Ok (a, bs)) P.
Proof. intros Ha bs b rest Hb [= <- <-]. done. Qed.

Lemma reads_to_end {A} (f : list Z -> A) (P : A -> Prop) :
  (forall bs, bytes bs -> P (f bs)) -> reads (fun bs => Ok (f bs, [])) P.
Proof. intros Hf bs b rest Hb [= <- <-]. split; [by apply Hf|done]. Qed.
End Reads.

Create HintDb reads.
#[export] Hint Resolve reads_uint reads_pubkey reads_array reads_bool reads_option : reads.

(** A field after the other, then the widths of the struct. *)
Ltac solve_reads :=
  repeat (eapply reads_bind; [solve [eauto with reads]|intros]);
  first [apply reads_ret | apply reads_to_end; intros];
  split_and?; assumption.

Section Structs.
Context `{BorshLaws}.


Lemma EvtClaimPositionFee_reads : reads EvtClaimPositionFee.read EvtClaimPositionFee.wf.
Proof. unfold EvtClaimPositionFee.read, EvtClaimPositionFee.wf. solve_reads. Qed.

Lemma EvtClaimProtocolFee_reads : reads EvtClaimProtocolFee.read EvtClaimProtocolFee.wf.
Proof. unfold EvtClaimProtocolFee.read, EvtClaimProtocolFee.wf. solve_reads. Qed.

Lemma EvtClaimReward_reads : reads EvtClaimReward.read EvtClaimReward.wf.
Proof. unfold EvtClaimReward.read, EvtClaimReward.wf. solve_reads. Qed.

Lemma EvtClosePosition_reads : reads EvtClosePosition.read EvtClosePosition.wf.
Proof. unfold EvtClosePosition.read, EvtClosePosition.wf. solve_reads. Qed.

Lemma EvtCreatePosition_reads : reads EvtCreatePosition.read EvtCreatePosition.wf.
Proof. unfold EvtCreatePosition.read, EvtCreatePosition.wf. solve_reads. Qed.

Lemma EvtFundReward_reads : reads EvtFundReward.read EvtFundReward.wf.
Proof. unfold EvtFundReward.read, EvtFundReward.wf. solve_reads. Qed.

Lemma BaseFeeParameters_reads : reads BaseFeeParameters.read BaseFeeParameters.wf.
Proof. unfold BaseFeeParameters.read, BaseFeeParameters.wf. solve_reads. Qed.
#[local] Hint Resolve BaseFeeParameters_reads : reads.

Lemma DynamicFeeParameters_reads : reads DynamicFeeParameters.read DynamicFeeParameters.wf.
Proof. unfold DynamicFeeParameters.read, DynamicFeeParameters.wf. solve_reads. Qed.
#[local] Hint Resolve DynamicFeeParameters_reads : reads.

Lemma PoolFeeParameters_reads : reads PoolFeeParameters.read PoolFeeParameters.wf.
Proof. unfold PoolFeeParameters.read, PoolFeeParameters.wf. solve_reads. Qed.
#[local] Hint Resolve PoolFeeParameters_reads : reads.

Lemma EvtInitializePool_reads : reads EvtInitializePool.read EvtInitializePool.wf.
Proof. unfold EvtInitializePool.read, EvtInitializePool.wf. solve_reads. Qed.

Lemma EvtInitializeReward_reads : reads EvtInitializeReward.read EvtInitializeReward.wf.
Proof. unfold EvtInitializeReward.read, EvtInitializeReward.wf. solve_reads. Qed.

Lemma EvtLiquidityChange_reads : reads EvtLiquidityChange.read EvtLiquidityChange.wf.
Proof. unfold EvtLiquidityChange.read, EvtLiquidityChange.wf. solve_reads. Qed.

Lemma EvtLockPosition_reads : reads EvtLockPosition.read EvtLockPosition.wf.
Proof. unfold EvtLockPosition.read, EvtLockPosition.wf. solve_reads. Qed.

Lemma EvtPermanentLockPosition_reads : reads EvtPermanentLockPosition.read EvtPermanentLockPosition.wf.
Proof. unfold EvtPermanentLockPosition.read, EvtPermanentLockPosition.wf. solve_reads. Qed.

Lemma EvtSetPoolStatus_reads : reads EvtSetPoolStatus.read EvtSetPoolStatus.wf.
Proof. unfold EvtSetPoolStatus.read, EvtSetPoolStatus.wf. solve_reads. Qed.

Lemma SplitAmountInfo2_reads : reads SplitAmountInfo2.read SplitAmountInfo2.wf.
Proof. unfold SplitAmountInfo2.read, SplitAmountInfo2.wf. solve_reads. Qed.
#[local] Hint Resolve SplitAmountInfo2_reads : reads.

Lemma SplitPositionInfo2_reads : reads SplitPositionInfo2.read SplitPositionInfo2.wf.
Proof. unfold SplitPositionInfo2.read, SplitPositionInfo2.wf. solve_reads. Qed.
#[local] Hint Resolve SplitPositionInfo2_reads : reads.

Lemma SplitPositionParameters3_reads : reads SplitPositionParameters3.read SplitPositionParameters3.wf.
Proof. unfold SplitPositionParameters3.read, SplitPositionParameters3.wf. solve_reads. Qed.
#[local] Hint Resolve SplitPositionParameters3_reads : reads.

Lemma EvtSplitPosition3_reads : reads EvtSplitPosition3.read EvtSplitPosition3.wf.
Proof. unfold EvtSplitPosition3.read, EvtSplitPosition3.wf. solve_reads. Qed.

Lemma SwapParameters2_reads : reads SwapParameters2.read SwapParameters2.wf.
Proof. unfold SwapParameters2.read, SwapParameters2.wf. solve_reads. Qed.
#[local] Hint Resolve SwapParameters2_reads : reads.

Lemma SwapResult2_reads : reads SwapResult2.read SwapResult2.wf.
Proof. unfold SwapResult2.read, SwapResult2.wf. solve_reads. Qed.
#[local] Hint Resolve SwapResult2_reads : reads.

Lemma EvtSwap2_reads : reads EvtSwap2.read EvtSwap2.wf.
Proof. unfold EvtSwap2.read, EvtSwap2.wf. solve_reads. Qed.

Lemma EvtUpdatePoolFees_reads : reads EvtUpdatePoolFees.read EvtUpdatePoolFees.wf.
Proof. unfold EvtUpdatePoolFees.read, EvtUpdatePoolFees.wf. solve_reads. Qed.

Lemma EvtUpdateRewardDuration_reads : reads EvtUpdateRewardDuration.read EvtUpdateRewardDuration.wf.
Proof. unfold EvtUpdateRewardDuration.read, EvtUpdateRewardDuration.wf. solve_reads. Qed.

Lemma EvtUpdateRewardFunder_reads : reads EvtUpdateRewardFunder.read EvtUpdateRewardFunder.wf.
Proof. unfold EvtUpdateRewardFunder.read, EvtUpdateRewardFunder.wf. solve_reads. Qed.

Lemma EvtWithdrawDeadLiquidityReward_reads : reads EvtWithdrawDeadLiquidityReward.read EvtWithdrawDeadLiquidityReward.wf.
Proof. unfold EvtWithdrawDeadLiquidityReward.read, EvtWithdrawDeadLiquidityReward.wf. solve_reads. Qed.

Lemma EvtWithdrawIneligibleReward_reads : reads EvtWithdrawIneligibleReward.read EvtWithdrawIneligibleReward.wf.
Proof. unfold EvtWithdrawIneligibleReward.read, EvtWithdrawIneligibleReward.wf. solve_reads. Qed.
End Structs.

(** ** Extracted events have the widths of their fields *)

(** What the transaction's type says of it: bytes, and the widths of its position. *)
Record wf_position (p : TransactionPosition.t) : Prop := {
  wf_signature : is_bytes 64 (TransactionPosition.signature p);
  wf_slot : is_uint 64 (TransactionPosition.slot p);
  wf_transaction_index :
    match TransactionPosition.transaction_index p with Some i => is_uint 32 i | None => True end;
}.

Record wf_transaction (tx : OnChainTransaction.t) : Prop := {
  wf_tx_position : wf_position (OnChainTransaction.position tx);
  wf_tx_data : Forall (fun ix => bytes (InnerInstructionPayload.data ix))
    (OnChainTransaction.inner_instructions tx);
}.

Section Dispatch.
Context `{BorshLaws} `{Sha256}.

Lemma dispatch_as_wf {T} (read : reader T) P wrap name body e :
  reads read P -> bytes body -> dispatch_as read wrap name body = Recognized e ->
  exists x, e = wrap x /\ P x.
Proof.
  intros Hr Hb. unfold dispatch_as, deserialize, try_from_slice.
  destruct (read body) as [[x rest]|] eqn:Hx; [|done].
  apply Hr in Hx as [Hx _]; [|done]. destruct rest; [|done]. simpl. intros [= <-]. by exists x.
Qed.

Lemma dispatch_wf disc body known e :
  bytes body -> dispatch disc body known = Recognized e -> wf_event e.
Proof.
  intros Hb. unfold dispatch. repeat (case_bool_decide;
    [first [done | intros Hd; eapply dispatch_as_wf in Hd;
      [destruct Hd as (x & -> & Hx); exact Hx
      |solve [eauto using EvtSwap2_reads, EvtLiquidityChange_reads, EvtClaimPositionFee_reads,
        EvtClaimReward_reads, EvtClaimProtocolFee_reads, EvtInitializeReward_reads,
        EvtFundReward_reads, EvtWithdrawIneligibleReward_reads, EvtUpdateRewardDuration_reads,
        EvtUpdateRewardFunder_reads, EvtWithdrawDeadLiquidityReward_reads, EvtSplitPosition3_reads,
        EvtCreatePosition_reads, EvtClosePosition_reads, EvtLockPosition_reads,
        EvtPermanentLockPosition_reads, EvtInitializePool_reads, EvtSetPoolStatus_reads,
        EvtUpdatePoolFees_reads]|exact Hb]]|]). done.
Qed.

Lemma decode_anchor_bytes raw disc body :
  bytes raw -> decode_anchor_event_cpi raw = Ok (disc, body) -> bytes body.
Proof.
  intros Hb. unfold decode_anchor_event_cpi.
  repeat match goal with |- context [if ?b then _ else _] => destruct b; [done|] end.
  intros [= _ <-]. by apply Forall_drop.
Qed.

(** The events of the extraction, whatever the bytes. *)
Lemma extracted_wf tx pid :
  wf_transaction tx ->
  Forall (fun ie => is_uint 16 (IndexedWireEvent.event_index ie) /\ wf_event (IndexedWireEvent.event ie))
    (ExtractedEvents.events (extract_wire_events tx pid)).
Proof.
  intros Htx. rewrite extract_wire_events_fates. simpl. apply Forall_forall.
  intros ie (f & Hf & Hie)%list_elem_of_omap. destruct f as [ie'| | | |]; simplify_eq/=.
  apply list_elem_of_lookup in Hf as [i Hf]. apply fates_lookup in Hf as (raw & Hraw & Hf).
  symmetry in Hf. apply fate_of_event in Hf as (Hi & -> & disc & body & Hd & Hdisp).
  split; [uint_lia|]. eapply dispatch_wf, Hdisp. eapply decode_anchor_bytes, Hd.
  apply list_elem_of_lookup_2 in Hraw. unfold extract_anchor_event_cpis in Hraw.
  apply list_elem_of_fmap in Hraw as (ix & -> & Hix).
  apply list_elem_of_In, List.filter_In in Hix as [Hix _].
  by apply (proj1 (List.Forall_forall _ _) (wf_tx_data tx Htx)).
Qed.
End Dispatch.

(** ** Rows of the right widths read back *)

Section ReadBack.
Context `{Borsh} `{Sha256} `{Base58Laws} `{SignatureFromStrLaws}.

(** The row is read back as the event it was written from. *)
Definition reads_back (w : MeteoraDammV2Event.t) : Prop := try_from_row w = Ok w.

Lemma convert_pubkey_ok k field :
  is_bytes 32 k -> convert_string_to_pubkey (pubkey_to_string k) field = Ok k.
Proof. intros Hk. unfold convert_string_to_pubkey. by rewrite pubkey_of_to_string. Qed.

Lemma convert_signature_ok s field :
  is_bytes 64 s -> convert_string_to_signature (signature_to_string s) field = Ok s.
Proof. intros Hs. unfold convert_string_to_signature. by rewrite signature_of_to_string. Qed.

Lemma narrow_ok w v field : is_uint w v -> narrow w v field = Ok v.
Proof. intros Hv. unfold narrow. by rewrite try_uint_in. Qed.

Lemma convert_u128_ok v field : is_uint 128 v -> convert_bigdecimal_to_u128 v field = Ok v.
Proof. intros Hv. unfold convert_bigdecimal_to_u128. by rewrite try_uint_in. Qed.

Lemma convert_transaction_index_ok (o : option Z) field :
  match o with Some i => is_uint 32 i | None => True end ->
  convert_optional o field convert_i64_to_u32 = Ok o.
Proof.
  destruct o as [i|]; simpl; [|done]. intros Hi. unfold convert_i64_to_u32. by rewrite narrow_ok.
Qed.

Lemma convert_direction_ok d : convert_trade_direction (TradeDirection_as_str d) = Ok d.
Proof. by destruct d. Qed.

Lemma convert_kind_ok k : convert_liquidity_event_kind (LiquidityEventKind_as_str k) = Ok k.
Proof. by destruct k. Qed.
End ReadBack.

Lemma bind_Ok {A B E} (r : result A E) (k : A -> result B E) a b :
  r = Ok a -> k a = Ok b -> result_bind r k = Ok b.
Proof. intros ->. done. Qed.

(** Reads back the columns of a row one after the other. *)
Ltac solve_reads_back :=
  repeat (eapply bind_Ok;
    [first [ apply convert_direction_ok | apply convert_kind_ok
           | (first [ apply convert_pubkey_ok | apply convert_signature_ok
                    | apply convert_transaction_index_ok | apply convert_u128_ok
                    | apply narrow_ok ]); assumption ]|cbv beta]);
  reflexivity.

Record wf_event_position (p : EventPosition.t) : Prop := {
  wf_event_signature : is_bytes 64 (EventPosition.signature p);
  wf_event_slot : is_uint 64 (EventPosition.slot p);
  wf_event_transaction_index :
    match EventPosition.transaction_index p with Some i => is_uint 32 i | None => True end;
  wf_event_index : is_uint 16 (EventPosition.event_index p);
}.

Lemma wf_at_index p i : wf_position p -> is_uint 16 i -> wf_event_position (TransactionPosition.at_index p i).
Proof. intros [Hs Hl Ht] Hi. by split. Qed.

(** A row made of the fields of a wire event and of its position. *)
Ltac solve_translated :=
  repeat match goal with H : wf_event_position _ |- _ => destruct H end;
  repeat match goal with H : _ /\ _ |- _ => destruct H end; solve_reads_back.

Section Translated.
Context `{Borsh} `{Sha256} `{Base58Laws} `{SignatureFromStrLaws}.

Lemma swap_reads_back e p d :
  EvtSwap2.wf e -> wf_event_position p -> translate_swap e p = Ok d ->
  MeteoraDammV2SwapEvent_try_from d = Ok d.
Proof.
  unfold EvtSwap2.wf, SwapResult2.wf, translate_swap, MeteoraDammV2SwapEvent_try_from.
  intros He Hp Hd. inv_binds. destruct x; injection Hd as <-; solve_translated.
Qed.

Lemma liquidity_reads_back e p d :
  EvtLiquidityChange.wf e -> wf_event_position p -> translate_liquidity e p = Ok d ->
  MeteoraDammV2LiquidityEvent_try_from d = Ok d.
Proof.
  unfold EvtLiquidityChange.wf, translate_liquidity, MeteoraDammV2LiquidityEvent_try_from.
  intros He Hp Hd. inv_binds. solve_translated.
Qed.

Lemma split_position_reads_back e p :
  EvtSplitPosition3.wf e -> wf_event_position p ->
  MeteoraDammV2SplitPositionEvent_try_from (translate_split_position e p) =
    Ok (translate_split_position e p).
Proof.
  unfold EvtSplitPosition3.wf, SplitAmountInfo2.wf, SplitPositionInfo2.wf, SplitPositionParameters3.wf,
    MeteoraDammV2SplitPositionEvent_try_from, translate_split_position.
  intros He Hp. solve_translated.
Qed.

Lemma claim_position_fee_reads_back e p :
  EvtClaimPositionFee.wf e -> wf_event_position p ->
  MeteoraDammV2ClaimPositionFeeEvent_try_from (translate_claim_position_fee e p) = Ok (translate_claim_position_fee e p).
Proof.
  unfold EvtClaimPositionFee.wf, MeteoraDammV2ClaimPositionFeeEvent_try_from, translate_claim_position_fee. intros He Hp. solve_translated.
Qed.

Lemma claim_reward_reads_back e p :
  EvtClaimReward.wf e -> wf_event_position p ->
  MeteoraDammV2ClaimRewardEvent_try_from (translate_claim_reward e p) = Ok (translate_claim_reward e p).
Proof.
  unfold EvtClaimReward.wf, MeteoraDammV2ClaimRewardEvent_try_from, translate_claim_reward. intros He Hp. solve_translated.
Qed.

Lemma claim_protocol_fee_reads_back e p :
  EvtClaimProtocolFee.wf e -> wf_event_position p ->
  MeteoraDammV2ClaimProtocolFeeEvent_try_from (translate_claim_protocol_fee e p) = Ok (translate_claim_protocol_fee e p).
Proof.
  unfold EvtClaimProtocolFee.wf, MeteoraDammV2ClaimProtocolFeeEvent_try_from, translate_claim_protocol_fee. intros He Hp. solve_translated.
Qed.

Lemma initialize_reward_reads_back e p :
  EvtInitializeReward.wf e -> wf_event_position p ->
  MeteoraDammV2InitializeRewardEvent_try_from (translate_initialize_reward e p) = Ok (translate_initialize_reward e p).
Proof.
  unfold EvtInitializeReward.wf, MeteoraDammV2InitializeRewardEvent_try_from, translate_initialize_reward. intros He Hp. solve_translated.
Qed.

Lemma fund_reward_reads_back e p :
  EvtFundReward.wf e -> wf_event_position p ->
  MeteoraDammV2FundRewardEvent_try_from (translate_fund_reward e p) = Ok (translate_fund_reward e p).
Proof.
  unfold EvtFundReward.wf, MeteoraDammV2FundRewardEvent_try_from, translate_fund_reward. intros He Hp. solve_translated.
Qed.

Lemma withdraw_ineligible_reward_reads_back e p :
  EvtWithdrawIneligibleReward.wf e -> wf_event_position p ->
  MeteoraDammV2WithdrawIneligibleRewardEvent_try_from (translate_withdraw_ineligible_reward e p) = Ok (translate_withdraw_ineligible_reward e p).
Proof.
  unfold EvtWithdrawIneligibleReward.wf, MeteoraDammV2WithdrawIneligibleRewardEvent_try_from, translate_withdraw_ineligible_reward. intros He Hp. solve_translated.
Qed.

Lemma update_reward_duration_reads_back e p :
  EvtUpdateRewardDuration.wf e -> wf_event_position p ->
  MeteoraDammV2UpdateRewardDurationEvent_try_from (translate_update_reward_duration e p) = Ok (translate_update_reward_duration e p).
Proof.
  unfold EvtUpdateRewardDuration.wf, MeteoraDammV2UpdateRewardDurationEvent_try_from, translate_update_reward_duration. intros He Hp. solve_translated.
Qed.

Lemma update_reward_funder_reads_back e p :
  EvtUpdateRewardFunder.wf e -> wf_event_position p ->
  MeteoraDammV2UpdateRewardFunderEvent_try_from (translate_update_reward_funder e p) = Ok (translate_update_reward_funder e p).
Proof.
  unfold EvtUpdateRewardFunder.wf, MeteoraDammV2UpdateRewardFunderEvent_try_from, translate_update_reward_funder. intros He Hp. solve_translated.
Qed.

Lemma withdraw_dead_liquidity_reward_reads_back e p :
  EvtWithdrawDeadLiquidityReward.wf e -> wf_event_position p ->
  MeteoraDammV2WithdrawDeadLiquidityRewardEvent_try_from (translate_withdraw_dead_liquidity_reward e p) = Ok (translate_withdraw_dead_liquidity_reward e p).
Proof.
  unfold EvtWithdrawDeadLiquidityReward.wf, MeteoraDammV2WithdrawDeadLiquidityRewardEvent_try_from, translate_withdraw_dead_liquidity_reward. intros He Hp. solve_translated.
Qed.

Lemma create_position_reads_back e p :
  EvtCreatePosition.wf e -> wf_event_position p ->
  MeteoraDammV2CreatePositionEvent_try_from (translate_create_position e p) = Ok (translate_create_position e p).
Proof.
  unfold EvtCreatePosition.wf, MeteoraDammV2CreatePositionEvent_try_from, translate_create_position. intros He Hp. solve_translated.
Qed.

Lemma close_position_reads_back e p :
  EvtClosePosition.wf e -> wf_event_position p ->
  MeteoraDammV2ClosePositionEvent_try_from (translate_close_position e p) = Ok (translate_close_position e p).
Proof.
  unfold EvtClosePosition.wf, MeteoraDammV2ClosePositionEvent_try_from, translate_close_position. intros He Hp. solve_translated.
Qed.

Lemma lock_position_reads_back e p :
  EvtLockPosition.wf e -> wf_event_position p ->
  MeteoraDammV2LockPositionEvent_try_from (translate_lock_position e p) = Ok (translate_lock_position e p).
Proof.
  unfold EvtLockPosition.wf, MeteoraDammV2LockPositionEvent_try_from, translate_lock_position. intros He Hp. solve_translated.
Qed.

Lemma permanent_lock_position_reads_back e p :
  EvtPermanentLockPosition.wf e -> wf_event_position p ->
  MeteoraDammV2PermanentLockPositionEvent_try_from (translate_permanent_lock_position e p) = Ok (translate_permanent_lock_position e p).
Proof.
  unfold EvtPermanentLockPosition.wf, MeteoraDammV2PermanentLockPositionEvent_try_from, translate_permanent_lock_position. intros He Hp. solve_translated.
Qed.

Lemma initialize_pool_reads_back e p :
  EvtInitializePool.wf e -> wf_event_position p ->
  MeteoraDammV2InitializePoolEvent_try_from (translate_initialize_pool e p) = Ok (translate_initialize_pool e p).
Proof.
  unfold EvtInitializePool.wf, MeteoraDammV2InitializePoolEvent_try_from, translate_initialize_pool. intros He Hp. solve_translated.
Qed.

Lemma set_pool_status_reads_back e p :
  EvtSetPoolStatus.wf e -> wf_event_position p ->
  MeteoraDammV2SetPoolStatusEvent_try_from (translate_set_pool_status e p) = Ok (translate_set_pool_status e p).
Proof.
  unfold EvtSetPoolStatus.wf, MeteoraDammV2SetPoolStatusEvent_try_from, translate_set_pool_status. intros He Hp. solve_translated.
Qed.

Lemma update_pool_fees_reads_back e p :
  EvtUpdatePoolFees.wf e -> wf_event_position p ->
  MeteoraDammV2UpdatePoolFeesEvent_try_from (translate_update_pool_fees e p) = Ok (translate_update_pool_fees e p).
Proof.
  unfold EvtUpdatePoolFees.wf, MeteoraDammV2UpdatePoolFeesEvent_try_from, translate_update_pool_fees. intros He Hp. solve_translated.
Qed.

(** The event of any wire event is read back from its table. *)
Lemma translated_reads_back e p d :
  wf_event e -> wf_event_position p -> translate_wire_event e p = Ok d -> reads_back (row_of d).
Proof.
  intros He Hp. unfold translate_wire_event, reads_back.
  destruct e as [e|e|e|e|e|e|e|e|e|e|e|e|e|e|e|e|e|e|e]; simpl in He.
  - destruct (translate_swap e p) as [w|] eqn:Hw; [|done]. intros [= <-]. simpl.
    by rewrite (swap_reads_back e p w).
  - destruct (translate_liquidity e p) as [w|] eqn:Hw; [|done]. intros [= <-]. simpl.
    by rewrite (liquidity_reads_back e p w).
  - intros [= <-]. simpl. by rewrite claim_position_fee_reads_back.
  - intros [= <-]. simpl. by rewrite claim_reward_reads_back.
  - intros [= <-]. simpl. by rewrite claim_protocol_fee_reads_back.
  - intros [= <-]. simpl. by rewrite initialize_reward_reads_back.
  - intros [= <-]. simpl. by rewrite fund_reward_reads_back.
  - intros [= <-]. simpl. by rewrite withdraw_ineligible_reward_reads_back.
  - intros [= <-]. simpl. by rewrite update_reward_duration_reads_back.
  - intros [= <-]. simpl. by rewrite update_reward_funder_reads_back.
  - intros [= <-]. simpl. by rewrite withdraw_dead_liquidity_reward_reads_back.
  - intros [= <-]. simpl. by rewrite split_position_reads_back.
  - intros [= <-]. simpl. by rewrite create_position_reads_back.
  - intros [= <-]. simpl. by rewrite close_position_reads_back.
  - intros [= <-]. simpl. by rewrite lock_position_reads_back.
  - intros [= <-]. simpl. by rewrite permanent_lock_position_reads_back.
  - intros [= <-]. simpl. by rewrite initialize_pool_reads_back.
  - intros [= <-]. simpl. by rewrite set_pool_status_reads_back.
  - intros [= <-]. simpl. by rewrite update_pool_fees_reads_back.
Qed.
End Translated.

(** ** What the tables hold after any transactions *)

Section Tables.
Context `{Postgres} `{Clock} `{BorshLaws} `{Sha256} `{Base58Laws} `{SignatureFromStrLaws}.

#[local] Notation rows s := (Db.events (Indexer.db s)).

(** The event comes from the transaction, at its place. *)
Definition emitted_by (p : Protocol) (tx : OnChainTransaction.t) (w : MeteoraDammV2Event.t) : Prop :=
  exists out d, extract p tx = Ok out /\ In d (ExtractionOutcome.events out) /\ w = row_of d.

Lemma damm_v2_events tx out :
  extract MeteoraDammV2 tx = Ok out ->
  ExtractionOutcome.events out =
    omap (fun ie => result_ok (translated (OnChainTransaction.position tx) ie))
      (ExtractedEvents.events (extract_wire_events tx (program_id MeteoraDammV2))).
Proof.
  unfold extract. simpl. unfold damm_v2_extract_events. rewrite translate_extracted_events_eq.
  by intros [= <-].
Qed.

Lemma dlmm_events tx out : extract MeteoraDlmm tx = Ok out -> ExtractionOutcome.events out = [].
Proof. by intros [= <-]. Qed.

Lemma extracted_position p tx out d :
  extract p tx = Ok out -> In d (ExtractionOutcome.events out) ->
  exists i, DomainEvent.position_of d = TransactionPosition.at_index (OnChainTransaction.position tx) i.
Proof.
  destruct p; intros Hx Hd; [|by rewrite (dlmm_events _ _ Hx) in Hd].
  rewrite (damm_v2_events _ _ Hx) in Hd. apply list_elem_of_In, list_elem_of_omap in Hd as (ie & _ & Hd).
  destruct (translated _ ie) eqn:Ht; simplify_eq/=. apply translated_position in Ht as [_ Ht]. by eexists.
Qed.

Lemma extracted_reads_back p tx w : wf_transaction tx -> emitted_by p tx w -> reads_back w.
Proof.
  intros Htx (out & d & Hx & Hd & ->). destruct p; [|by rewrite (dlmm_events _ _ Hx) in Hd].
  rewrite (damm_v2_events _ _ Hx) in Hd. apply list_elem_of_In, list_elem_of_omap in Hd as (ie & Hie & Hd).
  destruct (translated _ ie) as [d'|] eqn:Ht; simplify_eq/=.
  pose proof (extracted_wf tx (program_id MeteoraDammV2) Htx) as Hwf.
  rewrite Forall_forall in Hwf. destruct (Hwf _ Hie) as [Hi He].
  eapply translated_reads_back, Ht; [done|]. apply wf_at_index; [apply Htx|done].
Qed.

(** An index names one event of a transaction. *)
Lemma extracted_index_inj p tx out d d' :
  extract p tx = Ok out -> In d (ExtractionOutcome.events out) -> In d' (ExtractionOutcome.events out) ->
  index_of d = index_of d' -> d = d'.
Proof.
  destruct p; intros Hx Hd Hd' Hi; [|by rewrite (dlmm_events _ _ Hx) in Hd].
  rewrite (damm_v2_events _ _ Hx) in Hd, Hd'. rewrite extract_wire_events_fates in Hd, Hd'.
  cbn [ExtractedEvents.events] in Hd, Hd'.
  destruct (omap_events_sorted (fates tx (program_id MeteoraDammV2)) 0) as [Hs _].
  { intros i e. apply fates_event_index. }
  apply (translated_sorted (OnChainTransaction.position tx)) in Hs.
  revert Hd Hd'. induction Hs as [|x l _ IH Hx']; [by intros []|].
  rewrite Forall_forall in Hx'. setoid_rewrite list_elem_of_In in Hx'.
  intros [<-|Hd] [<-|Hd']; [done| | |by apply IH]; exfalso;
    [specialize (Hx' _ Hd')|specialize (Hx' _ Hd)]; lia.
Qed.

Lemma process_transaction_rows s p tx :
  exists new, rows (process_transaction s p tx).1 = rows s ++ new /\ Forall (emitted_by p tx) new /\
    (distinct (rows s) -> distinct (rows (process_transaction s p tx).1)).
Proof.
  destruct (extract_total p tx) as [out Hx].
  destruct (process_transaction_settles s p tx out Hx) as (new & ms & [A _ _ _ _] & _).
  exists new. split_and!; [apply A| |apply A]. apply Forall_forall. intros w Hw.
  assert (w ∈ map row_of (ExtractionOutcome.events out)) as Hin
    by (eapply elem_of_sublist; [done|apply A]).
  apply list_elem_of_In, in_map_iff in Hin as (d & <- & Hd). by exists out, d.
Qed.

(** The rows a list of transactions leaves, from empty tables. *)
Definition indexed (txs : list (Protocol * OnChainTransaction.t)) (r : list MeteoraDammV2Event.t) : Prop :=
  Forall (fun w => exists x, In x txs /\ emitted_by x.1 x.2 w) r /\ distinct r.

Lemma process_all_indexed txs : indexed txs (rows (process_all (Indexer.mk Db.empty []) txs)).
Proof.
  induction txs as [|x txs IH] using rev_ind; [split; constructor|].
  unfold process_all in *. rewrite foldl_app. simpl.
  set (s := foldl _ _ txs) in *. destruct IH as [IH Hdist].
  destruct (process_transaction_rows s x.1 x.2) as (new & Hr & Hn & Hd).
  split; [|by apply Hd]. rewrite Hr. apply Forall_app. split.
  - eapply Forall_impl; [exact IH|]. intros w (y & Hy & Hw). exists y. rewrite in_app_iff. by split; [left|].
  - eapply Forall_impl; [exact Hn|]. intros w Hw. exists x. rewrite in_app_iff. by split; [right; left|].
Qed.

(** A signature names one transaction of the chain. *)
Definition one_transaction_per_signature (txs : list (Protocol * OnChainTransaction.t)) : Prop :=
  forall x y, In x txs -> In y txs ->
    TransactionPosition.signature (OnChainTransaction.position x.2) =
      TransactionPosition.signature (OnChainTransaction.position y.2) -> x = y.

Lemma position_signature w :
  EventPosition.signature (MeteoraDammV2Event.position_of w) = MeteoraDammV2Event.signature w.
Proof. by destruct w. Qed.

Lemma indexed_key_inj txs r :
  one_transaction_per_signature txs -> indexed txs r ->
  forall a b, In a r -> In b r ->
    MeteoraDammV2Event.signature a = MeteoraDammV2Event.signature b ->
    EventPosition.event_index (MeteoraDammV2Event.position_of a) =
      EventPosition.event_index (MeteoraDammV2Event.position_of b) -> a = b.
Proof.
  intros Hone [Hr _] a b Ha Hb Hsig Hidx. rewrite List.Forall_forall in Hr.
  destruct (Hr a Ha) as (x & Hx & out & d & Hex & Hd & ->).
  destruct (Hr b Hb) as (y & Hy & out' & d' & Hey & Hd' & ->).
  assert (x = y) as <-.
  { apply Hone; [done..|].
    destruct (extracted_position _ _ _ _ Hex Hd) as [i Hp].
    destruct (extracted_position _ _ _ _ Hey Hd') as [j Hp'].
    apply (f_equal EventPosition.signature) in Hp, Hp'. simpl in Hp, Hp'.
    rewrite <- Hp, <- Hp'. destruct d as [d], d' as [d']. change (EventPosition.signature (MeteoraDammV2Event.position_of d) =
      EventPosition.signature (MeteoraDammV2Event.position_of d')).
    by rewrite !position_signature. }
  rewrite Hex in Hey. injection Hey as <-. f_equal.
  apply (extracted_index_inj _ _ _ _ _ Hex); [done..|].
  destruct d, d'. done.
Qed.

(** C23: every row of the event tables is well typed. Whatever bytes the
    transactions carry and whatever statements fail, each column of each row
    the indexer stored fits what the lists of the api narrow it to, and the
    row is read back exactly as the event that was extracted: no list is ever
    refused for a row. *)
Theorem stored_rows_read_back (txs : list (Protocol * OnChainTransaction.t)) :
  Forall (fun x => wf_transaction x.2) txs ->
  Forall (fun w => try_from_row w = Ok w /\ exists x, In x txs /\ emitted_by x.1 x.2 w)
    (Db.events (Indexer.db (process_all (Indexer.mk Db.empty []) txs))).
Proof.
  intros Htx. destruct (process_all_indexed txs) as [Hr _]. eapply Forall_impl; [exact Hr|].
  intros w (x & Hx & Hw). split; [|by exists x].
  eapply extracted_reads_back, Hw. by apply (proj1 (List.Forall_forall _ _) Htx).
Qed.
End Tables.

Example reference_transaction_wf : wf_transaction reference_transaction.
Proof. split; [split; by_eval|]. apply (bool_decide_unpack _); vm_compute; exact I. Qed.

(** The reference transaction, a replay, and a database that goes down. *)
Lemma stored_rows_read_back_witness :
  let s := @process_all failing_postgres ticking_clock _ _ _ (Indexer.mk Db.empty [])
    [(MeteoraDammV2, reference_transaction); (MeteoraDlmm, reference_transaction)] in
  length (Db.events (Indexer.db s)) = 2%nat /\
  Forall (fun w => try_from_row w = Ok w) (Db.events (Indexer.db s)).
Proof.
  split; [vm_compute; reflexivity|].
  eapply Forall_impl; [apply (@stored_rows_read_back failing_postgres ticking_clock _ _ _ _ _ _ _ _)|].
  - rewrite !Forall_cons, Forall_nil. split_and!; [apply reference_transaction_wf..|done].
  - by intros w [Hw _].
Defined.
