(* ===== verification/ProjectionFacts.v ===== *)
(** * The projection of a pool's current state

    [pool_current_state] shows, for a pool, the event with the greatest
    position key among those delivered, whatever the order of delivery, and
    always an event the tables hold; the price it carries does depend on that
    order. *)

From S2P Require Import Prelude Errors External Domain WireEvents Extractor Translator Extraction.
From S2P Require Import FeeParameters Reference Store Persist PersistFacts.

(** ** The order of the keys *)

Lemma key_ltb_spec a b :
  key_ltb a b = true <->
    a.1.1 < b.1.1 \/ (a.1.1 = b.1.1 /\ (a.1.2 < b.1.2 \/ (a.1.2 = b.1.2 /\ a.2 < b.2))).
Proof.
  destruct a as [[a1 a2] a3], b as [[b1 b2] b3]. simpl.
  rewrite !orb_true_iff, !andb_true_iff, !orb_true_iff, !andb_true_iff, !Z.ltb_lt, !Z.eqb_eq. done.
Qed.

Lemma key_ltb_false a b : key_ltb a b = false <-> b = a \/ key_ltb b a = true.
Proof.
  rewrite <- not_true_iff_false, !key_ltb_spec.
  destruct a as [[a1 a2] a3], b as [[b1 b2] b3]. simpl. split.
  - intros Hn. assert (b1 = a1 /\ b2 = a2 /\ b3 = a3 \/ ~ (b1 = a1 /\ b2 = a2 /\ b3 = a3)) as [(-> & -> & ->)|] by lia;
      [by left|right; lia].
  - intros [[= -> -> ->]|]; lia.
Qed.

Lemma key_ltb_trans a b c : key_ltb a b = true -> key_ltb b c = true -> key_ltb a c = true.
Proof. rewrite !key_ltb_spec. lia. Qed.


(** ** Deliveries to one pool *)

Implicit Types (u : PoolCurrentStateUpsert.t) (us : list PoolCurrentStateUpsert.t).

Definition upsert_key u : order_key := position_key (PoolCurrentStateUpsert.event_position u).

(** The row a sequence of upserts to one pool leaves. *)
Definition delivered us : option PoolCurrentStateRow.t :=
  foldl (fun row u => (upsert_row u row).1) None us.

(** The row shows the event: its own columns, and the two a liquidity event
    leaves to the swaps, when it is a swap. *)
Definition row_shows u (r : PoolCurrentStateRow.t) : Prop :=
  let p := PoolCurrentStateUpsert.event_position u in
  PoolCurrentStateRow.protocol r = PoolCurrentStateUpsert.protocol u /\
  PoolCurrentStateRow.last_event_at r = EventPosition.timestamp p /\
  PoolCurrentStateRow.last_event_kind r = PoolCurrentStateUpsert.event_kind u /\
  PoolCurrentStateRow.last_signature r = EventPosition.signature p /\
  PoolCurrentStateRow.reserve_a r = PoolCurrentStateUpsert.reserve_a u /\
  PoolCurrentStateRow.reserve_b r = PoolCurrentStateUpsert.reserve_b u /\
  PoolCurrentStateRow.last_slot r = EventPosition.slot p /\
  PoolCurrentStateRow.last_transaction_index r = EventPosition.transaction_index p /\
  PoolCurrentStateRow.last_event_index r = EventPosition.event_index p /\
  (forall price, PoolCurrentStateUpsert.sqrt_price u = Some price ->
    PoolCurrentStateRow.last_sqrt_price r = Some price) /\
  (PoolCurrentStateUpsert.event_kind u = LastSwap ->
    PoolCurrentStateRow.last_swap_at r = Some (EventPosition.timestamp p)).

(** [u] is the last of [us] in key order, the first delivered of its key. *)
Definition latest us u : Prop :=
  In u us /\ forall v, In v us -> key_ltb (upsert_key u) (upsert_key v) = false.

Lemma row_shows_key u r : row_shows u r -> row_key r = upsert_key u.
Proof.
  intros (_ & _ & _ & _ & _ & _ & E1 & E2 & E3 & _). unfold row_key, upsert_key, position_key.
  by rewrite E1, E2, E3.
Qed.

Lemma upserted_row_shows u stored : row_shows u (upserted_row u stored).
Proof.
  unfold row_shows. cbn. split_and!; try done.
  - by intros price ->.
  - intros Hk. unfold last_swap_at_of. by rewrite Hk.
Qed.

Lemma latest_snoc us u v :
  latest us u -> latest (us ++ [v]) (if key_ltb (upsert_key u) (upsert_key v) then v else u).
Proof.
  intros [Hin Hlast]. split.
  - rewrite in_app_iff. destruct (key_ltb _ _); simpl; tauto.
  - intros w [Hw|[<-|[]]]%in_app_iff.
    + destruct (key_ltb (upsert_key u) (upsert_key v)) eqn:Huv; [|by apply Hlast].
      specialize (Hlast w Hw). apply not_true_iff_false. intros Hvw.
      apply (key_ltb_trans _ _ _ Huv) in Hvw. congruence.
    + destruct (key_ltb (upsert_key u) (upsert_key v)) eqn:Huv; [|done].
      apply key_ltb_false. by left.
Qed.

(** What a sequence of deliveries leaves: the row of the latest. *)
Lemma delivered_latest us :
  us <> [] ->
  exists u r, delivered us = Some r /\ latest us u /\ row_shows u r.
Proof.
  induction us as [|v us IH] using rev_ind; [done|]. intros _. unfold delivered.
  rewrite foldl_app. simpl. fold (delivered us). destruct us as [|u0 us'] eqn:Hus.
  { exists v, (upserted_row v None). split; [done|]. split; [split; [by left|]|apply upserted_row_shows].
    intros w [<-|[]]. apply key_ltb_false. by left. }
  rewrite <- Hus in *. destruct IH as (u & r & Hr & Hlast & Hs); [by subst|].
  rewrite Hr. unfold upsert_row. fold (upsert_key v). rewrite (row_shows_key _ _ Hs).
  pose proof (latest_snoc us u v Hlast) as Hnext.
  destruct (key_ltb (upsert_key u) (upsert_key v)); do 2 eexists; (split; [done|]); (split; [exact Hnext|]);
    [apply upserted_row_shows|exact Hs].
Qed.

Lemma NoDup_key_unique us u v :
  NoDup (map upsert_key us) -> In u us -> In v us -> upsert_key u = upsert_key v -> u = v.
Proof.
  induction us as [|w us IH]; simpl; [done|]. intros [Hn Hd]%NoDup_cons Hu Hv He.
  assert (forall x, In x us -> upsert_key w <> upsert_key x) as Hw.
  { intros x Hx Heq. apply Hn. rewrite Heq. by apply list_elem_of_In, in_map. }
  destruct Hu as [<-|Hu], Hv as [<-|Hv]; [done| | |by apply IH].
  - by apply Hw in Hv.
  - symmetry in He. by apply Hw in Hu.
Qed.

Lemma latest_unique us u v :
  NoDup (map upsert_key us) -> latest us u -> latest us v -> u = v.
Proof.
  intros Hd [Hu Lu] [Hv Lv]. apply (NoDup_key_unique us); try done.
  specialize (Lu v Hv). specialize (Lv u Hu). apply key_ltb_false in Lu as [|Lu]; [done|congruence].
Qed.

(** C15: the projection of a pool converges: whatever the order its events
    are delivered in, the row ends showing the event with the greatest (slot,
    transaction index, event index), an event among those delivered: its
    protocol, timestamp, kind, signature, reserves and position, and, when it is
    a swap, its price and its time as that of the last swap. This as long as no
    two of the events share a key. *)
Theorem projection_converges (us vs : list PoolCurrentStateUpsert.t) :
  us ≡ₚ vs -> NoDup (map upsert_key us) -> us <> [] ->
  exists u r r', In u us /\ (forall v, In v us -> v = u \/ key_ltb (upsert_key v) (upsert_key u) = true) /\
    delivered us = Some r /\ row_shows u r /\ delivered vs = Some r' /\ row_shows u r'.
Proof.
  intros Hp Hd Hne. assert (vs <> []) as Hne' by (intros ->; apply Permutation_nil_r in Hp; done).
  destruct (delivered_latest us Hne) as (u & r & Hr & Lu & Hs).
  destruct (delivered_latest vs Hne') as (v & r' & Hr' & [Hin Hmax] & Hs').
  assert (u = v) as <-.
  { apply (latest_unique us); [done|done|]. split; [by eapply Permutation_in; [symmetry|]|].
    intros w Hw. apply Hmax. by eapply Permutation_in. }
  exists u, r, r'. destruct Lu as [Hu Hlast]. split_and!; try done. intros w Hw.
  destruct (proj1 (key_ltb_false _ _) (Hlast w Hw)) as [Hk|Hk]; [left|by right]. by apply (NoDup_key_unique us).
Qed.

(** Two events of a pool: a swap, then liquidity added a slot later. *)
Definition delivery (slot event_index : Z) : EventPosition.t := {|
  EventPosition.signature := [slot; event_index];
  EventPosition.timestamp := slot * 400;
  EventPosition.slot := slot;
  EventPosition.transaction_index := None;
  EventPosition.event_index := event_index;
|}.

Definition swap_then : PoolCurrentStateUpsert.t :=
  PoolCurrentStateUpsert.from_swap [1] MeteoraDammV2 (delivery 10 0) 500 600 77.
Definition liquidity_after : PoolCurrentStateUpsert.t :=
  PoolCurrentStateUpsert.from_liquidity [1] MeteoraDammV2 (delivery 11 0) Add 700 800.

Lemma projection_converges_witness :
  exists r r', delivered [swap_then; liquidity_after] = Some r /\
    delivered [liquidity_after; swap_then] = Some r' /\
    (exists u, In u [swap_then; liquidity_after] /\ row_shows u r /\ row_shows u r') /\
    PoolCurrentStateRow.reserve_a r' = 700.
Proof.
  destruct (projection_converges [swap_then; liquidity_after] [liquidity_after; swap_then])
    as (u & r & r' & Hu & _ & Hr & Hs & Hr' & Hs').
  - apply Permutation_swap.
  - apply (bool_decide_unpack _). vm_compute. exact I.
  - discriminate.
  - exists r, r'. split; [exact Hr|]. split; [exact Hr'|]. split; [exists u; exact (conj Hu (conj Hs Hs'))|].
    vm_compute in Hr'. injection Hr' as <-. reflexivity.
Defined.

(** The price column is not a function of the set of events: an older
    swap delivered after the liquidity event that follows it in the chain is
    rejected whole, price included, and the row keeps no price, where delivery
    in chain order keeps the swap's. *)
Theorem projection_price_depends_on_delivery :
  exists us vs, us ≡ₚ vs /\ NoDup (map upsert_key us) /\
    (delivered us ≫= PoolCurrentStateRow.last_sqrt_price) = Some 77 /\
    (delivered vs ≫= PoolCurrentStateRow.last_sqrt_price) = None /\
    (delivered vs ≫= PoolCurrentStateRow.last_swap_at) = None.
Proof.
  exists [swap_then; liquidity_after], [liquidity_after; swap_then].
  split; [apply Permutation_swap|]. split; [apply (bool_decide_unpack _); vm_compute; exact I|done].
Qed.

(** ** The projection and the event tables *)

Section Backed.
Context `{Postgres} `{Clock}.
Implicit Types (d : Db.t) (s : Indexer.t) (w : MeteoraDammV2Event.t).

(** The row of the event tables a row of the projection stands for. *)
Definition source_id (r : PoolCurrentStateRow.t) : string * (Signature * Z * DateTime) :=
  (match PoolCurrentStateRow.last_event_kind r with
   | LastSwap => "meteora_damm_v2_swap_events"
   | _ => "meteora_damm_v2_liquidity_events"
   end,
   (PoolCurrentStateRow.last_signature r, PoolCurrentStateRow.last_event_index r,
    PoolCurrentStateRow.last_event_at r)).

Definition backed d : Prop :=
  forall a r, Db.pool_current_state d !! a = Some r -> source_id r ∈ map row_id (Db.events d).

Lemma backed_mono d d' :
  Db.pool_current_state d' = Db.pool_current_state d ->
  (exists new, Db.events d' = Db.events d ++ new) -> backed d -> backed d'.
Proof.
  intros Hs [new He] Hb a r Hr. rewrite He, map_app, elem_of_app. left. apply (Hb a).
  by rewrite <- Hs.
Qed.

Lemma backed_pools s s' :
  pools_kept s s' -> backed (Indexer.db s) -> backed (Indexer.db s').
Proof. intros [[He _] Hs]. apply backed_mono; [done|]. exists []. by rewrite app_nil_r. Qed.

Lemma insert_backed s w :
  backed (Indexer.db s) -> backed (Indexer.db (insert s w).1) /\
  (is_Some (result_ok (insert s w).2) -> row_id w ∈ map row_id (Db.events (Indexer.db (insert s w).1))).
Proof.
  intros Hb. unfold insert. pose proof (insert_event_spec (Indexer.db s) w) as Hi.
  assert (Db.pool_current_state (insert_event (Indexer.db s) w).1 =
    Db.pool_current_state (Indexer.db s)) as Hs.
  { unfold insert_event, execute. destruct (convert_all _); [|done].
    destruct (fault _); [done|]. simpl. by destruct (existsb _ _). }
  destruct (insert_event (Indexer.db s) w) as [d [[]|e]]; simpl in *.
  - destruct Hi as [Hi _]. split; [by eapply backed_mono; [|exists [w]|]|]. intros _.
    rewrite Hi, map_app, elem_of_app. right. by left.
  - destruct Hi as [Hi Hx]. split; [eapply backed_mono; [done|exists []|done]; by rewrite app_nil_r|].
    intros _. rewrite Hi. apply existsb_exists in Hx as (w' & Hin & Hrow%same_row_id).
    rewrite Hrow. by apply list_elem_of_In, in_map.
  - split; [eapply backed_mono; [done|exists []|done]; by rewrite app_nil_r|]. by intros [? [=]].
Qed.

Lemma upserted_source u stored : source_id (upserted_row u stored) = source_id (upserted_row u None).
Proof. done. Qed.

Lemma upsert_state_backed d u :
  backed d -> source_id (upserted_row u None) ∈ map row_id (Db.events d) ->
  backed (upsert_state d u).1.
Proof.
  intros Hb Hu. unfold upsert_state. destruct (convert_all _) as [_|]; [|done]. unfold execute.
  destruct (fault _); [done|].
  set (a := PoolCurrentStateUpsert.pool_address u).
  destruct (upsert_row u _) as [row applied] eqn:Hrow. simpl.
  intros b r. simpl. destruct (decide (a = b)) as [<-|Hne].
  - rewrite lookup_partial_alter_eq. intros ->. unfold upsert_row in Hrow.
    cbn [Db.pool_current_state Db.sent] in Hrow. fold a in Hrow.
    destruct (Db.pool_current_state d !! a) as [old|] eqn:Hold; [|by injection Hrow as <- _].
    destruct (key_ltb _ _); injection Hrow as <- _; [done|by apply (Hb a)].
  - rewrite lookup_partial_alter_ne by done. apply Hb.
Qed.

Lemma apply_backed s u :
  backed (Indexer.db s) ->
  source_id (upserted_row u None) ∈ map row_id (Db.events (Indexer.db s)) ->
  backed (Indexer.db (apply_pool_current_state_upsert s u)).
Proof.
  intros Hb Hu. pose proof (upsert_state_backed _ _ Hb Hu) as Hd.
  unfold apply_pool_current_state_upsert. destruct (upsert_state _ u) as [d [o|e]]; [|done].
  by destruct (PoolCurrentStateUpsertOutcome.same_slot_ambiguity o).
Qed.

Lemma swap_source e :
  source_id (upserted_row (upsert_of_swap PROTOCOL e) None) = row_id (MeteoraDammV2Event.Swap e).
Proof. done. Qed.

Lemma liquidity_source e :
  source_id (upserted_row (upsert_of_liquidity PROTOCOL e) None) =
    row_id (MeteoraDammV2Event.Liquidity e).
Proof.
  unfold source_id. simpl. by destruct (MeteoraDammV2LiquidityEvent.liquidity_event_kind e).
Qed.

Lemma touched_backed s a w :
  backed (Indexer.db s) -> backed (Indexer.db (insert (touch_pool s a) w).1).
Proof. intros Hb. apply insert_backed. eapply backed_pools; [apply touch_kept|done]. Qed.

Lemma persist_event_backed s w k :
  backed (Indexer.db s) -> backed (Indexer.db (persist_event s w k).1).
Proof.
  intros Hb. destruct w as [e|e|e|e|e|e|e|e|e|e|e|e|e|e|e|e|e|e|e]; simpl; try by apply touched_backed.
  - unfold persist_swap. set (s0 := discover_pool s _ _ k).
    pose proof (insert_backed s0 (MeteoraDammV2Event.Swap e)
      (backed_pools _ _ (discover_kept s _ _ k) Hb)) as [Hb1 Hin].
    destruct (insert s0 _) as [s1 [o|err]]; [|done]. apply apply_backed; [done|].
    rewrite swap_source. by apply Hin.
  - unfold persist_liquidity. set (s0 := discover_pool s _ _ k).
    pose proof (insert_backed s0 (MeteoraDammV2Event.Liquidity e)
      (backed_pools _ _ (discover_kept s _ _ k) Hb)) as [Hb1 Hin].
    destruct (insert s0 _) as [s1 [o|err]]; [|done]. apply apply_backed; [done|].
    rewrite liquidity_source. by apply Hin.
  - unfold persist_initialize_pool. set (s0 := discover_pool s _ _ k).
    pose proof (insert_backed s0 (MeteoraDammV2Event.InitializePool e)
      (backed_pools _ _ (discover_kept s _ _ k) Hb)) as [Hb1 _].
    destruct (insert s0 _) as [s1 [[]|err]]; [|done|done]. simpl.
    by destruct (decode_meteora_damm_v2_pool_fees _).
  - unfold persist_update_pool_fees. set (a := MeteoraDammV2UpdatePoolFeesEvent.pool_address e).
    pose proof (backed_pools _ _ (flag_kept _ a) (backed_pools _ _ (touch_kept s a) Hb)) as Hb0.
    destruct (flag_needs_refresh (touch_pool s a) a) as [s0 r0]. simpl in Hb0.
    pose proof (insert_backed s0 (MeteoraDammV2Event.UpdatePoolFees e) Hb0) as [Hb1 _].
    destruct (insert s0 _) as [s1 [[]|err]]; [|done|done]. simpl.
    by destruct (decode_meteora_damm_v2_pool_fees_update _).
Qed.

Lemma persist_backed s (x : DomainEvent.t) :
  backed (Indexer.db s) -> backed (Indexer.db (persist s x)).
Proof.
  destruct x as [w]. simpl. unfold persist_damm_v2. intros Hb.
  pose proof (persist_event_backed s w (MeteoraDammV2Event.kind w) Hb) as Hb1.
  destruct (persist_event _ _ _) as [s1 [o|e]]; [|done]. simpl. by destruct (is_skipped o).
Qed.

Lemma persist_all_backed (es : list DomainEvent.t) : forall s,
  backed (Indexer.db s) -> backed (Indexer.db (foldl persist s es)).
Proof. induction es as [|x es IH]; intros s Hb; simpl; [done|]. by apply IH, persist_backed. Qed.

Context `{Borsh} `{Sha256} `{Base58}.

Lemma process_transaction_backed s p tx :
  backed (Indexer.db s) -> backed (Indexer.db (process_transaction s p tx).1).
Proof.
  intros Hb. destruct (extract_total p tx) as [out Hx].
  rewrite (process_transaction_eq _ _ _ _ Hx), report_diagnostics_eq.
  set (s0 := Indexer.mk _ _). assert (backed (Indexer.db s0)) as Hb0 by done. simpl.
  destruct (ExtractionOutcome.events out) as [|x es]; [done|].
  exact (persist_all_backed (x :: es) s0 Hb0).
Qed.

Lemma process_all_backed txs : forall s,
  backed (Indexer.db s) -> backed (Indexer.db (process_all s txs)).
Proof. induction txs as [|x txs IH]; intros s Hb; [done|]. by apply IH, process_transaction_backed. Qed.
End Backed.

(** C14: the projection never shows an event the tables do not hold: from the
    empty database, after any transactions and any failed statements, the row
    of every pool carries the signature, event index and timestamp of a stored
    row, of the swap table when its kind is a swap and of the liquidity table
    otherwise. *)
Theorem projection_shows_stored_events `{Postgres} `{Clock} `{Borsh} `{Sha256} `{Base58}
    (metrics : list IndexMetric) (txs : list (Protocol * OnChainTransaction.t)) (pool : Pubkey)
    (r : PoolCurrentStateRow.t) :
  let d := Indexer.db (process_all (Indexer.mk Db.empty metrics) txs) in
  Db.pool_current_state d !! pool = Some r ->
  exists w, In w (Db.events d) /\ row_id w = source_id r.
Proof.
  intros d Hr. assert (backed d) as Hb by (apply process_all_backed; intros a r'; done).
  apply Hb, list_elem_of_In, in_map_iff in Hr as (w & Hw & Hin). by exists w.
Qed.

Lemma projection_shows_stored_events_witness :
  let d := Indexer.db (@process_all failing_postgres ticking_clock _ _ _
    (Indexer.mk Db.empty []) [(MeteoraDammV2, reference_transaction)]) in
  exists r w, Db.pool_current_state d !! reference_pool = Some r /\
    In w (Db.events d) /\ row_id w = source_id r.
Proof.
  pose proof (@projection_shows_stored_events failing_postgres ticking_clock _ _ _ []
    [(MeteoraDammV2, reference_transaction)] reference_pool) as Hs.
  assert (exists r, Db.pool_current_state (Indexer.db (@process_all failing_postgres ticking_clock
    _ _ _ (Indexer.mk Db.empty []) [(MeteoraDammV2, reference_transaction)])) !! reference_pool =
    Some r) as [r Hr] by (eexists; vm_compute; reflexivity).
  destruct (Hs r Hr) as (w & Hin & Hid). exists r, w. exact (conj Hr (conj Hin Hid)).
Defined.
