(* ===== verification/Signals.v ===== *)
(** * The signals process

    [src/crates/signals/src/application/]: the detectors ([FlowImbalance],
    [TvlDrain], [PriceOracleDeviation]) against the class [SignalDetector] of
    core/src/domain/signals/detector.rs, and the tick of workers/signal_engine.rs
    over the [signals] table of persistence/src/repositories/signal.rs. What the
    detectors read is the [Readings] of a tick; counters are a log. Instants are
    unbounded: chrono's range is not modelled. *)

From Stdlib Require Import Floats.SpecFloat.
From S2P Require Import Prelude Errors External Domain Store.

(** ** Third-party operations on [Decimal] and [f64] *)

Class DecimalText (D : Type) : Type := {
  dec_abs : D -> D;
  dec_to_string : D -> string;
  round_dp : D -> Z -> D;
  round_sf : D -> Z -> option D;
  normalize : D -> D;
}.

(** [Decimal::from_f64_retain], and [f64::powi], whose precision the standard
    library leaves unspecified. *)
Class DecimalFloat (D : Type) : Type := {
  from_f64_retain : spec_float -> option D;
  powi : spec_float -> Z -> spec_float;
}.

Section DecimalMore.
Context {D : Type} `{!DecimalOps D}.

(** [checked_div] is [None] where [/] panics. *)
Definition dec_checked_div (a b : D) : option D :=
  match dec_div a b with
  | Done c => Some c
  | Panic => None
  end.

Definition is_zero (d : D) : bool :=
  match dec_cmp d dec_zero with Eq => true | _ => false end.
End DecimalMore.

(** ** [signals/model.rs] *)

Definition DETECTOR_PRICE_ORACLE_DEVIATION : string := "price_oracle_deviation".
Definition DETECTOR_FLOW_IMBALANCE : string := "flow_imbalance".
Definition DETECTOR_TVL_DRAIN : string := "tvl_drain".

Inductive Severity : Type :=
| Info
| Warning
| Critical.

#[global] Instance Severity_eq_dec : EqDecision Severity.
Proof. solve_decision. Defined.

(** The declaration order, which [PartialOrd] derives. *)
Definition severity_rank (s : Severity) : Z :=
  match s with Info => 0 | Warning => 1 | Critical => 2 end.
Definition severity_gtb (a b : Severity) : bool := severity_rank b <? severity_rank a.

Module Signal.
Record t (D : Type) : Type := mk {
  detector : string;
  protocol : Protocol;
  pool_address : Pubkey;
  severity : Severity;
  value : D;
  threshold : option D;
  message : option string;
  triggered_at : DateTime;
}.
Arguments mk {D}.
Arguments detector {D}.
Arguments protocol {D}.
Arguments pool_address {D}.
Arguments severity {D}.
Arguments value {D}.
Arguments threshold {D}.
Arguments message {D}.
Arguments triggered_at {D}.
End Signal.

(** ** The rows the detectors read *)

Module PoolSwapFlow.
Record t (D : Type) : Type := mk {
  pool_address : Pubkey;
  volume_a_to_b_usd : option D;
  volume_b_to_a_usd : option D;
}.
Arguments mk {D}.
Arguments pool_address {D}.
Arguments volume_a_to_b_usd {D}.
Arguments volume_b_to_a_usd {D}.
End PoolSwapFlow.

Module PoolLiquidityFlow.
Record t (D : Type) : Type := mk {
  pool_address : Pubkey;
  added_usd : option D;
  removed_usd : option D;
  tvl_usd : option D;
}.
Arguments mk {D}.
Arguments pool_address {D}.
Arguments added_usd {D}.
Arguments removed_usd {D}.
Arguments tvl_usd {D}.
End PoolLiquidityFlow.

Module PoolPriceSnapshot.
Record t (D : Type) : Type := mk {
  pool_address : Pubkey;
  protocol : Protocol;
  sqrt_price : Z;
  last_swap_at : DateTime;
  decimals_a : Z;
  decimals_b : Z;
  price_a_usd : D;
  price_a_fetched_at : DateTime;
  price_b_usd : D;
  price_b_fetched_at : DateTime;
}.
Arguments mk {D}.
Arguments pool_address {D}.
Arguments protocol {D}.
Arguments sqrt_price {D}.
Arguments last_swap_at {D}.
Arguments decimals_a {D}.
Arguments decimals_b {D}.
Arguments price_a_usd {D}.
Arguments price_a_fetched_at {D}.
Arguments price_b_usd {D}.
Arguments price_b_fetched_at {D}.
End PoolPriceSnapshot.

(** The three repositories, as a tick finds them. *)
Module Readings.
Record t (D : Type) : Type := mk {
  directional_volume_since : DateTime -> D -> RepositoryResult (list (PoolSwapFlow.t D));
  liquidity_flow_since : DateTime -> RepositoryResult (list (PoolLiquidityFlow.t D));
  latest : D -> RepositoryResult (list (PoolPriceSnapshot.t D));
}.
Arguments mk {D}.
Arguments directional_volume_since {D}.
Arguments liquidity_flow_since {D}.
Arguments latest {D}.
End Readings.

(** ** [detector.rs] and [detectors/metrics.rs] *)

Inductive DetectorError : Type :=
| Repository (e : RepositoryError)
| Evaluation (reason : string).

Inductive SkipReason : Type :=
| Unpriced
| NoTvl
| Stale
| NoDecoder
| Undecodable.

Inductive DetectorMetric : Type :=
| Considered (detector : string) (count : Z)
| Skipped (detector : string) (reason : SkipReason).

(** What a detector's [evaluate] leaves: its counters and its answer. *)
Definition Evaluated (D : Type) : Type := list DetectorMetric * result (list (Signal.t D)) DetectorError.

Class SignalDetector (D : Type) : Type := {
  detector_name : string;
  cooldown : TimeDelta;
  evaluate : Readings.t D -> DateTime -> exec (Evaluated D);
}.

(** One turn of a detector's loop over the rows it read. *)
Inductive Turn (D : Type) : Type :=
| Skip (reason : SkipReason)
| Quiet
| Raise (signal : Signal.t D).
Arguments Skip {D}.
Arguments Quiet {D}.
Arguments Raise {D}.

Section Detectors.
Context {D : Type} `{!DecimalOps D} `{!DecimalText D} `{!DecimalFloat D}.

(** The loop itself: [continue] ends a turn, a panic ends the evaluation. *)
Fixpoint run_turns {R} (name : string) (turn : R -> exec (Turn D)) (rows : list R)
    (metrics : list DetectorMetric) (signals : list (Signal.t D)) : exec (Evaluated D) :=
  match rows with
  | [] => Done (metrics, Ok signals)
  | row :: rows =>
    let* t := turn row in
    match t with
    | Skip reason => run_turns name turn rows (metrics ++ [Skipped name reason]) signals
    | Quiet => run_turns name turn rows metrics signals
    | Raise s => run_turns name turn rows metrics (signals ++ [s])
    end
  end.

(** The body every [evaluate] shares: a read, the count, the loop. *)
Definition evaluate_rows {R} (name : string) (read : RepositoryResult (list R))
    (turn : R -> exec (Turn D)) : exec (Evaluated D) :=
  match read with
  | Err e => Done ([], Err (Repository e))
  | Ok rows => run_turns name turn rows [Considered name (Z.of_nat (length rows))] []
  end.

(** The severity of a magnitude that reached [threshold], and the threshold
    that justifies it. *)
Definition ladder (magnitude threshold critical : D) : Severity * D :=
  if dec_geb magnitude critical then (Critical, critical) else (Warning, threshold).

End Detectors.

(** ** [flow_imbalance.rs] *)

Module FlowImbalance.
Record Settings (D : Type) : Type := mkSettings {
  window : TimeDelta;
  settings_cooldown : TimeDelta;
  min_volume_usd : D;
  threshold : D;
  critical : D;
}.
Arguments mkSettings {D}.
Arguments window {D}.
Arguments settings_cooldown {D}.
Arguments min_volume_usd {D}.
Arguments threshold {D}.
Arguments critical {D}.

Section FlowImbalance.
Context {D : Type} `{!DecimalOps D} `{!DecimalText D}.

Definition turn (protocol : Protocol) (settings : Settings D) (evaluated_at : DateTime)
    (flow : PoolSwapFlow.t D) : exec (Turn D) :=
  match PoolSwapFlow.volume_a_to_b_usd flow, PoolSwapFlow.volume_b_to_a_usd flow with
  | Some a_to_b, Some b_to_a =>
    let* total := dec_add a_to_b b_to_a in
    if is_zero total then Done Quiet
    else
      let* difference := dec_sub a_to_b b_to_a in
      let* imbalance := dec_div difference total in
      let magnitude := dec_abs imbalance in
      if dec_ltb magnitude (threshold settings) then Done Quiet
      else
        let (severity, crossed) := ladder magnitude (threshold settings) (critical settings) in
        Done (Raise (Signal.mk DETECTOR_FLOW_IMBALANCE protocol (PoolSwapFlow.pool_address flow)
          severity imbalance (Some crossed)
          (Some ("directional flow imbalance " ++ dec_to_string (round_dp imbalance 4) ++
            " (total volume $" ++ dec_to_string (round_dp total 2) ++ ")"))%string evaluated_at))
  | _, _ => Done (Skip Unpriced)
  end.

Definition detector (protocol : Protocol) (settings : Settings D) : SignalDetector D := {|
  detector_name := DETECTOR_FLOW_IMBALANCE;
  cooldown := settings_cooldown settings;
  evaluate readings evaluated_at :=
    evaluate_rows DETECTOR_FLOW_IMBALANCE
      (Readings.directional_volume_since readings (evaluated_at - window settings)
        (min_volume_usd settings))
      (turn protocol settings evaluated_at);
|}.
End FlowImbalance.
End FlowImbalance.

(** ** [tvl_drain.rs] *)

Module TvlDrain.
Record Settings (D : Type) : Type := mkSettings {
  window : TimeDelta;
  settings_cooldown : TimeDelta;
  min_tvl_usd : D;
  threshold : D;
  critical : D;
}.
Arguments mkSettings {D}.
Arguments window {D}.
Arguments settings_cooldown {D}.
Arguments min_tvl_usd {D}.
Arguments threshold {D}.
Arguments critical {D}.

Section TvlDrain.
Context {D : Type} `{!DecimalOps D} `{!DecimalText D}.

Definition turn (protocol : Protocol) (settings : Settings D) (evaluated_at : DateTime)
    (flow : PoolLiquidityFlow.t D) : exec (Turn D) :=
  match PoolLiquidityFlow.tvl_usd flow with
  | None => Done (Skip NoTvl)
  | Some tvl =>
    match PoolLiquidityFlow.added_usd flow, PoolLiquidityFlow.removed_usd flow with
    | Some added, Some removed =>
      let* net_removed := dec_sub removed added in
      if dec_leb net_removed dec_zero then Done Quiet
      else
        let* starting_tvl := dec_add tvl net_removed in
        if dec_ltb starting_tvl (min_tvl_usd settings) then Done Quiet
        else
          let* drain := dec_div net_removed starting_tvl in
          if dec_ltb drain (threshold settings) then Done Quiet
          else
            let (severity, crossed) := ladder drain (threshold settings) (critical settings) in
            Done (Raise (Signal.mk DETECTOR_TVL_DRAIN protocol (PoolLiquidityFlow.pool_address flow)
              severity drain (Some crossed)
              (Some ("liquidity drain " ++ dec_to_string (round_dp drain 4) ++ " (net $" ++
                dec_to_string (round_dp net_removed 2) ++ " removed, TVL now $" ++
                dec_to_string (round_dp tvl 2) ++ ")"))%string evaluated_at))
    | _, _ => Done (Skip Unpriced)
    end
  end.

Definition detector (protocol : Protocol) (settings : Settings D) : SignalDetector D := {|
  detector_name := DETECTOR_TVL_DRAIN;
  cooldown := settings_cooldown settings;
  evaluate readings evaluated_at :=
    evaluate_rows DETECTOR_TVL_DRAIN
      (Readings.liquidity_flow_since readings (evaluated_at - window settings))
      (turn protocol settings evaluated_at);
|}.
End TvlDrain.
End TvlDrain.

(** ** [price_oracle_deviation.rs] *)

Module PriceOracleDeviation.
Record Settings (D : Type) : Type := mkSettings {
  settings_cooldown : TimeDelta;
  max_price_age : TimeDelta;
  max_spot_age : TimeDelta;
  min_tvl_usd : D;
  threshold : D;
  critical : D;
}.
Arguments mkSettings {D}.
Arguments settings_cooldown {D}.
Arguments max_price_age {D}.
Arguments max_spot_age {D}.
Arguments min_tvl_usd {D}.
Arguments threshold {D}.
Arguments critical {D}.

Inductive SpotPrice (D : Type) : Type :=
| Decoded (price : D)
| UndecodableSpot
| NoSpotDecoder.
Arguments Decoded {D}.
Arguments UndecodableSpot {D}.
Arguments NoSpotDecoder {D}.

(** *** [sqrt_price_to_price_a_in_b] of amm/damm_v2.rs, in binary64 *)

Definition f64_prec : Z := 53.
Definition f64_emax : Z := 1024.
Definition f64_of_Z (n : Z) : spec_float := binary_normalize f64_prec f64_emax n 0 false.
Definition f64_mul : spec_float -> spec_float -> spec_float := SFmul f64_prec f64_emax.
Definition f64_div : spec_float -> spec_float -> spec_float := SFdiv f64_prec f64_emax.
Definition f64_is_finite (f : spec_float) : bool :=
  match f with S754_zero _ | S754_finite _ _ _ => true | _ => false end.

Definition Q64_SCALE : spec_float := f64_of_Z (2 ^ 64).

Section PriceOracleDeviation.
Context {D : Type} `{!DecimalOps D} `{!DecimalText D} `{!DecimalFloat D}.

Definition sqrt_price_to_price_a_in_b (sqrt_price decimals_a decimals_b : Z) : option D :=
  let ratio := f64_div (f64_of_Z sqrt_price) Q64_SCALE in
  let exponent := decimals_a - decimals_b in
  let price := f64_mul (f64_mul ratio ratio) (powi (f64_of_Z 10) exponent) in
  if negb (f64_is_finite price) || SFleb price (f64_of_Z 0) then None
  else
    let! d := from_f64_retain price in
    let d := normalize d in
    if is_zero d then None else Some d.

Definition spot_price_a_in_b (snapshot : PoolPriceSnapshot.t D) : SpotPrice D :=
  match PoolPriceSnapshot.protocol snapshot with
  | MeteoraDammV2 =>
      match sqrt_price_to_price_a_in_b (PoolPriceSnapshot.sqrt_price snapshot)
        (PoolPriceSnapshot.decimals_a snapshot) (PoolPriceSnapshot.decimals_b snapshot) with
      | Some price => Decoded price
      | None => UndecodableSpot
      end
  | MeteoraDlmm => NoSpotDecoder
  end.

Definition compact (price : D) : D :=
  normalize (match round_sf price 6 with Some rounded => rounded | None => price end).

Definition stale (settings : Settings D) (evaluated_at : DateTime)
    (snapshot : PoolPriceSnapshot.t D) : bool :=
  let price_cutoff := evaluated_at - max_price_age settings in
  let spot_cutoff := evaluated_at - max_spot_age settings in
  (PoolPriceSnapshot.last_swap_at snapshot <? spot_cutoff) ||
  (PoolPriceSnapshot.price_a_fetched_at snapshot <? price_cutoff) ||
  (PoolPriceSnapshot.price_b_fetched_at snapshot <? price_cutoff).

Definition turn (settings : Settings D) (evaluated_at : DateTime)
    (snapshot : PoolPriceSnapshot.t D) : exec (Turn D) :=
  if stale settings evaluated_at snapshot then Done (Skip Stale)
  else
    match dec_checked_div (PoolPriceSnapshot.price_a_usd snapshot)
      (PoolPriceSnapshot.price_b_usd snapshot) with
    | None => Done (Skip Undecodable)
    | Some oracle =>
      if dec_leb oracle dec_zero then Done (Skip Undecodable)
      else
        match spot_price_a_in_b snapshot with
        | UndecodableSpot => Done (Skip Undecodable)
        | NoSpotDecoder => Done (Skip NoDecoder)
        | Decoded spot =>
          let* difference := dec_sub spot oracle in
          match dec_checked_div difference oracle with
          | None => Done (Skip Undecodable)
          | Some deviation =>
            let magnitude := dec_abs deviation in
            if dec_ltb magnitude (threshold settings) then Done Quiet
            else
              let (severity, crossed) := ladder magnitude (threshold settings) (critical settings) in
              Done (Raise (Signal.mk DETECTOR_PRICE_ORACLE_DEVIATION
                (PoolPriceSnapshot.protocol snapshot) (PoolPriceSnapshot.pool_address snapshot)
                severity deviation (Some crossed)
                (Some ("spot price deviates " ++ dec_to_string (round_dp deviation 4) ++
                  " from oracle (spot " ++ dec_to_string (compact spot) ++ ", oracle " ++
                  dec_to_string (compact oracle) ++ ")"))%string evaluated_at))
          end
        end
    end.

Definition detector (settings : Settings D) : SignalDetector D := {|
  detector_name := DETECTOR_PRICE_ORACLE_DEVIATION;
  cooldown := settings_cooldown settings;
  evaluate readings evaluated_at :=
    evaluate_rows DETECTOR_PRICE_ORACLE_DEVIATION (Readings.latest readings (min_tvl_usd settings))
      (turn settings evaluated_at);
|}.
End PriceOracleDeviation.
End PriceOracleDeviation.

(** ** The [signals] table ([persistence/.../signal.rs]) *)

Inductive EngineMetric : Type :=
| Tick (detector outcome : string)
| Emitted (detector : string) (count : Z).

Module Signals.
Record t (D : Type) : Type := mk {
  rows : list (Signal.t D);
  statements : nat;
  detector_metrics : list DetectorMetric;
  engine_metrics : list EngineMetric;
}.
Arguments mk {D}.
Arguments rows {D}.
Arguments statements {D}.
Arguments detector_metrics {D}.
Arguments engine_metrics {D}.

Definition record {D} (s : t D) (m : EngineMetric) : t D :=
  mk (rows s) (statements s) (detector_metrics s) (engine_metrics s ++ [m]).
Definition considered {D} (s : t D) (ms : list DetectorMetric) : t D :=
  mk (rows s) (statements s) (detector_metrics s ++ ms) (engine_metrics s).
Definition sent {D} (s : t D) : t D :=
  mk (rows s) (S (statements s)) (detector_metrics s) (engine_metrics s).
Definition append {D} (s : t D) (signals : list (Signal.t D)) : t D :=
  mk (rows s ++ signals) (statements s) (detector_metrics s) (engine_metrics s).
End Signals.

(** The row [DISTINCT ON (pool_address) ... ORDER BY triggered_at DESC] keeps
    of a pool's: one of the latest, no order being promised among equals. *)
Class DistinctOn (D : Type) : Type := {
  most_recent : list (Signal.t D) -> option (Signal.t D);
}.

Class DistinctOnLaws (D : Type) `{!DistinctOn D} : Prop := {
  most_recent_nil : most_recent [] = None;
  most_recent_latest : forall l : list (Signal.t D), l <> [] ->
    exists s, most_recent l = Some s /\ In s l /\
      forall s', In s' l -> Signal.triggered_at s' <= Signal.triggered_at s;
}.

Section Engine.
Context {D : Type} `{Postgres} `{!DistinctOn D}.

Definition insert_batch (s : Signals.t D) (signals : list (Signal.t D)) :
    Signals.t D * RepositoryResult unit :=
  match signals with
  | [] => (s, Ok ())
  | _ =>
    match fault (Signals.statements s) with
    | Some e => (Signals.sent s, Err e)
    | None => (Signals.append (Signals.sent s) signals, Ok ())
    end
  end.

(** The rows of [detector] after [since]. *)
Definition recent_rows (s : Signals.t D) (detector : string) (since : DateTime) : list (Signal.t D) :=
  List.filter (fun r => bool_decide (Signal.detector r = detector) && (since <? Signal.triggered_at r))
    (Signals.rows s).

Definition of_pool (pool : Pubkey) (rows : list (Signal.t D)) : list (Signal.t D) :=
  List.filter (fun r => bool_decide (Signal.pool_address r = pool)) rows.

Definition latest_severity_by_pool (s : Signals.t D) (detector : string) (since : DateTime) :
    Signals.t D * RepositoryResult (gmap Pubkey Severity) :=
  match fault (Signals.statements s) with
  | Some e => (Signals.sent s, Err e)
  | None =>
    let rows := recent_rows s detector since in
    (Signals.sent s, Ok (foldr (fun r out =>
      match most_recent (of_pool (Signal.pool_address r) rows) with
      | Some latest => <[Signal.pool_address r := Signal.severity latest]> out
      | None => out
      end) ∅ rows))
  end.

(** ** [signal_engine.rs] *)

Definition emittable (candidates : list (Signal.t D)) (recent : gmap Pubkey Severity) :
    list (Signal.t D) :=
  List.filter (fun candidate =>
    match recent !! Signal.pool_address candidate with
    | None => true
    | Some last => severity_gtb (Signal.severity candidate) last
    end) candidates.

(** [ChronoDuration::from_std]: zero when the duration is past chrono's
    [i64::MAX] milliseconds. *)
Definition cooldown_delta (cooldown : Z) : TimeDelta :=
  if cooldown <=? (2 ^ 63 - 1) * 10 ^ 6 then cooldown else 0.

Definition run_tick (s : Signals.t D) (detector : SignalDetector D) (readings : Readings.t D)
    (evaluated_at : DateTime) : exec (Signals.t D) :=
  let name := @detector_name _ detector in
  let* (metrics, evaluation) := @evaluate _ detector readings evaluated_at in
  let s := Signals.considered s metrics in
  match evaluation with
  | Err _ => Done (Signals.record s (Tick name "eval_failed"))
  | Ok [] => Done (Signals.record s (Tick name "ok"))
  | Ok candidates =>
    let since := evaluated_at - cooldown_delta (@cooldown _ detector) in
    let (s, recent) := latest_severity_by_pool s name since in
    match recent with
    | Err _ => Done (Signals.record s (Tick name "dedup_failed"))
    | Ok recent =>
      match emittable candidates recent with
      | [] => Done (Signals.record s (Tick name "suppressed"))
      | to_emit =>
        let (s, inserted) := insert_batch s to_emit in
        match inserted with
        | Err _ => Done (Signals.record s (Tick name "persist_failed"))
        | Ok _ =>
            let s := Signals.record s (Emitted name (Z.of_nat (length to_emit))) in
            Done (Signals.record s (Tick name "ok"))
        end
      end
    end
  end.

(** The ticks of every detector, in the order they ran. A panic in an
    evaluation comes before any statement: the table is as it was. *)
Definition run_ticks (s : Signals.t D) (ticks : list (SignalDetector D * Readings.t D * DateTime)) :
    Signals.t D :=
  foldl (fun s '(detector, readings, evaluated_at) =>
    match run_tick s detector readings evaluated_at with
    | Done s => s
    | Panic => s
    end) s ticks.
End Engine.
