(* ===== verification/SignalsFacts.v ===== *)
(** * What the signals process guarantees

    The detectors raise only justified signals and account for every pool they
    were handed; the engine, proved against the interface [SignalDetector],
    keeps the cooldown of a pool and loses no candidate silently. *)

From Stdlib Require Import Floats.SpecFloat QArith Qabs Sorting.Sorted.
From S2P Require Import Prelude Errors External Domain Store Signals.
#[local] Open Scope Z_scope.

(** ** The loop of a detector *)

Definition raised {D} (t : Turn D) : option (Signal.t D) :=
  match t with Raise s => Some s | _ => None end.
Definition skipped {D} (name : string) (t : Turn D) : option DetectorMetric :=
  match t with Skip r => Some (Skipped name r) | _ => None end.

Lemma run_turns_Done {D R} name (turn : R -> exec (Turn D)) rows : forall ms ss ms' r,
  run_turns name turn rows ms ss = Done (ms', r) ->
  exists turns, Forall2 (fun row t => turn row = Done t) rows turns /\
    ms' = ms ++ omap (skipped name) turns /\ r = Ok (ss ++ omap raised turns).
Proof.
  induction rows as [|row rows IH]; intros ms ss ms' r; simpl.
  { intros [= <- <-]. exists []. simpl. rewrite !app_nil_r. split_and!; [constructor|done|done]. }
  destruct (turn row) as [t|] eqn:Ht; [|done]. simpl.
  destruct t as [reason| |s]; intros (turns & Hf & Hm & Hr)%IH;
    exists (match turn row with Done t => t :: turns | Panic => turns end); rewrite Ht; simpl;
    (split_and!; [by constructor| |]); subst; by rewrite <- ?app_assoc.
Qed.

Lemma evaluate_rows_Done {D R} name (read : RepositoryResult (list R)) (turn : R -> exec (Turn D)) ms signals :
  evaluate_rows name read turn = Done (ms, Ok signals) ->
  exists rows turns, read = Ok rows /\ Forall2 (fun row t => turn row = Done t) rows turns /\
    ms = Considered name (Z.of_nat (length rows)) :: omap (skipped name) turns /\
    signals = omap raised turns.
Proof.
  unfold evaluate_rows. destruct read as [rows|e]; [|by intros [= _ ?]].
  intros (turns & Hf & Hm & Hr)%run_turns_Done. exists rows, turns.
  injection Hr as ->. by subst.
Qed.

Lemma turns_length {D} name (turns : list (Turn D)) :
  (length (omap raised turns) + length (omap (skipped name) turns) <= length turns)%nat.
Proof.
  unfold omap. induction turns as [|t turns IH]; [simpl; lia|]. destruct t; simpl; lia.
Qed.

Lemma raised_in {D R} (turn : R -> exec (Turn D)) rows turns s :
  Forall2 (fun row t => turn row = Done t) rows turns -> In s (omap raised turns) ->
  exists row, In row rows /\ turn row = Done (Raise s).
Proof.
  induction 1 as [|row t rows turns Ht _ IH]; simpl; [done|].
  destruct t as [| |s']; simpl; [naive_solver|naive_solver|].
  intros [<-|Hs]; [by exists row; split; [left|]|]. destruct (IH Hs) as (r & ? & ?). exists r. auto.
Qed.

Lemma raised_pools {D R} (pool_of : R -> Pubkey) (turn : R -> exec (Turn D)) rows turns :
  (forall row s, turn row = Done (Raise s) -> Signal.pool_address s = pool_of row) ->
  Forall2 (fun row t => turn row = Done t) rows turns ->
  map Signal.pool_address (omap raised turns) `sublist_of` map pool_of rows.
Proof.
  intros Hp. induction 1 as [|row t rows turns Ht _ IH]; simpl; [constructor|].
  destruct t as [| |s]; simpl; [by constructor|by constructor|].
  rewrite (Hp _ _ Ht). by constructor.
Qed.

(** ** The interface the engine relies on *)

(** The reads hand a pool over once: they group by pool. *)
Definition distinct_reads {D} (readings : Readings.t D) : Prop :=
  (forall since floor rows, Readings.directional_volume_since readings since floor = Ok rows ->
    NoDup (map PoolSwapFlow.pool_address rows)) /\
  (forall since rows, Readings.liquidity_flow_since readings since = Ok rows ->
    NoDup (map PoolLiquidityFlow.pool_address rows)) /\
  (forall floor rows, Readings.latest readings floor = Ok rows ->
    NoDup (map PoolPriceSnapshot.pool_address rows)).

Class DetectorLaws {D} (d : SignalDetector D) : Prop := {
  evaluate_stamped : forall readings at_ ms cs s,
    @evaluate _ d readings at_ = Done (ms, Ok cs) -> In s cs ->
    Signal.detector s = @detector_name _ d /\ Signal.triggered_at s = at_;
  evaluate_distinct : forall readings at_ ms cs,
    distinct_reads readings -> @evaluate _ d readings at_ = Done (ms, Ok cs) ->
    NoDup (map Signal.pool_address cs);
}.

(** Any loop over rows of distinct pools that stamps its signals. *)
Lemma evaluate_rows_laws {D R} name (read : RepositoryResult (list R)) (pool_of : R -> Pubkey)
    (turn : R -> exec (Turn D)) at_ ms cs :
  (forall row s, turn row = Done (Raise s) ->
    Signal.pool_address s = pool_of row /\ Signal.detector s = name /\ Signal.triggered_at s = at_) ->
  evaluate_rows name read turn = Done (ms, Ok cs) ->
  (forall s, In s cs -> Signal.detector s = name /\ Signal.triggered_at s = at_) /\
  ((forall rows, read = Ok rows -> NoDup (map pool_of rows)) -> NoDup (map Signal.pool_address cs)).
Proof.
  intros Ht (rows & turns & Hread & Hf & _ & ->)%evaluate_rows_Done. split.
  - intros s Hs. destruct (raised_in _ _ _ _ Hf Hs) as (row & _ & Hr). by apply Ht in Hr as (_ & ?).
  - intros Hd. eapply sublist_NoDup; [by apply Hd|].
    eapply raised_pools; [|exact Hf]. intros row s Hr. by apply Ht in Hr as (? & _).
Qed.

(** What a raised signal says: the rung of the ladder it reached. *)
Definition on_ladder {D} `{!DecimalOps D} (magnitude threshold critical : D) (s : Signal.t D) : Prop :=
  dec_ltb magnitude threshold = false /\
  (Signal.severity s, Signal.threshold s) =
    (let (severity, crossed) := ladder magnitude threshold critical in (severity, Some crossed)).

(** Walks down a turn to its [Raise]. *)
Ltac walk_turn :=
  repeat match goal with
  | H : context [match ?x with _ => _ end] |- _ =>
      match type of H with
      | _ = Done (Raise _) => let E := fresh "E" in destruct x eqn:E; try discriminate H
      end
  | H : exec_bind ?e _ = Done _ |- _ =>
      let x := fresh "x" in let Hx := fresh "Hx" in apply exec_bind_Done in H as (x & Hx & H)
  end.

Ltac close_turn Hr :=
  injection Hr as <-; simpl; split_and!; try done;
  match goal with E : ladder _ _ _ = _ |- _ => by rewrite E end.

Section Detectors.
Context {D : Type} `{!DecimalOps D} `{!DecimalText D} `{!DecimalFloat D}.

Lemma flow_imbalance_raise protocol settings at_ flow s :
  FlowImbalance.turn protocol settings at_ flow = Done (Raise s) ->
  (Signal.pool_address s = PoolSwapFlow.pool_address flow /\
   Signal.detector s = DETECTOR_FLOW_IMBALANCE /\ Signal.triggered_at s = at_) /\
  on_ladder (dec_abs (Signal.value s)) (FlowImbalance.threshold settings)
    (FlowImbalance.critical settings) s.
Proof.
  unfold FlowImbalance.turn, on_ladder. intros Hr. walk_turn. by close_turn Hr.
Qed.

Lemma tvl_drain_raise protocol settings at_ flow s :
  TvlDrain.turn protocol settings at_ flow = Done (Raise s) ->
  (Signal.pool_address s = PoolLiquidityFlow.pool_address flow /\
   Signal.detector s = DETECTOR_TVL_DRAIN /\ Signal.triggered_at s = at_) /\
  on_ladder (Signal.value s) (TvlDrain.threshold settings) (TvlDrain.critical settings) s.
Proof.
  unfold TvlDrain.turn, on_ladder. intros Hr. walk_turn. by close_turn Hr.
Qed.

Lemma price_oracle_raise settings at_ snapshot s :
  PriceOracleDeviation.turn settings at_ snapshot = Done (Raise s) ->
  (Signal.pool_address s = PoolPriceSnapshot.pool_address snapshot /\
   Signal.detector s = DETECTOR_PRICE_ORACLE_DEVIATION /\ Signal.triggered_at s = at_) /\
  on_ladder (dec_abs (Signal.value s)) (PriceOracleDeviation.threshold settings)
    (PriceOracleDeviation.critical settings) s.
Proof.
  unfold PriceOracleDeviation.turn, on_ladder. intros Hr. walk_turn. by close_turn Hr.
Qed.

#[global] Instance flow_imbalance_laws protocol settings :
  DetectorLaws (FlowImbalance.detector (D := D) protocol settings).
Proof.
  split; simpl.
  - intros readings at_ ms cs s He Hs.
    eapply (evaluate_rows_laws _ _ PoolSwapFlow.pool_address) in He as [Ha _]; [by apply Ha|].
    intros row s' Hr. apply (flow_imbalance_raise _ _ _ _ _ Hr).
  - intros readings at_ ms cs (Hd & _) He.
    eapply (evaluate_rows_laws _ _ PoolSwapFlow.pool_address) in He as [_ Hn];
      [apply Hn; intros rows; apply Hd|].
    intros row s' Hr. apply (flow_imbalance_raise _ _ _ _ _ Hr).
Qed.

#[global] Instance tvl_drain_laws protocol settings :
  DetectorLaws (TvlDrain.detector (D := D) protocol settings).
Proof.
  split; simpl.
  - intros readings at_ ms cs s He Hs.
    eapply (evaluate_rows_laws _ _ PoolLiquidityFlow.pool_address) in He as [Ha _]; [by apply Ha|].
    intros row s' Hr. apply (tvl_drain_raise _ _ _ _ _ Hr).
  - intros readings at_ ms cs (_ & Hd & _) He.
    eapply (evaluate_rows_laws _ _ PoolLiquidityFlow.pool_address) in He as [_ Hn];
      [apply Hn; intros rows; apply Hd|].
    intros row s' Hr. apply (tvl_drain_raise _ _ _ _ _ Hr).
Qed.

#[global] Instance price_oracle_laws settings :
  DetectorLaws (PriceOracleDeviation.detector (D := D) settings).
Proof.
  split; simpl.
  - intros readings at_ ms cs s He Hs.
    eapply (evaluate_rows_laws _ _ PoolPriceSnapshot.pool_address) in He as [Ha _]; [by apply Ha|].
    intros row s' Hr. apply (price_oracle_raise _ _ _ _ Hr).
  - intros readings at_ ms cs (_ & _ & Hd) He.
    eapply (evaluate_rows_laws _ _ PoolPriceSnapshot.pool_address) in He as [_ Hn];
      [apply Hn; intros rows; apply Hd|].
    intros row s' Hr. apply (price_oracle_raise _ _ _ _ Hr).
Qed.
End Detectors.

(** ** The engine *)

Section Engine.
Context {D : Type} `{Postgres} `{DistinctOnLaws D}.
Implicit Types (s : Signals.t D) (d : SignalDetector D) (r c : Signal.t D) (cs : list (Signal.t D)).

Lemma in_of_pool pool (l : list (Signal.t D)) r :
  In r (of_pool pool l) <-> In r l /\ Signal.pool_address r = pool.
Proof. unfold of_pool. by rewrite List.filter_In, bool_decide_eq_true. Qed.

Lemma in_recent_rows s name since r :
  In r (recent_rows s name since) <->
    In r (Signals.rows s) /\ Signal.detector r = name /\ since < Signal.triggered_at r.
Proof.
  unfold recent_rows. by rewrite List.filter_In, andb_true_iff, bool_decide_eq_true, Z.ltb_lt.
Qed.

Lemma latest_lookup (rows l : list (Signal.t D)) pool :
  foldr (fun r out =>
      match most_recent (of_pool (Signal.pool_address r) rows) with
      | Some latest => <[Signal.pool_address r := Signal.severity latest]> out
      | None => out
      end) (∅ : gmap Pubkey Severity) l !! pool =
    if existsb (fun r => bool_decide (Signal.pool_address r = pool)) l
    then Signal.severity <$> most_recent (of_pool pool rows) else None.
Proof.
  induction l as [|r l IH]; simpl; [apply lookup_empty|].
  destruct (decide (Signal.pool_address r = pool)) as [Heq|Hne].
  - rewrite (bool_decide_eq_true_2 _ Heq), Heq. simpl.
    destruct (most_recent (of_pool pool rows)) as [x|] eqn:Hm; [apply lookup_insert_eq|].
    rewrite IH. by destruct (existsb _ l).
  - rewrite (bool_decide_eq_false_2 _ Hne). simpl.
    destruct (most_recent (of_pool (Signal.pool_address r) rows));
      [etrans; [by apply lookup_insert_ne|]|]; apply IH.
Qed.

(** What the dedup read answers. *)
Lemma latest_severity_Ok s name since s' recent :
  latest_severity_by_pool s name since = (s', Ok recent) ->
  s' = Signals.sent s /\
  forall pool, recent !! pool =
    Signal.severity <$> most_recent (of_pool pool (recent_rows s name since)).
Proof.
  unfold latest_severity_by_pool. destruct (fault _); [done|]. intros [= <- <-].
  split; [done|]. intros pool. rewrite latest_lookup.
  destruct (existsb _ _) eqn:He; [done|].
  assert (of_pool pool (recent_rows s name since) = []) as ->; [|by rewrite most_recent_nil].
  destruct (of_pool _ _) as [|r l] eqn:Hl; [done|].
  assert (In r (of_pool pool (recent_rows s name since))) as Hr by (rewrite Hl; by left).
  apply in_of_pool in Hr as [Hin Hp]. exfalso. apply not_true_iff_false in He. apply He.
  apply existsb_exists. exists r. by rewrite bool_decide_eq_true.
Qed.

(** The pool's last signal, when there is one, is among the recent rows. *)
Lemma most_recent_In (l : list (Signal.t D)) r :
  most_recent l = Some r -> In r l /\ forall r', In r' l -> Signal.triggered_at r' <= Signal.triggered_at r.
Proof.
  intros Hr. destruct l as [|x l]; [by rewrite most_recent_nil in Hr|].
  destruct (most_recent_latest (x :: l)) as (y & Hy & Hin & Hmax); [done|].
  rewrite Hr in Hy. injection Hy as ->. done.
Qed.

Lemma most_recent_Some (l : list (Signal.t D)) r : In r l -> exists x, most_recent l = Some x.
Proof.
  intros Hr. destruct (most_recent_latest l) as (y & Hy & _); [by intros ->|]. by exists y.
Qed.

Lemma in_emittable cs (recent : gmap Pubkey Severity) c :
  In c (emittable cs recent) <->
    In c cs /\ forall last, recent !! Signal.pool_address c = Some last ->
      severity_rank last < severity_rank (Signal.severity c).
Proof.
  unfold emittable. rewrite List.filter_In. apply and_iff_compat_l.
  destruct (recent !! Signal.pool_address c) as [last|]; [|naive_solver].
  unfold severity_gtb. rewrite Z.ltb_lt. naive_solver.
Qed.

(** The signals a tick stores: candidates above the last severity of their pool. *)
Definition escalates s (name : string) (since : DateTime) c : Prop :=
  forall last, most_recent (of_pool (Signal.pool_address c) (recent_rows s name since)) = Some last ->
    severity_rank (Signal.severity last) < severity_rank (Signal.severity c).

(** A candidate the table answers for: stored, or under a recent signal at
    least as severe. *)
Definition answered (rows : list (Signal.t D)) (name : string) (since : DateTime) c : Prop :=
  exists r, In r rows /\ Signal.pool_address r = Signal.pool_address c /\
    severity_rank (Signal.severity c) <= severity_rank (Signal.severity r) /\
    (r = c \/ (Signal.detector r = name /\ since < Signal.triggered_at r)).

Definition tick_since d (at_ : DateTime) : DateTime := at_ - cooldown_delta (@cooldown _ d).

(** The account of a tick that ended. *)
Record ticked s d (readings : Readings.t D) (at_ : DateTime) s' (new : list (Signal.t D)) (outcome : string) : Prop := {
  ticked_rows : Signals.rows s' = Signals.rows s ++ new;
  ticked_metrics : Signals.engine_metrics s' = Signals.engine_metrics s ++
    match new with [] => [] | _ => [Emitted (@detector_name _ d) (Z.of_nat (length new))] end ++
    [Tick (@detector_name _ d) outcome];
  ticked_outcome :
    (exists ms cs, @evaluate _ d readings at_ = Done (ms, Ok cs) /\ new `sublist_of` cs /\
      Forall (escalates s (@detector_name _ d) (tick_since d at_)) new /\
      (outcome = "ok" \/ outcome = "suppressed")%string /\
      Forall (answered (Signals.rows s') (@detector_name _ d) (tick_since d at_)) cs) \/
    (new = [] /\ (outcome = "eval_failed" \/ outcome = "dedup_failed" \/ outcome = "persist_failed")%string);
}.

Lemma emittable_escalates s name since s1 recent cs :
  latest_severity_by_pool s name since = (s1, Ok recent) ->
  Forall (escalates s name since) (emittable cs recent).
Proof.
  intros [_ Hl]%latest_severity_Ok. apply Forall_forall. intros c Hc%list_elem_of_In.
  apply in_emittable in Hc as [_ Hc]. intros last Hlast. apply Hc. by rewrite Hl, Hlast.
Qed.

Lemma candidates_answered s name since s1 recent cs :
  latest_severity_by_pool s name since = (s1, Ok recent) ->
  Forall (answered (Signals.rows s ++ emittable cs recent) name since) cs.
Proof.
  intros [_ Hl]%latest_severity_Ok. apply Forall_forall. intros c Hc%list_elem_of_In.
  destruct (recent !! Signal.pool_address c) as [last|] eqn:Hp.
  - destruct (decide (severity_rank last < severity_rank (Signal.severity c))) as [Hlt|Hge].
    + exists c. split; [|by split_and!; [|lia|left]]. apply in_app_iff. right.
      apply in_emittable. split; [done|]. naive_solver.
    + rewrite Hl in Hp. apply fmap_Some in Hp as (r & Hr & ->).
      apply most_recent_In in Hr as [Hr _]. apply in_of_pool in Hr as [Hr Hpool].
      apply in_recent_rows in Hr as (Hr & Hname & Hsince).
      exists r. split_and!; [apply in_app_iff; by left|done|lia|by right].
  - exists c. split; [|by split_and!; [|lia|left]]. apply in_app_iff. right.
    apply in_emittable. split; [done|]. naive_solver.
Qed.

Lemma emittable_sublist cs recent : emittable cs recent `sublist_of` cs.
Proof.
  unfold emittable. induction cs as [|c cs IH]; simpl; [constructor|].
  destruct (match _ with None => _ | _ => _ end); by constructor.
Qed.

Lemma run_tick_ticked s d readings at_ s' :
  run_tick s d readings at_ = Done s' -> exists new outcome, ticked s d readings at_ s' new outcome.
Proof.
  unfold run_tick. intros ([ms ev] & He & Hr)%exec_bind_Done.
  destruct ev as [cs|e].
  2:{ injection Hr as <-. exists [], "eval_failed"%string. split; simpl; [by rewrite app_nil_r|done|].
      right. auto. }
  destruct cs as [|c0 cs0] eqn:Hcs.
  { injection Hr as <-. exists [], "ok"%string. split; simpl; [by rewrite app_nil_r|done|].
    left. exists ms, []. split_and!; [done|constructor|constructor|by left|constructor]. }
  rewrite <- Hcs in *. clear Hcs c0 cs0. fold (tick_since d at_) in Hr.
  set (s0 := Signals.considered s ms) in Hr.
  destruct (latest_severity_by_pool s0 _ (tick_since d at_)) as [s1 [recent|e]] eqn:Hl.
  2:{ injection Hr as <-. unfold latest_severity_by_pool in Hl.
      destruct (fault _); injection Hl as <- _; exists [], "dedup_failed"%string;
        (split; simpl; [by rewrite app_nil_r|done|]; right; auto). }
  pose proof (emittable_escalates _ _ _ _ _ cs Hl) as Hesc.
  pose proof (candidates_answered _ _ _ _ _ cs Hl) as Hans.
  pose proof (emittable_sublist cs recent) as Hsub.
  apply latest_severity_Ok in Hl as [-> _].
  destruct (emittable cs recent) as [|e0 es] eqn:Hem.
  - injection Hr as <-. exists [], "suppressed"%string. split; simpl; [by rewrite app_nil_r|done|].
    left. rewrite app_nil_r in Hans. exists ms, cs. split_and!; [done|done|done|by right|done].
  - unfold insert_batch in Hr. destruct (fault _); injection Hr as <-.
    + exists [], "persist_failed"%string. split; simpl; [by rewrite app_nil_r|done|]. right. auto.
    + exists (e0 :: es), "ok"%string. split; simpl; [done|by rewrite <- app_assoc|].
      left. exists ms, cs. split_and!; [done|done|done|by left|done].
Qed.

(** ** The cooldown *)

(** Two signals of [name] about one pool, in the order they were stored: the
    later one comes [window] later, or is more severe. *)
Definition spaced (name : string) (window : TimeDelta) (a b : Signal.t D) : Prop :=
  Signal.detector a = name -> Signal.detector b = name ->
  Signal.pool_address a = Signal.pool_address b ->
  Signal.triggered_at a < Signal.triggered_at b /\
  (Signal.triggered_at b - Signal.triggered_at a < window ->
   severity_rank (Signal.severity a) < severity_rank (Signal.severity b)).

Definition tick_of : Type := SignalDetector D * Readings.t D * DateTime.

(** The instants of the ticks of [name]. *)
Definition tick_times (name : string) (ticks : list tick_of) : list DateTime :=
  map snd (List.filter (fun t => bool_decide (@detector_name _ t.1.1 = name)) ticks).

Definition sound_tick (name : string) (window : TimeDelta) (t : tick_of) : Prop :=
  DetectorLaws t.1.1 /\ distinct_reads t.1.2 /\
  (@detector_name _ t.1.1 = name -> cooldown_delta (@cooldown _ t.1.1) = window).

Lemma ForallOrdPairs_snoc_all {A} (R : A -> A -> Prop) l k :
  ForallOrdPairs R l -> ForallOrdPairs R k -> (forall x y, In x l -> In y k -> R x y) ->
  ForallOrdPairs R (l ++ k).
Proof.
  induction 1 as [|x l Hx _ IH]; intros Hk Hc; simpl; [done|]. constructor.
  - apply Forall_app_2; [done|]. apply Forall_forall. intros y Hy%list_elem_of_In.
    apply Hc; [by left|done].
  - apply IH; [done|]. intros a b Ha Hb. apply Hc; [by right|done].
Qed.

Lemma NoDup_pools_spaced name window (l : list (Signal.t D)) :
  NoDup (map Signal.pool_address l) -> ForallOrdPairs (spaced name window) l.
Proof.
  induction l as [|r l IH]; simpl; [constructor|]. intros [Hn Hd]%NoDup_cons.
  constructor; [|by apply IH]. apply Forall_forall. intros b Hb%list_elem_of_In _ _ Hp.
  exfalso. apply Hn. rewrite Hp. by apply list_elem_of_In, in_map.
Qed.

(** One escalation over the rows of the table is one over each of them. *)
Lemma escalates_spaced s name window at_ a b :
  ForallOrdPairs (spaced name window) (Signals.rows s) -> In a (Signals.rows s) ->
  (forall r, In r (Signals.rows s) -> Signal.detector r = name -> Signal.triggered_at r < at_) ->
  Signal.triggered_at b = at_ -> escalates s name (at_ - window) b -> spaced name window a b.
Proof.
  intros Hs Ha Hlt Hat Hesc Hna Hnb Hp. rewrite Hat. pose proof (Hlt a Ha Hna). split; [done|].
  intros Hw.
  assert (In a (of_pool (Signal.pool_address b) (recent_rows s name (at_ - window)))) as Hin.
  { apply in_of_pool. split; [|done]. apply in_recent_rows. split_and!; [done|done|lia]. }
  destruct (most_recent_Some _ _ Hin) as [last Hlast].
  apply Hesc in Hlast as Hrank. apply most_recent_In in Hlast as [Hl Hmax].
  apply Hmax in Hin. apply in_of_pool in Hl as [Hl Hpl].
  apply in_recent_rows in Hl as (Hl & Hnl & Hsl).
  destruct (ForallOrdPairs_In Hs a last Ha Hl) as [->|[Hal|Hla]]; [lia| |].
  - destruct Hal as [_ Hal]; [done|done|congruence|].
    pose proof (Hlt last Hl Hnl). lia.
  - destruct Hla as [Hla _]; [done|done|congruence|lia].
Qed.

Lemma tick_spaced s name window d readings at_ :
  sound_tick name window (d, readings, at_) ->
  ForallOrdPairs (spaced name window) (Signals.rows s) ->
  (@detector_name _ d = name ->
    forall r, In r (Signals.rows s) -> Signal.detector r = name -> Signal.triggered_at r < at_) ->
  forall s', run_tick s d readings at_ = Done s' ->
  ForallOrdPairs (spaced name window) (Signals.rows s') /\
  (forall r, In r (Signals.rows s') -> Signal.detector r = name ->
    In r (Signals.rows s) \/ (@detector_name _ d = name /\ Signal.triggered_at r = at_)).
Proof.
  intros (Hlaws & Hreads & Hcool) Hs Hbefore s' Hrun. simpl in *.
  destruct (run_tick_ticked _ _ _ _ _ Hrun) as (new & outcome & [Hrows _ Hout]).
  rewrite Hrows. destruct Hout as [(ms & cs & He & Hsub & Hesc & _)|[-> _]].
  2:{ rewrite app_nil_r. auto. }
  assert (forall b, In b new -> Signal.detector b = @detector_name _ d /\ Signal.triggered_at b = at_) as Hst.
  { intros b Hb. apply (evaluate_stamped _ _ _ _ _ He).
    apply list_elem_of_In. eapply elem_of_sublist; [|exact Hsub]. by apply list_elem_of_In. }
  split.
  - apply ForallOrdPairs_snoc_all; [done| |].
    + apply NoDup_pools_spaced. eapply sublist_NoDup; [apply (evaluate_distinct _ _ _ _ Hreads He)|].
      by apply map_sublist.
    + intros a b Ha Hb Hna Hnb Hp. destruct (Hst b Hb) as [Hdb Htb].
      assert (@detector_name _ d = name) as Hname by congruence.
      apply (escalates_spaced s name window at_ a b); try done; [by apply Hbefore|].
      rewrite Forall_forall in Hesc. apply list_elem_of_In in Hb. apply Hesc in Hb.
      unfold tick_since in Hb. by rewrite Hcool, Hname in Hb.
  - intros r [Hr|Hr]%in_app_iff Hn; [by left|]. right. destruct (Hst r Hr). split; [congruence|done].
Qed.

Lemma run_ticks_spaced name window ticks : forall s,
  Forall (sound_tick name window) ticks -> StronglySorted Z.lt (tick_times name ticks) ->
  ForallOrdPairs (spaced name window) (Signals.rows s) ->
  (forall r, In r (Signals.rows s) -> Signal.detector r = name ->
    Forall (Z.lt (Signal.triggered_at r)) (tick_times name ticks)) ->
  ForallOrdPairs (spaced name window) (Signals.rows (run_ticks s ticks)).
Proof.
  induction ticks as [|[[d readings] at_] ticks IH]; intros s Hok Hsorted Hs Hbefore; simpl; [done|].
  apply Forall_cons_1 in Hok as [Hok1 Hok]. unfold tick_times in Hsorted, Hbefore. simpl in *.
  assert (StronglySorted Z.lt (tick_times name ticks)) as Hsorted'.
  { destruct (bool_decide _) in Hsorted; [by apply StronglySorted_inv in Hsorted as [? _]|done]. }
  assert (forall r, In r (Signals.rows s) -> Signal.detector r = name ->
    Forall (Z.lt (Signal.triggered_at r)) (tick_times name ticks)) as Hbefore'.
  { intros r Hr Hn. specialize (Hbefore r Hr Hn).
    destruct (bool_decide _) in Hbefore; [by apply Forall_cons_1 in Hbefore as [_ ?]|done]. }
  destruct (run_tick s d readings at_) as [s'|] eqn:Hrun; [|by apply IH].
  destruct (tick_spaced s name window d readings at_ Hok1 Hs) with (s' := s') as [Hs' Hnew]; [|done|].
  { intros Hname r Hr Hn. specialize (Hbefore r Hr Hn).
    rewrite (bool_decide_eq_true_2 _ Hname) in Hbefore. by apply Forall_cons_1 in Hbefore as [? _]. }
  apply IH; [done|done|done|]. intros r Hr Hn.
  destruct (Hnew r Hr Hn) as [Hold|[Hname Hat]]; [by apply Hbefore'|].
  rewrite (bool_decide_eq_true_2 _ Hname) in Hsorted. apply StronglySorted_inv in Hsorted as [_ Hlt].
  by rewrite Hat.
Qed.
End Engine.

(** ** The three detectors *)

Class DecimalTextLaws (D : Type) `{DecimalLaws D} `{!DecimalText D} : Prop := {
  dec_abs_val : forall d, (dec_val (dec_abs d) == Qabs (dec_val d))%Q;
}.

(** The detectors of the process, with what they measure of a signal's value
    and their two thresholds. *)
Inductive program_detector {D} `{!DecimalOps D} `{!DecimalText D} `{!DecimalFloat D} :
    SignalDetector D -> (D -> D) -> D -> D -> Prop :=
| is_flow_imbalance protocol settings :
    program_detector (FlowImbalance.detector protocol settings) dec_abs
      (FlowImbalance.threshold settings) (FlowImbalance.critical settings)
| is_tvl_drain protocol settings :
    program_detector (TvlDrain.detector protocol settings) (fun d => d)
      (TvlDrain.threshold settings) (TvlDrain.critical settings)
| is_price_oracle_deviation settings :
    program_detector (PriceOracleDeviation.detector settings) dec_abs
      (PriceOracleDeviation.threshold settings) (PriceOracleDeviation.critical settings).

(** A signal that says why it was raised. *)
Definition justified {D} `{DecimalLaws D} (magnitude threshold critical : D) (s : Signal.t D) : Prop :=
  (dec_val threshold <= dec_val magnitude)%Q /\
  ((Signal.severity s = Critical /\ Signal.threshold s = Some critical /\
    (dec_val critical <= dec_val magnitude)%Q) \/
   (Signal.severity s = Warning /\ Signal.threshold s = Some threshold /\
    (dec_val magnitude < dec_val critical)%Q)).

Lemma on_ladder_justified {D} `{DecimalLaws D} (magnitude threshold critical : D) s :
  on_ladder magnitude threshold critical s -> justified magnitude threshold critical s.
Proof.
  unfold on_ladder, justified, ladder, dec_ltb, dec_geb. rewrite !dec_cmp_val. intros [Ht Hl].
  split.
  - destruct (dec_val magnitude ?= dec_val threshold)%Q eqn:E; [| |]; try discriminate Ht.
    + apply Qeq_alt in E. rewrite E. apply Qle_refl.
    + apply Qgt_alt in E. by apply Qlt_le_weak.
  - destruct (dec_val magnitude ?= dec_val critical)%Q eqn:E; injection Hl as -> ->.
    + left. split_and!; [done|done|]. apply Qeq_alt in E. rewrite E. apply Qle_refl.
    + right. split_and!; [done|done|]. by apply Qlt_alt.
    + left. split_and!; [done|done|]. apply Qgt_alt in E. by apply Qlt_le_weak.
Qed.

(** A loop whose raised signals are justified. *)
Lemma evaluate_rows_account {D R} `{DecimalLaws D} (magnitude : D -> D) (threshold critical : D)
    name (read : RepositoryResult (list R)) (turn : R -> exec (Turn D)) ms signals :
  (forall row s, turn row = Done (Raise s) -> on_ladder (magnitude (Signal.value s)) threshold critical s) ->
  evaluate_rows name read turn = Done (ms, Ok signals) ->
  exists n reasons, ms = Considered name n :: map (Skipped name) reasons /\
    Z.of_nat (length signals) + Z.of_nat (length reasons) <= n /\
    Forall (fun s => justified (magnitude (Signal.value s)) threshold critical s) signals.
Proof.
  intros Ht (rows & turns & _ & Hf & -> & ->)%evaluate_rows_Done.
  exists (Z.of_nat (length rows)), (omap (fun t => match t with Skip r => Some r | _ => None end) turns).
  assert (omap (skipped name) turns =
    map (Skipped name) (omap (fun t => match t with Skip r => Some r | _ => None end) turns)) as Hs.
  { unfold omap. clear. induction turns as [|[] turns IH]; simpl; [done|by rewrite IH|done|done]. }
  split_and!; [by rewrite Hs| |].
  - apply Forall2_length in Hf. pose proof (turns_length name turns) as Hl.
    rewrite Hs, length_map in Hl. lia.
  - apply Forall_forall. intros s Hs'%list_elem_of_In.
    destruct (raised_in _ _ _ _ Hf Hs') as (row & _ & Hr). by apply on_ladder_justified, (Ht row).
Qed.

(** A detector raises only what it can justify and accounts for the rest:
    every signal's magnitude reached the threshold, it is critical exactly when
    it reached the critical one, and the threshold it records is the one it
    crossed; the pools handed over are counted, and those declined are counted
    with their reason, never more than there were. *)
Theorem detectors_account {D} `{DecimalLaws D} `{!DecimalText D} `{!DecimalFloat D}
    (d : SignalDetector D) (magnitude : D -> D) (threshold critical : D) (readings : Readings.t D)
    (at_ : DateTime) (ms : list DetectorMetric) (signals : list (Signal.t D)) :
  program_detector d magnitude threshold critical ->
  @evaluate _ d readings at_ = Done (ms, Ok signals) ->
  exists n reasons, ms = Considered (@detector_name _ d) n :: map (Skipped (@detector_name _ d)) reasons /\
    Z.of_nat (length signals) + Z.of_nat (length reasons) <= n /\
    Forall (fun s => Signal.detector s = @detector_name _ d /\ Signal.triggered_at s = at_ /\
      justified (magnitude (Signal.value s)) threshold critical s) signals.
Proof.
  intros Hp He. assert (DetectorLaws d) as Hlaws by (destruct Hp; apply _).
  assert (exists n reasons,
    ms = Considered (@detector_name _ d) n :: map (Skipped (@detector_name _ d)) reasons /\
    Z.of_nat (length signals) + Z.of_nat (length reasons) <= n /\
    Forall (fun s => justified (magnitude (Signal.value s)) threshold critical s) signals)
    as (n & reasons & Hms & Hn & Hj).
  { destruct Hp;
      [eapply (evaluate_rows_account dec_abs)|eapply (evaluate_rows_account (fun d => d))
      |eapply (evaluate_rows_account dec_abs)]; try exact He; intros row s Hr.
    - apply (flow_imbalance_raise _ _ _ _ _ Hr).
    - apply (tvl_drain_raise _ _ _ _ _ Hr).
    - apply (price_oracle_raise _ _ _ _ Hr). }
  exists n, reasons. split_and!; [done|done|]. apply Forall_forall. intros s Hs.
  rewrite Forall_forall in Hj. specialize (Hj s Hs). apply list_elem_of_In in Hs.
  by destruct (evaluate_stamped _ _ _ _ _ He Hs).
Qed.

(** C25: the engine keeps a pool's cooldown: whatever the other detectors do in
    between and whatever statements fail, two signals of one detector about one
    pool are stored at least its cooldown apart, unless the later one is more
    severe. The detector's ticks come at increasing instants, and its reads
    hand each pool over once. *)
Theorem engine_keeps_cooldown {D} `{Postgres} `{DistinctOnLaws D} (name : string) (window : TimeDelta)
    (ticks : list (SignalDetector D * Readings.t D * DateTime)) :
  Forall (sound_tick name window) ticks -> StronglySorted Z.lt (tick_times name ticks) ->
  ForallOrdPairs (spaced name window) (Signals.rows (run_ticks (Signals.mk [] 0 [] []) ticks)).
Proof.
  intros Hok Hsorted. apply run_ticks_spaced; [done|done|constructor|done].
Qed.

(** A tick never drops a candidate silently: it ends under one outcome,
    counted once. Under "ok" or "suppressed" every candidate is answered for,
    stored or below a signal of its pool within the cooldown that is at least
    as severe, and only signals above their pool's last one are stored; under a
    failure nothing is stored. *)
Theorem engine_answers_candidates {D} `{Postgres} `{DistinctOnLaws D} (s : Signals.t D)
    (d : SignalDetector D) (readings : Readings.t D) (at_ : DateTime) (s' : Signals.t D) :
  run_tick s d readings at_ = Done s' -> exists new outcome, ticked s d readings at_ s' new outcome.
Proof. apply run_tick_ticked. Qed.

(** ** Witnesses: rationals for decimals *)

#[global] Instance Q_DecimalText : DecimalText Q := {
  dec_abs := Qabs;
  dec_to_string q := (pretty.pretty (Qnum q) ++ "/" ++ pretty.pretty (QDen q))%string;
  round_dp q n := Qred (inject_Z (Qnum q * 10 ^ n / QDen q) / inject_Z (10 ^ n));
  round_sf q _ := Some q;
  normalize := Qred;
}.

#[global] Instance Q_DecimalTextLaws : DecimalTextLaws Q.
Proof. split. intros d. apply Qeq_refl. Qed.

(** The value of a finite float, and powers by repeated multiplication. *)
#[global] Instance Q_DecimalFloat : DecimalFloat Q := {
  from_f64_retain f :=
    match f with
    | S754_zero _ => Some 0%Q
    | S754_finite s m e =>
        Some (Qred ((if s then -1 else 1) * inject_Z (Z.pos m) * Qpower 2 e))%Q
    | _ => None
    end;
  powi f n :=
    let p := Nat.iter (Z.to_nat (Z.abs n)) (PriceOracleDeviation.f64_mul f) (PriceOracleDeviation.f64_of_Z 1) in
    if n <? 0 then PriceOracleDeviation.f64_div (PriceOracleDeviation.f64_of_Z 1) p else p;
}.

(** The last of the latest rows. *)
Definition latest_of {D} (l : list (Signal.t D)) : option (Signal.t D) :=
  foldl (fun best s =>
    match best with
    | Some b => if Signal.triggered_at s <? Signal.triggered_at b then Some b else Some s
    | None => Some s
    end) None l.

#[global] Instance Q_DistinctOn : DistinctOn Q := { most_recent := latest_of }.

Lemma latest_of_snoc {D} (l : list (Signal.t D)) s :
  latest_of (l ++ [s]) =
    match latest_of l with
    | Some b => if Signal.triggered_at s <? Signal.triggered_at b then Some b else Some s
    | None => Some s
    end.
Proof. unfold latest_of. by rewrite foldl_app. Qed.

#[global] Instance Q_DistinctOnLaws : DistinctOnLaws Q.
Proof.
  split; [done|]. simpl. intros l. induction l as [|s l IH] using rev_ind; [done|]. intros _.
  rewrite latest_of_snoc. destruct (decide (l = [])) as [->|Hl].
  { exists s. split_and!; [done|by left|]. intros s' [<-|[]]. lia. }
  destruct (IH Hl) as (b & -> & Hin & Hmax).
  destruct (Z.ltb_spec (Signal.triggered_at s) (Signal.triggered_at b)); eexists;
    (split_and!; [done|rewrite in_app_iff; simpl; tauto|]);
    intros s' [Hs'|[<-|[]]]%in_app_iff; try apply Hmax in Hs'; lia.
Qed.

(** A detector of flow, at 0.3 and 0.9, with a cooldown of six hours, and two
    pools: one whose flow is given, one that cannot be valued. *)
Definition flow_settings : FlowImbalance.Settings Q :=
  FlowImbalance.mkSettings (24 * 3600 * 10 ^ 9) (6 * 3600 * 10 ^ 9) 1000%Q (3 # 10)%Q (9 # 10)%Q.

Definition flow_detector : SignalDetector Q := FlowImbalance.detector MeteoraDammV2 flow_settings.

Definition flows (a_to_b b_to_a : Q) : Readings.t Q := {|
  Readings.directional_volume_since _ _ :=
    Ok [PoolSwapFlow.mk [1] (Some a_to_b) (Some b_to_a); PoolSwapFlow.mk [2] None None];
  Readings.liquidity_flow_since _ := Ok [];
  Readings.latest _ := Ok [];
|}.

Lemma flows_distinct a b : distinct_reads (flows a b).
Proof.
  split_and!; simpl; intros; [|by injection H as <-; constructor..].
  injection H as <-. apply (bool_decide_unpack _). vm_compute. exact I.
Qed.

Lemma detectors_account_witness :
  exists ms s, @evaluate _ flow_detector (flows 7000 3000) 0 = Done (ms, Ok [s]) /\
    Signal.severity s = Warning /\ justified (Qabs (Signal.value s)) (3 # 10) (9 # 10) s /\
    exists n reasons, ms = Considered DETECTOR_FLOW_IMBALANCE n ::
      map (Skipped DETECTOR_FLOW_IMBALANCE) reasons.
Proof.
  eexists _, _. split; [vm_compute; reflexivity|]. split; [done|].
  destruct (@detectors_account Q _ _ _ _ flow_detector Qabs (3 # 10) (9 # 10) (flows 7000 3000) 0 _ _
    (is_flow_imbalance MeteoraDammV2 flow_settings) eq_refl) as (n & reasons & Hms & _ & Hs).
  apply Forall_cons_1 in Hs as [(_ & _ & Hj) _]. split; [exact Hj|]. exists n, reasons. exact Hms.
Defined.

(** Ticks every hour: a warning, the same again, then a critical one. *)
Definition hourly_ticks : list (SignalDetector Q * Readings.t Q * DateTime) :=
  [(flow_detector, flows 7000 3000, 3600 * 10 ^ 9);
   (flow_detector, flows 8000 2000, 7200 * 10 ^ 9);
   (flow_detector, flows 9900 100, 10800 * 10 ^ 9)].

Definition calm_postgres : Postgres := {| fault _ := None; db_now n := Z.of_nat n |}.

Lemma engine_keeps_cooldown_witness :
  let rows := Signals.rows (@run_ticks Q calm_postgres _ (Signals.mk [] 0 [] []) hourly_ticks) in
  map Signal.severity rows = [Warning; Critical] /\
  ForallOrdPairs (spaced DETECTOR_FLOW_IMBALANCE (6 * 3600 * 10 ^ 9)) rows.
Proof.
  split; [vm_compute; reflexivity|].
  apply (@engine_keeps_cooldown Q calm_postgres _ _).
  - apply Forall_forall. intros t Ht.
    assert (exists a b at_, t = (flow_detector, flows a b, at_)) as (a & b & at_ & ->).
    { repeat (apply elem_of_cons in Ht as [->|Ht]; [by eexists _, _, _|]). by apply elem_of_nil in Ht. }
    split; [apply flow_imbalance_laws|]. split; [apply flows_distinct|done].
  - vm_compute. repeat constructor.
Defined.

Lemma engine_answers_candidates_witness :
  exists s', @run_tick Q calm_postgres _ (Signals.mk [] 0 [] []) flow_detector (flows 7000 3000) 0 =
      Done s' /\ length (Signals.rows s') = 1%nat /\
    exists outcome,
      @ticked Q _ (Signals.mk [] 0 [] []) flow_detector (flows 7000 3000) 0 s' (Signals.rows s') outcome.
Proof.
  eexists. split; [vm_compute; reflexivity|]. split; [reflexivity|].
  edestruct (@engine_answers_candidates Q calm_postgres _ _ (Signals.mk [] 0 [] []) flow_detector
    (flows 7000 3000) 0) as (new & outcome & Ht); [vm_compute; reflexivity|].
  pose proof (ticked_rows _ _ _ _ _ _ _ Ht) as Hrows. simpl in Hrows. subst new.
  exists outcome. exact Ht.
Defined.
