(* ===== verification/Worker.v ===== *)
(** * The indexer worker

    [src/crates/indexer/src/application/workers/indexer.rs]: the receive loop,
    the permits, the detached indexing tasks and the two stops, as a transition
    system. A task is run an event at a time, so the tasks in flight interleave
    on one store; the environment sends, closes the channel and cancels. The
    channel's own bound, which only delays a sender, is left out. *)

From S2P Require Import Prelude Errors External Domain WireEvents Extractor Translator Extraction Reference.
From S2P Require Import FeeParameters GrpcAdapter SlotBuffer Session Store Persist PersistFacts ProjectionFacts.

(** ** A task: [index_one], from its permit to the drop of it *)

Module Task.
Record t : Type := mk {
  ingested : IngestedTransaction.t;
  todo : option (list DomainEvent.t * string);  (** the events left, and the exit; [None] before it starts *)
}.
End Task.

Inductive Phase : Type :=
| Receiving
| Acquiring (ingested : IngestedTransaction.t)   (** [dispatch_one], waiting for a permit *)
| AwaitingInFlight
| Returned.

Module IndexerWorker.
Record t : Type := mk {
  store : Indexer.t;
  queue : list IngestedTransaction.t;
  closed : bool;
  cancelled : bool;
  phase : Phase;
  permits : nat;
  tasks : list Task.t;
  dropped : list (IngestedTransaction.t * string);
  sent : list IngestedTransaction.t;             (** everything delivered so far *)
  indexed : list IngestedTransaction.t;          (** everything whose task ended *)
  lost : list IngestedTransaction.t;             (** what died with the receiver, uncounted *)
}.

Definition new (store : Indexer.t) (max_concurrent : nat) : t :=
  mk store [] false false Receiving max_concurrent [] [] [] [] [].

Definition set_queue (w : t) (q : list IngestedTransaction.t) (p : Phase) : t :=
  mk (store w) q (closed w) (cancelled w) p (permits w) (tasks w) (dropped w) (sent w) (indexed w) (lost w).
Definition set_phase (w : t) (p : Phase) : t := set_queue w (queue w) p.
Definition set_tasks (w : t) (s : Indexer.t) (ts : list Task.t) : t :=
  mk s (queue w) (closed w) (cancelled w) (phase w) (permits w) ts (dropped w) (sent w) (indexed w) (lost w).

(** What the environment does. *)
Definition send (w : t) (i : IngestedTransaction.t) : t :=
  mk (store w) (queue w ++ [i]) (closed w) (cancelled w) (phase w) (permits w) (tasks w) (dropped w)
    (sent w ++ [i]) (indexed w) (lost w).
Definition close (w : t) : t :=
  mk (store w) (queue w) true (cancelled w) (phase w) (permits w) (tasks w) (dropped w) (sent w)
    (indexed w) (lost w).
Definition cancel (w : t) : t :=
  mk (store w) (queue w) (closed w) true (phase w) (permits w) (tasks w) (dropped w) (sent w)
    (indexed w) (lost w).

Definition drop (w : t) (gone : list IngestedTransaction.t) (reason : string) : t :=
  mk (store w) (queue w) (closed w) (cancelled w) (phase w) (permits w) (tasks w)
    (dropped w ++ map (fun i => (i, reason)) gone) (sent w) (indexed w) (lost w).

(** [drain_and_count]: every message still queued, counted and dropped. A source
    may still be sending. *)
Definition drain_and_count (w : t) : t :=
  set_queue (drop w (queue w) "shutdown_queued") [] (phase w).

(** The worker returned, its receiver is dropped with what the channel holds. *)
Definition return_ (w : t) : t :=
  mk (store w) [] (closed w) (cancelled w) Returned (permits w) (tasks w) (dropped w) (sent w) (indexed w)
    (lost w ++ queue w).

Section Tasks.
Context `{Postgres} `{Clock} `{Borsh} `{Sha256} `{Base58}.

(** [process_transaction] up to its first event: the events left to persist,
    and the outcome the exit will carry. *)
Definition begin_transaction (s : Indexer.t) (protocol : Protocol) (tx : OnChainTransaction.t) :
    Indexer.t * (list DomainEvent.t * string) :=
  let s := Indexer.record s (Entered protocol) in
  match extract protocol tx with
  | Err _ => (s, ([], "extract_failure"))
  | Ok outcome =>
    let s := report_diagnostics s protocol outcome in
    match ExtractionOutcome.events outcome with
    | [] => (Indexer.record s (NoMatch protocol), ([], "no_events"))
    | events => (s, (events, "ok"))
    end
  end.

Definition end_transaction (s : Indexer.t) (protocol : Protocol) (exit : string) : Indexer.t :=
  Indexer.record s (Exited protocol exit).

(** The spawned task is its own: nothing is begun until it is polled. *)
Definition spawn (w : t) (i : IngestedTransaction.t) (permits : nat) : t :=
  mk (store w) (queue w) (closed w) (cancelled w) Receiving permits (tasks w ++ [Task.mk i None])
    (dropped w) (sent w) (indexed w) (lost w).

(** The end of a task: its exit recorded, its permit given back. *)
Definition finish (w : t) (i : IngestedTransaction.t) (exit : string) (ts : list Task.t) : t :=
  mk (end_transaction (store w) (IngestedTransaction.protocol i) exit) (queue w) (closed w)
    (cancelled w) (phase w) (S (permits w)) ts (dropped w) (sent w) (indexed w ++ [i]) (lost w).

(** A step of the worker or of one of its tasks. Both [select!]s are [biased]:
    a requested stop comes before a message and before a permit. *)
Inductive own_step (max_concurrent : nat) (w : t) : t -> Prop :=
| stop_on_shutdown :
    phase w = Receiving -> cancelled w = true ->
    own_step max_concurrent w (set_phase (drain_and_count w) AwaitingInFlight)
| stop_on_close :
    phase w = Receiving -> cancelled w = false -> queue w = [] -> closed w = true ->
    own_step max_concurrent w (set_phase w AwaitingInFlight)
| receive i q :
    phase w = Receiving -> cancelled w = false -> queue w = i :: q ->
    own_step max_concurrent w (set_queue w q (Acquiring i))
| drop_waiting i :
    phase w = Acquiring i -> cancelled w = true ->
    own_step max_concurrent w (set_phase (drop w [i] "shutdown") Receiving)
| dispatch i n :
    phase w = Acquiring i -> cancelled w = false -> permits w = S n ->
    own_step max_concurrent w (spawn w i n)
| task_begin i before after s todo :
    tasks w = before ++ Task.mk i None :: after ->
    begin_transaction (store w) (IngestedTransaction.protocol i) (IngestedTransaction.transaction i) =
      (s, todo) ->
    own_step max_concurrent w (set_tasks w s (before ++ Task.mk i (Some todo) :: after))
| task_event i e es exit before after :
    tasks w = before ++ Task.mk i (Some (e :: es, exit)) :: after ->
    own_step max_concurrent w
      (set_tasks w (persist (store w) e) (before ++ Task.mk i (Some (es, exit)) :: after))
| task_end i exit before after :
    tasks w = before ++ Task.mk i (Some ([], exit)) :: after ->
    own_step max_concurrent w (finish w i exit (before ++ after))
| all_permits_back :
    phase w = AwaitingInFlight -> permits w = max_concurrent ->
    own_step max_concurrent w (return_ w).

(** A send to a worker that returned is refused: the receiver is gone. *)
Inductive env_step (w : t) : t -> Prop :=
| env_send i : closed w = false -> phase w <> Returned -> env_step w (send w i)
| env_close : env_step w (close w)
| env_cancel : env_step w (cancel w).

Definition step (max_concurrent : nat) (w w' : t) : Prop :=
  env_step w w' \/ own_step max_concurrent w w'.

Definition reachable (s : Indexer.t) (max_concurrent : nat) (w : t) : Prop :=
  rtc (step max_concurrent) (new s max_concurrent) w.
End Tasks.
End IndexerWorker.

(** ** What the indexer worker guarantees

    Whatever the interleaving of its tasks, the worker keeps its bound, accounts
    for every delivered transaction and keeps the invariants of the store; once
    it is stopped or its channel closed, it always comes to an end. *)

Import IndexerWorker.

Section Worker.
Context `{Postgres} `{Clock} `{Borsh} `{Sha256} `{Base58}.
Implicit Types (w : IndexerWorker.t) (i : IngestedTransaction.t).

(** Run without interleaving, a task is [process_transaction]. *)
Lemma task_is_process_transaction s p tx :
  let '(s1, (es, exit)) := begin_transaction s p tx in
  end_transaction (foldl persist s1 es) p exit = (process_transaction s p tx).1.
Proof.
  unfold begin_transaction, end_transaction, process_transaction.
  destruct (extract p tx) as [out|e]; [|done]. by destruct (ExtractionOutcome.events out).
Qed.

(** ** The store *)

(** The invariants of the tables, kept by every statement of every task. *)
Definition store_ok (s : Indexer.t) : Prop :=
  distinct (Db.events (Indexer.db s)) /\ backed (Indexer.db s).

Lemma record_ok s m : store_ok s -> store_ok (Indexer.record s m).
Proof. done. Qed.

Lemma begin_ok s p tx s' todo :
  begin_transaction s p tx = (s', todo) -> store_ok s -> store_ok s'.
Proof.
  unfold begin_transaction. destruct (extract p tx) as [out|e]; [|by intros [= <- _]].
  rewrite report_diagnostics_eq. by destruct (ExtractionOutcome.events out); intros [= <- _].
Qed.

Lemma persist_ok s e : store_ok s -> store_ok (persist s e).
Proof.
  intros [Hd Hb]. split; [|by apply persist_backed].
  destruct (persist_accounts s e) as (new & ms & A & _). by apply (accounts_distinct _ _ _ _ _ A).
Qed.

(** ** The account *)

Definition waiting (p : Phase) : list IngestedTransaction.t :=
  match p with Acquiring i => [i] | _ => [] end.

Record sound (max : nat) w : Prop := {
  sound_store : store_ok (store w);
  sound_permits : (length (tasks w) + permits w)%nat = max;
  sound_sent : sent w ≡ₚ queue w ++ waiting (phase w) ++ map Task.ingested (tasks w) ++ indexed w ++
    map fst (dropped w) ++ lost w;
  sound_dropped : cancelled w = false -> dropped w = [];
  sound_lost : phase w <> Returned \/ cancelled w = false -> lost w = [];
  sound_stopping : cancelled w = false -> phase w = AwaitingInFlight \/ phase w = Returned ->
    closed w = true /\ queue w = [];
  sound_returned : phase w = Returned -> tasks w = [] /\ queue w = [];
}.

Lemma new_sound s max : store_ok s -> sound max (IndexerWorker.new s max).
Proof. intros Hs. split; try done. by intros _ []. Qed.

Lemma env_step_sound max w w' : sound max w -> env_step w w' -> sound max w'.
Proof.
  intros [] Hs. destruct Hs as [i Hc Hp| |]; split; simpl; try done.
  - rewrite sound_sent0. solve_Permutation.
  - intros Hn Hph. destruct (sound_stopping0 Hn Hph). congruence.
  - intros Hn Hph. by destruct (sound_stopping0 Hn Hph).
  - intros [Hp|Hc]; [|done]. apply sound_lost0. by left.
Qed.

(** Moves one element of a list of tasks. *)
Lemma map_ingested_replace before (t t' : Task.t) after :
  Task.ingested t = Task.ingested t' ->
  map Task.ingested (before ++ t :: after) = map Task.ingested (before ++ t' :: after).
Proof. intros Ht. rewrite !map_app. simpl. by rewrite Ht. Qed.

Lemma tasks_replaced_sound max w s before t t' after :
  sound max w -> tasks w = before ++ t :: after -> Task.ingested t = Task.ingested t' ->
  store_ok s -> sound max (set_tasks w s (before ++ t' :: after)).
Proof.
  intros [] Ht Hi Hs. rewrite Ht in *. split; simpl; try done.
  - rewrite length_app in *. simpl in *. lia.
  - by rewrite sound_sent0, (map_ingested_replace _ _ _ _ Hi).
  - intros Hp. apply sound_returned0 in Hp as [? _]. by destruct before.
Qed.

(** In no phase but the last is anything lost. *)
Lemma not_returned max w : sound max w -> phase w <> Returned -> lost w = [].
Proof. intros Hw Hp. apply (sound_lost _ _ Hw). by left. Qed.

Lemma own_step_sound max w w' : sound max w -> own_step max w w' -> sound max w'.
Proof.
  intros Hw Hs. pose proof (not_returned _ _ Hw) as Hl. destruct Hs as
    [Hp Hc|Hp Hc Hq Hcl|i q Hp Hc Hq|i Hp Hc|i n Hp Hc Hn|i before after s todo Ht Hb
    |i e es exit before after Ht|i exit before after Ht|Hp Hn].
  all: try specialize (Hl ltac:(by rewrite Hp)).
  - destruct Hw. split; simpl; try done; [|congruence..].
    rewrite sound_sent0, Hp, map_app, map_map. simpl. rewrite map_id. solve_Permutation.
  - destruct Hw. split; simpl; try done. by rewrite sound_sent0, Hp.
  - destruct Hw. split; simpl; try done; [|by intros _ []].
    rewrite sound_sent0, Hp, Hq. simpl. solve_Permutation.
  - destruct Hw. split; simpl; try done; [|congruence..].
    rewrite sound_sent0, Hp, map_app. simpl. solve_Permutation.
  - destruct Hw. split; simpl; try done; [| |by intros _ []].
    + rewrite length_app. simpl. lia.
    + rewrite sound_sent0, Hp, map_app. simpl. solve_Permutation.
  - eapply tasks_replaced_sound; [done|exact Ht|done|]. eapply begin_ok; [exact Hb|apply Hw].
  - eapply tasks_replaced_sound; [done|exact Ht|done|]. apply persist_ok, Hw.
  - destruct Hw. rewrite Ht in *. split; simpl; try done.
    + rewrite length_app in *. simpl in *. lia.
    + rewrite sound_sent0, !map_app. simpl. solve_Permutation.
    + intros Hp. apply sound_returned0 in Hp as [? _]. by destruct before.
  - destruct Hw. split; simpl; try done.
    + rewrite sound_sent0, Hp. simpl. solve_Permutation.
    + intros [|Hc]; [done|]. destruct (sound_stopping0 Hc (or_introl Hp)) as [_ ->]. by rewrite Hl.
    + intros Hc _. split; [|done]. apply sound_stopping0; [done|by left].
    + intros _. split; [|done]. apply length_zero_iff_nil. lia.
Qed.

Lemma reachable_sound s max w : store_ok s -> reachable s max w -> sound max w.
Proof.
  intros Hs Hr. unfold reachable in Hr. remember (IndexerWorker.new s max) as w0 eqn:Hw0.
  assert (sound max w0) as H0' by (subst; by apply new_sound). clear Hw0.
  induction Hr as [|w0 w1 w2 [Hst|Hst] _ IH]; [done| |]; apply IH;
    [by eapply env_step_sound|by eapply own_step_sound].
Qed.

(** ** Coming to an end *)

(** The events a transaction holds, whatever the state of the store. *)
Definition event_count i : nat :=
  match extract (IngestedTransaction.protocol i) (IngestedTransaction.transaction i) with
  | Ok out => length (ExtractionOutcome.events out)
  | Err _ => 0
  end.

Lemma begin_count s i s' es exit :
  begin_transaction s (IngestedTransaction.protocol i) (IngestedTransaction.transaction i) =
    (s', (es, exit)) -> (length es <= event_count i)%nat.
Proof.
  unfold begin_transaction, event_count. destruct (extract _ _) as [out|e]; [|intros [= _ <- _]; simpl; lia].
  destruct (ExtractionOutcome.events out); intros [= _ <- _]; simpl; lia.
Qed.

Definition task_work (t : Task.t) : nat :=
  match Task.todo t with
  | None => event_count (Task.ingested t) + 2
  | Some (es, _) => length es + 1
  end.
Lemma task_work_new i : task_work (Task.mk i None) = (event_count i + 2)%nat.
Proof. done. Qed.
Lemma task_work_begun i es exit : task_work (Task.mk i (Some (es, exit))) = (length es + 1)%nat.
Proof. done. Qed.

Definition phase_work (p : Phase) : nat :=
  match p with
  | Receiving => 2
  | Acquiring i => event_count i + 5
  | AwaitingInFlight => 1
  | Returned => 0
  end.
(** What the worker still has to do if nothing more is delivered. *)
Definition work w : nat :=
  sum_list_with (fun i => event_count i + 4)%nat (queue w) + phase_work (phase w) +
  sum_list_with task_work (tasks w).

Lemma own_step_work max w w' : own_step max w w' -> (work w' < work w)%nat.
Proof.
  intros Hs. destruct Hs as
    [Hp Hc|Hp Hc Hq Hcl|i q Hp Hc Hq|i Hp Hc|i n Hp Hc Hn|i before after s [es exit] Ht Hb
    |i e es exit before after Ht|i exit before after Ht|Hp Hn];
    unfold work; simpl; rewrite ?Hp, ?Hq, ?Ht, ?sum_list_with_app; simpl; try lia.
  - rewrite task_work_new. lia.
  - apply begin_count in Hb. rewrite task_work_new, task_work_begun. lia.
  - rewrite task_work_begun. lia.
Qed.

Lemma own_step_acc max w : Acc (fun a b => own_step max b a) w.
Proof.
  remember (work w) as n eqn:Hn. revert w Hn. induction n as [n IH] using lt_wf_ind.
  intros w ->. constructor. intros w' Hs. eapply IH; [exact (own_step_work _ _ _ Hs)|done].
Qed.

(** A worker told to stop is never stuck before it returned. *)
Lemma stopping_progress max w :
  sound max w -> (0 < max)%nat -> cancelled w = true \/ closed w = true ->
  phase w = Returned \/ exists w', own_step max w w'.
Proof.
  intros [] Hmax Hstop.
  destruct (tasks w) as [|[i [[[|e es] exit]|]] ts] eqn:Ht.
  - destruct (phase w) as [|i| |] eqn:Hp; [| | |by left]; right.
    + destruct (cancelled w) eqn:Hc; [by eexists; eapply stop_on_shutdown|].
      destruct Hstop as [|Hcl]; [done|]. destruct (queue w) as [|i q] eqn:Hq;
        [by eexists; eapply stop_on_close|by eexists; eapply receive].
    + destruct (cancelled w) eqn:Hc; [by eexists; eapply drop_waiting|].
      simpl in sound_permits0. destruct (permits w) as [|n] eqn:Hn; [lia|].
      by eexists; eapply dispatch.
    + eexists. eapply all_permits_back; [done|]. simpl in *. lia.
  - right. eexists. by eapply (task_end _ _ i exit []).
  - right. eexists. by eapply (task_event _ _ i e es exit []).
  - right. destruct (begin_transaction (store w) (IngestedTransaction.protocol i)
      (IngestedTransaction.transaction i)) as [s todo] eqn:Hb.
    eexists. by eapply (task_begin _ _ i []).
Qed.
End Worker.

(** Past the drain nothing is received: what is sent stays in the channel, and
    dies with it. *)
Definition past_drain (w : IndexerWorker.t) : Prop := phase w = AwaitingInFlight \/ phase w = Returned.

Lemma step_past_drain `{Postgres} `{Clock} `{Borsh} `{Sha256} `{Base58} max (w w' : IndexerWorker.t) :
  past_drain w -> step max w w' ->
  past_drain w' /\ exists more, sent w' = sent w ++ more /\ lost w' ++ queue w' = lost w ++ queue w ++ more.
Proof.
  intros Hw [[i Hc Hp| |]|Hs].
  - split; [exact Hw|]. by exists [i].
  - split; [exact Hw|]. exists []. by rewrite !app_nil_r.
  - split; [exact Hw|]. exists []. by rewrite !app_nil_r.
  - destruct Hw as [Hp|Hp]; destruct Hs; try congruence;
      (split; [by first [left; exact Hp|right; exact Hp|right]|]);
      exists []; simpl; by rewrite ?app_nil_r, ?app_assoc.
Qed.

Lemma steps_past_drain `{Postgres} `{Clock} `{Borsh} `{Sha256} `{Base58} max (w w' : IndexerWorker.t) :
  past_drain w -> rtc (step max) w w' ->
  exists more, sent w' = sent w ++ more /\ lost w' ++ queue w' = lost w ++ queue w ++ more.
Proof.
  intros Hw Hr. induction Hr as [w|w w1 w2 Hs _ IH]; [exists []; by rewrite !app_nil_r|].
  destruct (step_past_drain _ _ _ Hw Hs) as (Hw1 & more & Hm & Hl). destruct (IH Hw1) as (more' & Hm' & Hl').
  exists (more ++ more'). rewrite Hm', Hm, Hl', (app_assoc (lost w1)), Hl, !app_assoc. done.
Qed.

(** C22: the worker accounts for every delivered transaction, whatever the
    interleaving of its tasks and the statements that fail. At most
    [max_concurrent] tasks are in flight, and none when it has returned; each
    delivered transaction is queued, waiting for a permit, in flight, indexed,
    counted as dropped, or lost: in the channel when the worker returned, which
    drops the receiver. Lost, uncounted, are those sent after the shutdown
    drained the channel, all of them and no other. Without a shutdown nothing is
    dropped or lost, and a worker that returned because its channel closed has
    indexed all it was sent. Every table keeps its unique key, and the projection
    only shows stored events. *)
Theorem worker_accounts `{Postgres} `{Clock} `{Borsh} `{Sha256} `{Base58} (metrics : list IndexMetric)
    (max_concurrent : nat) (w : IndexerWorker.t) :
  reachable (Indexer.mk Db.empty metrics) max_concurrent w ->
  sound max_concurrent w /\ (length (tasks w) <= max_concurrent)%nat /\
  (phase w = Returned -> cancelled w = false -> indexed w ≡ₚ sent w) /\
  (phase w = Receiving -> cancelled w = true -> forall w',
    rtc (step max_concurrent) (set_phase (drain_and_count w) AwaitingInFlight) w' ->
    exists more, sent w' = sent w ++ more /\ lost w' ++ queue w' = more /\
      (phase w' = Returned -> lost w' = more)).
Proof.
  intros Hr. assert (forall w', reachable (Indexer.mk Db.empty metrics) max_concurrent w' -> sound max_concurrent w') as Hall.
  { intros w' Hr'. eapply reachable_sound; [|exact Hr']. split; [constructor|by intros ? ? ?]. }
  pose proof (Hall _ Hr) as Hw. split; [done|]. split_and!.
  - destruct Hw. lia.
  - intros Hp Hc. destruct Hw. destruct (sound_stopping0 Hc (or_intror Hp)) as [_ Hq].
    rewrite sound_sent0, Hp, Hq, (proj1 (sound_returned0 Hp)), (sound_dropped0 Hc), (sound_lost0 (or_intror Hc)). simpl.
    by rewrite app_nil_r.
  - intros Hp Hc w' Hs. destruct (steps_past_drain _ _ _ (or_introl eq_refl : past_drain (set_phase (drain_and_count w) AwaitingInFlight)) Hs)
      as (more & Hm & Hl).
    assert (lost w = []) as Hn by (apply (not_returned _ _ Hw); by rewrite Hp).
    cbn in Hm, Hl. rewrite Hn in Hl. cbn in Hl. exists more. split_and!; [exact Hm|exact Hl|]. intros Hp'. rewrite <-Hl.
    assert (sound max_concurrent w') as Hw'.
    { apply Hall. unfold reachable. etrans; [exact Hr|]. eapply rtc_l; [right; by apply stop_on_shutdown|exact Hs]. }
    by rewrite (proj2 (sound_returned _ _ Hw' Hp')), app_nil_r.
Qed.

(** C30: a stop always ends: once a shutdown is requested or every sender is
    gone, the worker and its tasks cannot run forever on their own, and they are
    never stuck before the worker returned, so every run of them ends with the
    worker returned and nothing in flight. *)
Theorem worker_stops `{Postgres} `{Clock} `{Borsh} `{Sha256} `{Base58} (metrics : list IndexMetric)
    (max_concurrent : nat) (w : IndexerWorker.t) :
  (0 < max_concurrent)%nat -> reachable (Indexer.mk Db.empty metrics) max_concurrent w ->
  cancelled w = true \/ closed w = true ->
  Acc (fun a b => own_step max_concurrent b a) w /\
  forall w', rtc (own_step max_concurrent) w w' ->
    (phase w' = Returned /\ tasks w' = []) \/ exists w'', own_step max_concurrent w' w''.
Proof.
  intros Hmax Hr Hstop. split; [apply own_step_acc|]. intros w' Hown.
  assert (sound max_concurrent w') as Hw'.
  { eapply reachable_sound; [|unfold reachable in *; etrans; [exact Hr|]].
    - split; [constructor|by intros ? ? ?].
    - eapply rtc_subrel; [|exact Hown]. intros a b Hab. by right. }
  assert (cancelled w' = true \/ closed w' = true) as Hstop'.
  { clear -Hstop Hown. induction Hown as [|w0 w1 w2 Hs _ IH]; [done|]. apply IH. by destruct Hs. }
  destruct (stopping_progress _ _ Hw' Hmax Hstop') as [Hp|Hn]; [|by right].
  left. split; [done|]. exact (proj1 (sound_returned _ _ Hw' Hp)).
Qed.

(** ** A run: one transaction delivered, the channel closed, the worker returned *)

Definition quiet_transaction : IngestedTransaction.t :=
  IngestedTransaction.mk MeteoraDlmm reference_transaction.

Definition one_sent : IndexerWorker.t :=
  close (send (IndexerWorker.new (Indexer.mk Db.empty []) 2) quiet_transaction).

Definition one_begun : Indexer.t :=
  Indexer.mk Db.empty [Entered MeteoraDlmm; NoMatch MeteoraDlmm].

Definition one_indexed : IndexerWorker.t :=
  finish
    (set_tasks (spawn (set_queue one_sent [] (Acquiring quiet_transaction)) quiet_transaction 1)
      one_begun [Task.mk quiet_transaction (Some ([], "no_events"))])
    quiet_transaction "no_events" [].

Lemma one_sent_reachable :
  @reachable failing_postgres ticking_clock _ _ _ (Indexer.mk Db.empty []) 2 one_sent.
Proof.
  eapply rtc_l; [left; by apply (env_send _ quiet_transaction)|].
  eapply rtc_l; [left; apply env_close|]. apply rtc_refl.
Qed.

Lemma one_indexed_reachable :
  @reachable failing_postgres ticking_clock _ _ _ (Indexer.mk Db.empty []) 2
    (return_ (set_phase one_indexed AwaitingInFlight)).
Proof.
  unfold reachable. etrans; [apply one_sent_reachable|].
  eapply rtc_l; [right; by eapply (receive 2 one_sent quiet_transaction [])|].
  eapply rtc_l; [right; by eapply (dispatch 2 _ quiet_transaction 1)|].
  eapply rtc_l.
  { right. by eapply (task_begin 2 _ quiet_transaction [] [] one_begun ([], "no_events"%string)). }
  eapply rtc_l; [right; by eapply (task_end 2 _ quiet_transaction "no_events" [] [])|].
  eapply rtc_l; [right; by eapply stop_on_close|].
  eapply rtc_l; [right; by eapply all_permits_back|]. apply rtc_refl.
Qed.

(** A shutdown that comes first: what is sent between the drain and the return
    is lost. *)
Definition stopped : IndexerWorker.t := cancel (IndexerWorker.new (Indexer.mk Db.empty []) 2).
Definition sent_too_late : IndexerWorker.t :=
  return_ (send (set_phase (drain_and_count stopped) AwaitingInFlight) quiet_transaction).

Lemma stopped_reachable :
  @reachable failing_postgres ticking_clock _ _ _ (Indexer.mk Db.empty []) 2 stopped.
Proof. eapply rtc_l; [left; apply env_cancel|apply rtc_refl]. Qed.

Lemma worker_accounts_witness :
  (let w := return_ (set_phase one_indexed AwaitingInFlight) in
   phase w = Returned /\ sent w = [quiet_transaction] /\ indexed w ≡ₚ sent w) /\
  lost sent_too_late = [quiet_transaction] /\
  exists more, sent sent_too_late = sent stopped ++ more /\ lost sent_too_late = more.
Proof.
  split; [|split; [reflexivity|]].
  - split; [reflexivity|]. split; [reflexivity|].
    destruct (@worker_accounts failing_postgres ticking_clock _ _ _ [] 2 _ one_indexed_reachable) as (_ & _ & Hi & _).
    apply Hi; reflexivity.
  - destruct (@worker_accounts failing_postgres ticking_clock _ _ _ [] 2 _ stopped_reachable) as (_ & _ & _ & Hd).
    destruct (Hd eq_refl eq_refl sent_too_late) as (more & Hm & _ & Hl).
    + eapply rtc_l; [left; by apply (env_send _ quiet_transaction)|].
      eapply rtc_l; [right; by apply all_permits_back|]. apply rtc_refl.
    + exists more. exact (conj Hm (Hl eq_refl)).
Defined.

Lemma worker_stops_witness :
  Acc (fun a b => @own_step failing_postgres ticking_clock _ _ _ 2 b a) one_sent.
Proof.
  apply (@worker_stops failing_postgres ticking_clock _ _ _ [] 2 one_sent);
    [lia|apply one_sent_reachable|right; reflexivity].
Defined.
