(* ===== verification/Analytic.v ===== *)
(** * The analytic cycle

    [src/crates/core/src/domain/analytic/]: what one cycle of yog-analytic
    writes ([CycleWrite]) and the windows it is read over;
    [src/crates/persistence/src/repositories/analytic.rs]: the transaction that
    writes it; [src/crates/analytic/src/application/worker.rs]: the cycle of the
    worker. Instants are chrono's, in nanoseconds.

    The statements that value a tranche, and those on the tables nothing of the
    plan reads, are SQL over the whole database: [AnalyticSql] holds what they
    do. What the retention policy drops of the five-minute rows is a step of
    AnalyticRuns; the [BIGINT] width of the counts is left out. *)

From S2P Require Import Prelude Errors External Domain Store.

(** ** chrono and Postgres *)

(** [DurationRound::duration_trunc], an error out of the instants it can hold in
    nanoseconds. *)
Class DurationTrunc : Type := { duration_trunc : DateTime -> TimeDelta -> option DateTime }.

Class DurationTruncLaws `{DurationTrunc} : Prop := {
  duration_trunc_ok : forall at_ span, 0 < span -> in_int 64 at_ = true ->
    duration_trunc at_ span = Some (at_ - at_ mod span);
}.

(** [NUMERIC], whose sums are exact. *)
Class Numeric (N : Type) : Type := {
  num_zero : N;
  num_add : N -> N -> N;
}.

Class NumericLaws (N : Type) `{!Numeric N} : Prop := {
  num_add_comm : forall a b : N, num_add a b = num_add b a;
  num_add_assoc : forall a b c : N, num_add a (num_add b c) = num_add (num_add a b) c;
  num_add_zero : forall a : N, num_add num_zero a = a;
}.

(** ** [window.rs] *)

Definition hours_delta (n : Z) : TimeDelta := n * (3600 * 10 ^ 9).
Definition minutes_delta (n : Z) : TimeDelta := n * (60 * 10 ^ 9).

Inductive Window : Type :=
| Hour
| Day
| Week
| Month.

#[global] Instance Window_eq_dec : EqDecision Window.
Proof. solve_decision. Defined.

Definition Window_ALL : list Window := [Day; Week; Month].
Definition Window_hours (w : Window) : Z :=
  match w with Hour => 1 | Day => 24 | Week => 168 | Month => 720 end.
Definition Window_duration (w : Window) : TimeDelta := hours_delta (Window_hours w).
Definition Window_as_str (w : Window) : string :=
  match w with Hour => "1h" | Day => "24h" | Week => "7d" | Month => "30d" end.

Module FrozenHours.
Record t : Type := mk {
  first : DateTime;
  last_frozen : DateTime;
}.
End FrozenHours.

Module WrittenTranches.
Record t : Type := mk {
  first : DateTime;
  through : DateTime;
}.
End WrittenTranches.

Definition offset_duration (offset : option Window) : TimeDelta :=
  match offset with Some w => Window_duration w | None => 0 end.

Module FrozenPeriod.
Record t : Type := mk {
  from : DateTime;
  as_of : DateTime;
  covered_since : DateTime;
}.

Definition of_ (hours : FrozenHours.t) (window : Window) (offset : option Window) : t :=
  let as_of := FrozenHours.last_frozen hours + hours_delta 1 - offset_duration offset in
  mk (as_of - Window_duration window) as_of (FrozenHours.first hours).

Definition is_covered (p : t) : bool := covered_since p <=? from p.
Definition last_hour (p : t) : DateTime := as_of p - hours_delta 1.
End FrozenPeriod.

Module TranchePeriod.
Record t : Type := mk {
  from : DateTime;
  as_of : DateTime;
  covered_since : DateTime;
}.

Definition of_ (as_of : DateTime) (window : Window) (measured_since : option DateTime) : t :=
  mk (as_of - Window_duration window) as_of (default as_of measured_since).

Definition is_covered (p : t) : bool := covered_since p <=? from p.

Definition hour_through (tranches : WrittenTranches.t) (offset : option Window) : t :=
  of_ (WrittenTranches.through tranches - offset_duration offset) Hour
    (Some (WrittenTranches.first tranches)).
End TranchePeriod.

(** ** [model.rs] *)

Definition FREEZE_MARGIN : TimeDelta := minutes_delta 10.
Definition MAX_HOURS_PER_CYCLE : Z := 6.
Definition TRANCHE_MINUTES : Z := 5.
Definition TRANCHE : TimeDelta := minutes_delta TRANCHE_MINUTES.
Definition MAX_TRANCHES_PER_CYCLE : Z := MAX_HOURS_PER_CYCLE * 60 / TRANCHE_MINUTES.

Module AnalyticProgress.
Record t : Type := mk {
  first_hour : option DateTime;
  last_frozen : option DateTime;
  last_tranche : option DateTime;
}.
End AnalyticProgress.

Module CycleWrite.
Record t : Type := mk {
  tranches_from : DateTime;
  tranches_through : DateTime;
  from : DateTime;
  through : DateTime;
  freeze_through : option DateTime;
  tvl_hour : option DateTime;
  at_ : DateTime;
}.
End CycleWrite.

Module CycleOutcome.
Record t : Type := mk {
  written : CycleWrite.t;
  tranches_written : Z;
  pool_hours : Z;
  hours_frozen : Z;
}.
End CycleOutcome.

Section Plan.
Context `{DurationTrunc}.

(** The [expect] of [hour_of] and [tranche_of]. *)
Definition expect {A} (o : option A) : exec A :=
  match o with Some a => Done a | None => Panic end.

Definition hour_of (at_ : DateTime) : exec DateTime := expect (duration_trunc at_ (hours_delta 1)).
Definition tranche_of (at_ : DateTime) : exec DateTime := expect (duration_trunc at_ TRANCHE).

(** [Option<DateTime>]'s order: [None] first. *)
Definition option_max (a b : option DateTime) : option DateTime :=
  match a, b with
  | Some x, Some y => Some (Z.max x y)
  | None, _ => b
  | _, None => a
  end.

(** The [from], the [tranches_from] and the [tranches_written] of
    [without_written]. *)
Definition hours_left (c : CycleWrite.t) (written : AnalyticProgress.t) : DateTime :=
  match AnalyticProgress.last_frozen written with
  | Some frozen => Z.max (CycleWrite.from c) (frozen + hours_delta 1)
  | None => CycleWrite.from c
  end.

Definition tranches_left (c : CycleWrite.t) (written : AnalyticProgress.t) (from : DateTime) : DateTime :=
  foldl Z.max (CycleWrite.tranches_from c)
    (match AnalyticProgress.last_tranche written with
     | Some last => [last + TRANCHE]
     | None => []
     end ++ [from]).

Definition last_tranche_after (c : CycleWrite.t) (written : AnalyticProgress.t) (tranches_from : DateTime) :
    option DateTime :=
  option_max
    (if tranches_from <=? CycleWrite.tranches_through c then Some (CycleWrite.tranches_through c) else None)
    (AnalyticProgress.last_tranche written).

Definition without_written (c : CycleWrite.t) (written : AnalyticProgress.t) : exec CycleWrite.t :=
  let from := hours_left c written in
  let tranches_from := tranches_left c written from in
  let tranches_written := last_tranche_after c written tranches_from in
  let* complete :=
    match tranches_written with
    | Some last => let* hour := hour_of (last + TRANCHE) in Done (Some (hour - hours_delta 1))
    | None => Done None
    end in
  Done (CycleWrite.mk tranches_from (CycleWrite.tranches_through c) from (CycleWrite.through c)
    (match CycleWrite.freeze_through c, complete with
     | Some hour, Some complete =>
         let hour := Z.min (Z.min hour (CycleWrite.through c)) complete in
         if from <=? hour then Some hour else None
     | _, _ => None
     end)
    (match CycleWrite.tvl_hour c with
     | Some hour =>
         match AnalyticProgress.last_frozen written with
         | Some frozen => if frozen <? hour then Some hour else None
         | None => Some hour
         end
     | None => None
     end)
    (CycleWrite.at_ c)).

Definition plan (now : DateTime) (progress : AnalyticProgress.t) : exec CycleWrite.t :=
  let* current := hour_of now in
  let from :=
    match AnalyticProgress.last_frozen progress, AnalyticProgress.first_hour progress with
    | Some frozen, _ => frozen + hours_delta 1
    | None, Some first => first
    | None, None => current
    end in
  let through := Z.min current (from + hours_delta (MAX_HOURS_PER_CYCLE - 1)) in
  let* closed := hour_of (now - hours_delta 1 - FREEZE_MARGIN) in
  let tranches_from :=
    match AnalyticProgress.last_tranche progress with
    | Some last => last + TRANCHE
    | None => from
    end in
  let* tranche := tranche_of (now - TRANCHE - FREEZE_MARGIN) in
  let tranches_through := Z.min tranche (tranches_from + TRANCHE * (MAX_TRANCHES_PER_CYCLE - 1)) in
  without_written
    (CycleWrite.mk tranches_from tranches_through from through (Some closed) (Some current) now)
    progress.
End Plan.

(** ** The tables of the cycle *)

(** A row of analytic_pool_5min or of analytic_pool_hourly. The protocol, the
    same in every row the cycle writes, is left out. *)
Module PoolFacts.
Record t (N : Type) : Type := mk {
  swap_count : Z;
  valued : bool;
  volume_in_a_usd : option N;
  volume_in_b_usd : option N;
  fees_usd : option N;
  lp_fees_usd : option N;
  protocol_fees_usd : option N;
  referral_fees_usd : option N;
}.
Arguments mk {N}.
Arguments swap_count {N}.
Arguments valued {N}.
Arguments volume_in_a_usd {N}.
Arguments volume_in_b_usd {N}.
Arguments fees_usd {N}.
Arguments lp_fees_usd {N}.
Arguments protocol_fees_usd {N}.
Arguments referral_fees_usd {N}.
End PoolFacts.

(** A row of analytic_protocol_hourly. *)
Module ProtocolFacts.
Record t (N : Type) : Type := mk {
  volume_usd : option N;
  fees_usd : option N;
  lp_fees_usd : option N;
  protocol_fees_usd : option N;
  referral_fees_usd : option N;
  swap_count : Z;
  active_pools : Z;
  active_pools_valued : Z;
}.
Arguments mk {N}.
Arguments volume_usd {N}.
Arguments fees_usd {N}.
Arguments lp_fees_usd {N}.
Arguments protocol_fees_usd {N}.
Arguments referral_fees_usd {N}.
Arguments swap_count {N}.
Arguments active_pools {N}.
Arguments active_pools_valued {N}.
End ProtocolFacts.

Module Tables.
Record t (N O : Type) : Type := mk {
  analytic_hours : gmap DateTime (option DateTime);      (** bucket: frozen_at *)
  analytic_tranches : gmap DateTime DateTime;            (** bucket: written_at *)
  analytic_pool_5min : gmap (Pubkey * DateTime) (PoolFacts.t N);
  analytic_pool_hourly : gmap (Pubkey * DateTime) (PoolFacts.t N);
  analytic_protocol_hourly : gmap DateTime (ProtocolFacts.t N);
  others : O;                                            (** every other table *)
}.
Arguments mk {N O}.
Arguments analytic_hours {N O}.
Arguments analytic_tranches {N O}.
Arguments analytic_pool_5min {N O}.
Arguments analytic_pool_hourly {N O}.
Arguments analytic_protocol_hourly {N O}.
Arguments others {N O}.
End Tables.

(** The statements whose SQL is not modelled. *)
Inductive Statement : Type :=
| ValueLiquidityTranche (tranche : DateTime)
| ValueClaimsTranche (tranche : DateTime)
| DeleteOpenRotationRuns
| WriteRotationRuns (from through : DateTime)
| UpsertLiquidityHourly (from through next_tranche : DateTime)
| UpsertBirths (from through : DateTime)
| UpsertPositionChanges (from through : DateTime)
| WriteProtocolPeriods (from through : DateTime)
| DeleteTokenPeriods
| WriteTokenPeriods (last_hour : DateTime)
| RefreshTokenPoolCeilings (at_ : DateTime)
| MeasureTvl (hour at_ : DateTime)
| MeasureDiscoveredTvl (hour : DateTime).

(** What they do: the facts of a tranche's swaps, valued, and the others'
    tables. *)
Class AnalyticSql (N O : Type) : Type := {
  tranche_facts : Tables.t N O -> DateTime -> list (Pubkey * PoolFacts.t N);
  other_statement : Statement -> Tables.t N O -> O;
}.

(** The tranche's facts are grouped by pool. *)
Class AnalyticSqlLaws (N O : Type) `{!AnalyticSql N O} : Prop := {
  tranche_facts_once : forall t tranche, NoDup (tranche_facts t tranche).*1;
}.

(** [generate_series(from, through, step)]. *)
Definition series (from through step : Z) : list Z :=
  map (fun i => from + step * Z.of_nat i) (seq 0 (Z.to_nat ((through - from) / step + 1))).

(** [time_bucket('1 hour', bucket)]. *)
Definition hour_bucket (bucket : DateTime) : DateTime := bucket - bucket mod hours_delta 1.

(** [SUM], which skips the nulls. *)
Definition sql_sum {N} `{Numeric N} (l : list (option N)) : option N :=
  foldr (fun x sum =>
    match x, sum with
    | None, _ => sum
    | Some x, None => Some x
    | Some x, Some y => Some (num_add x y)
    end) None l.

Definition add_opt {N} `{Numeric N} (a b : option N) : option N :=
  match a, b with Some a, Some b => Some (num_add a b) | _, _ => None end.

(** The summed row of a group of [upsert_pool_hourly]. *)
Definition summed_facts {N} `{Numeric N} (rows : list (PoolFacts.t N)) : PoolFacts.t N :=
  let valued := forallb PoolFacts.valued rows in
  let sum column := if valued then sql_sum (map column rows) else None in
  PoolFacts.mk (foldr Z.add 0 (map PoolFacts.swap_count rows)) valued
    (sum PoolFacts.volume_in_a_usd) (sum PoolFacts.volume_in_b_usd) (sum PoolFacts.fees_usd)
    (sum PoolFacts.lp_fees_usd) (sum PoolFacts.protocol_fees_usd) (sum PoolFacts.referral_fees_usd).

(** [GROUP BY pool_address, time_bucket('1 hour', bucket)]. *)
Definition groups {F} (rows : list ((Pubkey * DateTime) * F)) : gmap (Pubkey * DateTime) (list F) :=
  foldr (fun row g =>
    let k := (fst (fst row), hour_bucket (snd (fst row))) in
    <[k := snd row :: default [] (g !! k)]> g) ∅ rows.

(** *** A transaction

    Statements run in order on the tables, one of [fault] ending it: the tables
    are then the ones it began with. *)
Module Db.
Record t (N O : Type) : Type := mk {
  tables : Tables.t N O;
  statements : nat;
}.
Arguments mk {N O}.
Arguments tables {N O}.
Arguments statements {N O}.
End Db.

Definition Tx (N O A : Type) : Type :=
  Db.t N O -> exec (nat * RepositoryResult (A * Tables.t N O)).

Definition tx_bind {N O A B} (m : Tx N O A) (k : A -> Tx N O B) : Tx N O B := fun d =>
  let* (n, r) := m d in
  match r with
  | Err e => Done (n, Err e)
  | Ok (a, t) => k a (Db.mk t n)
  end.

Definition tx_ret {N O A} (a : A) : Tx N O A := fun d =>
  Done (Db.statements d, Ok (a, Db.tables d)).

Definition tx_exec {N O A} (e : exec A) : Tx N O A := fun d =>
  let* a := e in Done (Db.statements d, Ok (a, Db.tables d)).

Notation "'let&' x := m 'in' k" := (tx_bind m (fun x => k))
  (at level 10, x pattern, m at level 100, k at level 200) : rust_scope.
Notation "m ;;& k" := (tx_bind m (fun _ => k)) (at level 90, right associativity) : rust_scope.

Section Cycle.
Context {N O : Type} `{!Numeric N} `{!AnalyticSql N O} `{DurationTrunc} `{Postgres}.

(** A statement, unless it fails. *)
Definition statement {A} (f : Tables.t N O -> RepositoryResult (A * Tables.t N O)) : Tx N O A := fun d =>
  Done (S (Db.statements d),
    match fault (Db.statements d) with
    | Some e => Err e
    | None => f (Db.tables d)
    end).

Definition query {A} (f : Tables.t N O -> A) : Tx N O A := statement (fun t => Ok (f t, t)).

Definition transaction {A} (body : Tx N O A) (d : Db.t N O) : exec (Db.t N O * RepositoryResult A) :=
  let* (n, r) := body d in
  Done (match r with
        | Ok (a, t) => (Db.mk t n, Ok a)
        | Err e => (Db.mk (Db.tables d) n, Err e)
        end).

Definition other (s : Statement) : Tx N O unit := statement (fun t =>
  Ok ((), Tables.mk (Tables.analytic_hours t) (Tables.analytic_tranches t) (Tables.analytic_pool_5min t)
    (Tables.analytic_pool_hourly t) (Tables.analytic_protocol_hourly t) (other_statement s t))).

(** [MIN(bucket)] and [MAX(bucket)] of the rows that satisfy [P]. *)
Definition best_bucket {V} (pick : Z -> Z -> Z) (P : V -> bool) (rows : list (DateTime * V)) :
    option DateTime :=
  foldr (fun kv best =>
    if P (snd kv) then Some (match best with Some b => pick (fst kv) b | None => fst kv end) else best)
    None rows.
Definition min_bucket {V} (P : V -> bool) (m : gmap DateTime V) : option DateTime :=
  best_bucket Z.min P (map_to_list m).
Definition max_bucket {V} (P : V -> bool) (m : gmap DateTime V) : option DateTime :=
  best_bucket Z.max P (map_to_list m).

Definition is_frozen (frozen_at : option DateTime) : bool :=
  match frozen_at with Some _ => true | None => false end.

Definition progress_of (t : Tables.t N O) : AnalyticProgress.t :=
  AnalyticProgress.mk
    (min_bucket (fun _ => true) (Tables.analytic_hours t))
    (max_bucket is_frozen (Tables.analytic_hours t))
    (max_bucket (fun _ => true) (Tables.analytic_tranches t)).

Definition progress : Tx N O AnalyticProgress.t := query progress_of.

(** Inserts without a conflict clause: a row already there fails them. *)
Definition duplicate_key : RepositoryError := Conflict "duplicate key value violates unique constraint".

Definition insert_new {K V} `{Countable K} (rows : list (K * V)) (m : gmap K V) :
    RepositoryResult (gmap K V) :=
  if bool_decide (NoDup rows.*1) && forallb (fun kv => negb (bool_decide (is_Some (m !! fst kv)))) rows
  then Ok (list_to_map rows ∪ m)
  else Err duplicate_key.

Definition value_tranche (tranche : DateTime) : Tx N O unit := statement (fun t =>
  let? rows := insert_new (map (fun pf => ((fst pf, tranche), snd pf)) (tranche_facts t tranche))
    (Tables.analytic_pool_5min t) in
  Ok ((), Tables.mk (Tables.analytic_hours t) (Tables.analytic_tranches t) rows
    (Tables.analytic_pool_hourly t) (Tables.analytic_protocol_hourly t) (Tables.others t))).

(** The [while] of [write_cycle], at most [fuel] turns. *)
Fixpoint value_tranches (fuel : nat) (tranche through tranches_written : Z) : Tx N O Z :=
  match fuel with
  | 0%nat => tx_ret tranches_written
  | S fuel =>
    if tranche <=? through then
      value_tranche tranche ;;&
      other (ValueLiquidityTranche tranche) ;;&
      other (ValueClaimsTranche tranche) ;;&
      value_tranches fuel (tranche + TRANCHE) through (tranches_written + 1)
    else tx_ret tranches_written
  end.

Definition record_tranches (from through at_ : DateTime) : Tx N O unit := statement (fun t =>
  let? tranches := insert_new (map (fun bucket => (bucket, at_)) (series from through TRANCHE))
    (Tables.analytic_tranches t) in
  Ok ((), Tables.mk (Tables.analytic_hours t) tranches (Tables.analytic_pool_5min t)
    (Tables.analytic_pool_hourly t) (Tables.analytic_protocol_hourly t) (Tables.others t))).

(** The rows of analytic_pool_5min. *)
Definition tranche_rows (t : Tables.t N O) : list ((Pubkey * DateTime) * PoolFacts.t N) :=
  map_to_list (K := Pubkey * DateTime) (Tables.analytic_pool_5min t).

(** The groups of the hours [from..=through]. *)
Definition hour_groups (t : Tables.t N O) (from through : DateTime) :
    gmap (Pubkey * DateTime) (list (PoolFacts.t N)) :=
  groups (List.filter (fun row => (from <=? snd (fst row)) && (snd (fst row) <? through + hours_delta 1))
    (tranche_rows t)).

Definition upsert_pool_hourly (from through : DateTime) : Tx N O Z := statement (fun t =>
  let upserted := summed_facts <$> hour_groups t from through in
  Ok (Z.of_nat (size upserted),
    Tables.mk (Tables.analytic_hours t) (Tables.analytic_tranches t) (Tables.analytic_pool_5min t)
      (upserted ∪ Tables.analytic_pool_hourly t) (Tables.analytic_protocol_hourly t) (Tables.others t))).

(** The facts of a protocol's hour: 0 for an hour without any pool. *)
Definition protocol_facts (rows : list (PoolFacts.t N)) : ProtocolFacts.t N :=
  let sum column := match rows with [] => Some num_zero | _ => sql_sum (map column rows) end in
  ProtocolFacts.mk
    (sum (fun f => add_opt (PoolFacts.volume_in_a_usd f) (PoolFacts.volume_in_b_usd f)))
    (sum PoolFacts.fees_usd) (sum PoolFacts.lp_fees_usd) (sum PoolFacts.protocol_fees_usd)
    (sum PoolFacts.referral_fees_usd)
    (foldr Z.add 0 (map PoolFacts.swap_count rows))
    (Z.of_nat (length rows)) (Z.of_nat (length (List.filter PoolFacts.valued rows))).

Definition hourly_rows (t : Tables.t N O) (bucket : DateTime) : list (PoolFacts.t N) :=
  map snd (List.filter (fun row => snd (fst row) =? bucket) (map_to_list (Tables.analytic_pool_hourly t))).

Definition upsert_protocol_hourly (from through : DateTime) : Tx N O unit := statement (fun t =>
  Ok ((), Tables.mk (Tables.analytic_hours t) (Tables.analytic_tranches t) (Tables.analytic_pool_5min t)
    (Tables.analytic_pool_hourly t)
    (foldr (fun bucket m => <[bucket := protocol_facts (hourly_rows t bucket)]> m)
      (Tables.analytic_protocol_hourly t) (series from through (hours_delta 1)))
    (Tables.others t))).

Definition record_hours (from through : DateTime) : Tx N O unit := statement (fun t =>
  Ok ((), Tables.mk
    (Tables.analytic_hours t ∪ list_to_map (map (fun b => (b, None)) (series from through (hours_delta 1))))
    (Tables.analytic_tranches t) (Tables.analytic_pool_5min t)
    (Tables.analytic_pool_hourly t) (Tables.analytic_protocol_hourly t) (Tables.others t))).

(** [WHERE bucket BETWEEN from AND through AND frozen_at IS NULL]. *)
Definition to_freeze (from through bucket : DateTime) (frozen_at : option DateTime) : bool :=
  (from <=? bucket) && (bucket <=? through) && negb (is_frozen frozen_at).

Definition freeze (from through at_ : DateTime) : Tx N O Z := statement (fun t =>
  Ok (Z.of_nat (length (List.filter (fun kv => to_freeze from through (fst kv) (snd kv))
        (map_to_list (Tables.analytic_hours t)))),
    Tables.mk
      (map_imap (fun bucket frozen_at =>
         Some (if to_freeze from through bucket frozen_at then Some at_ else frozen_at))
         (Tables.analytic_hours t))
      (Tables.analytic_tranches t) (Tables.analytic_pool_5min t)
      (Tables.analytic_pool_hourly t) (Tables.analytic_protocol_hourly t) (Tables.others t))).

(** The hours of [write_cycle], from their facts to the commit. *)
Definition write_hours (c : CycleWrite.t) (tranches_written : Z) : Tx N O CycleOutcome.t :=
  let from := CycleWrite.from c in
  let through := CycleWrite.through c in
  let at_ := CycleWrite.at_ c in
  let& pool_hours := upsert_pool_hourly from through in
  upsert_protocol_hourly from through ;;&
  other (UpsertLiquidityHourly from through (CycleWrite.tranches_from c)) ;;&
  other (UpsertBirths from through) ;;&
  other (UpsertPositionChanges from through) ;;&
  record_hours from through ;;&
  let& hours_frozen :=
    match CycleWrite.freeze_through c with
    | Some through =>
        let& frozen := freeze from through at_ in
        other (WriteProtocolPeriods from through) ;;&
        other DeleteTokenPeriods ;;&
        other (WriteTokenPeriods through) ;;&
        tx_ret frozen
    | None => tx_ret 0
    end in
  other (RefreshTokenPoolCeilings at_) ;;&
  match CycleWrite.tvl_hour c with
  | Some hour => other (MeasureTvl hour at_) ;;& other (MeasureDiscoveredTvl hour)
  | None => tx_ret ()
  end ;;&
  query (fun _ => CycleOutcome.mk c tranches_written pool_hours hours_frozen). (* COMMIT *)

(** The statements of [write_cycle], from the lock to the commit. *)
Definition write_cycle_body (planned : CycleWrite.t) : Tx N O CycleOutcome.t :=
  let& _ := query (fun _ => ()) in (* BEGIN *)
  let& _ := query (fun _ => ()) in (* lock_out_other_writers *)
  let& written := progress in
  let& c := tx_exec (without_written planned written) in
  let tranches_from := CycleWrite.tranches_from c in
  let tranches_through := CycleWrite.tranches_through c in
  let& tranches_written := value_tranches
    (Z.to_nat ((tranches_through - tranches_from) / TRANCHE + 1)) tranches_from tranches_through 0 in
  record_tranches tranches_from tranches_through (CycleWrite.at_ c) ;;&
  (if 0 <? tranches_written
   then other DeleteOpenRotationRuns ;;& other (WriteRotationRuns tranches_from tranches_through)
   else tx_ret ()) ;;&
  write_hours c tranches_written.

Definition write_cycle (planned : CycleWrite.t) (d : Db.t N O) :
    exec (Db.t N O * RepositoryResult CycleOutcome.t) :=
  transaction (write_cycle_body planned) d.

(** ** [worker.rs] *)

(** The read of the progress outside a transaction, the plan, the write. *)
Definition write (now : DateTime) (d : Db.t N O) : exec (Db.t N O * RepositoryResult CycleOutcome.t) :=
  let* (d, read) := transaction progress d in
  match read with
  | Err e => Done (d, Err e)
  | Ok progress => let* planned := plan now progress in write_cycle planned d
  end.
End Cycle.
