(* ===== verification/AnalyticFacts.v ===== *)
(** * Hours are frozen once, in order, whole

    The transactions of the analytic writers as a transition system, the
    invariant of the tables, and what follows for a frozen hour. *)

From S2P Require Import Prelude Errors External Domain Store Analytic.

(** ** Instants on the grid of the hours and of the tranches *)

Definition HOUR : Z := hours_delta 1.
Definition aligned (step at_ : Z) : Prop := at_ mod step = 0.
#[global] Instance aligned_dec step at_ : Decision (aligned step at_).
Proof. unfold aligned. apply _. Defined.
Definition floor_to (step at_ : Z) : Z := at_ - at_ mod step.

Ltac grid :=
  unfold aligned, floor_to, HOUR, TRANCHE, FREEZE_MARGIN, MAX_TRANCHES_PER_CYCLE, MAX_HOURS_PER_CYCLE,
    TRANCHE_MINUTES, hours_delta, minutes_delta in *;
  Z.to_euclidean_division_equations; lia.

Lemma HOUR_pos : 0 < HOUR.
Proof. reflexivity. Qed.
Lemma TRANCHE_pos : 0 < TRANCHE.
Proof. reflexivity. Qed.
Lemma HOUR_TRANCHE : HOUR = 12 * TRANCHE.
Proof. reflexivity. Qed.

Lemma aligned_floor step at_ : 0 < step -> aligned step (floor_to step at_).
Proof.
  intros Hs. unfold aligned, floor_to. rewrite <-(Z.mod_0_l step) by lia.
  rewrite Zminus_mod_idemp_r. f_equal. lia.
Qed.
Lemma floor_aligned step at_ : aligned step at_ -> floor_to step at_ = at_.
Proof. unfold aligned, floor_to. lia. Qed.
Lemma floor_le step at_ : 0 < step -> at_ - step < floor_to step at_ <= at_.
Proof. intros Hs. unfold floor_to. pose proof (Z.mod_pos_bound at_ step Hs). lia. Qed.
Lemma floor_lower step at_ h : 0 < step -> aligned step h -> h <= at_ -> h <= floor_to step at_.
Proof.
  unfold aligned, floor_to. intros Hs Hh Hle.
  pose proof (Z.div_mod at_ step ltac:(lia)). pose proof (Z.div_mod h step ltac:(lia)).
  pose proof (Z.div_le_mono h at_ step Hs Hle). nia.
Qed.
Lemma aligned_gap step a b : 0 < step -> aligned step a -> aligned step b -> a < b -> a + step <= b.
Proof.
  unfold aligned. intros Hs Ha Hb Hlt.
  pose proof (Z.div_mod a step ltac:(lia)). pose proof (Z.div_mod b step ltac:(lia)).
  assert (a / step < b / step) by nia. nia.
Qed.
Lemma aligned_add step a k : 0 < step -> aligned step a -> aligned step (a + k * step).
Proof. unfold aligned. intros Hs Ha. rewrite Z.mod_add by lia. done. Qed.
Lemma aligned_HOUR_TRANCHE a : aligned HOUR a -> aligned TRANCHE a.
Proof.
  unfold aligned. rewrite HOUR_TRANCHE. intros Ha.
  apply Z.mod_divide; [done|]. apply Z.mod_divide in Ha; [|done].
  etrans; [|exact Ha]. by exists 12.
Qed.

(** ** Series *)

Lemma elem_of_series b from through step :
  0 < step ->
  b ∈ series from through step <-> from <= b <= through /\ (b - from) mod step = 0.
Proof.
  intros Hs. unfold series. rewrite list_elem_of_In, in_map_iff. split.
  - intros (i & <- & Hi). apply in_seq in Hi.
    assert (Hle : Z.of_nat i <= (through - from) / step) by lia.
    pose proof (Z.mul_div_le (through - from) step Hs).
    replace (from + step * Z.of_nat i - from) with (Z.of_nat i * step) by lia.
    rewrite Z.mod_mul by lia. split; [|done]. nia.
  - intros [[Hf Ht] Hm]. exists (Z.to_nat ((b - from) / step)).
    pose proof (Z.div_mod (b - from) step ltac:(lia)).
    assert (0 <= (b - from) / step) by (apply Z.div_pos; lia).
    assert ((b - from) / step <= (through - from) / step) by (apply Z.div_le_mono; lia).
    split; [rewrite Z2Nat.id by lia; lia|]. apply in_seq. lia.
Qed.

Lemma NoDup_series from through step : 0 < step -> NoDup (series from through step).
Proof.
  intros Hs. unfold series. apply NoDup_fmap_2_strong; [|apply NoDup_seq].
  intros x y _ _ Heq. nia.
Qed.

(** On the grid, the series is the interval. *)
Lemma elem_of_aligned_series b from through step :
  0 < step -> aligned step from -> b ∈ series from through step <-> aligned step b /\ from <= b <= through.
Proof.
  intros Hs Ha. rewrite elem_of_series by done. unfold aligned in *. split.
  - intros [Hb Hm]. split; [|done]. replace b with ((b - from) + from) by lia.
    rewrite Z.add_mod, Hm, Ha by lia. done.
  - intros [Hb Hr]. split; [done|]. rewrite Zminus_mod, Hb, Ha. done.
Qed.

(** ** Reading a transaction *)

Section Logic.
Context {N O : Type} `{!Numeric N} `{!AnalyticSql N O} `{DurationTrunc} `{Postgres}.

(** A transaction begun on [t] never panics, fails only where the database
    does, and otherwise ends in [Q]. *)
Definition runs {A} (m : Tx N O A) (t : Tables.t N O) (Q : A -> Tables.t N O -> Prop) : Prop :=
  forall n, exists n' r, m (Db.mk t n) = Done (n', r) /\
    match r with
    | Ok (a, t') => Q a t'
    | Err e => exists k, (n <= k < n')%nat /\ fault k = Some e
    end /\ (n <= n')%nat.

Lemma runs_ret {A} (a : A) t Q : Q a t -> runs (tx_ret a) t Q.
Proof. intros HQ n. by exists n, (Ok (a, t)). Qed.

Lemma runs_exec {A} (e : exec A) a t Q : e = Done a -> Q a t -> runs (tx_exec e) t Q.
Proof. intros -> HQ n. by exists n, (Ok (a, t)). Qed.

Lemma runs_bind {A B} (m : Tx N O A) (k : A -> Tx N O B) t R Q :
  runs m t R -> (forall a t', R a t' -> runs (k a) t' Q) -> runs (tx_bind m k) t Q.
Proof.
  intros Hm Hk n. destruct (Hm n) as (n1 & r1 & Hr1 & HR & Hn1). unfold tx_bind. rewrite Hr1. simpl.
  destruct r1 as [[a t1]|e].
  - destruct (Hk a t1 HR n1) as (n2 & r2 & Hr2 & HQ & Hn2). exists n2, r2. split_and!; [done| |lia].
    destruct r2 as [[b t2]|e]; [done|]. destruct HQ as (j & Hj & He). exists j. split; [lia|done].
  - exists n1, (Err e). done.
Qed.

Lemma runs_statement {A} (f : Tables.t N O -> RepositoryResult (A * Tables.t N O)) a t t' (Q : A -> Tables.t N O -> Prop) :
  f t = Ok (a, t') -> Q a t' -> runs (statement f) t Q.
Proof.
  intros Hf HQ n. unfold statement. simpl. eexists _, _. split; [done|]. split; [|lia].
  destruct (fault n) as [e|] eqn:He; [exists n; split; [lia|done]|]. by rewrite Hf.
Qed.

Lemma runs_query {A} (f : Tables.t N O -> A) t (Q : A -> Tables.t N O -> Prop) :
  Q (f t) t -> runs (query f) t Q.
Proof. intros HQ. by eapply runs_statement. Qed.

Lemma runs_weaken {A} (m : Tx N O A) t (R Q : A -> Tables.t N O -> Prop) :
  runs m t R -> (forall a t', R a t' -> Q a t') -> runs m t Q.
Proof.
  intros Hm HQ n. destruct (Hm n) as (n' & r & Hr & HR & Hn). exists n', r. split_and!; [done| |done].
  destruct r as [[a t']|e]; auto.
Qed.

(** The tables of the plan. The statements on the others change those only. *)
Definition Core : Type :=
  gmap DateTime (option DateTime) * gmap DateTime DateTime *
  gmap (Pubkey * DateTime) (PoolFacts.t N) * gmap (Pubkey * DateTime) (PoolFacts.t N) *
  gmap DateTime (ProtocolFacts.t N).
Definition core (t : Tables.t N O) : Core :=
  (Tables.analytic_hours t, Tables.analytic_tranches t, Tables.analytic_pool_5min t,
   Tables.analytic_pool_hourly t, Tables.analytic_protocol_hourly t).

Lemma runs_other s t (Q : unit -> Tables.t N O -> Prop) :
  (forall t', core t' = core t -> Q () t') -> runs (other s) t Q.
Proof. intros HQ. eapply runs_statement; [done|]. by apply HQ. Qed.
End Logic.

(** ** The bounds of a table *)

Section Best.
Context (pick : Z -> Z -> Z) (le : Z -> Z -> Prop) `{!PreOrder le}.
Hypothesis pick_either : forall a b, pick a b = a \/ pick a b = b.
Hypothesis pick_le : forall a b, le a (pick a b) /\ le b (pick a b).

Lemma best_bucket_list {V} (P : V -> bool) (l : list (DateTime * V)) :
  match best_bucket pick P l with
  | Some b => (exists v, (b, v) ∈ l /\ P v = true) /\ (forall k v, (k, v) ∈ l -> P v = true -> le k b)
  | None => forall k v, (k, v) ∈ l -> P v = false
  end.
Proof.
  induction l as [|[k v] l IH]; simpl; [set_solver|].
  destruct (P v) eqn:Hv; destruct (best_bucket pick P l) as [b'|].
  - destruct IH as [(w & Hw & HP) Hle]. destruct (pick_le k b') as [Hk Hb]. split.
    + destruct (pick_either k b') as [->| ->]; set_solver.
    + intros k' v' [[= -> ->]|Hin]%elem_of_cons HP'; [done|]. etrans; eauto.
  - split; [set_solver|]. intros k' v' [[= -> ->]|Hin]%elem_of_cons HP'; [done|].
    rewrite (IH _ _ Hin) in HP'. done.
  - destruct IH as [(w & Hw & HP) Hle]. split; [set_solver|].
    intros k' v' [[= -> ->]|Hin]%elem_of_cons HP'; [congruence|]. eauto.
  - intros k' v' [[= -> ->]|Hin]%elem_of_cons; eauto.
Qed.

Hypothesis le_antisym : forall a b, le a b -> le b a -> a = b.

Lemma best_bucket_is {V} (P : V -> bool) (m : gmap DateTime V) b v :
  m !! b = Some v -> P v = true -> (forall k v, m !! k = Some v -> P v = true -> le k b) ->
  best_bucket pick P (map_to_list m) = Some b.
Proof.
  intros Hb HP Hmax. pose proof (best_bucket_list P (map_to_list m)) as Hl.
  apply elem_of_map_to_list in Hb. destruct (best_bucket _ _ _) as [b'|].
  - destruct Hl as [(w & Hw & HPw) Hle]. f_equal. apply le_antisym.
    + apply elem_of_map_to_list in Hw. eauto.
    + eauto.
  - apply Hl in Hb. congruence.
Qed.

Lemma best_bucket_none {V} (P : V -> bool) (m : gmap DateTime V) :
  (forall k v, m !! k = Some v -> P v = false) -> best_bucket pick P (map_to_list m) = None.
Proof.
  intros Hm. pose proof (best_bucket_list P (map_to_list m)) as Hl.
  destruct (best_bucket _ _ _) as [b|]; [|done].
  destruct Hl as [(w & Hw & HP) _]. apply elem_of_map_to_list, Hm in Hw. congruence.
Qed.
End Best.

Lemma max_bucket_is {V} (P : V -> bool) (m : gmap DateTime V) b v :
  m !! b = Some v -> P v = true -> (forall k v, m !! k = Some v -> P v = true -> k <= b) ->
  max_bucket P m = Some b.
Proof. apply (best_bucket_is Z.max Z.le); lia. Qed.

#[local] Instance ge_preorder : PreOrder (fun a b : Z => b <= a).
Proof. split; red; lia. Qed.
Lemma min_bucket_is {V} (P : V -> bool) (m : gmap DateTime V) b v :
  m !! b = Some v -> P v = true -> (forall k v, m !! k = Some v -> P v = true -> b <= k) ->
  min_bucket P m = Some b.
Proof.
  apply (best_bucket_is Z.min (fun a b => b <= a)); lia.
Qed.
Lemma max_bucket_none {V} (P : V -> bool) (m : gmap DateTime V) :
  (forall k v, m !! k = Some v -> P v = false) -> max_bucket P m = None.
Proof. apply (best_bucket_none Z.max Z.le); lia. Qed.
Lemma min_bucket_none {V} (P : V -> bool) (m : gmap DateTime V) :
  (forall k v, m !! k = Some v -> P v = false) -> min_bucket P m = None.
Proof. apply (best_bucket_none Z.min (fun a b => b <= a)); lia. Qed.

(** ** Groups and sums *)

Definition row_hour {F} (row : (Pubkey * DateTime) * F) : Pubkey * DateTime :=
  (fst (fst row), hour_bucket (snd (fst row))).

Definition group_of {F} (k : Pubkey * DateTime) (rows : list ((Pubkey * DateTime) * F)) : list F :=
  map snd (List.filter (fun row => bool_decide (row_hour row = k)) rows).

Definition nonempty {A} (l : list A) : option (list A) := match l with [] => None | _ => Some l end.

Lemma groups_lookup {F} (rows : list ((Pubkey * DateTime) * F)) k :
  groups rows !! k = nonempty (group_of k rows).
Proof.
  induction rows as [|row rows IH]; [apply lookup_empty|].
  unfold groups. cbn [foldr]. fold (groups rows). fold (row_hour row).
  unfold group_of. cbn [List.filter]. destruct (bool_decide_reflect (row_hour row = k)) as [->|Hne].
  - rewrite lookup_insert_eq, IH. cbn [map nonempty]. f_equal. f_equal. fold (group_of k rows). by destruct (group_of k rows).
  - rewrite lookup_insert_ne by done. exact IH.
Qed.

Lemma filter_Permutation {A} (f : A -> bool) (l l' : list A) :
  Permutation l l' -> Permutation (List.filter f l) (List.filter f l').
Proof.
  induction 1; simpl; repeat case_match; eauto using Permutation.
Qed.

Lemma group_of_Permutation {F} k (rows rows' : list ((Pubkey * DateTime) * F)) :
  Permutation rows rows' -> Permutation (group_of k rows) (group_of k rows').
Proof. intros Hp. by apply Permutation_map, filter_Permutation. Qed.

(** Rows outside a filter are in no group the filter keeps whole. *)
Lemma group_of_filter {F} (P : (Pubkey * DateTime) * F -> bool) k rows :
  (forall row, row_hour row = k -> P row = true) -> group_of k (List.filter P rows) = group_of k rows.
Proof.
  intros HP. unfold group_of. induction rows as [|row rows IH]; [done|]. cbn [List.filter].
  destruct (P row) eqn:Hrow; cbn [List.filter].
  - case_match; cbn [map]; by rewrite IH.
  - rewrite IH. destruct (bool_decide_reflect (row_hour row = k)) as [Hk|]; [|done].
    apply HP in Hk. congruence.
Qed.

Lemma group_of_nil {F} k (rows : list ((Pubkey * DateTime) * F)) :
  (forall row, In row rows -> row_hour row <> k) -> group_of k rows = [].
Proof.
  intros Hr. unfold group_of. induction rows as [|row rows IH]; [done|]. cbn [List.filter].
  rewrite bool_decide_eq_false_2 by (apply Hr; by left). apply IH. intros row' Hin. apply Hr. by right.
Qed.

Lemma group_of_app {F} k (rows rows' : list ((Pubkey * DateTime) * F)) :
  group_of k (rows ++ rows') = group_of k rows ++ group_of k rows'.
Proof. unfold group_of. by rewrite List.filter_app, map_app. Qed.

Section Sums.
Context {N : Type} `{NumericLaws N}.

Lemma sql_sum_Permutation (l l' : list (option N)) : Permutation l l' -> sql_sum l = sql_sum l'.
Proof.
  unfold sql_sum. induction 1 as [|x l l' _ IH|x y l|l l' l'' _ IH _ IH']; simpl; [done|by rewrite IH| |congruence].
  destruct x as [x|], y as [y|], (foldr _ _ l) as [z|]; try done.
  - by rewrite num_add_assoc, (num_add_comm y x), <-num_add_assoc.
  - by rewrite num_add_comm.
Qed.

Lemma summed_facts_Permutation (l l' : list (PoolFacts.t N)) :
  Permutation l l' -> summed_facts l = summed_facts l'.
Proof.
  intros Hp. unfold summed_facts.
  assert (forallb PoolFacts.valued l = forallb PoolFacts.valued l') as ->.
  { apply eq_true_iff_eq. rewrite !forallb_forall. split; intros Hf x Hx; apply Hf; revert Hx;
      apply Permutation_in; [by symmetry|done]. }
  assert (foldr Z.add 0 (map PoolFacts.swap_count l) = foldr Z.add 0 (map PoolFacts.swap_count l')) as ->.
  { induction Hp; simpl; lia. }
  destruct (forallb _ l'); [|done].
  by f_equal; apply sql_sum_Permutation, Permutation_map.
Qed.

Lemma sum_or_zero_Permutation (column : PoolFacts.t N -> option N) (l l' : list (PoolFacts.t N)) :
  Permutation l l' ->
  match l with [] => Some num_zero | _ => sql_sum (map column l) end =
  match l' with [] => Some num_zero | _ => sql_sum (map column l') end.
Proof.
  intros Hp. pose proof (sql_sum_Permutation _ _ (Permutation_map column Hp)) as Hs.
  destruct l as [|f l]; [by apply Permutation_nil in Hp as ->|].
  destruct l' as [|f' l']; [by apply Permutation_sym, Permutation_nil in Hp|exact Hs].
Qed.

Lemma protocol_facts_Permutation (l l' : list (PoolFacts.t N)) :
  Permutation l l' -> protocol_facts l = protocol_facts l'.
Proof.
  intros Hp. unfold protocol_facts.
  assert (foldr Z.add 0 (map PoolFacts.swap_count l) = foldr Z.add 0 (map PoolFacts.swap_count l')) as ->.
  { induction Hp; simpl; lia. }
  rewrite (Permutation_length Hp), (Permutation_length (filter_Permutation PoolFacts.valued _ _ Hp)).
  f_equal; by apply sum_or_zero_Permutation.
Qed.
End Sums.

(** The rows of the keys two tables agree on. *)
Lemma map_to_list_agree {K V} `{Countable K} (P : K -> bool) (m m' : gmap K V) :
  (forall k, P k = true -> m !! k = m' !! k) ->
  List.filter (fun kv => P (fst kv)) (map_to_list m) ≡ₚ List.filter (fun kv => P (fst kv)) (map_to_list m').
Proof.
  intros Hm. apply NoDup_Permutation.
  1-2: apply NoDup_ListNoDup, List.NoDup_filter, NoDup_ListNoDup, NoDup_map_to_list.
  intros [k v]. rewrite !list_elem_of_In, !List.filter_In, <-!list_elem_of_In, !elem_of_map_to_list. simpl.
  split; intros [Hk HP]; (split; [|done]); by rewrite <-Hk, Hm by done || by rewrite <-Hm.
Qed.

(** ** Inserting new rows *)

Lemma insert_new_ok {K V} `{Countable K} (rows : list (K * V)) (m : gmap K V) :
  NoDup rows.*1 -> (forall k v, (k, v) ∈ rows -> m !! k = None) ->
  insert_new rows m = Ok (list_to_map rows ∪ m).
Proof.
  intros Hnd Hm. unfold insert_new. rewrite bool_decide_eq_true_2 by done. simpl.
  replace (forallb _ rows) with true; [done|]. symmetry. apply forallb_forall. intros [k v] Hin. simpl.
  rewrite (Hm k v) by (by apply list_elem_of_In). by rewrite bool_decide_eq_false_2 by (intros [? ?]; done).
Qed.

Lemma map_to_list_fresh {K V} `{Countable K} (rows : list (K * V)) (m : gmap K V) :
  NoDup rows.*1 -> (forall k v, (k, v) ∈ rows -> m !! k = None) ->
  map_to_list (list_to_map rows ∪ m) ≡ₚ rows ++ map_to_list m.
Proof.
  intros Hnd Hm. rewrite <-(list_to_map_to_list m) at 1. rewrite <-list_to_map_app.
  apply map_to_list_to_map. rewrite fmap_app. apply NoDup_app. split_and!; [done| |apply NoDup_fst_map_to_list].
  intros k Hk Hk'. apply list_elem_of_fmap in Hk as ([? v] & -> & Hv).
  apply list_elem_of_fmap in Hk' as ([? w] & Heq & Hw). simpl in *. subst.
  apply elem_of_map_to_list in Hw. apply Hm in Hv. congruence.
Qed.

Lemma lookup_const_list {K V} `{Countable K} (l : list K) (v : V) k :
  (list_to_map (map (fun b => (b, v)) l) : gmap K V) !! k = if bool_decide (k ∈ l) then Some v else None.
Proof.
  induction l as [|b l IH]; [apply lookup_empty|]. cbn [map list_to_map foldr].
  destruct (decide (k = b)) as [->|Hne].
  - rewrite bool_decide_eq_true_2 by left. apply lookup_insert_eq.
  - rewrite lookup_insert_ne by done. etrans; [exact IH|].
    by rewrite (bool_decide_ext (k ∈ l) (k ∈ b :: l)) by set_solver.
Qed.

(** ** The tables between two cycles *)

(** The facts of a pool's hour, summed anew from every tranche. *)
Definition hour_total {N O} `{!Numeric N} (t : Tables.t N O) (k : Pubkey * DateTime) :
    option (PoolFacts.t N) :=
  summed_facts <$> groups (tranche_rows t) !! k.

(** Hours held from [f] through [L] and frozen through [F], tranches valued
    from [f] through [T]; there is none when the end is before [f]. *)
Record consistent {N O} `{!Numeric N} (t : Tables.t N O) (f L F T : Z) : Prop := {
  c_grid : 0 <= f /\ aligned HOUR f /\ aligned HOUR L /\ aligned HOUR F /\ aligned TRANCHE T;
  c_order : f - HOUR <= F <= L /\ F + HOUR <= T + TRANCHE < 2 ^ 63;
  c_hours : forall h : DateTime, is_Some (Tables.analytic_hours t !! h) <-> aligned HOUR h /\ f <= h <= L;
  c_frozen : forall h : DateTime, (exists a, Tables.analytic_hours t !! h = Some (Some a)) <->
    aligned HOUR h /\ f <= h <= F;
  c_frozen_at : forall (h : DateTime) a, Tables.analytic_hours t !! h = Some (Some a) -> h + HOUR + FREEZE_MARGIN <= a;
  c_tranches : forall b : DateTime, is_Some (Tables.analytic_tranches t !! b) <-> aligned TRANCHE b /\ f <= b <= T;
  c_written_at : forall (b : DateTime) a, Tables.analytic_tranches t !! b = Some a -> b + TRANCHE + FREEZE_MARGIN <= a;
  c_rows : forall (p : Pubkey) (b : DateTime) r, Tables.analytic_pool_5min t !! (p, b) = Some r -> is_Some (Tables.analytic_tranches t !! b);
  c_hourly : forall k, is_Some (Tables.analytic_pool_hourly t !! k) -> is_Some (hour_total t k);
  c_facts : forall (p : Pubkey) (h : DateTime), h <= F -> Tables.analytic_pool_hourly t !! (p, h) = hour_total t (p, h);
  c_protocol : forall h : DateTime, is_Some (Tables.analytic_protocol_hourly t !! h) -> aligned HOUR h /\ f <= h;
  c_protocol_facts : forall h : DateTime, aligned HOUR h -> f <= h <= F ->
    Tables.analytic_protocol_hourly t !! h = Some (protocol_facts (hourly_rows t h));
}.

(** What a cycle planned on such tables, then or earlier, asks for. *)
Record plannable (c : CycleWrite.t) (f F T : Z) : Prop := {
  p_from : f <= CycleWrite.from c <= F + HOUR;
  p_tranches_from : CycleWrite.tranches_from c <= T + TRANCHE;
  p_through : aligned HOUR (CycleWrite.through c);
  p_tranches_through : aligned TRANCHE (CycleWrite.tranches_through c) /\
    CycleWrite.tranches_through c + TRANCHE + FREEZE_MARGIN <= CycleWrite.at_ c < 2 ^ 63;
  p_freeze : match CycleWrite.freeze_through c with
    | Some closed => aligned HOUR closed /\ closed + HOUR + FREEZE_MARGIN <= CycleWrite.at_ c
    | None => True
    end;
}.

(** The last hour a cycle freezes, when it freezes one. *)
Definition freezing (c : CycleWrite.t) (F T : Z) : option Z :=
  match CycleWrite.freeze_through c with
  | Some closed =>
      let h := Z.min (Z.min closed (CycleWrite.through c))
        (floor_to HOUR (Z.max T (CycleWrite.tranches_through c) + TRANCHE) - HOUR) in
      if F + HOUR <=? h then Some h else None
  | None => None
  end.

Section Invariant.
Context {N O : Type} `{NumericLaws N} `{!AnalyticSql N O} `{!AnalyticSqlLaws N O}.
Context `{DurationTruncLaws} `{Postgres}.
Implicit Types (t : Tables.t N O) (f L F T : Z) (c : CycleWrite.t).

Lemma hour_of_ok at_ : in_int 64 at_ = true -> hour_of at_ = Done (floor_to HOUR at_).
Proof. intros Ha. unfold hour_of. by rewrite duration_trunc_ok. Qed.
Lemma tranche_of_ok at_ : in_int 64 at_ = true -> tranche_of at_ = Done (floor_to TRANCHE at_).
Proof. intros Ha. unfold tranche_of. by rewrite duration_trunc_ok. Qed.

Lemma in_int_64 z : - 2 ^ 63 <= z < 2 ^ 63 -> in_int 64 z = true.
Proof. intros Hz. unfold in_int. apply andb_true_iff. rewrite Z.leb_le, Z.ltb_lt. exact Hz. Qed.

Definition from_until (lo hi : Z) : option DateTime := if lo <=? hi then Some hi else None.

Lemma progress_consistent t f L F T :
  consistent t f L F T ->
  progress_of t = AnalyticProgress.mk (if f <=? L then Some f else None) (from_until f F) (from_until f T).
Proof.
  intros [(Hf & HaF & HaL & HaFr & HaT) ((HF1 & HF2) & HT) Hh Hfr _ Htr _ _ _ _].
  unfold progress_of, from_until. f_equal.
  - destruct (Z.leb_spec f L) as [Hle|Hgt].
    + destruct (proj2 (Hh f)) as [v Hv]; [done|]. eapply min_bucket_is; [exact Hv|done|].
      intros k w Hw _. apply (Hh k). by exists w.
    + apply min_bucket_none. intros k w Hw. exfalso.
      destruct (proj1 (Hh k)) as [_ ?]; [by exists w|lia].
  - destruct (Z.leb_spec f F) as [Hle|Hgt].
    + destruct (proj2 (Hfr F)) as [a Ha]; [done|]. eapply max_bucket_is; [exact Ha|done|].
      intros k [w|] Hw Hp; [|done]. apply (Hfr k). by exists w.
    + apply max_bucket_none. intros k [w|] Hw; [|done]. exfalso.
      destruct (proj1 (Hfr k)) as [_ ?]; [by exists w|lia].
  - destruct (Z.leb_spec f T) as [Hle|Hgt].
    + destruct (proj2 (Htr T)) as [a Ha]; [done|]. eapply max_bucket_is; [exact Ha|done|].
      intros k w Hw _. apply (Htr k). by exists w.
    + apply max_bucket_none. intros k w Hw. exfalso.
      destruct (proj1 (Htr k)) as [_ ?]; [by exists w|lia].
Qed.

(** The cycle left once what is written is out: the hours after the last frozen,
    the tranches after the last one. *)
Lemma without_written_consistent t f L F T c :
  consistent t f L F T -> plannable c f F T ->
  exists tvl, without_written c (progress_of t) =
    Done (CycleWrite.mk (T + TRANCHE) (CycleWrite.tranches_through c) (F + HOUR) (CycleWrite.through c)
      (freezing c F T) tvl (CycleWrite.at_ c)).
Proof.
  intros Hc [Hpf Hptf Hpt [Hptt Hpat] Hpfr]. rewrite (progress_consistent _ _ _ _ _ Hc).
  destruct Hc as [(Hf & HaF & HaL & HaFr & HaT) ((HF1 & HF2) & HT1 & HT2) _ _ _ _ _ _ _ _].
  pose proof HOUR_TRANCHE as HHT. pose proof TRANCHE_pos as HTp. assert (0 < FREEZE_MARGIN) as HM by done.
  set (w := AnalyticProgress.mk _ _ _). unfold without_written.
  assert (hours_left c w = F + HOUR) as ->.
  { unfold hours_left, w, from_until. cbn. destruct (Z.leb_spec f F) as [Hle|Hgt].
    - unfold HOUR in *. lia.
    - pose proof (aligned_gap HOUR F f HOUR_pos HaFr HaF Hgt). lia. }
  assert (tranches_left c w (F + HOUR) = T + TRANCHE) as ->.
  { unfold tranches_left, w, from_until. cbn [AnalyticProgress.last_tranche].
    destruct (Z.leb_spec f T) as [Hle|Hgt]; cbn [app foldl]; [lia|].
    pose proof (aligned_gap TRANCHE T f HTp HaT (aligned_HOUR_TRANCHE _ HaF) Hgt). lia. }
  unfold freezing. set (through := CycleWrite.tranches_through c) in *. set (T' := Z.max T through) in *.
  assert (last_tranche_after c w (T + TRANCHE) = from_until f T') as ->.
  { unfold last_tranche_after, w, from_until, T'. fold through. cbn [AnalyticProgress.last_tranche].
    pose proof (aligned_gap TRANCHE T through HTp HaT Hptt) as Hg.
    destruct (Z.leb_spec (T + TRANCHE) through), (Z.leb_spec f T), (Z.leb_spec f (Z.max T through));
      simpl; try lia; f_equal; lia. }
  eexists. unfold from_until. destruct (Z.leb_spec f T') as [Hle|Hgt].
  - cbn [exec_bind]. rewrite hour_of_ok by (apply in_int_64; lia). cbn [exec_bind]. fold HOUR.
    destruct (CycleWrite.freeze_through c); done.
  - cbn [exec_bind]. do 2 f_equal. destruct (CycleWrite.freeze_through c) as [closed|]; [|done].
    destruct (Z.leb_spec (F + HOUR) (Z.min (Z.min closed (CycleWrite.through c))
      (floor_to HOUR (T' + TRANCHE) - HOUR))) as [Hb|]; [|done]. exfalso.
    pose proof (floor_le HOUR (T' + TRANCHE) HOUR_pos).
    assert (aligned TRANCHE T') by (unfold T'; destruct (Z.max_spec T through) as [[_ ->]|[_ ->]]; done).
    pose proof (aligned_gap TRANCHE T' f HTp ltac:(done) (aligned_HOUR_TRANCHE _ HaF) Hgt). lia.
Qed.

(** *** Valuing the tranches *)

Definition grown t (lo hi : Z) t' : Prop :=
  Tables.analytic_hours t' = Tables.analytic_hours t /\
  Tables.analytic_tranches t' = Tables.analytic_tranches t /\
  (Tables.analytic_pool_hourly t' = Tables.analytic_pool_hourly t /\
   Tables.analytic_protocol_hourly t' = Tables.analytic_protocol_hourly t) /\
  exists new, tranche_rows t' ≡ₚ new ++ tranche_rows t /\
    forall p b r, In ((p, b), r) new -> aligned TRANCHE b /\ lo <= b <= hi.

Lemma grown_core t lo hi t1 t2 : core t2 = core t1 -> grown t lo hi t1 -> grown t lo hi t2.
Proof. intros [= H1' H2' H3' H4' H5']. unfold grown, tranche_rows. by rewrite H1', H2', H3', H4', H5'. Qed.

Lemma grown_trans t lo mid hi t1 t2 :
  grown t lo mid t1 -> grown t1 lo hi t2 -> mid <= hi -> grown t lo hi t2.
Proof.
  intros (Ha & Hb & [Hc Hd] & new & Hn & Hr) (Ha' & Hb' & [Hc' Hd'] & new' & Hn' & Hr') Hle.
  unfold grown. rewrite Ha', Hb', Hc', Hd'. split_and!; [done..|]. exists (new' ++ new). split.
  - by rewrite Hn', Hn, app_assoc.
  - intros p b r [Hin|Hin]%in_app_iff; [by eapply Hr'|]. destruct (Hr _ _ _ Hin). split; [done|lia].
Qed.

Lemma runs_value_tranche t tranche (Q : unit -> Tables.t N O -> Prop) :
  aligned TRANCHE tranche ->
  (forall p b r, Tables.analytic_pool_5min t !! (p, b) = Some r -> b < tranche) ->
  (forall t', grown t tranche tranche t' -> Q () t') ->
  runs (value_tranche tranche) t Q.
Proof.
  intros Ha Hb HQ. set (rows := map (fun pf => ((fst pf, tranche), snd pf)) (tranche_facts t tranche)).
  assert (rows.*1 = (fun p => (p, tranche)) <$> (tranche_facts t tranche).*1) as Hkeys.
  { unfold rows. rewrite <-!list_fmap_compose. apply list_fmap_ext. by intros i [p r] Hi. }
  assert (NoDup rows.*1) as Hnd.
  { rewrite Hkeys. apply (NoDup_fmap_2 _), tranche_facts_once. }
  assert (forall k v, (k, v) ∈ rows -> Tables.analytic_pool_5min t !! k = None) as Hnew.
  { intros k v Hin. apply list_elem_of_In, in_map_iff in Hin as ([p r] & [= <- <-] & _). simpl.
    destruct (Tables.analytic_pool_5min t !! (p, tranche)) eqn:Hl; [|done].
    apply Hb in Hl. lia. }
  eapply runs_statement; [by rewrite insert_new_ok by done|]. apply HQ.
  unfold grown. simpl. split_and!; [done..|]. exists rows. split.
  - by apply (map_to_list_fresh (K := Pubkey * DateTime)).
  - intros p b r Hin. unfold rows in Hin. apply in_map_iff in Hin as ([p' r'] & [= <- <- <-] & _).
    split; [done|lia].
Qed.

Lemma grown_row t lo hi t' p b r :
  grown t lo hi t' -> Tables.analytic_pool_5min t' !! (p, b) = Some r ->
  Tables.analytic_pool_5min t !! (p, b) = Some r \/ (aligned TRANCHE b /\ lo <= b <= hi).
Proof.
  intros (_ & _ & _ & new & Hp & Hnew) Hr. apply (elem_of_map_to_list (K := Pubkey * DateTime)) in Hr.
  fold (tranche_rows t') in Hr. rewrite Hp in Hr.
  apply elem_of_app in Hr as [Hr|Hr].
  - right. apply (Hnew p b r). by apply list_elem_of_In.
  - left. by apply elem_of_map_to_list.
Qed.

Lemma runs_value_tranches through fuel : forall t tranche k,
  aligned TRANCHE tranche -> aligned TRANCHE through ->
  fuel = Z.to_nat ((through - tranche) / TRANCHE + 1) ->
  (forall p b r, Tables.analytic_pool_5min t !! (p, b) = Some r -> b < tranche) ->
  runs (value_tranches fuel tranche through k) t
    (fun k' t' => grown t tranche through t' /\ k' = k + Z.of_nat fuel).
Proof.
  pose proof TRANCHE_pos as HTp.
  induction fuel as [|fuel IH]; intros t tranche k Ha Ht Hfuel Hb; cbn [value_tranches].
  - apply runs_ret. split; [|lia]. split_and!; [done..|]. by exists [].
  - assert (tranche <= through) as Hle.
    { destruct (Z.le_gt_cases tranche through) as [|Hgt]; [done|].
      assert ((through - tranche) / TRANCHE <= -1) by (apply Z.div_le_upper_bound;
        pose proof (aligned_gap TRANCHE through tranche HTp Ht Ha); lia). lia. }
    rewrite (proj2 (Z.leb_le _ _) Hle).
    eapply runs_bind; [by apply runs_value_tranche with (Q := fun _ => grown t tranche tranche)|].
    intros [] t1 Hg1. eapply runs_bind.
    { apply runs_other with (Q := fun _ => grown t tranche tranche). intros t2 Hcore. by eapply grown_core. }
    intros [] t2 Hg2. eapply runs_bind.
    { apply runs_other with (Q := fun _ => grown t tranche tranche). intros t3 Hcore. by eapply grown_core. }
    intros [] t3 Hg3. eapply runs_weaken; [apply IH|].
    + replace (tranche + TRANCHE) with (tranche + 1 * TRANCHE) by lia. by apply aligned_add.
    + done.
    + replace (through - (tranche + TRANCHE)) with (through - tranche + (-1) * TRANCHE) by lia.
      rewrite Z.div_add by lia.
      assert (0 <= (through - tranche) / TRANCHE) by (apply Z.div_pos; lia). lia.
    + intros p b r Hr. destruct (grown_row _ _ _ _ _ _ _ Hg3 Hr) as [Hr'|[_ ?]]; [|lia]. apply Hb in Hr'. lia.
    + intros k' t' [Hg ->]. split; [|lia].
      eapply grown_trans; [exact Hg3| |exact Hle].
      destruct Hg as (Hh & Htr & [Hho Hpr] & new & Hp & Hnew). split_and!; [done..|].
      exists new. split; [done|]. intros p b r Hin. destruct (Hnew _ _ _ Hin). split; [done|lia].
Qed.

(** *** The transaction *)

Definition frozen_hours (c : CycleWrite.t) (hours : gmap DateTime (option DateTime)) :
    gmap DateTime (option DateTime) :=
  match CycleWrite.freeze_through c with
  | Some through => map_imap (fun bucket frozen_at =>
      Some (if to_freeze (CycleWrite.from c) through bucket frozen_at
            then Some (CycleWrite.at_ c) else frozen_at)) hours
  | None => hours
  end.

Definition recorded_tranches (c : CycleWrite.t) : list (DateTime * DateTime) :=
  map (fun bucket => (bucket, CycleWrite.at_ c))
    (series (CycleWrite.tranches_from c) (CycleWrite.tranches_through c) TRANCHE).

Definition recorded_hours (c : CycleWrite.t) : list (DateTime * option DateTime) :=
  map (fun b => (b, None)) (series (CycleWrite.from c) (CycleWrite.through c) HOUR).

(** The facts of the protocol, over those of the pools given. *)
Definition recorded_facts (from through : Z) (hourly : gmap (Pubkey * DateTime) (PoolFacts.t N))
    (m : gmap DateTime (ProtocolFacts.t N)) : gmap DateTime (ProtocolFacts.t N) :=
  foldr (fun bucket m => <[bucket := protocol_facts (map snd (List.filter (fun row => snd (fst row) =? bucket)
    (map_to_list (K := Pubkey * DateTime) hourly)))]> m) m (series from through HOUR).

(** What the transaction of [c] makes of [t]. *)
Record cycled t c t' : Prop := {
  y_hours : Tables.analytic_hours t' =
    frozen_hours c (Tables.analytic_hours t ∪ list_to_map (recorded_hours c));
  y_tranches : Tables.analytic_tranches t' = list_to_map (recorded_tranches c) ∪ Tables.analytic_tranches t;
  y_rows : exists new,
    tranche_rows t' ≡ₚ new ++ tranche_rows t /\
    forall p b r, In ((p, b), r) new ->
      aligned TRANCHE b /\ CycleWrite.tranches_from c <= b <= CycleWrite.tranches_through c;
  y_hourly : Tables.analytic_pool_hourly t' =
    (summed_facts <$> hour_groups t' (CycleWrite.from c) (CycleWrite.through c)) ∪ Tables.analytic_pool_hourly t;
  y_protocol : Tables.analytic_protocol_hourly t' =
    recorded_facts (CycleWrite.from c) (CycleWrite.through c) (Tables.analytic_pool_hourly t')
      (Tables.analytic_protocol_hourly t);
}.

(** A statement on the other tables, then the rest. *)
Lemma runs_other_then {A} s (k : Tx N O A) t (K : _ -> Prop) (Q : A -> Tables.t N O -> Prop) :
  K (core t) -> (forall t', K (core t') -> runs k t' Q) -> runs (other s ;;& k) t Q.
Proof.
  intros HK Hk. eapply runs_bind.
  - apply runs_other with (Q := fun _ t' => K (core t')). intros t' ->. exact HK.
  - intros [] t' Ht'. by apply Hk.
Qed.

Section Body.
Context (t t1 : Tables.t N O) (c : CycleWrite.t).

(** The tables of the plan from the tranches on: those of [t], the tranches of
    [t1] recorded, the hours as given and the facts of the hours [upserted]. *)
Definition upserted : gmap (Pubkey * DateTime) (PoolFacts.t N) :=
  summed_facts <$> hour_groups t1 (CycleWrite.from c) (CycleWrite.through c).
Definition recorded_core (hours : gmap DateTime (option DateTime))
    (hourly : gmap (Pubkey * DateTime) (PoolFacts.t N)) (protocol : gmap DateTime (ProtocolFacts.t N))
    (k : Core) : Prop :=
  k = (hours, list_to_map (recorded_tranches c) ∪ Tables.analytic_tranches t,
       Tables.analytic_pool_5min t1, hourly, protocol).
Notation K5 hours := (recorded_core hours (upserted ∪ Tables.analytic_pool_hourly t)
  (recorded_facts (CycleWrite.from c) (CycleWrite.through c) (upserted ∪ Tables.analytic_pool_hourly t)
    (Tables.analytic_protocol_hourly t))).
Notation frozen := (frozen_hours c (Tables.analytic_hours t ∪ list_to_map (recorded_hours c))).

Lemma runs_freeze t6 :
  K5 (Tables.analytic_hours t ∪ list_to_map (recorded_hours c)) (core t6) ->
  runs (match CycleWrite.freeze_through c with
    | Some through =>
        let& frozen := freeze (CycleWrite.from c) through (CycleWrite.at_ c) in
        other (WriteProtocolPeriods (CycleWrite.from c) through) ;;&
        other DeleteTokenPeriods ;;&
        other (WriteTokenPeriods through) ;;&
        tx_ret frozen
    | None => tx_ret 0
    end) t6 (fun _ t' => K5 frozen (core t')).
Proof.
  intros Ht6. unfold frozen_hours. destruct (CycleWrite.freeze_through c) as [fz|]; [|by apply runs_ret].
  eapply runs_bind.
  { eapply runs_statement with (Q := fun _ t' => K5 (map_imap (fun bucket frozen_at =>
      Some (if to_freeze (CycleWrite.from c) fz bucket frozen_at
          then Some (CycleWrite.at_ c) else frozen_at))
      (Tables.analytic_hours t ∪ list_to_map (recorded_hours c))) (core t')); [done|].
    unfold recorded_core, core in *. simpl. by injection Ht6 as -> -> -> -> ->. }
  intros n t7 Ht7.
  do 3 (eapply (runs_other_then _ _ _ (K5 _)); [exact Ht7|]; clear dependent t7; intros t7 Ht7).
  by apply runs_ret.
Qed.

Lemma runs_hours t3 n :
  recorded_core (Tables.analytic_hours t) (Tables.analytic_pool_hourly t) (Tables.analytic_protocol_hourly t)
    (core t3) ->
  runs (write_hours c n) t3 (fun out t' => K5 frozen (core t') /\ CycleOutcome.written out = c).
Proof.
  intros Ht3. unfold write_hours. eapply runs_bind.
  { eapply runs_statement with (Q := fun _ t' => recorded_core (Tables.analytic_hours t)
      (upserted ∪ Tables.analytic_pool_hourly t) (Tables.analytic_protocol_hourly t) (core t')); [done|].
    unfold recorded_core, core in *. simpl. injection Ht3 as -> -> H5 -> ->.
    unfold upserted, hour_groups, tranche_rows. by rewrite H5. }
  intros hours t4 Ht4. eapply runs_bind.
  { eapply runs_statement with (Q := fun _ t' => K5 (Tables.analytic_hours t) (core t')); [done|].
    unfold recorded_core, core, hourly_rows in *. simpl. injection Ht4 as -> -> -> -> ->. done. }
  intros [] t5 Ht5.
  do 3 (eapply (runs_other_then _ _ _ (K5 (Tables.analytic_hours t))); [done|]; clear dependent t5; intros t5 Ht5).
  eapply runs_bind.
  { eapply runs_statement with (Q := fun _ t' =>
      K5 (Tables.analytic_hours t ∪ list_to_map (recorded_hours c)) (core t')); [done|].
    unfold recorded_core, core in *. simpl. by injection Ht5 as -> -> -> -> ->. }
  intros [] t6 Ht6. eapply runs_bind; [by apply runs_freeze|].
  intros m t7 Ht7. eapply (runs_other_then _ _ _ (K5 _)); [exact Ht7|]. clear dependent t7. intros t7 Ht7.
  eapply runs_bind.
  { instantiate (1 := fun _ t' => K5 _ (core t')). destruct (CycleWrite.tvl_hour c); [|by apply runs_ret].
    eapply (runs_other_then _ _ _ (K5 _)); [exact Ht7|]. clear dependent t7. intros t7 Ht7.
    apply runs_other. intros t8 ->. exact Ht7. }
  intros [] t8 Ht8. by apply runs_query.
Qed.
End Body.

Lemma runs_body t planned c :
  without_written planned (progress_of t) = Done c ->
  aligned TRANCHE (CycleWrite.tranches_from c) -> aligned TRANCHE (CycleWrite.tranches_through c) ->
  (forall p b r, Tables.analytic_pool_5min t !! (p, b) = Some r -> b < CycleWrite.tranches_from c) ->
  (forall b : DateTime, is_Some (Tables.analytic_tranches t !! b) -> b < CycleWrite.tranches_from c) ->
  runs (write_cycle_body planned) t (fun out t' => cycled t c t' /\ CycleOutcome.written out = c).
Proof.
  intros Hleft Haf Hat Hrows Htr. unfold write_cycle_body.
  eapply runs_bind; [by apply runs_query with (Q := fun _ t' => t' = t)|]. intros [] ? ->.
  eapply runs_bind; [by apply runs_query with (Q := fun _ t' => t' = t)|]. intros [] ? ->.
  eapply runs_bind; [by apply runs_query with (Q := fun w t' => w = progress_of t /\ t' = t)|].
  intros ? ? [-> ->].
  eapply runs_bind; [by eapply runs_exec with (Q := fun c' t' => c' = c /\ t' = t)|]. intros ? ? [-> ->].
  cbv zeta. eapply runs_bind; [by eapply runs_value_tranches|]. intros n t1 [(Hh & Ht & [Hho Hpr] & Hnew) _].
  eapply runs_bind.
  { eapply runs_statement with (Q := fun _ t' => core t' =
      (Tables.analytic_hours t, list_to_map (recorded_tranches c) ∪ Tables.analytic_tranches t,
       Tables.analytic_pool_5min t1, Tables.analytic_pool_hourly t, Tables.analytic_protocol_hourly t)).
    - rewrite insert_new_ok; [done| |].
      + rewrite <-list_fmap_compose. rewrite (list_fmap_ext _ id) by done. rewrite list_fmap_id.
        by apply NoDup_series.
      + intros b a Hin. apply list_elem_of_In, in_map_iff in Hin as (b' & [= <- <-] & Hb).
        apply list_elem_of_In, elem_of_aligned_series in Hb as [_ Hb]; [|done|done].
        rewrite Ht. destruct (Tables.analytic_tranches t !! b') eqn:Hl; [|done].
        assert (b' < CycleWrite.tranches_from c) by (apply Htr; by eexists). lia.
    - unfold core. simpl. by rewrite Hh, Ht, Hho, Hpr. }
  intros [] t2 Ht2. eapply runs_bind.
  { instantiate (1 := fun _ t' => core t' = core t2). destruct (0 <? n); [|by apply runs_ret].
    eapply (runs_other_then _ _ _ (fun k => k = core t2)); [done|]. intros t' Ht'.
    apply runs_other. intros t'' ->. exact Ht'. }
  intros [] t3 Ht3. rewrite Ht2 in Ht3.
  eapply runs_weaken; [by apply (runs_hours t t1 c)|]. intros out t8 [Ht8 Hout]. split; [|done].
  unfold recorded_core, core in Ht8. injection Ht8 as Hh8 Ht8 H58 Hho8 Hpr8. split; [done|done| | |].
  - unfold tranche_rows. by rewrite H58.
  - rewrite Hho8. unfold upserted, hour_groups, tranche_rows. by rewrite H58.
  - rewrite Hpr8, Hho8. done.
Qed.

(** *** The hours after it *)

Lemma hour_bucket_grid b : aligned HOUR (hour_bucket b) /\ hour_bucket b <= b < hour_bucket b + HOUR.
Proof.
  change (hour_bucket b) with (floor_to HOUR b). split; [by apply aligned_floor|].
  pose proof (floor_le HOUR b HOUR_pos). lia.
Qed.

Lemma nonempty_Some {A} (l : list A) : is_Some (nonempty l) <-> l <> [].
Proof. destruct l; simpl; [|by split; [|eexists]]. split; [intros [? ?]; done|done]. Qed.

Lemma hour_total_Some t k :
  is_Some (hour_total t k) <-> group_of k (tranche_rows t) <> [].
Proof. unfold hour_total. by rewrite fmap_is_Some, groups_lookup, nonempty_Some. Qed.

Lemma hour_total_aligned t p h : is_Some (hour_total t (p, h)) -> aligned HOUR h.
Proof.
  rewrite hour_total_Some. intros Hne. destruct (decide (aligned HOUR h)) as [|Hna]; [done|].
  exfalso. apply Hne, group_of_nil. intros [[p' b] r] _ [= _ Hb]. apply Hna. subst h. apply hour_bucket_grid.
Qed.

Lemma hour_total_Permutation t t' k :
  group_of k (tranche_rows t') ≡ₚ
    group_of k (tranche_rows t) ->
  hour_total t' k = hour_total t k.
Proof.
  intros Hp. unfold hour_total. rewrite !groups_lookup.
  destruct (group_of k (tranche_rows t')) eqn:H'.
  - apply Permutation_nil in Hp. by rewrite Hp.
  - destruct (group_of k (tranche_rows t)) eqn:H''.
    + symmetry in Hp. by apply Permutation_nil in Hp.
    + simpl. f_equal. by apply summed_facts_Permutation.
Qed.

Section After.
Context (t t' : Tables.t N O) (c : CycleWrite.t).
Hypothesis Hcycle : cycled t c t'.

Lemma hour_total_grows k : is_Some (hour_total t k) -> is_Some (hour_total t' k).
Proof.
  rewrite !hour_total_Some. destruct (y_rows _ _ _ Hcycle) as (new & Hp & _).
  apply (group_of_Permutation k) in Hp. rewrite group_of_app in Hp.
  intros Hne Heq. rewrite Heq in Hp. apply Permutation_nil in Hp. by apply app_eq_nil in Hp as [_ ?].
Qed.

Lemma hour_total_before p h :
  h + HOUR <= CycleWrite.tranches_from c -> hour_total t' (p, h) = hour_total t (p, h).
Proof.
  intros Hh. apply hour_total_Permutation. destruct (y_rows _ _ _ Hcycle) as (new & Hp & Hnew).
  apply (group_of_Permutation (p, h)) in Hp. rewrite group_of_app, (group_of_nil _ new) in Hp; [done|].
  intros [[p' b] r] Hin [= _ Hb]. destruct (Hnew _ _ _ Hin) as [_ ?].
  destruct (hour_bucket_grid b). unfold row_hour in Hb. simpl in Hb. lia.
Qed.

Hypothesis Hfrom : aligned HOUR (CycleWrite.from c).
Hypothesis Hthrough : aligned HOUR (CycleWrite.through c).

Lemma hourly_rewritten p h :
  CycleWrite.from c <= h <= CycleWrite.through c ->
  (is_Some (Tables.analytic_pool_hourly t !! (p, h)) -> is_Some (hour_total t (p, h))) ->
  Tables.analytic_pool_hourly t' !! (p, h) = hour_total t' (p, h).
Proof.
  intros Hh Hold. rewrite (y_hourly _ _ _ Hcycle).
  assert ((summed_facts <$> hour_groups t' (CycleWrite.from c) (CycleWrite.through c)) !! (p, h) =
    hour_total t' (p, h)) as Hg.
  { unfold hour_total, hour_groups. rewrite lookup_fmap, !groups_lookup. do 2 f_equal.
    apply group_of_filter. intros [[p' b] r] [= _ Hb]. simpl in *.
    destruct (hour_bucket_grid b). apply andb_true_iff. rewrite Z.leb_le, Z.ltb_lt. unfold HOUR in *. lia. }
  destruct (hour_total t' (p, h)) as [r|] eqn:Ht'.
  - by apply lookup_union_Some_l.
  - rewrite lookup_union_r by exact Hg. destruct (Tables.analytic_pool_hourly t !! (p, h)) eqn:Ho; [|done].
    destruct (hour_total_grows (p, h)) as [? ?]; [by apply Hold; eexists|congruence].
Qed.

(** *** The protocol's hours *)

Lemma if_decide_ext {A} (P Q : Prop) `{Decision P, Decision Q} (a b : A) :
  (P <-> Q) -> (if bool_decide P then a else b) = (if bool_decide Q then a else b).
Proof. intros HPQ. by rewrite (bool_decide_ext P Q HPQ). Qed.

Lemma foldr_insert_lookup {V} (g : Z -> V) (l : list Z) (m : gmap Z V) (k : Z) :
  foldr (fun b m => <[b := g b]> m) m l !! k = if bool_decide (k ∈ l) then Some (g k) else m !! k.
Proof.
  induction l as [|b l IH]; [by rewrite bool_decide_eq_false_2 by apply not_elem_of_nil|]. cbn [foldr].
  destruct (Z.eq_dec b k) as [->|Hne].
  - rewrite lookup_insert_eq, bool_decide_eq_true_2; [done|by left].
  - rewrite lookup_insert_ne, IH by done. apply if_decide_ext.
    rewrite elem_of_cons. naive_solver.
Qed.

Lemma protocol_after (h : DateTime) :
  Tables.analytic_protocol_hourly t' !! h =
    if bool_decide (aligned HOUR h /\ CycleWrite.from c <= h <= CycleWrite.through c)
    then Some (protocol_facts (hourly_rows t' h)) else Tables.analytic_protocol_hourly t !! h.
Proof.
  rewrite (y_protocol _ _ _ Hcycle). unfold recorded_facts.
  rewrite (foldr_insert_lookup (fun b => protocol_facts (hourly_rows t' b))).
  apply if_decide_ext. apply elem_of_aligned_series; [apply HOUR_pos|exact Hfrom].
Qed.

Lemma hourly_left p h :
  h < CycleWrite.from c \/ CycleWrite.through c < h ->
  Tables.analytic_pool_hourly t' !! (p, h) = Tables.analytic_pool_hourly t !! (p, h).
Proof.
  intros Hh. rewrite (y_hourly _ _ _ Hcycle). apply lookup_union_r.
  unfold hour_groups. rewrite lookup_fmap, groups_lookup, group_of_nil; [done|].
  intros [[p' b] r] Hin [= _ Hb]. apply List.filter_In in Hin as [_ Hin]. simpl in *.
  apply andb_true_iff in Hin as [H1' H2']. apply Z.leb_le in H1'. apply Z.ltb_lt in H2'.
  destruct (hour_bucket_grid b) as [Hg Hbb]. fold HOUR in H2'.
  pose proof (floor_lower HOUR b _ HOUR_pos Hfrom H1') as Hlo. change (floor_to HOUR b) with (hour_bucket b) in Hlo.
  destruct (Z.le_gt_cases (hour_bucket b) (CycleWrite.through c)) as [|Hgt]; [lia|].
  pose proof (aligned_gap HOUR _ _ HOUR_pos Hthrough Hg Hgt). lia.
Qed.
End After.

Lemma protocol_facts_kept t t' (h : DateTime) :
  (forall p : Pubkey, Tables.analytic_pool_hourly t' !! (p, h) = Tables.analytic_pool_hourly t !! (p, h)) ->
  protocol_facts (hourly_rows t h) = protocol_facts (hourly_rows t' h).
Proof.
  intros Hp. apply protocol_facts_Permutation, Permutation_map.
  apply (map_to_list_agree (K := Pubkey * DateTime) (fun k => snd k =? h)).
  intros [p h'] Heq. cbn [snd] in Heq. apply Z.eqb_eq in Heq as ->. symmetry. apply Hp.
Qed.

(** The cycle as [without_written_consistent] leaves it. *)
Definition left_cycle (planned : CycleWrite.t) F T (tvl : option DateTime) : CycleWrite.t :=
  CycleWrite.mk (T + TRANCHE) (CycleWrite.tranches_through planned) (F + HOUR) (CycleWrite.through planned)
    (freezing planned F T) tvl (CycleWrite.at_ planned).

(** The last hour frozen after it. *)
Definition frozen_after (planned : CycleWrite.t) F T : Z := default F (freezing planned F T).

Lemma freezing_bounds planned f F T h :
  plannable planned f F T -> freezing planned F T = Some h ->
  aligned HOUR h /\ F + HOUR <= h /\ h <= CycleWrite.through planned /\
  h + HOUR + FREEZE_MARGIN <= CycleWrite.at_ planned /\
  h + HOUR <= Z.max T (CycleWrite.tranches_through planned) + TRANCHE.
Proof.
  intros [_ _ Hpt _ Hpfr] Hfz. unfold freezing in Hfz.
  destruct (CycleWrite.freeze_through planned) as [closed|]; [|done]. destruct Hpfr as [Hac Hclosed].
  set (T' := Z.max T _) in *. pose proof (floor_le HOUR (T' + TRANCHE) HOUR_pos).
  assert (aligned HOUR (floor_to HOUR (T' + TRANCHE) - HOUR)) as Hafl.
  { replace (_ - HOUR) with (floor_to HOUR (T' + TRANCHE) + (-1) * HOUR) by lia.
    by apply aligned_add, aligned_floor. }
  case_match eqn:Hle; [|done]. apply Z.leb_le in Hle. injection Hfz as <-. split; [|lia].
  destruct (Z.min_spec (Z.min closed (CycleWrite.through planned)) (floor_to HOUR (T' + TRANCHE) - HOUR))
    as [[_ ->]|[_ ->]]; [|done].
  by destruct (Z.min_spec closed (CycleWrite.through planned)) as [[_ ->]|[_ ->]].
Qed.

Section Kept.
Context (t t' : Tables.t N O) (planned : CycleWrite.t) (f L F T : Z) (tvl : option DateTime).
Hypothesis Hc : consistent t f L F T.
Hypothesis Hp : plannable planned f F T.
Hypothesis Hcycle : cycled t (left_cycle planned F T tvl) t'.
Notation F' := (frozen_after planned F T).
Notation through := (CycleWrite.through planned).
Notation T' := (Z.max T (CycleWrite.tranches_through planned)).

Lemma frozen_after_spec :
  aligned HOUR F' /\ F <= F' <= Z.max L through /\ F' + HOUR <= T' + TRANCHE /\
  (F < F' -> freezing planned F T = Some F' /\ F + HOUR <= F' <= through /\
    F' + HOUR + FREEZE_MARGIN <= CycleWrite.at_ planned).
Proof.
  destruct (c_grid _ _ _ _ _ Hc) as (_ & _ & _ & HaF & _). pose proof (c_order _ _ _ _ _ Hc).
  pose proof HOUR_pos. unfold frozen_after. destruct (freezing planned F T) as [h|] eqn:Hfz; simpl.
  - destruct (freezing_bounds _ _ _ _ _ Hp Hfz) as (? & ? & ? & ? & ?). split_and!; try done; lia.
  - split_and!; try done; lia.
Qed.

Lemma recorded_lookup (h : DateTime) :
  (Tables.analytic_hours t ∪ list_to_map (recorded_hours (left_cycle planned F T tvl))) !! h =
    match Tables.analytic_hours t !! h with
    | Some v => Some v
    | None => if bool_decide (aligned HOUR h /\ f <= h <= Z.max L through) then Some None else None
    end.
Proof.
  destruct (c_grid _ _ _ _ _ Hc) as (Hf & Haf & HaL & HaF & _). destruct (c_order _ _ _ _ _ Hc) as [[Hf1 Hf2] _].
  pose proof HOUR_pos as HHp.
  assert (aligned HOUR (F + HOUR)) as HaFH by (replace (F + HOUR) with (F + 1 * HOUR) by lia; by apply aligned_add).
  assert (forall h', h' ∈ series (F + HOUR) through HOUR <-> aligned HOUR h' /\ F + HOUR <= h' <= through) as Hs.
  { intros h'. by apply elem_of_aligned_series. }
  destruct (Tables.analytic_hours t !! h) as [v|] eqn:Hh.
  { by apply lookup_union_Some_l. }
  rewrite lookup_union_r by done. unfold recorded_hours. rewrite lookup_const_list.
  pose proof (proj2 (c_hours _ _ _ _ _ Hc h)) as Hin. rewrite Hh, is_Some_alt in Hin.
  destruct (bool_decide_reflect (aligned HOUR h /\ f <= h <= Z.max L through)) as [[Ha Hr]|Hno].
  - rewrite bool_decide_eq_true_2; [reflexivity|]. simpl. apply Hs. split; [exact Ha|].
    destruct (Z.le_gt_cases h L) as [Hle|Hgt]; [exfalso; apply Hin; split; [exact Ha|lia]|].
    pose proof (aligned_gap HOUR _ _ HHp HaL Ha Hgt). lia.
  - rewrite bool_decide_eq_false_2; [reflexivity|]. simpl.
    intros [Ha Hr]%Hs. apply Hno. split; [exact Ha|lia].
Qed.

(** An hour frozen stays so; those of the cycle up to [F'] are, at its instant. *)
Lemma hours_after (h : DateTime) :
  Tables.analytic_hours t' !! h =
    match Tables.analytic_hours t !! h with
    | Some (Some a) => Some (Some a)
    | _ => if bool_decide (aligned HOUR h /\ f <= h <= Z.max L through)
           then Some (if bool_decide (F < h <= F') then Some (CycleWrite.at_ planned) else None) else None
    end.
Proof.
  rewrite (y_hours _ _ _ Hcycle).
  assert (forall hours : gmap DateTime (option DateTime),
    frozen_hours (left_cycle planned F T tvl) hours !! h =
      (fun a => if to_freeze (F + HOUR) F' h a then Some (CycleWrite.at_ planned) else a) <$> hours !! h) as Hfr.
  { intros hours. destruct frozen_after_spec as (_ & HF' & _ & _). unfold frozen_hours, frozen_after. simpl.
    destruct (freezing planned F T) as [fz|]; simpl.
    - rewrite map_lookup_imap. by destruct (hours !! h).
    - destruct (hours !! h) as [a|]; [|done]. simpl.
      assert (to_freeze (F + HOUR) F h a = false) as ->; [|done]. unfold to_freeze. pose proof HOUR_pos.
      destruct (Z.leb_spec (F + HOUR) h), (Z.leb_spec h F); try done. lia. }
  rewrite Hfr, recorded_lookup. clear Hfr.
  destruct (c_grid _ _ _ _ _ Hc) as (_ & _ & _ & HaF & _).
  assert (forall a, aligned HOUR h -> to_freeze (F + HOUR) F' h a = bool_decide (F < h <= F') && negb (is_frozen a)) as Hto.
  { intros a Ha. unfold to_freeze. f_equal. apply eq_true_iff_eq.
    rewrite andb_true_iff, !Z.leb_le, bool_decide_eq_true. pose proof HOUR_pos.
    split; [lia|]. intros [Hlt ?]. pose proof (aligned_gap HOUR F h HOUR_pos HaF Ha Hlt). lia. }
  pose proof (proj1 (c_hours _ _ _ _ _ Hc h)) as Hheld.
  destruct (Tables.analytic_hours t !! h) as [[a|]|].
  - destruct Hheld as [Ha _]; [by eexists|]. simpl. by rewrite Hto, andb_false_r.
  - destruct Hheld as [Ha Hr]; [by eexists|]. simpl. rewrite Hto, andb_true_r by done.
    destruct (bool_decide_reflect (aligned HOUR h /\ f <= h <= Z.max L through)) as [|Hno].
    + by destruct (bool_decide (F < h <= F')).
    + exfalso. apply Hno. split; [done|lia].
  - destruct (bool_decide_reflect (aligned HOUR h /\ f <= h <= Z.max L through)) as [Hin|]; [|done].
    simpl. rewrite Hto, andb_true_r by apply Hin.
    by destruct (bool_decide (F < h <= F')).
Qed.

Lemma tranches_after (b : DateTime) :
  Tables.analytic_tranches t' !! b =
    match Tables.analytic_tranches t !! b with
    | Some a => Some a
    | None => if bool_decide (aligned TRANCHE b /\ f <= b <= T') then Some (CycleWrite.at_ planned) else None
    end.
Proof.
  destruct (c_grid _ _ _ _ _ Hc) as (Hf & Haf & HaL & HaF & HaT).
  destruct (c_order _ _ _ _ _ Hc) as [[Hf1 Hf2] [HFT _]]. pose proof TRANCHE_pos as HTp.
  assert (aligned TRANCHE (T + TRANCHE)) as Ha1 by (replace (T + TRANCHE) with (T + 1 * TRANCHE) by lia; by apply aligned_add).
  pose proof (elem_of_aligned_series b (T + TRANCHE) (CycleWrite.tranches_through planned) TRANCHE HTp Ha1) as Hs.
  pose proof (c_tranches _ _ _ _ _ Hc b) as Hb.
  rewrite (y_tranches _ _ _ Hcycle). unfold recorded_tranches.
  destruct (decide (b ∈ series (T + TRANCHE) (CycleWrite.tranches_through planned) TRANCHE)) as [Hin|Hout].
  - rewrite lookup_union_l'; rewrite lookup_const_list, bool_decide_eq_true_2 by done; [|by eexists].
    apply Hs in Hin as [Ha Hr]. destruct (Tables.analytic_tranches t !! b) as [a|] eqn:Ht.
    + exfalso. destruct (proj1 Hb) as [_ ?]; [by eexists|lia].
    + rewrite bool_decide_eq_true_2; [done|]. split; [done|lia].
  - rewrite lookup_union_r by (rewrite lookup_const_list; by rewrite bool_decide_eq_false_2).
    destruct (Tables.analytic_tranches t !! b) as [a|] eqn:Ht; [done|].
    rewrite bool_decide_eq_false_2; [done|]. intros [Ha Hr].
    destruct (Z.le_gt_cases b T) as [Hle|Hgt].
    + destruct (proj2 Hb) as [? ?]; [split; [done|lia]|congruence].
    + apply Hout, Hs. split; [done|]. pose proof (aligned_gap TRANCHE T b HTp HaT Ha Hgt). lia.
Qed.

Lemma hours_held_after (h : DateTime) :
  is_Some (Tables.analytic_hours t' !! h) <-> aligned HOUR h /\ f <= h <= Z.max L through.
Proof.
  rewrite hours_after. pose proof (c_hours _ _ _ _ _ Hc h) as Hh.
  destruct (bool_decide_reflect (aligned HOUR h /\ f <= h <= Z.max L through)) as [Hin|Hout].
  - split; [done|]. intros _. by destruct (Tables.analytic_hours t !! h) as [[a|]|]; eexists.
  - split; [|done]. destruct (Tables.analytic_hours t !! h) as [[a|]|] eqn:Hl; [|by intros [? ?]..].
    intros _. destruct (proj1 Hh) as [Ha Hr]; [by eexists|]. split; [done|lia].
Qed.

Lemma hours_frozen_after (h : DateTime) :
  (exists a, Tables.analytic_hours t' !! h = Some (Some a)) <-> aligned HOUR h /\ f <= h <= F'.
Proof.
  destruct frozen_after_spec as (HaF' & HF' & _ & _). destruct (c_order _ _ _ _ _ Hc) as [[Hf1 _] _].
  rewrite hours_after. pose proof (c_frozen _ _ _ _ _ Hc h) as Hh.
  destruct (c_grid _ _ _ _ _ Hc) as (_ & Haf & _ & HaF & _).
  assert (aligned HOUR h -> F < h -> f <= h) as Hlow.
  { intros Ha Hlt. pose proof (aligned_gap HOUR F h HOUR_pos HaF Ha Hlt). lia. }
  destruct (Tables.analytic_hours t !! h) as [[a|]|] eqn:Hl.
  { split; [|by eexists]. intros _. destruct (proj1 Hh) as [Ha Hr]; [by eexists|]. split; [done|lia]. }
  all: assert (~ (aligned HOUR h /\ f <= h <= F)) as Hno by (rewrite <-Hh; intros [a' ?]; congruence).
  all: destruct (bool_decide_reflect (aligned HOUR h /\ f <= h <= Z.max L through)) as [[Ha Hr]|Hout];
    [destruct (bool_decide_reflect (F < h <= F')) as [Hz|Hz]|].
  all: split; [intros [a' [=]]|intros [Ha' Hr']]; try (by eexists); try (split; [done|lia]); exfalso.
  all: first [apply Hno; split; [done|lia] | apply Hout; split; [done|lia]].
Qed.

Lemma hour_total_kept p h : h <= F -> hour_total t' (p, h) = hour_total t (p, h).
Proof.
  intros Hle. apply (hour_total_before _ _ _ Hcycle). simpl. destruct (c_order _ _ _ _ _ Hc) as [_ [? _]]. lia.
Qed.

Lemma hourly_after (p : Pubkey) (h : DateTime) :
  Tables.analytic_pool_hourly t' !! (p, h) =
    if bool_decide (F + HOUR <= h <= through) then hour_total t' (p, h)
    else Tables.analytic_pool_hourly t !! (p, h).
Proof.
  destruct (c_grid _ _ _ _ _ Hc) as (_ & _ & _ & HaF & _).
  assert (aligned HOUR (F + HOUR)) as HaFH by (replace (F + HOUR) with (F + 1 * HOUR) by lia; by apply aligned_add).
  destruct (bool_decide_reflect (F + HOUR <= h <= through)) as [Hin|Hout].
  - apply (hourly_rewritten _ _ _ Hcycle); [done|].
    apply (c_hourly _ _ _ _ _ Hc).
  - apply (hourly_left _ _ _ Hcycle); [done|exact (p_through _ _ _ _ Hp)|]. simpl. lia.
Qed.

Lemma rows_recorded_after (p : Pubkey) (b : DateTime) r :
  Tables.analytic_pool_5min t' !! (p, b) = Some r -> is_Some (Tables.analytic_tranches t' !! b).
Proof.
  intros Hr. rewrite tranches_after.
  destruct (y_rows _ _ _ Hcycle) as (new & Hperm & Hnew).
  apply (elem_of_map_to_list (K := Pubkey * DateTime)) in Hr. fold (tranche_rows t') in Hr.
  rewrite Hperm in Hr. destruct (c_order _ _ _ _ _ Hc) as [[? _] [? _]].
  apply elem_of_app in Hr as [Hr|Hr].
  - apply list_elem_of_In, Hnew in Hr as [Ha Hb]. simpl in Hb. pose proof TRANCHE_pos.
    destruct (Tables.analytic_tranches t !! b); [by eexists|].
    rewrite bool_decide_eq_true_2; [by eexists|]. split; [done|lia].
  - apply elem_of_map_to_list, (c_rows _ _ _ _ _ Hc) in Hr as [a ->]. by eexists.
Qed.

Lemma facts_after (p : Pubkey) (h : DateTime) : h <= F' -> Tables.analytic_pool_hourly t' !! (p, h) = hour_total t' (p, h).
Proof.
  intros Hle. rewrite hourly_after. case_bool_decide as Hin; [done|].
  destruct (Z.le_gt_cases h F) as [HF|HF].
  { by rewrite hour_total_kept, (c_facts _ _ _ _ _ Hc) by done. }
  destruct frozen_after_spec as (_ & _ & _ & Hfz). destruct Hfz as (_ & Hfz & _); [lia|].
  destruct (c_grid _ _ _ _ _ Hc) as (_ & _ & _ & HaF & _).
  assert (~ aligned HOUR h) as Hna.
  { intros Ha. pose proof (aligned_gap HOUR F h HOUR_pos HaF Ha ltac:(lia)). lia. }
  destruct (hour_total t' (p, h)) as [r|] eqn:Ht.
  { exfalso. apply Hna, (hour_total_aligned t' p). by eexists. }
  destruct (Tables.analytic_pool_hourly t !! (p, h)) as [r|] eqn:Ho; [|done].
  exfalso. apply Hna, (hour_total_aligned t p), (c_hourly _ _ _ _ _ Hc). by eexists.
Qed.

Lemma consistent_after : consistent t' f (Z.max L through) F' T'.
Proof.
  destruct (c_grid _ _ _ _ _ Hc) as (Hf & Haf & HaL & HaF & HaT).
  destruct (c_order _ _ _ _ _ Hc) as [[Hf1 Hf2] [HFT HTb]].
  destruct frozen_after_spec as (HaF' & HF' & HFT' & Hfz).
  destruct Hp as [_ _ Hpt [Hptt Hpat] _]. pose proof HOUR_pos as HHp. pose proof TRANCHE_pos as HTp.
  assert (aligned HOUR (F + HOUR)) as HaFH by (replace (F + HOUR) with (F + 1 * HOUR) by lia; by apply aligned_add).
  split.
  - split_and!; [done|done| |done|].
    + by destruct (Z.max_spec L through) as [[_ ->]|[_ ->]].
    + by destruct (Z.max_spec T (CycleWrite.tranches_through planned)) as [[_ ->]|[_ ->]].
  - assert (0 < FREEZE_MARGIN) by done. lia.
  - exact hours_held_after.
  - exact hours_frozen_after.
  - intros h a. rewrite hours_after.
    destruct (Tables.analytic_hours t !! h) as [[a'|]|] eqn:Hl.
    { intros [= <-]. by eapply c_frozen_at. }
    all: repeat case_bool_decide; intros [= <-]; lia.
  - intros b. rewrite tranches_after. pose proof (c_tranches _ _ _ _ _ Hc b) as Hb.
    destruct (Tables.analytic_tranches t !! b) as [a|] eqn:Hl.
    + destruct (proj1 Hb) as [? ?]; [by eexists|]. split; [intros _; split; [done|lia]|by eexists].
    + case_bool_decide; [by split|]. split; [by intros [? ?]|done].
  - intros b a. rewrite tranches_after. destruct (Tables.analytic_tranches t !! b) as [a'|] eqn:Hl.
    + intros [= <-]. by eapply c_written_at.
    + case_bool_decide as Hb; [|done]. intros [= <-].
      pose proof (proj2 (c_tranches _ _ _ _ _ Hc b)) as Hold. rewrite Hl, is_Some_alt in Hold.
      destruct (Z.le_gt_cases b T) as [Hle|Hgt]; [exfalso; apply Hold; split; [apply Hb|lia]|]. lia.
  - exact rows_recorded_after.
  - intros [p h]. rewrite hourly_after. case_bool_decide; [done|]. intros Hs.
    by apply (hour_total_grows _ _ _ Hcycle), (c_hourly _ _ _ _ _ Hc).
  - exact facts_after.
  - intros h. rewrite (protocol_after _ _ _ Hcycle) by exact HaFH. simpl. case_bool_decide as Hin.
    + intros _. split; [apply Hin|lia].
    + apply (c_protocol _ _ _ _ _ Hc).
  - intros h Ha Hh. rewrite (protocol_after _ _ _ Hcycle) by exact HaFH. simpl.
    case_bool_decide as Hin; [done|].
    assert (h <= F) as HhF.
    { destruct (Z.le_gt_cases h F) as [|Hgt]; [done|]. exfalso. apply Hin. split; [done|].
      pose proof (aligned_gap HOUR F h HOUR_pos HaF Ha ltac:(lia)). destruct Hfz as (_ & ? & _); lia. }
    rewrite (c_protocol_facts _ _ _ _ _ Hc) by (done || lia). f_equal.
    apply protocol_facts_kept. intros p. rewrite hourly_after, bool_decide_eq_false_2; [done|]. lia.
Qed.
End Kept.

(** *** Planning *)

Definition clock (now : DateTime) : Prop := HOUR + FREEZE_MARGIN <= now < 2 ^ 63.

(** What a plan made on these tables at [now] asks for. *)
Lemma plan_consistent t f L F T now :
  consistent t f L F T -> clock now -> f <= L \/ f = floor_to HOUR now ->
  exists c, plan now (progress_of t) = Done c /\ plannable c f F T /\
    CycleWrite.through c = Z.min (floor_to HOUR now) (F + HOUR + 5 * HOUR) /\
    CycleWrite.tranches_through c =
      Z.min (floor_to TRANCHE (now - TRANCHE - FREEZE_MARGIN)) (T + TRANCHE + 71 * TRANCHE) /\
    CycleWrite.freeze_through c = freezing (CycleWrite.mk 0 (CycleWrite.tranches_through c) 0
      (CycleWrite.through c) (Some (floor_to HOUR (now - HOUR - FREEZE_MARGIN))) None now) F T.
Proof.
  intros Hc [Hn1 Hn2] HfL. pose proof HOUR_pos as HHp. pose proof TRANCHE_pos as HTp.
  assert (0 < FREEZE_MARGIN) as HM by done. pose proof HOUR_TRANCHE.
  unfold plan. rewrite hour_of_ok by (apply in_int_64; lia). cbn [exec_bind].
  change (hours_delta 1) with HOUR. rewrite (hour_of_ok (now - HOUR - FREEZE_MARGIN)) by (apply in_int_64; lia).
  cbn [exec_bind]. rewrite tranche_of_ok by (apply in_int_64; lia). cbn [exec_bind].
  destruct (c_grid _ _ _ _ _ Hc) as (Hf & Haf & HaL & HaF & HaT).
  destruct (c_order _ _ _ _ _ Hc) as [[Hf1 Hf2] [HFT HTb]].
  assert (match AnalyticProgress.last_frozen (progress_of t), AnalyticProgress.first_hour (progress_of t) with
    | Some frozen, _ => frozen + HOUR | None, Some first => first | None, None => floor_to HOUR now end = F + HOUR) as ->.
  { rewrite (progress_consistent _ _ _ _ _ Hc). unfold from_until. cbn.
    destruct (Z.leb_spec f F) as [|HFf]; [done|].
    pose proof (aligned_gap HOUR F f HHp HaF Haf HFf).
    destruct (Z.leb_spec f L); [lia|]. destruct HfL; lia. }
  assert (match AnalyticProgress.last_tranche (progress_of t) with
    | Some last => last + TRANCHE | None => F + HOUR end = T + TRANCHE) as ->.
  { rewrite (progress_consistent _ _ _ _ _ Hc). unfold from_until. cbn.
    destruct (Z.leb_spec f T) as [|HTf]; [done|].
    pose proof (aligned_gap TRANCHE T f HTp HaT (aligned_HOUR_TRANCHE _ Haf) HTf). lia. }
  change (hours_delta (MAX_HOURS_PER_CYCLE - 1)) with (5 * HOUR).
  change (TRANCHE * (MAX_TRANCHES_PER_CYCLE - 1)) with (71 * TRANCHE).
  set (inner := CycleWrite.mk _ _ _ _ _ _ _).
  assert (aligned HOUR (F + HOUR + 5 * HOUR) /\ aligned TRANCHE (T + TRANCHE + 71 * TRANCHE)) as [Ha1 Ha2].
  { replace (F + HOUR + 5 * HOUR) with (F + 6 * HOUR) by lia.
    replace (T + TRANCHE + 71 * TRANCHE) with (T + 72 * TRANCHE) by lia. split; by apply aligned_add. }
  assert (plannable inner f F T) as Hin.
  { pose proof (floor_le HOUR (now - HOUR - FREEZE_MARGIN) HHp).
    pose proof (floor_le TRANCHE (now - TRANCHE - FREEZE_MARGIN) HTp).
    split; simpl; [lia|lia| |split; [|lia]|split; [by apply aligned_floor|lia]].
    - destruct (Z.min_spec (floor_to HOUR now) (F + HOUR + 5 * HOUR)) as [[_ ->]|[_ ->]]; [by apply aligned_floor|done].
    - destruct (Z.min_spec (floor_to TRANCHE (now - TRANCHE - FREEZE_MARGIN)) (T + TRANCHE + 71 * TRANCHE))
        as [[_ ->]|[_ ->]]; [by apply aligned_floor|done]. }
  destruct (without_written_consistent _ _ _ _ _ _ Hc Hin) as [tvl Hw]. rewrite Hw.
  eexists. split; [done|]. split; [|done]. split; simpl; [lia|lia|apply Hin|apply Hin|].
  destruct (freezing inner F T) as [h|] eqn:Hfz; [|done].
  destruct (freezing_bounds _ _ _ _ _ Hin Hfz) as (? & ? & ? & ? & ?). done.
Qed.

Lemma plannable_later c f F T F1 T1 : plannable c f F T -> F <= F1 -> T <= T1 -> plannable c f F1 T1.
Proof. intros [? ? ? ? ?] HF HT. split; [lia|lia|done|done|done]. Qed.

(** *** One cycle *)

(** The retention policy drops the rows of analytic_pool_5min before an instant:
    [rows] are those ever written, the tables hold those from [from] on. *)
Definition with_rows t (rows : gmap (Pubkey * DateTime) (PoolFacts.t N)) : Tables.t N O :=
  Tables.mk (Tables.analytic_hours t) (Tables.analytic_tranches t) rows
    (Tables.analytic_pool_hourly t) (Tables.analytic_protocol_hourly t) (Tables.others t).

Definition held_from (from : DateTime) t (rows : gmap (Pubkey * DateTime) (PoolFacts.t N)) : Prop :=
  forall (p : Pubkey) (b : DateTime), Tables.analytic_pool_5min t !! (p, b) =
    if from <=? b then rows !! (p, b) else None.

Lemma held_written from t rows (p : Pubkey) (b : DateTime) r :
  held_from from t rows -> Tables.analytic_pool_5min t !! (p, b) = Some r -> rows !! (p, b) = Some r /\ from <= b.
Proof. intros Hh Hr. rewrite Hh in Hr. by destruct (Z.leb_spec from b). Qed.

(** A cycle planned on consistent tables, then or earlier, is written whole, or
    not at all because the database failed. *)
Lemma write_cycle_consistent planned (d : Db.t N O) from rows f L F T :
  consistent (with_rows (Db.tables d) rows) f L F T -> held_from from (Db.tables d) rows -> plannable planned f F T ->
  exists d' r, write_cycle planned d = Done (d', r) /\
    match r with
    | Ok out => exists tvl, CycleOutcome.written out = left_cycle planned F T tvl /\
        cycled (Db.tables d) (left_cycle planned F T tvl) (Db.tables d')
    | Err e => Db.tables d' = Db.tables d /\ exists k, fault k = Some e
    end.
Proof.
  intros Hc Hh Hp. destruct (without_written_consistent _ _ _ _ _ _ Hc Hp) as [tvl Hw].
  destruct (c_grid _ _ _ _ _ Hc) as (_ & _ & _ & _ & HaT). pose proof TRANCHE_pos.
  assert (aligned TRANCHE (T + TRANCHE)) as HaT' by (replace (T + TRANCHE) with (T + 1 * TRANCHE) by lia; by apply aligned_add).
  assert (runs (write_cycle_body planned) (Db.tables d) (fun out t' =>
    cycled (Db.tables d) (left_cycle planned F T tvl) t' /\
      CycleOutcome.written out = left_cycle planned F T tvl)) as Hruns.
  { apply runs_body; [exact Hw|exact HaT'|apply Hp| |].
    - intros p b r [Hr _]%(held_written _ _ _ _ _ _ Hh).
      apply (c_rows _ _ _ _ _ Hc), (c_tranches _ _ _ _ _ Hc) in Hr as [_ Hb]. simpl. lia.
    - intros b Hb. apply (c_tranches _ _ _ _ _ Hc) in Hb as [_ Hb]. simpl. lia. }
  destruct d as [t n]. cbn [Db.tables] in *. destruct (Hruns n) as (n' & r & Hr & HQ & _).
  unfold write_cycle, transaction. rewrite Hr. simpl. destruct r as [[out t']|e].
  - eexists _, _. split; [done|]. exists tvl. simpl. by destruct HQ.
  - eexists _, _. split; [done|]. simpl. split; [done|]. destruct HQ as (k & _ & Hk). by exists k.
Qed.

(** *** The rows dropped *)

Section Dropped.
Context (t t' : Tables.t N O) (rows : gmap (Pubkey * DateTime) (PoolFacts.t N)) (from : DateTime).
Context (planned : CycleWrite.t) (f L F T : Z) (tvl : option DateTime).
Hypothesis Hc : consistent (with_rows t rows) f L F T.
Hypothesis Hh : held_from from t rows.
Hypothesis Hfrozen : from <= F + HOUR.
Hypothesis Hcycle : cycled t (left_cycle planned F T tvl) t'.
Notation rows' := (Tables.analytic_pool_5min t' ∪ rows).

Lemma rows_before (p : Pubkey) (b : DateTime) : is_Some (rows !! (p, b)) -> b <= T.
Proof. intros [r Hr]. by apply (c_rows _ _ _ _ _ Hc), (c_tranches _ _ _ _ _ Hc) in Hr as [_ [_ ?]]. Qed.

(** A row of the tables after is one before, or of a new tranche. *)
Lemma row_kept (p : Pubkey) (b : DateTime) :
  b < T + TRANCHE -> Tables.analytic_pool_5min t' !! (p, b) = Tables.analytic_pool_5min t !! (p, b).
Proof.
  intros Hb. destruct (y_rows _ _ _ Hcycle) as (new & Hperm & Hnew).
  apply option_eq. intros r. rewrite <-!(elem_of_map_to_list (K := Pubkey * DateTime)).
  change (((p, b), r) ∈ tranche_rows t' <-> ((p, b), r) ∈ tranche_rows t). rewrite Hperm, elem_of_app.
  split; [|by right]. intros [Hin%list_elem_of_In|]; [|done]. apply Hnew in Hin as [_ Hin]. simpl in Hin. lia.
Qed.

Lemma row_after (p : Pubkey) (b : DateTime) :
  rows' !! (p, b) = if b <? T + TRANCHE then rows !! (p, b) else Tables.analytic_pool_5min t' !! (p, b).
Proof.
  pose proof TRANCHE_pos. destruct (Z.ltb_spec b (T + TRANCHE)) as [Hb|Hb].
  - destruct (Tables.analytic_pool_5min t' !! (p, b)) as [r|] eqn:Hr; [|by apply lookup_union_r].
    rewrite row_kept in Hr by done. destruct (held_written _ _ _ _ _ _ Hh Hr) as [-> _].
    apply lookup_union_Some_l. by rewrite row_kept.
  - destruct (Tables.analytic_pool_5min t' !! (p, b)) as [r|] eqn:Hr; [by apply lookup_union_Some_l|].
    rewrite lookup_union_r by done. destruct (rows !! (p, b)) eqn:Hrow; [|done].
    assert (b <= T) by (apply (rows_before p); by eexists). lia.
Qed.

Lemma held_after : held_from from t' rows'.
Proof.
  intros p b. destruct (c_order _ _ _ _ _ Hc) as [_ [HFT _]]. rewrite row_after.
  destruct (Z.ltb_spec b (T + TRANCHE)) as [Hb|Hb]; [by rewrite row_kept|].
  by rewrite (proj2 (Z.leb_le from b)) by lia.
Qed.

Lemma rows_after_perm :
  exists new, tranche_rows (with_rows t' rows') ≡ₚ new ++ tranche_rows (with_rows t rows) /\
    tranche_rows t' ≡ₚ new ++ tranche_rows t /\
    forall p b r, In ((p, b), r) new -> aligned TRANCHE b /\ T + TRANCHE <= b <= CycleWrite.tranches_through planned.
Proof.
  destruct (y_rows _ _ _ Hcycle) as (new & Hperm & Hnew). exists new. split; [|done].
  assert (NoDup (new ++ tranche_rows t)) as Hnd by (rewrite <-Hperm; apply NoDup_map_to_list).
  apply NoDup_app in Hnd as (Hnd & _ & _).
  apply NoDup_Permutation; [apply NoDup_map_to_list| |].
  - apply NoDup_app. split_and!; [done| |apply NoDup_map_to_list].
    intros [[p b] r] Hin%list_elem_of_In Hr. apply Hnew in Hin as [_ Hin]. simpl in Hin.
    apply (elem_of_map_to_list (K := Pubkey * DateTime)) in Hr.
    assert (b <= T) by (apply (rows_before p); by eexists). pose proof TRANCHE_pos. lia.
  - intros [[p b] r]. unfold tranche_rows at 1. rewrite (elem_of_map_to_list (K := Pubkey * DateTime)).
    change (Tables.analytic_pool_5min (with_rows t' rows')) with rows'. rewrite row_after, elem_of_app.
    unfold tranche_rows at 1. rewrite (elem_of_map_to_list (K := Pubkey * DateTime)).
    change (Tables.analytic_pool_5min (with_rows t rows)) with rows.
    assert (((p, b), r) ∈ new -> T + TRANCHE <= b) as Hlow.
    { intros Hin%list_elem_of_In. apply Hnew in Hin as [_ Hin]. simpl in Hin. lia. }
    destruct (Z.ltb_spec b (T + TRANCHE)) as [Hb|Hb]; [split; [by right|]; intros [Hin%Hlow|]; [lia|done]|].
    rewrite <-(elem_of_map_to_list (K := Pubkey * DateTime)).
    change (((p, b), r) ∈ tranche_rows t' <-> ((p, b), r) ∈ new \/ rows !! (p, b) = Some r).
    rewrite Hperm, elem_of_app. unfold tranche_rows. rewrite (elem_of_map_to_list (K := Pubkey * DateTime)).
    split; (intros [Hin|Hr]; [by left|]).
    + apply (held_written _ _ _ _ _ _ Hh) in Hr as [Hr _]. by right.
    + assert (b <= T) by (apply (rows_before p); by eexists). pose proof TRANCHE_pos. lia.
Qed.

(** Written on the rows held, the cycle is written on all the rows. *)
Lemma cycled_with_rows : cycled (with_rows t rows) (left_cycle planned F T tvl) (with_rows t' rows').
Proof.
  split.
  - apply (y_hours _ _ _ Hcycle).
  - apply (y_tranches _ _ _ Hcycle).
  - destruct rows_after_perm as (new & Hp & _ & Hnew). by exists new.
  - etrans; [apply (y_hourly _ _ _ Hcycle)|]. cbn [with_rows Tables.analytic_pool_hourly]. f_equal.
    apply map_eq. intros [p h]. rewrite !lookup_fmap. unfold hour_groups. rewrite !groups_lookup.
    assert (group_of (p, h) (List.filter (fun row => (F + HOUR <=? snd (fst row)) &&
        (snd (fst row) <? CycleWrite.through planned + hours_delta 1)) (tranche_rows t')) ≡ₚ
      group_of (p, h) (List.filter (fun row => (F + HOUR <=? snd (fst row)) &&
        (snd (fst row) <? CycleWrite.through planned + hours_delta 1)) (tranche_rows (with_rows t' rows')))) as Hg.
    { apply group_of_Permutation.
      apply (map_to_list_agree (K := Pubkey * DateTime) (fun k => (F + HOUR <=? snd k) &&
        (snd k <? CycleWrite.through planned + hours_delta 1))).
      intros [p' b] [Hb%Z.leb_le _]%andb_true_iff. cbn [snd] in Hb. cbn [with_rows Tables.analytic_pool_5min].
      rewrite (held_after p' b). by rewrite (proj2 (Z.leb_le from b)) by lia. }
    cbn [left_cycle CycleWrite.from CycleWrite.through]. destruct (group_of _ _) eqn:E1 in Hg |- *.
    + apply Permutation_nil in Hg. by rewrite Hg.
    + destruct (group_of _ _) eqn:E2 in Hg |- *; [symmetry in Hg; by apply Permutation_nil in Hg|].
      simpl. f_equal. by apply summed_facts_Permutation.
  - apply (y_protocol _ _ _ Hcycle).
Qed.
End Dropped.
End Invariant.
