(* ===== verification/AnalyticRuns.v ===== *)
(** * The analytic writers, interleaved

    Several writers read the progress, plan and write, in any order, over
    statements that may fail and tables the indexer changes meanwhile, from
    tables that hold an hour on (two plans read on empty tables can lose
    tranches: [two_first_plans_lose_tranches]); the retention policy drops the
    five-minute rows of frozen hours; the worker alone catches up after an
    outage. *)

From S2P Require Import Prelude Errors External Domain Store Analytic AnalyticFacts.

Section Runs.
Context {N O : Type} `{NumericLaws N} `{!AnalyticSql N O} `{!AnalyticSqlLaws N O}.
Context `{DurationTruncLaws} `{Postgres}.

Implicit Types (t : Tables.t N O) (f L F T : Z).

Definition with_others (d : Db.t N O) (o : O) : Db.t N O :=
  let t := Db.tables d in
  Db.mk (Tables.mk (Tables.analytic_hours t) (Tables.analytic_tranches t) (Tables.analytic_pool_5min t)
    (Tables.analytic_pool_hourly t) (Tables.analytic_protocol_hourly t) o) (Db.statements d).

(** The database, the cycles planned but not written, and two things the
    database does not tell: every five-minute row ever written, and the instant
    before which the retention policy has dropped them. *)
Record World : Type := World_mk {
  db : Db.t N O;
  planned : list CycleWrite.t;
  rows : gmap (Pubkey * DateTime) (PoolFacts.t N);
  dropped : DateTime;
}.

(** The tables, had nothing been dropped. *)
Definition ever (w : World) : Tables.t N O := with_rows (Db.tables (db w)) (rows w).

(** What the writers and the indexer do. *)
Inductive step : World -> World -> Prop :=
| step_plan d l rows r d' p now c :
    clock now -> transaction progress d = Done (d', Ok p) -> plan now p = Done c ->
    step (World_mk d l rows r) (World_mk d' (c :: l) rows r)
| step_read_fails d l rows r d' e :
    transaction progress d = Done (d', Err e) -> step (World_mk d l rows r) (World_mk d' l rows r)
| step_write d p1 c p2 rows r d' out :
    write_cycle c d = Done (d', out) ->
    step (World_mk d (p1 ++ c :: p2) rows r)
      (World_mk d' (p1 ++ p2) (Tables.analytic_pool_5min (Db.tables d') ∪ rows) r)
| step_stop d p1 c p2 rows r :
    step (World_mk d (p1 ++ c :: p2) rows r) (World_mk d (p1 ++ p2) rows r)
| step_others d l rows r o :
    step (World_mk d l rows r) (World_mk (with_others d o) l rows r).

(** [DELETE ... WHERE bucket < r]. *)
Definition without_rows (d : Db.t N O) (r : DateTime) : Db.t N O :=
  Db.mk (with_rows (Db.tables d)
    (filter (fun row => r <= snd (fst row)) (Tables.analytic_pool_5min (Db.tables d)))) (Db.statements d).

(** The policy drops the tranches of frozen hours only: those older than seven
    days, with writers less than seven days late. *)
Inductive retention : World -> World -> Prop :=
| drop_rows d l rows from r frozen :
    AnalyticProgress.last_frozen (progress_of (Db.tables d)) = Some frozen -> r <= frozen + HOUR ->
    retention (World_mk d l rows from) (World_mk (without_rows d r) l rows (Z.max from r)).

Definition life (w w' : World) : Prop := step w w' \/ retention w w'.

Definition empty_tables (t : Tables.t N O) : Prop :=
  Tables.analytic_hours t = ∅ /\ Tables.analytic_tranches t = ∅ /\
  Tables.analytic_pool_5min t = ∅ /\ Tables.analytic_pool_hourly t = ∅ /\ Tables.analytic_protocol_hourly t = ∅.

(** The tables that hold an hour: the one a migration leaves to begin at, or
    those of the first cycle of all, planned and written with no other. *)
Inductive opened : Db.t N O -> Prop :=
| opened_by_migration t n f :
    Tables.analytic_tranches t = ∅ -> Tables.analytic_pool_5min t = ∅ -> Tables.analytic_pool_hourly t = ∅ ->
    Tables.analytic_protocol_hourly t = ∅ -> Tables.analytic_hours t = {[ f := None ]} ->
    aligned HOUR f -> 0 <= f < 2 ^ 63 -> opened (Db.mk t n)
| opened_by_cycle t t' n now c d out :
    empty_tables t -> clock now -> plan now (progress_of t) = Done c ->
    empty_tables t' -> write_cycle c (Db.mk t' n) = Done (d, Ok out) -> opened d.

Definition reachable (w : World) : Prop :=
  exists d, opened d /\ rtc life (World_mk d [] (Tables.analytic_pool_5min (Db.tables d)) 0) w.

Definition world_ok (w : World) : Prop :=
  exists f L F T, consistent (ever w) f L F T /\ f <= L /\
    Forall (fun c => plannable c f F T) (planned w) /\
    held_from (dropped w) (Db.tables (db w)) (rows w) /\ dropped w <= F + HOUR.

Lemma unfrozen_consistent t f L :
  Tables.analytic_tranches t = ∅ -> Tables.analytic_pool_5min t = ∅ -> Tables.analytic_pool_hourly t = ∅ ->
  Tables.analytic_protocol_hourly t = ∅ ->
  (forall (h : DateTime) v, Tables.analytic_hours t !! h = Some v <-> v = None /\ h = f /\ L = f) ->
  L = f \/ L = f - HOUR -> 0 <= f < 2 ^ 63 -> aligned HOUR f ->
  consistent t f L (f - HOUR) (f - TRANCHE).
Proof.
  intros Ht H5 Hho Hpr Hh HL Hf Ha. pose proof HOUR_pos. pose proof TRANCHE_pos. pose proof HOUR_TRANCHE.
  assert (aligned HOUR (f - HOUR)) as Hah by (replace (f - HOUR) with (f + (-1) * HOUR) by lia; by apply aligned_add).
  assert (aligned TRANCHE (f - TRANCHE)).
  { replace (f - TRANCHE) with (f + (-1) * TRANCHE) by lia. by apply aligned_add, aligned_HOUR_TRANCHE. }
  split; rewrite ?Ht, ?H5, ?Hho, ?Hpr.
  - split_and!; try done; [lia|]. destruct HL as [->| ->]; done.
  - destruct HL; lia.
  - intros h. split.
    + intros [v (-> & -> & ->)%Hh]. split; [done|lia].
    + intros [Hah' Hr]. destruct HL as [->| ->]; [|lia]. exists None. apply Hh. split_and!; [done|lia|done].
  - intros h. split; [intros [a (? & _)%Hh]; done|lia].
  - intros h a (? & _)%Hh. done.
  - intros b. rewrite lookup_empty, is_Some_alt. split; [done|lia].
  - intros b a. by rewrite lookup_empty.
  - intros p b r. by rewrite lookup_empty.
  - intros k. rewrite lookup_empty. by intros [? ?].
  - intros p h _. rewrite lookup_empty. unfold hour_total, tranche_rows. by rewrite H5.
  - intros h. rewrite lookup_empty. by intros [? ?].
  - intros h _ Hr. lia.
Qed.

Lemma empty_consistent t f :
  empty_tables t -> 0 <= f < 2 ^ 63 -> aligned HOUR f ->
  consistent t f (f - HOUR) (f - HOUR) (f - TRANCHE).
Proof.
  intros (Hh & Ht & H5 & Hho & Hpr) Hf Ha. apply unfrozen_consistent; try done; [|by right].
  intros h v. rewrite Hh, lookup_empty. pose proof HOUR_pos. split; [done|lia].
Qed.

Lemma with_own_rows t : with_rows t (Tables.analytic_pool_5min t) = t.
Proof. by destruct t. Qed.

Lemma held_from_start f L F T t : consistent t f L F T -> held_from 0 t (Tables.analytic_pool_5min t).
Proof.
  intros Hc p b. destruct (Z.leb_spec 0 b) as [|Hb]; [done|].
  destruct (Tables.analytic_pool_5min t !! (p, b)) eqn:Hr; [|done].
  apply (c_rows _ _ _ _ _ Hc), (c_tranches _ _ _ _ _ Hc) in Hr as [_ [? _]].
  destruct (c_grid _ _ _ _ _ Hc) as [? _]. lia.
Qed.

Lemma opened_ok d : opened d -> world_ok (World_mk d [] (Tables.analytic_pool_5min (Db.tables d)) 0).
Proof.
  intros Ho. assert (exists f L F T, consistent (Db.tables d) f L F T /\ f <= L) as (f & L & F & T & Hc & HL).
  { destruct Ho as [t n f Ht H5 Hho Hpr Hh Ha Hf|t t' n now c d out He Hnow Hplan He' Hw].
    - exists f, f, (f - HOUR), (f - TRANCHE). split; [|lia].
      apply unfrozen_consistent; try done; [|by left].
      intros h v. simpl. rewrite Hh, lookup_singleton_Some. naive_solver.
    - pose proof Hnow as [Hn1 Hn2]. pose proof (floor_le HOUR now HOUR_pos) as Hfl.
      assert (0 < FREEZE_MARGIN) by done. pose proof HOUR_pos. set (f := floor_to HOUR now) in *.
      assert (forall t, empty_tables t -> consistent t f (f - HOUR) (f - HOUR) (f - TRANCHE)) as Hce.
      { intros t1 Ht1. apply empty_consistent; [done|lia|by apply aligned_floor]. }
      destruct (plan_consistent _ _ _ _ _ now (Hce t He)) as (c' & Hc' & Hok & Hthr & _); [by split|by right|].
      rewrite Hplan in Hc'. injection Hc' as <-. pose proof (Hce t' He') as Hc0.
      destruct (write_cycle_consistent c (Db.mk t' n) 0 (Tables.analytic_pool_5min t') f (f - HOUR) (f - HOUR)
        (f - TRANCHE)) as (d1 & r1 & Hw1 & Hr); [by rewrite with_own_rows|by eapply held_from_start|done|].
      rewrite Hw in Hw1. injection Hw1 as <- <-. destruct Hr as (tvl & _ & Hcy).
      eexists _, _, _, _. split; [exact (consistent_after _ _ _ _ _ _ _ _ Hc0 Hok Hcy)|]. rewrite Hthr. lia. }
  exists f, L, F, T. unfold ever. cbn. rewrite with_own_rows. split_and!; [done|done|done|by eapply held_from_start|].
  destruct (c_order _ _ _ _ _ Hc) as [[? _] _]. destruct (c_grid _ _ _ _ _ Hc) as [? _]. lia.
Qed.

(** *** Each step *)

Lemma transaction_progress (d d' : Db.t N O) r :
  transaction progress d = Done (d', r) ->
  Db.tables d' = Db.tables d /\ forall p, r = Ok p -> p = progress_of (Db.tables d).
Proof.
  unfold transaction, progress, query, statement. simpl.
  destruct (fault (Db.statements d)) as [e|]; intros [= <- <-]; simpl; by split; [|intros p [=]].
Qed.

Lemma plans_later plans f F T F1 T1 :
  Forall (fun c => plannable c f F T) plans -> F <= F1 -> T <= T1 -> Forall (fun c => plannable c f F1 T1) plans.
Proof. intros Hp HF HT. eapply Forall_impl; [exact Hp|]. intros c Hc. exact (plannable_later _ _ _ _ _ _ Hc HF HT). Qed.

Lemma step_plan_ok d l R r d' p now c :
  world_ok (World_mk d l R r) -> clock now -> transaction progress d = Done (d', Ok p) -> plan now p = Done c ->
  world_ok (World_mk d' (c :: l) R r).
Proof.
  intros (f & L & F & T & Hc & HL & Hpl & Hh) Hnow Hread Hplan.
  apply transaction_progress in Hread as [Ht Hp]. specialize (Hp p eq_refl) as ->.
  unfold world_ok, ever in *. cbn [db planned] in *. rewrite Ht.
  destruct (plan_consistent _ _ _ _ _ now Hc Hnow) as (c' & Hc' & Hok & _); [by left|].
  change (progress_of (with_rows _ _)) with (progress_of (Db.tables d)) in Hc'.
  rewrite Hplan in Hc'. injection Hc' as <-. exists f, L, F, T. split_and!; [done|done|by constructor|apply Hh..].
Qed.

(** A cycle written, or refused by the database. *)
Lemma write_ok d p1 c p2 R r d' out :
  world_ok (World_mk d (p1 ++ c :: p2) R r) -> write_cycle c d = Done (d', out) ->
  exists f L F T, consistent (with_rows (Db.tables d) R) f L F T /\ f <= L /\
    Forall (fun c => plannable c f F T) (p1 ++ p2) /\ plannable c f F T /\
    held_from r (Db.tables d) R /\ r <= F + HOUR /\
    (Db.tables d' = Db.tables d \/
     exists tvl, cycled (Db.tables d) (left_cycle c F T tvl) (Db.tables d')).
Proof.
  intros (f & L & F & T & Hc & HL & Hpl & Hh & Hr) Hw. unfold ever in *. cbn [db planned rows dropped] in *.
  rewrite Forall_app, Forall_cons in Hpl. destruct Hpl as (Hp1 & Hpc & Hp2).
  destruct (write_cycle_consistent _ _ _ _ _ _ _ _ Hc Hh Hpc) as (d1 & r1 & Hw1 & Hout).
  rewrite Hw in Hw1. injection Hw1 as <- <-. exists f, L, F, T. split_and!; try done; [by apply Forall_app|].
  destruct out as [out|e]; [right|left; apply Hout]. destruct Hout as (tvl & _ & Hcy). by exists tvl.
Qed.

(** The rows held are among those written. *)
Lemma union_held r t R : held_from r t R -> Tables.analytic_pool_5min t ∪ R = R.
Proof.
  intros Hh. apply map_eq. intros [p b]. destruct (Tables.analytic_pool_5min t !! (p, b)) as [x|] eqn:Hx.
  - destruct (held_written _ _ _ _ _ _ Hh Hx) as [-> _]. by apply lookup_union_Some_l.
  - by apply lookup_union_r.
Qed.

Lemma step_write_ok d p1 c p2 R r d' out :
  world_ok (World_mk d (p1 ++ c :: p2) R r) -> write_cycle c d = Done (d', out) ->
  world_ok (World_mk d' (p1 ++ p2) (Tables.analytic_pool_5min (Db.tables d') ∪ R) r).
Proof.
  intros Hok Hw. destruct (write_ok _ _ _ _ _ _ _ _ Hok Hw) as (f & L & F & T & Hc & HL & Hpl & Hpc & Hh & Hr & Hout).
  unfold world_ok, ever. cbn [db planned rows dropped]. destruct Hout as [->|(tvl & Hcy)].
  - rewrite (union_held _ _ _ Hh). exists f, L, F, T. split_and!; done.
  - pose proof (cycled_with_rows _ _ _ _ _ _ _ _ _ _ Hc Hh Hr Hcy) as Hcy'.
    destruct (frozen_after_spec _ _ _ _ _ _ Hc Hpc) as (_ & HF' & _ & _).
    eexists _, _, _, _. split; [exact (consistent_after _ _ _ _ _ _ _ _ Hc Hpc Hcy')|]. split_and!.
    + lia.
    + eapply plans_later; [exact Hpl|lia|lia].
    + by eapply held_after.
    + lia.
Qed.

Lemma held_without r r' t R :
  held_from r t R ->
  held_from (Z.max r r') (with_rows t (filter (fun row => r' <= snd (fst row)) (Tables.analytic_pool_5min t))) R.
Proof.
  intros Hh p b. cbn [with_rows Tables.analytic_pool_5min].
  pose proof (map_lookup_filter (fun row : (Pubkey * DateTime) * PoolFacts.t N => r' <= snd (fst row))
    (Tables.analytic_pool_5min t) (p, b)) as Hl. etrans; [exact Hl|]. clear Hl.
  change ((x ← Tables.analytic_pool_5min t !! (p, b); guard (r' <= b) ;; Some x) =
    if Z.max r r' <=? b then R !! (p, b) else None). rewrite (Hh p b).
  destruct (Z.leb_spec r b), (Z.leb_spec (Z.max r r') b); simpl; try lia; try done;
    destruct (R !! (p, b)); simpl; try done; case_guard; simpl in *; done || lia.
Qed.

Lemma retention_ok w w' :
  retention w w' -> world_ok w -> world_ok w' /\ ever w' = ever w.
Proof.
  intros [d l R r r' frozen Hfr Hle] (f & L & F & T & Hc & HL & Hpl & Hh & Hr).
  unfold world_ok, ever in *. cbn [db planned rows dropped] in *. split; [|done].
  exists f, L, F, T. split_and!; [done|done|done|by apply held_without|].
  pose proof (progress_consistent _ _ _ _ _ Hc) as Hp. change (progress_of (with_rows _ _)) with (progress_of (Db.tables d)) in Hp.
  rewrite Hp in Hfr. simpl in Hfr. unfold from_until in Hfr. destruct (f <=? F); [|done]. injection Hfr as <-. lia.
Qed.

(** What a step leaves of the tables it finds. *)
Record kept (t t' : Tables.t N O) : Prop := {
  k_frozen : forall (h : DateTime) a, Tables.analytic_hours t !! h = Some (Some a) ->
    Tables.analytic_hours t' !! h = Some (Some a) /\
    (forall p : Pubkey, Tables.analytic_pool_hourly t' !! (p, h) = Tables.analytic_pool_hourly t !! (p, h)) /\
    Tables.analytic_protocol_hourly t' !! h = Tables.analytic_protocol_hourly t !! h;
  k_tranches : forall (b : DateTime) a, Tables.analytic_tranches t !! b = Some a ->
    Tables.analytic_tranches t' !! b = Some a;
  k_rows : forall k r, Tables.analytic_pool_5min t !! k = Some r -> Tables.analytic_pool_5min t' !! k = Some r;
  k_new : forall (p : Pubkey) (b : DateTime), is_Some (Tables.analytic_pool_5min t' !! (p, b)) ->
    is_Some (Tables.analytic_tranches t !! b) -> is_Some (Tables.analytic_pool_5min t !! (p, b));
}.

#[local] Instance kept_preorder : PreOrder kept.
Proof.
  split.
  - intros t. by split.
  - intros t1 t2 t3 [Hf1 Ht1 Hr1 Hn1] [Hf2 Ht2 Hr2 Hn2]. split; [|by eauto|by eauto|].
    2:{ intros p b Hb [a Ha]. apply Hn1; [|by eexists]. apply Hn2; [done|]. eexists. by eapply Ht1. }
    intros h a Ha. destruct (Hf1 _ _ Ha) as (Hb & Hp & Hr). destruct (Hf2 _ _ Hb) as (Hb' & Hp' & Hr').
    split_and!; [done| |congruence]. intros p. by rewrite Hp', Hp.
Qed.

Lemma kept_same t t' : core t' = core t -> kept t t'.
Proof. intros [= Hh Ht H5 Hho Hpr]. by split; rewrite ?Hh, ?Ht, ?H5, ?Hho, ?Hpr. Qed.

Lemma kept_cycled planned t t' f L F T tvl :
  consistent t f L F T -> plannable planned f F T -> cycled t (left_cycle planned F T tvl) t' -> kept t t'.
Proof.
  intros Hc Hp Hcy. split.
  - intros h a Ha. rewrite (hours_after _ _ _ _ _ _ _ _ Hc Hp Hcy), Ha. split; [done|].
    destruct (proj1 (c_frozen _ _ _ _ _ Hc h)) as [_ ?]; [by eexists|]. pose proof HOUR_pos.
    destruct (c_grid _ _ _ _ _ Hc) as (_ & _ & _ & HaF & _). split.
    + intros p. rewrite (hourly_after _ _ _ _ _ _ _ _ Hc Hp Hcy). rewrite bool_decide_eq_false_2; [done|]. lia.
    + rewrite (protocol_after _ _ _ Hcy).
      * rewrite bool_decide_eq_false_2; [done|]. simpl. lia.
      * simpl. replace (F + HOUR) with (F + 1 * HOUR) by lia. by apply aligned_add.
  - intros b a Ha. by rewrite (tranches_after _ _ _ _ _ _ _ _ Hc Hcy), Ha.
  - intros k r Hr. destruct (y_rows _ _ _ Hcy) as (new & Hperm & _).
    apply (elem_of_map_to_list (K := Pubkey * DateTime)). fold (tranche_rows t'). rewrite Hperm.
    apply elem_of_app. right. by apply (elem_of_map_to_list (K := Pubkey * DateTime)).
  - intros p b [r Hr] Hb. destruct (y_rows _ _ _ Hcy) as (new & Hperm & Hnew).
    apply (elem_of_map_to_list (K := Pubkey * DateTime)) in Hr. fold (tranche_rows t') in Hr.
    rewrite Hperm in Hr. apply elem_of_app in Hr as [Hr|Hr].
    + apply list_elem_of_In, Hnew in Hr as [_ Hr]. simpl in Hr. apply (c_tranches _ _ _ _ _ Hc) in Hb as [_ Hb].
      pose proof TRANCHE_pos. lia.
    + exists r. by apply (elem_of_map_to_list (K := Pubkey * DateTime)).
Qed.

Lemma step_ok w w' : step w w' -> world_ok w -> world_ok w' /\ kept (ever w) (ever w') /\ dropped w' = dropped w.
Proof.
  intros Hstep Hw. split_and!; [| |by destruct Hstep].
  - destruct Hstep as [d l R r d' p now c Hnow Hread Hplan|d l R r d' e Hread|d p1 c p2 R r d' out Hwr|d p1 c p2 R r|d l R r o].
    + by eapply step_plan_ok.
    + apply transaction_progress in Hread as [Ht _]. unfold world_ok, ever in *. cbn [db rows] in *. by rewrite Ht.
    + by eapply step_write_ok.
    + destruct Hw as (f & L & F & T & Hc & HL & Hpl & Hh). exists f, L, F, T. split_and!; [done|done| |apply Hh..].
      simpl in *. rewrite Forall_app, Forall_cons in Hpl. rewrite Forall_app. naive_solver.
    + destruct Hw as (f & L & F & T & Hc & HL & Hpl & Hh). exists f, L, F, T. split_and!; [|done|done|apply Hh..].
      by destruct Hc; split.
  - destruct Hstep as [d l R r d' p now c Hnow Hread Hplan|d l R r d' e Hread|d p1 c p2 R r d' out Hwr|d p1 c p2 R r|d l R r o];
      unfold ever; cbn [db rows].
    + apply transaction_progress in Hread as [Ht _]. by rewrite Ht.
    + apply transaction_progress in Hread as [Ht _]. by rewrite Ht.
    + destruct (write_ok _ _ _ _ _ _ _ _ Hw Hwr) as (f & L & F & T & Hc & _ & _ & Hpc & Hh & Hr & [->|(tvl & Hcy)]).
      * by rewrite (union_held _ _ _ Hh).
      * eapply kept_cycled; [exact Hc|exact Hpc|]. by eapply cycled_with_rows.
    + done.
    + by apply kept_same.
Qed.

Lemma life_ok w w' : rtc life w w' -> world_ok w -> world_ok w' /\ kept (ever w) (ever w').
Proof.
  induction 1 as [w|w1 w2 w3 Hs _ IH]; [by split|]. intros Hw.
  assert (world_ok w2 /\ kept (ever w1) (ever w2)) as [Hw2 Hk2].
  { destruct Hs as [Hs|Hs]; [by destruct (step_ok _ _ Hs Hw) as (? & ? & _)|].
    destruct (retention_ok _ _ Hs Hw) as [? ->]. by split. }
  destruct (IH Hw2) as [Hw3 Hk3]. split; [done|by etrans].
Qed.

Lemma steps_ok w w' :
  rtc step w w' -> world_ok w -> world_ok w' /\ kept (ever w) (ever w') /\ dropped w' = dropped w.
Proof.
  induction 1 as [w|w1 w2 w3 Hs _ IH]; [done|]. intros Hw.
  destruct (step_ok _ _ Hs Hw) as (Hw2 & Hk2 & Hd2). destruct (IH Hw2) as (Hw3 & Hk3 & Hd3).
  split_and!; [done|by etrans|congruence].
Qed.

Lemma reachable_ok w : reachable w -> world_ok w.
Proof. intros (d & Hd & Hs). by apply (life_ok _ _ Hs), opened_ok. Qed.

(** *** Catching up *)

(** The last hour that need not be written again. *)
Definition frozen_until (p : AnalyticProgress.t) : option DateTime :=
  match AnalyticProgress.last_frozen p, AnalyticProgress.first_hour p with
  | Some frozen, _ => Some frozen
  | None, Some first => Some (first - HOUR)
  | None, None => None
  end.

Lemma frozen_until_consistent t f L F T :
  consistent t f L F T -> f <= L -> frozen_until (progress_of t) = Some F.
Proof.
  intros Hc HL. rewrite (progress_consistent _ _ _ _ _ Hc). unfold frozen_until, from_until. simpl.
  destruct (Z.leb_spec f F) as [|HFf]; [done|]. rewrite (proj2 (Z.leb_le f L) HL). f_equal.
  destruct (c_grid _ _ _ _ _ Hc) as (_ & Haf & _ & HaF & _). destruct (c_order _ _ _ _ _ Hc) as [[? _] _].
  pose proof (aligned_gap HOUR F f HOUR_pos HaF Haf HFf). lia.
Qed.

(** The hour a cycle planned on these very tables freezes through. *)
Lemma fresh_cycle_freezes t f L F T now c :
  consistent t f L F T -> f <= L -> clock now -> plan now (progress_of t) = Done c ->
  plannable c f F T /\ F <= frozen_after c F T /\
  Z.min (floor_to HOUR (now - HOUR - FREEZE_MARGIN)) (F + 6 * HOUR) <= frozen_after c F T.
Proof.
  intros Hc HL Hnow Hplan. pose proof HOUR_pos as HHp. pose proof TRANCHE_pos as HTp. pose proof HOUR_TRANCHE as HHT.
  destruct (plan_consistent _ _ _ _ _ now Hc Hnow) as (c' & Hc' & Hok & Hthr & Htt & Hfz); [by left|].
  rewrite Hplan in Hc'. injection Hc' as <-. split; [done|].
  destruct (frozen_after_spec _ _ _ _ _ _ Hc Hok) as (_ & [HFle _] & _ & _). split; [done|].
  destruct (c_grid _ _ _ _ _ Hc) as (_ & _ & _ & HaF & HaT). destruct (c_order _ _ _ _ _ Hc) as [_ [HFT _]].
  set (closed := floor_to HOUR (now - HOUR - FREEZE_MARGIN)) in *.
  set (T' := Z.max T (CycleWrite.tranches_through c)) in *.
  assert (aligned HOUR closed) as Hac by (by apply aligned_floor).
  assert (aligned HOUR (F + 6 * HOUR)) as Ha6 by (by apply aligned_add).
  assert (Z.min closed (F + 6 * HOUR) + HOUR <= floor_to HOUR (T' + TRANCHE)) as Hcomplete.
  { apply floor_lower; [done| |].
    { destruct (Z.min_spec closed (F + 6 * HOUR)) as [[_ ->]|[_ ->]].
      - replace (closed + HOUR) with (closed + 1 * HOUR) by lia. by apply aligned_add.
      - replace (F + 6 * HOUR + HOUR) with (F + 7 * HOUR) by lia. by apply aligned_add. }
    destruct (Z.min_spec (floor_to TRANCHE (now - TRANCHE - FREEZE_MARGIN)) (T + TRANCHE + 71 * TRANCHE))
      as [[_ He]|[_ He]]; rewrite He in Htt; [|unfold T'; lia].
    assert (closed + HOUR - TRANCHE <= floor_to TRANCHE (now - TRANCHE - FREEZE_MARGIN)); [|unfold T'; lia].
    apply floor_lower; [done| |].
    - replace (closed + HOUR - TRANCHE) with (closed + 11 * TRANCHE) by lia.
      by apply aligned_add, aligned_HOUR_TRANCHE.
    - pose proof (floor_le HOUR (now - HOUR - FREEZE_MARGIN) HHp). unfold closed. lia. }
  assert (Z.min closed (F + 6 * HOUR) <= CycleWrite.through c) as Hwritten.
  { rewrite Hthr. assert (closed <= floor_to HOUR now); [|lia].
    apply floor_lower; [done|done|]. pose proof (floor_le HOUR (now - HOUR - FREEZE_MARGIN) HHp).
    unfold closed. assert (0 < FREEZE_MARGIN) by done. lia. }
  assert (CycleWrite.freeze_through c = if F + HOUR <=? Z.min (Z.min closed (CycleWrite.through c))
      (floor_to HOUR (T' + TRANCHE) - HOUR)
    then Some (Z.min (Z.min closed (CycleWrite.through c)) (floor_to HOUR (T' + TRANCHE) - HOUR)) else None) as Hft.
  { rewrite Hfz. reflexivity. }
  destruct (Z.leb_spec (F + HOUR) (Z.min closed (F + 6 * HOUR))) as [Hge|Hlt].
  - unfold frozen_after, freezing. rewrite Hft. fold T'.
    rewrite (proj2 (Z.leb_le _ _)) by lia. rewrite (proj2 (Z.leb_le _ _)) by lia. simpl. lia.
  - assert (Z.min closed (F + 6 * HOUR) <= F); [|lia].
    destruct (Z.min_spec closed (F + 6 * HOUR)) as [[_ Hm]|[_ Hm]]; rewrite Hm in *; [|lia].
    destruct (Z.le_gt_cases closed F) as [|Hgt]; [done|].
    pose proof (aligned_gap HOUR F closed HHp HaF Hac ltac:(lia)). lia.
Qed.

(** The cycles the worker writes, one after the other. *)
Inductive cycles : Db.t N O -> list DateTime -> Db.t N O -> Prop :=
| cycles_none d : cycles d [] d
| cycles_one d now d1 out nows d2 :
    write now d = Done (d1, Ok out) -> cycles d1 nows d2 -> cycles d (now :: nows) d2.

Lemma write_fresh now (d d' : Db.t N O) out R r f L F T :
  consistent (with_rows (Db.tables d) R) f L F T -> held_from r (Db.tables d) R -> r <= F + HOUR -> f <= L ->
  clock now -> write now d = Done (d', Ok out) ->
  exists R' L' F' T', consistent (with_rows (Db.tables d') R') f L' F' T' /\ held_from r (Db.tables d') R' /\
    f <= L' /\ F <= F' /\ Z.min (floor_to HOUR (now - HOUR - FREEZE_MARGIN)) (F + 6 * HOUR) <= F'.
Proof.
  intros Hc Hh Hr HL Hnow Hw. unfold write in Hw.
  destruct (transaction progress d) as [[d1 rd]|] eqn:Hread; [|done]. cbn [exec_bind] in Hw.
  destruct (transaction_progress _ _ _ Hread) as [Ht Hp]. destruct rd as [p|e]; [|done].
  rewrite (Hp p eq_refl) in Hw. destruct (plan now (progress_of (Db.tables d))) as [c|] eqn:Hplan; [|done].
  cbn [exec_bind] in Hw.
  destruct (fresh_cycle_freezes _ _ _ _ _ _ _ Hc HL Hnow Hplan) as (Hok & HF & Hfr).
  rewrite <-Ht in Hc, Hh. destruct (write_cycle_consistent _ _ _ _ _ _ _ _ Hc Hh Hok) as (d2 & r2 & Hw2 & Hout).
  rewrite Hw in Hw2. injection Hw2 as <- <-. destruct Hout as (tvl & _ & Hcy).
  pose proof (cycled_with_rows _ _ _ _ _ _ _ _ _ _ Hc Hh Hr Hcy) as Hcy'.
  eexists _, _, _, _. split; [exact (consistent_after _ _ _ _ _ _ _ _ Hc Hok Hcy')|].
  split_and!; [exact (held_after _ _ _ _ _ _ _ _ _ _ Hc Hh Hr Hcy)|lia|done|done].
Qed.

(** A cycle of the worker is two steps of the system. *)
Lemma write_steps now (d d' : Db.t N O) out R r :
  clock now -> write now d = Done (d', Ok out) ->
  rtc step (World_mk d [] R r) (World_mk d' [] (Tables.analytic_pool_5min (Db.tables d') ∪ R) r).
Proof.
  intros Hnow Hw. unfold write in Hw.
  destruct (transaction progress d) as [[d1 rd]|] eqn:Hread; [|done]. destruct rd as [p|e]; [|done].
  cbn [exec_bind] in Hw. destruct (plan now p) as [c|] eqn:Hplan; [|done]. cbn [exec_bind] in Hw.
  eapply rtc_l; [by eapply step_plan|]. eapply rtc_once. exact (step_write _ [] _ [] R r _ _ Hw).
Qed.

(** ** Properties *)

(** C26: the analytic tables stay in order, from the first hour they hold on:
    the one a migration leaves, or that of the first cycle of all, if no other
    writer plans before it is committed. Then, whatever the interleaving of the
    writers, the clocks and the statements that fail, and the five-minute rows
    of frozen hours that the retention policy drops: the hours held are
    contiguous and the frozen ones are their beginning; the tranches valued are
    contiguous from the same hour and cover every frozen hour; nothing is valued
    or frozen before ten minutes after its close; the facts of a frozen hour are
    those of all the rows written of its tranches, of which the table still
    holds those since an instant no later than the end of the last frozen hour. *)
Theorem analytic_tables_in_order w :
  reachable w -> exists f L F T, consistent (ever w) f L F T /\ f <= L /\
    dropped w <= F + HOUR /\
    forall (p : Pubkey) (b : DateTime), Tables.analytic_pool_5min (Db.tables (db w)) !! (p, b) =
      if dropped w <=? b then rows w !! (p, b) else None.
Proof.
  intros (f & L & F & T & Hc & HL & _ & Hh & Hr)%reachable_ok. exists f, L, F, T.
  split_and!; [exact Hc|exact HL|exact Hr|exact Hh].
Qed.

(** C16: a frozen hour is final. Its twelve tranches were all valued when it was
    frozen, at least ten minutes after its close; whatever happens next, be it
    the retention policy that drops its five-minute rows, it is not frozen again
    and none of its facts changes, neither those of a pool nor those of the
    protocol; the facts of a pool, written hour by hour, cycle after cycle, are
    the ones a single sum over all the five-minute rows ever written would give,
    and those of the protocol are added up from those of the pools. *)
Theorem frozen_hour_is_final w w' (h : DateTime) a :
  reachable w -> Tables.analytic_hours (Db.tables (db w)) !! h = Some (Some a) -> rtc life w w' ->
  h + HOUR + FREEZE_MARGIN <= a /\
  (forall b : DateTime, aligned TRANCHE b -> h <= b < h + HOUR ->
    is_Some (Tables.analytic_tranches (Db.tables (db w)) !! b)) /\
  Tables.analytic_hours (Db.tables (db w')) !! h = Some (Some a) /\
  (forall p : Pubkey,
    Tables.analytic_pool_hourly (Db.tables (db w')) !! (p, h) =
      Tables.analytic_pool_hourly (Db.tables (db w)) !! (p, h) /\
    Tables.analytic_pool_hourly (Db.tables (db w')) !! (p, h) =
      summed_facts <$> groups (map_to_list (K := Pubkey * DateTime) (rows w')) !! (p, h)) /\
  Tables.analytic_protocol_hourly (Db.tables (db w')) !! h =
    Tables.analytic_protocol_hourly (Db.tables (db w)) !! h /\
  Tables.analytic_protocol_hourly (Db.tables (db w')) !! h =
    Some (protocol_facts (hourly_rows (Db.tables (db w')) h)).
Proof.
  intros Hw%reachable_ok Ha Hs. destruct (life_ok _ _ Hs Hw) as [Hw' Hk].
  destruct (k_frozen _ _ Hk h a Ha) as (Ha' & Hp & Hpr). destruct Hw as (f & L & F & T & Hc & _).
  destruct Hw' as (f' & L' & F' & T' & Hc' & _).
  destruct (proj1 (c_frozen _ _ _ _ _ Hc h)) as [Hah Hr]; [by eexists|].
  destruct (proj1 (c_frozen _ _ _ _ _ Hc' h)) as [_ Hr']; [by eexists|].
  destruct (c_grid _ _ _ _ _ Hc) as (_ & _ & _ & _ & HaT).
  destruct (c_order _ _ _ _ _ Hc) as [_ [HFT _]].
  split_and!; [by eapply (c_frozen_at _ _ _ _ _ Hc)| |exact Ha'| |exact Hpr|].
  - intros b Hb Hbr. apply (c_tranches _ _ _ _ _ Hc). split; [done|]. split; [lia|].
    destruct (Z.le_gt_cases b T) as [|Hgt]; [done|].
    pose proof (aligned_gap TRANCHE T b TRANCHE_pos HaT Hb ltac:(lia)). lia.
  - intros p. split; [apply Hp|]. apply (c_facts _ _ _ _ _ Hc'). lia.
  - by apply (c_protocol_facts _ _ _ _ _ Hc').
Qed.

(** A writer never trips over itself or another: planning never panics,
    and a planned cycle, however late it is written, runs to its commit or
    stops at a statement the database refused, the tables then left as they
    were. Written, it keeps every tranche valued before and adds exactly those
    it names. *)
Theorem planned_cycle_is_written w :
  reachable w ->
  (forall now, clock now -> exists c, plan now (progress_of (Db.tables (db w))) = Done c) /\
  forall c, c ∈ planned w -> exists d' r, write_cycle c (db w) = Done (d', r) /\
    match r with
    | Ok out => forall b : DateTime,
        is_Some (Tables.analytic_tranches (Db.tables d') !! b) <->
        is_Some (Tables.analytic_tranches (Db.tables (db w)) !! b) \/
        aligned TRANCHE b /\
          CycleWrite.tranches_from (CycleOutcome.written out) <= b <= CycleWrite.tranches_through (CycleOutcome.written out)
    | Err e => Db.tables d' = Db.tables (db w) /\ exists k, fault k = Some e
    end.
Proof.
  intros Hw. pose proof (reachable_ok _ Hw) as (f & L & F & T & Hc & HL & Hpl & Hh & Hr). split.
  - intros now Hnow. destruct (plan_consistent _ _ _ _ _ now Hc Hnow) as (c & Hplan & _); [by left|].
    by exists c.
  - intros c Hin. rewrite Forall_forall in Hpl. pose proof (Hpl _ Hin) as Hpc.
    destruct (write_cycle_consistent _ _ _ _ _ _ _ _ Hc Hh Hpc) as (d' & r & Hwr & Hout). exists d', r. split; [done|].
    destruct r as [out|e]; [|done]. destruct Hout as (tvl & -> & Hcy). intros b.
    pose proof (cycled_with_rows _ _ _ _ _ _ _ _ _ _ Hc Hh Hr Hcy) as Hcy'.
    pose proof (tranches_after _ _ _ _ _ _ _ _ Hc Hcy' b) as Hb'. cbn [with_rows Tables.analytic_tranches ever] in Hb'.
    rewrite Hb'. simpl. pose proof (c_tranches _ _ _ _ _ Hc b) as Hb. cbn [with_rows Tables.analytic_tranches ever] in Hb.
    destruct (c_grid _ _ _ _ _ Hc) as (_ & _ & _ & _ & HaT).
    destruct (Tables.analytic_tranches (Db.tables (db w)) !! b) as [a|].
    + split; [by left|by eexists].
    + case_bool_decide as Hin'.
      * split; [|by eexists]. intros _. right. split; [apply Hin'|].
        destruct (Z.le_gt_cases b T) as [Hle|Hgt]; [destruct (proj2 Hb); [by split; [apply Hin'|lia]|done]|].
        pose proof (aligned_gap TRANCHE T b TRANCHE_pos HaT ltac:(apply Hin') ltac:(lia)). lia.
      * split; [by intros [? ?]|]. intros [[? ?]|[Ha Hr']]; [done|]. exfalso. apply Hin'. split; [done|].
        destruct (c_order _ _ _ _ _ Hc) as [[? _] [? _]]. pose proof TRANCHE_pos. lia.
Qed.

(** An outage is caught up. From any reachable tables, each cycle written
    at or after [now] freezes six more hours until every hour closed ten minutes
    before [now] is frozen: after [n] of them the hours are frozen through the
    earlier of the two. *)
Theorem writer_catches_up w d' nows now frozen :
  reachable w -> frozen_until (progress_of (Db.tables (db w))) = Some frozen ->
  Forall (fun now' => now <= now' /\ clock now') nows -> clock now -> cycles (db w) nows d' ->
  exists frozen', frozen_until (progress_of (Db.tables d')) = Some frozen' /\
    Z.min (floor_to HOUR (now - HOUR - FREEZE_MARGIN)) (frozen + Z.of_nat (length nows) * (6 * HOUR)) <= frozen'.
Proof.
  intros (f & L & F & T & Hc & HL & _ & Hh & Hr)%reachable_ok Hfr Hnows Hnow Hcy.
  pose proof (frozen_until_consistent _ _ _ _ _ Hc HL) as HF.
  change (progress_of (ever w)) with (progress_of (Db.tables (db w))) in HF.
  rewrite HF in Hfr. injection Hfr as <-. clear HF. unfold ever in Hc. generalize dependent (rows w).
  generalize dependent (dropped w). intros r Hr R Hc Hh.
  revert R L F T Hc Hh Hr HL Hnows. induction Hcy as [d|d now1 d1 out nows d2 Hw _ IH]; intros R L F T Hc Hh Hr HL Hnows.
  - exists F. split; [exact (frozen_until_consistent _ _ _ _ _ Hc HL)|]. simpl. lia.
  - apply Forall_cons in Hnows as [[Hle Hclock] Hnows].
    destruct (write_fresh _ _ _ _ _ _ _ _ _ _ Hc Hh Hr HL Hclock Hw) as (R' & L' & F' & T' & Hc' & Hh' & HL' & HF & Hmin).
    destruct (IH _ _ _ _ Hc' Hh' ltac:(lia) HL' Hnows) as (frozen' & Hfr & Hmin').
    exists frozen'. split; [done|]. cbn [length].
    assert (floor_to HOUR (now - HOUR - FREEZE_MARGIN) <= floor_to HOUR (now1 - HOUR - FREEZE_MARGIN)).
    { pose proof (floor_le HOUR (now - HOUR - FREEZE_MARGIN) HOUR_pos).
      apply floor_lower; [done|by apply aligned_floor|lia]. }
    pose proof HOUR_pos. lia.
Qed.
End Runs.

(** ** Witnesses: one pool trading in every tranche *)

#[global] Instance Z_numeric : Numeric Z := { num_zero := 0; num_add := Z.add }.
#[global] Instance Z_numeric_laws : NumericLaws Z.
Proof. split; simpl; lia. Qed.

#[global] Instance floor_trunc : DurationTrunc := {
  duration_trunc at_ span := if in_int 64 at_ && (0 <? span) then Some (at_ - at_ mod span) else None;
}.
#[global] Instance floor_trunc_laws : DurationTruncLaws.
Proof. split. intros at_ span Hs Ha. simpl. rewrite Ha. by rewrite (proj2 (Z.ltb_lt 0 span)). Qed.

Definition sample_facts : PoolFacts.t Z :=
  PoolFacts.mk 2 true (Some 10) (Some 5) (Some 3) (Some 2) (Some 1) None.

#[global] Instance one_pool : AnalyticSql Z unit := {
  tranche_facts _ _ := [([7], sample_facts)];
  other_statement _ _ := ();
}.
#[global] Instance one_pool_laws : AnalyticSqlLaws Z unit.
Proof. split. intros t tranche. simpl. apply NoDup_singleton. Qed.

Definition never_fails : Postgres := {| fault _ := None; db_now _ := 0 |}.

Definition sample_now : DateTime := 483000 * HOUR + 30 * TRANCHE / 5.

Definition written (now : DateTime) (d : Db.t Z unit) : Db.t Z unit :=
  match @write Z unit _ _ _ never_fails now d with Done (d', Ok _) => d' | _ => d end.
Definition writes (now : DateTime) (d : Db.t Z unit) : bool :=
  match @write Z unit _ _ _ never_fails now d with Done (_, Ok _) => true | _ => false end.

Lemma writes_ok now d :
  writes now d = true -> exists out, @write Z unit _ _ _ never_fails now d = Done (written now d, Ok out).
Proof.
  unfold writes, written. destruct (write now d) as [[d' [out|e]]|]; try done. intros _. by exists out.
Qed.

Definition sample_start : Db.t Z unit := Db.mk (Tables.mk ∅ ∅ ∅ ∅ ∅ ()) 0.
Definition sample_first : Db.t Z unit := written sample_now sample_start.
Definition sample_second : Db.t Z unit := written (sample_now + 2 * HOUR) sample_first.
Definition sample_third : Db.t Z unit := written (sample_now + 9 * HOUR) sample_second.

Lemma sample_clock k : (0 <=? k) && (k <=? 100) = true -> clock (sample_now + k * HOUR).
Proof.
  intros [H1 H2]%andb_true_iff. apply Z.leb_le in H1. apply Z.leb_le in H2. unfold clock.
  change HOUR with 3600000000000. change FREEZE_MARGIN with 600000000000.
  change sample_now with 1738801800000000000. lia.
Qed.

(** The worlds of these databases, nothing planned. *)
Definition world (d : Db.t Z unit) (R : gmap (Pubkey * DateTime) (PoolFacts.t Z)) (r : DateTime) : World :=
  World_mk d [] R r.
Definition rows_of (d : Db.t Z unit) : gmap (Pubkey * DateTime) (PoolFacts.t Z) :=
  Tables.analytic_pool_5min (Db.tables d).

Lemma sample_steps k d R r :
  (0 <=? k) && (k <=? 100) = true -> writes (sample_now + k * HOUR) d = true ->
  rtc (@step Z unit _ _ _ never_fails) (world d R r)
    (world (written (sample_now + k * HOUR) d) (rows_of (written (sample_now + k * HOUR) d) ∪ R) r).
Proof.
  intros Hk Hw. destruct (writes_ok _ _ Hw) as [out Ho]. eapply write_steps; [by apply sample_clock|exact Ho].
Qed.

Lemma steps_life (w w' : World (N := Z) (O := unit)) :
  rtc (@step Z unit _ _ _ never_fails) w w' -> rtc (@life Z unit _ _ _ never_fails) w w'.
Proof. apply rtc_subrel. intros x y Hs. by left. Qed.

(** The first cycle of all, alone. *)
Definition first_plan : CycleWrite.t :=
  match plan (sample_now + 0 * HOUR) (progress_of (Db.tables sample_start)) with
  | Done c => c
  | Panic => CycleWrite.mk 0 0 0 0 None None 0
  end.

Lemma sample_opened : @opened Z unit _ _ _ never_fails sample_first.
Proof.
  destruct (@write_cycle Z unit _ _ _ never_fails first_plan (Db.mk (Db.tables sample_start) 1))
    as [[d [out|e]]|] eqn:Hw; [|exfalso; vm_compute in Hw; discriminate Hw..].
  assert (d = sample_first) as <-.
  { transitivity (match @write_cycle Z unit _ _ _ never_fails first_plan (Db.mk (Db.tables sample_start) 1) with
      | Done (d, _) => d | Panic => sample_start end); [by rewrite Hw|vm_compute; reflexivity]. }
  eapply (@opened_by_cycle Z unit _ _ _ never_fails (Db.tables sample_start) (Db.tables sample_start) 1
    (sample_now + 0 * HOUR) first_plan).
  - split_and!; reflexivity.
  - apply (sample_clock 0). reflexivity.
  - vm_compute. reflexivity.
  - split_and!; reflexivity.
  - exact Hw.
Qed.

Definition second_world : World := world sample_second (rows_of sample_second ∪ rows_of sample_first) 0.
Definition third_world : World :=
  world sample_third (rows_of sample_third ∪ (rows_of sample_second ∪ rows_of sample_first)) 0.

Lemma sample_third_steps : rtc (@step Z unit _ _ _ never_fails) second_world third_world.
Proof. apply (sample_steps 9); [reflexivity|vm_compute; reflexivity]. Qed.

Lemma sample_reachable : @reachable Z unit _ _ _ never_fails second_world.
Proof.
  exists sample_first. split; [exact sample_opened|]. apply steps_life.
  apply (sample_steps 2); [reflexivity|vm_compute; reflexivity].
Qed.

(** The policy drops the rows of the first hour, then a cycle comes. *)
Definition cut : DateTime := 483001 * HOUR.
Definition sample_cut : Db.t Z unit := without_rows sample_second cut.
Definition sample_late : Db.t Z unit := written (sample_now + 9 * HOUR) sample_cut.
Definition late_world : World :=
  world sample_late (rows_of sample_late ∪ (rows_of sample_second ∪ rows_of sample_first)) cut.

Lemma sample_late_life : rtc (@life Z unit _ _ _ never_fails) second_world late_world.
Proof.
  eapply rtc_l.
  - right. apply (drop_rows sample_second [] _ 0 cut (483001 * HOUR)); [vm_compute; reflexivity|].
    unfold cut. pose proof HOUR_pos. lia.
  - change (Z.max 0 cut) with cut. apply steps_life.
    apply (sample_steps 9); [reflexivity|vm_compute; reflexivity].
Qed.

(** The worker read the progress and planned; another cycle came first. *)
Definition sample_plan : CycleWrite.t :=
  match plan (sample_now + 9 * HOUR) (progress_of (Db.tables sample_second)) with
  | Done c => c
  | Panic => CycleWrite.mk 0 0 0 0 None None 0
  end.
Definition sample_read : Db.t Z unit := Db.mk (Db.tables sample_second) (S (Db.statements sample_second)).

Lemma sample_planned_reachable :
  @reachable Z unit _ _ _ never_fails
    (World_mk sample_read [sample_plan] (rows_of sample_second ∪ rows_of sample_first) 0).
Proof.
  destruct sample_reachable as (d & Hd & Hs). exists d. split; [exact Hd|]. etrans; [exact Hs|].
  apply rtc_once. left.
  apply (@step_plan Z unit _ _ _ never_fails sample_second [] _ 0 sample_read
    (progress_of (Db.tables sample_second)) (sample_now + 9 * HOUR) sample_plan).
  - apply (sample_clock 9). reflexivity.
  - reflexivity.
  - vm_compute. reflexivity.
Qed.

Lemma analytic_tables_in_order_witness :
  @reachable Z unit _ _ _ never_fails late_world /\
  exists f L F T, consistent (ever late_world) f L F T /\ f <= L /\ cut <= F + HOUR.
Proof.
  assert (@reachable Z unit _ _ _ never_fails late_world) as Hr.
  { destruct sample_reachable as (d & Hd & Hs). exists d. split; [exact Hd|]. etrans; [exact Hs|exact sample_late_life]. }
  split; [exact Hr|].
  destruct (@analytic_tables_in_order Z unit _ _ _ _ _ _ never_fails late_world Hr)
    as (f & L & F & T & Hc & HL & HF & _).
  exists f, L, F, T. exact (conj Hc (conj HL HF)).
Defined.

Lemma frozen_hour_is_final_witness :
  Tables.analytic_hours (Db.tables sample_second) !! (483000 * HOUR) = Some (Some (sample_now + 2 * HOUR)) /\
  rows_of sample_late !! (([7], 483000 * HOUR) : Pubkey * DateTime) = None /\
  forall p : Pubkey, Tables.analytic_pool_hourly (Db.tables sample_late) !! (p, 483000 * HOUR) =
    summed_facts <$> groups (map_to_list (K := Pubkey * DateTime) (rows late_world)) !! (p, 483000 * HOUR).
Proof.
  assert (Tables.analytic_hours (Db.tables sample_second) !! (483000 * HOUR) = Some (Some (sample_now + 2 * HOUR))) as Hf
    by (vm_compute; reflexivity).
  split; [exact Hf|]. split; [vm_compute; reflexivity|].
  destruct (@frozen_hour_is_final Z unit _ _ _ _ _ _ never_fails second_world
    late_world _ _ sample_reachable Hf sample_late_life) as (_ & _ & _ & Hp & _).
  intros p. exact (proj2 (Hp p)).
Defined.

Lemma planned_cycle_is_written_witness :
  sample_plan ∈ [sample_plan] /\
  exists d' r, @write_cycle Z unit _ _ _ never_fails sample_plan sample_read = Done (d', r).
Proof.
  assert (sample_plan ∈ [sample_plan]) as Hin by (apply list_elem_of_singleton; reflexivity).
  split; [exact Hin|].
  destruct (proj2 (@planned_cycle_is_written Z unit _ _ _ _ _ _ never_fails _ sample_planned_reachable)
    sample_plan Hin) as (d' & r & Hw & _).
  exists d', r. exact Hw.
Defined.

Lemma writer_catches_up_witness :
  frozen_until (progress_of (Db.tables sample_second)) = Some (483001 * HOUR) /\
  exists frozen', frozen_until (progress_of (Db.tables sample_third)) = Some frozen' /\
    Z.min (floor_to HOUR (sample_now + 9 * HOUR - HOUR - FREEZE_MARGIN))
      (483001 * HOUR + Z.of_nat (length [sample_now + 9 * HOUR]) * (6 * HOUR)) <= frozen'.
Proof.
  assert (frozen_until (progress_of (Db.tables sample_second)) = Some (483001 * HOUR)) as Hf
    by (vm_compute; reflexivity).
  split; [exact Hf|].
  destruct (writes_ok (sample_now + 9 * HOUR) sample_second) as [out Ho]; [vm_compute; reflexivity|].
  apply (@writer_catches_up Z unit _ _ _ _ _ _ never_fails second_world sample_third
    [sample_now + 9 * HOUR] _ _ sample_reachable Hf).
  - apply Forall_singleton. split; [lia|]. apply (sample_clock 9). reflexivity.
  - apply (sample_clock 9). reflexivity.
  - eapply cycles_one; [exact Ho|apply cycles_none].
Defined.

(** *** Two first plans *)

(** Two writers read the empty tables, one three hours after the other, before
    either writes: the second's cycle begins at its own hour, and the third
    cycle freezes the hours between the two without their tranches. *)
Definition empty_plan (now : DateTime) : CycleWrite.t :=
  match plan now (progress_of (Db.tables sample_start)) with
  | Done c => c
  | Panic => CycleWrite.mk 0 0 0 0 None None 0
  end.
Definition then_write (c : CycleWrite.t) (d : Db.t Z unit) : Db.t Z unit :=
  match @write_cycle Z unit _ _ _ never_fails c d with Done (d', _) => d' | Panic => d end.

Definition half_past (h : Z) : DateTime := (483000 + h) * HOUR + 6 * TRANCHE.
Definition after_two_first_plans : Db.t Z unit :=
  written (half_past 4) (then_write (empty_plan (half_past 3)) (then_write (empty_plan (half_past 0)) sample_start)).

Example two_first_plans_lose_tranches :
  Tables.analytic_hours (Db.tables after_two_first_plans) !! (483001 * HOUR) = Some (Some (half_past 4)) /\
  Tables.analytic_tranches (Db.tables after_two_first_plans) !! (483001 * HOUR) = None /\
  Tables.analytic_protocol_hourly (Db.tables after_two_first_plans) !! (483001 * HOUR) =
    Some (protocol_facts (N := Z) []).
Proof. split_and!; vm_compute; reflexivity. Qed.
