(* ===== verification/Cursor.v ===== *)
(** * The cursors of the api's pages

    [src/crates/api/src/http/cursor.rs]: every cursor is a JSON object in
    URL-safe base64. serde's derives are the class [Wire]; JSON, base64 and the
    texts of instants, decimals, addresses and signatures are interfaces. *)

From S2P Require Import Prelude External Domain Signals Analytic.

(** ** Third-party encodings *)

Inductive Json : Type :=
| JString (s : string)
| JInt (n : Z)
| JNull
| JOther.

Definition object : Type := list (string * Json).

Inductive Document : Type :=
| Object (o : object)
| Array (vs : list Json).

(** [serde_json]: [from_slice] is [None] on what is neither an object nor an
    array, both being what a struct is read from. *)
Class SerdeJson : Type := {
  to_vec : object -> list Z;
  from_slice : list Z -> option Document;
}.

(** [URL_SAFE_NO_PAD]. *)
Class Base64 : Type := {
  b64_encode : list Z -> string;
  b64_decode : string -> option (list Z);
}.

(** [to_rfc3339], and [parse_from_rfc3339] brought back to UTC. *)
Class Rfc3339 : Type := {
  to_rfc3339 : DateTime -> string;
  parse_from_rfc3339 : string -> option DateTime;
}.

(** [Decimal::from_str]. *)
Class DecimalFromStr (D : Type) : Type := { dec_of_string : string -> option D }.

(** ** The lists the cursors come from (core/src/domain) *)

Inductive AnnouncementStatus : Type :=
| Upcoming
| Open
| Closed.

Definition AnnouncementStatus_as_str (s : AnnouncementStatus) : string :=
  match s with Upcoming => "upcoming" | Open => "open" | Closed => "closed" end.

Inductive LiquidityMoveKind : Type :=
| MoveCreate
| MoveAdd
| MoveRemove.

Definition LiquidityMoveKind_as_str (k : LiquidityMoveKind) : string :=
  match k with MoveCreate => "create" | MoveAdd => "add" | MoveRemove => "remove" end.

Inductive LiquidityMoveOrder : Type :=
| MoveByAmount
| MoveByAt.

Inductive RotationRunOrder : Type :=
| RunByVolume
| RunByAt.

Module EventScope.
Inductive t : Type :=
| All
| Protocol (protocol : Domain.Protocol)
| Pool (pool : Pubkey).
End EventScope.

Module PoolScope.
Inductive t : Type :=
| All
| Protocol (protocol : Domain.Protocol)
| Token (mint : Pubkey).
End PoolScope.

(** The scopes of the liquidity moves and of the rotation runs. *)
Module PoolOrProtocol.
Inductive t : Type :=
| Protocol (protocol : Domain.Protocol)
| Pool (pool : Pubkey).
End PoolOrProtocol.
Definition LiquidityMoveScope : Type := PoolOrProtocol.t.
Definition RotationRunScope : Type := PoolOrProtocol.t.

#[global] Instance AnnouncementStatus_eq_dec : EqDecision AnnouncementStatus.
Proof. solve_decision. Defined.
#[global] Instance LiquidityMoveKind_eq_dec : EqDecision LiquidityMoveKind.
Proof. solve_decision. Defined.
#[global] Instance LiquidityMoveOrder_eq_dec : EqDecision LiquidityMoveOrder.
Proof. solve_decision. Defined.
#[global] Instance RotationRunOrder_eq_dec : EqDecision RotationRunOrder.
Proof. solve_decision. Defined.

Module SignalCursor.
Record t : Type := mk {
  triggered_at : DateTime;
  id : Z;
}.
End SignalCursor.

Module TokenActivityCursor.
Record t (D : Type) : Type := mk {
  last_hour : DateTime;
  volume_usd : D;
  mint : Pubkey;
}.
Arguments mk {D}.
Arguments last_hour {D}.
Arguments volume_usd {D}.
Arguments mint {D}.
End TokenActivityCursor.

Module LiquidityMoveList.
Record t : Type := mk {
  scope : LiquidityMoveScope;
  kind : option LiquidityMoveKind;
}.
End LiquidityMoveList.

Module LiquidityMoveCursor.
Record t (D : Type) : Type := mk {
  list_ : LiquidityMoveList.t;
  window : Window;
  as_of : DateTime;
  order : LiquidityMoveOrder;
  amount_usd : D;
  at_ : DateTime;
  signature : string;
  event_index : Z;
}.
Arguments mk {D}.
Arguments list_ {D}.
Arguments window {D}.
Arguments as_of {D}.
Arguments order {D}.
Arguments amount_usd {D}.
Arguments at_ {D}.
Arguments signature {D}.
Arguments event_index {D}.
End LiquidityMoveCursor.

Module PoolCursor.
Record t : Type := mk {
  scope : PoolScope.t;
  first_seen_at : DateTime;
  pool_address : Pubkey;
}.
End PoolCursor.

Module TokenCursor.
Record t : Type := mk {
  fetched_at : DateTime;
  mint : Pubkey;
}.
End TokenCursor.

Module TokenPriceCursor.
Record t : Type := mk {
  mint : Pubkey;
  from : DateTime;
  fetched_at : DateTime;
}.
End TokenPriceCursor.

Module EventCursor.
Record t : Type := mk {
  scope : EventScope.t;
  from : DateTime;
  at_ : DateTime;
  signature : Signature;
  event_index : Z;
}.
End EventCursor.

Module AnnouncementCursor.
Record t : Type := mk {
  status : option AnnouncementStatus;
  starts_at : DateTime;
  id : Z;
}.
End AnnouncementCursor.

Module RotationRunCursor.
Record t (D : Type) : Type := mk {
  scope : RotationRunScope;
  window : Window;
  as_of : DateTime;
  order : RotationRunOrder;
  volume_usd : D;
  started_at : DateTime;
  pool_address : Pubkey;
}.
Arguments mk {D}.
Arguments scope {D}.
Arguments window {D}.
Arguments as_of {D}.
Arguments order {D}.
Arguments volume_usd {D}.
Arguments started_at {D}.
Arguments pool_address {D}.
End RotationRunCursor.

(** core/src/tools/pagination.rs *)
Module Cursor.
Inductive t (D : Type) : Type :=
| Signal (c : SignalCursor.t)
| TokenActivity (c : TokenActivityCursor.t D)
| LiquidityMove (c : LiquidityMoveCursor.t D)
| Pool (c : PoolCursor.t)
| Token (c : TokenCursor.t)
| TokenPrice (c : TokenPriceCursor.t)
| SwapEvent (c : EventCursor.t)
| LiquidityChangeEvent (c : EventCursor.t)
| PoolCreationEvent (c : EventCursor.t)
| PositionChangeEvent (c : EventCursor.t)
| PositionFeeClaimEvent (c : EventCursor.t)
| ProtocolFeeClaimEvent (c : EventCursor.t)
| RewardClaimEvent (c : EventCursor.t)
| RewardChangeEvent (c : EventCursor.t)
| PoolChangeEvent (c : EventCursor.t)
| Announcement (c : AnnouncementCursor.t)
| RotationRun (c : RotationRunCursor.t D)
| Protocol (c : Domain.Protocol).
Arguments Signal {D}.
Arguments TokenActivity {D}.
Arguments LiquidityMove {D}.
Arguments Pool {D}.
Arguments Token {D}.
Arguments TokenPrice {D}.
Arguments SwapEvent {D}.
Arguments LiquidityChangeEvent {D}.
Arguments PoolCreationEvent {D}.
Arguments PositionChangeEvent {D}.
Arguments PositionFeeClaimEvent {D}.
Arguments ProtocolFeeClaimEvent {D}.
Arguments RewardClaimEvent {D}.
Arguments RewardChangeEvent {D}.
Arguments PoolChangeEvent {D}.
Arguments Announcement {D}.
Arguments RotationRun {D}.
Arguments Protocol {D}.
End Cursor.

(** ** serde's derives on the wire structs *)

(** A value of an object, the first of its key. *)
Definition field (o : object) (name : string) : option Json :=
  snd <$> List.find (fun kv => bool_decide (fst kv = name)) o.

Definition string_field (o : object) (name : string) : option string :=
  match field o name with Some (JString s) => Some s | _ => None end.

(** An [Option<String>]: absent or [null] is [None]. *)
Definition option_field (o : object) (name : string) : option (option string) :=
  match field o name with
  | None | Some JNull => Some None
  | Some (JString s) => Some (Some s)
  | _ => None
  end.

Definition int_field (in_range : Z -> bool) (o : object) (name : string) : option Z :=
  match field o name with
  | Some (JInt n) => if in_range n then Some n else None
  | _ => None
  end.

Class Wire (W : Type) : Type := {
  wire_fields : list string;
  to_object : W -> object;
  of_object : object -> option W;
}.

(** [deny_unknown_fields]; a field given twice is refused by the derive itself. *)
Definition known_fields (fields : list string) (o : object) : bool :=
  forallb (fun kv => existsb (String.eqb (fst kv)) fields) o && bool_decide (NoDup (map fst o)).

(** A struct is read from an object of its fields, or from an array of their
    values in order. *)
Definition deserialize {W} `{Wire W} (d : Document) : option W :=
  match d with
  | Object o => if known_fields wire_fields o then of_object o else None
  | Array vs => if (length vs =? length wire_fields)%nat then of_object (combine wire_fields vs) else None
  end.

Module SignalCursorWire.
Record t : Type := mk { triggered_at : string; id : Z }.
#[global] Instance wire : Wire t := {
  wire_fields := ["triggered_at"; "id"];
  to_object w := [("triggered_at", JString (triggered_at w)); ("id", JInt (id w))];
  of_object o :=
    let! a := string_field o "triggered_at" in
    let! b := int_field (in_int 64) o "id" in Some (mk a b);
}.
End SignalCursorWire.

Module TokenActivityCursorWire.
Record t : Type := mk { last_hour : string; volume_usd : string; mint : string }.
#[global] Instance wire : Wire t := {
  wire_fields := ["last_hour"; "volume_usd"; "mint"];
  to_object w := [("last_hour", JString (last_hour w)); ("volume_usd", JString (volume_usd w));
    ("mint", JString (mint w))];
  of_object o :=
    let! a := string_field o "last_hour" in
    let! b := string_field o "volume_usd" in
    let! c := string_field o "mint" in Some (mk a b c);
}.
End TokenActivityCursorWire.

Module LiquidityMoveCursorWire.
Record t : Type := mk {
  scope : string;
  kind : option string;
  window : string;
  as_of : string;
  order : string;
  amount_usd : string;
  at_ : string;
  signature : string;
  event_index : Z;
}.
(** [kind] is left out when there is none. *)
#[global] Instance wire : Wire t := {
  wire_fields := ["scope"; "kind"; "window"; "as_of"; "order"; "amount_usd"; "at"; "signature"; "event_index"];
  to_object w :=
    [("scope", JString (scope w))] ++
    match kind w with Some k => [("kind", JString k)] | None => [] end ++
    [("window", JString (window w)); ("as_of", JString (as_of w)); ("order", JString (order w));
     ("amount_usd", JString (amount_usd w)); ("at", JString (at_ w));
     ("signature", JString (signature w)); ("event_index", JInt (event_index w))];
  of_object o :=
    let! a := string_field o "scope" in
    let! b := option_field o "kind" in
    let! c := string_field o "window" in
    let! d := string_field o "as_of" in
    let! e := string_field o "order" in
    let! f := string_field o "amount_usd" in
    let! g := string_field o "at" in
    let! h := string_field o "signature" in
    let! i := int_field (in_int 32) o "event_index" in Some (mk a b c d e f g h i);
}.
End LiquidityMoveCursorWire.

Module ProtocolCursorWire.
Record t : Type := mk { protocol : string }.
#[global] Instance wire : Wire t := {
  wire_fields := ["protocol"];
  to_object w := [("protocol", JString (protocol w))];
  of_object o := let! a := string_field o "protocol" in Some (mk a);
}.
End ProtocolCursorWire.

Module PoolCursorWire.
Record t : Type := mk { scope : string; first_seen_at : string; pool : string }.
#[global] Instance wire : Wire t := {
  wire_fields := ["scope"; "first_seen_at"; "pool"];
  to_object w := [("scope", JString (scope w)); ("first_seen_at", JString (first_seen_at w));
    ("pool", JString (pool w))];
  of_object o :=
    let! a := string_field o "scope" in
    let! b := string_field o "first_seen_at" in
    let! c := string_field o "pool" in Some (mk a b c);
}.
End PoolCursorWire.

Module TokenCursorWire.
Record t : Type := mk { fetched_at : string; mint : string }.
#[global] Instance wire : Wire t := {
  wire_fields := ["fetched_at"; "mint"];
  to_object w := [("fetched_at", JString (fetched_at w)); ("mint", JString (mint w))];
  of_object o :=
    let! a := string_field o "fetched_at" in
    let! b := string_field o "mint" in Some (mk a b);
}.
End TokenCursorWire.

Module TokenPriceCursorWire.
Record t : Type := mk { mint : string; from : string; fetched_at : string }.
#[global] Instance wire : Wire t := {
  wire_fields := ["mint"; "from"; "fetched_at"];
  to_object w := [("mint", JString (mint w)); ("from", JString (from w));
    ("fetched_at", JString (fetched_at w))];
  of_object o :=
    let! a := string_field o "mint" in
    let! b := string_field o "from" in
    let! c := string_field o "fetched_at" in Some (mk a b c);
}.
End TokenPriceCursorWire.

Module RotationRunCursorWire.
Record t : Type := mk {
  scope : string;
  window : string;
  as_of : string;
  order : string;
  volume_usd : string;
  started_at : string;
  pool : string;
}.
#[global] Instance wire : Wire t := {
  wire_fields := ["scope"; "window"; "as_of"; "order"; "volume_usd"; "started_at"; "pool"];
  to_object w := [("scope", JString (scope w)); ("window", JString (window w));
    ("as_of", JString (as_of w)); ("order", JString (order w));
    ("volume_usd", JString (volume_usd w)); ("started_at", JString (started_at w));
    ("pool", JString (pool w))];
  of_object o :=
    let! a := string_field o "scope" in
    let! b := string_field o "window" in
    let! c := string_field o "as_of" in
    let! d := string_field o "order" in
    let! e := string_field o "volume_usd" in
    let! f := string_field o "started_at" in
    let! g := string_field o "pool" in Some (mk a b c d e f g);
}.
End RotationRunCursorWire.

Module AnnouncementCursorWire.
Record t : Type := mk { status : option string; starts_at : string; id : Z }.
#[global] Instance wire : Wire t := {
  wire_fields := ["status"; "starts_at"; "id"];
  to_object w := [("status", match status w with Some s => JString s | None => JNull end);
    ("starts_at", JString (starts_at w)); ("id", JInt (id w))];
  of_object o :=
    let! a := option_field o "status" in
    let! b := string_field o "starts_at" in
    let! c := int_field (in_int 64) o "id" in Some (mk a b c);
}.
End AnnouncementCursorWire.

Module EventCursorWire.
Record t : Type := mk {
  collection : string;
  scope : string;
  from : string;
  at_ : string;
  signature : string;
  event_index : Z;
}.
#[global] Instance wire : Wire t := {
  wire_fields := ["collection"; "scope"; "from"; "at"; "signature"; "event_index"];
  to_object w := [("collection", JString (collection w)); ("scope", JString (scope w));
    ("from", JString (from w)); ("at", JString (at_ w)); ("signature", JString (signature w));
    ("event_index", JInt (event_index w))];
  of_object o :=
    let! a := string_field o "collection" in
    let! b := string_field o "scope" in
    let! c := string_field o "from" in
    let! d := string_field o "at" in
    let! e := string_field o "signature" in
    let! f := int_field (in_uint 16) o "event_index" in Some (mk a b c d e f);
}.
End EventCursorWire.

(** ** [cursor.rs] *)

Inductive ApiError : Type :=
| BadRequest (reason : string)
| Unauthorized
| NotFound_ (reason : string)
| Unavailable (reason : string)
| Internal (reason : string)
| Framework (status : Z) (text : string).

Inductive EventCollection : Type :=
| Swaps
| LiquidityChanges
| PoolCreations
| PositionChanges
| PositionFeeClaims
| ProtocolFeeClaims
| RewardClaims
| RewardChanges
| PoolChanges.

Definition tag (c : EventCollection) : string :=
  match c with
  | Swaps => "swaps"
  | LiquidityChanges => "liquidity-changes"
  | PoolCreations => "pool-creations"
  | PositionChanges => "position-changes"
  | PositionFeeClaims => "position-fee-claims"
  | ProtocolFeeClaims => "protocol-fee-claims"
  | RewardClaims => "reward-claims"
  | RewardChanges => "reward-changes"
  | PoolChanges => "pool-changes"
  end.

Section Cursors.
Context {D : Type} `{!DecimalText D} `{!DecimalFromStr D}.
Context `{Base58} `{SignatureDisplay} `{SignatureFromStr} `{Rfc3339} `{SerdeJson} `{Base64}.

Definition event_scope_tag (scope : EventScope.t) : string :=
  match scope with
  | EventScope.All => "all"
  | EventScope.Protocol protocol => "protocol:" ++ Protocol_as_str protocol
  | EventScope.Pool pool => "pool:" ++ pubkey_to_string pool
  end.

Definition scope_tag (scope : PoolScope.t) : string :=
  match scope with
  | PoolScope.All => "all"
  | PoolScope.Protocol protocol => "protocol:" ++ Protocol_as_str protocol
  | PoolScope.Token mint => "token:" ++ pubkey_to_string mint
  end.

Definition liquidity_move_scope_tag (scope : LiquidityMoveScope) : string :=
  match scope with
  | PoolOrProtocol.Protocol protocol => "protocol:" ++ Protocol_as_str protocol
  | PoolOrProtocol.Pool pool => "pool:" ++ pubkey_to_string pool
  end.

Definition rotation_run_scope_tag (scope : RotationRunScope) : string :=
  match scope with
  | PoolOrProtocol.Protocol protocol => "protocol:" ++ Protocol_as_str protocol
  | PoolOrProtocol.Pool pool => "pool:" ++ pubkey_to_string pool
  end.

Definition order_tag (order : LiquidityMoveOrder) : string :=
  match order with MoveByAmount => "amount" | MoveByAt => "at" end.

Definition rotation_run_order_tag (order : RotationRunOrder) : string :=
  match order with RunByVolume => "volume" | RunByAt => "at" end.

Definition encode_b64_json {W} `{Wire W} (value : W) : result string ApiError :=
  Ok (b64_encode (to_vec (to_object value))).

Definition decode_b64_json {W} `{Wire W} (raw : string) : result W ApiError :=
  let? bytes := ok_or (b64_decode raw) (BadRequest "invalid cursor: not valid base64") in
  ok_or (let! d := from_slice bytes in deserialize d)
    (BadRequest "invalid cursor: malformed payload").

Definition parse_rfc3339 (raw : string) : result DateTime ApiError :=
  ok_or (parse_from_rfc3339 raw) (BadRequest "invalid cursor: malformed timestamp").

Definition encode_event_cursor (collection : EventCollection) (c : EventCursor.t) :
    result string ApiError :=
  encode_b64_json (EventCursorWire.mk (tag collection) (event_scope_tag (EventCursor.scope c))
    (to_rfc3339 (EventCursor.from c)) (to_rfc3339 (EventCursor.at_ c))
    (signature_to_string (EventCursor.signature c)) (EventCursor.event_index c)).

Definition encode_cursor (cursor : Cursor.t D) : result string ApiError :=
  match cursor with
  | Cursor.Signal c =>
      encode_b64_json (SignalCursorWire.mk (to_rfc3339 (SignalCursor.triggered_at c)) (SignalCursor.id c))
  | Cursor.TokenActivity c =>
      encode_b64_json (TokenActivityCursorWire.mk (to_rfc3339 (TokenActivityCursor.last_hour c))
        (dec_to_string (TokenActivityCursor.volume_usd c)) (pubkey_to_string (TokenActivityCursor.mint c)))
  | Cursor.LiquidityMove c =>
      encode_b64_json (LiquidityMoveCursorWire.mk
        (liquidity_move_scope_tag (LiquidityMoveList.scope (LiquidityMoveCursor.list_ c)))
        (LiquidityMoveKind_as_str <$> LiquidityMoveList.kind (LiquidityMoveCursor.list_ c))
        (Window_as_str (LiquidityMoveCursor.window c)) (to_rfc3339 (LiquidityMoveCursor.as_of c))
        (order_tag (LiquidityMoveCursor.order c)) (dec_to_string (LiquidityMoveCursor.amount_usd c))
        (to_rfc3339 (LiquidityMoveCursor.at_ c)) (LiquidityMoveCursor.signature c)
        (LiquidityMoveCursor.event_index c))
  | Cursor.Pool c =>
      encode_b64_json (PoolCursorWire.mk (scope_tag (PoolCursor.scope c))
        (to_rfc3339 (PoolCursor.first_seen_at c)) (pubkey_to_string (PoolCursor.pool_address c)))
  | Cursor.Token c =>
      encode_b64_json (TokenCursorWire.mk (to_rfc3339 (TokenCursor.fetched_at c))
        (pubkey_to_string (TokenCursor.mint c)))
  | Cursor.TokenPrice c =>
      encode_b64_json (TokenPriceCursorWire.mk (pubkey_to_string (TokenPriceCursor.mint c))
        (to_rfc3339 (TokenPriceCursor.from c)) (to_rfc3339 (TokenPriceCursor.fetched_at c)))
  | Cursor.SwapEvent c => encode_event_cursor Swaps c
  | Cursor.LiquidityChangeEvent c => encode_event_cursor LiquidityChanges c
  | Cursor.PoolCreationEvent c => encode_event_cursor PoolCreations c
  | Cursor.PositionChangeEvent c => encode_event_cursor PositionChanges c
  | Cursor.PositionFeeClaimEvent c => encode_event_cursor PositionFeeClaims c
  | Cursor.ProtocolFeeClaimEvent c => encode_event_cursor ProtocolFeeClaims c
  | Cursor.RewardClaimEvent c => encode_event_cursor RewardClaims c
  | Cursor.RewardChangeEvent c => encode_event_cursor RewardChanges c
  | Cursor.PoolChangeEvent c => encode_event_cursor PoolChanges c
  | Cursor.RotationRun c =>
      encode_b64_json (RotationRunCursorWire.mk (rotation_run_scope_tag (RotationRunCursor.scope c))
        (Window_as_str (RotationRunCursor.window c)) (to_rfc3339 (RotationRunCursor.as_of c))
        (rotation_run_order_tag (RotationRunCursor.order c))
        (dec_to_string (RotationRunCursor.volume_usd c)) (to_rfc3339 (RotationRunCursor.started_at c))
        (pubkey_to_string (RotationRunCursor.pool_address c)))
  | Cursor.Announcement c =>
      encode_b64_json (AnnouncementCursorWire.mk
        (AnnouncementStatus_as_str <$> AnnouncementCursor.status c)
        (to_rfc3339 (AnnouncementCursor.starts_at c)) (AnnouncementCursor.id c))
  | Cursor.Protocol protocol => encode_b64_json (ProtocolCursorWire.mk (Protocol_as_str protocol))
  end.

Definition encode_cursor_opt (cursor : option (Cursor.t D)) : result (option string) ApiError :=
  match cursor with
  | Some c => result_map Some (encode_cursor c)
  | None => Ok None
  end.

Definition parse_decimal (raw what : string) : result D ApiError :=
  ok_or (dec_of_string raw) (BadRequest ("invalid cursor: malformed " ++ what)).
Definition parse_pubkey (raw what : string) : result Pubkey ApiError :=
  ok_or (pubkey_of_string raw) (BadRequest ("invalid cursor: malformed " ++ what)).

Definition decode_signal_cursor (raw : string) : result SignalCursor.t ApiError :=
  let? wire := decode_b64_json (W := SignalCursorWire.t) raw in
  let? triggered_at := parse_rfc3339 (SignalCursorWire.triggered_at wire) in
  Ok (SignalCursor.mk triggered_at (SignalCursorWire.id wire)).

Definition decode_token_activity_cursor (raw : string) : result (TokenActivityCursor.t D) ApiError :=
  let? wire := decode_b64_json (W := TokenActivityCursorWire.t) raw in
  let? last_hour := parse_rfc3339 (TokenActivityCursorWire.last_hour wire) in
  let? volume_usd := parse_decimal (TokenActivityCursorWire.volume_usd wire) "volume" in
  let? mint := parse_pubkey (TokenActivityCursorWire.mint wire) "mint" in
  Ok (TokenActivityCursor.mk last_hour volume_usd mint).

Definition another_list {A} : result A ApiError := Err (BadRequest "invalid cursor: taken in another list").

Definition decode_liquidity_move_cursor (raw : string) (list : LiquidityMoveList.t)
    (order : LiquidityMoveOrder) : result (LiquidityMoveCursor.t D) ApiError :=
  let? wire := decode_b64_json (W := LiquidityMoveCursorWire.t) raw in
  if negb (bool_decide (LiquidityMoveCursorWire.scope wire =
        liquidity_move_scope_tag (LiquidityMoveList.scope list))) ||
     negb (bool_decide (LiquidityMoveCursorWire.kind wire =
        LiquidityMoveKind_as_str <$> LiquidityMoveList.kind list))
  then another_list
  else if negb (bool_decide (LiquidityMoveCursorWire.order wire = order_tag order))
  then Err (BadRequest "invalid cursor: taken in another order")
  else
    let? window := ok_or
      (List.find (fun w => bool_decide (Window_as_str w = LiquidityMoveCursorWire.window wire))
        ([Hour] ++ Window_ALL))
      (BadRequest "invalid cursor: malformed window") in
    let? as_of := parse_rfc3339 (LiquidityMoveCursorWire.as_of wire) in
    let? amount_usd := parse_decimal (LiquidityMoveCursorWire.amount_usd wire) "amount" in
    let? at_ := parse_rfc3339 (LiquidityMoveCursorWire.at_ wire) in
    Ok (LiquidityMoveCursor.mk list window as_of order amount_usd at_
      (LiquidityMoveCursorWire.signature wire) (LiquidityMoveCursorWire.event_index wire)).

Definition decode_pool_cursor (raw : string) (scope : PoolScope.t) : result PoolCursor.t ApiError :=
  let? wire := decode_b64_json (W := PoolCursorWire.t) raw in
  if negb (bool_decide (PoolCursorWire.scope wire = scope_tag scope)) then another_list
  else
    let? first_seen_at := parse_rfc3339 (PoolCursorWire.first_seen_at wire) in
    let? pool_address := parse_pubkey (PoolCursorWire.pool wire) "pool" in
    Ok (PoolCursor.mk scope first_seen_at pool_address).

Definition decode_token_cursor (raw : string) : result TokenCursor.t ApiError :=
  let? wire := decode_b64_json (W := TokenCursorWire.t) raw in
  let? fetched_at := parse_rfc3339 (TokenCursorWire.fetched_at wire) in
  let? mint := parse_pubkey (TokenCursorWire.mint wire) "mint" in
  Ok (TokenCursor.mk fetched_at mint).

Definition decode_rotation_run_cursor (raw : string) (scope : RotationRunScope) (window : Window)
    (order : RotationRunOrder) : result (RotationRunCursor.t D) ApiError :=
  let? wire := decode_b64_json (W := RotationRunCursorWire.t) raw in
  if negb (bool_decide (RotationRunCursorWire.scope wire = rotation_run_scope_tag scope)) ||
     negb (bool_decide (RotationRunCursorWire.window wire = Window_as_str window)) ||
     negb (bool_decide (RotationRunCursorWire.order wire = rotation_run_order_tag order))
  then another_list
  else
    let? as_of := parse_rfc3339 (RotationRunCursorWire.as_of wire) in
    let? volume_usd := parse_decimal (RotationRunCursorWire.volume_usd wire) "volume" in
    let? started_at := parse_rfc3339 (RotationRunCursorWire.started_at wire) in
    let? pool_address := parse_pubkey (RotationRunCursorWire.pool wire) "pool" in
    Ok (RotationRunCursor.mk scope window as_of order volume_usd started_at pool_address).

Definition decode_protocol_cursor (raw : string) : result Protocol ApiError :=
  let? wire := decode_b64_json (W := ProtocolCursorWire.t) raw in
  ok_or (List.find (fun protocol =>
      bool_decide (Protocol_as_str protocol = ProtocolCursorWire.protocol wire)) all_protocols)
    (BadRequest "invalid cursor: unknown protocol").

Definition decode_announcement_cursor (raw : string) (status : option AnnouncementStatus) :
    result AnnouncementCursor.t ApiError :=
  let? wire := decode_b64_json (W := AnnouncementCursorWire.t) raw in
  if negb (bool_decide (AnnouncementCursorWire.status wire = AnnouncementStatus_as_str <$> status))
  then Err (BadRequest "invalid cursor: taken under another status")
  else
    let? starts_at := parse_rfc3339 (AnnouncementCursorWire.starts_at wire) in
    Ok (AnnouncementCursor.mk status starts_at (AnnouncementCursorWire.id wire)).

Definition decode_token_price_cursor (raw : string) (mint : Pubkey) : result TokenPriceCursor.t ApiError :=
  let? wire := decode_b64_json (W := TokenPriceCursorWire.t) raw in
  if negb (bool_decide (TokenPriceCursorWire.mint wire = pubkey_to_string mint)) then another_list
  else
    let? from := parse_rfc3339 (TokenPriceCursorWire.from wire) in
    let? fetched_at := parse_rfc3339 (TokenPriceCursorWire.fetched_at wire) in
    Ok (TokenPriceCursor.mk mint from fetched_at).

Definition decode_event_cursor (raw : string) (collection : EventCollection) (scope : EventScope.t) :
    result EventCursor.t ApiError :=
  let? wire := decode_b64_json (W := EventCursorWire.t) raw in
  if negb (bool_decide (EventCursorWire.collection wire = tag collection)) ||
     negb (bool_decide (EventCursorWire.scope wire = event_scope_tag scope))
  then another_list
  else
    let? from := parse_rfc3339 (EventCursorWire.from wire) in
    let? at_ := parse_rfc3339 (EventCursorWire.at_ wire) in
    let? signature := ok_or (signature_of_string (EventCursorWire.signature wire))
      (BadRequest "invalid cursor: malformed signature") in
    Ok (EventCursor.mk scope from at_ signature (EventCursorWire.event_index wire)).
End Cursors.
