(* ===== verification/CursorFacts.v ===== *)
(** * A cursor is read back in its list, and nowhere else

    The laws of its encodings, its round trip, and concrete encodings on which
    the laws hold. *)

From Stdlib Require Import Ascii.
From stdpp Require Import countable.
From S2P Require Import Prelude External Domain Reference Signals Analytic Cursor.

(** ** What the encodings promise *)

(** The instants RFC 3339 writes with four digits of year. *)
Definition rfc3339_range (t : DateTime) : Prop :=
  -62167219200 * 10 ^ 9 <= t < 253402300800 * 10 ^ 9.

(** What [serde_json] writes and reads as it is. *)
Definition json_exact (j : Json) : Prop :=
  match j with
  | JString _ | JNull => True
  | JInt n => in_int 64 n = true
  | JOther => False
  end.

Class SerdeJsonLaws `{SerdeJson} : Prop := {
  to_vec_bytes : forall o, Forall (is_uint 8) (to_vec o);
  from_to_vec : forall o, NoDup (map fst o) -> Forall json_exact (map snd o) ->
    from_slice (to_vec o) = Some (Object o);
}.
Class Base64Laws `{Base64} : Prop := {
  b64_decode_encode : forall bs, Forall (is_uint 8) bs -> b64_decode (b64_encode bs) = Some bs;
}.
Class Rfc3339Laws `{Rfc3339} : Prop := {
  parse_to_rfc3339 : forall t, rfc3339_range t -> parse_from_rfc3339 (to_rfc3339 t) = Some t;
}.
Class DecimalFromStrLaws (D : Type) `{!DecimalText D} `{!DecimalFromStr D} : Prop := {
  dec_of_to_string : forall d : D, dec_of_string (dec_to_string d) = Some d;
}.

(** What a derived pair of conversions promises. *)
Class WireLaws (W : Type) `{Wire W} : Type := {
  wire_ok : W -> Prop;
  wire_known : forall w : W, known_fields wire_fields (to_object w) = true;
  wire_exact : forall w : W, wire_ok w -> Forall json_exact (map snd (to_object w));
  of_to_object : forall w : W, wire_ok w -> of_object (to_object w) = Some w;
}.

Lemma int_32_64 n : in_int 32 n = true -> in_int 64 n = true.
Proof. unfold in_int. rewrite !andb_true_iff, !Z.leb_le, !Z.ltb_lt. lia. Qed.
Lemma uint_16_64 n : in_uint 16 n = true -> in_int 64 n = true.
Proof. unfold in_int, in_uint. rewrite !andb_true_iff, !Z.leb_le, !Z.ltb_lt. lia. Qed.

Ltac solve_wire :=
  intros []; repeat match goal with
  | o : option string |- _ => destruct o
  end; simpl; try done; intros Hb; unfold int_field; simpl;
  first [by rewrite Hb | rewrite ?Forall_cons; naive_solver eauto using int_32_64, uint_16_64].

#[global, refine] Instance signal_wire : WireLaws SignalCursorWire.t :=
  { wire_ok w := in_int 64 (SignalCursorWire.id w) = true }.
Proof. all: solve_wire. Defined.
#[global, refine] Instance token_activity_wire : WireLaws TokenActivityCursorWire.t := { wire_ok _ := True }.
Proof. all: solve_wire. Defined.
#[global, refine] Instance liquidity_move_wire : WireLaws LiquidityMoveCursorWire.t :=
  { wire_ok w := in_int 32 (LiquidityMoveCursorWire.event_index w) = true }.
Proof. all: solve_wire. Defined.
#[global, refine] Instance protocol_wire : WireLaws ProtocolCursorWire.t := { wire_ok _ := True }.
Proof. all: solve_wire. Defined.
#[global, refine] Instance pool_wire : WireLaws PoolCursorWire.t := { wire_ok _ := True }.
Proof. all: solve_wire. Defined.
#[global, refine] Instance token_wire : WireLaws TokenCursorWire.t := { wire_ok _ := True }.
Proof. all: solve_wire. Defined.
#[global, refine] Instance token_price_wire : WireLaws TokenPriceCursorWire.t := { wire_ok _ := True }.
Proof. all: solve_wire. Defined.
#[global, refine] Instance rotation_run_wire : WireLaws RotationRunCursorWire.t := { wire_ok _ := True }.
Proof. all: solve_wire. Defined.
#[global, refine] Instance announcement_wire : WireLaws AnnouncementCursorWire.t :=
  { wire_ok w := in_int 64 (AnnouncementCursorWire.id w) = true }.
Proof. all: solve_wire. Defined.
#[global, refine] Instance event_wire : WireLaws EventCursorWire.t :=
  { wire_ok w := in_uint 16 (EventCursorWire.event_index w) = true }.
Proof. all: solve_wire. Defined.

(** ** The envelope *)

Section Envelope.
Context `{SerdeJsonLaws} `{Base64Laws}.

(** The text of an object. *)
Definition envelope (o : object) : string := b64_encode (to_vec o).

Lemma to_object_NoDup {W} `{WireLaws W} (w : W) : NoDup (map fst (to_object w)).
Proof.
  pose proof (wire_known w) as Hk. unfold known_fields in Hk. apply andb_true_iff in Hk as [_ Hk].
  by apply bool_decide_eq_true in Hk.
Qed.

(** The object of a struct [W], read as a struct [W']. *)
Lemma decode_envelope {W W'} `{WireLaws W} `{Wire W'} (w : W) :
  wire_ok w ->
  decode_b64_json (W := W') (envelope (to_object w)) =
    ok_or (deserialize (Object (to_object w))) (BadRequest "invalid cursor: malformed payload").
Proof.
  intros Hw. unfold decode_b64_json, envelope.
  rewrite b64_decode_encode by apply to_vec_bytes. simpl.
  rewrite from_to_vec by eauto using to_object_NoDup, wire_exact. done.
Qed.

Lemma decode_own {W} `{WireLaws W} (w : W) :
  wire_ok w -> decode_b64_json (envelope (to_object w)) = Ok w.
Proof.
  intros Hw. rewrite decode_envelope by done. simpl.
  by rewrite wire_known, of_to_object.
Qed.

(** An object of another struct: its fields are not the ones expected. *)
Lemma decode_foreign {W W'} `{WireLaws W} `{Wire W'} (w : W) :
  wire_ok w -> deserialize (W := W') (Object (to_object w)) = None ->
  decode_b64_json (W := W') (envelope (to_object w)) = Err (BadRequest "invalid cursor: malformed payload").
Proof. intros Hw Hd. rewrite decode_envelope by done. by rewrite Hd. Qed.
End Envelope.

(** ** The lists a cursor can be read in *)

Module CursorList.
Inductive t : Type :=
| Signals
| TokenActivities
| LiquidityMoves (list : LiquidityMoveList.t) (order : LiquidityMoveOrder)
| Pools (scope : PoolScope.t)
| Tokens
| TokenPrices (mint : Pubkey)
| Events (collection : EventCollection) (scope : EventScope.t)
| RotationRuns (scope : RotationRunScope) (window : Window) (order : RotationRunOrder)
| Announcements (status : option AnnouncementStatus)
| Protocols.
End CursorList.

(** The list a cursor was taken in. *)
Definition list_of {D} (c : Cursor.t D) : CursorList.t :=
  match c with
  | Cursor.Signal _ => CursorList.Signals
  | Cursor.TokenActivity _ => CursorList.TokenActivities
  | Cursor.LiquidityMove c =>
      CursorList.LiquidityMoves (LiquidityMoveCursor.list_ c) (LiquidityMoveCursor.order c)
  | Cursor.Pool c => CursorList.Pools (PoolCursor.scope c)
  | Cursor.Token _ => CursorList.Tokens
  | Cursor.TokenPrice c => CursorList.TokenPrices (TokenPriceCursor.mint c)
  | Cursor.SwapEvent c => CursorList.Events Swaps (EventCursor.scope c)
  | Cursor.LiquidityChangeEvent c => CursorList.Events LiquidityChanges (EventCursor.scope c)
  | Cursor.PoolCreationEvent c => CursorList.Events PoolCreations (EventCursor.scope c)
  | Cursor.PositionChangeEvent c => CursorList.Events PositionChanges (EventCursor.scope c)
  | Cursor.PositionFeeClaimEvent c => CursorList.Events PositionFeeClaims (EventCursor.scope c)
  | Cursor.ProtocolFeeClaimEvent c => CursorList.Events ProtocolFeeClaims (EventCursor.scope c)
  | Cursor.RewardClaimEvent c => CursorList.Events RewardClaims (EventCursor.scope c)
  | Cursor.RewardChangeEvent c => CursorList.Events RewardChanges (EventCursor.scope c)
  | Cursor.PoolChangeEvent c => CursorList.Events PoolChanges (EventCursor.scope c)
  | Cursor.RotationRun c => CursorList.RotationRuns (RotationRunCursor.scope c)
      (RotationRunCursor.window c) (RotationRunCursor.order c)
  | Cursor.Announcement c => CursorList.Announcements (AnnouncementCursor.status c)
  | Cursor.Protocol _ => CursorList.Protocols
  end.

Definition event_cursor_of {D} (collection : EventCollection) : EventCursor.t -> Cursor.t D :=
  match collection with
  | Swaps => Cursor.SwapEvent
  | LiquidityChanges => Cursor.LiquidityChangeEvent
  | PoolCreations => Cursor.PoolCreationEvent
  | PositionChanges => Cursor.PositionChangeEvent
  | PositionFeeClaims => Cursor.PositionFeeClaimEvent
  | ProtocolFeeClaims => Cursor.ProtocolFeeClaimEvent
  | RewardClaims => Cursor.RewardClaimEvent
  | RewardChanges => Cursor.RewardChangeEvent
  | PoolChanges => Cursor.PoolChangeEvent
  end.

(** What the code can encode: addresses of 32 bytes, instants RFC 3339 can
    write, integers of their width. *)
Definition wf_pool_or_protocol (s : PoolOrProtocol.t) : Prop :=
  match s with PoolOrProtocol.Pool k => is_bytes 32 k | _ => True end.
Definition wf_event_scope (s : EventScope.t) : Prop :=
  match s with EventScope.Pool k => is_bytes 32 k | _ => True end.
Definition wf_pool_scope (s : PoolScope.t) : Prop :=
  match s with PoolScope.Token k => is_bytes 32 k | _ => True end.

Definition wf_event_cursor (c : EventCursor.t) : Prop :=
  wf_event_scope (EventCursor.scope c) /\ rfc3339_range (EventCursor.from c) /\
  rfc3339_range (EventCursor.at_ c) /\ is_bytes 64 (EventCursor.signature c) /\
  in_uint 16 (EventCursor.event_index c) = true.

Definition wf_cursor {D} (c : Cursor.t D) : Prop :=
  match c with
  | Cursor.Signal c =>
      rfc3339_range (SignalCursor.triggered_at c) /\ in_int 64 (SignalCursor.id c) = true
  | Cursor.TokenActivity c =>
      rfc3339_range (TokenActivityCursor.last_hour c) /\ is_bytes 32 (TokenActivityCursor.mint c)
  | Cursor.LiquidityMove c =>
      wf_pool_or_protocol (LiquidityMoveList.scope (LiquidityMoveCursor.list_ c)) /\
      rfc3339_range (LiquidityMoveCursor.as_of c) /\ rfc3339_range (LiquidityMoveCursor.at_ c) /\
      in_int 32 (LiquidityMoveCursor.event_index c) = true
  | Cursor.Pool c =>
      wf_pool_scope (PoolCursor.scope c) /\ rfc3339_range (PoolCursor.first_seen_at c) /\
      is_bytes 32 (PoolCursor.pool_address c)
  | Cursor.Token c => rfc3339_range (TokenCursor.fetched_at c) /\ is_bytes 32 (TokenCursor.mint c)
  | Cursor.TokenPrice c =>
      is_bytes 32 (TokenPriceCursor.mint c) /\ rfc3339_range (TokenPriceCursor.from c) /\
      rfc3339_range (TokenPriceCursor.fetched_at c)
  | Cursor.SwapEvent c | Cursor.LiquidityChangeEvent c | Cursor.PoolCreationEvent c
  | Cursor.PositionChangeEvent c | Cursor.PositionFeeClaimEvent c | Cursor.ProtocolFeeClaimEvent c
  | Cursor.RewardClaimEvent c | Cursor.RewardChangeEvent c | Cursor.PoolChangeEvent c =>
      wf_event_cursor c
  | Cursor.RotationRun c =>
      wf_pool_or_protocol (RotationRunCursor.scope c) /\ rfc3339_range (RotationRunCursor.as_of c) /\
      rfc3339_range (RotationRunCursor.started_at c) /\ is_bytes 32 (RotationRunCursor.pool_address c)
  | Cursor.Announcement c =>
      rfc3339_range (AnnouncementCursor.starts_at c) /\ in_int 64 (AnnouncementCursor.id c) = true
  | Cursor.Protocol _ => True
  end.

Definition wf_list (l : CursorList.t) : Prop :=
  match l with
  | CursorList.LiquidityMoves list _ => wf_pool_or_protocol (LiquidityMoveList.scope list)
  | CursorList.Pools scope => wf_pool_scope scope
  | CursorList.TokenPrices mint => is_bytes 32 mint
  | CursorList.Events _ scope => wf_event_scope scope
  | CursorList.RotationRuns scope _ _ => wf_pool_or_protocol scope
  | _ => True
  end.

Section Lists.
Context {D : Type} `{DecimalFromStrLaws D} `{Base58Laws} `{SignatureFromStrLaws} `{Rfc3339Laws}.
Context `{SerdeJsonLaws} `{Base64Laws}.
Implicit Types (c : Cursor.t D) (l : CursorList.t).

(** A request of [l] given the text of a cursor. *)
Definition decode_in l (raw : string) : result (Cursor.t D) ApiError :=
  match l with
  | CursorList.Signals => result_map Cursor.Signal (decode_signal_cursor raw)
  | CursorList.TokenActivities => result_map Cursor.TokenActivity (decode_token_activity_cursor raw)
  | CursorList.LiquidityMoves list order =>
      result_map Cursor.LiquidityMove (decode_liquidity_move_cursor raw list order)
  | CursorList.Pools scope => result_map Cursor.Pool (decode_pool_cursor raw scope)
  | CursorList.Tokens => result_map Cursor.Token (decode_token_cursor raw)
  | CursorList.TokenPrices mint => result_map Cursor.TokenPrice (decode_token_price_cursor raw mint)
  | CursorList.Events collection scope =>
      result_map (event_cursor_of collection) (decode_event_cursor raw collection scope)
  | CursorList.RotationRuns scope window order =>
      result_map Cursor.RotationRun (decode_rotation_run_cursor raw scope window order)
  | CursorList.Announcements status =>
      result_map Cursor.Announcement (decode_announcement_cursor raw status)
  | CursorList.Protocols => result_map Cursor.Protocol (decode_protocol_cursor raw)
  end.

Lemma pubkey_to_string_inj k k' :
  is_bytes 32 k -> is_bytes 32 k' -> pubkey_to_string k = pubkey_to_string k' -> k = k'.
Proof.
  intros Hk Hk' He. apply pubkey_of_to_string in Hk, Hk'. rewrite He in Hk. congruence.
Qed.

Lemma protocol_text_inj p q : Protocol_as_str p = Protocol_as_str q -> p = q.
Proof. by destruct p, q. Qed.

Lemma pool_or_protocol_tag_inj s s' :
  wf_pool_or_protocol s -> wf_pool_or_protocol s' ->
  liquidity_move_scope_tag s = liquidity_move_scope_tag s' -> s = s'.
Proof.
  destruct s as [p|k], s' as [p'|k']; simpl; intros Hk Hk' He; simplify_eq.
  - f_equal. by apply protocol_text_inj.
  - f_equal. by apply pubkey_to_string_inj.
Qed.

Lemma event_scope_tag_inj s s' :
  wf_event_scope s -> wf_event_scope s' -> event_scope_tag s = event_scope_tag s' -> s = s'.
Proof.
  destruct s as [|p|k], s' as [|p'|k']; simpl; intros Hk Hk' He; simplify_eq; [done| |].
  - f_equal. by apply protocol_text_inj.
  - f_equal. by apply pubkey_to_string_inj.
Qed.

Lemma scope_tag_inj s s' :
  wf_pool_scope s -> wf_pool_scope s' -> scope_tag s = scope_tag s' -> s = s'.
Proof.
  destruct s as [|p|k], s' as [|p'|k']; simpl; intros Hk Hk' He; simplify_eq; [done| |].
  - f_equal. by apply protocol_text_inj.
  - f_equal. by apply pubkey_to_string_inj.
Qed.

(** *** What is written is read back *)

Lemma parse_rfc3339_ok t : rfc3339_range t -> parse_rfc3339 (to_rfc3339 t) = Ok t.
Proof. intros Ht. unfold parse_rfc3339. by rewrite parse_to_rfc3339. Qed.

Lemma parse_pubkey_ok k what : is_bytes 32 k -> parse_pubkey (pubkey_to_string k) what = Ok k.
Proof. intros Hk. unfold parse_pubkey. by rewrite pubkey_of_to_string. Qed.

Lemma parse_decimal_ok (d : D) what : parse_decimal (dec_to_string d) what = Ok d.
Proof. unfold parse_decimal. by rewrite dec_of_to_string. Qed.

Lemma find_window w :
  List.find (fun w' => bool_decide (Window_as_str w' = Window_as_str w)) ([Hour] ++ Window_ALL) = Some w.
Proof. by destruct w. Qed.

Lemma find_protocol p :
  List.find (fun q => bool_decide (Protocol_as_str q = Protocol_as_str p)) all_protocols = Some p.
Proof. by destruct p. Qed.

(** The wire object of a cursor. *)
Definition event_wire_of (collection : EventCollection) (c : EventCursor.t) : EventCursorWire.t :=
  EventCursorWire.mk (tag collection) (event_scope_tag (EventCursor.scope c))
    (to_rfc3339 (EventCursor.from c)) (to_rfc3339 (EventCursor.at_ c))
    (signature_to_string (EventCursor.signature c)) (EventCursor.event_index c).

Ltac read_own :=
  rewrite decode_own by done; cbn -[envelope bool_decide List.find all_protocols Window_ALL];
  rewrite ?(bool_decide_eq_true_2 _ eq_refl); cbn -[envelope bool_decide List.find all_protocols Window_ALL];
  rewrite ?find_window, ?find_protocol; cbn -[envelope];
  repeat first
    [ rewrite parse_rfc3339_ok by done | rewrite parse_pubkey_ok by done | rewrite parse_decimal_ok
    | rewrite signature_of_to_string by done ]; cbn -[envelope].

Lemma decode_event_own (collection : EventCollection) (c : EventCursor.t) :
  wf_event_cursor c ->
  decode_event_cursor (envelope (to_object (event_wire_of collection c))) collection
    (EventCursor.scope c) = Ok c.
Proof.
  intros (Hs & Hf & Ha & Hsig & Hi). unfold decode_event_cursor. read_own. by destruct c.
Qed.

Lemma decode_event_other (collection collection' : EventCollection) (c : EventCursor.t)
    (scope : EventScope.t) :
  wf_event_cursor c -> wf_event_scope scope ->
  (collection', scope) <> (collection, EventCursor.scope c) ->
  decode_event_cursor (envelope (to_object (event_wire_of collection c))) collection' scope = another_list.
Proof.
  intros (Hs & Hf & Ha & Hsig & Hi) Hw Hne. unfold decode_event_cursor.
  rewrite decode_own by done. cbn -[envelope bool_decide tag event_scope_tag].
  destruct (bool_decide_reflect (tag collection = tag collection')) as [Ht|]; [|done].
  destruct (bool_decide_reflect (event_scope_tag (EventCursor.scope c) = event_scope_tag scope))
    as [Hsc|]; [|done].
  exfalso. apply Hne. apply event_scope_tag_inj in Hsc; [|done|done].
  rewrite Hsc. f_equal. by destruct collection, collection'.
Qed.

Definition wire_object (c : Cursor.t D) : object :=
  match c with
  | Cursor.Signal c =>
      to_object (SignalCursorWire.mk (to_rfc3339 (SignalCursor.triggered_at c)) (SignalCursor.id c))
  | Cursor.TokenActivity c =>
      to_object (TokenActivityCursorWire.mk (to_rfc3339 (TokenActivityCursor.last_hour c))
        (dec_to_string (TokenActivityCursor.volume_usd c)) (pubkey_to_string (TokenActivityCursor.mint c)))
  | Cursor.LiquidityMove c =>
      to_object (LiquidityMoveCursorWire.mk
        (liquidity_move_scope_tag (LiquidityMoveList.scope (LiquidityMoveCursor.list_ c)))
        (LiquidityMoveKind_as_str <$> LiquidityMoveList.kind (LiquidityMoveCursor.list_ c))
        (Window_as_str (LiquidityMoveCursor.window c)) (to_rfc3339 (LiquidityMoveCursor.as_of c))
        (order_tag (LiquidityMoveCursor.order c)) (dec_to_string (LiquidityMoveCursor.amount_usd c))
        (to_rfc3339 (LiquidityMoveCursor.at_ c)) (LiquidityMoveCursor.signature c)
        (LiquidityMoveCursor.event_index c))
  | Cursor.Pool c =>
      to_object (PoolCursorWire.mk (scope_tag (PoolCursor.scope c))
        (to_rfc3339 (PoolCursor.first_seen_at c)) (pubkey_to_string (PoolCursor.pool_address c)))
  | Cursor.Token c =>
      to_object (TokenCursorWire.mk (to_rfc3339 (TokenCursor.fetched_at c))
        (pubkey_to_string (TokenCursor.mint c)))
  | Cursor.TokenPrice c =>
      to_object (TokenPriceCursorWire.mk (pubkey_to_string (TokenPriceCursor.mint c))
        (to_rfc3339 (TokenPriceCursor.from c)) (to_rfc3339 (TokenPriceCursor.fetched_at c)))
  | Cursor.SwapEvent c => to_object (event_wire_of Swaps c)
  | Cursor.LiquidityChangeEvent c => to_object (event_wire_of LiquidityChanges c)
  | Cursor.PoolCreationEvent c => to_object (event_wire_of PoolCreations c)
  | Cursor.PositionChangeEvent c => to_object (event_wire_of PositionChanges c)
  | Cursor.PositionFeeClaimEvent c => to_object (event_wire_of PositionFeeClaims c)
  | Cursor.ProtocolFeeClaimEvent c => to_object (event_wire_of ProtocolFeeClaims c)
  | Cursor.RewardClaimEvent c => to_object (event_wire_of RewardClaims c)
  | Cursor.RewardChangeEvent c => to_object (event_wire_of RewardChanges c)
  | Cursor.PoolChangeEvent c => to_object (event_wire_of PoolChanges c)
  | Cursor.RotationRun c =>
      to_object (RotationRunCursorWire.mk (rotation_run_scope_tag (RotationRunCursor.scope c))
        (Window_as_str (RotationRunCursor.window c)) (to_rfc3339 (RotationRunCursor.as_of c))
        (rotation_run_order_tag (RotationRunCursor.order c))
        (dec_to_string (RotationRunCursor.volume_usd c)) (to_rfc3339 (RotationRunCursor.started_at c))
        (pubkey_to_string (RotationRunCursor.pool_address c)))
  | Cursor.Announcement c =>
      to_object (AnnouncementCursorWire.mk
        (AnnouncementStatus_as_str <$> AnnouncementCursor.status c)
        (to_rfc3339 (AnnouncementCursor.starts_at c)) (AnnouncementCursor.id c))
  | Cursor.Protocol protocol => to_object (ProtocolCursorWire.mk (Protocol_as_str protocol))
  end.

Lemma encode_envelope c : encode_cursor c = Ok (envelope (wire_object c)).
Proof. by destruct c. Qed.

Lemma decode_in_own c : wf_cursor c -> decode_in (list_of c) (envelope (wire_object c)) = Ok c.
Proof.
  destruct c as [c|c|c|c|c|c|c|c|c|c|c|c|c|c|c|c|c|p]; intros Hc;
    simpl in Hc; cbn [list_of decode_in wire_object];
    try (by rewrite decode_event_own);
    unfold decode_signal_cursor, decode_token_activity_cursor, decode_liquidity_move_cursor,
      decode_pool_cursor, decode_token_cursor, decode_token_price_cursor, decode_rotation_run_cursor,
      decode_announcement_cursor, decode_protocol_cursor;
    destruct_and? Hc; read_own; by try destruct c.
Qed.

(** *** And nowhere else *)

Definition refused (r : result (Cursor.t D) ApiError) : Prop :=
  exists reason, r = Err (BadRequest reason).

Lemma refused_event collection collection' (c : EventCursor.t) scope :
  wf_event_cursor c -> wf_event_scope scope ->
  CursorList.Events collection' scope <> CursorList.Events collection (EventCursor.scope c) ->
  refused (decode_in (CursorList.Events collection' scope)
    (envelope (to_object (event_wire_of collection c)))).
Proof.
  intros Hc Hs Hl. cbn [decode_in]. rewrite (decode_event_other collection collection' c scope).
  - by eexists.
  - done.
  - done.
  - intros [= -> ->]. done.
Qed.

(** One of another kind: the fields are not those. *)
Ltac read_foreign :=
  eexists; unfold decode_signal_cursor, decode_token_activity_cursor, decode_liquidity_move_cursor,
      decode_pool_cursor, decode_token_cursor, decode_token_price_cursor, decode_rotation_run_cursor,
      decode_announcement_cursor, decode_protocol_cursor, decode_event_cursor;
  rewrite decode_foreign by first
    [ done | by destruct_and?
    | match goal with |- context [LiquidityMoveList.kind ?x] => by destruct (LiquidityMoveList.kind x) end ];
  reflexivity.

(** One of the same kind: a text that says the list differs. *)
Ltac read_sibling :=
  rewrite decode_own by done; cbn -[envelope bool_decide];
  repeat match goal with
  | |- context [bool_decide ?P] =>
      destruct (bool_decide_reflect P); cbn -[envelope bool_decide]; [|by eexists]
  end; exfalso.

Lemma kind_text_inj (k k' : option LiquidityMoveKind) :
  LiquidityMoveKind_as_str <$> k = LiquidityMoveKind_as_str <$> k' -> k = k'.
Proof. by destruct k as [[]|], k' as [[]|]. Qed.
Lemma status_text_inj (s s' : option AnnouncementStatus) :
  AnnouncementStatus_as_str <$> s = AnnouncementStatus_as_str <$> s' -> s = s'.
Proof. by destruct s as [[]|], s' as [[]|]. Qed.
Lemma order_tag_inj o o' : order_tag o = order_tag o' -> o = o'.
Proof. by destruct o, o'. Qed.
Lemma rotation_run_order_tag_inj o o' : rotation_run_order_tag o = rotation_run_order_tag o' -> o = o'.
Proof. by destruct o, o'. Qed.
Lemma window_text_inj w w' : Window_as_str w = Window_as_str w' -> w = w'.
Proof. by destruct w, w'. Qed.

Lemma decode_in_other c l :
  wf_cursor c -> wf_list l -> l <> list_of c -> refused (decode_in l (envelope (wire_object c))).
Proof.
  destruct c as [c|c|c|c|c|c|c|c|c|c|c|c|c|c|c|c|c|p], l; intros Hc Hl Hne; simpl in Hc, Hl;
    cbn [list_of wire_object] in *; try done; try (by apply refused_event);
    unfold wf_event_cursor in *; cbn [decode_in]; try (by read_foreign); destruct_and? Hc.
  all: unfold decode_liquidity_move_cursor, decode_pool_cursor, decode_token_price_cursor,
    decode_rotation_run_cursor, decode_announcement_cursor; read_sibling; apply Hne; clear Hne.
  - destruct c as [[s k] w a o d t g i], list as [s' k']; simpl in *. repeat f_equal.
    + by apply pool_or_protocol_tag_inj.
    + by apply kind_text_inj.
    + by apply order_tag_inj.
  - f_equal. by apply scope_tag_inj.
  - f_equal. by apply pubkey_to_string_inj.
  - f_equal. by apply status_text_inj.
  - f_equal.
    + by apply pool_or_protocol_tag_inj.
    + by apply window_text_inj.
    + by apply rotation_run_order_tag_inj.
Qed.

(** C34: a cursor the api gives out is read back exactly by the list it was
    taken in (the same scope, kind, order, status, mint or collection), and
    every other list refuses it as a bad request: no cursor decodes as one of
    another list, even when the fields of one struct include another's. *)
Theorem cursor_read_in_its_list_only c :
  wf_cursor c ->
  exists raw, encode_cursor c = Ok raw /\ decode_in (list_of c) raw = Ok c /\
    forall l, wf_list l -> l <> list_of c -> exists reason, decode_in l raw = Err (BadRequest reason).
Proof.
  intros Hc. exists (envelope (wire_object c)). split_and!.
  - apply encode_envelope.
  - by apply decode_in_own.
  - intros l Hl Hne. by apply decode_in_other.
Qed.
End Lists.

(** ** Concrete encodings, and a cursor they carry

    Texts made of the bits of a value: instances on which the laws above hold. *)

(** ** Texts made of bits *)

Fixpoint show_pos (p : positive) : string :=
  match p with
  | xH => ""
  | xO p => String "0"%char (show_pos p)
  | xI p => String "1"%char (show_pos p)
  end.

Fixpoint read_pos (s : string) : option positive :=
  match s with
  | EmptyString => Some xH
  | String a s =>
    let! p := read_pos s in
    if Ascii.eqb a "0"%char then Some (xO p) else if Ascii.eqb a "1"%char then Some (xI p) else None
  end.

Lemma read_show_pos p : read_pos (show_pos p) = Some p.
Proof. induction p as [p IH|p IH|]; simpl; [by rewrite IH|by rewrite IH|done]. Qed.

Definition text_of `{Countable A} (x : A) : string := show_pos (encode x).
Definition value_of `{Countable A} (s : string) : option A := let! p := read_pos s in decode p.

Lemma value_of_text `{Countable A} (x : A) : value_of (text_of x) = Some x.
Proof. unfold value_of, text_of. rewrite read_show_pos. apply decode_encode. Qed.

(** *** Bytes as the characters of a text *)

Definition text_of_bytes (bs : list Z) : string :=
  String.string_of_list_ascii (map (fun b => Ascii.ascii_of_N (Z.to_N b)) bs).

Lemma codes_uint8 s : Forall (is_uint 8) (codes s).
Proof.
  unfold codes. apply Forall_map, Forall_forall. intros a _. simpl.
  pose proof (Ascii.N_ascii_bounded a). unfold is_uint. lia.
Qed.

Lemma codes_text_of_bytes bs : Forall (is_uint 8) bs -> codes (text_of_bytes bs) = bs.
Proof.
  intros Hf. unfold codes, text_of_bytes. rewrite String.list_ascii_of_string_of_list_ascii, map_map.
  rewrite <-(map_id bs) at 2. apply map_ext_in. intros b Hb.
  rewrite Forall_forall in Hf. apply list_elem_of_In, Hf in Hb. unfold is_uint in Hb.
  rewrite Ascii.N_ascii_embedding by lia. lia.
Qed.

Lemma text_of_codes s : text_of_bytes (codes s) = s.
Proof.
  unfold codes, text_of_bytes. rewrite map_map.
  erewrite map_ext; [rewrite map_id; apply String.string_of_list_ascii_of_string|].
  intros a. simpl. by rewrite N2Z.id, Ascii.ascii_N_embedding.
Qed.

(** ** The encodings *)

#[global] Instance Json_eq_dec : EqDecision Json.
Proof. solve_decision. Defined.
#[global, refine] Instance Json_countable : Countable Json :=
  inj_countable'
    (fun j => match j with
      | JString s => inl (inl s) | JInt n => inl (inr n) | JNull => inr false | JOther => inr true
      end)
    (fun x => match x with
      | inl (inl s) => JString s | inl (inr n) => JInt n | inr false => JNull | inr true => JOther
      end) _.
Proof. by intros []. Defined.

#[global] Instance bits_serde_json : SerdeJson := {
  to_vec o := codes (text_of o);
  from_slice bs := let! o := value_of (text_of_bytes bs) in Some (Object o);
}.
#[global] Instance bits_serde_json_laws : SerdeJsonLaws.
Proof.
  split.
  - intros o. apply codes_uint8.
  - intros o _ _. simpl. by rewrite text_of_codes, value_of_text.
Qed.

#[global] Instance plain_base64 : Base64 := {
  b64_encode := text_of_bytes;
  b64_decode s := Some (codes s);
}.
#[global] Instance plain_base64_laws : Base64Laws.
Proof. split. intros bs Hb. simpl. f_equal. by apply codes_text_of_bytes. Qed.

#[global] Instance bits_rfc3339 : Rfc3339 := {
  to_rfc3339 := text_of (A := Z);
  parse_from_rfc3339 := value_of (A := Z);
}.
#[global] Instance bits_rfc3339_laws : Rfc3339Laws.
Proof. split. intros t _. apply value_of_text. Qed.

(** Integers for decimals. *)
#[global] Instance Z_decimal_text : DecimalText Z := {
  dec_abs := Z.abs;
  dec_to_string := text_of;
  round_dp d _ := d;
  round_sf d _ := Some d;
  normalize d := d;
}.
#[global] Instance Z_decimal_from_str : DecimalFromStr Z := { dec_of_string := value_of }.
#[global] Instance Z_decimal_from_str_laws : DecimalFromStrLaws Z.
Proof. split. intros d. apply value_of_text. Qed.

(** ** A cursor of the swaps of a pool *)

Definition sample_cursor : Cursor.t Z :=
  Cursor.SwapEvent (EventCursor.mk (EventScope.Pool (repeat 7 32)) 1700000000000000000
    1700000060000000000 (repeat 9 64) 3).

Lemma cursor_read_in_its_list_only_witness :
  wf_cursor sample_cursor /\
  exists raw, encode_cursor sample_cursor = Ok raw /\ decode_in (list_of sample_cursor) raw = Ok sample_cursor /\
    forall l, wf_list l -> l <> list_of sample_cursor ->
      exists reason, decode_in (D := Z) l raw = Err (BadRequest reason).
Proof.
  assert (wf_cursor sample_cursor) as Hwf.
  { split_and!; try done; try (by repeat constructor). }
  split; [exact Hwf|]. apply (cursor_read_in_its_list_only sample_cursor). exact Hwf.
Defined.
