(* ===== verification/Price.v ===== *)
(** * The price worker

    What the price series keeps ([core/src/domain/]: token_price/model.rs,
    kept_prices/model.rs, unpriced_mints/model.rs, price_candidate/model.rs),
    one tick of the worker and its endings ([context/src/application/]:
    workers/price.rs, workers/price/, source/price.rs), the statement that
    writes the batch ([persistence/src/repositories/token_price.rs]) and the
    cadence the configuration accepts ([context/src/bootstrap/config.rs]).

    Instants and durations are in nanoseconds; chrono's own range (some 262,000
    years) is out of reach of a clock and a cadence under fifteen minutes. *)

From Stdlib Require Import QArith Qabs Qround SpecFloat.
From S2P Require Import Prelude Errors External.
#[local] Open Scope Z_scope.

(** ** Third-party operations of this component *)

(** [Decimal::round_dp_with_strategy(_, MidpointAwayFromZero)]. *)
Class DecimalRounding (D : Type) : Type := { round_dp : D -> Z -> D }.

(** Half away from zero at [s] decimal places, which is Postgres's [NUMERIC]
    rounding too. *)
Definition round_half_away (q : Q) (s : Z) : Q :=
  let scaled := Qmult q (inject_Z (10 ^ s)) in
  let half := Qmake 1 2 in
  let m := if Qle_bool 0 scaled then Qfloor (Qplus scaled half)
           else - Qfloor (Qplus (Qopp scaled) half) in
  Qred (Qdiv (inject_Z m) (inject_Z (10 ^ s))).

Class DecimalRoundingLaws (D : Type) `{DecimalLaws D} `{!DecimalRounding D} : Prop := {
  round_dp_val : forall d s, 0 <= s <= 28 -> Qeq (dec_val (round_dp d s)) (round_half_away (dec_val d) s);
}.

(** chrono's [TimeDelta::from_std] and [checked_mul]. *)
Class ChronoDelta : Type := {
  delta_from_std : Z -> option TimeDelta;
  delta_checked_mul : TimeDelta -> Z -> option TimeDelta;
}.

(** [TimeDelta::MAX], [i64::MAX] milliseconds: [from_std] refuses what is past
    it, [checked_mul] is exact and fails on nothing within it. *)
Definition delta_max : TimeDelta := (2 ^ 63 - 1) * 10 ^ 6.

Class ChronoDeltaLaws `{ChronoDelta} : Prop := {
  delta_from_std_in : forall d, 0 <= d <= delta_max -> delta_from_std d = Some d;
  delta_from_std_past : forall d, delta_max < d -> delta_from_std d = None;
  delta_checked_mul_exact : forall d n r, delta_checked_mul d n = Some r -> r = d * n;
  delta_checked_mul_past : forall d n, delta_checked_mul d n = None -> delta_max < Z.abs (d * n);
}.

Definition seconds (n : Z) : TimeDelta := n * 10 ^ 9.
Definition minutes (n : Z) : TimeDelta := seconds (60 * n).
(** [TimeDelta::num_seconds], truncated towards zero. *)
Definition num_seconds (d : TimeDelta) : Z := Z.quot d (10 ^ 9).

(** ** [token_price/model.rs] *)

Inductive PriceProvider : Type :=
| Jupiter
| Helius
| Fallback.

#[global] Instance PriceProvider_eq_dec : EqDecision PriceProvider.
Proof. solve_decision. Defined.

Definition PriceProvider_as_str (p : PriceProvider) : string :=
  match p with
  | Jupiter => "jupiter"
  | Helius => "helius"
  | Fallback => "fallback"
  end.

Definition PriceProvider_from_str (s : string) : result PriceProvider CoreError :=
  if String.eqb s "jupiter" then Ok Jupiter
  else if String.eqb s "helius" then Ok Helius
  else if String.eqb s "fallback" then Ok Fallback
  else Err (UnknownProgram s).

Module TokenPrice.
Record t (D : Type) : Type := mk {
  mint : Pubkey;
  price_usd : D;
  price_provider : PriceProvider;
  confidence : option spec_float;
  fetched_at : DateTime;
}.
Arguments mk {D}.
Arguments mint {D}.
Arguments price_usd {D}.
Arguments price_provider {D}.
Arguments confidence {D}.
Arguments fetched_at {D}.
End TokenPrice.

Definition PRICE_STORAGE_SCALE : Z := 18.
Definition PRICE_STORAGE_PRECISION : Z := 38.

(** ** [unpriced_mints/model.rs] *)

Module UnpricedMints.
Section Unpriced.
Context `{ChronoDelta}.

Definition UNPRICED_RETRY_MAX : TimeDelta := minutes 15.

Record Deferral : Type := mkDeferral {
  misses : Z;                               (** u32 *)
  due_at : DateTime;
}.

Record t : Type := mk {
  deferred : gmap Pubkey Deferral;
  tick : TimeDelta;
}.

Definition new (tick_interval : Z) : t :=
  mk ∅ (match delta_from_std tick_interval with Some d => d | None => UNPRICED_RETRY_MAX end).

Definition asks_again_at_most_every (u : t) : TimeDelta := Z.max UNPRICED_RETRY_MAX (tick u).

Definition is_due (u : t) (mint : Pubkey) (now : DateTime) : bool :=
  match deferred u !! mint with
  | None => true
  | Some deferral => due_at deferral <=? now
  end.

Definition wait_after (u : t) (misses : Z) : TimeDelta :=
  let factor := Z.shiftl 1 (Z.min misses 20) in
  match delta_checked_mul (tick u) factor with
  | None => UNPRICED_RETRY_MAX
  | Some wait => Z.min wait UNPRICED_RETRY_MAX
  end.

(** The pass over [unpriced]. *)
Definition miss (now : DateTime) (u : t) (mint : Pubkey) : t :=
  let misses := saturating_add 32 (match deferred u !! mint with
                                   | Some deferral => misses deferral
                                   | None => 0
                                   end) 1 in
  mk (<[mint := mkDeferral misses (now + wait_after u misses - tick u)]> (deferred u)) (tick u).

Definition record (u : t) (priced unpriced : list Pubkey) (now : DateTime) : t :=
  let u := mk (foldl (fun m mint => delete mint m) (deferred u) priced) (tick u) in
  foldl (miss now) u unpriced.

Definition retain_only (u : t) (candidates : list Pubkey) : t :=
  mk (filter (fun '(mint, _) => mint ∈ candidates) (deferred u)) (tick u).
End Unpriced.
End UnpricedMints.

(** ** [price_candidate/model.rs] *)

Definition LOW_VALUE_EVERY_TICKS : Z := 3.
Definition NEVER_PRICED_EVERY_TICKS : Z := 105.

Inductive PriceCandidateClass : Type :=
| Regular
| LowValue
| NeverPriced.

#[global] Instance PriceCandidateClass_eq_dec : EqDecision PriceCandidateClass.
Proof. solve_decision. Defined.

Definition PriceCandidateClass_of (never_priced_past_grace below_low_value : bool) : PriceCandidateClass :=
  if never_priced_past_grace then NeverPriced
  else if below_low_value then LowValue
  else Regular.

Definition every_ticks (c : PriceCandidateClass) : Z :=
  match c with
  | Regular => 1
  | LowValue => LOW_VALUE_EVERY_TICKS
  | NeverPriced => NEVER_PRICED_EVERY_TICKS
  end.

Module PriceCandidate.
Record t : Type := mk {
  mint : Pubkey;
  class : PriceCandidateClass;
}.
End PriceCandidate.

Definition address_slot (mint : Pubkey) : Z := uint_at 8 0 mint.

Definition is_turn (c : PriceCandidate.t) (tick : Z) : bool :=
  let every := every_ticks (PriceCandidate.class c) in
  tick mod every =? address_slot (PriceCandidate.mint c) mod every.

(** ** [context/src/bootstrap/config.rs]: the cadence the daemon accepts *)

Definition PRICE_MAX_AGE_LATEST : TimeDelta := minutes 15.

Inductive ConfigError : Type :=
| InvalidValue (key value expected : string).

(** [seconds] is a u64; the cadence in nanoseconds. *)
Definition price_interval_that_keeps_prices_current (value : Z) : result Z ConfigError :=
  let KEY := "CONTEXT_PRICE_INTERVAL_SECS" in
  let bound := num_seconds PRICE_MAX_AGE_LATEST in
  if value =? 0 then
    Err (InvalidValue KEY (pretty.pretty value)
      "a cadence of at least one second — zero panics the ticker")
  else if match try_int 64 value with Some s => s <? bound | None => false end then
    Ok (seconds value)
  else
    Err (InvalidValue KEY (pretty.pretty value)
      ("a cadence under the 900s price staleness bound of " ++
       "yog_price_max_age_latest(), or every USD figure reads as absent")).

(** ** [kept_prices/model.rs] *)

Section Prices.
Context {D : Type} `{!DecimalOps D} `{!DecimalRounding D}.

(** [storage_ceiling]: [10^20]. *)
Definition storage_ceiling : D := dec_of_Z (10 ^ (PRICE_STORAGE_PRECISION - PRICE_STORAGE_SCALE)).

Definition is_storable (p : TokenPrice.t D) : bool :=
  let rounded := round_dp (TokenPrice.price_usd p) PRICE_STORAGE_SCALE in
  dec_gtb rounded dec_zero && dec_ltb rounded storage_ceiling.

Definition at_storage_scale (price : D) : D := round_dp price PRICE_STORAGE_SCALE.
End Prices.

Module KeptPrices.
Definition PRICE_SERIES_MAX_GAP : TimeDelta := seconds 510.

Record KeptPrice (D : Type) : Type := mkKept {
  price_usd : D;
  price_provider : PriceProvider;
  fetched_at : DateTime;
}.
Arguments mkKept {D}.
Arguments price_usd {D}.
Arguments price_provider {D}.
Arguments fetched_at {D}.

Record t (D : Type) : Type := mk {
  last : gmap Pubkey (KeptPrice D);
  tick : TimeDelta;
  max_gap : TimeDelta;
}.
Arguments mk {D}.
Arguments last {D}.
Arguments tick {D}.
Arguments max_gap {D}.

Section Kept.
Context {D : Type} `{!DecimalOps D} `{!DecimalRounding D} `{ChronoDelta}.

Definition new (tick_interval : Z) : t D :=
  let tick := match delta_from_std tick_interval with Some d => d | None => PRICE_SERIES_MAX_GAP end in
  mk ∅ tick (Z.max (PRICE_SERIES_MAX_GAP - tick) 0).

Definition rewrites_at_most_every (k : t D) : TimeDelta :=
  let tick := Z.max (num_seconds (tick k)) 1 in
  seconds ((num_seconds (max_gap k) / tick + 1) * tick).

Definition worth_keeping (k : t D) (candidate : TokenPrice.t D) : bool :=
  match last k !! TokenPrice.mint candidate with
  | None => true
  | Some l =>
      negb (bool_decide (dec_cmp (price_usd l) (at_storage_scale (TokenPrice.price_usd candidate)) = Eq))
      || negb (bool_decide (price_provider l = TokenPrice.price_provider candidate))
      || (max_gap k <? TokenPrice.fetched_at candidate - fetched_at l)
  end.

Definition remember (last : gmap Pubkey (KeptPrice D)) (price : TokenPrice.t D) :
    gmap Pubkey (KeptPrice D) :=
  <[TokenPrice.mint price :=
      mkKept (at_storage_scale (TokenPrice.price_usd price)) (TokenPrice.price_provider price)
        (TokenPrice.fetched_at price)]> last.

Definition record (k : t D) (kept : list (TokenPrice.t D)) : t D :=
  mk (foldl remember (last k) kept) (tick k) (max_gap k).
End Kept.
End KeptPrices.

(** ** [application/source/price.rs] and [error/source.rs] *)

Inductive SourceError : Type :=
| Http (reason : string)
| RateLimited (retry_after : option Z)
| SourceDecode (reason : string).

Module FetchedPrice.
Record t (D : Type) : Type := mk {
  mint : Pubkey;
  price_provider : PriceProvider;
  price_usd : D;
}.
Arguments mk {D}.
Arguments mint {D}.
Arguments price_provider {D}.
Arguments price_usd {D}.
End FetchedPrice.

Module PriceAnswer.
Record t (D : Type) : Type := mk {
  priced : list (FetchedPrice.t D);
  unpriced : list Pubkey;
}.
Arguments mk {D}.
Arguments priced {D}.
Arguments unpriced {D}.
Definition default {D} : t D := mk [] [].
End PriceAnswer.

(** ** The tables [token_prices] and [token_last_price]

    A [NUMERIC(38, 18)] is a rational. No migration drops rows of either
    table. The addresses are stored as their bytes, their text being
    injective. *)

Module TokenPriceRow.
Record t : Type := mk {
  price_usd : Q;
  price_provider : string;
  confidence : option spec_float;
}.
End TokenPriceRow.

Module PriceDb.
Record t : Type := mk {
  token_prices : gmap (Pubkey * DateTime) TokenPriceRow.t;
  token_last_price : gmap Pubkey (Q * DateTime);
}.
Definition empty : t := mk ∅ ∅.
End PriceDb.

(** SQLSTATE 22003, the type's refusal, and 23514, the CHECK's, as
    [map_sqlx_error] leaves them. *)
Definition numeric_overflow : RepositoryError := Backend "22003 numeric field overflow".
Definition price_not_positive : RepositoryError := Backend "23514 token_prices_price_usd_positive".

(** [price_usd NUMERIC(38, 18) CHECK (price_usd > 0)]. *)
Definition price_column (q : Q) : RepositoryResult Q :=
  let rounded := round_half_away q 18 in
  if Qle_bool (inject_Z (10 ^ 20)) (Qabs rounded) then Err numeric_overflow
  else if Qle_bool rounded 0 then Err price_not_positive
  else Ok rounded.

Section Table.
Context {D : Type} `{DecimalLaws D} `{!DecimalRounding D}.

Definition bound_row (p : TokenPrice.t D) : RepositoryResult ((Pubkey * DateTime) * TokenPriceRow.t) :=
  let? price := price_column (dec_val (TokenPrice.price_usd p)) in
  Ok ((TokenPrice.mint p, TokenPrice.fetched_at p),
      TokenPriceRow.mk price (PriceProvider_as_str (TokenPrice.price_provider p)) (TokenPrice.confidence p)).

Fixpoint bound_rows (prices : list (TokenPrice.t D)) :
    RepositoryResult (list ((Pubkey * DateTime) * TokenPriceRow.t)) :=
  match prices with
  | [] => Ok []
  | p :: prices =>
    let? row := bound_row p in
    let? rows := bound_rows prices in
    Ok (row :: rows)
  end.
End Table.

(** [INSERT INTO token_prices ... ON CONFLICT (mint, fetched_at) DO NOTHING
    RETURNING mint, price_usd, fetched_at]. *)
Fixpoint insert_prices (rows : list ((Pubkey * DateTime) * TokenPriceRow.t))
    (table : gmap (Pubkey * DateTime) TokenPriceRow.t) :
    gmap (Pubkey * DateTime) TokenPriceRow.t * list ((Pubkey * DateTime) * TokenPriceRow.t) :=
  match rows with
  | [] => (table, [])
  | (key, row) :: rows =>
    match table !! key with
    | Some _ => insert_prices rows table
    | None =>
      let (table, kept) := insert_prices rows (<[key := row]> table) in
      (table, (key, row) :: kept)
    end
  end.

(** [SELECT DISTINCT ON (mint) ... ORDER BY mint, fetched_at DESC]: of each
    mint, the row no other is later than (a key is returned once). *)
Definition superseded (kept : list ((Pubkey * DateTime) * TokenPriceRow.t)) (key : Pubkey * DateTime) : bool :=
  existsb (fun '((mint, fetched_at), _) =>
    bool_decide (mint = key.1) && (key.2 <? fetched_at)) kept.
Definition distinct_on_mint (kept : list ((Pubkey * DateTime) * TokenPriceRow.t)) :
    list ((Pubkey * DateTime) * TokenPriceRow.t) :=
  List.filter (fun '(key, _) => negb (superseded kept key)) kept.

(** [ON CONFLICT (mint) DO UPDATE ... WHERE token_last_price.fetched_at <
    EXCLUDED.fetched_at]. *)
Definition upsert_last_price (last : gmap Pubkey (Q * DateTime))
    (excluded : (Pubkey * DateTime) * TokenPriceRow.t) : gmap Pubkey (Q * DateTime) :=
  let '((mint, fetched_at), row) := excluded in
  match last !! mint with
  | Some (_, stored_at) =>
      if stored_at <? fetched_at then <[mint := (TokenPriceRow.price_usd row, fetched_at)]> last else last
  | None => <[mint := (TokenPriceRow.price_usd row, fetched_at)]> last
  end.

(** [find_latest_by_mint]: the row of [mint] with the greatest [fetched_at]. *)
Definition find_latest_by_mint (d : PriceDb.t) (mint : Pubkey) : option (DateTime * TokenPriceRow.t) :=
  foldr (fun '((m, fetched_at), row) latest =>
    if bool_decide (m = mint) then
      match latest with
      | Some (at_, _) => if at_ <? fetched_at then Some (fetched_at, row) else latest
      | None => Some (fetched_at, row)
      end
    else latest) None (map_to_list (PriceDb.token_prices d)).

Section InsertBatch.
Context {D : Type} `{DecimalLaws D} `{!DecimalRounding D}.

(** [insert_batch], a single statement: [fault] is what the database answers
    when it cannot run it. The debug assertion on [is_storable] is not in a
    release build. *)
Definition insert_batch (d : PriceDb.t) (fault : option RepositoryError) (prices : list (TokenPrice.t D)) :
    PriceDb.t * RepositoryResult unit :=
  match prices with
  | [] => (d, Ok ())
  | _ =>
    match fault with
    | Some e => (d, Err e)
    | None =>
      match bound_rows prices with
      | Err e => (d, Err e)
      | Ok rows =>
        let (table, kept) := insert_prices rows (PriceDb.token_prices d) in
        (PriceDb.mk table (foldl upsert_last_price (PriceDb.token_last_price d) (distinct_on_mint kept)),
         Ok ())
      end
    end
  end.
End InsertBatch.

(** ** [workers/price.rs] *)

(** [price/tick_outcome.rs]. *)
Inductive TickOutcome : Type :=
| ListFailed (e : RepositoryError)
| NoCandidates
| NothingDue
| SourceFailed (e : SourceError)
| NoStorablePrice
| AllUnchanged (suppressed : Z)
| InsertFailed (e : RepositoryError)
| Inserted (count : Z).

(** [price/metrics.rs]: the gauges and the counters. *)
Module PriceWorkerMetrics.
Record t : Type := mk {
  tick_total : list string;                 (** the outcome of every tick *)
  candidate_mints : Z;
  candidates_by_class : PriceCandidateClass -> Z;
  requested_mints : Z;
  priced_mints : Z;
  inserted_total : Z;
  rejected_total : Z;
  unchanged_total : Z;
}.

Definition register_descriptions : t := mk [] 0 (fun _ => 0) 0 0 0 0 0.
Definition record_tick (m : t) (outcome : string) : t :=
  mk (tick_total m ++ [outcome]) (candidate_mints m) (candidates_by_class m) (requested_mints m)
    (priced_mints m) (inserted_total m) (rejected_total m) (unchanged_total m).
Definition set_candidates (m : t) (candidates : Z) (by_class : PriceCandidateClass -> Z) (requested : Z) : t :=
  mk (tick_total m) candidates by_class requested
    (priced_mints m) (inserted_total m) (rejected_total m) (unchanged_total m).
Definition set_priced_mints (m : t) (count : Z) : t :=
  mk (tick_total m) (candidate_mints m) (candidates_by_class m) (requested_mints m)
    count (inserted_total m) (rejected_total m) (unchanged_total m).
Definition record_inserted (m : t) (count : Z) : t :=
  mk (tick_total m) (candidate_mints m) (candidates_by_class m) (requested_mints m)
    (priced_mints m) (inserted_total m + count) (rejected_total m) (unchanged_total m).
Definition record_rejected (m : t) (count : Z) : t :=
  mk (tick_total m) (candidate_mints m) (candidates_by_class m) (requested_mints m)
    (priced_mints m) (inserted_total m) (rejected_total m + count) (unchanged_total m).
Definition record_unchanged (m : t) (count : Z) : t :=
  mk (tick_total m) (candidate_mints m) (candidates_by_class m) (requested_mints m)
    (priced_mints m) (inserted_total m) (rejected_total m) (unchanged_total m + count).
End PriceWorkerMetrics.

Definition reset_priced_mints (m : PriceWorkerMetrics.t) : PriceWorkerMetrics.t :=
  PriceWorkerMetrics.set_priced_mints m 0.

(** [TickOutcome::record]: the label of the ending, and what it sets. *)
Definition record_outcome (o : TickOutcome) (m : PriceWorkerMetrics.t) : PriceWorkerMetrics.t :=
  let (m, label) :=
    match o with
    | ListFailed _ => (m, "list_failed")
    | NoCandidates => (reset_priced_mints m, "no_work")
    | NothingDue => (reset_priced_mints m, "nothing_due")
    | SourceFailed _ => (reset_priced_mints m, "source_hard_error")
    | NoStorablePrice => (m, "no_prices")
    | AllUnchanged _ => (m, "unchanged")
    | InsertFailed _ => (m, "insert_failed")
    | Inserted count => (PriceWorkerMetrics.record_inserted m count, "ok")
    end in
  PriceWorkerMetrics.record_tick m label.

Module PriceWorker.
Record t (D : Type) : Type := mk {
  kept : KeptPrices.t D;
  unpriced : UnpricedMints.t;
  tick : Z;                                 (** u64 *)
  metrics : PriceWorkerMetrics.t;
}.
Arguments mk {D}.
Arguments kept {D}.
Arguments unpriced {D}.
Arguments tick {D}.
Arguments metrics {D}.
End PriceWorker.

(** What the outside answers one tick: the candidates, the two readings of the
    clock, the source, and whether the database runs the INSERT. *)
Module TickInput.
Record t (D : Type) : Type := mk {
  list_price_candidates : RepositoryResult (list PriceCandidate.t);
  asked_at : DateTime;
  fetch_prices : list Pubkey -> result (PriceAnswer.t D) SourceError;
  now : DateTime;
  insert_fault : option RepositoryError;
}.
Arguments mk {D}.
Arguments list_price_candidates {D}.
Arguments asked_at {D}.
Arguments fetch_prices {D}.
Arguments now {D}.
Arguments insert_fault {D}.
End TickInput.

(** What the loop of [run] wakes on. *)
Inductive Wake (D : Type) : Type :=
| Tick (i : TickInput.t D)
| Shutdown.
Arguments Tick {D}.
Arguments Shutdown {D}.

Section Worker.
Context {D : Type} `{DecimalLaws D} `{!DecimalRounding D} `{ChronoDelta}.

Definition new_worker (interval : Z) : PriceWorker.t D :=
  PriceWorker.mk (KeptPrices.new interval) (UnpricedMints.new interval) 0
    PriceWorkerMetrics.register_descriptions.

(** The mints whose turn it is and worth asking. *)
Definition requested (unpriced : UnpricedMints.t) (tick : Z) (candidates : list PriceCandidate.t)
    (asked_at : DateTime) : list Pubkey :=
  map PriceCandidate.mint
    (List.filter (fun c => is_turn c tick && UnpricedMints.is_due unpriced (PriceCandidate.mint c) asked_at)
       candidates).

Definition count_class (candidates : list PriceCandidate.t) (class : PriceCandidateClass) : Z :=
  Z.of_nat (length (List.filter (fun c => bool_decide (PriceCandidate.class c = class)) candidates)).

(** The answer as observations of the instant [now]. *)
Definition token_price (now : DateTime) (f : FetchedPrice.t D) : TokenPrice.t D :=
  TokenPrice.mk (FetchedPrice.mint f) (FetchedPrice.price_usd f) (FetchedPrice.price_provider f) None now.

(** [Iterator::partition] of the answer by [is_storable]. *)
Definition storable (now : DateTime) (answer : PriceAnswer.t D) : list (TokenPrice.t D) :=
  List.filter is_storable (map (token_price now) (PriceAnswer.priced answer)).
Definition rejected (now : DateTime) (answer : PriceAnswer.t D) : list (TokenPrice.t D) :=
  List.filter (fun p => negb (is_storable p)) (map (token_price now) (PriceAnswer.priced answer)).

Definition len {A} (l : list A) : Z := Z.of_nat (length l).

(** From the answer on: the filters, the INSERT, what is remembered. *)
Definition write_answer (w : PriceWorker.t D) (d : PriceDb.t) (i : TickInput.t D)
    (answer : PriceAnswer.t D) : (PriceWorker.t D * PriceDb.t) * TickOutcome :=
  let now := TickInput.now i in
  let unpriced := UnpricedMints.record (PriceWorker.unpriced w)
    (map FetchedPrice.mint (PriceAnswer.priced answer)) (PriceAnswer.unpriced answer) now in
  let to_insert := storable now answer in
  let rejected := rejected now answer in
  let m := PriceWorker.metrics w in
  let m := match rejected with [] => m | _ => PriceWorkerMetrics.record_rejected m (len rejected) end in
  let m := PriceWorkerMetrics.set_priced_mints m (len to_insert) in
  let w := PriceWorker.mk (PriceWorker.kept w) unpriced (PriceWorker.tick w) m in
  match to_insert with
  | [] => ((w, d), NoStorablePrice)
  | _ =>
    let before := len to_insert in
    let to_insert := List.filter (KeptPrices.worth_keeping (PriceWorker.kept w)) to_insert in
    let suppressed := before - len to_insert in
    let m := PriceWorkerMetrics.record_unchanged m suppressed in
    let w := PriceWorker.mk (PriceWorker.kept w) unpriced (PriceWorker.tick w) m in
    match to_insert with
    | [] => ((w, d), AllUnchanged suppressed)
    | _ =>
      let count := len to_insert in
      match insert_batch d (TickInput.insert_fault i) to_insert with
      | (d, Err e) => ((w, d), InsertFailed e)
      | (d, Ok _) =>
        let kept := KeptPrices.record (PriceWorker.kept w) to_insert in
        ((PriceWorker.mk kept unpriced (PriceWorker.tick w) m, d), Inserted count)
      end
    end
  end.

Definition price_once (w : PriceWorker.t D) (d : PriceDb.t) (i : TickInput.t D) :
    (PriceWorker.t D * PriceDb.t) * TickOutcome :=
  let tick := PriceWorker.tick w in
  let w := PriceWorker.mk (PriceWorker.kept w) (PriceWorker.unpriced w) (wrapping 64 (tick + 1))
    (PriceWorker.metrics w) in
  match TickInput.list_price_candidates i with
  | Err e => ((w, d), ListFailed e)
  | Ok candidates =>
    let candidate_mints := map PriceCandidate.mint candidates in
    let unpriced := UnpricedMints.retain_only (PriceWorker.unpriced w) candidate_mints in
    let mints := requested unpriced tick candidates (TickInput.asked_at i) in
    let m := PriceWorkerMetrics.set_candidates (PriceWorker.metrics w)
      (len candidates) (count_class candidates) (len mints) in
    let w := PriceWorker.mk (PriceWorker.kept w) unpriced (PriceWorker.tick w) m in
    match candidates, mints with
    | [], _ => ((w, d), NoCandidates)
    | _, [] => ((w, d), NothingDue)
    | _, _ =>
      match TickInput.fetch_prices i mints with
      | Err e => ((w, d), SourceFailed e)
      | Ok answer => write_answer w d i answer
      end
    end
  end.

Definition run_one_cycle (w : PriceWorker.t D) (d : PriceDb.t) (i : TickInput.t D) :
    PriceWorker.t D * PriceDb.t :=
  let '((w, d), outcome) := price_once w d i in
  (PriceWorker.mk (PriceWorker.kept w) (PriceWorker.unpriced w) (PriceWorker.tick w)
     (record_outcome outcome (PriceWorker.metrics w)), d).

(** The loop: the worker as it stands, and whether it has returned. The select
    is biased, so a stop is heard before the next tick. *)
Fixpoint run (w : PriceWorker.t D) (d : PriceDb.t) (wakes : list (Wake D)) :
    (PriceWorker.t D * PriceDb.t) * bool :=
  match wakes with
  | [] => ((w, d), false)
  | Shutdown :: _ => ((w, d), true)
  | Tick i :: wakes =>
    let (w, d) := run_one_cycle w d i in
    run w d wakes
  end.
End Worker.
