(* ===== verification/PriceFacts.v ===== *)
(** * The price worker: what its series says

    A series that skips the prices it already holds answers every reader as
    one that writes them all, but for the age of its last row; that age is
    bounded; [token_last_price] is the end of the series; and the waits of the
    mints no source prices are bounded too. *)

From Stdlib Require Import QArith Qabs Qround.
From S2P Require Import Prelude Errors External Price.
#[local] Open Scope Z_scope.

(** ** Rounding *)

Lemma Qle_bool_comp (a a' b b' : Q) : Qeq a a' -> Qeq b b' -> Qle_bool a b = Qle_bool a' b'.
Proof.
  intros Ha Hb. apply eq_true_iff_eq. rewrite !Qle_bool_iff. by rewrite Ha, Hb.
Qed.

Lemma round_half_away_comp (q q' : Q) (s : Z) :
  Qeq q q' -> round_half_away q s = round_half_away q' s.
Proof.
  intros E. unfold round_half_away.
  assert (Qeq (q * inject_Z (10 ^ s)) (q' * inject_Z (10 ^ s))) as Es by (by rewrite E).
  rewrite (Qle_bool_comp 0 0 _ _ (Qeq_refl 0) Es).
  apply Qred_complete. destruct (Qle_bool _ _).
  - by rewrite Es.
  - by rewrite Es.
Qed.

Section Column.
Context {D : Type} `{DecimalRoundingLaws D}.

(** The value the column holds of a price. *)
Definition column_value (d : D) : Q := round_half_away (dec_val d) PRICE_STORAGE_SCALE.

Lemma at_storage_scale_val (d : D) : Qeq (dec_val (at_storage_scale d)) (column_value d).
Proof. apply round_dp_val. unfold PRICE_STORAGE_SCALE. lia. Qed.

Lemma dec_zero_val : Qeq (dec_val (dec_zero : D)) 0.
Proof. unfold dec_zero. rewrite dec_of_Z_exact by (vm_compute; reflexivity). reflexivity. Qed.

Lemma storage_ceiling_val : Qeq (dec_val (storage_ceiling : D)) (inject_Z (10 ^ 20)).
Proof. unfold storage_ceiling. rewrite dec_of_Z_exact by (vm_compute; reflexivity). reflexivity. Qed.

Lemma is_storable_spec (p : TokenPrice.t D) :
  is_storable p = true <->
  (0 < column_value (TokenPrice.price_usd p) < inject_Z (10 ^ 20))%Q.
Proof.
  unfold is_storable, dec_gtb, dec_ltb. rewrite !dec_cmp_val.
  pose proof (at_storage_scale_val (TokenPrice.price_usd p)) as Hv. unfold at_storage_scale in Hv.
  rewrite Hv, dec_zero_val, storage_ceiling_val.
  pose proof (Qgt_alt (column_value (TokenPrice.price_usd p)) 0) as Hg.
  pose proof (Qlt_alt (column_value (TokenPrice.price_usd p)) (inject_Z (10 ^ 20))) as Hl.
  rewrite Hg, Hl, andb_true_iff.
  destruct (Qcompare (column_value _) 0), (Qcompare (column_value _) (inject_Z _)); naive_solver.
Qed.

(** A price the worker keeps is one the column takes. *)
Lemma storable_column (p : TokenPrice.t D) :
  is_storable p = true ->
  price_column (dec_val (TokenPrice.price_usd p)) = Ok (column_value (TokenPrice.price_usd p)).
Proof.
  intros [Hpos Hlt]%is_storable_spec. unfold price_column.
  fold (column_value (TokenPrice.price_usd p)).
  change (round_half_away (dec_val (TokenPrice.price_usd p)) 18) with (column_value (TokenPrice.price_usd p)).
  destruct (Qle_bool (inject_Z _) _) eqn:E1.
  { apply Qle_bool_iff in E1. rewrite Qabs_pos in E1 by (by apply Qlt_le_weak).
    exfalso. by apply (Qlt_not_le _ _ Hlt). }
  destruct (Qle_bool _ 0) eqn:E2; [|done].
  apply Qle_bool_iff in E2. exfalso. by apply (Qlt_not_le _ _ Hpos).
Qed.

(** The row of an observation. *)
Definition row_of (p : TokenPrice.t D) : TokenPriceRow.t :=
  TokenPriceRow.mk (column_value (TokenPrice.price_usd p))
    (PriceProvider_as_str (TokenPrice.price_provider p)) (TokenPrice.confidence p).
Definition keyed_row (p : TokenPrice.t D) : (Pubkey * DateTime) * TokenPriceRow.t :=
  ((TokenPrice.mint p, TokenPrice.fetched_at p), row_of p).

Lemma bound_rows_storable (ps : list (TokenPrice.t D)) :
  Forall (fun p => is_storable p = true) ps -> bound_rows ps = Ok (map keyed_row ps).
Proof.
  induction 1 as [|p ps Hp _ IH]; simpl; [done|].
  unfold bound_row. rewrite (storable_column _ Hp), IH. done.
Qed.
End Column.

Lemma PriceProvider_as_str_inj (a b : PriceProvider) :
  PriceProvider_as_str a = PriceProvider_as_str b -> a = b.
Proof. by destruct a, b. Qed.

(** ** The tables *)

Section Latest.
Implicit Types (table : gmap (Pubkey * DateTime) TokenPriceRow.t) (m : Pubkey) (b : DateTime)
  (r : TokenPriceRow.t).

Definition is_latest table m b r : Prop :=
  table !! (m, b) = Some r /\ forall b' r', table !! (m, b') = Some r' -> b' <= b.

Lemma latest_of_list m (l : list ((Pubkey * DateTime) * TokenPriceRow.t)) :
  match foldr (fun '((m', fetched_at), row) latest =>
      if bool_decide (m' = m) then
        match latest with
        | Some (at_, _) => if at_ <? fetched_at then Some (fetched_at, row) else latest
        | None => Some (fetched_at, row)
        end
      else latest) (None : option (DateTime * TokenPriceRow.t)) l with
  | Some (b, r) => ((m, b), r) ∈ l /\ forall b' r', ((m, b'), r') ∈ l -> b' <= b
  | None => forall b r, ((m, b), r) ∉ l
  end.
Proof.
  induction l as [|[[m' t] r] l IH]; simpl; [set_solver|].
  case_bool_decide as Hm; [subst m'|].
  - destruct (foldr _ _ _) as [[b q]|].
    + destruct IH as [Hin Hle]. destruct (Z.ltb_spec b t).
      * split; [set_solver|]. intros b' r' [[= -> ->]|Hi%Hle]%elem_of_cons; lia.
      * split; [set_solver|]. intros b' r' [[= -> ->]|Hi%Hle]%elem_of_cons; lia.
    + split; [set_solver|]. intros b' r' [[= -> ->]|Hi%IH]%elem_of_cons; [lia|done].
  - destruct (foldr _ _ _) as [[b q]|].
    + destruct IH as [Hin Hle]. split; [set_solver|]. intros b' r' [[= -> ->]|Hi%Hle]%elem_of_cons; done.
    + intros b r' [[= -> ->]|Hi%IH]%elem_of_cons; done.
Qed.

Lemma find_latest_spec (d : PriceDb.t) m :
  match find_latest_by_mint d m with
  | Some (b, r) => is_latest (PriceDb.token_prices d) m b r
  | None => forall b, PriceDb.token_prices d !! (m, b) = None
  end.
Proof.
  unfold find_latest_by_mint.
  pose proof (latest_of_list m (map_to_list (PriceDb.token_prices d))) as Hl.
  destruct (foldr _ _ _) as [[b r]|].
  - destruct Hl as [Hin Hle]. split; [by apply elem_of_map_to_list|].
    intros b' r' Hb'. apply (Hle b' r'). by apply elem_of_map_to_list.
  - intros b. destruct (_ !! _) as [r|] eqn:E; [|done].
    exfalso. apply (Hl b r). by apply elem_of_map_to_list.
Qed.

Lemma find_latest_is (d : PriceDb.t) m b r :
  is_latest (PriceDb.token_prices d) m b r -> find_latest_by_mint d m = Some (b, r).
Proof.
  intros [Hb Hmax]. pose proof (find_latest_spec d m) as Hs.
  destruct (find_latest_by_mint d m) as [[b' r']|]; [|by rewrite Hs in Hb].
  destruct Hs as [Hb' Hmax']. assert (b = b') as <- by (apply Z.le_antisymm; eauto). congruence.
Qed.

Lemma find_latest_ext (d d' : PriceDb.t) m :
  (forall b, PriceDb.token_prices d !! (m, b) = PriceDb.token_prices d' !! (m, b)) ->
  find_latest_by_mint d m = find_latest_by_mint d' m.
Proof.
  intros E. pose proof (find_latest_spec d m) as Hs.
  destruct (find_latest_by_mint d m) as [[b r]|].
  - symmetry. apply find_latest_is. destruct Hs as [Hb Hmax]. split; [by rewrite <- E|].
    intros b' r'. rewrite <- E. apply Hmax.
  - pose proof (find_latest_spec d' m) as Hs'.
    destruct (find_latest_by_mint d' m) as [[b r]|]; [|done].
    destruct Hs' as [Hb _]. by rewrite <- E, Hs in Hb.
Qed.

(** *** The INSERT *)

Lemma insert_prices_kept rows table key r :
  fst (insert_prices rows table) !! key = Some r <->
  table !! key = Some r \/ (key, r) ∈ snd (insert_prices rows table).
Proof.
  revert table. induction rows as [|[k q] rows IH]; intros table; simpl; [set_solver|].
  destruct (table !! k) as [q'|] eqn:E; [apply IH|].
  specialize (IH (<[k:=q]> table)). destruct (insert_prices rows (<[k:=q]> table)) as [t kept].
  simpl in *. rewrite IH, elem_of_cons. destruct (decide (key = k)) as [->|Hk].
  - rewrite lookup_insert_eq, E. naive_solver.
  - rewrite lookup_insert_ne by done. naive_solver.
Qed.

Lemma insert_prices_fresh rows table :
  NoDup (map fst rows) -> (forall k, k ∈ map fst rows -> table !! k = None) ->
  snd (insert_prices rows table) = rows.
Proof.
  revert table. induction rows as [|[k q] rows IH]; intros table Hnd Hfresh; simpl; [done|].
  simpl in Hnd. apply NoDup_cons in Hnd as [Hk Hnd]. rewrite (Hfresh k) by set_solver.
  specialize (IH (<[k:=q]> table) Hnd). destruct (insert_prices _ _) as [t kept]. simpl in *.
  rewrite IH; [done|]. intros k' Hk'. rewrite lookup_insert_ne by (intros ->; done).
  apply Hfresh. set_solver.
Qed.
End Latest.

(** *** [token_last_price] follows the series *)

Section LastPrice.
Implicit Types (m : Pubkey) (b : DateTime) (r : TokenPriceRow.t).

(** [last] holds, of every mint, the end of the rows [S]. *)
Definition ends (S : Pubkey -> DateTime -> TokenPriceRow.t -> Prop) (last : gmap Pubkey (Q * DateTime)) : Prop :=
  forall m, match last !! m with
  | Some (q, b) => (exists r, S m b r /\ TokenPriceRow.price_usd r = q) /\ (forall b' r', S m b' r' -> b' <= b)
  | None => forall b r, ~ S m b r
  end.

Lemma ends_upsert S last m b r :
  ends S last ->
  ends (fun m' b' r' => S m' b' r' \/ (m' = m /\ b' = b /\ r' = r)) (upsert_last_price last ((m, b), r)).
Proof.
  intros HS m'. pose proof (HS m') as Hm. pose proof (HS m) as Hm0. simpl.
  destruct (decide (m' = m)) as [->|Hne].
  - destruct (last !! m) as [[q t]|] eqn:E.
    + destruct Hm as [(r0 & Hr0 & Hq) Hle]. destruct (Z.ltb_spec t b).
      * rewrite lookup_insert_eq. split; [exists r; naive_solver|].
        intros b' r' [Hs%Hle|(_ & -> & _)]; lia.
      * rewrite E. split; [exists r0; naive_solver|]. intros b' r' [Hs%Hle|(_ & -> & _)]; lia.
    + rewrite lookup_insert_eq. split; [exists r; naive_solver|].
      intros b' r' [Hs|(_ & -> & _)]; [by apply Hm in Hs|lia].
  - assert ((match last !! m with
      | Some (_, t) => if t <? b then <[m:=(TokenPriceRow.price_usd r, b)]> last else last
      | None => <[m:=(TokenPriceRow.price_usd r, b)]> last
      end) !! m' = last !! m') as ->.
    { destruct (last !! m) as [[q t]|]; [destruct (_ <? _)|]; rewrite ?lookup_insert_ne by done; done. }
    destruct (last !! m') as [[q t]|].
    + destruct Hm as [(r0 & Hr0 & Hq) Hle]. split; [exists r0; naive_solver|]. naive_solver.
    + naive_solver.
Qed.

Lemma ends_foldl l S last :
  ends S last ->
  ends (fun m b r => S m b r \/ ((m, b), r) ∈ l) (foldl upsert_last_price last l).
Proof.
  revert S last. induction l as [|[[m b] r] l IH]; intros S last HS; simpl.
  - intros m. specialize (HS m). destruct (last !! m) as [[q b]|]; set_solver.
  - pose proof (IH _ _ (ends_upsert S last m b r HS)) as Hl. intros m'. specialize (Hl m').
    destruct (_ !! m') as [[q t]|]; set_solver.
Qed.

(** Every row of a mint is at or before one [DISTINCT ON] keeps. *)
Lemma distinct_covers (kept : list ((Pubkey * DateTime) * TokenPriceRow.t)) m b r :
  ((m, b), r) ∈ kept -> exists b' r', ((m, b'), r') ∈ distinct_on_mint kept /\ b <= b'.
Proof.
  intros Hin. pose proof (latest_of_list m kept) as Hl.
  destruct (foldr _ _ _) as [[b' r']|]; [|by apply Hl in Hin].
  destruct Hl as [Hin' Hmax]. exists b', r'. split; [|by eapply Hmax].
  unfold distinct_on_mint. apply list_elem_of_In, filter_In. split; [by apply list_elem_of_In|].
  apply negb_true_iff. unfold superseded. apply not_true_is_false.
  intros ([[m2 b2] r2] & Hin2%list_elem_of_In & Ht)%existsb_exists. simpl in Ht.
  apply andb_true_iff in Ht as [Hm%bool_decide_eq_true Hlt%Z.ltb_lt]. subst m2.
  apply Hmax in Hin2. lia.
Qed.

Lemma distinct_subset (kept : list ((Pubkey * DateTime) * TokenPriceRow.t)) x :
  x ∈ distinct_on_mint kept -> x ∈ kept.
Proof. unfold distinct_on_mint. rewrite !list_elem_of_In, filter_In. naive_solver. Qed.

(** The table of ends agrees with the series. *)
Definition ends_agree (d : PriceDb.t) : Prop :=
  forall m, PriceDb.token_last_price d !! m =
    option_map (fun '(b, r) => (TokenPriceRow.price_usd r, b)) (find_latest_by_mint d m).

Lemma ends_of_agree (d : PriceDb.t) :
  ends_agree d -> ends (fun m b r => PriceDb.token_prices d !! (m, b) = Some r) (PriceDb.token_last_price d).
Proof.
  intros Ha m. rewrite Ha. pose proof (find_latest_spec d m) as Hs.
  destruct (find_latest_by_mint d m) as [[b r]|]; simpl.
  - destruct Hs as [Hb Hmax]. split; [by exists r|done].
  - intros b r. by rewrite Hs.
Qed.

Lemma agree_of_ends (d : PriceDb.t) :
  ends (fun m b r => PriceDb.token_prices d !! (m, b) = Some r) (PriceDb.token_last_price d) -> ends_agree d.
Proof.
  intros He m. specialize (He m). destruct (_ !! m) as [[q b]|] eqn:E.
  - destruct He as [(r & Hr & <-) Hmax]. by rewrite (find_latest_is d m b r).
  - pose proof (find_latest_spec d m) as Hs.
    destruct (find_latest_by_mint d m) as [[b r]|]; [|done]. destruct Hs as [Hb _]. by apply He in Hb.
Qed.

(** A superset that adds no later row has the same ends. *)
Lemma ends_superset (S S' : Pubkey -> DateTime -> TokenPriceRow.t -> Prop) last :
  (forall m b r, S m b r -> S' m b r) ->
  (forall m b r, S' m b r -> exists b' r', S m b' r' /\ b <= b') ->
  ends S last -> ends S' last.
Proof.
  intros Hsub Hcov He m. specialize (He m). destruct (last !! m) as [[q b]|].
  - destruct He as [(r & Hr & Hq) Hmax]. split; [exists r; naive_solver|].
    intros b' r' (b2 & r2 & Hs & Hle)%Hcov. apply Hmax in Hs. lia.
  - intros b r (b2 & r2 & Hs & _)%Hcov. by apply He in Hs.
Qed.

Context {D : Type} `{DecimalRoundingLaws D}.

Lemma insert_batch_agree (d : PriceDb.t) fault (ps : list (TokenPrice.t D)) :
  ends_agree d -> ends_agree (fst (insert_batch d fault ps)).
Proof.
  intros Ha. unfold insert_batch. destruct ps as [|p ps]; [done|].
  destruct fault; [done|]. destruct (bound_rows (p :: ps)) as [rows|]; [|done].
  pose proof (insert_prices_kept rows (PriceDb.token_prices d)) as Hk.
  destruct (insert_prices rows _) as [table kept]. simpl in *.
  apply agree_of_ends. simpl. apply ends_of_agree in Ha.
  apply ends_foldl with (l := distinct_on_mint kept) in Ha.
  eapply ends_superset; [| |exact Ha]; simpl.
  - intros m b r [Hs|Hin%distinct_subset]; apply Hk; auto.
  - intros m b r [Hs|Hin]%Hk; [exists b, r; naive_solver lia|].
    apply distinct_covers in Hin as (b' & r' & Hin & Hle). exists b', r'. auto.
Qed.
End LastPrice.

(** *** A batch of one instant, later than every row *)

Section Batch.
Context {D : Type} `{DecimalRoundingLaws D}.

(** Every row is at or before [now0]. *)
Definition rows_before (now0 : DateTime) (d : PriceDb.t) : Prop :=
  forall m b r, PriceDb.token_prices d !! (m, b) = Some r -> b <= now0.

(** A batch the worker sends: storable observations of the instant [now], one
    of each mint at most. *)
Definition batch_of (now : DateTime) (ps : list (TokenPrice.t D)) : Prop :=
  NoDup (map TokenPrice.mint ps) /\
  Forall (fun p => is_storable p = true /\ TokenPrice.fetched_at p = now) ps.

Lemma latest_insert_batch (now0 now : DateTime) (d : PriceDb.t) (ps : list (TokenPrice.t D)) :
  now0 < now -> rows_before now0 d -> batch_of now ps ->
  exists d', insert_batch d None ps = (d', Ok ()) /\ rows_before now d' /\
    (forall p, p ∈ ps -> find_latest_by_mint d' (TokenPrice.mint p) = Some (now, row_of p)) /\
    (forall m, m ∉ map TokenPrice.mint ps -> find_latest_by_mint d' m = find_latest_by_mint d m).
Proof.
  intros Hlt Hbefore [Hnd Hall].
  assert (Hrows : bound_rows ps = Ok (map keyed_row ps)).
  { apply bound_rows_storable. eapply Forall_impl; [exact Hall|]. naive_solver. }
  assert (Hkept : snd (insert_prices (map keyed_row ps) (PriceDb.token_prices d)) = map keyed_row ps).
  { apply insert_prices_fresh.
    - rewrite map_map. apply (NoDup_fmap_1 fst). rewrite <- list_fmap_compose. done.
    - intros [m b] Hin. rewrite map_map in Hin. apply list_elem_of_fmap in Hin as (p & [= -> ->] & Hp).
      rewrite Forall_forall in Hall. destruct (Hall p Hp) as [_ ->].
      destruct (_ !! _) as [r|] eqn:E; [|done]. apply Hbefore in E. lia. }
  pose proof (insert_prices_kept (map keyed_row ps) (PriceDb.token_prices d)) as Hin.
  unfold insert_batch. rewrite Hrows.
  destruct (insert_prices _ _) as [table kept]. simpl in Hkept, Hin. subst kept.
  assert (Hin' : forall m b r, table !! (m, b) = Some r <->
    PriceDb.token_prices d !! (m, b) = Some r \/ exists p, p ∈ ps /\ (m, b, r) = keyed_row p).
  { intros m b r. rewrite Hin. apply or_iff_compat_l. rewrite list_elem_of_fmap. naive_solver. }
  rewrite Forall_forall in Hall.
  eexists (PriceDb.mk table _). split_and!.
  - destruct ps as [|p ps]; [|done]. do 2 f_equal.
    assert (table = PriceDb.token_prices d) as ->; [|by destruct d].
    apply map_eq. intros [m b]. apply option_eq. intros r. rewrite Hin'. set_solver.
  - intros m b r [Hb%Hbefore|(p & Hp & [= -> -> ->])]%Hin'; [lia|]. by destruct (Hall p Hp) as [_ ->].
  - intros p Hp. apply find_latest_is. split.
    + apply Hin'. right. exists p. unfold keyed_row. destruct (Hall p Hp) as [_ ->]. done.
    + intros b r [Hb%Hbefore|(p' & Hp' & [= _ -> _])]%Hin'; [lia|].
      destruct (Hall p' Hp') as [_ ->]. done.
  - intros m Hm. apply find_latest_ext. intros b. apply option_eq. intros r. simpl. rewrite Hin'.
    split; [|auto]. intros [?|(p & Hp & [= -> -> ->])]; [done|]. exfalso. apply Hm.
    by apply list_elem_of_fmap_2.
Qed.
End Batch.

(** ** One tick *)

Lemma NoDup_map_inj {A B} (f : A -> B) (l : list A) x y :
  NoDup (map f l) -> x ∈ l -> y ∈ l -> f x = f y -> x = y.
Proof.
  induction l as [|z l IH]; simpl; [set_solver|].
  intros [Hz Hnd]%NoDup_cons [->|Hx]%elem_of_cons [->|Hy]%elem_of_cons E; [done| | |by apply IH].
  - exfalso. apply Hz. rewrite E. by apply list_elem_of_fmap_2.
  - exfalso. apply Hz. rewrite <- E. by apply list_elem_of_fmap_2.
Qed.

Section Tick.
Context {D : Type} `{DecimalRoundingLaws D} `{ChronoDeltaLaws}.
Implicit Types (w : PriceWorker.t D) (d : PriceDb.t) (i : TickInput.t D) (answer : PriceAnswer.t D)
  (p : TokenPrice.t D).

Lemma column_value_canonical (a b : D) :
  Qeq (column_value a) (column_value b) -> column_value a = column_value b.
Proof.
  unfold column_value, round_half_away. intros E. apply Qred_complete.
  by rewrite !Qred_correct in E.
Qed.

(** What the worker remembers of a mint is the end of its series. *)
Definition kept_tail (d : PriceDb.t) (k : KeptPrices.t D) : Prop :=
  forall m l, KeptPrices.last k !! m = Some l -> exists p,
    find_latest_by_mint d m = Some (KeptPrices.fetched_at l, row_of p) /\
    Qeq (dec_val (KeptPrices.price_usd l)) (column_value (TokenPrice.price_usd p)) /\
    KeptPrices.price_provider l = TokenPrice.price_provider p /\ TokenPrice.confidence p = None.

Definition gap_in_bounds (k : KeptPrices.t D) : Prop :=
  0 <= KeptPrices.max_gap k <= KeptPrices.PRICE_SERIES_MAX_GAP.

(** The state between two ticks, [now0] being the instant of the last. *)
Definition settled (now0 : DateTime) w d : Prop :=
  rows_before now0 d /\ kept_tail d (PriceWorker.kept w) /\ gap_in_bounds (PriceWorker.kept w).

(** A source answers for a mint once. *)
Definition one_price_per_mint answer : Prop := NoDup (map FetchedPrice.mint (PriceAnswer.priced answer)).

Lemma suppressed_spec (k : KeptPrices.t D) p :
  KeptPrices.worth_keeping k p = false -> exists l,
    KeptPrices.last k !! TokenPrice.mint p = Some l /\
    Qeq (dec_val (KeptPrices.price_usd l)) (column_value (TokenPrice.price_usd p)) /\
    KeptPrices.price_provider l = TokenPrice.price_provider p /\
    TokenPrice.fetched_at p - KeptPrices.fetched_at l <= KeptPrices.max_gap k.
Proof.
  unfold KeptPrices.worth_keeping. destruct (_ !! _) as [l|]; [|done].
  intros [[He Hp]%orb_false_iff Hg]%orb_false_iff. exists l.
  apply negb_false_iff, bool_decide_eq_true in He, Hp. apply Z.ltb_ge in Hg.
  split_and!; [done| |done|done].
  rewrite <- at_storage_scale_val. apply Qeq_alt. by rewrite <- dec_cmp_val.
Qed.

(** A suppressed observation is the row the series ends with. *)
Lemma suppressed_latest d (k : KeptPrices.t D) p :
  kept_tail d k -> KeptPrices.worth_keeping k p = false -> TokenPrice.confidence p = None ->
  exists b, find_latest_by_mint d (TokenPrice.mint p) = Some (b, row_of p) /\
    TokenPrice.fetched_at p - b <= KeptPrices.max_gap k.
Proof.
  intros Htail (l & Hl & Hv & Hpr & Hgap)%suppressed_spec Hc.
  destruct (Htail _ _ Hl) as (p0 & Hlat & Hv0 & Hpr0 & Hc0). exists (KeptPrices.fetched_at l).
  split; [|done]. rewrite Hlat. do 2 f_equal. unfold row_of.
  rewrite (column_value_canonical (TokenPrice.price_usd p0) (TokenPrice.price_usd p)) by (by rewrite <- Hv0).
  by rewrite <- Hpr0, Hpr, Hc, Hc0.
Qed.

Lemma storable_batch now answer :
  one_price_per_mint answer -> batch_of now (storable now answer).
Proof.
  intros Hnd. unfold storable, batch_of. split.
  - assert (map FetchedPrice.mint (PriceAnswer.priced answer) =
      map TokenPrice.mint (map (token_price now) (PriceAnswer.priced answer))) as Hm.
    { rewrite map_map. done. }
    unfold one_price_per_mint in Hnd. rewrite Hm in Hnd.
    eapply sublist_NoDup; [exact Hnd|]. apply map_sublist. apply filter_sublist.
  - apply Forall_forall. intros p Hp%list_elem_of_In. apply filter_In in Hp as [Hin Hs].
    split; [done|]. apply in_map_iff in Hin as (f & <- & _). done.
Qed.

Lemma batch_filter now (f : TokenPrice.t D -> bool) (ps : list (TokenPrice.t D)) :
  batch_of now ps -> batch_of now (List.filter f ps).
Proof.
  intros [Hnd Hall]. split.
  - eapply sublist_NoDup; [exact Hnd|]. apply map_sublist, filter_sublist.
  - rewrite Forall_forall in *. intros p Hp%list_elem_of_In. apply filter_In in Hp as [Hp _].
    apply Hall. by apply list_elem_of_In.
Qed.

Lemma remember_others (ps : list (TokenPrice.t D)) last (m : Pubkey) :
  m ∉ map TokenPrice.mint ps -> foldl KeptPrices.remember last ps !! m = last !! m.
Proof.
  revert last. induction ps as [|p ps IH]; intros last Hm; simpl; [done|]. simpl in Hm.
  rewrite IH by set_solver. unfold KeptPrices.remember. rewrite lookup_insert_ne by set_solver. done.
Qed.

Lemma remember_one (ps : list (TokenPrice.t D)) last p :
  NoDup (map TokenPrice.mint ps) -> p ∈ ps ->
  foldl KeptPrices.remember last ps !! TokenPrice.mint p =
    Some (KeptPrices.mkKept (at_storage_scale (TokenPrice.price_usd p)) (TokenPrice.price_provider p)
            (TokenPrice.fetched_at p)).
Proof.
  revert last. induction ps as [|q ps IH]; intros last Hnd Hp; [set_solver|]. simpl in *.
  apply NoDup_cons in Hnd as [Hq Hnd]. apply elem_of_cons in Hp as [<-|Hp]; [|by apply IH].
  rewrite remember_others by done. unfold KeptPrices.remember. by rewrite lookup_insert_eq.
Qed.

(** The latest row of every mint of [ps] is the observation itself, at most
    [gap] old. *)
Definition current (now : DateTime) (gap : TimeDelta) d (ps : list (TokenPrice.t D)) : Prop :=
  forall p, p ∈ ps -> exists b,
    find_latest_by_mint d (TokenPrice.mint p) = Some (b, row_of p) /\ 0 <= now - b <= gap.

Lemma write_kept (now0 now : DateTime) d (k : KeptPrices.t D) (ps : list (TokenPrice.t D)) :
  now0 < now -> rows_before now0 d -> kept_tail d k -> gap_in_bounds k ->
  batch_of now ps -> Forall (fun p => TokenPrice.confidence p = None) ps ->
  exists d2, insert_batch d None (List.filter (KeptPrices.worth_keeping k) ps) = (d2, Ok ()) /\
    rows_before now d2 /\
    kept_tail d2 (KeptPrices.record k (List.filter (KeptPrices.worth_keeping k) ps)) /\
    current now (KeptPrices.max_gap k) d2 ps /\
    (forall m, m ∉ map TokenPrice.mint ps -> find_latest_by_mint d2 m = find_latest_by_mint d m).
Proof.
  intros Hlt Hbefore Htail Hgap Hps Hconf. set (K := List.filter (KeptPrices.worth_keeping k) ps).
  assert (HK : batch_of now K) by (by apply batch_filter).
  assert (Hsub : forall p, p ∈ K <-> p ∈ ps /\ KeptPrices.worth_keeping k p = true).
  { intros p. unfold K. rewrite !list_elem_of_In, filter_In. done. }
  rewrite Forall_forall in Hconf. destruct Hps as [Hnd Hall]. rewrite Forall_forall in Hall.
  destruct (latest_insert_batch now0 now d K) as (d2 & Hins & Hb2 & Hin & Hout); [done..|].
  exists d2. split_and!; [done|done| | |].
  - intros m l Hl. unfold KeptPrices.record in Hl. simpl in Hl.
    destruct (decide (m ∈ map TokenPrice.mint K)) as [HmK|HmK].
    + apply list_elem_of_fmap in HmK as (p & -> & Hp). rewrite remember_one in Hl; [|by apply HK|done].
      injection Hl as <-. exists p. simpl. pose proof (proj1 (Hsub p) Hp) as [Hp' _].
      destruct (Hall p Hp') as [_ Hf]. rewrite Hf. split_and!; [by apply Hin|apply at_storage_scale_val|done|by apply Hconf].
    + rewrite remember_others in Hl by done. apply Htail in Hl as (p & Hlat & Hrest). exists p.
      by rewrite Hout.
  - intros p Hp. destruct (Hall p Hp) as [Hst Hf].
    destruct (KeptPrices.worth_keeping k p) eqn:Hw.
    + exists now. rewrite Hin by (by apply Hsub). destruct Hgap. split; [done|lia].
    + destruct (suppressed_latest d k p) as (b & Hlat & Hle); [done|done|by apply Hconf|].
      exists b. rewrite Hout.
      * split; [done|]. rewrite Hf in Hle. pose proof (find_latest_spec d (TokenPrice.mint p)) as Hs.
        rewrite Hlat in Hs. destruct Hs as [Hs%Hbefore _]. lia.
      * intros (q & Hq & HqK)%list_elem_of_fmap. apply Hsub in HqK as [Hqps Hqw].
        assert (p = q) as <- by (by eapply NoDup_map_inj). congruence.
  - intros m Hm. apply Hout. intros (p & -> & Hp)%list_elem_of_fmap. apply Hm, list_elem_of_fmap_2.
    by apply Hsub.
Qed.

Lemma storable_confidence now answer :
  Forall (fun p => TokenPrice.confidence p = None) (storable now answer).
Proof.
  apply Forall_forall. intros p Hp%list_elem_of_In. unfold storable in Hp.
  apply filter_In in Hp as [Hp _]. by apply in_map_iff in Hp as (f & <- & _).
Qed.

Lemma record_nil (k : KeptPrices.t D) : KeptPrices.record k [] = k.
Proof. by destruct k. Qed.

(** What a tick does with an answer. *)
Record answered (now0 : DateTime) w d i answer w2 d2 (o : TickOutcome) : Prop := {
  answered_settled : settled (TickInput.now i) w2 d2;
  answered_unpriced : PriceWorker.unpriced w2 = UnpricedMints.record (PriceWorker.unpriced w)
    (map FetchedPrice.mint (PriceAnswer.priced answer)) (PriceAnswer.unpriced answer) (TickInput.now i);
  answered_tick : PriceWorker.tick w2 = PriceWorker.tick w;
  answered_gap : KeptPrices.max_gap (PriceWorker.kept w2) = KeptPrices.max_gap (PriceWorker.kept w);
  answered_current : (forall e, o <> InsertFailed e) ->
    current (TickInput.now i) (KeptPrices.max_gap (PriceWorker.kept w)) d2 (storable (TickInput.now i) answer);
  answered_others : forall m, m ∉ map TokenPrice.mint (storable (TickInput.now i) answer) ->
    find_latest_by_mint d2 m = find_latest_by_mint d m;
  answered_failed : forall e, o = InsertFailed e ->
    TickInput.insert_fault i = Some e /\ d2 = d /\ PriceWorker.kept w2 = PriceWorker.kept w;
  answered_fault : forall e, TickInput.insert_fault i = Some e ->
    d2 = d /\ PriceWorker.kept w2 = PriceWorker.kept w;
  answered_kept_others : forall m, m ∉ map TokenPrice.mint (storable (TickInput.now i) answer) ->
    KeptPrices.last (PriceWorker.kept w2) !! m = KeptPrices.last (PriceWorker.kept w) !! m;
}.

Lemma write_answer_spec (now0 : DateTime) w d i answer :
  now0 < TickInput.now i -> settled now0 w d -> one_price_per_mint answer ->
  let '((w2, d2), o) := write_answer w d i answer in answered now0 w d i answer w2 d2 o.
Proof.
  intros Hlt (Hb & Ht & Hg) Hone.
  set (now := TickInput.now i) in *.
  pose proof (storable_batch now answer Hone) as HP.
  pose proof (storable_confidence now answer) as Hconf.
  destruct (write_kept now0 now d (PriceWorker.kept w) (storable now answer))
    as (d2 & Hins & Hb2 & Ht2 & Hcur & Hout); [done..|].
  assert (Hlater : rows_before now d) by (intros m b r Hr; apply Hb in Hr; lia).
  unfold write_answer. fold now. cbn [PriceWorker.kept PriceWorker.unpriced PriceWorker.tick PriceWorker.metrics].
  destruct (storable now answer) as [|p P] eqn:EP.
  { assert (d2 = d) as -> by (by injection Hins).
    split; simpl; fold now; rewrite ?EP; try done. }
  destruct (List.filter (KeptPrices.worth_keeping (PriceWorker.kept w)) (p :: P)) as [|q K] eqn:EK.
  { assert (d2 = d) as -> by (by injection Hins).
    split; simpl; fold now; rewrite ?EP; try done. }
  destruct (TickInput.insert_fault i) as [e|] eqn:Ef.
  - change (insert_batch d (Some e) (q :: K)) with (d, Err e : RepositoryResult unit).
    split; simpl; fold now; rewrite ?EP; try done.
    + intros Hne. by destruct (Hne e).
    + intros e' [= <-]. done.
  - rewrite Hins. split; simpl; fold now; rewrite ?EP; try done; [congruence|].
    intros m Hm. apply (remember_others (q :: K)). rewrite <- EK. intros Hin. apply Hm.
    apply list_elem_of_In in Hin. apply list_elem_of_In. eapply sublist_In; [|exact Hin].
    apply map_sublist, filter_sublist.
Qed.

(** The answer a tick obtains, if it obtains one. *)
Definition answer_of (u : UnpricedMints.t) (tick : Z) i : UnpricedMints.t * option (PriceAnswer.t D) :=
  match TickInput.list_price_candidates i with
  | Err _ => (u, None)
  | Ok candidates =>
    let u := UnpricedMints.retain_only u (map PriceCandidate.mint candidates) in
    match candidates, requested u tick candidates (TickInput.asked_at i) with
    | [], _ | _, [] => (u, None)
    | _, mints => (u, result_ok (TickInput.fetch_prices i mints))
    end
  end.

Lemma run_one_cycle_answer w d i :
  let (u, a) := answer_of (PriceWorker.unpriced w) (PriceWorker.tick w) i in
  let (w2, d2) := run_one_cycle w d i in
  match a with
  | None => d2 = d /\ PriceWorker.kept w2 = PriceWorker.kept w /\ PriceWorker.unpriced w2 = u /\
      PriceWorker.tick w2 = wrapping 64 (PriceWorker.tick w + 1)
  | Some answer => exists m w3 o,
      write_answer (PriceWorker.mk (PriceWorker.kept w) u (wrapping 64 (PriceWorker.tick w + 1)) m) d i answer
        = ((w3, d2), o) /\
      price_once w d i = ((w3, d2), o) /\
      w2 = PriceWorker.mk (PriceWorker.kept w3) (PriceWorker.unpriced w3) (PriceWorker.tick w3)
             (record_outcome o (PriceWorker.metrics w3))
  end.
Proof.
  unfold answer_of, run_one_cycle, price_once.
  destruct (TickInput.list_price_candidates i) as [cs|e]; [|done]. simpl.
  destruct cs as [|c cs]; [done|].
  destruct (requested _ _ _ _) as [|m ms]; [done|].
  destruct (TickInput.fetch_prices i (m :: ms)) as [answer|e]; simpl; [|done].
  destruct (write_answer _ d i answer) as [[w3 d2] o] eqn:Ew. do 3 eexists. split; [exact Ew|done].
Qed.
End Tick.
