(* ===== verification/PriceRuns.v ===== *)
(** * Runs of the price worker

    The processes of the worker one after another on one database, against a
    worker that writes every storable price: same readings, shorter series. *)

From Stdlib Require Import QArith.
From S2P Require Import Prelude Errors External Price PriceFacts.
#[local] Open Scope Z_scope.

Section Runs.
Context {D : Type} `{DecimalRoundingLaws D} `{ChronoDeltaLaws}.
Implicit Types (w : PriceWorker.t D) (d : PriceDb.t) (i : TickInput.t D) (answer : PriceAnswer.t D)
  (wakes : list (Wake D)).

(** A process: its cadence and what its loop wakes on. *)
Definition Process : Type := Z * list (Wake D).

Definition run_process d (p : Process) : PriceDb.t := snd (fst (run (new_worker (fst p)) d (snd p))).
Definition run_processes (ps : list Process) : PriceDb.t := foldl run_process PriceDb.empty ps.

(** *** The worker without [KeptPrices] *)

Definition unsuppressed_cycle (s : UnpricedMints.t * Z * PriceDb.t) i : UnpricedMints.t * Z * PriceDb.t :=
  let '(u, tick, d) := s in
  let (u, answer) := answer_of u tick i in
  match answer with
  | None => (u, wrapping 64 (tick + 1), d)
  | Some answer =>
    (UnpricedMints.record u (map FetchedPrice.mint (PriceAnswer.priced answer)) (PriceAnswer.unpriced answer)
       (TickInput.now i),
     wrapping 64 (tick + 1),
     fst (insert_batch d (TickInput.insert_fault i) (storable (TickInput.now i) answer)))
  end.

Fixpoint unsuppressed_run (s : UnpricedMints.t * Z * PriceDb.t) wakes : UnpricedMints.t * Z * PriceDb.t :=
  match wakes with
  | [] | Shutdown :: _ => s
  | Tick i :: wakes => unsuppressed_run (unsuppressed_cycle s i) wakes
  end.

Definition unsuppressed_process d (p : Process) : PriceDb.t :=
  snd (unsuppressed_run (UnpricedMints.new (fst p), 0, d) (snd p)).
Definition unsuppressed_processes (ps : list Process) : PriceDb.t :=
  foldl unsuppressed_process PriceDb.empty ps.

(** *** The environments of the properties *)

Definition ticks_of wakes : list (TickInput.t D) :=
  omap (fun wake => match wake with Tick i => Some i | Shutdown => None end) wakes.
Definition all_ticks (ps : list Process) : list (TickInput.t D) := mjoin (map (fun p => ticks_of (snd p)) ps).

(** The clock moves forward from a tick to the next. *)
Fixpoint clock_forward (t : DateTime) (is_ : list (TickInput.t D)) : Prop :=
  match is_ with
  | [] => True
  | i :: is_ => t < TickInput.now i /\ clock_forward (TickInput.now i) is_
  end.

(** The contract of a [PriceSource] asked about distinct mints: each is priced
    once, and the unpriced ones are asked for, distinct and not priced. *)
Definition well_answered (mints : list Pubkey) answer : Prop :=
  one_price_per_mint answer /\ NoDup (PriceAnswer.unpriced answer) /\
  forall m, m ∈ PriceAnswer.unpriced answer ->
    m ∈ mints /\ m ∉ map FetchedPrice.mint (PriceAnswer.priced answer).

(** A candidate list holds a mint once, and the source keeps its contract. *)
Definition answers_once i : Prop :=
  (forall candidates, TickInput.list_price_candidates i = Ok candidates ->
    NoDup (map PriceCandidate.mint candidates)) /\
  (forall mints answer, NoDup mints -> TickInput.fetch_prices i mints = Ok answer -> well_answered mints answer).

Definition fair_environment (start : DateTime) (ps : list Process) : Prop :=
  clock_forward start (all_ticks ps) /\ Forall answers_once (all_ticks ps) /\
  Forall (fun p => 0 <= fst p) ps.

(** *** Rows only get later *)

Lemma settled_later (t t' : DateTime) w d : t <= t' -> settled t w d -> settled t' w d.
Proof.
  intros Hle (Hb & Hrest). split; [|done]. intros m b r Hr. apply Hb in Hr. lia.
Qed.

Lemma settled_new (t : DateTime) (interval : Z) d :
  0 <= interval -> rows_before t d -> settled t (new_worker interval) d.
Proof.
  intros Hi Hb. split_and!; [done| |].
  - intros m l Hl. simpl in Hl. unfold KeptPrices.new in Hl. simpl in Hl. by rewrite lookup_empty in Hl.
  - unfold gap_in_bounds, new_worker, KeptPrices.new. simpl.
    destruct (delta_from_std interval) as [t'|] eqn:E; [|vm_compute; split; discriminate].
    destruct (decide (interval <= delta_max)) as [Hd|Hd].
    + rewrite delta_from_std_in in E by lia. injection E as <-.
      change KeptPrices.PRICE_SERIES_MAX_GAP with 510000000000. lia.
    + rewrite delta_from_std_past in E by lia. done.
Qed.

Lemma requested_NoDup (u : UnpricedMints.t) (tick : Z) (cs : list PriceCandidate.t) (asked_at : DateTime) :
  NoDup (map PriceCandidate.mint cs) -> NoDup (requested u tick cs asked_at).
Proof. intros Hnd. eapply sublist_NoDup; [exact Hnd|]. apply map_sublist, filter_sublist. Qed.

Lemma answer_once i (u : UnpricedMints.t) (tick : Z) u' answer :
  answers_once i -> answer_of u tick i = (u', Some answer) -> one_price_per_mint answer.
Proof.
  intros [Hcs Hi]. unfold answer_of.
  destruct (TickInput.list_price_candidates i) as [[|c cs]|]; [done| |done].
  specialize (Hcs _ eq_refl).
  pose proof (requested_NoDup (UnpricedMints.retain_only u (map PriceCandidate.mint (c :: cs))) tick _
    (TickInput.asked_at i) Hcs) as Hnd.
  destruct (requested _ _ _ _) as [|m ms]; [done|].
  destruct (TickInput.fetch_prices i (m :: ms)) as [a|] eqn:E; [|done].
  intros [= _ <-]. by eapply Hi.
Qed.

(** *** The simulation *)

(** Both series end with the same row, theirs at most [gap] later than ours. *)
Definition ends_alike (gap : TimeDelta) (ours theirs : option (DateTime * TokenPriceRow.t)) : Prop :=
  match ours, theirs with
  | Some (b, r), Some (b', r') => r = r' /\ 0 <= b' - b <= gap
  | None, None => True
  | _, _ => False
  end.

Record alike (now0 : DateTime) w d (s : UnpricedMints.t * Z * PriceDb.t) : Prop := {
  alike_settled : settled now0 w d;
  alike_rows : rows_before now0 (snd s);
  alike_unpriced : PriceWorker.unpriced w = fst (fst s);
  alike_tick : PriceWorker.tick w = snd (fst s);
  alike_ends : forall m, ends_alike KeptPrices.PRICE_SERIES_MAX_GAP
    (find_latest_by_mint d m) (find_latest_by_mint (snd s) m);
  alike_kept : forall m l, KeptPrices.last (PriceWorker.kept w) !! m = Some l ->
    ends_alike (KeptPrices.max_gap (PriceWorker.kept w)) (find_latest_by_mint d m) (find_latest_by_mint (snd s) m);
}.

Lemma insert_batch_fault d e (ps : list (TokenPrice.t D)) : fst (insert_batch d (Some e) ps) = d.
Proof. by destruct ps. Qed.

Lemma alike_step (now0 : DateTime) w d s i :
  now0 < TickInput.now i -> answers_once i -> alike now0 w d s ->
  let (w2, d2) := run_one_cycle w d i in
  alike (TickInput.now i) w2 d2 (unsuppressed_cycle s i).
Proof.
  intros Hlt Hi [Hs Hr Hu Ht He Hk]. destruct s as [[u tick] d']. simpl in *. subst u tick.
  pose proof (run_one_cycle_answer w d i) as Hc.
  destruct (run_one_cycle w d i) as [w2 d2].
  destruct (answer_of _ _ i) as [u a] eqn:Ea. destruct a as [answer|].
  2: { destruct Hc as (-> & Hkept & Hu & Htk). split; simpl; rewrite ?Hkept; try done.
       - apply (settled_later now0); [lia|]. destruct Hs as (Hb & Hta & Hg). split_and!; [done|by rewrite Hkept..].
       - intros m b r Hm. apply Hr in Hm. lia. }
  destruct Hc as (m0 & w3 & o & Hw & _ & ->).
  pose proof (answer_once _ _ _ _ _ Hi Ea) as Hone.
  pose proof (write_answer_spec now0 _ d i answer Hlt (Hs : settled now0 (PriceWorker.mk (PriceWorker.kept w) u
    (wrapping 64 (PriceWorker.tick w + 1)) m0) d) Hone) as Hspec.
  rewrite Hw in Hspec. destruct Hspec as [Hs3 Hu3 Ht3 Hg3 Hcur Hoth Hfail Hfault Hko]. simpl in *.
  destruct (TickInput.insert_fault i) as [e|] eqn:Ef.
  - destruct (Hfault e eq_refl) as [-> Hk3].
    split; simpl; rewrite ?insert_batch_fault; try done.
    + intros m b r Hm. apply Hr in Hm. lia.
    + intros m l. rewrite Hk3. apply Hk.
  - assert (forall e, o <> InsertFailed e) as Hok by (intros e ->; by destruct (Hfail e eq_refl)).
    destruct (latest_insert_batch now0 (TickInput.now i) d' (storable (TickInput.now i) answer))
      as (d2' & -> & Hb2 & Hin & Hout); [done|done|by apply storable_batch|]. simpl.
    assert (forall m p, p ∈ storable (TickInput.now i) answer -> m = TokenPrice.mint p ->
      ends_alike (KeptPrices.max_gap (PriceWorker.kept w)) (find_latest_by_mint d2 m) (find_latest_by_mint d2' m)) as Hp.
    { intros m p Hp ->. rewrite Hin by done. destruct (Hcur Hok p Hp) as (b & -> & Hb). done. }
    assert (Hgap : KeptPrices.max_gap (PriceWorker.kept w) <= KeptPrices.PRICE_SERIES_MAX_GAP)
      by (destruct Hs as (_ & _ & Hg); apply Hg).
    split; simpl; try done.
    + intros m. destruct (decide (m ∈ map TokenPrice.mint (storable (TickInput.now i) answer))) as [Hm|Hm].
      * apply list_elem_of_fmap in Hm as (p & Em & Hpin). specialize (Hp m p Hpin Em).
        unfold ends_alike in *. destruct (find_latest_by_mint d2 m) as [[? ?]|], (find_latest_by_mint d2' m) as [[? ?]|];
          naive_solver lia.
      * rewrite Hoth, Hout by done. apply He.
    + intros m l. destruct (decide (m ∈ map TokenPrice.mint (storable (TickInput.now i) answer))) as [Hm|Hm].
      * intros _. rewrite Hg3. apply list_elem_of_fmap in Hm as (p & Em & Hpin). by eapply Hp.
      * rewrite Hko, Hoth, Hout, Hg3 by done. apply Hk.
Qed.

Lemma clock_forward_earlier (t t' : DateTime) is_ : t <= t' -> clock_forward t' is_ -> clock_forward t is_.
Proof. destruct is_ as [|i is_]; simpl; [done|]. intros Hle [Hlt Hf]. split; [lia|done]. Qed.

Lemma clock_forward_skip (t : DateTime) is_ rest : clock_forward t (is_ ++ rest) -> clock_forward t rest.
Proof.
  revert t. induction is_ as [|i is_ IH]; intros t; simpl; [done|].
  intros [Hlt Hf%IH]. eapply clock_forward_earlier; [|exact Hf]. lia.
Qed.

Lemma alike_run (wakes : list (Wake D)) (now0 : DateTime) w d s rest :
  clock_forward now0 (ticks_of wakes ++ rest) -> Forall answers_once (ticks_of wakes) ->
  alike now0 w d s ->
  exists now1, alike now1 (fst (fst (run w d wakes))) (snd (fst (run w d wakes))) (unsuppressed_run s wakes) /\
    clock_forward now1 rest.
Proof.
  revert now0 w d s. induction wakes as [|[i|] wakes IH]; intros now0 w d s Hf Ha Hs; simpl.
  - by exists now0.
  - simpl in Hf. destruct Hf as [Hlt Hf]. apply Forall_cons_1 in Ha as [Hi Ha].
    pose proof (alike_step now0 w d s i Hlt Hi Hs) as Hstep.
    destruct (run_one_cycle w d i) as [w2 d2]. by eapply IH.
  - exists now0. split; [done|]. by eapply clock_forward_skip.
Qed.

(** Between two processes. *)
Definition tables_alike (now0 : DateTime) d d' : Prop :=
  rows_before now0 d /\ rows_before now0 d' /\
  forall m, ends_alike KeptPrices.PRICE_SERIES_MAX_GAP (find_latest_by_mint d m) (find_latest_by_mint d' m).

Lemma alike_new (now0 : DateTime) (interval : Z) d d' :
  0 <= interval -> tables_alike now0 d d' ->
  alike now0 (new_worker interval) d (UnpricedMints.new interval, 0, d').
Proof.
  intros Hi (Hb & Hb' & He). split; simpl; try done.
  - by apply settled_new.
Qed.

Lemma alike_processes (ps : list Process) (now0 : DateTime) d d' rest :
  clock_forward now0 (all_ticks ps ++ rest) -> Forall answers_once (all_ticks ps) ->
  Forall (fun p => 0 <= fst p) ps -> tables_alike now0 d d' ->
  exists now1, tables_alike now1 (foldl run_process d ps) (foldl unsuppressed_process d' ps) /\
    clock_forward now1 rest.
Proof.
  revert now0 d d'. induction ps as [|[interval wakes] ps IH]; intros now0 d d' Hf Ha Hi Ht; simpl.
  - by exists now0.
  - unfold all_ticks in Hf, Ha. simpl in Hf, Ha. rewrite <- app_assoc in Hf.
    apply Forall_app in Ha as [Ha1 Ha2]. apply Forall_cons_1 in Hi as [Hi1 Hi2]. simpl in Hi1.
    destruct (alike_run wakes now0 _ _ _ _ Hf Ha1 (alike_new now0 interval d d' Hi1 Ht)) as (now1 & Hal & Hf1).
    destruct Hal as [(Hb & _) Hr _ _ He _]. by eapply IH.
Qed.

Lemma tables_alike_empty (now0 : DateTime) : tables_alike now0 PriceDb.empty PriceDb.empty.
Proof.
  split_and!; [intros m b r Hm; simpl in Hm; by rewrite lookup_empty in Hm..|].
  intros m. pose proof (find_latest_spec PriceDb.empty m) as Hs.
  destruct (find_latest_by_mint PriceDb.empty m) as [[b r]|]; [|done].
  destruct Hs as [Hs _]. simpl in Hs. by rewrite lookup_empty in Hs.
Qed.

(** C8: what the worker leaves out of the series, no reader of its end can
    tell. Let any number of processes of the worker follow one another on the
    same database, restarts and failed ticks included, and beside them a
    worker that writes every storable price it receives: for every mint both
    series end with the same row, or neither has one, and the written row is
    at most 510 s older than the one that would have been. *)
Theorem suppression_is_invisible (start : DateTime) (ps : list Process) :
  fair_environment start ps ->
  forall m, ends_alike KeptPrices.PRICE_SERIES_MAX_GAP
    (find_latest_by_mint (run_processes ps) m) (find_latest_by_mint (unsuppressed_processes ps) m).
Proof.
  intros (Hf & Ha & Hi) m. rewrite <- (app_nil_r (all_ticks ps)) in Hf.
  destruct (alike_processes ps start _ _ [] Hf Ha Hi (tables_alike_empty start)) as (now1 & (_ & _ & He) & _).
  apply He.
Qed.

(** *** [token_last_price] *)

(** A tick changes the tables and what is remembered together, or neither. *)
Lemma write_answer_cases w d i answer w2 d2 o :
  write_answer w d i answer = ((w2, d2), o) ->
  (d2 = d /\ PriceWorker.kept w2 = PriceWorker.kept w) \/
  exists ps, insert_batch d (TickInput.insert_fault i) ps = (d2, Ok ()) /\
    PriceWorker.kept w2 = KeptPrices.record (PriceWorker.kept w) ps.
Proof.
  unfold write_answer. destruct (storable _ _) as [|p P]; [intros [= <- <- _]; by left|].
  destruct (List.filter _ _) as [|q K]; [intros [= <- <- _]; by left|].
  destruct (insert_batch d _ (q :: K)) as [d3 [[]|e]] eqn:Ei.
  - intros [= <- <- _]. right. by exists (q :: K).
  - intros [= <- <- _]. left. split; [|done]. revert Ei. unfold insert_batch.
    destruct (TickInput.insert_fault i); [by intros [= <- _]|].
    destruct (bound_rows (q :: K)); [|by intros [= <- _]]. by destruct (insert_prices _ _).
Qed.

Lemma run_invariant (P : PriceDb.t -> KeptPrices.t D -> Prop) (wakes : list (Wake D)) w d :
  (forall d fault ps d2 k, P d k -> insert_batch d fault ps = (d2, Ok ()) -> P d2 (KeptPrices.record k ps)) ->
  P d (PriceWorker.kept w) ->
  P (snd (fst (run w d wakes))) (PriceWorker.kept (fst (fst (run w d wakes)))).
Proof.
  intros Hstep. revert w d. induction wakes as [|[i|] wakes IH]; intros w d HP; simpl; [done| |done].
  pose proof (run_one_cycle_answer w d i) as Hc. destruct (run_one_cycle w d i) as [w2 d2].
  apply IH. destruct (answer_of _ _ i) as [u [answer|]].
  - destruct Hc as (m & w3 & o & Hw & _ & ->). simpl.
    apply write_answer_cases in Hw as [(-> & ->)|(ps & Hi & ->)]; simpl; [done|]. by eapply Hstep.
  - destruct Hc as (-> & -> & _). done.
Qed.

Lemma run_ends_agree (wakes : list (Wake D)) w d :
  ends_agree d -> ends_agree (snd (fst (run w d wakes))).
Proof.
  apply (run_invariant (fun d _ => ends_agree d)). intros d0 fault ps d2 _ Ha Hi.
  pose proof (insert_batch_agree d0 fault ps Ha) as Hb. by rewrite Hi in Hb.
Qed.

Lemma run_max_gap (wakes : list (Wake D)) w d :
  KeptPrices.max_gap (PriceWorker.kept (fst (fst (run w d wakes)))) = KeptPrices.max_gap (PriceWorker.kept w).
Proof.
  apply (run_invariant (fun _ k => KeptPrices.max_gap k = KeptPrices.max_gap (PriceWorker.kept w))); [|done].
  intros d0 fault ps d2 k Hk _. exact Hk.
Qed.

Lemma ends_agree_empty : ends_agree PriceDb.empty.
Proof.
  intros m. pose proof (find_latest_spec PriceDb.empty m) as Hs.
  destruct (find_latest_by_mint PriceDb.empty m) as [[b r]|]; [|done].
  destruct Hs as [Hs _]. simpl in Hs. by rewrite lookup_empty in Hs.
Qed.

Lemma run_processes_agree (ps : list Process) d : ends_agree d -> ends_agree (foldl run_process d ps).
Proof. revert d. induction ps as [|p ps IH]; intros d Ha; simpl; [done|]. by apply IH, run_ends_agree. Qed.

(** [token_last_price], which every valuation joins instead of searching
    the series, holds for every mint the price and the instant of the latest
    row of [token_prices], and nothing for a mint without a row: whatever the
    clock, the answers and the failures of the processes that wrote both. *)
Theorem last_price_is_the_latest (ps : list Process) m :
  PriceDb.token_last_price (run_processes ps) !! m =
    option_map (fun '(b, r) => (TokenPriceRow.price_usd r, b)) (find_latest_by_mint (run_processes ps) m).
Proof. apply run_processes_agree, ends_agree_empty. Qed.

(** *** The age of what was just answered *)

Lemma storable_elem (now : DateTime) answer (f : FetchedPrice.t D) :
  f ∈ PriceAnswer.priced answer -> is_storable (token_price now f) = true ->
  token_price now f ∈ storable now answer.
Proof.
  intros Hf Hs. unfold storable. rewrite list_elem_of_In, filter_In. split; [|done].
  apply in_map. by apply list_elem_of_In.
Qed.

Lemma accepted_cadence (value interval : Z) :
  price_interval_that_keeps_prices_current value = Ok interval ->
  interval = seconds value /\ value <> 0 /\ value < 900.
Proof.
  unfold price_interval_that_keeps_prices_current. destruct (Z.eqb_spec value 0); [done|].
  destruct (try_int 64 value) as [v|] eqn:E; [|done].
  unfold try_int in E. destruct (in_int 64 value); [|done]. injection E as ->.
  change (num_seconds PRICE_MAX_AGE_LATEST) with 900. destruct (Z.ltb_spec v 900); [|done].
  by intros [= <-].
Qed.

Lemma accepted_max_gap (value interval : Z) :
  0 <= value -> price_interval_that_keeps_prices_current value = Ok interval ->
  KeptPrices.max_gap (KeptPrices.new interval : KeptPrices.t D) =
    Z.max (KeptPrices.PRICE_SERIES_MAX_GAP - interval) 0.
Proof.
  intros Hv (-> & _ & Hlt)%accepted_cadence. unfold KeptPrices.new.
  rewrite delta_from_std_in; [done|]. unfold seconds, delta_max. lia.
Qed.

Lemma current_until_next (value interval : Z) now b :
  price_interval_that_keeps_prices_current value = Ok interval ->
  0 <= now - b <= Z.max (KeptPrices.PRICE_SERIES_MAX_GAP - interval) 0 ->
  now + interval - b <= PRICE_MAX_AGE_LATEST.
Proof.
  intros (-> & _ & Hlt)%accepted_cadence. change PRICE_MAX_AGE_LATEST with 900000000000.
  change KeptPrices.PRICE_SERIES_MAX_GAP with 510000000000. unfold seconds. lia.
Qed.

(** C39: at a cadence the configuration accepts, a tick that is answered leaves
    the end of the series, read where the valuations read it, equal to every
    storable price of the answer and at most 510 s less the cadence old, or
    written at that very tick when the cadence is longer: when the next tick is
    due, a cadence later, it is still within the fifteen minutes of
    [PRICE_MAX_AGE_LATEST]. Otherwise the database did not run the INSERT, and
    neither the tables nor what the worker remembers has moved: no price the
    worker sends is ever refused for its value. *)
Theorem answered_price_is_current (start : DateTime) (ps : list Process) (value interval : Z)
    (wakes : list (Wake D)) i w d (u : UnpricedMints.t) answer :
  0 <= value -> price_interval_that_keeps_prices_current value = Ok interval ->
  fair_environment start (ps ++ [(interval, wakes ++ [Tick i])]) ->
  run (new_worker interval) (run_processes ps) wakes = ((w, d), false) ->
  answer_of (PriceWorker.unpriced w) (PriceWorker.tick w) i = (u, Some answer) ->
  let '((w2, d2), o) := price_once w d i in
  match o with
  | InsertFailed e =>
      TickInput.insert_fault i = Some e /\ d2 = d /\ PriceWorker.kept w2 = PriceWorker.kept w
  | _ => forall f, f ∈ PriceAnswer.priced answer -> is_storable (token_price (TickInput.now i) f) = true ->
      exists b, PriceDb.token_last_price d2 !! FetchedPrice.mint f =
          Some (column_value (FetchedPrice.price_usd f), b) /\
        0 <= TickInput.now i - b <= Z.max (KeptPrices.PRICE_SERIES_MAX_GAP - interval) 0 /\
        TickInput.now i + interval - b <= PRICE_MAX_AGE_LATEST
  end.
Proof.
  intros Hv Hacc (Hf & Ha & Hi) Hrun Hans. unfold all_ticks in Hf, Ha.
  assert (Hticks : mjoin (map (fun p => ticks_of (snd p)) (ps ++ [(interval, wakes ++ [Tick i])])) =
    all_ticks ps ++ ticks_of wakes ++ [i]).
  { rewrite map_app, join_app. simpl. rewrite app_nil_r. f_equal. unfold ticks_of. by rewrite omap_app. }
  rewrite Hticks in Hf, Ha. apply Forall_app in Ha as [Ha1 [Ha2 [Hai _]%Forall_cons_1]%Forall_app].
  apply Forall_app in Hi as [Hi1 [Hi2 _]%Forall_cons_1]. simpl in Hi2.
  destruct (alike_processes ps start _ _ _ Hf Ha1 Hi1 (tables_alike_empty start)) as (now1 & Ht & Hf1).
  destruct (alike_run wakes now1 _ _ _ _ Hf1 Ha2 (alike_new now1 interval _ _ Hi2 Ht)) as (now2 & Hal & Hf2 & _).
  fold (run_processes ps) in Hal. rewrite Hrun in Hal. simpl in Hal. destruct Hal as [Hset _ _ _ _ _].
  pose proof (run_max_gap wakes (new_worker interval) (run_processes ps)) as Hgap.
  rewrite Hrun in Hgap. cbn [fst] in Hgap.
  change (PriceWorker.kept (new_worker interval)) with (KeptPrices.new interval : KeptPrices.t D) in Hgap.
  rewrite (accepted_max_gap value) in Hgap by done.
  assert (Hagree : ends_agree (snd (run_one_cycle w d i))).
  { pose proof (run_ends_agree [Tick i] w d) as Hr. simpl in Hr. destruct (run_one_cycle w d i). apply Hr.
    pose proof (run_ends_agree wakes (new_worker interval) (run_processes ps)) as Hr2. rewrite Hrun in Hr2.
    apply Hr2, run_processes_agree, ends_agree_empty. }
  pose proof (run_one_cycle_answer w d i) as Hc. rewrite Hans in Hc.
  destruct (run_one_cycle w d i) as [w4 d2]. destruct Hc as (m & w3 & o & Hw & -> & _).
  pose proof (write_answer_spec now2 _ d i answer Hf2 (Hset : settled now2 (PriceWorker.mk (PriceWorker.kept w) u
    (wrapping 64 (PriceWorker.tick w + 1)) m) d) (answer_once _ _ _ _ _ Hai Hans)) as Hspec.
  rewrite Hw in Hspec. destruct Hspec as [_ _ _ _ Hcur _ Hfail _]. simpl in *. rewrite Hgap in Hcur.
  destruct o; try (by apply Hfail);
    (intros f Hin Hst; destruct (Hcur ltac:(done) (token_price (TickInput.now i) f)) as (b & Hb & Hle);
     [by apply storable_elem|simpl in Hb; exists b; split; [by rewrite Hagree, Hb|split; [done|]];
      by apply (current_until_next value)]).
Qed.
End Runs.
