(* ===== verification/PriceTurns.v ===== *)
(** * When a mint is asked

    The waits of [UnpricedMints] and the turns of [PriceCandidate]: how long a
    mint without a price waits, and that a candidate is asked once per cycle
    of its class. *)

From S2P Require Import Prelude Errors External Price PriceFacts.
#[local] Open Scope Z_scope.

(** ** [UnpricedMints] *)

Section Unpriced.
Context `{ChronoDeltaLaws}.
Import UnpricedMints.
Implicit Types (u : t) (m : Pubkey).

(** Between a millisecond and the cap, twenty doublings pass the cap. *)
Lemma wait_after_min u (misses : Z) :
  10 ^ 6 <= tick u <= UNPRICED_RETRY_MAX -> 0 <= misses ->
  wait_after u misses = Z.min (tick u * 2 ^ misses) UNPRICED_RETRY_MAX.
Proof.
  intros Ht Hm. unfold wait_after. change UNPRICED_RETRY_MAX with 900000000000 in *.
  rewrite Z.shiftl_mul_pow2, Z.mul_1_l by lia.
  assert (Hclamp : Z.min (tick u * 2 ^ Z.min misses 20) 900000000000 = Z.min (tick u * 2 ^ misses) 900000000000).
  { destruct (Z.le_ge_cases misses 20); [by rewrite (Z.min_l misses) by lia|].
    rewrite (Z.min_r misses) by lia. pose proof (Z.pow_le_mono_r 2 20 misses ltac:(lia) ltac:(lia)).
    change (2 ^ 20) with 1048576 in *.
    assert (tick u * 1048576 <= tick u * 2 ^ misses) by (apply Z.mul_le_mono_nonneg_l; lia). lia. }
  destruct (delta_checked_mul _ _) as [wait|] eqn:E.
  - apply delta_checked_mul_exact in E as ->. exact Hclamp.
  - apply delta_checked_mul_past in E. rewrite <- Hclamp.
    pose proof (Z.pow_nonneg 2 (Z.min misses 20)). unfold delta_max in E. lia.
Qed.

Lemma miss_tick now u m : tick (miss now u m) = tick u.
Proof. done. Qed.

Lemma foldl_miss_tick now u (l : list Pubkey) : tick (foldl (miss now) u l) = tick u.
Proof. revert u. induction l as [|x l IH]; intros u; simpl; [done|]. by rewrite IH. Qed.

Lemma foldl_miss_others now u (l : list Pubkey) m :
  m ∉ l -> deferred (foldl (miss now) u l) !! m = deferred u !! m.
Proof.
  revert u. induction l as [|x l IH]; intros u Hm; simpl; [done|].
  rewrite IH by set_solver. simpl. by rewrite lookup_insert_ne by set_solver.
Qed.

Lemma foldl_delete_lookup (l : list Pubkey) (M : gmap Pubkey Deferral) m :
  foldl (fun M mint => delete mint M) M l !! m = if decide (m ∈ l) then None else M !! m.
Proof.
  revert M. induction l as [|x l IH]; intros M; cbn [foldl]; [by case_decide; [set_solver|]|].
  rewrite IH. destruct (decide (m = x)) as [->|Hx].
  - rewrite lookup_delete_eq. repeat case_decide; set_solver.
  - rewrite lookup_delete_ne by done. repeat case_decide; set_solver.
Qed.

Lemma record_others u (priced unpriced : list Pubkey) now m :
  m ∉ unpriced ->
  deferred (record u priced unpriced now) !! m = if decide (m ∈ priced) then None else deferred u !! m.
Proof. intros Hm. unfold record. rewrite foldl_miss_others by done. simpl. apply foldl_delete_lookup. Qed.

Lemma record_tick u (priced unpriced : list Pubkey) now : tick (record u priced unpriced now) = tick u.
Proof. unfold record. by rewrite foldl_miss_tick. Qed.

Definition misses_of u m : Z := match deferred u !! m with Some x => misses x | None => 0 end.

Lemma record_missed u (priced unpriced : list Pubkey) now m :
  NoDup unpriced -> m ∈ unpriced -> m ∉ priced ->
  deferred (record u priced unpriced now) !! m =
    Some (mkDeferral (saturating_add 32 (misses_of u m) 1)
      (now + wait_after u (saturating_add 32 (misses_of u m) 1) - tick u)).
Proof.
  intros Hnd Hin Hp. unfold record, misses_of.
  set (u0 := mk (foldl (fun M mint => delete mint M) (deferred u) priced) (tick u)).
  assert (E : deferred u0 !! m = deferred u !! m)
    by (unfold u0; simpl; by rewrite foldl_delete_lookup, decide_False).
  rewrite <- E. change (tick u) with (tick u0).
  assert (Hw : forall n, wait_after u n = wait_after u0 n) by done. rewrite Hw. clear Hw E.
  generalize dependent u0. induction unpriced as [|x l IH]; intros u0; [set_solver|]. simpl.
  apply NoDup_cons in Hnd as [Hx Hnd]. apply elem_of_cons in Hin as [<-|Hin].
  - rewrite foldl_miss_others by done. unfold miss. simpl. by rewrite lookup_insert_eq.
  - rewrite (IH Hnd Hin (miss now u0 x)). simpl. rewrite lookup_insert_ne by (intros ->; done). done.
Qed.

(** One answer: the mints priced, the mints not, the instant. *)
Definition Answered : Type := list Pubkey * list Pubkey * DateTime.
Definition record_all u (l : list Answered) : t :=
  foldl (fun u '(priced, unpriced, now) => record u priced unpriced now) u l.
Definition misses_mint m (a : Answered) : Prop :=
  let '(priced, unpriced, _) := a in NoDup unpriced /\ m ∈ unpriced /\ m ∉ priced.

(** The wait of a mint the source keeps answering without a price doubles
    with every answer, from two ticks on, and never passes fifteen minutes: at
    any cadence the configuration accepts, after [n] such answers in a row the
    mint is due [cadence * 2^n] after the last one, or fifteen minutes if that
    is less, counted one tick early. The clamp of the exponent and the
    overflow of the product are never seen. *)
Theorem unpriced_wait_doubles (value interval : Z) (l : list Answered) priced unpriced now m :
  0 <= value -> price_interval_that_keeps_prices_current value = Ok interval ->
  Forall (misses_mint m) (l ++ [(priced, unpriced, now)]) -> Z.of_nat (length l) < 2 ^ 32 - 1 ->
  deferred (record_all (new interval) (l ++ [(priced, unpriced, now)])) !! m =
    Some (mkDeferral (Z.of_nat (length l) + 1)
      (now + Z.min (interval * 2 ^ (Z.of_nat (length l) + 1)) UNPRICED_RETRY_MAX - interval)).
Proof.
  intros Hv Hacc Hall Hlen.
  assert (Hi : 10 ^ 6 <= interval <= UNPRICED_RETRY_MAX).
  { unfold price_interval_that_keeps_prices_current in Hacc. destruct (Z.eqb_spec value 0); [done|].
    unfold try_int in Hacc. destruct (in_int 64 value); [|done].
    change (num_seconds PRICE_MAX_AGE_LATEST) with 900 in Hacc.
    destruct (Z.ltb_spec value 900); [|done]. injection Hacc as <-.
    change UNPRICED_RETRY_MAX with 900000000000. unfold seconds. lia. }
  assert (Hnew : tick (new interval) = interval).
  { unfold new. rewrite delta_from_std_in; [done|]. unfold delta_max.
    change UNPRICED_RETRY_MAX with 900000000000 in Hi. lia. }
  assert (Hcount : forall k, Forall (misses_mint m) k -> Z.of_nat (length k) < 2 ^ 32 ->
    tick (record_all (new interval) k) = interval /\
    misses_of (record_all (new interval) k) m = Z.of_nat (length k)).
  { intros k. induction k as [|a k IH] using rev_ind; intros Hk Hl.
    - split; [done|]. unfold misses_of, new. simpl. by rewrite lookup_empty.
    - rewrite length_app in *. simpl in *. apply Forall_app in Hk as [Hk [Ha _]%Forall_cons_1].
      destruct IH as [Ht Hm]; [done|lia|]. destruct a as [[pr un] t0]. simpl in Ha. destruct Ha as (Hnd & Hin & Hp).
      unfold record_all in *. rewrite foldl_app. simpl. rewrite record_tick. split; [done|].
      unfold misses_of in Hm |- *. rewrite (record_missed _ _ _ _ _ Hnd Hin Hp). simpl.
      unfold misses_of. rewrite Hm. unfold saturating_add. rewrite Z.min_r; [lia|]. unfold uint_max. lia. }
  apply Forall_app in Hall as [Hl [Ha _]%Forall_cons_1]. simpl in Ha. destruct Ha as (Hnd & Hin & Hp).
  destruct (Hcount l Hl ltac:(lia)) as [Ht Hm].
  unfold record_all in *. rewrite foldl_app. simpl. rewrite (record_missed _ _ _ _ _ Hnd Hin Hp), Hm, Ht.
  assert (Hs : saturating_add 32 (Z.of_nat (length l)) 1 = Z.of_nat (length l) + 1)
    by (unfold saturating_add, uint_max; lia).
  rewrite Hs, wait_after_min by (rewrite ?Ht; lia). by rewrite Ht.
Qed.
End Unpriced.

(** ** Turns *)

Lemma every_ticks_pos (c : PriceCandidateClass) : 0 < every_ticks c.
Proof. by destruct c. Qed.

(** In any span of ticks as long as the cycle, the turn comes once. *)
Lemma turn_in_cycle (c : PriceCandidate.t) (from : Z) :
  exists k, 0 <= k < every_ticks (PriceCandidate.class c) /\
    forall j, 0 <= j < every_ticks (PriceCandidate.class c) -> is_turn c (from + j) = true <-> j = k.
Proof.
  set (n := every_ticks (PriceCandidate.class c)).
  assert (Hn : 0 < n) by apply every_ticks_pos.
  set (s := address_slot (PriceCandidate.mint c)).
  exists ((s - from) mod n). split; [apply Z.mod_pos_bound; lia|].
  intros j Hj. unfold is_turn. fold n. fold s. rewrite Z.eqb_eq. split.
  - intros E. apply (Z.mod_unique _ _ ((s / n) - ((from + j) / n))); [by left|].
    pose proof (Z.div_mod s n ltac:(lia)). pose proof (Z.div_mod (from + j) n ltac:(lia)). nia.
  - intros ->. rewrite Zplus_mod_idemp_r. f_equal. lia.
Qed.

Section Asked.
Context {D : Type} `{DecimalRoundingLaws D} `{ChronoDeltaLaws}.
Implicit Types (w : PriceWorker.t D) (d : PriceDb.t) (i : TickInput.t D).

(** The mints a tick asks the source. *)
Definition asked w i : list Pubkey :=
  match TickInput.list_price_candidates i with
  | Err _ => []
  | Ok candidates =>
      requested (UnpricedMints.retain_only (PriceWorker.unpriced w) (map PriceCandidate.mint candidates))
        (PriceWorker.tick w) candidates (TickInput.asked_at i)
  end.

(** What each of the ticks of a process asks. *)
Fixpoint asked_by w d (is_ : list (TickInput.t D)) : list (list Pubkey) :=
  match is_ with
  | [] => []
  | i :: is_ => asked w i :: (let (w, d) := run_one_cycle w d i in asked_by w d is_)
  end.

(** The part of [answers_once] the turns rely on: no mint is given as
    unpriced that was not asked for. *)
Definition answers_what_is_asked i : Prop :=
  forall mints answer m, TickInput.fetch_prices i mints = Ok answer ->
    m ∈ PriceAnswer.unpriced answer -> m ∈ mints.

(** The candidate list holds [c], and [c] only for its mint. *)
Definition lists (c : PriceCandidate.t) i : Prop :=
  exists candidates, TickInput.list_price_candidates i = Ok candidates /\ c ∈ candidates /\
    forall c', c' ∈ candidates -> PriceCandidate.mint c' = PriceCandidate.mint c -> c' = c.

Definition due_at_all (u : UnpricedMints.t) (m : Pubkey) (is_ : list (TickInput.t D)) : Prop :=
  Forall (fun i => UnpricedMints.is_due u m (TickInput.asked_at i) = true) is_.

Lemma retain_lookup (u : UnpricedMints.t) (candidates : list Pubkey) (m : Pubkey) :
  m ∈ candidates ->
  UnpricedMints.deferred (UnpricedMints.retain_only u candidates) !! m = UnpricedMints.deferred u !! m.
Proof.
  intros Hm. simpl. apply option_eq. intros x. rewrite map_lookup_filter_Some. naive_solver.
Qed.

Lemma is_due_ext (u u' : UnpricedMints.t) m now :
  UnpricedMints.deferred u' !! m = UnpricedMints.deferred u !! m ->
  UnpricedMints.is_due u' m now = UnpricedMints.is_due u m now.
Proof. unfold UnpricedMints.is_due. by intros ->. Qed.

Lemma asked_iff c w i :
  lists c i ->
  PriceCandidate.mint c ∈ asked w i <->
    is_turn c (PriceWorker.tick w) = true /\
    UnpricedMints.is_due (PriceWorker.unpriced w) (PriceCandidate.mint c) (TickInput.asked_at i) = true.
Proof.
  intros (cs & Hl & Hc & Huniq). unfold asked. rewrite Hl. unfold requested.
  assert (Hret : UnpricedMints.deferred (UnpricedMints.retain_only (PriceWorker.unpriced w)
      (map PriceCandidate.mint cs)) !! PriceCandidate.mint c =
    UnpricedMints.deferred (PriceWorker.unpriced w) !! PriceCandidate.mint c)
    by (apply retain_lookup, list_elem_of_fmap_2, Hc).
  rewrite list_elem_of_In, in_map_iff. setoid_rewrite filter_In. setoid_rewrite andb_true_iff. split.
  - intros (c' & Hm & Hin & Ht & Hd). apply list_elem_of_In in Hin. apply Huniq in Hin as ->; [|done].
    by rewrite (is_due_ext _ _ _ _ Hret) in Hd.
  - intros [Ht Hd]. exists c. rewrite (is_due_ext _ _ _ _ Hret). rewrite <- list_elem_of_In. done.
Qed.

(** A tick that does not ask a mint leaves its wait as it was, or ends it. *)
Lemma cycle_unasked c w d i :
  lists c i -> answers_what_is_asked i -> PriceCandidate.mint c ∉ asked w i ->
  let (w2, d2) := run_one_cycle w d i in
  UnpricedMints.deferred (PriceWorker.unpriced w2) !! PriceCandidate.mint c = None \/
  UnpricedMints.deferred (PriceWorker.unpriced w2) !! PriceCandidate.mint c =
    UnpricedMints.deferred (PriceWorker.unpriced w) !! PriceCandidate.mint c.
Proof.
  intros (cs & Hl & Hc & Huniq) Hsrc Hna. unfold asked in Hna. rewrite Hl in Hna.
  assert (Hret := retain_lookup (PriceWorker.unpriced w) (map PriceCandidate.mint cs) (PriceCandidate.mint c)
    (list_elem_of_fmap_2 _ _ _ Hc)).
  set (u := UnpricedMints.retain_only (PriceWorker.unpriced w) (map PriceCandidate.mint cs)) in *.
  pose proof (run_one_cycle_answer w d i) as Hrun. unfold answer_of in Hrun. rewrite Hl in Hrun. fold u in Hrun.
  destruct (run_one_cycle w d i) as [w2 d2].
  destruct cs as [|c0 cs]; [set_solver|].
  destruct (requested u _ _ _) as [|m ms] eqn:Er.
  - destruct Hrun as (_ & _ & -> & _). by right.
  - destruct (TickInput.fetch_prices i (m :: ms)) as [answer|e] eqn:Ef; simpl in Hrun.
    + destruct Hrun as (mm & w3 & o & Hw & _ & ->). simpl.
      assert (Hu : PriceWorker.unpriced w3 = UnpricedMints.record u
        (map FetchedPrice.mint (PriceAnswer.priced answer)) (PriceAnswer.unpriced answer) (TickInput.now i)).
      { revert Hw. unfold write_answer. simpl. destruct (storable _ _); [by intros [= <- _ _]|].
        destruct (List.filter _ _) as [|q K]; [by intros [= <- _ _]|].
        destruct (insert_batch d _ (q :: K)) as [? [|]]; by intros [= <- _ _]. }
      rewrite Hu, record_others.
      * case_decide; [by left|right; exact Hret].
      * intros Hm. apply Hna. by eapply Hsrc.
    + destruct Hrun as (_ & _ & -> & _). by right.
Qed.

Lemma run_one_cycle_tick w d i :
  PriceWorker.tick (fst (run_one_cycle w d i)) = wrapping 64 (PriceWorker.tick w + 1).
Proof.
  pose proof (run_one_cycle_answer w d i) as Hrun. destruct (run_one_cycle w d i) as [w2 d2]. simpl.
  destruct (answer_of _ _ i) as [u [answer|]].
  - destruct Hrun as (mm & w3 & o & Hw & _ & ->). simpl. revert Hw. unfold write_answer. simpl.
    destruct (storable _ _); [by intros [= <- _ _]|].
    destruct (List.filter _ _) as [|q K]; [by intros [= <- _ _]|].
    destruct (insert_batch d _ (q :: K)) as [? [|]]; by intros [= <- _ _].
  - by destruct Hrun as (_ & _ & _ & ->).
Qed.

Lemma asked_by_turns c (is_ : list (TickInput.t D)) w d :
  Forall (lists c) is_ -> Forall answers_what_is_asked is_ ->
  0 <= PriceWorker.tick w -> PriceWorker.tick w + Z.of_nat (length is_) < 2 ^ 64 ->
  (forall j k, 0 <= j < k -> k < Z.of_nat (length is_) ->
    is_turn c (PriceWorker.tick w + j) = true -> is_turn c (PriceWorker.tick w + k) = false) ->
  ((exists k, 0 <= k < Z.of_nat (length is_) /\ is_turn c (PriceWorker.tick w + k) = true) ->
    due_at_all (PriceWorker.unpriced w) (PriceCandidate.mint c) is_) ->
  forall (j : nat) ms, asked_by w d is_ !! j = Some ms ->
    PriceCandidate.mint c ∈ ms <-> is_turn c (PriceWorker.tick w + Z.of_nat j) = true.
Proof.
  revert w d. induction is_ as [|i is_ IH]; intros w d Hl Hs Hpos Hmax Honce Hdue j ms Hms; [done|].
  cbn [length] in *.
  apply Forall_cons in Hl as [Hli Hl]. apply Forall_cons in Hs as [Hsi Hs].
  destruct j as [|j]; simpl in Hms.
  - injection Hms as <-. rewrite Z.add_0_r, asked_iff by done. split; [tauto|]. intros Ht. split; [done|].
    assert (due_at_all (PriceWorker.unpriced w) (PriceCandidate.mint c) (i :: is_)) as Hd.
    { apply Hdue. exists 0. rewrite Z.add_0_r. split; [lia|done]. }
    by apply Forall_cons_1 in Hd as [Hd _].
  - pose proof (run_one_cycle_tick w d i) as Htick.
    pose proof (cycle_unasked c w d i Hli Hsi) as Hun.
    destruct (run_one_cycle w d i) as [w2 d2]. simpl in Htick.
    rewrite wrapping_in in Htick by (unfold is_uint; lia).
    rewrite (IH w2 d2 Hl Hs ltac:(lia) ltac:(lia)) with (ms := ms); [|..|done].
    + rewrite Htick. by replace (PriceWorker.tick w + 1 + Z.of_nat j) with (PriceWorker.tick w + Z.of_nat (S j)) by lia.
    + intros a b Hab Hb Ha. rewrite Htick in Ha |- *.
      replace (PriceWorker.tick w + 1 + b) with (PriceWorker.tick w + (b + 1)) by lia.
      apply (Honce (a + 1)); [lia..|]. by replace (PriceWorker.tick w + (a + 1)) with (PriceWorker.tick w + 1 + a) by lia.
    + intros (k & Hk & Hturn). rewrite Htick in Hturn.
      replace (PriceWorker.tick w + 1 + k) with (PriceWorker.tick w + (k + 1)) in Hturn by lia.
      assert (due_at_all (PriceWorker.unpriced w) (PriceCandidate.mint c) (i :: is_)) as Hd
        by (apply Hdue; exists (k + 1); split; [lia|done]).
      apply Forall_cons_1 in Hd as [_ Hd].
      assert (PriceCandidate.mint c ∉ asked w i) as Hna.
      { rewrite asked_iff by done. intros [Ht0 _]. rewrite <- (Z.add_0_r (PriceWorker.tick w)) in Ht0.
        rewrite (Honce 0 (k + 1)) in Hturn; [done|lia|lia|done]. }
      destruct (Hun Hna) as [E|E].
      * unfold due_at_all. apply Forall_forall. intros x _. unfold UnpricedMints.is_due. by rewrite E.
      * eapply Forall_impl; [exact Hd|]. intros x. by rewrite (is_due_ext _ _ _ _ E).
Qed.

Lemma asked_by_length (is_ : list (TickInput.t D)) w d : length (asked_by w d is_) = length is_.
Proof.
  revert w d. induction is_ as [|i is_ IH]; intros w d; simpl; [done|].
  destruct (run_one_cycle w d i). by rewrite IH.
Qed.

(** A candidate is asked exactly once per cycle of its class (at every
    tick, one tick in three, or one in 105): over any such number of ticks in
    a row, short of the tick counter's own end, that all list it and none of
    which falls within its wait for being unpriced, one tick and only one asks
    the source about it. *)
Theorem candidate_is_asked_once_per_cycle c w d (is_ : list (TickInput.t D)) :
  Z.of_nat (length is_) = every_ticks (PriceCandidate.class c) ->
  0 <= PriceWorker.tick w -> PriceWorker.tick w + Z.of_nat (length is_) < 2 ^ 64 ->
  Forall (lists c) is_ -> Forall answers_what_is_asked is_ ->
  due_at_all (PriceWorker.unpriced w) (PriceCandidate.mint c) is_ ->
  exists k ms, asked_by w d is_ !! k = Some ms /\ PriceCandidate.mint c ∈ ms /\
    forall j ms', asked_by w d is_ !! j = Some ms' -> PriceCandidate.mint c ∈ ms' -> j = k.
Proof.
  intros Hlen Hpos Hmax Hl Hs Hd.
  destruct (turn_in_cycle c (PriceWorker.tick w)) as (k & Hk & Hturn). rewrite <- Hlen in Hk, Hturn.
  assert (Hiff := asked_by_turns c is_ w d Hl Hs Hpos Hmax).
  specialize (Hiff ltac:(intros a b Hab Hb Ha; apply not_true_is_false; intros Hb';
    apply Hturn in Ha, Hb'; lia) (fun _ => Hd)).
  destruct (lookup_lt_is_Some_2 (asked_by w d is_) (Z.to_nat k)) as [ms Hms]; [rewrite asked_by_length; lia|].
  exists (Z.to_nat k), ms. split; [done|]. split.
  - apply (Hiff _ _ Hms). apply Hturn; lia.
  - intros j ms' Hj Hin. apply (Hiff _ _ Hj), Hturn in Hin; [lia|].
    apply lookup_lt_Some in Hj. rewrite asked_by_length in Hj. lia.
Qed.
End Asked.
