(* ===== verification/Jupiter.v ===== *)
(** * The Jupiter price client

    [src/crates/context/src/infra/jupiter_price.rs]: the prices of a tick,
    fetched in chunks spaced under the key's rate limit, a chunk refused with
    429 retried a bounded number of times, the stop heard at any point of one.

    Instants are in nanoseconds. Time passes while a request is on its way and
    while the client sleeps; what it computes in between takes none. *)

From S2P Require Import Prelude Errors External Price PriceFacts PriceRuns.

#[local] Open Scope Z_scope.

(** ** Outside: the server, the timer *)

(** One entry of the body, reduced to its [usdPrice]; a body is the map's
    entries in the order they come out. *)
Inductive Response (D : Type) : Type :=
| TransportFailure (reason : string)
| TooManyRequests (retry_after : option (list Z))     (** the header's bytes *)
| ErrorStatus (reason : string)
| UndecodableBody (reason : string)
| Body (entries : list (string * option D)).
Arguments TransportFailure {D}.
Arguments TooManyRequests {D}.
Arguments ErrorStatus {D}.
Arguments UndecodableBody {D}.
Arguments Body {D}.

(** The answer to a request sent at an instant for some mints, with the instant
    it has come; and when a sleep to an instant wakes. *)
Class Network (D : Type) : Type := {
  respond : Z -> list Pubkey -> Response D * Z;
  wake : Z -> Z;
}.

(** An answer comes after its request, tokio never wakes early. *)
Class NetworkLaws (D : Type) `{!Network D} : Prop := {
  respond_after : forall t mints, t <= snd (respond t mints);
  wake_after : forall t, t <= wake t;
}.

(** ** Constants and pacing *)

Definition JUPITER_BATCH_MAX : nat := 50.
Definition RATE_LIMIT_MAX_ATTEMPTS : Z := 3.
Definition RATE_LIMIT_BASE_BACKOFF : Z := seconds 1.
Definition RATE_LIMIT_MAX_BACKOFF : Z := seconds 10.
Definition SPACING_PER_REQUEST_ALLOWED : Z := seconds 66.

(** [rate_limit] is a [NonZeroU32]. *)
Definition spacing_under (rate_limit : Z) : Z := SPACING_PER_REQUEST_ALLOWED / rate_limit.

Definition rate_limit_backoff (attempt : Z) (retry_after : option Z) : Z :=
  Z.min (match retry_after with
         | Some d => d
         | None => RATE_LIMIT_BASE_BACKOFF * Z.min (2 ^ attempt) (uint_max 32)
         end) RATE_LIMIT_MAX_BACKOFF.

(** [HeaderValue::to_str]: visible ASCII and the tab. *)
Definition visible (b : Z) : bool := ((32 <=? b) && (b <? 127)) || (b =? 9).
Definition blank (b : Z) : bool := (b =? 32) || (b =? 9).
Fixpoint trim_start (bs : list Z) : list Z :=
  match bs with
  | b :: rest => if blank b then trim_start rest else bs
  | [] => []
  end.
Definition trim (bs : list Z) : list Z := reverse (trim_start (reverse (trim_start bs))).

(** [str::parse::<u64>]: an optional [+], digits, [None] past the type. *)
Fixpoint digits (acc : Z) (bs : list Z) : option Z :=
  match bs with
  | [] => Some acc
  | b :: rest =>
    if (48 <=? b) && (b <? 58) then
      let! acc := checked_mul 64 acc 10 in
      let! acc := checked_add 64 acc (b - 48) in
      digits acc rest
    else None
  end.
Definition parse_u64 (bs : list Z) : option Z :=
  match bs with
  | [] => None
  | [43] => None
  | b :: rest => digits 0 (if b =? 43 then rest else bs)
  end.

Definition parse_retry_after (header : option (list Z)) : option Z :=
  let! bs := header in
  if forallb visible bs then
    let! secs := parse_u64 (trim bs) in Some (seconds secs)
  else None.

(** ** One chunk's answer *)

Section Client.
Context {D : Type} `{Base58} `{!Network D}.

Definition into_fetched_price (entry : string * option D) : option (FetchedPrice.t D) :=
  let (mint_str, usd_price) := entry in
  let! price_usd := usd_price in
  let! mint := pubkey_of_string mint_str in
  Some (FetchedPrice.mk mint Jupiter price_usd).

Definition chunk_answer (asked : list Pubkey) (priced : list (FetchedPrice.t D)) : option (PriceAnswer.t D) :=
  let with_price := map FetchedPrice.mint priced in
  if existsb (fun mint => bool_decide (mint ∈ with_price)) asked then
    Some (PriceAnswer.mk priced (List.filter (fun mint => negb (bool_decide (mint ∈ with_price))) asked))
  else None.

(** [fetch_chunk_inner]: what is made of the response. *)
Definition read_response (mints : list Pubkey) (response : Response D) : result (PriceAnswer.t D) SourceError :=
  match response with
  | TransportFailure reason | ErrorStatus reason => Err (Http reason)
  | TooManyRequests retry_after => Err (RateLimited (parse_retry_after retry_after))
  | UndecodableBody reason => Err (SourceDecode reason)
  | Body entries =>
    match chunk_answer mints (omap into_fetched_price entries) with
    | Some answer => Ok answer
    | None => Ok PriceAnswer.default
    end
  end.

(** An exchange: its result, when it ends, and when its requests were sent. *)
Definition Exchange : Type := result (PriceAnswer.t D) SourceError * Z * list Z.

Definition fetch_chunk (mints : list Pubkey) (now : Z) : Exchange :=
  match mints with
  | [] => (Ok PriceAnswer.default, now, [])
  | _ =>
    let (response, at_) := respond now mints in
    (read_response mints response, at_, [now])
  end.

Definition sleep_until (t now : Z) : Z := if t <=? now then now else wake t.

(** The loop of retries, [attempt] counted from 0; [None] out of fuel. Returns
    the exchange and [next_start]. *)
Fixpoint fetch_chunk_with_retry (fuel : nat) (spacing attempt : Z) (mints : list Pubkey) (now : Z) :
    option (Exchange * Z) :=
  match fuel with
  | 0%nat => None
  | S fuel =>
    let next_start := now + spacing in
    let '(result, at_, sent) := fetch_chunk mints now in
    match result with
    | Err (RateLimited retry_after) =>
      if attempt + 1 <? RATE_LIMIT_MAX_ATTEMPTS then
        let wait := Z.max (rate_limit_backoff attempt retry_after) (Z.max (next_start - at_) 0) in
        match fetch_chunk_with_retry fuel spacing (attempt + 1) mints (sleep_until (at_ + wait) at_) with
        | Some ((result, at_, more), next_start) => Some ((result, at_, sent ++ more), next_start)
        | None => None
        end
      else Some ((result, at_, sent), next_start)
    | _ => Some ((result, at_, sent), next_start)
    end
  end.

(** The chunk in its slot, raced against the stop: the select is biased, so a
    stop at or before the instant the exchange ends wins, and what would have
    been sent from then on is not. The flag is whether the chunk was let end. *)
Definition fetch_chunk_unless_stopped (fuel : nat) (spacing : Z) (stop : option Z) (chunk : list Pubkey)
    (next_start now : Z) : option (bool * Exchange * Z) :=
  match fetch_chunk_with_retry fuel spacing 0 chunk (sleep_until next_start now) with
  | None => None
  | Some ((result, at_, sent), next_start) =>
    match stop with
    | Some s =>
      if s <=? at_ then Some (false, (result, at_, List.filter (fun t => t <? s) sent), next_start)
      else Some (true, (result, at_, sent), next_start)
    | None => Some (true, (result, at_, sent), next_start)
    end
  end.

Definition add_chunk (answer : PriceAnswer.t D) (result : result (PriceAnswer.t D) SourceError) : PriceAnswer.t D :=
  match result with
  | Ok answered =>
      PriceAnswer.mk (PriceAnswer.priced answer ++ PriceAnswer.priced answered)
        (PriceAnswer.unpriced answer ++ PriceAnswer.unpriced answered)
  | Err _ => answer
  end.

(** [slice::chunks]; [fuel] is at least the length. *)
Fixpoint chunks {A} (fuel size : nat) (l : list A) : list (list A) :=
  match fuel, l with
  | _, [] | 0%nat, _ => []
  | S fuel, _ => firstn size l :: chunks fuel size (skipn size l)
  end.

Fixpoint fetch_chunks (fuel : nat) (spacing : Z) (stop : option Z) (todo : list (list Pubkey))
    (answer : PriceAnswer.t D) (next_start now : Z) : option (PriceAnswer.t D * list Z) :=
  match todo with
  | [] => Some (answer, [])
  | chunk :: todo =>
    match fetch_chunk_unless_stopped fuel spacing stop chunk next_start now with
    | None => None
    | Some (false, (_, _, sent), _) => Some (answer, sent)
    | Some (true, (result, at_, sent), next_start) =>
      match fetch_chunks fuel spacing stop todo (add_chunk answer result) next_start at_ with
      | Some (answer, more) => Some (answer, sent ++ more)
      | None => None
      end
    end
  end.

(** [fetch_prices], started at [now] and stopped at [stop] if it is: its
    answer, never an error, and when its requests were sent. Three attempts
    are all the fuel the retries use. *)
Definition fetch_prices (rate_limit : Z) (stop : option Z) (mints : list Pubkey) (now : Z) :
    option (PriceAnswer.t D * list Z) :=
  fetch_chunks (Z.to_nat RATE_LIMIT_MAX_ATTEMPTS) (spacing_under rate_limit) stop
    (chunks (length mints) JUPITER_BATCH_MAX mints) PriceAnswer.default now now.
End Client.

(** ** The Jupiter price client: its pace and its contract

    Whatever the server answers and whenever the stop comes, the requests of
    one fetch keep under the key's rate limit; and the client implements the
    [PriceSource] the price worker relies on. *)

#[local] Open Scope Z_scope.

(** ** Spaced instants *)

(** Each instant is at least [g] after the previous one, the first at [lo] or
    later. *)
Fixpoint spaced_from (g lo : Z) (l : list Z) : Prop :=
  match l with
  | [] => True
  | t :: l => lo <= t /\ spaced_from g (t + g) l
  end.

(** Where the next may come. *)
Definition next_slot (g lo : Z) (l : list Z) : Z := foldl (fun _ t => t + g) lo l.

Lemma spaced_app g lo l1 l2 :
  spaced_from g lo (l1 ++ l2) <-> spaced_from g lo l1 /\ spaced_from g (next_slot g lo l1) l2.
Proof. revert lo. induction l1 as [|t l1 IH]; intros lo; simpl; [tauto|]. rewrite IH. simpl. tauto. Qed.

Lemma spaced_later g lo lo' l : lo <= lo' -> spaced_from g lo' l -> spaced_from g lo l.
Proof. destruct l as [|t l]; simpl; [done|]. intros Hle [Ht Hl]. split; [lia|done]. Qed.

Lemma spaced_filter g lo (f : Z -> bool) l :
  0 <= g -> spaced_from g lo l -> spaced_from g lo (List.filter f l).
Proof.
  intros Hg. revert lo. induction l as [|t l IH]; intros lo; simpl; [done|]. intros [Ht Hl].
  destruct (f t); simpl; [auto|]. apply (spaced_later g lo (t + g)); [lia|auto].
Qed.

Lemma spaced_within g lo hi l :
  0 <= g -> spaced_from g lo l -> Forall (fun t => t < hi) l -> l <> [] ->
  lo + (Z.of_nat (length l) - 1) * g < hi.
Proof.
  intros Hg. revert lo. induction l as [|t l IH]; intros lo Hs Hf Hne; [done|].
  simpl in Hs. destruct Hs as [Ht Hs]. apply Forall_cons_1 in Hf as [Hlt Hf].
  destruct l as [|t' l]; [simpl; lia|].
  specialize (IH (t + g) Hs Hf ltac:(done)). cbn [length] in *. lia.
Qed.

(** How many of them a window holds. *)
Lemma spaced_count g lo l (t W : Z) :
  0 <= g -> spaced_from g lo l ->
  (Z.of_nat (length (List.filter (fun s => (t <=? s) && (s <? t + W)) l)) - 1) * g < Z.max W 1.
Proof.
  intros Hg Hs. apply (spaced_filter g lo (fun s => (t <=? s) && (s <? t + W))) in Hs; [|done].
  assert (Hin : Forall (fun s => t <= s < t + W) (List.filter (fun s => (t <=? s) && (s <? t + W)) l)).
  { apply Forall_forall. intros s Hin%list_elem_of_In. apply filter_In in Hin as [_ Hb].
    apply andb_true_iff in Hb as [H1%Z.leb_le H2%Z.ltb_lt]. done. }
  destruct (List.filter _ l) as [|s k]; [simpl; lia|].
  assert (spaced_from g t (s :: k)) as Hst.
  { destruct Hs as [_ Hk]. split; [|done]. apply Forall_cons_1 in Hin as [? _]. lia. }
  assert (t + (Z.of_nat (length (s :: k)) - 1) * g < t + W).
  { apply spaced_within; [done..| |done]. eapply Forall_impl; [exact Hin|]. simpl. lia. }
  lia.
Qed.

(** ** The pace of a fetch *)

Section Pace.
Context {D : Type} `{Base58} `{NetworkLaws D}.

Lemma sleep_until_after t now : t <= sleep_until t now /\ now <= sleep_until t now.
Proof. unfold sleep_until. pose proof (wake_after t). destruct (Z.leb_spec t now); lia. Qed.

(** An exchange of at most [n] requests sent from [from] on, [g] apart, that
    leaves the next slot at [next]. *)
Definition paced (g from : Z) (n : Z) (e : Exchange (D := D)) (next : Z) : Prop :=
  let '(_, at_, sent) := e in
  spaced_from g from sent /\ (forall lo, next_slot g lo sent = next) /\ from <= at_ /\
  Z.of_nat (length sent) <= n.

Lemma retry_paced (fuel : nat) (g attempt : Z) (chunk : list Pubkey) (now : Z) :
  chunk <> [] -> 0 <= attempt <= 2 -> 2 - attempt < Z.of_nat fuel ->
  exists e next, fetch_chunk_with_retry fuel g attempt chunk now = Some (e, next) /\
    paced g now (3 - attempt) e next.
Proof.
  intros Hne. revert attempt now. induction fuel as [|fuel IH]; intros attempt now Ha Hfuel; [lia|].
  destruct chunk as [|m ms]; [done|]. cbn [fetch_chunk_with_retry fetch_chunk].
  pose proof (respond_after now (m :: ms)) as Hafter.
  destruct (respond now (m :: ms)) as [response at_]. simpl in Hafter.
  assert (Hone : paced g now (3 - attempt) (read_response (m :: ms) response, at_, [now]) (now + g))
    by (simpl; split_and!; done || lia).
  destruct (read_response (m :: ms) response) as [answer|[reason|retry_after|reason]] eqn:Er;
    [by do 2 eexists..| |by do 2 eexists].
  change RATE_LIMIT_MAX_ATTEMPTS with 3. destruct (Z.ltb_spec (attempt + 1) 3); [|by do 2 eexists].
  match goal with |- context [sleep_until (?a + ?w) ?b] => set (resumed := sleep_until (a + w) b);
    assert (a + w <= resumed) as Hres by apply sleep_until_after end.
  destruct (IH (attempt + 1) resumed) as ([[result at2] more] & next & -> & Hsp & Hnext & Hat & Hlen); [lia..|].
  do 2 eexists. split; [reflexivity|]. simpl. split_and!; [lia| |done|lia|lia].
  eapply spaced_later; [|exact Hsp]. lia.
Qed.

Lemma chunk_paced (g : Z) (stop : option Z) (chunk : list Pubkey) (next_start now : Z) :
  0 <= g -> chunk <> [] ->
  exists ended e next, fetch_chunk_unless_stopped 3 g stop chunk next_start now = Some (ended, e, next) /\
    let '(_, at_, sent) := e in
    spaced_from g next_start sent /\ Z.of_nat (length sent) <= 3 /\
    (ended = true -> forall lo, next_slot g lo sent = next).
Proof.
  intros Hg Hne. unfold fetch_chunk_unless_stopped.
  destruct (retry_paced 3 g 0 chunk (sleep_until next_start now) Hne ltac:(lia) ltac:(lia))
    as ([[result at_] sent] & next & -> & Hsp & Hnext & Hat & Hlen).
  apply (spaced_later g next_start) in Hsp; [|apply sleep_until_after].
  destruct stop as [s|]; [destruct (s <=? at_)|]; do 3 eexists; (split; [reflexivity|]); simpl; try done.
  split_and!; [by apply spaced_filter| |done].
  pose proof (sublist_length _ _ (filter_sublist (fun t => t <? s) sent)). lia.
Qed.

Lemma fetch_chunks_paced (g : Z) (stop : option Z) (todo : list (list Pubkey)) answer (next_start now : Z) :
  0 <= g -> Forall (fun c => c <> []) todo ->
  exists answer' sent, fetch_chunks 3 g stop todo answer next_start now = Some (answer', sent) /\
    spaced_from g next_start sent /\ Z.of_nat (length sent) <= 3 * Z.of_nat (length todo).
Proof.
  intros Hg. revert answer next_start now.
  induction todo as [|chunk todo IH]; intros answer next_start now Hall; simpl.
  - by do 2 eexists.
  - apply Forall_cons_1 in Hall as [Hc Hall].
    destruct (chunk_paced g stop chunk next_start now Hg Hc)
      as (ended & [[result at_] sent] & next & -> & Hsp & Hlen & Hnext).
    destruct ended; [|do 2 eexists; split_and!; [done|done|lia]].
    destruct (IH (add_chunk answer result) next at_ Hall) as (answer' & more & -> & Hmore & Hmlen).
    do 2 eexists. split; [reflexivity|]. rewrite length_app. split; [|lia].
    apply spaced_app. by rewrite Hnext.
Qed.

Lemma chunks_nonempty {A} (fuel size : nat) (l : list A) :
  (0 < size)%nat -> Forall (fun c => c <> []) (chunks fuel size l).
Proof.
  intros Hs. revert l. induction fuel as [|fuel IH]; intros l; destruct l as [|x l]; simpl; try done.
  constructor; [|apply IH]. destruct size; [lia|done].
Qed.

Lemma chunks_concat {A} (fuel size : nat) (l : list A) :
  (0 < size)%nat -> (length l <= fuel)%nat -> concat (chunks fuel size l) = l.
Proof.
  intros Hs. revert l. induction fuel as [|fuel IH]; intros l Hl; destruct l as [|x l]; simpl in *; try done; [lia|].
  rewrite IH; [apply firstn_skipn|]. rewrite length_skipn. simpl. lia.
Qed.

(** Whatever Jupiter answers, however late, and whenever the stop comes,
    a fetch ends, sends each chunk at most three times, and in no minute of it
    more requests than the key's tier allows per minute, retries included. *)
Theorem requests_stay_under_the_limit (rate_limit : Z) (stop : option Z) (mints : list Pubkey) (now : Z) :
  0 < rate_limit < 2 ^ 32 ->
  exists answer sent, fetch_prices rate_limit stop mints now = Some (answer, sent) /\
    Z.of_nat (length sent) <= 3 * Z.of_nat (length (chunks (length mints) JUPITER_BATCH_MAX mints)) /\
    forall t, Z.of_nat (length (List.filter (fun s => (t <=? s) && (s <? t + seconds 60)) sent)) <= rate_limit.
Proof.
  intros Hr. unfold fetch_prices.
  assert (Hg : 0 <= spacing_under rate_limit) by (apply Z.div_pos; unfold SPACING_PER_REQUEST_ALLOWED, seconds; lia).
  destruct (fetch_chunks_paced (spacing_under rate_limit) stop (chunks (length mints) JUPITER_BATCH_MAX mints)
    PriceAnswer.default now now Hg) as (answer & sent & Hf & Hsp & Hlen).
  { apply chunks_nonempty. unfold JUPITER_BATCH_MAX. lia. }
  exists answer, sent. split_and!; [exact Hf|exact Hlen|]. intros t.
  pose proof (spaced_count _ _ _ t (seconds 60) Hg Hsp) as Hc.
  set (n := Z.of_nat (length (List.filter _ sent))) in *.
  unfold spacing_under, SPACING_PER_REQUEST_ALLOWED in Hc.
  change (seconds 66) with 66000000000 in Hc. change (Z.max (seconds 60) 1) with 60000000000 in Hc.
  pose proof (Z.div_mod 66000000000 rate_limit ltac:(lia)) as Hdm.
  pose proof (Z.mod_pos_bound 66000000000 rate_limit ltac:(lia)) as Hmod.
  set (g := 66000000000 / rate_limit) in *. change (2 ^ 32) with 4294967296 in Hr.
  destruct (Z.le_gt_cases n rate_limit); [done|]. exfalso.
  assert (rate_limit * g <= (n - 1) * g) by (apply Z.mul_le_mono_nonneg_r; [apply Z.div_pos|]; lia). lia.
Qed.
End Pace.

(** ** The contract of [PriceSource] *)

Section Contract.
Context {D : Type} `{Base58} `{NetworkLaws D}.
Implicit Types (answer : PriceAnswer.t D) (mints chunk : list Pubkey).

(** The addresses a body prices or not. *)
Definition body_mints (entries : list (string * option D)) : list Pubkey :=
  omap (fun e => pubkey_of_string (fst e)) entries.

(** A body has an entry at most for each address, and for no address that was
    not asked. *)
Definition honest_bodies : Prop :=
  forall t mints entries at_, respond t mints = (Body entries, at_) ->
    NoDup (body_mints entries) /\ forall m, m ∈ body_mints entries -> m ∈ mints.

Definition priced_mints answer : list Pubkey := map FetchedPrice.mint (PriceAnswer.priced answer).

(** The contract, with the prices themselves about what was asked. *)
Definition answers_for mints answer : Prop :=
  well_answered mints answer /\ forall m, m ∈ priced_mints answer -> m ∈ mints.

Lemma priced_sublist (entries : list (string * option D)) :
  map FetchedPrice.mint (omap into_fetched_price entries) `sublist_of` body_mints entries.
Proof.
  unfold body_mints. induction entries as [|[s [price|]] entries IH]; simpl; [constructor| |].
  - destruct (pubkey_of_string s) as [k|]; simpl; [by constructor|done].
  - destruct (pubkey_of_string s) as [k|]; simpl; [by constructor|done].
Qed.

Lemma default_answers mints : answers_for mints PriceAnswer.default.
Proof. split; [split; [|split]|]; simpl; try constructor; set_solver. Qed.

Lemma chunk_answer_answers chunk priced answer :
  NoDup chunk -> NoDup (map FetchedPrice.mint priced) ->
  (forall m, m ∈ map FetchedPrice.mint priced -> m ∈ chunk) ->
  chunk_answer chunk priced = Some answer ->
  answers_for chunk answer /\
  forall m, m ∈ chunk -> m ∈ priced_mints answer \/ m ∈ PriceAnswer.unpriced answer.
Proof.
  intros Hnd Hp Hin. unfold chunk_answer. destruct (existsb _ chunk); [|done]. intros [= <-].
  assert (Hun : forall m, m ∈ List.filter (fun mint => negb (bool_decide (mint ∈ map FetchedPrice.mint priced))) chunk
    <-> m ∈ chunk /\ m ∉ map FetchedPrice.mint priced).
  { intros m. rewrite !list_elem_of_In, filter_In, negb_true_iff, bool_decide_eq_false, list_elem_of_In. done. }
  split; [split; [split; [|split]|]|]; simpl.
  - exact Hp.
  - eapply sublist_NoDup; [exact Hnd|apply filter_sublist].
  - intros m Hm%Hun. exact Hm.
  - exact Hin.
  - intros m Hm. destruct (decide (m ∈ map FetchedPrice.mint priced)); [by left|right]. by apply Hun.
Qed.

Lemma read_response_answers chunk (now at_ : Z) response answer :
  honest_bodies -> NoDup chunk -> respond now chunk = (response, at_) ->
  read_response chunk response = Ok answer -> answers_for chunk answer.
Proof.
  intros Hb Hnd Hr. destruct response as [| | | |entries]; simpl; try done.
  destruct (Hb _ _ _ _ Hr) as [Hkeys Hasked].
  destruct (chunk_answer chunk (omap into_fetched_price entries)) as [a|] eqn:E;
    intros [= <-]; [|apply default_answers].
  pose proof (priced_sublist entries) as Hsub.
  apply chunk_answer_answers in E as [Ha _]; [done|done|by eapply sublist_NoDup|].
  intros m Hm%list_elem_of_In. apply Hasked, list_elem_of_In. by eapply sublist_In.
Qed.

Lemma answers_app done_ chunk answer answered :
  answers_for done_ answer -> answers_for chunk answered -> NoDup (done_ ++ chunk) ->
  answers_for (done_ ++ chunk) (add_chunk answer (Ok answered)).
Proof.
  intros [(Hp & Hu & Hun) Hpr] [(Hp' & Hu' & Hun') Hpr'] (Hnd & Hdisj & Hnd')%NoDup_app.
  unfold answers_for, well_answered, one_price_per_mint, priced_mints in *. simpl. rewrite !map_app.
  split_and!.
  - apply NoDup_app. split_and!; [done| |done]. intros m Hm Hm'. apply (Hdisj m); auto.
  - apply NoDup_app. split_and!; [done| |done]. intros m Hm Hm'. apply (Hdisj m); [by apply Hun|by apply Hun'].
  - intros m [Hm|Hm]%elem_of_app.
    + destruct (Hun m Hm) as [Hd Hn]. split; [set_solver|].
      intros [?|Hm']%elem_of_app; [done|]. apply (Hdisj m); auto.
    + destruct (Hun' m Hm) as [Hd Hn]. split; [set_solver|].
      intros [Hm'|?]%elem_of_app; [|done]. apply (Hdisj m); auto.
  - intros m [Hm|Hm]%elem_of_app; set_solver.
Qed.

Lemma answers_more done_ chunk answer : answers_for done_ answer -> answers_for (done_ ++ chunk) answer.
Proof.
  intros [(Hp & Hu & Hun) Hpr]. split; [split_and!; [done|done|]|].
  - intros m Hm. destruct (Hun m Hm). set_solver.
  - intros m Hm. apply Hpr in Hm. set_solver.
Qed.

(** What a chunk obtains, its last response gave. *)
Lemma retry_result (fuel : nat) (g attempt : Z) chunk (now : Z) result at_ sent next :
  chunk <> [] -> fetch_chunk_with_retry fuel g attempt chunk now = Some ((result, at_, sent), next) ->
  exists t response at', respond t chunk = (response, at') /\ result = read_response chunk response.
Proof.
  intros Hne. revert attempt now result at_ sent next.
  induction fuel as [|fuel IH]; intros attempt now result at_ sent next; [done|].
  destruct chunk as [|m ms]; [done|]. cbn [fetch_chunk_with_retry fetch_chunk].
  destruct (respond now (m :: ms)) as [response at'] eqn:Er.
  assert (Hlast : forall r, r = read_response (m :: ms) response ->
    exists t response at', respond t (m :: ms) = (response, at') /\ r = read_response (m :: ms) response)
    by (intros r Hr; by exists now, response, at').
  destruct (read_response (m :: ms) response) as [answer|[reason|retry_after|reason]] eqn:E;
    try (intros [= <- _ _ _]; by apply Hlast).
  destruct (_ <? _); [|intros [= <- _ _ _]; by apply Hlast].
  destruct (fetch_chunk_with_retry fuel _ _ _ _) as [[[[r a] more] n]|] eqn:Ef; [|done].
  intros [= <- _ _ _]. destruct (IH _ _ _ _ _ _ Ef) as (t & resp & at2 & H1 & H2). by exists t, resp, at2.
Qed.

Lemma chunk_result (fuel : nat) (g : Z) stop chunk next_start now ended result at_ sent next :
  chunk <> [] ->
  fetch_chunk_unless_stopped fuel g stop chunk next_start now = Some (ended, (result, at_, sent), next) ->
  (exists t response at', respond t chunk = (response, at') /\ result = read_response chunk response) /\
  (stop = None -> ended = true).
Proof.
  intros Hne. unfold fetch_chunk_unless_stopped.
  destruct (fetch_chunk_with_retry _ _ _ _ _) as [[[[r a] s] n]|] eqn:E; [|done].
  apply (retry_result fuel g 0 chunk) in E; [|done].
  destruct stop as [t|]; [destruct (t <=? a)|]; intros [= <- <- _ _ _]; done.
Qed.

(** Every response to a request about some of [mints] prices one of them at
    least. *)
Definition always_prices mints : Prop :=
  forall t chunk, chunk <> [] -> (forall m, m ∈ chunk -> m ∈ mints) -> exists entries at_, respond t chunk = (Body entries, at_) /\
    exists m, m ∈ chunk /\ m ∈ map FetchedPrice.mint (omap into_fetched_price entries).

Lemma always_prices_complete mints chunk (t at_ : Z) response :
  honest_bodies -> always_prices mints -> (forall m, m ∈ chunk -> m ∈ mints) -> chunk <> [] -> NoDup chunk -> respond t chunk = (response, at_) ->
  exists answer, read_response chunk response = Ok answer /\
    forall m, m ∈ chunk -> m ∈ priced_mints answer \/ m ∈ PriceAnswer.unpriced answer.
Proof.
  intros Hb Hall Hsub0 Hne Hnd Hr. destruct (Hall t chunk Hne Hsub0) as (entries & at' & Hr' & m & Hm & Hp).
  rewrite Hr in Hr'. injection Hr' as -> _. destruct (Hb _ _ _ _ Hr) as [Hkeys Hasked]. simpl.
  pose proof (priced_sublist entries) as Hsub.
  destruct (chunk_answer chunk (omap into_fetched_price entries)) as [a|] eqn:E.
  - exists a. split; [done|]. apply chunk_answer_answers in E as [_ Hc]; [done|done|by eapply sublist_NoDup|].
    intros m' Hm'%list_elem_of_In. apply Hasked, list_elem_of_In. by eapply sublist_In.
  - exfalso. revert E. unfold chunk_answer.
    assert (existsb (fun mint => bool_decide (mint ∈ map FetchedPrice.mint (omap into_fetched_price entries))) chunk
      = true) as ->; [|done].
    apply existsb_exists. exists m. split; [by apply list_elem_of_In|by apply bool_decide_eq_true].
Qed.

Lemma fetch_chunks_answers (fuel : nat) (g : Z) stop (todo : list (list Pubkey)) done_ answer next_start now answer' sent :
  honest_bodies -> Forall (fun c => c <> []) todo -> NoDup (done_ ++ concat todo) -> answers_for done_ answer ->
  fetch_chunks fuel g stop todo answer next_start now = Some (answer', sent) ->
  answers_for (done_ ++ concat todo) answer' /\
  (stop = None -> always_prices (done_ ++ concat todo) ->
    (forall m, m ∈ done_ -> m ∈ priced_mints answer \/ m ∈ PriceAnswer.unpriced answer) ->
    forall m, m ∈ done_ ++ concat todo -> m ∈ priced_mints answer' \/ m ∈ PriceAnswer.unpriced answer').
Proof.
  intros Hb. revert done_ answer next_start now sent.
  induction todo as [|chunk todo IH]; intros done_ answer next_start now sent Hne Hnd Ha; simpl.
  { intros [= <- _]. rewrite app_nil_r. done. }
  apply Forall_cons_1 in Hne as [Hc Hne]. simpl in Hnd. rewrite app_assoc in Hnd |- *.
  pose proof (proj1 (proj1 (NoDup_app _ _) Hnd)) as Hdc.
  assert (Hcnd : NoDup chunk) by (apply NoDup_app in Hdc; tauto).
  destruct (fetch_chunk_unless_stopped fuel g stop chunk next_start now) as [[[ended [[result at_] s]] next]|] eqn:Ef;
    [|done].
  apply chunk_result in Ef as [(t & response & at' & Hr & ->) Hended]; [|done].
  destruct ended.
  2: { intros [= <- _]. split; [by apply answers_more, answers_more|]. intros Hs. by specialize (Hended Hs). }
  destruct (fetch_chunks fuel g stop todo _ next at_) as [[a more]|] eqn:Erest; [|done]. intros [= <- _].
  assert (Hadd : answers_for (done_ ++ chunk) (add_chunk answer (read_response chunk response))).
  { destruct (read_response chunk response) as [answered|e] eqn:E; [|by apply answers_more].
    apply answers_app; [done| |done]. by eapply read_response_answers. }
  destruct (IH _ _ _ _ _ Hne Hnd Hadd Erest) as [Hfin Hcomp]. split; [exact Hfin|].
  intros Hs Hall Hdone. apply Hcomp; [done|done|].
  destruct (always_prices_complete _ chunk t at' response Hb Hall ltac:(set_solver) Hc Hcnd Hr) as (answered & -> & Hch).
  intros m [Hm|Hm]%elem_of_app; unfold priced_mints; simpl; rewrite map_app, !elem_of_app.
  - destruct (Hdone m Hm); tauto.
  - destruct (Hch m Hm); tauto.
Qed.

(** The client is a [PriceSource]: asked about distinct mints, whatever
    fails, is refused, is retried or is cut off by the stop, its answer prices a
    mint once, and gives as unpriced only mints that were asked and came back
    without a price in an answer that priced another; a mint it could not ask
    is in neither list. When nothing stops it and every response prices
    something, every mint is in one of the two. *)
Theorem jupiter_is_a_price_source (rate_limit : Z) (stop : option Z) mints (now : Z) :
  0 < rate_limit < 2 ^ 32 -> honest_bodies -> NoDup mints ->
  exists answer sent, fetch_prices rate_limit stop mints now = Some (answer, sent) /\
    well_answered mints answer /\
    (stop = None -> always_prices mints ->
      forall m, m ∈ mints -> m ∈ map FetchedPrice.mint (PriceAnswer.priced answer) \/ m ∈ PriceAnswer.unpriced answer).
Proof.
  intros Hr Hb Hnd. unfold fetch_prices.
  assert (Hg : 0 <= spacing_under rate_limit) by (apply Z.div_pos; unfold SPACING_PER_REQUEST_ALLOWED, seconds; lia).
  assert (Hne : Forall (fun c => c <> []) (chunks (length mints) JUPITER_BATCH_MAX mints))
    by (apply chunks_nonempty; unfold JUPITER_BATCH_MAX; lia).
  assert (Hcc : concat (chunks (length mints) JUPITER_BATCH_MAX mints) = mints)
    by (apply chunks_concat; [unfold JUPITER_BATCH_MAX; lia|done]).
  destruct (fetch_chunks_paced (spacing_under rate_limit) stop (chunks (length mints) JUPITER_BATCH_MAX mints)
    PriceAnswer.default now now Hg Hne) as (answer & sent & Hf & _).
  exists answer, sent. split; [exact Hf|].
  destruct (fetch_chunks_answers 3 _ _ _ [] _ _ _ _ _ Hb Hne ltac:(by rewrite Hcc) (default_answers []) Hf)
    as [[Hw _] Hcomp]. simpl in Hw, Hcomp. rewrite Hcc in Hw, Hcomp.
  split; [exact Hw|]. intros Hs Hall m Hm. apply (Hcomp Hs Hall); [set_solver|done].
Qed.
End Contract.
