(* ===== verification/PoolResolver.v ===== *)
(** * The pool account resolver

    [src/crates/context/src/application/workers/pool_account.rs], its source
    context/src/infra/solana_account.rs, and what it sends to the database:
    persistence/src/repositories/ (meteora/damm_v2/pool_properties.rs and its
    rows, meteora/dlmm/pool_properties.rs, the registry write of pool.rs).

    The resolver shares the table [pools] with the indexer: its tables are the
    indexer's [Db.t] with the column [fee_bps] the indexer never writes and the
    two satellites. Between two statements of the resolver the indexer sends
    any number of its own ([Meanwhile]). The statements sent so far number the
    moments. Log lines and the counters of the calls are left out. *)

From Stdlib Require Import QArith.
From S2P Require Import Prelude Errors External OrderedMap Domain Amm PoolAccount.
From S2P Require Import Store Rows Price Jupiter.
Import Amm.DammV2.
#[local] Open Scope Z_scope.

(** ** The tables *)

Module MeteoraDammV2PoolPropertiesRow.
Record t : Type := mk {
  protocol_fee_percent : option Z;
  referral_fee_percent : option Z;
  base_fee_kind : option string;
  has_dynamic_fee : option bool;
  cliff_fee_numerator : option Z;
  number_of_period : option Z;
  period_frequency : option Z;
  reduction_factor : option Z;
  activation_point : option Z;
  activation_type : option Z;
}.
End MeteoraDammV2PoolPropertiesRow.

Module MeteoraDlmmPoolPropertiesRow.
Record t : Type := mk {
  bin_step : option Z;
  base_factor : option Z;
  base_fee_power_factor : option Z;
  variable_fee_control : option Z;
  max_volatility_accumulator : option Z;
  protocol_share : option Z;
}.
End MeteoraDlmmPoolPropertiesRow.

(** A [NUMERIC] is a rational. The satellites are keyed by [pool_address]; their
    column [protocol] is generated. *)
Module Tables.
Record t : Type := mk {
  db : Db.t;
  fee_bps : gmap Pubkey Q;
  damm_v2 : gmap Pubkey MeteoraDammV2PoolPropertiesRow.t;
  dlmm : gmap Pubkey MeteoraDlmmPoolPropertiesRow.t;
}.

Definition empty : t := mk Db.empty ∅ ∅ ∅.
Definition set_db (s : t) (d : Db.t) : t := mk d (fee_bps s) (damm_v2 s) (dlmm s).
Definition set_damm_v2 (s : t) (p : gmap Pubkey MeteoraDammV2PoolPropertiesRow.t) : t :=
  mk (db s) (fee_bps s) p (dlmm s).
Definition set_dlmm (s : t) (p : gmap Pubkey MeteoraDlmmPoolPropertiesRow.t) : t :=
  mk (db s) (fee_bps s) (damm_v2 s) p.
Definition sent (s : t) : t := set_db s (Db.sent (db s)).
Definition pools (s : t) : gmap Pubkey PoolRow.t := Db.pools (db s).
End Tables.

(** ** Outside: the other processes, the order of a scan, the node *)

(** What the indexer does to its tables before a statement. *)
Class Meanwhile : Type := { meanwhile : nat -> Db.t -> Db.t }.

(** The order the rows of a statement come in, before its ORDER BY. *)
Class ScanOrder : Type := {
  scanned : nat -> list (Pubkey * PoolRow.t) -> list (Pubkey * PoolRow.t);
}.
Class ScanOrderLaws `{ScanOrder} : Prop := {
  scanned_perm : forall n l, scanned n l ≡ₚ l;
}.

Class Base64Standard : Type := { base64_standard_decode : string -> option (list Z) }.
Class Base64StandardLaws `{Base64Standard} : Prop := {
  base64_standard_bytes : forall s bs, base64_standard_decode s = Some bs -> Forall (is_uint 8) bs;
}.

(** One entry of the answer; the second half of [data] names its encoding. *)
Module RpcAccount.
Record t : Type := mk {
  data : string * string;
  owner : string;
}.
End RpcAccount.

Inductive RpcReply : Type :=
| NoReply (reason : string)                 (** [send] or [error_for_status] *)
| UndecodableReply (reason : string)        (** [json] *)
| Reply (value : list (option RpcAccount.t)).

(** [getMultipleAccounts], asked when some statements have been sent. *)
Class AccountNode : Type := { get_multiple_accounts : nat -> list string -> RpcReply }.

(** ** [PoolAccountResolver]: the queue and the satellite of a protocol *)

Module PoolAccountResolver.
Record t : Type := mk {
  protocol : Protocol;
  list_unresolved : Tables.t -> Z -> Tables.t * RepositoryResult (list Pubkey);
  set_pool_account : Tables.t -> Pubkey -> PoolAccountProperties.t -> Tables.t * RepositoryResult unit;
}.
End PoolAccountResolver.

(** ** One statement *)

Section Statements.
Context `{Postgres} `{Meanwhile} `{ScanOrder}.

Definition others (s : Tables.t) : Tables.t :=
  Tables.set_db s (meanwhile (Db.statements (Tables.db s)) (Tables.db s)).

(** The others' statements, then this one: it fails as a whole, by a fault or
    by itself, or changes the tables. *)
Definition execute {A} (s : Tables.t) (statement : nat -> Tables.t -> RepositoryResult (Tables.t * A)) :
    Tables.t * RepositoryResult A :=
  let s := others s in
  let n := Db.statements (Tables.db s) in
  let s := Tables.sent s in
  match fault n with
  | Some e => (s, Err e)
  | None =>
    match statement n s with
    | Ok (s, a) => (s, Ok a)
    | Err e => (s, Err e)
    end
  end.

(** ** The queues *)

Definition is_null {A} (o : option A) : bool := match o with None => true | Some _ => false end.

(** The part of the two predicates that reads [pools]. *)
Definition registry_unresolved (s : Tables.t) (address : Pubkey) (p : PoolRow.t) : bool :=
  PoolRow.needs_refresh p || is_null (PoolRow.token_a_mint p) || is_null (PoolRow.token_b_mint p) ||
  is_null (Tables.fee_bps s !! address).

Definition damm_v2_unresolved (s : Tables.t) (address : Pubkey) (p : PoolRow.t) : bool :=
  bool_decide (PoolRow.protocol p = MeteoraDammV2) &&
  (registry_unresolved s address p ||
   match Tables.damm_v2 s !! address with
   | None => true
   | Some props =>
       is_null (MeteoraDammV2PoolPropertiesRow.protocol_fee_percent props) ||
       is_null (MeteoraDammV2PoolPropertiesRow.referral_fee_percent props) ||
       is_null (MeteoraDammV2PoolPropertiesRow.has_dynamic_fee props)
   end).

Definition dlmm_unresolved (s : Tables.t) (address : Pubkey) (p : PoolRow.t) : bool :=
  bool_decide (PoolRow.protocol p = MeteoraDlmm) &&
  (registry_unresolved s address p ||
   match Tables.dlmm s !! address with
   | None => true
   | Some props => is_null (MeteoraDlmmPoolPropertiesRow.bin_step props)
   end).

(** [SELECT ... WHERE unresolved ORDER BY first_seen_at LIMIT limit]. *)
Definition oldest_unresolved (unresolved : Tables.t -> Pubkey -> PoolRow.t -> bool) (n : nat)
    (s : Tables.t) (limit : Z) : list Pubkey :=
  take (Z.to_nat limit) (map fst (sort_by_key (fun r => PoolRow.first_seen_at r.2)
    (scanned n (List.filter (fun r => unresolved s r.1 r.2) (map_to_list (Tables.pools s)))))).

Definition list_unresolved (unresolved : Tables.t -> Pubkey -> PoolRow.t -> bool) (s : Tables.t)
    (limit : Z) : Tables.t * RepositoryResult (list Pubkey) :=
  execute s (fun n s => Ok (s, oldest_unresolved unresolved n s limit)).

(** SQLSTATE 23503, as [map_sqlx_error] leaves it. *)
Definition foreign_key_violation : RepositoryError := Conflict "23503 foreign_key_violation".

(** A satellite row refers to a row of [pools] of the protocol. *)
Definition references_pool (s : Tables.t) (address : Pubkey) (protocol : Protocol) : bool :=
  match Tables.pools s !! address with
  | Some p => bool_decide (PoolRow.protocol p = protocol)
  | None => false
  end.

(** *** DAMM v2 *)

Definition expected_cp_amm : RepositoryError := Integrity "expected cp-amm pool properties, got MeteoraDlmm".
Definition expected_dlmm : RepositoryError := Integrity "expected DLMM pool properties, got MeteoraDammV2".

(** The six columns of the curve: all of them, or none. *)
Definition scheduler_columns (scheduler : option FeeSchedulerParams) : option (Z * Z * Z * Z * Z * Z) :=
  let! p := scheduler in
  let! cliff := result_ok (convert_u64_to_i64 (cliff_fee_numerator p) "cliff_fee_numerator") in
  let! frequency := result_ok (convert_u64_to_i64 (period_frequency p) "period_frequency") in
  let! reduction := result_ok (convert_u64_to_i64 (reduction_factor p) "reduction_factor") in
  let! activation := result_ok (convert_u64_to_i64 (activation_point p) "activation_point") in
  Some (cliff, number_of_period p, frequency, reduction, activation, activation_type p).

(** The row bound by the INSERT; [base_fee_kind] falls back to [known], the
    COALESCE of the conflict arm. *)
Definition damm_v2_row (known : option string) (p : MeteoraDammV2PoolAccountProperties.t) :
    MeteoraDammV2PoolPropertiesRow.t :=
  let columns := scheduler_columns (MeteoraDammV2PoolAccountProperties.fee_scheduler p) in
  MeteoraDammV2PoolPropertiesRow.mk
    (Some (MeteoraDammV2PoolAccountProperties.protocol_fee_percent p))
    (Some (MeteoraDammV2PoolAccountProperties.referral_fee_percent p))
    (coalesce (BaseFeeKind_as_str <$> MeteoraDammV2PoolAccountProperties.base_fee_kind p) known)
    (Some (MeteoraDammV2PoolAccountProperties.has_dynamic_fee p))
    ((fun '(cliff, _, _, _, _, _) => cliff) <$> columns)
    ((fun '(_, number, _, _, _, _) => number) <$> columns)
    ((fun '(_, _, frequency, _, _, _) => frequency) <$> columns)
    ((fun '(_, _, _, reduction, _, _) => reduction) <$> columns)
    ((fun '(_, _, _, _, point, _) => point) <$> columns)
    ((fun '(_, _, _, _, _, type) => type) <$> columns).

(** The key is checked when the row is inserted; the conflict arm leaves it. *)
Definition damm_v2_set_pool_account (s : Tables.t) (address : Pubkey) (properties : PoolAccountProperties.t) :
    Tables.t * RepositoryResult unit :=
  match properties with
  | PoolAccountProperties.MeteoraDlmm _ => (s, Err expected_cp_amm)
  | PoolAccountProperties.MeteoraDammV2 p =>
    execute s (fun _ s =>
      match Tables.damm_v2 s !! address with
      | Some row =>
          let known := MeteoraDammV2PoolPropertiesRow.base_fee_kind row in
          Ok (Tables.set_damm_v2 s (<[address := damm_v2_row known p]> (Tables.damm_v2 s)), ())
      | None =>
          if references_pool s address MeteoraDammV2 then
            Ok (Tables.set_damm_v2 s (<[address := damm_v2_row None p]> (Tables.damm_v2 s)), ())
          else Err foreign_key_violation
      end)
  end.

(** *** DLMM *)

Definition dlmm_row (p : MeteoraDlmmPoolAccountProperties.t) : MeteoraDlmmPoolPropertiesRow.t :=
  MeteoraDlmmPoolPropertiesRow.mk
    (Some (MeteoraDlmmPoolAccountProperties.bin_step p))
    (Some (MeteoraDlmmPoolAccountProperties.base_factor p))
    (Some (MeteoraDlmmPoolAccountProperties.base_fee_power_factor p))
    (Some (MeteoraDlmmPoolAccountProperties.variable_fee_control p))
    (Some (MeteoraDlmmPoolAccountProperties.max_volatility_accumulator p))
    (Some (MeteoraDlmmPoolAccountProperties.protocol_share p)).

Definition dlmm_set_pool_account (s : Tables.t) (address : Pubkey) (properties : PoolAccountProperties.t) :
    Tables.t * RepositoryResult unit :=
  match properties with
  | PoolAccountProperties.MeteoraDammV2 _ => (s, Err expected_dlmm)
  | PoolAccountProperties.MeteoraDlmm p =>
    execute s (fun _ s =>
      match Tables.dlmm s !! address with
      | Some _ => Ok (Tables.set_dlmm s (<[address := dlmm_row p]> (Tables.dlmm s)), ())
      | None =>
          if references_pool s address MeteoraDlmm then
            Ok (Tables.set_dlmm s (<[address := dlmm_row p]> (Tables.dlmm s)), ())
          else Err foreign_key_violation
      end)
  end.

Definition damm_v2_resolver : PoolAccountResolver.t :=
  PoolAccountResolver.mk MeteoraDammV2 (list_unresolved damm_v2_unresolved) damm_v2_set_pool_account.
Definition dlmm_resolver : PoolAccountResolver.t :=
  PoolAccountResolver.mk MeteoraDlmm (list_unresolved dlmm_unresolved) dlmm_set_pool_account.

(** In the order [bootstrap/daemon.rs] builds them. *)
Definition pool_account_resolvers : list PoolAccountResolver.t := [damm_v2_resolver; dlmm_resolver].
End Statements.

(** ** The registry ([PoolRepository::set_registry_properties]) *)

Section Registry.
Context `{Postgres} `{Meanwhile} {D : Type} `{DecimalLaws D}.

(** A [Decimal]'s text is a [BigDecimal]'s: the conversion cannot fail. *)
Definition set_registry_properties (s : Tables.t) (address : Pubkey) (core : PoolRegistryProperties.t D) :
    Tables.t * RepositoryResult unit :=
  execute s (fun _ s =>
    match Tables.pools s !! address with
    | None => Ok (s, ())
    | Some p =>
        let p := PoolRow.mk (PoolRow.protocol p) (Some (PoolRegistryProperties.token_a_mint core))
          (Some (PoolRegistryProperties.token_b_mint core)) (PoolRow.first_seen_at p)
          (PoolRow.last_seen_at p) false in
        let db := Db.set_pools (Tables.db s) (<[address := p]> (Tables.pools s)) in
        let fee_bps := <[address := dec_val (PoolRegistryProperties.fee_bps core)]> (Tables.fee_bps s) in
        Ok (Tables.mk db fee_bps (Tables.damm_v2 s) (Tables.dlmm s), ())
    end).
End Registry.

(** ** What the api reads of the DAMM v2 satellite *)

Module MeteoraDammV2PoolProperties.
Record t : Type := mk {
  pool_address : Pubkey;
  protocol_fee_percent : option Z;
  referral_fee_percent : option Z;
  base_fee_kind : option string;
  has_dynamic_fee : option bool;
  fee_scheduler : option FeeSchedulerParams;
}.
End MeteoraDammV2PoolProperties.

Definition scheduler_from (row : MeteoraDammV2PoolPropertiesRow.t) : option FeeSchedulerParams :=
  let! stored := MeteoraDammV2PoolPropertiesRow.base_fee_kind row in
  let! kind := List.find (fun kind => bool_decide (BaseFeeKind_as_str kind = stored))
    [SchedulerLinear; SchedulerExponential] in
  let! cliff_fee_numerator :=
    let! v := MeteoraDammV2PoolPropertiesRow.cliff_fee_numerator row in try_uint 64 v in
  let! number_of_period :=
    let! v := MeteoraDammV2PoolPropertiesRow.number_of_period row in try_uint 16 v in
  let! period_frequency :=
    let! v := MeteoraDammV2PoolPropertiesRow.period_frequency row in try_uint 64 v in
  let! reduction_factor :=
    let! v := MeteoraDammV2PoolPropertiesRow.reduction_factor row in try_uint 64 v in
  let! activation_point :=
    let! v := MeteoraDammV2PoolPropertiesRow.activation_point row in try_uint 64 v in
  let! activation_type :=
    let! v := MeteoraDammV2PoolPropertiesRow.activation_type row in try_uint 8 v in
  Some (mkFeeSchedulerParams cliff_fee_numerator number_of_period period_frequency reduction_factor
    activation_point activation_type kind).

Definition properties_try_from (address : Pubkey) (row : MeteoraDammV2PoolPropertiesRow.t) :
    RepositoryResult MeteoraDammV2PoolProperties.t :=
  let fee_scheduler := scheduler_from row in
  let? protocol_fee_percent := convert_optional
    (MeteoraDammV2PoolPropertiesRow.protocol_fee_percent row) "protocol_fee_percent" convert_i16_to_u8 in
  let? referral_fee_percent := convert_optional
    (MeteoraDammV2PoolPropertiesRow.referral_fee_percent row) "referral_fee_percent" convert_i16_to_u8 in
  Ok (MeteoraDammV2PoolProperties.mk address protocol_fee_percent referral_fee_percent
    (MeteoraDammV2PoolPropertiesRow.base_fee_kind row)
    (MeteoraDammV2PoolPropertiesRow.has_dynamic_fee row) fee_scheduler).

Definition find_by_pool `{Postgres} `{Meanwhile} (s : Tables.t) (address : Pubkey) :
    Tables.t * RepositoryResult (option MeteoraDammV2PoolProperties.t) :=
  let (s, row) := execute s (fun _ s => Ok (s, Tables.damm_v2 s !! address)) in
  (s, let? row := row in
      match row with
      | None => Ok None
      | Some row => let? properties := properties_try_from address row in Ok (Some properties)
      end).

(** ** The source ([infra/solana_account.rs]) *)

Module RawAccount.
Record t : Type := mk {
  pool_address : Pubkey;
  program_id : Pubkey;
  data : list Z;
}.
End RawAccount.

Section Source.
Context `{Base58} `{Base64Standard} `{AccountNode}.

Definition ACCOUNTS_BATCH_MAX : nat := 100.

(** An entry of the answer: missing, malformed and undecodable ones are dropped. *)
Definition raw_account (entry : Pubkey * option RpcAccount.t) : option RawAccount.t :=
  let (pool_address, account) := entry in
  let! account := account in
  let! program_id := pubkey_of_string (RpcAccount.owner account) in
  let! data := base64_standard_decode (RpcAccount.data account).1 in
  Some (RawAccount.mk pool_address program_id data).

Definition fetch_chunk_inner (n : nat) (pool_addresses : list Pubkey) :
    result (list RawAccount.t) SourceError :=
  let keys := map pubkey_to_string pool_addresses in
  match get_multiple_accounts n keys with
  | NoReply reason => Err (Http reason)
  | UndecodableReply reason => Err (SourceDecode reason)
  | Reply value => Ok (omap raw_account (zip pool_addresses value))
  end.

Fixpoint fetch_all (n : nat) (todo : list (list Pubkey)) : result (list RawAccount.t) SourceError :=
  match todo with
  | [] => Ok []
  | chunk :: todo =>
    let? accounts := fetch_chunk_inner n chunk in
    let? more := fetch_all n todo in
    Ok (accounts ++ more)
  end.

Definition fetch_accounts (n : nat) (pool_addresses : list Pubkey) : result (list RawAccount.t) SourceError :=
  fetch_all n (chunks (length pool_addresses) ACCOUNTS_BATCH_MAX pool_addresses).
End Source.

(** ** The worker *)

Definition RESOLVE_BATCH_MAX : Z := 100.

(** What became of an account, and of a pass over a protocol. *)
Inductive AccountOutcome : Type :=
| Rejected (reason : PoolAccountRejection)
| OtherProtocol (decoded_as : Protocol)
| SatelliteFailed (e : RepositoryError)
| RegistryFailed (e : RepositoryError)
| Written.

Inductive ProtocolOutcome : Type :=
| ListUnresolvedFailed (e : RepositoryError)
| NothingUnresolved
| SourceRefused (e : SourceError)
| Resolved (accounts : list AccountOutcome).

(** What the loop of [run] wakes on. *)
Inductive WorkerWake : Type :=
| TickElapsed
| StopAsked.

Section Worker.
Context `{Postgres} `{Meanwhile} `{ScanOrder} {D : Type} `{DecimalLaws D}.
Context `{Base58} `{Base64Standard} `{AccountNode}.

(** The body of the loop over the accounts. *)
Definition resolve_account (resolver : PoolAccountResolver.t) (s : Tables.t) (account : RawAccount.t) :
    exec (Tables.t * AccountOutcome) :=
  let address := RawAccount.pool_address account in
  let* decoded := decode_pool_account (D := D) (RawAccount.program_id account) (RawAccount.data account) in
  match decoded with
  | Err rejection => Done (s, Rejected rejection)
  | Ok decoded_account =>
    let decoded_as := DecodedPoolAccount.protocol decoded_account in
    if negb (bool_decide (decoded_as = PoolAccountResolver.protocol resolver))
    then Done (s, OtherProtocol decoded_as)
    else
      match PoolAccountResolver.set_pool_account resolver s address
              (DecodedPoolAccount.properties decoded_account) with
      | (s, Err e) => Done (s, SatelliteFailed e)
      | (s, Ok _) =>
        match set_registry_properties s address (DecodedPoolAccount.registry decoded_account) with
        | (s, Err e) => Done (s, RegistryFailed e)
        | (s, Ok _) => Done (s, Written)
        end
      end
  end.

Fixpoint resolve_accounts (resolver : PoolAccountResolver.t) (s : Tables.t) (accounts : list RawAccount.t) :
    exec (Tables.t * list AccountOutcome) :=
  match accounts with
  | [] => Done (s, [])
  | account :: accounts =>
    let* (s, outcome) := resolve_account resolver s account in
    let* (s, outcomes) := resolve_accounts resolver s accounts in
    Done (s, outcome :: outcomes)
  end.

Definition run_one_protocol (s : Tables.t) (resolver : PoolAccountResolver.t) :
    exec (Tables.t * ProtocolOutcome) :=
  match PoolAccountResolver.list_unresolved resolver s RESOLVE_BATCH_MAX with
  | (s, Err e) => Done (s, ListUnresolvedFailed e)
  | (s, Ok []) => Done (s, NothingUnresolved)
  | (s, Ok unresolved) =>
    match fetch_accounts (Db.statements (Tables.db s)) unresolved with
    | Err e => Done (s, SourceRefused e)
    | Ok accounts =>
      let* (s, outcomes) := resolve_accounts resolver s accounts in
      Done (s, Resolved outcomes)
    end
  end.

(** A failure for one protocol does not stop the others. *)
Fixpoint run_one_cycle (resolvers : list PoolAccountResolver.t) (s : Tables.t) :
    exec (Tables.t * list ProtocolOutcome) :=
  match resolvers with
  | [] => Done (s, [])
  | resolver :: resolvers =>
    let* (s, outcome) := run_one_protocol s resolver in
    let* (s, outcomes) := run_one_cycle resolvers s in
    Done (s, outcome :: outcomes)
  end.

(** The loop: the tables, what each cycle made, and whether it has returned.
    The select is biased, so a stop is heard before the next tick. *)
Fixpoint run (s : Tables.t) (wakes : list WorkerWake) :
    exec (Tables.t * list (list ProtocolOutcome) * bool) :=
  match wakes with
  | [] => Done (s, [], false)
  | StopAsked :: _ => Done (s, [], true)
  | TickElapsed :: wakes =>
    let* (s, cycle) := run_one_cycle pool_account_resolvers s in
    let* (s, cycles, stopped) := run s wakes in
    Done (s, cycle :: cycles, stopped)
  end.
End Worker.
