(* ===== verification/PoolResolverFacts.v ===== *)
(** * What the resolver's statements keep

    The indexer only adds rows to [pools] and raises flags; what each resolver
    promises the worker, which both protocols keep; a pass, a cycle and a run
    keep the tables sound (a pool out of the queue shows one account), panic
    nowhere, and write what the node serves; the DAMM v2 satellite reads back. *)

From Stdlib Require Import QArith Sorted.
From S2P Require Import Prelude Errors External OrderedMap Domain Amm Extractor Extraction FeeParameters.
From S2P Require Import PoolAccount Price Jupiter Store Rows Persist PersistFacts.
From S2P Require Import PoolResolver.
Import Amm.DammV2.
#[local] Open Scope Z_scope.

(** ** What the indexer does to [pools] *)

(** A row is never dropped and keeps its protocol, its mints and its age; its
    flag is only raised. *)
Definition row_drift (p p' : option PoolRow.t) : Prop :=
  match p, p' with
  | None, _ => True
  | Some p, Some p' =>
      PoolRow.protocol p' = PoolRow.protocol p /\ PoolRow.token_a_mint p' = PoolRow.token_a_mint p /\
      PoolRow.token_b_mint p' = PoolRow.token_b_mint p /\ PoolRow.first_seen_at p' = PoolRow.first_seen_at p /\
      (PoolRow.needs_refresh p = true -> PoolRow.needs_refresh p' = true)
  | Some _, None => False
  end.

#[global] Instance row_drift_preorder : PreOrder row_drift.
Proof.
  split.
  - intros [p|]; simpl; [done|done].
  - intros [p|] [q|] [r|]; simpl; try done. intros (E1 & E2 & E3 & E4 & Hf) (F1 & F2 & F3 & F4 & Hg).
    split_and!; [congruence..|auto].
Qed.

Definition indexed (d d' : Db.t) : Prop := forall a, row_drift (Db.pools d !! a) (Db.pools d' !! a).

#[global] Instance indexed_preorder : PreOrder indexed.
Proof. split; [by intros d a|]. intros d d' d'' H1 H2 a. by transitivity (Db.pools d' !! a). Qed.

Lemma indexed_pools d d' : Db.pools d' = Db.pools d -> indexed d d'.
Proof. intros E a. by rewrite E. Qed.

Lemma indexed_insert d a p :
  row_drift (Db.pools d !! a) (Some p) -> indexed d (Db.set_pools d (<[a := p]> (Db.pools d))).
Proof.
  intros Hp b. simpl. destruct (decide (b = a)) as [->|Hb].
  - by rewrite lookup_insert_eq.
  - by rewrite lookup_insert_ne by done.
Qed.

Section Indexing.
Context `{Postgres}.

Lemma execute_indexed {A} d (statement : DateTime -> Db.t -> Db.t * A) :
  (forall now d, indexed d (statement now d).1) -> indexed d (Store.execute d statement).1.
Proof.
  intros Hs. unfold Store.execute. transitivity (Db.sent d); [by apply indexed_pools|].
  destruct (fault _); [done|]. specialize (Hs (db_now (Db.statements d)) (Db.sent d)).
  by destruct (statement _ _).
Qed.

Lemma execute_indexed_to {A} d (statement : DateTime -> Db.t -> Db.t * A) d' r :
  Store.execute d statement = (d', r) -> (forall now d, indexed d (statement now d).1) -> indexed d d'.
Proof. intros E Hs. pose proof (execute_indexed d statement Hs) as Hd. by rewrite E in Hd. Qed.

Lemma upsert_pool_indexed d p : indexed d (upsert_pool d p).1.
Proof.
  unfold upsert_pool. destruct (Store.execute d _) as [d1 updated] eqn:E.
  assert (indexed d d1) as H1.
  { eapply execute_indexed_to; [exact E|]. intros now d'. cbv beta.
    destruct (Db.pools d' !! _) as [r|] eqn:Hr; [|done]. apply indexed_insert. by rewrite Hr. }
  destruct updated as [rows|]; [|done]. destruct (0 <? rows); [done|]. etrans; [exact H1|].
  apply execute_indexed. intros now d'. destruct (Db.pools d' !! _) as [r|] eqn:Hr; [done|].
  apply indexed_insert. by rewrite Hr.
Qed.

Lemma touch_last_seen_indexed d a : indexed d (touch_last_seen d a).1.
Proof.
  apply execute_indexed. intros now d'. destruct (Db.pools d' !! a) as [r|] eqn:Hr; [|done].
  apply indexed_insert. by rewrite Hr.
Qed.

Lemma mark_needs_refresh_indexed d a : indexed d (mark_needs_refresh d a).1.
Proof.
  apply execute_indexed. intros now d'. destruct (Db.pools d' !! a) as [r|] eqn:Hr; [|done].
  apply indexed_insert. by rewrite Hr.
Qed.

Lemma insert_event_indexed d w : indexed d (insert_event d w).1.
Proof.
  unfold insert_event. destruct (convert_all _); [|done].
  destruct (Store.execute d _) as [d1 rows] eqn:E. eapply execute_indexed_to; [exact E|].
  intros now d'. cbv beta. by destruct (existsb _ _); apply indexed_pools.
Qed.

Lemma upsert_state_indexed d u : indexed d (upsert_state d u).1.
Proof.
  unfold upsert_state. destruct (convert_all _); [|done]. apply execute_indexed. intros _ d'.
  destruct (upsert_row _ _). by apply indexed_pools.
Qed.
End Indexing.

(** *** A whole transaction *)

Section Transactions.
Context `{Postgres} `{Clock}.
Implicit Types s : Indexer.t.

Definition indexes s s' : Prop := indexed (Indexer.db s) (Indexer.db s').

#[local] Instance indexes_preorder : PreOrder indexes.
Proof. split; [by intros s a|]. intros s s' s'' H1 H2. unfold indexes. by etrans. Qed.

Lemma record_indexes s m : indexes s (Indexer.record s m).
Proof. by apply indexed_pools. Qed.

Lemma discover_indexes s p a k : indexes s (discover_pool s p a k).
Proof.
  unfold discover_pool, indexes. set (pool := Pool.mk _ _ _ _ _).
  pose proof (upsert_pool_indexed (Indexer.db s) pool) as Hd. by destruct (upsert_pool _ pool) as [d []].
Qed.

Lemma touch_indexes s a : indexes s (touch_pool s a).
Proof.
  unfold touch_pool, indexes. pose proof (touch_last_seen_indexed (Indexer.db s) a) as Hd.
  by destruct (touch_last_seen _ a) as [d []].
Qed.

Lemma flag_indexes s a : indexes s (flag_needs_refresh s a).1.
Proof.
  unfold flag_needs_refresh, indexes. pose proof (mark_needs_refresh_indexed (Indexer.db s) a) as Hd.
  by destruct (mark_needs_refresh _ a) as [d []].
Qed.

Lemma apply_indexes s u : indexes s (apply_pool_current_state_upsert s u).
Proof.
  unfold apply_pool_current_state_upsert, indexes.
  pose proof (upsert_state_indexed (Indexer.db s) u) as Hd. destruct (upsert_state _ u) as [d [o|]]; [|done].
  by destruct (PoolCurrentStateUpsertOutcome.same_slot_ambiguity o).
Qed.

Lemma insert_indexes s w : indexes s (insert s w).1.
Proof.
  unfold insert, indexes. pose proof (insert_event_indexed (Indexer.db s) w) as Hd.
  by destruct (insert_event _ w).
Qed.

Lemma undecodable_indexes {A} s k o (r : result A MeteoraDammV2FeeParametersRejection) :
  indexes s match o, r with Domain.Inserted, Err reason => fees_undecodable s k reason | _, _ => s end.
Proof. unfold indexes. destruct o, r; by apply indexed_pools. Qed.

(** An insert, and more work when it succeeds. *)
Lemma insert_then_indexes s w (after : Indexer.t -> InsertOutcome -> Indexer.t) :
  (forall s o, indexes s (after s o)) ->
  indexes s match insert s w with
    | (s1, Ok o) => (after s1 o, Ok o) | (s1, Err e) => (s1, Err e)
    end.1.
Proof.
  intros Ha. pose proof (insert_indexes s w) as Hi. destruct (insert s w) as [s1 [o|e]]; [|done].
  etrans; [exact Hi|apply Ha].
Qed.

Lemma persist_event_indexes s w k : indexes s (persist_event s w k).1.
Proof.
  destruct w as [e|e|e|e|e|e|e|e|e|e|e|e|e|e|e|e|e|e|e]; simpl;
    try (etrans; [apply touch_indexes|apply insert_indexes]).
  - etrans; [apply discover_indexes|]. apply insert_then_indexes. intros. apply apply_indexes.
  - etrans; [apply discover_indexes|]. apply insert_then_indexes. intros. apply apply_indexes.
  - etrans; [apply discover_indexes|].
    apply (insert_then_indexes _ _ (fun s o => match o, decode_meteora_damm_v2_pool_fees _ with
      | Domain.Inserted, Err reason => fees_undecodable s k reason | _, _ => s end)).
    intros. apply undecodable_indexes.
  - unfold persist_update_pool_fees. etrans; [apply touch_indexes|].
    pose proof (flag_indexes (touch_pool s (MeteoraDammV2UpdatePoolFeesEvent.pool_address e))
      (MeteoraDammV2UpdatePoolFeesEvent.pool_address e)) as Hf.
    destruct (flag_needs_refresh _ _) as [s0 r0]. etrans; [exact Hf|].
    apply (insert_then_indexes _ _ (fun s o => match o, decode_meteora_damm_v2_pool_fees_update _ with
      | Domain.Inserted, Err reason => fees_undecodable s k reason | _, _ => s end)).
    intros. apply undecodable_indexes.
Qed.

Lemma persist_indexes s event : indexes s (persist s event).
Proof.
  destruct event as [e]. simpl. unfold persist_damm_v2.
  pose proof (persist_event_indexes s e (MeteoraDammV2Event.kind e)) as Hp.
  destruct (persist_event _ _ _) as [s1 [o|]]; [|done]. by destruct (is_skipped o).
Qed.

Lemma foldl_indexes {A} (f : Indexer.t -> A -> Indexer.t) l s :
  (forall s a, indexes s (f s a)) -> indexes s (foldl f s l).
Proof.
  intros Hf. revert s. induction l as [|a l IH]; intros s; simpl; [done|].
  etrans; [apply Hf|apply IH].
Qed.

(** What a transaction does to [pools], whichever it is. *)
Lemma process_transaction_indexes `{Borsh} `{Sha256} `{Base58} s protocol tx :
  indexes s (process_transaction s protocol tx).1.
Proof.
  unfold process_transaction. destruct (extract protocol tx) as [o|]; [|by apply indexed_pools].
  set (s1 := report_diagnostics _ protocol o).
  assert (indexes s s1) as Hreported.
  { subst s1. unfold report_diagnostics.
    etrans; [|apply foldl_indexes; intros; apply record_indexes].
    etrans; [|apply foldl_indexes; intros; apply record_indexes].
    apply record_indexes. }
  destruct (ExtractionOutcome.events o) as [|e es]; [exact Hreported|].
  change (indexes s (foldl persist s1 (e :: es))). etrans; [exact Hreported|].
  apply foldl_indexes, persist_indexes.
Qed.
End Transactions.

(** What the resolver relies on of the rows of [pools] while it works: at most
    the drift of the indexer. *)
Class Rely : Type := {
  rely : relation (option PoolRow.t);
  #[global] rely_preorder :: PreOrder rely;
  rely_drift : forall p p', rely p p' -> row_drift p p';
}.
Class MeanwhileRely `{Meanwhile} `{Rely} : Prop := {
  meanwhile_rely : forall n d a, rely (Db.pools d !! a) (Db.pools (meanwhile n d) !! a);
}.

(** ** What a statement leaves of the pool at an address *)

Section Statements.
Context `{Postgres} `{Meanwhile} `{!Rely} `{!MeanwhileRely}.
Implicit Types s : Tables.t.

(** Nothing but what the indexer does. *)
Definition drift (a : Pubkey) s s' : Prop :=
  rely (Tables.pools s !! a) (Tables.pools s' !! a) /\
  Tables.fee_bps s' !! a = Tables.fee_bps s !! a /\
  Tables.damm_v2 s' !! a = Tables.damm_v2 s !! a /\ Tables.dlmm s' !! a = Tables.dlmm s !! a.

#[global] Instance drift_preorder a : PreOrder (drift a).
Proof.
  split; [done|]. intros s s' s'' (R1 & E1 & E2 & E3) (R2 & F1 & F2 & F3).
  split_and!; [by etrans|congruence..].
Qed.

Lemma others_drift s a : drift a s (others s).
Proof. split_and!; [|done..]. apply meanwhile_rely. Qed.

Lemma before_drift s a : drift a s (Tables.sent (others s)).
Proof. apply others_drift. Qed.

Lemma execute_Ok {A} s (statement : nat -> Tables.t -> RepositoryResult (Tables.t * A)) s' r :
  execute s statement = (s', Ok r) ->
  exists n s1, (forall a, drift a s s1) /\ statement n s1 = Ok (s', r).
Proof.
  unfold execute. destruct (fault _); [done|].
  set (n := Db.statements _). set (s1 := Tables.sent _). intros E. exists n, s1.
  split; [intros a; apply before_drift|]. destruct (statement n s1) as [[s2 r2]|]; by simplify_eq.
Qed.

Lemma execute_Err {A} s (statement : nat -> Tables.t -> RepositoryResult (Tables.t * A)) s' e :
  execute s statement = (s', Err e) -> forall a, drift a s s'.
Proof.
  unfold execute. intros E a. etrans; [apply before_drift|].
  destruct (fault _); [by simplify_eq|]. by destruct (statement _ _) as [[]|]; simplify_eq.
Qed.

Lemma execute_drift {A} s (statement : nat -> Tables.t -> RepositoryResult (Tables.t * A)) s' r a :
  execute s statement = (s', r) ->
  (forall n s1 s2 r, statement n s1 = Ok (s2, r) -> drift a s1 s2) -> drift a s s'.
Proof.
  intros E Hs. destruct r as [r|e]; [|by eapply execute_Err].
  apply execute_Ok in E as (n & s1 & Hd & E). etrans; [apply Hd|by eapply Hs].
Qed.

(** ** The queues *)

Definition unresolved_of (protocol : Protocol) : Tables.t -> Pubkey -> PoolRow.t -> bool :=
  match protocol with
  | MeteoraDammV2 => damm_v2_unresolved
  | MeteoraDlmm => dlmm_unresolved
  end.

(** The satellite of a protocol has the columns its queue tests. *)
Definition complete s (a : Pubkey) (protocol : Protocol) : Prop :=
  match protocol with
  | MeteoraDammV2 => exists row, Tables.damm_v2 s !! a = Some row /\
      is_Some (MeteoraDammV2PoolPropertiesRow.protocol_fee_percent row) /\
      is_Some (MeteoraDammV2PoolPropertiesRow.referral_fee_percent row) /\
      is_Some (MeteoraDammV2PoolPropertiesRow.has_dynamic_fee row)
  | MeteoraDlmm => exists row, Tables.dlmm s !! a = Some row /\
      is_Some (MeteoraDlmmPoolPropertiesRow.bin_step row)
  end.

Lemma is_null_false {A} (o : option A) : is_null o = false <-> is_Some o.
Proof. destruct o; simpl; split; [done|done|done|]. by intros []. Qed.

Lemma unresolved_registry s a p :
  registry_unresolved s a p = true -> unresolved_of (PoolRow.protocol p) s a p = true.
Proof.
  intros Hr. unfold unresolved_of. destruct (PoolRow.protocol p) eqn:Hp.
  - unfold damm_v2_unresolved. by rewrite Hp, Hr.
  - unfold dlmm_unresolved. by rewrite Hp, Hr.
Qed.

Lemma unresolved_protocol s a p protocol :
  unresolved_of protocol s a p = true -> PoolRow.protocol p = protocol.
Proof.
  unfold unresolved_of. destruct protocol; unfold damm_v2_unresolved, dlmm_unresolved; intros Hu;
    apply andb_true_iff in Hu as [Hp _]; by apply bool_decide_eq_true in Hp.
Qed.

Lemma complete_registry s a p :
  complete s a (PoolRow.protocol p) ->
  unresolved_of (PoolRow.protocol p) s a p = registry_unresolved s a p.
Proof.
  intros Hc. destruct (registry_unresolved s a p) eqn:Hr; [by apply unresolved_registry|].
  unfold unresolved_of. destruct (PoolRow.protocol p) eqn:Hp.
  - destruct Hc as (row & Hrow & Hn1 & Hn2 & Hn3). apply is_null_false in Hn1, Hn2, Hn3.
    unfold damm_v2_unresolved. by rewrite Hr, Hrow, Hn1, Hn2, Hn3, andb_false_r.
  - destruct Hc as (row & Hrow & Hn1). apply is_null_false in Hn1.
    unfold dlmm_unresolved. by rewrite Hr, Hrow, Hn1, andb_false_r.
Qed.

(** ** The satellite of an account *)

(** The fee kind the DAMM v2 row of the pool holds. *)
Definition kind_known s (a : Pubkey) : option string :=
  Tables.damm_v2 s !! a ≫= MeteoraDammV2PoolPropertiesRow.base_fee_kind.

(** The satellites of the pool hold the account's properties; an account whose
    fee mode is not mapped leaves [known], the kind known before. *)
Definition satellite_row s (a : Pubkey) (known : option string) (props : PoolAccountProperties.t) : Prop :=
  match props with
  | PoolAccountProperties.MeteoraDammV2 p => Tables.damm_v2 s !! a = Some (damm_v2_row known p)
  | PoolAccountProperties.MeteoraDlmm p => Tables.dlmm s !! a = Some (dlmm_row p)
  end.

(** The kind known once an account has been written. *)
Definition kind_after (known : option string) (props : PoolAccountProperties.t) : option string :=
  match props with
  | PoolAccountProperties.MeteoraDammV2 p =>
      coalesce (BaseFeeKind_as_str <$> MeteoraDammV2PoolAccountProperties.base_fee_kind p) known
  | PoolAccountProperties.MeteoraDlmm _ => known
  end.

Lemma satellite_complete s a known props :
  satellite_row s a known props -> complete s a (PoolAccountProperties.protocol props).
Proof. destruct props as [p|p]; simpl; intros Hk; (eexists; split; [exact Hk|]); simpl; split_and?; by eexists. Qed.

Lemma satellite_drift s s' a known props :
  drift a s s' -> satellite_row s a known props -> satellite_row s' a known props.
Proof. intros (_ & _ & E1 & E2). destruct props; simpl; by rewrite ?E1, ?E2. Qed.

Lemma kind_known_drift s s' a : drift a s s' -> kind_known s' a = kind_known s a.
Proof. intros (_ & _ & E & _). unfold kind_known. by rewrite E. Qed.

Lemma complete_drift s s' a protocol : drift a s s' -> complete s a protocol -> complete s' a protocol.
Proof. intros (_ & _ & E1 & E2). unfold complete. by rewrite E1, E2. Qed.
End Statements.

(** ** What a resolver promises the worker *)

Section Resolvers.
Context `{Postgres} `{Meanwhile} `{!Rely} `{!MeanwhileRely} `{ScanOrder} `{!ScanOrderLaws}.
Implicit Types s : Tables.t.

Definition no_fault : Prop := forall n, fault n = None.

Record resolver_laws (r : PoolAccountResolver.t) : Prop := {
  lists : forall s limit s' l,
    PoolAccountResolver.list_unresolved r s limit = (s', Ok l) ->
    (forall a, drift a s s') /\
    exists n, l = oldest_unresolved (unresolved_of (PoolAccountResolver.protocol r)) n s' limit;
  lists_or_fails : forall s limit s' e,
    PoolAccountResolver.list_unresolved r s limit = (s', Err e) -> forall a, drift a s s';
  lists_unless_fault : forall s limit, no_fault ->
    exists s' l, PoolAccountResolver.list_unresolved r s limit = (s', Ok l);
  writes : forall s a props s' u,
    PoolAccountResolver.set_pool_account r s a props = (s', Ok u) ->
    (forall b, b <> a -> drift b s s') /\
    rely (Tables.pools s !! a) (Tables.pools s' !! a) /\
    Tables.fee_bps s' !! a = Tables.fee_bps s !! a /\
    satellite_row s' a (kind_known s a) props /\ kind_known s' a = kind_after (kind_known s a) props;
  writes_or_fails : forall s a props s' e,
    PoolAccountResolver.set_pool_account r s a props = (s', Err e) -> forall b, drift b s s';
  writes_unless_fault : forall s a props p, no_fault ->
    Tables.pools s !! a = Some p -> PoolRow.protocol p = PoolAccountResolver.protocol r ->
    PoolAccountProperties.protocol props = PoolAccountResolver.protocol r ->
    exists s', PoolAccountResolver.set_pool_account r s a props = (s', Ok ());
}.

Lemma execute_unless_fault {A} s (statement : nat -> Tables.t -> RepositoryResult (Tables.t * A)) :
  no_fault ->
  (forall n s1, (forall a, drift a s s1) -> exists s2 r, statement n s1 = Ok (s2, r)) ->
  exists s' r, execute s statement = (s', Ok r).
Proof.
  intros Hf Hs. unfold execute. rewrite Hf.
  destruct (Hs (Db.statements (Tables.db (others s))) (Tables.sent (others s))) as (s2 & r & ->);
    [intros a; apply before_drift|by do 2 eexists].
Qed.

Lemma executes s (statement : nat -> Tables.t -> RepositoryResult (Tables.t * unit)) :
  no_fault ->
  (forall n s1, (forall a, drift a s s1) -> exists s2 r, statement n s1 = Ok (s2, r)) ->
  exists s', execute s statement = (s', Ok ()).
Proof. intros Hf Hs. destruct (execute_unless_fault s statement Hf Hs) as (s' & [] & E). by exists s'. Qed.

Lemma list_unresolved_Ok unresolved s limit s' l :
  list_unresolved unresolved s limit = (s', Ok l) ->
  (forall a, drift a s s') /\ exists n, l = oldest_unresolved unresolved n s' limit.
Proof. intros (n & s1 & Hd & E)%execute_Ok. injection E as -> <-. split; [done|by exists n]. Qed.

Lemma list_unresolved_unless_fault unresolved s limit :
  no_fault -> exists s' l, list_unresolved unresolved s limit = (s', Ok l).
Proof. intros Hf. apply execute_unless_fault; [done|]. intros. by do 2 eexists. Qed.

Lemma references_drift s s' a p protocol :
  drift a s s' -> Tables.pools s !! a = Some p -> PoolRow.protocol p = protocol ->
  references_pool s' a protocol = true.
Proof.
  intros (Hr%rely_drift & _) Hp Hprot. unfold references_pool. rewrite Hp in Hr.
  destruct (Tables.pools s' !! a); [|done]. destruct Hr as [Hr _]. apply bool_decide_eq_true. congruence.
Qed.

(** A statement that writes one satellite row. *)
Lemma satellite_written_damm_v2 s s1 a known p :
  (forall b, drift b s s1) -> kind_known s1 a = known ->
  let s' := Tables.set_damm_v2 s1 (<[a := damm_v2_row known p]> (Tables.damm_v2 s1)) in
  (forall b, b <> a -> drift b s s') /\ rely (Tables.pools s !! a) (Tables.pools s' !! a) /\
  Tables.fee_bps s' !! a = Tables.fee_bps s !! a /\
  satellite_row s' a (kind_known s a) (PoolAccountProperties.MeteoraDammV2 p) /\
  kind_known s' a = kind_after (kind_known s a) (PoolAccountProperties.MeteoraDammV2 p).
Proof.
  intros Hd Hk s'. rewrite (kind_known_drift _ _ _ (Hd a)) in Hk. subst known. split_and!.
  - intros b Hb. destruct (Hd b) as (Er & Ef & Ev & El). split_and!; [done|done| |done].
    simpl. by rewrite lookup_insert_ne.
  - apply (Hd a).
  - apply (Hd a).
  - simpl. by rewrite lookup_insert_eq.
  - unfold kind_known at 1. simpl. by rewrite lookup_insert_eq.
Qed.

Lemma satellite_written_dlmm s s1 a p :
  (forall b, drift b s s1) ->
  let s' := Tables.set_dlmm s1 (<[a := dlmm_row p]> (Tables.dlmm s1)) in
  (forall b, b <> a -> drift b s s') /\ rely (Tables.pools s !! a) (Tables.pools s' !! a) /\
  Tables.fee_bps s' !! a = Tables.fee_bps s !! a /\
  satellite_row s' a (kind_known s a) (PoolAccountProperties.MeteoraDlmm p) /\
  kind_known s' a = kind_after (kind_known s a) (PoolAccountProperties.MeteoraDlmm p).
Proof.
  intros Hd s'. split_and!.
  - intros b Hb. destruct (Hd b) as (Er & Ef & Ev & El). split_and!; [done|done|done|].
    simpl. by rewrite lookup_insert_ne.
  - apply (Hd a).
  - apply (Hd a).
  - simpl. by rewrite lookup_insert_eq.
  - apply (kind_known_drift _ _ _ (Hd a)).
Qed.

Lemma damm_v2_resolver_laws : resolver_laws damm_v2_resolver.
Proof.
  split; simpl.
  - intros s limit s' l. apply list_unresolved_Ok.
  - intros s limit s' e. apply execute_Err.
  - intros s limit. apply list_unresolved_unless_fault.
  - intros s a [p|p] s' u; simpl; [|done]. intros (n & s1 & Hd & E)%execute_Ok.
    destruct (Tables.damm_v2 s1 !! a) eqn:Hrow; [|destruct (references_pool _ _ _); [|done]];
      injection E as <- _; apply satellite_written_damm_v2; try done; unfold kind_known; by rewrite Hrow.
  - intros s a [p|p] s' e; simpl; [apply execute_Err|]. by intros [= <-] b.
  - intros s a [props|props] p Hf Hp Hprot; simpl; [|done]. intros _.
    apply executes; [done|]. intros n s1 Hd. cbv beta. rewrite (references_drift s s1 a p) by done.
    destruct (Tables.damm_v2 s1 !! a); by do 2 eexists.
Qed.

Lemma dlmm_resolver_laws : resolver_laws dlmm_resolver.
Proof.
  split; simpl.
  - intros s limit s' l. apply list_unresolved_Ok.
  - intros s limit s' e. apply execute_Err.
  - intros s limit. apply list_unresolved_unless_fault.
  - intros s a [p|p] s' u; simpl; [done|]. intros (n & s1 & Hd & E)%execute_Ok.
    destruct (Tables.dlmm s1 !! a); [|destruct (references_pool _ _ _); [|done]];
      injection E as <- _; by apply satellite_written_dlmm.
  - intros s a [p|p] s' e; simpl; [|apply execute_Err]. by intros [= <-] b.
  - intros s a [props|props] p Hf Hp Hprot; simpl; [done|]. intros _.
    apply executes; [done|]. intros n s1 Hd. cbv beta. rewrite (references_drift s s1 a p) by done.
    destruct (Tables.dlmm s1 !! a); by do 2 eexists.
Qed.

Lemma pool_account_resolvers_laws : Forall resolver_laws pool_account_resolvers.
Proof.
  constructor; [apply damm_v2_resolver_laws|]. constructor; [apply dlmm_resolver_laws|constructor].
Qed.
End Resolvers.

(** ** The source *)

Lemma zip_fst_sublist {A B} (l : list A) (k : list B) : map fst (zip l k) `sublist_of` l.
Proof.
  revert k. induction l as [|a l IH]; intros [|b k]; simpl; [done|apply sublist_nil_l|
    apply sublist_nil_l|]. by apply sublist_skip.
Qed.

Lemma zip_elem {A B} (l : list A) (k : list B) a b :
  (a, b) ∈ zip l k -> exists i, l !! i = Some a /\ k !! i = Some b.
Proof.
  intros (i & Hi)%list_elem_of_lookup. exists i.
  by apply lookup_zip_with_Some in Hi as (x & y & [= <- <-] & Hx & Hy).
Qed.

Section Source.
Context {D : Type} `{DecimalOps D} `{Base58} `{Base64Standard} `{AccountNode}.

(** The entry of a reply at the key of the account's pool. *)
Definition handed_over (account : RawAccount.t) : Prop :=
  exists n keys value i found,
    get_multiple_accounts n keys = Reply value /\
    keys !! i = Some (pubkey_to_string (RawAccount.pool_address account)) /\
    value !! i = Some (Some found) /\
    pubkey_of_string (RpcAccount.owner found) = Some (RawAccount.program_id account) /\
    base64_standard_decode (RpcAccount.data found).1 = Some (RawAccount.data account).

(** The node answered the key of [a] with the account [acc] is decoded from. *)
Definition answered (a : Pubkey) (acc : DecodedPoolAccount.t D) : Prop :=
  exists account, handed_over account /\ RawAccount.pool_address account = a /\
    decode_pool_account (D := D) (RawAccount.program_id account) (RawAccount.data account) = Done (Ok acc).

Lemma handed_over_bytes `{!Base64StandardLaws} account :
  handed_over account -> Forall (is_uint 8) (RawAccount.data account).
Proof. intros (n & keys & value & i & found & _ & _ & _ & _ & Hd). by apply base64_standard_bytes in Hd. Qed.

Lemma raw_account_Some entry account :
  raw_account entry = Some account ->
  RawAccount.pool_address account = entry.1 /\
  exists found, entry.2 = Some found /\
    pubkey_of_string (RpcAccount.owner found) = Some (RawAccount.program_id account) /\
    base64_standard_decode (RpcAccount.data found).1 = Some (RawAccount.data account).
Proof. destruct entry as [a found]. unfold raw_account. intros E. inv_binds. by simplify_eq; eauto. Qed.

Lemma raw_accounts_sublist entries :
  map RawAccount.pool_address (omap raw_account entries) `sublist_of` map fst entries.
Proof.
  induction entries as [|entry entries IH]; simpl; [done|].
  destruct (raw_account entry) as [account|] eqn:E; simpl; [|by apply sublist_cons].
  apply raw_account_Some in E as [-> _]. by apply sublist_skip.
Qed.

Lemma fetch_chunk_spec n asked accounts :
  fetch_chunk_inner n asked = Ok accounts ->
  map RawAccount.pool_address accounts `sublist_of` asked /\ Forall handed_over accounts.
Proof.
  unfold fetch_chunk_inner. destruct (get_multiple_accounts _ _) as [| |value] eqn:E; [done|done|].
  intros [= <-]. split.
  - etrans; [apply raw_accounts_sublist|apply zip_fst_sublist].
  - apply Forall_forall. intros account (entry & Hin & Hraw)%list_elem_of_omap.
    apply raw_account_Some in Hraw as (Ha & found & Hf & Ho & Hd). destruct entry as [a o].
    simpl in Ha, Hf. subst. apply zip_elem in Hin as (i & Hi & Hv).
    do 5 eexists. split_and!; [exact E| |exact Hv|exact Ho|exact Hd].
    by rewrite list_lookup_fmap, Hi.
Qed.

Lemma fetch_all_spec n todo accounts :
  fetch_all n todo = Ok accounts ->
  map RawAccount.pool_address accounts `sublist_of` concat todo /\ Forall handed_over accounts.
Proof.
  revert accounts. induction todo as [|chunk todo IH]; intros accounts E; simpl in E.
  { injection E as <-. by repeat constructor. }
  inv_binds. apply fetch_chunk_spec in Hx as [Hs Hf]. destruct (IH _ Hx0) as [Hs' Hf'].
  split; [|by apply Forall_app]. rewrite map_app. by apply sublist_app.
Qed.

Lemma fetch_accounts_spec n asked accounts :
  fetch_accounts n asked = Ok accounts ->
  map RawAccount.pool_address accounts `sublist_of` asked /\ Forall handed_over accounts.
Proof.
  intros Hf%fetch_all_spec.
  by rewrite chunks_concat in Hf by (unfold ACCOUNTS_BATCH_MAX; lia).
Qed.
End Source.

(** ** A pool out of the queue shows one account *)

Section Worker.
Context `{Postgres} `{Meanwhile} `{!Rely} `{!MeanwhileRely} `{ScanOrder} `{!ScanOrderLaws}.
Context {D : Type} `{DecimalLaws D} `{Base58} `{Base64Standard} `{AccountNode}.
Implicit Types (s : Tables.t) (acc : DecodedPoolAccount.t D).

Definition registry_of s (a : Pubkey) (p : PoolRow.t) acc : Prop :=
  let core := DecodedPoolAccount.registry acc in
  PoolRow.token_a_mint p = Some (PoolRegistryProperties.token_a_mint core) /\
  PoolRow.token_b_mint p = Some (PoolRegistryProperties.token_b_mint core) /\
  Tables.fee_bps s !! a = Some (dec_val (PoolRegistryProperties.fee_bps core)).

(** [k] is the fee kind of an account answered for the pool. *)
Definition kind_answered (a : Pubkey) (k : string) : Prop :=
  exists acc p, answered a acc /\ DecodedPoolAccount.properties acc = PoolAccountProperties.MeteoraDammV2 p /\
    BaseFeeKind_as_str <$> MeteoraDammV2PoolAccountProperties.base_fee_kind p = Some k.

(** Registry and satellite are those of one answered account [acc]. The fee kind
    of the satellite is [acc]'s when its mode is mapped; when not, it is [known],
    of another account answered for the pool, or none. *)
Definition shows_an_account s (a : Pubkey) (p : PoolRow.t) : Prop :=
  exists acc known, answered a acc /\ DecodedPoolAccount.protocol acc = PoolRow.protocol p /\
    registry_of s a p acc /\ satellite_row s a known (DecodedPoolAccount.properties acc) /\
    (forall k, known = Some k -> kind_answered a k).

Definition sound_at s (a : Pubkey) : Prop :=
  (forall k, kind_known s a = Some k -> kind_answered a k) /\
  match Tables.pools s !! a with
  | None => Tables.fee_bps s !! a = None
  | Some p =>
      (is_Some (Tables.fee_bps s !! a) -> complete s a (PoolRow.protocol p)) /\
      (registry_unresolved s a p = false -> shows_an_account s a p)
  end.

Definition sound s : Prop := forall a, sound_at s a.

(** The queue of its protocol still has the pool, by what [pools] says. *)
Definition pending (protocol : Protocol) s (a : Pubkey) : Prop :=
  exists p, Tables.pools s !! a = Some p /\ PoolRow.protocol p = protocol /\
    registry_unresolved s a p = true.

Lemma registry_unresolved_drift s s' a p p' :
  drift a s s' -> Tables.pools s !! a = Some p -> Tables.pools s' !! a = Some p' ->
  registry_unresolved s a p = true -> registry_unresolved s' a p' = true.
Proof.
  intros (Hr%rely_drift & Ef & _) Hp Hp'. rewrite Hp, Hp' in Hr. destruct Hr as (_ & E1 & E2 & _ & Hfl).
  unfold registry_unresolved. rewrite Ef, E1, E2.
  destruct (PoolRow.needs_refresh p); [by rewrite (Hfl eq_refl)|].
  intros Hn. apply orb_true_iff in Hn as [Hn|Hn]; [|by rewrite Hn, orb_true_r].
  apply orb_true_iff in Hn as [Hn|Hn]; [|by rewrite Hn, orb_true_r].
  simpl in Hn. by rewrite Hn, orb_true_r.
Qed.

Lemma row_drift_Some s s' a p :
  drift a s s' -> Tables.pools s !! a = Some p ->
  exists p', Tables.pools s' !! a = Some p' /\ PoolRow.protocol p' = PoolRow.protocol p.
Proof.
  intros (Hr%rely_drift & _) Hp. rewrite Hp in Hr. destruct (Tables.pools s' !! a) as [p'|]; [|done].
  exists p'. split; [done|]. apply Hr.
Qed.

Lemma pending_drift protocol s s' a : drift a s s' -> pending protocol s a -> pending protocol s' a.
Proof.
  intros Hd (p & Hp & Hprot & Hu). destruct (row_drift_Some _ _ _ _ Hd Hp) as (p' & Hp' & Hprot').
  exists p'. split_and!; [done|congruence|]. by eapply registry_unresolved_drift.
Qed.

Lemma sound_drift s s' a : drift a s s' -> sound_at s a -> sound_at s' a.
Proof.
  intros Hd. pose proof Hd as (Hr%rely_drift & Ef & _). unfold sound_at.
  rewrite (kind_known_drift _ _ _ Hd). intros [Hkind Hsa]. split; [exact Hkind|]. revert Hsa. clear Hkind.
  destruct (Tables.pools s !! a) as [p|] eqn:Hp.
  - intros [Hc Hs]. destruct (row_drift_Some _ _ _ _ Hd Hp) as (p' & Hp' & Hprot). rewrite Hp'. split.
    + rewrite Ef, Hprot. intros Hfee. by eapply complete_drift; [|apply Hc].
    + intros Hu. destruct Hs as (acc & known & Ha & Hpa & (M1 & M2 & M3) & Hsat & Hkind).
      { apply not_true_is_false. intros Ht. by rewrite (registry_unresolved_drift _ _ _ _ _ Hd Hp Hp' Ht) in Hu. }
      rewrite Hp' in Hr. destruct Hr as (_ & E1 & E2 & _).
      exists acc, known. split_and!; [done|congruence| |by eapply satellite_drift|done].
      by split_and!; rewrite ?E1, ?E2, ?Ef.
  - intros Hfee. destruct (Tables.pools s' !! a) as [p'|]; [|by rewrite Ef].
    rewrite Ef, Hfee. split; [by intros []|]. unfold registry_unresolved. rewrite Ef, Hfee. simpl.
    by rewrite orb_true_r.
Qed.

Lemma sound_drifts s s' : (forall a, drift a s s') -> sound s -> sound s'.
Proof. intros Hd Hs a. eapply sound_drift; [apply Hd|apply Hs]. Qed.

Lemma sound_empty : sound Tables.empty.
Proof. intros a. unfold sound_at, kind_known, Tables.pools. simpl. by rewrite !lookup_empty. Qed.

(** What a queue lists is pending. *)
Lemma unresolved_pending protocol s a p :
  sound s -> Tables.pools s !! a = Some p -> unresolved_of protocol s a p = true -> pending protocol s a.
Proof.
  intros Hs Hp Hu. pose proof (unresolved_protocol _ _ _ _ Hu) as Hprot. exists p. split_and!; [done..|].
  specialize (Hs a). unfold sound_at in Hs. rewrite Hp in Hs. destruct Hs as (_ & Hc & _).
  destruct (Tables.fee_bps s !! a) eqn:Hfee.
  - subst protocol. rewrite complete_registry in Hu; [done|]. apply Hc. by eexists.
  - unfold registry_unresolved. rewrite Hfee. apply orb_true_r.
Qed.

(** The queue before its LIMIT. *)
Definition queue (unresolved : Tables.t -> Pubkey -> PoolRow.t -> bool) (n : nat) s : list Pubkey :=
  map fst (sort_by_key (fun r => PoolRow.first_seen_at r.2)
    (scanned n (List.filter (fun r => unresolved s r.1 r.2) (map_to_list (Tables.pools s))))).

Lemma queue_perm unresolved n s :
  queue unresolved n s ≡ₚ
    map fst (List.filter (fun r => unresolved s r.1 r.2) (map_to_list (Tables.pools s))).
Proof. unfold queue. by rewrite sort_perm, scanned_perm. Qed.

Lemma queue_NoDup unresolved n s : NoDup (queue unresolved n s).
Proof.
  rewrite queue_perm. eapply sublist_NoDup; [apply (NoDup_fst_map_to_list (Tables.pools s))|
    apply map_sublist, filter_sublist].
Qed.

Lemma queue_elem unresolved n s a :
  a ∈ queue unresolved n s <-> exists p, Tables.pools s !! a = Some p /\ unresolved s a p = true.
Proof.
  rewrite queue_perm, list_elem_of_fmap. split.
  - intros ([b p] & -> & Hin%list_elem_of_In). apply filter_In in Hin as [Hin Hu]. exists p.
    split; [|done]. by apply elem_of_map_to_list, list_elem_of_In.
  - intros (p & Hp & Hu). exists (a, p). split; [done|]. apply list_elem_of_In, filter_In.
    split; [|done]. by apply list_elem_of_In, elem_of_map_to_list.
Qed.

Lemma oldest_is_prefix unresolved n s limit :
  oldest_unresolved unresolved n s limit = take (Z.to_nat limit) (queue unresolved n s).
Proof. done. Qed.

Lemma oldest_unresolved_elem unresolved n s limit a :
  a ∈ oldest_unresolved unresolved n s limit ->
  exists p, Tables.pools s !! a = Some p /\ unresolved s a p = true.
Proof.
  intros Ha. apply (queue_elem unresolved n). eapply elem_of_sublist; [exact Ha|apply sublist_take].
Qed.

Lemma oldest_unresolved_NoDup unresolved n s limit : NoDup (oldest_unresolved unresolved n s limit).
Proof. eapply sublist_NoDup; [apply queue_NoDup|apply sublist_take]. Qed.

(** *** One account *)

Lemma set_registry_written s a core s' u :
  set_registry_properties (D := D) s a core = (s', Ok u) ->
  (forall b, b <> a -> drift b s s') /\
  (forall p, Tables.pools s !! a = Some p ->
    exists p', Tables.pools s' !! a = Some p' /\ PoolRow.protocol p' = PoolRow.protocol p /\
      PoolRow.token_a_mint p' = Some (PoolRegistryProperties.token_a_mint core) /\
      PoolRow.token_b_mint p' = Some (PoolRegistryProperties.token_b_mint core) /\
      PoolRow.needs_refresh p' = false /\
      Tables.fee_bps s' !! a = Some (dec_val (PoolRegistryProperties.fee_bps core))) /\
  Tables.damm_v2 s' !! a = Tables.damm_v2 s !! a /\ Tables.dlmm s' !! a = Tables.dlmm s !! a.
Proof.
  intros (n & s1 & Hd & E)%execute_Ok. pose proof (Hd a) as (Hr%rely_drift & Ef & Ev & El).
  destruct (Tables.pools s1 !! a) as [p1|] eqn:Hp1; injection E as <- _.
  - split_and!; [|intros p Hp|done..].
    + intros b Hb. destruct (Hd b) as (Rb & Fb & Vb & Lb).
      unfold drift, Tables.pools in *. simpl. by rewrite !lookup_insert_ne.
    + rewrite Hp in Hr. destruct Hr as [Hprot _]. eexists. unfold Tables.pools. simpl.
      rewrite !lookup_insert_eq. by split_and!.
  - split_and!; [by intros|intros p Hp|done..]. by rewrite Hp in Hr.
Qed.

Lemma set_registry_fails s a core s' e :
  set_registry_properties (D := D) s a core = (s', Err e) -> forall b, drift b s s'.
Proof. apply execute_Err. Qed.

Lemma set_registry_unless_fault s a core :
  no_fault -> exists s', set_registry_properties (D := D) s a core = (s', Ok ()).
Proof.
  intros Hf. apply executes; [done|]. intros n s1 _. cbv beta.
  destruct (Tables.pools s1 !! a); by do 2 eexists.
Qed.

Lemma kind_after_answered s a acc :
  answered a acc -> (forall k, kind_known s a = Some k -> kind_answered a k) ->
  forall k, kind_after (kind_known s a) (DecodedPoolAccount.properties acc) = Some k -> kind_answered a k.
Proof.
  intros Hans Hkind k. destruct (DecodedPoolAccount.properties acc) as [p|p] eqn:Hp; simpl; [|apply Hkind].
  destruct (MeteoraDammV2PoolAccountProperties.base_fee_kind p) eqn:Hk; simpl; [|apply Hkind].
  intros [= <-]. exists acc, p. split_and!; [done..|]. by rewrite Hk.
Qed.

(** The satellite of a pending pool can be written: it stays pending. *)
Lemma sound_satellite s s' a protocol props :
  sound_at s a -> pending protocol s a -> PoolAccountProperties.protocol props = protocol ->
  rely (Tables.pools s !! a) (Tables.pools s' !! a) ->
  Tables.fee_bps s' !! a = Tables.fee_bps s !! a -> satellite_row s' a (kind_known s a) props ->
  (forall k, kind_known s' a = Some k -> kind_answered a k) ->
  sound_at s' a /\ exists p', Tables.pools s' !! a = Some p' /\ PoolRow.protocol p' = protocol.
Proof.
  intros Hs (p & Hp & Hprot & Hu) Hprops Hr Ef Hsat Hkind.
  (* the other satellites aside, the pool has only drifted *)
  assert (exists p', Tables.pools s' !! a = Some p' /\ PoolRow.protocol p' = protocol /\
    registry_unresolved s' a p' = true) as (p' & Hp' & Hprot' & Hu').
  { set (s1 := Tables.mk (Tables.db s') (Tables.fee_bps s') (Tables.damm_v2 s) (Tables.dlmm s)).
    assert (drift a s s1) as Hd by by split_and!.
    destruct (pending_drift protocol s s1 a Hd) as (p' & Hp' & Hprot' & Hu'); [by exists p|].
    by exists p'. }
  split; [|by exists p']. unfold sound_at. rewrite Hp', Hu'. split_and!; [exact Hkind| |done].
  intros _. rewrite Hprot', <-Hprops. by eapply satellite_complete.
Qed.

Lemma resolve_account_sound r s account s' o :
  resolver_laws r -> handed_over account -> sound s ->
  pending (PoolAccountResolver.protocol r) s (RawAccount.pool_address account) ->
  resolve_account (D := D) r s account = Done (s', o) ->
  sound s' /\ forall b, b <> RawAccount.pool_address account -> drift b s s'.
Proof.
  intros Hr Hf Hs Hpend E. unfold resolve_account in E. set (a := RawAccount.pool_address account) in *.
  apply exec_bind_Done in E as ([acc|rejection] & Hdec & E); [|by injection E as <- _].
  destruct (bool_decide (DecodedPoolAccount.protocol acc = _)) eqn:Hprot; simpl in E; [|by injection E as <- _].
  apply bool_decide_eq_true in Hprot. assert (answered a acc) as Hans by by exists account.
  destruct (PoolAccountResolver.set_pool_account r s a _) as [s1 [u|e]] eqn:Hw.
  2:{ injection E as <- _. pose proof (writes_or_fails r Hr _ _ _ _ _ Hw) as Hd.
      split; [by eapply sound_drifts|by intros]. }
  apply (writes r Hr) in Hw as (Hother & Hrow & Hfee & Hsat & Hkind).
  assert (forall k, kind_known s1 a = Some k -> kind_answered a k) as Hk1.
  { rewrite Hkind. apply kind_after_answered; [done|apply Hs]. }
  destruct (sound_satellite s s1 a _ _ (Hs a) Hpend Hprot Hrow Hfee Hsat Hk1) as (Hs1 & p1 & Hp1 & Hprot1).
  assert (sound s1) as Hsound1.
  { intros b. destruct (decide (b = a)) as [->|Hb]; [done|]. eapply sound_drift; [by apply Hother|apply Hs]. }
  destruct (set_registry_properties s1 a _) as [s2 [u2|e]] eqn:Hreg; injection E as <- _.
  2:{ pose proof (set_registry_fails _ _ _ _ _ Hreg) as Hd. split; [by eapply sound_drifts|].
      intros b Hb. etrans; [by apply Hother|apply Hd]. }
  apply set_registry_written in Hreg as (Hother2 & Hwritten & Hv & Hl).
  split; [|intros b Hb; etrans; [by apply Hother|by apply Hother2]].
  intros b. destruct (decide (b = a)) as [->|Hb]; [|eapply sound_drift; [by apply Hother2|apply Hsound1]].
  destruct (Hwritten p1 Hp1) as (p2 & Hp2 & Hprot2 & M1 & M2 & M3 & M4).
  assert (satellite_row s2 a (kind_known s a) (DecodedPoolAccount.properties acc)) as Hsat2.
  { destruct (DecodedPoolAccount.properties acc); simpl in *; by rewrite ?Hv, ?Hl. }
  unfold sound_at. rewrite Hp2. split_and!.
  - unfold kind_known. by rewrite Hv.
  - intros _. rewrite Hprot2, Hprot1, <-Hprot. by eapply satellite_complete.
  - intros _. exists acc, (kind_known s a). split_and!; [exact Hans|congruence|by split_and!|done|apply Hs].
Qed.

(** *** A pass, a cycle, a run *)

Lemma resolve_accounts_sound r s accounts s' o :
  resolver_laws r -> Forall handed_over accounts ->
  NoDup (map RawAccount.pool_address accounts) -> sound s ->
  (forall a, a ∈ map RawAccount.pool_address accounts -> pending (PoolAccountResolver.protocol r) s a) ->
  resolve_accounts (D := D) r s accounts = Done (s', o) -> sound s'.
Proof.
  intros Hr Hf. revert s o. induction Hf as [|account accounts Hfa _ IH]; intros s o Hnd Hs Hp E; simpl in E.
  { by injection E as <- _. }
  inv_binds. destruct x as [s1 o1]. inv_binds. destruct x as [s2 o2]. injection E as <- _.
  apply NoDup_cons in Hnd as [Hnin Hnd].
  apply (resolve_account_sound r) in Hx as [Hs1 Hd]; [|done|done|done|apply Hp; left].
  eapply IH; [done|exact Hs1| |exact Hx0]. intros a Ha. eapply pending_drift; [apply Hd|apply Hp; by right].
  intros ->. done.
Qed.

Lemma run_one_protocol_sound r s s' o :
  resolver_laws r -> sound s -> run_one_protocol (D := D) s r = Done (s', o) -> sound s'.
Proof.
  intros Hr Hs. unfold run_one_protocol.
  destruct (PoolAccountResolver.list_unresolved r s _) as [s1 [l|e]] eqn:Hl.
  2:{ intros [= <- _]. eapply sound_drifts; [by eapply lists_or_fails|done]. }
  apply (lists r Hr) in Hl as (Hd & n & ->). pose proof (sound_drifts _ _ Hd Hs) as Hs1.
  set (l := oldest_unresolved _ n s1 _). intros E.
  assert (match fetch_accounts (Db.statements (Tables.db s1)) l with
    | Err e => Done (s1, SourceRefused e)
    | Ok accounts => let* (s, outcomes) := resolve_accounts (D := D) r s1 accounts in Done (s, Resolved outcomes)
    end = Done (s', o) \/ Done (s1, NothingUnresolved) = Done (s', o)) as [E'|E']
    by (destruct l; [by right|by left]).
  2:{ by injection E' as <- _. }
  clear E. destruct (fetch_accounts _ l) as [accounts|e] eqn:Hf; [|by injection E' as <- _].
  inv_binds. destruct x as [s2 o2]. injection E' as <- _.
  apply fetch_accounts_spec in Hf as [Hsub Hf].
  eapply (resolve_accounts_sound r); [done|exact Hf| |exact Hs1| |exact Hx].
  - eapply sublist_NoDup; [apply oldest_unresolved_NoDup|exact Hsub].
  - intros a Ha. eapply elem_of_sublist in Ha; [|exact Hsub].
    apply oldest_unresolved_elem in Ha as (p & Hp & Hu). by eapply unresolved_pending.
Qed.

Lemma run_one_cycle_sound resolvers s s' o :
  Forall resolver_laws resolvers -> sound s ->
  run_one_cycle (D := D) resolvers s = Done (s', o) -> sound s'.
Proof.
  intros Hr. revert s o. induction Hr as [|r resolvers Hr _ IH]; intros s o Hs E; simpl in E.
  { by injection E as <- _. }
  inv_binds. destruct x as [s1 o1]. inv_binds. destruct x as [s2 o2]. injection E as <- _.
  eapply IH; [|exact Hx0]. by eapply run_one_protocol_sound.
Qed.

Lemma run_sound s wakes s' cycles stopped :
  sound s -> run (D := D) s wakes = Done (s', cycles, stopped) -> sound s'.
Proof.
  revert s cycles stopped. induction wakes as [|[|] wakes IH]; intros s cycles stopped Hs E; cbn [run] in E.
  - by injection E as <- _ _.
  - inv_binds. destruct x as [s1 c1]. inv_binds. destruct x as [[s2 c2] st2]. injection E as <- _ _.
    eapply IH; [|exact Hx0]. eapply run_one_cycle_sound; [apply pool_account_resolvers_laws|exact Hs|exact Hx].
  - by injection E as <- _ _.
Qed.

(** *** Nothing panics *)

Lemma resolve_accounts_done `{!Base64StandardLaws} r s accounts :
  Forall handed_over accounts -> exists s' o, resolve_accounts (D := D) r s accounts = Done (s', o).
Proof.
  intros Hf. revert s. induction Hf as [|account accounts Ha _ IH]; intros s; simpl; [by do 2 eexists|].
  assert (exists s1 o1, resolve_account (D := D) r s account = Done (s1, o1)) as (s1 & o1 & ->).
  { unfold resolve_account.
    destruct (decode_pool_account_done (D := D) (RawAccount.program_id account) (RawAccount.data account))
      as ([acc|] & ->); [by apply handed_over_bytes| |by do 2 eexists]. cbn [exec_bind].
    destruct (negb _); [by do 2 eexists|].
    destruct (PoolAccountResolver.set_pool_account _ _ _ _) as [s1 []]; [|by do 2 eexists].
    destruct (set_registry_properties _ _ _) as [s2 []]; by do 2 eexists. }
  cbn [exec_bind]. destruct (IH s1) as (s2 & o2 & ->). by do 2 eexists.
Qed.

Lemma run_one_protocol_done `{!Base64StandardLaws} r s :
  exists s' o, run_one_protocol (D := D) s r = Done (s', o).
Proof.
  unfold run_one_protocol. destruct (PoolAccountResolver.list_unresolved r s _) as [s1 [[|a l]|e]];
    [by do 2 eexists| |by do 2 eexists].
  destruct (fetch_accounts _ _) as [accounts|e] eqn:Hf; [|by do 2 eexists].
  apply fetch_accounts_spec in Hf as [_ Hf].
  destruct (resolve_accounts_done r s1 accounts Hf) as (s2 & o & ->). by do 2 eexists.
Qed.

Lemma run_one_cycle_done `{!Base64StandardLaws} resolvers s :
  exists s' o, run_one_cycle (D := D) resolvers s = Done (s', o).
Proof.
  revert s. induction resolvers as [|r resolvers IH]; intros s; simpl; [by do 2 eexists|].
  destruct (run_one_protocol_done r s) as (s1 & o1 & ->). cbn [exec_bind].
  destruct (IH s1) as (s2 & o2 & ->). by do 2 eexists.
Qed.

Lemma run_done `{!Base64StandardLaws} s wakes :
  exists s' cycles stopped, run (D := D) s wakes = Done (s', cycles, stopped).
Proof.
  revert s. induction wakes as [|[|] wakes IH]; intros s; cbn [run]; [by do 3 eexists| |by do 3 eexists].
  destruct (run_one_cycle_done pool_account_resolvers s) as (s1 & c1 & ->). cbn [exec_bind].
  destruct (IH s1) as (s2 & c2 & st & ->). by do 3 eexists.
Qed.

(** *** What is served is written *)

Definition resolved s (a : Pubkey) : Prop :=
  exists p, Tables.pools s !! a = Some p /\ unresolved_of (PoolRow.protocol p) s a p = false.

(** The account decodes under the protocol. *)
Definition readable (protocol : Protocol) (account : RawAccount.t) : Prop :=
  exists acc, decode_pool_account (D := D) (RawAccount.program_id account) (RawAccount.data account) =
    Done (Ok acc) /\ DecodedPoolAccount.protocol acc = protocol.

Lemma resolve_account_written r s account p :
  resolver_laws r -> no_fault -> readable (PoolAccountResolver.protocol r) account ->
  Tables.pools s !! RawAccount.pool_address account = Some p ->
  PoolRow.protocol p = PoolAccountResolver.protocol r ->
  exists s', resolve_account (D := D) r s account = Done (s', Written) /\
    resolved s' (RawAccount.pool_address account) /\
    (exists p' acc, Tables.pools s' !! RawAccount.pool_address account = Some p' /\
      PoolRow.protocol p' = PoolRow.protocol p /\
      decode_pool_account (RawAccount.program_id account) (RawAccount.data account) = Done (Ok acc) /\
      DecodedPoolAccount.protocol acc = PoolRow.protocol p /\
      registry_of s' (RawAccount.pool_address account) p' acc /\
      satellite_row s' (RawAccount.pool_address account) (kind_known s (RawAccount.pool_address account))
        (DecodedPoolAccount.properties acc)) /\
    forall b, b <> RawAccount.pool_address account -> drift b s s'.
Proof.
  intros Hr Hf (acc & Hdec & Hacc) Hp Hprot. set (a := RawAccount.pool_address account) in *.
  unfold resolve_account. rewrite Hdec. cbn [exec_bind]. fold a.
  rewrite bool_decide_eq_true_2 by done. cbn [negb].
  destruct (writes_unless_fault r Hr s a (DecodedPoolAccount.properties acc) p) as [s1 Hw]; [done..|].
  rewrite Hw. apply (writes r Hr) in Hw as (Hother & Hrow%rely_drift & _ & Hsat & _).
  rewrite Hp in Hrow. destruct (Tables.pools s1 !! a) as [p1|] eqn:Hp1; [|done]. destruct Hrow as [Hprot1 _].
  destruct (set_registry_unless_fault s1 a (DecodedPoolAccount.registry acc) Hf) as [s2 Hreg].
  rewrite Hreg. apply set_registry_written in Hreg as (Hother2 & Hwritten & Hv & Hl).
  destruct (Hwritten p1 Hp1) as (p2 & Hp2 & Hprot2 & M1 & M2 & M3 & M4).
  assert (satellite_row s2 a (kind_known s a) (DecodedPoolAccount.properties acc)) as Hsat2.
  { destruct (DecodedPoolAccount.properties acc); simpl in *; by rewrite ?Hv, ?Hl. }
  exists s2. split; [done|]. split_and!.
  - exists p2. split; [done|]. rewrite complete_registry.
    + unfold registry_unresolved. by rewrite M1, M2, M3, M4.
    + rewrite Hprot2, Hprot1, Hprot, <-Hacc. by eapply satellite_complete.
  - exists p2, acc. split; [done|]. split; [congruence|]. split; [done|]. split; [congruence|].
    split; [by split_and!|exact Hsat2].
  - intros b Hb. etrans; [by apply Hother|by apply Hother2].
Qed.
End Worker.

(** ** The DAMM v2 satellite is read back *)

(** What the decoder gives of a curve. *)
Definition scheduler_wf (p : MeteoraDammV2PoolAccountProperties.t) : Prop :=
  match MeteoraDammV2PoolAccountProperties.fee_scheduler p with
  | None => True
  | Some q => FeeSchedulerParams_wf q /\ is_uint 8 (activation_type q) /\
      MeteoraDammV2PoolAccountProperties.base_fee_kind p = Some (Amm.DammV2.kind q) /\
      (Amm.DammV2.kind q = SchedulerLinear \/ Amm.DammV2.kind q = SchedulerExponential)
  end.

(** The four [u64] of the curve fit a [BIGINT]. *)
Definition fits_bigint (q : FeeSchedulerParams) : bool :=
  forallb (in_int 64) [cliff_fee_numerator q; period_frequency q; reduction_factor q; activation_point q].

Lemma convert_fits v field : result_ok (convert_u64_to_i64 v field) = try_int 64 v.
Proof. unfold convert_u64_to_i64. by destruct (try_int 64 v). Qed.

Lemma scheduler_columns_spec q :
  scheduler_columns (Some q) =
    if fits_bigint q then Some (cliff_fee_numerator q, number_of_period q, period_frequency q,
      reduction_factor q, activation_point q, activation_type q)
    else None.
Proof.
  unfold scheduler_columns, fits_bigint. cbn [opt_bind forallb]. rewrite !convert_fits. unfold try_int.
  by destruct (in_int 64 (cliff_fee_numerator q)), (in_int 64 (period_frequency q)),
    (in_int 64 (reduction_factor q)), (in_int 64 (activation_point q)).
Qed.

Lemma scheduler_reads_back q protocol_fee referral_fee dynamic :
  FeeSchedulerParams_wf q -> is_uint 8 (activation_type q) ->
  Amm.DammV2.kind q = SchedulerLinear \/ Amm.DammV2.kind q = SchedulerExponential ->
  scheduler_from (MeteoraDammV2PoolPropertiesRow.mk protocol_fee referral_fee
    (Some (BaseFeeKind_as_str (Amm.DammV2.kind q))) dynamic (Some (cliff_fee_numerator q))
    (Some (number_of_period q)) (Some (period_frequency q)) (Some (reduction_factor q))
    (Some (activation_point q)) (Some (activation_type q))) = Some q.
Proof.
  intros [W1 W2 W3 W4 W5] W6 Hk. unfold scheduler_from.
  cbn [opt_bind MeteoraDammV2PoolPropertiesRow.base_fee_kind MeteoraDammV2PoolPropertiesRow.cliff_fee_numerator
    MeteoraDammV2PoolPropertiesRow.number_of_period MeteoraDammV2PoolPropertiesRow.period_frequency
    MeteoraDammV2PoolPropertiesRow.reduction_factor MeteoraDammV2PoolPropertiesRow.activation_point
    MeteoraDammV2PoolPropertiesRow.activation_type].
  rewrite !try_uint_in by done. destruct q as [cliff number frequency reduction point type k].
  simpl in Hk |- *. by destruct Hk as [->| ->].
Qed.

Lemma no_columns_no_scheduler protocol_fee referral_fee kind dynamic :
  scheduler_from (MeteoraDammV2PoolPropertiesRow.mk protocol_fee referral_fee kind dynamic
    None None None None None None) = None.
Proof.
  unfold scheduler_from. destruct kind as [k|]; [|done]. cbn [opt_bind MeteoraDammV2PoolPropertiesRow.base_fee_kind].
  by destruct (List.find _ _).
Qed.

(** The row an account leaves reads back as its properties: the percents, the
    dynamic fee and the curve (unless it does not fit, and then none of it); an
    unmapped fee mode keeps the kind known before. *)
Theorem satellite_reads_back (address : Pubkey) (known : option string)
    (p : MeteoraDammV2PoolAccountProperties.t) :
  is_uint 8 (MeteoraDammV2PoolAccountProperties.protocol_fee_percent p) ->
  is_uint 8 (MeteoraDammV2PoolAccountProperties.referral_fee_percent p) ->
  scheduler_wf p ->
  properties_try_from address (damm_v2_row known p) = Ok (MeteoraDammV2PoolProperties.mk address
    (Some (MeteoraDammV2PoolAccountProperties.protocol_fee_percent p))
    (Some (MeteoraDammV2PoolAccountProperties.referral_fee_percent p))
    (coalesce (BaseFeeKind_as_str <$> MeteoraDammV2PoolAccountProperties.base_fee_kind p) known)
    (Some (MeteoraDammV2PoolAccountProperties.has_dynamic_fee p))
    (let! q := MeteoraDammV2PoolAccountProperties.fee_scheduler p in
     if fits_bigint q then Some q else None)).
Proof.
  intros Hp Hr Hs. unfold properties_try_from, damm_v2_row.
  cbn [convert_optional MeteoraDammV2PoolPropertiesRow.protocol_fee_percent
    MeteoraDammV2PoolPropertiesRow.referral_fee_percent MeteoraDammV2PoolPropertiesRow.base_fee_kind
    MeteoraDammV2PoolPropertiesRow.has_dynamic_fee].
  unfold convert_i16_to_u8, narrow. rewrite !try_uint_in by done. cbn [ok_or result_map result_bind].
  do 2 f_equal. unfold scheduler_wf in Hs.
  destruct (MeteoraDammV2PoolAccountProperties.fee_scheduler p) as [q|]; [|apply no_columns_no_scheduler].
  destruct Hs as (Hq & Ht & -> & Hk). rewrite scheduler_columns_spec. cbn [opt_bind].
  destruct (fits_bigint q); [by apply scheduler_reads_back|apply no_columns_no_scheduler].
Qed.
