(* ===== verification/PoolResolverRuns.v ===== *)
(** * The resolver beside the indexer

    A pool leaves the queue with one account's properties; the accounts the node
    serves are resolved, a batch a cycle; a batch it does not serve stays ahead
    of the pools seen later; and a flag raised while an account is on its way is
    lost, on a concrete pool. *)

From Stdlib Require Import QArith Sorted.
From S2P Require Import Prelude Errors External OrderedMap Domain Amm PoolAccount.
From S2P Require Import Reference Cursor CursorFacts Jupiter Store PoolResolver PoolResolverFacts.
#[local] Open Scope Z_scope.

(** ** A queue whose head cannot be read *)

Section Starving.
Context `{Postgres} `{Meanwhile} `{!Rely} `{!MeanwhileRely} `{ScanOrder} `{!ScanOrderLaws}.
Context {D : Type} `{DecimalLaws D} `{Base58} `{Base64Standard} `{AccountNode}.
Implicit Types s : Tables.t.

Lemma resolve_account_leaves r s account s' o a :
  resolver_laws r -> resolve_account (D := D) r s account = Done (s', o) ->
  (RawAccount.pool_address account = a -> ~ readable (D := D) (PoolAccountResolver.protocol r) account) ->
  drift a s s'.
Proof.
  intros Hr E Hread. unfold resolve_account in E.
  apply exec_bind_Done in E as ([acc|rejection] & Hdec & E); [|by injection E as <- _].
  destruct (bool_decide (DecodedPoolAccount.protocol acc = _)) eqn:Hprot; simpl in E; [|by injection E as <- _].
  apply bool_decide_eq_true in Hprot.
  assert (a <> RawAccount.pool_address account) as Ha by (intros ->; apply Hread; [done|by exists acc]).
  destruct (PoolAccountResolver.set_pool_account r s _ _) as [s1 [u|e]] eqn:Hw.
  2:{ injection E as <- _. by eapply writes_or_fails. }
  apply (writes r Hr) in Hw as [Hother _].
  destruct (set_registry_properties s1 _ _) as [s2 [u2|e]] eqn:Hreg; injection E as <- _;
    (etrans; [by apply Hother|]).
  - apply set_registry_written in Hreg as [Hother2 _]. by apply Hother2.
  - by eapply set_registry_fails.
Qed.

Lemma resolve_accounts_leave r s accounts s' o a :
  resolver_laws r -> resolve_accounts (D := D) r s accounts = Done (s', o) ->
  (forall account, account ∈ accounts -> RawAccount.pool_address account = a ->
    ~ readable (D := D) (PoolAccountResolver.protocol r) account) ->
  drift a s s'.
Proof.
  intros Hr. revert s o. induction accounts as [|account accounts IH]; intros s o E Hread; simpl in E.
  { by injection E as <- _. }
  inv_binds. destruct x as [s1 o1]. inv_binds. destruct x as [s2 o2]. injection E as <- _.
  etrans; [eapply resolve_account_leaves; [done|exact Hx|apply Hread; left]|].
  eapply IH; [exact Hx0|]. intros account' Hin. apply Hread. by right.
Qed.

(** The node never has an account of the pool the queue can use. *)
Definition unreadable (protocol : Protocol) (a : Pubkey) : Prop :=
  forall account, handed_over account -> RawAccount.pool_address account = a ->
    ~ readable (D := D) protocol account.

Lemma pass_leaves r s s' o a :
  resolver_laws r -> run_one_protocol (D := D) s r = Done (s', o) ->
  (forall n s1, drift a s s1 -> (forall b, drift b s s1) ->
    a ∈ oldest_unresolved (unresolved_of (PoolAccountResolver.protocol r)) n s1 RESOLVE_BATCH_MAX ->
    unreadable (PoolAccountResolver.protocol r) a) ->
  drift a s s'.
Proof.
  intros Hr E Hlisted. unfold run_one_protocol in E.
  destruct (PoolAccountResolver.list_unresolved r s _) as [s1 [l|e]] eqn:Hl.
  2:{ injection E as <- _. by eapply lists_or_fails. }
  apply (lists r Hr) in Hl as (Hd & n & Hl). etrans; [apply Hd|].
  destruct l as [|b l]; [by injection E as <- _|].
  destruct (fetch_accounts _ _) as [accounts|e] eqn:Hf; [|by injection E as <- _].
  inv_binds. destruct x as [s2 o2]. injection E as <- _.
  apply fetch_accounts_spec in Hf as [Hsub Hf]. rewrite Forall_forall in Hf.
  eapply resolve_accounts_leave; [done|exact Hx|]. intros account Hin Ha. eapply Hlisted; [apply Hd|apply Hd| |by apply Hf|done].
  rewrite <-Hl. eapply elem_of_sublist; [|exact Hsub]. rewrite <-Ha. by apply list_elem_of_fmap_2.
Qed.

(** A sorted prefix that holds [x] holds what is older than [x]. *)
Lemma older_first {A} (key : A -> Z) (l older : list A) (x : A) (k : nat) :
  StronglySorted (by_key key) l -> NoDup older -> (forall b, b ∈ older -> b ∈ l /\ key b < key x) ->
  (k <= length older)%nat -> x ∉ take k l.
Proof.
  intros Hs Hnd Hold Hk (i & Hi & Hik)%elem_of_take.
  assert (length older <= length (take i l))%nat as Hle; [|rewrite length_take in Hle; lia].
  apply submseteq_length, NoDup_submseteq; [done|]. intros b Hb. destruct (Hold b Hb) as [Hin Hlt].
  apply elem_of_take. apply list_elem_of_lookup in Hin as (j & Hj). exists j. split; [done|].
  destruct (decide (j < i)%nat) as [|Hge]; [done|]. exfalso.
  assert (key x <= key b); [|lia]. destruct (decide (i = j)) as [->|]; [by simplify_eq; lia|].
  assert (i < j)%nat as Hij by lia. clear -Hs Hi Hj Hij. revert i j Hi Hj Hij.
  induction Hs as [|c l Hs IH Hc]; intros [|i] [|j] Hi Hj Hij; simpl in *; try done; try lia.
  - injection Hi as ->. rewrite Forall_forall in Hc. apply Hc. by eapply list_elem_of_lookup_2.
  - eapply IH; [exact Hi|exact Hj|lia].
Qed.

Definition first_seen s (a : Pubkey) : DateTime :=
  match Tables.pools s !! a with Some p => PoolRow.first_seen_at p | None => 0 end.

Lemma sorted_map {A B} (f : A -> B) (ka : A -> Z) (kb : B -> Z) l :
  Forall (fun a => kb (f a) = ka a) l -> StronglySorted (by_key ka) l -> StronglySorted (by_key kb) (map f l).
Proof.
  intros Hk Hs. induction Hs as [|a l Hs IH Ha]; simpl; [constructor|].
  apply Forall_cons in Hk as [Hka Hk]. constructor; [by apply IH|]. apply Forall_map.
  rewrite Forall_forall in Ha, Hk |- *. intros b Hb. unfold by_key in *. rewrite Hka, Hk by done. by apply Ha.
Qed.

Lemma queue_sorted unresolved n s : StronglySorted (by_key (first_seen s)) (queue unresolved n s).
Proof.
  unfold queue. eapply sorted_map; [|apply sort_sorted]. apply Forall_forall. intros [a p] Hin.
  rewrite sort_perm, scanned_perm in Hin. apply list_elem_of_In, filter_In in Hin as [Hin _].
  apply list_elem_of_In, elem_of_map_to_list in Hin. unfold first_seen. simpl. by rewrite Hin.
Qed.

(** [b] waits in the queue of the protocol, and was seen before [t]. *)
Definition ahead (protocol : Protocol) (t : DateTime) s (b : Pubkey) : Prop :=
  pending protocol s b /\ first_seen s b < t.

Lemma first_seen_drift s s' a p : drift a s s' -> Tables.pools s !! a = Some p -> first_seen s' a = first_seen s a.
Proof.
  intros (Hr%rely_drift & _) Hp. unfold first_seen. rewrite Hp in Hr |- *.
  destruct (Tables.pools s' !! a); [|done]. apply Hr.
Qed.

Lemma ahead_drift protocol t s s' b : drift b s s' -> ahead protocol t s b -> ahead protocol t s' b.
Proof.
  intros Hd [Hp Hlt]. split; [by eapply pending_drift|]. destruct Hp as (p & Hp & _).
  by rewrite (first_seen_drift s s' b p).
Qed.

Lemma older_fill_the_batch protocol s old x n p :
  NoDup old -> (100 <= length old)%nat -> (forall b, b ∈ old -> ahead protocol (first_seen s x) s b) ->
  Tables.pools s !! x = Some p ->
  x ∉ oldest_unresolved (unresolved_of protocol) n s RESOLVE_BATCH_MAX.
Proof.
  intros Hnd Hlen Hold Hp. rewrite oldest_is_prefix. change (Z.to_nat RESOLVE_BATCH_MAX) with 100%nat.
  eapply (older_first (first_seen s)); [apply queue_sorted|exact Hnd| |exact Hlen].
  intros b Hb. destruct (Hold b Hb) as [(q & Hq & <- & Hu) Hlt]. split; [|done].
  apply queue_elem. exists q. split; [done|]. by apply unresolved_registry.
Qed.

Section Head.
Context (protocol : Protocol) (old : list Pubkey) (x : Pubkey).
Context (Hnd : NoDup old) (Hlen : (100 <= length old)%nat).
Context (Hunread : forall b, b ∈ old -> unreadable protocol b).

Definition starved s : Prop :=
  (exists p, Tables.pools s !! x = Some p /\ PoolRow.protocol p = protocol) /\
  forall b, b ∈ old -> ahead protocol (first_seen s x) s b.

Lemma starved_drift s s' :
  drift x s s' -> (forall b, b ∈ old -> drift b s s') -> starved s -> starved s'.
Proof.
  intros Hdx Hd [(p & Hp & Hprot) Hold]. split.
  - destruct (row_drift_Some _ _ _ _ Hdx Hp) as (p' & Hp' & Hprot'). exists p'. split; [done|congruence].
  - intros b Hb. rewrite (first_seen_drift s s' x p) by done. eapply ahead_drift; [by apply Hd|by apply Hold].
Qed.

Lemma pass_starves r s s' o :
  resolver_laws r -> starved s -> run_one_protocol (D := D) s r = Done (s', o) ->
  starved s' /\ drift x s s'.
Proof.
  intros Hr Hst E. assert (drift x s s') as Hdx.
  { eapply pass_leaves; [done|exact E|]. intros n s1 Hdx Hall Hin. exfalso.
    destruct (starved_drift s s1 Hdx (fun b _ => Hall b) Hst) as [(p & Hp & Hprot) Hold].
    assert (protocol = PoolAccountResolver.protocol r) as Hpr.
    { apply oldest_unresolved_elem in Hin as Hin'. destruct Hin' as (q & Hq & Hu).
      apply unresolved_protocol in Hu. congruence. }
    rewrite <-Hpr in Hin. by eapply (older_fill_the_batch protocol s1 old x n p) in Hin. }
  split; [|done]. eapply starved_drift; [done| |exact Hst]. intros b Hb.
  eapply pass_leaves; [done|exact E|]. intros n s1 Hdb Hall Hin.
  assert (protocol = PoolAccountResolver.protocol r) as <-; [|by apply Hunread].
  apply oldest_unresolved_elem in Hin as (q & Hq & Hu). apply unresolved_protocol in Hu.
  destruct Hst as [_ Hold]. destruct (Hold b Hb) as [Hp _].
  apply (pending_drift _ _ s1) in Hp; [|done]. destruct Hp as (p & Hp & Hpp & _). congruence.
Qed.

Lemma cycle_starves resolvers s s' o :
  Forall resolver_laws resolvers -> starved s ->
  run_one_cycle (D := D) resolvers s = Done (s', o) -> starved s' /\ drift x s s'.
Proof.
  intros Hr. revert s o. induction Hr as [|r resolvers Hr _ IH]; intros s o Hst E; simpl in E.
  { by injection E as <- _. }
  apply exec_bind_Done in E as ([s1 o1] & E1 & E). apply exec_bind_Done in E as ([s2 o2] & E2 & E).
  injection E as <- _. destruct (pass_starves r s s1 o1 Hr Hst E1) as [Hst1 Hd1].
  destruct (IH s1 o2 Hst1 E2) as [Hst2 Hd2]. split; [done|by etrans].
Qed.

Lemma run_starves s wakes s' cycles stopped :
  starved s -> run (D := D) s wakes = Done (s', cycles, stopped) -> drift x s s'.
Proof.
  revert s cycles stopped. induction wakes as [|[|] wakes IH]; intros s cycles stopped Hst E; cbn [run] in E.
  - by injection E as <- _ _.
  - apply exec_bind_Done in E as ([s1 c1] & E1 & E). apply exec_bind_Done in E as ([[s2 c2] st2] & E2 & E).
    injection E as <- _ _. destruct (cycle_starves _ _ _ _ pool_account_resolvers_laws Hst E1) as [Hst1 Hd1].
    etrans; [exact Hd1|by eapply IH].
  - by injection E as <- _ _.
Qed.
End Head.
End Starving.

(** ** Beside the indexer *)

#[local, refine] Instance beside_the_indexer : Rely := { rely := row_drift }.
Proof. done. Defined.

Class MeanwhileIndexed `{Meanwhile} : Prop := {
  meanwhile_indexed : forall n d, indexed d (meanwhile n d);
}.
#[local] Instance meanwhile_indexed_rely `{MeanwhileIndexed} : MeanwhileRely.
Proof. split. intros n d a. apply meanwhile_indexed. Qed.

Section Queues.
Context `{Postgres} `{MeanwhileIndexed} `{ScanOrderLaws}.
Context {D : Type} `{DecimalLaws D} `{Base58} `{Base64StandardLaws} `{AccountNode}.

(** C28: a pool leaves the resolver's queue only when the two mints and the base
    fee of its registry row and its protocol's satellite are those of one
    account, which the node answered for its address and which is of its
    protocol. One column can be older: when that account's fee mode is not one
    this build maps, the DAMM v2 satellite keeps the fee kind it had (the
    statement's COALESCE), which is that of an account the node answered before
    for the same pool, or none. A run never panics. This holds from empty tables
    after any number of cycles of both protocols, whatever statements fail (a
    crash is a database that refuses all that follows), whatever the node
    answers, and whatever the indexer does to the tables between two statements:
    a satellite write that is not followed by its registry write leaves the pool
    in the queue. *)
Theorem resolved_pools_show_one_account (wakes : list WorkerWake) :
  exists s cycles stopped, run (D := D) Tables.empty wakes = Done (s, cycles, stopped) /\
  forall a p, Tables.pools s !! a = Some p ->
    unresolved_of (PoolRow.protocol p) s a p = false -> shows_an_account (D := D) s a p.
Proof.
  destruct (run_done (D := D) Tables.empty wakes) as (s & cycles & stopped & E).
  exists s, cycles, stopped. split; [done|]. intros a p Hp Hu.
  pose proof (run_sound (D := D) _ _ _ _ _ sound_empty E a) as Hs. unfold sound_at in Hs. rewrite Hp in Hs.
  destruct Hs as (_ & _ & Hs). apply Hs. apply not_true_is_false. intros Hr%unresolved_registry. congruence.
Qed.

(** The other side of the order and the limit: pools whose accounts are missing
    or refused keep their place, and a hundred of them, older than [x], keep [x]
    out of every batch for good. *)
Theorem unreadable_head_starves_the_queue (protocol : Protocol) (old : list Pubkey) (x : Pubkey)
    (s : Tables.t) (wakes : list WorkerWake) :
  NoDup old -> (100 <= length old)%nat ->
  (forall b, b ∈ old -> unreadable (D := D) protocol b /\ ahead protocol (first_seen s x) s b) ->
  (exists p, Tables.pools s !! x = Some p /\ PoolRow.protocol p = protocol) ->
  exists s' cycles stopped, run (D := D) s wakes = Done (s', cycles, stopped) /\
    row_drift (Tables.pools s !! x) (Tables.pools s' !! x) /\
    Tables.fee_bps s' !! x = Tables.fee_bps s !! x /\
    Tables.damm_v2 s' !! x = Tables.damm_v2 s !! x /\ Tables.dlmm s' !! x = Tables.dlmm s !! x.
Proof.
  intros Hnd Hlen Hold Hx. destruct (run_done (D := D) s wakes) as (s' & cycles & stopped & E).
  exists s', cycles, stopped. split; [done|].
  assert (drift x s s') as Hd; [|exact Hd].
  eapply (run_starves (D := D) protocol old x); [done|done| | |exact E].
  - intros b Hb. by apply Hold.
  - split; [done|]. intros b Hb. by apply Hold.
Qed.
End Queues.

(** ** The queues drain *)

(** Nobody else writes [pools]. *)
#[local, refine] Instance alone : Rely := { rely := eq }.
Proof. intros p p' ->. reflexivity. Defined.

Class MeanwhileQuiet `{Meanwhile} : Prop := {
  meanwhile_quiet : forall n d, Db.pools (meanwhile n d) = Db.pools d;
}.
#[local] Instance meanwhile_quiet_rely `{MeanwhileQuiet} : MeanwhileRely.
Proof. split. intros n d a. simpl. by rewrite meanwhile_quiet. Qed.

Section Drain.
Context `{Postgres} `{MeanwhileQuiet} `{ScanOrder} `{!ScanOrderLaws}.
Context {D : Type} `{DecimalLaws D} `{Base58} `{Base64Standard} `{AccountNode}.
Context (kind : Pubkey -> option Protocol).
Implicit Types s : Tables.t.

(** Every pool is of the protocol [kind] tells. *)
Definition typed s : Prop := forall a p, Tables.pools s !! a = Some p -> kind a = Some (PoolRow.protocol p).

(** The account is of the protocol of the pool. *)
Definition of_its_pool (account : RawAccount.t) : Prop :=
  exists protocol, kind (RawAccount.pool_address account) = Some protocol /\ readable (D := D) protocol account.

(** The node has the account of every pool, of the pool's protocol. *)
Definition serves : Prop := forall n asked, (length asked <= 100)%nat ->
  Forall (fun a => is_Some (kind a)) asked ->
  exists value, get_multiple_accounts n (map pubkey_to_string asked) = Reply value /\
    Forall2 (fun a found => exists account, raw_account (a, found) = Some account /\ of_its_pool account)
      asked value.

Lemma unresolved_same s s' a p protocol :
  drift a s s' -> unresolved_of protocol s' a p = unresolved_of protocol s a p.
Proof.
  intros (_ & E1 & E2 & E3).
  destruct protocol; simpl; unfold damm_v2_unresolved, dlmm_unresolved, registry_unresolved;
    by rewrite E1, ?E2, ?E3.
Qed.

Lemma resolved_same s s' a : drift a s s' -> resolved s a -> resolved s' a.
Proof.
  intros Hd (p & Hp & Hu). exists p. rewrite (unresolved_same s s') by done. split; [|done].
  destruct Hd as [<- _]. done.
Qed.

Lemma fetch_served n asked :
  serves -> (length asked <= 100)%nat -> Forall (fun a => is_Some (kind a)) asked ->
  exists accounts, fetch_accounts n asked = Ok accounts /\
    map RawAccount.pool_address accounts = asked /\
    Forall of_its_pool accounts.
Proof.
  intros Hs Hl Hkinds. assert (fetch_accounts n asked = fetch_all n match asked with [] => [] | _ => [asked] end) as ->.
  { unfold fetch_accounts. destruct asked as [|a asked]; [done|]. cbn [length chunks].
    rewrite firstn_all2 by (simpl in *; unfold ACCOUNTS_BATCH_MAX; lia).
    rewrite skipn_all2 by (simpl in *; unfold ACCOUNTS_BATCH_MAX; lia). by destruct (length asked). }
  destruct (Hs n asked Hl Hkinds) as (value & Hv & Hall).
  assert (exists accounts, omap raw_account (zip asked value) = accounts /\
    map RawAccount.pool_address accounts = asked /\ Forall of_its_pool accounts)
    as (accounts & Ho & Ha & Hr).
  { clear Hv Hl Hkinds. induction Hall as [|a found asked value (account & Hraw & Hread) _ (accounts & Ho & Ha & Hr)];
      [by exists []|].
    exists (account :: accounts).
    change (zip (a :: asked) (found :: value)) with ((a, found) :: zip asked value).
    cbn [omap list_omap] in Ho |- *. rewrite Hraw, Ho. cbn [map].
    apply raw_account_Some in Hraw as [Hraw _]. simpl in Hraw. split; [done|]. split; [by rewrite Hraw, Ha|].
    by constructor. }
  exists accounts. split; [|done]. destruct asked as [|a asked]; [by destruct accounts|].
  cbn [fetch_all]. unfold fetch_chunk_inner. rewrite Hv, Ho. simpl. by rewrite app_nil_r.
Qed.

(** Registry and satellite are those of the account; an unmapped fee mode leaves
    the kind the satellite had in [s0]. *)
Definition shown_from s0 s (a : Pubkey) (acc : DecodedPoolAccount.t D) : Prop :=
  exists p, Tables.pools s !! a = Some p /\ kind a = Some (PoolRow.protocol p) /\
    DecodedPoolAccount.protocol acc = PoolRow.protocol p /\ registry_of s a p acc /\ satellite_row s a (kind_known s0 a) (DecodedPoolAccount.properties acc).

Definition shows_from s0 s (a : Pubkey) : Prop := exists acc, answered a acc /\ shown_from s0 s a acc.

Lemma shows_from_start s0 s1 s a : drift a s0 s1 -> shows_from s1 s a -> shows_from s0 s a.
Proof. intros Hd. unfold shows_from, shown_from. by rewrite (kind_known_drift _ _ _ Hd). Qed.

(** Nothing but the clock of the statements moved at [a]. *)
Lemma shown_drift s0 s s' a acc : drift a s s' -> shown_from s0 s a acc -> shown_from s0 s' a acc.
Proof.
  intros Hd (p & Hp & Hk & Hprot & (M1 & M2 & M3) & Hsat). pose proof Hd as (E & Ef & _).
  exists p. rewrite <-E. do 3 (split; [done|]). split; [|by eapply satellite_drift].
  split_and!; [done|done|by rewrite Ef].
Qed.

Lemma shows_from_drift s0 s s' a : drift a s s' -> shows_from s0 s a -> shows_from s0 s' a.
Proof. intros Hd (acc & Ha & Hs). exists acc. split; [done|by eapply shown_drift]. Qed.

Lemma resolve_accounts_written r s accounts :
  resolver_laws r -> no_fault -> NoDup (map RawAccount.pool_address accounts) ->
  Forall handed_over accounts ->
  Forall (readable (D := D) (PoolAccountResolver.protocol r)) accounts ->
  (forall a, a ∈ map RawAccount.pool_address accounts -> kind a = Some (PoolAccountResolver.protocol r) /\
    exists p, Tables.pools s !! a = Some p /\ PoolRow.protocol p = PoolAccountResolver.protocol r) ->
  exists s' o, resolve_accounts (D := D) r s accounts = Done (s', o) /\
    (forall a, a ∉ map RawAccount.pool_address accounts -> drift a s s') /\
    forall a, a ∈ map RawAccount.pool_address accounts -> resolved s' a /\ shows_from s s' a.
Proof.
  intros Hr Hf Hnd Hover Hread. revert s Hover.
  induction Hread as [|account accounts Ha _ IH]; intros s Hover Hp; simpl in *.
  { do 2 eexists. split; [done|]. split; [done|]. intros a Hin. by apply not_elem_of_nil in Hin. }
  apply NoDup_cons in Hnd as [Hnin Hnd]. apply Forall_cons in Hover as [Hh Hover].
  set (a0 := RawAccount.pool_address account) in *.
  destruct (Hp a0) as (Hk0 & p & Hp0 & Hprot); [left|].
  destruct (resolve_account_written (D := D) r s account p Hr Hf Ha Hp0 Hprot)
    as (s1 & -> & Hres & (p1 & acc & Hp1 & Hprot1 & Hdec & Hacc & Hreg & Hsat) & Hd1).
  cbn [exec_bind]. fold a0 in Hres, Hp1, Hd1, Hreg, Hsat.
  destruct (IH Hnd s1 Hover) as (s2 & o & -> & Hd2 & Hres2).
  { intros a Ha'. destruct (Hp a) as (Hk & q & Hq & Hqp); [by right|]. split; [done|].
    destruct (row_drift_Some s s1 a q) as (q' & Hq' & Hqp'); [apply Hd1; by intros ->|done|].
    exists q'. split; [done|congruence]. }
  cbn [exec_bind]. do 2 eexists. split; [done|]. split.
  - intros a [Hne Hn]%not_elem_of_cons. etrans; [by apply Hd1|by apply Hd2].
  - intros a Hin. destruct (decide (a = a0)) as [->|Hne].
    + specialize (Hd2 a0 Hnin). split; [by eapply resolved_same|]. exists acc. split; [by exists account|].
      eapply shown_drift; [exact Hd2|]. exists p1. split; [done|]. split; [congruence|].
      split; [congruence|done].
    + apply elem_of_cons in Hin as [->|Hin]; [done|]. destruct (Hres2 a Hin) as [Hra Hsa]. split; [done|].
      eapply shows_from_start; [by apply Hd1|done].
Qed.

(** From the list on: every pool listed is resolved, the others are left. *)
Lemma listed_are_written r s n l :
  resolver_laws r -> no_fault -> typed s -> serves ->
  l = oldest_unresolved (unresolved_of (PoolAccountResolver.protocol r)) n s RESOLVE_BATCH_MAX ->
  exists s' o, match l with
    | [] => Done (s, NothingUnresolved)
    | _ => match fetch_accounts (Db.statements (Tables.db s)) l with
        | Err e => Done (s, SourceRefused e)
        | Ok accounts => let* (s, outcomes) := resolve_accounts (D := D) r s accounts in Done (s, Resolved outcomes)
        end
    end = Done (s', o) /\ (forall a, a ∉ l -> drift a s s') /\
    forall a, a ∈ l -> resolved s' a /\ shows_from s s' a.
Proof.
  intros Hr Hf Ht Hs Hl.
  assert (length l <= 100)%nat as Hlen.
  { rewrite Hl, oldest_is_prefix, length_take. change (Z.to_nat RESOLVE_BATCH_MAX) with 100%nat. lia. }
  assert (forall a, a ∈ l -> kind a = Some (PoolAccountResolver.protocol r) /\
    exists p, Tables.pools s !! a = Some p /\ PoolRow.protocol p = PoolAccountResolver.protocol r) as Hrows.
  { intros a Ha. rewrite Hl in Ha. apply oldest_unresolved_elem in Ha as (p & Hp & Hu).
    apply unresolved_protocol in Hu as <-. split; [by apply Ht|by exists p]. }
  assert (Forall (fun a => is_Some (kind a)) l) as Hkinds.
  { apply Forall_forall. intros a [-> _]%Hrows. by eexists. }
  destruct (fetch_served (Db.statements (Tables.db s)) l Hs Hlen Hkinds) as (accounts & Hfe & Hma & Hread).
  destruct (resolve_accounts_written r s accounts Hr Hf) as (s' & o & Hacc & Hd2 & Hres).
  - rewrite Hma, Hl. apply oldest_unresolved_NoDup.
  - by eapply fetch_accounts_spec.
  - apply Forall_forall. intros account Hin. rewrite Forall_forall in Hread.
    assert (RawAccount.pool_address account ∈ l) as Hin' by (rewrite <-Hma; by apply list_elem_of_fmap_2).
    destruct (Hrows _ Hin') as [Hk _]. destruct (Hread _ Hin) as (protocol & Hk' & Hr').
    rewrite Hk in Hk'. by injection Hk' as ->.
  - by rewrite Hma.
  - rewrite Hma in Hd2, Hres. destruct l as [|a l].
    + do 2 eexists. split; [done|]. split; [done|]. intros a Ha. by apply not_elem_of_nil in Ha.
    + rewrite Hfe, Hacc. by do 2 eexists.
Qed.

(** The queue of its protocol has the pool. *)
Definition waiting s (a : Pubkey) : Prop :=
  exists p, Tables.pools s !! a = Some p /\ unresolved_of (PoolRow.protocol p) s a p = true.

(** A pool is left alone, or it waited and is resolved. *)
Definition served s s' : Prop := forall a,
  drift a s s' \/ (waiting s a /\ resolved s' a /\ shows_from s s' a).

Lemma waiting_drift s s' a : drift a s s' -> waiting s' a -> waiting s a.
Proof.
  intros Hd (p & Hp & Hu). pose proof Hd as [E _]. exists p. simpl in E. rewrite E. split; [done|].
  by rewrite <-(unresolved_same s s').
Qed.

Lemma resolved_not_waiting s a : resolved s a -> ~ waiting s a.
Proof. intros (p & Hp & Hu) (q & Hq & Hv). assert (p = q) as -> by congruence. congruence. Qed.

#[local] Instance served_preorder : PreOrder served.
Proof.
  split; [by intros s a; left|]. intros s s1 s2 S1 S2 a.
  destruct (S1 a) as [Hd|(Hw & Hr & Hs)], (S2 a) as [Hd2|(Hw2 & Hr2 & Hs2)].
  - left. by etrans.
  - right. split_and!; [by eapply waiting_drift|done|by eapply shows_from_start].
  - right. split_and!; [done|by eapply resolved_same|by eapply shows_from_drift].
  - by apply resolved_not_waiting in Hr.
Qed.

Lemma served_typed s s' : served s s' -> typed s -> typed s'.
Proof.
  intros Hs Ht a p Hp. destruct (Hs a) as [[E _]|(_ & _ & acc & _ & q & Hq & Hk & _)].
  - apply (Ht a). simpl in E. by rewrite E.
  - assert (p = q) as -> by congruence. done.
Qed.

Lemma served_waiting s s' a : served s s' -> waiting s' a -> waiting s a.
Proof.
  intros Hs Hw. destruct (Hs a) as [Hd|(Hw' & _)]; [by eapply waiting_drift|done].
Qed.

(** What a pass serves: all it asked for. *)
Lemma pass_progress r s :
  resolver_laws r -> no_fault -> typed s -> serves ->
  exists s' o n, run_one_protocol (D := D) s r = Done (s', o) /\ served s s' /\
    forall a, a ∈ oldest_unresolved (unresolved_of (PoolAccountResolver.protocol r)) n s RESOLVE_BATCH_MAX ->
      ~ waiting s' a.
Proof.
  intros Hr Hf Ht Hs. unfold run_one_protocol.
  destruct (lists_unless_fault r Hr s RESOLVE_BATCH_MAX Hf) as (s1 & l & Hl). rewrite Hl.
  apply (lists r Hr) in Hl as (Hd & n & Hl).
  assert (Tables.pools s1 = Tables.pools s) as Hpools by (apply map_eq; intros a; by destruct (Hd a) as [<- _]).
  assert (oldest_unresolved (unresolved_of (PoolAccountResolver.protocol r)) n s RESOLVE_BATCH_MAX = l) as Heq.
  { rewrite Hl. unfold oldest_unresolved. rewrite Hpools.
    do 4 f_equal. apply filter_ext. intros [a p]. symmetry. by apply unresolved_same. }
  assert (typed s1) as Ht1 by (intros a p; rewrite Hpools; apply Ht).
  destruct (listed_are_written r s1 n l Hr Hf Ht1 Hs Hl) as (s' & o & E & Hother & Hmine).
  exists s', o, n. split; [destruct l; exact E|]. rewrite Heq. split.
  - intros a. destruct (decide (a ∈ l)) as [Hin|Hnin]; [right|left; etrans; [apply Hd|by apply Hother]].
    destruct (Hmine a Hin) as [Hra Hsa]. split; [|split; [done|eapply shows_from_start; [apply Hd|exact Hsa]]].
    rewrite <-Heq in Hin. apply oldest_unresolved_elem in Hin as (p & Hp & Hu). exists p. split; [done|].
    by rewrite (unresolved_protocol _ _ _ _ Hu).
  - intros a Hin. apply resolved_not_waiting. by apply Hmine.
Qed.

(** How many pools a queue holds. *)
Definition backlog (protocol : Protocol) s : nat := length (queue (unresolved_of protocol) 0 s).

Lemma backlog_any n protocol s : length (queue (unresolved_of protocol) n s) = backlog protocol s.
Proof. unfold backlog. by rewrite !(Permutation_length (queue_perm _ _ _)). Qed.

Lemma NoDup_subset_length (l k : list Pubkey) :
  NoDup l -> (forall a, a ∈ l -> a ∈ k) -> (length l <= length k)%nat.
Proof. intros Hl Hk. by apply submseteq_length, NoDup_submseteq. Qed.

Lemma backlog_zero protocol s a p :
  backlog protocol s = 0%nat -> Tables.pools s !! a = Some p -> unresolved_of protocol s a p = false.
Proof.
  intros Hb Hp. apply not_true_is_false. intros Hu.
  assert (a ∈ queue (unresolved_of protocol) 0 s) as Hin by (apply queue_elem; eauto).
  unfold backlog in Hb. apply nil_length_inv in Hb. rewrite Hb in Hin. by apply not_elem_of_nil in Hin.
Qed.

Lemma pass_backlog r s :
  resolver_laws r -> no_fault -> typed s -> serves ->
  exists s' o, run_one_protocol (D := D) s r = Done (s', o) /\ served s s' /\
    (backlog (PoolAccountResolver.protocol r) s' <= backlog (PoolAccountResolver.protocol r) s - 100)%nat /\
    forall protocol, (backlog protocol s' <= backlog protocol s)%nat.
Proof.
  intros Hr Hf Ht Hs. destruct (pass_progress r s Hr Hf Ht Hs) as (s' & o & n & E & Hserved & Hp).
  exists s', o. split; [done|]. split; [done|].
  assert (forall protocol a, a ∈ queue (unresolved_of protocol) 0 s' ->
    a ∈ queue (unresolved_of protocol) n s /\
    a ∉ oldest_unresolved (unresolved_of (PoolAccountResolver.protocol r)) n s RESOLVE_BATCH_MAX) as Hin.
  { intros protocol a (p & Ha & Hu)%queue_elem. pose proof (unresolved_protocol _ _ _ _ Hu) as Hprot.
    subst protocol. assert (waiting s' a) as Hw by by exists p. split; [|by intros Hin%Hp].
    apply queue_elem. destruct (served_waiting _ _ _ Hserved Hw) as (q & Hq & Huq). exists q. split; [done|].
    apply (served_typed _ _ Hserved) in Ht as Ht'. pose proof (Ht _ _ Hq). pose proof (Ht' _ _ Ha). congruence. }
  split.
  - rewrite <-(backlog_any n _ s), <-length_drop. apply NoDup_subset_length; [apply queue_NoDup|].
    intros a (Ha & Hn)%Hin. rewrite oldest_is_prefix in Hn. change (Z.to_nat RESOLVE_BATCH_MAX) with 100%nat in Hn.
    rewrite <-(take_drop 100 (queue _ n s)) in Ha. by apply elem_of_app in Ha as [Ha|Ha].
  - intros protocol. rewrite <-(backlog_any n _ s). apply NoDup_subset_length; [apply queue_NoDup|].
    intros a Ha. by apply Hin.
Qed.

Lemma cycle_backlog s :
  no_fault -> typed s -> serves ->
  exists s' o, run_one_cycle (D := D) pool_account_resolvers s = Done (s', o) /\ served s s' /\
    forall protocol, (backlog protocol s' <= backlog protocol s - 100)%nat.
Proof.
  intros Hf Ht Hs. unfold pool_account_resolvers. cbn [run_one_cycle].
  destruct (pass_backlog damm_v2_resolver s damm_v2_resolver_laws Hf Ht Hs) as (s1 & o1 & -> & Ht1 & B1 & M1).
  cbn [exec_bind].
  pose proof (served_typed _ _ Ht1 Ht) as Hty1.
  destruct (pass_backlog dlmm_resolver s1 dlmm_resolver_laws Hf Hty1 Hs) as (s2 & o2 & -> & Ht2 & B2 & M2).
  cbn [exec_bind]. do 2 eexists. split; [done|]. split; [by etrans|]. simpl in B1, B2.
  intros [|].
  - specialize (M2 MeteoraDammV2). lia.
  - specialize (M1 MeteoraDlmm). lia.
Qed.

Lemma run_backlog s k :
  no_fault -> typed s -> serves ->
  exists s' cycles, run (D := D) s (repeat TickElapsed k) = Done (s', cycles, false) /\ served s s' /\
    forall protocol, (backlog protocol s' <= backlog protocol s - 100 * k)%nat.
Proof.
  intros Hf. revert s. induction k as [|k IH]; intros s Ht Hs; cbn [repeat run].
  { do 2 eexists. split; [done|]. split; [done|]. intros. lia. }
  destruct (cycle_backlog s Hf Ht Hs) as (s1 & c1 & -> & S1 & B1). cbn [exec_bind].
  destruct (IH s1 (served_typed _ _ S1 Ht) Hs) as (s2 & c2 & -> & S2 & B2). cbn [exec_bind].
  do 2 eexists. split; [done|]. split; [by etrans|].
  intros protocol. specialize (B1 protocol). specialize (B2 protocol). lia.
Qed.

End Drain.

(** The protocol of each pool. *)
Definition kind_of (s : Tables.t) (a : Pubkey) : option Protocol := PoolRow.protocol <$> Tables.pools s !! a.

Section Draining.
Context `{Postgres} `{MeanwhileQuiet} `{ScanOrder} `{!ScanOrderLaws}.
Context {D : Type} `{DecimalLaws D} `{Base58} `{Base64Standard} `{AccountNode}.
Implicit Types s : Tables.t.

(** C37: the queues drain a hundred pools a cycle. From any tables [s], as long
    as no statement fails, the indexer leaves [pools] alone and the node answers
    each pool's key with an account of the pool's protocol, [k] cycles empty
    queues of at most [100 * k] pools. A pool that waited in its queue then
    shows one account the node answered for it, mints, base fee and satellite,
    the satellite of an account whose fee mode is not mapped keeping the fee
    kind it had in [s]; a pool that did not wait is as it was. *)
Theorem queues_drain s (k : nat) :
  no_fault -> serves (D := D) (kind_of s) ->
  (forall protocol, backlog protocol s <= 100 * k)%nat ->
  exists s' cycles, run (D := D) s (repeat TickElapsed k) = Done (s', cycles, false) /\
    forall a p, Tables.pools s !! a = Some p ->
    exists p', Tables.pools s' !! a = Some p' /\ PoolRow.protocol p' = PoolRow.protocol p /\
      unresolved_of (PoolRow.protocol p') s' a p' = false /\
      if unresolved_of (PoolRow.protocol p) s a p then
        exists acc : DecodedPoolAccount.t D, answered a acc /\
          DecodedPoolAccount.protocol acc = PoolRow.protocol p /\ registry_of s' a p' acc /\
          satellite_row s' a (kind_known s a) (DecodedPoolAccount.properties acc)
      else
        p' = p /\ Tables.fee_bps s' !! a = Tables.fee_bps s !! a /\
        Tables.damm_v2 s' !! a = Tables.damm_v2 s !! a /\ Tables.dlmm s' !! a = Tables.dlmm s !! a.
Proof.
  intros Hf Hs Hk. assert (typed (kind_of s) s) as Ht by (intros a p Hp; unfold kind_of; by rewrite Hp).
  destruct (run_backlog (kind_of s) s k Hf Ht Hs) as (s' & cycles & E & Hserved & Hb).
  exists s', cycles. split; [done|]. intros a p Hp. pose proof (served_typed _ _ _ Hserved Ht) as Ht'.
  assert (forall q, Tables.pools s' !! a = Some q -> PoolRow.protocol q = PoolRow.protocol p /\
    unresolved_of (PoolRow.protocol q) s' a q = false) as Hq.
  { intros q Hq. split; [pose proof (Ht _ _ Hp); pose proof (Ht' _ _ Hq); congruence|].
    apply backlog_zero; [|done]. specialize (Hb (PoolRow.protocol q)). specialize (Hk (PoolRow.protocol q)). lia. }
  destruct (Hserved a) as [(Ep & Ef & Ev & El)|(Hw & _ & acc & Ha & p' & Hp' & Hkind & Hacc & Hreg & Hsat)].
  - simpl in Ep. exists p. rewrite <-Ep. destruct (Hq p) as [_ Hu]; [by rewrite <-Ep|].
    split_and!; [done..|]. rewrite (unresolved_same s s') in Hu by by split_and!. by rewrite Hu.
  - exists p'. destruct (Hq p' Hp') as [Hprot Hu]. do 3 (split; [done|]).
    destruct Hw as (q & Hq' & Hwq). assert (q = p) as -> by congruence. rewrite Hwq.
    exists acc. split; [done|]. split; [congruence|done].
Qed.
End Draining.

(** ** One pool, seen and resolved *)

Module Watched.

#[local] Instance db : Postgres := { fault := fun _ => None; db_now := fun n => Z.of_nat n }.
#[local] Instance scan : ScanOrder := { scanned := fun _ l => l }.
#[local] Instance scan_laws : ScanOrderLaws.
Proof. by split. Qed.
#[local] Instance base64 : Base64Standard := { base64_standard_decode := fun s => Some (codes s) }.
#[local] Instance base64_laws : Base64StandardLaws.
Proof. split. intros s bs [= <-]. apply codes_uint8. Qed.

Definition pool : Pubkey := repeat 1 32.

(** The node has the same account for every key, after the statement [n] the
    account with the cliff lowered. *)
Definition account (cliff : Z) : RpcAccount.t :=
  RpcAccount.mk (text_of_bytes (take 8 sample_account ++ le_encode 8 cliff ++ drop 16 sample_account), "base64")
    (pubkey_to_string (program_id MeteoraDammV2)).
#[local] Instance node : AccountNode := {
  get_multiple_accounts := fun n keys =>
    Reply (map (fun _ => Some (account (if (n <=? 3)%nat then 500000000 else 2500000))) keys) }.

Definition discovered (d : Db.t) : Db.t := (upsert_pool d (Pool.mk pool MeteoraDammV2 None None 0)).1.

(** The indexer discovers the pool before the first statement, and flags it
    before the satellite is written. *)
#[local] Instance indexer : Meanwhile := {
  meanwhile := fun n d =>
    match n with
    | 0%nat => discovered d
    | 3%nat => (mark_needs_refresh d pool).1
    | _ => d
    end }.
#[local] Instance indexer_indexed : MeanwhileIndexed.
Proof.
  split. intros [|[|[|[|n]]]] d; simpl; try done; [apply upsert_pool_indexed|apply mark_needs_refresh_indexed].
Qed.

(** The queue does not have the pool, whose fee in the registry is [bps]. *)
Definition shown (s : Tables.t) (bps : Q) : bool :=
  match Tables.pools s !! pool, Tables.fee_bps s !! pool with
  | Some p, Some fee => negb (unresolved_of (PoolRow.protocol p) s pool p) && Qeq_bool fee bps
  | _, _ => false
  end.

Definition after (ticks : nat) (check : Tables.t -> bool) : bool :=
  match run (D := Q) Tables.empty (repeat TickElapsed ticks) with
  | Done (s, _, _) => check s
  | Panic => false
  end.

(** The account changed after it was fetched, the indexer flagged the pool for
    that, and the registry write lowered the flag with the fees of before: 5000
    bps are shown from then on, while the node answers 25. *)
Example flag_raised_during_the_fetch_is_lost :
  after 1 (fun s => shown s 5000) = true /\ after 3 (fun s => shown s 5000) = true.
Proof. split; vm_compute; reflexivity. Qed.

Lemma resolved_pools_show_one_account_witness :
  exists s cycles stopped, run (D := Q) Tables.empty [TickElapsed] = Done (s, cycles, stopped) /\
  exists p, Tables.pools s !! pool = Some p /\ shows_an_account (D := Q) s pool p.
Proof.
  destruct (resolved_pools_show_one_account (D := Q) [TickElapsed]) as (s & cycles & stopped & E & Hs).
  exists s, cycles, stopped. split; [exact E|].
  assert (after 1 (fun s => shown s 5000) = true) as Hc by (vm_compute; reflexivity).
  unfold after in Hc. cbn [repeat] in Hc. rewrite E in Hc. unfold shown in Hc.
  destruct (Tables.pools s !! pool) as [p|] eqn:Hp; [|discriminate Hc].
  destruct (Tables.fee_bps s !! pool); [|discriminate Hc]. exists p. split; [reflexivity|].
  apply (Hs pool p Hp). apply andb_prop in Hc as [Hc _]. apply negb_true_iff in Hc. exact Hc.
Defined.
End Watched.

Module Drained.
#[local] Existing Instances Watched.db Watched.scan Watched.scan_laws Watched.base64 Watched.base64_laws.
#[local] Instance node : AccountNode := {
  get_multiple_accounts := fun _ keys => Reply (map (fun _ => Some (Watched.account 500000000)) keys) }.
#[local] Instance nobody : Meanwhile := { meanwhile := fun _ d => d }.
#[local] Instance nobody_quiet : MeanwhileQuiet.
Proof. by split. Qed.

Definition before : Tables.t := Tables.set_db Tables.empty (Watched.discovered Db.empty).

Lemma before_pools : Tables.pools before =
  {[Watched.pool := PoolRow.mk MeteoraDammV2 None None 0 0 false]}.
Proof. vm_compute. reflexivity. Qed.

Definition usable (found : RpcAccount.t) : bool :=
  match pubkey_of_string (RpcAccount.owner found), base64_standard_decode (RpcAccount.data found).1 with
  | Some program_id, Some data =>
      match decode_pool_account (D := Q) program_id data with
      | Done (Ok acc) => bool_decide (DecodedPoolAccount.protocol acc = MeteoraDammV2)
      | _ => false
      end
  | _, _ => false
  end.

Lemma usable_readable a found :
  usable found = true -> exists account, raw_account (a, Some found) = Some account /\
    readable (D := Q) MeteoraDammV2 account.
Proof.
  unfold usable, raw_account. cbn [opt_bind]. destruct (pubkey_of_string _) as [program|]; [|done].
  cbn [opt_bind]. destruct (base64_standard_decode _) as [data|]; [|done]. cbn [opt_bind]. intros Hc.
  eexists. split; [reflexivity|]. unfold readable. cbn [RawAccount.program_id RawAccount.data].
  destruct (decode_pool_account program data) as [[acc|]|]; try done.
  exists acc. split; [reflexivity|]. by apply bool_decide_eq_true in Hc.
Qed.

Lemma queues_drain_witness :
  exists s' cycles, run (D := Q) before [TickElapsed] = Done (s', cycles, false) /\
  exists p', Tables.pools s' !! Watched.pool = Some p' /\
    unresolved_of (PoolRow.protocol p') s' Watched.pool p' = false /\
    exists acc : DecodedPoolAccount.t Q, answered Watched.pool acc /\ registry_of s' Watched.pool p' acc /\
      satellite_row s' Watched.pool None (DecodedPoolAccount.properties acc).
Proof.
  destruct (queues_drain (D := Q) before 1) as (s' & cycles & E & Hs).
  - intros n. reflexivity.
  - intros n asked _ Hkinds. eexists. split; [reflexivity|]. rewrite map_map.
    induction Hkinds as [|a asked Ha Hkinds IH]; [constructor|]. constructor; [|exact IH].
    destruct (usable_readable a (Watched.account 500000000)) as (account & Hraw & Hread); [vm_compute; reflexivity|].
    exists account. split; [exact Hraw|]. exists MeteoraDammV2. split; [|exact Hread].
    apply raw_account_Some in Hraw as [-> _]. simpl. revert Ha. unfold kind_of. rewrite before_pools.
    intros [protocol Hp]. destruct (decide (a = Watched.pool)) as [->|Hne].
    + rewrite lookup_singleton_eq. reflexivity.
    + rewrite lookup_singleton_ne in Hp by (symmetry; exact Hne). discriminate Hp.
  - intros [|]; vm_compute; lia.
  - exists s', cycles. split; [exact E|].
    destruct (Hs Watched.pool (PoolRow.mk MeteoraDammV2 None None 0 0 false)) as (p' & Hp' & _ & Hu & Hshow).
    { rewrite before_pools. apply lookup_singleton_eq. }
    exists p'. split; [exact Hp'|]. split; [exact Hu|].
    destruct Hshow as (acc & Ha & _ & Hreg & Hsat). exists acc. split; [exact Ha|]. split; [exact Hreg|exact Hsat].
Defined.
End Drained.
