(* ===== verification/PriceWitness.v ===== *)
(** * The price worker and its source on concrete ticks

    Instances of the interfaces of [Price.v], and runs on which the hypotheses
    of its properties hold. *)

From Stdlib Require Import QArith.
From S2P Require Import Prelude Errors External Reference Price PriceFacts PriceRuns PriceTurns Jupiter.

#[local] Open Scope Z_scope.

(** ** Instances *)

#[global] Instance Q_rounding : DecimalRounding Q := { round_dp q s := round_half_away q s }.

#[global] Instance Q_rounding_laws : DecimalRoundingLaws Q.
Proof. constructor. intros d s _. reflexivity. Qed.

#[global] Instance plain_delta : ChronoDelta := {
  delta_from_std d := if d <=? delta_max then Some d else None;
  delta_checked_mul d n := if Z.abs (d * n) <=? delta_max then Some (d * n) else None;
}.

#[global] Instance plain_delta_laws : ChronoDeltaLaws.
Proof.
  constructor; simpl.
  - intros d Hd. destruct (Z.leb_spec d delta_max); [done|lia].
  - intros d Hd. destruct (Z.leb_spec d delta_max); [lia|done].
  - intros d n r. destruct (Z.leb_spec (Z.abs (d * n)) delta_max); congruence.
  - intros d n. destruct (Z.leb_spec (Z.abs (d * n)) delta_max); [done|lia].
Qed.

(** ** Two mints, one cadence *)

Definition sol : Pubkey := repeat 1 32.
Definition bonk : Pubkey := repeat 2 32.
Definition dust : Pubkey := repeat 3 32.
Definition cadence : Z := seconds 30.

Definition regular (mint : Pubkey) : PriceCandidate.t := PriceCandidate.mk mint Regular.
Definition at_price (mint : Pubkey) (price : Q) : FetchedPrice.t Q := FetchedPrice.mk mint Jupiter price.

(** The part of an answer that is about [mints]. *)
Definition only (mints : list Pubkey) (a : PriceAnswer.t Q) : PriceAnswer.t Q :=
  PriceAnswer.mk (List.filter (fun f => bool_decide (FetchedPrice.mint f ∈ mints)) (PriceAnswer.priced a))
    (List.filter (fun m => bool_decide (m ∈ mints)) (PriceAnswer.unpriced a)).

(** A tick of the [n]-th second, its source knowing the prices of [answer]. *)
Definition tick_at (n : Z) (answer : PriceAnswer.t Q) (fault : option RepositoryError) : TickInput.t Q :=
  TickInput.mk (Ok [regular sol; regular bonk; regular dust]) (seconds n) (fun mints => Ok (only mints answer))
    (seconds n + 1) fault.

Definition sol_at (price : Q) : PriceAnswer.t Q := PriceAnswer.mk [at_price sol price; at_price bonk (1 # 3)] [dust].

(** A first price, a repeated one, a failed INSERT, a restart on a new price. *)
Definition first_process : Process :=
  (cadence, [Tick (tick_at 0 (sol_at 150) None); Tick (tick_at 30 (sol_at 150) None);
             Tick (tick_at 60 (sol_at 151) (Some (Timeout "statement_timeout"))); Shutdown]).
Definition second_process : Process :=
  (cadence, [Tick (tick_at 90 (sol_at 151) None); Tick (tick_at 120 (sol_at 151) None)]).

Lemma tick_answers_once (n : Z) (price : Q) (fault : option RepositoryError) :
  answers_once (tick_at n (sol_at price) fault).
Proof.
  split.
  - intros cs [= <-]. apply (bool_decide_unpack _). vm_compute. exact I.
  - intros mints answer _ [= <-]. unfold well_answered, one_price_per_mint, only. simpl.
    repeat case_bool_decide; simpl; (split; [|split]);
      try (apply (bool_decide_unpack _); vm_compute; exact I); intros m []%elem_of_nil || intros m ->%list_elem_of_singleton;
      (split; [done|apply (bool_decide_unpack _); vm_compute; exact I]).
Qed.

(** The rows of the two series: four for the worker, eight without its rule. *)
Example suppressed_rows :
  (size (PriceDb.token_prices (run_processes [first_process; second_process])),
   size (PriceDb.token_prices (unsuppressed_processes [first_process; second_process]))) = (4%nat, 8%nat).
Proof. vm_compute. reflexivity. Qed.

Lemma suppression_is_invisible_witness :
  fair_environment (-1) [first_process; second_process] /\
  ends_alike KeptPrices.PRICE_SERIES_MAX_GAP
    (find_latest_by_mint (run_processes [first_process; second_process]) sol)
    (find_latest_by_mint (unsuppressed_processes [first_process; second_process]) sol).
Proof.
  assert (fair_environment (-1) [first_process; second_process]) as Hf.
  { split; [|split].
    - by_eval.
    - simpl. repeat (apply Forall_cons; split; [apply tick_answers_once|]). apply Forall_nil_2.
    - by_eval. }
  split; [exact Hf|]. exact (suppression_is_invisible (-1) _ Hf sol).
Defined.

(** The second tick of a process, on its repeated price. *)
Definition after_first : (PriceWorker.t Q * PriceDb.t) * bool :=
  run (new_worker cadence) PriceDb.empty [Tick (tick_at 0 (sol_at 150) None)].
Definition second_tick : TickInput.t Q := tick_at 30 (sol_at 150) None.

Lemma answered_price_is_current_witness :
  snd (price_once (fst (fst after_first)) (snd (fst after_first)) second_tick) = AllUnchanged 2 /\
  exists b, PriceDb.token_last_price (snd (fst (price_once (fst (fst after_first)) (snd (fst after_first)) second_tick)))
      !! sol = Some (column_value (150 : Q), b) /\
    0 <= TickInput.now second_tick - b <= Z.max (KeptPrices.PRICE_SERIES_MAX_GAP - cadence) 0 /\
    TickInput.now second_tick + cadence - b <= PRICE_MAX_AGE_LATEST.
Proof.
  split; [vm_compute; reflexivity|].
  pose proof (answered_price_is_current (-1) [] 30 cadence [Tick (tick_at 0 (sol_at 150) None)] second_tick
    (fst (fst after_first)) (snd (fst after_first))
    (fst (answer_of (PriceWorker.unpriced (fst (fst after_first))) (PriceWorker.tick (fst (fst after_first))) second_tick))
    (only [sol; bonk] (sol_at 150))) as Hc.
  specialize (Hc ltac:(lia) ltac:(vm_compute; reflexivity)).
  assert (fair_environment (-1) ([] ++ [(cadence, [Tick (tick_at 0 (sol_at 150) None)] ++ [Tick second_tick])])) as Hf.
  { split; [|split].
    - by_eval.
    - simpl. repeat (apply Forall_cons; split; [apply tick_answers_once|]). apply Forall_nil_2.
    - by_eval. }
  specialize (Hc Hf ltac:(vm_compute; reflexivity) ltac:(vm_compute; reflexivity)). revert Hc.
  destruct (price_once _ _ second_tick) as [[w2 d2] o] eqn:E. simpl.
  assert (o = AllUnchanged 2) as -> by (apply (f_equal snd) in E; simpl in E; subst o; vm_compute; reflexivity).
  intros Hc. apply (Hc (at_price sol 150)); [|vm_compute; reflexivity].
  apply elem_of_cons. by left.
Defined.

(** Two answers without a price: four cadences of wait, one tick early. *)
Lemma unpriced_wait_doubles_witness :
  UnpricedMints.deferred (record_all (UnpricedMints.new cadence)
    ([([sol], [dust], seconds 0)] ++ [([sol], [bonk; dust], seconds 30)])) !! dust =
  Some (UnpricedMints.mkDeferral 2 (seconds (30 + 120 - 30))).
Proof.
  refine (unpriced_wait_doubles 30 cadence [([sol], [dust], seconds 0)] [sol] [bonk; dust] (seconds 30) dust
    _ _ _ _); [lia|vm_compute; reflexivity| |vm_compute; reflexivity].
  repeat constructor; apply (bool_decide_unpack _); vm_compute; exact I.
Defined.

(** A mint worth little, over three ticks of the cadence. *)
Definition low_value : PriceCandidate.t := PriceCandidate.mk sol LowValue.
Definition low_tick (n : Z) : TickInput.t Q :=
  TickInput.mk (Ok [low_value; regular bonk]) (seconds n)
    (fun mints => Ok (PriceAnswer.mk (map (fun m => at_price m 150) mints) [])) (seconds n + 1) None.

Lemma candidate_is_asked_once_per_cycle_witness :
  asked_by (new_worker cadence) PriceDb.empty [low_tick 0; low_tick 30; low_tick 60] = [[bonk]; [bonk]; [sol; bonk]] /\
  exists k ms, asked_by (new_worker cadence) PriceDb.empty [low_tick 0; low_tick 30; low_tick 60] !! k = Some ms /\
    sol ∈ ms /\
    forall j ms', asked_by (new_worker cadence) PriceDb.empty [low_tick 0; low_tick 30; low_tick 60] !! j = Some ms' ->
      sol ∈ ms' -> j = k.
Proof.
  split; [vm_compute; reflexivity|].
  apply (candidate_is_asked_once_per_cycle low_value (new_worker cadence) PriceDb.empty
    [low_tick 0; low_tick 30; low_tick 60]); [reflexivity|vm_compute; discriminate|vm_compute; reflexivity| | |].
  - repeat constructor; exists [low_value; regular bonk]; (split; [reflexivity|]); (split; [apply elem_of_cons; by left|]);
      intros c' [->| [->|[]%not_elem_of_nil]%elem_of_cons]%elem_of_cons; [done|discriminate|done|discriminate|done|discriminate].
  - repeat constructor; intros mints answer m [= <-] []%not_elem_of_nil.
  - repeat constructor; vm_compute; reflexivity.
Defined.

(** ** A motionless price of a low value

    At the default cadence of 30 s a low-value mint is seen every third tick.
    With ticks of 155 s, which the worker runs back to back, the first
    sighting after a row comes 465 s later, within the gap of 480 s, and the
    next one 930 s later: past the 900 s after which the row values nothing. *)
Definition dust_at (n : Z) : TokenPrice.t Q := TokenPrice.mk dust 1%Q Jupiter None (seconds n).

Theorem low_value_price_outlives_its_bound :
  let kept := KeptPrices.record (KeptPrices.new cadence) [dust_at 0] in
  KeptPrices.worth_keeping kept (dust_at (3 * 155)) = false /\
  PRICE_MAX_AGE_LATEST < TokenPrice.fetched_at (dust_at (6 * 155)) - TokenPrice.fetched_at (dust_at 0).
Proof. vm_compute. split; reflexivity. Qed.

(** ** The Jupiter client on a scripted server

    A server on which the hypotheses of the client's properties hold, and what
    the client makes of it. *)

#[local] Open Scope Z_scope.

(** It prices the first mint of every request, two seconds later, except that
    at the instants it [refuses] it answers 429, to be retried after one
    second. *)
Definition scripted (refuses : Z -> bool) : Network Q := {|
  respond t mints :=
    (if refuses t then TooManyRequests (Some [49])
     else match mints with
          | m :: _ =>
              if bool_decide (pubkey_of_string (pubkey_to_string m) = Some m)
              then Body [(pubkey_to_string m, Some (150 : Q))] else Body []
          | [] => Body []
          end, t + seconds 2);
  wake t := t;
|}.

Lemma scripted_laws (refuses : Z -> bool) : @NetworkLaws Q (scripted refuses).
Proof.
  constructor; simpl.
  - intros t mints. change (seconds 2) with 2000000000. lia.
  - intros t. lia.
Qed.

Lemma scripted_honest (refuses : Z -> bool) : @honest_bodies Q _ (scripted refuses).
Proof.
  intros t mints entries at_. simpl. destruct (refuses t); [done|].
  destruct mints as [|m ms]; [intros [= <- _]; split; [constructor|set_solver]|].
  case_bool_decide as Hm; intros [= <- _]; unfold body_mints; simpl in *.
  - rewrite Hm. split; [apply NoDup_singleton|set_solver].
  - split; [constructor|set_solver].
Qed.

(** The first second. *)
Definition at_first (t : Z) : bool := t <? seconds 1.

(** At sixty requests a minute: the refused request, its retry one second
    after the refusal, and no more. *)
Lemma requests_stay_under_the_limit_witness :
  @fetch_prices Q _ (scripted at_first) 60 None [sol; bonk] 0 =
    Some (PriceAnswer.mk [FetchedPrice.mk sol Jupiter (150 : Q)] [bonk], [0; seconds 3]) /\
  exists answer sent, @fetch_prices Q _ (scripted at_first) 60 None [sol; bonk] 0 = Some (answer, sent) /\
    Z.of_nat (length sent) <= 3 * Z.of_nat (length (chunks (length [sol; bonk]) JUPITER_BATCH_MAX [sol; bonk])) /\
    forall t, Z.of_nat (length (List.filter (fun s => (t <=? s) && (s <? t + seconds 60)) sent)) <= 60.
Proof.
  split; [vm_compute; reflexivity|].
  exact (@requests_stay_under_the_limit Q _ (scripted at_first) (scripted_laws at_first) 60 None [sol; bonk] 0
    ltac:(vm_compute; split; reflexivity)).
Defined.

Definition never (t : Z) : bool := false.

Lemma scripted_prices : @always_prices Q _ (scripted never) [sol; bonk].
Proof.
  intros t [|m ms] Hne Hsub; [done|].
  assert (m = sol \/ m = bonk) as Hm by (specialize (Hsub m); set_solver). simpl.
  exists [(pubkey_to_string m, Some (150 : Q))], (t + seconds 2).
  destruct Hm as [-> | ->]; (split; [vm_compute; reflexivity|]);
    [exists sol|exists bonk]; (split; [set_solver|apply (bool_decide_unpack _); vm_compute; exact I]).
Qed.

Lemma jupiter_is_a_price_source_witness :
  exists answer sent, @fetch_prices Q _ (scripted never) 60 None [sol; bonk] 0 = Some (answer, sent) /\
    well_answered [sol; bonk] answer /\
    forall m, m ∈ [sol; bonk] -> m ∈ map FetchedPrice.mint (PriceAnswer.priced answer) \/ m ∈ PriceAnswer.unpriced answer.
Proof.
  destruct (@jupiter_is_a_price_source Q _ (scripted never) (scripted_laws never) 60 None [sol; bonk] 0)
    as (answer & sent & Hf & Hw & Hall);
    [by_eval|apply scripted_honest|apply (bool_decide_unpack _); vm_compute; exact I|].
  exists answer, sent. split; [exact Hf|]. split; [exact Hw|]. apply Hall; [reflexivity|apply scripted_prices].
Defined.
