(* ===== verification/Keyset.v ===== *)
(** * Pages cut at a key

    How the lists of the api are read: the order and the cut of a statement,
    [src/crates/persistence/src/repositories/helper/]: pagination.rs,
    query_mod.rs and, of parser.rs, the protocol and the decimals; and the [Page] of core/src/tools/pagination.rs. A read is a
    sequence of statements, each of which sees the tables as they are when it
    is run, or fails as [Postgres] decides. *)

From stdpp Require Import sorting.
From S2P Require Import Prelude Errors External Domain Store Cursor.

(** ** Statements that read *)

(** The rows at the [n]-th statement the reader sends; between two of them the
    writers go on. *)
Class Tables (R : Type) : Type := { rows_at : nat -> list R }.

(** A computation that sends statements: how many were sent, and its result. *)
Definition Query (E A : Type) : Type := nat -> nat * result A E.

Definition query_ret {E A} (a : A) : Query E A := fun n => (n, Ok a).
Definition query_bind {E A B} (q : Query E A) (k : A -> Query E B) : Query E B := fun n =>
  let (n, r) := q n in
  match r with
  | Ok a => k a n
  | Err e => (n, Err e)
  end.
Definition query_lift {E A} (r : result A E) : Query E A := fun n => (n, r).
Definition query_map_err {E F A} (f : E -> F) (q : Query E A) : Query F A := fun n =>
  let (n, r) := q n in (n, map_err f r).

Notation "'let>' x := q 'in' k" := (query_bind q (fun x => k))
  (at level 10, x pattern, q at level 100, k at level 200) : rust_scope.

(** One statement. *)
Definition select `{Postgres} {R A} `{!Tables R} (q : list R -> A) : Query RepositoryError A := fun n =>
  (S n, match fault n with Some e => Err e | None => Ok (q (rows_at n)) end).

(** [collect] into a [Result]: the first error stops it. *)
Fixpoint collect {E A B} (f : A -> result B E) (l : list A) : result (list B) E :=
  match l with
  | [] => Ok []
  | a :: l =>
    let? b := f a in
    let? bs := collect f l in
    Ok (b :: bs)
  end.

(** ** [ORDER BY], [LIMIT], [OFFSET] *)

Section Sql.
Context {A K : Type} (key : A -> K) (before : K -> K -> bool).

(** [a] may be listed ahead of [b]: [b]'s key does not come before its own. *)
Definition listed (a b : A) : Prop := before (key b) (key a) = false.

#[global] Instance listed_dec a b : Decision (listed a b).
Proof. unfold listed. apply _. Defined.

Definition order_by (rows : list A) : list A := merge_sort listed rows.
End Sql.

Definition limit {A} (n : Z) (rows : list A) : list A := take (Z.to_nat n) rows.
Definition offset {A} (n : Z) (rows : list A) : list A := drop (Z.to_nat n) rows.

(** The order of the texts of a column. *)
Class Collation : Type := { text_ltb : string -> string -> bool }.

(** [(a1, a2) < (b1, b2)] on a text and an integer; not true when the right
    side is NULL. *)
Definition row_ltb `{Collation} (a : string * Z) (b : option string * option Z) : bool :=
  match b with
  | (Some b1, Some b2) =>
      text_ltb (fst a) b1 || (bool_decide (fst a = b1) && (snd a <? b2))
  | (Some b1, None) => text_ltb (fst a) b1
  | _ => false
  end.

(** ** [tools/pagination.rs] *)

Module Page.
Record t (D T : Type) : Type := mk {
  items : list T;
  next_cursor : option (Cursor.t D);
  prev_cursor : option (Cursor.t D);
  is_first : bool;
  is_last : bool;
}.
Arguments mk {D T}.
Arguments items {D T}.
Arguments next_cursor {D T}.
Arguments prev_cursor {D T}.
Arguments is_first {D T}.
Arguments is_last {D T}.

(** At both boundaries at once. *)
Definition empty {D T} : t D T := mk [] None None true true.
End Page.

Inductive PageDirection : Type :=
| Next
| Prev.

Inductive PagePosition : Type :=
| First
| Last.

(** ** [query_mod.rs] *)

Inductive QueryMode : Type :=
| Forward
| Backward.

Definition resolve_query_mode {C} (position : option PagePosition) (cursor : option C)
    (direction : PageDirection) : QueryMode :=
  match position, cursor with
  | Some First, _ => Forward
  | Some Last, _ => Backward
  | None, None => Forward
  | None, Some _ =>
    match direction with
    | Next => Forward
    | Prev => Backward
    end
  end.

(** ** [pagination.rs] *)

Definition build_page_cursors {D T} (items : list T) (is_first is_last : bool)
    (make_cursor : T -> Cursor.t D) : option (Cursor.t D) * option (Cursor.t D) :=
  match items with
  | [] => (None, None)
  | _ =>
    let prev := if is_first then None else make_cursor <$> head items in
    let next := if is_last then None else make_cursor <$> last items in
    (prev, next)
  end.

Module PageBuilder.
Record t (T : Type) : Type := mk {
  items : list T;
  effective_limit : Z;
  mode : QueryMode;
  had_cursor : bool;
}.
Arguments mk {T}.
Arguments items {T}.
Arguments effective_limit {T}.
Arguments mode {T}.
Arguments had_cursor {T}.

Definition finalize {D T} (self : t T) (make_cursor : T -> Cursor.t D) : Page.t D T :=
  let has_more := effective_limit self <? Z.of_nat (length (items self)) in
  let items := if has_more then take (Z.to_nat (effective_limit self)) (items self) else items self in
  let items := match mode self with Backward => reverse items | Forward => items end in
  let (is_first, is_last) :=
    match mode self with
    | Forward => (negb (had_cursor self), negb has_more)
    | Backward => (negb has_more, negb (had_cursor self))
    end in
  let (prev_cursor, next_cursor) := build_page_cursors items is_first is_last make_cursor in
  Page.mk items next_cursor prev_cursor is_first is_last.
End PageBuilder.

(** ** [parser.rs] *)

(** A [NUMERIC] read back, and the text [Decimal] is parsed from. *)
Class BigDecimal (N : Type) : Type := { to_plain_string : N -> string }.

Module Parser.
Definition parse_protocol (raw : string) : RepositoryResult Protocol :=
  map_err (fun _ => Integrity ("invalid protocol: unknown program id: " ++ raw)) (Protocol_from_str raw).

(** The text of the failed parse, [rust_decimal]'s, is left out of the message. *)
Definition convert_bigdecimal_to_decimal {N D} `{BigDecimal N} `{DecimalFromStr D} (value : N) (field : string) :
    RepositoryResult D :=
  ok_or (dec_of_string (to_plain_string value))
    (Integrity ("failed to convert " ++ field ++ " from BigDecimal to Decimal")).
End Parser.
