(* ===== verification/KeysetFacts.v ===== *)
(** * What a keyset page promises

    Generic facts of [Keyset.v]: a strict total order on keys decides what
    [ORDER BY ... LIMIT] gives, so a page is characterised by what it holds; the
    unions cut before they are merged, and the reads narrowed by an instant, are
    the same page. *)

From stdpp Require Import sorting.
From S2P Require Import Prelude Errors External Domain Store Cursor Keyset.

(** ** Strict total orders on keys *)

Class StrictTotal {K} (before : K -> K -> bool) : Prop := {
  before_irrefl : forall k, before k k = false;
  before_trans : forall a b c, before a b = true -> before b c = true -> before a c = true;
  before_total : forall a b, before a b = false -> before b a = false -> a = b;
}.

#[global] Instance Z_ltb_total : StrictTotal Z.ltb.
Proof. split; intros; rewrite ?Z.ltb_ge in *; lia. Qed.

(** The collation of a text column: PostgreSQL's comparison of distinct texts. *)
Class CollationLaws `{Collation} : Prop := { text_total :: StrictTotal text_ltb }.

Section Order.
Context {A K : Type} (key : A -> K) (before : K -> K -> bool) `{!StrictTotal before}.
Implicit Types (l t : list A) (a b : A).

Notation first := (fun a b => before (key a) (key b) = true).
Notation keys_distinct l := (NoDup (map key l)).

Lemma before_asym (a b : K) : before a b = true -> before b a = false.
Proof.
  intros Hab. destruct (before b a) eqn:Hba; [|done].
  pose proof (before_trans _ _ _ Hab Hba) as Haa. by rewrite before_irrefl in Haa.
Qed.

#[global] Instance listed_total : Total (listed key before).
Proof.
  intros a b. unfold listed. destruct (before (key b) (key a)) eqn:Hba; [|by left].
  right. by apply before_asym.
Qed.

#[global] Instance listed_trans : Transitive (listed key before).
Proof.
  intros a b c Hab Hbc. unfold listed in *. destruct (before (key c) (key a)) eqn:Hca; [|done].
  destruct (before (key a) (key b)) eqn:Hab'.
  - by rewrite (before_trans _ _ _ Hca Hab') in Hbc.
  - rewrite (before_total _ _ Hab' Hab) in Hca. congruence.
Qed.

Lemma keys_distinct_perm l l' : l ≡ₚ l' -> keys_distinct l -> keys_distinct l'.
Proof.
  intros Hp Hn. assert (map key l ≡ₚ map key l') as Hm by (by apply Permutation_map). by rewrite <- Hm.
Qed.

Lemma order_by_perm l : order_by key before l ≡ₚ l.
Proof. apply merge_sort_Permutation. Qed.

Lemma key_inj l a b : keys_distinct l -> a ∈ l -> b ∈ l -> key a = key b -> a = b.
Proof.
  intros Hnd [i Ha]%list_elem_of_lookup [j Hb]%list_elem_of_lookup Hk.
  assert (i = j) as ->; [|congruence].
  eapply NoDup_lookup; [exact Hnd| |]; rewrite list_lookup_fmap; [rewrite Ha|rewrite Hb]; simpl; by rewrite ?Hk.
Qed.

Lemma keys_distinct_NoDup l : keys_distinct l -> NoDup l.
Proof. apply NoDup_fmap_1. Qed.

(** Of two rows listed in this order, with distinct keys, the first comes first. *)
Lemma listed_first a b : listed key before a b -> key a <> key b -> before (key a) (key b) = true.
Proof.
  unfold listed. intros Hba Hne. destruct (before (key a) (key b)) eqn:Hab; [done|].
  by destruct (Hne (before_total _ _ Hab Hba)).
Qed.

Lemma order_by_sorted l : keys_distinct l -> StronglySorted first (order_by key before l).
Proof.
  intros Hnd. assert (keys_distinct (order_by key before l)) as Hnd'.
  { eapply keys_distinct_perm; [|exact Hnd]. symmetry. apply order_by_perm. }
  assert (StronglySorted (listed key before) (order_by key before l)) as Hs
    by (apply StronglySorted_merge_sort; apply _).
  induction Hs as [|a l' Hs IH Ha]; constructor; inversion_clear Hnd' as [|?? Hn Hnd''].
  - by apply IH.
  - apply List.Forall_forall. intros b Hb. apply listed_first.
    + by apply (proj1 (List.Forall_forall _ _) Ha).
    + intros He. apply Hn. rewrite He. apply list_elem_of_In. by apply in_map.
Qed.

Lemma sorted_keys_distinct l : StronglySorted first l -> keys_distinct l.
Proof.
  induction 1 as [|a l Hs IH Ha]; constructor; [|done].
  intros (b & Hk & Hb)%list_elem_of_fmap. rewrite Forall_forall in Ha.
  specialize (Ha b Hb). simpl in Ha. rewrite Hk, before_irrefl in Ha. done.
Qed.

(** There is one list of given rows in this order. *)
Lemma sorted_unique l l' :
  StronglySorted first l -> StronglySorted first l' -> l ≡ₚ l' -> l = l'.
Proof.
  intros Hl Hl' Hp.
  revert l' Hl' Hp. induction Hl as [|a l Hl IH Ha]; intros l' Hl' Hp.
  - by apply Permutation_nil in Hp as ->.
  - destruct Hl' as [|b l' Hl' Hb]; [by apply Permutation_nil_r in Hp|].
    rewrite Forall_forall in Ha, Hb.
    assert (a = b) as <-.
    { assert (a ∈ b :: l') as Hal by (rewrite <- Hp; by left).
      assert (b ∈ a :: l) as Hbl by (rewrite Hp; by left).
      apply elem_of_cons in Hal as [->|Hal]; [done|]. apply elem_of_cons in Hbl as [->|Hbl]; [done|].
      specialize (Hb _ Hal). specialize (Ha _ Hbl). simpl in *. by rewrite (before_asym _ _ Ha) in Hb. }
    f_equal. apply IH; [done|]. by apply Permutation_cons_inv in Hp.
Qed.

Lemma order_by_ext l l' : keys_distinct l -> l ≡ₚ l' -> order_by key before l = order_by key before l'.
Proof.
  intros Hnd Hp. apply sorted_unique.
  - by apply order_by_sorted.
  - apply order_by_sorted. by eapply keys_distinct_perm.
  - by rewrite !order_by_perm.
Qed.

Lemma sorted_app l1 l2 :
  StronglySorted first (l1 ++ l2) <->
  StronglySorted first l1 /\ StronglySorted first l2 /\ forall a b, a ∈ l1 -> b ∈ l2 -> before (key a) (key b) = true.
Proof.
  split.
  - intros Hs. split_and!; [by eapply StronglySorted_app_1_l|by eapply StronglySorted_app_1_r|].
    intros a b Ha Hb. by eapply (StronglySorted_app_1_elem_of first).
  - intros (H1 & H2 & H12). apply StronglySorted_app; done.
Qed.

(** ** The cut *)

Definition top (n : nat) (l : list A) : list A := take n (order_by key before l).

(** What the first [n] rows are: [n] of them or all, in order, each before
    every one of the rest. *)
Record is_top (n : nat) l t (rest : list A) : Prop := {
  top_perm : l ≡ₚ t ++ rest;
  top_sorted : StronglySorted first t;
  top_length : length t = (n `min` length l)%nat;
  top_rest : forall b a, b ∈ t -> a ∈ rest -> before (key b) (key a) = true;
}.

Definition remaining (n : nat) (l : list A) : list A := drop n (order_by key before l).

Lemma top_remaining n l : l ≡ₚ top n l ++ remaining n l.
Proof. unfold top, remaining. by rewrite take_drop, order_by_perm. Qed.

Lemma top_is_top n l : keys_distinct l -> is_top n l (top n l) (remaining n l).
Proof.
  intros Hnd. pose proof (order_by_sorted l Hnd) as Hs.
  rewrite <- (take_drop n (order_by key before l)) in Hs. apply sorted_app in Hs as (Ht & Hd & Htd).
  split; [apply top_remaining|done| |done].
  unfold top. by rewrite length_take, order_by_perm.
Qed.

Lemma is_top_unique n l t rest : keys_distinct l -> is_top n l t rest -> t = top n l.
Proof.
  intros Hnd [Hp Hs Hlen Hrest].
  assert (keys_distinct (t ++ rest)) as Hk by (by eapply keys_distinct_perm).
  unfold top. rewrite (order_by_ext _ _ Hnd Hp).
  assert (order_by key before (t ++ rest) = t ++ order_by key before rest) as ->.
  { apply sorted_unique.
    - by apply order_by_sorted.
    - apply sorted_app. split_and!; [done| |].
      + apply order_by_sorted. rewrite map_app in Hk. by apply NoDup_app in Hk as (_ & _ & ?).
      + intros b a Hb Ha. rewrite order_by_perm in Ha. by apply Hrest.
    - by rewrite !order_by_perm. }
  pose proof (Permutation_length Hp) as Hl. rewrite length_app in Hl.
  destruct (decide (n <= length l)%nat) as [Hn|Hn].
  - rewrite take_app_le, take_ge by lia. done.
  - assert (rest = []) as -> by (apply nil_length_inv; lia).
    assert (order_by key before [] = []) as -> by done. by rewrite app_nil_r, take_ge by lia.
Qed.

(** The rows a page holds and those it leaves share no key. *)
Lemma keys_distinct_app_l l1 l2 : keys_distinct (l1 ++ l2) -> keys_distinct l1.
Proof. rewrite map_app. by intros (? & _ & _)%NoDup_app. Qed.
Lemma keys_distinct_app_r l1 l2 : keys_distinct (l1 ++ l2) -> keys_distinct l2.
Proof. rewrite map_app. by intros (_ & _ & ?)%NoDup_app. Qed.
Lemma keys_distinct_app_ne l1 l2 a b :
  keys_distinct (l1 ++ l2) -> a ∈ l1 -> b ∈ l2 -> key a <> key b.
Proof.
  rewrite map_app. intros (_ & Hd & _)%NoDup_app Ha Hb He. apply (Hd (key a)).
  - by apply list_elem_of_fmap_2.
  - rewrite He. by apply list_elem_of_fmap_2.
Qed.

Lemma keys_distinct_part l l1 l2 : l ≡ₚ l1 ++ l2 -> keys_distinct l -> keys_distinct l1.
Proof. intros Hp Hnd. eapply keys_distinct_app_l, keys_distinct_perm; [exact Hp|done]. Qed.

Lemma top_idem n l : keys_distinct l -> top n (top n l) = top n l.
Proof.
  intros Hnd. destruct (top_is_top n l Hnd) as [_ Hs Hl _]. symmetry.
  apply (is_top_unique n (top n l) _ []).
  - by apply sorted_keys_distinct.
  - split; [by rewrite app_nil_r|done|lia|by intros b a _ []%elem_of_nil].
Qed.

Lemma subset_length (l l' : list A) : NoDup l -> (forall a, a ∈ l -> a ∈ l') -> (length l <= length l')%nat.
Proof. intros Hnd Hs. apply submseteq_length. by apply NoDup_submseteq. Qed.

(** *** Cutting before merging *)

(** A row of [l] that [top n l] leaves comes after all that the top of a larger
    list takes. *)
Lemma top_leaves n l l' b a :
  keys_distinct (l ++ l') -> b ∈ top n (top n l ++ l') -> a ∈ remaining n l ->
  before (key b) (key a) = true.
Proof.
  intros Hnd Hb Ha. set (red := top n l ++ l').
  assert (keys_distinct l) as Hndl by (by eapply keys_distinct_app_l).
  destruct (top_is_top n l Hndl) as [Hp Hs Hlen Hrest].
  assert (keys_distinct (red ++ remaining n l)) as Hndr.
  { eapply keys_distinct_perm; [|exact Hnd]. unfold red. rewrite Hp at 1. rewrite <- !app_assoc.
    apply Permutation_app_head, Permutation_app_comm. }
  assert (keys_distinct red) as Hndred by (by eapply keys_distinct_app_l).
  destruct (top_is_top n red Hndred) as [Hpr Hsr Hlenr Hrestr].
  destruct (before (key b) (key a)) eqn:Hba; [done|]. exfalso.
  assert (b ∈ red) as Hbred by (rewrite Hpr; apply elem_of_app; by left).
  assert (before (key a) (key b) = true) as Hab.
  { apply listed_first; [done|]. intros He. by apply (keys_distinct_app_ne _ _ _ _ Hndr Hbred Ha). }
  assert (forall y, y ∈ top n l -> before (key y) (key b) = true) as Hall.
  { intros y Hy. eapply before_trans; [by apply Hrest|done]. }
  assert (length (b :: top n l) <= length (top n red))%nat as Hle.
  { apply subset_length.
    - constructor; [|apply keys_distinct_NoDup; by apply sorted_keys_distinct].
      intros Hbt. specialize (Hall _ Hbt). by rewrite before_irrefl in Hall.
    - intros y [->|Hy]%elem_of_cons; [done|].
      assert (y ∈ red) as Hyr by (apply elem_of_app; by left).
      rewrite Hpr in Hyr. apply elem_of_app in Hyr as [?|Hyr]; [done|].
      specialize (Hrestr _ _ Hb Hyr). by rewrite (before_asym _ _ (Hall _ Hy)) in Hrestr. }
  assert (length (remaining n l) <> 0)%nat as Hne.
  { intros Hz. apply nil_length_inv in Hz. rewrite Hz in Ha. by apply elem_of_nil in Ha. }
  pose proof (Permutation_length Hp) as Hpl. rewrite length_app in Hpl. simpl in Hle. lia.
Qed.

Lemma top_app n l1 l2 : keys_distinct (l1 ++ l2) -> top n (top n l1 ++ l2) = top n (l1 ++ l2).
Proof.
  intros Hnd. set (red := top n l1 ++ l2).
  assert (l1 ++ l2 ≡ₚ red ++ remaining n l1) as Hp.
  { unfold red. rewrite (top_remaining n l1) at 1. rewrite <- !app_assoc.
    apply Permutation_app_head, Permutation_app_comm. }
  assert (keys_distinct red) as Hndred by (by eapply keys_distinct_part).
  destruct (top_is_top n red Hndred) as [Hpr Hsr Hlenr Hrestr].
  destruct (top_is_top n l1 (keys_distinct_app_l _ _ Hnd)) as [Hp1 _ Hlen1 _].
  apply (is_top_unique n _ _ (remaining n red ++ remaining n l1)); [done|]. split.
  - rewrite Hp, Hpr at 1. by rewrite app_assoc.
  - done.
  - rewrite Hlenr. unfold red. rewrite !length_app, Hlen1. lia.
  - intros b a Hb [Ha|Ha]%elem_of_app; [by apply Hrestr|]. by apply (top_leaves n l1 l2).
Qed.

Lemma top_concat_rest n (parts : list (list A)) :
  exists rest, concat parts ≡ₚ concat (map (top n) parts) ++ rest.
Proof.
  induction parts as [|q ps [rest Hr]]; [by exists []|]. cbn [concat map].
  exists (rest ++ remaining n q). rewrite Hr, (top_remaining n q) at 1.
  rewrite <- !app_assoc. apply Permutation_app_head. rewrite (Permutation_app_comm (remaining n q)).
  by rewrite <- app_assoc.
Qed.

Lemma top_concat_distinct n (parts : list (list A)) :
  keys_distinct (concat parts) -> keys_distinct (concat (map (top n) parts)).
Proof.
  intros Hnd. destruct (top_concat_rest n parts) as [rest Hr]. by eapply keys_distinct_part.
Qed.

Lemma top_concat n (parts : list (list A)) :
  keys_distinct (concat parts) -> top n (concat (map (top n) parts)) = top n (concat parts).
Proof.
  induction parts as [|p ps IH]; [done|]. cbn [concat map]. intros Hnd.
  specialize (IH (keys_distinct_app_r _ _ Hnd)).
  destruct (top_concat_rest n ps) as [rest Hr].
  assert (keys_distinct (p ++ concat (map (top n) ps))) as Hnd'.
  { apply (keys_distinct_app_l _ rest). eapply keys_distinct_perm; [|exact Hnd].
    by rewrite Hr, app_assoc. }
  assert (forall l, keys_distinct (p ++ l) -> top n (p ++ l) = top n (p ++ top n l)) as Hswap.
  { intros l Hl. unfold top at 1 2. rewrite (order_by_ext _ _ Hl (Permutation_app_comm _ _)).
    assert (keys_distinct (l ++ p)) as Hl' by (by eapply keys_distinct_perm; [apply Permutation_app_comm|]).
    pose proof (top_app n l p Hl') as He. unfold top at 1 3 in He. rewrite <- He. f_equal.
    apply order_by_ext; [|apply Permutation_app_comm].
    apply (keys_distinct_app_l _ (remaining n l)). eapply keys_distinct_perm; [|exact Hl'].
    rewrite (top_remaining n l) at 1. rewrite <- !app_assoc.
    apply Permutation_app_head, Permutation_app_comm. }
  rewrite (top_app n p) by done. rewrite (Hswap _ Hnd'), IH. by rewrite <- (Hswap _ Hnd).
Qed.

(** *** Narrowing the read *)

(** Rows all listed after the [n] first ones may be left out. *)
Lemma top_filter n (f : A -> bool) l :
  keys_distinct l ->
  (forall b a, b ∈ l -> a ∈ l -> f b = true -> f a = false -> before (key b) (key a) = true) ->
  (n <= length (List.filter f l) \/ forall a, a ∈ l -> f a = true)%nat ->
  top n (List.filter f l) = top n l.
Proof.
  intros Hnd Hup Hn.
  assert (l ≡ₚ List.filter f l ++ List.filter (fun a => negb (f a)) l) as Hp.
  { clear. induction l as [|a l IH]; [done|]. simpl. destruct (f a); simpl.
    - by rewrite IH at 1.
    - rewrite IH at 1. by rewrite Permutation_middle. }
  assert (keys_distinct (List.filter f l)) as Hndf by (by eapply keys_distinct_part).
  destruct (top_is_top n _ Hndf) as [Hpf Hs Hlen Hrest].
  apply (is_top_unique n l _ (remaining n (List.filter f l) ++ List.filter (fun a => negb (f a)) l)); [done|].
  assert (forall (g : A -> bool) a, a ∈ List.filter g l -> a ∈ l /\ g a = true) as Hin.
  { intros g a Ha. by apply list_elem_of_In, List.filter_In in Ha as [?%list_elem_of_In ?]. }
  split.
  - rewrite Hp, Hpf at 1. by rewrite app_assoc.
  - done.
  - destruct Hn as [Hn|Hall].
    + rewrite Hlen. pose proof (Permutation_length Hp) as Hl. rewrite length_app in Hl. lia.
    + rewrite Hlen. f_equal. pose proof (Permutation_length Hp) as Hl. rewrite length_app in Hl.
      destruct (List.filter (fun a => negb (f a)) l) as [|a r] eqn:He; [simpl in Hl; lia|].
      assert (a ∈ List.filter (fun a => negb (f a)) l) as Ha by (rewrite He; by left).
      apply Hin in Ha as [Ha Hf]. by rewrite (Hall a Ha) in Hf.
  - intros b a Hb [Ha|Ha]%elem_of_app; [by apply Hrest|].
    apply Hin in Ha as [Ha Hfa]. apply negb_true_iff in Hfa.
    assert (b ∈ List.filter f l) as [Hbl Hfb]%Hin by (rewrite Hpf; apply elem_of_app; by left).
    by apply Hup.
Qed.
End Order.

(** The order goes through a map that keeps the keys. *)
Lemma order_by_map {A B K} (f : A -> B) (key : A -> K) (key' : B -> K) (before : K -> K -> bool)
    `{!StrictTotal before} l :
  (forall a, key' (f a) = key a) -> NoDup (map key l) ->
  order_by key' before (map f l) = map f (order_by key before l).
Proof.
  intros Hk Hnd. apply (sorted_unique key' before).
  - apply order_by_sorted; [done|]. by rewrite map_map, (map_ext _ _ Hk).
  - pose proof (order_by_sorted key before l Hnd) as Hs. induction Hs as [|a s Hs IH Ha]; [constructor|].
    simpl. constructor; [done|]. apply Forall_fmap. eapply Forall_impl; [exact Ha|].
    intros b Hb. simpl. by rewrite !Hk.
  - rewrite order_by_perm. apply Permutation_map. by rewrite order_by_perm.
Qed.

(** ** A collation *)

Module Bytes.
(** The order of the bytes. *)
#[export] Instance bytes_collation : Collation := {
  text_ltb a b := bool_decide (String.le a b) && negb (bool_decide (a = b));
}.
#[export] Instance bytes_collation_laws : CollationLaws.
Proof.
  split. split; simpl.
  - intros k. by rewrite (bool_decide_eq_true_2 (k = k)), andb_false_r.
  - intros a b c. rewrite !andb_true_iff, !negb_true_iff, !bool_decide_eq_true, !bool_decide_eq_false.
    intros [Hab Hne] [Hbc _]. split; [by etrans|]. intros ->. apply Hne. by apply (anti_symm String.le).
  - intros a b. rewrite !andb_false_iff, !negb_false_iff, !bool_decide_eq_true, !bool_decide_eq_false.
    intros [Hab|?] [Hba|?]; [|done..]. by destruct (total String.le a b).
Qed.
End Bytes.
