(* ===== verification/EventLists.v ===== *)
(** * The lists of on-chain events

    [src/crates/persistence/src/repositories/]: helper/event_page.rs and the
    nine event lists, a Module each: six of one table, and three merged from
    several. Instants are compared to the nanosecond; a TIMESTAMPTZ keeps
    microseconds, and the instants of the blocks are whole seconds. *)

From S2P Require Import Prelude Errors External Domain Store Rows Cursor Keyset.

(** [BIGINT GENERATED BY DEFAULT AS IDENTITY]: the id of a row in its table. *)
Class RowIds : Type := { id_of : MeteoraDammV2Event.t -> Z }.

(** ** [event_page.rs] *)

Module EventKey.
Record t : Type := mk {
  at_ : option DateTime;
  signature : option string;
  event_index : option Z;
}.

Definition of_ `{SignatureDisplay} (cursor : option EventCursor.t) : t := {|
  at_ := EventCursor.at_ <$> cursor;
  signature := (fun c => signature_to_string (EventCursor.signature c)) <$> cursor;
  event_index := EventCursor.event_index <$> cursor;
|}.
End EventKey.

(** Forward only: no previous cursor. *)
Definition finish_event_page {D T} (events : list T) (limit : Z) (had_cursor : bool)
    (cursor : T -> Cursor.t D) : Page.t D T :=
  let page := PageBuilder.finalize (PageBuilder.mk events limit Forward had_cursor) cursor in
  Page.mk (Page.items page) (Page.next_cursor page) None (Page.is_first page) (Page.is_last page).

Module MergedEventKey.
Record t : Type := mk {
  kind : string;
  id : Z;
  timestamp : DateTime;
}.
End MergedEventKey.

Definition min_of (l : list DateTime) : option DateTime :=
  match l with [] => None | t :: l => Some (foldl Z.min t l) end.
Definition max_of (l : list DateTime) : option DateTime :=
  match l with [] => None | t :: l => Some (foldl Z.max t l) end.

Definition instants_of (keys : list MergedEventKey.t) : option (DateTime * DateTime) :=
  let! first := min_of (map MergedEventKey.timestamp keys) in
  let! last := max_of (map MergedEventKey.timestamp keys) in
  Some (first, last).

Definition ids_of (keys : list MergedEventKey.t) (kind : string) : list Z :=
  map MergedEventKey.id
    (List.filter (fun k => bool_decide (MergedEventKey.kind k = kind)) keys).

(** A key without its row is an integrity error. *)
Fixpoint in_key_order {T} (keys : list MergedEventKey.t) (rows : gmap (string * Z) T) :
    RepositoryResult (list T) :=
  match keys with
  | [] => Ok []
  | k :: keys =>
    let at_ := (MergedEventKey.kind k, MergedEventKey.id k) in
    let? row := ok_or (rows !! at_)
      (Integrity ("event " ++ MergedEventKey.kind k ++ " " ++ pretty.pretty (MergedEventKey.id k) ++
        " without its row")) in
    let? events := in_key_order keys (delete at_ rows) in
    Ok (row :: events)
  end.

Section Lists.
Context {D : Type} `{Postgres} `{!Tables MeteoraDammV2Event.t} `{Collation} `{RowIds}.
Context `{Base58} `{SignatureDisplay} `{SignatureFromStr}.
Notation Event := MeteoraDammV2Event.t.

(** ** The statements *)

Definition pool_address_column (w : Event) : string :=
  pubkey_to_string (MeteoraDammV2Event.pool_address w).
Definition signature_column (w : Event) : string := signature_to_string (MeteoraDammV2Event.signature w).
Definition event_index_column (w : Event) : Z :=
  EventPosition.event_index (MeteoraDammV2Event.position_of w).

(** [ORDER BY timestamp DESC, signature DESC, event_index DESC]. *)
Definition sort_key : Type := DateTime * string * Z.
Definition row_key (w : Event) : sort_key :=
  (MeteoraDammV2Event.timestamp w, signature_column w, event_index_column w).
Definition key_desc (a b : sort_key) : bool :=
  let '(at_, asig, aidx) := a in
  let '(bt, bsig, bidx) := b in
  (bt <? at_) || ((bt =? at_) &&
    (text_ltb bsig asig || (bool_decide (bsig = asig) && (bidx <? aidx)))).

(** [timestamp <= COALESCE(at, 'infinity') AND (timestamp < COALESCE(at,
    'infinity') OR (signature, event_index) < (signature, event_index))]. *)
Definition after_key (key : EventKey.t) (w : Event) : bool :=
  let t := MeteoraDammV2Event.timestamp w in
  match EventKey.at_ key with Some a => t <=? a | None => true end &&
  (match EventKey.at_ key with Some a => t <? a | None => true end ||
   row_ltb (signature_column w, event_index_column w) (EventKey.signature key, EventKey.event_index key)).

Definition in_table (name : string) (pool : option string) (w : Event) : bool :=
  bool_decide (table w = name) &&
  match pool with Some p => bool_decide (pool_address_column w = p) | None => true end.

Definition where_after (name : string) (pool : option string) (from : DateTime) (key : EventKey.t)
    (w : Event) : bool :=
  in_table name pool w && (from <=? MeteoraDammV2Event.timestamp w) && after_key key w.

(** A table's rows after the key, newest first. *)
Definition rows_after (name : string) (pool : option string) (from : DateTime) (key : EventKey.t)
    (n : Z) (rows : list Event) : list Event :=
  limit n (order_by row_key key_desc (List.filter (where_after name pool from key) rows)).

Definition select_page (name : string) (pool : option string) (from : DateTime) (key : EventKey.t)
    (n : Z) : Query RepositoryError (list Event) :=
  select (rows_after name pool from key n).

(** The instant of the [n]-th row after the key. *)
Definition select_floor (name : string) (pool : option string) (from : DateTime) (key : EventKey.t)
    (n : Z) : Query RepositoryError (option DateTime) :=
  select (fun rows => head (limit 1 (offset (n - 1)
    (order_by id (fun a b => b <? a)
      (map MeteoraDammV2Event.timestamp (List.filter (where_after name pool from key) rows)))))).

(** ** What the lists share *)

(** A list by its scope: [read] sends the statements of one pool or of all.
    DLMM has no table yet. *)
Definition list_scoped
    (read : option string -> DateTime -> EventKey.t -> Z -> Query RepositoryError (list Event))
    (cursor_of : EventCursor.t -> Cursor.t D)
    (scope : EventScope.t) (from : DateTime) (cursor : option EventCursor.t) (limit : Z) :
    Query RepositoryError (Page.t D Event) :=
  let key := EventKey.of_ cursor in
  let finish (events : list Event) :=
    finish_event_page events limit (bool_decide (is_Some cursor)) (fun e =>
      cursor_of (EventCursor.mk scope from (MeteoraDammV2Event.timestamp e)
        (MeteoraDammV2Event.signature e) (event_index_column e))) in
  match scope with
  | EventScope.Protocol MeteoraDlmm => query_ret Page.empty
  | EventScope.All | EventScope.Protocol MeteoraDammV2 =>
      let> events := read None from key (limit + 1) in query_ret (finish events)
  | EventScope.Pool pool =>
      let> events := read (Some (pubkey_to_string pool)) from key (limit + 1) in
      query_ret (finish events)
  end.

(** The rows of a read, each converted. *)
Definition converted (rows : Query RepositoryError (list Event)) : Query RepositoryError (list Event) :=
  let> rows := rows in query_lift (collect try_from_row rows).

(** *** Merged lists *)

(** A row of the union: the columns of one of its tables, under its kind. *)
Record UnionRow : Type := union_row {
  union_kind : string;
  union_id : Z;
  union_key : sort_key;
}.

(** [kinds]: the kind of each branch, and its table. *)
Definition union_branch (pool : option string) (from : DateTime) (key : EventKey.t) (n : Z)
    (rows : list Event) (branch : string * string) : list UnionRow :=
  map (fun w => union_row (fst branch) (id_of w) (row_key w)) (rows_after (snd branch) pool from key n rows).

Definition merged_key (u : UnionRow) : MergedEventKey.t :=
  MergedEventKey.mk (union_kind u) (union_id u) (fst (fst (union_key u))).

Definition select_keys (kinds : list (string * string)) (pool : option string) (from : DateTime)
    (key : EventKey.t) (n : Z) : Query RepositoryError (list MergedEventKey.t) :=
  select (fun rows => map merged_key
    (limit n (order_by union_key key_desc (concat (map (union_branch pool from key n rows) kinds))))).

(** [WHERE id = ANY(ids) AND timestamp >= first AND timestamp <= last]; no
    statement for no id. *)
Definition fetch_rows (name : string) (ids : list Z) (span : DateTime * DateTime) :
    Query RepositoryError (list Event) :=
  match ids with
  | [] => query_ret []
  | _ => select (List.filter (fun w => bool_decide (table w = name) && bool_decide (id_of w ∈ ids) &&
      (fst span <=? MeteoraDammV2Event.timestamp w) && (MeteoraDammV2Event.timestamp w <=? snd span)))
  end.

Fixpoint insert_changes (kind : string) (rows : list Event) (changes : gmap (string * Z) Event) :
    RepositoryResult (gmap (string * Z) Event) :=
  match rows with
  | [] => Ok changes
  | row :: rows =>
    let? e := try_from_row row in
    insert_changes kind rows (<[(kind, id_of row) := e]> changes)
  end.

(** The tables one after the other, by [fetch]. *)
Fixpoint fetch_changes (kinds : list string)
    (fetch : string -> list Z -> DateTime * DateTime -> Query RepositoryError (list Event))
    (keys : list MergedEventKey.t) (span : DateTime * DateTime) (changes : gmap (string * Z) Event) :
    Query RepositoryError (gmap (string * Z) Event) :=
  match kinds with
  | [] => query_ret changes
  | kind :: kinds =>
    let> rows := fetch kind (ids_of keys kind) span in
    let> changes := query_lift (insert_changes kind rows changes) in
    fetch_changes kinds fetch keys span changes
  end.

Definition fetch_merged (kinds : list string)
    (fetch : string -> list Z -> DateTime * DateTime -> Query RepositoryError (list Event))
    (keys : list MergedEventKey.t) : Query RepositoryError (list Event) :=
  match instants_of keys with
  | None => query_ret []
  | Some span =>
    let> changes := fetch_changes kinds fetch keys span ∅ in
    query_lift (in_key_order keys changes)
  end.
End Lists.

(** ** [swap_event.rs] *)

Module SwapEvents.
Section List.
Context {D : Type} `{Postgres} `{!Tables MeteoraDammV2Event.t} `{Collation} `{RowIds}.
Context `{Base58} `{SignatureDisplay} `{SignatureFromStr}.

(** In two reads: the instant of the [n]-th swap, then the swaps from it on. *)
Definition list_meteora_damm_v2 (from : DateTime) (key : EventKey.t) (n : Z) :
    Query RepositoryError (list MeteoraDammV2Event.t) :=
  let> floor := select_floor "meteora_damm_v2_swap_events" None from key n in
  select_page "meteora_damm_v2_swap_events" None (Z.max from (default from floor)) key n.

Definition list_meteora_damm_v2_pool (pool : string) (from : DateTime) (key : EventKey.t) (n : Z) :
    Query RepositoryError (list MeteoraDammV2Event.t) :=
  let> floor := select_floor "meteora_damm_v2_swap_events" (Some pool) from key n in
  select_page "meteora_damm_v2_swap_events" (Some pool) (Z.max from (default from floor)) key n.

Definition list_events (scope : EventScope.t) (from : DateTime) (cursor : option EventCursor.t) (limit : Z) :
    Query RepositoryError (Page.t D MeteoraDammV2Event.t) :=
  list_scoped (fun pool from key n => converted
      match pool with
      | None => list_meteora_damm_v2 from key n
      | Some pool => list_meteora_damm_v2_pool pool from key n
      end)
    Cursor.SwapEvent scope from cursor limit.
End List.
End SwapEvents.

(** ** [liquidity_change_event.rs] *)

Module LiquidityChangeEvents.
Section List.
Context {D : Type} `{Postgres} `{!Tables MeteoraDammV2Event.t} `{Collation} `{RowIds}.
Context `{Base58} `{SignatureDisplay} `{SignatureFromStr}.

Definition list_meteora_damm_v2 (from : DateTime) (key : EventKey.t) (n : Z) :
    Query RepositoryError (list MeteoraDammV2Event.t) :=
  select_page "meteora_damm_v2_liquidity_events" None from key n.

Definition list_meteora_damm_v2_pool (pool : string) (from : DateTime) (key : EventKey.t) (n : Z) :
    Query RepositoryError (list MeteoraDammV2Event.t) :=
  select_page "meteora_damm_v2_liquidity_events" (Some pool) from key n.

Definition list_events (scope : EventScope.t) (from : DateTime) (cursor : option EventCursor.t) (limit : Z) :
    Query RepositoryError (Page.t D MeteoraDammV2Event.t) :=
  list_scoped (fun pool from key n => converted
      match pool with
      | None => list_meteora_damm_v2 from key n
      | Some pool => list_meteora_damm_v2_pool pool from key n
      end)
    Cursor.LiquidityChangeEvent scope from cursor limit.
End List.
End LiquidityChangeEvents.

(** ** [position_fee_claim_event.rs] *)

Module PositionFeeClaimEvents.
Section List.
Context {D : Type} `{Postgres} `{!Tables MeteoraDammV2Event.t} `{Collation} `{RowIds}.
Context `{Base58} `{SignatureDisplay} `{SignatureFromStr}.

Definition list_meteora_damm_v2 (from : DateTime) (key : EventKey.t) (n : Z) :
    Query RepositoryError (list MeteoraDammV2Event.t) :=
  select_page "meteora_damm_v2_claim_position_fee_events" None from key n.

Definition list_meteora_damm_v2_pool (pool : string) (from : DateTime) (key : EventKey.t) (n : Z) :
    Query RepositoryError (list MeteoraDammV2Event.t) :=
  select_page "meteora_damm_v2_claim_position_fee_events" (Some pool) from key n.

Definition list_events (scope : EventScope.t) (from : DateTime) (cursor : option EventCursor.t) (limit : Z) :
    Query RepositoryError (Page.t D MeteoraDammV2Event.t) :=
  list_scoped (fun pool from key n => converted
      match pool with
      | None => list_meteora_damm_v2 from key n
      | Some pool => list_meteora_damm_v2_pool pool from key n
      end)
    Cursor.PositionFeeClaimEvent scope from cursor limit.
End List.
End PositionFeeClaimEvents.

(** ** [protocol_fee_claim_event.rs] *)

Module ProtocolFeeClaimEvents.
Section List.
Context {D : Type} `{Postgres} `{!Tables MeteoraDammV2Event.t} `{Collation} `{RowIds}.
Context `{Base58} `{SignatureDisplay} `{SignatureFromStr}.

Definition list_meteora_damm_v2 (from : DateTime) (key : EventKey.t) (n : Z) :
    Query RepositoryError (list MeteoraDammV2Event.t) :=
  select_page "meteora_damm_v2_claim_protocol_fee_events" None from key n.

Definition list_meteora_damm_v2_pool (pool : string) (from : DateTime) (key : EventKey.t) (n : Z) :
    Query RepositoryError (list MeteoraDammV2Event.t) :=
  select_page "meteora_damm_v2_claim_protocol_fee_events" (Some pool) from key n.

Definition list_events (scope : EventScope.t) (from : DateTime) (cursor : option EventCursor.t) (limit : Z) :
    Query RepositoryError (Page.t D MeteoraDammV2Event.t) :=
  list_scoped (fun pool from key n => converted
      match pool with
      | None => list_meteora_damm_v2 from key n
      | Some pool => list_meteora_damm_v2_pool pool from key n
      end)
    Cursor.ProtocolFeeClaimEvent scope from cursor limit.
End List.
End ProtocolFeeClaimEvents.

(** ** [reward_claim_event.rs] *)

Module RewardClaimEvents.
Section List.
Context {D : Type} `{Postgres} `{!Tables MeteoraDammV2Event.t} `{Collation} `{RowIds}.
Context `{Base58} `{SignatureDisplay} `{SignatureFromStr}.

Definition list_meteora_damm_v2 (from : DateTime) (key : EventKey.t) (n : Z) :
    Query RepositoryError (list MeteoraDammV2Event.t) :=
  select_page "meteora_damm_v2_claim_reward_events" None from key n.

Definition list_meteora_damm_v2_pool (pool : string) (from : DateTime) (key : EventKey.t) (n : Z) :
    Query RepositoryError (list MeteoraDammV2Event.t) :=
  select_page "meteora_damm_v2_claim_reward_events" (Some pool) from key n.

Definition list_events (scope : EventScope.t) (from : DateTime) (cursor : option EventCursor.t) (limit : Z) :
    Query RepositoryError (Page.t D MeteoraDammV2Event.t) :=
  list_scoped (fun pool from key n => converted
      match pool with
      | None => list_meteora_damm_v2 from key n
      | Some pool => list_meteora_damm_v2_pool pool from key n
      end)
    Cursor.RewardClaimEvent scope from cursor limit.
End List.
End RewardClaimEvents.

(** ** [pool_creation_event.rs]: by protocol only, a pool having a single creation *)

Module PoolCreationEvents.
Section List.
Context {D : Type} `{Postgres} `{!Tables MeteoraDammV2Event.t} `{Collation} `{RowIds}.
Context `{Base58} `{SignatureDisplay} `{SignatureFromStr}.

Definition list_meteora_damm_v2 (from : DateTime) (key : EventKey.t) (n : Z) :
    Query RepositoryError (list MeteoraDammV2Event.t) :=
  select_page "meteora_damm_v2_initialize_pool_events" None from key n.

Definition list_events (protocol : option Protocol) (from : DateTime) (cursor : option EventCursor.t)
    (limit : Z) : Query RepositoryError (Page.t D MeteoraDammV2Event.t) :=
  let scope := match protocol with Some p => EventScope.Protocol p | None => EventScope.All end in
  list_scoped (fun _ from key n => converted (list_meteora_damm_v2 from key n))
    Cursor.PoolCreationEvent scope from cursor limit.
End List.
End PoolCreationEvents.

(** ** [position_change_event.rs] *)

Module PositionChangeEvents.
Section List.
Context {D : Type} `{Postgres} `{!Tables MeteoraDammV2Event.t} `{Collation} `{RowIds}.
Context `{Base58} `{SignatureDisplay} `{SignatureFromStr}.

(** The branches of the union. *)
Definition kinds : list (string * string) :=
  [ ("open", "meteora_damm_v2_create_position_events");
    ("close", "meteora_damm_v2_close_position_events");
    ("vesting_lock", "meteora_damm_v2_lock_position_events");
    ("permanent_lock", "meteora_damm_v2_permanent_lock_position_events");
    ("split", "meteora_damm_v2_split_position_events") ].

Definition list_meteora_damm_v2 (from : DateTime) (key : EventKey.t) (n : Z) :
    Query RepositoryError (list MergedEventKey.t) :=
  select_keys kinds None from key n.

Definition list_meteora_damm_v2_pool (pool : string) (from : DateTime) (key : EventKey.t) (n : Z) :
    Query RepositoryError (list MergedEventKey.t) :=
  select_keys kinds (Some pool) from key n.

Definition fetch_open (ids : list Z) (span : DateTime * DateTime) :
    Query RepositoryError (list MeteoraDammV2Event.t) :=
  fetch_rows "meteora_damm_v2_create_position_events" ids span.

Definition fetch_close (ids : list Z) (span : DateTime * DateTime) :
    Query RepositoryError (list MeteoraDammV2Event.t) :=
  fetch_rows "meteora_damm_v2_close_position_events" ids span.

Definition fetch_vesting_lock (ids : list Z) (span : DateTime * DateTime) :
    Query RepositoryError (list MeteoraDammV2Event.t) :=
  fetch_rows "meteora_damm_v2_lock_position_events" ids span.

Definition fetch_permanent_lock (ids : list Z) (span : DateTime * DateTime) :
    Query RepositoryError (list MeteoraDammV2Event.t) :=
  fetch_rows "meteora_damm_v2_permanent_lock_position_events" ids span.

Definition fetch_split (ids : list Z) (span : DateTime * DateTime) :
    Query RepositoryError (list MeteoraDammV2Event.t) :=
  fetch_rows "meteora_damm_v2_split_position_events" ids span.

(** Each kind by its own read. *)
Definition fetch (kind : string) (ids : list Z) (span : DateTime * DateTime) :
    Query RepositoryError (list MeteoraDammV2Event.t) :=
  if bool_decide (kind = "open") then fetch_open ids span
  else if bool_decide (kind = "close") then fetch_close ids span
  else if bool_decide (kind = "vesting_lock") then fetch_vesting_lock ids span
  else if bool_decide (kind = "permanent_lock") then fetch_permanent_lock ids span
  else fetch_split ids span.

Definition fetch_meteora_damm_v2 (keys : list MergedEventKey.t) :
    Query RepositoryError (list MeteoraDammV2Event.t) :=
  fetch_merged
    ["open"; "close"; "vesting_lock"; "permanent_lock"; "split"] fetch keys.

Definition list_events (scope : EventScope.t) (from : DateTime) (cursor : option EventCursor.t) (limit : Z) :
    Query RepositoryError (Page.t D MeteoraDammV2Event.t) :=
  list_scoped (fun pool from key n =>
      let> keys :=
        match pool with
        | None => list_meteora_damm_v2 from key n
        | Some pool => list_meteora_damm_v2_pool pool from key n
        end in
      fetch_meteora_damm_v2 keys)
    Cursor.PositionChangeEvent scope from cursor limit.
End List.
End PositionChangeEvents.

(** ** [reward_change_event.rs] *)

Module RewardChangeEvents.
Section List.
Context {D : Type} `{Postgres} `{!Tables MeteoraDammV2Event.t} `{Collation} `{RowIds}.
Context `{Base58} `{SignatureDisplay} `{SignatureFromStr}.

(** The branches of the union. *)
Definition kinds : list (string * string) :=
  [ ("initialize", "meteora_damm_v2_initialize_reward_events");
    ("fund", "meteora_damm_v2_fund_reward_events");
    ("duration_change", "meteora_damm_v2_update_reward_duration_events");
    ("funder_change", "meteora_damm_v2_update_reward_funder_events");
    ("ineligible_withdrawal", "meteora_damm_v2_withdraw_ineligible_reward_events");
    ("dead_liquidity_withdrawal", "meteora_damm_v2_withdraw_dead_liquidity_reward_events") ].

Definition list_meteora_damm_v2 (from : DateTime) (key : EventKey.t) (n : Z) :
    Query RepositoryError (list MergedEventKey.t) :=
  select_keys kinds None from key n.

Definition list_meteora_damm_v2_pool (pool : string) (from : DateTime) (key : EventKey.t) (n : Z) :
    Query RepositoryError (list MergedEventKey.t) :=
  select_keys kinds (Some pool) from key n.

Definition fetch_initialize (ids : list Z) (span : DateTime * DateTime) :
    Query RepositoryError (list MeteoraDammV2Event.t) :=
  fetch_rows "meteora_damm_v2_initialize_reward_events" ids span.

Definition fetch_fund (ids : list Z) (span : DateTime * DateTime) :
    Query RepositoryError (list MeteoraDammV2Event.t) :=
  fetch_rows "meteora_damm_v2_fund_reward_events" ids span.

Definition fetch_duration_change (ids : list Z) (span : DateTime * DateTime) :
    Query RepositoryError (list MeteoraDammV2Event.t) :=
  fetch_rows "meteora_damm_v2_update_reward_duration_events" ids span.

Definition fetch_funder_change (ids : list Z) (span : DateTime * DateTime) :
    Query RepositoryError (list MeteoraDammV2Event.t) :=
  fetch_rows "meteora_damm_v2_update_reward_funder_events" ids span.

Definition fetch_ineligible_withdrawal (ids : list Z) (span : DateTime * DateTime) :
    Query RepositoryError (list MeteoraDammV2Event.t) :=
  fetch_rows "meteora_damm_v2_withdraw_ineligible_reward_events" ids span.

Definition fetch_dead_liquidity_withdrawal (ids : list Z) (span : DateTime * DateTime) :
    Query RepositoryError (list MeteoraDammV2Event.t) :=
  fetch_rows "meteora_damm_v2_withdraw_dead_liquidity_reward_events" ids span.

(** Each kind by its own read. *)
Definition fetch (kind : string) (ids : list Z) (span : DateTime * DateTime) :
    Query RepositoryError (list MeteoraDammV2Event.t) :=
  if bool_decide (kind = "initialize") then fetch_initialize ids span
  else if bool_decide (kind = "fund") then fetch_fund ids span
  else if bool_decide (kind = "duration_change") then fetch_duration_change ids span
  else if bool_decide (kind = "funder_change") then fetch_funder_change ids span
  else if bool_decide (kind = "ineligible_withdrawal") then fetch_ineligible_withdrawal ids span
  else fetch_dead_liquidity_withdrawal ids span.

Definition fetch_meteora_damm_v2 (keys : list MergedEventKey.t) :
    Query RepositoryError (list MeteoraDammV2Event.t) :=
  fetch_merged
    ["initialize"; "fund"; "duration_change"; "funder_change"; "ineligible_withdrawal"; "dead_liquidity_withdrawal"] fetch keys.

Definition list_events (scope : EventScope.t) (from : DateTime) (cursor : option EventCursor.t) (limit : Z) :
    Query RepositoryError (Page.t D MeteoraDammV2Event.t) :=
  list_scoped (fun pool from key n =>
      let> keys :=
        match pool with
        | None => list_meteora_damm_v2 from key n
        | Some pool => list_meteora_damm_v2_pool pool from key n
        end in
      fetch_meteora_damm_v2 keys)
    Cursor.RewardChangeEvent scope from cursor limit.
End List.
End RewardChangeEvents.

(** ** [pool_change_event.rs] *)

Module PoolChangeEvents.
Section List.
Context {D : Type} `{Postgres} `{!Tables MeteoraDammV2Event.t} `{Collation} `{RowIds}.
Context `{Base58} `{SignatureDisplay} `{SignatureFromStr}.

(** The branches of the union. *)
Definition kinds : list (string * string) :=
  [ ("status", "meteora_damm_v2_set_pool_status_events");
    ("fees", "meteora_damm_v2_update_pool_fees_events") ].

Definition list_meteora_damm_v2 (from : DateTime) (key : EventKey.t) (n : Z) :
    Query RepositoryError (list MergedEventKey.t) :=
  select_keys kinds None from key n.

Definition list_meteora_damm_v2_pool (pool : string) (from : DateTime) (key : EventKey.t) (n : Z) :
    Query RepositoryError (list MergedEventKey.t) :=
  select_keys kinds (Some pool) from key n.

Definition fetch_status (ids : list Z) (span : DateTime * DateTime) :
    Query RepositoryError (list MeteoraDammV2Event.t) :=
  fetch_rows "meteora_damm_v2_set_pool_status_events" ids span.

Definition fetch_fees (ids : list Z) (span : DateTime * DateTime) :
    Query RepositoryError (list MeteoraDammV2Event.t) :=
  fetch_rows "meteora_damm_v2_update_pool_fees_events" ids span.

(** Each kind by its own read. *)
Definition fetch (kind : string) (ids : list Z) (span : DateTime * DateTime) :
    Query RepositoryError (list MeteoraDammV2Event.t) :=
  if bool_decide (kind = "status") then fetch_status ids span
  else fetch_fees ids span.

Definition fetch_meteora_damm_v2 (keys : list MergedEventKey.t) :
    Query RepositoryError (list MeteoraDammV2Event.t) :=
  fetch_merged
    ["status"; "fees"] fetch keys.

Definition list_events (scope : EventScope.t) (from : DateTime) (cursor : option EventCursor.t) (limit : Z) :
    Query RepositoryError (Page.t D MeteoraDammV2Event.t) :=
  list_scoped (fun pool from key n =>
      let> keys :=
        match pool with
        | None => list_meteora_damm_v2 from key n
        | Some pool => list_meteora_damm_v2_pool pool from key n
        end in
      fetch_meteora_damm_v2 keys)
    Cursor.PoolChangeEvent scope from cursor limit.
End List.
End PoolChangeEvents.

(** ** The interface of the lists *)

(** [SwapEventLookup] and its siblings. *)
Class EventLookup (D : Type) : Type := {
  list_events : EventScope.t -> DateTime -> option EventCursor.t -> Z ->
    Query RepositoryError (Page.t D MeteoraDammV2Event.t);
}.
