(* ===== verification/EventApi.v ===== *)
(** * The pages of events the api serves

    [src/crates/api/src/]: http/error.rs ([ApiError_from]), http/dto/request.rs,
    request/list_events.rs and window_param.rs, http/dto/response/page.rs,
    application/pool_pairs.rs, the nine event services and the handlers of their
    lists. A request reads the clock where its answer depends on it: once, at
    [now]. The response carries the event itself, its JSON being left out. *)

From stdpp Require Import sorting.
From S2P Require Import Prelude Errors External Domain Signals Analytic Store Rows Cursor Keyset EventLists.

(** ** [error.rs] *)

Definition TIMEOUT_REASON : string := "the database is over capacity; retry shortly".

Definition ApiError_from (err : RepositoryError) : ApiError :=
  match err with
  | Timeout _ => Unavailable TIMEOUT_REASON
  | other => Internal (RepositoryError_to_string other)
  end.

(** ** [window_param.rs] *)

Inductive WindowParam : Type :=
| ParamDay
| ParamWeek
| ParamMonth.

Inductive DayWindowParam : Type :=
| DayParamDay.

Inductive WeekWindowParam : Type :=
| WeekParamDay
| WeekParamWeek.

(** The window of an event list, and the widest it serves. *)
Class EventsWindow (W : Type) : Type := {
  into_window : W -> Window;
  LONGEST : Window;
}.

Definition Window_from_WindowParam (value : WindowParam) : Window :=
  match value with ParamDay => Day | ParamWeek => Week | ParamMonth => Month end.
Definition Window_from_DayWindowParam (value : DayWindowParam) : Window :=
  match value with DayParamDay => Day end.
Definition Window_from_WeekWindowParam (value : WeekWindowParam) : Window :=
  match value with WeekParamDay => Day | WeekParamWeek => Week end.

#[global] Instance WindowParam_window : EventsWindow WindowParam :=
  { into_window := Window_from_WindowParam; LONGEST := Month }.
#[global] Instance DayWindowParam_window : EventsWindow DayWindowParam :=
  { into_window := Window_from_DayWindowParam; LONGEST := Day }.
#[global] Instance WeekWindowParam_window : EventsWindow WeekWindowParam :=
  { into_window := Window_from_WeekWindowParam; LONGEST := Week }.

(** ** [request.rs] *)

Definition MAX_LIMIT : Z := 200.

Definition validate_limit (limit : Z) : result unit ApiError :=
  if (1 <=? limit) && (limit <=? MAX_LIMIT) then Ok ()
  else Err (BadRequest ("`limit` must be between 1 and 200, got " ++ pretty.pretty limit)).

Definition non_empty (name raw : string) : result string ApiError :=
  if bool_decide (raw = "") then Err (BadRequest ("`" ++ name ++ "` must not be empty")) else Ok raw.

Definition parse_address `{Base58} (raw label : string) : result Pubkey ApiError :=
  ok_or (pubkey_of_string raw) (BadRequest ("invalid " ++ label ++ " address: " ++ raw)).

Definition parse_protocol (raw : string) : result Protocol ApiError :=
  map_err (fun _ => BadRequest ("unknown protocol: " ++ raw)) (Protocol_from_str raw).

Definition parse_pool `{Base58} (raw : string) : result Pubkey ApiError := parse_address raw "pool".

(** ** [list_events.rs] *)

Module EventsParams.
Record t (W : Type) : Type := mk {
  window : W;
  cursor : option string;
  limit : Z;
}.
Arguments mk {W}.
Arguments window {W}.
Arguments cursor {W}.
Arguments limit {W}.
End EventsParams.

Definition CURSOR_WINDOW_MARGIN : TimeDelta := hours_delta 1.

Module ListEventsRequest.
Record t : Type := mk {
  scope : EventScope.t;
  window : Window;
  cursor : option EventCursor.t;
  limit : Z;
}.
End ListEventsRequest.

(** [core/src/domain/event_cursor.rs]. *)
Definition window_start (cursor : option EventCursor.t) (window : Window) (now : DateTime) : DateTime :=
  match cursor with
  | Some c => EventCursor.from c
  | None => now - Window_duration window
  end.

Section Api.
Context {D : Type} `{!DecimalText D} `{!DecimalFromStr D}.
Context `{Base58} `{SignatureDisplay} `{SignatureFromStr} `{Rfc3339} `{SerdeJson} `{Base64}.

Definition parse {W} `{EventsWindow W} (params : EventsParams.t W) (collection : EventCollection)
    (scope : EventScope.t) (now : DateTime) : result ListEventsRequest.t ApiError :=
  let? _ := validate_limit (EventsParams.limit params) in
  let window := into_window (EventsParams.window params) in
  let? cursor :=
    match EventsParams.cursor params with
    | Some raw =>
        result_map Some (let? raw := non_empty "cursor" raw in decode_event_cursor raw collection scope)
    | None => Ok None
    end in
  if match cursor with
     | Some c =>
         (EventCursor.at_ c <? EventCursor.from c) ||
         (EventCursor.from c <? now - Window_duration (LONGEST (W := W)) - CURSOR_WINDOW_MARGIN)
     | None => false
     end
  then Err (BadRequest "invalid cursor: its window is not one this list serves")
  else Ok (ListEventsRequest.mk scope window cursor (EventsParams.limit params)).
End Api.

(** ** [page.rs] *)

Module PageResponse.
Record t (T : Type) : Type := mk {
  items : list T;
  next_cursor : option string;
  prev_cursor : option string;
  is_first : bool;
  is_last : bool;
}.
Arguments mk {T}.
Arguments items {T}.
Arguments next_cursor {T}.
Arguments prev_cursor {T}.
Arguments is_first {T}.
Arguments is_last {T}.
End PageResponse.

Section Response.
Context {D : Type} `{!DecimalText D} `{!DecimalFromStr D}.
Context `{Base58} `{SignatureDisplay} `{SignatureFromStr} `{Rfc3339} `{SerdeJson} `{Base64}.

Definition from_page {T} (page : Page.t D T) : result (PageResponse.t T) ApiError :=
  let? next_cursor := encode_cursor_opt (Page.next_cursor page) in
  let? prev_cursor := encode_cursor_opt (Page.prev_cursor page) in
  Ok (PageResponse.mk (Page.items page) next_cursor prev_cursor (Page.is_first page) (Page.is_last page)).
End Response.

(** ** What the pairs are read from *)

(** [PoolCatalog] and [TokenMetadataLookup]: many rows in one query, unordered,
    the unknown omitted. *)
Class PoolCatalog : Type := { find_by_addresses : list Pubkey -> Query RepositoryError (list Pool.t) }.
Class TokenMetadataLookup : Type := {
  find_by_mints : list Pubkey -> Query RepositoryError (list TokenMetadata.t);
}.

(** ** [enriched_token.rs], [pool_pairs.rs] *)

Module EnrichedToken.
Record t : Type := mk {
  mint : option Pubkey;
  metadata : option TokenMetadata.t;
}.

Definition unresolved : t := mk None None.
End EnrichedToken.

(** An item on one pool: the mints it carries itself are read in place of its pool's. *)
Module OnPool.
Class t (I : Type) : Type := {
  pool_address : I -> Pubkey;
  own_mints : I -> option (Pubkey * Pubkey);
}.
End OnPool.

(** A creation carries the mints of its pool. *)
Definition own_mints (e : MeteoraDammV2Event.t) : option (Pubkey * Pubkey) :=
  match e with
  | MeteoraDammV2Event.InitializePool e =>
      Some (MeteoraDammV2InitializePoolEvent.token_a_mint e, MeteoraDammV2InitializePoolEvent.token_b_mint e)
  | _ => None
  end.

#[global] Instance event_on_pool : OnPool.t MeteoraDammV2Event.t := {
  OnPool.pool_address := MeteoraDammV2Event.pool_address;
  OnPool.own_mints := own_mints;
}.

Module Paired.
Record t (I : Type) : Type := mk {
  item : I;
  token_a : EnrichedToken.t;
  token_b : EnrichedToken.t;
}.
Arguments mk {I}.
Arguments item {I}.
Arguments token_a {I}.
Arguments token_b {I}.
End Paired.

Definition PairsByPool : Type := gmap Pubkey (EnrichedToken.t * EnrichedToken.t).

Definition Paired_of {I} `{OnPool.t I} (item : I) (pairs : PairsByPool) : Paired.t I :=
  let (token_a, token_b) :=
    default (EnrichedToken.unresolved, EnrichedToken.unresolved) (pairs !! OnPool.pool_address item) in
  Paired.mk item token_a token_b.

(** The order of the bytes of two addresses. *)
Fixpoint bytes_leb (a b : list Z) : bool :=
  match a, b with
  | [], _ => true
  | _, [] => false
  | x :: a, y :: b => (x <? y) || ((x =? y) && bytes_leb a b)
  end.

Definition bytes_le (a b : Pubkey) : Prop := bytes_leb a b = true.
#[global] Instance bytes_le_dec a b : Decision (bytes_le a b).
Proof. unfold bytes_le. apply _. Defined.

(** [sort_unstable], then [dedup]. *)
Fixpoint dedup (l : list Pubkey) : list Pubkey :=
  match l with
  | x :: ((y :: _) as l) => if bool_decide (x = y) then dedup l else x :: dedup l
  | l => l
  end.
Definition sorted_distinct (l : list Pubkey) : list Pubkey :=
  dedup (merge_sort bytes_le l).

Section Pairs.
Context `{PoolCatalog} `{TokenMetadataLookup}.

(** The mints the items carry, and the pools of those that carry none. *)
Fixpoint gather_mints {I} `{OnPool.t I} (items : list I)
    (mints : gmap Pubkey (option Pubkey * option Pubkey)) (unknown : list Pubkey) :
    gmap Pubkey (option Pubkey * option Pubkey) * list Pubkey :=
  match items with
  | [] => (mints, unknown)
  | item :: items =>
    let pool := OnPool.pool_address item in
    match OnPool.own_mints item with
    | Some (a, b) => gather_mints items (<[pool := (Some a, Some b)]> mints) unknown
    | None => gather_mints items mints (unknown ++ [pool])
    end
  end.

Definition pairs_of {I} `{OnPool.t I} (items : list I) : Query RepositoryError PairsByPool :=
  let (mints, unknown) := gather_mints items ∅ [] in
  let unknown := sorted_distinct
    (List.filter (fun pool => negb (bool_decide (is_Some (mints !! pool)))) unknown) in
  let> pools :=
    match unknown with [] => query_ret [] | _ => find_by_addresses unknown end in
  let mints := foldl (fun mints pool =>
      <[Pool.pool_address pool := (Pool.token_a_mint pool, Pool.token_b_mint pool)]> mints)
    mints pools in
  let wanted := sorted_distinct
    (concat (map (fun kv => option_list (fst (snd kv)) ++ option_list (snd (snd kv)))
      (map_to_list mints))) in
  let> metadata :=
    match wanted with [] => query_ret [] | _ => find_by_mints wanted end in
  let metadata := foldl (fun by_mint m => <[TokenMetadata.mint m := m]> by_mint)
    (∅ : gmap Pubkey TokenMetadata.t) metadata in
  let side (mint : option Pubkey) :=
    EnrichedToken.mk mint (let! m := mint in metadata !! m) in
  query_ret ((fun '(a, b) => (side a, side b)) <$> mints).

(** A page, each item with its pool's pair. *)
Definition pairs_page {D I} `{OnPool.t I} (page : Page.t D I) :
    Query RepositoryError (Page.t D (Paired.t I)) :=
  let> pairs := pairs_of (Page.items page) in
  query_ret (Page.mk (map (fun item => Paired_of item pairs) (Page.items page))
    (Page.next_cursor page) (Page.prev_cursor page) (Page.is_first page) (Page.is_last page)).

(** [PoolService::find_pool]. *)
Definition find_pool (address : Pubkey) : Query RepositoryError (option Pool.t) :=
  let> pools := find_by_addresses [address] in
  query_ret (List.find (fun pool => bool_decide (Pool.pool_address pool = address)) pools).
End Pairs.

(** ** The event services *)

Section Services.
Context {D : Type} `{!EventLookup D} `{PoolCatalog} `{TokenMetadataLookup}.

(** [swap_event_service.rs]: the swaps are served without their pairs. *)
Definition list_plain (scope : EventScope.t) (window : Window) (cursor : option EventCursor.t)
    (limit : Z) (now : DateTime) : Query RepositoryError (Page.t D MeteoraDammV2Event.t) :=
  let from := window_start cursor window now in
  list_events scope from cursor limit.

(** The other services, over their own lookup. *)
Definition list_paired (scope : EventScope.t) (window : Window) (cursor : option EventCursor.t)
    (limit : Z) (now : DateTime) : Query RepositoryError (Page.t D (Paired.t MeteoraDammV2Event.t)) :=
  let from := window_start cursor window now in
  let> page := list_events scope from cursor limit in
  pairs_page page.
End Services.

(** The lookup of each service, as the bootstrap wires them. *)
Section Lookups.
Context {D : Type} `{Postgres} `{!Tables MeteoraDammV2Event.t} `{Collation} `{RowIds}.
Context `{Base58} `{SignatureDisplay} `{SignatureFromStr}.

Definition swap_lookup : EventLookup D := {| list_events := SwapEvents.list_events |}.
Definition liquidity_change_event_lookup : EventLookup D := {| list_events := LiquidityChangeEvents.list_events |}.
Definition position_change_event_lookup : EventLookup D := {| list_events := PositionChangeEvents.list_events |}.
Definition position_fee_claim_event_lookup : EventLookup D := {| list_events := PositionFeeClaimEvents.list_events |}.
Definition protocol_fee_claim_event_lookup : EventLookup D := {| list_events := ProtocolFeeClaimEvents.list_events |}.
Definition reward_claim_event_lookup : EventLookup D := {| list_events := RewardClaimEvents.list_events |}.
Definition reward_change_event_lookup : EventLookup D := {| list_events := RewardChangeEvents.list_events |}.
Definition pool_change_event_lookup : EventLookup D := {| list_events := PoolChangeEvents.list_events |}.
(** A pool has a single creation: no route asks for one pool's. *)
Definition pool_creation_event_lookup : EventLookup D := {|
  list_events scope from cursor limit :=
    match scope with
    | EventScope.All => PoolCreationEvents.list_events None from cursor limit
    | EventScope.Protocol p => PoolCreationEvents.list_events (Some p) from cursor limit
    | EventScope.Pool _ => query_ret Page.empty
    end;
|}.

Definition lookup_of (collection : EventCollection) : EventLookup D :=
  match collection with
  | Swaps => swap_lookup
  | LiquidityChanges => liquidity_change_event_lookup
  | PoolCreations => pool_creation_event_lookup
  | PositionChanges => position_change_event_lookup
  | PositionFeeClaims => position_fee_claim_event_lookup
  | ProtocolFeeClaims => protocol_fee_claim_event_lookup
  | RewardClaims => reward_claim_event_lookup
  | RewardChanges => reward_change_event_lookup
  | PoolChanges => pool_change_event_lookup
  end.
End Lookups.

(** ** The handlers *)

(** A route of a list: the collection and the scope it serves, its handler, the
    event of an item of its page. *)
Module Route.
Record t : Type := mk_ {
  W : Type;
  T : Type;
  window_param : EventsWindow W;
  collection : EventCollection;
  scope : EventScope.t;
  handler : EventsParams.t W -> DateTime -> Query ApiError (PageResponse.t T);
  event_of : T -> MeteoraDammV2Event.t;
}.

Definition mk {W T} `{window_param : EventsWindow W} (collection : EventCollection) (scope : EventScope.t)
    (handler : EventsParams.t W -> DateTime -> Query ApiError (PageResponse.t T))
    (event_of : T -> MeteoraDammV2Event.t) : t :=
  mk_ W T window_param collection scope handler event_of.
End Route.
#[global] Existing Instance Route.window_param.

Section Handlers.
Context {D : Type} `{!DecimalText D} `{!DecimalFromStr D}.
Context `{Base58} `{SignatureDisplay} `{SignatureFromStr} `{Rfc3339} `{SerdeJson} `{Base64}.
Context `{Postgres} `{!Tables MeteoraDammV2Event.t} `{Collation} `{RowIds}.
Context `{PoolCatalog} `{TokenMetadataLookup}.

(** The pool of the path, or a 404. *)
Definition known_pool (raw : string) : Query ApiError Pool.t :=
  let> address := query_lift (parse_pool raw) in
  let> pool := query_map_err ApiError_from (find_pool address) in
  query_lift (ok_or pool (NotFound_ ("pool not found: " ++ pubkey_to_string address))).

(** [list_event_page] of swaps.rs. *)
Definition swaps_page (request : ListEventsRequest.t) (now : DateTime) :
    Query ApiError (PageResponse.t MeteoraDammV2Event.t) :=
  let> page := query_map_err ApiError_from
    (list_plain (EventLookup0 := swap_lookup) (ListEventsRequest.scope request)
      (ListEventsRequest.window request) (ListEventsRequest.cursor request)
      (ListEventsRequest.limit request) now) in
  query_lift (from_page (D := D) page).

(** [list_event_page] of the other collections. *)
Definition paired_page (collection : EventCollection) (request : ListEventsRequest.t) (now : DateTime) :
    Query ApiError (PageResponse.t (Paired.t MeteoraDammV2Event.t)) :=
  let> page := query_map_err ApiError_from
    (list_paired (EventLookup0 := lookup_of collection) (ListEventsRequest.scope request)
      (ListEventsRequest.window request) (ListEventsRequest.cursor request)
      (ListEventsRequest.limit request) now) in
  query_lift (from_page (D := D) page).

(** *** swaps.rs *)

Definition list_swaps (params : EventsParams.t DayWindowParam) (now : DateTime) :
    Query ApiError (PageResponse.t MeteoraDammV2Event.t) :=
  let> request := query_lift (parse params Swaps EventScope.All now) in
  swaps_page request now.

Definition list_protocol_swaps (protocol : string) (params : EventsParams.t DayWindowParam)
    (now : DateTime) : Query ApiError (PageResponse.t MeteoraDammV2Event.t) :=
  let> protocol := query_lift (parse_protocol protocol) in
  let> request := query_lift (parse params Swaps (EventScope.Protocol protocol) now) in
  swaps_page request now.

Definition list_pool_swaps (pool : string) (params : EventsParams.t WeekWindowParam)
    (now : DateTime) : Query ApiError (PageResponse.t MeteoraDammV2Event.t) :=
  let> address := query_lift (parse_pool pool) in
  let> request := query_lift (parse params Swaps (EventScope.Pool address) now) in
  let> _ := known_pool pool in
  swaps_page request now.

(** *** liquidity_changes.rs *)

Definition list_liquidity_changes (params : EventsParams.t WindowParam) (now : DateTime) :
    Query ApiError (PageResponse.t (Paired.t MeteoraDammV2Event.t)) :=
  let> request := query_lift (parse params LiquidityChanges EventScope.All now) in
  paired_page LiquidityChanges request now.

Definition list_protocol_liquidity_changes (protocol : string) (params : EventsParams.t WindowParam)
    (now : DateTime) : Query ApiError (PageResponse.t (Paired.t MeteoraDammV2Event.t)) :=
  let> protocol := query_lift (parse_protocol protocol) in
  let> request := query_lift (parse params LiquidityChanges (EventScope.Protocol protocol) now) in
  paired_page LiquidityChanges request now.

Definition list_pool_liquidity_changes (pool : string) (params : EventsParams.t WindowParam) (now : DateTime) :
    Query ApiError (PageResponse.t (Paired.t MeteoraDammV2Event.t)) :=
  let> address := query_lift (parse_pool pool) in
  let> request := query_lift (parse params LiquidityChanges (EventScope.Pool address) now) in
  let> _ := known_pool pool in
  paired_page LiquidityChanges request now.

(** *** pool_creations.rs *)

Definition list_pool_creations (params : EventsParams.t WindowParam) (now : DateTime) :
    Query ApiError (PageResponse.t (Paired.t MeteoraDammV2Event.t)) :=
  let> request := query_lift (parse params PoolCreations EventScope.All now) in
  paired_page PoolCreations request now.

Definition list_protocol_pool_creations (protocol : string) (params : EventsParams.t WindowParam)
    (now : DateTime) : Query ApiError (PageResponse.t (Paired.t MeteoraDammV2Event.t)) :=
  let> protocol := query_lift (parse_protocol protocol) in
  let> request := query_lift (parse params PoolCreations (EventScope.Protocol protocol) now) in
  paired_page PoolCreations request now.

(** *** position_changes.rs *)

Definition list_position_changes (params : EventsParams.t WindowParam) (now : DateTime) :
    Query ApiError (PageResponse.t (Paired.t MeteoraDammV2Event.t)) :=
  let> request := query_lift (parse params PositionChanges EventScope.All now) in
  paired_page PositionChanges request now.

Definition list_protocol_position_changes (protocol : string) (params : EventsParams.t WindowParam)
    (now : DateTime) : Query ApiError (PageResponse.t (Paired.t MeteoraDammV2Event.t)) :=
  let> protocol := query_lift (parse_protocol protocol) in
  let> request := query_lift (parse params PositionChanges (EventScope.Protocol protocol) now) in
  paired_page PositionChanges request now.

Definition list_pool_position_changes (pool : string) (params : EventsParams.t WindowParam) (now : DateTime) :
    Query ApiError (PageResponse.t (Paired.t MeteoraDammV2Event.t)) :=
  let> address := query_lift (parse_pool pool) in
  let> request := query_lift (parse params PositionChanges (EventScope.Pool address) now) in
  let> _ := known_pool pool in
  paired_page PositionChanges request now.

(** *** position_fee_claims.rs *)

Definition list_position_fee_claims (params : EventsParams.t WindowParam) (now : DateTime) :
    Query ApiError (PageResponse.t (Paired.t MeteoraDammV2Event.t)) :=
  let> request := query_lift (parse params PositionFeeClaims EventScope.All now) in
  paired_page PositionFeeClaims request now.

Definition list_protocol_position_fee_claims (protocol : string) (params : EventsParams.t WindowParam)
    (now : DateTime) : Query ApiError (PageResponse.t (Paired.t MeteoraDammV2Event.t)) :=
  let> protocol := query_lift (parse_protocol protocol) in
  let> request := query_lift (parse params PositionFeeClaims (EventScope.Protocol protocol) now) in
  paired_page PositionFeeClaims request now.

Definition list_pool_position_fee_claims (pool : string) (params : EventsParams.t WindowParam) (now : DateTime) :
    Query ApiError (PageResponse.t (Paired.t MeteoraDammV2Event.t)) :=
  let> address := query_lift (parse_pool pool) in
  let> request := query_lift (parse params PositionFeeClaims (EventScope.Pool address) now) in
  let> _ := known_pool pool in
  paired_page PositionFeeClaims request now.

(** *** protocol_fee_claims.rs *)

Definition list_protocol_fee_claims (params : EventsParams.t WindowParam) (now : DateTime) :
    Query ApiError (PageResponse.t (Paired.t MeteoraDammV2Event.t)) :=
  let> request := query_lift (parse params ProtocolFeeClaims EventScope.All now) in
  paired_page ProtocolFeeClaims request now.

Definition list_protocol_protocol_fee_claims (protocol : string) (params : EventsParams.t WindowParam)
    (now : DateTime) : Query ApiError (PageResponse.t (Paired.t MeteoraDammV2Event.t)) :=
  let> protocol := query_lift (parse_protocol protocol) in
  let> request := query_lift (parse params ProtocolFeeClaims (EventScope.Protocol protocol) now) in
  paired_page ProtocolFeeClaims request now.

Definition list_pool_protocol_fee_claims (pool : string) (params : EventsParams.t WindowParam) (now : DateTime) :
    Query ApiError (PageResponse.t (Paired.t MeteoraDammV2Event.t)) :=
  let> address := query_lift (parse_pool pool) in
  let> request := query_lift (parse params ProtocolFeeClaims (EventScope.Pool address) now) in
  let> _ := known_pool pool in
  paired_page ProtocolFeeClaims request now.

(** *** reward_claims.rs *)

Definition list_reward_claims (params : EventsParams.t WindowParam) (now : DateTime) :
    Query ApiError (PageResponse.t (Paired.t MeteoraDammV2Event.t)) :=
  let> request := query_lift (parse params RewardClaims EventScope.All now) in
  paired_page RewardClaims request now.

Definition list_protocol_reward_claims (protocol : string) (params : EventsParams.t WindowParam)
    (now : DateTime) : Query ApiError (PageResponse.t (Paired.t MeteoraDammV2Event.t)) :=
  let> protocol := query_lift (parse_protocol protocol) in
  let> request := query_lift (parse params RewardClaims (EventScope.Protocol protocol) now) in
  paired_page RewardClaims request now.

Definition list_pool_reward_claims (pool : string) (params : EventsParams.t WindowParam) (now : DateTime) :
    Query ApiError (PageResponse.t (Paired.t MeteoraDammV2Event.t)) :=
  let> address := query_lift (parse_pool pool) in
  let> request := query_lift (parse params RewardClaims (EventScope.Pool address) now) in
  let> _ := known_pool pool in
  paired_page RewardClaims request now.

(** *** reward_changes.rs *)

Definition list_reward_changes (params : EventsParams.t WindowParam) (now : DateTime) :
    Query ApiError (PageResponse.t (Paired.t MeteoraDammV2Event.t)) :=
  let> request := query_lift (parse params RewardChanges EventScope.All now) in
  paired_page RewardChanges request now.

Definition list_protocol_reward_changes (protocol : string) (params : EventsParams.t WindowParam)
    (now : DateTime) : Query ApiError (PageResponse.t (Paired.t MeteoraDammV2Event.t)) :=
  let> protocol := query_lift (parse_protocol protocol) in
  let> request := query_lift (parse params RewardChanges (EventScope.Protocol protocol) now) in
  paired_page RewardChanges request now.

Definition list_pool_reward_changes (pool : string) (params : EventsParams.t WindowParam) (now : DateTime) :
    Query ApiError (PageResponse.t (Paired.t MeteoraDammV2Event.t)) :=
  let> address := query_lift (parse_pool pool) in
  let> request := query_lift (parse params RewardChanges (EventScope.Pool address) now) in
  let> _ := known_pool pool in
  paired_page RewardChanges request now.

(** *** pool_changes.rs *)

Definition list_pool_changes (params : EventsParams.t WindowParam) (now : DateTime) :
    Query ApiError (PageResponse.t (Paired.t MeteoraDammV2Event.t)) :=
  let> request := query_lift (parse params PoolChanges EventScope.All now) in
  paired_page PoolChanges request now.

Definition list_protocol_pool_changes (protocol : string) (params : EventsParams.t WindowParam)
    (now : DateTime) : Query ApiError (PageResponse.t (Paired.t MeteoraDammV2Event.t)) :=
  let> protocol := query_lift (parse_protocol protocol) in
  let> request := query_lift (parse params PoolChanges (EventScope.Protocol protocol) now) in
  paired_page PoolChanges request now.

Definition list_pool_pool_changes (pool : string) (params : EventsParams.t WindowParam) (now : DateTime) :
    Query ApiError (PageResponse.t (Paired.t MeteoraDammV2Event.t)) :=
  let> address := query_lift (parse_pool pool) in
  let> request := query_lift (parse params PoolChanges (EventScope.Pool address) now) in
  let> _ := known_pool pool in
  paired_page PoolChanges request now.

(** *** http.rs: the routes of the lists, for the segments of their paths *)

Definition event_routes (protocol : string) (p : Protocol) (pool : string) (address : Pubkey) :
    list Route.t :=
  [ Route.mk Swaps EventScope.All list_swaps (fun e => e);
    Route.mk Swaps (EventScope.Protocol p) (list_protocol_swaps protocol) (fun e => e);
    Route.mk Swaps (EventScope.Pool address) (list_pool_swaps pool) (fun e => e);
    Route.mk LiquidityChanges EventScope.All list_liquidity_changes Paired.item;
    Route.mk LiquidityChanges (EventScope.Protocol p) (list_protocol_liquidity_changes protocol) Paired.item;
    Route.mk LiquidityChanges (EventScope.Pool address) (list_pool_liquidity_changes pool) Paired.item;
    Route.mk RewardChanges EventScope.All list_reward_changes Paired.item;
    Route.mk RewardChanges (EventScope.Protocol p) (list_protocol_reward_changes protocol) Paired.item;
    Route.mk RewardChanges (EventScope.Pool address) (list_pool_reward_changes pool) Paired.item;
    Route.mk PoolChanges EventScope.All list_pool_changes Paired.item;
    Route.mk PoolChanges (EventScope.Protocol p) (list_protocol_pool_changes protocol) Paired.item;
    Route.mk PoolChanges (EventScope.Pool address) (list_pool_pool_changes pool) Paired.item;
    Route.mk PositionChanges EventScope.All list_position_changes Paired.item;
    Route.mk PositionChanges (EventScope.Protocol p) (list_protocol_position_changes protocol) Paired.item;
    Route.mk PositionChanges (EventScope.Pool address) (list_pool_position_changes pool) Paired.item;
    Route.mk PositionFeeClaims EventScope.All list_position_fee_claims Paired.item;
    Route.mk PositionFeeClaims (EventScope.Protocol p) (list_protocol_position_fee_claims protocol) Paired.item;
    Route.mk PositionFeeClaims (EventScope.Pool address) (list_pool_position_fee_claims pool) Paired.item;
    Route.mk ProtocolFeeClaims EventScope.All list_protocol_fee_claims Paired.item;
    Route.mk ProtocolFeeClaims (EventScope.Protocol p) (list_protocol_protocol_fee_claims protocol) Paired.item;
    Route.mk ProtocolFeeClaims (EventScope.Pool address) (list_pool_protocol_fee_claims pool) Paired.item;
    Route.mk RewardClaims EventScope.All list_reward_claims Paired.item;
    Route.mk RewardClaims (EventScope.Protocol p) (list_protocol_reward_claims protocol) Paired.item;
    Route.mk RewardClaims (EventScope.Pool address) (list_pool_reward_claims pool) Paired.item;
    Route.mk PoolCreations EventScope.All list_pool_creations Paired.item;
    Route.mk PoolCreations (EventScope.Protocol p) (list_protocol_pool_creations protocol) Paired.item ].
End Handlers.
