(* ===== verification/EventListsFacts.v ===== *)
(** * A list of events is a page of its tables

    What the nine lists promise, [EventLookupLaws], against one reference
    definition, [page_of]: the rows of the collection's tables under the scope,
    the window and the cursor, newest first, cut at the limit, as the tables
    were at one moment of the read. *)

From stdpp Require Import sorting.
From S2P Require Import Prelude Errors External Domain Store Rows Persist PersistFacts RowsFacts Cursor.
From S2P Require Import CursorFacts Keyset KeysetFacts EventLists EventApi.

Notation Event := MeteoraDammV2Event.t.

(** ** The reference definition *)

(** The tables of a collection. *)
Definition tables_of (c : EventCollection) : list string :=
  match c with
  | Swaps => ["meteora_damm_v2_swap_events"]
  | LiquidityChanges => ["meteora_damm_v2_liquidity_events"]
  | PoolCreations => ["meteora_damm_v2_initialize_pool_events"]
  | PositionChanges => map snd PositionChangeEvents.kinds
  | PositionFeeClaims => ["meteora_damm_v2_claim_position_fee_events"]
  | ProtocolFeeClaims => ["meteora_damm_v2_claim_protocol_fee_events"]
  | RewardClaims => ["meteora_damm_v2_claim_reward_events"]
  | RewardChanges => map snd RewardChangeEvents.kinds
  | PoolChanges => map snd PoolChangeEvents.kinds
  end.

Definition in_scope (scope : EventScope.t) (w : Event) : bool :=
  match scope with
  | EventScope.All | EventScope.Protocol MeteoraDammV2 => true
  | EventScope.Protocol MeteoraDlmm => false
  | EventScope.Pool pool => bool_decide (MeteoraDammV2Event.pool_address w = pool)
  end.

(** A pool's creations are not served. *)
Definition served_scope (c : EventCollection) (scope : EventScope.t) : Prop :=
  wf_event_scope scope /\
  match c, scope with PoolCreations, EventScope.Pool _ => False | _, _ => True end.

Section Reference.
Context `{Collation} `{SignatureDisplay}.

(** Where a cursor stands in the order. *)
Definition cursor_key (c : EventCursor.t) : sort_key :=
  (EventCursor.at_ c, signature_to_string (EventCursor.signature c), EventCursor.event_index c).

Definition past (cursor : option EventCursor.t) (w : Event) : bool :=
  match cursor with Some c => key_desc (cursor_key c) (row_key w) | None => true end.

(** The rows the list serves from a cursor on. *)
Definition serves (c : EventCollection) (scope : EventScope.t) (from : DateTime) (w : Event) : bool :=
  bool_decide (table w ∈ tables_of c) && in_scope scope w && (from <=? MeteoraDammV2Event.timestamp w).

Definition newest_first (c : EventCollection) (scope : EventScope.t) (from : DateTime)
    (cursor : option EventCursor.t) (rows : list Event) : list Event :=
  order_by row_key key_desc
    (List.filter (fun w => serves c scope from w && past cursor w) rows).

(** The cursor of the next page, after an event. *)
Definition cursor_at (scope : EventScope.t) (from : DateTime) (w : Event) : EventCursor.t :=
  EventCursor.mk scope from (MeteoraDammV2Event.timestamp w) (MeteoraDammV2Event.signature w)
    (event_index_column w).

(** A page of a list of rows. *)
Definition cut_page {D T} (l : list T) (n : Z) (had_cursor : bool) (cursor : T -> Cursor.t D) :
    Page.t D T :=
  let is_last := bool_decide (Z.of_nat (length l) <= n) in
  Page.mk (limit n l) (if is_last then None else cursor <$> last (limit n l)) None (negb had_cursor) is_last.

Definition page_of {D} (c : EventCollection) (scope : EventScope.t) (from : DateTime)
    (cursor : option EventCursor.t) (n : Z) (rows : list Event) : Page.t D Event :=
  match scope with
  | EventScope.Protocol MeteoraDlmm => Page.empty
  | _ => cut_page (newest_first c scope from cursor rows) n (bool_decide (is_Some cursor))
      (fun w => event_cursor_of c (cursor_at scope from w))
  end.
End Reference.

(** ** Statements that succeed or fault *)

Section Served.
Context `{Postgres}.

(** From statement [n] on: an error is a fault of one of the statements sent;
    an answer satisfies [P]. *)
Definition served {A} (q : Query RepositoryError A) (n : nat) (P : nat -> A -> Prop) : Prop :=
  let '(n', r) := q n in
  (n <= n')%nat /\
  match r with
  | Ok a => P n' a
  | Err e => exists k, (n <= k < n')%nat /\ fault k = Some e
  end.

Lemma served_ret {A} (a : A) n (P : nat -> A -> Prop) : P n a -> served (query_ret a) n P.
Proof. intros HP. split; [lia|done]. Qed.

Lemma served_lift {A} (r : result A RepositoryError) a n (P : nat -> A -> Prop) :
  r = Ok a -> P n a -> served (query_lift r) n P.
Proof. intros -> HP. split; [lia|done]. Qed.

Lemma served_bind {A B} (q : Query RepositoryError A) (k : A -> Query RepositoryError B) n P Q :
  served q n P -> (forall n' a, (n <= n')%nat -> P n' a -> served (k a) n' Q) ->
  served (query_bind q k) n Q.
Proof.
  unfold served, query_bind. destruct (q n) as [n1 [a|e]].
  - intros [Hn HP] Hk. specialize (Hk n1 a Hn HP). destruct (k a n1) as [n2 [b|e]].
    + destruct Hk as [? ?]. split; [lia|done].
    + destruct Hk as (? & m & ? & ?). split; [lia|]. exists m. split; [lia|done].
  - done.
Qed.

Lemma served_select {R A} `{!Tables R} (q : list R -> A) n (P : nat -> A -> Prop) :
  P (S n) (q (rows_at n)) -> served (select q) n P.
Proof.
  intros HP. unfold served, select. destruct (fault n) as [e|] eqn:Hf; split; try lia; [|done].
  exists n. split; [lia|done].
Qed.

Lemma served_mono {A} (q : Query RepositoryError A) n (P Q : nat -> A -> Prop) :
  served q n P -> (forall n' a, (n <= n')%nat -> P n' a -> Q n' a) -> served q n Q.
Proof. unfold served. destruct (q n) as [n' [a|e]]; [|done]. intros [? ?] HPQ. split; [done|by apply HPQ]. Qed.
End Served.

(** ** The tables of the events *)

(** A row that was stored: its columns read back, its key in the ranges a cursor
    can hold. *)
Record stored_row `{Base58} `{SignatureDisplay} `{SignatureFromStr} (w : Event) : Prop := {
  stored_reads_back : try_from_row w = Ok w;
  stored_pool : is_bytes 32 (MeteoraDammV2Event.pool_address w);
  stored_signature : is_bytes 64 (MeteoraDammV2Event.signature w);
  stored_event_index : is_uint 16 (event_index_column w);
  stored_timestamp : rfc3339_range (MeteoraDammV2Event.timestamp w);
}.

(** The tables while a list is read: rows are only added, a key names one row,
    an id one row of its table. *)
Class EventTables `{!Tables Event} `{RowIds} `{Base58} `{SignatureDisplay} `{SignatureFromStr} : Prop := {
  rows_grow : forall n w, w ∈ rows_at n -> w ∈ rows_at (S n);
  rows_stored : forall n w, w ∈ rows_at n -> stored_row w;
  rows_keys : forall n, NoDup (map row_key (rows_at n));
  rows_ids : forall n a b, a ∈ rows_at n -> b ∈ rows_at n -> table a = table b -> id_of a = id_of b -> a = b;
}.

Lemma rows_grow_le `{EventTables} n m w : (n <= m)%nat -> w ∈ rows_at n -> w ∈ rows_at m.
Proof. induction 1; [done|]. intros. by apply rows_grow, IHle. Qed.

(** ** The order *)

Section Keys.
Context `{CollationLaws} `{Base58Laws} `{SignatureDisplay}.

#[global] Instance key_desc_total : StrictTotal key_desc.
Proof.
  split.
  - intros [[t s] i]. unfold key_desc. rewrite (before_irrefl (before := text_ltb)), !Z.ltb_irrefl, bool_decide_eq_true_2 by done.
    by rewrite andb_false_r.
  - intros [[ta sa] ia] [[tb sb] ib] [[tc sc] ic]. unfold key_desc.
    rewrite !orb_true_iff, !andb_true_iff, !orb_true_iff, !andb_true_iff, !bool_decide_eq_true,
      !Z.ltb_lt, !Z.eqb_eq.
    intros [Hab|[-> [Hab|[-> Hab]]]] [Hbc|[-> [Hbc|[-> Hbc]]]]; try (left; lia); right; (split; [done|]);
      first [by left | by (left; eapply (before_trans (before := text_ltb))) | right; split; [done|lia]].
  - intros [[ta sa] ia] [[tb sb] ib]. unfold key_desc.
    rewrite !orb_false_iff, !andb_false_iff, !orb_false_iff, !andb_false_iff, !bool_decide_eq_false,
      !Z.ltb_ge, !Z.eqb_neq.
    intros (Ht & Hrest) (Ht' & Hrest'). assert (ta = tb) as -> by lia.
    destruct Hrest as [?|[Hs Hi]]; [lia|]. destruct Hrest' as [?|[Hs' Hi']]; [lia|].
    assert (sa = sb) as -> by (by apply (before_total (before := text_ltb))).
    destruct Hi as [?|Hi]; [done|]. destruct Hi' as [?|Hi']; [done|]. repeat f_equal. lia.
Qed.

Lemma after_key_past cursor w : after_key (EventKey.of_ cursor) w = past cursor w.
Proof.
  destruct cursor as [c|]; [|done]. unfold after_key, past, key_desc, cursor_key, row_key. simpl.
  set (t := MeteoraDammV2Event.timestamp w). set (a := EventCursor.at_ c).
  destruct (Z.lt_trichotomy t a) as [Ht|[->|Ht]].
  - by rewrite (proj2 (Z.ltb_lt _ _) Ht), (proj2 (Z.leb_le t a)) by lia.
  - by rewrite Z.leb_refl, Z.ltb_irrefl, Z.eqb_refl.
  - by rewrite (proj2 (Z.leb_gt t a)), (proj2 (Z.ltb_ge t a)), (proj2 (Z.eqb_neq t a)) by lia.
Qed.

(** The pool a scope narrows the statements to. *)
Definition pool_column (scope : EventScope.t) : option string :=
  match scope with EventScope.Pool pool => Some (pubkey_to_string pool) | _ => None end.

Lemma in_table_scope name scope w :
  wf_event_scope scope -> is_bytes 32 (MeteoraDammV2Event.pool_address w) ->
  scope <> EventScope.Protocol MeteoraDlmm ->
  in_table name (pool_column scope) w = bool_decide (table w = name) && in_scope scope w.
Proof.
  intros Hs Hp Hne. unfold in_table. f_equal. destruct scope as [|[]|pool]; simpl; try done.
  apply bool_decide_ext. unfold pool_address_column. split; [|by intros ->].
  by apply pubkey_to_string_inj.
Qed.

Lemma where_after_serves name c scope from cursor w :
  wf_event_scope scope -> is_bytes 32 (MeteoraDammV2Event.pool_address w) ->
  scope <> EventScope.Protocol MeteoraDlmm -> tables_of c = [name] ->
  where_after name (pool_column scope) from (EventKey.of_ cursor) w = serves c scope from w && past cursor w.
Proof.
  intros Hs Hp Hne Ht. unfold where_after, serves. rewrite in_table_scope, after_key_past, Ht by done.
  f_equal; f_equal; f_equal. apply bool_decide_ext. rewrite list_elem_of_singleton. done.
Qed.
End Keys.

(** ** Pages *)

Lemma finish_event_page_cut {D T} (l : list T) n hc (cursor : T -> Cursor.t D) :
  0 <= n -> finish_event_page (limit (n + 1) l) n hc cursor = cut_page l n hc cursor.
Proof.
  intros Hn. unfold finish_event_page, cut_page, PageBuilder.finalize. simpl.
  assert ((n <? Z.of_nat (length (limit (n + 1) l))) = negb (bool_decide (Z.of_nat (length l) <= n)))
    as ->.
  { unfold limit. rewrite length_take. destruct (bool_decide_reflect (Z.of_nat (length l) <= n)); simpl;
      [apply Z.ltb_ge|apply Z.ltb_lt]; lia. }
  assert ((if negb (bool_decide (Z.of_nat (length l) <= n)) then take (Z.to_nat n) (limit (n + 1) l)
    else limit (n + 1) l) = limit n l) as ->.
  { unfold limit. destruct (bool_decide_reflect (Z.of_nat (length l) <= n)); simpl.
    - by rewrite !take_ge by lia.
    - rewrite take_take. f_equal. lia. }
  rewrite negb_involutive. unfold build_page_cursors.
  destruct (limit n l) as [|w r]; [by destruct (bool_decide _)|].
  by destruct (bool_decide (Z.of_nat (length l) <= n)), hc.
Qed.

Lemma filter_in {A} (f : A -> bool) l a : a ∈ List.filter f l <-> a ∈ l /\ f a = true.
Proof. by rewrite !list_elem_of_In, filter_In. Qed.

Lemma filter_keys_distinct {A K} (key : A -> K) (f : A -> bool) l :
  NoDup (map key l) -> NoDup (map key (List.filter f l)).
Proof.
  intros Hnd. induction l as [|a l IH]; [done|]. inversion_clear Hnd as [|?? Hn Hnd'].
  simpl. destruct (f a); [|by apply IH]. constructor; [|by apply IH].
  intros (b & Hk & Hb)%list_elem_of_fmap. apply filter_in in Hb as [Hb _]. apply Hn. rewrite Hk.
  by apply list_elem_of_fmap_2.
Qed.

Lemma filter_filter {A} (f g : A -> bool) l :
  List.filter f (List.filter g l) = List.filter (fun a => g a && f a) l.
Proof. induction l as [|a l IH]; [done|]. simpl. destruct (g a); simpl; [destruct (f a)|]; by rewrite IH. Qed.

Lemma collect_ok {E A} (f : A -> result A E) l : Forall (fun a => f a = Ok a) l -> collect f l = Ok l.
Proof. induction 1 as [|a l Ha _ IH]; [done|]. simpl. by rewrite Ha, IH. Qed.

(** *** The instant of the [n]-th row *)

Section Floor.

#[local] Instance later_total : StrictTotal (fun a b : Z => b <? a).
Proof.
  split.
  - intros k. apply Z.ltb_irrefl.
  - intros a b c. rewrite !Z.ltb_lt. lia.
  - intros a b. rewrite !Z.ltb_ge. lia.
Qed.

(** From the [n]-th latest on there are [n] instants. *)
Lemma nth_latest (l : list Z) (n : Z) t :
  1 <= n -> head (limit 1 (offset (n - 1) (order_by id (fun a b => b <? a) l))) = Some t ->
  (Z.to_nat n <= length (List.filter (fun a => (t <=? a)%Z) l))%nat.
Proof.
  intros Hn Ht. set (s := order_by id (fun a b => b <? a) l) in *.
  assert (StronglySorted (listed id (fun a b => b <? a)) s) as Hs by (apply StronglySorted_merge_sort; apply _).
  assert (s ≡ₚ l) as Hp by apply merge_sort_Permutation.
  assert (forall f : Z -> bool, length (List.filter f s) = length (List.filter f l)) as <-.
  { intros f. apply Permutation_length. clear Ht Hs. induction Hp as [|a ?? Hp IH|a b ?|??? H1 IH1 H2 IH2]; simpl.
    - done.
    - destruct (f a); by rewrite IH.
    - destruct (f a), (f b); done || apply Permutation_swap.
    - by rewrite IH1. }
  unfold limit, offset in Ht. simpl in Ht.
  destruct (drop (Z.to_nat (n - 1)) s) as [|a r] eqn:Hd; [done|]. simpl in Ht. injection Ht as ->.
  rewrite <- (take_drop (Z.to_nat (n - 1)) s), Hd in Hs |- *.
  assert (length (take (Z.to_nat (n - 1)) s) = Z.to_nat (n - 1)) as Hlen.
  { rewrite length_take. apply (f_equal length) in Hd. rewrite length_drop in Hd. simpl in Hd. lia. }
  rewrite List.filter_app, length_app. simpl. rewrite Z.leb_refl. simpl.
  rewrite forallb_filter_id, Hlen; [lia|]. apply forallb_forall. intros b Hb%list_elem_of_In.
  assert (listed id (fun a b => b <? a) b t) as Hbt by (by eapply StronglySorted_app_1_elem_of; [| |left]).
  unfold listed in Hbt. simpl in Hbt. apply Z.ltb_ge in Hbt. apply Z.leb_le. done.
Qed.
End Floor.

(** ** What every list promises *)

Section Laws.
Context {D : Type} `{Postgres} `{!Tables Event} `{CollationLaws} `{RowIds}.
Context `{Base58Laws} `{SignatureDisplay} `{SignatureFromStr}.

(** From statement [n] on, the result [f] has on the tables at one of the
    statements. *)
Definition at_one_moment {A} (n : nat) (f : list Event -> A) : nat -> A -> Prop :=
  fun n' a => exists m, (n <= m <= n')%nat /\ a = f (rows_at m).

Definition reads_page (q : Query RepositoryError (Page.t D Event)) (n : nat) (c : EventCollection)
    (scope : EventScope.t) (from : DateTime) (cursor : option EventCursor.t) (limit : Z) : Prop :=
  served q n (at_one_moment n (page_of c scope from cursor limit)).

Class EventLookupLaws (c : EventCollection) (L : EventLookup D) : Prop := {
  list_events_page : forall scope from cursor limit n,
    1 <= limit -> served_scope c scope ->
    reads_page (@list_events D L scope from cursor limit) n c scope from cursor limit;
}.

Context `{!EventTables}.
Implicit Types (w : Event) (rows : list Event).

Notation first_rows c scope from cursor n :=
  (fun rows => limit (n + 1) (newest_first c scope from cursor rows)).

Lemma list_scoped_page read c scope from cursor n limit :
  1 <= limit -> served_scope c scope ->
  (scope <> EventScope.Protocol MeteoraDlmm ->
    served (read (pool_column scope) from (EventKey.of_ cursor) (limit + 1)) n
      (at_one_moment n (first_rows c scope from cursor limit))) ->
  reads_page (list_scoped read (event_cursor_of c) scope from cursor limit) n c scope from cursor limit.
Proof.
  intros Hl [Hs _] Hread. unfold reads_page, list_scoped.
  destruct scope as [|[]|pool];
    try (apply served_ret; exists n; split; [lia|done]);
    (eapply served_bind; [by apply Hread|]);
    intros n' l Hn (m & Hm & ->); apply served_ret; exists m; (split; [lia|]);
    by rewrite finish_event_page_cut by lia.
Qed.

Lemma newest_first_in c scope from cursor rows w :
  w ∈ newest_first c scope from cursor rows <->
  w ∈ rows /\ serves c scope from w = true /\ past cursor w = true.
Proof. unfold newest_first. rewrite order_by_perm, filter_in, andb_true_iff. done. Qed.

Lemma converted_page q c scope from cursor n limit :
  served q n (at_one_moment n (first_rows c scope from cursor limit)) ->
  served (converted q) n (at_one_moment n (first_rows c scope from cursor limit)).
Proof.
  intros Hq. eapply served_bind; [exact Hq|]. intros n' l Hn (m & Hm & ->).
  eapply served_lift; [|by exists m; split]. apply collect_ok, Forall_forall. intros w Hw.
  apply (elem_of_take _ _ _) in Hw as (i & Hw & _).
  apply list_elem_of_lookup_2, newest_first_in in Hw as [Hw _]. by eapply rows_stored.
Qed.

(** *** A list of one table *)

Lemma rows_after_newest name c scope from cursor n m :
  wf_event_scope scope -> scope <> EventScope.Protocol MeteoraDlmm -> tables_of c = [name] ->
  rows_after name (pool_column scope) from (EventKey.of_ cursor) n (rows_at m) =
    limit n (newest_first c scope from cursor (rows_at m)).
Proof.
  intros Hs Hne Ht. unfold rows_after, newest_first. f_equal. f_equal.
  apply filter_ext_in. intros w Hw%list_elem_of_In.
  apply where_after_serves; try done. by eapply stored_pool, rows_stored.
Qed.

Lemma select_page_newest name c scope from cursor n limit :
  wf_event_scope scope -> scope <> EventScope.Protocol MeteoraDlmm -> tables_of c = [name] ->
  served (select_page name (pool_column scope) from (EventKey.of_ cursor) (limit + 1)) n
    (at_one_moment n (first_rows c scope from cursor limit)).
Proof.
  intros Hs Hne Ht. apply served_select. exists n. split; [lia|]. by apply rows_after_newest.
Qed.

(** *** The swaps, in two reads *)

(** Narrowed to the instant of the [n]-th row, and read again later, the page
    is the one the whole window gives then. *)
Lemma narrowed_page name pool from key n m floor :
  1 <= n ->
  head (limit 1 (offset (n - 1) (order_by id (fun a b => b <? a)
    (map MeteoraDammV2Event.timestamp (List.filter (where_after name pool from key) (rows_at m)))))) = floor ->
  rows_after name pool (Z.max from (default from floor)) key n (rows_at (S m)) =
    rows_after name pool from key n (rows_at (S m)).
Proof.
  intros Hn Hf. destruct floor as [t|]; simpl; [|by rewrite Z.max_id].
  apply nth_latest in Hf; [|done]. rewrite filter_map_swap, length_map in Hf.
  set (sel := where_after name pool from key) in *.
  set (late := fun w => t <=? MeteoraDammV2Event.timestamp w).
  assert (forall w, where_after name pool (Z.max from t) key w = sel w && late w) as Hw.
  { intros w. unfold sel, where_after, late. destruct (in_table name pool w), (after_key key w);
      rewrite ?andb_false_r; try done; simpl; rewrite ?andb_true_r.
    destruct (Z.leb_spec (Z.max from t) (MeteoraDammV2Event.timestamp w)),
      (Z.leb_spec from (MeteoraDammV2Event.timestamp w)), (Z.leb_spec t (MeteoraDammV2Event.timestamp w));
      simpl; try done; lia. }
  unfold rows_after, limit. rewrite (List.filter_ext _ _ Hw), <- filter_filter.
  apply (top_filter row_key key_desc).
  - apply filter_keys_distinct, rows_keys.
  - intros b a _ _ Hb Ha. unfold late in Hb, Ha. apply Z.leb_le in Hb. apply Z.leb_gt in Ha.
    unfold key_desc, row_key. rewrite (proj2 (Z.ltb_lt _ _)) by lia. done.
  - left. etrans; [exact Hf|]. apply subset_length.
    + apply (keys_distinct_NoDup row_key), filter_keys_distinct, filter_keys_distinct, rows_keys.
    + intros w. rewrite !filter_in. intros [[Hr Hs] Ht]. split_and!; [by apply rows_grow|done|done].
Qed.

Lemma two_reads_newest name c scope from cursor n lim :
  1 <= lim -> wf_event_scope scope -> scope <> EventScope.Protocol MeteoraDlmm -> tables_of c = [name] ->
  served
    (let> floor := select_floor name (pool_column scope) from (EventKey.of_ cursor) (lim + 1) in
     select_page name (pool_column scope) (Z.max from (default from floor)) (EventKey.of_ cursor) (lim + 1)) n
    (at_one_moment n (first_rows c scope from cursor lim)).
Proof.
  intros Hl Hs Hne Ht.
  eapply (served_bind _ _ _ (fun n' floor => n' = S n /\
    head (limit 1 (offset (lim + 1 - 1) (order_by id (fun a b => b <? a)
      (map MeteoraDammV2Event.timestamp
        (List.filter (where_after name (pool_column scope) from (EventKey.of_ cursor)) (rows_at n)))))) = floor)).
  - by apply served_select.
  - intros n' floor _ [-> Hfloor]. apply served_select. exists (S n). split; [lia|].
    assert (1 <= lim + 1) as Hn by lia. rewrite (narrowed_page _ _ _ _ _ _ _ Hn Hfloor). by apply rows_after_newest.
Qed.
End Laws.
