(* ===== verification/MergedListsFacts.v ===== *)
(** * The lists merged from several tables

    A union of tables cut branch by branch, then read again by id: the page the
    tables together give, whatever is written between the statements. The nine
    lists keep the promise of [EventLookupLaws]. *)

From stdpp Require Import sorting.
From S2P Require Import Prelude Errors External Domain Store Rows RowsFacts Cursor CursorFacts Keyset.
From S2P Require Import KeysetFacts EventLists EventApi EventListsFacts.

(** ** One table after the other, or together *)

Lemma concat_tables (g : Event -> bool) (names : list string) rows :
  NoDup names ->
  concat (map (fun name => List.filter (fun w => bool_decide (table w = name) && g w) rows) names) ≡ₚ
    List.filter (fun w => bool_decide (table w ∈ names) && g w) rows.
Proof.
  intros Hnd. induction Hnd as [|name names Hn _ IH]; simpl.
  - by induction rows.
  - rewrite IH. clear IH. induction rows as [|w rows IH]; [done|]. simpl.
    destruct (bool_decide_reflect (table w = name)) as [Ht|Ht].
    + rewrite (bool_decide_eq_true_2 (table w ∈ name :: names)) by (rewrite Ht; by left).
      rewrite (bool_decide_eq_false_2 (table w ∈ names)) by congruence.
      simpl. destruct (g w); simpl; by rewrite IH.
    + rewrite (bool_decide_ext (table w ∈ name :: names) (table w ∈ names)) by (rewrite elem_of_cons; naive_solver).
      simpl. destruct (bool_decide (table w ∈ names) && g w); [|done].
      by rewrite <- Permutation_middle, IH.
Qed.

Lemma foldl_min_le l : forall a, foldl Z.min a l <= a /\ Forall (fun x => foldl Z.min a l <= x) l.
Proof.
  induction l as [|b l IH]; intros a; simpl; [split; [lia|done]|].
  destruct (IH (a `min` b)) as [Ha Hl]. split; [lia|]. constructor; [lia|done].
Qed.

Lemma foldl_max_ge l : forall a, a <= foldl Z.max a l /\ Forall (fun x => x <= foldl Z.max a l) l.
Proof.
  induction l as [|b l IH]; intros a; simpl; [split; [lia|done]|].
  destruct (IH (a `max` b)) as [Ha Hl]. split; [lia|]. constructor; [lia|done].
Qed.

Lemma min_of_le l t : min_of l = Some t -> Forall (fun x => t <= x) l.
Proof.
  destruct l as [|a l]; [done|]. intros [= <-]. destruct (foldl_min_le l a). by constructor.
Qed.

Lemma max_of_ge l t : max_of l = Some t -> Forall (fun x => x <= t) l.
Proof.
  destruct l as [|a l]; [done|]. intros [= <-]. destruct (foldl_max_ge l a). by constructor.
Qed.

Section Merged.
Context {D : Type} `{Postgres} `{!Tables Event} `{CollationLaws} `{RowIds}.
Context `{Base58Laws} `{SignatureDisplay} `{SignatureFromStr} `{!EventTables}.
Context (kinds : list (string * string)).
Hypothesis kinds_distinct : NoDup (map fst kinds).
Hypothesis tables_distinct : NoDup (map snd kinds).
Implicit Types (w : Event) (rows page : list Event).

(** The kind of a row, and its key in the union. *)
Definition kind_of w : string :=
  default "" (fst <$> List.find (fun b => bool_decide (snd b = table w)) kinds).
Definition merged_key_of w : MergedEventKey.t :=
  MergedEventKey.mk (kind_of w) (id_of w) (MeteoraDammV2Event.timestamp w).
Definition merged_row w : UnionRow := union_row (kind_of w) (id_of w) (row_key w).

Lemma kind_of_branch w : table w ∈ map snd kinds -> (kind_of w, table w) ∈ kinds.
Proof.
  intros (b & Ht & Hb)%list_elem_of_fmap. unfold kind_of.
  destruct (List.find _ kinds) as [b'|] eqn:Hf; simpl.
  - apply find_some in Hf as [Hb' Hs%bool_decide_eq_true]. rewrite <- Hs.
    apply list_elem_of_In. by destruct b'.
  - apply list_elem_of_In in Hb. pose proof (find_none _ _ Hf b Hb) as Hs. simpl in Hs.
    by rewrite bool_decide_eq_true_2 in Hs.
Qed.

Lemma branch_inj (f : string * string -> string) b b' :
  NoDup (map f kinds) -> b ∈ kinds -> b' ∈ kinds -> f b = f b' -> b = b'.
Proof. intros Hnd. by apply key_inj. Qed.

Lemma kind_of_table w b : b ∈ kinds -> table w = snd b -> kind_of w = fst b.
Proof.
  intros Hb Ht. assert ((kind_of w, table w) = b) as <-; [|done].
  apply (branch_inj snd); [done| |done|done].
  apply kind_of_branch. rewrite Ht. by apply list_elem_of_fmap_2.
Qed.

Lemma kind_of_inj a b :
  table a ∈ map snd kinds -> table b ∈ map snd kinds -> kind_of a = kind_of b -> table a = table b.
Proof.
  intros Ha%kind_of_branch Hb%kind_of_branch Hk.
  by pose proof (branch_inj fst _ _ kinds_distinct Ha Hb Hk) as [= _ ?].
Qed.

(** *** The keys of a page *)

Lemma union_branch_rows pool from key n rows b :
  b ∈ kinds -> union_branch pool from key n rows b = map merged_row (rows_after (snd b) pool from key n rows).
Proof.
  intros Hb. unfold union_branch. apply map_ext_in. intros w Hw%list_elem_of_In.
  unfold merged_row. rewrite (kind_of_table w b); [done..|].
  unfold rows_after, limit in Hw. apply elem_of_take in Hw as (i & Hw%list_elem_of_lookup_2 & _).
  rewrite order_by_perm, filter_in in Hw. destruct Hw as [_ Hw]. unfold where_after, in_table in Hw.
  rewrite !andb_true_iff, bool_decide_eq_true in Hw. tauto.
Qed.

Lemma union_keys c scope from cursor n m :
  wf_event_scope scope -> scope <> EventScope.Protocol MeteoraDlmm -> tables_of c = map snd kinds ->
  map merged_key (limit n (order_by union_key key_desc
    (concat (map (union_branch (pool_column scope) from (EventKey.of_ cursor) n (rows_at m)) kinds)))) =
  map merged_key_of (limit n (newest_first c scope from cursor (rows_at m))).
Proof.
  intros Hs Hne Ht.
  set (g := fun w => in_scope scope w && (from <=? MeteoraDammV2Event.timestamp w) && past cursor w).
  set (part := fun name => List.filter (fun w => bool_decide (table w = name) && g w) (rows_at m)).
  assert (forall name, rows_after name (pool_column scope) from (EventKey.of_ cursor) n (rows_at m) =
    top row_key key_desc (Z.to_nat n) (part name)) as Hpart.
  { intros name. unfold rows_after, limit, top, part. f_equal. f_equal.
    apply filter_ext_in. intros w Hw%list_elem_of_In. unfold where_after, g.
    rewrite in_table_scope, after_key_past; [by rewrite !andb_assoc|done| |done].
    by eapply stored_pool, rows_stored. }
  assert (concat (map (union_branch (pool_column scope) from (EventKey.of_ cursor) n (rows_at m)) kinds) =
    map merged_row (concat (map (top row_key key_desc (Z.to_nat n)) (map part (map snd kinds))))) as ->.
  { rewrite concat_map, !map_map. f_equal. apply map_ext_in. intros b Hb%list_elem_of_In.
    by rewrite union_branch_rows, Hpart. }
  assert (concat (map part (map snd kinds)) ≡ₚ
    List.filter (fun w => serves c scope from w && past cursor w) (rows_at m)) as Hp.
  { unfold part. rewrite concat_tables by done. unfold g, serves. rewrite Ht.
    erewrite List.filter_ext; [done|]. intros w. simpl. by rewrite !andb_assoc. }
  assert (NoDup (map row_key (concat (map part (map snd kinds))))) as Hnd.
  { eapply keys_distinct_perm; [symmetry; exact Hp|]. apply filter_keys_distinct, rows_keys. }
  rewrite (order_by_map merged_row row_key union_key key_desc) by (done || by apply (top_concat_distinct row_key key_desc)).
  unfold limit. rewrite firstn_map, map_map.
  change (fun w => merged_key (merged_row w)) with merged_key_of. f_equal.
  fold (top row_key key_desc (Z.to_nat n) (concat (map (top row_key key_desc (Z.to_nat n)) (map part (map snd kinds))))).
  rewrite (top_concat row_key key_desc _ _ Hnd). unfold top, newest_first. f_equal.
  by apply (order_by_ext row_key key_desc).
Qed.
(** *** The rows of the keys *)

(** What a table gives again for some ids. *)
Definition fetched name (ids : list Z) (span : DateTime * DateTime) n n' rows : Prop :=
  exists m, (n <= m <= n')%nat /\ forall w, w ∈ rows <->
    w ∈ rows_at m /\ table w = name /\ id_of w ∈ ids /\
    fst span <= MeteoraDammV2Event.timestamp w <= snd span.

Lemma fetch_rows_served name ids span n :
  served (fetch_rows name ids span) n (fun n' rows => fetched name ids span n n' rows).
Proof.
  unfold fetch_rows. destruct ids as [|i ids].
  - apply served_ret. exists n. split; [lia|]. intros w. split; [by intros []%elem_of_nil|].
    by intros (_ & _ & []%elem_of_nil & _).
  - apply served_select. exists n. split; [lia|]. intros w.
    rewrite filter_in, !andb_true_iff, !bool_decide_eq_true, !Z.leb_le. naive_solver.
Qed.

(** The rows of a kind enter the map under their ids, and only there. *)
Lemma insert_changes_ok kind rows : forall changes,
  Forall (fun w => try_from_row w = Ok w) rows ->
  exists changes', insert_changes kind rows changes = Ok changes' /\
    (forall w, w ∈ rows -> (forall r, r ∈ rows -> id_of r = id_of w -> r = w) ->
      changes' !! (kind, id_of w) = Some w) /\
    (forall k i, k <> kind \/ (forall r, r ∈ rows -> id_of r <> i) -> changes' !! (k, i) = changes !! (k, i)).
Proof.
  induction rows as [|r rows IH]; intros changes Hok.
  { exists changes. split_and!; [done| |done]. by intros w []%elem_of_nil. }
  inversion_clear Hok as [|?? Hr Hrows]. simpl. rewrite Hr. simpl.
  destruct (IH (<[(kind, id_of r) := r]> changes) Hrows) as (ch & Hch & Hin & Hout).
  exists ch. split_and!; [done| |].
  - intros w Hw Hone. destruct (decide (id_of w ∈ map id_of rows)) as [Hwr|Hwr].
    { apply list_elem_of_fmap in Hwr as (r' & Hid & Hr').
      rewrite <- (Hone r') by (done || by right). apply Hin; [done|].
      intros v Hv Hvid. rewrite (Hone r'), (Hone v); [done|by right|congruence|by right|done]. }
    apply elem_of_cons in Hw as [->|Hw]; [|by destruct Hwr; apply list_elem_of_fmap_2].
    rewrite Hout; [by rewrite lookup_insert_eq|].
    right. intros r' Hr' Hid. apply Hwr. rewrite <- Hid. by apply list_elem_of_fmap_2.
  - intros k i Hki. rewrite Hout; [|destruct Hki as [?|Hki]; [by left|right; intros; apply Hki; by right]].
    apply lookup_insert_ne. intros [= <- <-]. destruct Hki as [Hk|Hi]; [done|]. by apply (Hi r); [left|].
Qed.

Lemma in_key_order_page page : forall (changes : gmap (string * Z) Event),
  NoDup (map (fun w => (kind_of w, id_of w)) page) ->
  (forall w, w ∈ page -> changes !! (kind_of w, id_of w) = Some w) ->
  in_key_order (map merged_key_of page) changes = Ok page.
Proof.
  induction page as [|w page IH]; intros changes Hnd Hch; [done|].
  inversion_clear Hnd as [|?? Hw Hnd']. simpl. rewrite (Hch w) by (by left). simpl.
  rewrite IH; [done..|]. intros v Hv. rewrite lookup_delete_ne; [apply Hch; by right|].
  intros He. apply Hw. rewrite He. by apply (list_elem_of_fmap_2 (fun w => (kind_of w, id_of w))).
Qed.

Lemma ids_of_page page kind w : w ∈ page -> kind_of w = kind -> id_of w ∈ ids_of (map merged_key_of page) kind.
Proof.
  intros Hw Hk. unfold ids_of. apply list_elem_of_In, in_map_iff. exists (merged_key_of w). split; [done|].
  apply filter_In. split; [|by apply bool_decide_eq_true].
  apply in_map. by apply list_elem_of_In.
Qed.

Lemma ids_of_inv page kind i :
  i ∈ ids_of (map merged_key_of page) kind -> exists w, w ∈ page /\ kind_of w = kind /\ id_of w = i.
Proof.
  unfold ids_of. rewrite list_elem_of_In, in_map_iff.
  intros (k & <- & [(w & <- & Hw)%in_map_iff Hk%bool_decide_eq_true]%filter_In).
  exists w. by rewrite list_elem_of_In.
Qed.

Section Fetch.
Context (fetch : string -> list Z -> DateTime * DateTime -> Query RepositoryError (list Event)).
Hypothesis fetch_kind : forall b, b ∈ kinds -> forall ids span, fetch (fst b) ids span = fetch_rows (snd b) ids span.
Context (page : list Event) (span : DateTime * DateTime) (m : nat).
Hypothesis page_stored : forall w, w ∈ page -> w ∈ rows_at m /\ table w ∈ map snd kinds.
Hypothesis page_span : forall w, w ∈ page -> fst span <= MeteoraDammV2Event.timestamp w <= snd span.

(** Every row of the page of these kinds is in the map. *)
Lemma fetch_changes_page ks : forall n changes,
  (m <= n)%nat -> Forall (fun b => b ∈ kinds) ks ->
  served (fetch_changes (map fst ks) fetch (map merged_key_of page) span changes) n
    (fun _ changes' => forall w, w ∈ page ->
      kind_of w ∈ map fst ks \/ changes !! (kind_of w, id_of w) = Some w ->
      changes' !! (kind_of w, id_of w) = Some w).
Proof.
  induction ks as [|b ks IH]; intros n changes Hm Hks; simpl.
  { apply served_ret. by intros w _ [[]%elem_of_nil|]. }
  inversion_clear Hks as [|?? Hb Hks']. rewrite fetch_kind by done.
  eapply served_bind; [apply fetch_rows_served|]. intros n1 rows Hn1 (m1 & Hm1 & Hrows).
  destruct (insert_changes_ok (fst b) rows changes) as (ch & Hch & Hin & Hout).
  { apply Forall_forall. intros w Hw. apply Hrows in Hw as [Hw _]. by eapply rows_stored. }
  eapply served_bind; [by apply (served_lift _ _ _ (fun n ch' => n = n1 /\ ch' = ch) Hch)|].
  intros n2 ch' Hn2 [-> ->]. eapply served_mono; [apply IH; [lia|done]|].
  intros n3 ch3 _ Hch3 w Hw Hk. apply Hch3; [done|].
  destruct (decide (kind_of w = fst b)) as [He|Hne].
  - right. destruct (page_stored w Hw) as [Hws Hwt]. rewrite He.
    assert (forall r, r ∈ rows -> id_of r = id_of w -> r = w) as Hone.
    { intros r Hr Hid. apply Hrows in Hr as (Hr & Htr & _). apply (rows_ids m1); [done| | |done].
      - eapply rows_grow_le, Hws. lia.
      - pose proof (branch_inj fst _ _ kinds_distinct (kind_of_branch w Hwt) Hb He) as <-. done. }
    apply Hin; [|done]. apply Hrows. split_and!; try by apply page_span.
    + eapply rows_grow_le, Hws. lia.
    + by pose proof (branch_inj fst _ _ kinds_distinct (kind_of_branch w Hwt) Hb He) as <-.
    + by apply ids_of_page.
  - destruct Hk as [Hk|Hk]; [apply elem_of_cons in Hk as [Hk|Hk]; [done|by left]|].
    right. rewrite Hout; [done|by left].
Qed.
End Fetch.

Lemma fetch_merged_page fetch page m n :
  (forall b, b ∈ kinds -> forall ids span, fetch (fst b) ids span = fetch_rows (snd b) ids span) ->
  (m <= n)%nat -> NoDup page -> (forall w, w ∈ page -> w ∈ rows_at m /\ table w ∈ map snd kinds) ->
  served (fetch_merged (map fst kinds) fetch (map merged_key_of page)) n (fun _ l => l = page).
Proof.
  intros Hfetch Hm Hnd Hpage. unfold fetch_merged, instants_of. rewrite map_map.
  change (fun w => MergedEventKey.timestamp (merged_key_of w)) with MeteoraDammV2Event.timestamp.
  assert (page = [] \/ page <> []) as [->|Hne] by (destruct page; [by left|by right]); [by apply served_ret|].
  assert (exists first, min_of (map MeteoraDammV2Event.timestamp page) = Some first) as [first Hf] by (destruct page; [done|by eexists]).
  assert (exists last, max_of (map MeteoraDammV2Event.timestamp page) = Some last) as [last Hl] by (destruct page; [done|by eexists]).
  rewrite Hf, Hl. simpl. eapply served_bind.
  - apply (fetch_changes_page fetch Hfetch page (first, last) m Hpage); [|done|by apply Forall_forall].
    intros w Hw. apply (list_elem_of_fmap_2 MeteoraDammV2Event.timestamp) in Hw. simpl.
    apply min_of_le in Hf. apply max_of_ge in Hl. rewrite Forall_forall in Hf, Hl. by split; [apply Hf|apply Hl].
  - intros n' ch _ Hch. eapply served_lift; [|done]. apply in_key_order_page.
    + apply NoDup_fmap_2_strong; [|done]. intros a b Ha Hb [= Hk Hi].
      apply Hpage in Ha as [Ha Hta], Hb as [Hb Htb].
      apply (rows_ids m); [done..| |done]. by apply kind_of_inj.
    + intros w Hw. apply Hch; [done|]. left. apply Hpage in Hw as [_ Hw].
      apply kind_of_branch in Hw. apply (list_elem_of_fmap_2 fst) in Hw. done.
Qed.

(** A merged list is one list of its tables. *)
Lemma merged_page c fetch scope from cursor n lim :
  (forall b, b ∈ kinds -> forall ids span, fetch (fst b) ids span = fetch_rows (snd b) ids span) ->
  wf_event_scope scope -> scope <> EventScope.Protocol MeteoraDlmm -> tables_of c = map snd kinds ->
  served
    (let> keys := select_keys kinds (pool_column scope) from (EventKey.of_ cursor) lim in
     fetch_merged (map fst kinds) fetch keys) n
    (at_one_moment n (fun rows => limit lim (newest_first c scope from cursor rows))).
Proof.
  intros Hfetch Hs Hne Ht. set (page := limit lim (newest_first c scope from cursor (rows_at n))).
  eapply (served_bind _ _ _ (fun n' keys => n' = S n /\ keys = map merged_key_of page)).
  { apply served_select. split; [done|]. by apply union_keys. }
  assert (forall w, w ∈ page -> w ∈ rows_at n /\ table w ∈ map snd kinds) as Hpage.
  { intros w Hw. unfold page, limit in Hw. apply elem_of_take in Hw as (i & Hw%list_elem_of_lookup_2 & _).
    apply newest_first_in in Hw as (Hw & Hsv & _). split; [done|]. unfold serves in Hsv.
    rewrite !andb_true_iff, bool_decide_eq_true, Ht in Hsv. tauto. }
  intros n' keys _ [-> ->]. eapply served_mono.
  - apply (fetch_merged_page fetch page n (S n)); [done|lia| |done].
    apply (keys_distinct_NoDup row_key). unfold page, limit.
    assert (NoDup (map row_key (newest_first c scope from cursor (rows_at n)))) as Hnd.
    { eapply keys_distinct_perm; [symmetry; apply order_by_perm|]. apply filter_keys_distinct, rows_keys. }
    eapply (keys_distinct_part row_key); [|exact Hnd]. by rewrite take_drop.
  - intros n' l Hn' ->. exists n. split; [lia|done].
Qed.
End Merged.

(** ** The nine lists *)

Section Nine.
Context {D : Type} `{Postgres} `{!Tables Event} `{CollationLaws} `{RowIds}.
Context `{Base58Laws} `{SignatureDisplay} `{SignatureFromStr} `{!EventTables}.

(** A list whose read, for each scope, is a page of its tables. *)
Lemma scoped_laws c (L : EventLookup D) read :
  (forall scope from cursor n limit, served_scope c scope ->
    @list_events D L scope from cursor limit n =
      list_scoped read (event_cursor_of c) scope from cursor limit n) ->
  (forall scope from cursor n limit, 1 <= limit -> served_scope c scope -> scope <> EventScope.Protocol MeteoraDlmm ->
    served (read (pool_column scope) from (EventKey.of_ cursor) (limit + 1)) n
      (at_one_moment n (fun rows => Keyset.limit (limit + 1) (newest_first c scope from cursor rows)))) ->
  EventLookupLaws c L.
Proof.
  intros HL Hread. split. intros scope from cursor limit n Hl Hs.
  unfold reads_page, served. rewrite HL by done. apply (list_scoped_page read); [done..|].
  intros Hne. by apply Hread.
Qed.

(** One table, in one read or in two. *)
Lemma plain_read name c scope from cursor n limit :
  served_scope c scope -> scope <> EventScope.Protocol MeteoraDlmm -> tables_of c = [name] ->
  served (converted (select_page name (pool_column scope) from (EventKey.of_ cursor) (limit + 1))) n
    (at_one_moment n (fun rows => Keyset.limit (limit + 1) (newest_first c scope from cursor rows))).
Proof. intros [Hs _] Hne Ht. by apply converted_page, select_page_newest. Qed.

Ltac solve_plain :=
  intros scope from cursor n limit Hl Hs Hne;
  match goal with |- served _ _ (at_one_moment _ (fun _ => Keyset.limit _ (newest_first ?c _ _ _ _))) =>
    pose proof (plain_read _ c scope from cursor n limit Hs Hne eq_refl) as Hread end;
  by destruct scope.

Ltac solve_merged kinds fetch :=
  intros scope from cursor n limit Hl [Hs _] Hne;
  match goal with |- served _ _ (at_one_moment _ (fun _ => Keyset.limit _ (newest_first ?c _ _ _ _))) =>
    assert (NoDup (map fst kinds)) as Hk by (apply (bool_decide_unpack _); vm_compute; exact I);
    assert (NoDup (map snd kinds)) as Ht by (apply (bool_decide_unpack _); vm_compute; exact I);
    assert (Forall (fun b => forall ids span, fetch (fst b) ids span = fetch_rows (snd b) ids span) kinds) as Hf
      by (repeat constructor);
    rewrite Forall_forall in Hf;
    pose proof (merged_page kinds Hk Ht c fetch scope from cursor n (limit + 1) Hf Hs Hne eq_refl) as Hread end;
  by destruct scope.

#[global] Instance swap_laws : EventLookupLaws Swaps (swap_lookup (D := D)).
Proof.
  eapply scoped_laws; [done|]. intros scope from cursor n limit Hl [Hs _] Hne.
  pose proof (converted_page _ _ _ _ _ _ _
    (two_reads_newest _ Swaps scope from cursor n limit Hl Hs Hne eq_refl)) as Hread.
  by destruct scope.
Qed.
#[global] Instance liquidity_change_laws : EventLookupLaws LiquidityChanges (liquidity_change_event_lookup (D := D)).
Proof. eapply scoped_laws; [done|]. solve_plain. Qed.
#[global] Instance position_fee_claim_laws :
  EventLookupLaws PositionFeeClaims (position_fee_claim_event_lookup (D := D)).
Proof. eapply scoped_laws; [done|]. solve_plain. Qed.
#[global] Instance protocol_fee_claim_laws :
  EventLookupLaws ProtocolFeeClaims (protocol_fee_claim_event_lookup (D := D)).
Proof. eapply scoped_laws; [done|]. solve_plain. Qed.
#[global] Instance reward_claim_laws : EventLookupLaws RewardClaims (reward_claim_event_lookup (D := D)).
Proof. eapply scoped_laws; [done|]. solve_plain. Qed.
#[global] Instance pool_creation_laws : EventLookupLaws PoolCreations (pool_creation_event_lookup (D := D)).
Proof.
  eapply scoped_laws.
  - intros [|p|pool] from cursor n limit [_ Hs]; [reflexivity|reflexivity|destruct Hs].
  - intros scope from cursor n limit Hl Hs Hne.
    pose proof (plain_read _ PoolCreations scope from cursor n limit Hs Hne eq_refl) as Hread.
    destruct Hs as [_ Hs]. by destruct scope.
Qed.
#[global] Instance position_change_laws : EventLookupLaws PositionChanges (position_change_event_lookup (D := D)).
Proof. eapply scoped_laws; [done|]. solve_merged PositionChangeEvents.kinds PositionChangeEvents.fetch. Qed.
#[global] Instance reward_change_laws : EventLookupLaws RewardChanges (reward_change_event_lookup (D := D)).
Proof. eapply scoped_laws; [done|]. solve_merged RewardChangeEvents.kinds RewardChangeEvents.fetch. Qed.
#[global] Instance pool_change_laws : EventLookupLaws PoolChanges (pool_change_event_lookup (D := D)).
Proof. eapply scoped_laws; [done|]. solve_merged PoolChangeEvents.kinds PoolChangeEvents.fetch. Qed.

#[global] Instance lookup_of_laws c : EventLookupLaws c (lookup_of (D := D) c).
Proof. destruct c; apply _. Qed.
End Nine.

Section Refinement.
Context {D : Type} `{Postgres} `{!Tables Event} `{CollationLaws} `{RowIds}.
Context `{Base58Laws} `{SignatureDisplay} `{SignatureFromStr} `{!EventTables}.

(** C17: each of the nine lists refines one page of its tables. However many
    statements it sends, and whatever is written between them (the swaps narrow
    a first read by a second, three lists merge several tables and read the
    rows again by id), an answer is the page the reference definition cuts from
    the tables as they were at one moment of the read; an error is the fault of
    one of the statements, never a row that does not convert or a key whose row
    is missing. *)
Theorem lists_refine_pages (c : EventCollection) scope from cursor limit n :
  1 <= limit -> served_scope c scope ->
  let '(n', r) := @list_events D (lookup_of c) scope from cursor limit n in
  match r with
  | Ok page => exists m, (n <= m <= n')%nat /\ page = page_of c scope from cursor limit (rows_at m)
  | Err e => exists k, (n <= k < n')%nat /\ fault k = Some e
  end.
Proof.
  intros Hl Hs. destruct (lookup_of_laws (D := D) c) as [Hp]. specialize (Hp scope from cursor limit n Hl Hs).
  unfold reads_page, served in Hp. destruct (list_events scope from cursor limit n) as [n' r].
  by destruct Hp as [_ Hp].
Qed.
End Refinement.
