(* ===== verification/Period.v ===== *)
(** * The period of a measure

    [src/crates/api/src/application/services/]: period.rs and
    windows_service.rs, over the reads of
    [src/crates/persistence/src/repositories/protocol_activity.rs]; the window
    and the step a request asks for ([api/src/http/dto/request/window_param.rs])
    and what a response says of its period ([.../dto/response/window.rs]). The
    tables read are those the cycles of [Analytic] write, each statement seeing
    them as they are when it is run. *)

From S2P Require Import Prelude Errors External Domain Store Analytic Cursor Keyset EventApi.

(** ** The tables a measure is read from *)

(** A row of [pools], keyed by its address. *)
Module SeenPool.
Record t : Type := mk {
  protocol : string;
  first_seen_at : DateTime;
  token_a_mint : option string;
  token_b_mint : option string;
}.
End SeenPool.

(** The tables at the [n]-th statement the reader sends. *)
Class Snapshots (N O : Type) : Type := {
  analytic_at : nat -> Tables.t N O;
  pools_at : nat -> gmap Pubkey SeenPool.t;
}.

(** One statement over them. *)
Definition read `{Postgres} {N O A} `{!Snapshots N O} (q : Tables.t N O -> gmap Pubkey SeenPool.t -> A) :
    Query RepositoryError A := fun n =>
  (S n, match fault n with Some e => Err e | None => Ok (q (analytic_at n) (pools_at n)) end).

(** ** [protocol_activity.rs] *)

Definition zip_option {A B} (a : option A) (b : option B) : option (A * B) :=
  match a, b with Some a, Some b => Some (a, b) | _, _ => None end.

Definition frozen_hours_of {N O} (t : Tables.t N O) : option FrozenHours.t :=
  (fun '(first, last_frozen) => FrozenHours.mk first last_frozen) <$>
    zip_option (min_bucket (fun _ => true) (Tables.analytic_hours t))
      (max_bucket is_frozen (Tables.analytic_hours t)).

(** [MIN(bucket)] of analytic_pool_5min. *)
Definition first_pool_tranche {N O} (t : Tables.t N O) : option DateTime :=
  best_bucket Z.min (fun _ => true) (map (fun row => (snd (fst row), snd row)) (tranche_rows t)).

Definition written_tranches_of {N O} (t : Tables.t N O) : option WrittenTranches.t :=
  (fun '(first, last) => WrittenTranches.mk first (last + TRANCHE)) <$>
    zip_option (first_pool_tranche t) (max_bucket (fun _ => true) (Tables.analytic_tranches t)).

Section Lookup.
Context {N O : Type} `{Postgres} `{!Snapshots N O}.

Definition frozen_hours : Query RepositoryError (option FrozenHours.t) :=
  read (N := N) (O := O) (fun t _ => frozen_hours_of t).

Definition written_tranches : Query RepositoryError (option WrittenTranches.t) :=
  read (N := N) (O := O) (fun t _ => written_tranches_of t).
End Lookup.

(** ** [period.rs] *)

Definition CURSOR_END_MARGIN : TimeDelta := hours_delta 1.

Module Measured.
Record t (T P : Type) : Type := mk {
  period : option P;
  items : T;
}.
Arguments mk {T P}.
Arguments period {T P}.
Arguments items {T P}.
End Measured.

(** The trait. *)
Class PeriodBounds (P : Type) : Type := {
  bounds_from : P -> DateTime;
  bounds_as_of : P -> DateTime;
  bounds_covered_since : P -> DateTime;
  late_after : P -> TimeDelta;
  opening_since : P -> DateTime;
}.

Definition CLOSED_WINDOWS : list Window := [Month].
Definition FROZEN_LATE_AFTER : TimeDelta := hours_delta 2.
Definition TRANCHE_LATE_AFTER : TimeDelta := minutes_delta 30.

Module Availability.
Record t : Type := mk {
  open : bool;
  opens_at : option DateTime;
  late : bool;
}.

Definition of_ {P} `{PeriodBounds P} (window : Window) (offset : option Window) (period : option P)
    (now : DateTime) : t :=
  match period with
  | None => mk false None false
  | Some period =>
    let offset := offset_duration offset in
    let end_ := bounds_as_of period + offset in
    let late := late_after period <? now - end_ in
    if bool_decide (window ∈ CLOSED_WINDOWS) then mk false None late
    else
      let opening := opening_since period in
      let opens_at := opening + Window_duration window + offset in
      let open := opens_at <=? end_ in
      mk open (if negb open && (opening <? end_) then Some opens_at else None) late
  end.
End Availability.

#[global] Instance frozen_bounds : PeriodBounds FrozenPeriod.t := {
  bounds_from := FrozenPeriod.from;
  bounds_as_of := FrozenPeriod.as_of;
  bounds_covered_since := FrozenPeriod.covered_since;
  late_after _ := FROZEN_LATE_AFTER;
  opening_since := FrozenPeriod.covered_since;
}.

#[global] Instance tranche_bounds : PeriodBounds TranchePeriod.t := {
  bounds_from := TranchePeriod.from;
  bounds_as_of := TranchePeriod.as_of;
  bounds_covered_since := TranchePeriod.covered_since;
  late_after _ := TRANCHE_LATE_AFTER;
  opening_since := TranchePeriod.covered_since;
}.

(** [since] and no earlier than [covered_since]; [as_of] when not measured yet. *)
Definition measured_since (as_of covered_since : DateTime) (since : option DateTime) : DateTime :=
  match since with Some since => Z.max since covered_since | None => as_of end.

Definition measured_from (period : FrozenPeriod.t) (since : option DateTime) : FrozenPeriod.t :=
  FrozenPeriod.mk (FrozenPeriod.from period) (FrozenPeriod.as_of period)
    (measured_since (FrozenPeriod.as_of period) (FrozenPeriod.covered_since period) since).

Definition first_whole_hour `{DurationTrunc} (at_ : DateTime) : DateTime :=
  let start := default at_ (duration_trunc at_ (hours_delta 1)) in
  if start =? at_ then at_ else start + hours_delta 1.

Module ReadPeriod.
Inductive t : Type :=
| Frozen (p : FrozenPeriod.t)
| Tranche (p : TranchePeriod.t).

Definition from (self : t) : DateTime :=
  match self with Frozen p => FrozenPeriod.from p | Tranche p => TranchePeriod.from p end.
Definition as_of (self : t) : DateTime :=
  match self with Frozen p => FrozenPeriod.as_of p | Tranche p => TranchePeriod.as_of p end.
Definition covered_since (self : t) : DateTime :=
  match self with Frozen p => FrozenPeriod.covered_since p | Tranche p => TranchePeriod.covered_since p end.

Definition is_covered (self : t) : bool :=
  match self with Frozen p => FrozenPeriod.is_covered p | Tranche p => TranchePeriod.is_covered p end.

Definition step (self : t) : TimeDelta :=
  match self with Frozen _ => hours_delta 1 | Tranche _ => TRANCHE end.

Definition ending_at (self : t) (as_of : DateTime) : t :=
  match self with
  | Frozen p =>
      Frozen (FrozenPeriod.mk (as_of - (FrozenPeriod.as_of p - FrozenPeriod.from p)) as_of
        (FrozenPeriod.covered_since p))
  | Tranche p =>
      Tranche (TranchePeriod.mk (as_of - (TranchePeriod.as_of p - TranchePeriod.from p)) as_of
        (TranchePeriod.covered_since p))
  end.

Definition measured_from `{DurationTrunc} (self : t) (since : option DateTime) : t :=
  match self with
  | Frozen p => Frozen (measured_from p (first_whole_hour <$> since))
  | Tranche p =>
      Tranche (TranchePeriod.mk (TranchePeriod.from p) (TranchePeriod.as_of p)
        (measured_since (TranchePeriod.as_of p) (TranchePeriod.covered_since p) since))
  end.
End ReadPeriod.

#[global] Instance read_bounds : PeriodBounds ReadPeriod.t := {
  bounds_from := ReadPeriod.from;
  bounds_as_of := ReadPeriod.as_of;
  bounds_covered_since := ReadPeriod.covered_since;
  late_after p := match p with ReadPeriod.Frozen p => late_after p | ReadPeriod.Tranche p => late_after p end;
  opening_since := ReadPeriod.covered_since;
}.

Module DrawnPeriod.
Record t : Type := mk {
  period : ReadPeriod.t;
  facts_since : DateTime;
}.
End DrawnPeriod.

#[global] Instance drawn_bounds : PeriodBounds DrawnPeriod.t := {
  bounds_from p := bounds_from (DrawnPeriod.period p);
  bounds_as_of p := bounds_as_of (DrawnPeriod.period p);
  bounds_covered_since p := bounds_covered_since (DrawnPeriod.period p);
  late_after p := late_after (DrawnPeriod.period p);
  opening_since := DrawnPeriod.facts_since;
}.

Section Build.
Context {N O : Type} `{Postgres} `{!Snapshots N O}.

Definition build_frozen_period (window : Window) (offset : option Window) :
    Query RepositoryError (option FrozenPeriod.t) :=
  let> hours := frozen_hours (N := N) (O := O) in
  query_ret ((fun hours => FrozenPeriod.of_ hours window offset) <$> hours).

Definition build_read_period (window : Window) (offset : option Window) :
    Query RepositoryError (option ReadPeriod.t) :=
  match window with
  | Hour =>
    let> tranches := written_tranches (N := N) (O := O) in
    query_ret ((fun tranches => ReadPeriod.Tranche (TranchePeriod.hour_through tranches offset)) <$> tranches)
  | _ =>
    let> period := build_frozen_period window offset in
    query_ret (ReadPeriod.Frozen <$> period)
  end.

Definition build_last_hour : Query RepositoryError (option TranchePeriod.t) :=
  let> tranches := written_tranches (N := N) (O := O) in
  query_ret ((fun tranches => TranchePeriod.hour_through tranches None) <$> tranches).

(** *** [windows_service.rs]

    The two reads go together; the tranches are asked first. *)
Definition list_windows : Query RepositoryError (list (Window * option ReadPeriod.t)) :=
  let> tranches := written_tranches (N := N) (O := O) in
  let> hours := frozen_hours (N := N) (O := O) in
  let hour := (fun tranches => ReadPeriod.Tranche (TranchePeriod.hour_through tranches None)) <$> tranches in
  let frozen := map (fun window =>
    (window, (fun hours => ReadPeriod.Frozen (FrozenPeriod.of_ hours window None)) <$> hours)) Window_ALL in
  query_ret ((Hour, hour) :: frozen).
End Build.

(** *** The steps of a series *)

Inductive BucketPeriod : Type :=
| BucketHour
| BucketSixHours
| BucketDay.

Definition width (self : BucketPeriod) : TimeDelta :=
  match self with BucketHour => hours_delta 1 | BucketSixHours => hours_delta 6 | BucketDay => hours_delta 24 end.

Module SeriesInterval.
Inductive t : Type :=
| FiveMinutes
| Hour
| SixHours
| Day.

Definition of_ (window : Window) : t :=
  match window with
  | Analytic.Hour => FiveMinutes
  | Analytic.Day => Hour
  | Week => SixHours
  | Month => Day
  end.

Definition fits (self : t) (window : Window) : bool :=
  match self with
  | FiveMinutes => bool_decide (window = Analytic.Hour)
  | SixHours => bool_decide (window = Week)
  | Hour | Day => negb (bool_decide (window = Analytic.Hour))
  end.

Definition frozen_bucket (self : t) : option BucketPeriod :=
  match self with
  | FiveMinutes => None
  | Hour => Some BucketHour
  | SixHours => Some BucketSixHours
  | Day => Some BucketDay
  end.
End SeriesInterval.

(** ** [window_param.rs]

    A parameter of the window is the [Window] it names, [24h] without one. *)

Module SeriesParams.
Record t : Type := mk {
  window : Window;
  interval : option SeriesInterval.t;
}.

Definition parse (self : t) : result (Window * SeriesInterval.t) ApiError :=
  let window := window self in
  let interval := default (SeriesInterval.of_ window) (interval self) in
  if SeriesInterval.fits interval window then Ok (window, interval)
  else Err (BadRequest
    ("`interval=5m` cuts `window=1h` only, `interval=6h` cuts `window=7d` only, and " ++
     "`window=1h` is cut at `5m` only")).
End SeriesParams.

(** ** [response/window.rs] *)

Module WindowPeriodResponse.
Record t : Type := mk {
  from : option DateTime;
  as_of : option DateTime;
  covered_since : option DateTime;
  open : bool;
  opens_at : option DateTime;
  late : bool;
}.

(** [now] is [Utc::now()]. *)
Definition moved {P} `{PeriodBounds P} (window : Window) (offset : option Window) (period : option P)
    (now : DateTime) : t :=
  let availability := Availability.of_ window offset period now in
  mk (bounds_from <$> period) (bounds_as_of <$> period) (bounds_covered_since <$> period)
    (Availability.open availability) (Availability.opens_at availability) (Availability.late availability).

Definition of_ {P} `{PeriodBounds P} (window : Window) (period : option P) (now : DateTime) : t :=
  moved window None period now.
End WindowPeriodResponse.

Inductive CoverageUnitResponse : Type :=
| PoolHours
| PoolTranches.

Definition CoverageUnit_from (window : Window) : CoverageUnitResponse :=
  match window with Hour => PoolTranches | Day | Week | Month => PoolHours end.

(** [GET /api/windows]. *)
Definition get_windows {N O} `{Postgres} `{!Snapshots N O} (now : DateTime) :
    Query ApiError (list (Window * WindowPeriodResponse.t)) :=
  let> windows := query_map_err ApiError_from (list_windows (N := N) (O := O)) in
  query_ret (map (fun wp => (fst wp, WindowPeriodResponse.of_ (fst wp) (snd wp) now)) windows).
