(* ===== verification/SwapMeasures.v ===== *)
(** * The swaps measured

    The totals and the series of the swaps over a period, for every protocol,
    one protocol, or one pool: [src/crates/core/src/domain/swap_activity/],
    [src/crates/persistence/src/repositories/swap_activity.rs] and its rows,
    and [src/crates/api/src/]: application/services/swap_activity_service.rs,
    http/dto/response/window.rs and http/handlers/swaps.rs. A row of a response
    carries the fields of the row it is made from, its JSON left out. The
    facts' tables hold one protocol's rows ([Analytic]); a pool's address is
    compared as the key it is the text of. Counts are not cut to a [BIGINT]. *)

From stdpp Require Import sorting.
From S2P Require Import Prelude Errors External Domain Store Rows Analytic Cursor Keyset EventApi Period.

(** ** [swap_activity/model.rs] *)

Module SwapActivity.
Record t (D : Type) : Type := mk {
  swaps : Z;
  volume_usd : option D;
  fees_usd : option D;
  lp_fees_usd : option D;
  protocol_fees_usd : option D;
  referral_fees_usd : option D;
  pool_hours : Z;
  pool_hours_valued : Z;
}.
Arguments mk {D}.
Arguments swaps {D}.
Arguments volume_usd {D}.
Arguments fees_usd {D}.
Arguments lp_fees_usd {D}.
Arguments protocol_fees_usd {D}.
Arguments referral_fees_usd {D}.
Arguments pool_hours {D}.
Arguments pool_hours_valued {D}.
End SwapActivity.

Module ProtocolSwapActivity.
Record t (D : Type) : Type := mk {
  protocol : Protocol;
  activity : SwapActivity.t D;
  pools : option Z;
}.
Arguments mk {D}.
Arguments protocol {D}.
Arguments activity {D}.
Arguments pools {D}.
End ProtocolSwapActivity.

(** [core/src/domain/analytic/window.rs]. *)
Module ProtocolBucket.
Record t (T : Type) : Type := mk {
  protocol : Protocol;
  from : DateTime;
  value : T;
}.
Arguments mk {T}.
Arguments protocol {T}.
Arguments from {T}.
Arguments value {T}.
End ProtocolBucket.

(** [SwapBucket] and [PoolSwapBucket]. *)
Module SwapBucket.
Record t (D : Type) : Type := mk {
  from : DateTime;
  activity : SwapActivity.t D;
}.
Arguments mk {D}.
Arguments from {D}.
Arguments activity {D}.
End SwapBucket.

Module SwapActivityTotal.
Record t (D : Type) : Type := mk {
  activity : SwapActivity.t D;
  pools : option Z;
}.
Arguments mk {D}.
Arguments activity {D}.
Arguments pools {D}.
End SwapActivityTotal.

Definition sum_Z (l : list Z) : Z := foldr Z.add 0 l.

(** [Option]'s [Sum]: [None] as soon as one is. *)
Definition sum_options (l : list (option Z)) : option Z :=
  foldr (fun x sum => match x, sum with Some x, Some sum => Some (x + sum) | _, _ => None end) (Some 0) l.

Section Sums.
Context {D : Type} `{!DecimalOps D}.

(** [checked_add]: [None] on overflow. *)
Definition checked_add (a b : D) : option D :=
  match dec_add a b with Done c => Some c | Panic => None end.

(** [try_fold] of [checked_add]. *)
Definition try_sum (zero : D) (l : list D) : option D :=
  foldl (fun sum x => opt_bind sum (fun sum => checked_add sum x)) (Some zero) l.

Definition sum_known (terms : list (option D)) : option D :=
  foldl (fun sum term => opt_bind sum (fun sum => opt_bind term (checked_add sum))) (Some dec_zero) terms.

(** Over the values that are known; [None] if none is, or on overflow. *)
Definition sum_of_known (values : list (option D)) : option D :=
  match omap id values with
  | [] => None
  | first :: known => try_sum first known
  end.

Definition activities_sum (usd : list (option D) -> option D) (values : list (SwapActivity.t D)) : SwapActivity.t D :=
  SwapActivity.mk (sum_Z (map SwapActivity.swaps values))
    (usd (map SwapActivity.volume_usd values)) (usd (map SwapActivity.fees_usd values))
    (usd (map SwapActivity.lp_fees_usd values)) (usd (map SwapActivity.protocol_fees_usd values))
    (usd (map SwapActivity.referral_fees_usd values))
    (sum_Z (map SwapActivity.pool_hours values)) (sum_Z (map SwapActivity.pool_hours_valued values)).

(** The entries of a [BTreeMap] of lists, by key. *)
Definition by_key {A B} (key : A -> Z) (value : A -> B) (rows : list A) : list (Z * list B) :=
  map (fun k => (k, map value (List.filter (fun row => key row =? k) rows)))
    (order_by id Z.ltb (remove_dups (map key rows))).

Definition bucket_totals (rows : list (ProtocolBucket.t (SwapActivity.t D))) : list (SwapBucket.t D) :=
  map (fun '(from, values) => SwapBucket.mk from (activities_sum sum_of_known values))
    (by_key ProtocolBucket.from ProtocolBucket.value rows).

Definition total (rows : list (ProtocolSwapActivity.t D)) : option (SwapActivityTotal.t D) :=
  match rows with
  | [] => None
  | _ => Some (SwapActivityTotal.mk (activities_sum sum_known (map ProtocolSwapActivity.activity rows))
           (sum_options (map ProtocolSwapActivity.pools rows)))
  end.
End Sums.

(** ** [swap_activity/rows.rs] *)

Module SwapActivityRow.
Record t (N : Type) : Type := mk {
  swaps : Z;
  volume_usd : option N;
  fees_usd : option N;
  lp_fees_usd : option N;
  protocol_fees_usd : option N;
  referral_fees_usd : option N;
  pool_hours : Z;
  pool_hours_valued : Z;
}.
Arguments mk {N}.
Arguments swaps {N}.
Arguments volume_usd {N}.
Arguments fees_usd {N}.
Arguments lp_fees_usd {N}.
Arguments protocol_fees_usd {N}.
Arguments referral_fees_usd {N}.
Arguments pool_hours {N}.
Arguments pool_hours_valued {N}.
End SwapActivityRow.

Module ProtocolSwapActivityRow.
Record t (N : Type) : Type := mk {
  protocol : string;
  activity : SwapActivityRow.t N;
  pools : option Z;
}.
Arguments mk {N}.
Arguments protocol {N}.
Arguments activity {N}.
Arguments pools {N}.
End ProtocolSwapActivityRow.

Module ProtocolSwapBucketRow.
Record t (N : Type) : Type := mk {
  protocol : string;
  bucket_from : DateTime;
  activity : SwapActivityRow.t N;
}.
Arguments mk {N}.
Arguments protocol {N}.
Arguments bucket_from {N}.
Arguments activity {N}.
End ProtocolSwapBucketRow.

Module PoolSwapBucketRow.
Record t (N : Type) : Type := mk {
  bucket_from : DateTime;
  activity : SwapActivityRow.t N;
}.
Arguments mk {N}.
Arguments bucket_from {N}.
Arguments activity {N}.
End PoolSwapBucketRow.

Section TryFrom.
Context {N D : Type} `{!BigDecimal N} `{!DecimalFromStr D}.

Definition convert_usd (value : option N) (field : string) : RepositoryResult (option D) :=
  convert_optional value field Parser.convert_bigdecimal_to_decimal.

Definition SwapActivity_try_from (row : SwapActivityRow.t N) : RepositoryResult (SwapActivity.t D) :=
  let? volume_usd := convert_usd (SwapActivityRow.volume_usd row) "volume_usd" in
  let? fees_usd := convert_usd (SwapActivityRow.fees_usd row) "fees_usd" in
  let? lp_fees_usd := convert_usd (SwapActivityRow.lp_fees_usd row) "lp_fees_usd" in
  let? protocol_fees_usd := convert_usd (SwapActivityRow.protocol_fees_usd row) "protocol_fees_usd" in
  let? referral_fees_usd := convert_usd (SwapActivityRow.referral_fees_usd row) "referral_fees_usd" in
  Ok (SwapActivity.mk (SwapActivityRow.swaps row) volume_usd fees_usd lp_fees_usd protocol_fees_usd
    referral_fees_usd (SwapActivityRow.pool_hours row) (SwapActivityRow.pool_hours_valued row)).

Definition ProtocolSwapActivity_try_from (row : ProtocolSwapActivityRow.t N) :
    RepositoryResult (ProtocolSwapActivity.t D) :=
  let? protocol := Parser.parse_protocol (ProtocolSwapActivityRow.protocol row) in
  let? activity := SwapActivity_try_from (ProtocolSwapActivityRow.activity row) in
  Ok (ProtocolSwapActivity.mk protocol activity (ProtocolSwapActivityRow.pools row)).

Definition ProtocolBucket_try_from (row : ProtocolSwapBucketRow.t N) :
    RepositoryResult (ProtocolBucket.t (SwapActivity.t D)) :=
  let? protocol := Parser.parse_protocol (ProtocolSwapBucketRow.protocol row) in
  let? activity := SwapActivity_try_from (ProtocolSwapBucketRow.activity row) in
  Ok (ProtocolBucket.mk protocol (ProtocolSwapBucketRow.bucket_from row) activity).

Definition PoolSwapBucket_try_from (row : PoolSwapBucketRow.t N) : RepositoryResult (SwapBucket.t D) :=
  let? activity := SwapActivity_try_from (PoolSwapBucketRow.activity row) in
  Ok (SwapBucket.mk (PoolSwapBucketRow.bucket_from row) activity).
End TryFrom.

(** ** [swap_activity.rs] *)

Definition MEASURED : list Protocol := [MeteoraDammV2].
Definition measured : list string := map Protocol_as_str MEASURED.

(** The protocol column of every row the cycle writes. *)
Definition facts_protocol : string := Protocol_as_str MeteoraDammV2.

(** [$n IS NULL OR protocol = $n], the bind of [bind_protocol_filter]. *)
Definition of_bind (protocol : option Protocol) (column : string) : bool :=
  match protocol with Some p => bool_decide (column = Protocol_as_str p) | None => true end.

(** [bucket >= from AND bucket < as_of]. *)
Definition between (from as_of bucket : DateTime) : bool := (from <=? bucket) && (bucket <? as_of).

(** [time_bucket(width, bucket, origin => as_of)]. *)
Definition time_bucket (width as_of bucket : DateTime) : DateTime := as_of + (bucket - as_of) / width * width.

(** [time_bucket('5 minutes', at)]. *)
Definition tranche_bucket (at_ : DateTime) : DateTime := at_ - at_ mod TRANCHE.

(** [GROUP BY], the groups in the order of their keys. *)
Definition group_by {A K} `{EqDecision K} (before : K -> K -> bool) (key : A -> K) (rows : list A) :
    list (K * list A) :=
  map (fun k => (k, List.filter (fun row => bool_decide (key row = k)) rows))
    (order_by id before (remove_dups (map key rows))).

(** [MAX], which skips the nulls. *)
Definition sql_max (l : list (option Z)) : option Z := foldr option_max None l.

(** The tables behind the facts: the pools that swapped in each period. *)
Class ProtocolPeriods (O : Type) : Type := {
  protocol_periods : O -> gmap (string * string * DateTime) Z;  (** protocol, period, bucket: active_pools *)
}.

(** A row of analytic_protocol_hourly. *)
Module HourRow.
Record t (N : Type) : Type := mk {
  protocol : string;
  bucket : DateTime;
  facts : ProtocolFacts.t N;
}.
Arguments mk {N}.
Arguments protocol {N}.
Arguments bucket {N}.
Arguments facts {N}.
End HourRow.

Section Sql.
Context {N O : Type} `{!Numeric N} `{!ProtocolPeriods O} `{Collation}.
Notation Tables := (Tables.t N O).
Notation Row := (SwapActivityRow.t N).

Definition protocol_hourly (t : Tables) : list (HourRow.t N) :=
  map (fun kv => HourRow.mk facts_protocol (fst kv) (snd kv)) (map_to_list (Tables.analytic_protocol_hourly t)).

(** The columns of an hour. *)
Definition hour_row (h : HourRow.t N) : Row :=
  let f := HourRow.facts h in
  SwapActivityRow.mk (ProtocolFacts.swap_count f) (ProtocolFacts.volume_usd f) (ProtocolFacts.fees_usd f)
    (ProtocolFacts.lp_fees_usd f) (ProtocolFacts.protocol_fees_usd f) (ProtocolFacts.referral_fees_usd f)
    (ProtocolFacts.active_pools f) (ProtocolFacts.active_pools_valued f).

(** [SUM] of each column. *)
Definition sum_rows (rows : list Row) : Row :=
  SwapActivityRow.mk (sum_Z (map SwapActivityRow.swaps rows))
    (sql_sum (map SwapActivityRow.volume_usd rows)) (sql_sum (map SwapActivityRow.fees_usd rows))
    (sql_sum (map SwapActivityRow.lp_fees_usd rows)) (sql_sum (map SwapActivityRow.protocol_fees_usd rows))
    (sql_sum (map SwapActivityRow.referral_fees_usd rows))
    (sum_Z (map SwapActivityRow.pool_hours rows)) (sum_Z (map SwapActivityRow.pool_hours_valued rows)).

Definition select_protocol_totals (period : FrozenPeriod.t) (window : Window) (protocol : option Protocol)
    (t : Tables) : list (ProtocolSwapActivityRow.t N) :=
  map (fun '(p, hours) =>
      ProtocolSwapActivityRow.mk p (sum_rows (map hour_row hours))
        (sql_max (map (fun h => protocol_periods (Tables.others t) !!
          (HourRow.protocol h, Window_as_str window, FrozenPeriod.last_hour period)) hours)))
    (group_by text_ltb HourRow.protocol (List.filter (fun h =>
        between (FrozenPeriod.from period) (FrozenPeriod.as_of period) (HourRow.bucket h) &&
        of_bind protocol (HourRow.protocol h)) (protocol_hourly t))).

(** [ORDER BY bucket, protocol]. *)
Definition bucket_ltb (a b : DateTime * string) : bool :=
  (fst a <? fst b) || ((fst a =? fst b) && text_ltb (snd a) (snd b)).

Definition select_protocol_hourly (period : FrozenPeriod.t) (protocol : option Protocol) (t : Tables) :
    list (ProtocolSwapBucketRow.t N) :=
  map (fun h => ProtocolSwapBucketRow.mk (HourRow.protocol h) (HourRow.bucket h) (hour_row h))
    (order_by (fun h => (HourRow.bucket h, HourRow.protocol h)) bucket_ltb (List.filter (fun h =>
        between (Z.max (FrozenPeriod.from period) (FrozenPeriod.covered_since period))
          (FrozenPeriod.as_of period) (HourRow.bucket h) &&
        of_bind protocol (HourRow.protocol h)) (protocol_hourly t))).

Definition select_protocol_buckets (period : FrozenPeriod.t) (width : TimeDelta) (protocol : option Protocol)
    (t : Tables) : list (ProtocolSwapBucketRow.t N) :=
  let bucket_from h := time_bucket width (FrozenPeriod.as_of period) (HourRow.bucket h) in
  map (fun '((from, p), hours) => ProtocolSwapBucketRow.mk p from (sum_rows (map hour_row hours)))
    (group_by bucket_ltb (fun h => (bucket_from h, HourRow.protocol h)) (List.filter (fun h =>
        FrozenPeriod.covered_since period <=? bucket_from h) (List.filter (fun h =>
        between (FrozenPeriod.from period) (FrozenPeriod.as_of period) (HourRow.bucket h) &&
        of_bind protocol (HourRow.protocol h)) (protocol_hourly t)))).

(** *** Facts of pools *)

(** The columns summed over facts of pools: 0 without any. *)
Definition facts_row (facts : list (PoolFacts.t N)) : Row :=
  let sum column := match facts with [] => Some num_zero | _ => sql_sum (map column facts) end in
  SwapActivityRow.mk (sum_Z (map PoolFacts.swap_count facts))
    (sum (fun f => add_opt (PoolFacts.volume_in_a_usd f) (PoolFacts.volume_in_b_usd f)))
    (sum PoolFacts.fees_usd) (sum PoolFacts.lp_fees_usd) (sum PoolFacts.protocol_fees_usd)
    (sum PoolFacts.referral_fees_usd)
    (Z.of_nat (length facts)) (Z.of_nat (length (List.filter PoolFacts.valued facts))).

(** The columns of the facts of one bucket, or of none. *)
Definition fact_row (f : option (PoolFacts.t N)) : Row :=
  match f with
  | Some f =>
      SwapActivityRow.mk (PoolFacts.swap_count f)
        (add_opt (PoolFacts.volume_in_a_usd f) (PoolFacts.volume_in_b_usd f))
        (PoolFacts.fees_usd f) (PoolFacts.lp_fees_usd f) (PoolFacts.protocol_fees_usd f)
        (PoolFacts.referral_fees_usd f) 1 (if PoolFacts.valued f then 1 else 0)
  | None =>
      SwapActivityRow.mk 0 (Some num_zero) (Some num_zero) (Some num_zero) (Some num_zero) (Some num_zero) 0 0
  end.

(** The tranches of analytic_pool_5min of a protocol, in a period. *)
Definition tranches_of (protocol : string) (from as_of : DateTime) (t : Tables) :
    list ((Pubkey * DateTime) * PoolFacts.t N) :=
  List.filter (fun row => bool_decide (facts_protocol = protocol) && between from as_of (snd (fst row)))
    (tranche_rows t).

Definition select_protocol_totals_in_tranches (period : TranchePeriod.t) (protocol : option Protocol)
    (t : Tables) : list (ProtocolSwapActivityRow.t N) :=
  map (fun p =>
      let rows := tranches_of p (TranchePeriod.from period) (TranchePeriod.as_of period) t in
      ProtocolSwapActivityRow.mk p (facts_row (map snd rows))
        (Some (Z.of_nat (length (remove_dups (map (fun row => fst (fst row)) rows))))))
    (order_by id text_ltb (List.filter (of_bind protocol) measured)).

Definition select_protocol_tranches (period : TranchePeriod.t) (protocol : option Protocol) (t : Tables) :
    list (ProtocolSwapBucketRow.t N) :=
  flat_map (fun bucket => map (fun p =>
      let rows := List.filter (fun row => snd (fst row) =? bucket)
        (tranches_of p (TranchePeriod.from period) (TranchePeriod.as_of period) t) in
      ProtocolSwapBucketRow.mk p bucket (facts_row (map snd rows)))
    (order_by id text_ltb (List.filter (of_bind protocol) measured)))
    (series (Z.max (TranchePeriod.from period) (TranchePeriod.covered_since period))
      (TranchePeriod.as_of period - minutes_delta 5) (minutes_delta 5)).
End Sql.

(** *** One pool *)

Section Pool.
Context {N O : Type} `{!Numeric N}.
Notation Tables := (Tables.t N O).

(** The rows of a pool in a period, of analytic_pool_hourly or of analytic_pool_5min. *)
Definition facts_in (from as_of : DateTime) (pool : Pubkey) (m : gmap (Pubkey * DateTime) (PoolFacts.t N)) :
    list (DateTime * PoolFacts.t N) :=
  map (fun row => (snd (fst row), snd row))
    (List.filter (fun row => bool_decide (fst (fst row) = pool) && between from as_of (snd (fst row)))
      (map_to_list (K := Pubkey * DateTime) m)).

(** [LEAST(trunc(first_seen_at), (SELECT MIN(bucket) FROM facts))] of a pool
    of a protocol measured; [LEAST] skips the nulls. *)
Definition seen_since (trunc : DateTime -> DateTime) (facts : list (DateTime * PoolFacts.t N))
    (pools : gmap Pubkey SeenPool.t) (pool : Pubkey) : option DateTime :=
  match pools !! pool with
  | Some p =>
      if bool_decide (SeenPool.protocol p ∈ measured) then
        let since := trunc (SeenPool.first_seen_at p) in
        Some (match best_bucket Z.min (fun _ => true) facts with Some b => Z.min since b | None => since end)
      else None
  | None => None
  end.

(** The buckets of a period since the pool was seen, in order: the join of
    [seen] with analytic_hours, or analytic_tranches. *)
Definition seen_buckets {V} (from as_of : DateTime) (since : option DateTime) (m : gmap DateTime V) :
    list DateTime :=
  match since with
  | Some since =>
      order_by id Z.ltb (List.filter (fun b => (since <=? b) && between from as_of b)
        (map fst (map_to_list m)))
  | None => []
  end.

(** [LEFT JOIN facts f ON f.bucket = h.bucket]: at most one row, the pool and
    the bucket being its key. *)
Definition fact_at (facts : list (DateTime * PoolFacts.t N)) (bucket : DateTime) : option (PoolFacts.t N) :=
  snd <$> List.find (fun f => fst f =? bucket) facts.

(** [HAVING COUNT( * ) > 0]. *)
Definition pool_totals (facts : list (DateTime * PoolFacts.t N)) (buckets : list DateTime) :
    option (SwapActivityRow.t N) :=
  match buckets with [] => None | _ => Some (facts_row (omap (fact_at facts) buckets)) end.

Definition pool_buckets (facts : list (DateTime * PoolFacts.t N)) (buckets : list DateTime) :
    list (PoolSwapBucketRow.t N) :=
  map (fun b => PoolSwapBucketRow.mk b (fact_row (fact_at facts b))) buckets.

Definition select_pool_totals (period : FrozenPeriod.t) (pool : Pubkey) (t : Tables)
    (pools : gmap Pubkey SeenPool.t) : option (SwapActivityRow.t N) :=
  let from := FrozenPeriod.from period in
  let as_of := FrozenPeriod.as_of period in
  let facts := facts_in from as_of pool (Tables.analytic_pool_hourly t) in
  pool_totals facts
    (seen_buckets from as_of (seen_since hour_bucket facts pools pool) (Tables.analytic_hours t)).

Definition select_pool_hourly (period : FrozenPeriod.t) (pool : Pubkey) (t : Tables)
    (pools : gmap Pubkey SeenPool.t) : list (PoolSwapBucketRow.t N) :=
  let from := FrozenPeriod.from period in
  let as_of := FrozenPeriod.as_of period in
  let facts := facts_in from as_of pool (Tables.analytic_pool_hourly t) in
  pool_buckets facts
    (seen_buckets (Z.max from (FrozenPeriod.covered_since period)) as_of
      (seen_since hour_bucket facts pools pool) (Tables.analytic_hours t)).

Definition select_pool_buckets (period : FrozenPeriod.t) (width : TimeDelta) (pool : Pubkey) (t : Tables)
    (pools : gmap Pubkey SeenPool.t) : list (PoolSwapBucketRow.t N) :=
  let from := FrozenPeriod.from period in
  let as_of := FrozenPeriod.as_of period in
  let facts := facts_in from as_of pool (Tables.analytic_pool_hourly t) in
  let bucket_from := time_bucket width as_of in
  map (fun '(from, hours) => PoolSwapBucketRow.mk from (facts_row (omap (fact_at facts) hours)))
    (group_by Z.ltb bucket_from
      (List.filter (fun h => FrozenPeriod.covered_since period <=? bucket_from h)
        (seen_buckets from as_of (seen_since hour_bucket facts pools pool) (Tables.analytic_hours t)))).

Definition select_pool_totals_in_tranches (period : TranchePeriod.t) (pool : Pubkey) (t : Tables)
    (pools : gmap Pubkey SeenPool.t) : option (SwapActivityRow.t N) :=
  let from := TranchePeriod.from period in
  let as_of := TranchePeriod.as_of period in
  let facts := facts_in from as_of pool (Tables.analytic_pool_5min t) in
  pool_totals facts
    (seen_buckets from as_of (seen_since tranche_bucket facts pools pool) (Tables.analytic_tranches t)).

Definition select_pool_tranches (period : TranchePeriod.t) (pool : Pubkey) (t : Tables)
    (pools : gmap Pubkey SeenPool.t) : list (PoolSwapBucketRow.t N) :=
  let from := TranchePeriod.from period in
  let as_of := TranchePeriod.as_of period in
  let facts := facts_in from as_of pool (Tables.analytic_pool_5min t) in
  pool_buckets facts
    (seen_buckets (Z.max from (TranchePeriod.covered_since period)) as_of
      (seen_since tranche_bucket facts pools pool) (Tables.analytic_tranches t)).
End Pool.

(** *** The lookups *)

Section Lookup.
Context {N D O : Type} `{!Numeric N} `{!ProtocolPeriods O} `{Collation} `{!BigDecimal N} `{!DecimalFromStr D}.
Context `{Postgres} `{!Snapshots N O}.
Notation Lookup A := (Query RepositoryError A).

Definition find_protocol_totals (period : FrozenPeriod.t) (window : Window) (protocol : option Protocol) :
    Lookup (list (ProtocolSwapActivity.t D)) :=
  let> rows := read (N := N) (O := O) (fun t _ => select_protocol_totals period window protocol t) in
  query_lift (collect ProtocolSwapActivity_try_from rows).

Definition list_protocol_hourly (period : FrozenPeriod.t) (protocol : option Protocol) :
    Lookup (list (ProtocolBucket.t (SwapActivity.t D))) :=
  let> rows := read (N := N) (O := O) (fun t _ => select_protocol_hourly period protocol t) in
  query_lift (collect ProtocolBucket_try_from rows).

Definition list_protocol_buckets (period : FrozenPeriod.t) (width : TimeDelta) (protocol : option Protocol) :
    Lookup (list (ProtocolBucket.t (SwapActivity.t D))) :=
  let> rows := read (N := N) (O := O) (fun t _ => select_protocol_buckets period width protocol t) in
  query_lift (collect ProtocolBucket_try_from rows).

Definition find_protocol_totals_in_tranches (period : TranchePeriod.t) (protocol : option Protocol) :
    Lookup (list (ProtocolSwapActivity.t D)) :=
  let> rows := read (N := N) (O := O) (fun t _ => select_protocol_totals_in_tranches period protocol t) in
  query_lift (collect ProtocolSwapActivity_try_from rows).

Definition list_protocol_tranches (period : TranchePeriod.t) (protocol : option Protocol) :
    Lookup (list (ProtocolBucket.t (SwapActivity.t D))) :=
  let> rows := read (N := N) (O := O) (fun t _ => select_protocol_tranches period protocol t) in
  query_lift (collect ProtocolBucket_try_from rows).

(** [row.map(try_from).transpose()]. *)
Definition transpose {A B E} (f : A -> result B E) (row : option A) : result (option B) E :=
  match row with Some row => result_map Some (f row) | None => Ok None end.

Definition find_pool_totals (period : FrozenPeriod.t) (pool : Pubkey) : Lookup (option (SwapActivity.t D)) :=
  let> row := read (N := N) (O := O) (select_pool_totals period pool) in
  query_lift (transpose SwapActivity_try_from row).

Definition list_pool_hourly (period : FrozenPeriod.t) (pool : Pubkey) : Lookup (list (SwapBucket.t D)) :=
  let> rows := read (N := N) (O := O) (select_pool_hourly period pool) in
  query_lift (collect PoolSwapBucket_try_from rows).

Definition list_pool_buckets (period : FrozenPeriod.t) (width : TimeDelta) (pool : Pubkey) :
    Lookup (list (SwapBucket.t D)) :=
  let> rows := read (N := N) (O := O) (select_pool_buckets period width pool) in
  query_lift (collect PoolSwapBucket_try_from rows).

Definition find_pool_totals_in_tranches (period : TranchePeriod.t) (pool : Pubkey) :
    Lookup (option (SwapActivity.t D)) :=
  let> row := read (N := N) (O := O) (select_pool_totals_in_tranches period pool) in
  query_lift (transpose SwapActivity_try_from row).

Definition list_pool_tranches (period : TranchePeriod.t) (pool : Pubkey) : Lookup (list (SwapBucket.t D)) :=
  let> rows := read (N := N) (O := O) (select_pool_tranches period pool) in
  query_lift (collect PoolSwapBucket_try_from rows).
End Lookup.

(** ** [swap_activity_service.rs] *)

Module PreviousVolume.
Record t (D : Type) : Type := mk {
  covered : bool;
  volume_usd : option D;
}.
Arguments mk {D}.
Arguments covered {D}.
Arguments volume_usd {D}.
End PreviousVolume.

Module SwapTotals.
Record t (D : Type) : Type := mk {
  measured : Measured.t (list (ProtocolSwapActivity.t D)) ReadPeriod.t;
  previous : option (PreviousVolume.t D);
}.
Arguments mk {D}.
Arguments measured {D}.
Arguments previous {D}.
End SwapTotals.

Section Service.
Context {N D O : Type} `{!Numeric N} `{!ProtocolPeriods O} `{Collation} `{!BigDecimal N} `{!DecimalFromStr D}.
Context `{!DecimalOps D} `{Postgres} `{!Snapshots N O}.

Definition read_totals (period : option ReadPeriod.t) (window : Window) (protocol : option Protocol) :
    Query RepositoryError (list (ProtocolSwapActivity.t D)) :=
  match period with
  | Some (ReadPeriod.Frozen p) =>
      if FrozenPeriod.is_covered p then find_protocol_totals (N := N) (O := O) p window protocol
      else query_ret []
  | Some (ReadPeriod.Tranche p) =>
      if TranchePeriod.is_covered p then find_protocol_totals_in_tranches (N := N) (O := O) p protocol
      else query_ret []
  | None => query_ret []
  end.

(** [try_join!]: the two reads go together; the first is asked first. *)
Definition swap_totals (window : Window) (offset : option Window) (protocol : option Protocol) :
    Query RepositoryError (SwapTotals.t D) :=
  let> period := build_read_period (N := N) (O := O) window offset in
  let before :=
    match offset with
    | Some _ => None
    | None => (fun period => ReadPeriod.ending_at period (ReadPeriod.from period)) <$> period
    end in
  let> items := read_totals period window protocol in
  let> before_items := read_totals before window protocol in
  query_ret (SwapTotals.mk (Measured.mk period items)
    ((fun before => PreviousVolume.mk (ReadPeriod.is_covered before)
        (opt_bind (total before_items) (fun total => SwapActivity.volume_usd (SwapActivityTotal.activity total))))
      <$> before)).

Definition list_swap_buckets (window : Window) (bucket : BucketPeriod) (protocol : option Protocol) :
    Query RepositoryError (Measured.t (list (ProtocolBucket.t (SwapActivity.t D))) FrozenPeriod.t) :=
  let> period := build_frozen_period (N := N) (O := O) window None in
  let> items :=
    match period, bucket with
    | Some period, BucketHour => list_protocol_hourly (N := N) (O := O) period protocol
    | Some period, bucket => list_protocol_buckets (N := N) (O := O) period (width bucket) protocol
    | None, _ => query_ret []
    end in
  query_ret (Measured.mk period items).

Definition list_swap_series (window : Window) (interval : SeriesInterval.t) (protocol : option Protocol) :
    Query RepositoryError (Measured.t (list (ProtocolBucket.t (SwapActivity.t D))) ReadPeriod.t) :=
  match SeriesInterval.frozen_bucket interval with
  | None =>
    let> period := build_last_hour (N := N) (O := O) in
    let> items :=
      match period with
      | Some p => list_protocol_tranches (N := N) (O := O) p protocol
      | None => query_ret []
      end in
    query_ret (Measured.mk (ReadPeriod.Tranche <$> period) items)
  | Some bucket =>
    let> measured := list_swap_buckets window bucket protocol in
    query_ret (Measured.mk (ReadPeriod.Frozen <$> Measured.period measured) (Measured.items measured))
  end.

Definition pool_swap_totals (window : Window) (pool : Pubkey) :
    Query RepositoryError (Measured.t (list (SwapActivity.t D)) ReadPeriod.t) :=
  let> period := build_read_period (N := N) (O := O) window None in
  let> items :=
    match period with
    | Some (ReadPeriod.Frozen p) =>
        if FrozenPeriod.is_covered p then find_pool_totals (N := N) (O := O) p pool else query_ret None
    | Some (ReadPeriod.Tranche p) =>
        if TranchePeriod.is_covered p then find_pool_totals_in_tranches (N := N) (O := O) p pool
        else query_ret None
    | None => query_ret None
    end in
  query_ret (Measured.mk period (option_list items)).

Definition list_pool_swap_series (window : Window) (interval : SeriesInterval.t) (pool : Pubkey) :
    Query RepositoryError (Measured.t (list (SwapBucket.t D)) ReadPeriod.t) :=
  let> period := build_read_period (N := N) (O := O) window None in
  let> items :=
    match period, SeriesInterval.frozen_bucket interval with
    | Some (ReadPeriod.Tranche p), None => list_pool_tranches (N := N) (O := O) p pool
    | Some (ReadPeriod.Frozen p), Some BucketHour => list_pool_hourly (N := N) (O := O) p pool
    | Some (ReadPeriod.Frozen p), Some bucket => list_pool_buckets (N := N) (O := O) p (width bucket) pool
    | _, _ => query_ret []
    end in
  query_ret (Measured.mk period items).
End Service.

(** ** The responses ([response/window.rs]) *)

Module ProtocolSwapTotalsResponse.
Record t (D : Type) : Type := mk {
  window : Window;
  coverage_unit : CoverageUnitResponse;
  period : WindowPeriodResponse.t;
  total : option (SwapActivityTotal.t D);
  previous : option (PreviousVolume.t D);
  items : list (ProtocolSwapActivity.t D);
}.
Arguments mk {D}.
Arguments window {D}.
Arguments coverage_unit {D}.
Arguments period {D}.
Arguments total {D}.
Arguments previous {D}.
Arguments items {D}.

Definition new {D} `{!DecimalOps D} (window : Window) (offset : option Window) (totals : SwapTotals.t D)
    (now : DateTime) : t D :=
  let measured := SwapTotals.measured totals in
  mk window (CoverageUnit_from window) (WindowPeriodResponse.moved window offset (Measured.period measured) now)
    (SwapMeasures.total (Measured.items measured)) (SwapTotals.previous totals) (Measured.items measured).
End ProtocolSwapTotalsResponse.

Module ProtocolSwapSeriesResponse.
Record t (D : Type) : Type := mk {
  window : Window;
  interval : SeriesInterval.t;
  coverage_unit : CoverageUnitResponse;
  period : WindowPeriodResponse.t;
  total : list (SwapBucket.t D);
  items : list (ProtocolBucket.t (SwapActivity.t D));
}.
Arguments mk {D}.
Arguments window {D}.
Arguments interval {D}.
Arguments coverage_unit {D}.
Arguments period {D}.
Arguments total {D}.
Arguments items {D}.

Definition new {D P} `{!DecimalOps D} `{PeriodBounds P} (window : Window) (interval : SeriesInterval.t)
    (measured : Measured.t (list (ProtocolBucket.t (SwapActivity.t D))) P) (now : DateTime) : t D :=
  mk window interval (CoverageUnit_from window) (WindowPeriodResponse.of_ window (Measured.period measured) now)
    (bucket_totals (Measured.items measured)) (Measured.items measured).
End ProtocolSwapSeriesResponse.

(** [SwapTotalsResponse], and [SwapSeriesResponse] with its step. *)
Module SwapTotalsResponse.
Record t (T : Type) : Type := mk {
  window : Window;
  coverage_unit : CoverageUnitResponse;
  period : WindowPeriodResponse.t;
  items : list T;
}.
Arguments mk {T}.
Arguments window {T}.
Arguments coverage_unit {T}.
Arguments period {T}.
Arguments items {T}.

Definition new {T P} `{PeriodBounds P} (window : Window) (offset : option Window)
    (measured : Measured.t (list T) P) (now : DateTime) : t T :=
  mk window (CoverageUnit_from window) (WindowPeriodResponse.moved window offset (Measured.period measured) now)
    (Measured.items measured).
End SwapTotalsResponse.

Module SwapSeriesResponse.
Record t (T : Type) : Type := mk {
  window : Window;
  interval : SeriesInterval.t;
  coverage_unit : CoverageUnitResponse;
  period : WindowPeriodResponse.t;
  items : list T;
}.
Arguments mk {T}.
Arguments window {T}.
Arguments interval {T}.
Arguments coverage_unit {T}.
Arguments period {T}.
Arguments items {T}.

Definition new {T P} `{PeriodBounds P} (window : Window) (interval : SeriesInterval.t)
    (measured : Measured.t (list T) P) (now : DateTime) : t T :=
  mk window interval (CoverageUnit_from window) (WindowPeriodResponse.of_ window (Measured.period measured) now)
    (Measured.items measured).
End SwapSeriesResponse.

(** ** [handlers/swaps.rs]

    [now] is the instant the response is made at. *)

Section Handlers.
Context {N D O : Type} `{!Numeric N} `{!ProtocolPeriods O} `{Collation} `{!BigDecimal N} `{!DecimalFromStr D}.
Context `{!DecimalOps D} `{Base58} `{Postgres} `{!Snapshots N O} `{PoolCatalog}.

Definition get_totals (window : Window) (offset : option Window) (protocol : option Protocol) (now : DateTime) :
    Query ApiError (ProtocolSwapTotalsResponse.t D) :=
  let> totals := query_map_err ApiError_from (swap_totals (N := N) (O := O) window offset protocol) in
  query_ret (ProtocolSwapTotalsResponse.new window offset totals now).

Definition get_swap_totals (window : Window) (offset : option Window) (now : DateTime) :
    Query ApiError (ProtocolSwapTotalsResponse.t D) := get_totals window offset None now.

Definition get_protocol_swap_totals (protocol : string) (window : Window) (offset : option Window)
    (now : DateTime) : Query ApiError (ProtocolSwapTotalsResponse.t D) :=
  let> protocol := query_lift (parse_protocol protocol) in
  get_totals window offset (Some protocol) now.

Definition list_series (params : SeriesParams.t) (protocol : option Protocol) (now : DateTime) :
    Query ApiError (ProtocolSwapSeriesResponse.t D) :=
  let> (window, interval) := query_lift (SeriesParams.parse params) in
  let> measured := query_map_err ApiError_from (list_swap_series (N := N) (O := O) window interval protocol) in
  query_ret (ProtocolSwapSeriesResponse.new window interval measured now).

Definition get_swaps_series (params : SeriesParams.t) (now : DateTime) :
    Query ApiError (ProtocolSwapSeriesResponse.t D) := list_series params None now.

Definition get_protocol_swaps_series (protocol : string) (params : SeriesParams.t) (now : DateTime) :
    Query ApiError (ProtocolSwapSeriesResponse.t D) :=
  let> protocol := query_lift (parse_protocol protocol) in
  list_series params (Some protocol) now.

Definition get_pool_swap_totals (pool : string) (window : Window) (now : DateTime) :
    Query ApiError (SwapTotalsResponse.t (SwapActivity.t D)) :=
  let> pool := known_pool pool in
  let> measured := query_map_err ApiError_from
    (pool_swap_totals (N := N) (O := O) window (Pool.pool_address pool)) in
  query_ret (SwapTotalsResponse.new window None measured now).

Definition get_pool_swaps_series (pool : string) (params : SeriesParams.t) (now : DateTime) :
    Query ApiError (SwapSeriesResponse.t (SwapBucket.t D)) :=
  let> (window, interval) := query_lift (SeriesParams.parse params) in
  let> pool := known_pool pool in
  let> measured := query_map_err ApiError_from
    (list_pool_swap_series (N := N) (O := O) window interval (Pool.pool_address pool)) in
  query_ret (SwapSeriesResponse.new window interval measured now).
End Handlers.
