(* ===== verification/SwapMeasuresFacts.v ===== *)
(** * The measures of the swaps agree

    A total is the sum of its series, whatever the step, for the protocols and
    for a pool; and what a read over a period may answer. *)

From stdpp Require Import sorting.
From S2P Require Import Prelude Errors External Domain Store Rows Analytic AnalyticFacts Cursor Keyset KeysetFacts.
From S2P Require Import AnalyticRuns EventApi Period SwapMeasures.

(** ** Groups *)

Lemma filter_app_perm {A} (f : A -> bool) (l : list A) :
  l ≡ₚ List.filter f l ++ List.filter (fun a => negb (f a)) l.
Proof.
  induction l as [|a l IH]; simpl; [done|]. destruct (f a); simpl; [by constructor|].
  rewrite IH at 1. apply Permutation_middle.
Qed.

Lemma filter_implied {A} (f g : A -> bool) (l : list A) :
  (forall a, f a = true -> g a = true) -> List.filter f (List.filter g l) = List.filter f l.
Proof.
  intros Hfg. induction l as [|a l IH]; simpl; [done|].
  destruct (g a) eqn:Hg; simpl; [by rewrite IH|]. destruct (f a) eqn:Hf; [|done]. by rewrite Hfg in Hg.
Qed.

(** The groups of keys, all there and once each, hold every row. *)
Lemma keyed_groups_perm {A K} `{EqDecision K} (key : A -> K) (ks : list K) (rows : list A) :
  NoDup ks -> (forall row, row ∈ rows -> key row ∈ ks) ->
  concat (map (fun k => List.filter (fun row => bool_decide (key row = k)) rows) ks) ≡ₚ rows.
Proof.
  revert rows. induction ks as [|k ks IH]; intros rows Hnd Hin; simpl.
  - destruct rows as [|row rows]; [done|]. by destruct (not_elem_of_nil (key row)); apply Hin; left.
  - apply NoDup_cons in Hnd as [Hk Hnd].
    set (others := List.filter (fun row => negb (bool_decide (key row = k))) rows).
    rewrite (filter_app_perm (fun row => bool_decide (key row = k)) rows) at 2. apply Permutation_app_head.
    fold others. etrans; [|apply (IH others Hnd)].
    + erewrite map_ext_in; [reflexivity|]. intros k' Hk'%list_elem_of_In. symmetry.
      apply filter_implied. intros row ->%bool_decide_eq_true. apply negb_true_iff, bool_decide_eq_false. by intros ->.
    + intros row Hr. apply list_elem_of_In, List.filter_In in Hr as [Hr Hne].
      apply negb_true_iff, bool_decide_eq_false in Hne. apply list_elem_of_In, Hin, elem_of_cons in Hr as [?|?]; done.
Qed.

Lemma group_by_perm {A K} `{EqDecision K} (before : K -> K -> bool) (key : A -> K) (rows : list A) :
  concat (map snd (group_by before key rows)) ≡ₚ rows.
Proof.
  unfold group_by. rewrite map_map. apply keyed_groups_perm.
  - rewrite order_by_perm. apply NoDup_remove_dups.
  - intros row Hr. rewrite order_by_perm. by apply elem_of_remove_dups, list_elem_of_fmap_2.
Qed.

Lemma group_by_filter {A K} `{EqDecision K} (before : K -> K -> bool) (key : A -> K) (f : K -> bool) (rows : list A) :
  concat (map snd (List.filter (fun g => f (fst g)) (group_by before key rows))) ≡ₚ
  List.filter (fun row => f (key row)) rows.
Proof.
  set (ks := order_by id before (remove_dups (map key rows))).
  assert (NoDup ks /\ forall row, row ∈ rows -> key row ∈ ks) as [Hnd Hin].
  { unfold ks. rewrite order_by_perm. split; [apply NoDup_remove_dups|]. intros row Hr. rewrite order_by_perm.
    by apply elem_of_remove_dups, list_elem_of_fmap_2. }
  assert (map snd (List.filter (fun g => f (fst g)) (group_by before key rows)) =
    map (fun k => List.filter (fun row => bool_decide (key row = k)) (List.filter (fun row => f (key row)) rows))
      (List.filter f ks)) as ->.
  { unfold group_by. fold ks. clear Hnd Hin. induction ks as [|k ks IH]; simpl; [done|].
    destruct (f k) eqn:Hf; simpl; [|done]. rewrite IH, filter_implied; [done|].
    by intros row ->%bool_decide_eq_true. }
  apply keyed_groups_perm.
  - by apply NoDup_ListNoDup, List.NoDup_filter, NoDup_ListNoDup.
  - intros row Hr. apply list_elem_of_In, List.filter_In in Hr as [Hr Hf]. apply list_elem_of_In, List.filter_In. split; [|done].
    by apply list_elem_of_In, Hin, list_elem_of_In.
Qed.

(** ** What a row counts

    The counts and the amounts of a row, an amount that is unknown counting 0. *)

Section Amounts.
Context {N : Type} `{NumericLaws N}.

Definition known (x : option N) : N := default num_zero x.

Definition Amounts : Type := (Z * Z * Z) * (N * N * N * N * N).

Definition amounts (r : SwapActivityRow.t N) : Amounts :=
  ((SwapActivityRow.swaps r, SwapActivityRow.pool_hours r, SwapActivityRow.pool_hours_valued r),
   (known (SwapActivityRow.volume_usd r), known (SwapActivityRow.fees_usd r), known (SwapActivityRow.lp_fees_usd r),
    known (SwapActivityRow.protocol_fees_usd r), known (SwapActivityRow.referral_fees_usd r))).

Definition amounts_zero : Amounts := ((0, 0, 0), (num_zero, num_zero, num_zero, num_zero, num_zero)).
Definition amounts_add (a b : Amounts) : Amounts :=
  let '((s1, h1, v1), (x1, f1, l1, p1, r1)) := a in
  let '((s2, h2, v2), (x2, f2, l2, p2, r2)) := b in
  ((s1 + s2, h1 + h2, v1 + v2), (num_add x1 x2, num_add f1 f2, num_add l1 l2, num_add p1 p2, num_add r1 r2)).
Definition amounts_sum (l : list Amounts) : Amounts := foldr amounts_add amounts_zero l.

(** The rows of a series sum to a total. *)
Definition adds_up (series : list (SwapActivityRow.t N)) (total : SwapActivityRow.t N) : Prop :=
  amounts_sum (map amounts series) = amounts total.

Lemma amounts_add_zero a : amounts_add amounts_zero a = a.
Proof. destruct a as [[[s h] v] [[[[x f] l] p] r]]. simpl. by rewrite !num_add_zero. Qed.

Lemma amounts_add_comm a b : amounts_add a b = amounts_add b a.
Proof.
  destruct a as [[[s1 h1] v1] [[[[x1 f1] l1] p1] r1]], b as [[[s2 h2] v2] [[[[x2 f2] l2] p2] r2]]. simpl.
  by rewrite (Z.add_comm s1), (Z.add_comm h1), (Z.add_comm v1), (num_add_comm x1), (num_add_comm f1),
    (num_add_comm l1), (num_add_comm p1), (num_add_comm r1).
Qed.

Lemma amounts_add_assoc a b c : amounts_add a (amounts_add b c) = amounts_add (amounts_add a b) c.
Proof.
  destruct a as [[[s1 h1] v1] [[[[x1 f1] l1] p1] r1]], b as [[[s2 h2] v2] [[[[x2 f2] l2] p2] r2]],
    c as [[[s3 h3] v3] [[[[x3 f3] l3] p3] r3]]. simpl. by rewrite !Z.add_assoc, !num_add_assoc.
Qed.

#[local] Arguments amounts_add : simpl never.

Lemma amounts_sum_perm l l' : l ≡ₚ l' -> amounts_sum l = amounts_sum l'.
Proof.
  induction 1 as [|a l l' _ IH|a b l|l l' l'' _ IH _ IH']; simpl; [done|by rewrite IH| |congruence].
  by rewrite !amounts_add_assoc, (amounts_add_comm b).
Qed.

Lemma amounts_sum_app l l' : amounts_sum (l ++ l') = amounts_add (amounts_sum l) (amounts_sum l').
Proof.
  induction l as [|a l IH]; simpl; [by rewrite amounts_add_zero|]. by rewrite IH, amounts_add_assoc.
Qed.

Lemma amounts_sum_cons a l : amounts_sum (a :: l) = amounts_add a (amounts_sum l).
Proof. done. Qed.

Lemma amounts_sum_one a : amounts_sum [a] = a.
Proof. rewrite amounts_sum_cons, amounts_add_comm. apply amounts_add_zero. Qed.

Lemma amounts_sum_concat ls : amounts_sum (concat ls) = amounts_sum (map amounts_sum ls).
Proof. induction ls as [|l ls IH]; simpl; [done|]. by rewrite amounts_sum_app, IH. Qed.

Lemma known_sum x l : known (sql_sum (x :: l)) = num_add (known x) (known (sql_sum l)).
Proof.
  simpl. destruct x as [x|]; simpl; [|by rewrite num_add_zero].
  fold (sql_sum l). destruct (sql_sum l) as [y|]; simpl; [done|]. by rewrite num_add_comm, num_add_zero.
Qed.

Lemma amounts_sum_rows rows : amounts (sum_rows rows) = amounts_sum (map amounts rows).
Proof.
  induction rows as [|r rows IH]; [done|]. simpl. rewrite <- IH.
  unfold amounts, sum_rows. simpl map.
  cbn [SwapActivityRow.swaps SwapActivityRow.pool_hours SwapActivityRow.pool_hours_valued SwapActivityRow.volume_usd
    SwapActivityRow.fees_usd SwapActivityRow.lp_fees_usd SwapActivityRow.protocol_fees_usd
    SwapActivityRow.referral_fees_usd]. unfold amounts_add. by rewrite !known_sum.
Qed.

Definition fact_amounts (f : PoolFacts.t N) : Amounts := amounts (fact_row (Some f)).

Lemma known_facts {A} (column : A -> option N) (facts : list A) :
  known (match facts with [] => Some num_zero | _ => sql_sum (map column facts) end) = known (sql_sum (map column facts)).
Proof. by destruct facts. Qed.

Lemma amounts_facts_row facts : amounts (facts_row facts) = amounts_sum (map fact_amounts facts).
Proof.
  assert (amounts (facts_row facts) =
    ((sum_Z (map PoolFacts.swap_count facts), Z.of_nat (length facts),
      Z.of_nat (length (List.filter PoolFacts.valued facts))),
     (known (sql_sum (map (fun f => add_opt (PoolFacts.volume_in_a_usd f) (PoolFacts.volume_in_b_usd f)) facts)),
      known (sql_sum (map PoolFacts.fees_usd facts)), known (sql_sum (map PoolFacts.lp_fees_usd facts)),
      known (sql_sum (map PoolFacts.protocol_fees_usd facts)),
      known (sql_sum (map PoolFacts.referral_fees_usd facts))))) as ->.
  { unfold amounts, facts_row.
    cbn [SwapActivityRow.swaps SwapActivityRow.pool_hours SwapActivityRow.pool_hours_valued SwapActivityRow.volume_usd
      SwapActivityRow.fees_usd SwapActivityRow.lp_fees_usd SwapActivityRow.protocol_fees_usd
      SwapActivityRow.referral_fees_usd]. by rewrite !known_facts. }
  induction facts as [|f facts IH]; [done|]. cbn [map amounts_sum foldr]. fold (amounts_sum (map fact_amounts facts)).
  rewrite <- IH, !known_sum. unfold fact_amounts, amounts, fact_row, sum_Z.
  cbn [SwapActivityRow.swaps SwapActivityRow.pool_hours SwapActivityRow.pool_hours_valued SwapActivityRow.volume_usd
    SwapActivityRow.fees_usd SwapActivityRow.lp_fees_usd SwapActivityRow.protocol_fees_usd
    SwapActivityRow.referral_fees_usd foldr length List.filter].
  unfold amounts_add. destruct (PoolFacts.valued f); cbn [length];
    by rewrite ?Nat2Z.inj_succ, <- ?Z.add_1_l, ?Z.add_0_l.
Qed.

Lemma amounts_no_fact : amounts (fact_row None) = amounts_zero.
Proof. done. Qed.
End Amounts.

(** ** The protocols' series *)

Lemma time_bucket_from wd from as_of b k :
  0 < wd -> as_of - from = k * wd -> from <= b -> from <= time_bucket wd as_of b.
Proof.
  intros Hw Hk Hb. unfold time_bucket. assert (- k <= (b - as_of) / wd) by (apply Z.div_le_lower_bound; lia). nia.
Qed.

Lemma filter_all_true {A} (f : A -> bool) l : (forall a, a ∈ l -> f a = true) -> List.filter f l = l.
Proof. intros Hf. apply forallb_filter_id, forallb_forall. intros a Ha%list_elem_of_In. by apply Hf. Qed.

Lemma list_filter_map {A B} (f : B -> bool) (g : A -> B) l :
  List.filter f (map g l) = map g (List.filter (fun a => f (g a)) l).
Proof. induction l as [|a l IH]; simpl; [done|]. rewrite IH. by destruct (f (g a)). Qed.

Section Protocols.
Context {N O : Type} `{NumericLaws N} `{!ProtocolPeriods O} `{Collation}.
Implicit Types (t : Tables.t N O) (pr : option Protocol) (q : string).

(** The rows a read over the period groups. *)
Definition period_rows (p : FrozenPeriod.t) pr t : list (HourRow.t N) :=
  List.filter (fun h => between (FrozenPeriod.from p) (FrozenPeriod.as_of p) (HourRow.bucket h) &&
    of_bind pr (HourRow.protocol h)) (protocol_hourly t).

Definition hour_amounts (h : HourRow.t N) : Amounts := amounts (hour_row h).
Definition of_protocol (q : string) (h : HourRow.t N) : bool := bool_decide (HourRow.protocol h = q).

(** A series' rows of a protocol. *)
Definition rows_of (q : string) (series : list (ProtocolSwapBucketRow.t N)) : list (SwapActivityRow.t N) :=
  map ProtocolSwapBucketRow.activity
    (List.filter (fun b => bool_decide (ProtocolSwapBucketRow.protocol b = q)) series).

Lemma total_amounts p w pr t row :
  row ∈ select_protocol_totals p w pr t ->
  amounts (ProtocolSwapActivityRow.activity row) =
    amounts_sum (map hour_amounts (List.filter (of_protocol (ProtocolSwapActivityRow.protocol row)) (period_rows p pr t))).
Proof.
  unfold select_protocol_totals. fold (period_rows p pr t). intros ([q hours] & -> & Hg)%list_elem_of_fmap. simpl.
  unfold group_by in Hg. apply list_elem_of_fmap in Hg as (k & [= -> ->] & _).
  by rewrite amounts_sum_rows, map_map.
Qed.

Lemma hourly_amounts p pr t q :
  FrozenPeriod.is_covered p = true ->
  amounts_sum (map amounts (rows_of q (select_protocol_hourly p pr t))) =
    amounts_sum (map hour_amounts (List.filter (of_protocol q) (period_rows p pr t))).
Proof.
  unfold FrozenPeriod.is_covered. intros Hc%Z.leb_le. unfold rows_of, select_protocol_hourly.
  rewrite Z.max_l by done. fold (period_rows p pr t). rewrite list_filter_map, !map_map. apply amounts_sum_perm.
  simpl. change (fun x => amounts (hour_row x)) with hour_amounts. apply Permutation_map, filter_Permutation, order_by_perm.
Qed.

Lemma buckets_amounts p wd pr t q k :
  FrozenPeriod.is_covered p = true -> 0 < wd -> FrozenPeriod.as_of p - FrozenPeriod.from p = k * wd ->
  amounts_sum (map amounts (rows_of q (select_protocol_buckets p wd pr t))) =
    amounts_sum (map hour_amounts (List.filter (of_protocol q) (period_rows p pr t))).
Proof.
  unfold FrozenPeriod.is_covered. intros Hc%Z.leb_le Hw Hk. unfold rows_of, select_protocol_buckets.
  fold (period_rows p pr t). rewrite (filter_all_true _ (period_rows p pr t)).
  2:{ intros h Hh. apply list_elem_of_In, List.filter_In in Hh as [_ Hh]. apply andb_true_iff in Hh as [Hh _]. unfold between in Hh.
      apply andb_true_iff in Hh as [Hh%Z.leb_le _]. apply Z.leb_le.
      pose proof (time_bucket_from wd _ _ (HourRow.bucket h) k Hw Hk Hh). lia. }
  set (key := fun h : HourRow.t N => (time_bucket wd (FrozenPeriod.as_of p) (HourRow.bucket h), HourRow.protocol h)).
  rewrite list_filter_map.
  rewrite (List.filter_ext _ (fun g => bool_decide (snd (fst g) = q))) by (by intros [[from p'] hours]).
  pose proof (group_by_filter bucket_ltb key (fun k => bool_decide (snd k = q)) (period_rows p pr t)) as Hp.
  apply (Permutation_map hour_amounts), amounts_sum_perm in Hp. etrans; [|exact Hp].
  rewrite concat_map, amounts_sum_concat, !map_map. f_equal. apply map_ext. intros [[from p'] hours]. simpl.
  by rewrite amounts_sum_rows, map_map.
Qed.

(** A protocol of the series has a total, and the other way. *)
Lemma totals_protocols p w pr t q :
  (exists row, row ∈ select_protocol_totals p w pr t /\ ProtocolSwapActivityRow.protocol row = q) <->
  exists h, h ∈ period_rows p pr t /\ HourRow.protocol h = q.
Proof.
  unfold select_protocol_totals. fold (period_rows p pr t). unfold group_by. split.
  - intros (row & ([q' hours] & -> & Hg)%list_elem_of_fmap & <-). apply list_elem_of_fmap in Hg as (k & [= -> ->] & Hk).
    rewrite order_by_perm in Hk. apply elem_of_remove_dups, list_elem_of_fmap in Hk as (h & -> & Hh).
    by exists h.
  - intros (h & Hh & <-). eexists. split.
    + apply list_elem_of_fmap. eexists (HourRow.protocol h, _). split; [reflexivity|]. apply list_elem_of_fmap.
      eexists. split; [reflexivity|]. rewrite order_by_perm. by apply elem_of_remove_dups, list_elem_of_fmap_2.
    + done.
Qed.
End Protocols.

(** *** Over the last hour *)

Section Tranches.
Context {N O : Type} `{NumericLaws N} `{Collation}.
Implicit Types (t : Tables.t N O) (pr : option Protocol) (q : string).

Lemma measured_once pr q :
  q ∈ order_by id text_ltb (List.filter (of_bind pr) measured) ->
  List.filter (fun p => bool_decide (p = q)) (order_by id text_ltb (List.filter (of_bind pr) measured)) = [q].
Proof.
  assert (List.filter (of_bind pr) measured = [] \/ List.filter (of_bind pr) measured = [facts_protocol]) as [-> | ->].
  { unfold measured. simpl. destruct (of_bind pr _); [by right|by left]. }
  - change (order_by id text_ltb []) with (@nil string). by intros ?%not_elem_of_nil.
  - change (order_by id text_ltb [facts_protocol]) with [facts_protocol]. intros ->%list_elem_of_singleton. done.
Qed.

Lemma tranche_total_amounts (p : TranchePeriod.t) pr t row :
  row ∈ select_protocol_totals_in_tranches p pr t ->
  amounts (ProtocolSwapActivityRow.activity row) =
    amounts_sum (map (fun r => fact_amounts (snd r))
      (tranches_of (ProtocolSwapActivityRow.protocol row) (TranchePeriod.from p) (TranchePeriod.as_of p) t)).
Proof. intros (q & -> & _)%list_elem_of_fmap. simpl. by rewrite amounts_facts_row, map_map. Qed.

Lemma tranches_amounts (p : TranchePeriod.t) pr t q :
  TranchePeriod.is_covered p = true -> aligned TRANCHE (TranchePeriod.from p) -> aligned TRANCHE (TranchePeriod.as_of p) ->
  (forall r, r ∈ tranche_rows t -> aligned TRANCHE (snd (fst r))) ->
  q ∈ order_by id text_ltb (List.filter (of_bind pr) measured) ->
  amounts_sum (map amounts (rows_of q (select_protocol_tranches p pr t))) =
    amounts_sum (map (fun r => fact_amounts (snd r))
      (tranches_of q (TranchePeriod.from p) (TranchePeriod.as_of p) t)).
Proof.
  unfold TranchePeriod.is_covered. intros Hc%Z.leb_le Hf Ha Hgrid Hq. unfold select_protocol_tranches.
  rewrite Z.max_l by done. change (minutes_delta 5) with TRANCHE.
  set (rows := tranches_of q (TranchePeriod.from p) (TranchePeriod.as_of p) t).
  set (buckets := series (TranchePeriod.from p) (TranchePeriod.as_of p - TRANCHE) TRANCHE).
  assert (concat (map (fun b => List.filter (fun r => bool_decide (snd (fst r) = b)) rows) buckets) ≡ₚ rows) as Hp.
  { apply (keyed_groups_perm (fun r : (Pubkey * DateTime) * PoolFacts.t N => snd (fst r))).
    - apply NoDup_series, TRANCHE_pos.
    - intros r Hr. apply list_elem_of_In, List.filter_In in Hr as [Hr Hb]. apply list_elem_of_In, Hgrid in Hr.
      apply andb_true_iff in Hb as [_ Hb]. unfold between in Hb. apply andb_true_iff in Hb as [H1%Z.leb_le H2%Z.ltb_lt].
      apply elem_of_aligned_series; [apply TRANCHE_pos|done|]. split; [done|].
      pose proof (aligned_gap TRANCHE _ _ TRANCHE_pos Hr Ha H2).
      split; [exact H1|]. apply Z.le_add_le_sub_r. assumption. }
  apply (Permutation_map (fun r => fact_amounts (snd r))), amounts_sum_perm in Hp. etrans; [|exact Hp]. clear Hp.
  rewrite concat_map, amounts_sum_concat, !map_map. unfold rows_of.
  induction buckets as [|b buckets IH]; [done|].
  cbn [flat_map map]. rewrite List.filter_app, !map_app, amounts_sum_app, IH, amounts_sum_cons. f_equal.
  rewrite list_filter_map. cbn [ProtocolSwapBucketRow.protocol]. rewrite measured_once by done.
  cbn [map ProtocolSwapBucketRow.activity]. rewrite amounts_sum_one, amounts_facts_row, map_map. fold rows.
  rewrite (List.filter_ext (fun r => snd (fst r) =? b) (fun r => bool_decide (snd (fst r) = b))); [done|].
  intros r. destruct (Z.eqb_spec (snd (fst r)) b); [by rewrite bool_decide_eq_true_2|by rewrite bool_decide_eq_false_2].
Qed.
End Tranches.

(** ** A pool's series *)

Section Pools.
Context {N O : Type} `{NumericLaws N}.
Implicit Types (t : Tables.t N O) (facts : list (DateTime * PoolFacts.t N)) (pools : gmap Pubkey SeenPool.t).

(** A total and the rows of a series: there is a total exactly where there is a row. *)
Definition sums_to (series : list (PoolSwapBucketRow.t N)) (total : option (SwapActivityRow.t N)) : Prop :=
  match total with
  | Some row => series <> [] /\ adds_up (map PoolSwapBucketRow.activity series) row
  | None => series = []
  end.

Lemma fact_rows_amounts facts buckets :
  amounts_sum (map (fun b => amounts (fact_row (fact_at facts b))) buckets) =
    amounts_sum (map fact_amounts (omap (fact_at facts) buckets)).
Proof.
  induction buckets as [|b buckets IH]; [done|]. cbn [map omap list_omap]. rewrite amounts_sum_cons, IH.
  destruct (fact_at facts b) as [f|]; [done|]. by rewrite amounts_no_fact, amounts_add_zero.
Qed.

Lemma pool_buckets_sum facts buckets : sums_to (pool_buckets facts buckets) (pool_totals facts buckets).
Proof.
  unfold sums_to, pool_totals. destruct buckets as [|b buckets]; [done|]. split; [done|].
  unfold adds_up, pool_buckets.
  rewrite !map_map, amounts_facts_row. exact (fact_rows_amounts facts (b :: buckets)).
Qed.

Lemma omap_concat {A B} (f : A -> option B) ls : omap f (concat ls) = concat (map (omap f) ls).
Proof. induction ls as [|l ls IH]; simpl; [done|]. by rewrite omap_app, IH. Qed.

Lemma omap_perm {A B} (f : A -> option B) l l' : l ≡ₚ l' -> omap f l ≡ₚ omap f l'.
Proof. intros Hl. by rewrite Hl. Qed.

Lemma pool_groups_sum facts buckets (key : DateTime -> DateTime) :
  sums_to (map (fun '(from, hours) => PoolSwapBucketRow.mk from (facts_row (omap (fact_at facts) hours)))
    (group_by Z.ltb key buckets)) (pool_totals facts buckets).
Proof.
  unfold sums_to, pool_totals. destruct buckets as [|b buckets]; [done|].
  pose proof (group_by_perm Z.ltb key (b :: buckets)) as Hp. split.
  { intros Hg%map_eq_nil. rewrite Hg in Hp. by apply Permutation_nil in Hp. }
  unfold adds_up. rewrite amounts_facts_row.
  apply (omap_perm (fact_at facts)), (Permutation_map fact_amounts), amounts_sum_perm in Hp. etrans; [|exact Hp].
  rewrite omap_concat, concat_map, amounts_sum_concat, !map_map. f_equal. apply map_ext. intros [from hours].
  cbn [PoolSwapBucketRow.activity snd]. by rewrite amounts_facts_row.
Qed.

Lemma seen_buckets_between {V} from as_of since (m : gmap DateTime V) b :
  b ∈ seen_buckets from as_of since m -> from <= b < as_of.
Proof.
  unfold seen_buckets. destruct since as [since|]; [|by intros ?%not_elem_of_nil]. rewrite order_by_perm.
  intros Hb. apply list_elem_of_In, List.filter_In in Hb as [_ Hb]. apply andb_true_iff in Hb as [_ Hb].
  unfold between in Hb. apply andb_true_iff in Hb as [?%Z.leb_le ?%Z.ltb_lt]. done.
Qed.

Lemma pool_hourly_sum (p : FrozenPeriod.t) (pool : Pubkey) t pools :
  FrozenPeriod.is_covered p = true ->
  sums_to (select_pool_hourly p pool t pools) (select_pool_totals p pool t pools).
Proof.
  unfold FrozenPeriod.is_covered, select_pool_hourly, select_pool_totals. intros Hc%Z.leb_le.
  rewrite Z.max_l by done. apply pool_buckets_sum.
Qed.

Lemma pool_wide_sum (p : FrozenPeriod.t) (wd k : Z) (pool : Pubkey) t pools :
  FrozenPeriod.is_covered p = true -> 0 < wd -> FrozenPeriod.as_of p - FrozenPeriod.from p = k * wd ->
  sums_to (select_pool_buckets p wd pool t pools) (select_pool_totals p pool t pools).
Proof.
  unfold FrozenPeriod.is_covered, select_pool_buckets, select_pool_totals. intros Hc%Z.leb_le Hw Hk.
  rewrite (filter_all_true _ (seen_buckets _ _ _ _)); [apply pool_groups_sum|].
  intros b Hb%seen_buckets_between. apply Z.leb_le.
  pose proof (time_bucket_from wd _ _ b k Hw Hk (proj1 Hb)). lia.
Qed.

Lemma pool_tranches_sum (p : TranchePeriod.t) (pool : Pubkey) t pools :
  TranchePeriod.is_covered p = true ->
  sums_to (select_pool_tranches p pool t pools) (select_pool_totals_in_tranches p pool t pools).
Proof.
  unfold TranchePeriod.is_covered, select_pool_tranches, select_pool_totals_in_tranches. intros Hc%Z.leb_le.
  rewrite Z.max_l by done. apply pool_buckets_sum.
Qed.
End Pools.
(** ** The groups of the same rows *)

Lemma remove_dups_perm {K} `{EqDecision K} (l l' : list K) : l ≡ₚ l' -> remove_dups l ≡ₚ remove_dups l'.
Proof.
  intros Hp. apply NoDup_Permutation; [apply NoDup_remove_dups..|]. intros k.
  by rewrite !elem_of_remove_dups, Hp.
Qed.

Lemma group_by_same {A K B} `{EqDecision K} (before : K -> K -> bool) `{!StrictTotal before} (key : A -> K)
    (F : K * list A -> B) (l l' : list A) :
  (forall k rows rows', rows ≡ₚ rows' -> F (k, rows) = F (k, rows')) -> l ≡ₚ l' ->
  map F (group_by before key l) = map F (group_by before key l').
Proof.
  intros HF Hp. unfold group_by. rewrite !map_map.
  rewrite (order_by_ext id before (remove_dups (map key l)) (remove_dups (map key l'))).
  - apply map_ext. intros k. apply HF. by apply filter_Permutation.
  - rewrite map_id. apply NoDup_remove_dups.
  - by apply remove_dups_perm, Permutation_map.
Qed.

#[global] Instance bucket_ltb_total `{CollationLaws} : StrictTotal bucket_ltb.
Proof.
  split; unfold bucket_ltb.
  - intros [b p]. simpl. by rewrite Z.ltb_irrefl, Z.eqb_refl, before_irrefl.
  - intros [b1 p1] [b2 p2] [b3 p3]. simpl. rewrite !orb_true_iff, !andb_true_iff, !Z.ltb_lt, !Z.eqb_eq.
    intros [H1|[H1 H1']] [H2|[H2 H2']]; [left; lia..|]. right. split; [lia|].
    exact (before_trans (before := text_ltb) _ _ _ H1' H2').
  - intros [b1 p1] [b2 p2]. simpl. rewrite !orb_false_iff, !andb_false_iff, !Z.ltb_ge, !Z.eqb_neq.
    intros [H1 H1'] [H2 H2']. assert (b1 = b2) as -> by lia.
    destruct H1' as [H1'|H1'], H2' as [H2'|H2']; [lia..|]. f_equal. by apply (before_total (before := text_ltb)).
Qed.

(** ** What the cycles leave of a period *)

Section Settled.
Context {N O : Type} `{NumericLaws N} `{!ProtocolPeriods O} `{CollationLaws}.
Implicit Types (t : Tables.t N O) (pr : option Protocol) (pools : gmap Pubkey SeenPool.t).

(** Every hour, or every tranche, of the period is written for good. *)
Definition hours_settled t (from as_of : DateTime) : Prop :=
  forall h : DateTime, aligned HOUR h -> from <= h < as_of ->
    exists a, Tables.analytic_hours t !! h = Some (Some a).
Definition tranches_settled t (from as_of : DateTime) : Prop :=
  forall b : DateTime, aligned TRANCHE b -> from <= b < as_of -> is_Some (Tables.analytic_tranches t !! b).

(** The tables agree on a period of hours, or of tranches. *)
Record same_hours (from as_of : DateTime) t t' : Prop := {
  s_protocol : forall h : DateTime, from <= h < as_of ->
    Tables.analytic_protocol_hourly t' !! h = Tables.analytic_protocol_hourly t !! h;
  s_pool : forall (p : Pubkey) (h : DateTime), from <= h < as_of ->
    Tables.analytic_pool_hourly t' !! (p, h) = Tables.analytic_pool_hourly t !! (p, h);
  s_hours : forall h : DateTime, from <= h < as_of -> Tables.analytic_hours t' !! h = Tables.analytic_hours t !! h;
}.
Record same_tranches (from as_of : DateTime) t t' : Prop := {
  s_rows : forall (p : Pubkey) (b : DateTime), from <= b < as_of ->
    Tables.analytic_pool_5min t' !! (p, b) = Tables.analytic_pool_5min t !! (p, b);
  s_tranches : forall b : DateTime, from <= b < as_of ->
    Tables.analytic_tranches t' !! b = Tables.analytic_tranches t !! b;
}.

Lemma not_between_filter (from as_of b : DateTime) : between from as_of b = true <-> from <= b < as_of.
Proof. unfold between. by rewrite andb_true_iff, Z.leb_le, Z.ltb_lt. Qed.

Lemma unheld {K V} `{Countable K} (m : gmap K V) k : ~ is_Some (m !! k) -> m !! k = None.
Proof. intros Hn. by apply eq_None_not_Some. Qed.

Lemma settled_same_hours t t' f L F T f' L' F' T' from as_of :
  consistent t f L F T -> consistent t' f' L' F' T' -> kept t t' -> hours_settled t from as_of ->
  same_hours from as_of t t'.
Proof.
  intros Hc Hc' Hk Hs. split.
  - intros h Hh. destruct (decide (aligned HOUR h)) as [Ha|Hna].
    + destruct (Hs h Ha Hh) as [a Hf]. by destruct (k_frozen _ _ Hk _ _ Hf) as (_ & _ & ?).
    + rewrite !unheld; [done| |]; intros Hh'; apply Hna.
      * by apply (c_protocol _ _ _ _ _ Hc).
      * by apply (c_protocol _ _ _ _ _ Hc').
  - intros p h Hh. destruct (decide (aligned HOUR h)) as [Ha|Hna].
    + destruct (Hs h Ha Hh) as [a Hf]. by destruct (k_frozen _ _ Hk _ _ Hf) as (_ & Hp & _).
    + rewrite !unheld; [done| |]; intros Hh'; apply Hna.
      * by eapply hour_total_aligned, (c_hourly _ _ _ _ _ Hc).
      * by eapply hour_total_aligned, (c_hourly _ _ _ _ _ Hc').
  - intros h Hh. destruct (decide (aligned HOUR h)) as [Ha|Hna].
    + destruct (Hs h Ha Hh) as [a Hf]. destruct (k_frozen _ _ Hk _ _ Hf) as (Hf' & _). congruence.
    + rewrite !unheld; [done| |]; intros Hh'; apply Hna.
      * by apply (c_hours _ _ _ _ _ Hc).
      * by apply (c_hours _ _ _ _ _ Hc').
Qed.

Lemma settled_same_tranches t t' f L F T f' L' F' T' from as_of :
  consistent t f L F T -> consistent t' f' L' F' T' -> kept t t' -> tranches_settled t from as_of ->
  same_tranches from as_of t t'.
Proof.
  intros Hc Hc' Hk Hs. split.
  - intros p b Hb. destruct (Tables.analytic_pool_5min t !! (p, b)) as [r|] eqn:Hr; [by apply (k_rows _ _ Hk)|].
    apply unheld. intros Hr'. assert (aligned TRANCHE b) as Ha.
    { destruct Hr' as [r Hr']. by apply (c_rows _ _ _ _ _ Hc'), (c_tranches _ _ _ _ _ Hc') in Hr' as [? _]. }
    destruct (k_new _ _ Hk p b Hr' (Hs b Ha Hb)) as [r ?]. congruence.
  - intros b Hb. destruct (decide (aligned TRANCHE b)) as [Ha|Hna].
    + destruct (Hs b Ha Hb) as [a Hb']. rewrite Hb'. by apply (k_tranches _ _ Hk).
    + rewrite !unheld; [done| |]; intros Hh'; apply Hna.
      * by apply (c_tranches _ _ _ _ _ Hc).
      * by apply (c_tranches _ _ _ _ _ Hc').
Qed.
End Settled.

(** ** The reads of a settled period *)

Section Reads.
Context {N O : Type} `{NumericLaws N} `{!ProtocolPeriods O} `{CollationLaws}.
Implicit Types (t : Tables.t N O) (pr : option Protocol) (pools : gmap Pubkey SeenPool.t).

Lemma sum_Z_Permutation l l' : l ≡ₚ l' -> sum_Z l = sum_Z l'.
Proof. unfold sum_Z. induction 1; simpl; lia. Qed.

Lemma sum_rows_Permutation (l l' : list (SwapActivityRow.t N)) : l ≡ₚ l' -> sum_rows l = sum_rows l'.
Proof.
  intros Hp. unfold sum_rows.
  f_equal; (apply sum_Z_Permutation || apply sql_sum_Permutation); by apply Permutation_map.
Qed.

Lemma facts_row_Permutation (l l' : list (PoolFacts.t N)) : l ≡ₚ l' -> facts_row l = facts_row l'.
Proof.
  intros Hp. unfold facts_row. f_equal.
  - by apply sum_Z_Permutation, Permutation_map.
  - by apply sum_or_zero_Permutation.
  - by apply sum_or_zero_Permutation.
  - by apply sum_or_zero_Permutation.
  - by apply sum_or_zero_Permutation.
  - by apply sum_or_zero_Permutation.
  - by rewrite (Permutation_length Hp).
  - by rewrite (Permutation_length (filter_Permutation PoolFacts.valued _ _ Hp)).
Qed.

Lemma filter_and {A} (f g : A -> bool) (l : list A) :
  List.filter (fun a => f a && g a) l = List.filter g (List.filter f l).
Proof.
  induction l as [|a l IH]; [done|]. cbn [List.filter]. destruct (f a); cbn [andb List.filter]; [|done].
  by rewrite IH.
Qed.

Definition hours_between (from as_of : DateTime) t : list (HourRow.t N) :=
  List.filter (fun h => between from as_of (HourRow.bucket h)) (protocol_hourly t).

Lemma hours_between_same from as_of t t' :
  same_hours from as_of t t' -> hours_between from as_of t' ≡ₚ hours_between from as_of t.
Proof.
  intros Hs. unfold hours_between, protocol_hourly. rewrite !list_filter_map. apply Permutation_map.
  apply (map_to_list_agree (fun h => between from as_of h)). intros h Hh%not_between_filter. by apply (s_protocol _ _ _ _ Hs).
Qed.

Lemma period_rows_same p pr t t' :
  same_hours (FrozenPeriod.from p) (FrozenPeriod.as_of p) t t' -> period_rows p pr t' ≡ₚ period_rows p pr t.
Proof. intros Hs. unfold period_rows. rewrite !filter_and. by apply filter_Permutation, hours_between_same. Qed.

(** All but the number of pools, which another table holds. *)
Definition totals_of (rows : list (ProtocolSwapActivityRow.t N)) : list (string * SwapActivityRow.t N) :=
  map (fun row => (ProtocolSwapActivityRow.protocol row, ProtocolSwapActivityRow.activity row)) rows.

Lemma totals_same p w pr t t' :
  same_hours (FrozenPeriod.from p) (FrozenPeriod.as_of p) t t' ->
  totals_of (select_protocol_totals p w pr t') = totals_of (select_protocol_totals p w pr t).
Proof.
  intros Hs%(period_rows_same p pr). unfold totals_of, select_protocol_totals. rewrite !map_map.
  fold (period_rows p pr t) (period_rows p pr t').
  set (F := fun g : string * list (HourRow.t N) => (fst g, sum_rows (map hour_row (snd g)))).
  etrans; [apply (map_ext _ F); by intros []|]. symmetry. etrans; [apply (map_ext _ F); by intros []|]. symmetry.
  apply group_by_same; [apply _| |done]. intros q rows rows' Hp. unfold F. cbn [fst snd]. f_equal.
  by apply sum_rows_Permutation, Permutation_map.
Qed.

Lemma hour_row_keys t : NoDup (map (fun h => (HourRow.bucket h, HourRow.protocol h)) (protocol_hourly t)).
Proof.
  unfold protocol_hourly. rewrite map_map. simpl.
  rewrite <-(map_map (fun kv => fst kv) (fun b => (b, facts_protocol))).
  apply NoDup_fmap_2; [by intros ? ? [= ->]|]. apply NoDup_fst_map_to_list.
Qed.

Lemma filter_keys_NoDup {A K} (key : A -> K) (f : A -> bool) l : NoDup (map key l) -> NoDup (map key (List.filter f l)).
Proof.
  induction l as [|a l IH]; [done|]. cbn [map List.filter]. intros [Ha Hl]%NoDup_cons.
  destruct (f a); [|by apply IH]. cbn [map]. apply NoDup_cons. split; [|by apply IH].
  intros (b & Hb & Hin)%list_elem_of_fmap. apply Ha. rewrite Hb. apply list_elem_of_fmap_2.
  by apply list_elem_of_In, List.filter_In in Hin as [?%list_elem_of_In _].
Qed.

Lemma series_hourly_same p pr t t' :
  same_hours (FrozenPeriod.from p) (FrozenPeriod.as_of p) t t' ->
  select_protocol_hourly p pr t' = select_protocol_hourly p pr t.
Proof.
  intros Hs. unfold select_protocol_hourly. f_equal. symmetry. apply order_by_ext; [apply _|apply filter_keys_NoDup, hour_row_keys|].
  rewrite !filter_and. apply filter_Permutation. symmetry.
  apply (hours_between_same (Z.max (FrozenPeriod.from p) (FrozenPeriod.covered_since p))). destruct Hs as [Hs1 Hs2 Hs3].
  split; intros; [apply Hs1|apply Hs2|apply Hs3]; lia.
Qed.

Lemma series_buckets_same p wd pr t t' :
  same_hours (FrozenPeriod.from p) (FrozenPeriod.as_of p) t t' ->
  select_protocol_buckets p wd pr t' = select_protocol_buckets p wd pr t.
Proof.
  intros Hs%(period_rows_same p pr). unfold select_protocol_buckets. fold (period_rows p pr t) (period_rows p pr t').
  apply group_by_same; [apply _| |by apply filter_Permutation].
  intros [b q] rows rows' Hp. f_equal. by apply sum_rows_Permutation, Permutation_map.
Qed.
End Reads.

Section PoolReads.
Context {N O : Type} `{NumericLaws N} `{CollationLaws}.
Implicit Types (t : Tables.t N O) (pr : option Protocol) (pools : gmap Pubkey SeenPool.t).

Lemma tranches_of_same q from as_of t t' :
  same_tranches from as_of t t' -> tranches_of q from as_of t' ≡ₚ tranches_of q from as_of t.
Proof.
  intros Hs. unfold tranches_of, tranche_rows.
  apply (map_to_list_agree (K := Pubkey * DateTime) (fun k => bool_decide (facts_protocol = q) && between from as_of (snd k))).
  intros [p b] Hb. apply andb_true_iff in Hb as [_ Hb]. apply not_between_filter in Hb. by apply (s_rows _ _ _ _ Hs).
Qed.

Lemma tranche_totals_same (p : TranchePeriod.t) pr t t' :
  same_tranches (TranchePeriod.from p) (TranchePeriod.as_of p) t t' ->
  select_protocol_totals_in_tranches p pr t' = select_protocol_totals_in_tranches p pr t.
Proof.
  intros Hs. unfold select_protocol_totals_in_tranches. apply map_ext. intros q.
  pose proof (tranches_of_same q _ _ _ _ Hs) as Hp. f_equal.
  - by apply facts_row_Permutation, Permutation_map.
  - do 2 f_equal. by apply Permutation_length, remove_dups_perm, Permutation_map.
Qed.

Lemma series_tranches_same (p : TranchePeriod.t) pr t t' :
  same_tranches (TranchePeriod.from p) (TranchePeriod.as_of p) t t' ->
  select_protocol_tranches p pr t' = select_protocol_tranches p pr t.
Proof.
  intros Hs. unfold select_protocol_tranches. apply flat_map_ext. intros b. apply map_ext. intros q. f_equal.
  apply facts_row_Permutation, Permutation_map, filter_Permutation, tranches_of_same, Hs.
Qed.

(** *** A pool's *)

Lemma best_bucket_perm {V} (l l' : list (DateTime * V)) :
  l ≡ₚ l' -> best_bucket Z.min (fun _ => true) l = best_bucket Z.min (fun _ => true) l'.
Proof.
  unfold best_bucket. induction 1 as [|a l l' _ IH|a b l|l l' l'' _ IH _ IH']; cbn [foldr]; [done|by rewrite IH| |congruence].
  f_equal. destruct (foldr _ _ l) as [c|]; lia.
Qed.

Lemma seen_since_perm (trunc : DateTime -> DateTime) (facts facts' : list (DateTime * PoolFacts.t N)) pools pool :
  facts ≡ₚ facts' -> seen_since trunc facts pools pool = seen_since trunc facts' pools pool.
Proof. intros Hp. unfold seen_since. by rewrite (best_bucket_perm _ _ Hp). Qed.

Lemma facts_in_same (from as_of : Z) (pool : Pubkey) (m m' : gmap (Pubkey * DateTime) (PoolFacts.t N)) :
  (forall b : DateTime, from <= b < as_of -> m' !! (pool, b) = m !! (pool, b)) ->
  facts_in from as_of pool m' ≡ₚ facts_in from as_of pool m.
Proof.
  intros Hm. unfold facts_in. apply Permutation_map.
  set (P := fun k : Pubkey * DateTime => bool_decide (fst k = pool) && between from as_of (snd k)).
  apply (map_to_list_agree P). intros [p b] Hb. apply andb_true_iff in Hb as [Hp%bool_decide_eq_true Hb%not_between_filter]. simpl in *. subst p.
  by apply Hm.
Qed.

Lemma facts_in_keys (from as_of : Z) (pool : Pubkey) (m : gmap (Pubkey * DateTime) (PoolFacts.t N)) :
  NoDup (map fst (facts_in from as_of pool m)).
Proof.
  unfold facts_in. rewrite map_map. simpl.
  set (P := fun row : (Pubkey * DateTime) * PoolFacts.t N =>
    bool_decide (fst (fst row) = pool) && between from as_of (snd (fst row))).
  pose proof (filter_keys_NoDup fst P _ (NoDup_fst_map_to_list m)) as Hk.
  rewrite <-(map_map fst snd). set (ks := map fst (List.filter P (map_to_list m))) in *.
  assert (forall k, k ∈ ks -> fst k = pool) as Hpool.
  { intros k (row & -> & Hrow)%list_elem_of_fmap. apply list_elem_of_In, List.filter_In in Hrow as [_ Hrow].
    by apply andb_true_iff in Hrow as [?%bool_decide_eq_true _]. }
  clearbody ks. induction ks as [|k ks IH]; [constructor|]. cbn [map]. apply NoDup_cons in Hk as [Hk Hks].
  apply NoDup_cons. split.
  - intros (k' & Heq & Hin)%list_elem_of_fmap. apply Hk.
    assert (k = k') as ->; [|done]. rewrite (surjective_pairing k), (surjective_pairing k'), Heq.
    f_equal. rewrite !Hpool; [done|by right|by left].
  - apply IH; [done|]. intros k' Hk'. apply Hpool. by right.
Qed.

Lemma fact_at_In (facts : list (DateTime * PoolFacts.t N)) b f :
  NoDup (map fst facts) -> fact_at facts b = Some f <-> (b, f) ∈ facts.
Proof.
  unfold fact_at. induction facts as [|[b' f'] facts IH]; intros Hnd; [split; [done|by intros ?%not_elem_of_nil]|].
  cbn [map] in Hnd. apply NoDup_cons in Hnd as [Hb' Hnd]. cbn [List.find fst]. rewrite elem_of_cons.
  destruct (Z.eqb_spec b' b) as [->|Hne]; cbn [fmap option_fmap option_map snd].
  - split; [intros [= ->]; by left|]. intros [[= ->]|Hin]; [done|]. exfalso. apply Hb'.
    by apply (list_elem_of_fmap_2 fst _ _ Hin).
  - rewrite IH by done. split; [by right|]. intros [[= -> ->]|?]; done.
Qed.

Lemma fact_at_perm (facts facts' : list (DateTime * PoolFacts.t N)) b :
  NoDup (map fst facts) -> facts ≡ₚ facts' -> fact_at facts b = fact_at facts' b.
Proof.
  intros Hnd Hp. assert (NoDup (map fst facts')) as Hnd' by (by rewrite <-Hp).
  destruct (fact_at facts b) as [f|] eqn:Hf.
  - symmetry. apply fact_at_In; [done|]. rewrite <-Hp. by apply fact_at_In.
  - destruct (fact_at facts' b) as [f|] eqn:Hf'; [|done]. apply fact_at_In in Hf'; [|done].
    rewrite <-Hp in Hf'. apply fact_at_In in Hf'; [|done]. congruence.
Qed.

Lemma seen_buckets_same {V} (from as_of : Z) since (m m' : gmap DateTime V) :
  (forall b : DateTime, from <= b < as_of -> m' !! b = m !! b) ->
  seen_buckets from as_of since m' = seen_buckets from as_of since m.
Proof.
  intros Hm. unfold seen_buckets. destruct since as [since|]; [|done].
  set (P := fun b : DateTime => (since <=? b) && between from as_of b).
  rewrite !list_filter_map. symmetry. apply order_by_ext; [apply _| |].
  - rewrite map_id. apply filter_keys_NoDup, NoDup_fst_map_to_list.
  - apply Permutation_map, (map_to_list_agree P). intros b Hb. apply andb_true_iff in Hb as [_ Hb%not_between_filter].
    by rewrite Hm.
Qed.

(** What a pool's read depends on. *)
Lemma pool_facts_same {V : Type} (trunc : DateTime -> DateTime) (from as_of : Z) (pool : Pubkey) (m m' : gmap (Pubkey * DateTime) (PoolFacts.t N))
    (held held' : gmap DateTime V) (lo : Z) pools pools' :
  (forall b : DateTime, from <= b < as_of -> m' !! (pool, b) = m !! (pool, b)) ->
  (forall b : DateTime, from <= b < as_of -> held' !! b = held !! b) -> from <= lo ->
  pools' !! pool = pools !! pool ->
  let facts := facts_in from as_of pool m in
  let facts' := facts_in from as_of pool m' in
  (forall b, fact_at facts' b = fact_at facts b) /\
  seen_buckets lo as_of (seen_since trunc facts' pools' pool) held' =
    seen_buckets lo as_of (seen_since trunc facts pools pool) held.
Proof.
  intros Hm Hh Hlo Hp facts facts'. pose proof (facts_in_same _ _ _ _ _ Hm) as Hf. split.
  - intros b. apply fact_at_perm; [apply facts_in_keys|exact Hf].
  - unfold facts, facts'. rewrite (seen_since_perm _ _ _ _ _ Hf). unfold seen_since at 1. rewrite Hp.
    apply seen_buckets_same. intros b Hb. apply Hh. lia.
Qed.

Lemma pool_buckets_ext (facts facts' : list (DateTime * PoolFacts.t N)) buckets :
  (forall b, fact_at facts' b = fact_at facts b) ->
  pool_totals facts' buckets = pool_totals facts buckets /\ pool_buckets facts' buckets = pool_buckets facts buckets.
Proof.
  intros Hf. unfold pool_totals, pool_buckets. split.
  - destruct buckets as [|b buckets]; [done|]. do 2 f_equal.
    induction (b :: buckets) as [|c l IH]; [done|]. cbn [omap list_omap]. by rewrite Hf, IH.
  - apply map_ext. intros b. by rewrite Hf.
Qed.
End PoolReads.
