(* ===== verification/SwapMeasuresRuns.v ===== *)
(** * The measures of the swaps, while the cycles go on

    What [SwapMeasures] answers over the tables the writers of [AnalyticRuns]
    change between two statements: the period read, what is settled in it, and
    the totals and the series that agree whenever they are asked. *)

From stdpp Require Import sorting.
From S2P Require Import Prelude Errors External Domain Store Rows Analytic AnalyticFacts AnalyticRuns.
From S2P Require Import Cursor CursorFacts Keyset KeysetFacts EventApi Period SwapMeasures SwapMeasuresFacts.

(** ** The period read *)

Section Periods.
Context {N O : Type} `{NumericLaws N} `{!ProtocolPeriods O} `{CollationLaws}.
Implicit Types (t : Tables.t N O) (pr : option Protocol).

Lemma frozen_hours_consistent t f L F T hours :
  consistent t f L F T -> frozen_hours_of t = Some hours -> hours = FrozenHours.mk f F /\ f <= F.
Proof.
  intros Hc. unfold frozen_hours_of, zip_option. destruct (c_grid _ _ _ _ _ Hc) as (_ & Haf & HaL & HaF & _).
  destruct (c_order _ _ _ _ _ Hc) as [[_ HFL] _].
  destruct (Z.le_gt_cases f F) as [HfF|HFf].
  - destruct (proj2 (c_frozen _ _ _ _ _ Hc F)) as [a Ha]; [by split; [|lia]|].
    rewrite (max_bucket_is is_frozen _ F (Some a) Ha); [|done|].
    2:{ intros k [a'|] Hk; [|done]. intros _. by apply (c_frozen _ _ _ _ _ Hc); eexists. }
    destruct (proj2 (c_hours _ _ _ _ _ Hc f)) as [v Hv]; [by split; [|lia]|].
    rewrite (min_bucket_is _ _ f v Hv); [|done|].
    2:{ intros k v' Hk _. by apply (c_hours _ _ _ _ _ Hc); eexists. }
    by intros [= <-].
  - rewrite (max_bucket_none is_frozen); [by destruct (min_bucket _ _)|].
    intros k [a|] Hk; [|done]. destruct (proj1 (c_frozen _ _ _ _ _ Hc k)) as [_ ?]; [by eexists|lia].
Qed.

Lemma written_tranches_consistent t R r0 f L F T tr :
  consistent (with_rows t R) f L F T -> held_from r0 t R -> written_tranches_of t = Some tr ->
  f <= WrittenTranches.first tr /\ r0 <= WrittenTranches.first tr /\ WrittenTranches.through tr = T + TRANCHE.
Proof.
  intros Hc Hheld. unfold written_tranches_of, zip_option. destruct (first_pool_tranche t) as [b|] eqn:Hb; [|done].
  assert (exists p r, Tables.analytic_pool_5min t !! (p, b) = Some r) as (p & r & Hr).
  { unfold first_pool_tranche in Hb.
    pose proof (@best_bucket_list Z.min (fun _ _ => True) ltac:(by split) ltac:(lia) ltac:(done) _ (fun _ : PoolFacts.t N => true)
      (map (fun row => (snd (fst row), snd row)) (tranche_rows t))) as Hl.
    rewrite Hb in Hl. destruct Hl as [(v & Hin & _) _]. apply list_elem_of_fmap in Hin as ([[p b'] r] & [= -> ->] & Hin).
    exists p, r. by apply (elem_of_map_to_list (K := Pubkey * DateTime)). }
  apply (held_written _ _ _ _ _ _ Hheld) in Hr as [Hr Hr0].
  apply (c_rows _ _ _ _ _ Hc) in Hr. pose proof (proj1 (c_tranches _ _ _ _ _ Hc b) Hr) as [Hab Hbr].
  destruct (c_grid _ _ _ _ _ Hc) as (_ & _ & _ & _ & HaT).
  destruct (proj2 (c_tranches _ _ _ _ _ Hc T)) as [a Ha]; [by split; [|lia]|].
  rewrite (max_bucket_is (fun _ => true) (Tables.analytic_tranches t) T a Ha); [|done|].
  2:{ intros k v Hk _. by apply (c_tranches _ _ _ _ _ Hc); eexists. }
  intros [= <-]. simpl. split_and!; [lia|done|done].
Qed.

Lemma offset_duration_nonneg offset : 0 <= offset_duration offset.
Proof. destruct offset as [[]|]; done. Qed.

Lemma Window_duration_HOUR w : exists k, 0 < k /\ Window_duration w = k * HOUR.
Proof. exists (Window_hours w). destruct w; split; vm_compute; reflexivity. Qed.

Lemma offset_HOUR offset : exists k, offset_duration offset = k * HOUR.
Proof. destruct offset as [w|]; [destruct (Window_duration_HOUR w) as (k & _ & Hk); by exists k|by exists 0]. Qed.

(** The hours of a period covered are frozen; its tranches valued. *)
Lemma frozen_period_settled t f L F T hours w offset :
  consistent t f L F T -> frozen_hours_of t = Some hours ->
  let p := FrozenPeriod.of_ hours w offset in
  (FrozenPeriod.is_covered p = true -> hours_settled t (FrozenPeriod.from p) (FrozenPeriod.as_of p)) /\
  aligned HOUR (FrozenPeriod.as_of p) /\ aligned HOUR (FrozenPeriod.from p) /\
  f <= FrozenPeriod.covered_since p /\ FrozenPeriod.as_of p <= F + HOUR.
Proof.
  intros Hc Hh p. destruct (frozen_hours_consistent _ _ _ _ _ _ Hc Hh) as [-> HfF].
  destruct (c_grid _ _ _ _ _ Hc) as (_ & _ & _ & HaF & _). pose proof (offset_duration_nonneg offset) as Ho.
  destruct (offset_HOUR offset) as [k Hk], (Window_duration_HOUR w) as (j & _ & Hj).
  assert (FrozenPeriod.as_of p = F + (1 - k) * HOUR) as Has by (unfold p; simpl; fold HOUR; rewrite Hk; lia).
  assert (FrozenPeriod.from p = F + (1 - k - j) * HOUR) as Hfrom.
  { unfold p in *. simpl in *. fold HOUR in *. rewrite Hj. lia. }
  split_and!.
  - unfold FrozenPeriod.is_covered. intros Hcov%Z.leb_le h Hah Hhr. simpl in Hcov.
    apply (c_frozen _ _ _ _ _ Hc). split; [done|]. split; [unfold p in Hcov; simpl in *; lia|].
    destruct (Z.le_gt_cases h F) as [|Hgt]; [done|]. pose proof (aligned_gap HOUR F h HOUR_pos HaF Hah Hgt).
    unfold p in Hhr. simpl in Hhr. fold HOUR in Hhr. lia.
  - rewrite Has. by apply aligned_add.
  - rewrite Hfrom. by apply aligned_add.
  - done.
  - unfold p. simpl. fold HOUR. lia.
Qed.

Lemma tranche_period_settled t R r0 f L F T tr offset :
  consistent (with_rows t R) f L F T -> held_from r0 t R -> written_tranches_of t = Some tr ->
  let p := TranchePeriod.hour_through tr offset in
  (TranchePeriod.is_covered p = true -> tranches_settled t (TranchePeriod.from p) (TranchePeriod.as_of p)) /\
  r0 <= TranchePeriod.covered_since p /\
  aligned TRANCHE (TranchePeriod.as_of p) /\ aligned TRANCHE (TranchePeriod.from p) /\
  f <= TranchePeriod.covered_since p /\ TranchePeriod.as_of p <= T + TRANCHE.
Proof.
  intros Hc Hheld Hw p. destruct (written_tranches_consistent _ _ _ _ _ _ _ _ Hc Hheld Hw) as (Hfirst & Hr0 & Hthr).
  destruct (c_grid _ _ _ _ _ Hc) as (_ & _ & _ & _ & HaT). pose proof (offset_duration_nonneg offset) as Ho.
  destruct (offset_HOUR offset) as [k Hk]. pose proof HOUR_TRANCHE as HHT.
  assert (TranchePeriod.as_of p = T + (1 - 12 * k) * TRANCHE) as Has.
  { unfold p, TranchePeriod.hour_through. simpl. rewrite Hthr, Hk, HHT. lia. }
  assert (TranchePeriod.from p = T + (1 - 12 * k - 12) * TRANCHE) as Hfrom.
  { unfold p, TranchePeriod.hour_through in *. simpl in *. change (Window_duration Hour) with HOUR. rewrite Has. lia. }
  split_and!.
  - unfold TranchePeriod.is_covered. intros Hcov%Z.leb_le b Hab Hbr. apply (c_tranches _ _ _ _ _ Hc).
    split; [done|]. split; [unfold p in Hcov; simpl in *; lia|].
    destruct (Z.le_gt_cases b T) as [|Hgt]; [done|]. pose proof (aligned_gap TRANCHE T b TRANCHE_pos HaT Hab Hgt).
    unfold p in Hbr. simpl in Hbr. lia.
  - exact Hr0.
  - rewrite Has. by apply aligned_add.
  - rewrite Hfrom. by apply aligned_add.
  - unfold p. simpl. exact Hfirst.
  - unfold p. simpl. lia.
Qed.
End Periods.

(** ** A total and the tranches under it *)

Section Layers.
Context {N O : Type} `{NumericLaws N} `{!ProtocolPeriods O} `{CollationLaws}.
Implicit Types (t : Tables.t N O) (pr : option Protocol).

(** The counts of an amount; with [valued], its fees too. *)
Definition flows (valued : bool) (a : Amounts (N := N)) : Amounts :=
  let '((swaps, _, _), (_, fees, lp, protocol, referral)) := a in
  if valued then ((swaps, 0, 0), (num_zero, fees, lp, protocol, referral))
  else ((swaps, 0, 0), (num_zero, num_zero, num_zero, num_zero, num_zero)).

Lemma flows_add v a b : flows v (amounts_add a b) = amounts_add (flows v a) (flows v b).
Proof.
  destruct a as [[[s1 h1] v1] [[[[x1 f1] l1] p1] r1]], b as [[[s2 h2] v2] [[[[x2 f2] l2] p2] r2]].
  by destruct v; cbn [flows amounts_add]; rewrite ?Z.add_0_l, ?num_add_zero.
Qed.

Lemma flows_sum v l : flows v (amounts_sum l) = amounts_sum (map (flows v) l).
Proof.
  induction l as [|a l IH]; [by destruct v|]. cbn [map]. by rewrite !amounts_sum_cons, flows_add, IH.
Qed.

(** An hour's facts of a pool are those of its tranches. *)
Lemma flows_summed v (g : list (PoolFacts.t N)) :
  (v = true -> forallb PoolFacts.valued g = true) ->
  flows v (fact_amounts (summed_facts g)) = amounts_sum (map (fun f => flows v (fact_amounts f)) g).
Proof.
  intros Hv. transitivity (flows v ((sum_Z (map PoolFacts.swap_count g), 0, 0),
    (num_zero, known (sql_sum (map PoolFacts.fees_usd g)), known (sql_sum (map PoolFacts.lp_fees_usd g)),
     known (sql_sum (map PoolFacts.protocol_fees_usd g)), known (sql_sum (map PoolFacts.referral_fees_usd g))))).
  { destruct v; [|done]. unfold fact_amounts, amounts, fact_row, summed_facts. by rewrite (Hv eq_refl). }
  clear Hv. induction g as [|f g IH]; [by destruct v|]. cbn [map]. rewrite amounts_sum_cons, <-IH, !known_sum.
  unfold fact_amounts, amounts, fact_row, sum_Z.
  by destruct v; cbn [flows foldr amounts_add SwapActivityRow.swaps SwapActivityRow.pool_hours SwapActivityRow.pool_hours_valued
    SwapActivityRow.volume_usd SwapActivityRow.fees_usd SwapActivityRow.lp_fees_usd SwapActivityRow.protocol_fees_usd
    SwapActivityRow.referral_fees_usd]; rewrite ?num_add_zero, ?Z.add_0_l.
Qed.

Lemma protocol_facts_amounts q (h : DateTime) (l : list (PoolFacts.t N)) :
  hour_amounts (HourRow.mk q h (protocol_facts l)) = amounts_sum (map fact_amounts l).
Proof. rewrite <-amounts_facts_row. reflexivity. Qed.

Context t f L F T (from as_of : Z) (Hc : consistent t f L F T).
Context (Hfrom : aligned HOUR from) (Has_of : aligned HOUR as_of) (Hlow : f <= from) (Hhigh : as_of <= F + HOUR).

Definition tranches_between : list ((Pubkey * DateTime) * PoolFacts.t N) :=
  List.filter (fun row => between from as_of (snd (fst row))) (tranche_rows t).
Definition pool_hours_between : list ((Pubkey * DateTime) * PoolFacts.t N) :=
  List.filter (fun row => between from as_of (snd (fst row))) (map_to_list (K := Pubkey * DateTime) (Tables.analytic_pool_hourly t)).

(** An hour of the period holds its tranches whole. *)
Lemma period_hour (h : DateTime) : aligned HOUR h -> from <= h < as_of -> h <= F /\ h + HOUR <= as_of.
Proof.
  intros Ha Hh. destruct (c_grid _ _ _ _ _ Hc) as (_ & _ & _ & HaF & _).
  pose proof (aligned_gap HOUR _ _ HOUR_pos Ha Has_of ltac:(lia)). split; lia.
Qed.

Lemma hour_of_tranche (b : DateTime) :
  from <= b < as_of -> aligned HOUR (hour_bucket b) /\ from <= hour_bucket b < as_of.
Proof.
  intros Hb. destruct (hour_bucket_grid b) as [Ha Hh]. split; [done|].
  pose proof (floor_lower HOUR b from HOUR_pos Hfrom ltac:(lia)) as Hlo.
  change (floor_to HOUR b) with (hour_bucket b) in Hlo. lia.
Qed.

Lemma elem_of_between {V} (m : gmap (Pubkey * DateTime) V) (p : Pubkey) (b : DateTime) r :
  ((p, b), r) ∈ List.filter (fun row => between from as_of (snd (fst row))) (map_to_list (K := Pubkey * DateTime) m) <->
  m !! (p, b) = Some r /\ from <= b < as_of.
Proof.
  rewrite list_elem_of_In, List.filter_In, <-list_elem_of_In. cbn [fst snd]. rewrite not_between_filter.
  by rewrite (elem_of_map_to_list (K := Pubkey * DateTime)).
Qed.

Lemma group_in_period (p : Pubkey) (h : DateTime) :
  aligned HOUR h -> from <= h < as_of -> group_of (p, h) tranches_between = group_of (p, h) (tranche_rows t).
Proof.
  intros Ha Hh. apply group_of_filter. intros [[p' b] r] [= _ Hb]. cbn [fst snd] in *.
  destruct (hour_bucket_grid b) as [_ Hbb]. destruct (period_hour h Ha Hh) as [_ Hend].
  apply not_between_filter. lia.
Qed.

Lemma pool_hour_in_period (p : Pubkey) (h : DateTime) :
  aligned HOUR h -> from <= h < as_of ->
  Tables.analytic_pool_hourly t !! (p, h) = summed_facts <$> nonempty (group_of (p, h) tranches_between).
Proof.
  intros Ha Hh. destruct (period_hour h Ha Hh) as [HF _]. rewrite (c_facts _ _ _ _ _ Hc _ _ HF). unfold hour_total.
  by rewrite groups_lookup, group_in_period.
Qed.

(** The tranches of the period, cut by pool and hour. *)
Lemma pool_hours_tranches (v : bool) :
  (v = true -> forallb PoolFacts.valued (map snd tranches_between) = true) ->
  amounts_sum (map (fun row => flows v (fact_amounts (snd row))) pool_hours_between) =
    amounts_sum (map (fun row => flows v (fact_amounts (snd row))) tranches_between).
Proof.
  intros Hv.
  assert (concat (map (fun k => List.filter (fun row => bool_decide (row_hour row = k)) tranches_between)
    (map fst pool_hours_between)) ≡ₚ tranches_between) as Hp.
  { apply keyed_groups_perm; [apply filter_keys_NoDup, NoDup_fst_map_to_list|].
    intros [[p b] r] Hin. pose proof Hin as [Hr Hb]%elem_of_between. destruct (hour_of_tranche b Hb) as [Ha Hh].
    unfold row_hour. cbn [fst snd]. set (h := hour_bucket b) in *.
    destruct (Tables.analytic_pool_hourly t !! (p, h)) as [x|] eqn:Hx.
    - apply (list_elem_of_fmap_2' fst _ ((p, h), x)); [|done]. by apply elem_of_between.
    - exfalso. rewrite pool_hour_in_period in Hx by done. apply fmap_None in Hx.
      assert (r ∈ group_of (p, h) tranches_between) as Hg; [|destruct (group_of _ _); [by apply not_elem_of_nil in Hg|done]].
      unfold group_of. apply (list_elem_of_fmap_2' snd _ ((p, b), r)); [|done].
      apply list_elem_of_In, List.filter_In. split; [by apply list_elem_of_In|]. by apply bool_decide_eq_true_2. }
  apply (Permutation_map (fun row => flows v (fact_amounts (snd row)))), amounts_sum_perm in Hp. rewrite <-Hp.
  rewrite concat_map, amounts_sum_concat, !map_map. f_equal. apply map_ext_in. intros [[p h] x] Hin.
  apply list_elem_of_In in Hin. pose proof Hin as [Hx Hh]%elem_of_between. cbn [fst snd].
  assert (aligned HOUR h) as Ha by (eapply hour_total_aligned, (c_hourly _ _ _ _ _ Hc); by eexists).
  rewrite pool_hour_in_period in Hx by done. destruct (group_of (p, h) tranches_between) as [|r g] eqn:Hg; [done|].
  injection Hx as <-. rewrite <-Hg, flows_summed; [by unfold group_of; rewrite map_map|].
  intros Hvt. specialize (Hv Hvt). rewrite forallb_forall in *. intros y Hy. apply Hv.
  unfold group_of in Hy. apply in_map_iff in Hy as (row & <- & Hrow). apply in_map. by apply List.filter_In in Hrow as [? _].
Qed.

(** The pools' hours of the period, cut by hour. *)
Lemma protocol_hours_pools :
  amounts_sum (map hour_amounts (hours_between from as_of t)) =
    amounts_sum (map (fun row => fact_amounts (snd row)) pool_hours_between).
Proof.
  assert (concat (map (fun h => List.filter (fun row => bool_decide (snd (fst row) = h)) pool_hours_between)
    (map HourRow.bucket (hours_between from as_of t))) ≡ₚ pool_hours_between) as Hp.
  { apply (keyed_groups_perm (fun row : (Pubkey * DateTime) * PoolFacts.t N => snd (fst row))).
    - unfold hours_between, protocol_hourly. rewrite list_filter_map, map_map.
      change (NoDup (map fst (List.filter (fun kv => between from as_of (fst kv))
        (map_to_list (Tables.analytic_protocol_hourly t))))).
      apply filter_keys_NoDup, NoDup_fst_map_to_list.
    - intros [[p h] x] [Hx Hh]%elem_of_between. cbn [fst snd].
      assert (aligned HOUR h) as Ha by (eapply hour_total_aligned, (c_hourly _ _ _ _ _ Hc); by eexists).
      destruct (period_hour h Ha Hh) as [HF _].
      pose proof (c_protocol_facts _ _ _ _ _ Hc h Ha ltac:(lia)) as Hpf.
      apply (list_elem_of_fmap_2' HourRow.bucket _ (HourRow.mk facts_protocol h (protocol_facts (hourly_rows t h)))); [|done].
      unfold hours_between. apply list_elem_of_In, List.filter_In. split.
      + apply list_elem_of_In. unfold protocol_hourly.
        apply (list_elem_of_fmap_2' (fun kv => HourRow.mk facts_protocol (fst kv) (snd kv)) _
          (h, protocol_facts (hourly_rows t h))); [|done]. by apply elem_of_map_to_list.
      + by apply not_between_filter. }
  apply (Permutation_map (fun row => fact_amounts (snd row))), amounts_sum_perm in Hp. rewrite <-Hp.
  rewrite concat_map, amounts_sum_concat, !map_map. f_equal. apply map_ext_in. intros h Hin.
  apply List.filter_In in Hin as [Hin Hb%not_between_filter]. unfold protocol_hourly in Hin.
  apply in_map_iff in Hin as ([b facts] & <- & Hin). cbn [HourRow.bucket fst snd] in *.
  apply list_elem_of_In, elem_of_map_to_list in Hin.
  destruct (c_protocol _ _ _ _ _ Hc b) as [Ha Hfb]; [by eexists|].
  destruct (period_hour b Ha Hb) as [HF _].
  rewrite (c_protocol_facts _ _ _ _ _ Hc b Ha ltac:(lia)) in Hin. injection Hin as <-.
  rewrite protocol_facts_amounts. unfold hourly_rows. rewrite map_map. f_equal. f_equal.
  unfold pool_hours_between. rewrite filter_implied.
  - apply List.filter_ext. intros row. apply eq_true_iff_eq. by rewrite Z.eqb_eq, bool_decide_eq_true.
  - intros row ->%bool_decide_eq_true. by apply not_between_filter.
Qed.

Lemma protocol_hours_tranches :
  let v := forallb PoolFacts.valued (map snd tranches_between) in
  flows v (amounts_sum (map hour_amounts (hours_between from as_of t))) =
    amounts_sum (map (fun f => flows v (fact_amounts f)) (map snd tranches_between)).
Proof.
  intros v. rewrite protocol_hours_pools, flows_sum, !map_map. by apply pool_hours_tranches.
Qed.

(** The hours frozen, their tranches are valued. *)
Lemma hours_settled_tranches : tranches_settled t from as_of.
Proof.
  intros b Ha Hb. apply (c_tranches _ _ _ _ _ Hc). split; [done|]. split; [lia|].
  destruct (c_grid _ _ _ _ _ Hc) as (_ & _ & _ & _ & HaT). destruct (c_order _ _ _ _ _ Hc) as [_ [? _]].
  destruct (Z.le_gt_cases b T) as [|Hgt]; [done|]. pose proof (aligned_gap TRANCHE T b TRANCHE_pos HaT Ha Hgt). lia.
Qed.

Lemma tranches_of_facts : tranches_of facts_protocol from as_of t = tranches_between.
Proof. unfold tranches_of. apply List.filter_ext. intros row. by rewrite bool_decide_eq_true_2. Qed.
End Layers.

(** ** The answers *)

(** The tables each statement sees: those of the writers' run at that instant.
    The retention policy may have run before the first of the statements, as
    [reachable] has it, not between them. *)
Record served {N O} `{NumericLaws N} `{!AnalyticSql N O} `{!AnalyticSqlLaws N O} `{DurationTruncLaws}
    (writer : Postgres) `{!Snapshots N O} (world : nat -> World (N := N) (O := O)) : Prop := {
  served_from : reachable (world 0%nat);
  served_on : forall k, rtc step (world k) (world (S k));
  served_at : forall k, analytic_at k = Db.tables (db (world k));
}.

Section Served.
Context {N D O : Type} `{NumericLaws N} `{!AnalyticSql N O} `{!AnalyticSqlLaws N O} `{DurationTruncLaws}.
Context (writer : Postgres) `{!Snapshots N O} (world : nat -> World (N := N) (O := O)).
Context `{!ProtocolPeriods O} `{CollationLaws} `{!BigDecimal N} `{!DecimalFromStr D} `{!DecimalOps D}.
Hypothesis Hserved : served writer world.
Notation analytic_at := (analytic_at (N := N) (O := O)).
Notation Query A := (Query RepositoryError A).

Lemma served_steps j k : (j <= k)%nat -> rtc step (world j) (world k).
Proof.
  induction 1 as [|k _ IH]; [reflexivity|]. etrans; [exact IH|]. by apply (served_on _ _ Hserved).
Qed.

(** The tables at a statement, the rows dropped before the first put back. *)
Definition ever_at (k : nat) : Tables.t N O := ever (world k).

Lemma served_ok k : world_ok (world k) /\ dropped (world k) = dropped (world 0%nat).
Proof.
  pose proof (reachable_ok _ (served_from _ _ Hserved)) as Hok.
  destruct (steps_ok _ _ (served_steps 0 k ltac:(lia)) Hok) as (Hk & _ & Hd). by split.
Qed.

Lemma ever_at_rows k : ever_at k = with_rows (analytic_at k) (rows (world k)).
Proof. unfold ever_at, ever. by rewrite (served_at _ _ Hserved). Qed.

Lemma served_consistent k : exists f L F T, consistent (ever_at k) f L F T.
Proof. destruct (served_ok k) as [(f & L & F & T & Hc & _) _]. by exists f, L, F, T. Qed.

Lemma served_held k : held_from (dropped (world 0%nat)) (analytic_at k) (rows (world k)).
Proof.
  destruct (served_ok k) as [(f & L & F & T & _ & _ & _ & Hh & _) <-]. by rewrite (served_at _ _ Hserved).
Qed.

Lemma served_kept j k : (j <= k)%nat -> kept (ever_at j) (ever_at k).
Proof. intros Hjk. destruct (served_ok j) as [Hj _]. by apply (steps_ok _ _ (served_steps j k Hjk) Hj). Qed.

(** The tables agree on a period. *)
Definition same_period (p : ReadPeriod.t) (t t' : Tables.t N O) : Prop :=
  match p with
  | ReadPeriod.Frozen p => same_hours (FrozenPeriod.from p) (FrozenPeriod.as_of p) t t'
  | ReadPeriod.Tranche p => same_tranches (TranchePeriod.from p) (TranchePeriod.as_of p) t t'
  end.

Lemma same_period_trans p t1 t2 t3 : same_period p t1 t2 -> same_period p t2 t3 -> same_period p t1 t3.
Proof.
  destruct p; cbn [same_period].
  - intros [Hp1 Hq1 Hh1] [Hp2 Hq2 Hh2]. split; intros; by rewrite ?Hp2, ?Hp1, ?Hq2, ?Hq1, ?Hh2, ?Hh1.
  - intros [Hr1 Ht1] [Hr2 Ht2]. split; intros; by rewrite ?Hr2, ?Hr1, ?Ht2, ?Ht1.
Qed.
Lemma same_period_sym p t1 t2 : same_period p t1 t2 -> same_period p t2 t1.
Proof. destruct p; cbn [same_period]; intros []; split; intros; symmetry; eauto. Qed.

(** What is settled of a period at a statement, and where it lies on the grid;
    its tranches are still held. *)
Definition settled_at (k : nat) (p : ReadPeriod.t) : Prop :=
  match p with
  | ReadPeriod.Frozen p => hours_settled (analytic_at k) (FrozenPeriod.from p) (FrozenPeriod.as_of p)
  | ReadPeriod.Tranche p => tranches_settled (analytic_at k) (TranchePeriod.from p) (TranchePeriod.as_of p) /\
      dropped (world 0%nat) <= TranchePeriod.from p
  end.
Definition on_grid (p : ReadPeriod.t) : Prop :=
  aligned (ReadPeriod.step p) (ReadPeriod.from p) /\ aligned (ReadPeriod.step p) (ReadPeriod.as_of p).

(** Tranches settled, the rows ever written of them no longer change. *)
Lemma settled_same_ever k j from as_of :
  tranches_settled (analytic_at k) from as_of -> (k <= j)%nat -> same_tranches from as_of (ever_at k) (ever_at j).
Proof.
  intros Hs Hkj. destruct (served_consistent k) as (f & L & F & T & Hc), (served_consistent j) as (f' & L' & F' & T' & Hc').
  eapply settled_same_tranches; [exact Hc|exact Hc'|by apply served_kept|].
  intros b Ha Hb. rewrite ever_at_rows. by apply (Hs b).
Qed.

(** Where they are held, the rows are those ever written. *)
Lemma held_same k from as_of : dropped (world 0%nat) <= from -> same_tranches from as_of (ever_at k) (analytic_at k).
Proof.
  intros Hd. rewrite ever_at_rows. split; [|done]. intros p b Hb.
  rewrite (served_held k p b). by rewrite (proj2 (Z.leb_le _ b)) by lia.
Qed.

Lemma settled_same k j p : settled_at k p -> (k <= j)%nat -> same_period p (analytic_at k) (analytic_at j).
Proof.
  intros Hs Hkj. destruct (served_consistent k) as (f & L & F & T & Hc), (served_consistent j) as (f' & L' & F' & T' & Hc').
  pose proof (served_kept _ _ Hkj) as Hk. destruct p as [p|p]; cbn [settled_at same_period] in *.
  - assert (same_hours (FrozenPeriod.from p) (FrozenPeriod.as_of p) (ever_at k) (ever_at j)) as [Hp Hq Hh].
    { eapply settled_same_hours; [exact Hc|exact Hc'|exact Hk|]. rewrite ever_at_rows. exact Hs. }
    rewrite !ever_at_rows in Hp, Hq, Hh. by split.
  - destruct Hs as [Hs Hd].
    pose proof (held_same k _ (TranchePeriod.as_of p) Hd) as Hk'.
    pose proof (held_same j _ (TranchePeriod.as_of p) Hd) as Hj'.
    pose proof (settled_same_ever k j _ _ Hs Hkj) as Hkj'.
    apply (same_period_trans (ReadPeriod.Tranche p) _ (ever_at k)).
    { by apply (same_period_sym (ReadPeriod.Tranche p)). }
    by apply (same_period_trans (ReadPeriod.Tranche p) _ (ever_at j)).
Qed.

(** Settled at both, at whichever it was asked first. *)
Lemma settled_agree k j k' j' p :
  settled_at k p -> settled_at j p -> (k <= k')%nat -> (j <= j')%nat -> same_period p (analytic_at k') (analytic_at j').
Proof.
  intros Hk Hj Hkk Hjj. destruct (Nat.le_ge_cases k j) as [Hle|Hle].
  - apply (same_period_trans _ _ (analytic_at k)).
    + apply same_period_sym. by apply settled_same.
    + apply settled_same; [done|lia].
  - apply (same_period_trans _ _ (analytic_at j)).
    + apply same_period_sym. apply settled_same; [done|lia].
    + by apply settled_same.
Qed.

(** *** The statements *)

Context (reader : Postgres).

Lemma read_ok {A : Type} (q : Tables.t N O -> gmap Pubkey SeenPool.t -> A) n n' a :
  read q n = (n', Ok a) -> n' = S n /\ a = q (analytic_at n) (pools_at n).
Proof. unfold read. destruct (fault n); [by intros [=]|]. by intros [= <- <-]. Qed.

Lemma query_bind_ok {E A B} (q : Keyset.Query E A) (k : A -> Keyset.Query E B) n n' b :
  query_bind q k n = (n', Ok b) -> exists m a, q n = (m, Ok a) /\ k a m = (n', Ok b).
Proof. unfold query_bind. destruct (q n) as [m [a|e]]; [|by intros [=]]. intros Hk. by exists m, a. Qed.

Lemma query_ret_ok {E A} (a b : A) n n' : @query_ret E A a n = (n', Ok b) -> n' = n /\ b = a.
Proof. by intros [= <- <-]. Qed.

Lemma query_lift_ok {E A} (r : result A E) b n n' : query_lift r n = (n', Ok b) -> n' = n /\ r = Ok b.
Proof. by intros [= <- ->]. Qed.

(** The rows of one statement, read back. *)
Lemma rows_read_ok {A B : Type} (q : Tables.t N O -> gmap Pubkey SeenPool.t -> A) (f : A -> RepositoryResult B) n n' b :
  (let> rows := read q in query_lift (f rows)) n = (n', Ok b) ->
  n' = S n /\ f (q (analytic_at n) (pools_at n)) = Ok b.
Proof.
  intros (m & rows & [-> ->]%read_ok & [-> Hf]%query_lift_ok)%query_bind_ok. done.
Qed.

Lemma frozen_period_read w offset n n' p :
  build_frozen_period (N := N) (O := O) w offset n = (n', Ok (Some p)) ->
  n' = S n /\ exists hours, frozen_hours_of (analytic_at n) = Some hours /\ p = FrozenPeriod.of_ hours w offset.
Proof.
  intros (m & hours & [-> ->]%read_ok & [-> Hp]%query_ret_ok)%query_bind_ok. split; [done|].
  destruct (frozen_hours_of (analytic_at n)) as [hours|]; [|done]. injection Hp as ->. by exists hours.
Qed.

Lemma read_period_read w offset n n' p :
  build_read_period (N := N) (O := O) w offset n = (n', Ok (Some p)) ->
  n' = S n /\ match p with
    | ReadPeriod.Frozen p => w <> Hour /\ exists hours, frozen_hours_of (analytic_at n) = Some hours /\
        p = FrozenPeriod.of_ hours w offset
    | ReadPeriod.Tranche p => w = Hour /\ exists tr, written_tranches_of (analytic_at n) = Some tr /\
        p = TranchePeriod.hour_through tr offset
    end.
Proof.
  assert (forall w', w' <> Hour -> (let> period := build_frozen_period (N := N) (O := O) w' offset in
      query_ret (ReadPeriod.Frozen <$> period)) n = (n', Ok (Some p)) ->
    n' = S n /\ exists p', p = ReadPeriod.Frozen p' /\ exists hours, frozen_hours_of (analytic_at n) = Some hours /\
        p' = FrozenPeriod.of_ hours w' offset) as Hfrozen.
  { intros w' _ (m & fp & Hf & [-> Hp]%query_ret_ok)%query_bind_ok. destruct fp as [fp|]; [|done].
    injection Hp as ->. apply frozen_period_read in Hf as [-> Hf]. split; [done|]. by exists fp. }
  destruct w; cbn [build_read_period]; [|intros Hr; by apply Hfrozen in Hr as (-> & p' & -> & Hr)..].
  intros (m & tr & [-> ->]%read_ok & [-> Hp]%query_ret_ok)%query_bind_ok. split; [done|].
  destruct (written_tranches_of (analytic_at n)) as [tr|]; [|done]. injection Hp as ->. split; [done|]. by exists tr.
Qed.

Lemma read_period_settled w offset n n' p :
  build_read_period (N := N) (O := O) w offset n = (n', Ok (Some p)) ->
  n' = S n /\ on_grid p /\ (ReadPeriod.is_covered p = true -> settled_at n p) /\
  (ReadPeriod.is_covered (ReadPeriod.ending_at p (ReadPeriod.from p)) = true ->
    settled_at n (ReadPeriod.ending_at p (ReadPeriod.from p))).
Proof.
  intros [-> Hp]%read_period_read. split; [done|]. destruct (served_consistent n) as (f & L & F & T & Hc).
  rewrite ever_at_rows in Hc. pose proof (served_held n) as Hheld.
  destruct p as [p|p]; destruct Hp as [_ (x & Hx & ->)]; unfold on_grid; cbn [settled_at ReadPeriod.is_covered ReadPeriod.ending_at
    ReadPeriod.from ReadPeriod.as_of ReadPeriod.step].
  - pose proof (frozen_period_settled _ _ _ _ _ _ w offset Hc Hx) as (Hs & Ha & Hf & Hcov & Has).
    set (p := FrozenPeriod.of_ x w offset) in *. split_and!; [done|done|done|].
    unfold FrozenPeriod.is_covered. cbn [FrozenPeriod.from FrozenPeriod.as_of FrozenPeriod.covered_since].
    intros Hc'%Z.leb_le h Hah Hhr. apply (c_frozen _ _ _ _ _ Hc). split; [done|].
    assert (FrozenPeriod.from p <= FrozenPeriod.as_of p).
    { unfold p. simpl. destruct (Window_duration_HOUR w) as (k & Hk & ->). pose proof HOUR_pos. nia. }
    destruct (c_grid _ _ _ _ _ Hc) as (_ & _ & _ & HaF & _).
    destruct (Z.le_gt_cases h F) as [|Hgt]; [lia|]. pose proof (aligned_gap HOUR F h HOUR_pos HaF Hah Hgt). lia.
  - pose proof (tranche_period_settled _ _ _ _ _ _ _ _ offset Hc Hheld Hx) as (Hs & Hd & Ha & Hf & Hcov & Has).
    set (p := TranchePeriod.hour_through x offset) in *. split_and!; [done|done| |].
    { intros Hcv. split; [by apply Hs|]. unfold TranchePeriod.is_covered in Hcv. apply Z.leb_le in Hcv. lia. }
    unfold TranchePeriod.is_covered. cbn [TranchePeriod.from TranchePeriod.as_of TranchePeriod.covered_since].
    intros Hc'%Z.leb_le. split; [|lia]. intros b Hab Hbr. apply (c_tranches _ _ _ _ _ Hc). split; [done|].
    assert (TranchePeriod.from p <= TranchePeriod.as_of p).
    { unfold p, TranchePeriod.hour_through. simpl. change (Window_duration Hour) with HOUR. pose proof HOUR_pos. lia. }
    destruct (c_grid _ _ _ _ _ Hc) as (_ & _ & _ & _ & HaT).
    destruct (Z.le_gt_cases b T) as [|Hgt]; [lia|]. pose proof (aligned_gap TRANCHE T b TRANCHE_pos HaT Hab Hgt). lia.
Qed.

(** *** The totals and the series answered *)

Definition totals_rows (p : ReadPeriod.t) (w : Window) (pr : option Protocol) (t : Tables.t N O) :
    list (ProtocolSwapActivityRow.t N) :=
  match p with
  | ReadPeriod.Frozen p => select_protocol_totals p w pr t
  | ReadPeriod.Tranche p => select_protocol_totals_in_tranches p pr t
  end.

Definition series_rows (p : ReadPeriod.t) (i : SeriesInterval.t) (pr : option Protocol) (t : Tables.t N O) :
    list (ProtocolSwapBucketRow.t N) :=
  match p, SeriesInterval.frozen_bucket i with
  | ReadPeriod.Frozen p, Some BucketHour => select_protocol_hourly p pr t
  | ReadPeriod.Frozen p, Some bucket => select_protocol_buckets p (width bucket) pr t
  | ReadPeriod.Frozen _, None => []
  | ReadPeriod.Tranche p, _ => select_protocol_tranches p pr t
  end.

(** The items of a read of the totals at a statement. *)
Definition totals_answered (p : ReadPeriod.t) (w : Window) (pr : option Protocol) (k : nat)
    (items : list (ProtocolSwapActivity.t D)) : Prop :=
  if ReadPeriod.is_covered p
  then collect ProtocolSwapActivity_try_from (totals_rows p w pr (analytic_at k)) = Ok items
  else items = [].

Lemma read_totals_ok p w pr n n' (items : list (ProtocolSwapActivity.t D)) :
  read_totals (N := N) (O := O) (Some p) w pr n = (n', Ok items) ->
  (n <= n')%nat /\ totals_answered p w pr n items.
Proof.
  unfold read_totals, totals_answered. destruct p as [p|p]; cbn [ReadPeriod.is_covered totals_rows].
  - destruct (FrozenPeriod.is_covered p); [|by intros [-> ->]%query_ret_ok].
    intros [-> Hi]%(rows_read_ok (fun t _ => select_protocol_totals p w pr t)). split; [lia|exact Hi].
  - destruct (TranchePeriod.is_covered p); [|by intros [-> ->]%query_ret_ok].
    intros [-> Hi]%(rows_read_ok (fun t _ => select_protocol_totals_in_tranches p pr t)). split; [lia|exact Hi].
Qed.

Definition volume_of (items : list (ProtocolSwapActivity.t D)) : option D :=
  opt_bind (total items) (fun total => SwapActivity.volume_usd (SwapActivityTotal.activity total)).

Lemma swap_totals_ok w offset pr n n' (a : SwapTotals.t D) p :
  swap_totals (N := N) (O := O) w offset pr n = (n', Ok a) -> Measured.period (SwapTotals.measured a) = Some p ->
  build_read_period (N := N) (O := O) w offset n = (S n, Ok (Some p)) /\
  totals_answered p w pr (S n) (Measured.items (SwapTotals.measured a)) /\
  let before := ReadPeriod.ending_at p (ReadPeriod.from p) in
  match offset with
  | Some _ => SwapTotals.previous a = None
  | None => exists k items, (S n <= k)%nat /\ totals_answered before w pr k items /\
      SwapTotals.previous a = Some (PreviousVolume.mk (ReadPeriod.is_covered before) (volume_of items))
  end.
Proof.
  intros Hq Hp. unfold swap_totals in Hq. apply query_bind_ok in Hq as (m & period & Hper & Hq).
  apply query_bind_ok in Hq as (m1 & items & Hit & Hq). apply query_bind_ok in Hq as (m2 & before & Hbe & Hq).
  apply query_ret_ok in Hq as [-> ->]. cbn [SwapTotals.measured Measured.period Measured.items SwapTotals.previous] in *.
  subst period. pose proof (proj1 (read_period_read _ _ _ _ _ Hper)) as ->. split; [done|].
  apply read_totals_ok in Hit as [Hle Hit]. split; [exact Hit|]. destruct offset as [o|]; [done|].
  apply read_totals_ok in Hbe as [_ Hbe]. exists m1, before. split_and!; [lia|exact Hbe|done].
Qed.

Lemma list_swap_series_ok w i pr n n' (a : Measured.t (list (ProtocolBucket.t (SwapActivity.t D))) ReadPeriod.t) p :
  SeriesInterval.fits i w = true -> list_swap_series (N := N) (O := O) w i pr n = (n', Ok a) ->
  Measured.period a = Some p ->
  build_read_period (N := N) (O := O) w None n = (S n, Ok (Some p)) /\
  collect ProtocolBucket_try_from (series_rows p i pr (analytic_at (S n))) = Ok (Measured.items a).
Proof.
  intros Hfit Hq Hp. unfold list_swap_series in Hq.
  destruct (SeriesInterval.frozen_bucket i) as [b|] eqn:Hb.
  - assert (w <> Hour) as Hw by (destruct i, w; done).
    apply query_bind_ok in Hq as (m & a' & Hq & [-> ->]%query_ret_ok).
    cbn [Measured.period Measured.items] in *. unfold list_swap_buckets in Hq.
    apply query_bind_ok in Hq as (m1 & period & Hper & Hq). apply query_bind_ok in Hq as (m2 & items & Hit & Hq).
    apply query_ret_ok in Hq as [-> ->]. cbn [Measured.period Measured.items] in *.
    destruct period as [fp|]; [|done]. injection Hp as <-.
    pose proof (proj1 (frozen_period_read _ _ _ _ _ Hper)) as ->. split.
    { unfold build_read_period. destruct w; [done|..]; unfold query_bind; by rewrite Hper. }
    cbn [series_rows]. rewrite Hb. destruct b.
    + by apply (rows_read_ok (fun t _ => select_protocol_hourly fp pr t)) in Hit as [_ Hit].
    + by apply (rows_read_ok (fun t _ => select_protocol_buckets fp (width BucketSixHours) pr t)) in Hit as [_ Hit].
    + by apply (rows_read_ok (fun t _ => select_protocol_buckets fp (width BucketDay) pr t)) in Hit as [_ Hit].
  - assert (w = Hour) as -> by (destruct i, w; done).
    apply query_bind_ok in Hq as (m & period & Hper & Hq). apply query_bind_ok in Hq as (m2 & items & Hit & Hq).
    apply query_ret_ok in Hq as [-> ->]. cbn [Measured.period Measured.items] in *.
    destruct period as [tp|]; [|done]. injection Hp as <-. unfold build_last_hour in Hper.
    apply query_bind_ok in Hper as (m1 & tr & Htr & Hper). pose proof Htr as [-> ->]%read_ok.
    apply query_ret_ok in Hper as [-> Hper]. split.
    { cbn [build_read_period]. unfold query_bind. rewrite Htr. unfold query_ret. do 2 f_equal.
      destruct (written_tranches_of (analytic_at n)); [|done]. by injection Hper as ->. }
    by apply (rows_read_ok (fun t _ => select_protocol_tranches tp pr t)) in Hit as [_ Hit].
Qed.

(** *** Asked again *)

(** The number of pools told with the totals of a frozen period: a row of
    another table. *)
Definition pools_counted (p : ReadPeriod.t) (w : Window) (k : nat) : option Z :=
  match p with
  | ReadPeriod.Frozen p => protocol_periods (Tables.others (analytic_at k)) !!
      (facts_protocol, Window_as_str w, FrozenPeriod.last_hour p)
  | ReadPeriod.Tranche _ => None
  end.

(** The totals with that count. *)
Definition counted_totals (p : FrozenPeriod.t) (pr : option Protocol) (count : option Z) (t : Tables.t N O) :
    list (ProtocolSwapActivityRow.t N) :=
  map (fun g => ProtocolSwapActivityRow.mk (fst g) (sum_rows (map hour_row (snd g))) (sql_max (map (fun _ => count) (snd g))))
    (group_by text_ltb HourRow.protocol (period_rows p pr t)).

Lemma totals_counted p w pr k :
  select_protocol_totals p w pr (analytic_at k) =
    counted_totals p pr (pools_counted (ReadPeriod.Frozen p) w k) (analytic_at k).
Proof.
  unfold select_protocol_totals, counted_totals. fold (period_rows p pr (analytic_at k)).
  apply map_ext_in. intros [q hours] Hin. cbn [fst snd]. do 2 f_equal. apply map_ext_in. intros h Hh.
  unfold group_by in Hin. apply in_map_iff in Hin as (q' & [= <- <-] & _). apply List.filter_In in Hh as [Hh _].
  unfold period_rows in Hh. apply List.filter_In in Hh as [Hh _]. unfold protocol_hourly in Hh.
  by apply in_map_iff in Hh as (kv & <- & _).
Qed.

Lemma totals_rows_counted p w pr k k' :
  same_period p (analytic_at k) (analytic_at k') -> pools_counted p w k = pools_counted p w k' ->
  totals_rows p w pr (analytic_at k') = totals_rows p w pr (analytic_at k).
Proof.
  destruct p as [p|p]; cbn [same_period totals_rows]; intros Hs Hn; [|by apply tranche_totals_same].
  rewrite !totals_counted, Hn. apply group_by_same; [apply _| |by apply period_rows_same].
  intros q rows rows' Hp. cbn [fst snd]. f_equal; [by apply sum_rows_Permutation, Permutation_map|].
  rewrite !map_const. by rewrite Hp.
Qed.

(** What a total says of a protocol, the number of its pools apart. *)
Definition measure (item : ProtocolSwapActivity.t D) : Protocol * SwapActivity.t D :=
  (ProtocolSwapActivity.protocol item, ProtocolSwapActivity.activity item).

Definition measure_try_from (row : string * SwapActivityRow.t N) : RepositoryResult (Protocol * SwapActivity.t D) :=
  let? protocol := Parser.parse_protocol (fst row) in
  let? activity := SwapActivity_try_from (snd row) in
  Ok (protocol, activity).

Lemma collect_measures rows (items : list (ProtocolSwapActivity.t D)) :
  collect ProtocolSwapActivity_try_from rows = Ok items ->
  collect measure_try_from (totals_of rows) = Ok (map measure items).
Proof.
  revert items. induction rows as [|row rows IH]; intros items; [by intros [= <-]|].
  cbn [collect totals_of map]. unfold ProtocolSwapActivity_try_from at 1, measure_try_from at 1. cbn [fst snd].
  destruct (Parser.parse_protocol _) as [q|e]; [|done]. cbn [result_bind].
  destruct (SwapActivity_try_from _) as [a|e]; [|done]. cbn [result_bind].
  destruct (collect ProtocolSwapActivity_try_from rows) as [items'|e]; [|done]. cbn [result_bind].
  intros [= <-]. fold (totals_of rows). by rewrite (IH _ eq_refl).
Qed.

Lemma totals_rows_same p w pr t t' :
  same_period p t t' -> totals_of (totals_rows p w pr t') = totals_of (totals_rows p w pr t).
Proof.
  destruct p as [p|p]; cbn [same_period totals_rows]; intros Hs; [by apply totals_same|].
  by rewrite (tranche_totals_same p pr _ _ Hs).
Qed.

Lemma series_rows_same p i pr t t' : same_period p t t' -> series_rows p i pr t' = series_rows p i pr t.
Proof.
  destruct p as [p|p]; cbn [same_period series_rows]; intros Hs; [|by apply series_tranches_same].
  destruct (SeriesInterval.frozen_bucket i) as [[]|]; [|by apply series_buckets_same..|done].
  by apply series_hourly_same.
Qed.

Lemma volume_of_measures (items items' : list (ProtocolSwapActivity.t D)) :
  map measure items = map measure items' -> volume_of items = volume_of items'.
Proof.
  intros Hm. assert (map ProtocolSwapActivity.activity items = map ProtocolSwapActivity.activity items') as Ha.
  { apply (f_equal (map snd)) in Hm. by rewrite !map_map in Hm. }
  unfold volume_of, total. destruct items as [|i items], items' as [|i' items']; try done.
  cbn [opt_bind]. unfold SwapActivityTotal.activity. by rewrite Ha.
Qed.

Lemma totals_answered_same p w pr k k' (items items' : list (ProtocolSwapActivity.t D)) :
  totals_answered p w pr k items -> totals_answered p w pr k' items' ->
  (ReadPeriod.is_covered p = true -> same_period p (analytic_at k) (analytic_at k')) ->
  map measure items = map measure items'.
Proof.
  unfold totals_answered. destruct (ReadPeriod.is_covered p); [|by intros -> ->].
  intros Hi%collect_measures Hi'%collect_measures Hs.
  rewrite (totals_rows_same p w pr _ _ (Hs eq_refl)), Hi in Hi'. by injection Hi'.
Qed.

Lemma totals_answered_whole p w pr k k' (items items' : list (ProtocolSwapActivity.t D)) :
  totals_answered p w pr k items -> totals_answered p w pr k' items' ->
  (ReadPeriod.is_covered p = true -> same_period p (analytic_at k) (analytic_at k')) ->
  pools_counted p w k = pools_counted p w k' -> items = items'.
Proof.
  unfold totals_answered. destruct (ReadPeriod.is_covered p); [|by intros -> ->].
  intros Hi Hi' Hs Hn. rewrite (totals_rows_counted _ _ _ _ _ (Hs eq_refl) Hn), Hi in Hi'. by injection Hi'.
Qed.

(** *** Added up *)

Lemma fitting_width i w bucket :
  SeriesInterval.fits i w = true -> SeriesInterval.frozen_bucket i = Some bucket ->
  0 < width bucket /\ exists k, Window_duration w = k * width bucket.
Proof.
  intros Hf Hb. split; [by destruct bucket|]. exists (Window_duration w / width bucket).
  destruct i, w; try discriminate; injection Hb as <-; vm_compute; reflexivity.
Qed.

Lemma frozen_series_adds_up fp w i pr t t' row :
  SeriesInterval.fits i w = true -> w <> Hour -> FrozenPeriod.as_of fp - FrozenPeriod.from fp = Window_duration w ->
  FrozenPeriod.is_covered fp = true -> same_hours (FrozenPeriod.from fp) (FrozenPeriod.as_of fp) t t' ->
  row ∈ select_protocol_totals fp w pr t ->
  adds_up (rows_of (ProtocolSwapActivityRow.protocol row) (series_rows (ReadPeriod.Frozen fp) i pr t'))
    (ProtocolSwapActivityRow.activity row).
Proof.
  intros Hfit Hw Hlen Hcov Hs Hrow. unfold adds_up. rewrite (total_amounts _ _ _ _ _ Hrow).
  set (q := ProtocolSwapActivityRow.protocol row).
  assert (amounts_sum (map amounts (rows_of q (series_rows (ReadPeriod.Frozen fp) i pr t'))) =
    amounts_sum (map hour_amounts (List.filter (of_protocol q) (period_rows fp pr t')))) as ->.
  { cbn [series_rows]. destruct (SeriesInterval.frozen_bucket i) as [b|] eqn:Hb; [|by destruct i, w].
    destruct (fitting_width _ _ _ Hfit Hb) as (Hpos & k & Hk). rewrite Hk in Hlen.
    destruct b; [by apply hourly_amounts|by eapply buckets_amounts..]. }
  by apply amounts_sum_perm, Permutation_map, filter_Permutation, period_rows_same.
Qed.

Lemma tranche_series_adds_up tp i pr t t' R r0 f L F T row :
  consistent (with_rows t' R) f L F T -> held_from r0 t' R -> on_grid (ReadPeriod.Tranche tp) ->
  TranchePeriod.is_covered tp = true -> same_tranches (TranchePeriod.from tp) (TranchePeriod.as_of tp) t t' ->
  row ∈ select_protocol_totals_in_tranches tp pr t ->
  adds_up (rows_of (ProtocolSwapActivityRow.protocol row) (series_rows (ReadPeriod.Tranche tp) i pr t'))
    (ProtocolSwapActivityRow.activity row).
Proof.
  intros Hc Hheld [Hf Ha] Hcov Hs Hrow. unfold adds_up. rewrite (tranche_total_amounts _ _ _ _ Hrow).
  cbn [series_rows]. rewrite tranches_amounts; [|done|done|done| |].
  - by apply amounts_sum_perm, Permutation_map, tranches_of_same.
  - intros [[p b] r] Hr. simpl. apply (elem_of_map_to_list (K := Pubkey * DateTime)) in Hr.
    apply (held_written _ _ _ _ _ _ Hheld) in Hr as [Hr _].
    by apply (c_rows _ _ _ _ _ Hc), (c_tranches _ _ _ _ _ Hc) in Hr as [? _].
  - by apply list_elem_of_fmap in Hrow as (q & -> & Hq).
Qed.

Lemma period_length w offset n n' fp :
  build_read_period (N := N) (O := O) w offset n = (n', Ok (Some (ReadPeriod.Frozen fp))) ->
  w <> Hour /\ FrozenPeriod.as_of fp - FrozenPeriod.from fp = Window_duration w.
Proof. intros [_ (Hw & hours & _ & ->)]%read_period_read. split; [done|]. unfold FrozenPeriod.of_. simpl. lia. Qed.

(** *** Down to the tranches *)

Lemma protocol_hourly_protocol (t : Tables.t N O) h : h ∈ protocol_hourly t -> HourRow.protocol h = facts_protocol.
Proof. by intros ([b facts] & -> & _)%list_elem_of_fmap. Qed.

(** The hours a protocol's total is read from: all of the period. *)
Lemma total_hours fp w pr (t : Tables.t N O) row :
  row ∈ select_protocol_totals fp w pr t ->
  ProtocolSwapActivityRow.protocol row = facts_protocol /\
  amounts (ProtocolSwapActivityRow.activity row) =
    amounts_sum (map hour_amounts (hours_between (FrozenPeriod.from fp) (FrozenPeriod.as_of fp) t)).
Proof.
  intros Hrow. rewrite (total_amounts _ _ _ _ _ Hrow). set (q := ProtocolSwapActivityRow.protocol row).
  destruct (proj1 (totals_protocols fp w pr t q)) as (h & Hh & Hq); [by exists row|].
  apply list_elem_of_In, List.filter_In in Hh as [Hh Hb]. apply andb_true_iff in Hb as [_ Hb].
  apply list_elem_of_In, protocol_hourly_protocol in Hh. rewrite Hh in Hq, Hb. split; [done|]. do 2 f_equal.
  unfold period_rows. rewrite filter_and. fold (hours_between (FrozenPeriod.from fp) (FrozenPeriod.as_of fp) t).
  assert (forall h', h' ∈ hours_between (FrozenPeriod.from fp) (FrozenPeriod.as_of fp) t ->
    HourRow.protocol h' = facts_protocol) as Hall.
  { intros h' [Hh' _]%list_elem_of_In%List.filter_In. by apply (protocol_hourly_protocol t), list_elem_of_In. }
  rewrite (filter_all_true (fun h' => of_bind pr (HourRow.protocol h'))).
  - apply filter_all_true. intros h' Hh'. apply bool_decide_eq_true. by rewrite (Hall _ Hh').
  - intros h' Hh'. by rewrite (Hall _ Hh').
Qed.

Lemma flows_Permutation (facts facts' : list (PoolFacts.t N)) :
  facts ≡ₚ facts' ->
  forallb PoolFacts.valued facts = forallb PoolFacts.valued facts' /\
  forall v, amounts_sum (map (fun f => flows v (fact_amounts f)) facts) =
    amounts_sum (map (fun f => flows v (fact_amounts f)) facts').
Proof.
  intros Hp. split; [|intros v; by apply amounts_sum_perm, Permutation_map].
  induction Hp as [|a l l' _ IH|a b l|l l' l'' _ IH _ IH']; cbn [forallb]; [done|by rewrite IH| |congruence].
  by rewrite !andb_assoc, (andb_comm (PoolFacts.valued a)).
Qed.

(** The hours of a period frozen and covered are those of the rows ever written. *)
Lemma frozen_hours_ever n fp w offset hours :
  frozen_hours_of (analytic_at n) = Some hours -> fp = FrozenPeriod.of_ hours w offset -> FrozenPeriod.is_covered fp = true ->
  tranches_settled (analytic_at n) (FrozenPeriod.from fp) (FrozenPeriod.as_of fp) /\
  let facts := map snd (tranches_of facts_protocol (FrozenPeriod.from fp) (FrozenPeriod.as_of fp) (ever_at n)) in
  flows (forallb PoolFacts.valued facts)
      (amounts_sum (map hour_amounts (hours_between (FrozenPeriod.from fp) (FrozenPeriod.as_of fp) (analytic_at n)))) =
    amounts_sum (map (fun f => flows (forallb PoolFacts.valued facts) (fact_amounts f)) facts).
Proof.
  intros Hh -> Hcov. destruct (served_consistent n) as (f & L & F & T & Hc). rewrite ever_at_rows in *.
  destruct (frozen_period_settled _ _ _ _ _ _ w offset Hc Hh) as (_ & Has & Hfrom & Hlow & Hhigh).
  set (fp := FrozenPeriod.of_ hours w offset) in *. unfold FrozenPeriod.is_covered in Hcov. apply Z.leb_le in Hcov.
  split.
  - intros b Ha Hb. assert (tranches_settled (with_rows (analytic_at n) (rows (world n))) (FrozenPeriod.from fp) (FrozenPeriod.as_of fp)) as Hs
      by (eapply hours_settled_tranches; [exact Hc|lia|lia]). exact (Hs b Ha Hb).
  - cbn zeta. rewrite tranches_of_facts.
    exact (protocol_hours_tranches _ _ _ _ _ _ _ Hc Hfrom Has ltac:(lia) ltac:(lia)).
Qed.

(** *** A pool's *)

Definition pool_total_row (p : ReadPeriod.t) (pool : Pubkey) (t : Tables.t N O) (pools : gmap Pubkey SeenPool.t) :
    option (SwapActivityRow.t N) :=
  match p with
  | ReadPeriod.Frozen p => select_pool_totals p pool t pools
  | ReadPeriod.Tranche p => select_pool_totals_in_tranches p pool t pools
  end.

Definition pool_series_rows (p : ReadPeriod.t) (i : SeriesInterval.t) (pool : Pubkey) (t : Tables.t N O)
    (pools : gmap Pubkey SeenPool.t) : list (PoolSwapBucketRow.t N) :=
  match p, SeriesInterval.frozen_bucket i with
  | ReadPeriod.Frozen p, Some BucketHour => select_pool_hourly p pool t pools
  | ReadPeriod.Frozen p, Some bucket => select_pool_buckets p (width bucket) pool t pools
  | ReadPeriod.Frozen _, None => []
  | ReadPeriod.Tranche p, _ => select_pool_tranches p pool t pools
  end.

Lemma pool_totals_ok w pool n n' (a : Measured.t (list (SwapActivity.t D)) ReadPeriod.t) p :
  pool_swap_totals (N := N) (O := O) w pool n = (n', Ok a) -> Measured.period a = Some p ->
  ReadPeriod.is_covered p = true ->
  build_read_period (N := N) (O := O) w None n = (S n, Ok (Some p)) /\
  exists items, Measured.items a = option_list items /\
    transpose SwapActivity_try_from (pool_total_row p pool (analytic_at (S n)) (pools_at (S n))) = Ok items.
Proof.
  intros Hq Hp Hcov. unfold pool_swap_totals in Hq. apply query_bind_ok in Hq as (m & period & Hper & Hq).
  apply query_bind_ok in Hq as (m1 & items & Hit & Hq). apply query_ret_ok in Hq as [-> ->].
  cbn [Measured.period Measured.items] in *. subst period. pose proof (proj1 (read_period_read _ _ _ _ _ Hper)) as ->.
  split; [done|]. exists items. split; [done|].
  destruct p as [p|p]; cbn [ReadPeriod.is_covered pool_total_row] in *; rewrite Hcov in Hit.
  - by apply (rows_read_ok (select_pool_totals p pool)) in Hit as [_ Hit].
  - by apply (rows_read_ok (select_pool_totals_in_tranches p pool)) in Hit as [_ Hit].
Qed.

Lemma pool_series_ok w i pool n n' (a : Measured.t (list (SwapBucket.t D)) ReadPeriod.t) p :
  SeriesInterval.fits i w = true -> list_pool_swap_series (N := N) (O := O) w i pool n = (n', Ok a) ->
  Measured.period a = Some p ->
  build_read_period (N := N) (O := O) w None n = (S n, Ok (Some p)) /\
  collect PoolSwapBucket_try_from (pool_series_rows p i pool (analytic_at (S n)) (pools_at (S n))) =
    Ok (Measured.items a).
Proof.
  intros Hfit Hq Hp. unfold list_pool_swap_series in Hq. apply query_bind_ok in Hq as (m & period & Hper & Hq).
  apply query_bind_ok in Hq as (m1 & items & Hit & Hq). apply query_ret_ok in Hq as [-> ->].
  cbn [Measured.period Measured.items] in *. subst period. pose proof Hper as [-> Hw]%read_period_read. split; [done|].
  destruct p as [p|p], (SeriesInterval.frozen_bucket i) as [[]|] eqn:Hb; destruct Hw as [Hw _];
    try (exfalso; by destruct i, w); cbn [pool_series_rows]; rewrite ?Hb.
  - by apply (rows_read_ok (select_pool_hourly p pool)) in Hit as [_ Hit].
  - by apply (rows_read_ok (select_pool_buckets p (width BucketSixHours) pool)) in Hit as [_ Hit].
  - by apply (rows_read_ok (select_pool_buckets p (width BucketDay) pool)) in Hit as [_ Hit].
  - by apply (rows_read_ok (select_pool_tranches p pool)) in Hit as [_ Hit].
Qed.

Lemma pool_total_same p pool t t' pools pools' :
  same_period p t t' -> pools' !! pool = pools !! pool ->
  pool_total_row p pool t' pools' = pool_total_row p pool t pools.
Proof.
  destruct p as [p|p]; cbn [same_period pool_total_row].
  - intros Hs Hp. unfold select_pool_totals.
    destruct (pool_facts_same hour_bucket _ _ pool _ _ _ _ (FrozenPeriod.from p) pools pools'
      (s_pool _ _ _ _ Hs pool) (s_hours _ _ _ _ Hs) ltac:(lia) Hp) as [Hf ->]. by apply pool_buckets_ext.
  - intros Hs Hp. unfold select_pool_totals_in_tranches.
    destruct (pool_facts_same tranche_bucket _ _ pool _ _ _ _ (TranchePeriod.from p) pools pools'
      (s_rows _ _ _ _ Hs pool) (s_tranches _ _ _ _ Hs) ltac:(lia) Hp) as [Hf ->]. by apply pool_buckets_ext.
Qed.

Lemma pool_rows_sum w i n n' p pool t pools :
  SeriesInterval.fits i w = true -> build_read_period (N := N) (O := O) w None n = (n', Ok (Some p)) ->
  ReadPeriod.is_covered p = true ->
  sums_to (pool_series_rows p i pool t pools) (pool_total_row p pool t pools).
Proof.
  intros Hfit Hb Hcov. destruct p as [p|p]; cbn [pool_series_rows pool_total_row ReadPeriod.is_covered] in *;
    [|by apply pool_tranches_sum].
  destruct (period_length _ _ _ _ _ Hb) as [Hw Hlen].
  destruct (SeriesInterval.frozen_bucket i) as [b|] eqn:Hbk; [|by destruct i, w].
  destruct (fitting_width _ _ _ Hfit Hbk) as (Hpos & k & Hk). rewrite Hk in Hlen.
  destruct b; [by apply pool_hourly_sum|by eapply pool_wide_sum..].
Qed.

(** C31: a total is the sum of its series. Over a period the facts cover, the
    counts and the amounts of a protocol's total are the sums of those of its
    rows in the series, at every step the window is cut at, whichever of the two
    was asked first and whatever cycles were written between them; an amount
    unknown counts 0. *)
Theorem swap_series_add_up w i pr n n' m m' (totals : SwapTotals.t D)
    (series : Measured.t (list (ProtocolBucket.t (SwapActivity.t D))) ReadPeriod.t) p :
  SeriesInterval.fits i w = true ->
  swap_totals (N := N) (O := O) w None pr n = (n', Ok totals) ->
  list_swap_series (N := N) (O := O) w i pr m = (m', Ok series) ->
  Measured.period (SwapTotals.measured totals) = Some p -> Measured.period series = Some p ->
  ReadPeriod.is_covered p = true ->
  exists total_rows series_rows,
    collect ProtocolSwapActivity_try_from total_rows = Ok (Measured.items (SwapTotals.measured totals)) /\
    collect ProtocolBucket_try_from series_rows = Ok (Measured.items series) /\
    forall row, row ∈ total_rows ->
      adds_up (rows_of (ProtocolSwapActivityRow.protocol row) series_rows) (ProtocolSwapActivityRow.activity row).
Proof.
  intros Hfit Ht Hs Hpt Hps Hcov. destruct (swap_totals_ok _ _ _ _ _ _ _ Ht Hpt) as (Hbt & Hit & _).
  destruct (list_swap_series_ok _ _ _ _ _ _ _ Hfit Hs Hps) as [Hbs His].
  unfold totals_answered in Hit. rewrite Hcov in Hit.
  exists (totals_rows p w pr (analytic_at (S n))), (series_rows p i pr (analytic_at (S m))).
  split_and!; [exact Hit|exact His|]. intros row Hrow.
  destruct (read_period_settled _ _ _ _ _ Hbt) as (_ & Hgrid & Hset & _).
  destruct (read_period_settled _ _ _ _ _ Hbs) as (_ & _ & Hset' & _).
  pose proof (settled_agree _ _ (S n) (S m) _ (Hset Hcov) (Hset' Hcov) ltac:(lia) ltac:(lia)) as Hsame.
  destruct p as [fp|tp].
  - destruct (period_length _ _ _ _ _ Hbt) as [Hw Hlen]. by eapply frozen_series_adds_up.
  - destruct (served_consistent (S m)) as (f & L & F & T & Hc). rewrite ever_at_rows in Hc.
    eapply tranche_series_adds_up; [exact Hc|apply served_held|done..].
Qed.

(** C32: a measure is final. Two answers over the same period, asked at any two
    instants while cycles are written, tell the same swaps, amounts and pool
    hours of every protocol and the same of the window before; and the same
    number of pools too, the whole answers then equal, if that number of a
    frozen period, a row of another table, stands the same at the two (the last
    hour's is counted in its tranches). Two series are the same, when the facts
    cover the period. *)
Theorem measures_are_final w pr n n' m m' p :
  (forall offset (a b : SwapTotals.t D),
    swap_totals (N := N) (O := O) w offset pr n = (n', Ok a) ->
    swap_totals (N := N) (O := O) w offset pr m = (m', Ok b) ->
    Measured.period (SwapTotals.measured a) = Some p -> Measured.period (SwapTotals.measured b) = Some p ->
    map measure (Measured.items (SwapTotals.measured a)) = map measure (Measured.items (SwapTotals.measured b)) /\
    SwapTotals.previous a = SwapTotals.previous b /\
    (pools_counted p w (S n) = pools_counted p w (S m) -> a = b)) /\
  (forall i (a b : Measured.t (list (ProtocolBucket.t (SwapActivity.t D))) ReadPeriod.t),
    SeriesInterval.fits i w = true ->
    list_swap_series (N := N) (O := O) w i pr n = (n', Ok a) ->
    list_swap_series (N := N) (O := O) w i pr m = (m', Ok b) ->
    Measured.period a = Some p -> Measured.period b = Some p -> ReadPeriod.is_covered p = true -> a = b).
Proof.
  split.
  - intros offset a b Ha Hb Hpa Hpb. destruct (swap_totals_ok _ _ _ _ _ _ _ Ha Hpa) as (Hba & Hia & Hva).
    destruct (swap_totals_ok _ _ _ _ _ _ _ Hb Hpb) as (Hbb & Hib & Hvb).
    destruct (read_period_settled _ _ _ _ _ Hba) as (_ & _ & Hsa & Hsa').
    destruct (read_period_settled _ _ _ _ _ Hbb) as (_ & _ & Hsb & Hsb').
    assert (ReadPeriod.is_covered p = true -> same_period p (analytic_at (S n)) (analytic_at (S m))) as Hsame.
    { intros Hcov. apply (settled_agree n m); auto. }
    assert (SwapTotals.previous a = SwapTotals.previous b) as Hprev.
    { destruct offset as [o|]; [congruence|]. destruct Hva as (k & ia & Hk & Hia' & ->), Hvb as (j & ib & Hj & Hib' & ->).
      do 2 f_equal. apply volume_of_measures. eapply totals_answered_same; [exact Hia'|exact Hib'|].
      intros Hcov. apply (settled_agree n m); [auto|auto|lia|lia]. }
    split_and!; [by eapply totals_answered_same|exact Hprev|]. intros Hn.
    pose proof (totals_answered_whole _ _ _ _ _ _ _ Hia Hib Hsame Hn) as Hitems.
    destruct a as [[pa ia] va], b as [[pb ib] vb]. cbn [SwapTotals.measured SwapTotals.previous Measured.period Measured.items] in *.
    congruence.
  - intros i a b Hfit Ha Hb Hpa Hpb Hcov. destruct (list_swap_series_ok _ _ _ _ _ _ _ Hfit Ha Hpa) as [Hba Hia].
    destruct (list_swap_series_ok _ _ _ _ _ _ _ Hfit Hb Hpb) as [Hbb Hib].
    destruct (read_period_settled _ _ _ _ _ Hba) as (_ & _ & Hsa & _).
    destruct (read_period_settled _ _ _ _ _ Hbb) as (_ & _ & Hsb & _).
    pose proof (settled_agree n m (S n) (S m) p (Hsa Hcov) (Hsb Hcov) ltac:(lia) ltac:(lia)) as Hsame.
    rewrite (series_rows_same p i pr _ _ Hsame) in Hib. destruct a, b. cbn [Measured.period Measured.items] in *. congruence.
Qed.

(** C27: a total is made of its tranches. Over a period the facts cover, the
    swaps of a protocol's total are those of the five-minute facts written of its
    pools in the period, by then or by any later statement, those the retention
    policy had dropped before the first statement included, though they went
    through the pools' hours and the protocol's; and so are its fees, when every
    one of those facts is valued. Where the period begins after what was dropped,
    they are the facts the table holds. *)
Theorem totals_are_their_tranches w offset pr n n' j (a : SwapTotals.t D) p :
  swap_totals (N := N) (O := O) w offset pr n = (n', Ok a) -> (S n <= j)%nat ->
  Measured.period (SwapTotals.measured a) = Some p -> ReadPeriod.is_covered p = true ->
  exists rows, collect ProtocolSwapActivity_try_from rows = Ok (Measured.items (SwapTotals.measured a)) /\
    forall row, row ∈ rows ->
      let facts := map snd (tranches_of (ProtocolSwapActivityRow.protocol row)
        (ReadPeriod.from p) (ReadPeriod.as_of p) (ever_at j)) in
      let valued := forallb PoolFacts.valued facts in
      flows valued (amounts (ProtocolSwapActivityRow.activity row)) =
        amounts_sum (map (fun f => flows valued (fact_amounts f)) facts) /\
      (dropped (world 0%nat) <= ReadPeriod.from p ->
        facts ≡ₚ map snd (tranches_of (ProtocolSwapActivityRow.protocol row)
          (ReadPeriod.from p) (ReadPeriod.as_of p) (analytic_at j))).
Proof.
  intros Ha Hj Hp Hcov. destruct (swap_totals_ok _ _ _ _ _ _ _ Ha Hp) as (Hb & Hit & _).
  unfold totals_answered in Hit. rewrite Hcov in Hit. exists (totals_rows p w pr (analytic_at (S n))).
  split; [exact Hit|]. intros row Hrow facts valued. split.
  2:{ intros Hd. apply Permutation_map, Permutation_sym, tranches_of_same. by apply held_same. }
  destruct (read_period_settled _ _ _ _ _ Hb) as (_ & Hgrid & Hset & _). specialize (Hset Hcov).
  destruct p as [fp|tp]; cbn [totals_rows ReadPeriod.from ReadPeriod.as_of ReadPeriod.is_covered] in *.
  - destruct (total_hours _ _ _ _ _ Hrow) as [Hq ->].
    pose proof (settled_same n (S n) (ReadPeriod.Frozen fp) Hset ltac:(lia)) as Hsame.
    rewrite (amounts_sum_perm _ _ (Permutation_map hour_amounts (hours_between_same _ _ _ _ Hsame))).
    apply read_period_read in Hb as [_ (_ & hours & Hh & ->)].
    set (fp := FrozenPeriod.of_ hours w offset) in *.
    destruct (frozen_hours_ever n fp w offset hours Hh eq_refl Hcov) as [Hst Hfl].
    pose proof (Permutation_map snd (tranches_of_same facts_protocol _ _ _ _ (settled_same_ever n j _ _ Hst ltac:(lia)))) as Hperm.
    unfold facts, valued, facts. rewrite Hq. destruct (flows_Permutation _ _ Hperm) as [-> Hf]. by rewrite Hf.
  - rewrite (tranche_total_amounts _ _ _ _ Hrow), flows_sum. unfold facts, valued, facts. rewrite !map_map.
    destruct Hset as [Hset Hd]. pose proof (settled_same_ever n j _ _ Hset ltac:(lia)) as Hsame2.
    pose proof (settled_same_ever n (S n) _ _ Hset ltac:(lia)) as Hsame1.
    pose proof (held_same (S n) _ (TranchePeriod.as_of tp) Hd) as Hsame0.
    set (q := ProtocolSwapActivityRow.protocol row).
    apply amounts_sum_perm, Permutation_map.
    by rewrite (tranches_of_same q _ _ _ _ Hsame0), (tranches_of_same q _ _ _ _ Hsame1), (tranches_of_same q _ _ _ _ Hsame2).
Qed.

(** A pool's total is the sum of its series, over a period the facts cover
    and at every step, whatever cycles were written between the two; and one is
    told exactly when the series has a row, which takes that the pool was seen
    before the period ends. *)
Theorem pool_series_add_up w i pool n n' m m' (totals : Measured.t (list (SwapActivity.t D)) ReadPeriod.t)
    (series : Measured.t (list (SwapBucket.t D)) ReadPeriod.t) p :
  SeriesInterval.fits i w = true -> pools_at (S m) !! pool = pools_at (S n) !! pool ->
  pool_swap_totals (N := N) (O := O) w pool n = (n', Ok totals) ->
  list_pool_swap_series (N := N) (O := O) w i pool m = (m', Ok series) ->
  Measured.period totals = Some p -> Measured.period series = Some p -> ReadPeriod.is_covered p = true ->
  exists total_row total series_rows,
    Measured.items totals = option_list total /\ transpose SwapActivity_try_from total_row = Ok total /\
    collect PoolSwapBucket_try_from series_rows = Ok (Measured.items series) /\
    sums_to series_rows total_row.
Proof.
  intros Hfit Hpool Ht Hs Hpt Hps Hcov. destruct (pool_totals_ok _ _ _ _ _ _ Ht Hpt Hcov) as (Hbt & items & Hit & Htr).
  destruct (pool_series_ok _ _ _ _ _ _ _ Hfit Hs Hps) as [Hbs Hser].
  destruct (read_period_settled _ _ _ _ _ Hbt) as (_ & _ & Hset & _).
  destruct (read_period_settled _ _ _ _ _ Hbs) as (_ & _ & Hset' & _).
  pose proof (settled_agree _ _ (S n) (S m) _ (Hset Hcov) (Hset' Hcov) ltac:(lia) ltac:(lia)) as Hsame.
  exists (pool_total_row p pool (analytic_at (S n)) (pools_at (S n))), items,
    (pool_series_rows p i pool (analytic_at (S m)) (pools_at (S m))).
  split_and!; [exact Hit|exact Htr|exact Hser|].
  rewrite <-(pool_total_same p pool _ _ _ _ Hsame Hpool). by eapply pool_rows_sum.
Qed.
End Served.

(** ** Witnesses: one pool trading in every tranche, cycles between the statements *)

Module Asked.
Import Bytes.

#[local] Instance calm : Postgres := never_fails.
#[local] Instance plain : BigDecimal Z := { to_plain_string := text_of }.
#[local] Instance no_periods : ProtocolPeriods unit := { protocol_periods _ := ∅ }.
#[local] Instance Z_adds : DecimalOps Z := {
  dec_of_Z z := z;
  dec_add a b := Done (a + b);
  dec_sub a b := Done (a - b);
  dec_mul a b := Done (a * b);
  dec_div a b := if b =? 0 then Panic else Done (a / b);
  dec_cmp := Z.compare;
}.

Definition sample_pools : gmap Pubkey SeenPool.t := {[ [7] := SeenPool.mk facts_protocol (483000 * HOUR) None None ]}.

(** Two worlds: the one of the first three statements, and the next. *)
Definition two (before after : World (N := Z) (O := unit)) (k : nat) : World (N := Z) (O := unit) :=
  if (k <? 3)%nat then before else after.
Definition snapshots (before after : Db.t Z unit) : Snapshots Z unit := {|
  analytic_at k := Db.tables (if (k <? 3)%nat then before else after);
  pools_at _ := sample_pools;
|}.

Lemma two_served before after :
  @reachable Z unit _ _ _ calm before -> rtc (@step Z unit _ _ _ calm) before after ->
  @served Z unit _ _ _ _ _ _ calm (snapshots (db before) (db after)) (two before after).
Proof.
  intros Hr Hs. split; [exact Hr| |intros k; unfold two; simpl; by destruct (k <? 3)%nat].
  intros k. unfold two. destruct (Nat.ltb_spec k 3), (Nat.ltb_spec (S k) 3); [reflexivity|exact Hs|lia|reflexivity].
Qed.

#[local] Instance hour_snapshots : Snapshots Z unit := snapshots sample_second sample_third.
Definition hour_worlds : nat -> World (N := Z) (O := unit) := two second_world third_world.
Lemma hour_served : @served Z unit _ _ _ _ _ _ calm hour_snapshots hour_worlds.
Proof. exact (two_served second_world third_world sample_reachable sample_third_steps). Qed.

Definition the {A} (q : Query RepositoryError A) (n : nat) (a : A) : A :=
  match snd (q n) with Ok a' => a' | Err _ => a end.

Definition no_totals : SwapTotals.t Z := SwapTotals.mk (Measured.mk None []) None.

(** The last hour's totals, the totals and the series again while a cycle is
    written between their period and their rows. *)
Definition hour_totals : SwapTotals.t Z := the (swap_totals (N := Z) (O := unit) Hour None None) 0 no_totals.
Definition hour_totals_again : SwapTotals.t Z := the (swap_totals (N := Z) (O := unit) Hour None None) 2 no_totals.
Definition hour_series : Measured.t (list (ProtocolBucket.t (SwapActivity.t Z))) ReadPeriod.t :=
  the (list_swap_series (N := Z) (O := unit) Hour SeriesInterval.FiveMinutes None) 2 (Measured.mk None []).
Definition hour_period : ReadPeriod.t :=
  ReadPeriod.Tranche (TranchePeriod.mk 1738804800000000000 1738808400000000000 1738800000000000000).

Lemma swap_series_add_up_witness :
  Measured.items hour_series <> [] /\
  exists total_rows series_rows,
    collect ProtocolSwapActivity_try_from total_rows = Ok (Measured.items (SwapTotals.measured hour_totals)) /\
    collect ProtocolBucket_try_from series_rows = Ok (Measured.items hour_series) /\
    forall row, row ∈ total_rows ->
      adds_up (N := Z) (rows_of (ProtocolSwapActivityRow.protocol row) series_rows) (ProtocolSwapActivityRow.activity row).
Proof.
  split; [by vm_compute|].
  apply (swap_series_add_up calm hour_worlds hour_served calm Hour SeriesInterval.FiveMinutes None 0 3 2 4 hour_totals hour_series hour_period).
  - reflexivity.
  - vm_compute. reflexivity.
  - vm_compute. reflexivity.
  - vm_compute. reflexivity.
  - vm_compute. reflexivity.
  - reflexivity.
Defined.

Lemma measures_are_final_witness :
  map measure (Measured.items (SwapTotals.measured hour_totals)) =
    map measure (Measured.items (SwapTotals.measured hour_totals_again)) /\
  SwapTotals.previous hour_totals = SwapTotals.previous hour_totals_again /\
  hour_totals = hour_totals_again.
Proof.
  destruct (proj1 (measures_are_final calm hour_worlds hour_served calm Hour None 0 3 2 5 hour_period) None hour_totals hour_totals_again)
    as (Hm & Hp & Hall); [| | | |exact (conj Hm (conj Hp (Hall eq_refl)))].
  - vm_compute. reflexivity.
  - vm_compute. reflexivity.
  - vm_compute. reflexivity.
  - vm_compute. reflexivity.
Defined.

(** A pool's last hour. *)
Definition pool_totals_asked : Measured.t (list (SwapActivity.t Z)) ReadPeriod.t :=
  the (pool_swap_totals (N := Z) (O := unit) Hour [7]) 0 (Measured.mk None []).
Definition pool_series_asked : Measured.t (list (SwapBucket.t Z)) ReadPeriod.t :=
  the (list_pool_swap_series (N := Z) (O := unit) Hour SeriesInterval.FiveMinutes [7]) 2 (Measured.mk None []).

Lemma pool_series_add_up_witness :
  Measured.items pool_series_asked <> [] /\
  exists total_row total series_rows,
    Measured.items pool_totals_asked = option_list total /\ transpose SwapActivity_try_from total_row = Ok total /\
    collect PoolSwapBucket_try_from series_rows = Ok (Measured.items pool_series_asked) /\
    sums_to (N := Z) series_rows total_row.
Proof.
  split; [by vm_compute|].
  apply (pool_series_add_up calm hour_worlds hour_served calm Hour SeriesInterval.FiveMinutes [7] 0 2 2 4 pool_totals_asked pool_series_asked hour_period).
  - reflexivity.
  - reflexivity.
  - vm_compute. reflexivity.
  - vm_compute. reflexivity.
  - vm_compute. reflexivity.
  - vm_compute. reflexivity.
  - reflexivity.
Defined.

Lemma totals_are_their_tranches_witness :
  Measured.items (SwapTotals.measured hour_totals) <> [] /\
  exists rows, collect ProtocolSwapActivity_try_from rows = Ok (Measured.items (SwapTotals.measured hour_totals)) /\
    forall row, row ∈ rows ->
      let facts := map snd (tranches_of (ProtocolSwapActivityRow.protocol row)
        (ReadPeriod.from hour_period) (ReadPeriod.as_of hour_period) (ever third_world)) in
      let valued := forallb PoolFacts.valued facts in
      flows valued (amounts (N := Z) (ProtocolSwapActivityRow.activity row)) =
        amounts_sum (map (fun f => flows valued (fact_amounts f)) facts) /\
      (0 <= ReadPeriod.from hour_period ->
        facts ≡ₚ map snd (tranches_of (ProtocolSwapActivityRow.protocol row)
          (ReadPeriod.from hour_period) (ReadPeriod.as_of hour_period) (Db.tables sample_third))).
Proof.
  split; [by vm_compute|].
  apply (totals_are_their_tranches calm hour_worlds hour_served calm Hour None None 0 3 5
    hour_totals hour_period).
  - vm_compute. reflexivity.
  - lia.
  - vm_compute. reflexivity.
  - reflexivity.
Defined.

(** A pool seen that did not swap is told as zeros. *)
Example quiet_pool_is_told :
  @select_pool_totals_in_tranches Z unit _ (TranchePeriod.mk 1738804800000000000 1738808400000000000 1738800000000000000) [8]
    (Db.tables sample_second) {[ [8] := SeenPool.mk facts_protocol (483000 * HOUR) None None ]} =
  Some (facts_row (N := Z) []).
Proof. vm_compute. reflexivity. Qed.
End Asked.
