(* ===== verification/EventWalk.v ===== *)
(** * The routes of the event lists, and a client walking them

    What every route of the nine collections promises a client, [RouteLaws]: it
    refuses a malformed request before any statement, and answers another with
    the page of its collection, each event with its pair when the route pairs
    them. A route fails only as a statement failed. *)

From stdpp Require Import sorting.
From S2P Require Import Prelude Errors External Domain Store Rows Signals Analytic Cursor CursorFacts Keyset.
From S2P Require Import KeysetFacts EventLists EventApi EventListsFacts MergedListsFacts.

(** ** Statements of a handler *)

Section Answered.
Context `{Postgres}.

(** An error is the answer to the fault of one of the statements sent. *)
Definition answered {A} (q : Query ApiError A) (n : nat) (P : nat -> A -> Prop) : Prop :=
  let '(n', r) := q n in
  (n <= n')%nat /\
  match r with
  | Ok a => P n' a
  | Err e => exists k err, (n <= k < n')%nat /\ fault k = Some err /\ e = ApiError_from err
  end.

Lemma answered_bind {A B} (q : Query ApiError A) (k : A -> Query ApiError B) n P Q :
  answered q n P -> (forall n' a, (n <= n')%nat -> P n' a -> answered (k a) n' Q) ->
  answered (query_bind q k) n Q.
Proof.
  unfold answered, query_bind. destruct (q n) as [n1 [a|e]].
  - intros [Hn HP] Hk. specialize (Hk n1 a Hn HP). destruct (k a n1) as [n2 [b|e]].
    + destruct Hk as [? ?]. split; [lia|done].
    + destruct Hk as (? & m & err & ? & ?). split; [lia|]. exists m, err. split; [lia|done].
  - done.
Qed.

Lemma answered_lift {A} (r : result A ApiError) a n (P : nat -> A -> Prop) :
  r = Ok a -> P n a -> answered (query_lift r) n P.
Proof. intros -> HP. split; [lia|done]. Qed.

Lemma answered_served {A} (q : Query RepositoryError A) n P :
  served q n P -> answered (query_map_err ApiError_from q) n P.
Proof.
  unfold served, answered, query_map_err. destruct (q n) as [n' [a|e]]; [done|].
  intros (? & k & ? & ?). split; [done|]. by exists k, e.
Qed.
End Answered.

(** The repositories of the pools and of the tokens: they send statements. *)
Class PoolCatalogLaws `{Postgres} `{PoolCatalog} : Prop := {
  find_by_addresses_served : forall l n,
    served (find_by_addresses l) n (fun _ pools => Forall (fun p => Pool.pool_address p ∈ l) pools);
}.
Class TokenMetadataLaws `{Postgres} `{TokenMetadataLookup} : Prop := {
  find_by_mints_served : forall l n,
    served (find_by_mints l) n (fun _ tokens => Forall (fun t => TokenMetadata.mint t ∈ l) tokens);
}.

(** A pool the catalogue finds at every statement. *)
Definition known `{Postgres} `{PoolCatalog} (pool : Pubkey) : Prop :=
  forall n, served (find_by_addresses [pool]) n
    (fun _ pools => exists p, p ∈ pools /\ Pool.pool_address p = pool).

(** A list's parameter opens a window it serves. *)
Class EventsWindowLaws (W : Type) `{EventsWindow W} : Prop := {
  window_served : forall w : W, Window_duration (into_window w) <= Window_duration (LONGEST (W := W));
}.
#[global] Instance WindowParam_laws : EventsWindowLaws WindowParam.
Proof. split. by intros []. Qed.
#[global] Instance DayWindowParam_laws : EventsWindowLaws DayWindowParam.
Proof. split. by intros []. Qed.
#[global] Instance WeekWindowParam_laws : EventsWindowLaws WeekWindowParam.
Proof. split. by intros []. Qed.

Section Routes.
Context {D : Type} `{!DecimalText D} `{!DecimalFromStr D}.
Context `{Base58Laws} `{SignatureDisplay} `{SignatureFromStr} `{Rfc3339} `{SerdeJson} `{Base64}.
Context `{Postgres} `{!Tables Event} `{CollationLaws} `{RowIds} `{!EventTables}.

(** The page a request asks for, on the tables of some moment. *)
Definition page_asked (c : EventCollection) (request : ListEventsRequest.t) (now : DateTime)
    (rows : list Event) : Page.t D Event :=
  page_of c (ListEventsRequest.scope request)
    (window_start (ListEventsRequest.cursor request) (ListEventsRequest.window request) now)
    (ListEventsRequest.cursor request) (ListEventsRequest.limit request) rows.

(** The response carries a page. *)
Record carries {T} (event_of : T -> Event) (page : Page.t D Event) (response : PageResponse.t T) : Prop := {
  carries_items : map event_of (PageResponse.items response) = Page.items page;
  carries_next : encode_cursor_opt (Page.next_cursor page) = Ok (PageResponse.next_cursor response);
  carries_prev : encode_cursor_opt (Page.prev_cursor page) = Ok (PageResponse.prev_cursor response);
  carries_first : PageResponse.is_first response = Page.is_first page;
  carries_last : PageResponse.is_last response = Page.is_last page;
}.

Class RouteLaws {W T} `{EventsWindow W} (c : EventCollection) (scope : EventScope.t)
    (route : EventsParams.t W -> DateTime -> Query ApiError (PageResponse.t T)) (event_of : T -> Event) : Prop := {
  route_refuses : forall params now n e,
    parse params c scope now = Err e -> route params now n = (n, Err e);
  route_answers : forall params now n request,
    parse params c scope now = Ok request ->
    answered (route params now) n (fun n' response =>
      exists m, (n <= m <= n')%nat /\ carries event_of (page_asked c request now (rows_at m)) response);
}.

(** ** Requests *)

Lemma parse_request {W} `{EventsWindow W} (params : EventsParams.t W) c scope now request :
  parse params c scope now = Ok request ->
  ListEventsRequest.scope request = scope /\ ListEventsRequest.limit request = EventsParams.limit params /\
  1 <= ListEventsRequest.limit request.
Proof.
  unfold parse, validate_limit. intros Hp. inv_binds.
  destruct (_ && _) eqn:Hl in Hx; [|done]. apply andb_true_iff in Hl as [Hl%Z.leb_le _].
  match type of Hp with (if ?b then _ else _) = _ => destruct b; [done|] end.
  by injection Hp as <-.
Qed.

Lemma encode_cursor_ok (cursor : option (Cursor.t D)) : exists raw, encode_cursor_opt cursor = Ok raw.
Proof. destruct cursor as [[]|]; by eexists. Qed.

Lemma from_page_carries {T} (event_of : T -> Event) (page : Page.t D Event) (page' : Page.t D T) :
  map event_of (Page.items page') = Page.items page -> Page.next_cursor page' = Page.next_cursor page ->
  Page.prev_cursor page' = Page.prev_cursor page -> Page.is_first page' = Page.is_first page ->
  Page.is_last page' = Page.is_last page ->
  exists response, from_page page' = Ok response /\ carries event_of page response.
Proof.
  intros Hi Hn Hp Hf Hl. unfold from_page. rewrite Hn, Hp.
  destruct (encode_cursor_ok (Page.next_cursor page)) as [next Hnext].
  destruct (encode_cursor_ok (Page.prev_cursor page)) as [prev Hprev].
  rewrite Hnext. simpl. rewrite Hprev. simpl. eexists. split; [done|]. by split.
Qed.

(** ** Pages *)

Lemma swaps_page_answers now n request :
  served_scope Swaps (ListEventsRequest.scope request) -> 1 <= ListEventsRequest.limit request ->
  answered (swaps_page (D := D) request now) n (fun n' response =>
    exists m, (n <= m <= n')%nat /\ carries id (page_asked Swaps request now (rows_at m)) response).
Proof.
  intros Hs Hl. unfold swaps_page. eapply answered_bind.
  { apply answered_served. by apply list_events_page. }
  intros n' page Hn (m & Hm & ->).
  destruct (from_page_carries id (page_asked Swaps request now (rows_at m))
    (page_asked Swaps request now (rows_at m))) as (response & Hr & Hc); [by rewrite map_id|done..|].
  eapply answered_lift; [exact Hr|]. exists m. split; [lia|done].
Qed.

Section Paired.
Context `{!PoolCatalog} `{!PoolCatalogLaws} `{!TokenMetadataLookup} `{!TokenMetadataLaws}.

Lemma pairs_of_served {I} `{OnPool.t I} (items : list I) n : served (pairs_of items) n (fun _ _ => True).
Proof.
  unfold pairs_of. destruct (gather_mints items ∅ []) as [mints unknown].
  eapply (served_bind _ _ _ (fun _ _ => True)).
  - destruct (sorted_distinct _); [by apply served_ret|].
    eapply served_mono; [apply find_by_addresses_served|done].
  - intros n1 pools _ _. eapply (served_bind _ _ _ (fun _ _ => True)).
    + destruct (sorted_distinct _); [by apply served_ret|].
      eapply served_mono; [apply find_by_mints_served|done].
    + intros n2 metadata _ _. by apply served_ret.
Qed.

(** The pairs leave the page as it is. *)
Lemma pairs_page_served (page : Page.t D Event) n :
  served (pairs_page page) n (fun _ page' =>
    map Paired.item (Page.items page') = Page.items page /\ Page.next_cursor page' = Page.next_cursor page /\
    Page.prev_cursor page' = Page.prev_cursor page /\ Page.is_first page' = Page.is_first page /\
    Page.is_last page' = Page.is_last page).
Proof.
  unfold pairs_page. eapply served_bind; [apply pairs_of_served|]. intros n' pairs _ _.
  apply served_ret. split_and!; try done. simpl. rewrite map_map.
  erewrite map_ext; [apply map_id|]. intros w. unfold Paired_of. by destruct (default _ _).
Qed.

Lemma paired_page_answers c now n request :
  served_scope c (ListEventsRequest.scope request) -> 1 <= ListEventsRequest.limit request ->
  answered (paired_page (D := D) c request now) n (fun n' response =>
    exists m, (n <= m <= n')%nat /\ carries Paired.item (page_asked c request now (rows_at m)) response).
Proof.
  intros Hs Hl. unfold paired_page, list_paired.
  eapply (answered_bind _ _ _ (fun n' page' => exists m, (n <= m <= n')%nat /\
    exists response, from_page page' = Ok response /\
      carries Paired.item (page_asked c request now (rows_at m)) response)).
  - apply answered_served. eapply served_bind; [by apply list_events_page|].
    intros n1 page Hn1 (m & Hm & ->). eapply served_mono; [apply pairs_page_served|].
    intros n2 page' Hn2 (Hi & Hn & Hp & Hf & Hla). exists m. split; [lia|].
    by apply (from_page_carries Paired.item (page_asked c request now (rows_at m)) page').
  - intros n1 page' Hn1 (m & Hm & response & Hr & Hc). eapply answered_lift; [exact Hr|].
    exists m. split; [lia|done].
Qed.

(** A pool that is known is not a 404. *)
Lemma known_pool_answers raw address n :
  pubkey_of_string raw = Some address -> known address ->
  answered (known_pool raw) n (fun _ pool => Pool.pool_address pool = address).
Proof.
  intros Hraw Hk. unfold known_pool, parse_pool, parse_address. rewrite Hraw. simpl.
  eapply answered_bind; [by apply (answered_lift _ address _ (fun _ a => a = address))|].
  intros n1 a _ ->.
  eapply (answered_bind _ _ _ (fun _ o => exists p, o = Some p /\ Pool.pool_address p = address)).
  - apply answered_served. unfold find_pool. eapply served_bind; [apply Hk|].
    intros n2 pools _ (p & Hp & Ha). apply served_ret.
    destruct (List.find _ pools) as [p'|] eqn:Hf.
    + apply find_some in Hf as [_ Hf%bool_decide_eq_true]. by exists p'.
    + apply list_elem_of_In in Hp. pose proof (find_none _ _ Hf p Hp) as Hne. simpl in Hne.
      by rewrite bool_decide_eq_true_2 in Hne.
  - intros n2 o _ (p & -> & Hp). by eapply answered_lift.
Qed.

(** ** The twenty-six routes *)

(** A handler that parses its request and asks for the page. *)
Lemma route_laws {W T} `{EventsWindow W} c scope (event_of : T -> Event)
    (page : ListEventsRequest.t -> DateTime -> Query ApiError (PageResponse.t T))
    (route : EventsParams.t W -> DateTime -> Query ApiError (PageResponse.t T)) :
  (forall request now n, ListEventsRequest.scope request = scope -> 1 <= ListEventsRequest.limit request ->
    answered (page request now) n (fun n' response =>
      exists m, (n <= m <= n')%nat /\ carries event_of (page_asked c request now (rows_at m)) response)) ->
  (forall params now n, route params now n =
    (let> request := query_lift (parse params c scope now) in page request now) n) ->
  RouteLaws c scope route event_of.
Proof.
  intros Hpage Hroute. split.
  - intros params now n e Hp. rewrite Hroute, Hp. done.
  - intros params now n request Hp. destruct (parse_request _ _ _ _ _ Hp) as (Hs & _ & Hl).
    unfold answered. rewrite Hroute, Hp. by apply Hpage.
Qed.

(** One that makes sure of its pool in between. *)
Lemma pool_route_laws {W T} `{EventsWindow W} c raw address (event_of : T -> Event)
    (page : ListEventsRequest.t -> DateTime -> Query ApiError (PageResponse.t T))
    (route : EventsParams.t W -> DateTime -> Query ApiError (PageResponse.t T)) :
  pubkey_of_string raw = Some address -> known address ->
  (forall request now n, ListEventsRequest.scope request = EventScope.Pool address ->
    1 <= ListEventsRequest.limit request ->
    answered (page request now) n (fun n' response =>
      exists m, (n <= m <= n')%nat /\ carries event_of (page_asked c request now (rows_at m)) response)) ->
  (forall params now n, route params now n =
    (let> request := query_lift (parse params c (EventScope.Pool address) now) in
     let> _ := known_pool raw in page request now) n) ->
  RouteLaws c (EventScope.Pool address) route event_of.
Proof.
  intros Hraw Hk Hpage Hroute.
  eapply (route_laws _ _ _ (fun request now => let> _ := known_pool raw in page request now)); [|exact Hroute].
  intros request now n Hs Hl. eapply answered_bind; [by eapply known_pool_answers|].
  intros n' p Hn _. specialize (Hpage request now n' Hs Hl). unfold answered in *.
  destruct (page request now n') as [n2 [r|e]]; [|done].
  destruct Hpage as [? (m & ? & ?)]. split; [done|]. exists m. split; [lia|done].
Qed.

(** Of a protocol and a pool that read as one, the pool being known. *)
Context (protocol pool : string) (p : Protocol) (address : Pubkey).
Hypothesis protocol_reads : Protocol_from_str protocol = Ok p.
Hypothesis pool_reads : pubkey_of_string pool = Some address.
Hypothesis pool_known : known address.

Ltac solve_page lemma :=
  intros request now n Hs Hl; apply lemma; [rewrite Hs; split; [|done]|done];
  try done; try (by eapply pubkey_of_string_bytes).
Ltac solve_route page lemma := apply (route_laws _ _ _ page); [solve_page lemma|done].
Ltac unfold_handler :=
  unfold list_protocol_swaps, list_protocol_liquidity_changes, list_protocol_pool_creations,
    list_protocol_position_changes, list_protocol_position_fee_claims, list_protocol_protocol_fee_claims,
    list_protocol_reward_claims, list_protocol_reward_changes, list_protocol_pool_changes,
    list_pool_swaps, list_pool_liquidity_changes, list_pool_position_changes, list_pool_position_fee_claims,
    list_pool_protocol_fee_claims, list_pool_reward_claims, list_pool_reward_changes, list_pool_pool_changes.
Ltac solve_protocol_route page lemma :=
  apply (route_laws _ _ _ page); [solve_page lemma|];
  intros params now n; unfold_handler; unfold parse_protocol; by rewrite protocol_reads.
Ltac solve_pool_route page lemma :=
  eapply (pool_route_laws _ _ _ _ page); [exact pool_reads|exact pool_known|solve_page lemma|];
  intros params now n; unfold_handler; unfold parse_pool, parse_address; by rewrite pool_reads.

Lemma swaps_laws :
  RouteLaws Swaps EventScope.All (list_swaps (D := D)) (fun e => e) /\
  RouteLaws Swaps (EventScope.Protocol p) (list_protocol_swaps (D := D) protocol) (fun e => e) /\
  RouteLaws Swaps (EventScope.Pool address) (list_pool_swaps (D := D) pool) (fun e => e).
Proof.
  split_and!.
  - solve_route (swaps_page (D := D)) swaps_page_answers.
  - solve_protocol_route (swaps_page (D := D)) swaps_page_answers.
  - solve_pool_route (swaps_page (D := D)) swaps_page_answers.
Qed.
Lemma liquidity_changes_laws :
  RouteLaws LiquidityChanges EventScope.All (list_liquidity_changes (D := D)) Paired.item /\
  RouteLaws LiquidityChanges (EventScope.Protocol p) (list_protocol_liquidity_changes (D := D) protocol) Paired.item /\
  RouteLaws LiquidityChanges (EventScope.Pool address) (list_pool_liquidity_changes (D := D) pool) Paired.item.
Proof.
  split_and!.
  - solve_route (paired_page (D := D) LiquidityChanges) paired_page_answers.
  - solve_protocol_route (paired_page (D := D) LiquidityChanges) paired_page_answers.
  - solve_pool_route (paired_page (D := D) LiquidityChanges) paired_page_answers.
Qed.
Lemma reward_changes_laws :
  RouteLaws RewardChanges EventScope.All (list_reward_changes (D := D)) Paired.item /\
  RouteLaws RewardChanges (EventScope.Protocol p) (list_protocol_reward_changes (D := D) protocol) Paired.item /\
  RouteLaws RewardChanges (EventScope.Pool address) (list_pool_reward_changes (D := D) pool) Paired.item.
Proof.
  split_and!.
  - solve_route (paired_page (D := D) RewardChanges) paired_page_answers.
  - solve_protocol_route (paired_page (D := D) RewardChanges) paired_page_answers.
  - solve_pool_route (paired_page (D := D) RewardChanges) paired_page_answers.
Qed.
Lemma pool_changes_laws :
  RouteLaws PoolChanges EventScope.All (list_pool_changes (D := D)) Paired.item /\
  RouteLaws PoolChanges (EventScope.Protocol p) (list_protocol_pool_changes (D := D) protocol) Paired.item /\
  RouteLaws PoolChanges (EventScope.Pool address) (list_pool_pool_changes (D := D) pool) Paired.item.
Proof.
  split_and!.
  - solve_route (paired_page (D := D) PoolChanges) paired_page_answers.
  - solve_protocol_route (paired_page (D := D) PoolChanges) paired_page_answers.
  - solve_pool_route (paired_page (D := D) PoolChanges) paired_page_answers.
Qed.
Lemma position_changes_laws :
  RouteLaws PositionChanges EventScope.All (list_position_changes (D := D)) Paired.item /\
  RouteLaws PositionChanges (EventScope.Protocol p) (list_protocol_position_changes (D := D) protocol) Paired.item /\
  RouteLaws PositionChanges (EventScope.Pool address) (list_pool_position_changes (D := D) pool) Paired.item.
Proof.
  split_and!.
  - solve_route (paired_page (D := D) PositionChanges) paired_page_answers.
  - solve_protocol_route (paired_page (D := D) PositionChanges) paired_page_answers.
  - solve_pool_route (paired_page (D := D) PositionChanges) paired_page_answers.
Qed.
Lemma position_fee_claims_laws :
  RouteLaws PositionFeeClaims EventScope.All (list_position_fee_claims (D := D)) Paired.item /\
  RouteLaws PositionFeeClaims (EventScope.Protocol p) (list_protocol_position_fee_claims (D := D) protocol) Paired.item /\
  RouteLaws PositionFeeClaims (EventScope.Pool address) (list_pool_position_fee_claims (D := D) pool) Paired.item.
Proof.
  split_and!.
  - solve_route (paired_page (D := D) PositionFeeClaims) paired_page_answers.
  - solve_protocol_route (paired_page (D := D) PositionFeeClaims) paired_page_answers.
  - solve_pool_route (paired_page (D := D) PositionFeeClaims) paired_page_answers.
Qed.
Lemma protocol_fee_claims_laws :
  RouteLaws ProtocolFeeClaims EventScope.All (list_protocol_fee_claims (D := D)) Paired.item /\
  RouteLaws ProtocolFeeClaims (EventScope.Protocol p) (list_protocol_protocol_fee_claims (D := D) protocol) Paired.item /\
  RouteLaws ProtocolFeeClaims (EventScope.Pool address) (list_pool_protocol_fee_claims (D := D) pool) Paired.item.
Proof.
  split_and!.
  - solve_route (paired_page (D := D) ProtocolFeeClaims) paired_page_answers.
  - solve_protocol_route (paired_page (D := D) ProtocolFeeClaims) paired_page_answers.
  - solve_pool_route (paired_page (D := D) ProtocolFeeClaims) paired_page_answers.
Qed.
Lemma reward_claims_laws :
  RouteLaws RewardClaims EventScope.All (list_reward_claims (D := D)) Paired.item /\
  RouteLaws RewardClaims (EventScope.Protocol p) (list_protocol_reward_claims (D := D) protocol) Paired.item /\
  RouteLaws RewardClaims (EventScope.Pool address) (list_pool_reward_claims (D := D) pool) Paired.item.
Proof.
  split_and!.
  - solve_route (paired_page (D := D) RewardClaims) paired_page_answers.
  - solve_protocol_route (paired_page (D := D) RewardClaims) paired_page_answers.
  - solve_pool_route (paired_page (D := D) RewardClaims) paired_page_answers.
Qed.
Lemma pool_creations_laws :
  RouteLaws PoolCreations EventScope.All (list_pool_creations (D := D)) Paired.item /\
  RouteLaws PoolCreations (EventScope.Protocol p) (list_protocol_pool_creations (D := D) protocol) Paired.item.
Proof.
  split_and!.
  - solve_route (paired_page (D := D) PoolCreations) paired_page_answers.
  - solve_protocol_route (paired_page (D := D) PoolCreations) paired_page_answers.
Qed.

(** The router's entry for a list, and its parameters, keep the promise. *)
Record route_serves (r : Route.t) : Prop := {
  route_scope : wf_event_scope (Route.scope r);
  route_window : EventsWindowLaws (Route.W r);
  route_promise : RouteLaws (Route.collection r) (Route.scope r) (Route.handler r)
    (Route.event_of r);
}.

Lemma mk_serves {W T} `{EventsWindow W} c scope
    (handler : EventsParams.t W -> DateTime -> Query ApiError (PageResponse.t T)) (event_of : T -> Event) :
  wf_event_scope scope -> EventsWindowLaws W -> RouteLaws c scope handler event_of ->
  route_serves (Route.mk c scope handler event_of).
Proof. intros Hs Hw Hl. by split. Qed.

Lemma event_routes_serve :
  Forall route_serves (event_routes (D := D) protocol p pool address).
Proof.
  assert (is_bytes 32 address) as Ha by (by eapply pubkey_of_string_bytes).
  destruct swaps_laws as (? & ? & ?), liquidity_changes_laws as (? & ? & ?), reward_changes_laws as (? & ? & ?),
    pool_changes_laws as (? & ? & ?), position_changes_laws as (? & ? & ?),
    position_fee_claims_laws as (? & ? & ?), protocol_fee_claims_laws as (? & ? & ?),
    reward_claims_laws as (? & ? & ?), pool_creations_laws as (? & ?).
  repeat (apply Forall_cons_2; [apply mk_serves; [done|apply _|assumption]|]). apply Forall_nil_2.
Qed.
End Paired.
End Routes.

(** ** Following the cursors of a list

    A client asks for a first page, then follows each next cursor, while the
    tables change between the statements. *)

(** The text of an object is not empty. *)
Class CursorTextLaws `{SerdeJson} `{Base64} : Prop := {
  envelope_nonempty : forall o, o <> [] -> b64_encode (to_vec o) <> "";
}.
#[global] Instance bits_text_laws : CursorTextLaws.
Proof.
  split. intros o Ho He. apply Ho. simpl in He. rewrite text_of_codes in He.
  match type of He with @text_of ?A ?E ?C _ = _ => pose proof (@value_of_text A E C o) as Hv end.
  rewrite He in Hv. by injection Hv.
Qed.

Inductive WalkEnd : Type :=
| Complete
| Stopped (e : ApiError)
| Unfinished.

Section Client.
Context {T : Type} (ask : nat -> option string -> Query ApiError (PageResponse.t T)).

(** At most [requests] of them, from the [i]-th on: the items in the order they
    are received, and how it ended. *)
Fixpoint follow (requests i : nat) (cursor : option string) (n : nat) : nat * list T * WalkEnd :=
  match requests with
  | O => (n, [], Unfinished)
  | S requests =>
    let (n, r) := ask i cursor n in
    match r with
    | Err e => (n, [], Stopped e)
    | Ok response =>
      match PageResponse.next_cursor response with
      | None => (n, PageResponse.items response, Complete)
      | Some _ as next =>
        let '(n, rest, end_) := follow requests (S i) next n in
        (n, PageResponse.items response ++ rest, end_)
      end
    end
  end.
End Client.

(** The rows of the list at each statement, which stay; a page is cut from those
    after its cursor; [refused] says what may stop the [i]-th request. *)
Section Follow.
Context {A K : Type} (key : A -> K) (before : K -> K -> bool) `{!StrictTotal before}.
Context {T : Type} (ask : nat -> option string -> Query ApiError (PageResponse.t T)) (item_of : T -> A).
Context (rows : nat -> list A) {C : Type} (after : C -> A -> bool) (cursor_of : A -> C) (text : A -> string).
Context (n_per_page : Z) (refused : nat -> nat -> nat -> ApiError -> Prop).
Hypothesis rows_distinct : forall n, NoDup (map key (rows n)).
Hypothesis rows_stay : forall n m a, (n <= m)%nat -> a ∈ rows n -> a ∈ rows m.
Hypothesis after_cursor : forall w a, after (cursor_of w) a = before (key w) (key a).
Hypothesis positive : 1 <= n_per_page.

Notation first := (fun a b => before (key a) (key b) = true).

Definition follows (cursor : option C) (a : A) : bool :=
  match cursor with Some c => after c a | None => true end.
Definition in_order (cursor : option C) (n : nat) : list A :=
  order_by key before (List.filter (follows cursor) (rows n)).

(** What the [i]-th request is given: no cursor, or the one at the last row. *)
Inductive resumes (n : nat) : nat -> option string -> option C -> Prop :=
| at_start : resumes n 0 None None
| at_row i w : w ∈ rows n -> resumes n i (Some (text w)) (Some (cursor_of w)).

(** A page: the first rows after the cursor, and the cursor of the next request
    at the last of them, unless there is nothing more. *)
Record walked n n' (cursor : option C) (page : list A) (next : option string) : Prop := {
  walked_order : (n <= n')%nat;
  walked_page : exists m, (n <= m <= n')%nat /\ page = limit n_per_page (in_order cursor m) /\
    next = if bool_decide (Z.of_nat (length (in_order cursor m)) <= n_per_page) then None else text <$> last page;
}.

Hypothesis ask_answers : forall n i raw cursor, resumes n i raw cursor ->
  let '(n', r) := ask i raw n in
  match r with
  | Ok response => walked n n' cursor (map item_of (PageResponse.items response)) (PageResponse.next_cursor response)
  | Err e => (n <= n')%nat /\ refused i n n' e
  end.

Lemma in_order_elem cursor n a : a ∈ in_order cursor n <-> a ∈ rows n /\ follows cursor a = true.
Proof. unfold in_order. by rewrite order_by_perm, filter_in. Qed.

Lemma in_order_sorted cursor n : StronglySorted first (in_order cursor n).
Proof. apply (order_by_sorted key before), filter_keys_distinct, rows_distinct. Qed.

Lemma elem_of_limit {B} k (l : list B) b : b ∈ limit k l -> b ∈ l.
Proof. intros (j & Hj%list_elem_of_lookup_2 & _)%elem_of_take. done. Qed.

(** What the items of a walk from a cursor are, and what its end says. *)
Record walk_from_cursor n n' (cursor : option C) (requests i : nat) (items : list A) (end_ : WalkEnd) : Prop := {
  walk_order : (n <= n')%nat;
  walk_sorted : StronglySorted first items;
  walk_stored : Forall (fun w => w ∈ rows n' /\ follows cursor w = true) items;
  walk_end :
    match end_ with
    | Complete => forall w, w ∈ rows n -> follows cursor w = true -> w ∈ items
    | Unfinished => Z.of_nat requests * n_per_page <= Z.of_nat (length items)
    | Stopped e => exists j k k', (i <= j < i + requests)%nat /\ (n <= k <= k')%nat /\ (k' <= n')%nat /\ refused j k k' e
    end;
}.

Lemma walked_rows n' cursor page m :
  page = limit n_per_page (in_order cursor m) -> (m <= n')%nat ->
  StronglySorted first page /\ Forall (fun w => w ∈ rows n' /\ follows cursor w = true) page.
Proof.
  intros -> Hm. split.
  - pose proof (in_order_sorted cursor m) as Hs.
    rewrite <- (take_drop (Z.to_nat n_per_page)) in Hs. by apply (sorted_app key before) in Hs as [? _].
  - apply Forall_forall. intros w Hw%elem_of_limit. apply in_order_elem in Hw as [Hw ?].
    split; [|done]. by eapply rows_stay.
Qed.

(** The last row of a page that is not the last one: the page is full, and what
    it leaves comes after that row. *)
Lemma walked_last cursor m page w :
  page = limit n_per_page (in_order cursor m) -> ~ Z.of_nat (length (in_order cursor m)) <= n_per_page ->
  last page = Some w ->
  Z.of_nat (length page) = n_per_page /\ w ∈ page /\
  (forall a, a ∈ page -> a = w \/ before (key a) (key w) = true) /\
  (forall a, a ∈ rows m -> follows cursor a = true -> a ∈ page \/ before (key w) (key a) = true).
Proof.
  intros Hp Hlen Hlast. pose proof (in_order_sorted cursor m) as Hs. set (l := in_order cursor m) in *.
  assert (w ∈ page) as Hw by (by apply last_Some_elem_of).
  rewrite <- (take_drop (Z.to_nat n_per_page) l) in Hs. unfold limit in Hp. rewrite <- Hp in Hs.
  apply (sorted_app key before) in Hs as (Hs & _ & Hrest). split_and!; [|done| |].
  - rewrite Hp, length_take. lia.
  - intros a Ha. apply last_Some in Hlast as [pre Hpre]. rewrite Hpre in Hs, Ha.
    apply elem_of_app in Ha as [Ha|Ha%list_elem_of_singleton]; [right|by left].
    apply (sorted_app key before) in Hs as (_ & _ & Hs). apply Hs; [done|by left].
  - intros a Ha Hpa. assert (a ∈ l) as Hal by (by apply in_order_elem).
    rewrite <- (take_drop (Z.to_nat n_per_page) l), <- Hp in Hal.
    apply elem_of_app in Hal as [?|Hal]; [by left|]. right. by apply Hrest.
Qed.

(** The cursor of a request is at a row, or there is none. *)
Lemma follows_trans n i raw cursor a w :
  resumes n i raw cursor -> follows cursor w = true -> before (key w) (key a) = true -> follows cursor a = true.
Proof.
  destruct 1 as [|i b _]; [done|]. cbn [follows]. rewrite !after_cursor. apply before_trans.
Qed.

Lemma follow_invariant requests : forall i raw cursor n,
  resumes n i raw cursor ->
  let '(n', items, end_) := follow ask requests i raw n in
  walk_from_cursor n n' cursor requests i (map item_of items) end_.
Proof.
  induction requests as [|requests IH]; intros i raw cursor n Hr; cbn [follow].
  { split; [done|constructor|constructor|simpl; lia]. }
  pose proof (ask_answers n i raw cursor Hr) as Ha.
  destruct (ask i raw n) as [n1 [response|e]].
  - destruct Ha as [Hn1 (m & Hm & Hpage & Hnext)].
    destruct (walked_rows n1 cursor _ m Hpage ltac:(lia)) as [Hsorted Hstored].
    revert Hnext. case_bool_decide as Hlen; [intros ->|].
    + split; [lia|done|done|]. intros w Hw Hpast. rewrite Hpage. unfold limit.
      rewrite take_ge by lia. apply in_order_elem. split; [|done]. eapply rows_stay, Hw. lia.
    + destruct (last (map item_of (PageResponse.items response))) as [w|] eqn:Hlast.
      2:{ apply last_None in Hlast. rewrite Hlast in Hpage. apply (f_equal length) in Hpage.
        unfold limit in Hpage. rewrite length_take in Hpage. simpl in Hpage. lia. }
      destruct (walked_last cursor m _ w Hpage Hlen Hlast) as (Hfull & Hw & Hbefore & Hafter).
      assert (w ∈ rows n1 /\ follows cursor w = true) as [Hw1 Hw2] by (by apply (proj1 (Forall_forall _ _) Hstored)).
      intros ->. cbn [fmap option_fmap option_map].
      specialize (IH (S i) (Some (text w)) (Some (cursor_of w)) n1 (at_row n1 (S i) w Hw1)).
      destruct (follow ask requests (S i) (Some (text w)) n1) as [[n2 rest] end_].
      destruct IH as [Hn2 Hsort2 Hstored2 Hend]. rewrite map_app.
      assert (forall b, b ∈ map item_of rest -> before (key w) (key b) = true) as Hrest.
      { intros b Hb. apply (proj1 (Forall_forall _ _) Hstored2) in Hb as [_ Hb]. simpl in Hb. by rewrite after_cursor in Hb. }
      split; [lia| | |].
      * apply (sorted_app key before). split_and!; [done|done|]. intros a b Ha Hb.
        destruct (Hbefore a Ha) as [->|Hlt]; [by apply Hrest|].
        eapply (before_trans (before := before)); [exact Hlt|by apply Hrest].
      * apply Forall_app. split.
        -- eapply Forall_impl; [exact Hstored|]. intros a [Har ?]. split; [|done]. by eapply rows_stay.
        -- rewrite Forall_forall in Hstored2 |- *. intros a Ha. split; [by apply Hstored2|].
           eapply follows_trans; [exact Hr|exact Hw2|by apply Hrest].
      * destruct end_ as [|e|].
        -- intros a Har Hpa. apply elem_of_app. destruct (Hafter a) as [?|Hk]; [|done|by left|].
           ++ eapply rows_stay, Har. lia.
           ++ right. apply Hend; [|simpl; by rewrite after_cursor]. eapply rows_stay, Har. lia.
        -- destruct Hend as (j & k & k' & Hj & Hk & Hk' & ?). exists j, k, k'. split_and!; [lia..|done].
        -- rewrite length_app. lia.
  - destruct Ha as (Hn1 & Ha). split; [done|constructor|constructor|].
    exists i, n, n1. split_and!; [lia..|done].
Qed.

(** The rows of a walk come once, in order, and a walk that ends has met those
    stored when it began. *)
Lemma follow_once requests n :
  let '(n', items, end_) := follow ask requests 0 None n in
  let met := map item_of items in
  StronglySorted first met /\ NoDup met /\ Forall (fun w => w ∈ rows n') met /\
  (end_ = Complete -> forall w, w ∈ rows n -> w ∈ met).
Proof.
  pose proof (follow_invariant requests 0 None None n (at_start n)) as Hw.
  destruct (follow ask requests 0 None n) as [[n' items] end_]. destruct Hw as [_ Hs Hst He].
  split_and!; [done| | |].
  - apply (keys_distinct_NoDup key). by apply (sorted_keys_distinct key before).
  - eapply Forall_impl; [exact Hst|]. by intros w [? _].
  - intros ->. intros w Hw. by apply He.
Qed.

Lemma follow_ends requests n :
  (forall i k k' e, ~ refused i k k' e) ->
  let '(n', items, end_) := follow ask requests 0 None n in
  Z.of_nat (length (rows n')) < Z.of_nat requests * n_per_page -> end_ = Complete.
Proof.
  intros Hnone. pose proof (follow_invariant requests 0 None None n (at_start n)) as Hw.
  pose proof (follow_once requests n) as Honce.
  destruct (follow ask requests 0 None n) as [[n' items] end_]. destruct Hw as [_ _ _ He]. intros Hlen.
  destruct end_ as [|e|]; [done| |].
  - destruct He as (j & k & k' & _ & _ & _ & He). by apply Hnone in He.
  - assert (length (map item_of items) <= length (rows n'))%nat; [|lia].
    apply subset_length; [apply Honce|]. intros w Hw. destruct Honce as (_ & _ & Hf & _).
    rewrite Forall_forall in Hf. by apply Hf.
Qed.
End Follow.

(** ** Walking a list of events to its end

    The walk meets every event that was stored when it began, once each and
    newest first; nothing but a fault of the database or an expired window stops
    it. *)

Definition walk {W T} (route : EventsParams.t W -> DateTime -> Query ApiError (PageResponse.t T)) (window : W)
    (n_per_page : Z) (clock : nat -> DateTime) : nat -> nat -> option string -> nat -> nat * list T * WalkEnd :=
  follow (fun i raw => route (EventsParams.mk window raw n_per_page) (clock i)).

Section Walk.
Context {D : Type} `{!DecimalText D} `{!DecimalFromStr D} `{!DecimalFromStrLaws D}.
Context `{Base58Laws} `{SignatureDisplay} `{!SignatureFromStr} `{!SignatureFromStrLaws} `{Rfc3339Laws}.
Context `{SerdeJsonLaws} `{Base64Laws} `{!CursorTextLaws}.
Context `{Postgres} `{!Tables Event} `{CollationLaws} `{RowIds} `{!EventTables}.
Context {W T : Type} `{EventsWindowLaws W} (c : EventCollection) (scope : EventScope.t).
Context (route : EventsParams.t W -> DateTime -> Query ApiError (PageResponse.t T)) (event_of : T -> Event).
Context `{!RouteLaws (D := D) c scope route event_of}.
Context (window : W) (n_per_page : Z) (clock : nat -> DateTime).
Hypothesis limit_served : 1 <= n_per_page <= MAX_LIMIT.
Hypothesis scope_served : wf_event_scope scope.

Notation first := (fun a b => key_desc (row_key a) (row_key b) = true).
Notation walk := (walk route window n_per_page clock).

(** Where the window of the walk begins: at its first request. *)
Definition walk_from : DateTime := clock 0%nat - Window_duration (into_window window).
Hypothesis from_written : rfc3339_range walk_from.

Notation wanted := (serves c scope walk_from).

(** The text of the cursor at a row. *)
Definition cursor_text (w : Event) : string :=
  envelope (wire_object (event_cursor_of (D := D) c (cursor_at scope walk_from w))).

Lemma wf_cursor_at n w :
  w ∈ rows_at n -> wf_event_cursor (cursor_at scope walk_from w).
Proof.
  intros Hw. destruct (rows_stored n w Hw) as [_ _ Hs Hi Ht].
  split_and!; [exact scope_served|exact from_written|exact Ht|exact Hs|by apply in_uint_spec].
Qed.

Lemma decode_cursor_text n w :
  w ∈ rows_at n -> decode_event_cursor (cursor_text w) c scope = Ok (cursor_at scope walk_from w).
Proof.
  intros Hw. apply wf_cursor_at in Hw.
  pose proof (decode_event_own c _ Hw) as Hd. unfold cursor_text. by destruct c.
Qed.

(** The window has expired. *)
Definition expired (i : nat) : bool :=
  walk_from <? clock i - Window_duration (LONGEST (W := W)) - CURSOR_WINDOW_MARGIN.

(** The list's rows at a statement. *)
Definition listed_rows (m : nat) : list Event := List.filter wanted (rows_at m).
Definition after_event (k : EventCursor.t) (w : Event) : bool := past (Some k) w.
Notation resumes := (resumes listed_rows (cursor_at scope walk_from) cursor_text).

Lemma listed_rows_elem m w : w ∈ listed_rows m <-> w ∈ rows_at m /\ wanted w = true.
Proof. apply filter_in. Qed.

(** The request the [i]-th parameters make. *)
Lemma parse_resumed n i raw cursor :
  resumes n i raw cursor ->
  parse (EventsParams.mk window raw n_per_page) c scope (clock i) =
    if bool_decide (is_Some cursor) && expired i
    then Err (BadRequest "invalid cursor: its window is not one this list serves")
    else Ok (ListEventsRequest.mk scope (into_window window) cursor n_per_page).
Proof.
  intros Hr. unfold parse, validate_limit. simpl.
  rewrite (proj2 (Z.leb_le 1 _)), (proj2 (Z.leb_le _ MAX_LIMIT)) by lia. simpl.
  destruct Hr as [|i w [Hw Hs]%listed_rows_elem]; [done|]. unfold non_empty, cursor_text.
  rewrite bool_decide_eq_false_2 by (apply envelope_nonempty; by destruct c). simpl.
  fold (cursor_text w). rewrite (decode_cursor_text n) by done. simpl.
  unfold serves in Hs. rewrite !andb_true_iff, Z.leb_le in Hs.
  rewrite (proj2 (Z.ltb_ge _ _)) by lia. done.
Qed.

Lemma from_resumed n i raw cursor :
  resumes n i raw cursor -> window_start cursor (into_window window) (clock i) = walk_from.
Proof. by intros []. Qed.

(** *** Pages and their cursors *)

Lemma newest_first_dlmm cursor rows :
  newest_first c (EventScope.Protocol MeteoraDlmm) walk_from cursor rows = [].
Proof.
  unfold newest_first. rewrite (filter_ext_in _ (fun _ => false)); [by induction rows|].
  intros w _. unfold serves. simpl. by rewrite andb_false_r.
Qed.

Lemma page_of_items cursor rows :
  Page.items (page_of (D := D) c scope walk_from cursor n_per_page rows) =
    limit n_per_page (newest_first c scope walk_from cursor rows).
Proof.
  destruct scope as [|[]|pool]; try done. rewrite newest_first_dlmm. unfold limit. by rewrite take_nil.
Qed.

Lemma page_of_next cursor rows :
  Page.next_cursor (page_of (D := D) c scope walk_from cursor n_per_page rows) =
    if bool_decide (Z.of_nat (length (newest_first c scope walk_from cursor rows)) <= n_per_page) then None
    else (fun w => event_cursor_of c (cursor_at scope walk_from w)) <$>
      last (limit n_per_page (newest_first c scope walk_from cursor rows)).
Proof.
  destruct scope as [|[]|pool]; try done. rewrite newest_first_dlmm.
  rewrite bool_decide_eq_true_2; [done|]. simpl. lia.
Qed.

Lemma newest_in_order cursor m :
  newest_first c scope walk_from cursor (rows_at m) = in_order row_key key_desc listed_rows after_event cursor m.
Proof. unfold newest_first, in_order, listed_rows. rewrite <- filter_filter. by destruct cursor. Qed.

(** A request that is refused met a fault, or came too late. *)
Definition refused_events (i n n' : nat) (e : ApiError) : Prop :=
  (exists k err, (n <= k < n')%nat /\ fault k = Some err /\ e = ApiError_from err) \/
  (expired i = true /\ e = BadRequest "invalid cursor: its window is not one this list serves").

Lemma request_answers n i raw cursor :
  resumes n i raw cursor ->
  let '(n', r) := route (EventsParams.mk window raw n_per_page) (clock i) n in
  match r with
  | Ok response => walked row_key key_desc listed_rows after_event cursor_text n_per_page n n' cursor
      (map event_of (PageResponse.items response)) (PageResponse.next_cursor response)
  | Err e => (n <= n')%nat /\ refused_events i n n' e
  end.
Proof.
  intros Hr. pose proof (parse_resumed n i raw cursor Hr) as Hp.
  destruct (bool_decide (is_Some cursor) && expired i) eqn:Hx.
  - rewrite (route_refuses _ _ _ _ Hp). split; [done|]. right. by apply andb_true_iff in Hx as [_ Hx].
  - pose proof (route_answers _ _ n _ Hp) as Ha. unfold answered in Ha.
    destruct (route _ _ n) as [n' [response|e]].
    + destruct Ha as (Hn & m & Hm & [Hi Hnext _ _ _]). unfold page_asked in *. simpl in *.
      rewrite (from_resumed n i raw cursor Hr) in *. rewrite page_of_items, newest_in_order in Hi.
      rewrite page_of_next, newest_in_order in Hnext. split; [done|]. exists m. split_and!; [lia..|done|].
      rewrite Hi. revert Hnext.
      destruct (bool_decide (_ <= n_per_page)); cbn [encode_cursor_opt]; [by intros [= <-]|].
      destruct (last _) as [w|]; cbn [fmap option_fmap option_map encode_cursor_opt]; [|by intros [= <-]].
      rewrite encode_envelope. by intros [= <-].
    + destruct Ha as (Hn & k & err & Hk). split; [done|]. left. by exists k, err.
Qed.

(** *** The walk *)

Lemma listed_rows_distinct m : NoDup (map row_key (listed_rows m)).
Proof. apply filter_keys_distinct, rows_keys. Qed.

Lemma listed_rows_stay n m w : (n <= m)%nat -> w ∈ listed_rows n -> w ∈ listed_rows m.
Proof. rewrite !listed_rows_elem. intros Hle [Hw ?]. split; [|done]. by eapply rows_grow_le. Qed.

Lemma walk_once requests n :
  let '(n', items, end_) := walk requests 0 None n in
  let events := map event_of items in
  StronglySorted first events /\ NoDup events /\
  Forall (fun w => w ∈ rows_at n' /\ wanted w = true) events /\
  (end_ = Complete -> forall w, w ∈ rows_at n -> wanted w = true -> w ∈ events).
Proof.
  pose proof (follow_once row_key key_desc _ event_of listed_rows after_event (cursor_at scope walk_from)
    cursor_text n_per_page refused_events listed_rows_distinct listed_rows_stay (fun _ _ => eq_refl)
    ltac:(lia) request_answers requests n) as Hw.
  unfold EventWalk.walk. destruct (follow _ requests 0 None n) as [[n' items] end_].
  destruct Hw as (? & ? & Hf & He). split_and!; [done|done| |].
  - eapply Forall_impl; [exact Hf|]. intros w. by rewrite listed_rows_elem.
  - intros Hend w Hw Hs. by apply He; [|apply listed_rows_elem].
Qed.

Lemma walk_ends requests n :
  (forall k, fault k = None) -> (forall i, clock i <= clock 0%nat + CURSOR_WINDOW_MARGIN) ->
  let '(n', items, end_) := walk requests 0 None n in
  Z.of_nat (length (List.filter wanted (rows_at n'))) < Z.of_nat requests * n_per_page ->
  end_ = Complete.
Proof.
  intros Hfault Hclock.
  apply (follow_ends row_key key_desc _ event_of listed_rows after_event (cursor_at scope walk_from)
    cursor_text n_per_page refused_events listed_rows_distinct listed_rows_stay (fun _ _ => eq_refl)
    ltac:(lia) request_answers requests n).
  intros i k k' e [(j & err & _ & Hj & _)|[Hx _]]; [by rewrite Hfault in Hj|].
  unfold expired, walk_from in Hx. apply Z.ltb_lt in Hx. specialize (Hclock i).
  pose proof (window_served window). lia.
Qed.
End Walk.

(** ** The walks of the api's lists *)

Section Lists.
Context {D : Type} `{!DecimalText D} `{!DecimalFromStr D} `{!DecimalFromStrLaws D}.
Context `{Base58Laws} `{SignatureDisplay} `{!SignatureFromStr} `{!SignatureFromStrLaws} `{Rfc3339Laws}.
Context `{SerdeJsonLaws} `{Base64Laws} `{!CursorTextLaws}.
Context `{Postgres} `{!Tables Event} `{CollationLaws} `{RowIds} `{!EventTables}.
Context `{!PoolCatalog} `{!PoolCatalogLaws} `{!TokenMetadataLookup} `{!TokenMetadataLaws}.
Context (protocol pool : string) (p : Protocol) (address : Pubkey).
Hypothesis protocol_reads : Protocol_from_str protocol = Ok p.
Hypothesis pool_reads : pubkey_of_string pool = Some address.
Hypothesis pool_known : known address.

#[local] Notation routes := (event_routes (D := D) protocol p pool address).

(** C5: following the next cursors of a list meets every event once. On any of
    the routes, whatever is written between the statements of the walk, the
    events received are newest first, no event comes twice, each is stored, in
    the list's tables, in its scope and in the window of the first request; and
    a walk that reaches the last page has met every such event that was stored
    when it began. *)
Theorem walk_meets_each_event_once r window n_per_page clock requests n :
  In r routes -> 1 <= n_per_page <= MAX_LIMIT -> rfc3339_range (walk_from window clock) ->
  let '(n', items, end_) := walk (Route.handler r) window n_per_page clock requests 0 None n in
  let events := map (Route.event_of r) items in
  let wanted := serves (Route.collection r) (Route.scope r) (walk_from window clock) in
  StronglySorted (fun a b => key_desc (row_key a) (row_key b) = true) events /\ NoDup events /\
  Forall (fun w => w ∈ rows_at n' /\ wanted w = true) events /\
  (end_ = Complete -> forall w, w ∈ rows_at n -> wanted w = true -> w ∈ events).
Proof using All.
  intros Hr Hl Hf.
  destruct (proj1 (List.Forall_forall _ _) (event_routes_serve protocol pool p address protocol_reads
    pool_reads pool_known) r Hr) as [Hs ? ?].
  by apply (walk_once (D := D)).
Qed.

(** C35: the walk of a list ends. While no statement fails and the requests stay
    within the hour the cursors are good for, a client that may send more
    requests than there are full pages of events reaches the last page: it is
    never refused, and no cursor leads back. *)
Theorem walk_reaches_the_last_page r window n_per_page clock requests n :
  In r routes -> 1 <= n_per_page <= MAX_LIMIT -> rfc3339_range (walk_from window clock) ->
  (forall k, fault k = None) -> (forall i, clock i <= clock 0%nat + CURSOR_WINDOW_MARGIN) ->
  let '(n', items, end_) := walk (Route.handler r) window n_per_page clock requests 0 None n in
  Z.of_nat (length (List.filter (serves (Route.collection r) (Route.scope r) (walk_from window clock))
    (rows_at n'))) < Z.of_nat requests * n_per_page ->
  end_ = Complete.
Proof using All.
  intros Hr Hl Hf.
  destruct (proj1 (List.Forall_forall _ _) (event_routes_serve protocol pool p address protocol_reads
    pool_reads pool_known) r Hr) as [Hs ? ?].
  by eapply (walk_ends (D := D)).
Qed.
End Lists.
