(* ===== verification/Metadata.v ===== *)
(** * The metadata worker

    [src/crates/context/src/application/]: workers/metadata.rs, its scope and the
    endings of a tick, source/metadata.rs; the Helius DAS client
    infra/helius_das.rs; and what the worker sends to the database:
    persistence/src/repositories/token_metadata.rs and
    token_metadata/missing_mints_of_all_pools.sql, over the table
    [token_metadata] and the indexer's [pools].

    Log lines, gauges and the counters of the calls are left out. Between two
    statements the other processes write [pools] ([PoolResolver.Meanwhile]);
    the statements sent so far number the moments. *)

From S2P Require Import Prelude Errors External Domain Store Price Jupiter PoolResolver.
#[local] Open Scope Z_scope.

(** ** The tables *)

(** A row of [token_metadata], keyed by [mint]. *)
Module TokenMetadataRow.
Record t : Type := mk {
  symbol : option string;
  name : option string;
  decimals : Z;
  logo_uri : option string;
  metadata_provider : string;
  fetched_at : DateTime;
  last_refresh_at : DateTime;
}.
End TokenMetadataRow.

Module MetadataDb.
Record t : Type := mk {
  db : Db.t;
  token_metadata : gmap Pubkey TokenMetadataRow.t;
}.

Definition statements (s : t) : nat := Db.statements (db s).
Definition pools (s : t) : gmap Pubkey PoolRow.t := Db.pools (db s).
Definition set_db (s : t) (d : Db.t) : t := mk d (token_metadata s).
Definition set_metadata (s : t) (m : gmap Pubkey TokenMetadataRow.t) : t := mk (db s) m.
End MetadataDb.

(** The order an unordered statement gives its mints in. *)
Class MintOrder : Type := { scanned_mints : nat -> list Pubkey -> list Pubkey }.
Class MintOrderLaws `{MintOrder} : Prop := {
  scanned_mints_perm : forall n l, scanned_mints n l ≡ₚ l;
}.

(** ** Binds *)

Definition EPOCH_2000 : DateTime := 946684800 * 10 ^ 9.

(** A [TIMESTAMPTZ] bind: whole microseconds from 2000 on, the rest cut off. *)
Definition timestamptz (t : DateTime) : DateTime :=
  EPOCH_2000 + Z.quot (t - EPOCH_2000) 1000 * 1000.

(** A [TEXT] holds no NUL. *)
Fixpoint has_nul (s : string) : bool :=
  match s with
  | EmptyString => false
  | String c s => bool_decide (c = Ascii.zero) || has_nul s
  end.

(** SQLSTATE 22021, as [map_sqlx_error] leaves it. *)
Definition invalid_byte_sequence : RepositoryError := Backend "22021 character_not_in_repertoire".

Definition text_fits (bind : option string) : bool :=
  match bind with Some s => negb (has_nul s) | None => true end.

(** ** Statements *)

Section Statements.
Context `{Postgres} `{Meanwhile} `{MintOrder}.

(** The others' statements, then this one, which a fault makes fail as a whole. *)
Definition execute {A} (s : MetadataDb.t)
    (statement : nat -> MetadataDb.t -> RepositoryResult (MetadataDb.t * A)) :
    MetadataDb.t * RepositoryResult A :=
  let n := MetadataDb.statements s in
  let s := MetadataDb.set_db s (Db.sent (meanwhile n (MetadataDb.db s))) in
  match fault n with
  | Some e => (s, Err e)
  | None =>
    match statement n s with
    | Ok (s, a) => (s, Ok a)
    | Err e => (s, Err e)
    end
  end.

(** *** [upsert] *)

(** The inserted row, or the conflict arm's, which leaves [fetched_at]. *)
Definition upserted_row (metadata : TokenMetadata.t) (stored : option TokenMetadataRow.t) : TokenMetadataRow.t :=
  TokenMetadataRow.mk (TokenMetadata.symbol metadata) (TokenMetadata.name metadata)
    (TokenMetadata.decimals metadata) (TokenMetadata.logo_uri metadata)
    (MetadataProvider_as_str (TokenMetadata.metadata_provider metadata))
    (match stored with
     | Some row => TokenMetadataRow.fetched_at row
     | None => timestamptz (TokenMetadata.fetched_at metadata)
     end)
    (timestamptz (TokenMetadata.last_refresh_at metadata)).

Definition texts_fit (metadata : TokenMetadata.t) : bool :=
  text_fits (TokenMetadata.symbol metadata) && text_fits (TokenMetadata.name metadata) &&
  text_fits (TokenMetadata.logo_uri metadata).

Definition upsert (s : MetadataDb.t) (metadata : TokenMetadata.t) : MetadataDb.t * RepositoryResult unit :=
  execute s (fun _ s =>
    if texts_fit metadata then
      let mint := TokenMetadata.mint metadata in
      let row := upserted_row metadata (MetadataDb.token_metadata s !! mint) in
      Ok (MetadataDb.set_metadata s (<[mint := row]> (MetadataDb.token_metadata s)), ())
    else Err invalid_byte_sequence).

(** *** The missing mints *)

(** The two sides of a pool that are not NULL. *)
Definition side_mints (p : PoolRow.t) : list Pubkey :=
  option_list (PoolRow.token_a_mint p) ++ option_list (PoolRow.token_b_mint p).

(** [NOT EXISTS (SELECT 1 FROM token_metadata ...)]. *)
Definition lacks_metadata (s : MetadataDb.t) (mint : Pubkey) : bool :=
  is_null (MetadataDb.token_metadata s !! mint).

(** Distinct, of the pools kept. *)
Definition missing_mints (keep : PoolRow.t -> bool) (n : nat) (s : MetadataDb.t) : list Pubkey :=
  scanned_mints n (remove_dups (List.filter (lacks_metadata s)
    (concat (map side_mints (List.filter keep (map snd (map_to_list (MetadataDb.pools s)))))))).

Definition list_missing_mints_of_recent_pools (s : MetadataDb.t) (window : TimeDelta) :
    MetadataDb.t * RepositoryResult (list Pubkey) :=
  execute s (fun n s =>
    let since := db_now n - seconds (num_seconds window) in
    Ok (s, missing_mints (fun p => since <=? PoolRow.first_seen_at p) n s)).

Definition list_missing_mints_of_all_pools (s : MetadataDb.t) :
    MetadataDb.t * RepositoryResult (list Pubkey) :=
  execute s (fun n s => Ok (s, missing_mints (fun _ => true) n s)).
End Statements.

(** ** The source ([source/metadata.rs]) *)

Module FetchedMetadata.
Record t : Type := mk {
  mint : Pubkey;
  symbol : option string;
  name : option string;
  decimals : Z;                             (** u8 *)
  logo_uri : option string;
  metadata_provider : MetadataProvider;
}.
End FetchedMetadata.

(** Asked when some statements have been sent. *)
Class MetadataSource : Type := {
  fetch_metadata : nat -> list Pubkey -> result (list FetchedMetadata.t) SourceError;
}.

(** ** The Helius DAS client ([infra/helius_das.rs]) *)

Definition DAS_BATCH_MAX : nat := 1000.

Module DasMetadata.
Record t : Type := mk {
  name : option string;
  symbol : option string;
}.
End DasMetadata.

(** [links] is its [image], [files] the [uri] of each. *)
Module DasContent.
Record t : Type := mk {
  metadata : option DasMetadata.t;
  files : list (option string);
  links : option (option string);
}.
End DasContent.

(** [token_info] is its [decimals], a u8. *)
Module DasAsset.
Record t : Type := mk {
  id : string;
  content : option DasContent.t;
  token_info : option (option Z);
}.
End DasAsset.

Inductive DasReply : Type :=
| DasNoReply (reason : string)              (** [send] or [error_for_status] *)
| DasUndecodable (reason : string)          (** [json] *)
| DasReplied (result : list (option DasAsset.t)).

(** [getAssetBatch], asked when some statements have been sent. *)
Class DasNode : Type := { get_asset_batch : nat -> list string -> DasReply }.

Section Das.
Context `{Base58} `{DasNode}.

Definition non_empty_text (s : string) : bool := negb (bool_decide (s = "")).

(** [filter(|s| !s.is_empty())]. *)
Definition filter_non_empty (s : option string) : option string :=
  let! s := s in if non_empty_text s then Some s else None.

Fixpoint first_uri (files : list (option string)) : option string :=
  match files with
  | [] => None
  | uri :: files =>
    match filter_non_empty uri with
    | Some uri => Some uri
    | None => first_uri files
    end
  end.

Definition asset_logo_uri (asset : DasAsset.t) : option string :=
  let! c := DasAsset.content asset in
  match filter_non_empty (let! links := DasContent.links c in links) with
  | Some image => Some image
  | None => first_uri (DasContent.files c)
  end.

Definition into_fetched_metadata (asset : DasAsset.t) : option FetchedMetadata.t :=
  let! mint := pubkey_of_string (DasAsset.id asset) in
  let! decimals := (let! token_info := DasAsset.token_info asset in token_info) in
  let (symbol, name) :=
    match (let! c := DasAsset.content asset in DasContent.metadata c) with
    | Some m => (DasMetadata.symbol m, DasMetadata.name m)
    | None => (None, None)
    end in
  Some (FetchedMetadata.mk mint symbol name decimals (asset_logo_uri asset) HeliusDas).

Definition das_fetch_chunk (n : nat) (mints : list Pubkey) : result (list FetchedMetadata.t) SourceError :=
  match mints with
  | [] => Ok []
  | _ =>
    match get_asset_batch n (map pubkey_to_string mints) with
    | DasNoReply reason => Err (Http reason)
    | DasUndecodable reason => Err (SourceDecode reason)
    | DasReplied result => Ok (omap (fun asset => let! asset := asset in into_fetched_metadata asset) result)
    end
  end.

(** A failed chunk is stepped over. *)
Fixpoint das_fetch_all (n : nat) (todo : list (list Pubkey)) : list FetchedMetadata.t :=
  match todo with
  | [] => []
  | chunk :: todo =>
    match das_fetch_chunk n chunk with
    | Ok fetched => fetched ++ das_fetch_all n todo
    | Err _ => das_fetch_all n todo
    end
  end.

Definition das_fetch_metadata (n : nat) (mints : list Pubkey) : result (list FetchedMetadata.t) SourceError :=
  Ok (das_fetch_all n (chunks (length mints) DAS_BATCH_MAX mints)).

Definition helius_das : MetadataSource := {| fetch_metadata := das_fetch_metadata |}.
End Das.

(** ** The worker ([workers/metadata.rs]) *)

Inductive Scope : Type :=
| RecentPools
| AllPools.

Definition FULL_SWEEP_INTERVAL : TimeDelta := seconds 3600.
Definition MISSING_MINT_DISCOVERY_WINDOW : TimeDelta := minutes 60.

(** [last_full_sweep], an [Instant]. *)
Module MetadataWorker.
Record t : Type := mk { last_full_sweep : option Z }.
Definition new : t := mk None.
End MetadataWorker.

Inductive TickOutcome : Type :=
| ListFailed (e : RepositoryError)
| NoWork
| SourceFailed (e : SourceError)
| Enriched.

(** The clocks one tick reads: the [Instant]s of [run_one_cycle] and of
    [scope_due], and the [Utc::now] of [upsert_all]. *)
Module TickClock.
Record t : Type := mk {
  start : Z;
  elapsed_at : Z;
  now : DateTime;
}.
End TickClock.

Inductive MetadataWake : Type :=
| PollElapsed (clock : TickClock.t)
| StopRequested.

Section Worker.
Context `{Postgres} `{Meanwhile} `{MintOrder} `{MetadataSource}.

(** [elapsed] saturates at zero. *)
Definition scope_due (w : MetadataWorker.t) (elapsed_at : Z) : Scope :=
  match MetadataWorker.last_full_sweep w with
  | Some at_ => if Z.max 0 (elapsed_at - at_) <? FULL_SWEEP_INTERVAL then RecentPools else AllPools
  | None => AllPools
  end.

Definition token_metadata_of (now : DateTime) (item : FetchedMetadata.t) : TokenMetadata.t :=
  TokenMetadata.mk (FetchedMetadata.mint item) (FetchedMetadata.symbol item) (FetchedMetadata.name item)
    (FetchedMetadata.decimals item) (FetchedMetadata.logo_uri item) (FetchedMetadata.metadata_provider item)
    now now.

(** An upsert that fails is stepped over. *)
Fixpoint upsert_all (s : MetadataDb.t) (now : DateTime) (fetched : list FetchedMetadata.t) : MetadataDb.t :=
  match fetched with
  | [] => s
  | item :: fetched =>
    let (s, _) := upsert s (token_metadata_of now item) in
    upsert_all s now fetched
  end.

Definition list_scope (s : MetadataDb.t) (scope : Scope) : MetadataDb.t * RepositoryResult (list Pubkey) :=
  match scope with
  | RecentPools => list_missing_mints_of_recent_pools s MISSING_MINT_DISCOVERY_WINDOW
  | AllPools => list_missing_mints_of_all_pools s
  end.

Definition swept (w : MetadataWorker.t) (scope : Scope) (start : Z) : MetadataWorker.t :=
  match scope with
  | AllPools => MetadataWorker.mk (Some start)
  | RecentPools => w
  end.

Definition enrich_once (w : MetadataWorker.t) (s : MetadataDb.t) (scope : Scope) (clock : TickClock.t) :
    (MetadataWorker.t * MetadataDb.t) * TickOutcome :=
  match list_scope s scope with
  | (s, Err e) => ((w, s), ListFailed e)
  | (s, Ok missing) =>
    let w := swept w scope (TickClock.start clock) in
    match missing with
    | [] => ((w, s), NoWork)
    | _ =>
      match fetch_metadata (MetadataDb.statements s) missing with
      | Err e => ((w, s), SourceFailed e)
      | Ok fetched => ((w, upsert_all s (TickClock.now clock) fetched), Enriched)
      end
    end
  end.

Definition run_one_cycle (w : MetadataWorker.t) (s : MetadataDb.t) (clock : TickClock.t) :
    (MetadataWorker.t * MetadataDb.t) * TickOutcome :=
  enrich_once w s (scope_due w (TickClock.elapsed_at clock)) clock.

(** The loop: the worker, the tables, how each tick ended, and whether it has
    returned. The select is biased, so a stop is heard before the next tick. *)
Fixpoint run (w : MetadataWorker.t) (s : MetadataDb.t) (wakes : list MetadataWake) :
    MetadataWorker.t * MetadataDb.t * list TickOutcome * bool :=
  match wakes with
  | [] => (w, s, [], false)
  | StopRequested :: _ => (w, s, [], true)
  | PollElapsed clock :: wakes =>
    let '((w, s), outcome) := run_one_cycle w s clock in
    let '(w, s, outcomes, stopped) := run w s wakes in
    (w, s, outcome :: outcomes, stopped)
  end.
End Worker.
