(* ===== verification/MetadataRuns.v ===== *)
(** * What the metadata worker keeps and what it reaches

    A row keeps the instant of its first fetch and shows one asset of the
    source; a mint the source knows has its row after the next sweep, or after
    the next tick when its pool is recent. *)

From S2P Require Import Prelude Errors External Domain Price Jupiter Store PoolResolver PoolResolverFacts.
From S2P Require Import PoolResolverRuns Reference Metadata.
#[local] Open Scope Z_scope.

(** ** What a row keeps *)

(** Rows stay, and [fetched_at] is set once. *)
Definition keeps_first_fetch (s s' : MetadataDb.t) : Prop :=
  forall mint row, MetadataDb.token_metadata s !! mint = Some row ->
    exists row', MetadataDb.token_metadata s' !! mint = Some row' /\
      TokenMetadataRow.fetched_at row' = TokenMetadataRow.fetched_at row.

(** The same at one mint, the whole row. *)
Definition keeps_row (mint : Pubkey) (s s' : MetadataDb.t) : Prop :=
  MetadataDb.token_metadata s' !! mint = MetadataDb.token_metadata s !! mint.

#[global] Instance keeps_first_fetch_preorder : PreOrder keeps_first_fetch.
Proof.
  split.
  - intros s mint row Hr. by exists row.
  - intros s1 s2 s3 H12 H23 mint row (row2 & Hr2 & E2)%H12. apply H23 in Hr2 as (row3 & Hr3 & E3).
    exists row3. split; [done|congruence].
Qed.

#[global] Instance keeps_row_preorder mint : PreOrder (keeps_row mint).
Proof. split; [by intros s|]. intros s1 s2 s3. unfold keeps_row. congruence. Qed.

(** What the other processes do to [pools]: a pool stays, with its mints and its
    age. *)
Class MeanwhileMints `{Meanwhile} : Prop := {
  meanwhile_mints : forall n d a p, Db.pools d !! a = Some p ->
    exists p', Db.pools (meanwhile n d) !! a = Some p' /\
      (forall mint, mint ∈ side_mints p -> mint ∈ side_mints p') /\
      PoolRow.first_seen_at p' = PoolRow.first_seen_at p;
}.

Section Statements.
Context `{Postgres} `{Meanwhile} `{MintOrder}.

Lemma execute_keeps {A} s (statement : nat -> MetadataDb.t -> RepositoryResult (MetadataDb.t * A)) (R : relation MetadataDb.t) :
  (forall s d, R s (MetadataDb.set_db s d)) -> Transitive R ->
  (forall n s s' a, statement n s = Ok (s', a) -> R s s') -> R s (execute s statement).1.
Proof.
  intros Hdb HR Hs. unfold execute. destruct (fault _); simpl; [apply Hdb|].
  destruct (statement _ _) as [[s' a]|e] eqn:E; simpl; [|apply Hdb]. etrans; [apply Hdb|]. by eapply Hs.
Qed.

Lemma upsert_keeps_first_fetch s metadata : keeps_first_fetch s (upsert s metadata).1.
Proof.
  apply (execute_keeps _ _ keeps_first_fetch); [by intros ? ? mint row; exists row|apply _|]. intros n s1 s2 [] E.
  destruct (texts_fit metadata); [|done]. injection E as <-. intros mint row Hr. simpl.
  destruct (decide (mint = TokenMetadata.mint metadata)) as [->|Hne].
  - rewrite lookup_insert_eq. eexists. split; [done|]. unfold upserted_row. by rewrite Hr.
  - rewrite lookup_insert_ne by done. by exists row.
Qed.

Lemma upsert_keeps_row s metadata mint :
  mint <> TokenMetadata.mint metadata -> keeps_row mint s (upsert s metadata).1.
Proof.
  intros Hne. apply (execute_keeps _ _ (keeps_row mint)); [done|apply _|]. intros n s1 s2 [] E.
  destruct (texts_fit metadata); [|done]. injection E as <-. unfold keeps_row. simpl.
  by rewrite lookup_insert_ne.
Qed.

(** A listing leaves the table alone, and lists mints without a row. *)
Lemma list_scope_spec s scope s' r :
  list_scope s scope = (s', r) ->
  MetadataDb.token_metadata s' = MetadataDb.token_metadata s.
Proof.
  unfold list_scope, list_missing_mints_of_recent_pools, list_missing_mints_of_all_pools, execute.
  destruct scope, (fault _); intros [= <- <-]; reflexivity.
Qed.

Context `{!MintOrderLaws}.

Lemma missing_mints_elem keep n s mint :
  mint ∈ missing_mints keep n s <->
  MetadataDb.token_metadata s !! mint = None /\
  exists a p, MetadataDb.pools s !! a = Some p /\ keep p = true /\ mint ∈ side_mints p.
Proof.
  unfold missing_mints. rewrite scanned_mints_perm, elem_of_remove_dups, list_elem_of_In, filter_In.
  unfold lacks_metadata, is_null. rewrite in_concat. split.
  - intros [(l & Hl & Hm) Hn]. apply in_map_iff in Hl as (p & <- & [Hp Hk]%filter_In).
    apply in_map_iff in Hp as ([a q] & <- & Hq%list_elem_of_In%elem_of_map_to_list).
    split; [by destruct (_ !! mint)|]. exists a, q. by rewrite list_elem_of_In.
  - intros (-> & a & p & Hp & Hk & Hm%list_elem_of_In). split; [|done]. exists (side_mints p).
    split; [|done]. apply in_map, filter_In. split; [|done]. apply in_map_iff. exists (a, p).
    split; [done|]. by apply list_elem_of_In, elem_of_map_to_list.
Qed.

(** What a listing keeps the pools by. *)
Definition scope_keeps (s : MetadataDb.t) (scope : Scope) (p : PoolRow.t) : bool :=
  match scope with
  | RecentPools => db_now (MetadataDb.statements s) - seconds 3600 <=? PoolRow.first_seen_at p
  | AllPools => true
  end.

Lemma list_scope_elem s scope s' l mint :
  list_scope s scope = (s', Ok l) ->
  mint ∈ l <-> MetadataDb.token_metadata s !! mint = None /\
    exists a p, Db.pools (meanwhile (MetadataDb.statements s) (MetadataDb.db s)) !! a = Some p /\
      scope_keeps s scope p = true /\ mint ∈ side_mints p.
Proof.
  unfold list_scope, list_missing_mints_of_recent_pools, list_missing_mints_of_all_pools, execute.
  destruct scope, (fault _); intros [= <- <-]; apply missing_mints_elem.
Qed.
End Statements.

(** ** One tick *)

Section Ticks.
Context `{Postgres} `{Meanwhile} `{MintOrder} `{MetadataSource}.

Lemma upsert_all_ind (P : MetadataDb.t -> Prop) (now : DateTime) (fetched : list FetchedMetadata.t) s :
  (forall s item, item ∈ fetched -> P s -> P (upsert s (token_metadata_of now item)).1) ->
  P s -> P (upsert_all s now fetched).
Proof.
  revert s. induction fetched as [|item fetched IH]; intros s Hstep HP; [done|]. cbn [upsert_all].
  pose proof (Hstep s item (list_elem_of_here _ _) HP) as Hk1.
  destruct (upsert s _) as [s1 u]. apply IH; [|done]. intros s2 item2 Hin. apply Hstep. by right.
Qed.

(** A tick is a listing, and the upserts of one answer to it. *)
Lemma tick_cases w s clock w' s' o :
  run_one_cycle w s clock = ((w', s'), o) ->
  exists s1 r, list_scope s (scope_due w (TickClock.elapsed_at clock)) = (s1, r) /\
    ((s' = s1 /\ forall l, r = Ok l -> l = [] \/ exists e, fetch_metadata (MetadataDb.statements s1) l = Err e) \/
     exists l fetched, r = Ok l /\ fetch_metadata (MetadataDb.statements s1) l = Ok fetched /\
       s' = upsert_all s1 (TickClock.now clock) fetched).
Proof.
  unfold run_one_cycle, enrich_once. destruct (list_scope _ _) as [s1 r] eqn:Hl. intros E.
  exists s1, r. split; [done|]. destruct r as [[|m l]|e]; [by injection E as <- <- <-; naive_solver| |].
  - destruct (fetch_metadata _ _) as [fetched|e] eqn:Hf; injection E as <- <- <-; [right|left]; [by eauto|].
    split; [done|]. intros l' [= <-]. eauto.
  - injection E as <- <- <-. by left.
Qed.

Lemma tick_keeps_first_fetch w s clock :
  keeps_first_fetch s (run_one_cycle w s clock).1.2.
Proof.
  destruct (run_one_cycle w s clock) as [[w' s'] o] eqn:E. simpl.
  apply tick_cases in E as (s1 & r & Hl & Hs). apply list_scope_spec in Hl.
  assert (keeps_first_fetch s s1) as Hk1 by (intros mint row; rewrite Hl; by exists row).
  destruct Hs as [[-> _]|(l & fetched & -> & _ & ->)]; [done|].
  apply (upsert_all_ind (keeps_first_fetch s)); [|done]. intros s2 item _ Hk2.
  etrans; [exact Hk2|apply upsert_keeps_first_fetch].
Qed.

(** The source once answered [mint] to a question that was not of it. *)
Definition answered_unasked (mint : Pubkey) : Prop :=
  exists n asked fetched item, fetch_metadata n asked = Ok fetched /\ item ∈ fetched /\
    FetchedMetadata.mint item = mint /\ mint ∉ asked.

Lemma tick_keeps_row `{!MintOrderLaws} w s clock mint :
  is_Some (MetadataDb.token_metadata s !! mint) ->
  keeps_row mint s (run_one_cycle w s clock).1.2 \/ answered_unasked mint.
Proof.
  intros [row Hrow]. destruct (run_one_cycle w s clock) as [[w' s'] o] eqn:E. simpl.
  apply tick_cases in E as (s1 & r & Hl & Hs). pose proof (list_scope_spec _ _ _ _ Hl) as Hd.
  assert (keeps_row mint s s1) as Hk1 by (unfold keeps_row; by rewrite Hd).
  destruct Hs as [[-> _]|(l & fetched & -> & Hf & ->)]; [by left|].
  destruct (decide (mint ∈ map FetchedMetadata.mint fetched)) as [Hm|Hm].
  - right. apply list_elem_of_fmap in Hm as (item & Hm & Hin). exists (MetadataDb.statements s1), l, fetched, item.
    split_and!; [done..|]. intros Hml. apply (list_scope_elem _ _ _ _ _ Hl) in Hml as [Hn _]. congruence.
  - left. apply (upsert_all_ind (keeps_row mint s)); [|done]. intros s2 item Hin Hk2.
    etrans; [exact Hk2|]. apply upsert_keeps_row. intros ->. apply Hm.
    exact (list_elem_of_fmap_2 FetchedMetadata.mint _ _ Hin).
Qed.

(** A run is its ticks. *)
Lemma run_ind (P : MetadataDb.t -> Prop) w s wakes :
  (forall w s clock, P s -> P (run_one_cycle w s clock).1.2) -> P s -> P (run w s wakes).1.1.2.
Proof.
  intros Hstep. revert w s. induction wakes as [|[clock|] wakes IH]; intros w s HP; [done| |done].
  cbn [run]. pose proof (Hstep w s clock HP) as Hk1. destruct (run_one_cycle w s clock) as [[w1 s1] o].
  specialize (IH w1 s1 Hk1). by destruct (run w1 s1 wakes) as [[[w2 s2] os] st].
Qed.
End Ticks.

(** ** What Helius answers *)

(** The decimals of an asset parsed are a u8. *)
Class DasLaws `{DasNode} : Prop := {
  das_decimals : forall n ids assets asset d,
    get_asset_batch n ids = DasReplied assets -> Some asset ∈ assets ->
    DasAsset.token_info asset = Some (Some d) -> is_uint 8 d;
}.

Section Helius.
Context `{Base58} `{DasNode}.

(** An asset of an answer to a part of what was asked. *)
Definition answered_asset (n : nat) (asked : list Pubkey) (asset : DasAsset.t) : Prop :=
  exists chunk assets, chunk ⊆ asked /\
    get_asset_batch n (map pubkey_to_string chunk) = DasReplied assets /\ Some asset ∈ assets.

Lemma das_fetch_chunk_elem n chunk fetched item :
  das_fetch_chunk n chunk = Ok fetched -> item ∈ fetched ->
  exists asset, answered_asset n chunk asset /\ into_fetched_metadata asset = Some item.
Proof.
  unfold das_fetch_chunk. destruct chunk as [|m chunk]; [by intros [= <-] ?%elem_of_nil|].
  destruct (get_asset_batch _ _) as [| |assets] eqn:Hg; intros E; [done..|]. injection E as <-.
  intros ([asset|] & Hin & Hf)%list_elem_of_omap; [|done]. exists asset. split; [|done].
  by exists (m :: chunk), assets.
Qed.

Lemma das_fetch_all_elem n todo item :
  item ∈ das_fetch_all n todo ->
  exists chunk asset, chunk ∈ todo /\ answered_asset n chunk asset /\ into_fetched_metadata asset = Some item.
Proof.
  induction todo as [|chunk todo IH]; [by intros ?%elem_of_nil|]. cbn [das_fetch_all]. intros Hin.
  destruct (das_fetch_chunk n chunk) as [fetched|e] eqn:Hf; [apply elem_of_app in Hin as [Hin|Hin]|].
  2-3: apply IH in Hin as (chunk' & asset & Hc & Ha); exists chunk', asset; split; [by right|done].
  destruct (das_fetch_chunk_elem _ _ _ _ Hf Hin) as (asset & Ha & Hi). exists chunk, asset. split; [by left|done].
Qed.

Lemma chunk_sub {A} (fuel size : nat) (l c : list A) :
  (0 < size)%nat -> (length l <= fuel)%nat -> c ∈ Jupiter.chunks fuel size l -> c ⊆ l.
Proof.
  intros Hs Hl Hc a Ha. rewrite <-(chunks_concat fuel size l) by done.
  apply list_elem_of_In, in_concat. exists c. by rewrite <-!list_elem_of_In.
Qed.

Lemma das_answers n asked fetched item :
  das_fetch_metadata n asked = Ok fetched -> item ∈ fetched ->
  exists asset, answered_asset n asked asset /\ into_fetched_metadata asset = Some item.
Proof.
  intros [= <-] (chunk & asset & Hc & (c & assets & Hsub & Ha) & Hi)%das_fetch_all_elem.
  exists asset. split; [|done]. exists c, assets. split; [|done]. etrans; [exact Hsub|].
  eapply chunk_sub; [| |exact Hc]; [unfold DAS_BATCH_MAX|]; lia.
Qed.

Lemma fetched_mint asset item :
  into_fetched_metadata asset = Some item -> pubkey_of_string (DasAsset.id asset) = Some (FetchedMetadata.mint item).
Proof.
  unfold into_fetched_metadata. intros Hi. inv_binds. revert Hi.
  match goal with |- context [match ?o with Some _ => _ | None => _ end] => destruct o end; by intros [= <-].
Qed.

(** Helius once answered an asset of [mint] to ids that were not of it. *)
Definition helius_unasked (mint : Pubkey) : Prop :=
  exists n asked assets asset, get_asset_batch n (map pubkey_to_string asked) = DasReplied assets /\
    Some asset ∈ assets /\ pubkey_of_string (DasAsset.id asset) = Some mint /\ mint ∉ asked.

Lemma helius_answered_unasked mint : @answered_unasked helius_das mint -> helius_unasked mint.
Proof.
  intros (n & asked & fetched & item & Hf & Hin & <- & Hm).
  destruct (das_answers _ _ _ _ Hf Hin) as (asset & (chunk & assets & Hsub & Hg & Ha) & Hi).
  exists n, chunk, assets, asset. split_and!; [done|done|by apply fetched_mint|]. intros Hc. by apply Hm, Hsub.
Qed.
End Helius.

(** ** A row is one asset's, for good *)

(** The columns of a row are those of an answered asset: an id that reads as the
    mint, decimals that are a byte, a name, a symbol and the logo picked. *)
Definition shows_asset `{Base58} (mint : Pubkey) (row : TokenMetadataRow.t) (asset : DasAsset.t) : Prop :=
  pubkey_of_string (DasAsset.id asset) = Some mint /\
  DasAsset.token_info asset = Some (Some (TokenMetadataRow.decimals row)) /\
  is_uint 8 (TokenMetadataRow.decimals row) /\
  (let metadata := let! c := DasAsset.content asset in DasContent.metadata c in
   TokenMetadataRow.symbol row = (let! m := metadata in DasMetadata.symbol m) /\
   TokenMetadataRow.name row = (let! m := metadata in DasMetadata.name m)) /\
  TokenMetadataRow.logo_uri row = asset_logo_uri asset /\
  TokenMetadataRow.logo_uri row <> Some "" /\
  TokenMetadataRow.metadata_provider row = "helius_das".

Section Rows.
Context `{Postgres} `{Meanwhile} `{MintOrderLaws} `{Base58} `{!DasNode} `{!DasLaws}.
#[local] Existing Instance helius_das.

Lemma first_uri_non_empty files uri : first_uri files = Some uri -> uri <> "".
Proof.
  induction files as [|file files IH]; [done|]. cbn [first_uri]. unfold filter_non_empty, non_empty_text.
  destruct file as [f|]; simpl; [|done]. destruct (bool_decide (f = "")) eqn:Hf; simpl; [done|].
  intros [= <-]. by apply bool_decide_eq_false in Hf.
Qed.

Lemma asset_logo_uri_non_empty asset : asset_logo_uri asset <> Some "".
Proof.
  unfold asset_logo_uri. destruct (DasAsset.content asset) as [c|]; simpl; [|done].
  unfold filter_non_empty at 1, non_empty_text. destruct (let! links := DasContent.links c in links) as [image|]; simpl.
  - destruct (bool_decide (image = "")) eqn:Hi; simpl.
    + intros E. by apply first_uri_non_empty in E.
    + intros [= ->]. by apply bool_decide_eq_false in Hi.
  - intros E. by apply first_uri_non_empty in E.
Qed.

(** The row an asset's item leaves, whatever was stored. *)
Lemma upserted_shows n ids assets asset item now stored :
  get_asset_batch n ids = DasReplied assets -> Some asset ∈ assets -> into_fetched_metadata asset = Some item ->
  shows_asset (FetchedMetadata.mint item) (upserted_row (token_metadata_of now item) stored) asset.
Proof.
  intros Hg Ha Hi. pose proof (fetched_mint _ _ Hi) as Hm. unfold into_fetched_metadata in Hi. inv_binds.
  assert (DasAsset.token_info asset = Some (Some x0)) as Ht by (by destruct (DasAsset.token_info asset); simplify_eq/=).
  pose proof (das_decimals _ _ _ _ _ Hg Ha Ht) as Hd. revert Hi.
  destruct (let! c := DasAsset.content asset in DasContent.metadata c) as [m|] eqn:Hc; intros [= <-];
    unfold shows_asset; cbn; rewrite Hc; split_and!; try done; apply asset_logo_uri_non_empty.
Qed.

(** Every row shows an asset some answer held. *)
Definition rows_shown (s : MetadataDb.t) : Prop :=
  forall mint row, MetadataDb.token_metadata s !! mint = Some row ->
    exists n ids assets asset, get_asset_batch n ids = DasReplied assets /\ Some asset ∈ assets /\
      shows_asset mint row asset.

Lemma upsert_shown s now item n asked fetched :
  das_fetch_metadata n asked = Ok fetched -> item ∈ fetched ->
  rows_shown s -> rows_shown (upsert s (token_metadata_of now item)).1.
Proof.
  intros Hf Hin Hs. destruct (das_answers _ _ _ _ Hf Hin) as (asset & (chunk & assets & _ & Hg & Ha) & Hi).
  unfold upsert, execute. destruct (fault _); [exact Hs|]. destruct (texts_fit _); [|exact Hs].
  intros mint row. simpl. intros [[<- <-]|[_ Hr]]%lookup_insert_Some; [|by apply Hs].
  exists n, (map pubkey_to_string chunk), assets, asset. split_and!; [done..|]. by eapply upserted_shows.
Qed.

Lemma tick_shown w s clock : rows_shown s -> rows_shown (run_one_cycle w s clock).1.2.
Proof.
  intros Hs. destruct (run_one_cycle w s clock) as [[w' s'] o] eqn:E. simpl.
  apply tick_cases in E as (s1 & r & Hl & Hc). apply list_scope_spec in Hl.
  assert (rows_shown s1) as Hk1 by (intros mint row; rewrite Hl; apply Hs).
  destruct Hc as [[-> _]|(l & fetched & -> & Hf & ->)]; [done|].
  apply (upsert_all_ind rows_shown); [|done]. intros s2 item Hin Hk2.
  by apply (upsert_shown s2 _ item _ _ _ Hf Hin).
Qed.

(** C29: the identity of a token is one asset's, for good. Whatever statements
    fail and whatever Helius answers, a row of [token_metadata] holds the
    columns of an asset Helius answered for its mint, its logo never empty and
    its decimals a byte, and every later tick keeps the row with its first fetch,
    which the api keys its pages by. No later tick touches the rest of it either,
    unless Helius answers its mint to a question that did not ask for it: the
    worker writes what it is answered, and asks for no mint that has a row. *)
Theorem metadata_row_is_one_asset s wakes later :
  MetadataDb.token_metadata s = ∅ ->
  let '(w1, s1, _, _) := run MetadataWorker.new s wakes in
  let '(_, s2, _, _) := run w1 s1 later in
  forall mint row, MetadataDb.token_metadata s1 !! mint = Some row ->
    (exists n ids assets asset, get_asset_batch n ids = DasReplied assets /\ Some asset ∈ assets /\
      shows_asset mint row asset) /\
    (exists row', MetadataDb.token_metadata s2 !! mint = Some row' /\
      TokenMetadataRow.fetched_at row' = TokenMetadataRow.fetched_at row) /\
    (MetadataDb.token_metadata s2 !! mint = Some row \/ helius_unasked mint).
Proof.
  intros He. pose proof (run_ind rows_shown MetadataWorker.new s wakes) as Hr1.
  destruct (run MetadataWorker.new s wakes) as [[[w1 s1] os1] st1].
  assert (rows_shown s1) as Hs1.
  { apply Hr1; [intros w s' clock; apply tick_shown|]. intros mint row. by rewrite He, lookup_empty. }
  destruct (run w1 s1 later) as [[[w2 s2] os2] st2] eqn:E2. intros mint row Hrow. split; [by apply Hs1|]. split.
  - pose proof (run_ind (keeps_first_fetch s1) w1 s1 later) as Hk. rewrite E2 in Hk.
    apply Hk; [|by intros m r Hr; exists r|done]. intros w s' clock Hs'. etrans; [exact Hs'|apply tick_keeps_first_fetch].
  - pose proof (run_ind (fun s => MetadataDb.token_metadata s !! mint = Some row \/ helius_unasked mint) w1 s1 later) as Hr2.
    rewrite E2 in Hr2. apply Hr2; [|by left]. intros w s' clock [Hk|Hu]; [|by right].
    destruct (tick_keeps_row w s' clock mint (mk_is_Some _ _ Hk)) as [Hkr|Hu]; [left|right; by apply helius_answered_unasked].
    unfold keeps_row in Hkr. congruence.
Qed.
End Rows.

(** ** A missing mint gets its row *)

(** Asked for [mint], the source has it, with texts the table takes. *)
Definition knows `{MetadataSource} (mint : Pubkey) : Prop :=
  forall n asked, mint ∈ asked -> exists fetched item, fetch_metadata n asked = Ok fetched /\ item ∈ fetched /\
    FetchedMetadata.mint item = mint /\ texts_fit (token_metadata_of 0 item) = true.

(** The worker has not swept since [t]. *)
Definition last_sweep_before (w : MetadataWorker.t) (t : Z) : Prop :=
  match MetadataWorker.last_full_sweep w with Some at_ => at_ <= t | None => True end.

(** A pool one of whose sides is [mint]. *)
Definition holds_mint (s : MetadataDb.t) (mint : Pubkey) (a : Pubkey) (p : PoolRow.t) : Prop :=
  MetadataDb.pools s !! a = Some p /\ mint ∈ side_mints p.

Section Reach.
Context `{Postgres} `{MeanwhileMints} `{MintOrderLaws} `{MetadataSource}.
Context (mint : Pubkey).
Hypothesis no_fault : forall n, fault n = None.
Hypothesis source_knows : knows mint.

Notation has_row s := (is_Some (MetadataDb.token_metadata s !! mint)).

Lemma keeps_first_fetch_row s s' : keeps_first_fetch s s' -> has_row s -> has_row s'.
Proof. intros Hk [row (row' & -> & _)%Hk]. done. Qed.

Lemma upsert_writes s metadata :
  texts_fit metadata = true -> is_Some (MetadataDb.token_metadata (upsert s metadata).1 !! TokenMetadata.mint metadata).
Proof. intros Ht. unfold upsert, execute. rewrite no_fault, Ht. simpl. by rewrite lookup_insert_eq. Qed.

Lemma upsert_all_writes s now fetched item :
  item ∈ fetched -> FetchedMetadata.mint item = mint -> texts_fit (token_metadata_of 0 item) = true ->
  has_row (upsert_all s now fetched).
Proof.
  intros Hin Hm Ht. revert s. induction fetched as [|i fetched IH]; intros s; [by apply not_elem_of_nil in Hin|].
  cbn [upsert_all]. apply elem_of_cons in Hin as [<-|Hin].
  - pose proof (upsert_writes s (token_metadata_of now item) Ht) as Hw.
    destruct (upsert s _) as [s1 u]. simpl in Hw. rewrite Hm in Hw.
    apply (upsert_all_ind (fun s => has_row s)); [|done]. intros s2 item2 _.
    apply keeps_first_fetch_row, upsert_keeps_first_fetch.
  - destruct (upsert s _) as [s1 u]. by apply IH.
Qed.

(** A tick that lists the mint writes its row. *)
Lemma tick_writes w s clock a p :
  holds_mint s mint a p -> (scope_due w (TickClock.elapsed_at clock) = RecentPools ->
    db_now (MetadataDb.statements s) - seconds 3600 <= PoolRow.first_seen_at p) ->
  has_row (run_one_cycle w s clock).1.2.
Proof.
  intros [Hp Hm] Hrecent. pose proof (tick_keeps_first_fetch w s clock) as Hk.
  destruct (MetadataDb.token_metadata s !! mint) as [row|] eqn:Hrow.
  { eapply keeps_first_fetch_row; [exact Hk|by eexists]. }
  clear Hk. destruct (run_one_cycle w s clock) as [[w' s'] o] eqn:E. simpl.
  apply tick_cases in E as (s1 & r & Hl & Hc).
  destruct r as [l|e].
  2:{ exfalso. revert Hl. unfold list_scope, list_missing_mints_of_recent_pools, list_missing_mints_of_all_pools, execute.
    rewrite no_fault. by destruct (scope_due _ _). }
  assert (mint ∈ l) as Hin.
  { apply (list_scope_elem _ _ _ _ _ Hl). split; [done|].
    destruct (meanwhile_mints (MetadataDb.statements s) (MetadataDb.db s) a p Hp) as (p' & Hp' & Hsides & Hseen).
    exists a, p'. split_and!; [done| |by apply Hsides].
    destruct (scope_due _ _); simpl; [|done]. apply Z.leb_le. rewrite Hseen. by apply Hrecent. }
  destruct (source_knows (MetadataDb.statements s1) l Hin) as (fetched & item & Hf & Hi & Him & Ht).
  destruct Hc as [[-> Hno]|(l' & fetched' & [= <-] & Hf' & ->)].
  - destruct (Hno l eq_refl) as [->|[e He]]; [by apply not_elem_of_nil in Hin|by rewrite Hf in He].
  - rewrite Hf in Hf'. injection Hf' as <-. by apply (upsert_all_writes s1 _ fetched item).
Qed.

(** A tick keeps the pools that hold the mint. *)
Lemma execute_holds {A} s (statement : nat -> MetadataDb.t -> RepositoryResult (MetadataDb.t * A)) :
  (forall n s s' x, statement n s = Ok (s', x) -> MetadataDb.db s' = MetadataDb.db s) ->
  forall a p, holds_mint s mint a p -> exists p', holds_mint (execute s statement).1 mint a p'.
Proof.
  intros Hs a p [Hp Hm]. destruct (meanwhile_mints (MetadataDb.statements s) (MetadataDb.db s) a p Hp) as (p' & Hp' & Hsides & _).
  exists p'. split; [|by apply Hsides]. unfold execute. rewrite no_fault.
  destruct (statement _ _) as [[s' x]|e] eqn:E; simpl; [|done]. apply Hs in E. unfold MetadataDb.pools. by rewrite E.
Qed.

Definition held s : Prop := exists a p, holds_mint s mint a p.

Lemma upsert_held s metadata : held s -> held (upsert s metadata).1.
Proof.
  intros (a & p & Hp). exists a. eapply execute_holds; [|exact Hp].
  intros n s1 s2 [] E. destruct (texts_fit metadata); [|done]. by injection E as <-.
Qed.

Lemma list_scope_held s scope s' r : list_scope s scope = (s', r) -> held s -> held s'.
Proof.
  intros Hl (a & p & Hp). exists a. assert (s' = (list_scope s scope).1) as -> by (by rewrite Hl).
  destruct scope; (eapply execute_holds; [|exact Hp]); intros n s1 s2 x E; by injection E as <- _.
Qed.

Lemma tick_held w s clock : held s -> held (run_one_cycle w s clock).1.2.
Proof.
  intros Hs. destruct (run_one_cycle w s clock) as [[w' s'] o] eqn:E. simpl.
  apply tick_cases in E as (s1 & r & Hl & Hc). apply list_scope_held in Hl; [|done].
  destruct Hc as [[-> _]|(l & fetched & _ & _ & ->)]; [done|].
  apply (upsert_all_ind held); [|done]. intros s2 item _. apply upsert_held.
Qed.

(** A tick that is not a sweep leaves the worker as it was. *)
Lemma tick_worker w s clock :
  scope_due w (TickClock.elapsed_at clock) = RecentPools -> (run_one_cycle w s clock).1.1 = w.
Proof.
  unfold run_one_cycle, enrich_once. intros ->. destruct (list_scope _ _) as [s1 [[|m l]|e]]; [done| |done].
  by destruct (fetch_metadata _ _).
Qed.

Lemma due_after w t elapsed_at :
  last_sweep_before w t -> t + FULL_SWEEP_INTERVAL <= elapsed_at -> scope_due w elapsed_at = AllPools.
Proof.
  unfold last_sweep_before, scope_due. destruct (MetadataWorker.last_full_sweep w) as [at_|]; [|done].
  intros Hat Hlt. assert (0 <= FULL_SWEEP_INTERVAL) by done.
  by rewrite (proj2 (Z.ltb_ge _ _)) by lia.
Qed.

Lemma run_ticks_row w s clocks :
  has_row s -> has_row (run w s (map PollElapsed clocks)).1.1.2.
Proof.
  apply (run_ind (fun s => has_row s)). intros w' s' clock. apply keeps_first_fetch_row, tick_keeps_first_fetch.
Qed.

Lemma run_cons w s clock wakes :
  (run w s (PollElapsed clock :: wakes)).1.1.2 =
    (run (run_one_cycle w s clock).1.1 (run_one_cycle w s clock).1.2 wakes).1.1.2.
Proof.
  cbn [run]. destruct (run_one_cycle w s clock) as [[w1 s1] o]. cbn [fst snd].
  by destruct (run w1 s1 wakes) as [[[w2 s2] os] st].
Qed.

(** One of the ticks sweeps. *)
Lemma sweep_reaches w s t clocks clock :
  last_sweep_before w t -> held s -> clock ∈ clocks -> t + FULL_SWEEP_INTERVAL <= TickClock.elapsed_at clock ->
  has_row (run w s (map PollElapsed clocks)).1.1.2.
Proof.
  intros Hw Hs Hin Hlate. revert w s Hw Hs.
  induction clocks as [|c clocks IH]; intros w s Hw Hs; [by apply not_elem_of_nil in Hin|].
  cbn [map]. rewrite run_cons. destruct (scope_due w (TickClock.elapsed_at c)) eqn:Hdue.
  - apply elem_of_cons in Hin as [->|Hin]; [by rewrite (due_after w t) in Hdue|].
    rewrite (tick_worker w s c Hdue). by apply IH; [|done|apply tick_held].
  - apply run_ticks_row. destruct Hs as (a & p & Hp). eapply tick_writes; [exact Hp|]. by rewrite Hdue.
Qed.
End Reach.

Section Liveness.
Context `{Postgres} `{MeanwhileMints} `{MintOrderLaws} `{MetadataSource}.

(** C38: a token is named within the hour. While no statement fails, a mint of a
    pool that the source knows has its row after one tick when the pool was
    first seen within the last hour, and after the first tick that comes an hour
    or more after the last sweep otherwise; the pools discovered meanwhile take
    nobody's place. *)
Theorem missing_mint_gets_its_row mint w s t clock clocks a p :
  (forall n, fault n = None) -> knows mint -> holds_mint s mint a p -> last_sweep_before w t ->
  db_now (MetadataDb.statements s) - seconds 3600 <= PoolRow.first_seen_at p \/
  (exists c, c ∈ clock :: clocks /\ t + FULL_SWEEP_INTERVAL <= TickClock.elapsed_at c) ->
  is_Some (MetadataDb.token_metadata (run w s (map PollElapsed (clock :: clocks))).1.1.2 !! mint).
Proof.
  intros Hf Hk Hp Hw [Hrecent|(c & Hin & Hc)].
  - cbn [map]. rewrite run_cons. apply run_ticks_row. by eapply tick_writes.
  - eapply sweep_reaches; [done..| |exact Hin|exact Hc]. by exists a, p.
Qed.
End Liveness.

(** ** The Helius client keeps the promise *)

Section HeliusKnows.
Context `{Base58} `{DasNode}.

(** Asked for a batch that holds [mint], Helius has its asset. *)
Definition das_knows (mint : Pubkey) : Prop :=
  forall n chunk, mint ∈ chunk -> (length chunk <= DAS_BATCH_MAX)%nat ->
    exists assets asset item, get_asset_batch n (map pubkey_to_string chunk) = DasReplied assets /\
      Some asset ∈ assets /\ into_fetched_metadata asset = Some item /\ FetchedMetadata.mint item = mint /\
      texts_fit (token_metadata_of 0 item) = true.

Lemma chunks_small {A} (fuel size : nat) (l : list A) :
  Forall (fun c => (length c <= size)%nat) (Jupiter.chunks fuel size l).
Proof.
  revert l. induction fuel as [|fuel IH]; intros [|x l]; cbn [Jupiter.chunks]; constructor; [|apply IH].
  rewrite length_firstn. lia.
Qed.

Lemma das_fetch_all_has n todo chunk asset item assets :
  chunk ∈ todo -> chunk <> [] -> get_asset_batch n (map pubkey_to_string chunk) = DasReplied assets ->
  Some asset ∈ assets -> into_fetched_metadata asset = Some item -> item ∈ das_fetch_all n todo.
Proof.
  intros Hin Hne Hg Ha Hi. induction todo as [|c todo IH]; [by apply not_elem_of_nil in Hin|].
  cbn [das_fetch_all]. apply elem_of_cons in Hin as [<-|Hin].
  - unfold das_fetch_chunk. destruct chunk as [|m chunk]; [done|]. rewrite Hg. apply elem_of_app. left.
    apply list_elem_of_omap. by exists (Some asset).
  - destruct (das_fetch_chunk n c); [apply elem_of_app; right|]; by apply IH.
Qed.

Lemma helius_knows mint : das_knows mint -> knows (H := helius_das) mint.
Proof.
  intros Hk n asked Hin. change (exists fetched item, das_fetch_metadata n asked = Ok fetched /\ item ∈ fetched /\
    FetchedMetadata.mint item = mint /\ texts_fit (token_metadata_of 0 item) = true).
  unfold das_fetch_metadata.
  rewrite <-(chunks_concat (length asked) DAS_BATCH_MAX asked) in Hin by (unfold DAS_BATCH_MAX; lia).
  apply list_elem_of_In, in_concat in Hin as (chunk & Hc%list_elem_of_In & Hm%list_elem_of_In).
  pose proof (chunks_small (length asked) DAS_BATCH_MAX asked) as Hs. rewrite Forall_forall in Hs.
  destruct (Hk n chunk Hm (Hs chunk Hc)) as (assets & asset & item & Hg & Ha & Hi & Him & Ht).
  eexists _, item. split_and!; [reflexivity| |done..].
  eapply das_fetch_all_has; [exact Hc| |exact Hg|exact Ha|exact Hi]. intros ->. by apply not_elem_of_nil in Hm.
Qed.
End HeliusKnows.

(** ** A text the table refuses *)

(** A mint whose name, symbol or logo holds a NUL, as a JSON text may, never has
    a row: it stays in the list, and is asked for again at every sweep. *)
Theorem nul_keeps_a_mint_missing `{Postgres} `{Meanwhile} `{MintOrder} `{MetadataSource} mint w s wakes :
  (forall n asked fetched item, fetch_metadata n asked = Ok fetched -> item ∈ fetched ->
    FetchedMetadata.mint item = mint -> texts_fit (token_metadata_of 0 item) = false) ->
  MetadataDb.token_metadata s !! mint = None ->
  MetadataDb.token_metadata (run w s wakes).1.1.2 !! mint = None.
Proof.
  intros Hnul. apply (run_ind (fun s => MetadataDb.token_metadata s !! mint = None)). clear s w wakes.
  intros w s clock Hs. destruct (run_one_cycle w s clock) as [[w' s'] o] eqn:E. simpl.
  apply tick_cases in E as (s1 & r & Hl & Hc). apply list_scope_spec in Hl. rewrite <-Hl in Hs.
  destruct Hc as [[-> _]|(l & fetched & _ & Hf & ->)]; [done|].
  apply (upsert_all_ind (fun s => MetadataDb.token_metadata s !! mint = None)); [|done]. intros s2 item Hin Hs2.
  destruct (decide (FetchedMetadata.mint item = mint)) as [Hm|Hne].
  - pose proof (Hnul _ _ _ _ Hf Hin Hm) as Hfit.
    change (texts_fit (token_metadata_of (TickClock.now clock) item) = false) in Hfit.
    unfold upsert, execute. rewrite Hfit. by destruct (fault _).
  - pose proof (upsert_keeps_row s2 (token_metadata_of (TickClock.now clock) item) mint) as Hk.
    unfold keeps_row in Hk. rewrite Hk; [done|]. intros ->. by apply Hne.
Qed.

(** ** Witnesses *)

Module Named.
#[local] Instance database : Postgres := { fault := fun _ => None; db_now := fun _ => seconds 3600 }.
#[local] Instance nobody : Meanwhile := { meanwhile := fun _ d => d }.
#[local] Instance nobody_mints : MeanwhileMints.
Proof. split. intros n d a p Hp. by exists p. Qed.
#[local] Instance in_order : MintOrder := { scanned_mints := fun _ l => l }.
#[local] Instance in_order_laws : MintOrderLaws.
Proof. by split. Qed.

(** Helius has a name, six decimals and a logo among the files for every id. *)
Definition asset (id : string) : option DasAsset.t :=
  Some (DasAsset.mk id (Some (DasContent.mk (Some (DasMetadata.mk (Some "Alpha") (Some "A")))
    [None; Some ""; Some "https://a/b.png"] (Some (Some "")))) (Some (Some 6))).
#[local] Instance node : DasNode := { get_asset_batch := fun _ ids => DasReplied (map asset ids) }.
#[local] Instance node_laws : DasLaws.
Proof.
  split. intros n ids assets a d [= <-] (id & Ha & _)%list_elem_of_fmap. injection Ha as ->.
  intros [= <-]. by apply in_uint_spec.
Qed.

Definition mint : Pubkey := repeat 1 32.
Definition pool : Pubkey := repeat 2 32.
Definition row : PoolRow.t := PoolRow.mk MeteoraDammV2 (Some mint) None 0 0 false.
Definition before : MetadataDb.t := MetadataDb.mk (Db.set_pools Db.empty {[pool := row]}) ∅.
Definition tick (at_ : Z) : MetadataWake := PollElapsed (TickClock.mk at_ at_ at_).

Lemma metadata_row_is_one_asset_witness :
  (let '(w1, s1, _, _) := run (H2 := helius_das) MetadataWorker.new before [tick 0] in
   let '(_, s2, _, _) := run (H2 := helius_das) w1 s1 [tick 10] in
   forall m row, MetadataDb.token_metadata s1 !! m = Some row ->
     (exists n ids assets asset, get_asset_batch n ids = DasReplied assets /\ Some asset ∈ assets /\
       shows_asset m row asset) /\
     (exists row', MetadataDb.token_metadata s2 !! m = Some row' /\
       TokenMetadataRow.fetched_at row' = TokenMetadataRow.fetched_at row) /\
     (MetadataDb.token_metadata s2 !! m = Some row \/ helius_unasked m)) /\
  TokenMetadataRow.logo_uri <$>
    MetadataDb.token_metadata (run (H2 := helius_das) MetadataWorker.new before [tick 0]).1.1.2 !! mint =
      Some (Some "https://a/b.png").
Proof.
  split; [|vm_compute; reflexivity].
  apply (metadata_row_is_one_asset before [tick 0] [tick 10]); reflexivity.
Defined.

Lemma missing_mint_gets_its_row_witness :
  is_Some (MetadataDb.token_metadata (run (H2 := helius_das) MetadataWorker.new before
    (map PollElapsed [TickClock.mk 0 0 0])).1.1.2 !! mint).
Proof.
  apply (missing_mint_gets_its_row (H4 := helius_das) mint MetadataWorker.new before 0 (TickClock.mk 0 0 0) [] pool row).
  - reflexivity.
  - apply helius_knows. intros n chunk Hm _. exists (map asset (map pubkey_to_string chunk)).
    eexists _, _. split_and!; [reflexivity| | | |].
    + apply list_elem_of_fmap. exists (pubkey_to_string mint). split; [reflexivity|]. by apply list_elem_of_fmap_2.
    + vm_compute. reflexivity.
    + reflexivity.
    + reflexivity.
  - split; [vm_compute; reflexivity|apply list_elem_of_here].
  - exact I.
  - left. vm_compute. discriminate.
Defined.
End Named.
