(* ===== verification/Catalogue.v ===== *)
(** * The catalogue: the pools and the tokens the api lists

    The reads of [src/crates/persistence/src/repositories/]: token_metadata.rs,
    token_price.rs and pool.rs with their rows, as the statements they send; the
    services of [src/crates/api/src/application/services/] (token_service.rs,
    pool_service.rs), the requests of http/dto/request/, the responses of
    http/dto/response/token.rs and the handlers http/handlers/token.rs and
    pools.rs.

    A statement sees the tables of its moment, the rows of the view
    [pool_current_tvl] among them; the rows are unordered until the source orders
    them. The detail of one pool is left out. *)

From Stdlib Require Import QArith.
From S2P Require Import Prelude Errors External OrderedMap Domain Store Rows Signals Analytic Cursor Keyset EventLists EventApi.
From S2P Require Import Price Metadata.
#[local] Open Scope Z_scope.

(** ** The tables at each statement *)

(** A row of the view [pool_current_tvl]. *)
Module PoolCurrentTvlRow.
Record t : Type := mk {
  value_a_usd : option Q;
  value_b_usd : option Q;
  tvl_usd : option Q;
}.
End PoolCurrentTvlRow.

Module CatalogueDb.
Record t : Type := mk {
  pools : gmap Pubkey PoolRow.t;
  fee_bps : gmap Pubkey Q;
  token_metadata : gmap Pubkey TokenMetadataRow.t;
  pool_current_state : gmap Pubkey PoolCurrentStateRow.t;
  pool_current_tvl : gmap Pubkey PoolCurrentTvlRow.t;
  prices : PriceDb.t;
}.
End CatalogueDb.

Class CatalogueTables : Type := { catalogue_at : nat -> CatalogueDb.t }.

Definition read `{Postgres} `{CatalogueTables} {A} (q : CatalogueDb.t -> A) : Query RepositoryError A := fun n =>
  (S n, match fault n with Some e => Err e | None => Ok (q (catalogue_at n)) end).

(** sqlx's [rust_decimal::Decimal] of a [NUMERIC]. *)
Class NumericDecimal (D : Type) : Type := { decimal_of_numeric : Q -> option D }.

(** A column that does not decode, as [map_sqlx_error] leaves it. *)
Definition column_decode (column : string) : RepositoryError := Backend ("error occurred while decoding column " ++ column).

(** ** Keys, newest first *)

(** An instant, then the text that parts the rows of one instant. *)
Definition PageKey : Type := DateTime * string.

Section Keys.
Context `{Collation}.

(** [ORDER BY instant DESC, text DESC]. *)
Definition newer_key (a b : PageKey) : bool :=
  (fst b <? fst a) || ((fst b =? fst a) && text_ltb (snd b) (snd a)).

(** [instant <= COALESCE($1, 'infinity') AND (instant < COALESCE($1,
    'infinity') OR text < $2)]; both are NULL without a cursor. *)
Definition past_key (cursor : option PageKey) (k : PageKey) : bool :=
  match cursor with
  | Some (at_, text) => (fst k <=? at_) && ((fst k <? at_) || text_ltb (snd k) text)
  | None => true
  end.
End Keys.

(** [Page { prev_cursor: None, ..page }]. *)
Definition forward_only {D T} (page : Page.t D T) : Page.t D T :=
  Page.mk (Page.items page) (Page.next_cursor page) None (Page.is_first page) (Page.is_last page).

(** ** [token_metadata/rows.rs] *)

Definition parse_metadata_provider (raw : string) : RepositoryResult MetadataProvider :=
  map_err (fun _ => Integrity ("invalid price_provider: unknown program id: " ++ raw)) (MetadataProvider_from_str raw).

Definition parse_price_provider (raw : string) : RepositoryResult PriceProvider :=
  map_err (fun _ => Integrity ("invalid price_provider: unknown program id: " ++ raw)) (PriceProvider_from_str raw).

Module TokenEntry.
Record t (D : Type) : Type := mk {
  metadata : TokenMetadata.t;
  price : option (TokenPrice.t D);
}.
Arguments mk {D}.
Arguments metadata {D}.
Arguments price {D}.
End TokenEntry.

Section TokenRows.
Context {D : Type} `{!NumericDecimal D} `{Base58}.

Definition TokenMetadata_try_from (mint : Pubkey) (row : TokenMetadataRow.t) : RepositoryResult TokenMetadata.t :=
  let? mint := convert_string_to_pubkey (pubkey_to_string mint) "mint" in
  let? decimals := convert_i16_to_u8 (TokenMetadataRow.decimals row) "decimals" in
  let? metadata_provider := parse_metadata_provider (TokenMetadataRow.metadata_provider row) in
  Ok (TokenMetadata.mk mint (TokenMetadataRow.symbol row) (TokenMetadataRow.name row) decimals
    (TokenMetadataRow.logo_uri row) metadata_provider (TokenMetadataRow.fetched_at row)
    (TokenMetadataRow.last_refresh_at row)).

(** A row of [token_prices] as fetched: its price decoded. *)
Definition FetchedPriceRow : Type := DateTime * D * TokenPriceRow.t.

Definition decode_price (row : DateTime * TokenPriceRow.t) : RepositoryResult FetchedPriceRow :=
  let? price_usd := ok_or (decimal_of_numeric (TokenPriceRow.price_usd (snd row))) (column_decode "price_usd") in
  Ok (fst row, price_usd, snd row).

Definition TokenPrice_try_from (mint : Pubkey) (row : FetchedPriceRow) : RepositoryResult (TokenPrice.t D) :=
  let '(fetched_at, price_usd, row) := row in
  let? mint := convert_string_to_pubkey (pubkey_to_string mint) "mint" in
  let? price_provider := parse_price_provider (TokenPriceRow.price_provider row) in
  Ok (TokenPrice.mk mint price_usd price_provider (TokenPriceRow.confidence row) fetched_at).

(** The latest price of a mint: [token_last_price], then its row of
    [token_prices] by key; absent when either is. *)
Definition joined_price (d : PriceDb.t) (mint : Pubkey) : option (DateTime * TokenPriceRow.t) :=
  let! last := PriceDb.token_last_price d !! mint in
  let! row := PriceDb.token_prices d !! (mint, snd last) in
  Some (snd last, row).

(** A row of the page as fetched. *)
Definition FetchedTokenRow : Type := Pubkey * TokenMetadataRow.t * option FetchedPriceRow.

Definition decode_token (d : PriceDb.t) (row : Pubkey * TokenMetadataRow.t) : RepositoryResult FetchedTokenRow :=
  let? price :=
    match joined_price d (fst row) with
    | Some price => result_map Some (decode_price price)
    | None => Ok None
    end in
  Ok (row, price).

Definition TokenEntry_try_from (row : FetchedTokenRow) : RepositoryResult (TokenEntry.t D) :=
  let '(mint, row, price) := row in
  let? price :=
    match price with
    | Some price => result_map Some (TokenPrice_try_from mint price)
    | None => Ok None
    end in
  let? metadata := TokenMetadata_try_from mint row in
  Ok (TokenEntry.mk metadata price).
End TokenRows.

(** ** [token_metadata.rs], [token_price.rs]: the reads *)

Section TokenReads.
Context {D : Type} `{!NumericDecimal D} `{Base58} `{Postgres} `{CatalogueTables} `{Collation}.

Definition find_by_mint (mint : Pubkey) : Query RepositoryError (option TokenMetadata.t) :=
  let> row := read (fun t => CatalogueDb.token_metadata t !! mint) in
  query_lift (match row with
    | Some row => result_map Some (TokenMetadata_try_from mint row)
    | None => Ok None
    end).

Definition find_by_mints (mints : list Pubkey) : Query RepositoryError (list TokenMetadata.t) :=
  let> rows := read (fun t => List.filter (fun r => bool_decide (fst r ∈ mints))
    (map_to_list (CatalogueDb.token_metadata t))) in
  query_lift (collect (fun r => TokenMetadata_try_from (fst r) (snd r)) rows).

Definition token_key (row : Pubkey * TokenMetadataRow.t) : PageKey :=
  (TokenMetadataRow.fetched_at (snd row), pubkey_to_string (fst row)).

Definition list_token_entries (cursor : option TokenCursor.t) (limit : Z) :
    Query RepositoryError (Page.t D (TokenEntry.t D)) :=
  let had_cursor := bool_decide (is_Some cursor) in
  let after := (fun c => (TokenCursor.fetched_at c, pubkey_to_string (TokenCursor.mint c))) <$> cursor in
  let> rows := read (fun t =>
    (CatalogueDb.prices t,
     Keyset.limit (limit + 1) (order_by token_key newer_key
       (List.filter (fun row => past_key after (token_key row)) (map_to_list (CatalogueDb.token_metadata t)))))) in
  let> rows := query_lift (collect (decode_token (fst rows)) (snd rows)) in
  let> entries := query_lift (collect TokenEntry_try_from rows) in
  query_ret (forward_only (PageBuilder.finalize (PageBuilder.mk entries limit Forward had_cursor)
    (fun entry => Cursor.Token (TokenCursor.mk (TokenMetadata.fetched_at (TokenEntry.metadata entry))
      (TokenMetadata.mint (TokenEntry.metadata entry)))))).

(** [ORDER BY fetched_at DESC LIMIT 1]. *)
Definition find_latest_price (mint : Pubkey) : Query RepositoryError (option (TokenPrice.t D)) :=
  let> row := read (fun t => find_latest_by_mint (CatalogueDb.prices t) mint) in
  query_lift (match row with
    | Some row => let? row := decode_price row in result_map Some (TokenPrice_try_from mint row)
    | None => Ok None
    end).

(** The prices of one mint, keyed by their instant. *)
Definition prices_of (mint : Pubkey) (d : PriceDb.t) : list (DateTime * TokenPriceRow.t) :=
  omap (fun r => if bool_decide (fst (fst r) = mint) then Some (snd (fst r), snd r) else None)
    (map_to_list (PriceDb.token_prices d)).

Definition later_first (a b : DateTime) : bool := b <? a.

Definition list_prices (mint : Pubkey) (from : DateTime) (cursor : option TokenPriceCursor.t) (limit : Z) :
    Query RepositoryError (Page.t D (TokenPrice.t D)) :=
  let had_cursor := bool_decide (is_Some cursor) in
  let> rows := read (fun t =>
    Keyset.limit (limit + 1) (order_by fst later_first
      (List.filter (fun row => (from <=? fst row) &&
          match cursor with Some c => fst row <? TokenPriceCursor.fetched_at c | None => true end)
        (prices_of mint (CatalogueDb.prices t))))) in
  let> rows := query_lift (collect decode_price rows) in
  let> prices := query_lift (collect (TokenPrice_try_from mint) rows) in
  query_ret (forward_only (PageBuilder.finalize (PageBuilder.mk prices limit Forward had_cursor)
    (fun price => Cursor.TokenPrice (TokenPriceCursor.mk (TokenPrice.mint price) from (TokenPrice.fetched_at price))))).
End TokenReads.

(** ** [pool/rows.rs], [pool.rs]: the reads *)

Module PoolCurrentState.
Record t : Type := mk {
  last_event_at : DateTime;
  last_event_kind : LastEventKind;
  reserve_a : Z;
  reserve_b : Z;
  last_swap_at : option DateTime;
}.
End PoolCurrentState.

Module PoolValue.
Record t (D : Type) : Type := mk {
  value_a_usd : option D;
  value_b_usd : option D;
  tvl_usd : option D;
}.
Arguments mk {D}.
Arguments value_a_usd {D}.
Arguments value_b_usd {D}.
Arguments tvl_usd {D}.
End PoolValue.

(** [pool] with the two columns [Pool.t] has not. *)
Module PoolEntry.
Record t (D : Type) : Type := mk {
  pool : Pool.t;
  fee_bps : option D;
  first_seen_at : DateTime;
  token_a : option TokenMetadata.t;
  token_b : option TokenMetadata.t;
  state : option PoolCurrentState.t;
  value : PoolValue.t D;
}.
Arguments mk {D}.
Arguments pool {D}.
Arguments fee_bps {D}.
Arguments first_seen_at {D}.
Arguments token_a {D}.
Arguments token_b {D}.
Arguments state {D}.
Arguments value {D}.
End PoolEntry.

Section PoolReads.
Context {D : Type} `{!NumericDecimal D} `{!DecimalFromStr D} `{!BigDecimal Q} `{Base58} `{Postgres} `{CatalogueTables} `{Collation}.

(** A row of [pools] as fetched: its fee decoded. *)
Definition FetchedPoolRow : Type := Pubkey * PoolRow.t * option D.

Definition decode_pool (t : CatalogueDb.t) (r : Pubkey * PoolRow.t) : RepositoryResult FetchedPoolRow :=
  let? fee_bps :=
    match CatalogueDb.fee_bps t !! fst r with
    | Some fee => result_map Some (ok_or (decimal_of_numeric fee) (column_decode "fee_bps"))
    | None => Ok None
    end in
  Ok (r, fee_bps).

Definition mint_column (mint : option Pubkey) (field : string) : RepositoryResult (option Pubkey) :=
  convert_optional (pubkey_to_string <$> mint) field convert_string_to_pubkey.

Definition Pool_try_from (address : Pubkey) (row : PoolRow.t) : RepositoryResult Pool.t :=
  let? pool_address := convert_string_to_pubkey (pubkey_to_string address) "pool_address" in
  let? protocol := Parser.parse_protocol (Protocol_as_str (PoolRow.protocol row)) in
  let? token_a_mint := mint_column (PoolRow.token_a_mint row) "token_a_mint" in
  let? token_b_mint := mint_column (PoolRow.token_b_mint row) "token_b_mint" in
  Ok (Pool.mk pool_address protocol token_a_mint token_b_mint (PoolRow.last_seen_at row)).

(** [convert_side]: the metadata joined to a side. *)
Definition convert_side (t : CatalogueDb.t) (mint : option Pubkey) : RepositoryResult (option TokenMetadata.t) :=
  match mint with
  | Some mint =>
    match CatalogueDb.token_metadata t !! mint with
    | Some row => result_map Some (TokenMetadata_try_from mint row)
    | None => Ok None
    end
  | None => Ok None
  end.

Definition state_column (row : PoolCurrentStateRow.t) : RepositoryResult PoolCurrentState.t :=
  let? reserve_a := convert_i64_to_u64 (PoolCurrentStateRow.reserve_a row) "reserve_a" in
  let? reserve_b := convert_i64_to_u64 (PoolCurrentStateRow.reserve_b row) "reserve_b" in
  Ok (PoolCurrentState.mk (PoolCurrentStateRow.last_event_at row) (PoolCurrentStateRow.last_event_kind row)
    reserve_a reserve_b (PoolCurrentStateRow.last_swap_at row)).

(** Unvalued when a [Decimal] does not hold it. *)
Definition convert_value (value : option Q) (field : string) : option D :=
  let! value := value in
  match Parser.convert_bigdecimal_to_decimal value field with
  | Ok d => Some d
  | Err _ => None
  end.

Definition PoolEntry_try_from (t : CatalogueDb.t) (r : FetchedPoolRow) : RepositoryResult (PoolEntry.t D) :=
  let '(address, row, fee_bps) := r in
  let? token_a := convert_side t (PoolRow.token_a_mint row) in
  let? token_b := convert_side t (PoolRow.token_b_mint row) in
  let? state :=
    match CatalogueDb.pool_current_state t !! address with
    | Some row => result_map Some (state_column row)
    | None => Ok None
    end in
  let? pool := Pool_try_from address row in
  let tvl := CatalogueDb.pool_current_tvl t !! address in
  Ok (PoolEntry.mk pool fee_bps (PoolRow.first_seen_at row) token_a token_b state
    (PoolValue.mk (convert_value (let! r := tvl in PoolCurrentTvlRow.value_a_usd r) "value_a_usd")
      (convert_value (let! r := tvl in PoolCurrentTvlRow.value_b_usd r) "value_b_usd")
      (convert_value (let! r := tvl in PoolCurrentTvlRow.tvl_usd r) "tvl_usd"))).

(** [WHERE pool_address = ANY($1)]. *)
Definition pools_among (addresses : list Pubkey) (t : CatalogueDb.t) : list (Pubkey * PoolRow.t) :=
  List.filter (fun r => bool_decide (fst r ∈ addresses)) (map_to_list (CatalogueDb.pools t)).

Definition find_pools_by_addresses (pool_addresses : list Pubkey) : Query RepositoryError (list Pool.t) :=
  let> rows := read (fun t => (t, pools_among pool_addresses t)) in
  let> rows := query_lift (collect (decode_pool (fst rows)) (snd rows)) in
  query_lift (collect (fun r => Pool_try_from (fst (fst r)) (snd (fst r))) rows).

Definition read_entries (addresses : list Pubkey) : Query RepositoryError (list (PoolEntry.t D)) :=
  let> rows := read (fun t => (t, pools_among addresses t)) in
  let> fetched := query_lift (collect (decode_pool (fst rows)) (snd rows)) in
  query_lift (collect (PoolEntry_try_from (fst rows)) fetched).

Definition in_pool_scope (scope : PoolScope.t) (row : PoolRow.t) : bool :=
  match scope with
  | PoolScope.All => true
  | PoolScope.Protocol protocol => bool_decide (PoolRow.protocol row = protocol)
  | PoolScope.Token mint =>
      bool_decide (PoolRow.token_a_mint row = Some mint) || bool_decide (PoolRow.token_b_mint row = Some mint)
  end.

Definition pool_key (r : Pubkey * PoolRow.t) : PageKey :=
  (PoolRow.first_seen_at (snd r), pubkey_to_string (fst r)).

Definition list_keys (scope : PoolScope.t) (after : option PageKey) (limit : Z) :
    Query RepositoryError (list Pubkey) :=
  read (fun t => map fst (Keyset.limit limit (order_by pool_key newer_key
    (List.filter (fun r => in_pool_scope scope (snd r) && past_key after (pool_key r))
      (map_to_list (CatalogueDb.pools t)))))).

(** [addresses.iter().position(..)]; [None] sorts first. *)
Definition position_of (addresses : list Pubkey) (entry : PoolEntry.t D) : Z :=
  match list_find (fun address => address = Pool.pool_address (PoolEntry.pool entry)) addresses with
  | Some (i, _) => Z.of_nat i
  | None => -1
  end.

Definition list_pool_entries (scope : PoolScope.t) (cursor : option PoolCursor.t) (limit : Z) :
    Query RepositoryError (Page.t D (PoolEntry.t D)) :=
  let had_cursor := bool_decide (is_Some cursor) in
  let after := (fun c => (PoolCursor.first_seen_at c, pubkey_to_string (PoolCursor.pool_address c))) <$> cursor in
  let> keys := list_keys scope after (limit + 1) in
  let> addresses := query_lift
    (collect (fun key => convert_string_to_pubkey (pubkey_to_string key) "pool_address") keys) in
  let> entries := read_entries addresses in
  let entries := sort_by_key (position_of addresses) entries in
  query_ret (forward_only (PageBuilder.finalize (PageBuilder.mk entries limit Forward had_cursor)
    (fun entry => Cursor.Pool (PoolCursor.mk scope (PoolEntry.first_seen_at entry)
      (Pool.pool_address (PoolEntry.pool entry)))))).

Definition find_entry (pool_address : Pubkey) : Query RepositoryError (option (PoolEntry.t D)) :=
  let> entries := read_entries [pool_address] in
  query_ret (last entries).
End PoolReads.

(** The lookups of the api's pairs, over these tables. *)
#[global] Instance pg_token_metadata `{Base58} `{Postgres} `{CatalogueTables} : TokenMetadataLookup := {
  EventApi.find_by_mints := find_by_mints;
}.
Definition pg_pools {D} `{!NumericDecimal D} `{Base58} `{Postgres} `{CatalogueTables} : PoolCatalog := {|
  find_by_addresses := find_pools_by_addresses (D := D);
|}.

(** ** [token_service.rs] *)

Module TokenAggregate.
Record t (D : Type) : Type := mk {
  metadata : TokenMetadata.t;
  price : option (TokenPrice.t D);
}.
Arguments mk {D}.
Arguments metadata {D}.
Arguments price {D}.
End TokenAggregate.

Section TokenService.
Context {D : Type} `{!NumericDecimal D} `{Base58} `{Postgres} `{CatalogueTables} `{Collation}.

Definition get_token_aggregate (mint : Pubkey) : Query RepositoryError (option (TokenAggregate.t D)) :=
  let> metadata := find_by_mint mint in
  match metadata with
  | None => query_ret None
  | Some metadata =>
    let> price := find_latest_price mint in
    query_ret (Some (TokenAggregate.mk metadata price))
  end.

Definition list_token_prices_page (mint : Pubkey) (window : Window) (cursor : option TokenPriceCursor.t)
    (limit : Z) (now : DateTime) : Query RepositoryError (Page.t D (TokenPrice.t D)) :=
  let from := match cursor with
              | Some c => TokenPriceCursor.from c
              | None => now - Window_duration window
              end in
  list_prices mint from cursor limit.
End TokenService.

(** ** Requests *)

Module CursorParams.
Record t : Type := mk {
  cursor : option string;
  limit : Z;
}.
End CursorParams.

Module TokenPricesParams.
Record t : Type := mk {
  window : WindowParam;
  cursor : option string;
  limit : Z;
}.
End TokenPricesParams.

Module ListTokenPricesRequest.
Record t : Type := mk {
  mint : Pubkey;
  window : Window;
  cursor : option TokenPriceCursor.t;
  limit : Z;
}.
End ListTokenPricesRequest.

Section Requests.
Context `{Base58} `{Rfc3339} `{SerdeJson} `{Base64}.

(** [cursor.as_deref().map(|raw| non_empty("cursor", raw).and_then(decode))
    .transpose()]. *)
Definition parse_cursor_with {C} (decode : string -> result C ApiError) (cursor : option string) :
    result (option C) ApiError :=
  match cursor with
  | Some raw => result_map Some (let? raw := non_empty "cursor" raw in decode raw)
  | None => Ok None
  end.

(** [list_tokens.rs]. *)
Definition parse_list_tokens (params : CursorParams.t) : result (option TokenCursor.t * Z) ApiError :=
  let? _ := validate_limit (CursorParams.limit params) in
  let? cursor := parse_cursor_with decode_token_cursor (CursorParams.cursor params) in
  Ok (cursor, CursorParams.limit params).

(** [list_pools.rs]. *)
Definition parse_list_pools (params : CursorParams.t) (scope : PoolScope.t) :
    result (PoolScope.t * option PoolCursor.t * Z) ApiError :=
  let? _ := validate_limit (CursorParams.limit params) in
  let? cursor := parse_cursor_with (fun raw => decode_pool_cursor raw scope) (CursorParams.cursor params) in
  Ok (scope, cursor, CursorParams.limit params).

(** [list_token_prices.rs]. *)
Definition parse_list_token_prices (mint : string) (params : TokenPricesParams.t) :
    result ListTokenPricesRequest.t ApiError :=
  let? mint := parse_address mint "mint" in
  let? _ := validate_limit (TokenPricesParams.limit params) in
  let? cursor := parse_cursor_with (fun raw => decode_token_price_cursor raw mint) (TokenPricesParams.cursor params) in
  Ok (ListTokenPricesRequest.mk mint (Window_from_WindowParam (TokenPricesParams.window params)) cursor
    (TokenPricesParams.limit params)).

Definition parse_mint (raw : string) : result Pubkey ApiError := parse_address raw "mint".
End Requests.

(** ** Responses ([dto/response/token.rs], token/, pool.rs, page.rs) *)

(** [url::Url::parse(_)]: the scheme of a text that parses. *)
Class UrlParse : Type := { url_scheme : string -> option string }.

Module TokenPriceResponse.
Record t (D : Type) : Type := mk {
  usd : D;
  provider : PriceProvider;
  fetched_at : DateTime;
}.
Arguments mk {D}.
Arguments usd {D}.
Arguments provider {D}.
Arguments fetched_at {D}.
End TokenPriceResponse.

Module TokenResponse.
Record t (D : Type) : Type := mk {
  mint : string;
  symbol : option string;
  name : option string;
  decimals : Z;
  logo_uri : option string;
  fetched_at : DateTime;
  last_refresh_at : DateTime;
  price : option (TokenPriceResponse.t D);
}.
Arguments mk {D}.
Arguments mint {D}.
Arguments symbol {D}.
Arguments name {D}.
Arguments decimals {D}.
Arguments logo_uri {D}.
Arguments fetched_at {D}.
Arguments last_refresh_at {D}.
Arguments price {D}.
End TokenResponse.

Module EmbeddedTokenResponse.
Record t : Type := mk {
  mint : option string;
  symbol : option string;
  name : option string;
  decimals : option Z;
  logo_uri : option string;
}.
End EmbeddedTokenResponse.

Module PoolStateResponse.
Record t (D : Type) : Type := mk {
  last_event_at : DateTime;
  last_event_kind : LastEventKind;
  reserve_a : string;
  reserve_b : string;
  last_swap_at : option DateTime;
  value_a_usd : option D;
  value_b_usd : option D;
  tvl_usd : option D;
}.
Arguments mk {D}.
End PoolStateResponse.

Module PoolResponse.
Record t (D : Type) : Type := mk {
  pool_address : string;
  protocol : Protocol;
  token_a : EmbeddedTokenResponse.t;
  token_b : EmbeddedTokenResponse.t;
  fee_bps : option D;
  first_seen_at : DateTime;
  last_seen_at : DateTime;
  state : option (PoolStateResponse.t D);
}.
Arguments mk {D}.
Arguments pool_address {D}.
Arguments protocol {D}.
Arguments token_a {D}.
Arguments token_b {D}.
Arguments fee_bps {D}.
Arguments first_seen_at {D}.
Arguments last_seen_at {D}.
Arguments state {D}.
End PoolResponse.

Section Responses.
Context {D : Type} `{!DecimalText D} `{!DecimalFromStr D} `{UrlParse}.
Context `{Base58} `{SignatureDisplay} `{Rfc3339} `{SerdeJson} `{Base64}.

(** Only an [http] or [https] URL is kept. *)
Definition logo_uri (raw : option string) : option string :=
  let! s := raw in
  let! scheme := url_scheme s in
  if bool_decide (scheme = "http") || bool_decide (scheme = "https") then Some s else None.

Definition TokenPriceResponse_from (price : TokenPrice.t D) : TokenPriceResponse.t D :=
  TokenPriceResponse.mk (TokenPrice.price_usd price) (TokenPrice.price_provider price) (TokenPrice.fetched_at price).

Definition TokenResponse_new (metadata : TokenMetadata.t) (price : option (TokenPrice.t D)) : TokenResponse.t D :=
  TokenResponse.mk (pubkey_to_string (TokenMetadata.mint metadata)) (TokenMetadata.symbol metadata)
    (TokenMetadata.name metadata) (TokenMetadata.decimals metadata) (logo_uri (TokenMetadata.logo_uri metadata))
    (TokenMetadata.fetched_at metadata) (TokenMetadata.last_refresh_at metadata) (TokenPriceResponse_from <$> price).

Definition TokenResponse_from (entry : TokenEntry.t D) : TokenResponse.t D :=
  TokenResponse_new (TokenEntry.metadata entry) (TokenEntry.price entry).

Definition EmbeddedTokenResponse_from_sources (mint : option Pubkey) (metadata : option TokenMetadata.t) :
    EmbeddedTokenResponse.t :=
  EmbeddedTokenResponse.mk (pubkey_to_string <$> mint)
    (let! m := metadata in TokenMetadata.symbol m) (let! m := metadata in TokenMetadata.name m)
    (TokenMetadata.decimals <$> metadata) (let! m := metadata in logo_uri (TokenMetadata.logo_uri m)).

Definition PoolStateResponse_new (state : PoolCurrentState.t) (value : PoolValue.t D) : PoolStateResponse.t D :=
  PoolStateResponse.mk (PoolCurrentState.last_event_at state) (PoolCurrentState.last_event_kind state)
    (pretty.pretty (PoolCurrentState.reserve_a state)) (pretty.pretty (PoolCurrentState.reserve_b state))
    (PoolCurrentState.last_swap_at state)
    (PoolValue.value_a_usd value) (PoolValue.value_b_usd value) (PoolValue.tvl_usd value).

Definition PoolResponse_from (entry : PoolEntry.t D) : PoolResponse.t D :=
  let pool := PoolEntry.pool entry in
  PoolResponse.mk (pubkey_to_string (Pool.pool_address pool)) (Pool.protocol pool)
    (EmbeddedTokenResponse_from_sources (Pool.token_a_mint pool) (PoolEntry.token_a entry))
    (EmbeddedTokenResponse_from_sources (Pool.token_b_mint pool) (PoolEntry.token_b entry))
    (PoolEntry.fee_bps entry) (PoolEntry.first_seen_at entry) (Pool.last_seen_at pool)
    ((fun state => PoolStateResponse_new state (PoolEntry.value entry)) <$> PoolEntry.state entry).

(** [PageResponse::from_page], the items converted. *)
Definition page_response {I T} (into : I -> T) (page : Page.t D I) : result (PageResponse.t T) ApiError :=
  from_page (Page.mk (map into (Page.items page)) (Page.next_cursor page) (Page.prev_cursor page)
    (Page.is_first page) (Page.is_last page)).
End Responses.

(** ** Handlers ([handlers/token.rs], [handlers/pools.rs]) *)

Section Handlers.
Context {D : Type} `{!DecimalText D} `{!DecimalFromStr D} `{!NumericDecimal D} `{!BigDecimal Q} `{UrlParse}.
Context `{Base58} `{SignatureDisplay} `{Rfc3339} `{SerdeJson} `{Base64}.
Context `{Postgres} `{CatalogueTables} `{Collation}.

(** [known_token] of handlers.rs. *)
Definition known_token (mint : Pubkey) : Query ApiError unit :=
  let> metadata := query_map_err ApiError_from (find_by_mint mint) in
  query_lift (match metadata with
    | Some _ => Ok ()
    | None => Err (NotFound_ ("token not found: " ++ pubkey_to_string mint))
    end).

Definition get_token (mint : string) : Query ApiError (TokenResponse.t D) :=
  let> mint := query_lift (parse_mint mint) in
  let> agg := query_map_err ApiError_from (get_token_aggregate (D := D) mint) in
  query_lift (match agg with
    | Some agg => Ok (TokenResponse_new (TokenAggregate.metadata agg) (TokenAggregate.price agg))
    | None => Err (NotFound_ ("token not found: " ++ pubkey_to_string mint))
    end).

Definition list_tokens (params : CursorParams.t) : Query ApiError (PageResponse.t (TokenResponse.t D)) :=
  let> request := query_lift (parse_list_tokens params) in
  let> page := query_map_err ApiError_from (list_token_entries (D := D) (fst request) (snd request)) in
  query_lift (page_response TokenResponse_from page).

Definition list_token_prices (mint : string) (params : TokenPricesParams.t) (now : DateTime) :
    Query ApiError (PageResponse.t (TokenPriceResponse.t D)) :=
  let> request := query_lift (parse_list_token_prices mint params) in
  let> _ := known_token (ListTokenPricesRequest.mint request) in
  let> page := query_map_err ApiError_from
    (list_token_prices_page (D := D) (ListTokenPricesRequest.mint request) (ListTokenPricesRequest.window request)
      (ListTokenPricesRequest.cursor request) (ListTokenPricesRequest.limit request) now) in
  query_lift (page_response TokenPriceResponse_from page).

Definition list_request (request : PoolScope.t * option PoolCursor.t * Z) :
    Query ApiError (PageResponse.t (PoolResponse.t D)) :=
  let '(scope, cursor, limit) := request in
  let> page := query_map_err ApiError_from (list_pool_entries (D := D) scope cursor limit) in
  query_lift (page_response PoolResponse_from page).

Definition list_scope (params : CursorParams.t) (scope : PoolScope.t) :
    Query ApiError (PageResponse.t (PoolResponse.t D)) :=
  let> request := query_lift (parse_list_pools params scope) in
  list_request request.

Definition list_pools (params : CursorParams.t) : Query ApiError (PageResponse.t (PoolResponse.t D)) :=
  list_scope params PoolScope.All.

Definition list_protocol_pools (protocol : string) (params : CursorParams.t) :
    Query ApiError (PageResponse.t (PoolResponse.t D)) :=
  let> protocol := query_lift (parse_protocol protocol) in
  list_scope params (PoolScope.Protocol protocol).

Definition list_token_pools (mint : string) (params : CursorParams.t) :
    Query ApiError (PageResponse.t (PoolResponse.t D)) :=
  let> mint := query_lift (parse_mint mint) in
  let> request := query_lift (parse_list_pools params (PoolScope.Token mint)) in
  let> _ := known_token mint in
  list_request request.
End Handlers.
