(* ===== verification/CatalogueFacts.v ===== *)
(** * The lists of the catalogue, walked while the daemons write

    The pages of the tokens, of the pools by scope and of the prices of a token
    are keyset pages, newest first; the rows they are cut from stay, under the
    key they were written with, whatever the daemons write meanwhile; so the
    walk of each meets every row once. The lookups by address and by mint keep
    what the pairs of [EventApi] rely on. *)

From Stdlib Require Import QArith.
From stdpp Require Import sorting.
From S2P Require Import Prelude Errors External OrderedMap Domain Store Rows Price PoolResolverFacts Metadata MetadataRuns.
From S2P Require Import Signals Analytic Cursor CursorFacts Keyset KeysetFacts EventLists EventApi EventListsFacts EventWalk.
From S2P Require Import Catalogue.
#[local] Open Scope Z_scope.

(** ** The order of the keys *)

#[global] Instance newer_key_total `{CollationLaws} : StrictTotal newer_key.
Proof.
  unfold newer_key. split.
  - intros [t a]. simpl. by rewrite Z.ltb_irrefl, (before_irrefl (before := text_ltb)), andb_false_r.
  - intros [ta a] [tb b] [tc c]. simpl. rewrite !orb_true_iff, !andb_true_iff, !Z.ltb_lt, !Z.eqb_eq.
    intros [?|[? Hab]] [?|[? Hbc]]; [left; lia..|]. right. split; [lia|by eapply before_trans].
  - intros [ta a] [tb b]. simpl. rewrite !orb_false_iff, !andb_false_iff, !Z.ltb_ge, !Z.eqb_neq.
    intros [Ht Hi] [Ht' Hi']. assert (ta = tb) as -> by lia. f_equal.
    apply before_total; [by destruct Hi'|by destruct Hi].
Qed.

#[global] Instance later_first_total : StrictTotal later_first.
Proof. unfold later_first. split; intros *; rewrite ?Z.ltb_lt, ?Z.ltb_ge; lia. Qed.

Section Order.
Context `{CollationLaws}.

(** The condition of the statements: the rows after a key in the order. *)
Lemma past_key_newer c k : past_key (Some c) k = newer_key c k.
Proof.
  destruct c as [t a], k as [u b]. unfold past_key, newer_key. cbn [fst snd].
  destruct (Z.leb_spec u t), (Z.ltb_spec u t), (Z.eqb_spec u t); simpl; lia || done.
Qed.

Definition key_after (c k : PageKey) : bool := newer_key c k.

Lemma past_key_follows cursor k : past_key cursor k = follows key_after cursor k.
Proof. destruct cursor as [c|]; [apply past_key_newer|done]. Qed.
End Order.

Lemma filter_map_comm {A B} (f : A -> B) (p : B -> bool) l :
  List.filter p (map f l) = map f (List.filter (fun a => p (f a)) l).
Proof. induction l as [|a l IH]; [done|]. simpl. destruct (p (f a)); simpl; by rewrite IH. Qed.

Lemma limit_map {A B} (f : A -> B) n l : limit n (map f l) = map f (limit n l).
Proof. unfold limit. by rewrite <-firstn_map. Qed.

(** [collect] over items that convert, each to one that keeps [R]. *)
Lemma collect_forall2 {E A B} (f : A -> result B E) (R : A -> B -> Prop) l :
  (forall a, a ∈ l -> exists b, f a = Ok b /\ R a b) -> exists bs, collect f l = Ok bs /\ Forall2 R l bs.
Proof.
  induction l as [|a l IH]; intros Hl; [by exists []|].
  destruct (Hl a) as (b & Hb & HR); [by left|]. destruct IH as (bs & Hbs & HF); [intros x Hx; apply Hl; by right|].
  exists (b :: bs). simpl. rewrite Hb. simpl. rewrite Hbs. by split; [|constructor].
Qed.

Lemma forall2_keys {A B K} (ka : A -> K) (kb : B -> K) l l' :
  Forall2 (fun a b => kb b = ka a) l l' -> map kb l' = map ka l.
Proof. induction 1 as [|a b l l' Hab _ IH]; [done|]. simpl. by rewrite Hab, IH. Qed.

(** ** A page, by the keys of its rows *)

Section Pages.
Context {D : Type} `{!DecimalText D} `{!DecimalFromStr D} `{Base58} `{SignatureDisplay} `{SignatureFromStr}.
Context `{Rfc3339} `{SerdeJson} `{Base64} `{Postgres}.

Lemma forward_page {I} (items : list I) (key_of : I -> PageKey) (cur : PageKey -> Cursor.t D)
    (make_cursor : I -> Cursor.t D) n had ks :
  0 <= n -> map key_of items = limit (n + 1) ks ->
  (forall x, x ∈ items -> make_cursor x = cur (key_of x)) ->
  let page := forward_only (PageBuilder.finalize (PageBuilder.mk items n Forward had) make_cursor) in
  Page.items page ⊆ items /\ map key_of (Page.items page) = limit n ks /\
  Page.next_cursor page =
    (if bool_decide (Z.of_nat (length ks) <= n) then None else cur <$> last (limit n ks)) /\
  Page.prev_cursor page = None.
Proof.
  intros Hn Hk Hc page. assert (items = limit (n + 1) items) as Hi.
  { unfold limit. rewrite take_ge; [done|]. apply (f_equal length) in Hk.
    rewrite length_map in Hk. unfold limit in Hk. rewrite length_take in Hk. lia. }
  assert (page = cut_page items n had make_cursor) as ->.
  { change page with (finish_event_page items n had make_cursor). rewrite Hi at 1. by apply finish_event_page_cut. }
  unfold cut_page. cbn [Page.items Page.next_cursor Page.prev_cursor].
  assert (map key_of (limit n items) = limit n ks) as Hkn.
  { rewrite <-limit_map, Hk. unfold limit. rewrite take_take. f_equal. lia. }
  split_and!; [|done| |done].
  - intros x (j & Hj%list_elem_of_lookup_2 & _)%elem_of_take. done.
  - assert (length items = length ks `min` Z.to_nat (n + 1))%nat as Hlen.
    { apply (f_equal length) in Hk. rewrite length_map in Hk. unfold limit in Hk. rewrite length_take in Hk. lia. }
    rewrite (bool_decide_ext (Z.of_nat (length items) <= n) (Z.of_nat (length ks) <= n)) by lia.
    case_bool_decide; [done|]. rewrite <-Hkn. change (map key_of ?l) with (key_of <$> l). rewrite fmap_last.
    destruct (last (limit n items)) as [x|] eqn:Hl; [|done]. cbn. f_equal. apply Hc.
    apply last_Some_elem_of in Hl. by apply elem_of_limit in Hl.
Qed.

(** What a list answers: the page of the keys [ks] of one moment. *)
Definition key_page {I} (keys : nat -> list PageKey) (n_per_page : Z) (key_of : I -> PageKey)
    (cur : PageKey -> Cursor.t D) (n n' : nat) (page : Page.t D I) : Prop :=
  exists m, (n <= m <= n')%nat /\ map key_of (Page.items page) = limit n_per_page (keys m) /\
    Page.next_cursor page =
      (if bool_decide (Z.of_nat (length (keys m)) <= n_per_page) then None
       else cur <$> last (limit n_per_page (keys m))) /\
    Page.prev_cursor page = None.

(** The text of the cursor at a key. *)
Definition key_text (cur : PageKey -> Cursor.t D) (k : PageKey) : string := envelope (wire_object (cur k)).

Definition key_response {T} (keys : nat -> list PageKey) (n_per_page : Z) (item_key : T -> PageKey)
    (cur : PageKey -> Cursor.t D) (n n' : nat) (response : PageResponse.t T) : Prop :=
  exists m, (n <= m <= n')%nat /\ map item_key (PageResponse.items response) = limit n_per_page (keys m) /\
    PageResponse.next_cursor response =
      if bool_decide (Z.of_nat (length (keys m)) <= n_per_page) then None
      else key_text cur <$> last (map item_key (PageResponse.items response)).

Lemma page_response_answers {I T} (q : Query RepositoryError (Page.t D I)) (into : I -> T)
    keys n_per_page (key_of : I -> PageKey) (item_key : T -> PageKey) cur n :
  (forall x, item_key (into x) = key_of x) ->
  served q n (key_page keys n_per_page key_of cur n) ->
  answered (let> page := query_map_err ApiError_from q in query_lift (page_response into page)) n
    (key_response keys n_per_page item_key cur n).
Proof.
  intros Hk Hq. eapply answered_bind; [by apply answered_served|].
  intros n' page Hn (m & Hm & Hi & Hnext & Hprev).
  assert (encode_cursor_opt (Page.next_cursor page) = Ok
    (if bool_decide (Z.of_nat (length (keys m)) <= n_per_page) then None
     else key_text cur <$> last (limit n_per_page (keys m)))) as He.
  { rewrite Hnext. destruct (bool_decide _); [done|]. destruct (last _) as [k|]; [|done].
    cbn. by rewrite encode_envelope. }
  eapply answered_lift.
  - unfold page_response, from_page. cbn [Page.next_cursor Page.prev_cursor]. rewrite He, Hprev. reflexivity.
  - exists m. split; [lia|]. cbn [PageResponse.items PageResponse.next_cursor Page.items].
    assert (map item_key (map into (Page.items page)) = limit n_per_page (keys m)) as ->; [|done].
    rewrite map_map, <-Hi. by apply map_ext.
Qed.
End Pages.

(** ** The tables while they are read *)

(** What the rows of a moment read back from. *)
Record readable_tables {D} `{!NumericDecimal D} (t : CatalogueDb.t) : Prop := {
  readable_metadata : forall mint row, CatalogueDb.token_metadata t !! mint = Some row ->
    is_bytes 32 mint /\ is_uint 8 (TokenMetadataRow.decimals row) /\
    TokenMetadataRow.metadata_provider row = "helius_das" /\ rfc3339_range (TokenMetadataRow.fetched_at row);
  readable_pools : forall address row, CatalogueDb.pools t !! address = Some row ->
    is_bytes 32 address /\ rfc3339_range (PoolRow.first_seen_at row) /\
    forall mint, mint ∈ side_mints row -> is_bytes 32 mint;
  readable_fees : forall address fee, CatalogueDb.fee_bps t !! address = Some fee ->
    is_Some (decimal_of_numeric (D := D) fee);
  readable_states : forall address row, CatalogueDb.pool_current_state t !! address = Some row ->
    is_uint 64 (PoolCurrentStateRow.reserve_a row) /\ is_uint 64 (PoolCurrentStateRow.reserve_b row);
  readable_prices : forall mint at_ row, PriceDb.token_prices (CatalogueDb.prices t) !! (mint, at_) = Some row ->
    is_Some (decimal_of_numeric (D := D) (TokenPriceRow.price_usd row)) /\ rfc3339_range at_ /\
    exists provider, PriceProvider_from_str (TokenPriceRow.price_provider row) = Ok provider;
}.

(** Rows stay, under the key their list orders them by, and a pool keeps its
    protocol and its mints. *)
Record tables_stay (t t' : CatalogueDb.t) : Prop := {
  metadata_stays : forall mint row, CatalogueDb.token_metadata t !! mint = Some row ->
    exists row', CatalogueDb.token_metadata t' !! mint = Some row' /\
      TokenMetadataRow.fetched_at row' = TokenMetadataRow.fetched_at row;
  pools_stay : forall address row, CatalogueDb.pools t !! address = Some row ->
    exists row', CatalogueDb.pools t' !! address = Some row' /\
      PoolRow.first_seen_at row' = PoolRow.first_seen_at row /\ PoolRow.protocol row' = PoolRow.protocol row /\
      (forall mint, PoolRow.token_a_mint row = Some mint -> PoolRow.token_a_mint row' = Some mint) /\
      (forall mint, PoolRow.token_b_mint row = Some mint -> PoolRow.token_b_mint row' = Some mint);
  prices_stay : forall key row, PriceDb.token_prices (CatalogueDb.prices t) !! key = Some row ->
    is_Some (PriceDb.token_prices (CatalogueDb.prices t') !! key);
}.

#[global] Instance tables_stay_preorder : PreOrder tables_stay.
Proof.
  split.
  - intros t. split; [by eauto|intros; eexists; split_and!; eauto|by eauto].
  - intros t1 t2 t3 H12 H23. split.
    + intros mint row (row2 & Hr2 & E2)%(metadata_stays _ _ H12).
      apply (metadata_stays _ _ H23) in Hr2 as (row3 & Hr3 & E3). exists row3. split; [done|congruence].
    + intros a row (row2 & Hr2 & E2 & P2 & A2 & B2)%(pools_stay _ _ H12).
      apply (pools_stay _ _ H23) in Hr2 as (row3 & Hr3 & E3 & P3 & A3 & B3). exists row3.
      split_and!; [done|congruence|congruence|auto|auto].
    + intros key row [row2 Hr2]%(prices_stay _ _ H12). by apply (prices_stay _ _ H23) in Hr2.
Qed.

Class CatalogueLaws (D : Type) `{!NumericDecimal D} `{CatalogueTables} : Prop := {
  catalogue_readable : forall n, readable_tables (D := D) (catalogue_at n);
  catalogue_stays : forall n, tables_stay (catalogue_at n) (catalogue_at (S n));
}.

Lemma catalogue_stays_le {D} `{CatalogueLaws D} n m :
  (n <= m)%nat -> tables_stay (catalogue_at n) (catalogue_at m).
Proof. induction 1 as [|m Hm IH]; [done|]. etrans; [exact IH|apply catalogue_stays]. Qed.

(** What the daemons write keeps to this: the indexer on [pools], the metadata
    worker, the price worker's INSERT. *)
Lemma indexed_pools_stay d d' address row :
  indexed d d' -> Db.pools d !! address = Some row ->
  exists row', Db.pools d' !! address = Some row' /\
    PoolRow.first_seen_at row' = PoolRow.first_seen_at row /\ PoolRow.protocol row' = PoolRow.protocol row /\
    (forall mint, PoolRow.token_a_mint row = Some mint -> PoolRow.token_a_mint row' = Some mint) /\
    (forall mint, PoolRow.token_b_mint row = Some mint -> PoolRow.token_b_mint row' = Some mint).
Proof.
  intros Hi Hrow. specialize (Hi address). rewrite Hrow in Hi. unfold row_drift in Hi.
  destruct (Db.pools d' !! address) as [row'|]; [|done]. destruct Hi as (? & Ha & Hb & ? & _).
  exists row'. split_and!; [done..| |]; congruence.
Qed.

Lemma insert_prices_stay rows table key row :
  table !! key = Some row -> (insert_prices rows table).1 !! key = Some row.
Proof.
  revert table. induction rows as [|[k r] rows IH]; intros table Ht; [done|]. cbn [insert_prices].
  destruct (table !! k) as [r'|] eqn:Hk; [by apply IH|].
  specialize (IH (<[k:=r]> table)). destruct (insert_prices rows _) as [table' kept]. apply IH.
  rewrite lookup_insert_ne; [done|]. intros ->. congruence.
Qed.

Lemma insert_batch_stays {D} `{DecimalLaws D} `{!DecimalRounding D} d fault (prices : list (TokenPrice.t D)) key row :
  PriceDb.token_prices d !! key = Some row ->
  PriceDb.token_prices (Price.insert_batch d fault prices).1 !! key = Some row.
Proof.
  intros Ht. unfold Price.insert_batch. destruct prices as [|p prices]; [done|]. destruct fault; [done|].
  destruct (bound_rows _) as [rows|e]; [|done]. pose proof (insert_prices_stay rows _ key row Ht) as Hs.
  by destruct (insert_prices _ _).
Qed.

(** ** The rows of the lists *)

Section Lists.
Context {D : Type} `{!DecimalText D} `{!DecimalFromStr D} `{!DecimalFromStrLaws D} `{!NumericDecimal D} `{!BigDecimal Q} `{UrlParse}.
Context `{Base58Laws} `{SignatureDisplay} `{!SignatureFromStr} `{!SignatureFromStrLaws} `{Rfc3339Laws}.
Context `{SerdeJsonLaws} `{Base64Laws} `{!CursorTextLaws}.
Context `{Postgres} `{CatalogueTables} `{!CatalogueLaws D} `{CollationLaws}.

Definition token_rows (t : CatalogueDb.t) : list PageKey := map token_key (map_to_list (CatalogueDb.token_metadata t)).

Definition pool_rows (scope : PoolScope.t) (t : CatalogueDb.t) : list PageKey :=
  map pool_key (List.filter (fun r => in_pool_scope scope (snd r)) (map_to_list (CatalogueDb.pools t))).

(** The instants alone part the prices of one mint. *)
Definition price_key (row : DateTime * TokenPriceRow.t) : PageKey := (fst row, "").
Definition price_rows (mint : Pubkey) (from : DateTime) (t : CatalogueDb.t) : list PageKey :=
  map price_key (List.filter (fun row => from <=? fst row) (prices_of mint (CatalogueDb.prices t))).

Lemma token_rows_elem t k :
  k ∈ token_rows t <-> exists mint row, CatalogueDb.token_metadata t !! mint = Some row /\ k = token_key (mint, row).
Proof.
  unfold token_rows. rewrite (list_elem_of_fmap token_key). split.
  - intros ([m row] & -> & Hr%elem_of_map_to_list). by exists m, row.
  - intros (m & row & Hr & ->). exists (m, row). split; [done|]. by apply elem_of_map_to_list.
Qed.

Lemma pool_rows_elem scope t k :
  k ∈ pool_rows scope t <->
  exists a row, CatalogueDb.pools t !! a = Some row /\ in_pool_scope scope row = true /\ k = pool_key (a, row).
Proof.
  unfold pool_rows. rewrite (list_elem_of_fmap pool_key). split.
  - intros ([a row] & -> & [Hr%elem_of_map_to_list Hs]%filter_in). by exists a, row.
  - intros (a & row & Hr & Hs & ->). exists (a, row). split; [done|]. apply filter_in.
    split; [by apply elem_of_map_to_list|done].
Qed.

Lemma prices_of_elem mint d row :
  row ∈ prices_of mint d <-> PriceDb.token_prices d !! (mint, fst row) = Some (snd row).
Proof.
  unfold prices_of. rewrite list_elem_of_omap. split.
  - intros ([[m at_] r] & Hr%elem_of_map_to_list & Hx). simpl in Hx.
    destruct (bool_decide_reflect (m = mint)) as [->|]; [|done]. by injection Hx as <-.
  - intros Hr. exists ((mint, fst row), snd row). split; [by apply elem_of_map_to_list|]. simpl.
    rewrite bool_decide_eq_true_2 by done. by destruct row.
Qed.

Lemma price_rows_elem mint from t k :
  k ∈ price_rows mint from t <->
  from <= fst k /\ snd k = "" /\ is_Some (PriceDb.token_prices (CatalogueDb.prices t) !! (mint, fst k)).
Proof.
  unfold price_rows. rewrite (list_elem_of_fmap price_key). split.
  - intros (row & -> & [Hr%prices_of_elem Hf%Z.leb_le]%filter_in). split_and!; [done|done|]. simpl. eexists. exact Hr.
  - intros (Hf & Hk & [row Hr]). exists (fst k, row). split; [destruct k; simpl in *; by subst|].
    apply filter_in. split; [by apply prices_of_elem|by apply Z.leb_le].
Qed.

(** *** Distinct keys *)

Lemma map_to_list_keys {V} (m : gmap Pubkey V) (key : Pubkey * V -> PageKey) :
  (forall a v, m !! a = Some v -> is_bytes 32 a /\ snd (key (a, v)) = pubkey_to_string a) ->
  NoDup (map key (map_to_list m)).
Proof.
  intros Hm. change (NoDup (key <$> map_to_list m)). apply NoDup_fmap_2_strong; [|apply NoDup_map_to_list].
  intros [a v] [b w] Ha%elem_of_map_to_list Hb%elem_of_map_to_list He.
  apply Hm in Ha as Hka. apply Hm in Hb as Hkb. destruct Hka as [Hba Hka], Hkb as [Hbb Hkb].
  assert (a = b) as ->; [|congruence]. apply pubkey_to_string_inj; [done|done|]. 
  transitivity (key (a, v)).2; [done|]. transitivity (key (b, w)).2; [exact (f_equal snd He)|exact Hkb].
Qed.

Lemma token_rows_distinct n : NoDup (map id (token_rows (catalogue_at n))).
Proof.
  rewrite map_id. apply map_to_list_keys. intros m row Hr. split; [|done].
  by apply (readable_metadata _ (catalogue_readable (D := D) n)) in Hr as [? _].
Qed.

Lemma pool_rows_distinct scope n : NoDup (map id (pool_rows scope (catalogue_at n))).
Proof.
  rewrite map_id. apply filter_keys_distinct, map_to_list_keys. intros a row Hr. split; [|done].
  by apply (readable_pools _ (catalogue_readable (D := D) n)) in Hr as [? _].
Qed.

Lemma omap_distinct {A B} (f : A -> option B) l :
  (forall x y z, f x = Some z -> f y = Some z -> x = y) -> NoDup l -> NoDup (omap f l).
Proof.
  intros Hf Hnd. induction Hnd as [|a l Ha Hnd IH]; [constructor|]. cbn. destruct (f a) as [b|] eqn:Hb; [|done].
  constructor; [|done]. intros (x & Hx & Hxb)%list_elem_of_omap. apply Ha. by rewrite (Hf a x b Hb Hxb).
Qed.

Lemma prices_of_distinct mint d : NoDup (map fst (prices_of mint d)).
Proof.
  assert (NoDup (prices_of mint d)) as Hnd.
  { unfold prices_of. apply omap_distinct; [|apply NoDup_map_to_list].
    intros [[m at_] r] [[m' at'] r'] x Hx Hy. simpl in *.
    destruct (bool_decide_reflect (m = mint)), (bool_decide_reflect (m' = mint)); simplify_eq/=. by f_equal. }
  change (NoDup (fst <$> prices_of mint d)). apply NoDup_fmap_2_strong; [|done].
  intros [at_ r] [at' r'] Ha%prices_of_elem Hb%prices_of_elem He. simpl in *. subst. congruence.
Qed.

Lemma price_rows_distinct mint from n : NoDup (map id (price_rows mint from (catalogue_at n))).
Proof.
  rewrite map_id. unfold price_rows. apply filter_keys_distinct.
  change (NoDup (price_key <$> prices_of mint (CatalogueDb.prices (catalogue_at n)))).
  pose proof (prices_of_distinct mint (CatalogueDb.prices (catalogue_at n))) as Hnd.
  apply NoDup_fmap_2_strong; [|by apply (NoDup_fmap_1 fst)].
  intros a b Ha Hb He. unfold price_key in He. injection He as He.
  by apply (key_inj fst (prices_of mint (CatalogueDb.prices (catalogue_at n)))).
Qed.

(** *** The rows stay *)

Lemma token_rows_stay n m k : (n <= m)%nat -> k ∈ token_rows (catalogue_at n) -> k ∈ token_rows (catalogue_at m).
Proof.
  intros Hle (mint & row & Hr & ->)%token_rows_elem. apply (metadata_stays _ _ (catalogue_stays_le (D := D) n m Hle)) in Hr as (row' & Hr & He).
  apply token_rows_elem. exists mint, row'. split; [done|]. unfold token_key. simpl. by rewrite He.
Qed.

Lemma pool_rows_stay scope n m k :
  (n <= m)%nat -> k ∈ pool_rows scope (catalogue_at n) -> k ∈ pool_rows scope (catalogue_at m).
Proof.
  intros Hle (a & row & Hr & Hs & ->)%pool_rows_elem.
  apply (pools_stay _ _ (catalogue_stays_le (D := D) n m Hle)) in Hr as (row' & Hr & He & Hp & Ha & Hb).
  apply pool_rows_elem. exists a, row'. split_and!; [done| |unfold pool_key; simpl; by rewrite He].
  destruct scope as [|p|mint]; simpl in *; [done|by rewrite Hp|].
  apply orb_true_iff in Hs as [Hs%bool_decide_eq_true|Hs%bool_decide_eq_true]; apply orb_true_iff;
    [left|right]; apply bool_decide_eq_true; auto.
Qed.

Lemma price_rows_stay mint from n m k :
  (n <= m)%nat -> k ∈ price_rows mint from (catalogue_at n) -> k ∈ price_rows mint from (catalogue_at m).
Proof.
  intros Hle. rewrite !price_rows_elem. intros (? & ? & [row Hr]). split_and!; [done|done|].
  by apply (prices_stay _ _ (catalogue_stays_le (D := D) n m Hle)) in Hr.
Qed.

(** ** The pages of the repositories *)

Lemma served_read {A} (q : CatalogueDb.t -> A) n :
  served (read q) n (fun n' a => n' = S n /\ a = q (catalogue_at n)).
Proof.
  unfold served, read. destruct (fault n) as [e|] eqn:Hf; split; try lia; [|done].
  exists n. split; [lia|done].
Qed.

(** Rows that decode, then convert. *)
Lemma collect_twice {E A B C} (f : A -> result B E) (g : B -> result C E) (R : A -> C -> Prop) l :
  (forall a, a ∈ l -> exists b, f a = Ok b /\ exists c, g b = Ok c /\ R a c) ->
  exists bs cs, collect f l = Ok bs /\ collect g bs = Ok cs /\ Forall2 R l cs.
Proof.
  induction l as [|a l IH]; intros Hl; [by exists [], []|].
  destruct (Hl a) as (b & Hb & c & Hc & HR); [by left|].
  destruct IH as (bs & cs & Hbs & Hcs & HF); [intros x Hx; apply Hl; by right|].
  exists (b :: bs), (c :: cs). simpl. rewrite Hb. simpl. rewrite Hbs. simpl. rewrite Hc. simpl. rewrite Hcs.
  split_and!; [done|done|by constructor].
Qed.

(** The keys of the rows a statement lists. *)
Lemma ordered_keys {A} (key : A -> PageKey) (cursor : option PageKey) (l : list A) :
  NoDup (map key l) ->
  map key (order_by key newer_key (List.filter (fun a => past_key cursor (key a)) l)) =
    order_by id newer_key (List.filter (follows key_after cursor) (map key l)).
Proof.
  intros Hnd. rewrite (List.filter_ext _ (fun a => follows key_after cursor (key a))) by (intros a; apply past_key_follows).
  rewrite filter_map_comm. symmetry. apply (order_by_map key key id newer_key); [done|]. by apply filter_keys_distinct.
Qed.

(** The keys of a list after a cursor, newest first. *)
Definition keys_after (rows : CatalogueDb.t -> list PageKey) (cursor : option PageKey) (m : nat) : list PageKey :=
  in_order id newer_key (fun m => rows (catalogue_at m)) key_after cursor m.

Lemma metadata_reads_back n mint row :
  CatalogueDb.token_metadata (catalogue_at n) !! mint = Some row ->
  exists metadata, TokenMetadata_try_from mint row = Ok metadata /\ TokenMetadata.mint metadata = mint /\
    TokenMetadata.fetched_at metadata = TokenMetadataRow.fetched_at row.
Proof.
  intros Hr. apply (readable_metadata _ (catalogue_readable (D := D) n)) in Hr as (Hb & Hd & Hp & _).
  unfold TokenMetadata_try_from, convert_string_to_pubkey, convert_i16_to_u8, narrow, try_uint, parse_metadata_provider.
  rewrite pubkey_of_to_string by done. apply in_uint_spec in Hd. rewrite Hd, Hp. cbn. eexists. by split_and!.
Qed.

Lemma price_reads_back n mint at_ row :
  PriceDb.token_prices (CatalogueDb.prices (catalogue_at n)) !! (mint, at_) = Some row -> is_bytes 32 mint ->
  exists price, decode_price (D := D) (at_, row) = Ok (at_, price, row) /\
    exists p, TokenPrice_try_from mint (at_, price, row) = Ok p /\ TokenPrice.fetched_at p = at_ /\ TokenPrice.mint p = mint.
Proof.
  intros Hr Hb. apply (readable_prices _ (catalogue_readable (D := D) n)) in Hr as ([d Hd] & _ & provider & Hp).
  exists d. unfold decode_price, TokenPrice_try_from, convert_string_to_pubkey, parse_price_provider. simpl.
  rewrite Hd, Hp, pubkey_of_to_string by done. cbn. split; [done|]. eexists. by split_and!.
Qed.

(** *** The tokens *)

Definition token_entry_key (entry : TokenEntry.t D) : PageKey :=
  (TokenMetadata.fetched_at (TokenEntry.metadata entry), pubkey_to_string (TokenMetadata.mint (TokenEntry.metadata entry))).

(** The cursor at a key: the address is read back from its text. *)
Definition key_address (k : PageKey) : Pubkey := default [] (pubkey_of_string (snd k)).
Definition token_cursor (k : PageKey) : Cursor.t D := Cursor.Token (TokenCursor.mk (fst k) (key_address k)).
Definition token_cursor_key (c : TokenCursor.t) : PageKey :=
  (TokenCursor.fetched_at c, pubkey_to_string (TokenCursor.mint c)).

Lemma token_decodes n row :
  CatalogueDb.token_metadata (catalogue_at n) !! fst row = Some (snd row) ->
  exists fetched, decode_token (D := D) (CatalogueDb.prices (catalogue_at n)) row = Ok fetched /\
    exists entry, TokenEntry_try_from fetched = Ok entry /\ TokenMetadata.mint (TokenEntry.metadata entry) = fst row /\
      token_entry_key entry = token_key row.
Proof.
  destruct row as [mint row]. simpl. intros Hr. destruct (metadata_reads_back n mint row Hr) as (md & Hmd & Hm & Hf).
  apply (readable_metadata _ (catalogue_readable (D := D) n)) in Hr as [Hb _].
  unfold decode_token. simpl.
  destruct (joined_price (CatalogueDb.prices (catalogue_at n)) mint) as [[at_ p]|] eqn:Hj.
  - unfold joined_price in Hj. apply opt_bind_Some in Hj as (last & _ & Hj). apply opt_bind_Some in Hj as (p' & Hp & [= <- <-]).
    destruct (price_reads_back n mint _ _ Hp Hb) as (price & -> & p & Hpr & _). cbn. eexists. split; [done|].
    unfold TokenEntry_try_from. rewrite Hpr, Hmd. cbn. eexists. split; [done|]. unfold token_entry_key, token_key. simpl.
    by rewrite Hm, Hf.
  - cbn. eexists. split; [done|]. unfold TokenEntry_try_from. rewrite Hmd. cbn. eexists. split; [done|].
    unfold token_entry_key, token_key. simpl. by rewrite Hm, Hf.
Qed.

Lemma token_page_served cursor limit n :
  1 <= limit ->
  served (list_token_entries (D := D) cursor limit) n
    (key_page (keys_after token_rows (token_cursor_key <$> cursor)) limit token_entry_key token_cursor n).
Proof.
  intros Hl. unfold list_token_entries. set (after := _ <$> cursor).
  eapply served_bind; [apply served_read|]. intros n1 rows _ (-> & ->). cbn [fst snd].
  set (l := order_by token_key newer_key _).
  assert (map token_key l = keys_after token_rows after n) as Hk
    by (apply ordered_keys; pose proof (token_rows_distinct n) as Hnd; by rewrite map_id in Hnd).
  destruct (collect_twice (decode_token (D := D) (CatalogueDb.prices (catalogue_at n))) TokenEntry_try_from
    (fun row entry => token_entry_key entry = token_key row /\ is_bytes 32 (TokenMetadata.mint (TokenEntry.metadata entry)))
    (Keyset.limit (limit + 1) l)) as (fetched & entries & Hf & He & HF).
  { intros row Hr%elem_of_limit. unfold l in Hr. rewrite order_by_perm in Hr.
    apply filter_in in Hr as [Hr%elem_of_map_to_list' _].
    destruct (token_decodes n row Hr) as (fetched & ? & entry & ? & Hm & ?). exists fetched. split; [done|].
    exists entry. split_and!; [done|done|]. rewrite Hm. by apply (readable_metadata _ (catalogue_readable (D := D) n)) in Hr as [? _]. }
  eapply served_bind; [by apply (served_lift _ _ _ (fun n' a => n' = S n /\ a = fetched) Hf)|]. intros n2 ? _ (-> & ->).
  eapply served_bind; [by apply (served_lift _ _ _ (fun n' a => n' = S n /\ a = entries) He)|]. intros n3 ? _ (-> & ->).
  apply served_ret. exists n. split; [lia|]. rewrite <-Hk.
  destruct (forward_page entries token_entry_key token_cursor
    (fun entry => Cursor.Token (TokenCursor.mk (TokenMetadata.fetched_at (TokenEntry.metadata entry))
      (TokenMetadata.mint (TokenEntry.metadata entry)))) limit (bool_decide (is_Some cursor)) (map token_key l))
    as (_ & Hi & Hn & Hp); [lia| | |by split_and!].
  - rewrite limit_map. eapply forall2_keys, Forall2_impl; [exact HF|]. by intros ? ? [? _].
  - intros x (i & Hx)%list_elem_of_lookup. eapply Forall2_lookup_r in HF as (row & _ & _ & Hb); [|exact Hx].
    unfold token_cursor, key_address, token_entry_key. cbn [fst snd]. by rewrite pubkey_of_to_string.
Qed.

(** *** The prices of a token *)

Definition price_page_key (price : TokenPrice.t D) : PageKey := (TokenPrice.fetched_at price, "").
Definition price_cursor (mint : Pubkey) (from : DateTime) (k : PageKey) : Cursor.t D :=
  Cursor.TokenPrice (TokenPriceCursor.mk mint from (fst k)).
Definition price_cursor_key (c : TokenPriceCursor.t) : PageKey := (TokenPriceCursor.fetched_at c, "").

Lemma newer_key_instants a b : newer_key (a, "") (b, "") = later_first a b.
Proof. unfold newer_key, later_first. simpl. by rewrite (before_irrefl (before := text_ltb)), andb_false_r, orb_false_r. Qed.

(** The statement's order, on the instants alone, is that of the keys. *)
Lemma price_keys mint from (cursor : option TokenPriceCursor.t) n :
  map price_key (order_by fst later_first
    (List.filter (fun row => (from <=? fst row) &&
        match cursor with Some c => fst row <? TokenPriceCursor.fetched_at c | None => true end)
      (prices_of mint (CatalogueDb.prices (catalogue_at n))))) =
  keys_after (price_rows mint from) (price_cursor_key <$> cursor) n.
Proof.
  set (f := fun row => _ && _). pose proof (prices_of_distinct mint (CatalogueDb.prices (catalogue_at n))) as Hnd.
  assert (List.filter (follows key_after (price_cursor_key <$> cursor)) (price_rows mint from (catalogue_at n)) =
    map price_key (List.filter f (prices_of mint (CatalogueDb.prices (catalogue_at n))))) as Hf.
  { unfold price_rows. rewrite filter_map_comm, filter_filter. f_equal. apply List.filter_ext. intros row.
    unfold f. f_equal. destruct cursor as [c|]; [|done]. simpl. unfold key_after, price_cursor_key, price_key.
    by rewrite newer_key_instants. }
  assert (keys_after (price_rows mint from) (price_cursor_key <$> cursor) n =
    order_by id newer_key (map price_key (List.filter f (prices_of mint (CatalogueDb.prices (catalogue_at n)))))) as ->
    by (unfold keys_after, in_order; by rewrite Hf).
  assert (NoDup (map fst (List.filter f (prices_of mint (CatalogueDb.prices (catalogue_at n)))))) as Hnf
    by (by apply filter_keys_distinct).
  apply (sorted_unique id newer_key).
  - pose proof (order_by_sorted fst later_first _ Hnf) as Hs.
    induction Hs as [|row l Hs IH Hrow]; [constructor|]. simpl. constructor; [done|]. apply Forall_map.
    eapply Forall_impl; [exact Hrow|]. intros row' Hr. cbn. unfold price_key. by rewrite newer_key_instants.
  - apply (order_by_sorted id newer_key). rewrite map_id.
    change (NoDup (price_key <$> List.filter f (prices_of mint (CatalogueDb.prices (catalogue_at n))))).
    apply NoDup_fmap_2_strong; [|by apply (NoDup_fmap_1 fst)]. intros a b Ha Hb He. injection He as He.
    by apply (key_inj fst (List.filter f (prices_of mint (CatalogueDb.prices (catalogue_at n))))).
  - rewrite (order_by_perm id newer_key). apply Permutation_map, order_by_perm.
Qed.

Lemma price_page_served mint from cursor limit n :
  1 <= limit -> is_bytes 32 mint ->
  served (list_prices (D := D) mint from cursor limit) n
    (key_page (keys_after (price_rows mint from) (price_cursor_key <$> cursor)) limit price_page_key
      (price_cursor mint from) n).
Proof.
  intros Hl Hb. unfold list_prices. eapply served_bind; [apply served_read|]. intros n1 rows _ (-> & ->).
  set (l := order_by fst later_first _).
  assert (map price_key l = keys_after (price_rows mint from) (price_cursor_key <$> cursor) n) as Hk
    by apply price_keys.
  destruct (collect_twice (decode_price (D := D)) (TokenPrice_try_from mint)
    (fun row price => price_page_key price = price_key row /\ TokenPrice.mint price = mint)
    (Keyset.limit (limit + 1) l)) as (fetched & prices & Hf & Hp & HF).
  { intros [at_ row] Hr%elem_of_limit. unfold l in Hr. rewrite order_by_perm in Hr.
    apply filter_in in Hr as [Hr%prices_of_elem _].
    destruct (price_reads_back n mint at_ row Hr Hb) as (price & Hd & p & Hpr & Hat & Hm).
    eexists. split; [exact Hd|]. exists p. split_and!; [done| |done]. unfold price_page_key, price_key. by rewrite Hat. }
  eapply served_bind; [by apply (served_lift _ _ _ (fun n' a => n' = S n /\ a = fetched) Hf)|]. intros n2 ? _ (-> & ->).
  eapply served_bind; [by apply (served_lift _ _ _ (fun n' a => n' = S n /\ a = prices) Hp)|]. intros n3 ? _ (-> & ->).
  apply served_ret. exists n. split; [lia|]. rewrite <-Hk.
  destruct (forward_page prices price_page_key (price_cursor mint from)
    (fun price => Cursor.TokenPrice (TokenPriceCursor.mk (TokenPrice.mint price) from (TokenPrice.fetched_at price)))
    limit (bool_decide (is_Some cursor)) (map price_key l)) as (_ & Hi & Hn & Hpv); [lia| | |by split_and!].
  - rewrite limit_map. eapply forall2_keys, Forall2_impl; [exact HF|]. by intros ? ? [? _].
  - intros x (i & Hx)%list_elem_of_lookup. eapply Forall2_lookup_r in HF as (row & _ & _ & Hm); [|exact Hx].
    unfold price_cursor, price_page_key. by rewrite Hm.
Qed.

(** *** The pools *)

Definition pool_entry_key (entry : PoolEntry.t D) : PageKey :=
  (PoolEntry.first_seen_at entry, pubkey_to_string (Pool.pool_address (PoolEntry.pool entry))).
Definition pool_cursor (scope : PoolScope.t) (k : PageKey) : Cursor.t D :=
  Cursor.Pool (PoolCursor.mk scope (fst k) (key_address k)).
Definition pool_cursor_key (c : PoolCursor.t) : PageKey :=
  (PoolCursor.first_seen_at c, pubkey_to_string (PoolCursor.pool_address c)).

Lemma mint_column_ok mint field :
  (forall m, mint = Some m -> is_bytes 32 m) -> mint_column mint field = Ok mint.
Proof.
  intros Hm. destruct mint as [m|]; [|done]. unfold mint_column, convert_string_to_pubkey. cbn.
  by rewrite pubkey_of_to_string by (by apply Hm).
Qed.

Lemma pool_reads_back n address row :
  CatalogueDb.pools (catalogue_at n) !! address = Some row ->
  Pool_try_from address row = Ok (Pool.mk address (PoolRow.protocol row) (PoolRow.token_a_mint row)
    (PoolRow.token_b_mint row) (PoolRow.last_seen_at row)).
Proof.
  intros (Hb & _ & Hm)%(readable_pools _ (catalogue_readable (D := D) n)). unfold Pool_try_from, convert_string_to_pubkey.
  rewrite pubkey_of_to_string by done. cbn.
  assert (Parser.parse_protocol (Protocol_as_str (PoolRow.protocol row)) = Ok (PoolRow.protocol row)) as ->
    by (by destruct (PoolRow.protocol row)).
  cbn. unfold side_mints in Hm. rewrite !mint_column_ok; [done| |]; intros m Em; apply Hm; rewrite Em; apply elem_of_app;
    [right|left]; apply list_elem_of_here.
Qed.

Lemma side_reads_back n mint : exists side, convert_side (catalogue_at n) mint = Ok side.
Proof.
  destruct mint as [m|]; [|by eexists]. unfold convert_side.
  destruct (CatalogueDb.token_metadata (catalogue_at n) !! m) as [row|] eqn:Hr; [|by eexists].
  destruct (metadata_reads_back n m row Hr) as (md & -> & _). by eexists.
Qed.

Lemma pool_decodes n r :
  CatalogueDb.pools (catalogue_at n) !! fst r = Some (snd r) ->
  exists fetched, decode_pool (D := D) (catalogue_at n) r = Ok fetched /\
    exists entry, PoolEntry_try_from (catalogue_at n) fetched = Ok entry /\
      Pool.pool_address (PoolEntry.pool entry) = fst r /\ PoolEntry.first_seen_at entry = PoolRow.first_seen_at (snd r).
Proof.
  destruct r as [address row]. simpl. intros Hr.
  assert (exists fee, decode_pool (D := D) (catalogue_at n) (address, row) = Ok (address, row, fee)) as [fee Hfee].
  { unfold decode_pool. simpl. destruct (CatalogueDb.fee_bps (catalogue_at n) !! address) as [fee|] eqn:Hf; [|by eexists].
    apply (readable_fees (D := D) _ (catalogue_readable n)) in Hf as [d ->]. by eexists. }
  eexists. split; [exact Hfee|]. unfold PoolEntry_try_from.
  destruct (side_reads_back n (PoolRow.token_a_mint row)) as [a ->].
  destruct (side_reads_back n (PoolRow.token_b_mint row)) as [b ->]. cbn.
  assert (exists state, match CatalogueDb.pool_current_state (catalogue_at n) !! address with
    | Some row => result_map Some (state_column row) | None => Ok None end = Ok state) as [state ->].
  { destruct (CatalogueDb.pool_current_state (catalogue_at n) !! address) as [s|] eqn:Hs; [|by eexists].
    apply (readable_states (D := D) _ (catalogue_readable n)) in Hs as [Ha%in_uint_spec Hb%in_uint_spec].
    unfold state_column, convert_i64_to_u64, narrow, try_uint. rewrite Ha, Hb. by eexists. }
  cbn. rewrite (pool_reads_back n) by done. cbn. eexists. by split_and!.
Qed.

(** The entries, read after the keys and in no order, are put back in theirs. *)
Definition address_of (entry : PoolEntry.t D) : Pubkey := Pool.pool_address (PoolEntry.pool entry).

Lemma strongly_sorted_map {A B} (f : A -> B) (R : B -> B -> Prop) l :
  StronglySorted (fun a b => R (f a) (f b)) l -> StronglySorted R (map f l).
Proof. induction 1 as [|a l Hl IH Ha]; [constructor|]. simpl. constructor; [done|by apply Forall_map]. Qed.

Lemma sorted_by_lookup {A} (l : list A) (pos : A -> Z) k :
  (forall i a, l !! i = Some a -> pos a = k + Z.of_nat i) -> StronglySorted (fun a b => pos a <= pos b) l.
Proof.
  revert k. induction l as [|a l IH]; intros k Hpos; [constructor|]. constructor.
  - apply (IH (k + 1)). intros i b Hb. rewrite (Hpos (S i) b Hb). lia.
  - apply Forall_forall. intros b (i & Hb)%list_elem_of_lookup.
    rewrite (Hpos 0%nat a eq_refl), (Hpos (S i) b Hb). lia.
Qed.

Lemma entries_in_key_order addresses entries :
  NoDup addresses -> map address_of entries ≡ₚ addresses ->
  map address_of (sort_by_key (position_of addresses) entries) = addresses.
Proof.
  intros Hnd Hp. set (es := sort_by_key _ entries).
  assert (map address_of es ≡ₚ addresses) as Hes.
  { rewrite <-Hp. change (address_of <$> es ≡ₚ address_of <$> entries). unfold es. by rewrite sort_perm. }
  set (pos := fun a => match list_find (fun address => address = a) addresses with
    | Some (i, _) => Z.of_nat i | None => -1 end).
  assert (forall i a, addresses !! i = Some a -> pos a = 0 + Z.of_nat i) as Hpos.
  { intros i a Hi. unfold pos. destruct (list_find _ addresses) as [[j b]|] eqn:Hf.
    - apply list_find_Some in Hf as (Hj & -> & _). assert (j = i) as -> by (by eapply NoDup_lookup). lia.
    - apply list_find_None in Hf. apply list_elem_of_lookup_2 in Hi. rewrite Forall_forall in Hf. by apply Hf in Hi. }
  apply (StronglySorted_unique_strong (fun a b => pos a <= pos b)); [|by apply strongly_sorted_map, sort_sorted| |done].
  - intros a b Ha (j & Hb)%list_elem_of_lookup Hle Hge. rewrite Hes in Ha. apply list_elem_of_lookup in Ha as [i Ha].
    rewrite (Hpos i a Ha), (Hpos j b Hb) in *. assert (i = j) as -> by lia. congruence.
  - by eapply sorted_by_lookup.
Qed.

(** The keys one statement lists are still there at the next. *)
Lemma pools_among_all addresses n :
  NoDup addresses -> (forall a, a ∈ addresses -> is_Some (CatalogueDb.pools (catalogue_at n) !! a)) ->
  map fst (pools_among addresses (catalogue_at n)) ≡ₚ addresses.
Proof.
  intros Hnd Ha. unfold pools_among. apply NoDup_Permutation.
  - apply filter_keys_distinct, NoDup_fst_map_to_list.
  - done.
  - intros a. change (a ∈ fst <$> ?l) with (a ∈ fst <$> l). rewrite (list_elem_of_fmap fst). split.
    + intros ([a' row] & -> & [_ Hin%bool_decide_eq_true]%filter_in). done.
    + intros Hin. destruct (Ha a Hin) as [row Hr]. exists (a, row). split; [done|]. apply filter_in.
      split; [by apply elem_of_map_to_list|by apply bool_decide_eq_true].
Qed.

Lemma entries_served addresses n :
  NoDup addresses -> (forall a, a ∈ addresses -> is_Some (CatalogueDb.pools (catalogue_at n) !! a)) ->
  served (read_entries (D := D) addresses) n (fun n' entries => n' = S n /\ map address_of entries ≡ₚ addresses /\
    forall entry, entry ∈ entries -> exists row, CatalogueDb.pools (catalogue_at n) !! address_of entry = Some row /\
      PoolEntry.first_seen_at entry = PoolRow.first_seen_at row).
Proof.
  intros Hnd Ha. unfold read_entries. eapply served_bind; [apply served_read|].
  intros n1 rows _ (-> & ->). cbn [fst snd].
  destruct (collect_twice (decode_pool (D := D) (catalogue_at n)) (PoolEntry_try_from (catalogue_at n))
    (fun r entry => address_of entry = fst r /\ CatalogueDb.pools (catalogue_at n) !! fst r = Some (snd r) /\
      PoolEntry.first_seen_at entry = PoolRow.first_seen_at (snd r))
    (pools_among addresses (catalogue_at n))) as (fetched & entries & Hf & He & HF).
  { intros r [Hr%elem_of_map_to_list' _]%filter_in. destruct (pool_decodes n r Hr) as (fetched & Hd & entry & He & ? & ?).
    exists fetched. split; [done|]. by exists entry. }
  eapply served_bind; [by apply (served_lift _ _ _ (fun n' a => n' = S n /\ a = fetched) Hf)|]. intros n2 ? _ (-> & ->).
  eapply served_lift; [exact He|]. split_and!; [done| |].
  - assert (map address_of entries = map fst (pools_among addresses (catalogue_at n))) as ->; [|by apply pools_among_all].
    eapply forall2_keys, Forall2_impl; [exact HF|]. by intros ? ? [? _].
  - intros entry (i & Hi)%list_elem_of_lookup. eapply Forall2_lookup_r in HF as (r & _ & Hk & Hr & Hs); [|exact Hi].
    exists (snd r). by rewrite Hk.
Qed.

Lemma pool_page_served scope cursor limit n :
  1 <= limit ->
  served (list_pool_entries (D := D) scope cursor limit) n
    (key_page (keys_after (pool_rows scope) (pool_cursor_key <$> cursor)) limit pool_entry_key (pool_cursor scope) n).
Proof.
  intros Hl. unfold list_pool_entries, list_keys. change (_ <$> cursor) with (pool_cursor_key <$> cursor).
  eapply served_bind; [apply served_read|]. intros n1 keys _ (-> & ->).
  set (l := order_by pool_key newer_key _). set (keys := map fst _).
  assert (map pool_key l = keys_after (pool_rows scope) (pool_cursor_key <$> cursor) n) as Hk.
  { unfold l. rewrite <-filter_filter. apply ordered_keys. pose proof (pool_rows_distinct scope n) as Hnd. by rewrite map_id in Hnd. }
  assert (forall r, r ∈ Keyset.limit (limit + 1) l -> CatalogueDb.pools (catalogue_at n) !! fst r = Some (snd r)) as Hrows.
  { intros r Hr%elem_of_limit. unfold l in Hr. rewrite order_by_perm in Hr. apply filter_in in Hr as [Hr _].
    by apply elem_of_map_to_list'. }
  assert (NoDup keys) as Hnd.
  { unfold keys. rewrite <-limit_map. eapply sublist_NoDup; [|apply sublist_take].
    eapply (NoDup_Permutation_proper _ (fst <$> _)); [apply fmap_Permutation, order_by_perm|].
    apply filter_keys_distinct, NoDup_fst_map_to_list. }
  assert (forall r, r ∈ Keyset.limit (limit + 1) l -> exists row, CatalogueDb.pools (catalogue_at (S n)) !! fst r = Some row /\
    PoolRow.first_seen_at row = PoolRow.first_seen_at (snd r)) as Hstay.
  { intros r Hr%Hrows. apply (pools_stay _ _ (catalogue_stays n)) in Hr as (row & ? & ? & _). by exists row. }
  assert (forall a, a ∈ keys -> is_Some (CatalogueDb.pools (catalogue_at (S n)) !! a)) as Hall.
  { intros a (r & -> & (row & Hr & _)%Hstay)%list_elem_of_fmap. by exists row. }
  assert (collect (fun key => convert_string_to_pubkey (pubkey_to_string key) "pool_address") keys = Ok keys) as Hc.
  { apply collect_ok, Forall_forall. intros a (r & -> & Hr%Hrows)%list_elem_of_fmap.
    apply (readable_pools _ (catalogue_readable (D := D) n)) in Hr as [Hb _].
    unfold convert_string_to_pubkey. by rewrite pubkey_of_to_string. }
  eapply served_bind; [by apply (served_lift _ _ _ (fun n' a => n' = S n /\ a = keys) Hc)|]. intros n2 ? _ (-> & ->).
  eapply served_bind; [by apply (entries_served keys (S n))|]. intros n3 entries _ (-> & Hp & He).
  set (es := sort_by_key _ entries). apply served_ret. exists n. split; [lia|]. rewrite <-Hk.
  assert (map address_of es = keys) as Hes by (by apply entries_in_key_order).
  set (h := fun a => match CatalogueDb.pools (catalogue_at (S n)) !! a with
    | Some row => (PoolRow.first_seen_at row, pubkey_to_string a) | None => (0, "") end).
  assert (map pool_entry_key es = map pool_key (Keyset.limit (limit + 1) l)) as Hkeys.
  { transitivity (map h (map address_of es)).
    - rewrite map_map. apply map_ext_in. intros entry Hin%list_elem_of_In. unfold es in Hin. rewrite sort_perm in Hin.
      destruct (He entry Hin) as (row & Hr & Hs). unfold h. rewrite Hr. unfold pool_entry_key. by rewrite Hs.
    - rewrite Hes. unfold keys. rewrite map_map. apply map_ext_in. intros r Hin%list_elem_of_In.
      destruct (Hstay r Hin) as (row & Hr & Hs). unfold h, pool_key. by rewrite Hr, Hs. }
  destruct (forward_page es pool_entry_key (pool_cursor scope)
    (fun entry => Cursor.Pool (PoolCursor.mk scope (PoolEntry.first_seen_at entry) (Pool.pool_address (PoolEntry.pool entry))))
    limit (bool_decide (is_Some cursor)) (map pool_key l)) as (_ & Hi & Hn & Hpv); [lia| | |by split_and!].
  - by rewrite limit_map.
  - intros entry Hin. unfold es in Hin. rewrite sort_perm in Hin.
    destruct (He entry Hin) as (row & Hr & _). apply (readable_pools _ (catalogue_readable (D := D) (S n))) in Hr as [Hb _].
    unfold pool_cursor, pool_entry_key, key_address. cbn [fst snd]. by rewrite pubkey_of_to_string.
Qed.

(** ** The routes *)

Definition token_response_key (response : TokenResponse.t D) : PageKey :=
  (TokenResponse.fetched_at response, TokenResponse.mint response).
Definition pool_response_key (response : PoolResponse.t D) : PageKey :=
  (PoolResponse.first_seen_at response, PoolResponse.pool_address response).
Definition price_response_key (response : TokenPriceResponse.t D) : PageKey :=
  (TokenPriceResponse.fetched_at response, "").

Lemma result_map_ok {E A B} (f : A -> B) (r : result A E) a :
  (forall x y, f x = f y -> x = y) -> result_map f r = Ok (f a) -> r = Ok a.
Proof. intros Hf. destruct r as [b|]; [|done]. intros [= ->%Hf]. done. Qed.

(** The text of a cursor reads back in its list. *)
Lemma parse_cursor_envelope {C} (decode : string -> result C ApiError) (wrap : C -> Cursor.t D) c :
  (forall x y, wrap x = wrap y -> x = y) -> (forall raw, decode_in (list_of (wrap c)) raw = result_map wrap (decode raw)) ->
  wf_cursor (wrap c) -> wire_object (wrap c) <> [] ->
  parse_cursor_with decode (Some (envelope (wire_object (wrap c)))) = Ok (Some c).
Proof.
  intros Hinj Hdec Hwf Hne. unfold parse_cursor_with, non_empty.
  rewrite bool_decide_eq_false_2 by (by apply envelope_nonempty). cbn [result_bind].
  pose proof (decode_in_own (wrap c) Hwf) as Hd. rewrite Hdec in Hd. apply result_map_ok in Hd; [|done].
  by rewrite Hd.
Qed.

Lemma key_address_of k address : is_bytes 32 address -> snd k = pubkey_to_string address -> key_address k = address.
Proof. intros Hb Hk. unfold key_address. by rewrite Hk, pubkey_of_to_string. Qed.

Context (n_per_page : Z).
Hypothesis limit_served : 1 <= n_per_page <= MAX_LIMIT.

Lemma limit_valid : validate_limit n_per_page = Ok ().
Proof using limit_served. unfold validate_limit. by rewrite (proj2 (Z.leb_le 1 _)), (proj2 (Z.leb_le _ MAX_LIMIT)) by lia. Qed.

(** What a route answers a request of a walk. *)
Definition listing {T} (ask : nat -> option string -> Query ApiError (PageResponse.t T)) (item_key : T -> PageKey)
    (rows : CatalogueDb.t -> list PageKey) (cur : PageKey -> Cursor.t D) : Prop :=
  forall n i raw cursor,
    resumes (fun m => rows (catalogue_at m)) id (key_text cur) n i raw cursor ->
    answered (ask i raw) n (key_response (keys_after rows cursor) n_per_page item_key cur n).

Notation resumes_in rows cur := (resumes (fun m => rows (catalogue_at m)) id (key_text cur)).

Lemma tokens_parse n i raw cursor :
  resumes_in token_rows token_cursor n i raw cursor ->
  exists c, parse_list_tokens (CursorParams.mk raw n_per_page) = Ok (c, n_per_page) /\ token_cursor_key <$> c = cursor.
Proof using All.
  unfold parse_list_tokens. simpl. rewrite limit_valid. cbn [result_bind].
  destruct 1 as [|i w (mint & row & Hr & ->)%token_rows_elem]; [by exists None|].
  apply (readable_metadata _ (catalogue_readable (D := D) n)) in Hr as (Hb & _ & _ & Ht).
  unfold key_text, token_cursor. rewrite (parse_cursor_envelope _ Cursor.Token); [|by intros ? ? [=]|done| |done].
  - eexists. split; [done|]. cbn. unfold token_cursor_key. cbn. f_equal. f_equal. by erewrite key_address_of.
  - cbn. split; [done|]. by erewrite key_address_of.
Qed.

Lemma pools_parse scope n i raw cursor :
  wf_pool_scope scope -> resumes_in (pool_rows scope) (pool_cursor scope) n i raw cursor ->
  exists c, parse_list_pools (CursorParams.mk raw n_per_page) scope = Ok (scope, c, n_per_page) /\ pool_cursor_key <$> c = cursor.
Proof using All.
  intros Hs. unfold parse_list_pools. simpl. rewrite limit_valid. cbn [result_bind].
  destruct 1 as [|i w (a & row & Hr & _ & ->)%pool_rows_elem]; [by exists None|].
  apply (readable_pools _ (catalogue_readable (D := D) n)) in Hr as (Hb & Ht & _).
  unfold key_text, pool_cursor. rewrite (parse_cursor_envelope _ Cursor.Pool); [|by intros ? ? [=]|done| |done].
  - eexists. split; [done|]. cbn. unfold pool_cursor_key. cbn. f_equal. f_equal. by erewrite key_address_of.
  - cbn. split_and!; [done|done|]. by erewrite key_address_of.
Qed.

Lemma prices_parse raw_mint mint from window n i raw cursor :
  pubkey_of_string raw_mint = Some mint -> rfc3339_range from ->
  resumes_in (price_rows mint from) (price_cursor mint from) n i raw cursor ->
  exists c, parse_list_token_prices raw_mint (TokenPricesParams.mk window raw n_per_page) =
      Ok (ListTokenPricesRequest.mk mint (Window_from_WindowParam window) c n_per_page) /\
    price_cursor_key <$> c = cursor /\ (c = None -> i = 0%nat) /\ (forall k, c = Some k -> TokenPriceCursor.from k = from).
Proof using All.
  intros Hm Hf. unfold parse_list_token_prices, parse_address. rewrite Hm. simpl. rewrite limit_valid. cbn [result_bind].
  pose proof (pubkey_of_string_bytes _ _ Hm) as Hb.
  destruct 1 as [|i w (Hw & Hk & [row Hr])%price_rows_elem]; [by exists None|].
  apply (readable_prices _ (catalogue_readable (D := D) n)) in Hr as (_ & Ht & _).
  unfold key_text, price_cursor. rewrite (parse_cursor_envelope _ Cursor.TokenPrice); [|by intros ? ? [=]|done|done|done].
  eexists. split; [done|]. cbn. split_and!; [|done|by intros ? [= <-]].
  unfold price_cursor_key. cbn. destruct w as [t txt]. cbn in *. by subst.
Qed.

Lemma key_response_from {T} keys (item_key : T -> PageKey) cur n n1 n' response :
  (n <= n1)%nat -> key_response keys n_per_page item_key cur n1 n' response ->
  key_response keys n_per_page item_key cur n n' response.
Proof. intros Hn (m & Hm & Hr). exists m. split; [lia|done]. Qed.

Lemma answered_mono {A} (q : Query ApiError A) n (P Q : nat -> A -> Prop) :
  answered q n P -> (forall n' a, P n' a -> Q n' a) -> answered q n Q.
Proof. unfold answered. destruct (q n) as [n' [a|e]]; [|done]. intros [? ?] HPQ. split; [done|by apply HPQ]. Qed.

Lemma answered_lifted {A B} (r : result A ApiError) a (k : A -> Query ApiError B) n P :
  r = Ok a -> answered (k a) n P -> answered (query_bind (query_lift r) k) n P.
Proof. by intros ->. Qed.

(** A token with its metadata is not a 404. *)
Lemma known_token_answers mint n :
  is_Some (CatalogueDb.token_metadata (catalogue_at 0%nat) !! mint) ->
  answered (known_token mint) n (fun _ _ => True).
Proof using All.
  intros [row Hr]. apply (metadata_stays _ _ (catalogue_stays_le (D := D) 0 n (Nat.le_0_l n))) in Hr as (row' & Hr & _).
  destruct (metadata_reads_back n mint row' Hr) as (md & Hmd & _).
  unfold known_token. eapply (answered_bind _ _ _ (fun _ o => o = Some md)).
  - apply answered_served. unfold find_by_mint. eapply served_bind; [apply served_read|]. intros n1 o _ (-> & ->).
    rewrite Hr, Hmd. by eapply served_lift.
  - intros n1 o _ ->. by eapply answered_lift.
Qed.

Lemma tokens_listing :
  listing (fun _ raw => list_tokens (D := D) (CursorParams.mk raw n_per_page)) token_response_key token_rows token_cursor.
Proof using All.
  intros n i raw cursor Hr. destruct (tokens_parse n i raw cursor Hr) as (c & Hp & <-).
  unfold list_tokens. eapply answered_lifted; [exact Hp|].
  apply (page_response_answers _ _ _ _ token_entry_key token_response_key); [done|].
  apply token_page_served. lia.
Qed.

Lemma list_request_listing scope c n :
  answered (list_request (D := D) (scope, c, n_per_page)) n
    (key_response (keys_after (pool_rows scope) (pool_cursor_key <$> c)) n_per_page pool_response_key (pool_cursor scope) n).
Proof using All.
  apply (page_response_answers _ _ _ _ pool_entry_key pool_response_key); [done|]. apply pool_page_served. lia.
Qed.

Lemma scope_listing scope :
  wf_pool_scope scope ->
  listing (fun _ raw => list_scope (D := D) (CursorParams.mk raw n_per_page) scope) pool_response_key
    (pool_rows scope) (pool_cursor scope).
Proof using All.
  intros Hs n i raw cursor Hr. destruct (pools_parse scope n i raw cursor Hs Hr) as (c & Hp & <-).
  unfold list_scope. eapply answered_lifted; [exact Hp|]. apply list_request_listing.
Qed.

Lemma token_pools_listing raw_mint mint :
  pubkey_of_string raw_mint = Some mint -> is_Some (CatalogueDb.token_metadata (catalogue_at 0%nat) !! mint) ->
  listing (fun _ raw => list_token_pools (D := D) raw_mint (CursorParams.mk raw n_per_page)) pool_response_key
    (pool_rows (PoolScope.Token mint)) (pool_cursor (PoolScope.Token mint)).
Proof using All.
  intros Hm Hk n i raw cursor Hr. pose proof (pubkey_of_string_bytes _ _ Hm) as Hb.
  destruct (pools_parse (PoolScope.Token mint) n i raw cursor Hb Hr) as (c & Hp & <-).
  unfold list_token_pools, parse_mint, parse_address. rewrite Hm. cbn [ok_or].
  eapply answered_lifted; [done|]. eapply answered_lifted; [exact Hp|].
  eapply answered_bind; [by apply (known_token_answers mint)|]. intros n1 _ Hn _.
  eapply answered_mono; [apply list_request_listing|]. intros n' response. by apply key_response_from.
Qed.

Lemma prices_listing raw_mint mint window (clock : nat -> DateTime) :
  let from := clock 0%nat - Window_duration (Window_from_WindowParam window) in
  pubkey_of_string raw_mint = Some mint -> is_Some (CatalogueDb.token_metadata (catalogue_at 0%nat) !! mint) ->
  rfc3339_range from ->
  listing (fun i raw => list_token_prices (D := D) raw_mint (TokenPricesParams.mk window raw n_per_page) (clock i))
    price_response_key (price_rows mint from) (price_cursor mint from).
Proof using All.
  intros from Hm Hk Hf n i raw cursor Hr. pose proof (pubkey_of_string_bytes _ _ Hm) as Hb.
  destruct (prices_parse raw_mint mint from window n i raw cursor Hm Hf Hr) as (c & Hp & <- & Hi & Hc).
  unfold list_token_prices. eapply answered_lifted; [exact Hp|].
  eapply answered_bind; [by apply (known_token_answers mint)|]. intros n1 _ Hn _.
  eapply answered_mono; [|intros n' response; by apply (key_response_from _ _ _ n n1)].
  cbn [ListTokenPricesRequest.window ListTokenPricesRequest.cursor ListTokenPricesRequest.limit].
  apply (page_response_answers _ _ _ _ price_page_key price_response_key); [done|].
  unfold list_token_prices_page.
  assert (match c with Some c => TokenPriceCursor.from c
    | None => clock i - Window_duration (Window_from_WindowParam window) end = from) as ->.
  { destruct c as [k|]; [by apply Hc|by rewrite Hi]. }
  apply price_page_served; [lia|done].
Qed.

(** *** A client following the cursors *)

Lemma listing_walked {T} (ask : nat -> option string -> Query ApiError (PageResponse.t T)) item_key rows cur n i raw cursor :
  listing ask item_key rows cur ->
  resumes_in rows cur n i raw cursor ->
  let '(n', r) := ask i raw n in
  match r with
  | Ok response => walked id newer_key (fun m => rows (catalogue_at m)) key_after (key_text cur) n_per_page n n' cursor
      (map item_key (PageResponse.items response)) (PageResponse.next_cursor response)
  | Err e => (n <= n')%nat /\ exists k err, (n <= k < n')%nat /\ fault k = Some err /\ e = ApiError_from err
  end.
Proof using All.
  intros Hl Hr. specialize (Hl n i raw cursor Hr). unfold answered in Hl.
  destruct (ask i raw n) as [n' [response|e]]; [|done]. destruct Hl as (Hn & m & Hm & Hi & Hnext).
  split; [done|]. exists m. split_and!; [lia..|exact Hi|exact Hnext].

Qed.

(** What a client that follows the cursors of a list to its end is given. *)
Definition meets_each_row_once {T} (ask : nat -> option string -> Query ApiError (PageResponse.t T)) (item_key : T -> PageKey)
    (rows : CatalogueDb.t -> list PageKey) (requests n : nat) : Prop :=
  let '(n', items, end_) := follow ask requests 0 None n in
  let met := map item_key items in
  StronglySorted (fun a b => newer_key a b = true) met /\ NoDup met /\
  Forall (fun k => k ∈ rows (catalogue_at n')) met /\
  (end_ = Complete -> forall k, k ∈ rows (catalogue_at n) -> k ∈ met) /\
  ((forall j, fault j = None) -> Z.of_nat (length (rows (catalogue_at n'))) < Z.of_nat requests * n_per_page ->
    end_ = Complete).

Lemma listing_meets {T} (ask : nat -> option string -> Query ApiError (PageResponse.t T)) item_key rows cur requests n :
  listing ask item_key rows cur ->
  (forall m, NoDup (map id (rows (catalogue_at m)))) ->
  (forall m m' k, (m <= m')%nat -> k ∈ rows (catalogue_at m) -> k ∈ rows (catalogue_at m')) ->
  meets_each_row_once ask item_key rows requests n.
Proof using All.
  intros Hl Hd Hs.
  set (refused := fun (i n n' : nat) e => exists k err, (n <= k < n')%nat /\ fault k = Some err /\ e = ApiError_from err).
  pose proof (follow_once id newer_key ask item_key (fun m => rows (catalogue_at m)) key_after id (key_text cur)
    n_per_page refused Hd Hs (fun _ _ => eq_refl) ltac:(lia)
    (fun n i raw cursor => listing_walked ask item_key rows cur n i raw cursor Hl) requests n) as Honce.
  pose proof (follow_ends id newer_key ask item_key (fun m => rows (catalogue_at m)) key_after id (key_text cur)
    n_per_page refused Hd Hs (fun _ _ => eq_refl) ltac:(lia)
    (fun n i raw cursor => listing_walked ask item_key rows cur n i raw cursor Hl) requests n) as Hends.
  unfold meets_each_row_once. destruct (follow ask requests 0 None n) as [[n' items] end_].
  destruct Honce as (? & ? & ? & ?). split_and!; [done..|].
  intros Hcalm. apply Hends. intros i k k' e (j & err & _ & Hj & _). by rewrite Hcalm in Hj.
Qed.

(** C11: the lists of the catalogue, followed by their cursors, meet every row
    once. Of the tokens, the pools, the pools of a protocol, the pools of a token
    and the prices of a token in the window of the first request: whatever the
    daemons write between the statements of the walk, what a client is given is
    newest first, no row comes twice, each is stored in the list's scope, and a
    walk that reaches the last page has met every row stored when it began; while
    no statement fails, one that may send more requests than there are full pages
    reaches the last page. *)
Theorem catalogue_walks_meet_each_row_once protocol p raw_mint mint window clock requests n :
  let from := clock 0%nat - Window_duration (Window_from_WindowParam window) in
  Protocol_from_str protocol = Ok p -> pubkey_of_string raw_mint = Some mint ->
  is_Some (CatalogueDb.token_metadata (catalogue_at 0%nat) !! mint) -> rfc3339_range from ->
  meets_each_row_once (fun _ raw => list_tokens (D := D) (CursorParams.mk raw n_per_page))
    token_response_key token_rows requests n /\
  meets_each_row_once (fun _ raw => list_pools (D := D) (CursorParams.mk raw n_per_page))
    pool_response_key (pool_rows PoolScope.All) requests n /\
  meets_each_row_once (fun _ raw => list_protocol_pools (D := D) protocol (CursorParams.mk raw n_per_page))
    pool_response_key (pool_rows (PoolScope.Protocol p)) requests n /\
  meets_each_row_once (fun _ raw => list_token_pools (D := D) raw_mint (CursorParams.mk raw n_per_page))
    pool_response_key (pool_rows (PoolScope.Token mint)) requests n /\
  meets_each_row_once (fun i raw => list_token_prices (D := D) raw_mint (TokenPricesParams.mk window raw n_per_page) (clock i))
    price_response_key (price_rows mint from) requests n.
Proof using All.
  intros from Hp Hm Hk Hf. pose proof (pubkey_of_string_bytes _ _ Hm) as Hb.
  split_and!.
  - eapply listing_meets; [apply tokens_listing|apply token_rows_distinct|apply token_rows_stay].
  - eapply listing_meets; [by apply (scope_listing PoolScope.All)|apply pool_rows_distinct|apply pool_rows_stay].
  - apply (listing_meets _ _ _ (pool_cursor (PoolScope.Protocol p))); [|apply pool_rows_distinct|apply pool_rows_stay].
    intros k i raw cursor Hr. unfold list_protocol_pools, parse_protocol. rewrite Hp.
    eapply answered_lifted; [done|]. exact (scope_listing (PoolScope.Protocol p) I k i raw cursor Hr).
  - eapply listing_meets; [by apply token_pools_listing|apply pool_rows_distinct|apply pool_rows_stay].
  - eapply listing_meets; [by apply prices_listing|apply price_rows_distinct|apply price_rows_stay].
Qed.

(** ** The lookups of the pairs *)

#[export] Instance pg_token_metadata_laws : TokenMetadataLaws.
Proof.
  split. intros mints n. unfold EventApi.find_by_mints, pg_token_metadata, find_by_mints.
  eapply served_bind; [apply served_read|]. intros n1 rows _ (-> & ->).
  destruct (collect_forall2 (fun r => TokenMetadata_try_from (fst r) (snd r))
    (fun r md => fst r ∈ mints /\ TokenMetadata.mint md = fst r)
    (List.filter (fun r => bool_decide (fst r ∈ mints)) (map_to_list (CatalogueDb.token_metadata (catalogue_at n)))))
    as (mds & Hc & HF).
  { intros [mint row] [Hr%elem_of_map_to_list Hin%bool_decide_eq_true]%filter_in.
    destruct (metadata_reads_back n mint row Hr) as (md & ? & ? & _). by exists md. }
  eapply served_lift; [exact Hc|]. apply Forall_forall. intros md (i & Hi)%list_elem_of_lookup.
  eapply Forall2_lookup_r in HF as (r & _ & ? & ->); [done|exact Hi].
Qed.

Lemma pools_found addresses n :
  served (find_pools_by_addresses (D := D) addresses) n (fun _ pools =>
    Forall2 (fun r pool => fst r ∈ addresses /\ Pool.pool_address pool = fst r)
      (pools_among addresses (catalogue_at n)) pools).
Proof.
  unfold find_pools_by_addresses. eapply served_bind; [apply served_read|]. intros n1 rows _ (-> & ->). cbn [fst snd].
  destruct (collect_twice (decode_pool (D := D) (catalogue_at n)) (fun r => Pool_try_from (fst (fst r)) (snd (fst r)))
    (fun r pool => fst r ∈ addresses /\ Pool.pool_address pool = fst r)
    (pools_among addresses (catalogue_at n))) as (fetched & pools & Hf & Hp & HF).
  { intros [a row] [Hr%elem_of_map_to_list Hin%bool_decide_eq_true]%filter_in.
    pose proof (pool_reads_back n a row Hr) as Hb. destruct (pool_decodes n (a, row) Hr) as (fetched & Hd & _).
    exists fetched. split; [done|]. unfold decode_pool in Hd. inv_binds. cbn [fst snd]. rewrite Hb.
    eexists. by split_and!. }
  eapply (served_bind _ _ _ (fun _ a => fetched = a)); [by eapply served_lift|]. intros n2 ? _ <-.
  by eapply served_lift.
Qed.

Lemma pg_pools_laws : @PoolCatalogLaws _ (pg_pools (D := D)).
Proof.
  split. intros l n. eapply served_mono; [apply pools_found|]. intros n' pools _ HF. apply Forall_forall.
  intros pool (i & Hi)%list_elem_of_lookup. eapply Forall2_lookup_r in HF as (r & _ & ? & ->); [done|exact Hi].
Qed.

(** A pool of the table at the first statement is found at every one. *)
Lemma stored_pool_known address :
  is_Some (CatalogueDb.pools (catalogue_at 0%nat) !! address) -> @known _ (pg_pools (D := D)) address.
Proof.
  intros [row Hr] n.
  destruct (pools_stay _ _ (catalogue_stays_le (D := D) 0 n (Nat.le_0_l n)) address row Hr) as (row' & Hr' & _).
  eapply served_mono; [apply pools_found|]. intros n' pools _ HF.
  assert ((address, row') ∈ pools_among [address] (catalogue_at n)) as (i & Hi)%list_elem_of_lookup.
  { apply filter_in. split; [by apply elem_of_map_to_list|]. apply bool_decide_eq_true. by left. }
  eapply Forall2_lookup_l in HF as (pool & Hp & _ & Ha); [|exact Hi]. exists pool.
  split; [by eapply list_elem_of_lookup_2|done].
Qed.
End Lists.

(** ** A walk of every list, one row per page *)

Module Walked.
Import Bytes.

#[local] Instance calm : Postgres := {| fault _ := None; db_now _ := 0 |}.
#[local] Instance numeric : NumericDecimal Z := {| decimal_of_numeric q := Some (Qnum q) |}.
#[local] Instance plain : BigDecimal Q := {| to_plain_string q := dec_to_string (Qnum q) |}.
#[local] Instance https : UrlParse := {| url_scheme s := if String.prefix "https:" s then Some "https" else None |}.

Definition sol : Pubkey := repeat 1 32.
Definition usdc : Pubkey := repeat 2 32.
Definition jup : Pubkey := repeat 3 32.
Definition at_second (s : Z) : DateTime := s * 10 ^ 9.

Definition token (symbol : string) (s : Z) : TokenMetadataRow.t :=
  TokenMetadataRow.mk (Some symbol) (Some symbol) 6 (Some "https://logo") "helius_das" (at_second s) (at_second s).
Definition pool (a b : Pubkey) (s : Z) : PoolRow.t :=
  PoolRow.mk MeteoraDammV2 (Some a) (Some b) (at_second s) (at_second s) false.
Definition price (usd : Z) : TokenPriceRow.t := TokenPriceRow.mk (inject_Z usd) "jupiter" None.

(** Two tokens, two pools seen at one instant and two prices; a third token, its
    pool and a price come by the second statement. *)
Definition tables (n : nat) : CatalogueDb.t :=
  let late := (1 <? n)%nat in
  CatalogueDb.mk
    ((if late then <[repeat 6 32 := pool sol jup 31]> else id)
      {[repeat 4 32 := pool sol usdc 11; repeat 5 32 := pool usdc sol 11]})
    {[repeat 4 32 := inject_Z 25]}
    ((if late then <[jup := token "JUP" 30]> else id) {[sol := token "SOL" 10; usdc := token "USDC" 10]})
    ∅
    {[repeat 4 32 := PoolCurrentTvlRow.mk (Some (inject_Z 900)) None (Some (inject_Z 900))]}
    (PriceDb.mk ((if late then <[(sol, at_second 32) := price 152]> else id)
        {[(sol, at_second 12) := price 150; (sol, at_second 13) := price 151; (usdc, at_second 13) := price 1]})
      {[sol := (inject_Z 151, at_second 13)]}).
#[local] Instance catalogue : CatalogueTables := {| catalogue_at := tables |}.

Lemma inserted_stays `{Countable K} {V} (late late' : bool) (m : gmap K V) k v x y :
  (late = true -> late' = true) -> m !! k = None ->
  (if late then <[k := v]> else id) m !! x = Some y -> (if late' then <[k := v]> else id) m !! x = Some y.
Proof.
  intros Hl Hk. destruct late, late'; try done; [by discriminate (Hl eq_refl)|]. simpl. intros Hx.
  rewrite lookup_insert_ne; [done|]. intros ->. congruence.
Qed.

Lemma later_still n : (1 <? n)%nat = true -> (1 <? S n)%nat = true.
Proof. rewrite !Nat.ltb_lt. lia. Qed.

Lemma inserted_row `{Countable K} {V} (late : bool) (m : gmap K V) k v x y :
  (if late then <[k := v]> else id) m !! x = Some y -> (x = k /\ y = v) \/ m !! x = Some y.
Proof. destruct late; [|by right]. intros [[<- <-]|[_ ?]]%lookup_insert_Some; [by left|by right]. Qed.

Ltac the_rows H :=
  lazymatch type of H with
  | (if _ then _ else _) _ !! _ = _ => apply inserted_row in H as [[-> ->]|H]; [|the_rows H]
  | <[_ := _]> _ !! _ = _ => apply lookup_insert_Some in H as [[<- <-]|[_ H]]; [|the_rows H]
  | {[_ := _]} !! _ = _ => apply lookup_singleton_Some in H as [<- <-]
  end.

Lemma repeated_bytes b : is_uint 8 b -> is_bytes 32 (repeat b 32).
Proof. intros Hb. split; [by rewrite repeat_length|]. apply List.Forall_forall. by intros x ->%repeat_spec. Qed.

#[local] Instance catalogue_laws : CatalogueLaws Z.
Proof.
  split.
  - intros n. split; simpl.
    + intros mint row Hr. the_rows Hr; (split; [by apply repeated_bytes|by split_and!]).
    + intros a row Hr. the_rows Hr; (split; [by apply repeated_bytes|split; [done|]]);
        intros m Hm; unfold side_mints in Hm; simpl in Hm;
        repeat (apply elem_of_cons in Hm as [->|Hm]; [by apply repeated_bytes|]); by apply elem_of_nil in Hm.
    + intros a fee Hr. by the_rows Hr.
    + done.
    + intros mint at_ row Hr. apply inserted_row in Hr as [[[= -> ->] ->]|Hr];
        [|repeat (apply lookup_insert_Some in Hr as [[[= <- <-] <-]|[_ Hr]]; [|]);
          try apply lookup_singleton_Some in Hr as [[= <- <-] <-]];
        (split; [by eexists|split; [done|by eexists]]).
  - intros n. split; simpl.
    + intros mint row Hr. exists row. split; [|done]. eapply inserted_stays, Hr; [apply later_still|done].
    + intros a row Hr. exists row. split; [|done]. eapply inserted_stays, Hr; [apply later_still|done].
    + intros key row Hr. exists row. eapply inserted_stays, Hr; [apply later_still|done].
Qed.

(** A request a second. *)
Definition clock (i : nat) : DateTime := at_second (40 + Z.of_nat i).
Definition sol_text : string := pubkey_to_string sol.

Notation walked_pools := (follow (fun _ raw => list_token_pools (D := Z) sol_text (CursorParams.mk raw 1)) 5 0 None 0%nat).
Notation walked_prices := (follow (fun i raw =>
  list_token_prices (D := Z) sol_text (TokenPricesParams.mk ParamDay raw 1) (clock i)) 5 0 None 0%nat).

(** The two pools of one instant part by their address; the price that comes
    meanwhile is before the cursor. *)
Example walked_result :
  (let '(n', items, end_) := walked_pools in
   (n', map PoolResponse.first_seen_at items, bool_decide (NoDup (map PoolResponse.pool_address items)), end_)) =
    (6%nat, [at_second 11; at_second 11], true, Complete) /\
  (let '(n', items, end_) := walked_prices in (n', map TokenPriceResponse.usd items, end_)) = (4%nat, [151; 150], Complete).
Proof. split; vm_compute; reflexivity. Qed.

(** Both tokens and both pools stored when it began are met, and every price in
    the window. *)
Lemma catalogue_walks_meet_each_row_once_witness :
  meets_each_row_once 1 (fun _ raw => list_tokens (D := Z) (CursorParams.mk raw 1)) token_response_key token_rows 5 0 /\
  (let '(_, items, end_) := walked_pools in
   end_ = Complete /\ length (pool_rows (PoolScope.Token sol) (catalogue_at 0)) = 2%nat /\
   forall k, k ∈ pool_rows (PoolScope.Token sol) (catalogue_at 0) -> k ∈ map pool_response_key items).
Proof.
  destruct (catalogue_walks_meet_each_row_once (D := Z) 1 ltac:(done) "meteora_damm_v2" MeteoraDammV2 sol_text sol
    ParamDay clock 5 0 eq_refl ltac:(by vm_compute) ltac:(by eexists) ltac:(done)) as (Ht & _ & _ & Hp & _).
  split; [exact Ht|]. pose proof walked_result as [Hr _]. revert Hp Hr. unfold meets_each_row_once.
  destruct walked_pools as [[n' items] end_]. intros (_ & _ & _ & Hc & _) [= _ _ _ ->].
  split_and!; [done|by vm_compute|by apply Hc].
Defined.
End Walked.
