(* ===== verification/EventWitness.v ===== *)
(** * The tables the indexer leaves, read while it goes on

    The rows stored by [Persist] from transactions of the chain are tables the
    lists can be read from ([EventTables]); and a list walked over them. *)

From stdpp Require Import sorting.
From S2P Require Import Prelude Errors External Domain Extractor Translator Extraction Reference.
From S2P Require Import Store Rows Persist PersistFacts RowsFacts Signals Analytic Cursor CursorFacts.
From S2P Require Import Keyset KeysetFacts EventLists EventApi EventListsFacts MergedListsFacts EventWalk.

Section Indexed.
Context `{Postgres} `{Clock} `{BorshLaws} `{Sha256} `{Base58Laws} `{SignatureFromStrLaws}.

(** The transactions processed by the [n]-th statement of the reader. *)
Context (txs : nat -> list (Protocol * OnChainTransaction.t)).

Definition indexed_tables : Tables Event :=
  {| rows_at n := Db.events (Indexer.db (process_all (Indexer.mk Db.empty []) (txs n))) |}.
#[local] Existing Instance indexed_tables.

Lemma position_timestamp w :
  EventPosition.timestamp (MeteoraDammV2Event.position_of w) = MeteoraDammV2Event.timestamp w.
Proof. by destruct w. Qed.

Lemma convert_pubkey_bytes s field k : convert_string_to_pubkey s field = Ok k -> is_bytes 32 k.
Proof. unfold convert_string_to_pubkey. intros Hk%ok_or_Ok. by eapply pubkey_of_string_bytes. Qed.
Lemma convert_u16_bound v field i : convert_i32_to_u16 v field = Ok i -> is_uint 16 i.
Proof. unfold convert_i32_to_u16, narrow. intros Hi%ok_or_Ok. by apply try_uint_is_uint in Hi. Qed.

(** What was read back has the widths of what is read. *)
Lemma reads_back_widths w :
  try_from_row w = Ok w -> is_bytes 32 (MeteoraDammV2Event.pool_address w) /\ is_uint 16 (event_index_column w).
Proof.
  intros Hw. destruct w as [e|e|e|e|e|e|e|e|e|e|e|e|e|e|e|e|e|e|e]; cbn [try_from_row] in Hw;
    match type of Hw with result_map _ ?r = _ => destruct r as [e'|] eqn:He; [|discriminate Hw] end;
    injection Hw as ->;
    unfold MeteoraDammV2SwapEvent_try_from, MeteoraDammV2LiquidityEvent_try_from,
      MeteoraDammV2InitializePoolEvent_try_from, MeteoraDammV2CreatePositionEvent_try_from,
      MeteoraDammV2ClosePositionEvent_try_from, MeteoraDammV2LockPositionEvent_try_from,
      MeteoraDammV2PermanentLockPositionEvent_try_from, MeteoraDammV2SplitPositionEvent_try_from,
      MeteoraDammV2ClaimPositionFeeEvent_try_from, MeteoraDammV2ClaimProtocolFeeEvent_try_from,
      MeteoraDammV2ClaimRewardEvent_try_from, MeteoraDammV2InitializeRewardEvent_try_from,
      MeteoraDammV2FundRewardEvent_try_from, MeteoraDammV2UpdateRewardDurationEvent_try_from,
      MeteoraDammV2UpdateRewardFunderEvent_try_from, MeteoraDammV2WithdrawIneligibleRewardEvent_try_from,
      MeteoraDammV2WithdrawDeadLiquidityRewardEvent_try_from, MeteoraDammV2SetPoolStatusEvent_try_from,
      MeteoraDammV2UpdatePoolFeesEvent_try_from in He;
    repeat (apply result_bind_Ok in He as (? & ? & He));
    injection He as <-; split;
    first [by eapply convert_pubkey_bytes | by eapply convert_u16_bound].
Qed.

(** The transactions of the chain, in the order they are processed. *)
Hypothesis txs_grow : forall n, exists later, txs (S n) = txs n ++ later.
Hypothesis txs_wf : forall n, Forall (fun x => wf_transaction x.2) (txs n).
Hypothesis txs_signed : forall n, one_transaction_per_signature (txs n).
Hypothesis txs_dated : forall n,
  Forall (fun x => rfc3339_range (TransactionPosition.timestamp (OnChainTransaction.position x.2))) (txs n).

Lemma indexed_rows n : indexed (txs n) (rows_at n).
Proof. apply process_all_indexed. Qed.

Lemma indexed_stored n w : w ∈ rows_at n -> stored_row w.
Proof.
  intros Hw. pose proof (indexed_rows n) as [Hr _]. rewrite Forall_forall in Hr.
  destruct (Hr w Hw) as (x & Hx & Hwx).
  pose proof (proj1 (List.Forall_forall _ _) (txs_wf n) x Hx) as Htx.
  pose proof (proj1 (List.Forall_forall _ _) (txs_dated n) x Hx) as Hdate.
  assert (try_from_row w = Ok w) as Hread by (exact (extracted_reads_back _ _ _ Htx Hwx)).
  destruct (reads_back_widths w Hread) as [Hp Hi].
  destruct Hwx as (out & d & Hex & Hd & ->). destruct (extracted_position _ _ _ _ Hex Hd) as [i Hpos].
  destruct d as [e]. split; [done|done| |done|].
  - rewrite <- position_signature. simpl in Hpos |- *. rewrite Hpos. apply Htx.
  - rewrite <- position_timestamp. simpl in Hpos |- *. by rewrite Hpos.
Qed.

Lemma indexed_keys n : NoDup (map row_key (rows_at n)).
Proof.
  pose proof (indexed_rows n) as Hr. apply NoDup_fmap_2_strong; [|destruct Hr as [_ Hd]; exact (NoDup_fmap_1 row_id _ Hd)].
  intros a b Ha Hb [= Ht Hs Hi].
  pose proof (stored_signature _ (indexed_stored n a Ha)) as Hsa.
  pose proof (stored_signature _ (indexed_stored n b Hb)) as Hsb.
  apply (indexed_key_inj _ _ (txs_signed n) Hr); [by apply list_elem_of_In..| |done].
  unfold signature_column in Hs. apply signature_of_to_string in Hsa, Hsb. congruence.
Qed.

Lemma indexed_grow n w : w ∈ rows_at n -> w ∈ rows_at (S n).
Proof.
  destruct (txs_grow n) as [later Hl]. simpl. rewrite Hl. unfold process_all at 2. rewrite foldl_app.
  fold (process_all (Indexer.mk Db.empty []) (txs n)).
  destruct (process_all_extends later (process_all (Indexer.mk Db.empty []) (txs n))) as [new Hn].
  unfold process_all in Hn at 1. rewrite Hn. intros Hw. apply elem_of_app. by left.
Qed.

(** What the indexer stores, the lists can be read from. *)
Lemma indexed_event_tables `{RowIds} :
  (forall n a b, a ∈ rows_at n -> b ∈ rows_at n -> table a = table b -> id_of a = id_of b -> a = b) ->
  EventTables.
Proof. intros Hids. split; [apply indexed_grow|apply indexed_stored|apply indexed_keys|exact Hids]. Qed.
End Indexed.

(** ** A list walked while the indexer writes

    Concrete tables: the reference transaction, and later a second one, indexed
    between the statements of a client that takes the swaps one by one. *)

(** ** Instances *)

Import Bytes.

#[local] Instance calm : Postgres := {| fault _ := None; db_now _ := 0 |}.
(** Ids that differ as the instants and the indexes do. *)
#[local] Instance ids : RowIds := {| id_of w := MeteoraDammV2Event.timestamp w + event_index_column w |}.

(** ** The tables *)

(** Another transaction, a minute later. *)
Definition later_position : TransactionPosition.t := {|
  TransactionPosition.signature := be_encode 64 (2 ^ 510 + 415296330);
  TransactionPosition.timestamp := 1777014002 * 10 ^ 9;
  TransactionPosition.slot := 415296330;
  TransactionPosition.transaction_index := Some 4;
|}.
Definition later_transaction : OnChainTransaction.t :=
  OnChainTransaction.mk later_position (OnChainTransaction.inner_instructions reference_transaction).

(** It is indexed by the third statement of the reader. *)
Definition history (n : nat) : list (Protocol * OnChainTransaction.t) :=
  (MeteoraDammV2, reference_transaction) ::
    (if (n <? 2)%nat then [] else [(MeteoraDammV2, later_transaction)]).

#[local] Instance tables : Tables Event := @indexed_tables calm ticking_clock _ _ _ history.

Lemma history_all (P : OnChainTransaction.t -> Prop) n :
  P reference_transaction -> P later_transaction -> Forall (fun x => P x.2) (history n).
Proof. intros Ha Hb. unfold history. by destruct (n <? 2)%nat; repeat constructor. Qed.

Example later_transaction_wf : wf_transaction later_transaction.
Proof. split; [split; by_eval|]. apply (bool_decide_unpack _); vm_compute; exact I. Qed.

#[local] Instance tables_laws : EventTables.
Proof.
  apply indexed_event_tables.
  - intros n. unfold history. destruct (Nat.ltb_spec n 2), (Nat.ltb_spec (S n) 2); try lia.
    + by exists [].
    + by eexists.
    + by exists [].
  - intros n. apply history_all; [apply reference_transaction_wf|apply later_transaction_wf].
  - intros n x y Hx%list_elem_of_In Hy%list_elem_of_In. revert Hx Hy.
    apply (key_inj (fun x => TransactionPosition.signature (OnChainTransaction.position x.2))).
    unfold history. destruct (n <? 2)%nat; apply (bool_decide_unpack _); vm_compute; exact I.
  - intros n. apply (history_all (fun tx =>
      rfc3339_range (TransactionPosition.timestamp (OnChainTransaction.position tx)))); done.
  - intros n a b Ha Hb _. apply (key_inj id_of (rows_at n)); [|done..].
    unfold rows_at, tables, indexed_tables, history. destruct (n <? 2)%nat; apply (bool_decide_unpack _); vm_compute; exact I.
Qed.

(** ** The catalogues: the reference pool, and no token *)

#[local] Instance catalogue : PoolCatalog := {
  find_by_addresses l := query_ret (map (fun a => Pool.mk a MeteoraDammV2 None None 0) l);
}.
#[local] Instance catalogue_laws : PoolCatalogLaws.
Proof.
  split. intros l n. apply served_ret. apply Forall_forall. intros p (a & -> & Ha)%list_elem_of_fmap. done.
Qed.
#[local] Instance tokens : TokenMetadataLookup := { find_by_mints _ := query_ret [] }.
#[local] Instance tokens_laws : TokenMetadataLaws.
Proof. split. intros l n. apply served_ret. done. Qed.

Lemma reference_pool_known : known reference_pool.
Proof. intros n. apply served_ret. eexists. split; [by left|done]. Qed.

(** ** A walk of the swaps, one per page *)

#[local] Notation routes :=
  (event_routes (D := Z) "meteora_damm_v2" MeteoraDammV2 (pubkey_to_string reference_pool) reference_pool).

Definition swaps_route : Route.t := Route.mk Swaps EventScope.All (list_swaps (D := Z)) (fun e => e).
(** A request a second, for a minute. *)
Definition clock (i : nat) : DateTime := (1777013950 + Z.min (Z.of_nat i) 59) * 10 ^ 9.

Lemma pool_reads : pubkey_of_string (pubkey_to_string reference_pool) = Some reference_pool.
Proof. vm_compute. reflexivity. Qed.

#[local] Notation walked_swaps := (walk (Route.handler swaps_route) DayParamDay 1 clock 5 0 None 0).

Example walked_swaps_result :
  let '(n', items, end_) := walked_swaps in
  n' = 4%nat /\ map event_index_column items = [1; 0] /\ end_ = Complete.
Proof. vm_compute. done. Qed.

Lemma day_written : rfc3339_range (walk_from DayParamDay clock).
Proof. done. Qed.

(** The two swaps stored when it began are met, once each. *)
Lemma walk_meets_each_event_once_witness :
  let '(_, items, end_) := walked_swaps in
  length (rows_at 0) = 2%nat /\ end_ = Complete /\ NoDup items /\
  forall w, w ∈ rows_at 0 -> serves Swaps EventScope.All (walk_from DayParamDay clock) w = true -> w ∈ items.
Proof.
  pose proof (walk_meets_each_event_once (D := Z) "meteora_damm_v2" (pubkey_to_string reference_pool)
    MeteoraDammV2 reference_pool eq_refl pool_reads reference_pool_known swaps_route DayParamDay 1 clock 5 0
    ltac:(by left) ltac:(done) day_written) as Hw.
  pose proof walked_swaps_result as Hr. revert Hw Hr.
  destruct walked_swaps as [[n' items] end_]. intros Hw (_ & _ & He).
  change (Route.event_of swaps_route) with (fun e : Event => e) in Hw. cbv zeta in Hw. rewrite map_id in Hw.
  destruct Hw as (_ & Hnd & _ & Hall). split_and!; [by vm_compute|done|done|]. by apply Hall.
Defined.

(** Five requests are enough for the four swaps there are at the end. *)
Lemma walk_reaches_the_last_page_witness :
  let '(n', items, end_) := walked_swaps in end_ = Complete.
Proof.
  pose proof (walk_reaches_the_last_page (D := Z) "meteora_damm_v2" (pubkey_to_string reference_pool)
    MeteoraDammV2 reference_pool eq_refl pool_reads reference_pool_known swaps_route DayParamDay 1 clock 5 0
    ltac:(by left) ltac:(done) day_written ltac:(done)) as Hw.
  pose proof walked_swaps_result as Hr. revert Hw Hr.
  destruct walked_swaps as [[n' items] end_]. intros Hw (-> & _ & _). apply Hw.
  - intros i. unfold clock, CURSOR_WINDOW_MARGIN, hours_delta. lia.
  - vm_compute. done.
Defined.

(** The page of the swaps when the reader begins. *)
Lemma lists_refine_pages_witness :
  match (@list_events Z (lookup_of Swaps) EventScope.All 0 None 1 0%nat).2 with
  | Ok page => length (Page.items page) = 1%nat /\
      exists m, page = page_of Swaps EventScope.All 0 None 1 (rows_at m)
  | Err _ => False
  end.
Proof.
  pose proof (lists_refine_pages (D := Z) Swaps EventScope.All 0 None 1 0%nat ltac:(done) ltac:(done)) as Hp.
  assert (match (@list_events Z (lookup_of Swaps) EventScope.All 0 None 1 0%nat).2 with
    | Ok page => length (Page.items page) = 1%nat | Err _ => False end) as Hl by (by vm_compute).
  revert Hp Hl. destruct (list_events EventScope.All 0 None 1 0%nat) as [n' [page|e]]; cbn [snd]; [|done].
  intros (m & _ & Hp) Hl. split; [done|by exists m].
Defined.
