(* ===== verification/Live.v ===== *)
(** * The live pollers

    [src/crates/api/src/application/live/]: watermark.rs, poller.rs and the
    interface [LiveSource] of live.rs. An [Instant] is a nanosecond of a clock
    that does not go back. A read of a source is a sequence of statements of
    [Keyset.v]; the log lines are left out. The second half says what a poller
    promises. *)

From S2P Require Import Prelude Errors External OrderedMap Keyset.

(** ** [watermark.rs] *)

Definition GAP_SETTLE : Z := 10 * 10 ^ 9.

(** [Instant::duration_since]: zero for a later instant. *)
Definition duration_since (now at_ : Z) : Z := Z.max 0 (now - at_).

(** [first_key_value]. *)
Definition first_key_value {V} (m : gmap Z V) : option (Z * V) :=
  let! k := first_key m in let! v := m !! k in Some (k, v).

Module LiveWatermark.
Record t : Type := mk {
  floor : Z;
  delivered : gmap Z Z;
}.

Definition anchored (tip : Z) : t := mk tip ∅.

Fixpoint fresh {R} (id_of : R -> Z) (now : Z) (records : list R) (w : t) : t * list R :=
  match records with
  | [] => (w, [])
  | record :: records =>
    let id := id_of record in
    if floor w <? id then
      let known := delivered w !! id in
      let (w, rest) := fresh id_of now records (mk (floor w) (<[id := now]> (delivered w))) in
      (w, match known with Some _ => rest | None => record :: rest end)
    else fresh id_of now records w
  end.

(** The inner loop: over the ids delivered without a hole. *)
Fixpoint advance (fuel : nat) (w : t) : t :=
  match fuel with
  | O => w
  | S fuel =>
    match first_key_value (delivered w) with
    | Some (id, _) => if id =? floor w + 1 then advance fuel (mk (floor w + 1) (pop_first (delivered w))) else w
    | None => w
    end
  end.

(** The outer loop. Each pass but the first pops an id: as many passes as ids
    delivered, and one, are enough. *)
Fixpoint settle_loop (fuel : nat) (now : Z) (w : t) : t :=
  match fuel with
  | O => w
  | S fuel =>
    let w := advance (size (delivered w)) w in
    match first_key_value (delivered w) with
    | None => w
    | Some (next, read_at) =>
      if duration_since now read_at <? GAP_SETTLE then w
      else settle_loop fuel now (mk (next - 1) (delivered w))
    end
  end.

Definition settle (now : Z) (w : t) : t := settle_loop (S (size (delivered w))) now w.
End LiveWatermark.

(** ** [live.rs] *)

(** A table the live connection streams. [prepare] fails nothing, but sends
    statements. *)
Module LiveSource.
Record t (R I : Type) : Type := mk {
  name : string;
  tip : Query RepositoryError (option Z);
  after : Z -> Z -> Query RepositoryError (list R);
  id_of : R -> Z;
  prepare : list R -> nat -> nat * list I;
}.
Arguments mk {R I}.
Arguments name {R I}.
Arguments tip {R I}.
Arguments after {R I}.
Arguments id_of {R I}.
Arguments prepare {R I}.
End LiveSource.

Definition LIVE_CHANNEL_CAPACITY : Z := 256.

(** ** [poller.rs] *)

Definition POLL_BATCH_LIMIT : Z := 200.

Section Poller.
Context {R I : Type} (source : LiveSource.t R I).

(** The read past the floor, at [now], and what it broadcasts. *)
Definition read_past (now : Z) (watermark : LiveWatermark.t) (n : nat) :
    nat * (option LiveWatermark.t * list I) :=
  let (n, records) := LiveSource.after source (LiveWatermark.floor watermark) POLL_BATCH_LIMIT n in
  match records with
  | Err _ => (n, (Some watermark, []))
  | Ok records =>
    let (watermark, fresh) := LiveWatermark.fresh (LiveSource.id_of source) now records watermark in
    let watermark := LiveWatermark.settle now watermark in
    match fresh with
    | [] => (n, (Some watermark, []))
    | _ =>
      let (n, items) := LiveSource.prepare source fresh n in
      (n, (Some watermark, items))
    end
  end.

(** One tick: the watermark it leaves, and the items it broadcasts. *)
Definition poll_once (now : Z) (watermark : option LiveWatermark.t) (n : nat) :
    nat * (option LiveWatermark.t * list I) :=
  match watermark with
  | Some watermark => read_past now watermark n
  | None =>
    let (n, tip) := LiveSource.tip source n in
    match tip with
    | Ok tip => read_past now (LiveWatermark.anchored (default 0 tip)) n
    | Err _ => (n, (None, []))
    end
  end.

End Poller.

(** What wakes the loop: the stop, which wins over a tick due with it, or a
    tick with the receivers the channel has then, the instant its read comes
    back, and whether the stop arrives while it runs: the tick is then dropped
    before it has sent anything. *)
Inductive Wake : Type :=
| Stopped
| Ticked (receivers : nat) (now : Z) (stopped : bool).

(** The poller between two wakes: the watermark, the statements sent, the
    items broadcast. *)
Module LivePoller.
Record t (I : Type) : Type := mk {
  watermark : option LiveWatermark.t;
  statements : nat;
  broadcast : list I;
  running : bool;
}.
Arguments mk {I}.
Arguments watermark {I}.
Arguments statements {I}.
Arguments broadcast {I}.
Arguments running {I}.

Definition new {I} (statements : nat) : t I := mk None statements [] true.

Section Run.
Context {R I : Type} (source : LiveSource.t R I).

Definition stop (self : t I) : t I := mk (watermark self) (statements self) (broadcast self) false.

Definition tick (self : t I) (receivers : nat) (now : Z) (stopped : bool) : t I :=
  if bool_decide (receivers = 0%nat) then mk None (statements self) (broadcast self) true
  else if stopped then stop self
  else
    let '(n, (watermark, items)) := poll_once source now (watermark self) (statements self) in
    mk watermark n (broadcast self ++ items) true.

Definition wake (self : t I) (w : Wake) : t I :=
  if running self then
    match w with
    | Stopped => stop self
    | Ticked receivers now stopped => tick self receivers now stopped
    end
  else self.

Definition run (self : t I) (wakes : list Wake) : t I := foldl wake self wakes.
End Run.
End LivePoller.

(** ** What the live pollers promise

    The watermark of [Live.v]: what a read adds to it and what settling does;
    then the poller over any source. *)

Import LiveWatermark.

Lemma first_key_value_Some {V} (m : gmap Z V) k v :
  first_key_value m = Some (k, v) -> m !! k = Some v /\ forall k', is_Some (m !! k') -> k <= k'.
Proof.
  unfold first_key_value. destruct (first_key m) as [k'|] eqn:Hk; simpl; [|done].
  apply first_key_Some in Hk as [[v' Hv] Hle]. rewrite Hv. simpl. intros [= <- <-]. done.
Qed.

Lemma first_key_value_None {V} (m : gmap Z V) : first_key_value m = None -> m = ∅.
Proof.
  unfold first_key_value. destruct (first_key m) as [k'|] eqn:Hk; simpl.
  - apply first_key_Some in Hk as [[v' Hv] _]. by rewrite Hv.
  - intros _. by apply first_key_None.
Qed.

Lemma pop_first_delete {V} (m : gmap Z V) k v : first_key_value m = Some (k, v) -> pop_first m = delete k m.
Proof.
  unfold first_key_value, pop_first. destruct (first_key m) as [k'|]; simpl; [|done].
  destruct (m !! k'); simpl; [|done]. by intros [= <- _].
Qed.

(** ** Settling *)

(** The ids delivered are above the floor. *)
Definition wf (w : t) : Prop := forall k, is_Some (delivered w !! k) -> floor w < k.

(** [w'] is [w] with its floor raised: what is above it is kept. *)
Record raised (w w' : t) : Prop := {
  raised_floor : floor w <= floor w';
  raised_kept : forall k, delivered w' !! k = if floor w' <? k then delivered w !! k else None;
}.

Lemma raised_refl w : wf w -> raised w w.
Proof.
  intros Hw. split; [done|]. intros k. destruct (Z.ltb_spec (floor w) k) as [|Hk]; [done|].
  destruct (delivered w !! k) as [v|] eqn:Hv; [|done]. assert (floor w < k) by (apply Hw; eauto). lia.
Qed.

Lemma raised_trans w1 w2 w3 : raised w1 w2 -> raised w2 w3 -> raised w1 w3.
Proof.
  intros [H12 K12] [H23 K23]. split; [lia|]. intros k. rewrite K23, K12.
  destruct (Z.ltb_spec (floor w3) k), (Z.ltb_spec (floor w2) k); done || lia.
Qed.

Lemma raised_wf w w' : raised w w' -> wf w'.
Proof.
  intros [_ Hk] k [v Hv]. rewrite Hk in Hv. by destruct (Z.ltb_spec (floor w') k).
Qed.

(** An id the floor went over was delivered, or is a hole under an id read at
    least [GAP_SETTLE] before [now]. *)
Definition passed (now : Z) (w : t) (id : Z) : Prop :=
  is_Some (delivered w !! id) \/
  exists next read_at, id < next /\ delivered w !! next = Some read_at /\ GAP_SETTLE <= duration_since now read_at /\
    forall k, is_Some (delivered w !! k) -> id < k -> next <= k.

Lemma advance_step w id v :
  wf w -> first_key_value (delivered w) = Some (id, v) -> id = floor w + 1 ->
  raised w (mk (floor w + 1) (pop_first (delivered w))).
Proof.
  intros Hw Hf He. rewrite (pop_first_delete _ _ _ Hf). apply first_key_value_Some in Hf as [Hv Hle].
  split; simpl; [lia|]. intros k. destruct (Z.ltb_spec (floor w + 1) k) as [Hk|Hk].
  - by rewrite lookup_delete_ne by lia.
  - destruct (decide (k = id)) as [->|Hne]; [by rewrite lookup_delete_eq|]. rewrite lookup_delete_ne by done.
    destruct (delivered w !! k) as [v'|] eqn:Hv'; [|done]. assert (floor w < k) by (apply Hw; eauto). lia.
Qed.

Definition at_a_hole (w : t) : Prop :=
  match first_key_value (delivered w) with Some (id, _) => floor w + 1 < id | None => True end.

Lemma advance_spec fuel w :
  wf w -> (size (delivered w) <= fuel)%nat ->
  let w' := advance fuel w in
  raised w w' /\ at_a_hole w' /\ forall id, floor w < id <= floor w' -> is_Some (delivered w !! id).
Proof.
  revert w. induction fuel as [|fuel IH]; intros w Hw Hsz; simpl.
  - split_and!; [by apply raised_refl| |lia]. unfold at_a_hole.
    destruct (first_key_value (delivered w)) as [[id v]|] eqn:Hf; [|done].
    apply first_key_value_Some in Hf as [Hv _]. assert (size (delivered w) = 0)%nat as He by lia.
    apply map_size_empty_inv in He. by rewrite He in Hv.
  - destruct (first_key_value (delivered w)) as [[id v]|] eqn:Hf.
    2:{ split_and!; [by apply raised_refl| |lia]. unfold at_a_hole. by rewrite Hf. }
    pose proof (first_key_value_Some _ _ _ Hf) as [Hv Hle].
    destruct (Z.eqb_spec id (floor w + 1)) as [He|He].
    + pose proof (advance_step w id v Hw Hf He) as Hr.
      destruct (IH (mk (floor w + 1) (pop_first (delivered w)))) as (Hr' & Hh & Hd).
      * by apply raised_wf in Hr.
      * simpl. rewrite (pop_first_delete _ _ _ Hf).
        rewrite (size_delete_Some (delivered w) id) in Hsz by eauto. lia.
      * split_and!; [by eapply raised_trans|done|]. intros k Hk. simpl in *.
        destruct (decide (k = id)) as [->|Hne]; [eauto|].
        destruct (Hd k) as [v' Hv']; [lia|]. destruct Hr as [_ Hkept]. simpl in Hkept.
        rewrite Hkept in Hv'. destruct (Z.ltb_spec (floor w + 1) k); [eauto|done].
    + split_and!; [by apply raised_refl| |lia]. unfold at_a_hole. rewrite Hf.
      assert (floor w < id) by (apply Hw; eauto). lia.
Qed.

Definition settled (now : Z) (w : t) : Prop :=
  match first_key_value (delivered w) with
  | Some (next, read_at) => floor w + 1 < next /\ duration_since now read_at < GAP_SETTLE
  | None => True
  end.

Lemma raised_size w w' : raised w w' -> (size (delivered w') <= size (delivered w))%nat.
Proof.
  intros [_ Hk]. apply map_subseteq_size, map_subseteq_spec. intros k v Hv. rewrite Hk in Hv.
  by destruct (Z.ltb_spec (floor w') k).
Qed.

Lemma raised_size_lt w w' id :
  raised w w' -> is_Some (delivered w !! id) -> id <= floor w' ->
  (size (delivered w') < size (delivered w))%nat.
Proof.
  intros [_ Hk] Hid Hle. rewrite (size_delete_Some (delivered w) id) by done.
  apply Nat.lt_succ_r, map_subseteq_size, map_subseteq_spec. intros k v Hv. rewrite Hk in Hv.
  destruct (Z.ltb_spec (floor w') k); [|done]. by rewrite lookup_delete_ne by lia.
Qed.

Lemma passed_raised now w w' id : raised w w' -> floor w' < id -> passed now w' id -> passed now w id.
Proof.
  intros [_ Hk] Hid.
  assert (forall k, id <= k -> delivered w' !! k = delivered w !! k) as Hsame.
  { intros k Hle. rewrite Hk. by destruct (Z.ltb_spec (floor w') k); [|lia]. }
  intros [Hd|(next & read_at & Hlt & Hn & Hold & Hfirst)]; [left; by rewrite <- Hsame|].
  right. exists next, read_at. split_and!; [done|by rewrite <- Hsame by lia|done|].
  intros k Hd Hik. apply Hfirst; [|done]. by rewrite Hsame by lia.
Qed.

(** Over the hole under [next]. *)
Lemma skip_raised w next v :
  first_key_value (delivered w) = Some (next, v) -> at_a_hole w ->
  raised w (mk (next - 1) (delivered w)).
Proof.
  intros Hf Hh. unfold at_a_hole in Hh. rewrite Hf in Hh. apply first_key_value_Some in Hf as [Hv Hle].
  split; simpl; [lia|]. intros k. destruct (Z.ltb_spec (next - 1) k) as [|Hk]; [done|].
  destruct (delivered w !! k) as [v'|] eqn:Hk'; [|done]. assert (next <= k) by (apply Hle; eauto). lia.
Qed.

Lemma skip_passed now w next read_at id :
  first_key_value (delivered w) = Some (next, read_at) -> GAP_SETTLE <= duration_since now read_at ->
  id < next -> passed now w id.
Proof.
  intros [Hv Hle]%first_key_value_Some Hold Hid. right. exists next, read_at. split_and!; auto.
Qed.

(** A pass finds an id to pop, but perhaps the first. *)
Definition ready (fuel : nat) (w : t) : Prop :=
  (size (delivered w) < fuel)%nat \/
  (size (delivered w) <= fuel)%nat /\ is_Some (delivered w !! (floor w + 1)).

Lemma settle_loop_spec fuel now w :
  wf w -> ready fuel w ->
  let w' := settle_loop fuel now w in
  raised w w' /\ settled now w' /\ forall id, floor w < id <= floor w' -> passed now w id.
Proof.
  revert w. induction fuel as [|fuel IH]; intros w Hw Hfuel; simpl.
  { destruct Hfuel as [?|[Hs [v Hv]]]; [lia|]. assert (size (delivered w) = 0)%nat as He by lia.
    apply map_size_empty_inv in He. by rewrite He in Hv. }
  destruct (advance_spec (size (delivered w)) w Hw) as (Hr & Hh & Hd); [done|].
  set (w1 := advance (size (delivered w)) w) in *.
  destruct (first_key_value (delivered w1)) as [[next read_at]|] eqn:Hf.
  2:{ split_and!; [done|unfold settled; by rewrite Hf|]. intros id Hid. left. by apply Hd. }
  destruct (Z.ltb_spec (duration_since now read_at) GAP_SETTLE) as [Hnew|Hold].
  { split_and!; [done| |intros id Hid; left; by apply Hd].
    unfold settled. rewrite Hf. unfold at_a_hole in Hh. by rewrite Hf in Hh. }
  pose proof (skip_raised w1 next read_at Hf Hh) as Hr2.
  destruct (IH (mk (next - 1) (delivered w1))) as (Hr3 & Hs & Hp).
  - by apply raised_wf in Hr2.
  - right. simpl. replace (next - 1 + 1) with next by lia.
    apply first_key_value_Some in Hf as [Hv _]. split; [|eauto].
    destruct Hfuel as [Hlt|[Hle Hn]].
    + pose proof (raised_size w w1 Hr). lia.
    + destruct (decide (floor w + 1 <= floor w1)) as [Hfl|Hfl].
      * pose proof (raised_size_lt w w1 (floor w + 1) Hr Hn Hfl). lia.
      * destruct Hr as [Hf0 Hkept]. assert (floor w1 = floor w) as Hfe by lia.
        unfold at_a_hole in Hh. destruct (first_key_value (delivered w1)) as [[id v]|] eqn:Hf1.
        -- apply first_key_value_Some in Hf1 as [_ Hleast].
           assert (id <= floor w + 1); [|lia]. apply Hleast. rewrite Hkept, Hfe.
           by destruct (Z.ltb_spec (floor w) (floor w + 1)); [|lia].
        -- apply first_key_value_None in Hf1. by rewrite Hf1 in Hv.
  - split_and!; [exact (raised_trans _ _ _ Hr (raised_trans _ _ _ Hr2 Hr3))|done|].
    intros id Hid. simpl in Hp.
    destruct (decide (id <= floor w1)); [left; apply Hd; lia|].
    apply (passed_raised now w w1); [done|lia|].
    destruct (decide (id < next)); [by eapply skip_passed|].
    apply (passed_raised now w1 (mk (next - 1) (delivered w1))); [done|simpl; lia|]. apply Hp. lia.
Qed.

(** Settling ends: the floor has an id read lately above the next hole, or
    nothing above it; it went over delivered ids and over holes old enough. *)
Lemma watermark_settles now w :
  wf w ->
  let w' := settle now w in
  raised w w' /\ settled now w' /\ forall id, floor w < id <= floor w' -> passed now w id.
Proof. intros Hw. apply settle_loop_spec; [done|]. left. lia. Qed.

(** ** Reading *)

Section Fresh.
Context {R : Type} (id_of : R -> Z) (now : Z).

(** What is not below the floor nor delivered, once. *)
Record fresh_from (records : list R) (w w' : t) (out : list R) : Prop := {
  fresh_floor : floor w' = floor w;
  fresh_delivered : forall k, delivered w' !! k =
    if (floor w <? k) && bool_decide (k ∈ map id_of records) then Some now else delivered w !! k;
  fresh_sublist : out `sublist_of` records;
  fresh_ids : NoDup (map id_of out);
  fresh_new : forall id, id ∈ map id_of out <->
    id ∈ map id_of records /\ floor w < id /\ delivered w !! id = None;
}.

Lemma fresh_spec records w w' out : fresh id_of now records w = (w', out) -> fresh_from records w w' out.
Proof.
  revert w w' out. induction records as [|r records IH]; intros w w' out; simpl.
  { intros [= <- <-]. split; [done| |done|constructor|].
    - intros k. rewrite bool_decide_false by apply not_elem_of_nil. by rewrite andb_false_r.
    - intros id. simpl. split; [by intros ?%not_elem_of_nil|by intros [?%not_elem_of_nil _]]. }
  destruct (Z.ltb_spec (floor w) (id_of r)) as [Hlt|Hle].
  - destruct (fresh id_of now records _) as [w1 rest] eqn:Hf. intros [= <- <-].
    destruct (IH _ _ _ Hf) as [Hfl Hd Hs Hn Hnew]. simpl in *.
    assert (forall id, id ∈ map id_of rest <-> id ∈ map id_of records /\ floor w < id /\
      id <> id_of r /\ delivered w !! id = None) as Hrest.
    { intros id. rewrite Hnew. destruct (decide (id = id_of r)) as [->|Hne].
      - rewrite lookup_insert_eq. naive_solver.
      - rewrite lookup_insert_ne by done. naive_solver. }
    split; [done| | | |].
    + intros k. rewrite Hd. cbn [map]. destruct (decide (k = id_of r)) as [->|Hne].
      * rewrite lookup_insert_eq. rewrite (bool_decide_true (id_of r ∈ id_of r :: map id_of records)) by (by left).
        destruct (Z.ltb_spec (floor w) (id_of r)); [|lia]. by destruct (bool_decide _).
      * rewrite lookup_insert_ne by done.
        rewrite (bool_decide_ext (k ∈ map id_of records) (k ∈ id_of r :: map id_of records)); [done|].
        rewrite elem_of_cons. naive_solver.
    + destruct (delivered w !! id_of r); [by apply sublist_cons|by apply sublist_skip].
    + destruct (delivered w !! id_of r); simpl; [done|]. constructor; [|done]. rewrite Hrest. naive_solver.
    + intros id. destruct (delivered w !! id_of r) eqn:Hk; cbn [map]; rewrite ?elem_of_cons, Hrest; split.
      * naive_solver.
      * intros ([->|Hin] & Hid & Hnone); [congruence|]. split_and!; try done. by intros ->; congruence.
      * naive_solver.
      * intros ([->|Hin] & Hid & Hnone); [by left|]. destruct (decide (id = id_of r)); [by left|right]. done.
  - intros Hf. destruct (IH _ _ _ Hf) as [Hfl Hd Hs Hn Hnew].
    split; [done| |by apply sublist_cons|done|].
    + intros k. rewrite Hd. cbn [map]. destruct (Z.ltb_spec (floor w) k); simpl; [|done].
      rewrite (bool_decide_ext (k ∈ map id_of records) (k ∈ id_of r :: map id_of records)); [done|].
      rewrite elem_of_cons. split; [naive_solver|]. intros [->|?]; [lia|done].
    + intros id. rewrite Hnew. simpl. rewrite elem_of_cons. split; [naive_solver|].
      intros ([->|?] & ? & ?); [lia|done].
Qed.

Lemma fresh_wf records w w' out : wf w -> fresh_from records w w' out -> wf w'.
Proof.
  intros Hw [Hfl Hd _ _ _] k [v Hv]. rewrite Hfl. rewrite Hd in Hv.
  destruct (Z.ltb_spec (floor w) k); [done|]. simpl in Hv. apply Hw. eauto.
Qed.
End Fresh.

Lemma sublist_full {A} (l1 l2 : list A) : l1 `sublist_of` l2 -> (length l2 <= length l1)%nat -> l1 = l2.
Proof.
  induction 1 as [|x l1 l2 Hs IH|x l1 l2 Hs IH]; simpl; intros Hl; [done|f_equal; apply IH; lia|].
  apply sublist_length in Hs. lia.
Qed.

(** ** A poller *)

Section Poller.
Context {R I : Type} (source : LiveSource.t R I) (item_id : I -> Z).

(** What [prepare] keeps to: the items are those of the records, some left out. *)
Hypothesis prepared : forall records n,
  map item_id (snd (LiveSource.prepare source records n)) `sublist_of` map (LiveSource.id_of source) records.

(** The ids sent since the anchoring at [tip]. *)
Record follows (tip : Z) (sent : list Z) (w : t) : Prop := {
  follows_wf : wf w;
  follows_floor : tip <= floor w;
  follows_once : NoDup sent;
  follows_above : Forall (fun id => tip < id) sent;
  follows_counted : forall id, id ∈ sent -> id <= floor w \/ is_Some (delivered w !! id);
}.

Lemma follows_anchored tip : follows tip [] (anchored tip).
Proof.
  split; simpl; [|done|constructor|constructor|by intros id ?%not_elem_of_nil].
  intros k [v Hv]. simpl in Hv. by rewrite lookup_empty in Hv.
Qed.

(** A read that answers. *)
Definition read (now : Z) (w : t) (records : list R) : t :=
  settle now (fst (fresh (LiveSource.id_of source) now records w)).

Lemma read_past_cases now w n :
  exists n' w' items, read_past source now w n = (n', (Some w', items)) /\
    ((exists e, snd (LiveSource.after source (floor w) POLL_BATCH_LIMIT n) = Err e) /\ w' = w /\ items = [] \/
     exists records out, snd (LiveSource.after source (floor w) POLL_BATCH_LIMIT n) = Ok records /\
       w' = read now w records /\ snd (fresh (LiveSource.id_of source) now records w) = out /\
       exists m, items = match out with [] => [] | _ => snd (LiveSource.prepare source out m) end).
Proof.
  unfold read_past, read. destruct (LiveSource.after source _ _ n) as [n1 [records|e]]; simpl.
  2:{ eexists _, _, _. split; [done|]. left. eauto. }
  destruct (fresh (LiveSource.id_of source) now records w) as [w1 out] eqn:Hf; simpl. destruct out as [|r out].
  - eexists _, _, _. split; [done|]. right. exists records, []. rewrite Hf. split_and!; done || by exists 0%nat.
  - destruct (LiveSource.prepare source (r :: out) n1) as [n2 items] eqn:Hp.
    eexists _, _, _. split; [done|]. right. exists records, (r :: out). rewrite Hf. split_and!; try done.
    exists n1. by rewrite Hp.
Qed.

Lemma read_raises now w records :
  wf w ->
  let w1 := fst (fresh (LiveSource.id_of source) now records w) in
  fresh_from (LiveSource.id_of source) now records w w1 (snd (fresh (LiveSource.id_of source) now records w)) /\
  wf w1 /\ raised w1 (read now w records) /\ settled now (read now w records) /\
  forall id, floor w < id <= floor (read now w records) -> passed now w1 id.
Proof.
  intros Hw. unfold read. destruct (fresh _ now records w) as [w1 out] eqn:Hf; simpl.
  pose proof (fresh_spec _ _ _ _ _ _ Hf) as Hspec. pose proof (fresh_wf _ _ _ _ _ _ Hw Hspec) as Hw1.
  destruct (watermark_settles now w1 Hw1) as (Hr & Hs & Hp). split_and!; try done.
  intros id Hid. apply Hp. by rewrite (fresh_floor _ _ _ _ _ _ Hspec).
Qed.

Lemma read_past_follows tip sent now w n n' w' items :
  follows tip sent w -> read_past source now w n = (n', (Some w', items)) ->
  follows tip (sent ++ map item_id items) w'.
Proof.
  intros Hf Hr. destruct (read_past_cases now w n) as (n1 & w1 & items1 & He & Hcase).
  rewrite He in Hr. injection Hr as <- <- <-.
  destruct Hcase as [(_ & -> & ->)|(records & out & _ & -> & Hout & m & ->)].
  { by rewrite app_nil_r. }
  destruct Hf as [Hw Hfl Hn Ha Hc]. destruct (read_raises now w records Hw) as (Hfr & Hw1 & Hra & _ & _).
  rewrite Hout in Hfr. set (w1 := fst _) in *. destruct Hfr as [Hfl1 Hd1 Hsub Hids Hnew].
  assert (map item_id match out with [] => [] | _ => snd (LiveSource.prepare source out m) end
    `sublist_of` map (LiveSource.id_of source) out) as Hitems.
  { destruct out; [done|]. apply prepared. }
  set (items := match out with [] => [] | _ => _ end) in *.
  assert (forall id, id ∈ map item_id items -> floor w < id /\ delivered w !! id = None /\
    id ∈ map (LiveSource.id_of source) records) as Hin.
  { intros id Hid. pose proof (elem_of_sublist _ _ _ Hid Hitems) as Hin%Hnew. naive_solver. }
  destruct Hra as [Hup Hkept]. split.
  - eapply (raised_wf w1). by split.
  - lia.
  - apply NoDup_app. split_and!; [done| |by eapply sublist_NoDup].
    intros id Hs Hi. apply Hin in Hi as (Hlt & Hnone & _). destruct (Hc id Hs) as [?|[v Hv]]; [lia|congruence].
  - apply Forall_app. split; [done|]. apply Forall_forall. intros id Hi. apply Hin in Hi. lia.
  - intros id Hid. destruct (Z.leb_spec id (floor (read now w records))) as [|Hgt]; [by left|right].
    rewrite Hkept. destruct (Z.ltb_spec (floor (read now w records)) id); [|lia].
    rewrite Hd1. apply elem_of_app in Hid as [Hid|Hid].
    + destruct (Hc id Hid) as [?|Hd]; [lia|]. by destruct (_ && _).
    + apply Hin in Hid as (Hlt & _ & Hid). rewrite bool_decide_true by done.
      by destruct (Z.ltb_spec (floor w) id); [|lia].
Qed.

(** Somebody is connected. *)
Definition listening (w : Wake) : Prop :=
  match w with Stopped => True | Ticked receivers _ _ => (0 < receivers)%nat end.

(** [b] was sent before, and the rest since the anchoring at [tip]. *)
Definition followed (b : list I) (tip : Z) (p : LivePoller.t I) : Prop :=
  exists w sent, LivePoller.watermark p = Some w /\ LivePoller.broadcast p = b ++ sent /\
    follows tip (map item_id sent) w.

Lemma read_past_followed b tip sent now w n q :
  follows tip (map item_id sent) w ->
  q = (let '(n, (watermark, items)) := read_past source now w n in
       LivePoller.mk watermark n ((b ++ sent) ++ items) true) ->
  followed b tip q.
Proof.
  intros Hf ->. destruct (read_past_cases now w n) as (n1 & w1 & i1 & He & _). rewrite He.
  exists w1, (sent ++ i1). split_and!; [done|by rewrite <-app_assoc|]. rewrite map_app. by eapply read_past_follows.
Qed.

Lemma wake_follows b tip p w :
  listening w -> followed b tip p -> followed b tip (LivePoller.wake source p w).
Proof.
  intros Hl Hp. unfold LivePoller.wake. destruct (LivePoller.running p); [|done].
  destruct w as [|receivers now stopped]; [done|]. simpl in Hl. unfold LivePoller.tick.
  rewrite bool_decide_false by lia. destruct stopped; [done|].
  destruct Hp as (w & sent & Hw & Hb & Hf). unfold poll_once. rewrite Hw, Hb. by eapply read_past_followed.
Qed.

Lemma run_follows b tip p wakes :
  Forall listening wakes -> followed b tip p -> followed b tip (LivePoller.run source p wakes).
Proof.
  intros Hl. revert p. induction Hl as [|w wakes Hw _ IH]; intros p Hp; [done|].
  apply IH. by apply wake_follows.
Qed.

(** The first tip answered is the anchor: that of the tick after [before]. *)
Definition anchors (p : LivePoller.t I) (wakes : list Wake) (tip : Z) : Prop :=
  exists before receivers now more answer,
    wakes = before ++ Ticked receivers now false :: more /\
    LivePoller.watermark (LivePoller.run source p before) = None /\
    LivePoller.broadcast (LivePoller.run source p before) = LivePoller.broadcast p /\
    snd (LiveSource.tip source (LivePoller.statements (LivePoller.run source p before))) = Ok answer /\
    tip = default 0 answer.

Lemma wake_anchors p w :
  LivePoller.watermark p = None -> listening w ->
  LivePoller.watermark (LivePoller.wake source p w) = None /\
    LivePoller.broadcast (LivePoller.wake source p w) = LivePoller.broadcast p \/
  exists receivers now answer, w = Ticked receivers now false /\
    snd (LiveSource.tip source (LivePoller.statements p)) = Ok answer /\
    followed (LivePoller.broadcast p) (default 0 answer) (LivePoller.wake source p w).
Proof.
  intros Hp Hw. unfold LivePoller.wake. destruct (LivePoller.running p); [|by left].
  destruct w as [|receivers now stopped]; [by left|]. simpl in Hw. unfold LivePoller.tick.
  rewrite bool_decide_false by lia. destruct stopped; [by left|]. unfold poll_once. rewrite Hp.
  destruct (LiveSource.tip source (LivePoller.statements p)) as [n0 [tip|e]].
  2:{ left. simpl. by rewrite app_nil_r. }
  right. exists receivers, now, tip. split_and!; [done..|].
  eapply (read_past_followed _ _ []); [apply follows_anchored|]. by rewrite app_nil_r.
Qed.

(** While somebody listens, a poller without a watermark sends nothing before
    its anchor, and then each id once, above it. *)
Lemma run_anchors p wakes :
  LivePoller.watermark p = None -> Forall listening wakes ->
  LivePoller.watermark (LivePoller.run source p wakes) = None /\
    LivePoller.broadcast (LivePoller.run source p wakes) = LivePoller.broadcast p \/
  exists tip, anchors p wakes tip /\ followed (LivePoller.broadcast p) tip (LivePoller.run source p wakes).
Proof.
  intros Hp Hl. revert p Hp. induction Hl as [|w wakes Hw Hl IH]; intros p Hp; [by left|].
  change (LivePoller.run source p (w :: wakes)) with (LivePoller.run source (LivePoller.wake source p w) wakes).
  destruct (wake_anchors p w Hp Hw) as [[Hn Hb]|(receivers & now & answer & -> & Htip & Hf)].
  - destruct (IH _ Hn) as [[Hn' Hb']|(tip & Ha & Hf)]; [left; by rewrite <-Hb|right].
    exists tip. rewrite Hb in Hf. split; [|exact Hf].
    destruct Ha as (before & receivers & now & more & answer & -> & Hn' & Hb' & Htip & ->).
    exists (w :: before), receivers, now, more, answer. by rewrite <-Hb.
  - right. exists (default 0 answer). split; [|by apply run_follows].
    by exists [], receivers, now, wakes, answer.
Qed.

(** While somebody listens, an id is sent once. *)
Lemma run_sends_once n wakes :
  Forall listening wakes ->
  NoDup (map item_id (LivePoller.broadcast (LivePoller.run source (LivePoller.new n) wakes))).
Proof.
  intros Hl. destruct (run_anchors (LivePoller.new n) wakes) as [[_ ->]|(tip & _ & w & sent & _ & -> & Hf)];
    [done..|constructor|apply Hf].
Qed.

(** What holds of every item prepared from a read holds of what is sent. *)
Lemma run_sends (P : I -> Prop) p wakes :
  (forall f n records out k, snd (LiveSource.after source f POLL_BATCH_LIMIT n) = Ok records ->
    out `sublist_of` records -> Forall P (snd (LiveSource.prepare source out k))) ->
  exists sent, LivePoller.broadcast (LivePoller.run source p wakes) = LivePoller.broadcast p ++ sent /\ Forall P sent.
Proof.
  intros HP.
  assert (forall now w n, Forall P (snd (snd (read_past source now w n)))) as Hread.
  { intros now w1 n. destruct (read_past_cases now w1 n) as (n' & w' & items & He & Hcase). rewrite He. simpl.
    destruct Hcase as [(_ & _ & ->)|(records & out & Ha & _ & Hout & m & ->)]; [constructor|].
    destruct out as [|r out]; [constructor|]. apply (HP (floor w1) n records); [done|].
    destruct (fresh (LiveSource.id_of source) now records w1) as [w2 out'] eqn:Hf. simpl in Hout. subst out'.
    by destruct (fresh_spec _ _ _ _ _ _ Hf). }
  assert (forall q w, exists sent, LivePoller.broadcast (LivePoller.wake source q w) = LivePoller.broadcast q ++ sent /\
    Forall P sent) as Hwake.
  { intros q w. assert (exists sent, LivePoller.broadcast q = LivePoller.broadcast q ++ sent /\ Forall P sent) as Hnil
      by (exists []; by rewrite app_nil_r).
    unfold LivePoller.wake. destruct (LivePoller.running q); [|done].
    destruct w as [|receivers now stopped]; [done|]. unfold LivePoller.tick.
    destruct (bool_decide _); [done|]. destruct stopped; [done|]. unfold poll_once.
    destruct (LivePoller.watermark q) as [w|].
    - specialize (Hread now w (LivePoller.statements q)).
      destruct (read_past _ _ _ _) as [n' [w' items]]. by exists items.
    - destruct (LiveSource.tip source _) as [n0 [tip|e]]; simpl; [|by exists []].
      specialize (Hread now (anchored (default 0 tip)) n0).
      destruct (read_past _ _ _ _) as [n' [w' items]]. by exists items. }
  revert p. induction wakes as [|w wakes IH]; intros p; [exists []; by rewrite app_nil_r|].
  destruct (Hwake p w) as (s1 & E1 & P1). destruct (IH (LivePoller.wake source p w)) as (s2 & E2 & P2).
  exists (s1 ++ s2). split; [|by apply Forall_app]. rewrite app_assoc, <-E1. exact E2.
Qed.

Lemma run_sent (P : I -> Prop) p wakes :
  (forall f n records out k, snd (LiveSource.after source f POLL_BATCH_LIMIT n) = Ok records ->
    out `sublist_of` records -> Forall P (snd (LiveSource.prepare source out k))) ->
  Forall P (LivePoller.broadcast p) -> Forall P (LivePoller.broadcast (LivePoller.run source p wakes)).
Proof.
  intros HP Hp. destruct (run_sends P p wakes HP) as (sent & -> & Hs). by apply Forall_app.
Qed.

(** ** Holes *)

(** The reads past [h - 1] never show [h], and always [next], the first id
    above it, nothing being above [last]. *)
Record hole (h next last : Z) : Prop := {
  hole_next : h < next;
  hole_reads : forall n records, snd (LiveSource.after source (h - 1) POLL_BATCH_LIMIT n) = Ok records ->
    next ∈ map (LiveSource.id_of source) records /\
    forall id, id ∈ map (LiveSource.id_of source) records -> next <= id <= last;
}.

(** Stuck under [h]: every id above it was read at [next] or after it. *)
Record stuck (h next last : Z) (w : t) : Prop := {
  stuck_floor : floor w = h - 1;
  stuck_delivered : forall k, is_Some (delivered w !! k) -> next <= k <= last;
}.

Lemma read_stuck h next last now w n records :
  hole h next last -> stuck h next last w ->
  snd (LiveSource.after source (h - 1) POLL_BATCH_LIMIT n) = Ok records -> stuck h next last (read now w records).
Proof.
  intros [Hnext Hreads] [Hfl Hd] Ha. destruct (Hreads n records Ha) as [Hin Hall].
  assert (wf w) as Hw.
  { intros k Hk. apply Hd in Hk. lia. }
  destruct (read_raises now w records Hw) as (Hfr & Hw1 & Hra & _ & Hpassed).
  set (w1 := fst _) in *. destruct Hfr as [Hfl1 Hd1 _ _ _].
  assert (forall k, is_Some (delivered w1 !! k) -> next <= k <= last) as Hd1'.
  { intros k [v Hv]. rewrite Hd1 in Hv.
    destruct (Z.ltb_spec (floor w) k); simpl in Hv; [|apply Hd; eauto].
    destruct (bool_decide_reflect (k ∈ map (LiveSource.id_of source) records)); [by apply Hall|apply Hd; eauto]. }
  assert (delivered w1 !! next = Some now) as Hn.
  { rewrite Hd1, Hfl. destruct (Z.ltb_spec (h - 1) next); [|lia]. by rewrite bool_decide_true by done. }
  split.
  - destruct (decide (floor (read now w records) = h - 1)) as [|Hne]; [done|exfalso].
    destruct Hra as [Hup _]. destruct (Hpassed h) as [Hk|(next' & at_ & Hlt & Hat & Hold & Hfirst)]; [lia| |].
    + apply Hd1' in Hk. lia.
    + assert (next' = next) as ->.
      { assert (next' <= next) by (apply Hfirst; [eauto|done]). assert (next <= next' <= last) by (apply Hd1'; eauto). lia. }
      rewrite Hn in Hat. injection Hat as <-. unfold duration_since, GAP_SETTLE in Hold. lia.
  - intros k [v Hv]. destruct Hra as [_ Hkept]. rewrite Hkept in Hv.
    destruct (Z.ltb_spec (floor (read now w records)) k); [|done]. apply Hd1'. eauto.
Qed.

Lemma wake_stuck h next last p w :
  hole h next last -> listening w ->
  (exists w, LivePoller.watermark p = Some w /\ stuck h next last w) ->
  Forall (fun id => id <= last) (map item_id (LivePoller.broadcast p)) ->
  (exists w', LivePoller.watermark (LivePoller.wake source p w) = Some w' /\ stuck h next last w') /\
  Forall (fun id => id <= last) (map item_id (LivePoller.broadcast (LivePoller.wake source p w))).
Proof.
  intros Hh Hl (w0 & Hw0 & Hs) Hb. unfold LivePoller.wake. destruct (LivePoller.running p); [|eauto].
  destruct w as [|receivers now stopped]; [by simpl; eauto|]. simpl in Hl. unfold LivePoller.tick.
  rewrite bool_decide_false by lia. destruct stopped; [by simpl; eauto|].
  unfold poll_once. rewrite Hw0.
  destruct (read_past_cases now w0 (LivePoller.statements p)) as (n1 & w1 & i1 & He & Hcase). rewrite He. simpl.
  rewrite map_app, Forall_app.
  destruct Hcase as [(_ & -> & ->)|(records & out & Ha & -> & Hout & m & Hi)]; [eauto|].
  rewrite (stuck_floor _ _ _ _ Hs) in Ha. split_and!; [|done|].
  - eexists. split; [done|]. by eapply read_stuck.
  - assert (map item_id i1 `sublist_of` map (LiveSource.id_of source) out) as Hi1.
    { rewrite Hi. destruct out; [done|]. apply prepared. }
    apply Forall_forall. intros id Hid. pose proof (elem_of_sublist _ _ _ Hid Hi1) as Hin.
    destruct (fresh (LiveSource.id_of source) now records w0) as [w1 out'] eqn:Hf. simpl in Hout. subst out'.
    apply fresh_spec in Hf as [_ _ _ _ Hnew]. apply Hnew in Hin as [Hin _].
    by apply (hole_reads _ _ _ Hh _ _ Ha).
Qed.

Lemma run_stuck h next last p wakes :
  hole h next last -> Forall listening wakes ->
  (exists w, LivePoller.watermark p = Some w /\ stuck h next last w) ->
  Forall (fun id => id <= last) (map item_id (LivePoller.broadcast p)) ->
  (exists w', LivePoller.watermark (LivePoller.run source p wakes) = Some w' /\ floor w' = h - 1) /\
  Forall (fun id => id <= last) (map item_id (LivePoller.broadcast (LivePoller.run source p wakes))).
Proof.
  intros Hh Hl. revert p. induction Hl as [|w wakes Hw _ IH]; intros p Hp Hb.
  - destruct Hp as (w & Hw & [Hfl _]). split; [by exists w|done].
  - destruct (wake_stuck h next last p w Hh Hw Hp Hb) as [Hp' Hb']. by apply IH.
Qed.

(** ** Without holes *)

(** A read of ids that follow the floor, one by one, settles at the last. *)
Lemma read_contiguous now w records m :
  0 <= m -> delivered w = ∅ -> map (LiveSource.id_of source) records = seqZ (floor w + 1) m ->
  delivered (read now w records) = ∅ /\ floor (read now w records) = floor w + m /\
  snd (fresh (LiveSource.id_of source) now records w) = records.
Proof.
  intros Hm He Hids. assert (wf w) as Hw by (intros k [v Hv]; by rewrite He in Hv).
  destruct (read_raises now w records Hw) as (Hfr & Hw1 & [Hup Hkept] & Hset & Hpassed).
  set (w1 := fst _) in *. destruct Hfr as [Hfl1 Hd1 Hsub Hnd Hnew].
  assert (forall k, is_Some (delivered w1 !! k) <-> floor w < k <= floor w + m) as Hd1'.
  { intros k. rewrite Hd1, Hids, He, lookup_empty.
    destruct (Z.ltb_spec (floor w) k); simpl; [|split; [by intros []|lia]].
    destruct (bool_decide_reflect (k ∈ seqZ (floor w + 1) m)) as [Hk|Hk]; rewrite elem_of_seqZ in Hk.
    - split; [lia|eauto].
    - split; [by intros []|lia]. }
  assert (forall k, is_Some (delivered (read now w records) !! k) ->
    floor (read now w records) < k <= floor w + m) as Hd2.
  { intros k [v Hv]. rewrite Hkept in Hv. destruct (Z.ltb_spec (floor (read now w records)) k); [|done].
    split; [done|]. apply Hd1'. eauto. }
  assert (floor (read now w records) <= floor w + m) as Hle.
  { destruct (Z.leb_spec (floor (read now w records)) (floor w + m)) as [|Hgt]; [done|exfalso].
    destruct (Hpassed (floor w + m + 1)) as [[_ Hk]%Hd1'|(next & at_ & Hlt & Hat & _)]; [lia|lia|].
    assert (floor w < next <= floor w + m) by (apply Hd1'; eauto). lia. }
  assert (delivered (read now w records) = ∅) as Hempty.
  { unfold settled in Hset. destruct (first_key_value _) as [[next at_]|] eqn:Hf; [exfalso|by apply first_key_value_None].
    apply first_key_value_Some in Hf as [Hat Hfirst]. destruct Hset as [Hgap _].
    destruct (Hd2 next) as [_ Hn]; [eauto|].
    assert (next <= floor (read now w records) + 1); [|lia].
    apply Hfirst. rewrite Hkept. destruct (Z.ltb_spec (floor (read now w records)) (floor (read now w records) + 1)); [|lia].
    apply Hd1'. lia. }
  split_and!; [done| |].
  - destruct (Z.ltb_spec (floor (read now w records)) (floor w + m)) as [Hlt|]; [exfalso|lia].
    assert (is_Some (delivered (read now w records) !! (floor (read now w records) + 1))) as [v Hv].
    { rewrite Hkept. destruct (Z.ltb_spec (floor (read now w records)) (floor (read now w records) + 1)); [|lia].
      apply Hd1'. lia. }
    by rewrite Hempty in Hv.
  - apply sublist_full; [done|].
    assert (map (LiveSource.id_of source) records ⊆+
      map (LiveSource.id_of source) (snd (fresh (LiveSource.id_of source) now records w))) as Hms%submseteq_length.
    { apply NoDup_submseteq; [rewrite Hids; apply NoDup_seqZ|]. intros id Hid. apply Hnew.
      split_and!; [done| |by rewrite He]. rewrite Hids, elem_of_seqZ in Hid. lia. }
    by rewrite !length_map in Hms.
Qed.
End Poller.
