(* ===== verification/LiveFeeds.v ===== *)
(** * The tables read live

    The tables of an event collection ([src/crates/core/src/domain/event_table.rs]
    and the repository.rs of each collection), their live reads
    ([src/crates/persistence/src/repositories/], live.rs of each collection and
    helper/live_records.rs), a Module each, and the source the pollers read
    ([src/crates/api/src/application/live/event_source.rs]). *)

From S2P Require Import Prelude Errors External Domain Store Rows Cursor Keyset EventLists EventApi Live.

(** ** [event_table.rs] *)

Class EventTable (T : Type) : Type := {
  ALL : list T;
  table_name : T -> string;
  table_protocol : T -> Protocol;
}.

(** ** [live_event_feed.rs] *)

Module LiveRecord.
Record t (E : Type) : Type := mk {
  id : Z;
  event : E;
}.
Arguments mk {E}.
Arguments id {E}.
Arguments event {E}.
End LiveRecord.

#[global] Instance live_record_on_pool {E} `{OnPool.t E} : OnPool.t (LiveRecord.t E) := {
  OnPool.pool_address r := OnPool.pool_address (LiveRecord.event r);
  OnPool.own_mints r := OnPool.own_mints (LiveRecord.event r);
}.

Class LiveEventFeed (T : Type) : Type := {
  live_tip : T -> TimeDelta -> Query RepositoryError (option Z);
  live_after : T -> Z -> TimeDelta -> Z ->
    Query RepositoryError (list (LiveRecord.t (RepositoryResult MeteoraDammV2Event.t)));
}.

(** ** The statements *)

(** [now()] of the database at the [n]-th statement. *)
Class PgClock : Type := { pg_now : nat -> DateTime }.

Definition seconds_delta (n : Z) : TimeDelta := n * 10 ^ 9.
Definition num_seconds (d : TimeDelta) : Z := Z.quot d (10 ^ 9).

(** [max(id)], NULL without a row. *)
Definition max_id (ids : list Z) : option Z :=
  match ids with [] => None | id :: ids => Some (foldl Z.max id ids) end.

Section Statements.
Context `{Postgres} `{!Tables MeteoraDammV2Event.t} `{RowIds} `{PgClock}.
Context `{Base58} `{SignatureDisplay} `{SignatureFromStr}.
Notation Event := MeteoraDammV2Event.t.

(** [timestamp >= now() - lookback * INTERVAL '1 second']. *)
Definition within (name : string) (lookback_secs : Z) (now : DateTime) (w : Event) : bool :=
  bool_decide (table w = name) && (now - seconds_delta lookback_secs <=? MeteoraDammV2Event.timestamp w).

Definition select_tip (name : string) (lookback_secs : Z) : Query RepositoryError (option Z) := fun n =>
  select (fun rows => max_id (map id_of (List.filter (within name lookback_secs (pg_now n)) rows))) n.

(** The rows past an id, by id. *)
Definition rows_past (name : string) (after_id lookback_secs n : Z) (now : DateTime) (rows : list Event) :
    list Event :=
  limit n (order_by id_of Z.ltb
    (List.filter (fun w => (after_id <? id_of w) && within name lookback_secs now w) rows)).

Definition select_past (name : string) (after_id lookback_secs n : Z) : Query RepositoryError (list Event) :=
  fun m => select (rows_past name after_id lookback_secs n (pg_now m)) m.

(** [live_records.rs]: a row that does not decode keeps its id. *)
Definition live_records (rows : list Event) : list (LiveRecord.t (RepositoryResult Event)) :=
  map (fun row => LiveRecord.mk (id_of row) (try_from_row row)) rows.

Definition select_records (name : string) (after_id lookback_secs limit : Z) :
    Query RepositoryError (list (LiveRecord.t (RepositoryResult Event))) :=
  let> rows := select_past name after_id lookback_secs limit in
  query_ret (live_records rows).
End Statements.

(** ** The liquidity changes *)

Module LiquidityChangeTable.
Inductive t : Type :=
| MeteoraDammV2.

Definition all : list t := [MeteoraDammV2].
Definition name (table : t) : string :=
  match table with
  | MeteoraDammV2 => "meteora_damm_v2_liquidity_events"
  end.
Definition protocol (table : t) : Protocol :=
  match table with
  | MeteoraDammV2 => Domain.MeteoraDammV2
  end.

#[global] Instance event_table : EventTable t := {
  ALL := all;
  table_name := name;
  table_protocol := protocol;
}.
End LiquidityChangeTable.

Module LiquidityChangeLive.
Section Feed.
Context `{Postgres} `{!Tables MeteoraDammV2Event.t} `{RowIds} `{PgClock}.
Context `{Base58} `{SignatureDisplay} `{SignatureFromStr}.

Definition meteora_damm_v2_tip (lookback_secs : Z) : Query RepositoryError (option Z) :=
  select_tip "meteora_damm_v2_liquidity_events" lookback_secs.

Definition meteora_damm_v2_after (after_id lookback_secs limit : Z) :
    Query RepositoryError (list (LiveRecord.t (RepositoryResult MeteoraDammV2Event.t))) :=
  select_records "meteora_damm_v2_liquidity_events" after_id lookback_secs limit.

#[global] Instance feed : LiveEventFeed LiquidityChangeTable.t := {
  live_tip table lookback :=
    let lookback := num_seconds lookback in
    match table with
    | LiquidityChangeTable.MeteoraDammV2 => meteora_damm_v2_tip lookback
    end;
  live_after table after_id lookback limit :=
    let lookback := num_seconds lookback in
    match table with
    | LiquidityChangeTable.MeteoraDammV2 => meteora_damm_v2_after after_id lookback limit
    end;
}.
End Feed.
End LiquidityChangeLive.

(** ** The pool creations *)

Module PoolCreationTable.
Inductive t : Type :=
| MeteoraDammV2.

Definition all : list t := [MeteoraDammV2].
Definition name (table : t) : string :=
  match table with
  | MeteoraDammV2 => "meteora_damm_v2_initialize_pool_events"
  end.
Definition protocol (table : t) : Protocol :=
  match table with
  | MeteoraDammV2 => Domain.MeteoraDammV2
  end.

#[global] Instance event_table : EventTable t := {
  ALL := all;
  table_name := name;
  table_protocol := protocol;
}.
End PoolCreationTable.

Module PoolCreationLive.
Section Feed.
Context `{Postgres} `{!Tables MeteoraDammV2Event.t} `{RowIds} `{PgClock}.
Context `{Base58} `{SignatureDisplay} `{SignatureFromStr}.

Definition meteora_damm_v2_tip (lookback_secs : Z) : Query RepositoryError (option Z) :=
  select_tip "meteora_damm_v2_initialize_pool_events" lookback_secs.

Definition meteora_damm_v2_after (after_id lookback_secs limit : Z) :
    Query RepositoryError (list (LiveRecord.t (RepositoryResult MeteoraDammV2Event.t))) :=
  select_records "meteora_damm_v2_initialize_pool_events" after_id lookback_secs limit.

#[global] Instance feed : LiveEventFeed PoolCreationTable.t := {
  live_tip table lookback :=
    let lookback := num_seconds lookback in
    match table with
    | PoolCreationTable.MeteoraDammV2 => meteora_damm_v2_tip lookback
    end;
  live_after table after_id lookback limit :=
    let lookback := num_seconds lookback in
    match table with
    | PoolCreationTable.MeteoraDammV2 => meteora_damm_v2_after after_id lookback limit
    end;
}.
End Feed.
End PoolCreationLive.

(** ** The position changes *)

Module PositionChangeTable.
Inductive t : Type :=
| MeteoraDammV2Open
| MeteoraDammV2Close
| MeteoraDammV2VestingLock
| MeteoraDammV2PermanentLock
| MeteoraDammV2Split.

Definition all : list t := [MeteoraDammV2Open; MeteoraDammV2Close; MeteoraDammV2VestingLock; MeteoraDammV2PermanentLock; MeteoraDammV2Split].
Definition name (table : t) : string :=
  match table with
  | MeteoraDammV2Open => "meteora_damm_v2_create_position_events"
  | MeteoraDammV2Close => "meteora_damm_v2_close_position_events"
  | MeteoraDammV2VestingLock => "meteora_damm_v2_lock_position_events"
  | MeteoraDammV2PermanentLock => "meteora_damm_v2_permanent_lock_position_events"
  | MeteoraDammV2Split => "meteora_damm_v2_split_position_events"
  end.
Definition protocol (table : t) : Protocol :=
  match table with
  | MeteoraDammV2Open => Domain.MeteoraDammV2
  | MeteoraDammV2Close => Domain.MeteoraDammV2
  | MeteoraDammV2VestingLock => Domain.MeteoraDammV2
  | MeteoraDammV2PermanentLock => Domain.MeteoraDammV2
  | MeteoraDammV2Split => Domain.MeteoraDammV2
  end.

#[global] Instance event_table : EventTable t := {
  ALL := all;
  table_name := name;
  table_protocol := protocol;
}.
End PositionChangeTable.

Module PositionChangeLive.
Section Feed.
Context `{Postgres} `{!Tables MeteoraDammV2Event.t} `{RowIds} `{PgClock}.
Context `{Base58} `{SignatureDisplay} `{SignatureFromStr}.

Definition meteora_damm_v2_open_tip (lookback_secs : Z) : Query RepositoryError (option Z) :=
  select_tip "meteora_damm_v2_create_position_events" lookback_secs.

Definition meteora_damm_v2_open_after (after_id lookback_secs limit : Z) :
    Query RepositoryError (list (LiveRecord.t (RepositoryResult MeteoraDammV2Event.t))) :=
  select_records "meteora_damm_v2_create_position_events" after_id lookback_secs limit.

Definition meteora_damm_v2_close_tip (lookback_secs : Z) : Query RepositoryError (option Z) :=
  select_tip "meteora_damm_v2_close_position_events" lookback_secs.

Definition meteora_damm_v2_close_after (after_id lookback_secs limit : Z) :
    Query RepositoryError (list (LiveRecord.t (RepositoryResult MeteoraDammV2Event.t))) :=
  select_records "meteora_damm_v2_close_position_events" after_id lookback_secs limit.

Definition meteora_damm_v2_vesting_lock_tip (lookback_secs : Z) : Query RepositoryError (option Z) :=
  select_tip "meteora_damm_v2_lock_position_events" lookback_secs.

Definition meteora_damm_v2_vesting_lock_after (after_id lookback_secs limit : Z) :
    Query RepositoryError (list (LiveRecord.t (RepositoryResult MeteoraDammV2Event.t))) :=
  select_records "meteora_damm_v2_lock_position_events" after_id lookback_secs limit.

Definition meteora_damm_v2_permanent_lock_tip (lookback_secs : Z) : Query RepositoryError (option Z) :=
  select_tip "meteora_damm_v2_permanent_lock_position_events" lookback_secs.

Definition meteora_damm_v2_permanent_lock_after (after_id lookback_secs limit : Z) :
    Query RepositoryError (list (LiveRecord.t (RepositoryResult MeteoraDammV2Event.t))) :=
  select_records "meteora_damm_v2_permanent_lock_position_events" after_id lookback_secs limit.

Definition meteora_damm_v2_split_tip (lookback_secs : Z) : Query RepositoryError (option Z) :=
  select_tip "meteora_damm_v2_split_position_events" lookback_secs.

Definition meteora_damm_v2_split_after (after_id lookback_secs limit : Z) :
    Query RepositoryError (list (LiveRecord.t (RepositoryResult MeteoraDammV2Event.t))) :=
  select_records "meteora_damm_v2_split_position_events" after_id lookback_secs limit.

#[global] Instance feed : LiveEventFeed PositionChangeTable.t := {
  live_tip table lookback :=
    let lookback := num_seconds lookback in
    match table with
    | PositionChangeTable.MeteoraDammV2Open => meteora_damm_v2_open_tip lookback
    | PositionChangeTable.MeteoraDammV2Close => meteora_damm_v2_close_tip lookback
    | PositionChangeTable.MeteoraDammV2VestingLock => meteora_damm_v2_vesting_lock_tip lookback
    | PositionChangeTable.MeteoraDammV2PermanentLock => meteora_damm_v2_permanent_lock_tip lookback
    | PositionChangeTable.MeteoraDammV2Split => meteora_damm_v2_split_tip lookback
    end;
  live_after table after_id lookback limit :=
    let lookback := num_seconds lookback in
    match table with
    | PositionChangeTable.MeteoraDammV2Open => meteora_damm_v2_open_after after_id lookback limit
    | PositionChangeTable.MeteoraDammV2Close => meteora_damm_v2_close_after after_id lookback limit
    | PositionChangeTable.MeteoraDammV2VestingLock => meteora_damm_v2_vesting_lock_after after_id lookback limit
    | PositionChangeTable.MeteoraDammV2PermanentLock => meteora_damm_v2_permanent_lock_after after_id lookback limit
    | PositionChangeTable.MeteoraDammV2Split => meteora_damm_v2_split_after after_id lookback limit
    end;
}.
End Feed.
End PositionChangeLive.

(** ** The position fee claims *)

Module PositionFeeClaimTable.
Inductive t : Type :=
| MeteoraDammV2.

Definition all : list t := [MeteoraDammV2].
Definition name (table : t) : string :=
  match table with
  | MeteoraDammV2 => "meteora_damm_v2_claim_position_fee_events"
  end.
Definition protocol (table : t) : Protocol :=
  match table with
  | MeteoraDammV2 => Domain.MeteoraDammV2
  end.

#[global] Instance event_table : EventTable t := {
  ALL := all;
  table_name := name;
  table_protocol := protocol;
}.
End PositionFeeClaimTable.

Module PositionFeeClaimLive.
Section Feed.
Context `{Postgres} `{!Tables MeteoraDammV2Event.t} `{RowIds} `{PgClock}.
Context `{Base58} `{SignatureDisplay} `{SignatureFromStr}.

Definition meteora_damm_v2_tip (lookback_secs : Z) : Query RepositoryError (option Z) :=
  select_tip "meteora_damm_v2_claim_position_fee_events" lookback_secs.

Definition meteora_damm_v2_after (after_id lookback_secs limit : Z) :
    Query RepositoryError (list (LiveRecord.t (RepositoryResult MeteoraDammV2Event.t))) :=
  select_records "meteora_damm_v2_claim_position_fee_events" after_id lookback_secs limit.

#[global] Instance feed : LiveEventFeed PositionFeeClaimTable.t := {
  live_tip table lookback :=
    let lookback := num_seconds lookback in
    match table with
    | PositionFeeClaimTable.MeteoraDammV2 => meteora_damm_v2_tip lookback
    end;
  live_after table after_id lookback limit :=
    let lookback := num_seconds lookback in
    match table with
    | PositionFeeClaimTable.MeteoraDammV2 => meteora_damm_v2_after after_id lookback limit
    end;
}.
End Feed.
End PositionFeeClaimLive.

(** ** The protocol fee claims *)

Module ProtocolFeeClaimTable.
Inductive t : Type :=
| MeteoraDammV2.

Definition all : list t := [MeteoraDammV2].
Definition name (table : t) : string :=
  match table with
  | MeteoraDammV2 => "meteora_damm_v2_claim_protocol_fee_events"
  end.
Definition protocol (table : t) : Protocol :=
  match table with
  | MeteoraDammV2 => Domain.MeteoraDammV2
  end.

#[global] Instance event_table : EventTable t := {
  ALL := all;
  table_name := name;
  table_protocol := protocol;
}.
End ProtocolFeeClaimTable.

Module ProtocolFeeClaimLive.
Section Feed.
Context `{Postgres} `{!Tables MeteoraDammV2Event.t} `{RowIds} `{PgClock}.
Context `{Base58} `{SignatureDisplay} `{SignatureFromStr}.

Definition meteora_damm_v2_tip (lookback_secs : Z) : Query RepositoryError (option Z) :=
  select_tip "meteora_damm_v2_claim_protocol_fee_events" lookback_secs.

Definition meteora_damm_v2_after (after_id lookback_secs limit : Z) :
    Query RepositoryError (list (LiveRecord.t (RepositoryResult MeteoraDammV2Event.t))) :=
  select_records "meteora_damm_v2_claim_protocol_fee_events" after_id lookback_secs limit.

#[global] Instance feed : LiveEventFeed ProtocolFeeClaimTable.t := {
  live_tip table lookback :=
    let lookback := num_seconds lookback in
    match table with
    | ProtocolFeeClaimTable.MeteoraDammV2 => meteora_damm_v2_tip lookback
    end;
  live_after table after_id lookback limit :=
    let lookback := num_seconds lookback in
    match table with
    | ProtocolFeeClaimTable.MeteoraDammV2 => meteora_damm_v2_after after_id lookback limit
    end;
}.
End Feed.
End ProtocolFeeClaimLive.

(** ** The reward claims *)

Module RewardClaimTable.
Inductive t : Type :=
| MeteoraDammV2.

Definition all : list t := [MeteoraDammV2].
Definition name (table : t) : string :=
  match table with
  | MeteoraDammV2 => "meteora_damm_v2_claim_reward_events"
  end.
Definition protocol (table : t) : Protocol :=
  match table with
  | MeteoraDammV2 => Domain.MeteoraDammV2
  end.

#[global] Instance event_table : EventTable t := {
  ALL := all;
  table_name := name;
  table_protocol := protocol;
}.
End RewardClaimTable.

Module RewardClaimLive.
Section Feed.
Context `{Postgres} `{!Tables MeteoraDammV2Event.t} `{RowIds} `{PgClock}.
Context `{Base58} `{SignatureDisplay} `{SignatureFromStr}.

Definition meteora_damm_v2_tip (lookback_secs : Z) : Query RepositoryError (option Z) :=
  select_tip "meteora_damm_v2_claim_reward_events" lookback_secs.

Definition meteora_damm_v2_after (after_id lookback_secs limit : Z) :
    Query RepositoryError (list (LiveRecord.t (RepositoryResult MeteoraDammV2Event.t))) :=
  select_records "meteora_damm_v2_claim_reward_events" after_id lookback_secs limit.

#[global] Instance feed : LiveEventFeed RewardClaimTable.t := {
  live_tip table lookback :=
    let lookback := num_seconds lookback in
    match table with
    | RewardClaimTable.MeteoraDammV2 => meteora_damm_v2_tip lookback
    end;
  live_after table after_id lookback limit :=
    let lookback := num_seconds lookback in
    match table with
    | RewardClaimTable.MeteoraDammV2 => meteora_damm_v2_after after_id lookback limit
    end;
}.
End Feed.
End RewardClaimLive.

(** ** The reward changes *)

Module RewardChangeTable.
Inductive t : Type :=
| MeteoraDammV2Initialize
| MeteoraDammV2Fund
| MeteoraDammV2DurationChange
| MeteoraDammV2FunderChange
| MeteoraDammV2IneligibleWithdrawal
| MeteoraDammV2DeadLiquidityWithdrawal.

Definition all : list t := [MeteoraDammV2Initialize; MeteoraDammV2Fund; MeteoraDammV2DurationChange; MeteoraDammV2FunderChange; MeteoraDammV2IneligibleWithdrawal; MeteoraDammV2DeadLiquidityWithdrawal].
Definition name (table : t) : string :=
  match table with
  | MeteoraDammV2Initialize => "meteora_damm_v2_initialize_reward_events"
  | MeteoraDammV2Fund => "meteora_damm_v2_fund_reward_events"
  | MeteoraDammV2DurationChange => "meteora_damm_v2_update_reward_duration_events"
  | MeteoraDammV2FunderChange => "meteora_damm_v2_update_reward_funder_events"
  | MeteoraDammV2IneligibleWithdrawal => "meteora_damm_v2_withdraw_ineligible_reward_events"
  | MeteoraDammV2DeadLiquidityWithdrawal => "meteora_damm_v2_withdraw_dead_liquidity_reward_events"
  end.
Definition protocol (table : t) : Protocol :=
  match table with
  | MeteoraDammV2Initialize => Domain.MeteoraDammV2
  | MeteoraDammV2Fund => Domain.MeteoraDammV2
  | MeteoraDammV2DurationChange => Domain.MeteoraDammV2
  | MeteoraDammV2FunderChange => Domain.MeteoraDammV2
  | MeteoraDammV2IneligibleWithdrawal => Domain.MeteoraDammV2
  | MeteoraDammV2DeadLiquidityWithdrawal => Domain.MeteoraDammV2
  end.

#[global] Instance event_table : EventTable t := {
  ALL := all;
  table_name := name;
  table_protocol := protocol;
}.
End RewardChangeTable.

Module RewardChangeLive.
Section Feed.
Context `{Postgres} `{!Tables MeteoraDammV2Event.t} `{RowIds} `{PgClock}.
Context `{Base58} `{SignatureDisplay} `{SignatureFromStr}.

Definition meteora_damm_v2_initialize_tip (lookback_secs : Z) : Query RepositoryError (option Z) :=
  select_tip "meteora_damm_v2_initialize_reward_events" lookback_secs.

Definition meteora_damm_v2_initialize_after (after_id lookback_secs limit : Z) :
    Query RepositoryError (list (LiveRecord.t (RepositoryResult MeteoraDammV2Event.t))) :=
  select_records "meteora_damm_v2_initialize_reward_events" after_id lookback_secs limit.

Definition meteora_damm_v2_fund_tip (lookback_secs : Z) : Query RepositoryError (option Z) :=
  select_tip "meteora_damm_v2_fund_reward_events" lookback_secs.

Definition meteora_damm_v2_fund_after (after_id lookback_secs limit : Z) :
    Query RepositoryError (list (LiveRecord.t (RepositoryResult MeteoraDammV2Event.t))) :=
  select_records "meteora_damm_v2_fund_reward_events" after_id lookback_secs limit.

Definition meteora_damm_v2_duration_change_tip (lookback_secs : Z) : Query RepositoryError (option Z) :=
  select_tip "meteora_damm_v2_update_reward_duration_events" lookback_secs.

Definition meteora_damm_v2_duration_change_after (after_id lookback_secs limit : Z) :
    Query RepositoryError (list (LiveRecord.t (RepositoryResult MeteoraDammV2Event.t))) :=
  select_records "meteora_damm_v2_update_reward_duration_events" after_id lookback_secs limit.

Definition meteora_damm_v2_funder_change_tip (lookback_secs : Z) : Query RepositoryError (option Z) :=
  select_tip "meteora_damm_v2_update_reward_funder_events" lookback_secs.

Definition meteora_damm_v2_funder_change_after (after_id lookback_secs limit : Z) :
    Query RepositoryError (list (LiveRecord.t (RepositoryResult MeteoraDammV2Event.t))) :=
  select_records "meteora_damm_v2_update_reward_funder_events" after_id lookback_secs limit.

Definition meteora_damm_v2_ineligible_withdrawal_tip (lookback_secs : Z) : Query RepositoryError (option Z) :=
  select_tip "meteora_damm_v2_withdraw_ineligible_reward_events" lookback_secs.

Definition meteora_damm_v2_ineligible_withdrawal_after (after_id lookback_secs limit : Z) :
    Query RepositoryError (list (LiveRecord.t (RepositoryResult MeteoraDammV2Event.t))) :=
  select_records "meteora_damm_v2_withdraw_ineligible_reward_events" after_id lookback_secs limit.

Definition meteora_damm_v2_dead_liquidity_withdrawal_tip (lookback_secs : Z) : Query RepositoryError (option Z) :=
  select_tip "meteora_damm_v2_withdraw_dead_liquidity_reward_events" lookback_secs.

Definition meteora_damm_v2_dead_liquidity_withdrawal_after (after_id lookback_secs limit : Z) :
    Query RepositoryError (list (LiveRecord.t (RepositoryResult MeteoraDammV2Event.t))) :=
  select_records "meteora_damm_v2_withdraw_dead_liquidity_reward_events" after_id lookback_secs limit.

#[global] Instance feed : LiveEventFeed RewardChangeTable.t := {
  live_tip table lookback :=
    let lookback := num_seconds lookback in
    match table with
    | RewardChangeTable.MeteoraDammV2Initialize => meteora_damm_v2_initialize_tip lookback
    | RewardChangeTable.MeteoraDammV2Fund => meteora_damm_v2_fund_tip lookback
    | RewardChangeTable.MeteoraDammV2DurationChange => meteora_damm_v2_duration_change_tip lookback
    | RewardChangeTable.MeteoraDammV2FunderChange => meteora_damm_v2_funder_change_tip lookback
    | RewardChangeTable.MeteoraDammV2IneligibleWithdrawal => meteora_damm_v2_ineligible_withdrawal_tip lookback
    | RewardChangeTable.MeteoraDammV2DeadLiquidityWithdrawal => meteora_damm_v2_dead_liquidity_withdrawal_tip lookback
    end;
  live_after table after_id lookback limit :=
    let lookback := num_seconds lookback in
    match table with
    | RewardChangeTable.MeteoraDammV2Initialize => meteora_damm_v2_initialize_after after_id lookback limit
    | RewardChangeTable.MeteoraDammV2Fund => meteora_damm_v2_fund_after after_id lookback limit
    | RewardChangeTable.MeteoraDammV2DurationChange => meteora_damm_v2_duration_change_after after_id lookback limit
    | RewardChangeTable.MeteoraDammV2FunderChange => meteora_damm_v2_funder_change_after after_id lookback limit
    | RewardChangeTable.MeteoraDammV2IneligibleWithdrawal => meteora_damm_v2_ineligible_withdrawal_after after_id lookback limit
    | RewardChangeTable.MeteoraDammV2DeadLiquidityWithdrawal => meteora_damm_v2_dead_liquidity_withdrawal_after after_id lookback limit
    end;
}.
End Feed.
End RewardChangeLive.

(** ** The pool changes *)

Module PoolChangeTable.
Inductive t : Type :=
| MeteoraDammV2Status
| MeteoraDammV2Fees.

Definition all : list t := [MeteoraDammV2Status; MeteoraDammV2Fees].
Definition name (table : t) : string :=
  match table with
  | MeteoraDammV2Status => "meteora_damm_v2_set_pool_status_events"
  | MeteoraDammV2Fees => "meteora_damm_v2_update_pool_fees_events"
  end.
Definition protocol (table : t) : Protocol :=
  match table with
  | MeteoraDammV2Status => Domain.MeteoraDammV2
  | MeteoraDammV2Fees => Domain.MeteoraDammV2
  end.

#[global] Instance event_table : EventTable t := {
  ALL := all;
  table_name := name;
  table_protocol := protocol;
}.
End PoolChangeTable.

Module PoolChangeLive.
Section Feed.
Context `{Postgres} `{!Tables MeteoraDammV2Event.t} `{RowIds} `{PgClock}.
Context `{Base58} `{SignatureDisplay} `{SignatureFromStr}.

Definition meteora_damm_v2_status_tip (lookback_secs : Z) : Query RepositoryError (option Z) :=
  select_tip "meteora_damm_v2_set_pool_status_events" lookback_secs.

Definition meteora_damm_v2_status_after (after_id lookback_secs limit : Z) :
    Query RepositoryError (list (LiveRecord.t (RepositoryResult MeteoraDammV2Event.t))) :=
  select_records "meteora_damm_v2_set_pool_status_events" after_id lookback_secs limit.

Definition meteora_damm_v2_fees_tip (lookback_secs : Z) : Query RepositoryError (option Z) :=
  select_tip "meteora_damm_v2_update_pool_fees_events" lookback_secs.

Definition meteora_damm_v2_fees_after (after_id lookback_secs limit : Z) :
    Query RepositoryError (list (LiveRecord.t (RepositoryResult MeteoraDammV2Event.t))) :=
  select_records "meteora_damm_v2_update_pool_fees_events" after_id lookback_secs limit.

#[global] Instance feed : LiveEventFeed PoolChangeTable.t := {
  live_tip table lookback :=
    let lookback := num_seconds lookback in
    match table with
    | PoolChangeTable.MeteoraDammV2Status => meteora_damm_v2_status_tip lookback
    | PoolChangeTable.MeteoraDammV2Fees => meteora_damm_v2_fees_tip lookback
    end;
  live_after table after_id lookback limit :=
    let lookback := num_seconds lookback in
    match table with
    | PoolChangeTable.MeteoraDammV2Status => meteora_damm_v2_status_after after_id lookback limit
    | PoolChangeTable.MeteoraDammV2Fees => meteora_damm_v2_fees_after after_id lookback limit
    end;
}.
End Feed.
End PoolChangeLive.

(** ** [event_source.rs] *)

Definition EVENTS_LOOKBACK_SECS : Z := 86400.

Module LiveEvent.
Record t (T : Type) : Type := mk {
  table : T;
  record : LiveRecord.t (Paired.t MeteoraDammV2Event.t);
}.
Arguments mk {T}.
Arguments table {T}.
Arguments record {T}.
End LiveEvent.

(** [LiveItem::protocol]: every event of the model is of DAMM v2. *)
Definition event_protocol (e : MeteoraDammV2Event.t) : Protocol := damm_v2.

Module EventSource.
Section Source.
Context {T : Type} `{EventTable T} `{LiveEventFeed T} `{PoolCatalog} `{TokenMetadataLookup}.
Notation Event := MeteoraDammV2Event.t.
Notation Row := (LiveRecord.t (RepositoryResult MeteoraDammV2Event.t)).

Definition tip (table : T) : Query RepositoryError (option Z) :=
  live_tip table (seconds_delta EVENTS_LOOKBACK_SECS).

Definition after (table : T) (after_id limit : Z) : Query RepositoryError (list Row) :=
  live_after table after_id (seconds_delta EVENTS_LOOKBACK_SECS) limit.

(** The rows that decode. *)
Definition decoded (records : list Row) : list (LiveRecord.t Event) :=
  omap (fun r =>
    match LiveRecord.event r with
    | Ok event => Some (LiveRecord.mk (LiveRecord.id r) event)
    | Err _ => None
    end) records.

Definition prepare (table : T) (records : list Row) (n : nat) : nat * list (LiveEvent.t T) :=
  let decoded := decoded records in
  let (n, pairs) := pairs_of decoded n in
  let pairs : PairsByPool := match pairs with Ok pairs => pairs | Err _ => ∅ end in
  (n, map (fun r => LiveEvent.mk table
    (LiveRecord.mk (LiveRecord.id r) (Paired_of (LiveRecord.event r) pairs))) decoded).

Definition source (table : T) : LiveSource.t Row (LiveEvent.t T) :=
  LiveSource.mk (table_name table) (tip table) (after table) LiveRecord.id (prepare table).
End Source.
End EventSource.

(** ** [pollers.rs] *)

(** A collection: the capacity of its channel, and a poller by table. *)
Definition add_collection (T : Type) `{EventTable T} `{LiveEventFeed T} `{PoolCatalog} `{TokenMetadataLookup} :
    Z * list (LiveSource.t (LiveRecord.t (RepositoryResult MeteoraDammV2Event.t)) (LiveEvent.t T)) :=
  (LIVE_CHANNEL_CAPACITY * Z.of_nat (length (ALL (T := T))), map EventSource.source ALL).
