(* ===== verification/LiveFeedsFacts.v ===== *)
(** * What the live reads promise

    The feeds of [LiveFeeds.v] read their tables; a poller over one of them
    sends each row of its table once, drains a burst, and waits at a hole. *)

From stdpp Require Import sorting.
From S2P Require Import Prelude Errors External Domain Store Rows Cursor Keyset KeysetFacts EventLists EventApi EventListsFacts MergedListsFacts EventWalk.
From S2P Require Import OrderedMap Live LiveFeeds.

(** ** The feeds *)

(** A feed reads the tables of its collection. *)
Class LiveFeedLaws (T : Type) `{EventTable T} `{LiveEventFeed T} `{Postgres} `{!Tables MeteoraDammV2Event.t}
    `{RowIds} `{PgClock} `{Base58} `{SignatureDisplay} `{SignatureFromStr} : Prop := {
  live_tip_reads : forall (table : T) d, live_tip table d = select_tip (table_name table) (num_seconds d);
  live_after_reads : forall (table : T) a d n,
    live_after table a d n = select_records (table_name table) a (num_seconds d) n;
}.

Section Feeds.
Context `{Postgres} `{!Tables MeteoraDammV2Event.t} `{RowIds} `{PgClock}.
Context `{Base58} `{SignatureDisplay} `{SignatureFromStr}.

#[export] Instance liquidity_change_feed_laws : LiveFeedLaws LiquidityChangeTable.t.
Proof. by split; intros []. Qed.
#[export] Instance pool_creation_feed_laws : LiveFeedLaws PoolCreationTable.t.
Proof. by split; intros []. Qed.
#[export] Instance position_change_feed_laws : LiveFeedLaws PositionChangeTable.t.
Proof. by split; intros []. Qed.
#[export] Instance position_fee_claim_feed_laws : LiveFeedLaws PositionFeeClaimTable.t.
Proof. by split; intros []. Qed.
#[export] Instance protocol_fee_claim_feed_laws : LiveFeedLaws ProtocolFeeClaimTable.t.
Proof. by split; intros []. Qed.
#[export] Instance reward_claim_feed_laws : LiveFeedLaws RewardClaimTable.t.
Proof. by split; intros []. Qed.
#[export] Instance reward_change_feed_laws : LiveFeedLaws RewardChangeTable.t.
Proof. by split; intros []. Qed.
#[export] Instance pool_change_feed_laws : LiveFeedLaws PoolChangeTable.t.
Proof. by split; intros []. Qed.
End Feeds.

(** ** A poller over a table *)

Section Table.
Context {T : Type} `{LiveFeedLaws T} `{PoolCatalog} `{TokenMetadataLookup}.
Context (table : T).

Definition sent_id (e : LiveEvent.t T) : Z := LiveRecord.id (LiveEvent.record e).

(** A row the poller may read at the [m]-th statement. *)
Definition readable (m : nat) (w : Event) : Prop :=
  w ∈ rows_at m /\ within (table_name table) EVENTS_LOOKBACK_SECS (pg_now m) w = true.

Lemma after_reads a limit m :
  LiveSource.after (EventSource.source table) a limit m =
  (S m, match fault m with
        | Some e => Err e
        | None => Ok (live_records (rows_past (table_name table) a EVENTS_LOOKBACK_SECS limit (pg_now m) (rows_at m)))
        end).
Proof.
  simpl. unfold EventSource.after. rewrite live_after_reads. unfold select_records, select_past, select, query_bind.
  by destruct (fault m).
Qed.

Lemma tip_reads m :
  LiveSource.tip (EventSource.source table) m =
  (S m, match fault m with
        | Some e => Err e
        | None => Ok (max_id (map id_of
            (List.filter (within (table_name table) EVENTS_LOOKBACK_SECS (pg_now m)) (rows_at m))))
        end).
Proof. simpl. unfold EventSource.tip. by rewrite live_tip_reads. Qed.

Lemma rows_past_readable a limit m w :
  w ∈ rows_past (table_name table) a EVENTS_LOOKBACK_SECS limit (pg_now m) (rows_at m) ->
  readable m w /\ a < id_of w.
Proof.
  unfold rows_past, Keyset.limit. intros (i & Hw%list_elem_of_lookup_2 & _)%elem_of_take.
  rewrite order_by_perm in Hw. apply list_elem_of_In, List.filter_In in Hw as [Hw Hf%andb_true_iff]. destruct Hf as [Ha%Z.ltb_lt Hf].
  split; [|done]. split; [by apply list_elem_of_In|done].
Qed.

Lemma decoded_ids (records : list (LiveRecord.t (RepositoryResult Event))) :
  map LiveRecord.id (EventSource.decoded records) `sublist_of` map LiveRecord.id records.
Proof.
  induction records as [|[id [e|e]] records IH]; simpl; [done|by apply sublist_skip|by apply sublist_cons].
Qed.

Lemma prepare_ids records n :
  map sent_id (snd (LiveSource.prepare (EventSource.source table) records n)) =
  map LiveRecord.id (EventSource.decoded records).
Proof.
  simpl. unfold EventSource.prepare. destruct (pairs_of _ n) as [n' pairs]. simpl. by rewrite map_map.
Qed.

Lemma source_prepared records n :
  map sent_id (snd (LiveSource.prepare (EventSource.source table) records n)) `sublist_of`
  map (LiveSource.id_of (EventSource.source table)) records.
Proof. rewrite prepare_ids. apply decoded_ids. Qed.

(** An item is a row of the table, decoded. *)
Definition from_row (e : LiveEvent.t T) : Prop :=
  LiveEvent.table e = table /\
  exists m w, readable m w /\ id_of w = sent_id e /\
    try_from_row w = Ok (Paired.item (LiveRecord.event (LiveEvent.record e))).

Lemma prepared_from_row a n records out k :
  snd (LiveSource.after (EventSource.source table) a POLL_BATCH_LIMIT n) = Ok records ->
  out `sublist_of` records ->
  Forall from_row (snd (LiveSource.prepare (EventSource.source table) out k)).
Proof.
  rewrite after_reads. simpl. destruct (fault n); [done|]. intros [= <-] Hs.
  unfold EventSource.prepare. destruct (pairs_of _ k) as [n' pairs]. simpl.
  apply Forall_forall. intros e ([id event] & -> & Hr)%list_elem_of_fmap.
  apply list_elem_of_omap in Hr as ([id' event'] & Hr & He). simpl in He.
  destruct event' as [event'|]; [|done]. injection He as -> ->.
  pose proof (elem_of_sublist _ _ _ Hr Hs) as Hin. apply list_elem_of_fmap in Hin as (w & Hw & Hin).
  injection Hw as -> Hw. split; [done|]. exists n, w. split_and!; [by eapply rows_past_readable|done|].
  rewrite <- Hw. simpl. unfold Paired_of. by destruct (default _ _).
Qed.

(** ** What is sent *)

(** The ids the table shows at the [m]-th statement. *)
Definition ids_shown (m : nat) : list Z :=
  map id_of (List.filter (within (table_name table) EVENTS_LOOKBACK_SECS (pg_now m)) (rows_at m)).

(** C10: a poller without a watermark, as a new one or one that has ticked while
    nobody listened, takes as its anchor the highest id (or 0) the table shows
    at the first read of a tip that answers, and sends nothing before it. While
    somebody listens, whatever its reads answer, it then sends each row of the
    table once at most, decoded, and only rows with an id above the anchor. *)
Theorem live_rows_are_sent_once (p : LivePoller.t (LiveEvent.t T)) wakes :
  LivePoller.watermark p = None -> Forall listening wakes ->
  let source := EventSource.source table in
  exists sent, LivePoller.broadcast (LivePoller.run source p wakes) = LivePoller.broadcast p ++ sent /\
    NoDup (map sent_id sent) /\ Forall from_row sent /\
    (sent = [] \/
     exists before receivers now more, wakes = before ++ Ticked receivers now false :: more /\
       let anchoring := LivePoller.run source p before in
       LivePoller.watermark anchoring = None /\ LivePoller.broadcast anchoring = LivePoller.broadcast p /\
       fault (LivePoller.statements anchoring) = None /\
       Forall (fun e => default 0 (max_id (ids_shown (LivePoller.statements anchoring))) < sent_id e) sent).
Proof.
  intros Hp Hl source. pose proof (run_anchors source sent_id source_prepared p wakes Hp Hl) as Hrun.
  destruct (run_sends source from_row p wakes) as (sent & Hb & Hf).
  { intros f m records out k. apply prepared_from_row. }
  exists sent. split; [done|]. destruct Hrun as [[_ Hnone]|(tip & Ha & w & sent' & _ & Hb' & [_ _ Hn Habove _])].
  { assert (LivePoller.broadcast p ++ sent = LivePoller.broadcast p ++ []) as ->%app_inv_head
      by (rewrite app_nil_r, <-Hb; exact Hnone).
    split_and!; [constructor|done|by left]. }
  rewrite Hb in Hb'. apply app_inv_head in Hb' as <-. split_and!; [done..|right].
  destruct Ha as (before & receivers & now & more & answer & Hw & Hnone & Hsame & Htip & ->).
  exists before, receivers, now, more. rewrite tip_reads in Htip. simpl in Htip.
  fold source in Htip. destruct (fault (LivePoller.statements _)) eqn:Hfault; [done|]. injection Htip as <-.
  split; [done|]. split_and!; [done..|]. by rewrite Forall_fmap in Habove.
Qed.

(** ** Tables without a hole *)

Lemma seqZ_sorted a n : StronglySorted (fun x y => (x <? y) = true) (seqZ a n).
Proof.
  destruct (Z.leb_spec 0 n) as [Hn|Hn]; [|rewrite seqZ_nil by lia; constructor].
  revert a. pattern n. apply natlike_ind; [|clear n Hn|done].
  - intros a. rewrite seqZ_nil by lia. constructor.
  - intros n Hn IH a. rewrite seqZ_cons by lia. constructor.
    + replace (Z.pred (Z.succ n)) with n by lia. apply IH.
    + apply Forall_forall. intros x Hx%elem_of_seqZ. apply Z.ltb_lt. lia.
Qed.

Lemma take_seqZ k a n : 0 <= k -> 0 <= n -> take (Z.to_nat k) (seqZ a n) = seqZ a (Z.min k n).
Proof.
  intros Hk Hn. destruct (Z.leb_spec k n) as [Hle|Hlt].
  - rewrite Z.min_l by done. replace n with (k + (n - k)) by lia. rewrite seqZ_app by lia.
    by rewrite take_app_length' by (by rewrite length_seqZ).
  - rewrite Z.min_r by lia. apply take_ge. rewrite length_seqZ. lia.
Qed.

Context `{!EventTables} `{!PoolCatalogLaws} `{!TokenMetadataLaws}.

(** From the [n]-th statement on, no statement fails, and the ids of the table
    above [t0] are those up to [last]. *)
Record without_holes (t0 : Z) (n : nat) (last : nat -> Z) : Prop := {
  holes_faults : forall m, (n <= m)%nat -> fault m = None;
  holes_ids : forall m id, (n <= m)%nat -> t0 < id ->
    (exists w, readable m w /\ id_of w = id) <-> id <= last m;
  holes_last : forall m m', (n <= m <= m')%nat -> last m <= last m';
}.

(** The rows of the table above an id. *)
Definition above (a : Z) (m : nat) : list Event :=
  List.filter (fun w => (a <? id_of w) && within (table_name table) EVENTS_LOOKBACK_SECS (pg_now m) w) (rows_at m).

Lemma above_spec a m w : w ∈ above a m <-> readable m w /\ a < id_of w.
Proof.
  unfold above, readable. rewrite list_elem_of_In, List.filter_In, andb_true_iff, Z.ltb_lt, <- list_elem_of_In.
  naive_solver.
Qed.

Lemma above_distinct a m : NoDup (map id_of (above a m)).
Proof.
  apply NoDup_fmap_2_strong.
  - intros x y [[Hx Hwx] _]%above_spec [[Hy Hwy] _]%above_spec. apply (rows_ids m); [done..|].
    unfold within in Hwx, Hwy. apply andb_true_iff in Hwx as [Hwx%bool_decide_eq_true _], Hwy as [Hwy%bool_decide_eq_true _].
    congruence.
  - apply NoDup_ListNoDup, List.NoDup_filter, NoDup_ListNoDup. eapply NoDup_fmap_1, (rows_keys m).
Qed.

Lemma live_records_ids rows :
  map (LiveSource.id_of (EventSource.source table)) (live_records rows) = map id_of rows.
Proof. unfold live_records. by rewrite map_map. Qed.

Lemma past_ids t0 n last a k m :
  without_holes t0 n last -> (n <= m)%nat -> t0 <= a <= last m -> 0 <= k ->
  map id_of (rows_past (table_name table) a EVENTS_LOOKBACK_SECS k (pg_now m) (rows_at m)) =
  seqZ (a + 1) (Z.min k (last m - a)).
Proof.
  intros Hh Hm Ha Hk. unfold rows_past, Keyset.limit.
  fold (above a m). set (l := above a m). pose proof (above_spec a m) as Hl. pose proof (above_distinct a m) as Hnd.
  rewrite <- firstn_map. rewrite <- (order_by_map id_of id_of id Z.ltb l) by done.
  rewrite (sorted_unique id Z.ltb (order_by id Z.ltb (map id_of l)) (seqZ (a + 1) (last m - a))).
  - apply take_seqZ; lia.
  - apply (order_by_sorted id Z.ltb). by rewrite map_id.
  - apply seqZ_sorted.
  - rewrite order_by_perm. apply NoDup_Permutation; [done|apply NoDup_seqZ|].
    intros id. rewrite elem_of_seqZ. split.
    + intros (w & -> & [Hw Hid]%Hl)%list_elem_of_fmap.
      assert (id_of w <= last m); [|lia]. apply (holes_ids _ _ _ Hh m); [done|lia|eauto].
    + intros Hid. destruct (proj2 (holes_ids _ _ _ Hh m id Hm ltac:(lia)) ltac:(lia)) as (w & Hw & <-).
      apply list_elem_of_fmap. exists w. split; [done|]. apply Hl. split; [done|lia].
Qed.

Lemma decoded_stored m (rows : list Event) :
  (forall w, w ∈ rows -> w ∈ rows_at m) ->
  map LiveRecord.id (EventSource.decoded (live_records rows)) = map id_of rows.
Proof.
  induction rows as [|w rows IH]; intros Hin; simpl; [done|].
  rewrite (stored_reads_back w) by (apply (rows_stored m), Hin; by left). simpl.
  f_equal. apply IH. intros w' Hw'. apply Hin. by right.
Qed.

Lemma prepare_served records m :
  (m <= fst (LiveSource.prepare (EventSource.source table) records m))%nat.
Proof.
  pose proof (pairs_of_served (EventSource.decoded records) m) as Hs. unfold served in Hs.
  simpl. unfold EventSource.prepare. destruct (pairs_of _ m) as [n' pairs]. by destruct Hs.
Qed.

(** How far a read goes past [f] when the ids go up to [last]. *)
Definition batch (f last : Z) : Z := Z.min POLL_BATCH_LIMIT (last - f).

Lemma read_past_drains t0 n last now f m :
  without_holes t0 n last -> (n <= m)%nat -> t0 <= f <= last m ->
  exists n' items,
    read_past (EventSource.source table) now (LiveWatermark.mk f ∅) m =
      (n', (Some (LiveWatermark.mk (f + batch f (last m)) ∅), items)) /\
    (m < n')%nat /\ map sent_id items = seqZ (f + 1) (batch f (last m)).
Proof.
  intros Hh Hm Hf. unfold read_past.
  change (LiveWatermark.floor (LiveWatermark.mk f ∅)) with f. rewrite after_reads, (holes_faults _ _ _ Hh) by done.
  set (rows := rows_past _ _ _ _ _ _).
  assert (map LiveRecord.id (live_records rows) = seqZ (f + 1) (batch f (last m))) as Hids.
  { unfold live_records. rewrite map_map. by apply (past_ids t0 n). }
  destruct (read_contiguous (EventSource.source table) now (LiveWatermark.mk f ∅) (live_records rows)
    (batch f (last m))) as (Hd & Hfl & Hout); [unfold batch, POLL_BATCH_LIMIT; lia|done|exact Hids|].
  unfold read in Hd, Hfl. simpl in Hd, Hfl, Hout.
  change (LiveSource.id_of (EventSource.source table)) with (@LiveRecord.id (RepositoryResult Event)).
  destruct (LiveWatermark.fresh _ now _ _) as [w1 out]. simpl in Hd, Hfl, Hout. subst out.
  destruct (LiveWatermark.settle now w1) as [f' d']. simpl in Hd, Hfl. subst f' d'.
  assert (map LiveRecord.id (EventSource.decoded (live_records rows)) = seqZ (f + 1) (batch f (last m))) as Hdec.
  { rewrite (decoded_stored m); [|intros w Hw; by eapply rows_past_readable].
    unfold live_records in Hids. by rewrite map_map in Hids. }
  destruct (live_records rows) as [|r records] eqn:Hr.
  - exists (S m), []. split_and!; [done|lia|]. by rewrite <- Hids.
  - pose proof (prepare_ids (r :: records) (S m)) as Hp.
    pose proof (prepare_served (r :: records) (S m)) as Hs.
    cbv beta iota. destruct (LiveSource.prepare _ (r :: records) (S m)) as [n' items]. simpl in Hp, Hs.
    eexists _, _. split; [done|]. split; [lia|]. rewrite Hp. exact Hdec.
Qed.

(** A poller that has sent every row up to its floor. *)
Record caught_up (t0 : Z) (n : nat) (last : nat -> Z) (f : Z) (p : LivePoller.t (LiveEvent.t T)) : Prop := {
  caught_running : LivePoller.running p = true;
  caught_watermark : LivePoller.watermark p = Some (LiveWatermark.mk f ∅);
  caught_sent : map sent_id (LivePoller.broadcast p) = seqZ (t0 + 1) (f - t0);
  caught_floor : t0 <= f <= last (LivePoller.statements p);
  caught_statements : (n <= LivePoller.statements p)%nat;
}.

Definition ticking (w : Wake) : Prop :=
  match w with Ticked receivers _ false => (0 < receivers)%nat | _ => False end.

Lemma wake_caught_up t0 n last f p w :
  without_holes t0 n last -> ticking w -> caught_up t0 n last f p ->
  caught_up t0 n last (f + batch f (last (LivePoller.statements p))) (LivePoller.wake (EventSource.source table) p w) /\
  (LivePoller.statements p <= LivePoller.statements (LivePoller.wake (EventSource.source table) p w))%nat.
Proof.
  intros Hh Hw [Hrun Hwm Hsent Hf Hn]. destruct w as [|receivers now [|]]; [done|done|]. simpl in Hw.
  unfold LivePoller.wake, LivePoller.tick, poll_once. rewrite Hrun, Hwm, bool_decide_false by lia.
  destruct (read_past_drains t0 n last now f (LivePoller.statements p) Hh Hn Hf) as (n' & items & -> & Hn' & Hitems).
  simpl. split; [|lia].
  assert (0 <= batch f (last (LivePoller.statements p))) by (unfold batch, POLL_BATCH_LIMIT; lia).
  split; simpl; [done|done| | |lia].
  - rewrite map_app, Hsent, Hitems. replace (f + _ - t0) with ((f - t0) + batch f (last (LivePoller.statements p))) by lia.
    rewrite seqZ_app by lia. by replace (t0 + 1 + (f - t0)) with (f + 1) by lia.
  - pose proof (holes_last _ _ _ Hh (LivePoller.statements p) n' ltac:(lia)). unfold batch in *. lia.
Qed.

Lemma run_caught_up t0 n last f p wakes :
  without_holes t0 n last -> Forall ticking wakes -> caught_up t0 n last f p ->
  exists f', caught_up t0 n last f' (LivePoller.run (EventSource.source table) p wakes) /\
    Z.min (last (LivePoller.statements p)) (f + POLL_BATCH_LIMIT * Z.of_nat (length wakes)) <= f'.
Proof.
  intros Hh Hw. revert f p. induction Hw as [|w wakes Hw _ IH]; intros f p Hc.
  - exists f. split; [done|]. simpl. lia.
  - destruct (wake_caught_up t0 n last f p w Hh Hw Hc) as [Hc' Hle].
    destruct (IH _ _ Hc') as (f' & Hf' & Hlow). exists f'. split; [exact Hf'|].
    pose proof (holes_last _ _ _ Hh _ _ (conj (caught_statements _ _ _ _ _ Hc) Hle)).
    pose proof (caught_floor _ _ _ _ _ Hc). simpl length. unfold batch, POLL_BATCH_LIMIT in *. lia.
Qed.

Lemma first_tick_caught_up t0 n last tip w :
  without_holes t0 n last -> t0 <= last n ->
  snd (LiveSource.tip (EventSource.source table) n) = Ok tip -> default 0 tip = t0 -> ticking w ->
  exists f, caught_up t0 n last f (LivePoller.wake (EventSource.source table) (LivePoller.new n) w).
Proof.
  intros Hh Hle Htip <- Hw. destruct w as [|receivers now [|]]; [done|done|]. simpl in Hw.
  unfold LivePoller.wake, LivePoller.tick, LivePoller.new, poll_once. rewrite bool_decide_false by lia.
  cbn [LivePoller.running LivePoller.watermark LivePoller.statements LivePoller.broadcast].
  rewrite tip_reads in Htip |- *. simpl in Htip. rewrite (holes_faults _ _ _ Hh) in Htip |- * by lia.
  injection Htip as ->. pose proof (holes_last _ _ _ Hh n (S n) ltac:(lia)).
  destruct (read_past_drains (default 0 tip) n last now (default 0 tip) (S n) Hh) as (n' & items & He & Hn' & Hitems); [lia..|].
  unfold LiveWatermark.anchored. rewrite He. eexists.
  assert (0 <= batch (default 0 tip) (last (S n))) by (unfold batch, POLL_BATCH_LIMIT; lia).
  pose proof (holes_last _ _ _ Hh (S n) n' ltac:(lia)).
  split; simpl; [done|done| | |lia].
  - rewrite Hitems. f_equal. lia.
  - unfold batch in *. lia.
Qed.

(** C36: where no id is missing above the tip and no statement fails, a poller
    somebody listens to sends the rows in the order of their ids, none left
    out, and a burst drains: the rows the table has at some moment are all sent
    after as many more ticks as there are batches of two hundred in them. *)
Theorem live_burst_drains t0 n last tip first more :
  without_holes t0 n last -> t0 <= last n ->
  snd (LiveSource.tip (EventSource.source table) n) = Ok tip -> default 0 tip = t0 ->
  first <> [] -> Forall ticking first -> Forall ticking more ->
  let source := EventSource.source table in
  let then_ := LivePoller.run source (LivePoller.new n) first in
  let sent := map sent_id (LivePoller.broadcast (LivePoller.run source then_ more)) in
  (exists k, sent = seqZ (t0 + 1) k) /\
  forall w, readable (LivePoller.statements then_) w ->
    t0 < id_of w <= t0 + POLL_BATCH_LIMIT * Z.of_nat (length more) -> id_of w ∈ sent.
Proof.
  intros Hh Hle Htip Ht0 Hne Hfirst Hmore. destruct Hfirst as [|w first Hw Hfirst]; [done|]. clear Hne.
  cbv zeta. change (LivePoller.run ?s (LivePoller.new n) (w :: first)) with
    (LivePoller.run s (LivePoller.wake s (LivePoller.new n) w) first).
  destruct (first_tick_caught_up t0 n last tip w Hh Hle Htip Ht0 Hw) as [f0 Hc0].
  destruct (run_caught_up _ _ _ _ _ _ Hh Hfirst Hc0) as (f1 & Hc1 & _).
  destruct (run_caught_up _ _ _ _ _ _ Hh Hmore Hc1) as (f2 & Hc2 & Hlow).
  set (then_ := LivePoller.run _ _ first) in *.
  rewrite (caught_sent _ _ _ _ _ Hc2). split; [eauto|]. intros w' Hr Hid. apply elem_of_seqZ.
  assert (id_of w' <= last (LivePoller.statements then_)).
  { apply (holes_ids _ _ _ Hh); [by destruct Hc1|lia|eauto]. }
  pose proof (caught_floor _ _ _ _ _ Hc1). lia.
Qed.

(** ** A table with a hole *)

(** The id [h] is missing for as long as the poller runs, and [front] is two
    hundred ids above it that stay, the first of which is the first above [h]. *)
Record with_hole (h next last : Z) (front : list Z) : Prop := {
  hole_before : h < next;
  hole_least : forall m w, readable m w -> h <= id_of w -> next <= id_of w;
  hole_front : next ∈ front /\ NoDup front /\ Z.of_nat (length front) = POLL_BATCH_LIMIT;
  hole_stays : forall id, id ∈ front -> h < id <= last /\ forall m, exists w, readable m w /\ id_of w = id;
}.

Lemma with_hole_reads h next last front :
  with_hole h next last front -> hole (EventSource.source table) h next last.
Proof.
  intros [Hlt Hleast (Hnf & Hnd & Hlen) Hstays]. split; [done|]. intros n records Ha.
  rewrite after_reads in Ha. simpl in Ha. destruct (fault n); [done|]. injection Ha as <-.
  rewrite live_records_ids. unfold rows_past, Keyset.limit. fold (above (h - 1) n).
  set (l := above (h - 1) n). pose proof (above_spec (h - 1) n) as Hl. pose proof (above_distinct (h - 1) n) as Hndl.
  destruct (top_is_top id_of Z.ltb (Z.to_nat POLL_BATCH_LIMIT) l Hndl) as [Hperm Hsorted Hlength Hrest].
  set (t := top _ _ _ l) in *. change (take _ _) with t.
  assert (forall id a, id ∈ front -> a ∈ t -> id < id_of a -> id ∈ map id_of t) as Hin.
  { intros id a Hid Ha Hgt. destruct (Hstays id Hid) as [Hb Hw]. destruct (Hw n) as (w & Hr & <-).
    assert (w ∈ l) as Hwl by (apply Hl; split; [done|lia]). rewrite Hperm in Hwl.
    apply elem_of_app in Hwl as [Hwl|Hwl]; [apply list_elem_of_fmap; eauto|].
    specialize (Hrest a w Ha Hwl). simpl in Hrest. apply Z.ltb_lt in Hrest. lia. }
  assert (length t <= 200)%nat as Hshort by (rewrite Hlength; unfold POLL_BATCH_LIMIT; lia).
  assert (forall a, a ∈ t -> next <= id_of a <= last) as Hall.
  { intros a Ha. assert (a ∈ l) as [Hr Hid]%Hl by (rewrite Hperm; apply elem_of_app; by left).
    split; [apply (Hleast n); [done|lia]|].
    destruct (Z.leb_spec (id_of a) last) as [|Hgt]; [done|exfalso].
    assert (length (id_of a :: front) <= length (map id_of t))%nat as Hc.
    { apply subset_length.
      - constructor; [|done]. intros Hf. destruct (Hstays _ Hf). lia.
      - intros id [->|Hid']%elem_of_cons; [apply list_elem_of_fmap; eauto|].
        apply (Hin id a); [done|done|]. destruct (Hstays id Hid'). lia. }
    rewrite length_map in Hc. simpl in Hc. unfold POLL_BATCH_LIMIT in Hlen. lia. }
  split.
  - destruct (Hstays next Hnf) as [Hb Hw]. destruct (Hw n) as (w & Hr & Hwid).
    assert (w ∈ l) as Hwl by (apply Hl; split; [done|lia]).
    destruct t as [|a t'] eqn:Ht.
    + simpl in Hlength. destruct l; [by apply not_elem_of_nil in Hwl|]. simpl in Hlength.
      unfold POLL_BATCH_LIMIT in Hlength. lia.
    + destruct (Z.eqb_spec (id_of a) next) as [<-|Hne]; [by left|].
      apply (Hin next a Hnf); [by left|]. destruct (Hall a); [by left|lia].
  - intros id (a & -> & Ha)%list_elem_of_fmap. by apply Hall.
Qed.

(** A hole is waited for without end: [GAP_SETTLE] is counted from the last time
    the id above it was read, and each tick reads that id again. Once the batch
    of a read is full of rows above the hole, nothing further is ever sent. *)
Lemma a_hole_stops_the_stream h next last front n wakes :
  with_hole h next last front -> Forall listening wakes ->
  let p := LivePoller.run (EventSource.source table)
    (LivePoller.mk (Some (LiveWatermark.anchored (h - 1))) n [] true) wakes in
  LiveWatermark.floor <$> LivePoller.watermark p = Some (h - 1) /\
  Forall (fun e => sent_id e <= last) (LivePoller.broadcast p).
Proof.
  intros Hh Hl. pose proof (with_hole_reads _ _ _ _ Hh) as Hr.
  destruct (run_stuck (EventSource.source table) sent_id source_prepared h next last
    (LivePoller.mk (Some (LiveWatermark.anchored (h - 1))) n [] true) wakes Hr Hl) as [(w & Hw & Hf) Hb].
  - eexists. split; [done|]. split; [done|]. intros k [v Hv]. simpl in Hv. by rewrite lookup_empty in Hv.
  - constructor.
  - cbv zeta. rewrite Hw. simpl. rewrite Hf. split; [done|]. by rewrite Forall_fmap in Hb.
Qed.
End Table.
