(* ===== verification/SignalFeed.v ===== *)
(** * The signal feed

    [src/crates/persistence/src/repositories/signal.rs] and signal/rows.rs, the
    reads of the feed: the list, keyset pages in both directions, and the live
    reads; [src/crates/api/src/]: application/enriched_signal.rs,
    services/signal_service.rs, http/dto/request/list_signals.rs and
    http/handlers/signals.rs, and the live source of
    application/live/signals_source.rs. The response carries the enriched signal
    itself, its JSON being left out. *)

From stdpp Require Import sorting.
From S2P Require Import Prelude Errors External Domain Signals Analytic Store Rows Cursor Keyset EventLists EventApi Live LiveFeeds.

(** ** [signals/model.rs] *)

Definition Severity_as_str (s : Severity) : string :=
  match s with Info => "info" | Warning => "warning" | Critical => "critical" end.

Definition Severity_from_str (s : string) : option Severity :=
  if bool_decide (s = "info") then Some Info
  else if bool_decide (s = "warning") then Some Warning
  else if bool_decide (s = "critical") then Some Critical
  else None.

Module SignalRecord.
Record t (D : Type) : Type := mk {
  id : Z;
  signal : Signal.t D;
}.
Arguments mk {D}.
Arguments id {D}.
Arguments signal {D}.
End SignalRecord.

Module SignalFilter.
Record t : Type := mk {
  severity : option Severity;
  protocol : option Protocol;
  pool : option Pubkey;
}.
End SignalFilter.

(** ** [signal/rows.rs] *)

Module SignalRow.
Record t (N : Type) : Type := mk {
  id : Z;
  detector : string;
  protocol : string;
  pool_address : string;
  severity : string;
  value : N;
  threshold : option N;
  message : option string;
  triggered_at : DateTime;
}.
Arguments mk {N}.
Arguments id {N}.
Arguments detector {N}.
Arguments protocol {N}.
Arguments pool_address {N}.
Arguments severity {N}.
Arguments value {N}.
Arguments threshold {N}.
Arguments message {N}.
Arguments triggered_at {N}.
End SignalRow.

Section Feed.
Context {N D : Type} `{!BigDecimal N} `{!DecimalFromStr D} `{Base58}.
Context `{Postgres} `{!Tables (SignalRow.t N)} `{PgClock}.
Notation Row := (SignalRow.t N).

Definition SignalRecord_try_from (row : Row) : RepositoryResult (SignalRecord.t D) :=
  let? protocol := Parser.parse_protocol (SignalRow.protocol row) in
  let? pool_address := convert_string_to_pubkey (SignalRow.pool_address row) "pool_address" in
  let? severity := ok_or (Severity_from_str (SignalRow.severity row))
    (Integrity ("invalid severity: " ++ SignalRow.severity row)) in
  let? value := Parser.convert_bigdecimal_to_decimal (SignalRow.value row) "value" in
  let? threshold := convert_optional (SignalRow.threshold row) "threshold" Parser.convert_bigdecimal_to_decimal in
  Ok (SignalRecord.mk (SignalRow.id row)
    (Signal.mk (SignalRow.detector row) protocol pool_address severity value threshold
      (SignalRow.message row) (SignalRow.triggered_at row))).

(** ** [signal.rs] *)

Definition MAX_PAGE_SIZE : Z := 200.

(** [limit.clamp(1, MAX_PAGE_SIZE)]. *)
Definition clamp_limit (limit : Z) : Z := Z.max 1 (Z.min MAX_PAGE_SIZE limit).

(** [$n IS NULL OR column = $n]. *)
Definition narrows (bind : option string) (column : string) : bool :=
  match bind with Some v => bool_decide (column = v) | None => true end.

Definition kept (filter : SignalFilter.t) (row : Row) : bool :=
  narrows (Severity_as_str <$> SignalFilter.severity filter) (SignalRow.severity row) &&
  narrows (pubkey_to_string <$> SignalFilter.pool filter) (SignalRow.pool_address row) &&
  narrows (Protocol_as_str <$> SignalFilter.protocol filter) (SignalRow.protocol row).

(** [ORDER BY triggered_at DESC, id DESC], and its reverse. *)
Definition feed_key (row : Row) : DateTime * Z := (SignalRow.triggered_at row, SignalRow.id row).
Definition newer (a b : DateTime * Z) : bool := (fst b <? fst a) || ((fst b =? fst a) && (snd b <? snd a)).
Definition older (a b : DateTime * Z) : bool := (fst a <? fst b) || ((fst a =? fst b) && (snd a <? snd b)).

(** [triggered_at < $3 OR (triggered_at = $3 AND id < $4)], or the reverse; true without a cursor. *)
Definition past_cursor (beyond : DateTime * Z -> DateTime * Z -> bool) (cursor : option SignalCursor.t)
    (row : Row) : bool :=
  match cursor with
  | Some c => beyond (feed_key row) (SignalCursor.triggered_at c, SignalCursor.id c)
  | None => true
  end.

Definition select_feed (beyond before : DateTime * Z -> DateTime * Z -> bool) (filter : SignalFilter.t)
    (cursor : option SignalCursor.t) (n : Z) : Query RepositoryError (list Row) :=
  select (fun rows => Keyset.limit n (order_by feed_key before
    (List.filter (fun row => kept filter row && past_cursor beyond cursor row) rows))).

Definition signal_cursor (r : SignalRecord.t D) : Cursor.t D :=
  Cursor.Signal (SignalCursor.mk (Signal.triggered_at (SignalRecord.signal r)) (SignalRecord.id r)).

Definition list_feed (filter : SignalFilter.t) (cursor : option SignalCursor.t) (direction : PageDirection)
    (position : option PagePosition) (limit : Z) : Query RepositoryError (Page.t D (SignalRecord.t D)) :=
  let effective_limit := clamp_limit limit in
  let fetch_limit := effective_limit + 1 in
  let mode := resolve_query_mode position cursor direction in
  let active_cursor := match position with Some _ => None | None => cursor end in
  let had_cursor := bool_decide (is_Some active_cursor) in
  let> rows :=
    match mode with
    | Forward => select_feed older newer filter active_cursor fetch_limit
    | Backward => select_feed newer older filter active_cursor fetch_limit
    end in
  let> records := query_lift (collect SignalRecord_try_from rows) in
  query_ret (PageBuilder.finalize (PageBuilder.mk records effective_limit mode had_cursor) signal_cursor).

(** *** The live reads *)

Definition recent (lookback_secs : Z) (now : DateTime) (row : Row) : bool :=
  now - seconds_delta lookback_secs <=? SignalRow.triggered_at row.

Definition live_tip_signals (lookback : TimeDelta) : Query RepositoryError (option Z) := fun n =>
  select (fun rows => max_id (map SignalRow.id (List.filter (recent (num_seconds lookback) (pg_now n)) rows))) n.

(** One row that does not decode fails the read. *)
Definition live_after_signals (after_id : Z) (lookback : TimeDelta) (limit : Z) :
    Query RepositoryError (list (SignalRecord.t D)) := fun n =>
  (let> rows := select (fun rows => Keyset.limit (clamp_limit limit) (order_by SignalRow.id Z.ltb
     (List.filter (fun row => (after_id <? SignalRow.id row) && recent (num_seconds lookback) (pg_now n) row) rows))) in
   query_lift (collect SignalRecord_try_from rows)) n.
End Feed.

(** ** [enriched_signal.rs], [signal_service.rs] *)

#[global] Instance signal_on_pool {D} : OnPool.t (SignalRecord.t D) := {
  OnPool.pool_address r := Signal.pool_address (SignalRecord.signal r);
  OnPool.own_mints _ := None;
}.

Module EnrichedSignal.
Record t (D : Type) : Type := mk {
  record : SignalRecord.t D;
  token_a : EnrichedToken.t;
  token_b : EnrichedToken.t;
}.
Arguments mk {D}.
Arguments record {D}.
Arguments token_a {D}.
Arguments token_b {D}.

Definition bare {D} (record : SignalRecord.t D) : t D :=
  mk record EnrichedToken.unresolved EnrichedToken.unresolved.
End EnrichedSignal.

Module SignalListParams.
Record t : Type := mk {
  severity : option Severity;
  protocol : option Protocol;
  pool : option Pubkey;
  cursor : option SignalCursor.t;
  direction : PageDirection;
  position : option PagePosition;
  limit : Z;
}.
End SignalListParams.

Section Service.
Context {N D : Type} `{!BigDecimal N} `{!DecimalFromStr D} `{Base58}.
Context `{Postgres} `{!Tables (SignalRow.t N)} `{PgClock} `{PoolCatalog} `{TokenMetadataLookup}.

Definition enrich (pairs : PairsByPool) (record : SignalRecord.t D) : EnrichedSignal.t D :=
  let p := Paired_of record pairs in
  EnrichedSignal.mk (Paired.item p) (Paired.token_a p) (Paired.token_b p).

Definition enrich_batch (records : list (SignalRecord.t D)) : Query RepositoryError (list (EnrichedSignal.t D)) :=
  let> pairs := pairs_of records in
  query_ret (map (enrich pairs) records).

Definition list_signals_page (params : SignalListParams.t) :
    Query RepositoryError (Page.t D (EnrichedSignal.t D)) :=
  let> page := list_feed
    (SignalFilter.mk (SignalListParams.severity params) (SignalListParams.protocol params)
      (SignalListParams.pool params))
    (SignalListParams.cursor params) (SignalListParams.direction params) (SignalListParams.position params)
    (SignalListParams.limit params) in
  let> items := enrich_batch (Page.items page) in
  query_ret (Page.mk items (Page.next_cursor page) (Page.prev_cursor page) (Page.is_first page) (Page.is_last page)).

(** ** [signals_source.rs] *)

Definition SIGNALS_LOOKBACK_SECS : Z := 86400.

(** On a failed enrichment, the signals go out bare. *)
Definition prepare_signals (records : list (SignalRecord.t D)) (n : nat) : nat * list (EnrichedSignal.t D) :=
  let (n, enriched) := enrich_batch records n in
  (n, match enriched with Ok enriched => enriched | Err _ => map EnrichedSignal.bare records end).

Definition signals_source : LiveSource.t (SignalRecord.t D) (EnrichedSignal.t D) :=
  LiveSource.mk "signals"
    (live_tip_signals (seconds_delta SIGNALS_LOOKBACK_SECS))
    (fun after_id limit => live_after_signals after_id (seconds_delta SIGNALS_LOOKBACK_SECS) limit)
    SignalRecord.id prepare_signals.
End Service.

(** ** [list_signals.rs] *)

Module SignalsParams.
Record t : Type := mk {
  cursor : option string;
  dir : PageDirection;
  position : option PagePosition;
  severity : option Severity;
  limit : Z;
}.
End SignalsParams.

Definition validate_cursor_position_exclusive (has_cursor has_position : bool) : result unit ApiError :=
  if has_cursor && has_position then Err (BadRequest "`position` cannot be combined with `cursor`") else Ok ().

Section Request.
Context `{Rfc3339} `{SerdeJson} `{Base64}.

Definition parse_cursor (raw : option string) (has_position : bool) :
    result (option SignalCursor.t) ApiError :=
  let? cursor :=
    match raw with
    | Some raw => result_map Some (let? raw := non_empty "cursor" raw in decode_signal_cursor raw)
    | None => Ok None
    end in
  let? _ := validate_cursor_position_exclusive (bool_decide (is_Some cursor)) has_position in
  Ok cursor.

(** [ListSignalsRequest] and [into_params]: the same fields. *)
Definition parse_for_entity (params : SignalsParams.t) (protocol : option Protocol) (pool : option Pubkey) :
    result SignalListParams.t ApiError :=
  let? _ := validate_limit (SignalsParams.limit params) in
  let? cursor := parse_cursor (SignalsParams.cursor params)
    (bool_decide (is_Some (SignalsParams.position params))) in
  Ok (SignalListParams.mk (SignalsParams.severity params) protocol pool cursor (SignalsParams.dir params)
    (SignalsParams.position params) (SignalsParams.limit params)).

Definition parse_signals (params : SignalsParams.t) : result SignalListParams.t ApiError :=
  parse_for_entity params None None.
End Request.

(** ** [handlers/signals.rs] *)

Section Handlers.
Context {N D : Type} `{!BigDecimal N} `{!DecimalFromStr D} `{!DecimalText D} `{Base58} `{SignatureDisplay}.
Context `{Rfc3339} `{SerdeJson} `{Base64}.
Context `{Postgres} `{!Tables (SignalRow.t N)} `{PoolCatalog} `{TokenMetadataLookup}.

Definition signal_page (request : SignalListParams.t) :
    Query ApiError (PageResponse.t (EnrichedSignal.t D)) :=
  let> page := query_map_err ApiError_from (list_signals_page request) in
  query_lift (from_page page).

Definition list_signals (params : SignalsParams.t) : Query ApiError (PageResponse.t (EnrichedSignal.t D)) :=
  let> request := query_lift (parse_signals params) in
  signal_page request.

Definition list_protocol_signals (protocol : string) (params : SignalsParams.t) :
    Query ApiError (PageResponse.t (EnrichedSignal.t D)) :=
  let> protocol := query_lift (parse_protocol protocol) in
  let> request := query_lift (parse_for_entity params (Some protocol) None) in
  signal_page request.

Definition list_pool_signals (pool : string) (params : SignalsParams.t) :
    Query ApiError (PageResponse.t (EnrichedSignal.t D)) :=
  let> address := query_lift (parse_pool pool) in
  let> request := query_lift (parse_for_entity params None (Some address)) in
  let> _ := known_pool pool in
  signal_page request.
End Handlers.
