(* ===== verification/SignalFeedFacts.v ===== *)
(** * What the signal feed promises

    The feed on a table that does not change meanwhile: each page is a stretch
    of the signals kept, newest first, and the page before the next one, or
    after the previous one, is the page one stood on. *)

From stdpp Require Import sorting.
From S2P Require Import Prelude Errors External Domain Signals Analytic Store Rows Cursor CursorFacts Keyset KeysetFacts.
From S2P Require Import EventLists EventApi EventListsFacts MergedListsFacts EventWalk OrderedMap Live LiveFeeds LiveFeedsFacts SignalFeed.

(** ** The order *)

#[global] Instance newer_total : StrictTotal newer.
Proof.
  unfold newer. split.
  - intros [t i]. simpl. by rewrite !Z.ltb_irrefl, andb_false_r.
  - intros [ta ia] [tb ib] [tc ic]. simpl. rewrite !orb_true_iff, !andb_true_iff, !Z.ltb_lt, !Z.eqb_eq. lia.
  - intros [ta ia] [tb ib]. simpl. rewrite !orb_false_iff, !andb_false_iff, !Z.ltb_ge, !Z.eqb_neq.
    intros [Ht Hi] [Ht' Hi']. assert (ta = tb) as -> by lia. f_equal. lia.
Qed.

Lemma older_newer a b : older a b = newer b a.
Proof. done. Qed.

#[global] Instance older_total : StrictTotal older.
Proof.
  split; intros *; rewrite ?older_newer.
  - apply before_irrefl.
  - intros Hab Hbc. by eapply before_trans.
  - intros Hab Hba. by apply before_total.
Qed.

Lemma filter_all {A} (f : A -> bool) l : (forall a, a ∈ l -> f a = true) -> List.filter f l = l.
Proof. intros Hf. apply forallb_filter_id, forallb_forall. intros a Ha%list_elem_of_In. by apply Hf. Qed.

Lemma filter_none {A} (f : A -> bool) l : (forall a, a ∈ l -> f a = false) -> List.filter f l = [].
Proof.
  induction l as [|a l IH]; intros Hf; simpl; [done|]. rewrite Hf by (by left).
  apply IH. intros b Hb. apply Hf. by right.
Qed.

Section Sorted.
Context {A K : Type} (key : A -> K) (before : K -> K -> bool) `{!StrictTotal before}.
Notation first := (fun a b => before (key a) (key b) = true).

Lemma sorted_filter (f : A -> bool) l : StronglySorted first l -> StronglySorted first (List.filter f l).
Proof.
  induction 1 as [|a l Hs IH Ha]; simpl; [constructor|]. destruct (f a); [|done]. constructor; [done|].
  apply List.Forall_forall. intros b [Hb _]%List.filter_In. by apply (proj1 (List.Forall_forall _ _) Ha).
Qed.

Lemma filter_perm (f : A -> bool) l l' : l ≡ₚ l' -> List.filter f l ≡ₚ List.filter f l'.
Proof.
  induction 1 as [|x l1 l2 _ IH|x y l1|l1 l2 l3 _ IH1 _ IH2]; simpl.
  - done.
  - destruct (f x); by rewrite IH.
  - destruct (f x), (f y); try done. by constructor.
  - by etrans.
Qed.

Lemma order_by_filter (f : A -> bool) l :
  NoDup (map key l) -> order_by key before (List.filter f l) = List.filter f (order_by key before l).
Proof.
  intros Hnd. assert (List.filter f (order_by key before l) ≡ₚ List.filter f l) as Hp
    by apply filter_perm, order_by_perm.
  assert (StronglySorted first (List.filter f (order_by key before l))) as Hs
    by (by apply sorted_filter, order_by_sorted).
  apply (sorted_unique key before); [|done|by rewrite order_by_perm, Hp].
  apply order_by_sorted; [done|]. eapply keys_distinct_perm; [exact Hp|].
  by apply (sorted_keys_distinct key before).
Qed.

(** What stands before a key, and what stands after it. *)
Lemma sorted_cut l k :
  StronglySorted first l ->
  exists m, l = List.filter (fun a => before (key a) k) l ++ m ++ List.filter (fun a => before k (key a)) l /\
    forall a, a ∈ m -> key a = k.
Proof.
  induction 1 as [|a l Hs [m [IH Hm]] Ha]; simpl; [by exists []; split; [|intros ? ?%not_elem_of_nil]|].
  assert (forall b, b ∈ l -> before (key a) (key b) = true) as Hall.
  { intros b Hb. by apply (proj1 (Forall_forall _ _) Ha). }
  destruct (before (key a) k) eqn:Hak.
  { rewrite (before_asym before _ _ Hak). exists m. simpl. by rewrite <- IH. }
  assert (forall b, b ∈ l -> before k (key b) = true) as Hafter.
  { intros b Hb. destruct (before k (key a)) eqn:Hka; [by eapply before_trans; [|apply Hall]|].
    rewrite <- (before_total _ _ Hak Hka). by apply Hall. }
  rewrite filter_none, (filter_all (fun a => before k (key a)) l); [|done|].
  2:{ intros b Hb. by apply before_asym; [|apply Hafter]. }
  destruct (before k (key a)) eqn:Hka; simpl.
  - exists []. split; [done|by intros ? ?%not_elem_of_nil].
  - exists [a]. split; [done|]. intros b ->%list_elem_of_singleton. by apply before_total.
Qed.

(** The key is that of a row. *)
Lemma sorted_cut_at l1 x l2 :
  StronglySorted first (l1 ++ x :: l2) ->
  List.filter (fun a => before (key a) (key x)) (l1 ++ x :: l2) = l1 /\
  List.filter (fun a => before (key x) (key a)) (l1 ++ x :: l2) = l2.
Proof.
  intros Hs. apply sorted_app in Hs as (H1 & H2 & H12).
  assert (forall b, b ∈ l2 -> before (key x) (key b) = true) as Hx.
  { inversion_clear H2 as [|?? _ Hf]. intros b Hb. by apply (proj1 (Forall_forall _ _) Hf). }
  assert (forall b, b ∈ l1 -> before (key b) (key x) = true) as Hb.
  { intros b Hb. apply H12; [done|by left]. }
  rewrite !List.filter_app. simpl. rewrite before_irrefl.
  rewrite (filter_all (fun a => before (key a) (key x)) l1), (filter_none (fun a => before (key a) (key x)) l2),
    (filter_none (fun a => before (key x) (key a)) l1), (filter_all (fun a => before (key x) (key a)) l2), app_nil_r;
    try done; intros b Hin; apply before_asym; auto.
Qed.
End Sorted.

Lemma order_by_reverse {A K} (key : A -> K) (before after : K -> K -> bool)
    `{!StrictTotal before} `{!StrictTotal after} l :
  (forall a b, after a b = before b a) -> NoDup (map key l) ->
  order_by key after l = reverse (order_by key before l).
Proof.
  intros Hflip Hnd. apply (sorted_unique key after).
  - by apply order_by_sorted.
  - pose proof (order_by_sorted key before l Hnd) as Hs.
    induction Hs as [|a s Hs IH Ha]; [constructor|]. rewrite reverse_cons. apply sorted_app.
    split; [exact IH|]. split; [by repeat constructor|].
    intros b c Hb ->%list_elem_of_singleton. rewrite Hflip. apply (proj1 (Forall_forall _ _) Ha).
    by apply (proj1 (elem_of_reverse _ _)).
  - by rewrite reverse_Permutation, !order_by_perm.
Qed.

(** ** A page of a table that does not change *)

Section Feed.
Context {N D : Type} `{!BigDecimal N} `{DecimalFromStrLaws D} `{Base58Laws} `{SignatureFromStrLaws} `{Rfc3339Laws}.
Context `{SerdeJsonLaws} `{Base64Laws} `{Postgres} `{!Tables (SignalRow.t N)} `{PgClock}.
Notation Row := (SignalRow.t N).

(** No statement fails, no row comes or goes, and each reads as [record_of]
    says, under a key of its own that a cursor can hold. *)
Record still_feed (rows : list Row) (record_of : Row -> SignalRecord.t D) : Prop := {
  still_rows : forall n, rows_at n = rows;
  still_faults : forall n, fault n = None;
  still_keys : NoDup (map feed_key rows);
  still_reads : forall row, row ∈ rows -> SignalRecord_try_from row = Ok (record_of row);
  still_ranges : forall row, row ∈ rows ->
    rfc3339_range (SignalRow.triggered_at row) /\ in_int 64 (SignalRow.id row) = true;
}.

Context (rows : list Row) (record_of : Row -> SignalRecord.t D).
Hypothesis still : still_feed rows record_of.

(** The signals kept, newest first. *)
Definition feed_of (filter : SignalFilter.t) : list Row :=
  order_by feed_key newer (List.filter (kept filter) rows).

Lemma kept_distinct filter : NoDup (map feed_key (List.filter (kept filter) rows)).
Proof. apply filter_keys_distinct, (still_keys _ _ still). Qed.

Lemma feed_of_sorted filter :
  StronglySorted (fun a b => newer (feed_key a) (feed_key b) = true) (feed_of filter).
Proof. apply (order_by_sorted feed_key newer), kept_distinct. Qed.

Lemma feed_of_rows filter row : row ∈ feed_of filter -> row ∈ rows.
Proof.
  unfold feed_of. rewrite order_by_perm. intros [Hr _]%list_elem_of_In%List.filter_In.
  by apply list_elem_of_In.
Qed.

Lemma record_key row r :
  SignalRecord_try_from row = Ok r ->
  (Signal.triggered_at (SignalRecord.signal r), SignalRecord.id r) = feed_key row.
Proof. unfold SignalRecord_try_from. intros Hr. inv_binds. by simplify_eq. Qed.

Lemma collect_records (l : list Row) :
  (forall row, row ∈ l -> row ∈ rows) -> collect SignalRecord_try_from l = Ok (map record_of l).
Proof.
  induction l as [|row l IH]; intros Hl; simpl; [done|].
  rewrite (still_reads _ _ still row) by (apply Hl; by left). simpl.
  rewrite IH by (intros r Hr; apply Hl; by right). done.
Qed.

(** What a page is cut from, in the order of its read. *)
Definition walked (filter : SignalFilter.t) (mode : QueryMode) (cursor : option SignalCursor.t) : list Row :=
  match mode with
  | Forward => List.filter (past_cursor older cursor) (feed_of filter)
  | Backward => reverse (List.filter (past_cursor newer cursor) (feed_of filter))
  end.

Lemma select_feed_walked filter mode cursor k n :
  match mode with
  | Forward => select_feed older newer filter cursor k
  | Backward => select_feed newer older filter cursor k
  end n = (S n, Ok (Keyset.limit k (walked filter mode cursor))).
Proof.
  destruct mode; unfold select_feed, select; rewrite (still_faults _ _ still), (still_rows _ _ still), <- filter_filter;
    do 3 f_equal.
  - apply (order_by_filter feed_key newer), kept_distinct.
  - rewrite (order_by_reverse feed_key newer older) by (apply older_newer || apply filter_keys_distinct, kept_distinct).
    unfold walked, feed_of. f_equal. apply (order_by_filter feed_key newer), kept_distinct.
Qed.

Lemma walked_from filter mode cursor row : row ∈ walked filter mode cursor -> row ∈ rows.
Proof.
  destruct mode; unfold walked; [|rewrite elem_of_reverse]; intros [Hr _]%list_elem_of_In%List.filter_In;
    by apply list_elem_of_In, feed_of_rows in Hr.
Qed.

(** The page, before its cursors. *)
Lemma list_feed_answers filter cursor dir pos limit n :
  let mode := resolve_query_mode pos cursor dir in
  let active := match pos with Some _ => None | None => cursor end in
  list_feed filter cursor dir pos limit n =
    (S n, Ok (PageBuilder.finalize (PageBuilder.mk
      (map record_of (take (Z.to_nat (clamp_limit limit + 1)) (walked filter mode active)))
      (clamp_limit limit) mode (bool_decide (is_Some active))) signal_cursor)).
Proof.
  cbv zeta. unfold list_feed.
  pose proof (select_feed_walked filter (resolve_query_mode pos cursor dir)
    match pos with Some _ => None | None => cursor end (clamp_limit limit + 1) n) as Hs.
  unfold query_bind at 1. rewrite Hs. unfold query_bind, query_lift. rewrite collect_records; [done|].
  unfold Keyset.limit. intros row (i & Hr%list_elem_of_lookup_2 & _)%elem_of_take. by eapply walked_from.
Qed.

(** *** A page is a stretch of the feed *)

(** The cursor of a row. *)
Definition row_cursor (row : Row) : SignalCursor.t :=
  SignalCursor.mk (SignalRow.triggered_at row) (SignalRow.id row).

Lemma record_cursor row : row ∈ rows -> signal_cursor (record_of row) = Cursor.Signal (row_cursor row).
Proof.
  intros Hr. pose proof (record_key _ _ (still_reads _ _ still row Hr)) as Hk.
  unfold signal_cursor, row_cursor. unfold feed_key in Hk. injection Hk as -> ->. done.
Qed.

(** The [n] rows of a page between those before it and those after it; a cursor
    it gives stands at its end, and there it is full or at the boundary. *)
Record stretch (filter : SignalFilter.t) (n : nat) (page : Page.t D (SignalRecord.t D))
    (before items after : list Row) : Prop := {
  stretch_feed : feed_of filter = before ++ items ++ after;
  stretch_items : Page.items page = map record_of items;
  stretch_next : forall c, Page.next_cursor page = Some c ->
    exists row, last items = Some row /\ c = Cursor.Signal (row_cursor row) /\ (length items = n \/ before = []);
  stretch_prev : forall c, Page.prev_cursor page = Some c ->
    exists row, head items = Some row /\ c = Cursor.Signal (row_cursor row) /\ (length items = n \/ after = []);
}.

(** A cursor the page is read from splits the feed. *)
Lemma feed_cut filter (c : SignalCursor.t) :
  exists m, feed_of filter = List.filter (past_cursor newer (Some c)) (feed_of filter) ++ m ++
    List.filter (past_cursor older (Some c)) (feed_of filter).
Proof.
  destruct (sorted_cut feed_key newer (feed_of filter) (SignalCursor.triggered_at c, SignalCursor.id c)
    (feed_of_sorted filter)) as (m & Hm & _).
  by exists m.
Qed.

(** The cursors a page gives, by the boundaries it stands at. *)
Lemma stretch_intro filter n before items after is_first is_last :
  feed_of filter = before ++ items ++ after ->
  (is_last = false -> length items = n \/ before = []) ->
  (is_first = false -> length items = n \/ after = []) ->
  stretch filter n
    (let (prev, next) := build_page_cursors (map record_of items) is_first is_last signal_cursor in
     Page.mk (map record_of items) next prev is_first is_last) before items after.
Proof.
  intros Hf Hl Hr.
  assert (forall row, row ∈ items -> signal_cursor (record_of row) = Cursor.Signal (row_cursor row)) as Hc.
  { intros row Hrow. apply record_cursor, (feed_of_rows filter). rewrite Hf. apply elem_of_app. right.
    apply elem_of_app. by left. }
  unfold build_page_cursors. destruct items as [|x items]; [by split|]. cbn [map].
  split; [done|done| |].
  - intros c. cbn [Page.next_cursor]. destruct is_last; [done|].
    change (record_of x :: map record_of items) with (record_of <$> (x :: items)). rewrite fmap_last.
    destruct (last (x :: items)) as [row|] eqn:Hlast; [|done]. intros [= <-].
    exists row. split_and!; [done|by apply Hc, last_Some_elem_of|by apply Hl].
  - intros c. cbn [Page.prev_cursor]. destruct is_first; [done|]. intros [= <-].
    exists x. split_and!; [done|apply Hc; by left|by apply Hr].
Qed.

Lemma page_is_stretch filter limit mode cursor :
  let n := Z.to_nat (clamp_limit limit) in
  exists before items after,
    stretch filter n (PageBuilder.finalize (PageBuilder.mk
      (map record_of (take (Z.to_nat (clamp_limit limit + 1)) (walked filter mode cursor)))
      (clamp_limit limit) mode (bool_decide (is_Some cursor))) signal_cursor) before items after /\
    items = (match mode with Forward => fun l => l | Backward => reverse end) (take n (walked filter mode cursor)).
Proof.
  intros n. assert (Z.to_nat (clamp_limit limit + 1) = S n /\ Z.of_nat n = clamp_limit limit) as [-> Hn]
    by (unfold n, clamp_limit, MAX_PAGE_SIZE; lia).
  set (w := walked filter mode cursor).
  unfold PageBuilder.finalize. cbn [PageBuilder.effective_limit PageBuilder.items PageBuilder.mode PageBuilder.had_cursor].
  rewrite length_map, length_take, <- Hn, Nat2Z.id.
  set (more := Z.of_nat n <? Z.of_nat (S n `min` length w)).
  assert ((if more then take n (map record_of (take (S n) w)) else map record_of (take (S n) w)) =
    map record_of (take n w)) as ->.
  { unfold more. destruct (Z.ltb_spec (Z.of_nat n) (Z.of_nat (S n `min` length w))).
    - by rewrite firstn_map, take_take, Nat.min_l by auto with arith.
    - rewrite !take_ge by lia. done. }
  assert (more = true -> length (take n w) = n) as Hfull.
  { unfold more. intros Hm%Z.ltb_lt. rewrite length_take. lia. }
  assert (more = false -> drop n w = []) as Hrest.
  { unfold more. intros Hm%Z.ltb_ge. apply drop_ge. lia. }
  assert (length (take n w) = n \/ drop n w = []) as Heither by (destruct more; auto).
  clearbody more. unfold w in *. destruct mode; cbv beta iota.
  - assert (exists before, feed_of filter = before ++ walked filter Forward cursor /\
      (cursor = None -> before = [])) as (before & Hb & Hnone).
    { destruct cursor as [c|]; unfold walked.
      - destruct (feed_cut filter c) as [m Hm]. eexists (_ ++ m). split; [|done]. rewrite <- app_assoc. exact Hm.
      - exists []. split; [|done]. by rewrite filter_all. }
    eexists before, _, (drop n (walked filter Forward cursor)). split; [|done].
    apply (stretch_intro filter n); [by rewrite take_drop| |].
    + intros Hl%negb_false_iff. left. by apply Hfull.
    + intros Hf. destruct Heither; auto.
  - assert (exists after, feed_of filter = reverse (walked filter Backward cursor) ++ after /\
      (cursor = None -> after = [])) as (after & Ha & Hnone).
    { destruct cursor as [c|]; unfold walked; rewrite reverse_involutive.
      - destruct (feed_cut filter c) as [m Hm]. eexists. split; [exact Hm|done].
      - exists []. split; [|done]. by rewrite filter_all, app_nil_r. }
    change (map record_of ?l) with (record_of <$> l). rewrite <- fmap_reverse.
    eexists (reverse (drop n (walked filter Backward cursor))), _, after. split; [|done].
    apply (stretch_intro filter n).
    + rewrite app_assoc, <- reverse_app, take_drop. done.
    + intros Hl. destruct Heither as [He|He]; [left; by rewrite length_reverse|right; by rewrite He].
    + intros Hf%negb_false_iff. left. rewrite length_reverse. by apply Hfull.
Qed.

(** ** The routes *)

Context `{!CursorTextLaws} `{!PoolCatalog} `{!PoolCatalogLaws} `{!TokenMetadataLookup} `{!TokenMetadataLaws}.
Notation Response := (PageResponse.t (EnrichedSignal.t D)).

Definition records (response : Response) : list (SignalRecord.t D) :=
  map EnrichedSignal.record (PageResponse.items response).

(** A page of the signals of one protocol, of one pool or of all. *)
Definition entity_page (protocol : option Protocol) (pool : option Pubkey) (params : SignalsParams.t) :
    Query ApiError Response :=
  let> request := query_lift (parse_for_entity params protocol pool) in
  signal_page request.

(** The three routes are that, the pool being looked up first. *)
Inductive signal_route : option Protocol -> option Pubkey -> (SignalsParams.t -> Query ApiError Response) -> Prop :=
| route_all : signal_route None None list_signals
| route_protocol raw p : Protocol_from_str raw = Ok p -> signal_route (Some p) None (list_protocol_signals raw)
| route_pool raw a : pubkey_of_string raw = Some a -> known a -> signal_route None (Some a) (list_pool_signals raw).

Lemma route_entity protocol pool route params n :
  signal_route protocol pool route -> exists m, route params n = entity_page protocol pool params m.
Proof.
  destruct 1 as [|raw p Hp|raw a Ha Hk]; [by exists n| |].
  - exists n. unfold list_protocol_signals, parse_protocol. by rewrite Hp.
  - unfold list_pool_signals, parse_pool, parse_address. rewrite Ha. simpl.
    unfold entity_page, query_bind, query_lift. destruct (parse_for_entity params None (Some a)) as [request|e].
    + pose proof (known_pool_answers raw a n Ha Hk) as Hkp. unfold answered in Hkp.
      destruct (known_pool raw n) as [m [found|e]]; [by exists m|].
      destruct Hkp as (_ & k & err & _ & Hf & _). by rewrite (still_faults _ _ still) in Hf.
    + by exists n.
Qed.

Lemma pairs_of_answers {I} `{OnPool.t I} (items : list I) n : exists n' pairs, pairs_of items n = (n', Ok pairs).
Proof.
  pose proof (pairs_of_served items n) as Hs. unfold served in Hs.
  destruct (pairs_of items n) as [n' [pairs|e]]; [eauto|].
  destruct Hs as (_ & k & _ & Hf). by rewrite (still_faults _ _ still) in Hf.
Qed.

(** The page of a request. *)
Definition page_at (filter : SignalFilter.t) (cursor : option SignalCursor.t) (dir : PageDirection)
    (pos : option PagePosition) (limit : Z) : Page.t D (SignalRecord.t D) :=
  let mode := resolve_query_mode pos cursor dir in
  let active := match pos with Some _ => None | None => cursor end in
  PageBuilder.finalize (PageBuilder.mk
    (map record_of (take (Z.to_nat (clamp_limit limit + 1)) (walked filter mode active)))
    (clamp_limit limit) mode (bool_decide (is_Some active))) signal_cursor.

Lemma encode_cursor_opt_ok (c : option (Cursor.t D)) : exists raw, encode_cursor_opt c = Ok raw.
Proof. destruct c as [[]|]; by eexists. Qed.

Lemma signal_page_answers severity protocol pool cursor dir pos limit n :
  let page := page_at (SignalFilter.mk severity protocol pool) cursor dir pos limit in
  exists n' response,
    signal_page (SignalListParams.mk severity protocol pool cursor dir pos limit) n = (n', Ok response) /\
    records response = Page.items page /\
    encode_cursor_opt (Page.next_cursor page) = Ok (PageResponse.next_cursor response) /\
    encode_cursor_opt (Page.prev_cursor page) = Ok (PageResponse.prev_cursor response).
Proof.
  intros page. unfold signal_page, list_signals_page, query_bind, query_map_err.
  rewrite list_feed_answers. cbn [SignalListParams.severity SignalListParams.protocol SignalListParams.pool
    SignalListParams.cursor SignalListParams.direction SignalListParams.position SignalListParams.limit].
  match goal with |- context [PageBuilder.finalize ?b ?f] => change (PageBuilder.finalize b f) with page end.
  unfold enrich_batch, query_bind.
  match goal with |- context [pairs_of ?l ?m] => destruct (pairs_of_answers l m) as (n' & pairs & ->) end.
  unfold query_ret. cbn [map_err].
  unfold query_lift, from_page. cbn [Page.next_cursor Page.prev_cursor Page.items].
  destruct (encode_cursor_opt_ok (Page.next_cursor page)) as [next Hnext].
  destruct (encode_cursor_opt_ok (Page.prev_cursor page)) as [prev Hprev].
  rewrite Hnext. cbn [result_bind]. rewrite Hprev. cbn [result_bind]. eexists _, _.
  split; [reflexivity|]. split_and!; [|done|done].
  unfold records. cbn [PageResponse.items]. rewrite map_map. erewrite map_ext; [apply map_id|].
  intros r. unfold enrich, Paired_of. by destruct (default _ _).
Qed.

(** ** Turning a page *)

(** The same list from a cursor. *)
Definition turn (params : SignalsParams.t) (raw : string) (dir : PageDirection) : SignalsParams.t :=
  SignalsParams.mk (Some raw) dir None (SignalsParams.severity params) (SignalsParams.limit params).

Lemma turn_parses params protocol pool row raw dir :
  1 <= SignalsParams.limit params <= MAX_LIMIT -> row ∈ rows ->
  encode_cursor (D := D) (Cursor.Signal (row_cursor row)) = Ok raw ->
  parse_for_entity (turn params raw dir) protocol pool =
    Ok (SignalListParams.mk (SignalsParams.severity params) protocol pool (Some (row_cursor row)) dir None
      (SignalsParams.limit params)).
Proof.
  intros Hl Hrow He. assert (wf_cursor (D := D) (Cursor.Signal (row_cursor row))) as Hc
    by apply (still_ranges _ _ still row Hrow).
  pose proof (decode_in_own (D := D) (Cursor.Signal (row_cursor row)) Hc) as Hd.
  rewrite encode_envelope in He. injection He as <-. cbn [list_of decode_in] in Hd.
  unfold parse_for_entity, validate_limit, turn. cbn [SignalsParams.limit SignalsParams.cursor SignalsParams.position
    SignalsParams.severity SignalsParams.dir].
  assert ((1 <=? SignalsParams.limit params) && (SignalsParams.limit params <=? MAX_LIMIT) = true) as ->
    by (rewrite andb_true_iff, !Z.leb_le; lia).
  cbn [result_bind]. unfold parse_cursor, non_empty.
  rewrite bool_decide_false by (by apply envelope_nonempty). cbn [result_bind].
  destruct (decode_signal_cursor _) as [c|e]; [|done]. injection Hd as ->. done.
Qed.

Lemma feed_next filter before items after row :
  feed_of filter = before ++ items ++ after -> last items = Some row ->
  walked filter Forward (Some (row_cursor row)) = after.
Proof.
  intros Hf (items' & ->)%last_Some. pose proof (feed_of_sorted filter) as Hs. unfold walked.
  rewrite Hf, <- app_assoc in *. simpl in *. rewrite app_assoc in *.
  by destruct (sorted_cut_at feed_key newer _ _ _ Hs) as [_ ?].
Qed.

Lemma feed_prev filter before items after row :
  feed_of filter = before ++ items ++ after -> head items = Some row ->
  walked filter Backward (Some (row_cursor row)) = reverse before.
Proof.
  intros Hf (items' & ->)%head_Some. pose proof (feed_of_sorted filter) as Hs. unfold walked.
  rewrite Hf in *. simpl in *. f_equal.
  by destruct (sorted_cut_at feed_key newer _ _ _ Hs) as [? _].
Qed.

(** A page turned to has a way back. *)
Lemma turned_next_has_prev filter cursor limit :
  Page.items (page_at filter (Some cursor) Next None limit) <> [] ->
  is_Some (Page.prev_cursor (page_at filter (Some cursor) Next None limit)).
Proof.
  unfold page_at, PageBuilder.finalize, resolve_query_mode. cbn -[Z.ltb].
  set (more := _ <? _). destruct (if more then _ else _) as [|r l]; [done|]. simpl. eauto.
Qed.

Lemma turned_prev_has_next filter cursor limit :
  Page.items (page_at filter (Some cursor) Prev None limit) <> [] ->
  is_Some (Page.next_cursor (page_at filter (Some cursor) Prev None limit)).
Proof.
  unfold page_at, PageBuilder.finalize, resolve_query_mode. cbn -[Z.ltb].
  set (more := _ <? _). destruct (reverse (if more then _ else _)) as [|r l] eqn:Hl; [done|]. intros _. simpl.
  destruct (last (r :: l)) eqn:Hlast; [eauto|]. by apply last_None in Hlast.
Qed.

Lemma full_or_at_end {A} (n : nat) (l1 l2 : list A) :
  length l2 = n \/ l1 = [] -> (length l2 <= n)%nat -> reverse (take n (reverse (l1 ++ l2))) = l2.
Proof.
  intros H' Hle. rewrite reverse_app. destruct H' as [<-| ->].
  - rewrite take_app_length' by (by rewrite length_reverse). apply reverse_involutive.
  - rewrite app_nil_r, take_ge by (rewrite length_reverse; lia). apply reverse_involutive.
Qed.

Lemma full_or_at_start {A} (n : nat) (l1 l2 : list A) :
  length l1 = n \/ l2 = [] -> (length l1 <= n)%nat -> take n (l1 ++ l2) = l1.
Proof.
  intros [<-| ->] Hle; [by rewrite take_app_length|]. rewrite app_nil_r. by apply take_ge.
Qed.

Definition per_page (limit : Z) : nat := Z.to_nat (clamp_limit limit).

Lemma page_at_stretch filter cursor dir pos limit :
  exists before items after,
    stretch filter (per_page limit) (page_at filter cursor dir pos limit) before items after /\
    (length items <= per_page limit)%nat.
Proof.
  destruct (page_is_stretch filter limit (resolve_query_mode pos cursor dir)
    match pos with Some _ => None | None => cursor end) as (before & items & after & Hs & Hi).
  exists before, items, after. split; [exact Hs|]. rewrite Hi. unfold per_page.
  destruct (resolve_query_mode pos cursor dir); rewrite ?length_reverse, length_take; lia.
Qed.

(** The rows of a page turned to. *)
Definition turned_rows (filter : SignalFilter.t) (c : SignalCursor.t) (dir : PageDirection) (limit : Z) : list Row :=
  match dir with
  | Next => take (per_page limit) (walked filter Forward (Some c))
  | Prev => reverse (take (per_page limit) (walked filter Backward (Some c)))
  end.

Lemma turned_stretch filter c dir limit :
  exists before after,
    stretch filter (per_page limit) (page_at filter (Some c) dir None limit) before (turned_rows filter c dir limit) after.
Proof.
  destruct (page_is_stretch filter limit (resolve_query_mode None (Some c) dir) (Some c))
    as (before & items & after & Hs & ->).
  exists before, after. destruct dir; exact Hs.
Qed.

(** A route's answer is the page of its request. *)
Lemma route_page protocol pool route params n n' response :
  signal_route protocol pool route -> route params n = (n', Ok response) ->
  1 <= SignalsParams.limit params <= MAX_LIMIT /\
  exists cursor,
    let page := page_at (SignalFilter.mk (SignalsParams.severity params) protocol pool) cursor
      (SignalsParams.dir params) (SignalsParams.position params) (SignalsParams.limit params) in
    records response = Page.items page /\
    encode_cursor_opt (Page.next_cursor page) = Ok (PageResponse.next_cursor response) /\
    encode_cursor_opt (Page.prev_cursor page) = Ok (PageResponse.prev_cursor response).
Proof.
  intros Hroute Ha. destruct (route_entity _ _ _ params n Hroute) as [m He]. rewrite He in Ha.
  unfold entity_page, query_bind, query_lift in Ha.
  destruct (parse_for_entity params protocol pool) as [request|e] eqn:Hp; [|done].
  unfold parse_for_entity, validate_limit in Hp.
  destruct ((1 <=? SignalsParams.limit params) && _) eqn:Hl; [|done].
  apply andb_true_iff in Hl as [Hl1%Z.leb_le Hl2%Z.leb_le]. split; [lia|].
  cbn [result_bind] in Hp. destruct (parse_cursor _ _) as [cursor|e]; [|done]. injection Hp as <-.
  exists cursor. cbv zeta.
  destruct (signal_page_answers (SignalsParams.severity params) protocol pool cursor (SignalsParams.dir params)
    (SignalsParams.position params) (SignalsParams.limit params) m) as (n1 & r & Hr & Hrest).
  rewrite Hr in Ha. by injection Ha as <- <-.
Qed.

(** Turning from the cursor of a row. *)
Lemma turn_answers protocol pool route params row raw dir m :
  signal_route protocol pool route -> 1 <= SignalsParams.limit params <= MAX_LIMIT -> row ∈ rows ->
  encode_cursor (D := D) (Cursor.Signal (row_cursor row)) = Ok raw ->
  let page := page_at (SignalFilter.mk (SignalsParams.severity params) protocol pool) (Some (row_cursor row)) dir None
    (SignalsParams.limit params) in
  exists m' turned, route (turn params raw dir) m = (m', Ok turned) /\
    records turned = Page.items page /\
    encode_cursor_opt (Page.next_cursor page) = Ok (PageResponse.next_cursor turned) /\
    encode_cursor_opt (Page.prev_cursor page) = Ok (PageResponse.prev_cursor turned).
Proof.
  intros Hroute Hl Hrow Hraw page. destruct (route_entity _ _ _ (turn params raw dir) m Hroute) as [m0 He].
  rewrite He. unfold entity_page, query_bind, query_lift. rewrite (turn_parses params protocol pool row raw dir) by done.
  apply signal_page_answers.
Qed.

Lemma encode_some_signal (c : option (Cursor.t D)) raw :
  encode_cursor_opt c = Ok (Some raw) -> exists c', c = Some c' /\ encode_cursor c' = Ok raw.
Proof.
  destruct c as [c|]; simpl; [|done]. destruct (encode_cursor c) as [r|e] eqn:He; simpl; [|done].
  intros [= ->]. eauto.
Qed.

Lemma encode_opt_Some (c : Cursor.t D) r :
  encode_cursor_opt (Some c) = Ok r -> exists raw, r = Some raw /\ encode_cursor c = Ok raw.
Proof.
  unfold encode_cursor_opt. destruct (encode_cursor c) as [raw|e]; [|done]. intros [= <-]. eauto.
Qed.

(** The next page, and the way back from it. *)
Lemma next_page protocol pool route params before items after row raw m :
  let filter := SignalFilter.mk (SignalsParams.severity params) protocol pool in
  let n := per_page (SignalsParams.limit params) in
  signal_route protocol pool route -> 1 <= SignalsParams.limit params <= MAX_LIMIT ->
  feed_of filter = before ++ items ++ after -> last items = Some row ->
  encode_cursor (D := D) (Cursor.Signal (row_cursor row)) = Ok raw ->
  length items = n \/ before = [] -> (length items <= n)%nat ->
  exists m' next, route (turn params raw Next) m = (m', Ok next) /\ records next = map record_of (take n after) /\
    (records next <> [] -> exists back, PageResponse.prev_cursor next = Some back /\
      forall k, exists k' again, route (turn params back Prev) k = (k', Ok again) /\
        records again = map record_of items).
Proof.
  intros filter n Hroute Hlim Hfeed Hlast Hraw Hfull Hlen.
  assert (forall r, r ∈ items \/ r ∈ after -> r ∈ rows) as Hrows.
  { intros r Hr. apply (feed_of_rows filter). rewrite Hfeed, !elem_of_app. tauto. }
  destruct (turn_answers _ _ _ params row raw Next m Hroute Hlim) as (m' & next & Hm & Hnr & _ & Hback);
    [by apply Hrows; left; apply last_Some_elem_of|done|]. fold filter in Hnr, Hback.
  destruct (turned_stretch filter (row_cursor row) Next (SignalsParams.limit params)) as (b2 & a2 & [_ Hi _ Hp]).
  unfold turned_rows in Hi, Hp. rewrite (feed_next filter before items after row Hfeed Hlast) in Hi, Hp.
  fold n in Hi, Hp. exists m', next. split; [done|]. split; [by rewrite Hnr|]. intros Hne.
  destruct (turned_next_has_prev filter (row_cursor row) (SignalsParams.limit params)) as [c' Hc'].
  { by rewrite <- Hnr. }
  destruct (Hp c' Hc') as (row2 & Hhead & -> & _). rewrite Hc' in Hback.
  apply encode_opt_Some in Hback as (back & Hback & Hb).
  exists back. split; [done|]. intros k. apply head_Some in Hhead as [rest Htake].
  assert (head after = Some row2) as Hrow2.
  { destruct after as [|r after']; [by rewrite take_nil in Htake|]. destruct n; [done|]. simpl in Htake. by injection Htake as ->. }
  destruct (turn_answers _ _ _ params row2 back Prev k Hroute Hlim) as (k' & again & Hk & Har & _);
    [by apply Hrows; right; apply head_Some_elem_of|done|]. fold filter in Har.
  exists k', again. split; [done|]. rewrite Har.
  destruct (turned_stretch filter (row_cursor row2) Prev (SignalsParams.limit params)) as (b3 & a3 & [_ -> _ _]).
  unfold turned_rows. rewrite (feed_prev filter (before ++ items) after [] row2).
  - fold n. by rewrite full_or_at_end.
  - by rewrite Hfeed, app_nil_r, app_assoc.
  - done.
Qed.

(** The previous page, and the way back from it. *)
Lemma prev_page protocol pool route params before items after row raw m :
  let filter := SignalFilter.mk (SignalsParams.severity params) protocol pool in
  let n := per_page (SignalsParams.limit params) in
  signal_route protocol pool route -> 1 <= SignalsParams.limit params <= MAX_LIMIT ->
  feed_of filter = before ++ items ++ after -> head items = Some row ->
  encode_cursor (D := D) (Cursor.Signal (row_cursor row)) = Ok raw ->
  length items = n \/ after = [] -> (length items <= n)%nat ->
  exists m' prev, route (turn params raw Prev) m = (m', Ok prev) /\
    records prev = map record_of (reverse (take n (reverse before))) /\
    (records prev <> [] -> exists back, PageResponse.next_cursor prev = Some back /\
      forall k, exists k' again, route (turn params back Next) k = (k', Ok again) /\
        records again = map record_of items).
Proof.
  intros filter n Hroute Hlim Hfeed Hhead Hraw Hfull Hlen.
  assert (forall r, r ∈ before \/ r ∈ items -> r ∈ rows) as Hrows.
  { intros r Hr. apply (feed_of_rows filter). rewrite Hfeed, !elem_of_app. tauto. }
  destruct (turn_answers _ _ _ params row raw Prev m Hroute Hlim) as (m' & prev & Hm & Hnr & Hback & _);
    [by apply Hrows; right; apply head_Some_elem_of|done|]. fold filter in Hnr, Hback.
  destruct (turned_stretch filter (row_cursor row) Prev (SignalsParams.limit params)) as (b2 & a2 & [_ Hi Hn _]).
  unfold turned_rows in Hi, Hn. rewrite (feed_prev filter before items after row Hfeed Hhead) in Hi, Hn.
  fold n in Hi, Hn. exists m', prev. split; [done|]. split; [by rewrite Hnr|]. intros Hne.
  destruct (turned_prev_has_next filter (row_cursor row) (SignalsParams.limit params)) as [c' Hc'].
  { by rewrite <- Hnr. }
  destruct (Hn c' Hc') as (row2 & Hlast & -> & _). rewrite Hc' in Hback.
  apply encode_opt_Some in Hback as (back & Hback & Hb).
  exists back. split; [done|]. intros k.
  assert (last before = Some row2) as Hrow2.
  { rewrite <- (reverse_involutive before). destruct (reverse before) as [|r l]; [by rewrite take_nil in Hlast|].
    destruct n; [done|]. simpl in Hlast. rewrite reverse_cons, last_snoc in Hlast |- *. done. }
  destruct (turn_answers _ _ _ params row2 back Next k Hroute Hlim) as (k' & again & Hk & Har & _);
    [by apply Hrows; left; apply last_Some_elem_of|done|]. fold filter in Har.
  exists k', again. split; [done|]. rewrite Har.
  destruct (turned_stretch filter (row_cursor row2) Next (SignalsParams.limit params)) as (b3 & a3 & [_ -> _ _]).
  unfold turned_rows. rewrite (feed_next filter [] before (items ++ after) row2 Hfeed Hrow2).
  fold n. by rewrite full_or_at_start.
Qed.

(** C24: on a feed that does not change meanwhile, a page's next cursor opens
    the page of the signals that follow its own, none left out and none
    repeated, and the previous cursor of that one, unless it is empty, leads
    back to the page; and the same with the cursors the other way round. It is
    so on the three lists of signals, whatever the filter, the limit and the
    way the first page was asked for. *)
Theorem signal_pages_turn_back protocol pool route params n n' page :
  signal_route protocol pool route -> route params n = (n', Ok page) ->
  let feed := map record_of (feed_of (SignalFilter.mk (SignalsParams.severity params) protocol pool)) in
  (forall raw, PageResponse.next_cursor page = Some raw -> forall m, exists m' next before after,
    route (turn params raw Next) m = (m', Ok next) /\ feed = before ++ records page ++ records next ++ after /\
    (records next <> [] -> exists back, PageResponse.prev_cursor next = Some back /\
      forall k, exists k' again, route (turn params back Prev) k = (k', Ok again) /\ records again = records page)) /\
  (forall raw, PageResponse.prev_cursor page = Some raw -> forall m, exists m' prev before after,
    route (turn params raw Prev) m = (m', Ok prev) /\ feed = before ++ records prev ++ records page ++ after /\
    (records prev <> [] -> exists back, PageResponse.next_cursor prev = Some back /\
      forall k, exists k' again, route (turn params back Next) k = (k', Ok again) /\ records again = records page)).
Proof.
  intros Hroute Ha feed. destruct (route_page _ _ _ _ _ _ _ Hroute Ha) as (Hlim & cursor & Hrec & Hnext & Hprev).
  set (filter := SignalFilter.mk _ _ _) in *.
  destruct (page_at_stretch filter cursor (SignalsParams.dir params) (SignalsParams.position params)
    (SignalsParams.limit params)) as (before & items & after & [Hfeed Hitems Hn Hp] & Hlen).
  rewrite Hitems in Hrec. set (n0 := per_page (SignalsParams.limit params)) in *.
  split; intros raw Hraw m; rewrite Hraw in Hnext || rewrite Hraw in Hprev.
  - apply encode_some_signal in Hnext as (c & Hc & Hraw'). destruct (Hn c Hc) as (row & Hlast & -> & Hfull).
    destruct (next_page protocol pool route params before items after row raw m Hroute Hlim Hfeed Hlast Hraw' Hfull Hlen)
      as (m' & next & Hm & Hr & Hback).
    exists m', next, (map record_of before), (map record_of (drop n0 after)).
    rewrite Hrec. split; [exact Hm|]. split; [|exact Hback].
    unfold feed. rewrite Hfeed, Hr, <- !map_app. fold n0. by rewrite take_drop.
  - apply encode_some_signal in Hprev as (c & Hc & Hraw'). destruct (Hp c Hc) as (row & Hhead & -> & Hfull).
    destruct (prev_page protocol pool route params before items after row raw m Hroute Hlim Hfeed Hhead Hraw' Hfull Hlen)
      as (m' & prev & Hm & Hr & Hback).
    exists m', prev, (map record_of (reverse (drop n0 (reverse before)))), (map record_of after).
    rewrite Hrec. split; [exact Hm|]. split; [|exact Hback].
    unfold feed. rewrite Hfeed, Hr, <- !map_app. fold n0. f_equal.
    rewrite !app_assoc, <- reverse_app, take_drop, reverse_involutive. by rewrite <- app_assoc.
Qed.
End Feed.
