(* ===== verification/LiveStream.v ===== *)
(** * The live connections

    [src/crates/api/src/http/]: dto/request/live.rs, the [LiveCursor] of
    cursor.rs and handlers/live.rs; application/live/channels.rs. A receiver of
    a broadcast is the answers of its [recv]; a topic's stream is what it yields
    of them, [None] when it can no longer follow. The order in which
    [select_all] takes the streams is not the code's: it is any interleaving.
    The JSON of an item is left out. *)

From stdpp Require Import sorting.
From S2P Require Import Prelude Text Errors External Domain Signals Cursor Keyset EventApi Live LiveFeeds SignalFeed.

(** ** [request/live.rs] *)

Inductive LiveTopic : Type :=
| LiveSignals
| LiveLiquidityChanges
| LivePoolCreations
| LivePositionChanges
| LivePositionFeeClaims
| LiveProtocolFeeClaims
| LiveRewardClaims
| LiveRewardChanges
| LivePoolChanges.

#[global] Instance LiveTopic_eq_dec : EqDecision LiveTopic.
Proof. solve_decision. Defined.

Definition SERVED : list LiveTopic :=
  [ LiveSignals; LiveLiquidityChanges; LivePoolCreations; LivePositionChanges; LivePositionFeeClaims;
    LiveProtocolFeeClaims; LiveRewardClaims; LiveRewardChanges; LivePoolChanges ].

Definition topic_name (topic : LiveTopic) : string :=
  match topic with
  | LiveSignals => "signals"
  | LiveLiquidityChanges => "liquidity-changes"
  | LivePoolCreations => "pool-creations"
  | LivePositionChanges => "position-changes"
  | LivePositionFeeClaims => "position-fee-claims"
  | LiveProtocolFeeClaims => "protocol-fee-claims"
  | LiveRewardClaims => "reward-claims"
  | LiveRewardChanges => "reward-changes"
  | LivePoolChanges => "pool-changes"
  end.

Module LiveRequest.
Record t : Type := mk {
  topics : list LiveTopic;
  protocol : option Protocol;
}.
End LiveRequest.

Definition not_served (name : string) : string :=
  "`topics`: `" ++ name ++ "` is not streamed; served: " ++ String.concat ", " (map topic_name SERVED).

Fixpoint parse_topics (names : list string) (topics : list LiveTopic) : result (list LiveTopic) ApiError :=
  match names with
  | [] => Ok topics
  | name :: names =>
    let? topic := ok_or (List.find (fun topic => bool_decide (topic_name topic = name)) SERVED)
      (BadRequest (not_served name)) in
    if bool_decide (topic ∈ topics) then Err (BadRequest ("`topics` names `" ++ name ++ "` twice"))
    else parse_topics names (topics ++ [topic])
  end.

Definition parse_live (topics : string) (protocol : option Protocol) : result LiveRequest.t ApiError :=
  let? raw := non_empty "topics" topics in
  let? topics := parse_topics (split_str "," raw) [] in
  Ok (LiveRequest.mk topics protocol).

(** ** [cursor.rs] *)

Module LiveCursor.
Definition t : Type := gmap string Z.

Definition default : t := ∅.
Definition record (source : string) (id : Z) (self : t) : t := <[source := id]> self.

(** The entries of a [BTreeMap], by key. *)
Definition entry_le (a b : string * Z) : Prop := String.le (fst a) (fst b).
#[global] Instance entry_le_dec a b : Decision (entry_le a b).
Proof. unfold entry_le. apply _. Defined.

Definition encode `{SerdeJson} `{Base64} (self : t) : string :=
  b64_encode (to_vec (map (fun kv => (fst kv, JInt (snd kv))) (merge_sort entry_le (map_to_list self)))).
End LiveCursor.

(** ** [handlers/live.rs] *)

(** The item an event of the connection carries. *)
Inductive Payload (D : Type) : Type :=
| SignalPayload (signal : EnrichedSignal.t D)
| EventPayload (event : Paired.t MeteoraDammV2Event.t).
Arguments SignalPayload {D}.
Arguments EventPayload {D}.

Module Delivery.
Record t (D : Type) : Type := mk {
  topic : LiveTopic;
  source : string;
  id : Z;
  event : Payload D;
}.
Arguments mk {D}.
Arguments topic {D}.
Arguments source {D}.
Arguments id {D}.
Arguments event {D}.
End Delivery.

(** [Receiver::recv], when it fails. *)
Inductive RecvError : Type :=
| Lagged
| Closed.

Definition TopicStream (D : Type) : Type := list (option (Delivery.t D)).

(** An item after the other, those [deliver] passes over left out, up to the
    first failure. *)
Fixpoint topic_stream {D I} (deliver : I -> option (Delivery.t D)) (received : list (result I RecvError)) :
    TopicStream D :=
  match received with
  | [] => []
  | Ok item :: received =>
    match deliver item with
    | Some delivery => Some delivery :: topic_stream deliver received
    | None => topic_stream deliver received
    end
  | Err _ :: _ => [None]
  end.

(** [is_none_or]. *)
Definition of_protocol (protocol : option Protocol) (p : Protocol) : bool :=
  match protocol with Some q => bool_decide (q = p) | None => true end.

Definition signals_topic {D} (received : list (result (EnrichedSignal.t D) RecvError))
    (protocol : option Protocol) : TopicStream D :=
  topic_stream (fun signal =>
    if of_protocol protocol (Signal.protocol (SignalRecord.signal (EnrichedSignal.record signal))) then
      Some (Delivery.mk LiveSignals (topic_name LiveSignals) (SignalRecord.id (EnrichedSignal.record signal))
        (SignalPayload signal))
    else None) received.

Definition event_stream {D T} `{EventTable T} (topic : LiveTopic) (received : list (result (LiveEvent.t T) RecvError))
    (protocol : option Protocol) : TopicStream D :=
  topic_stream (fun item =>
    if of_protocol protocol (event_protocol (Paired.item (LiveRecord.event (LiveEvent.record item)))) then
      Some (Delivery.mk topic (table_name (LiveEvent.table item)) (LiveRecord.id (LiveEvent.record item))
        (EventPayload (LiveRecord.event (LiveEvent.record item))))
    else None) received.

(** A protocol no table of the collection is written for: not subscribed, a
    stream that yields nothing. *)
Definition subscribes {T} `{EventTable T} (protocol : option Protocol) : bool :=
  match protocol with
  | Some p => negb (forallb (fun table => negb (bool_decide (table_protocol table = p))) (ALL (T := T)))
  | None => true
  end.

Definition events_topic {D T} `{EventTable T} (topic : LiveTopic)
    (channel : list (result (LiveEvent.t T) RecvError)) (protocol : option Protocol) : TopicStream D :=
  if subscribes (T := T) protocol then event_stream topic channel protocol else [].

(** [LiveChannels]: what a receiver of each topic would be answered. *)
Module LiveChannels.
Record t (D : Type) : Type := mk {
  signals : list (result (EnrichedSignal.t D) RecvError);
  liquidity_changes : list (result (LiveEvent.t LiquidityChangeTable.t) RecvError);
  pool_creations : list (result (LiveEvent.t PoolCreationTable.t) RecvError);
  position_changes : list (result (LiveEvent.t PositionChangeTable.t) RecvError);
  position_fee_claims : list (result (LiveEvent.t PositionFeeClaimTable.t) RecvError);
  protocol_fee_claims : list (result (LiveEvent.t ProtocolFeeClaimTable.t) RecvError);
  reward_claims : list (result (LiveEvent.t RewardClaimTable.t) RecvError);
  reward_changes : list (result (LiveEvent.t RewardChangeTable.t) RecvError);
  pool_changes : list (result (LiveEvent.t PoolChangeTable.t) RecvError);
}.
Arguments signals {D}.
Arguments liquidity_changes {D}.
Arguments pool_creations {D}.
Arguments position_changes {D}.
Arguments position_fee_claims {D}.
Arguments protocol_fee_claims {D}.
Arguments reward_claims {D}.
Arguments reward_changes {D}.
Arguments pool_changes {D}.
End LiveChannels.

Definition topic_streams {D} (live : LiveChannels.t D) (request : LiveRequest.t) : list (TopicStream D) :=
  let protocol := LiveRequest.protocol request in
  map (fun topic =>
    match topic with
    | LiveSignals => signals_topic (LiveChannels.signals live) protocol
    | LiveLiquidityChanges => events_topic topic (LiveChannels.liquidity_changes live) protocol
    | LivePoolCreations => events_topic topic (LiveChannels.pool_creations live) protocol
    | LivePositionChanges => events_topic topic (LiveChannels.position_changes live) protocol
    | LivePositionFeeClaims => events_topic topic (LiveChannels.position_fee_claims live) protocol
    | LiveProtocolFeeClaims => events_topic topic (LiveChannels.protocol_fee_claims live) protocol
    | LiveRewardClaims => events_topic topic (LiveChannels.reward_claims live) protocol
    | LiveRewardChanges => events_topic topic (LiveChannels.reward_changes live) protocol
    | LivePoolChanges => events_topic topic (LiveChannels.pool_changes live) protocol
    end) (LiveRequest.topics request).

(** [select_all]: the streams, each in its order. *)
Inductive select_all {A} : list (list A) -> list A -> Prop :=
| select_none streams : Forall (fun s => s = []) streams -> select_all streams []
| select_one before a stream after merged :
    select_all (before ++ stream :: after) merged ->
    select_all (before ++ (a :: stream) :: after) (a :: merged).

(** A message of the connection. *)
Module Message.
Record t (D : Type) : Type := mk {
  event : string;
  data : Payload D;
  id : string;
}.
Arguments mk {D}.
Arguments event {D}.
Arguments data {D}.
Arguments id {D}.
End Message.

Section Sse.
Context {D : Type} `{SerdeJson} `{Base64}.

(** [take_while], [filter_map] and [scan]. *)
Fixpoint scan (cursor : LiveCursor.t) (merged : TopicStream D) : list (Message.t D) :=
  match merged with
  | Some delivery :: merged =>
    let cursor := LiveCursor.record (Delivery.source delivery) (Delivery.id delivery) cursor in
    Message.mk (topic_name (Delivery.topic delivery)) (Delivery.event delivery) (LiveCursor.encode cursor) ::
      scan cursor merged
  | _ => []
  end.

(** The messages, as many as were polled when the stop came. *)
Definition live_sse (merged : TopicStream D) (polled : nat) : list (Message.t D) :=
  take polled (scan LiveCursor.default merged).
End Sse.

(** *** The slots *)

Definition SSE_MAX_STREAMS : nat := 200.

(** The connections open, and the permits left. *)
Module StreamSlots.
Record t : Type := mk {
  permits : nat;
  connections : list LiveRequest.t;
}.

Definition new : t := mk SSE_MAX_STREAMS [].

(** [open_live]: subscribed only once the slot is held. *)
Definition open_live (self : t) (request : LiveRequest.t) : t * result unit ApiError :=
  match permits self with
  | O => (self, Err (Unavailable "too many open live connections; retry shortly"))
  | S permits => (mk permits (connections self ++ [request]), Ok ())
  end.

(** The stream of the [i]-th connection is dropped, and its slot with it. *)
Definition close (self : t) (i : nat) : t :=
  match connections self !! i with
  | Some _ => mk (S (permits self)) (delete i (connections self))
  | None => self
  end.
End StreamSlots.

(** The handlers, up to the stream they answer with. *)
Definition live (slots : StreamSlots.t) (topics : string) : StreamSlots.t * result unit ApiError :=
  match parse_live topics None with
  | Ok request => StreamSlots.open_live slots request
  | Err e => (slots, Err e)
  end.

Definition protocol_live (slots : StreamSlots.t) (protocol topics : string) :
    StreamSlots.t * result unit ApiError :=
  match (let? protocol := parse_protocol protocol in parse_live topics (Some protocol)) with
  | Ok request => StreamSlots.open_live slots request
  | Err e => (slots, Err e)
  end.
