(* ===== verification/LiveStreamFacts.v ===== *)
(** * What a live connection promises

    The topics of a request, the slots, the messages of a connection; and, with
    the pollers that feed it, that a connection is given a row once. *)

From stdpp Require Import sorting.
From S2P Require Import Prelude Text Errors External Domain Signals Store Rows Cursor Keyset EventLists EventApi.
From S2P Require Import OrderedMap Live LiveFeeds LiveFeedsFacts SignalFeed LiveStream.

(** ** The topics *)

Lemma topic_name_inj a b : topic_name a = topic_name b -> a = b.
Proof. by destruct a, b. Qed.

Lemma served_topic topic : List.find (fun t => bool_decide (topic_name t = topic_name topic)) SERVED = Some topic.
Proof. by destruct topic. Qed.

Lemma parse_topics_spec names topics found :
  NoDup topics ->
  parse_topics names topics = Ok found <->
  exists more, found = topics ++ more /\ map topic_name more = names /\ NoDup found.
Proof.
  revert topics. induction names as [|name names IH]; intros topics Hnd; cbn [parse_topics].
  - split.
    + intros [= <-]. exists []. by rewrite app_nil_r.
    + intros (more & -> & Hm & _). apply map_eq_nil in Hm as ->. by rewrite app_nil_r.
  - destruct (List.find (fun topic => bool_decide (topic_name topic = name)) SERVED) as [topic|] eqn:Hf; cbn [ok_or result_bind].
    2:{ split; [done|]. intros (more & _ & Hm & _). destruct more as [|t more]; [done|]. injection Hm as <- _.
        by rewrite served_topic in Hf. }
    apply find_some in Hf as [_ Hf%bool_decide_eq_true]. destruct (decide (topic ∈ topics)) as [Hin|Hout].
    + rewrite bool_decide_true by done. split; [done|]. intros (more & -> & Hm & Hnd').
      destruct more as [|t more]; [done|]. injection Hm as Ht _. rewrite <- Hf in Ht.
      apply topic_name_inj in Ht as ->. apply NoDup_app in Hnd' as (_ & Hd & _). by destruct (Hd topic Hin); left.
    + rewrite bool_decide_false, IH by (done || (apply NoDup_app; split_and!; [done| |apply NoDup_singleton];
        intros t Ht ->%list_elem_of_singleton; done)).
      split; intros (more & -> & Hm & Hnd').
      * exists (topic :: more). rewrite <- app_assoc in *. simpl. by rewrite Hm, Hf.
      * destruct more as [|t more]; [done|]. injection Hm as Ht Hm. rewrite <- Hf in Ht.
        apply topic_name_inj in Ht as ->. exists more. by rewrite <- app_assoc.
Qed.

(** A request names at least one topic, each served and once. *)
Lemma parse_live_topics topics protocol request :
  parse_live topics protocol = Ok request ->
  NoDup (LiveRequest.topics request) /\ map topic_name (LiveRequest.topics request) = split_str "," topics /\
  LiveRequest.protocol request = protocol.
Proof.
  unfold parse_live, non_empty. destruct (bool_decide (topics = "")); [done|]. cbn [result_bind].
  destruct (parse_topics (split_str "," topics) []) as [found|] eqn:Hp; [|done]. intros [= <-].
  apply parse_topics_spec in Hp as (more & -> & Hm & Hnd); [|constructor]. done.
Qed.

(** ** The slots *)

(** A permit is either left or held by a connection. *)
Definition slots_hold (s : StreamSlots.t) : Prop :=
  (StreamSlots.permits s + length (StreamSlots.connections s) = SSE_MAX_STREAMS)%nat.

Lemma open_live_spec s request :
  slots_hold s ->
  let (s', r) := StreamSlots.open_live s request in
  slots_hold s' /\ (length (StreamSlots.connections s') <= SSE_MAX_STREAMS)%nat /\
  match r with
  | Ok _ => StreamSlots.connections s' = StreamSlots.connections s ++ [request]
  | Err e => s' = s /\ length (StreamSlots.connections s) = SSE_MAX_STREAMS /\
      e = Unavailable "too many open live connections; retry shortly"
  end.
Proof.
  unfold slots_hold, StreamSlots.open_live. intros Hs. destruct (StreamSlots.permits s) as [|p] eqn:Hp; simpl.
  - rewrite Hp in *. split_and!; try done; lia.
  - rewrite length_app. simpl. split_and!; done || lia.
Qed.

Lemma close_holds s i : slots_hold s -> slots_hold (StreamSlots.close s i).
Proof.
  unfold slots_hold, StreamSlots.close. intros Hs.
  destruct (StreamSlots.connections s !! i) as [request|] eqn:Hi; [|done]. simpl.
  pose proof (lookup_lt_Some _ _ _ Hi). rewrite length_delete by eauto. lia.
Qed.

(** ** The messages *)

(** What the connection delivers before a topic is lost. *)
Fixpoint deliveries {D} (merged : TopicStream D) : list (Delivery.t D) :=
  match merged with
  | Some d :: merged => d :: deliveries merged
  | _ => []
  end.

(** The positions after some deliveries. *)
Definition positions {D} (cursor : LiveCursor.t) (ds : list (Delivery.t D)) : LiveCursor.t :=
  foldl (fun c d => LiveCursor.record (Delivery.source d) (Delivery.id d) c) cursor ds.

(** The [i]-th message carries the [i]-th delivery, and the positions after it. *)
Lemma scan_lookup {D} `{SerdeJson} `{Base64} cursor (merged : TopicStream D) i :
  scan cursor merged !! i =
  (fun d => Message.mk (topic_name (Delivery.topic d)) (Delivery.event d)
     (LiveCursor.encode (positions cursor (take (S i) (deliveries merged))))) <$> deliveries merged !! i.
Proof.
  revert cursor i. induction merged as [|[d|] merged IH]; intros cursor [|i]; simpl; done || by rewrite IH.
Qed.

(** Where a source stands: at its last delivery. *)
Lemma positions_lookup {D} cursor (ds : list (Delivery.t D)) source :
  positions cursor ds !! source =
  match last (List.filter (fun d => bool_decide (Delivery.source d = source)) ds) with
  | Some d => Some (Delivery.id d)
  | None => cursor !! source
  end.
Proof.
  induction ds as [|d ds IH] using rev_ind; [done|]. rewrite List.filter_app. simpl.
  assert (positions cursor (ds ++ [d]) = <[Delivery.source d := Delivery.id d]> (positions cursor ds)) as ->
    by (unfold positions; by rewrite foldl_app). destruct (decide (Delivery.source d = source)) as [<-|Hne].
  - rewrite bool_decide_true by done. rewrite (lookup_insert_eq (M:=gmap string) (positions cursor ds)), last_snoc. done.
  - rewrite bool_decide_false, (lookup_insert_ne (M:=gmap string) (positions cursor ds)), app_nil_r by done. exact IH.
Qed.

(** ** Streams merged *)

Lemma select_all_perm {A} (streams : list (list A)) merged : select_all streams merged -> merged ≡ₚ concat streams.
Proof.
  induction 1 as [streams Hn|before a stream after merged _ IH].
  - induction Hn as [|s streams -> _ IH]; [done|]. exact IH.
  - rewrite IH, !concat_app. simpl. by rewrite Permutation_middle.
Qed.

(** Keys labelled by their stream, each stream's own distinct. *)
Lemma concat_distinct {A K L} (key : A -> K) (label : K -> L) (streams : list (L * list A)) :
  NoDup (map fst streams) ->
  (forall l s, (l, s) ∈ streams -> NoDup (map key s) /\ forall a, a ∈ s -> label (key a) = l) ->
  NoDup (map key (concat (map snd streams))).
Proof.
  induction streams as [|[l s] streams IH]; intros Hl Hs; simpl; [constructor|].
  inversion_clear Hl as [|?? Hn Hl']. rewrite map_app. apply NoDup_app.
  destruct (Hs l s) as [Hnd Hlab]; [by left|]. split_and!; [done| |].
  - intros k (a & -> & Ha)%list_elem_of_fmap (b & He & Hb)%list_elem_of_fmap.
    apply list_elem_of_In, in_concat in Hb as (s' & Hs' & Hb). apply in_map_iff in Hs' as ([l' s''] & <- & Hs').
    apply list_elem_of_In in Hs', Hb. destruct (Hs l' s'') as [_ Hlab']; [by right|].
    apply Hn, list_elem_of_fmap. exists (l', s''). split; [|done]. simpl.
    rewrite <- (Hlab a Ha), <- (Hlab' b Hb). by rewrite He.
  - apply IH; [done|]. intros l' s' Hin. apply Hs. by right.
Qed.

(** ** What feeds the channels *)

(** The answers of a receiver: items of what is broadcast, in order, up to a
    failure. *)
Definition heard {I} (sent : list I) (received : list (result I RecvError)) : Prop :=
  exists items tail, items `sublist_of` sent /\ received = map Ok items ++ tail /\
    (tail = [] \/ exists e rest, tail = Err e :: rest).

(** What a stream delivers, the failures left out. *)
Fixpoint somes {D} (s : TopicStream D) : list (Delivery.t D) :=
  match s with
  | [] => []
  | Some d :: s => d :: somes s
  | None :: s => somes s
  end.

Lemma topic_stream_heard {D I} (deliver : I -> option (Delivery.t D)) items tail :
  tail = [] \/ (exists e rest, tail = Err e :: rest) ->
  somes (topic_stream deliver (map Ok items ++ tail)) = omap deliver items.
Proof.
  intros Ht. induction items as [|item items IH]; simpl.
  - destruct Ht as [->|(e & rest & ->)]; done.
  - destruct (deliver item); simpl; by rewrite IH.
Qed.

Lemma omap_keys {A B K} (f : A -> option B) (ka : A -> K) (kb : B -> K) l :
  (forall a b, f a = Some b -> kb b = ka a) -> map kb (omap f l) `sublist_of` map ka l.
Proof.
  intros Hk. induction l as [|a l IH]; simpl; [done|]. destruct (f a) as [b|] eqn:Hf; simpl.
  - rewrite (Hk a b Hf). by apply sublist_skip.
  - by apply sublist_cons.
Qed.

Definition delivery_key {D} (d : Delivery.t D) : string * Z := (Delivery.source d, Delivery.id d).

(** A topic's deliveries, of a channel whose items have distinct keys. *)
Lemma topic_stream_once {D I} (deliver : I -> option (Delivery.t D)) (key : I -> string * Z)
    (P : Delivery.t D -> Prop) sent received :
  (forall a d, deliver a = Some d -> delivery_key d = key a /\ P d) ->
  NoDup (map key sent) -> heard sent received ->
  NoDup (map delivery_key (somes (topic_stream deliver received))) /\
  Forall (fun d => P d /\ Delivery.source d ∈ map (fun a => fst (key a)) sent)
    (somes (topic_stream deliver received)).
Proof.
  intros Hd Hnd (items & tail & Hsub & -> & Ht). rewrite topic_stream_heard by done. split.
  - eapply sublist_NoDup; [exact Hnd|]. etrans; [|by apply map_sublist].
    apply omap_keys. intros a b Hab. by apply Hd in Hab as [? _].
  - apply Forall_forall. intros d (a & Ha & Hd')%list_elem_of_omap. destruct (Hd a d Hd') as [Hk HP].
    split; [done|]. apply list_elem_of_fmap. exists a. rewrite <- Hk. split; [done|]. by eapply elem_of_sublist.
Qed.

Section Fed.
Context {N D : Type} `{!BigDecimal N} `{!DecimalFromStr D} `{Base58} `{SignatureDisplay} `{SignatureFromStr}.
Context `{Postgres} `{!Tables MeteoraDammV2Event.t} `{!Tables (SignalRow.t N)} `{RowIds} `{PgClock}.
Context `{PoolCatalog} `{TokenMetadataLookup}.

Definition item_key {T} `{EventTable T} (e : LiveEvent.t T) : string * Z :=
  (table_name (LiveEvent.table e), sent_id e).

(** What a poller sends while it has listeners. *)
Definition polled {R I} (source : LiveSource.t R I) (sent : list I) : Prop :=
  exists n wakes, Forall listening wakes /\
    sent = LivePoller.broadcast (LivePoller.run source (LivePoller.new n) wakes).

(** A collection's channel, all its tables' pollers writing into it. *)
Definition collection_sends (T : Type) `{EventTable T} `{LiveEventFeed T} (sent : list (LiveEvent.t T)) : Prop :=
  exists batches, Forall2 (fun table batch => polled (EventSource.source table) batch) (ALL (T := T)) batches /\
    select_all batches sent.

Lemma collection_sends_once T `{!EventTable T} `{!LiveEventFeed T} `{!LiveFeedLaws T} sent :
  NoDup (map table_name (ALL (T := T))) -> collection_sends T sent -> NoDup (map item_key sent).
Proof.
  intros Hall (batches & Hb & Hs). apply select_all_perm in Hs. rewrite Hs.
  assert (exists labelled : list (string * list (LiveEvent.t T)),
    map fst labelled = map table_name (ALL (T := T)) /\ map snd labelled = batches /\
    forall l s, (l, s) ∈ labelled -> NoDup (map item_key s) /\ forall a, a ∈ s -> fst (item_key a) = l) as
    (labelled & Hl & <- & Hin).
  { clear Hall Hs. induction Hb as [|table batch tables batches (n & wakes & Hw & ->) _ (labelled & Hl & <- & IH)].
    { exists []. split_and!; [done|done|]. by intros l s ?%not_elem_of_nil. }
    exists ((table_name table, LivePoller.broadcast (LivePoller.run (EventSource.source table) (LivePoller.new n) wakes))
      :: labelled). simpl. rewrite Hl. split_and!; [done|done|].
    intros l s [[= -> ->]|Hin]%elem_of_cons; [|by apply IH].
    pose proof (run_sends_once (EventSource.source table) sent_id (source_prepared table) n wakes Hw) as Hn.
    assert (Forall (from_row table) (LivePoller.broadcast (LivePoller.run (EventSource.source table)
      (LivePoller.new n) wakes))) as Hf.
    { apply run_sent; [|constructor]. intros f m records out k. apply prepared_from_row. }
    rewrite Forall_forall in Hf. split.
    - apply NoDup_fmap_1 with (f := snd). by rewrite <- list_fmap_compose.
    - intros a Ha. by destruct (Hf a Ha) as [-> _]. }
  apply (concat_distinct item_key fst labelled); [by rewrite Hl|done].
Qed.

Definition signal_key (s : EnrichedSignal.t D) : string * Z := ("signals", SignalRecord.id (EnrichedSignal.record s)).

Lemma prepare_signals_ids (records : list (SignalRecord.t D)) n :
  map (fun s => SignalRecord.id (EnrichedSignal.record s)) (snd (prepare_signals records n)) =
  map SignalRecord.id records.
Proof.
  unfold prepare_signals, enrich_batch, query_bind. destruct (pairs_of records n) as [n' [pairs|e]]; simpl.
  - rewrite map_map. apply map_ext. intros r. unfold enrich, Paired_of. by destruct (default _ _).
  - rewrite map_map. by apply map_ext.
Qed.

Lemma signals_sent_once sent : polled (signals_source (N := N) (D := D)) sent -> NoDup (map signal_key sent).
Proof.
  intros (n & wakes & Hw & ->).
  pose proof (run_sends_once signals_source (fun s => SignalRecord.id (EnrichedSignal.record s))
    (fun records k => eq_ind_r (fun l => l `sublist_of` map SignalRecord.id records) (reflexivity _)
      (prepare_signals_ids records k)) n wakes Hw) as Hn.
  apply NoDup_fmap_1 with (f := snd). by rewrite <- list_fmap_compose.
Qed.

(** A receiver of a collection's channel. *)
Definition collection_heard (T : Type) `{EventTable T} `{LiveEventFeed T}
    (received : list (result (LiveEvent.t T) RecvError)) : Prop :=
  exists sent, collection_sends T sent /\ heard sent received.

(** The channels of the process, each fed by its pollers. *)
Record fed (live : LiveChannels.t D) : Prop := {
  fed_signals : exists sent, polled (signals_source (N := N) (D := D)) sent /\ heard sent (LiveChannels.signals live);
  fed_liquidity_changes : collection_heard LiquidityChangeTable.t (LiveChannels.liquidity_changes live);
  fed_pool_creations : collection_heard PoolCreationTable.t (LiveChannels.pool_creations live);
  fed_position_changes : collection_heard PositionChangeTable.t (LiveChannels.position_changes live);
  fed_position_fee_claims : collection_heard PositionFeeClaimTable.t (LiveChannels.position_fee_claims live);
  fed_protocol_fee_claims : collection_heard ProtocolFeeClaimTable.t (LiveChannels.protocol_fee_claims live);
  fed_reward_claims : collection_heard RewardClaimTable.t (LiveChannels.reward_claims live);
  fed_reward_changes : collection_heard RewardChangeTable.t (LiveChannels.reward_changes live);
  fed_pool_changes : collection_heard PoolChangeTable.t (LiveChannels.pool_changes live);
}.

(** The sources of each topic: their names are unique across the collections. *)
Definition sources_of (topic : LiveTopic) : list string :=
  match topic with
  | LiveSignals => [topic_name LiveSignals]
  | LiveLiquidityChanges => map table_name (ALL (T := LiquidityChangeTable.t))
  | LivePoolCreations => map table_name (ALL (T := PoolCreationTable.t))
  | LivePositionChanges => map table_name (ALL (T := PositionChangeTable.t))
  | LivePositionFeeClaims => map table_name (ALL (T := PositionFeeClaimTable.t))
  | LiveProtocolFeeClaims => map table_name (ALL (T := ProtocolFeeClaimTable.t))
  | LiveRewardClaims => map table_name (ALL (T := RewardClaimTable.t))
  | LiveRewardChanges => map table_name (ALL (T := RewardChangeTable.t))
  | LivePoolChanges => map table_name (ALL (T := PoolChangeTable.t))
  end.

Definition topic_of (source : string) : option LiveTopic :=
  List.find (fun topic => bool_decide (source ∈ sources_of topic)) SERVED.

Lemma topic_of_source topic source : source ∈ sources_of topic -> topic_of source = Some topic.
Proof.
  assert (Forall (fun topic => Forall (fun source => topic_of source = Some topic) (sources_of topic)) SERVED) as Hall
    by (repeat constructor; vm_compute; reflexivity).
  intros Hs. assert (topic ∈ SERVED) as Hin by (apply list_elem_of_In; destruct topic; simpl; tauto).
  rewrite Forall_forall in Hall. specialize (Hall topic Hin). rewrite Forall_forall in Hall. by apply Hall.
Qed.

Definition payload_protocol (p : Payload D) : Protocol :=
  match p with
  | SignalPayload s => Signal.protocol (SignalRecord.signal (EnrichedSignal.record s))
  | EventPayload e => event_protocol (Paired.item e)
  end.

(** Of the topic, and of the protocol asked for. *)
Definition asked_for (topic : LiveTopic) (protocol : option Protocol) (d : Delivery.t D) : Prop :=
  Delivery.topic d = topic /\ of_protocol protocol (payload_protocol (Delivery.event d)) = true.

(** A topic's stream: each row of its sources once. *)
Definition topic_delivers (topic : LiveTopic) (protocol : option Protocol) (stream : TopicStream D) : Prop :=
  NoDup (map delivery_key (somes stream)) /\
  Forall (fun d => asked_for topic protocol d /\ Delivery.source d ∈ sources_of topic) (somes stream).

Lemma events_topic_delivers T `{!EventTable T} `{!LiveEventFeed T} `{!LiveFeedLaws T} topic received protocol :
  NoDup (map table_name (ALL (T := T))) -> (forall table : T, table ∈ ALL) ->
  sources_of topic = map table_name (ALL (T := T)) -> collection_heard T received ->
  topic_delivers topic protocol (events_topic topic received protocol).
Proof.
  intros Hnd Hall Hsrc (sent & Hsent & Hheard). unfold events_topic.
  destruct (subscribes protocol); [|by split; constructor].
  pose proof (collection_sends_once T sent Hnd Hsent) as Honce.
  destruct (topic_stream_once (D := D) (fun item =>
    if of_protocol protocol (event_protocol (Paired.item (LiveRecord.event (LiveEvent.record item)))) then
      Some (Delivery.mk topic (table_name (LiveEvent.table item)) (LiveRecord.id (LiveEvent.record item))
        (EventPayload (LiveRecord.event (LiveEvent.record item))))
    else None) item_key (asked_for topic protocol) sent received) as [Hk Ht]; [|done|done|].
  - intros item d. destruct (of_protocol _ _) eqn:Hp; [|done]. by intros [= <-].
  - split; [exact Hk|]. eapply Forall_impl; [exact Ht|]. intros d [Htopic Hin]. split; [done|].
    rewrite Hsrc. apply list_elem_of_fmap in Hin as (item & -> & _). apply list_elem_of_fmap.
    exists (LiveEvent.table item). by split.
Qed.

Lemma signals_topic_delivers received protocol :
  (exists sent, polled (signals_source (N := N) (D := D)) sent /\ heard sent received) ->
  topic_delivers LiveSignals protocol (signals_topic received protocol).
Proof.
  intros (sent & Hsent & Hheard). pose proof (signals_sent_once sent Hsent) as Honce.
  destruct (topic_stream_once (D := D) (fun signal =>
    if of_protocol protocol (Signal.protocol (SignalRecord.signal (EnrichedSignal.record signal))) then
      Some (Delivery.mk LiveSignals (topic_name LiveSignals) (SignalRecord.id (EnrichedSignal.record signal))
        (SignalPayload signal))
    else None) signal_key (asked_for LiveSignals protocol) sent received) as [Hk Ht]; [|done|done|].
  - intros signal d. destruct (of_protocol _ _) eqn:Hp; [|done]. by intros [= <-].
  - split; [exact Hk|]. eapply Forall_impl; [exact Ht|]. intros d [Htopic Hin]. split; [done|].
    apply list_elem_of_fmap in Hin as (signal & -> & _). by left.
Qed.

(** The stream of a topic, among those of a request. *)
Definition stream_of (live : LiveChannels.t D) (protocol : option Protocol) (topic : LiveTopic) : TopicStream D :=
  match topic with
  | LiveSignals => signals_topic (LiveChannels.signals live) protocol
  | LiveLiquidityChanges => events_topic topic (LiveChannels.liquidity_changes live) protocol
  | LivePoolCreations => events_topic topic (LiveChannels.pool_creations live) protocol
  | LivePositionChanges => events_topic topic (LiveChannels.position_changes live) protocol
  | LivePositionFeeClaims => events_topic topic (LiveChannels.position_fee_claims live) protocol
  | LiveProtocolFeeClaims => events_topic topic (LiveChannels.protocol_fee_claims live) protocol
  | LiveRewardClaims => events_topic topic (LiveChannels.reward_claims live) protocol
  | LiveRewardChanges => events_topic topic (LiveChannels.reward_changes live) protocol
  | LivePoolChanges => events_topic topic (LiveChannels.pool_changes live) protocol
  end.

Lemma topic_streams_are live request :
  topic_streams live request = map (stream_of live (LiveRequest.protocol request)) (LiveRequest.topics request).
Proof. done. Qed.

Lemma stream_of_delivers live protocol topic : fed live -> topic_delivers topic protocol (stream_of live protocol topic).
Proof.
  intros Hf. destruct topic; simpl; [by apply signals_topic_delivers, fed_signals|..];
    (eapply events_topic_delivers;
      [ apply _
      | apply (bool_decide_unpack _); vm_compute; exact I
      | intros []; apply list_elem_of_In; simpl; tauto
      | done
      | by apply Hf ]).
Qed.

Lemma somes_app (s1 s2 : TopicStream D) : somes (s1 ++ s2) = somes s1 ++ somes s2.
Proof. induction s1 as [|[d|] s1 IH]; simpl; by rewrite ?IH. Qed.

Lemma somes_perm (s1 s2 : TopicStream D) : s1 ≡ₚ s2 -> somes s1 ≡ₚ somes s2.
Proof.
  induction 1 as [|[d|] s1 s2 _ IH|[x|] [y|] s|s1 s2 s3 _ IH1 _ IH2]; simpl; try done.
  - by constructor.
  - by constructor.
  - by etrans.
Qed.

Lemma somes_concat (streams : list (TopicStream D)) : somes (concat streams) = concat (map somes streams).
Proof. induction streams as [|s streams IH]; simpl; [done|]. by rewrite somes_app, IH. Qed.

Lemma deliveries_prefix (merged : TopicStream D) : exists rest, somes merged = deliveries merged ++ rest.
Proof.
  induction merged as [|[d|] merged [rest IH]]; simpl.
  - by exists [].
  - exists rest. by rewrite IH.
  - by eexists.
Qed.

Lemma connection_once live request merged :
  fed live -> NoDup (LiveRequest.topics request) -> select_all (topic_streams live request) merged ->
  NoDup (map delivery_key (deliveries merged)) /\
  Forall (fun d => exists topic, topic ∈ LiveRequest.topics request /\
    asked_for topic (LiveRequest.protocol request) d /\ Delivery.source d ∈ sources_of topic) (deliveries merged).
Proof.
  intros Hf Hnd Hs. apply select_all_perm, somes_perm in Hs. rewrite topic_streams_are, somes_concat, map_map in Hs.
  set (streams := map (fun topic => (Some topic, somes (stream_of live (LiveRequest.protocol request) topic)))
    (LiveRequest.topics request)).
  assert (map snd streams = map (fun t => somes (stream_of live (LiveRequest.protocol request) t))
    (LiveRequest.topics request)) as Hsnd by (unfold streams; by rewrite map_map).
  rewrite <- Hsnd in Hs.
  assert (forall l s, (l, s) ∈ streams -> exists topic, l = Some topic /\ topic ∈ LiveRequest.topics request /\
    s = somes (stream_of live (LiveRequest.protocol request) topic)) as Hin.
  { intros l s (topic & [= -> ->] & Ht)%list_elem_of_fmap. by exists topic. }
  destruct (deliveries_prefix merged) as [rest Hrest]. split.
  - assert (NoDup (map delivery_key (somes merged))) as Hall.
    { rewrite Hs. apply (concat_distinct delivery_key (fun k => topic_of (fst k)) streams).
      - unfold streams. rewrite map_map. apply NoDup_fmap_2_strong; [|done]. by intros x y _ _ [= ->].
      - intros l s (topic & -> & _ & ->)%Hin.
        destruct (stream_of_delivers live (LiveRequest.protocol request) topic Hf) as [Hk Ht]. split; [done|].
        intros d Hd. rewrite Forall_forall in Ht. by apply topic_of_source, (Ht d Hd). }
    rewrite Hrest, map_app in Hall. by apply NoDup_app in Hall as [? _].
  - apply Forall_forall. intros d Hd. assert (d ∈ concat (map snd streams)) as Hd'.
    { rewrite <- Hs, Hrest. apply elem_of_app. by left. }
    apply list_elem_of_In, in_concat in Hd' as (s & Hs' & Hd'). apply in_map_iff in Hs' as ([l s'] & <- & Hs').
    apply list_elem_of_In in Hs', Hd'. destruct (Hin l s' Hs') as (topic & _ & Ht & ->).
    destruct (stream_of_delivers live (LiveRequest.protocol request) topic Hf) as [_ Hall].
    rewrite Forall_forall in Hall. exists topic. split; [done|]. by apply Hall.
Qed.

(** C19: a live connection carries what its topics deliver, in the order they
    are merged, up to the first topic that is lost: over the whole connection a
    row of a table, or a signal, is met once at most, and only of a topic and
    of the protocol the client asked for. *)
Theorem connection_meets_a_row_once `{SerdeJson} `{Base64} live topics protocol request merged polled :
  fed live -> parse_live topics protocol = Ok request -> select_all (topic_streams live request) merged ->
  let delivered := take polled (deliveries merged) in
  map Message.data (live_sse merged polled) = map Delivery.event delivered /\
  map Message.event (live_sse merged polled) = map (fun d => topic_name (Delivery.topic d)) delivered /\
  NoDup (map delivery_key delivered) /\
  Forall (fun d => topic_name (Delivery.topic d) ∈ split_str "," topics /\
    of_protocol protocol (payload_protocol (Delivery.event d)) = true) delivered.
Proof.
  intros Hf Hparse Hs delivered. destruct (parse_live_topics _ _ _ Hparse) as (Hnd & Htopics & Hprotocol).
  destruct (connection_once live request merged Hf Hnd Hs) as [Hk Hall].
  assert (forall cursor, map Message.data (scan cursor merged) = map Delivery.event (deliveries merged) /\
    map Message.event (scan cursor merged) = map (fun d => topic_name (Delivery.topic d)) (deliveries merged)) as Hscan.
  { clear. induction merged as [|[d|] merged IH]; intros cursor; simpl; [done| |done].
    destruct (IH (LiveCursor.record (Delivery.source d) (Delivery.id d) cursor)) as [-> ->]. done. }
  destruct (Hscan LiveCursor.default) as [Hdata Hevent]. unfold live_sse, delivered.
  rewrite <- !firstn_map, Hdata, Hevent. split_and!; [done..| |].
  - rewrite <- (take_drop polled (map delivery_key (deliveries merged))) in Hk. by apply NoDup_app in Hk as [? _].
  - apply Forall_take. eapply Forall_impl; [exact Hall|]. intros d (topic & Hin & [-> Hp] & _).
    rewrite Hprotocol in Hp. split; [|done]. rewrite <- Htopics. apply list_elem_of_fmap. by exists topic.
Qed.
End Fed.
