(* ===== verification/LiveWitness.v ===== *)
(** * Live tables, a feed and a connection

    Concrete rows: the status changes of a pool, one more of them at each
    statement of the poller, up to four; five signals of two pools, two a page;
    a client of the pool changes. *)

From stdpp Require Import sorting.
From S2P Require Import Prelude Text Errors External OrderedMap Domain Reference Store Rows Signals Analytic Cursor.
From S2P Require Import CursorFacts Keyset KeysetFacts EventLists EventApi EventListsFacts.
From S2P Require Import MergedListsFacts EventWalk Live LiveFeeds LiveFeedsFacts SignalFeed.
From S2P Require Import SignalFeedFacts LiveStream LiveStreamFacts.

(** ** A live table *)

Module StatusRows.
#[local] Instance calm : Postgres := {| fault _ := None; db_now _ := 0 |}.
#[local] Instance ids : RowIds := {| id_of := event_index_column |}.
#[local] Instance clock : PgClock := {| pg_now _ := 1777013962 * 10 ^ 9 |}.

Definition live_pool : Pubkey := repeat 7 32.

Definition status_change (k : Z) : Event := MeteoraDammV2Event.SetPoolStatus {|
  MeteoraDammV2SetPoolStatusEvent.pool_address := live_pool;
  MeteoraDammV2SetPoolStatusEvent.signature := be_encode 64 (2 ^ 500 + k);
  MeteoraDammV2SetPoolStatusEvent.timestamp := (1777013900 + k) * 10 ^ 9;
  MeteoraDammV2SetPoolStatusEvent.slot := 415296100 + k;
  MeteoraDammV2SetPoolStatusEvent.transaction_index := None;
  MeteoraDammV2SetPoolStatusEvent.event_index := k;
  MeteoraDammV2SetPoolStatusEvent.status := k `mod` 2;
|}.

(** The highest id at the [n]-th statement. *)
Definition highest (n : nat) : Z := Z.of_nat (S (n `min` 3)).

#[local] Instance status_rows : Tables Event := {| rows_at n := map status_change (seqZ 1 (highest n)) |}.

Lemma rows_at_spec n w : w ∈ rows_at n <-> exists k, 1 <= k <= highest n /\ w = status_change k.
Proof.
  simpl. rewrite list_elem_of_fmap. split.
  - intros (k & -> & Hk%elem_of_seqZ). exists k. split; [lia|done].
  - intros (k & Hk & ->). exists k. split; [done|]. apply elem_of_seqZ. lia.
Qed.

Lemma status_change_stored k : 1 <= k <= 4 -> stored_row (status_change k).
Proof.
  intros Hk. assert (k = 1 \/ k = 2 \/ k = 3 \/ k = 4) as [-> | [-> | [-> | -> ] ] ] by lia;
    (split;
     [ vm_compute; reflexivity
     | split; [vm_compute; reflexivity|apply (bool_decide_unpack _); vm_compute; exact I]
     | split; [vm_compute; reflexivity|apply (bool_decide_unpack _); vm_compute; exact I]
     | done
     | unfold rfc3339_range; simpl; lia ]).
Qed.

#[local] Instance live_tables : EventTables.
Proof.
  split.
  - intros n w (k & Hk & ->)%rows_at_spec. apply rows_at_spec. exists k. split; [|done]. unfold highest in *. lia.
  - intros n w (k & Hk & ->)%rows_at_spec. apply status_change_stored. unfold highest in Hk. lia.
  - intros n. unfold rows_at, status_rows. rewrite map_map. apply NoDup_fmap_2_strong; [|apply NoDup_seqZ].
    intros x y _ _ Hxy. assert (MeteoraDammV2Event.timestamp (status_change x) =
      MeteoraDammV2Event.timestamp (status_change y)) as Ht by exact (f_equal (fun k => fst (fst k)) Hxy).
    cbn [MeteoraDammV2Event.timestamp status_change MeteoraDammV2SetPoolStatusEvent.timestamp] in Ht. lia.
  - intros n a b (x & _ & ->)%rows_at_spec (y & _ & ->)%rows_at_spec _ Hxy.
    assert (x = y) as -> by exact Hxy. done.
Qed.

(** ** The catalogues: the pool, and no token *)

#[local] Instance live_catalogue : PoolCatalog := {
  find_by_addresses l := query_ret (map (fun a => Pool.mk a MeteoraDammV2 None None 0) l);
}.
#[local] Instance live_catalogue_laws : PoolCatalogLaws.
Proof.
  split. intros l n. apply served_ret. apply Forall_forall. intros p (a & -> & Ha)%list_elem_of_fmap. done.
Qed.
#[local] Instance live_tokens : TokenMetadataLookup := { find_by_mints _ := query_ret [] }.
#[local] Instance live_tokens_laws : TokenMetadataLaws.
Proof. split. intros l n. apply served_ret. done. Qed.

(** ** A poller of the status changes *)

#[local] Notation status := PoolChangeTable.MeteoraDammV2Status.
#[local] Notation status_source := (EventSource.source status).

Definition two_ticks : list Wake := [Ticked 1 0 false; Ticked 2 (2 * 10 ^ 9) false].
Definition two_more : list Wake := [Ticked 1 (4 * 10 ^ 9) false; Ticked 1 (6 * 10 ^ 9) false].

#[local] Notation after_two := (LivePoller.run status_source (LivePoller.new 0) two_ticks).

(** Anchored at 1: the rows 2 and 3, the second read again with the 4. *)
Example two_ticks_sent : map sent_id (LivePoller.broadcast after_two) = [2; 3].
Proof. vm_compute. reflexivity. Qed.

Lemma live_rows_are_sent_once_witness :
  map sent_id (LivePoller.broadcast after_two) = [2; 3] /\
  exists sent, LivePoller.broadcast after_two = sent /\ NoDup (map sent_id sent) /\ Forall (from_row status) sent.
Proof.
  split; [exact two_ticks_sent|].
  destruct (live_rows_are_sent_once status (LivePoller.new 0) two_ticks) as (sent & Hs & Hn & Hf & _).
  - reflexivity.
  - repeat constructor.
  - exists sent. exact (conj Hs (conj Hn Hf)).
Defined.

Lemma status_readable m k : 1 <= k <= highest m -> readable status m (status_change k).
Proof.
  intros Hk. split; [apply rows_at_spec; by exists k|].
  assert (highest m = 1 \/ highest m = 2 \/ highest m = 3 \/ highest m = 4) as Hh by (unfold highest; lia).
  assert (k = 1 \/ k = 2 \/ k = 3 \/ k = 4) as [-> | [-> | [-> | -> ] ] ] by lia; vm_compute; reflexivity.
Qed.

Lemma status_without_holes : without_holes status 1 0 highest.
Proof.
  split; [done| |unfold highest; lia].
  intros m k _ Hk. split.
  - intros (w & [Hw _] & <-). apply rows_at_spec in Hw as (j & Hj & ->).
    assert (id_of (status_change j) = j) as -> by reflexivity. lia.
  - intros Hle. exists (status_change k). split; [apply status_readable; lia|done].
Qed.

Lemma live_burst_drains_witness :
  let sent := map sent_id (LivePoller.broadcast (LivePoller.run status_source after_two two_more)) in
  sent = [2; 3; 4] /\ (exists k, sent = seqZ 2 k) /\ id_of (status_change 4) ∈ sent.
Proof.
  destruct (live_burst_drains status 1 0 highest (Some 1) two_ticks two_more) as [Hk Hin].
  - apply status_without_holes.
  - done.
  - vm_compute. reflexivity.
  - done.
  - done.
  - repeat constructor.
  - repeat constructor.
  - split; [vm_compute; reflexivity|]. split; [exact Hk|]. apply Hin; [|done].
    assert (LivePoller.statements after_two = 3%nat) as -> by (vm_compute; reflexivity).
    apply status_readable. done.
Defined.

(** A hole under an id read again at every tick, an hour long. *)
Example reread_hole_is_not_passed :
  let read_again := fold_left (fun w s =>
    LiveWatermark.settle (s * 10 ^ 9) (fst (LiveWatermark.fresh id (s * 10 ^ 9) [1; 3] w))) (seqZ 0 3600)
    (LiveWatermark.anchored 0) in
  LiveWatermark.floor read_again = 1.
Proof. vm_compute. reflexivity. Qed.

End StatusRows.

(** ** A feed of signals, turned *)

Module FeedTurned.
#[local] Instance calm : Postgres := {| fault _ := None; db_now _ := 0 |}.
#[local] Instance clock : PgClock := {| pg_now _ := 1777013962 * 10 ^ 9 |}.
#[local] Instance plain : BigDecimal Z := {| to_plain_string := dec_to_string |}.

#[local] Instance signal_catalogue : PoolCatalog := {
  find_by_addresses l := query_ret (map (fun a => Pool.mk a MeteoraDammV2 None None 0) l);
}.
#[local] Instance signal_catalogue_laws : PoolCatalogLaws.
Proof.
  split. intros l n. apply served_ret. apply Forall_forall. intros p (a & -> & Ha)%list_elem_of_fmap. done.
Qed.
#[local] Instance signal_tokens : TokenMetadataLookup := { find_by_mints _ := query_ret [] }.
#[local] Instance signal_tokens_laws : TokenMetadataLaws.
Proof. split. intros l n. apply served_ret. done. Qed.

(** Two signals at each instant. *)
Definition signal_row (k : Z) : SignalRow.t Z := {|
  SignalRow.id := k;
  SignalRow.detector := DETECTOR_FLOW_IMBALANCE;
  SignalRow.protocol := "meteora_damm_v2";
  SignalRow.pool_address := pubkey_to_string (repeat (k `mod` 2) 32);
  SignalRow.severity := if k =? 4 then "critical" else "warning";
  SignalRow.value := 8;
  SignalRow.threshold := None;
  SignalRow.message := None;
  SignalRow.triggered_at := (1777013900 + k / 2) * 10 ^ 9;
|}.

Definition signal_of (row : SignalRow.t Z) : SignalRecord.t Z :=
  SignalRecord.mk (SignalRow.id row) (Signal.mk DETECTOR_FLOW_IMBALANCE MeteoraDammV2
    (repeat (SignalRow.id row `mod` 2) 32) (if SignalRow.id row =? 4 then Critical else Warning) 8 None None
    (SignalRow.triggered_at row)).

Definition signal_rows : list (SignalRow.t Z) := map signal_row [1; 2; 3; 4; 5].
#[local] Instance signal_tables : Tables (SignalRow.t Z) := {| rows_at _ := signal_rows |}.

Lemma signals_still : still_feed signal_rows signal_of.
Proof.
  split; [done|done| | |].
  - apply (bool_decide_unpack _); vm_compute; exact I.
  - intros row (k & -> & Hk)%list_elem_of_fmap.
    assert (k = 1 \/ k = 2 \/ k = 3 \/ k = 4 \/ k = 5) as [-> | [-> | [-> | [-> | -> ] ] ] ]
      by (rewrite !elem_of_cons, elem_of_nil in Hk; tauto); vm_compute; reflexivity.
  - intros row (k & -> & Hk)%list_elem_of_fmap.
    assert (1 <= k <= 5) by (rewrite !elem_of_cons, elem_of_nil in Hk; lia).
    split; [|unfold in_int; simpl; rewrite andb_true_iff, !Z.leb_le; lia].
    unfold rfc3339_range. simpl. pose proof (Z.div_le_mono 1 k 2). pose proof (Z.div_le_mono k 5 2).
    change (1 / 2) with 0 in *. change (5 / 2) with 2 in *. lia.
Qed.

#[local] Notation signals := (list_signals (N := Z) (D := Z)).

(** The first page, two a page. *)
Definition first_page : SignalsParams.t := SignalsParams.mk None Next None None 2.

Definition ids_of_page (r : nat * result (PageResponse.t (EnrichedSignal.t Z)) ApiError) : option (list Z) :=
  match snd r with Ok page => Some (map SignalRecord.id (records page)) | Err _ => None end.

Example first_page_ids : ids_of_page (signals first_page 0%nat) = Some [5; 4].
Proof. vm_compute. reflexivity. Qed.

Definition first_cursor : string :=
  match snd (signals first_page 0%nat) with
  | Ok page => default "" (PageResponse.next_cursor page)
  | Err _ => ""
  end.

Example next_page_ids : ids_of_page (signals (turn first_page first_cursor Next) 1%nat) = Some [3; 2].
Proof. vm_compute. reflexivity. Qed.

Lemma first_page_continues :
  exists n' page, signals first_page 0%nat = (n', Ok page) /\ PageResponse.next_cursor page = Some first_cursor.
Proof.
  pose proof first_page_ids as Hids. unfold first_cursor.
  assert (match snd (signals first_page 0%nat) with Ok page => PageResponse.next_cursor page <> None | Err _ => False end) as Hsome
    by (vm_compute; discriminate).
  destruct (signals first_page 0%nat) as [n' [page|e]]; [|done]. exists n', page. split; [done|].
  simpl in *. by destruct (PageResponse.next_cursor page).
Qed.

(** The next page holds 3 and 2, and its previous one is the first again. *)
Lemma signal_pages_turn_back_witness :
  exists n' page, signals first_page 0%nat = (n', Ok page) /\ map SignalRecord.id (records page) = [5; 4] /\
    ids_of_page (signals (turn first_page first_cursor Next) 1%nat) = Some [3; 2] /\
    forall m, exists m' next, signals (turn first_page first_cursor Next) m = (m', Ok next) /\
      (records next <> [] -> exists back, PageResponse.prev_cursor next = Some back /\
        forall k, exists k' again, signals (turn first_page back Prev) k = (k', Ok again) /\
          records again = records page).
Proof.
  destruct first_page_continues as (n' & page & Hp & Hraw).
  destruct (signal_pages_turn_back signal_rows signal_of signals_still None None signals first_page 0%nat n' page
    route_all Hp) as [Hnext _].
  exists n', page. split; [done|]. split.
  { pose proof first_page_ids as Hids. rewrite Hp in Hids. by injection Hids. }
  split; [exact next_page_ids|].
  intros m. destruct (Hnext first_cursor Hraw m) as (m' & next & _ & _ & Hm & _ & Hback).
  exists m', next. split; [exact Hm|exact Hback].
Defined.
End FeedTurned.

(** ** A live connection *)

Module Connection.
#[local] Existing Instance StatusRows.calm.
#[local] Existing Instance StatusRows.ids.
#[local] Existing Instance StatusRows.clock.
#[local] Existing Instance StatusRows.status_rows.
#[local] Existing Instance StatusRows.live_catalogue.
#[local] Existing Instance StatusRows.live_tokens.
#[local] Existing Instance FeedTurned.plain.
#[local] Existing Instance FeedTurned.signal_tables.

(** One stream after the other is an order of [select_all]. *)
Lemma select_all_concat {A} (streams : list (list A)) : select_all streams (concat streams).
Proof.
  assert (forall done : list (list A), Forall (fun s => s = []) done -> select_all (done ++ streams) (concat streams)) as Hall.
  { induction streams as [|s streams IH]; intros done Hd.
    { rewrite app_nil_r. by constructor. }
    simpl. induction s as [|a s IHs]; [|by apply select_one].
    change (done ++ [] :: streams) with (done ++ [[]] ++ streams). rewrite app_assoc. apply IH.
    apply Forall_app. split; [done|]. by repeat constructor. }
  by apply (Hall []).
Qed.

(** What the pollers of a collection send, each woken in turn. *)
Definition sends (T : Type) `{EventTable T} `{LiveEventFeed T} (wakes : T -> list Wake) : list (LiveEvent.t T) :=
  concat (map (fun table => LivePoller.broadcast (LivePoller.run (EventSource.source table) (LivePoller.new 0)
    (wakes table))) ALL).

Lemma heard_all (T : Type) `{EventTable T} `{LiveEventFeed T} (wakes : T -> list Wake) :
  (forall table, Forall listening (wakes table)) -> collection_heard T (map Ok (sends T wakes)).
Proof.
  intros Hw. exists (sends T wakes). split.
  - eexists. split; [|apply select_all_concat]. induction ALL as [|table tables IH]; simpl; constructor; [|exact IH].
    by exists 0%nat, (wakes table).
  - exists (sends T wakes), []. rewrite app_nil_r. split_and!; [reflexivity|done|by left].
Qed.

Definition status_wakes (table : PoolChangeTable.t) : list Wake :=
  match table with PoolChangeTable.MeteoraDammV2Status => StatusRows.two_ticks | _ => [] end.
Definition asleep {T : Type} (table : T) : list Wake := [].

Definition channels : LiveChannels.t Z := {|
  LiveChannels.signals := [];
  LiveChannels.liquidity_changes := map Ok (sends LiquidityChangeTable.t asleep);
  LiveChannels.pool_creations := map Ok (sends PoolCreationTable.t asleep);
  LiveChannels.position_changes := map Ok (sends PositionChangeTable.t asleep);
  LiveChannels.position_fee_claims := map Ok (sends PositionFeeClaimTable.t asleep);
  LiveChannels.protocol_fee_claims := map Ok (sends ProtocolFeeClaimTable.t asleep);
  LiveChannels.reward_claims := map Ok (sends RewardClaimTable.t asleep);
  LiveChannels.reward_changes := map Ok (sends RewardChangeTable.t asleep);
  LiveChannels.pool_changes := map Ok (sends PoolChangeTable.t status_wakes);
|}.

Lemma channels_fed : fed channels.
Proof.
  split; try (apply heard_all; by intros []; repeat constructor).
  exists []. split; [by exists 0%nat, []|]. exists [], []. split_and!; [reflexivity|done|by left].
Qed.

Definition request : LiveRequest.t := LiveRequest.mk [LivePoolChanges; LiveSignals] None.

Definition merged : TopicStream Z := concat (topic_streams channels request).

Lemma connection_meets_a_row_once_witness :
  map Delivery.id (deliveries merged) = [2; 3] /\
  map Message.event (live_sse merged 5) = ["pool-changes"; "pool-changes"] /\
  NoDup (map delivery_key (take 5 (deliveries merged))).
Proof.
  destruct (connection_meets_a_row_once channels "pool-changes,signals" None request merged 5) as (_ & Hevent & Hk & _).
  - exact channels_fed.
  - vm_compute. reflexivity.
  - apply select_all_concat.
  - split; [vm_compute; reflexivity|]. split; [rewrite Hevent; vm_compute; reflexivity|exact Hk].
Defined.
End Connection.
